(* ===== verification/_CoqProject ===== *)
-Q . S2P
Prelude.v
Types.v
Registry.v
Concrete.v
Names.v
CRD.v
Kube.v
Hostname.v
Attrs.v
KubeInventory.v
InventoryProofs.v
InvMetrics.v
InvClient.v
NullInventory.v
InventoryService.v
Order.v
Manifest.v
Deployment.v
Deploy.v
Monitor.v
Balance.v
IgnoreList.v
HostnameOp.v
Ingress.v
HttpRoute.v
Migrations.v
Declarations.v
MetalLB.v
IPOp.v
BidService.v
ProviderAttrs.v
ManifestService.v
Pricing.v
Builder.v
NetPol.v
KubeApply.v
KubeDeploy.v
KubeQuery.v
KubeExamples.v
InvConfig.v
NodeDiscovery.v
NodeMonitor.v
InvCluster.v
InvStorage.v
ClusterService.v
PConfig.v
AccountQuerier.v
HttpErrors.v
GatewayAuth.v
Gateway.v
GatewayStreams.v
KubeExec.v
Webhook.v
ServiceDiscovery.v
Sidecar.v
CertIssuer.v
Logging.v
