(* ===== verification/Prelude.v ===== *)
(** * Verification of the Akash provider daemon

    The provider daemon (Go, under [src/]) sells compute capacity on the Akash
    market. It bids on orders, receives manifests for the leases it wins, deploys
    them on a Kubernetes cluster, watches them, withdraws what they earn and tears
    them down when they close. Three operators run beside it: one routes hostnames,
    one leased IPs, one takes the inventory of the nodes. Tenants reach it through a
    REST and a gRPC gateway. Its parts are event loops that own their state and talk
    over channels and a bus, or through resources of the cluster. This library models
    those loops as step functions on explicit states, the routines they call as
    functions, and proves what makes them correct.

    ** Parts and files

    Shared by all:
    - [Prelude] (this file): machine integers, results, strings, lists, ranges over
      maps, reachability, tactics and hints.
    - [Types], [Concrete]: identifiers, resources, and the class [InventoryAPI] of
      the operations on quantities and clusters that come from other modules, with
      its laws; [Concrete] is an instance of both.
    - [Registry]: a table of children that are started and report their end, as the
      services of the bid engine and of the manifests keep it.
    - [Names]: the namespace and the labels of a lease, printing and parsing.
    - [Kube]: the calls on one kind of Kubernetes object, with their laws, and a
      server that satisfies them.

    From an order to a lease:
    - [BidService], [Order]: [bidengine/service.go], [order.go]. One monitor per
      order, the catch-up over the chain, and one order from its first query to the
      end of its cleanup.
    - [ProviderAttrs], [Pricing]: [bidengine/provider_attributes.go], [pricing.go],
      [shellscript.go].
    - [Attrs], [KubeInventory], [InventoryProofs], [InvMetrics]: placement of a
      reservation on the nodes and what is reported of the capacity
      ([cluster/kube/operators/clients/inventory/], [metrics.go]).
    - [InvClient], [NullInventory]: where the inventory comes from: the client of
      the inventory operator, and the stand-in without one.
    - [InventoryService]: [cluster/inventory.go], [cluster/reservation.go]. The
      reservations, leased IPs and external ports.
    - [ManifestService], [Manifest]: [manifest/]. One manager and one watchdog per
      deployment, and what they accept and publish.
    - [Hostname]: [cluster/hostname.go]. The reserved hostnames.

    From a lease to the cluster:
    - [ClusterService], [Deployment], [Deploy], [Monitor]: [cluster/service.go],
      [manager.go], [manager_cleanup.go], [monitor.go]. One manager per lease, what
      a deploy and a teardown do, the health monitor, the reconciliation at start.
    - [Balance]: [balance_checker.go]. Funds checks and withdrawals; the state of a
      lease's monitor is shared by pointer, so it lives in a heap.
    - [CRD]: the manifest as a custom resource and back
      ([pkg/apis/akash.network/v2beta2/]).
    - [Builder], [NetPol]: [cluster/kube/builder/]. The objects of a lease and what
      its network policies admit.
    - [KubeApply], [KubeDeploy], [KubeQuery], [KubeExamples]: [cluster/kube/client.go],
      [apply.go], [cleanup.go]. Applying the objects, deploying with its roll-back,
      tearing down, the queries; a concrete server and lease.
    - [KubeExec], [Webhook]: [cluster/kube/client_exec.go], [client_attestation.go],
      [webhook/]. Commands and quotes in the pods of a lease, and the admission
      webhook that adds the attestation sidecar.
    - [Sidecar]: [sidecar/attestation/]. The evidence the sidecar serves, the formats in
      which devices give it, and the helper in C that collects it from the GPUs
      ([nvml-helper/nvml_attestation.c]).
    - [Migrations]: [migrations/], [migrate_run.go]. What a start migrates.
    - [CertIssuer]: [tools/certissuer/]. The provider's own certificates: their files, the
      account they are obtained with, and their renewal.
    - [Logging]: [tools/logging/]. What the options of logging mean, and what is logged.

    The operators:
    - [IgnoreList]: [operator/common/].
    - [HostnameOp], [Ingress], [HttpRoute]: [operator/hostname/], [cluster/kube/gateway/].
      The table of hostnames and the two ways of routing them.
    - [Declarations], [MetalLB], [IPOp]: the resources that declare hostnames and IPs,
      the services that carry leased IPs, and the operator between them
      ([operator/ip/]).
    - [ServiceDiscovery]: [cluster/util/service_discovery_agent.go] and
      [cluster/kube/operators/clients/ip/]. Finding the IP operator and asking it.
    - [InvConfig], [NodeDiscovery], [NodeMonitor], [InvCluster], [InvStorage]:
      [operator/inventory/]. Configuration, what is known of a node, the loop that
      keeps it, the cluster that is published, and the storage drivers.

    The gateway:
    - [PConfig], [AccountQuerier]: [tools/pconfig/], [cmd/provider-services/cmd/certs.go].
      The storage of accounts and certificates and the lookups behind authentication.
    - [HttpErrors], [GatewayAuth], [Gateway], [GatewayStreams]: [gateway/],
      [utils/httperror/]. Errors as answers, who a request is from, what each endpoint
      does, and the streams of logs, events and shells.

    ** How the code is modelled

    A Go struct is a record, an enumeration an inductive type, a map a [gmap] or,
    for a set, a [gset]; fixed-width integers are integers reduced by [wrap32],
    [wrap64] or [to_int64] where the code computes with them. A function returning
    an error returns [result] or [option]; a panic is a value of its own where it
    can matter. A [select] loop is a function from a state and the case that fires
    to the next state and the effects (calls, messages, answers) it has; a case
    whose channel is nil is refused. The histories of a loop are an inductive
    relation, and its properties hold for every sequence of events, so for every
    interleaving of the goroutines that send them. Where goroutines can wait for each
    other (the shell, the account querier, the node connector, the inventory client)
    the channels are part of the state and waiting for ever is a state without a step.
    What goes over the network, the clock and the random numbers are carried by the
    events. Maps are ranged over in the order of an arbitrary [GoRange].

    Code of other modules is a class with the operations the source calls, and what
    is relied on is a class of laws beside it, always with an instance in the
    library: [InventoryAPI]/[InventoryLaws], [LeaseHash], [ServiceProtocolAPI], [SDK],
    [JWT], [Crypto], [Buckets], [PricingAPI] and others.

    Components meet at interfaces: the hostname operator is proved against [Router]
    and [RouterLaws], which [Ingress] and [HttpRoute] implement; [HttpRoute] is
    itself proved against [KubeCollection]/[KubeLaws] and a [GatewayProvider]; the IP
    operator against [Passthroughs], which [MetalLB] implements; the manifest manager
    against [HostnameClient], which [Hostname] implements; the account querier
    against [Storage], which both storages of [PConfig] implement; a deploy against
    [Cluster]/[ClusterLaws], which the server of [KubeExamples] satisfies.

    ** What is shown

    Placement is total, refuses without side effects, never charges a node beyond
    what it has, and honours interconnect groups; of the reported totals the available
    ones, those of the storage classes included, fall by exactly what a reservation asks
    for and the allocatable ones stay. The inventory service conserves ports and does not
    over-commit leased IPs. An order reserves and bids at most once and settles its
    reservation and its bid however it ends; the catch-up never records a page whose
    orders have had no monitor. Every submitted manifest is answered, and only vetted ones
    are published. A deployment manager never runs two operations at a time, deploys
    the latest version, and its teardown is final. Withdrawals are neither lost nor
    doubled.

    Tenants are kept apart: a deploy leaves the objects of other leases alone, network
    policies let pods of two leases connect only where the one exposes a port and the
    other's egress permits it, hostnames and IPs stay with their owner, a REST request for
    a lease reaches only leases of the account it proves to be (the gRPC call for a quote
    is held to its scope only), and a command runs only in the pods of the lease. What a
    deploy wants is in the cluster when it succeeds, except for an update the API server
    refused, which the code does not notice; a container has what the lease has and no
    more, its attestation sidecar included, and a confidential pod is created with one unless
    the sidecar is turned off or a service has its name. A quote is evidence for the
    tenant's nonce from the CPU and, if the GPUs passed the probe at the start, from every
    GPU, or an error; what the helper collects of the GPUs is what the sidecar reads. The
    stored manifest is read back as it was written.

    The operators' tables mirror the cluster whatever calls fail; a node's accounting
    is the sum of what the pods on it ask for, with volumes in memory counted once per
    container; what a subscriber is given of the inventory are the states its client took,
    in order and once, and only a new connection drops one. The two storages of accounts
    agree, and every lookup is answered with the key of the account it is for, with either
    storage, unless it fails three times; for the database this is said of secp256k1 keys
    whose bytes outlive their transaction. The lines of a log are delivered in order, up to
    the first that is too long or cannot be read. A
    certificate that was stored is read back, a start keeps the account of the last one,
    and logging configured in one process means the same in the next.

    Where the code does something else than it means to, a theorem says what it does:
    these are the findings of the manifest.

    ** Bounds and fuel

    The labelled loop of [Adjust] runs on fuel, one more than the number of resource
    units; [Adjust_total] shows this is always enough, and [NullInventory] uses the
    same. [activeLeases] runs on fuel standing for the timeout of a pass; it needs as
    many steps as the chain has pages. The arguments of a shell command are read with
    as much fuel as the request has parameters, and one more, since each step finds
    one of them. The bytes of a serial number are read with its size in bits as fuel.
    The wait for a filter to be accepted polls as often as the timeout allows.
    Everything else recurs on its data.

    ** What is not modelled

    The command line, the start-up that wires the services together and its flags
    ([service.go], [run.go]); the ACME protocol behind the certificate issuer; the devices
    of the sidecar and NVML, the sidecar's key and the set-up of its file system; logs and events of
    Kubernetes as they are fetched; metrics; the encodings (JSON, YAML, PEM, protocol
    buffers) and the web servers, which are library code; generated
    code and mocks. Retries inside one query are folded into its final answer, and
    contexts that only cancel a call into the failure of that call. *)

From stdpp Require Import base gmap list strings relations tactics.
From Stdlib Require Import ZArith Lia Ascii String.

Set Default Proof Using "Type".

(** ** Machine integers

    Go's fixed-width integers are mathematical integers reduced on every
    arithmetic step. [uint] and [int] are 64 bits wide on every platform
    the provider is built for. *)

Declare Scope go_scope.
Delimit Scope go_scope with go.

Definition wrap (w : Z) (z : Z) : Z := (z mod 2 ^ w)%Z.
Definition wrap32 : Z -> Z := wrap 32.
Definition wrap64 : Z -> Z := wrap 64.

(** Two's complement reading of a 64-bit pattern: Go's [int64(x)]. *)
Definition to_int64 (z : Z) : Z :=
  let u := wrap64 z in if (u <? 2 ^ 63)%Z then u else (u - 2 ^ 64)%Z.

Definition is_uint (w : Z) (z : Z) : Prop := (0 <= z < 2 ^ w)%Z.
Definition is_int64 (z : Z) : Prop := (- 2 ^ 63 <= z < 2 ^ 63)%Z.

Notation "a +u64 b" := (wrap64 (a + b)) (at level 50, left associativity) : go_scope.
Notation "a -u64 b" := (wrap64 (a - b)) (at level 50, left associativity) : go_scope.
Notation "a *u32 b" := (wrap32 (a * b)) (at level 40, left associativity) : go_scope.
Notation "a -u32 b" := (wrap32 (a - b)) (at level 50, left associativity) : go_scope.

Lemma wrap_id w z : is_uint w z -> wrap w z = z.
Proof. intros Hz. unfold wrap. apply Z.mod_small. exact Hz. Qed.

Lemma wrap_uint w z : (0 <= w)%Z -> is_uint w (wrap w z).
Proof. intros Hw. unfold wrap, is_uint. apply Z.mod_pos_bound, Z.pow_pos_nonneg; lia. Qed.

Lemma wrap_add_l w a b : wrap w (wrap w a + b) = wrap w (a + b).
Proof. unfold wrap. apply Zplus_mod_idemp_l. Qed.

Lemma wrap_le w z : (0 <= w)%Z -> (0 <= z)%Z -> (wrap w z <= z)%Z.
Proof. intros Hw Hz. unfold wrap. apply Z.mod_le; [lia|]. apply Z.pow_pos_nonneg; lia. Qed.

Lemma to_int64_id z : is_int64 z -> to_int64 z = z.
Proof.
  unfold is_int64, to_int64, wrap64, wrap. intros Hz.
  destruct (Z_lt_le_dec z 0) as [Hn|Hn].
  - replace (z mod 2 ^ 64)%Z with (z + 2 ^ 64)%Z.
    2:{ rewrite <- (Z.mod_small (z + 2 ^ 64) (2 ^ 64)) by lia.
        rewrite <- Z.add_mod_idemp_r by lia.
        rewrite Z.mod_same by lia. rewrite Z.add_0_r. reflexivity. }
    destruct (Z.ltb_spec (z + 2 ^ 64) (2 ^ 63)); lia.
  - rewrite Z.mod_small by lia. destruct (Z.ltb_spec z (2 ^ 63)); lia.
Qed.

(** ** Results

    A Go function returning [(T, error)] is a function into [result]. The
    error values of each component are an inductive type of its own. *)

Inductive result (E A : Type) : Type :=
| Ok (a : A)
| Err (e : E).
Arguments Ok {E A} a.
Arguments Err {E A} e.

Definition bind_result {E A B} (r : result E A) (k : A -> result E B) : result E B :=
  match r with Ok a => k a | Err e => Err e end.

Notation "'let?' x ':=' r 'in' k" := (bind_result r (fun x => k))
  (at level 10, x pattern, r at level 100, k at level 200) : go_scope.

Definition is_ok {E A} (r : result E A) : bool :=
  match r with Ok _ => true | Err _ => false end.

Lemma bind_result_Ok {E A B} (r : result E A) (k : A -> result E B) b :
  bind_result r k = Ok b <-> exists a, r = Ok a /\ k a = Ok b.
Proof. destruct r; simpl; split; [eauto|intros (? & [= <-] & ?); done|done|by intros (? & ? & _)]. Qed.

(** ** Strings

    [strings.ToLower], [strings.HasSuffix], [strings.HasPrefix] and
    [strings.Split] on byte strings. Case folding is that of ASCII. *)

Definition lower_ascii (c : ascii) : ascii :=
  let n := nat_of_ascii c in
  if (65 <=? n)%nat && (n <=? 90)%nat then ascii_of_nat (n + 32) else c.

Fixpoint to_lower (s : string) : string :=
  match s with
  | EmptyString => EmptyString
  | String c s' => String (lower_ascii c) (to_lower s')
  end.

Definition has_prefix (s p : string) : bool := String.prefix p s.

Fixpoint has_suffix (s p : string) : bool :=
  String.eqb s p ||
  match s with
  | EmptyString => false
  | String _ s' => has_suffix s' p
  end.

Fixpoint split_aux (sep : ascii) (s : string) (acc : string) : list string :=
  match s with
  | EmptyString => [acc]
  | String c s' =>
      if Ascii.eqb c sep then acc :: split_aux sep s' EmptyString
      else split_aux sep s' (acc ++ String c EmptyString)
  end.

(** [strings.Split(s, sep)] for a one-byte separator: never empty. *)
Definition split (sep : ascii) (s : string) : list string :=
  split_aux sep s EmptyString.

Lemma lower_ascii_idem c : lower_ascii (lower_ascii c) = lower_ascii c.
Proof. destruct c as [[] [] [] [] [] [] [] []]; reflexivity. Qed.

Lemma to_lower_idem s : to_lower (to_lower s) = to_lower s.
Proof. induction s as [|c s IH]; simpl; [done|]. by rewrite lower_ascii_idem, IH. Qed.

Lemma has_suffix_spec s p : has_suffix s p = true <-> exists q, s = (q +:+ p)%string.
Proof.
  induction s as [|c s IH]; cbn [has_suffix].
  - rewrite orb_false_r, String.eqb_eq. split.
    + intros <-. by exists EmptyString.
    + intros [[|] Hq]; unfold String.append in Hq; congruence.
  - rewrite orb_true_iff, String.eqb_eq, IH. split.
    + intros [<-|[q ->]]; [by exists EmptyString|by exists (String c q)].
    + intros [[|d q] Hq]; unfold String.append in Hq; fold String.append in Hq;
        [left; congruence|].
      right. exists q. congruence.
Qed.

Fixpoint contains_char (c : ascii) (s : string) : bool :=
  match s with
  | EmptyString => false
  | String d s' => Ascii.eqb d c || contains_char c s'
  end.

Lemma string_app_nil_r (s : string) : (s +:+ EmptyString)%string = s.
Proof. induction s as [|c s IH]; [done|]. change (String c (s +:+ "") = String c s). by rewrite IH. Qed.

Lemma string_app_snoc (a : string) c b :
  ((a +:+ String c EmptyString) +:+ b)%string = (a +:+ String c b)%string.
Proof.
  induction a as [|d a IH]; [done|].
  change (String d ((a +:+ String c "") +:+ b) = String d (a +:+ String c b)). by rewrite IH.
Qed.

Lemma split_aux_last sep s acc :
  contains_char sep s = false -> split_aux sep s acc = [(acc +:+ s)%string].
Proof.
  revert acc. induction s as [|c s IH]; intros acc Hc; simpl in *.
  - by rewrite string_app_nil_r.
  - apply orb_false_iff in Hc as [Hc Hs]. rewrite Hc, IH by done. by rewrite string_app_snoc.
Qed.

Lemma split_aux_cons sep s t acc :
  contains_char sep s = false ->
  split_aux sep (s +:+ String sep t) acc = (acc +:+ s)%string :: split_aux sep t EmptyString.
Proof.
  revert acc. induction s as [|c s IH]; intros acc Hc; simpl in Hc.
  - change (split_aux sep (String sep t) acc = (acc +:+ "") :: split_aux sep t "").
    cbn [split_aux]. by rewrite Ascii.eqb_refl, string_app_nil_r.
  - apply orb_false_iff in Hc as [Hc Hs].
    change (split_aux sep (String c (s +:+ String sep t)) acc =
            (acc +:+ String c s) :: split_aux sep t "").
    cbn [split_aux]. rewrite Hc, IH by done. by rewrite string_app_snoc.
Qed.

(** Splitting peels off the separator-free components one by one. *)
Lemma split_cons sep s t :
  contains_char sep s = false -> split sep (s +:+ String sep t) = s :: split sep t.
Proof. intros H. unfold split. by rewrite split_aux_cons. Qed.

Lemma split_last sep s : contains_char sep s = false -> split sep s = [s].
Proof. intros H. unfold split. by rewrite split_aux_last. Qed.

(** ** Lists *)

(** The value [s[:i] ++ s[i+1:]] of Go's slice deletion idiom. *)
Definition remove_at {A} (i : nat) (l : list A) : list A := take i l ++ drop (S i) l.

(** The first position satisfying [p], with its element: a [for idx, x := range]
    loop that stops at the first match. *)
Fixpoint find_index {A} (p : A -> bool) (l : list A) : option (nat * A) :=
  match l with
  | [] => None
  | x :: l' => if p x then Some (0%nat, x)
               else match find_index p l' with
                    | Some (i, y) => Some (S i, y)
                    | None => None
                    end
  end.

Lemma find_index_Some {A} (p : A -> bool) l i x :
  find_index p l = Some (i, x) ->
  l !! i = Some x /\ p x = true /\ forall j y, (j < i)%nat -> l !! j = Some y -> p y = false.
Proof.
  revert i. induction l as [|y l IH]; intros i; simpl; [done|].
  destruct (p y) eqn:Hy.
  - intros ?; simplify_eq. repeat split; auto. intros; lia.
  - destruct (find_index p l) as [[j z]|] eqn:Hf; intros ?; simplify_eq.
    destruct (IH j eq_refl) as (H1 & H2 & H3). repeat split; auto.
    intros [|k] w Hk Hl; simpl in *; [congruence|]. apply (H3 k); [lia|done].
Qed.

Lemma find_index_None {A} (p : A -> bool) l :
  find_index p l = None <-> forall x, x ∈ l -> p x = false.
Proof.
  induction l as [|y l IH]; simpl.
  - split; [|done]. intros _ x Hx. by apply not_elem_of_nil in Hx.
  - destruct (p y) eqn:Hy.
    + split; [done|]. intros H. specialize (H y (list_elem_of_here _ _)). congruence.
    + destruct (find_index p l) as [[]|] eqn:Hf.
      * split; [done|]. intros H. destruct IH as [_ IH].
        assert (@None (nat * A) = None) by done.
        discriminate IH. intros x Hx. apply H. by right.
      * split; [|done]. intros _ x [->|Hx]%elem_of_cons; [done|]. by apply IH.
Qed.

(** What a loop has added to a set, read off its body. *)
Lemma foldl_adds {A B} (f : A -> B -> A) (P : A -> Prop) (Q : B -> Prop) l a :
  (forall a b, P (f a b) <-> P a \/ Q b) ->
  P (foldl f a l) <-> P a \/ exists b, b ∈ l /\ Q b.
Proof.
  intros Hf. revert a. induction l as [|b l IH]; intros a; simpl.
  - split; [by left|]. intros [?|(b & Hb & _)]; [done|]. by apply not_elem_of_nil in Hb.
  - rewrite IH, Hf. setoid_rewrite elem_of_cons. naive_solver.
Qed.

(** An invariant of a loop whose body may use the element it is given. *)
Lemma foldl_keeps {A B} (f : A -> B -> A) (P : A -> Prop) l a :
  (forall a b, b ∈ l -> P a -> P (f a b)) -> P a -> P (foldl f a l).
Proof.
  revert a. induction l as [|b l IH]; intros a Hf Ha; simpl; [done|].
  apply IH; [|apply Hf; [left|done]]. intros a' b' Hb. apply Hf. by right.
Qed.

Lemma list_filter_none {A} (P : A -> Prop) `{!forall x, Decision (P x)} (l : list A) :
  (forall x, x ∈ l -> ~ P x) -> filter P l = [].
Proof.
  induction l as [|x l IH]; intros Hl; [done|]. rewrite filter_cons_False by (apply Hl; left).
  apply IH. intros y Hy. apply Hl. by right.
Qed.

Lemma list_filter_all {A} (P : A -> Prop) `{!forall x, Decision (P x)} (l : list A) :
  (forall x, x ∈ l -> P x) -> filter P l = l.
Proof.
  induction l as [|x l IH]; intros Hl; [done|]. rewrite filter_cons_True by (apply Hl; left).
  f_equal. apply IH. intros y Hy. apply Hl. by right.
Qed.

(** The sum of [f] over a list, and how updates move it. *)
Definition sumZ {A} (f : A -> Z) (l : list A) : Z := foldr (fun x acc => f x + acc)%Z 0%Z l.

Lemma sumZ_app {A} (f : A -> Z) l k : sumZ f (l ++ k) = (sumZ f l + sumZ f k)%Z.
Proof. induction l as [|x l IH]; simpl; [done|]. rewrite IH. lia. Qed.

Lemma sumZ_perm {A} (f : A -> Z) l l' : l ≡ₚ l' -> sumZ f l = sumZ f l'.
Proof. induction 1; simpl; lia. Qed.

Lemma sumZ_insert {A} (f : A -> Z) l i x y :
  l !! i = Some x -> sumZ f (<[i := y]> l) = (sumZ f l - f x + f y)%Z.
Proof.
  revert i. induction l as [|z l IH]; intros [|i] Hi; simplify_eq/=; [lia|].
  rewrite (IH i Hi). lia.
Qed.

Lemma sumZ_remove_at {A} (f : A -> Z) l i x :
  l !! i = Some x -> sumZ f (remove_at i l) = (sumZ f l - f x)%Z.
Proof.
  intros Hi. unfold remove_at. rewrite sumZ_app.
  rewrite <- (take_drop_middle l i x Hi) at 3. rewrite sumZ_app. simpl. lia.
Qed.

Lemma sumZ_nonneg {A} (f : A -> Z) l : (forall x, x ∈ l -> 0 <= f x)%Z -> (0 <= sumZ f l)%Z.
Proof.
  induction l as [|x l IH]; simpl; intros Hf; [lia|].
  assert (0 <= f x)%Z by (apply Hf; left). assert (0 <= sumZ f l)%Z; [|lia].
  apply IH. intros y Hy. apply Hf. by right.
Qed.

(** How many elements satisfy [p]. *)
Definition countb {A} (p : A -> bool) (l : list A) : nat := List.length (List.filter p l).

Lemma countb_app {A} (p : A -> bool) l k : countb p (l ++ k) = (countb p l + countb p k)%nat.
Proof. unfold countb. by rewrite List.filter_app, List.length_app. Qed.

(** ** Ranging over maps

    Go visits the entries of a map in an unspecified order. [GoRange] is any such
    order; what is proved with it holds for all of them. *)

Class GoRange := {
  range_map {K} {HE : EqDecision K} {HC : Countable K} {A} (m : gmap K A) : list (K * A);
  range_set (s : gset string) : list string;
  range_map_perm {K} {HE : EqDecision K} {HC : Countable K} {A} (m : gmap K A) :
    range_map m ≡ₚ map_to_list m;
  range_set_perm (s : gset string) : range_set s ≡ₚ elements s
}.

Lemma elem_of_range_map `{GoRange} `{Countable K} {A} (m : gmap K A) k x :
  (k, x) ∈ range_map m <-> m !! k = Some x.
Proof. by rewrite range_map_perm, elem_of_map_to_list. Qed.

Lemma elem_of_range_set `{GoRange} (s : gset string) x : x ∈ range_set s <-> x ∈ s.
Proof. by rewrite range_set_perm, elem_of_elements. Qed.

Lemma range_map_keys `{GoRange} `{Countable K} {A} (m : gmap K A) :
  NoDup (range_map m).*1 /\ List.length (range_map m) = size m.
Proof. rewrite range_map_perm. split; [apply NoDup_fst_map_to_list|by rewrite length_map_to_list]. Qed.

(** One order there is. *)
Definition sorted_range : GoRange :=
  {| range_map _ _ _ _ m := map_to_list m; range_set s := elements s;
     range_map_perm _ _ _ _ _ := reflexivity _; range_set_perm _ := reflexivity _ |}.

(** ** Reachability

    Event loops are step relations; a property of every state the loop can
    be in is proved by rule induction on [rtc]. *)

Lemma rtc_preserves {S} (R : relation S) (I : S -> Prop) :
  (forall s s', I s -> R s s' -> I s') ->
  forall s s', I s -> rtc R s s' -> I s'.
Proof. intros Hstep s s' HI Hr. induction Hr; eauto. Qed.

(** ** Automation *)

Create HintDb provider discriminated.
#[export] Hint Resolve wrap_uint to_lower_idem : provider.

(** Closes a goal about the elements of the empty list. *)
Ltac no_elem :=
  repeat intro; match goal with H : _ ∈ _ |- _ => by apply not_elem_of_nil in H end.

(** Splits every [match] in sight, simplifying and closing what it can. *)
Ltac go_cases :=
  repeat (case_match; simplify_eq/=; try done).
