(* ===== verification/Types.v ===== *)
(** * Shared data model

    The identifiers, resource descriptions and scheduler parameters the
    components exchange: [cluster/types/v1beta3/types.go],
    [cluster/reservation.go], [pkg/apis/akash.network/v2beta2/manifest.go] and
    the chain types the provider reads, with the interface of the inventory
    library the provider calls. *)

From stdpp Require Import base gmap list strings tactics.
From Stdlib Require Import ZArith Lia Ascii.
From S2P Require Import Prelude.

(** ** Identifiers *)

(** [mtypes.LeaseID] and [mtypes.OrderID], as far as the provider reads them. *)
Record LeaseID := mkLeaseID {
  l_owner : string;
  l_dseq : Z;
  l_gseq : Z;
  l_oseq : Z;
  l_provider : string
}.

#[export] Instance LeaseID_eq_dec : EqDecision LeaseID.
Proof. solve_decision. Defined.

#[export] Instance LeaseID_countable : Countable LeaseID.
Proof.
  refine (inj_countable'
    (fun l => (l_owner l, l_dseq l, l_gseq l, l_oseq l, l_provider l))
    (fun '(o, d, g, s, p) => mkLeaseID o d g s p) _).
  by intros [].
Defined.

Record OrderID := mkOrderID {
  o_owner : string;
  o_dseq : Z;
  o_gseq : Z;
  o_oseq : Z
}.

#[export] Instance OrderID_eq_dec : EqDecision OrderID.
Proof. solve_decision. Defined.

#[export] Instance OrderID_countable : Countable OrderID.
Proof.
  refine (inj_countable' (fun o => (o_owner o, o_dseq o, o_gseq o, o_oseq o))
    (fun '(o, d, g, s) => mkOrderID o d g s) _).
  by intros [].
Defined.

(** [dtypes.DeploymentID]. *)
Record DeploymentID := mkDeploymentID { dp_owner : string; dp_dseq : Z }.

#[export] Instance DeploymentID_eq_dec : EqDecision DeploymentID.
Proof. solve_decision. Defined.

#[export] Instance DeploymentID_countable : Countable DeploymentID.
Proof.
  refine (inj_countable' (fun d => (dp_owner d, dp_dseq d)) (fun '(o, d) => mkDeploymentID o d) _).
  by intros [].
Defined.

(** [LeaseID.DeploymentID()]. *)
Definition lease_deployment (l : LeaseID) : DeploymentID := mkDeploymentID (l_owner l) (l_dseq l).

(** [LeaseID.OrderID()]. *)
Definition lease_order (l : LeaseID) : OrderID :=
  mkOrderID (l_owner l) (l_dseq l) (l_gseq l) (l_oseq l).

(** ** Resources *)

Record Attribute := mkAttribute { Key : string; Value : string }.

#[export] Instance Attribute_eq_dec : EqDecision Attribute.
Proof. solve_decision. Defined.

Abbreviation Attributes := (list Attribute).

Inductive EndpointKind := Endpoint_SHARED_HTTP | Endpoint_RANDOM_PORT | Endpoint_LEASED_IP.

#[export] Instance EndpointKind_eq_dec : EqDecision EndpointKind.
Proof. solve_decision. Defined.

Record Endpoint := mkEndpoint { Kind : EndpointKind; SequenceNumber : Z }.

#[export] Instance Endpoint_eq_dec : EqDecision Endpoint.
Proof. solve_decision. Defined.

(** [rtypes.CPU] and [rtypes.GPU]; a [ResourceValue] is its [Value()]. *)
Record Units := mkUnits { units : Z; u_attrs : Attributes }.
Record Memory := mkMemory { m_quantity : Z; m_attrs : Attributes }.
Record Storage := mkStorage { s_name : string; s_quantity : Z; s_attrs : Attributes }.

#[export] Instance Units_eq_dec : EqDecision Units.
Proof. solve_decision. Defined.
#[export] Instance Memory_eq_dec : EqDecision Memory.
Proof. solve_decision. Defined.
#[export] Instance Storage_eq_dec : EqDecision Storage.
Proof. solve_decision. Defined.

(** [rtypes.Resources]; the pointer fields may be nil. *)
Record Resources := mkResources {
  r_id : Z;
  r_cpu : option Units;
  r_memory : option Memory;
  r_storage : list Storage;
  r_gpu : option Units;
  r_endpoints : list Endpoint
}.

#[export] Instance Resources_eq_dec : EqDecision Resources.
Proof. solve_decision. Defined.

(** [dvbeta.ResourceUnit]: [Count] replicas of the same resources. *)
Record ResourceUnit := mkResourceUnit { ru_res : Resources; ru_count : nat }.

Record GroupSpec := mkGroupSpec {
  gs_name : string;
  gs_requirements : Attributes;
  gs_units : list ResourceUnit
}.

(** The implementations of [dtypes.ResourceGroup] the provider passes around:
    on-chain groups and group specs, by value or by pointer, and the off-chain
    manifest group of a recovered deployment. *)
Inductive ResourceGroup :=
| RGGroup (g : GroupSpec)
| RGGroupPtr (g : GroupSpec)
| RGGroupSpec (g : GroupSpec)
| RGGroupSpecPtr (g : GroupSpec)
| RGManifestGroup (name : string) (us : list ResourceUnit).

Definition GetResourceUnits (rg : ResourceGroup) : list ResourceUnit :=
  match rg with
  | RGGroup g | RGGroupPtr g | RGGroupSpec g | RGGroupSpecPtr g => gs_units g
  | RGManifestGroup _ us => us
  end.

Definition GetName (rg : ResourceGroup) : string :=
  match rg with
  | RGGroup g | RGGroupPtr g | RGGroupSpec g | RGGroupSpecPtr g => gs_name g
  | RGManifestGroup n _ => n
  end.

(** ** Confidential compute *)

Inductive TEEType := TEETypeNone | TEETypeCPU | TEETypeCPUGPU.
Inductive TEEPlatform := TEEPlatformNone | TEEPlatformTDX | TEEPlatformSNP.

#[export] Instance TEEType_eq_dec : EqDecision TEEType.
Proof. solve_decision. Defined.

Definition ParseTEEType (s : string) : option TEEType :=
  if String.eqb s "" then Some TEETypeNone
  else if String.eqb s "cpu" then Some TEETypeCPU
  else if String.eqb s "cpu-gpu" then Some TEETypeCPUGPU
  else None.

Definition IsCC (t : TEEType) : bool :=
  match t with TEETypeNone => false | _ => true end.

(** [RuntimeClass], with "" for none. *)
Definition RuntimeClassKataQemuSNP : string := "kata-qemu-snp".
Definition RuntimeClassKataQemuNvidiaGPUSNP : string := "kata-qemu-nvidia-gpu-snp".
Definition RuntimeClassKataQemuTDX : string := "kata-qemu-tdx".
Definition RuntimeClassKataQemuNvidiaGPUTDX : string := "kata-qemu-nvidia-gpu-tdx".

Record runtimeClassFilter := mkFilter { f_cc : bool; f_gpu : bool; f_snp : bool; f_tdx : bool }.

Definition runtimeClassAttrs (rc : string) : option runtimeClassFilter :=
  if String.eqb rc RuntimeClassKataQemuSNP then Some (mkFilter true false true false)
  else if String.eqb rc RuntimeClassKataQemuNvidiaGPUSNP then Some (mkFilter true true true false)
  else if String.eqb rc RuntimeClassKataQemuTDX then Some (mkFilter true false false true)
  else if String.eqb rc RuntimeClassKataQemuNvidiaGPUTDX then Some (mkFilter true true false true)
  else None.

(** The options [WithCC], [WithGPU], [WithSNP], [WithTDX] as the filters they set. *)
Definition WithGPU : runtimeClassFilter := mkFilter false true false false.

Definition RuntimeClass_Is (rc : string) (opts : list runtimeClassFilter) : bool :=
  match runtimeClassAttrs rc with
  | None => false
  | Some attrs =>
      forallb (fun required =>
        negb (f_cc required && negb (f_cc attrs)) &&
        negb (f_gpu required && negb (f_gpu attrs)) &&
        negb (f_snp required && negb (f_snp attrs)) &&
        negb (f_tdx required && negb (f_tdx attrs))) opts
  end.

Definition RuntimeClassForTEEType (t : TEEType) (p : TEEPlatform) : string :=
  let isGPU := match t with TEETypeCPUGPU => true | _ => false end in
  match p with
  | TEEPlatformTDX => if isGPU then RuntimeClassKataQemuNvidiaGPUTDX else RuntimeClassKataQemuTDX
  | TEEPlatformSNP => if isGPU then RuntimeClassKataQemuNvidiaGPUSNP else RuntimeClassKataQemuSNP
  | TEEPlatformNone => ""
  end.

Definition FilterGPUInterface (val : string) : string :=
  let v := to_lower val in if has_prefix v "sxm" then "sxm"%string else v.

Record InventoryOptions := mkInventoryOptions {
  DryRun : bool;
  opt_TEEType : TEEType;
  opt_TEEPlatform : TEEPlatform
}.

(** ** Scheduler parameters *)

Record SchedulerResourceGPU := mkSchedGPU {
  sg_vendor : string; sg_model : string; sg_memory_size : string; sg_interface : string
}.

Record SchedulerResourceInterconnect := mkSchedInterconnect {
  si_enabled : bool; si_units : Z; si_resource_name : string; si_fabric : string;
  si_nccl_hca_prefixes : list string
}.

Record SchedulerResources := mkSchedResources {
  sr_gpu : option SchedulerResourceGPU;
  sr_interconnect : option SchedulerResourceInterconnect
}.

Record SchedulerParams := mkSchedulerParams {
  sp_runtime_class : string;
  sp_resources : option SchedulerResources;
  sp_attestation_disabled : bool;
  sp_tee_type : string
}.

Definition emptySchedulerParams : SchedulerParams := mkSchedulerParams "" None false "".

#[export] Instance SchedulerResourceGPU_eq_dec : EqDecision SchedulerResourceGPU.
Proof. solve_decision. Defined.
#[export] Instance SchedulerResourceInterconnect_eq_dec : EqDecision SchedulerResourceInterconnect.
Proof. solve_decision. Defined.
#[export] Instance SchedulerResources_eq_dec : EqDecision SchedulerResources.
Proof. solve_decision. Defined.
#[export] Instance SchedulerParams_eq_dec : EqDecision SchedulerParams.
Proof. solve_decision. Defined.

(** [crd.ReservationClusterSettings]: scheduler parameters by resource id. A
    stored nil and an absent key read the same. *)
Abbreviation ReservationClusterSettings := (gmap Z (option SchedulerParams)).

(** ** The inventory library

    [pkg.akt.dev/go/inventory/v1] and [k8s.io/apimachinery/pkg/api/resource]
    are not part of the repository. The provider uses their quantities through
    the operations of [InventoryAPI]; the laws it relies on are those of
    [InventoryLaws]. *)

Record NodeCapabilities := mkNodeCapabilities {
  nc_storage_classes : list string;
  nc_interconnect_resource_name : string;
  nc_interconnect_fabric : string;
  nc_nccl_hca_prefixes : list string
}.

Record CPUInfo := mkCPUInfo {
  ci_id : string; ci_vendor : string; ci_model : string; ci_vcores : Z; ci_arch : string
}.
Record GPUInfo := mkGPUInfo {
  gi_vendor : string; gi_vendor_id : string; gi_name : string; gi_model_id : string;
  gi_memory_size : string; gi_interface : string
}.

Class InventoryAPI := {
  (** [resource.Quantity] with [NewQuantity], [Cmp(zero) < 0], [Set],
      [Value] and [MilliValue]. *)
  Quantity : Type;
  q_new : Z -> Quantity;
  q_negative : Quantity -> bool;
  q_set : Quantity -> Z -> Quantity;
  q_value : Quantity -> Z;
  q_milli : Quantity -> Z;
  (** [ResourcePair.SubNLZ] and [SubMilliNLZ] on the three quantities of a
      pair: [None] stands for the result false, which leaves the pair as it
      was; [ResourcePair.Available]. *)
  rp_sub : option Quantity * option Quantity * option Quantity -> Z ->
           option (option Quantity * option Quantity * option Quantity);
  rp_sub_milli : option Quantity * option Quantity * option Quantity -> Z ->
           option (option Quantity * option Quantity * option Quantity);
  rp_available : option Quantity * option Quantity * option Quantity -> Quantity;
  (** [Node.IsStorageClassSupported], a question about the capabilities. *)
  caps_support_class : NodeCapabilities -> string -> bool;
  (** [Attributes.Find(key).AsBool()] and [.AsString()] with the keys of
      package [sdl]. *)
  FindAsBool : Attributes -> string -> bool;
  FindAsString : Attributes -> string -> string;
  StorageAttributePersistent : string;
  StorageAttributeClass : string;
  (** [units.MemoryQuantityFromString] followed by [StringWithSuffix("Gi")]. *)
  ram_string : string -> option string;
  (** [validation.IsValidLabelValue] reports no error. *)
  IsValidLabelValue : string -> bool
}.

Section WithAPI.
Context {api : InventoryAPI}.

(** [inventoryV1.ResourcePair]: its quantities may be nil. *)
Record ResourcePair := mkResourcePair {
  rp_capacity : option Quantity;
  rp_allocatable : option Quantity;
  rp_allocated : option Quantity
}.

Definition rp_triple (p : ResourcePair) : option Quantity * option Quantity * option Quantity :=
  (rp_capacity p, rp_allocatable p, rp_allocated p).

Definition rp_of (t : option Quantity * option Quantity * option Quantity) : ResourcePair :=
  mkResourcePair t.1.1 t.1.2 t.2.

Definition SubNLZ (p : ResourcePair) (v : Z) : option ResourcePair :=
  rp_of <$> rp_sub (rp_triple p) v.
Definition SubMilliNLZ (p : ResourcePair) (v : Z) : option ResourcePair :=
  rp_of <$> rp_sub_milli (rp_triple p) v.
Definition Available (p : ResourcePair) : Quantity := rp_available (rp_triple p).

Record NodeResources := mkNodeResources {
  n_cpu : ResourcePair;
  n_cpu_info : list CPUInfo;
  n_memory : ResourcePair;
  n_gpu : ResourcePair;
  n_gpu_info : list GPUInfo;
  n_ephemeral : ResourcePair;
  n_volumes_attached : ResourcePair;
  n_volumes_mounted : ResourcePair;
  n_interconnect : ResourcePair
}.

Record Node := mkNode {
  nd_name : string;
  nd_resources : NodeResources;
  nd_caps : NodeCapabilities
}.

Record ClusterStorage := mkClusterStorage { cs_class : string; cs_quantity : ResourcePair }.

Record Cluster := mkCluster { c_nodes : list Node; c_storage : list ClusterStorage }.

(** What the provider relies on: a subtraction is refused exactly when the
    amount exceeds what is available, and otherwise charges that amount. *)
Class InventoryLaws := {
  sub_charges : forall p v p', SubNLZ p v = Some p' ->
    (v <= q_value (Available p))%Z /\
    q_value (Available p') = (q_value (Available p) - v)%Z;
  sub_refuses : forall p v, SubNLZ p v = None -> (q_value (Available p) < v)%Z;
  sub_milli_charges : forall p v p', SubMilliNLZ p v = Some p' ->
    (v <= q_milli (Available p))%Z /\
    q_milli (Available p') = (q_milli (Available p) - v)%Z;
  sub_milli_refuses : forall p v, SubMilliNLZ p v = None -> (q_milli (Available p) < v)%Z;
  set_value : forall q z, q_value (q_set q z) = z;
  set_not_negative : forall q, q_negative (q_set q 0) = false;
  not_negative : forall q, q_negative q = false -> (0 <= q_value q)%Z /\ (0 <= q_milli q)%Z
}.

End WithAPI.

Arguments ResourcePair api : clear implicits.
Arguments Node api : clear implicits.
Arguments Cluster api : clear implicits.
Arguments NodeResources api : clear implicits.
Arguments ClusterStorage api : clear implicits.
Arguments InventoryLaws api : clear implicits.
