(* ===== verification/Registry.v ===== *)
(** * Registries of running children

    The services keep the children they have started (order monitors, manifest
    managers) in a map under a key of the child's own, and remove a child when it
    reports that it has ended. What such a map says about the starts and the stops of a
    history is proved here once. *)

From Stdlib Require Import Lia.
From stdpp Require Import base gmap list strings tactics.
From S2P Require Import Prelude.

Section Registry.
Context {I : Type} `{EqDecision I} (path : I -> string) `{!Inj (=) (=) path}.

(** Each child is kept under its own key. *)
Definition keyed (m : gmap string I) : Prop := map_Forall (fun k i => k = path i) m.

Definition occurs (i : I) (l : list I) : nat := countb (fun x => bool_decide (x = i)) l.

Definition live (i : I) (m : gmap string I) : nat := if decide (m !! path i = Some i) then 1 else 0.

(** The children that run after a part of a history are those that ran before it and
    those it started, less those it stopped. *)
Definition balanced (m : gmap string I) (starts stops : list I) (m' : gmap string I) : Prop :=
  keyed m' /\ forall i, (occurs i starts + live i m = occurs i stops + live i m')%nat.

Lemma keyed_lookup m k i : keyed m -> m !! k = Some i -> m !! path i = Some i.
Proof. intros Hk Hi. by rewrite <- (Hk _ _ Hi). Qed.

Lemma balanced_refl m : keyed m -> balanced m [] [] m.
Proof. done. Qed.

Lemma balanced_start m i : keyed m -> m !! path i = None -> balanced m [i] [] (<[path i := i]> m).
Proof.
  intros Hk Hnone. split; [by apply map_Forall_insert_2|].
  intros j. unfold live, occurs, countb. simpl. case_bool_decide as Hij; [subst j|].
  - by rewrite Hnone, lookup_insert_eq, decide_False, decide_True by done.
  - by rewrite lookup_insert_ne by (intros E; by apply (inj path) in E).
Qed.

Lemma balanced_stop m i : keyed m -> m !! path i = Some i -> balanced m [] [i] (delete (path i) m).
Proof.
  intros Hk Hsome. split; [by apply map_Forall_delete|].
  intros j. unfold live, occurs, countb. simpl. case_bool_decide as Hij; [subst j|].
  - by rewrite Hsome, lookup_delete_eq, decide_True, decide_False by done.
  - by rewrite lookup_delete_ne by (intros E; by apply (inj path) in E).
Qed.

Lemma balanced_trans m a b m1 a1 b1 m2 :
  balanced m a b m1 -> balanced m1 a1 b1 m2 -> balanced m (a ++ a1) (b ++ b1) m2.
Proof.
  intros [_ H1] [Hk H2]. split; [done|]. intros i. unfold occurs. rewrite !countb_app.
  specialize (H1 i). specialize (H2 i). unfold occurs in *. lia.
Qed.

(** Since the registry was empty. *)
Lemma balanced_empty starts stops m i :
  balanced ∅ starts stops m -> occurs i starts = (occurs i stops + live i m)%nat.
Proof.
  intros [_ Hb]. specialize (Hb i). assert (live i ∅ = 0%nat) as H0
    by (unfold live; by rewrite lookup_empty, decide_False by done).
  lia.
Qed.

End Registry.
