(* ===== verification/Concrete.v ===== *)
(** * A concrete inventory library

    An implementation of [InventoryAPI] with quantities as counts of
    thousandths, for which the laws of [InventoryLaws] hold: the theorems that
    assume them are about something, and the examples run on it. *)

From stdpp Require Import base gmap list strings tactics.
From Stdlib Require Import ZArith Lia Ascii.
From S2P Require Import Prelude Types.

(** [Quantity.Value] rounds up. *)
Definition ceil_div (a b : Z) : Z := (- ((- a) / b))%Z.

Lemma ceil_div_sub a v b : (0 < b)%Z -> ceil_div (a - b * v) b = (ceil_div a b - v)%Z.
Proof.
  intros Hb. unfold ceil_div. replace (- (a - b * v))%Z with (- a + v * b)%Z by lia.
  rewrite Z.div_add by lia. lia.
Qed.

Definition free_milli (t : option Z * option Z * option Z) : Z :=
  (default 0%Z t.1.2 - default 0%Z t.2)%Z.

Definition charge_milli (t : option Z * option Z * option Z) (m : Z) :
    option Z * option Z * option Z :=
  (t.1, Some (default 0%Z t.2 + m)%Z).

Definition find_value (attrs : Attributes) (key : string) : string :=
  match find_index (fun a => String.eqb (Key a) key) attrs with
  | Some (_, a) => Value a
  | None => ""
  end.

#[export] Instance milli_api : InventoryAPI := {|
  Quantity := Z;
  q_new z := (1000 * z)%Z;
  q_negative q := (q <? 0)%Z;
  q_set _ z := (1000 * z)%Z;
  q_value q := ceil_div q 1000;
  q_milli q := q;
  rp_sub t v := if (v <=? ceil_div (free_milli t) 1000)%Z
                then Some (charge_milli t (1000 * v)) else None;
  rp_sub_milli t v := if (v <=? free_milli t)%Z then Some (charge_milli t v) else None;
  rp_available := free_milli;
  caps_support_class caps class := existsb (String.eqb class) (nc_storage_classes caps);
  FindAsBool attrs key := String.eqb (find_value attrs key) "true";
  FindAsString := find_value;
  StorageAttributePersistent := "persistent";
  StorageAttributeClass := "class";
  ram_string s := Some s;
  IsValidLabelValue s := (String.length s <=? 63)%nat
|}.

#[export] Instance milli_laws : InventoryLaws milli_api.
Proof.
  split; unfold SubNLZ, SubMilliNLZ, Available; simpl.
  - intros p v p' H. destruct (Z.leb_spec v (ceil_div (free_milli (rp_triple p)) 1000)); [|done].
    simplify_eq/=. split; [done|]. unfold rp_triple, rp_of, charge_milli, free_milli; simpl.
    rewrite <- ceil_div_sub by lia. f_equal. lia.
  - intros p v H. by destruct (Z.leb_spec v (ceil_div (free_milli (rp_triple p)) 1000)).
  - intros p v p' H. destruct (Z.leb_spec v (free_milli (rp_triple p))); [|done].
    simplify_eq/=. split; [done|]. unfold rp_triple, rp_of, charge_milli, free_milli; simpl. lia.
  - intros p v H. by destruct (Z.leb_spec v (free_milli (rp_triple p))).
  - intros _ z. unfold ceil_div. replace (- (1000 * z))%Z with (- z * 1000)%Z by lia.
    rewrite Z.div_mul by lia. lia.
  - done.
  - intros q Hq%Z.ltb_ge. split; [|done]. unfold ceil_div.
    pose proof (Z.div_le_upper_bound (- q) 1000 0). lia.
Qed.

(** A resource pair with that much allocatable and nothing allocated. *)
Definition pair_of (z : Z) : ResourcePair milli_api :=
  mkResourcePair (Some (1000 * z)%Z : option (@Quantity milli_api)) (Some (1000 * z)%Z) None.

(** A node with whole cores, bytes of memory, GPUs of the given kinds, bytes of
    ephemeral storage and interconnect devices. *)
Definition node_of (name : string) (cpu mem : Z) (gpus : list GPUInfo) (eph ic : Z)
    (caps : NodeCapabilities) : Node milli_api :=
  mkNode name
    (mkNodeResources (pair_of cpu) [mkCPUInfo "0" "amd" "epyc" 16 "amd64"] (pair_of mem)
       (pair_of (Z.of_nat (length gpus))) gpus (pair_of eph) (pair_of 0) (pair_of 0) (pair_of ic))
    caps.

Definition no_caps : NodeCapabilities := mkNodeCapabilities [] "" "" [].

Definition resources_of (id cpu mem : Z) (gpu : Z) (gattrs : Attributes) : Resources :=
  mkResources id (Some (mkUnits cpu [])) (Some (mkMemory mem []))
    [mkStorage "default" 10 []] (Some (mkUnits gpu gattrs)) [].
