(* ===== verification/Names.v ===== *)
(** * Names and numbers in strings

    The names the provider gives to the objects of a lease and the decimal
    numbers it puts in them: [cluster/util/lease_id_to_namespace.go], [LidNS] and
    [AppendLeaseLabels] of [cluster/kube/builder/builder.go],
    [clientcommon.RecoverLeaseIDFromLabels], the lease identifier of the custom
    resources in [pkg/apis/akash.network/v2beta2/types.go], with the parts of the
    Go library they use ([strconv], [base32]). Printing is inverted by parsing, so
    the names determine what they were made of. *)

From stdpp Require Import base gmap list strings pretty tactics.
From Stdlib Require Import ZArith Lia Ascii.
From S2P Require Import Prelude Types.

(** ** Decimal numbers *)

(** [strconv.FormatUint(z, 10)] and [%d] of an unsigned value. *)
Definition FormatUint (z : Z) : string := pretty (Z.to_N z).

Definition digit_of (c : ascii) : option Z :=
  let n := Z.of_nat (nat_of_ascii c) in
  if ((48 <=? n) && (n <=? 57))%Z then Some (n - 48)%Z else None.

Fixpoint parse_digits (acc : Z) (s : string) : option Z :=
  match s with
  | EmptyString => Some acc
  | String c s' =>
      match digit_of c with
      | Some d => parse_digits (10 * acc + d)%Z s'
      | None => None
      end
  end.

(** The loop of [strconv.ParseUint] in base 10: the value it returns and whether
    there was no error. A byte that is no digit gives 0, a value that does not fit
    the greatest one. *)
Fixpoint parse_uint_loop (max acc : Z) (s : string) : Z * bool :=
  match s with
  | EmptyString => (acc, true)
  | String c s' =>
      match digit_of c with
      | Some d => if (max <? 10 * acc + d)%Z then (max, false)
                  else parse_uint_loop max (10 * acc + d) s'
      | None => (0%Z, false)
      end
  end.

Definition ParseUint_value (bits : Z) (s : string) : Z * bool :=
  if String.eqb s "" then (0%Z, false) else parse_uint_loop (2 ^ bits - 1) 0 s.

(** [strconv.ParseUint(s, 10, bits)] with its error checked. *)
Definition ParseUint (bits : Z) (s : string) : option Z :=
  let '(v, ok) := ParseUint_value bits s in if ok then Some v else None.

Lemma digit_of_pretty (x : N) :
  (x < 10)%N -> digit_of (pretty_N_char x) = Some (Z.of_N x).
Proof.
  intros Hx. assert (x = 0 ∨ x = 1 ∨ x = 2 ∨ x = 3 ∨ x = 4 ∨ x = 5 ∨ x = 6 ∨ x = 7 ∨ x = 8 ∨ x = 9)%N
    as Hc by lia.
  by repeat destruct Hc as [->|Hc]; [..|subst x].
Qed.

Lemma parse_digits_go x s :
  parse_digits 0 (pretty_N_go x s) = parse_digits (Z.of_N x) s.
Proof.
  revert s. induction (N.lt_wf_0 x) as [x _ IH]; intros s.
  destruct (decide (x = 0)%N) as [->|Hx]; [done|].
  rewrite pretty_N_go_step by lia. rewrite IH by (apply N.div_lt; lia). cbn [parse_digits].
  rewrite digit_of_pretty by (apply N.mod_lt; lia). f_equal.
  rewrite (N.div_mod x 10) at 3 by lia. lia.
Qed.

Lemma FormatUint_digits z : (0 <= z)%Z -> parse_digits 0 (FormatUint z) = Some z.
Proof.
  intros Hz. unfold FormatUint, pretty, pretty_N. case_decide as H0.
  - replace z with 0%Z by lia. done.
  - rewrite parse_digits_go. cbn [parse_digits]. f_equal. lia.
Qed.

Lemma FormatUint_nonempty z : FormatUint z <> ""%string.
Proof.
  assert (forall x s, pretty_N_go x s = ""%string -> s = ""%string) as Hgo.
  { intros x. induction (N.lt_wf_0 x) as [x _ IH]; intros s.
    destruct (decide (x = 0)%N) as [->|Hx]; [done|].
    rewrite pretty_N_go_step by lia. intros H. apply IH in H; [done|apply N.div_lt; lia]. }
  unfold FormatUint, pretty, pretty_N. case_decide as H0; [done|].
  rewrite pretty_N_go_step by lia. intros H. by apply Hgo in H.
Qed.

Lemma digit_of_nonneg c d : digit_of c = Some d -> (0 <= d)%Z.
Proof. unfold digit_of. intros H. case_match eqn:E; [|done]. simplify_eq. lia. Qed.

Lemma parse_digits_le acc s v : (0 <= acc)%Z -> parse_digits acc s = Some v -> (acc <= v)%Z.
Proof.
  revert acc. induction s as [|c s IH]; intros acc Ha H; simpl in H; [simplify_eq; lia|].
  destruct (digit_of c) as [d|] eqn:Hd; [|done]. apply digit_of_nonneg in Hd.
  apply IH in H; lia.
Qed.

Lemma parse_uint_loop_digits max acc s v :
  (0 <= acc)%Z -> parse_digits acc s = Some v -> (v <= max)%Z ->
  parse_uint_loop max acc s = (v, true).
Proof.
  revert acc. induction s as [|c s IH]; intros acc Ha H Hv; simpl in *; [by simplify_eq|].
  destruct (digit_of c) as [d|] eqn:Hd; [|done]. apply digit_of_nonneg in Hd.
  pose proof (parse_digits_le (10 * acc + d) s v ltac:(lia) H).
  destruct (Z.ltb_spec max (10 * acc + d)); [lia|]. apply IH; [lia|done..].
Qed.

Lemma ParseUint_value_FormatUint bits z :
  is_uint bits z -> ParseUint_value bits (FormatUint z) = (z, true).
Proof.
  intros [Hz Hb]. unfold ParseUint_value. destruct (String.eqb_spec (FormatUint z) "") as [E|_].
  - by apply FormatUint_nonempty in E.
  - apply parse_uint_loop_digits; [done|by apply FormatUint_digits|lia].
Qed.

Lemma ParseUint_FormatUint bits z : is_uint bits z -> ParseUint bits (FormatUint z) = Some z.
Proof. intros Hz. unfold ParseUint. by rewrite ParseUint_value_FormatUint. Qed.

Lemma FormatUint_inj a b : (0 <= a)%Z -> (0 <= b)%Z -> FormatUint a = FormatUint b -> a = b.
Proof.
  intros Ha Hb E. apply FormatUint_digits in Ha, Hb. rewrite E in Ha. congruence.
Qed.

(** A printed number has only digits, so it holds none of the separators. *)
Lemma parse_digits_no_char c s acc v :
  digit_of c = None -> parse_digits acc s = Some v -> contains_char c s = false.
Proof.
  intros Hc. revert acc. induction s as [|d s IH]; intros acc; simpl; [done|].
  destruct (digit_of d) as [n|] eqn:Hd; [|done]. intros Hs.
  destruct (Ascii.eqb_spec d c) as [->|_]; [congruence|]. by apply IH in Hs.
Qed.

Lemma FormatUint_no_char c z :
  digit_of c = None -> (0 <= z)%Z -> contains_char c (FormatUint z) = false.
Proof. intros Hc Hz. eapply parse_digits_no_char; [done|]. by apply FormatUint_digits. Qed.

(** ** Strings with a separator *)

Lemma string_app_assoc (a b c : string) : ((a +:+ b) +:+ c = a +:+ (b +:+ c))%string.
Proof.
  induction a as [|x a IH]; [done|].
  change (String x ((a +:+ b) +:+ c) = String x (a +:+ (b +:+ c))). by rewrite IH.
Qed.

Lemma string_app_length (a b : string) :
  String.length (a +:+ b) = (String.length a + String.length b)%nat.
Proof.
  induction a as [|x a IH]; [done|].
  change (S (String.length (a +:+ b)) = S (String.length a + String.length b)). by rewrite IH.
Qed.

Lemma to_lower_app a b : to_lower (a +:+ b) = (to_lower a +:+ to_lower b)%string.
Proof.
  induction a as [|x a IH]; [done|].
  change (String (lower_ascii x) (to_lower (a +:+ b)) = String (lower_ascii x) (to_lower a +:+ to_lower b)).
  by rewrite IH.
Qed.

(** A component free of the separator can be read off the front. *)
Lemma sep_inj_l sep a b s t :
  contains_char sep a = false -> contains_char sep b = false ->
  (a +:+ String sep s = b +:+ String sep t)%string -> a = b /\ s = t.
Proof.
  revert b. induction a as [|x a IH]; intros [|y b] Ha Hb E; simpl in *.
  - change (String sep s = String sep t) in E. by simplify_eq.
  - change (String sep s = String y (b +:+ String sep t)) in E. simplify_eq.
    by rewrite Ascii.eqb_refl in Hb.
  - change (String x (a +:+ String sep s) = String sep t) in E. simplify_eq.
    by rewrite Ascii.eqb_refl in Ha.
  - change (String x (a +:+ String sep s) = String y (b +:+ String sep t)) in E.
    injection E as Exy E. subst y.
    apply orb_false_iff in Ha as [_ Ha]. apply orb_false_iff in Hb as [_ Hb].
    destruct (IH b Ha Hb E) as [-> ->]. done.
Qed.

Lemma contains_char_app c a b :
  contains_char c (a +:+ b) = contains_char c a || contains_char c b.
Proof.
  induction a as [|x a IH]; [done|].
  change (Ascii.eqb x c || contains_char c (a +:+ b) =
          (Ascii.eqb x c || contains_char c a) || contains_char c b).
  by rewrite IH, orb_assoc.
Qed.

(** A component free of the separator can be read off the back. *)
Lemma sep_inj_r sep a b s t :
  contains_char sep s = false -> contains_char sep t = false ->
  (a +:+ String sep s = b +:+ String sep t)%string -> a = b /\ s = t.
Proof.
  assert (forall b s t, contains_char sep s = false ->
    s = (b +:+ String sep t)%string -> False) as Hno.
  { intros b' s' t' Hs ->. rewrite contains_char_app in Hs.
    apply orb_false_iff in Hs as [_ Hs]. simpl in Hs. by rewrite Ascii.eqb_refl in Hs. }
  revert b. induction a as [|x a IH]; intros [|y b] Hs Ht E.
  - change (String sep s = String sep t) in E. by simplify_eq.
  - change (String sep s = String y (b +:+ String sep t)) in E. simplify_eq. by eapply Hno in Hs.
  - change (String x (a +:+ String sep s) = String sep t) in E. simplify_eq. by eapply Hno in Ht.
  - change (String x (a +:+ String sep s) = String y (b +:+ String sep t)) in E.
    injection E as Exy E. subst y. destruct (IH b Hs Ht E) as [-> ->]. done.
Qed.

(** ** Base 32 *)

(** [base32.HexEncoding] without padding: five bits a character, the last group
    filled with zeros. *)
Definition base32hex_alphabet : string := "0123456789ABCDEFGHIJKLMNOPQRSTUV".

Definition byte_bits (b : Z) : list bool :=
  map (fun i => Z.testbit b i) [7; 6; 5; 4; 3; 2; 1; 0]%Z.

Definition base32hex_char (a b c d e : bool) : ascii :=
  let n := fold_left (fun n (x : bool) => 2 * n + (if x then 1 else 0))%nat [a; b; c; d; e] 0%nat in
  default "0"%char (String.get n base32hex_alphabet).

Fixpoint base32hex_bits (bits : list bool) : string :=
  match bits with
  | [] => EmptyString
  | [a] => String (base32hex_char a false false false false) EmptyString
  | [a; b] => String (base32hex_char a b false false false) EmptyString
  | [a; b; c] => String (base32hex_char a b c false false) EmptyString
  | [a; b; c; d] => String (base32hex_char a b c d false) EmptyString
  | a :: b :: c :: d :: e :: rest => String (base32hex_char a b c d e) (base32hex_bits rest)
  end.

Definition base32hex (bytes : list Z) : string := base32hex_bits (bytes ≫= byte_bits).

(** The groups of five bits, the last one filled with zeros, are all a base-32
    string holds. *)
Definition base32_index (c : ascii) : option nat :=
  let n := nat_of_ascii c in
  if (48 <=? n)%nat && (n <=? 57)%nat then Some (n - 48)%nat
  else if (97 <=? n)%nat && (n <=? 118)%nat then Some (n - 87)%nat
  else None.

Lemma base32hex_char_inj a b c d e a' b' c' d' e' :
  lower_ascii (base32hex_char a b c d e) = lower_ascii (base32hex_char a' b' c' d' e') ->
  (a, b, c, d, e) = (a', b', c', d', e').
Proof.
  intros H. assert (forall a b c d e, base32_index (lower_ascii (base32hex_char a b c d e)) =
    Some (fold_left (fun n (x : bool) => 2 * n + (if x then 1 else 0))%nat [a; b; c; d; e] 0%nat))
    as Hi by (intros [] [] [] [] []; reflexivity).
  apply (f_equal base32_index) in H. rewrite !Hi in H. injection H as H.
  destruct a, b, c, d, e, a', b', c', d', e'; reflexivity || discriminate H.
Qed.

Lemma base32hex_bits_inj l k :
  length l = length k -> to_lower (base32hex_bits l) = to_lower (base32hex_bits k) -> l = k.
Proof.
  remember (length l) as n eqn:Hn. revert l k Hn. induction n as [n IH] using lt_wf_ind.
  intros l k Hn Hlen H. subst n.
  destruct l as [|a [|b [|c [|d [|e l]]]]], k as [|a' [|b' [|c' [|d' [|e' k]]]]];
    simpl in Hlen; try lia; [done|..]; cbn [base32hex_bits to_lower] in H;
    injection H as H; try (apply base32hex_char_inj in H; congruence).
  pose proof (base32hex_char_inj _ _ _ _ _ _ _ _ _ _ H) as Hc.
  assert (l = k) by (eapply (IH (length l)); simpl; [lia|done|lia|congruence]). congruence.
Qed.

Lemma byte_bits_inj a b : is_uint 8 a -> is_uint 8 b -> byte_bits a = byte_bits b -> a = b.
Proof.
  intros Ha Hb E. injection E as E7 E6 E5 E4 E3 E2 E1 E0. apply Z.bits_inj. intros i.
  destruct (Z_lt_le_dec i 0) as [|Hi]; [by rewrite !Z.testbit_neg_r|].
  destruct (Z_lt_le_dec i 8) as [Hs|Hs].
  - assert (i = 0 ∨ i = 1 ∨ i = 2 ∨ i = 3 ∨ i = 4 ∨ i = 5 ∨ i = 6 ∨ i = 7)%Z as Hc by lia.
    repeat destruct Hc as [->|Hc]; try done; by subst i.
  - assert (forall z, is_uint 8 z -> Z.testbit z i = false) as Hz.
    { intros z [Hz0 Hz8]. destruct (decide (z = 0)%Z) as [->|]; [apply Z.testbit_0_l|].
      apply Z.bits_above_log2; [lia|]. assert (Z.log2 z < 8)%Z; [|lia].
      apply Z.log2_lt_pow2; lia. }
    by rewrite !Hz.
Qed.

(** Byte strings of one length are told apart by their lower-case base-32 text. *)
Lemma base32hex_inj l k :
  Forall (is_uint 8) l -> Forall (is_uint 8) k -> length l = length k ->
  to_lower (base32hex l) = to_lower (base32hex k) -> l = k.
Proof.
  assert (forall l, length (l ≫= byte_bits) = (8 * length l)%nat) as Hlen.
  { induction l0 as [|x l0 IHl]; [done|]. cbn [mbind list_bind]. rewrite length_app, IHl. simpl. lia. }
  unfold base32hex. intros Hl Hk Hlk H.
  apply base32hex_bits_inj in H; [|rewrite !Hlen; lia].
  revert k Hk Hlk H. induction Hl as [|x l Hx Hl IH]; intros [|y k] Hk Hlk H;
    simpl in Hlk; try lia; [done|]. apply list.Forall_cons in Hk as [Hy Hk].
  cbn [mbind list_bind] in H.
  apply app_inj_1 in H as [Hxy H]; [|done]. f_equal; [by apply byte_bits_inj|].
  apply IH; [done|lia|done].
Qed.

(** ** Namespaces *)

(** The SHA-224 digest of the lease's string. *)
Class LeaseHash := {
  lease_sha224 : LeaseID -> list Z
}.

Definition LeaseIDToNamespace `{LeaseHash} (lid : LeaseID) : string :=
  to_lower (base32hex (lease_sha224 lid)).

Definition LidNS `{LeaseHash} (lid : LeaseID) : string := LeaseIDToNamespace lid.

(** A digest is 28 bytes. *)
Class LeaseHashLaws `{LeaseHash} := {
  lease_sha224_bytes lid : Forall (is_uint 8) (lease_sha224 lid) /\ length (lease_sha224 lid) = 28%nat
}.

(** What the names rely on is that the digests of two leases do not collide. *)
Definition no_collision `{LeaseHash} (a b : LeaseID) : Prop :=
  lease_sha224 a = lease_sha224 b -> a = b.

Lemma LidNS_inj `{LeaseHashLaws} a b : no_collision a b -> LidNS a = LidNS b -> a = b.
Proof.
  intros Hno Hab. apply Hno.
  destruct (lease_sha224_bytes a) as [Ha La], (lease_sha224_bytes b) as [Hb Lb].
  apply base32hex_inj; [done..|by rewrite La, Lb|done].
Qed.

(** ** Lease labels *)

Abbreviation labels_t := (gmap string string).

Definition AkashManagedLabelName : string := "akash.network".
Definition AkashManifestServiceLabelName : string := "akash.network/manifest-service".
Definition AkashServiceTarget : string := "akash.network/service-target".
Definition AkashMetalLB : string := "metal-lb".
Definition AkashLeaseOwnerLabelName : string := "akash.network/lease.id.owner".
Definition AkashLeaseDSeqLabelName : string := "akash.network/lease.id.dseq".
Definition AkashLeaseGSeqLabelName : string := "akash.network/lease.id.gseq".
Definition AkashLeaseOSeqLabelName : string := "akash.network/lease.id.oseq".
Definition AkashLeaseProviderLabelName : string := "akash.network/lease.id.provider".

Definition AppendLeaseLabels (lid : LeaseID) (labels : labels_t) : labels_t :=
  <[AkashLeaseProviderLabelName := l_provider lid]>
  (<[AkashLeaseOSeqLabelName := FormatUint (l_oseq lid)]>
  (<[AkashLeaseGSeqLabelName := FormatUint (l_gseq lid)]>
  (<[AkashLeaseDSeqLabelName := FormatUint (l_dseq lid)]>
  (<[AkashLeaseOwnerLabelName := l_owner lid]> labels)))).

Inductive label_error :=
| errMissingLabel (name : string)
| errInvalidLabelValue (value : string).

Definition get_label (labels : labels_t) (name : string) : result label_error string :=
  match labels !! name with Some v => Ok v | None => Err (errMissingLabel name) end.

Definition get_uint (bits : Z) (v : string) : result label_error Z :=
  match ParseUint bits v with Some n => Ok n | None => Err (errInvalidLabelValue v) end.

Definition RecoverLeaseIDFromLabels (labels : labels_t) : result label_error LeaseID :=
  (let? dseqS := get_label labels AkashLeaseDSeqLabelName in
   let? gseqS := get_label labels AkashLeaseGSeqLabelName in
   let? oseqS := get_label labels AkashLeaseOSeqLabelName in
   let? owner := get_label labels AkashLeaseOwnerLabelName in
   let? provider := get_label labels AkashLeaseProviderLabelName in
   let? dseq := get_uint 64 dseqS in
   let? gseq := get_uint 32 gseqS in
   let? oseq := get_uint 32 oseqS in
   Ok (mkLeaseID owner dseq (wrap32 gseq) (wrap32 oseq) provider))%go.

(** The numbers of a lease are within their types. *)
Definition lease_ok (lid : LeaseID) : Prop :=
  is_uint 64 (l_dseq lid) /\ is_uint 32 (l_gseq lid) /\ is_uint 32 (l_oseq lid).

Lemma recover_append lid labels :
  lease_ok lid -> RecoverLeaseIDFromLabels (AppendLeaseLabels lid labels) = Ok lid.
Proof.
  intros (Hd & Hg & Ho). unfold RecoverLeaseIDFromLabels, get_label, AppendLeaseLabels.
  simplify_map_eq. unfold get_uint.
  rewrite (ParseUint_FormatUint 64 _ Hd), (ParseUint_FormatUint 32 _ Hg),
    (ParseUint_FormatUint 32 _ Ho). simpl.
  unfold wrap32. rewrite !wrap_id by done. by destruct lid.
Qed.

Lemma append_owner lid labels :
  AppendLeaseLabels lid labels !! AkashLeaseOwnerLabelName = Some (l_owner lid).
Proof. unfold AppendLeaseLabels. by simplify_map_eq. Qed.

(** [kubeSelectorForLease]: the requirements of the selector, whose text joins
    them with commas. *)
Definition kubeSelectorForLease (lid : LeaseID) : list (string * string) :=
  [(AkashLeaseOwnerLabelName, l_owner lid);
   (AkashLeaseDSeqLabelName, FormatUint (l_dseq lid));
   (AkashLeaseGSeqLabelName, FormatUint (l_gseq lid));
   (AkashLeaseOSeqLabelName, FormatUint (l_oseq lid))].

(** An equality-based selector selects the objects that carry all its labels. *)
Definition selector_matches (selector : list (string * string)) (labels : labels_t) : bool :=
  forallb (fun '(k, v) => bool_decide (labels !! k = Some v)) selector.

Lemma selector_lease_append lid labels :
  selector_matches (kubeSelectorForLease lid) (AppendLeaseLabels lid labels) = true.
Proof.
  unfold selector_matches, kubeSelectorForLease, AppendLeaseLabels. cbn [forallb].
  rewrite !bool_decide_eq_true_2; [done|..]; by simplify_map_eq.
Qed.

(** ** Lease identifiers of the custom resources *)

(** [AccAddressFromBech32] followed by [String]: the canonical text of a valid
    address. *)
Class Bech32 := {
  bech32_canonical : string -> option string
}.

Module CRDLease.

(** [v2beta2.LeaseID]: the deployment sequence is a string. *)
Record t := mk { Owner : string; DSeq : string; GSeq : Z; OSeq : Z; Provider : string }.

Definition LeaseIDFromAkash (id : LeaseID) : t :=
  mk (l_owner id) (FormatUint (l_dseq id)) (l_gseq id) (l_oseq id) (l_provider id).

Definition FromCRD `{Bech32} (id : t) : option LeaseID :=
  owner ← bech32_canonical (Owner id);
  provider ← bech32_canonical (Provider id);
  dseq ← ParseUint 64 (DSeq id);
  Some (mkLeaseID owner dseq (GSeq id) (OSeq id) provider).

(** The addresses of the lease are valid and written canonically. *)
Definition addresses_ok `{Bech32} (lid : LeaseID) : Prop :=
  bech32_canonical (l_owner lid) = Some (l_owner lid) /\
  bech32_canonical (l_provider lid) = Some (l_provider lid).

Lemma FromCRD_LeaseIDFromAkash `{Bech32} lid :
  lease_ok lid -> addresses_ok lid -> FromCRD (LeaseIDFromAkash lid) = Some lid.
Proof.
  intros (Hd & _) [Ho Hp]. unfold FromCRD, LeaseIDFromAkash. simpl. rewrite Ho, Hp. simpl.
  rewrite (ParseUint_FormatUint 64 _ Hd). by destruct lid.
Qed.

End CRDLease.

#[export] Hint Resolve recover_append selector_lease_append CRDLease.FromCRD_LeaseIDFromAkash : provider.

#[global] Arguments LidNS : simpl never.
#[global] Arguments AppendLeaseLabels : simpl never.
#[global] Arguments kubeSelectorForLease : simpl never.
#[global] Arguments selector_matches : simpl never.

(** ** Service protocols *)

(** The protocols of the manifest package: its two constants, the zero value, its
    conversions, and its text under [%v]. [ServiceProtocolFromKube] reads a
    Kubernetes protocol name. *)
Class ServiceProtocolAPI := {
  ServiceProtocol : Type;
  ServiceProtocol_dec :: EqDecision ServiceProtocol;
  TCP : ServiceProtocol;
  UDP : ServiceProtocol;
  noProtocol : ServiceProtocol;
  proto_ToString : ServiceProtocol -> string;
  proto_text : ServiceProtocol -> string;
  ParseServiceProtocol : string -> option ServiceProtocol;
  ServiceProtocolFromKube : string -> option ServiceProtocol
}.

(** The protocols a manifest can ask for. *)
Definition proto_ok `{ServiceProtocolAPI} (p : ServiceProtocol) : Prop := p = TCP \/ p = UDP.

Class ServiceProtocolLaws `{ServiceProtocolAPI} := {
  proto_distinct : TCP <> UDP /\ noProtocol <> TCP /\ noProtocol <> UDP;
  proto_parse_print p : proto_ok p -> ParseServiceProtocol (proto_ToString p) = Some p;
  proto_from_kube : ServiceProtocolFromKube "TCP" = Some TCP /\ ServiceProtocolFromKube "UDP" = Some UDP;
  proto_lower : to_lower (proto_text TCP) = "tcp"%string /\ to_lower (proto_text UDP) = "udp"%string;
  proto_zero_text : proto_text noProtocol = ""%string
}.

(** ** An instance

    Protocols as their names, addresses taken as they are, and a digest that is
    the sequence numbers in base 256. *)

Definition named_protocols : ServiceProtocolAPI :=
  {| ServiceProtocol := string; TCP := "TCP"; UDP := "UDP"; noProtocol := "";
     proto_ToString p := p; proto_text p := p;
     ParseServiceProtocol s := if String.eqb s "" then None else Some s;
     ServiceProtocolFromKube s := if String.eqb s "" then None else Some s |}.

Lemma named_protocols_laws : @ServiceProtocolLaws named_protocols.
Proof. split; [done| |done|done|done]. by intros p [-> | ->]. Qed.

Definition any_bech32 : Bech32 :=
  {| bech32_canonical s := if String.eqb s "" then None else Some s |}.

Definition seq_hash : LeaseHash :=
  {| lease_sha224 l := map (fun i => Z.land (Z.shiftr (l_dseq l) (8 * Z.of_nat i)) 255) (seq 0 28) |}.

Lemma seq_hash_laws : @LeaseHashLaws seq_hash.
Proof.
  split. intros lid. split; [|done].
  apply list.Forall_forall. intros b Hb. apply list_elem_of_fmap in Hb as (i & -> & _).
  unfold is_uint. change 255%Z with (Z.ones 8). rewrite Z.land_ones by lia. apply Z.mod_pos_bound. lia.
Qed.
