(* ===== verification/CRD.v ===== *)
(** * The manifest as a custom resource

    Model of [pkg/apis/akash.network/v2beta2/manifest.go] and [types.go]: how the
    manifest of a lease is written to the cluster ([NewManifest]) and read back
    when the provider recovers its deployments ([Deployment]), with
    [buildClusterSettings] and [validate] of [cluster/kube/builder/builder.go],
    which turn what was read into the settings of a deploy. Scheduler parameters
    are shared by pointer and written to on the way, so they live in a heap. *)

From Stdlib Require Import ZArith Lia.
From stdpp Require Import base gmap list strings tactics.
From S2P Require Import Prelude Types Names.

(** ** The manifest of the SDK *)

Module Mani.

Record ProxyOptions := mkProxy {
  BufferingDisable : bool; BufferSize : Z; BuffersNumber : Z; BuffersSize : Z;
  BusyBuffersSize : Z; ConnectTimeout : Z
}.

Record HTTPOptions := mkHTTP {
  MaxBodySize : Z; ReadTimeout : Z; SendTimeout : Z; NextTries : Z; NextTimeout : Z;
  NextCases : list string; Proxy : option ProxyOptions
}.

Record ServiceExpose `{ServiceProtocolAPI} := mkExpose {
  Port : Z; ExternalPort : Z; Proto : ServiceProtocol; ESvc : string; Global : bool;
  Hosts : list string; EHTTP : HTTPOptions; IP : string; EndpointSequenceNumber : Z
}.

Record StorageParams := mkStorageParams { StName : string; Mount : string; ReadOnly : bool }.
Record TEE := mkTEE { TEEKind : string; Attestation : bool }.

(** Of the permissions the SDK has only the list of readable resources. *)
Record ServiceParams := mkParams {
  PStorage : list StorageParams; PRead : option (list string); PTEE : option TEE
}.

Record ImageCredentials := mkCreds { Host : string; Email : string; Username : string; Password : string }.

Record Service `{ServiceProtocolAPI} := mkService {
  Name : string; Image : string; Command : list string; Args : list string; Env : list string;
  Res : Resources; Count : Z; Exposes : list ServiceExpose; Params : option ServiceParams;
  Credentials : option ImageCredentials; InterconnectGroup : string
}.

Record Group `{ServiceProtocolAPI} := mkGroup { GName : string; Services : list Service }.

Arguments mkExpose {H}. Arguments mkService {H}. Arguments mkGroup {H}.

End Mani.

(** ** The custom resource *)

Module Crd.

Record ResourceUnits := mkUnits { Units : Z; UAttrs : Attributes }.
Record ResourceMemory := mkMemory { Size : string; MAttrs : Attributes }.
Record ResourceVolume := mkVolume { VName : string; VSize : string; VAttrs : Attributes }.

Record CResources := mkResources {
  ID : Z; CPU : ResourceUnits; GPU : ResourceUnits; Mem : ResourceMemory;
  Volumes : list ResourceVolume
}.

Record HTTPOptions := mkHTTP {
  MaxBodySize : Z; ReadTimeout : Z; SendTimeout : Z; NextTries : Z; NextTimeout : Z;
  NextCases : list string;
  ProxyBufferingDisable : bool; ProxyBufferSize : Z; ProxyBuffersNumber : Z;
  ProxyBuffersSize : Z; ProxyBusyBuffersSize : Z; ProxyConnectTimeout : Z
}.

Record ServiceExpose := mkExpose {
  Port : Z; ExternalPort : Z; Proto : string; ESvc : string; Global : bool;
  Hosts : list string; EHTTP : HTTPOptions; IP : string; EndpointSequenceNumber : Z
}.

Record StorageParams := mkStorageParams { StName : string; Mount : string; ReadOnly : bool }.
Record Permissions := mkPermissions { Read : list string; Write : list string; Delete : list string }.
Record ServiceParams := mkParams { PStorage : list StorageParams; PPermissions : option Permissions }.
Record Credentials := mkCreds { Host : string; Email : string; Username : string; Password : string }.

(** [P] is what stands for the scheduler parameters: a pointer in memory, their
    value once stored. *)
Record Service (P : Type) := mkService {
  Name : string; Image : string; Command : list string; Args : list string; Env : list string;
  Res : CResources; Count : Z; Exposes : list ServiceExpose; Params : option ServiceParams;
  Sched : option P; Creds : option Credentials; InterconnectGroup : string
}.
Arguments mkService {P}. Arguments Name {P}. Arguments Image {P}. Arguments Command {P}.
Arguments Args {P}. Arguments Env {P}. Arguments Res {P}. Arguments Count {P}.
Arguments Exposes {P}. Arguments Params {P}. Arguments Sched {P}. Arguments Creds {P}.
Arguments InterconnectGroup {P}.

Record Group (P : Type) := mkGroup { GName : string; Services : list (Service P) }.
Arguments mkGroup {P}. Arguments GName {P}. Arguments Services {P}.

(** The name and resource version are what the object metadata is read for. *)
Record Manifest (P : Type) := mkManifest {
  MName : string; Namespace : string; ResourceVersion : string;
  SLease : CRDLease.t; SGroup : Group P
}.
Arguments mkManifest {P}. Arguments MName {P}. Arguments Namespace {P}.
Arguments ResourceVersion {P}. Arguments SLease {P}. Arguments SGroup {P}.

End Crd.

Inductive crd_error := ErrInvalidArgs | ErrCPUOverflow | ErrGPUOverflow | ErrProtocol | ErrLeaseID.

(** ** Resources *)

Definition units_ToAkash (ru : Crd.ResourceUnits) : Units :=
  mkUnits (Crd.Units ru) (Crd.UAttrs ru).

(** The error of the parser is dropped, the value it returns is kept. *)
Definition memory_ToAkash (ru : Crd.ResourceMemory) : Memory :=
  mkMemory (ParseUint_value 64 (Crd.Size ru)).1 (Crd.MAttrs ru).

Definition volume_ToAkash (ru : Crd.ResourceVolume) : Storage :=
  mkStorage (Crd.VName ru) (ParseUint_value 64 (Crd.VSize ru)).1 (Crd.VAttrs ru).

Definition resources_ToAkash (ru : Crd.CResources) : Resources :=
  mkResources (Crd.ID ru) (Some (units_ToAkash (Crd.CPU ru))) (Some (memory_ToAkash (Crd.Mem ru)))
    (map volume_ToAkash (Crd.Volumes ru)) (Some (units_ToAkash (Crd.GPU ru))) [].

Definition MaxUint32 : Z := (2 ^ 32 - 1)%Z.

(** A nil unit leaves the zero value; the code rejects units over 32 bits. *)
Definition units_from (overflow : crd_error) (u : option Units) : result crd_error Crd.ResourceUnits :=
  match u with
  | None => Ok (Crd.mkUnits 0 [])
  | Some u => if (MaxUint32 <? units u)%Z then Err overflow
              else Ok (Crd.mkUnits (wrap32 (units u)) (u_attrs u))
  end.

Definition resourcesFromAkash (aru : Resources) : result crd_error Crd.CResources :=
  (let? cpu := units_from ErrCPUOverflow (r_cpu aru) in
   let mem := match r_memory aru with
              | None => Crd.mkMemory "" []
              | Some m => Crd.mkMemory (FormatUint (m_quantity m)) (m_attrs m)
              end in
   let? gpu := units_from ErrGPUOverflow (r_gpu aru) in
   Ok (Crd.mkResources (r_id aru) cpu gpu mem
     (map (fun s => Crd.mkVolume (s_name s) (FormatUint (s_quantity s)) (s_attrs s)) (r_storage aru))))%go.

(** ** Scheduler parameters in memory *)

Definition ptr := nat.
Abbreviation sched_heap := (gmap ptr SchedulerParams).

(** [ReservationClusterSettings]: scheduler parameters by resource id; a nil
    pointer is an entry too. *)
Abbreviation cluster_params P := (gmap Z (option P)).

(** ** Exposes *)

Section Conversions.
Context `{ServiceProtocolAPI} `{Bech32} `{LeaseHash}.

(** Nothing set means no proxy object at all. *)
Definition proxyToAkash (o : Crd.HTTPOptions) : option Mani.ProxyOptions :=
  if negb (Crd.ProxyBufferingDisable o) &&
     (Crd.ProxyBufferSize o =? 0)%Z && (Crd.ProxyBuffersNumber o =? 0)%Z &&
     (Crd.ProxyBuffersSize o =? 0)%Z && (Crd.ProxyBusyBuffersSize o =? 0)%Z &&
     (Crd.ProxyConnectTimeout o =? 0)%Z
  then None
  else Some (Mani.mkProxy (Crd.ProxyBufferingDisable o) (Crd.ProxyBufferSize o)
    (Crd.ProxyBuffersNumber o) (Crd.ProxyBuffersSize o) (Crd.ProxyBusyBuffersSize o)
    (Crd.ProxyConnectTimeout o)).

Definition expose_toAkash (mse : Crd.ServiceExpose) : option Mani.ServiceExpose :=
  proto ← ParseServiceProtocol (Crd.Proto mse);
  let o := Crd.EHTTP mse in
  Some (Mani.mkExpose (Crd.Port mse) (Crd.ExternalPort mse) proto (Crd.ESvc mse) (Crd.Global mse)
    (Crd.Hosts mse)
    (Mani.mkHTTP (Crd.MaxBodySize o) (Crd.ReadTimeout o) (Crd.SendTimeout o) (Crd.NextTries o)
       (Crd.NextTimeout o) (Crd.NextCases o) (proxyToAkash o))
    (Crd.IP mse) (Crd.EndpointSequenceNumber mse)).

Definition DetermineExposedExternalPort (mse : Crd.ServiceExpose) : Z :=
  if (Crd.ExternalPort mse =? 0)%Z then Crd.Port mse else Crd.ExternalPort mse.

(** Ports are cut to 16 bits. *)
Definition manifestServiceExposeFromAkash (amse : Mani.ServiceExpose) : Crd.ServiceExpose :=
  let o := Mani.EHTTP amse in
  let flat := Crd.mkHTTP (Mani.MaxBodySize o) (Mani.ReadTimeout o) (Mani.SendTimeout o)
    (Mani.NextTries o) (Mani.NextTimeout o) (Mani.NextCases o) in
  Crd.mkExpose (wrap 16 (Mani.Port amse)) (wrap 16 (Mani.ExternalPort amse))
    (proto_ToString (Mani.Proto amse)) (Mani.ESvc amse) (Mani.Global amse) (Mani.Hosts amse)
    match Mani.Proxy o with
    | None => flat false 0%Z 0%Z 0%Z 0%Z 0%Z
    | Some p => flat (Mani.BufferingDisable p) (Mani.BufferSize p) (Mani.BuffersNumber p)
                  (Mani.BuffersSize p) (Mani.BusyBuffersSize p) (Mani.ConnectTimeout p)
    end
    (Mani.IP amse) (Mani.EndpointSequenceNumber amse).

(** ** Services *)

(** The loop over the exposes of [fromCRD]: it appends the leased-IP endpoints to
    its own copy of the resources, [endpoints], which the service was built from
    before. *)
Fixpoint exposes_fromCRD (exposes : list Crd.ServiceExpose) (acc : list Mani.ServiceExpose)
    (endpoints : list Endpoint) : option (list Mani.ServiceExpose * list Endpoint) :=
  match exposes with
  | [] => Some (acc, endpoints)
  | e :: rest =>
      value ← expose_toAkash e;
      exposes_fromCRD rest (acc ++ [value])
        (if String.eqb (Mani.IP value) "" then endpoints
         else endpoints ++ [mkEndpoint Endpoint_LEASED_IP (Mani.EndpointSequenceNumber value)])
  end.

Definition storage_fromCRD (s : Crd.StorageParams) : Mani.StorageParams :=
  Mani.mkStorageParams (Crd.StName s) (Crd.Mount s) (Crd.ReadOnly s).

Definition storage_toCRD (s : Mani.StorageParams) : Crd.StorageParams :=
  Crd.mkStorageParams (Mani.StName s) (Mani.Mount s) (Mani.ReadOnly s).

Definition service_fromCRD {P} (ms : Crd.Service P) : result crd_error Mani.Service :=
  let res := resources_ToAkash (Crd.Res ms) in
  let creds := (fun c => Mani.mkCreds (Crd.Host c) (Crd.Email c) (Crd.Username c) (Crd.Password c))
    <$> Crd.Creds ms in
  match exposes_fromCRD (Crd.Exposes ms) [] (r_endpoints res) with
  | None => Err ErrProtocol
  | Some (exposes, _) =>
      let params := (fun p => Mani.mkParams (map storage_fromCRD (Crd.PStorage p))
        (Crd.Read <$> Crd.PPermissions p) None) <$> Crd.Params ms in
      Ok (Mani.mkService (Crd.Name ms) (Crd.Image ms) (Crd.Command ms) (Crd.Args ms) (Crd.Env ms)
        res (Crd.Count ms) exposes params creds (Crd.InterconnectGroup ms))
  end.

(** The writes a service with a TEE makes through the pointer it is given; a nil
    pointer is replaced by a fresh one. *)
Definition apply_tee (h : sched_heap) (params : option Mani.ServiceParams) (sp : option ptr)
    : sched_heap * option ptr :=
  match params ≫= Mani.PTEE with
  | None => (h, sp)
  | Some tee =>
      let '(h, p) := match sp with
                     | Some p => (h, p)
                     | None => let p := fresh (dom h) in (<[p := emptySchedulerParams]> h, p)
                     end in
      let old := default emptySchedulerParams (h !! p) in
      (<[p := mkSchedulerParams (sp_runtime_class old) (sp_resources old)
               (if Mani.Attestation tee then sp_attestation_disabled old else true)
               (Mani.TEEKind tee)]> h, Some p)
  end.

Definition manifestServiceFromProvider (h : sched_heap) (ams : Mani.Service) (sp : option ptr)
    : result crd_error (sched_heap * Crd.Service ptr) :=
  (let? resources := resourcesFromAkash (Mani.Res ams) in
   let '(h, sp) := apply_tee h (Mani.Params ams) sp in
   let params := (fun p => Crd.mkParams (map storage_toCRD (Mani.PStorage p))
     ((fun r => Crd.mkPermissions r [] []) <$> Mani.PRead p)) <$> Mani.Params ams in
   let creds := (fun c => Crd.mkCreds (Mani.Host c) (Mani.Email c) (Mani.Username c) (Mani.Password c))
     <$> Mani.Credentials ams in
   Ok (h, Crd.mkService (Mani.Name ams) (Mani.Image ams) (Mani.Command ams) (Mani.Args ams)
     (Mani.Env ams) resources (Mani.Count ams)
     (map manifestServiceExposeFromAkash (Mani.Exposes ams)) params sp creds
     (Mani.InterconnectGroup ams)))%go.

(** ** Manifests *)

(** The loop of [manifestGroupToCRD]; the two lists have the same length. *)
Fixpoint services_toCRD (h : sched_heap) (services : list Mani.Service) (sps : list (option ptr))
    : result crd_error (sched_heap * list (Crd.Service ptr)) :=
  match services, sps with
  | svc :: services', sp :: sps' =>
      (let? (h, service) := manifestServiceFromProvider h svc sp in
       let? (h, rest) := services_toCRD h services' sps' in
       Ok (h, service :: rest))%go
  | _, _ => Ok (h, [])
  end.

Definition manifestGroupToCRD (h : sched_heap) (m : Mani.Group) (settings : list (option ptr))
    : result crd_error (sched_heap * Crd.Group ptr) :=
  (let? (h, services) := services_toCRD h (Mani.Services m) settings in
   Ok (h, Crd.mkGroup (Mani.GName m) services))%go.

Definition NewManifest (ns : string) (lid : LeaseID) (mgroup : Mani.Group) (settings : list (option ptr))
    (h : sched_heap) : result crd_error (sched_heap * Crd.Manifest ptr) :=
  if negb (length (Mani.Services mgroup) =? length settings)%nat then Err ErrInvalidArgs
  else (let? (h, group) := manifestGroupToCRD h mgroup settings in
        Ok (h, Crd.mkManifest (LeaseIDToNamespace lid) ns ""
          (CRDLease.LeaseIDFromAkash lid) group))%go.

(** What the cluster stores of a manifest: the values behind its pointers, under
    the resource version the server gives it. *)
Definition store_service (h : sched_heap) (s : Crd.Service ptr) : Crd.Service SchedulerParams :=
  Crd.mkService (Crd.Name s) (Crd.Image s) (Crd.Command s) (Crd.Args s) (Crd.Env s) (Crd.Res s)
    (Crd.Count s) (Crd.Exposes s) (Crd.Params s) (Crd.Sched s ≫= (h !!.)) (Crd.Creds s)
    (Crd.InterconnectGroup s).

Definition store_manifest (version : string) (h : sched_heap) (m : Crd.Manifest ptr)
    : Crd.Manifest SchedulerParams :=
  Crd.mkManifest (Crd.MName m) (Crd.Namespace m) version (Crd.SLease m)
    (Crd.mkGroup (Crd.GName (Crd.SGroup m)) (map (store_service h) (Crd.Services (Crd.SGroup m)))).

Fixpoint services_fromCRD {P} (services : list (Crd.Service P))
    : result crd_error (list Mani.Service * list (option P)) :=
  match services with
  | [] => Ok ([], [])
  | svc :: rest =>
      (let? asvc := service_fromCRD svc in
       let? (asvcs, sps) := services_fromCRD rest in
       Ok (asvc :: asvcs, Crd.Sched svc :: sps))%go
  end.

Definition group_FromCRD {P} (m : Crd.Group P) : result crd_error (Mani.Group * list (option P)) :=
  (let? (services, sps) := services_fromCRD (Crd.Services m) in
   Ok (Mani.mkGroup (Crd.GName m) services, sps))%go.

Record deployment (P : Type) := mkDeployment {
  dep_lid : LeaseID; dep_group : Mani.Group; dep_cparams : cluster_params P; dep_version : string
}.
Arguments mkDeployment {P}. Arguments dep_lid {P}. Arguments dep_group {P}.
Arguments dep_cparams {P}. Arguments dep_version {P}.

(** The parameters are entered in the order of the services, so the last service
    of a resource id decides. *)
Definition params_by_id {P} (services : list Mani.Service) (sps : list (option P)) : cluster_params P :=
  foldl (fun m '(svc, sp) => <[r_id (Mani.Res svc) := sp]> m) ∅ (zip services sps).

Definition Deployment {P} (m : Crd.Manifest P) : result crd_error (deployment P) :=
  match CRDLease.FromCRD (Crd.SLease m) with
  | None => Err ErrLeaseID
  | Some lid =>
      (let? (group, sps) := group_FromCRD (Crd.SGroup m) in
       Ok (mkDeployment lid group (params_by_id (Mani.Services group) sps) (Crd.ResourceVersion m)))%go
  end.

(** ** Settings of a deploy *)

Inductive builder_error := ErrNoSchedulerParams (id : Z) | ErrCountMismatch | ErrNilResource | ErrNilGPUParams.

Fixpoint buildClusterSettings {P} (services : list Mani.Service) (reservation : cluster_params P)
    : result builder_error (list (option P)) :=
  match services with
  | [] => Ok []
  | svc :: rest =>
      match reservation !! r_id (Mani.Res svc) with
      | None => Err (ErrNoSchedulerParams (r_id (Mani.Res svc)))
      | Some params => (let? sps := buildClusterSettings rest reservation in Ok (params :: sps))%go
      end
  end.

Definition validate_service (svc : Mani.Service) (sp : option SchedulerParams) : result builder_error unit :=
  match r_cpu (Mani.Res svc), r_gpu (Mani.Res svc), r_memory (Mani.Res svc) with
  | Some _, Some gpu, Some _ =>
      if (0 <? units gpu)%Z then
        match (sp ≫= sp_resources) ≫= sr_gpu with
        | Some _ => Ok tt
        | None => Err ErrNilGPUParams
        end
      else Ok tt
  | _, _, _ => Err ErrNilResource
  end.

Fixpoint validate_services (services : list Mani.Service) (sps : list (option SchedulerParams))
    : result builder_error unit :=
  match services, sps with
  | svc :: services', sp :: sps' =>
      (let? _ := validate_service svc sp in validate_services services' sps')%go
  | _, _ => Ok tt
  end.

Definition validate (group : Mani.Group) (sps : list (option SchedulerParams)) : result builder_error unit :=
  if negb (length (Mani.Services group) =? length sps)%nat then Err ErrCountMismatch
  else validate_services (Mani.Services group) sps.

(** [ClusterDeploymentFromDeployment] for a recovered deployment. *)
Definition ClusterDeploymentFromDeployment (d : deployment SchedulerParams)
    : result builder_error (list (option SchedulerParams)) :=
  (let? sps := buildClusterSettings (Mani.Services (dep_group d)) (dep_cparams d) in
   let? _ := validate (dep_group d) sps in Ok sps)%go.

End Conversions.

Arguments mkDeployment {H P}. Arguments dep_lid {H P}. Arguments dep_group {H P}.
Arguments dep_cparams {H P}. Arguments dep_version {H P}.

(** ** What survives being stored *)

Section Recovery.
Context `{HP : ServiceProtocolAPI} `{HL : !ServiceProtocolLaws} `{HB : Bech32} `{HH : LeaseHash}.

(** The expose, service and group that come back: ports as they were, an empty
    proxy object gone, no endpoints and no TEE. *)
Definition proxy_unset (p : Mani.ProxyOptions) : bool :=
  negb (Mani.BufferingDisable p) && (Mani.BufferSize p =? 0)%Z && (Mani.BuffersNumber p =? 0)%Z &&
  (Mani.BuffersSize p =? 0)%Z && (Mani.BusyBuffersSize p =? 0)%Z && (Mani.ConnectTimeout p =? 0)%Z.

Definition recovered_http (o : Mani.HTTPOptions) : Mani.HTTPOptions :=
  Mani.mkHTTP (Mani.MaxBodySize o) (Mani.ReadTimeout o) (Mani.SendTimeout o) (Mani.NextTries o)
    (Mani.NextTimeout o) (Mani.NextCases o)
    (Mani.Proxy o ≫= fun p => if proxy_unset p then None else Some p).

Definition recovered_expose (e : Mani.ServiceExpose) : Mani.ServiceExpose :=
  Mani.mkExpose (Mani.Port e) (Mani.ExternalPort e) (Mani.Proto e) (Mani.ESvc e) (Mani.Global e)
    (Mani.Hosts e) (recovered_http (Mani.EHTTP e)) (Mani.IP e) (Mani.EndpointSequenceNumber e).

Definition recovered_resources (r : Resources) : Resources :=
  mkResources (r_id r) (r_cpu r) (r_memory r) (r_storage r) (r_gpu r) [].

Definition recovered_service (s : Mani.Service) : Mani.Service :=
  Mani.mkService (Mani.Name s) (Mani.Image s) (Mani.Command s) (Mani.Args s) (Mani.Env s)
    (recovered_resources (Mani.Res s)) (Mani.Count s) (map recovered_expose (Mani.Exposes s))
    ((fun p => Mani.mkParams (Mani.PStorage p) (Mani.PRead p) None) <$> Mani.Params s)
    (Mani.Credentials s) (Mani.InterconnectGroup s).

(** What the SDL validation guarantees of a manifest: ports and protocols are
    real ones, every resource is given, quantities are 64-bit values. *)
Definition expose_ok (e : Mani.ServiceExpose) : Prop :=
  is_uint 16 (Mani.Port e) /\ is_uint 16 (Mani.ExternalPort e) /\ proto_ok (Mani.Proto e).

Definition units_ok (u : option Units) : Prop :=
  exists v, u = Some v /\ is_uint 32 (units v).

Definition resources_ok (r : Resources) : Prop :=
  units_ok (r_cpu r) /\ units_ok (r_gpu r) /\
  (exists m, r_memory r = Some m /\ is_uint 64 (m_quantity m)) /\
  Forall (fun s => is_uint 64 (s_quantity s)) (r_storage r).

Definition service_ok (s : Mani.Service) : Prop :=
  resources_ok (Mani.Res s) /\ Forall expose_ok (Mani.Exposes s).

Lemma expose_roundtrip e :
  expose_ok e -> expose_toAkash (manifestServiceExposeFromAkash e) = Some (recovered_expose e).
Proof.
  destruct e as [port ext pr ? ? ? [? ? ? ? ? ? [[]|]] ? ?]; intros (Hp & He & Hpr);
    unfold expose_toAkash; simpl in *; rewrite proto_parse_print by done; simpl;
    by rewrite !wrap_id by done.
Qed.

Lemma exposes_roundtrip es acc eps :
  Forall expose_ok es ->
  exists eps', exposes_fromCRD (map manifestServiceExposeFromAkash es) acc eps =
    Some (acc ++ map recovered_expose es, eps').
Proof.
  intros Hes. revert acc eps. induction Hes as [|e es He Hes IH]; intros acc eps; simpl.
  - exists eps. by rewrite app_nil_r.
  - rewrite expose_roundtrip by done. simpl. edestruct IH as [eps' ->]. exists eps'.
    by rewrite <- app_assoc.
Qed.

Lemma units_roundtrip err u v :
  u = Some v -> is_uint 32 (units v) ->
  units_from err u = Ok (Crd.mkUnits (units v) (u_attrs v)).
Proof.
  intros -> Hv. simpl. unfold MaxUint32, is_uint, wrap32 in *.
  destruct (Z.ltb_spec (2 ^ 32 - 1) (units v)); [lia|]. by rewrite wrap_id.
Qed.

Lemma volumes_roundtrip vs :
  Forall (fun s => is_uint 64 (s_quantity s)) vs ->
  map volume_ToAkash (map (fun s => Crd.mkVolume (s_name s) (FormatUint (s_quantity s)) (s_attrs s)) vs)
    = vs.
Proof.
  induction 1 as [|s vs Hs Hvs IH]; [done|]. simpl. rewrite IH. f_equal.
  unfold volume_ToAkash. simpl. rewrite ParseUint_value_FormatUint by done. by destruct s.
Qed.

Lemma resources_roundtrip r :
  resources_ok r ->
  exists cr, resourcesFromAkash r = Ok cr /\ resources_ToAkash cr = recovered_resources r.
Proof.
  intros ((cpu & Hcpu & Hc) & (gpu & Hgpu & Hg) & (m & Hm & Hq) & Hs).
  unfold resourcesFromAkash. rewrite (units_roundtrip _ _ _ Hcpu Hc). simpl.
  rewrite (units_roundtrip _ _ _ Hgpu Hg). simpl. rewrite Hm. eexists. split; [done|].
  unfold resources_ToAkash, recovered_resources. simpl. rewrite volumes_roundtrip by done.
  unfold memory_ToAkash, units_ToAkash. simpl. rewrite ParseUint_value_FormatUint by done.
  rewrite Hcpu, Hgpu, Hm. by destruct cpu, gpu, m.
Qed.

Lemma storage_roundtrip ps : map storage_fromCRD (map storage_toCRD ps) = ps.
Proof. rewrite map_map. rewrite <- (map_id ps) at 2. apply map_ext. by intros []. Qed.

(** Writing a service and reading it back, whatever its pointer became. *)
Lemma service_roundtrip h s sp :
  service_ok s ->
  exists h' sp' cs, apply_tee h (Mani.Params s) sp = (h', sp') /\
    manifestServiceFromProvider h s sp = Ok (h', cs) /\ Crd.Sched cs = sp' /\
    forall g, service_fromCRD (store_service g cs) = Ok (recovered_service s).
Proof.
  intros [Hr He]. destruct (resources_roundtrip _ Hr) as (cr & Hcr & Hback).
  destruct (apply_tee h (Mani.Params s) sp) as [h' sp'] eqn:Ht.
  unfold manifestServiceFromProvider. rewrite Hcr. simpl. rewrite Ht.
  do 3 eexists. do 3 (split; [done|]). intros g. unfold service_fromCRD, store_service. simpl.
  destruct (exposes_roundtrip (Mani.Exposes s) [] [] He) as [eps ->].
  rewrite Hback. unfold recovered_service. do 2 f_equal.
  - destruct (Mani.Params s) as [[ps rd tee]|]; [|done]. simpl. rewrite storage_roundtrip.
    by destruct rd.
  - by destruct (Mani.Credentials s) as [[]|].
Qed.

Lemma services_roundtrip h ss sps :
  Forall service_ok ss -> length ss = length sps ->
  exists h' css, services_toCRD h ss sps = Ok (h', css) /\ length css = length ss /\
    forall g, services_fromCRD (map (store_service g) css) =
      Ok (map recovered_service ss, map (fun cs => Crd.Sched cs ≫= (g !!.)) css).
Proof.
  intros Hss. revert h sps. induction Hss as [|s ss Hs Hss IH]; intros h [|sp sps] Hlen;
    simpl in Hlen; try lia.
  - by exists h, [].
  - destruct (service_roundtrip h s sp Hs) as (h1 & sp' & cs & _ & Hw & _ & Hr).
    destruct (IH h1 sps ltac:(lia)) as (h2 & css & Hw2 & Hlen2 & Hr2).
    exists h2, (cs :: css). cbn [services_toCRD services_fromCRD map].
    rewrite Hw. cbn [bind_result]. rewrite Hw2. split_and!; [done|simpl; lia|].
    intros g. rewrite Hr. cbn [bind_result]. by rewrite Hr2.
Qed.

(** *** Scheduler parameters *)

(** What a service's own TEE makes of the parameters it was given. *)
Definition tee_value (params : option Mani.ServiceParams) (v : option SchedulerParams)
    : option SchedulerParams :=
  match params ≫= Mani.PTEE with
  | None => v
  | Some tee =>
      let old := default emptySchedulerParams v in
      Some (mkSchedulerParams (sp_runtime_class old) (sp_resources old)
              (if Mani.Attestation tee then sp_attestation_disabled old else true)
              (Mani.TEEKind tee))
  end.

Definition ptr_ok (h : sched_heap) (sp : option ptr) : Prop :=
  forall p, sp = Some p -> is_Some (h !! p).

Lemma ptr_ok_mono h h' sps :
  (forall q, is_Some (h !! q) -> is_Some (h' !! q)) ->
  Forall (ptr_ok h) sps -> Forall (ptr_ok h') sps.
Proof.
  rewrite !list.Forall_forall. intros Hkeep Hok sp Hsp p Hp. by apply Hkeep, (Hok sp).
Qed.

Lemma apply_tee_spec h params sp h' sp' :
  ptr_ok h sp -> apply_tee h params sp = (h', sp') ->
  (sp' ≫= (h' !!.)) = tee_value params (sp ≫= (h !!.)) /\ ptr_ok h' sp' /\
  (sp' = sp \/ exists q, sp' = Some q /\ h !! q = None) /\
  (forall q, is_Some (h !! q) -> sp <> Some q -> h' !! q = h !! q) /\
  (forall q, is_Some (h !! q) -> is_Some (h' !! q)).
Proof.
  unfold apply_tee, tee_value, ptr_ok. intros Hok.
  destruct (params ≫= Mani.PTEE) as [tee|]; [|intros; simplify_eq; eauto 10].
  destruct sp as [p|]; intros; simplify_eq/=.
  - rewrite !lookup_insert_eq. split_and!; [done|..].
    + intros q [= ->]. rewrite lookup_insert_eq. eauto.
    + by left.
    + intros q _ Hne. apply lookup_insert_ne. congruence.
    + intros q Hq. destruct (decide (p = q)) as [->|Hne];
        [rewrite lookup_insert_eq|rewrite lookup_insert_ne]; eauto.
  - set (f := fresh (dom h)). assert (h !! f = None) as Hf
      by (apply not_elem_of_dom; apply is_fresh).
    rewrite !lookup_insert_eq. split_and!; [done|..].
    + intros q [= ->]. rewrite lookup_insert_eq. eauto.
    + right. eauto.
    + intros q Hq _. assert (f <> q) by (intros ->; rewrite Hf in Hq; by destruct Hq).
      by rewrite !lookup_insert_ne.
    + intros q Hq. assert (f <> q) by (intros ->; rewrite Hf in Hq; by destruct Hq).
      by rewrite !lookup_insert_ne.
Qed.

Lemma manifestServiceFromProvider_inv h s sp h' cs :
  manifestServiceFromProvider h s sp = Ok (h', cs) -> apply_tee h (Mani.Params s) sp = (h', Crd.Sched cs).
Proof.
  unfold manifestServiceFromProvider. intros (cr & _ & Hs)%bind_result_Ok.
  destruct (apply_tee h (Mani.Params s) sp). by simplify_eq/=.
Qed.

(** A pointer no service of the rest is given keeps its value. *)
Lemma services_toCRD_frame h ss sps h' css :
  Forall (ptr_ok h) sps -> services_toCRD h ss sps = Ok (h', css) ->
  forall q, is_Some (h !! q) -> Some q ∉ sps -> h' !! q = h !! q.
Proof.
  revert h sps h' css. induction ss as [|s ss IH]; intros h [|sp sps] h' css Hok Hw q Hq Hn;
    simpl in Hw; try (by simplify_eq).
  apply bind_result_Ok in Hw as ([h1 cs] & Hw1 & Hw).
  apply bind_result_Ok in Hw as ([h2 css2] & Hw2 & Hw). simplify_eq.
  apply manifestServiceFromProvider_inv in Hw1.
  apply list.Forall_cons in Hok as [Hsp Hok]. apply not_elem_of_cons in Hn as [Hne Hn].
  destruct (apply_tee_spec _ _ _ _ _ Hsp Hw1) as (_ & _ & _ & Hframe & Hkeep).
  rewrite (IH h1 sps h' css2); [by apply Hframe| |done|by apply Hkeep|done].
  by eapply ptr_ok_mono.
Qed.

(** Services with parameters of their own store what their own TEE asks for. *)
Lemma services_toCRD_own h ss sps h' css :
  Forall (ptr_ok h) sps -> NoDup (omap id sps) -> services_toCRD h ss sps = Ok (h', css) ->
  length ss = length sps ->
  map (fun cs => Crd.Sched cs ≫= (h' !!.)) css =
    zip_with (fun s sp => tee_value (Mani.Params s) (sp ≫= (h !!.))) ss sps.
Proof.
  revert h sps h' css. induction ss as [|s ss IH]; intros h [|sp sps] h' css Hok Hnd Hw Hlen;
    simpl in Hw, Hlen; try lia; [by simplify_eq|].
  apply bind_result_Ok in Hw as ([h1 cs] & Hw1 & Hw).
  apply bind_result_Ok in Hw as ([h2 css2] & Hw2 & Hw). simplify_eq.
  apply manifestServiceFromProvider_inv in Hw1.
  apply list.Forall_cons in Hok as [Hsp Hok].
  destruct (apply_tee_spec _ _ _ _ _ Hsp Hw1) as (Hval & Hptr & Hfrom & Hframe & Hkeep).
  assert (Forall (ptr_ok h1) sps) as Hok1 by (by eapply ptr_ok_mono).
  assert (forall q, sp = Some q -> Some q ∉ sps) as Hsp_n.
  { intros q -> Hin. simpl in Hnd. apply list.NoDup_cons in Hnd as [Hq _]. apply Hq.
    apply list_elem_of_omap. by exists (Some q). }
  cbn [map zip_with]. f_equal.
  - rewrite <- Hval. destruct (Crd.Sched cs) as [q|] eqn:Hq; [|done]. simpl.
    eapply services_toCRD_frame; [done..|by apply Hptr|].
    destruct Hfrom as [<-|(q' & [= <-] & Hnone)]; [by apply Hsp_n|].
    intros Hin. rewrite list.Forall_forall in Hok. destruct (Hok _ Hin q eq_refl). congruence.
  - erewrite IH; [|done| |done|lia].
    + apply list_eq. intros i. rewrite !lookup_zip_with.
      destruct (ss !! i) as [s'|]; [|done]. destruct (sps !! i) as [sp'|] eqn:Hi; [|done]. simpl.
      do 2 f_equal. destruct sp' as [q|]; [|done]. simpl. apply Hframe.
      * rewrite list.Forall_forall in Hok. apply (Hok (Some q)); [by eapply list_elem_of_lookup_2|done].
      * intros ->. eapply Hsp_n; [done|]. by eapply list_elem_of_lookup_2.
    + destruct sp; simpl in Hnd; [by apply list.NoDup_cons in Hnd as [_ ?]|done].
Qed.

(** Parameters entered by resource id come back when the ids differ. *)
Lemma params_by_id_lookup {P} (m : cluster_params P) ss sps i s sp :
  NoDup (map (fun s => r_id (Mani.Res s)) ss) -> ss !! i = Some s -> sps !! i = Some sp ->
  foldl (fun m '(svc, sp) => <[r_id (Mani.Res svc) := sp]> m) m (zip ss sps) !! r_id (Mani.Res s)
    = Some sp.
Proof.
  revert m sps i. induction ss as [|s0 ss IH]; intros m [|sp0 sps] i Hnd Hs Hp; try done.
  simpl in Hnd. apply list.NoDup_cons in Hnd as [Hn Hnd]. destruct i as [|i]; simplify_eq/=.
  - assert (forall l k (m : cluster_params P), k ∉ map (fun s => r_id (Mani.Res s)) l.*1 ->
      foldl (fun m '(svc, sp) => <[r_id (Mani.Res svc) := sp]> m) m l !! k = m !! k) as Hout.
    { clear. induction l as [|[s' sp'] l IHl]; intros k m Hk; [done|]. simpl in *.
      apply not_elem_of_cons in Hk as [Hne Hk]. rewrite IHl by done. by rewrite lookup_insert_ne. }
    rewrite Hout; [by rewrite lookup_insert_eq|].
    intros Hin. apply Hn. apply list_elem_of_fmap in Hin as (s' & -> & Hin).
    apply list_elem_of_fmap. exists s'. split; [done|].
    apply list_elem_of_fmap in Hin as ([a b] & -> & Hin). by apply elem_of_zip_l in Hin.
  - by eapply IH.
Qed.

Lemma buildClusterSettings_spec {P} ss sps (m : cluster_params P) :
  length ss = length sps ->
  (forall i s sp, ss !! i = Some s -> sps !! i = Some sp -> m !! r_id (Mani.Res s) = Some sp) ->
  buildClusterSettings ss m = Ok sps.
Proof.
  revert sps. induction ss as [|s ss IH]; intros [|sp sps] Hlen Hm; simpl in *; try lia; [done|].
  rewrite (Hm 0%nat s sp) by done. rewrite (IH sps); [done|lia|].
  intros i. apply (Hm (S i)).
Qed.

(** A service is refused for its units alone. *)
Lemma manifestServiceFromProvider_err h s sp :
  (exists h' cs, manifestServiceFromProvider h s sp = Ok (h', cs) /\
     forall u, r_cpu (Mani.Res s) = Some u \/ r_gpu (Mani.Res s) = Some u -> ~ (MaxUint32 < units u)%Z) \/
  (exists e, manifestServiceFromProvider h s sp = Err e /\
     exists u, (r_cpu (Mani.Res s) = Some u \/ r_gpu (Mani.Res s) = Some u) /\ (MaxUint32 < units u)%Z).
Proof.
  unfold manifestServiceFromProvider, resourcesFromAkash, units_from.
  destruct (apply_tee h (Mani.Params s) sp) as [h' sp'].
  destruct (r_cpu (Mani.Res s)) as [cpu|] eqn:Hc; simpl;
    [destruct (Z.ltb_spec MaxUint32 (units cpu)); simpl; [right; by eauto 10|]|];
    (destruct (r_gpu (Mani.Res s)) as [gpu|] eqn:Hg; simpl;
      [destruct (Z.ltb_spec MaxUint32 (units gpu)); simpl; [right; by eauto 10|]|]);
    left; do 2 eexists; (split; [done|]); intros u [Hu|Hu]; simplify_eq; lia.
Qed.

(** Services that came back from the cluster carry no endpoints. *)
Lemma services_fromCRD_endpoints {P} (css : list (Crd.Service P)) ss sps :
  services_fromCRD css = Ok (ss, sps) -> Forall (fun s => r_endpoints (Mani.Res s) = []) ss.
Proof.
  revert ss sps. induction css as [|cs css IH]; intros ss sps Hr; simpl in Hr; [by simplify_eq|].
  apply bind_result_Ok in Hr as (s & Hs & Hr).
  apply bind_result_Ok in Hr as ([ss' sps'] & Hss & Hr). simplify_eq.
  apply list.Forall_cons. split; [|by eapply IH].
  unfold service_fromCRD in Hs. by repeat case_match; simplify_eq.
Qed.

(** *** Theorems *)

(** C23: a manifest written to the cluster with [NewManifest] and read back with
    [Deployment] is the manifest that was written: for every validated group (ports
    of 16 bits, TCP or UDP, all resources given, units of 32 and quantities of 64
    bits) both conversions succeed and the lease, every service, image, command,
    resource, expose, HTTP option, storage parameter and credential is the original
    one; gone are only the endpoints, the TEE request and a proxy object in which nothing is set. *)
Theorem manifest_recovered (ns version : string) (lid : LeaseID) (group : Mani.Group)
    (settings : list (option ptr)) (h : sched_heap) :
  lease_ok lid -> CRDLease.addresses_ok lid ->
  Forall service_ok (Mani.Services group) -> length (Mani.Services group) = length settings ->
  exists h' m d,
    NewManifest ns lid group settings h = Ok (h', m) /\
    Deployment (store_manifest version h' m) = Ok d /\
    dep_lid d = lid /\ dep_version d = version /\
    dep_group d = Mani.mkGroup (Mani.GName group) (map recovered_service (Mani.Services group)).
Proof.
  intros Hlid Haddr Hok Hlen. unfold NewManifest. rewrite (proj2 (Nat.eqb_eq _ _) Hlen). simpl.
  destruct (services_roundtrip h _ _ Hok Hlen) as (h' & css & Hw & _ & Hr).
  unfold manifestGroupToCRD. rewrite Hw. simpl. do 3 eexists. split; [done|].
  unfold Deployment, store_manifest. simpl.
  rewrite CRDLease.FromCRD_LeaseIDFromAkash by done. unfold group_FromCRD. simpl. rewrite Hr. simpl.
  split; [done|]. done.
Qed.

(** The settings a recovered deployment is deployed with are those it was
    stored with: when the services have resource ids and scheduler parameters of
    their own, [ClusterDeploymentFromDeployment]'s settings give each service the
    parameters of its reservation with its own TEE type and attestation choice. *)
Theorem settings_recovered (ns version : string) (lid : LeaseID) (group : Mani.Group)
    (settings : list (option ptr)) (h h' : sched_heap) (m : Crd.Manifest ptr)
    (d : deployment SchedulerParams) :
  Forall (ptr_ok h) settings -> NoDup (omap id settings) ->
  NoDup (map (fun s => r_id (Mani.Res s)) (Mani.Services group)) ->
  NewManifest ns lid group settings h = Ok (h', m) ->
  Deployment (store_manifest version h' m) = Ok d ->
  Forall service_ok (Mani.Services group) ->
  buildClusterSettings (Mani.Services (dep_group d)) (dep_cparams d) =
    Ok (zip_with (fun s sp => tee_value (Mani.Params s) (sp ≫= (h !!.))) (Mani.Services group) settings).
Proof.
  intros Hptr Hnd Hids Hnew Hdep Hok. unfold NewManifest in Hnew.
  destruct (Nat.eqb_spec (length (Mani.Services group)) (length settings)) as [Hlen|]; [|done].
  simpl in Hnew. unfold manifestGroupToCRD in Hnew.
  destruct (services_roundtrip h _ _ Hok Hlen) as (h1 & css & Hw & Hcss & Hr).
  rewrite Hw in Hnew. simplify_eq/=. unfold Deployment, store_manifest in Hdep. simpl in Hdep.
  destruct (CRDLease.FromCRD _) as [l|]; [|done]. unfold group_FromCRD in Hdep. simpl in Hdep.
  rewrite Hr in Hdep. simplify_eq/=. rewrite (services_toCRD_own _ _ _ _ _ Hptr Hnd Hw Hlen).
  apply buildClusterSettings_spec; [by rewrite length_map, length_zip_with, <- Hlen, Nat.min_id|].
  intros i s sp Hs Hp. unfold params_by_id. eapply params_by_id_lookup; [|done..].
  rewrite map_map. exact Hids.
Qed.

(** [NewManifest] refuses exactly the groups it cannot represent: it fails if
    and only if the settings do not match the services in number or some service
    asks for more than [MaxUint32] CPU or GPU units. *)
Theorem NewManifest_error_iff (ns : string) (lid : LeaseID) (group : Mani.Group)
    (settings : list (option ptr)) (h : sched_heap) :
  is_ok (NewManifest ns lid group settings h) = false <->
  length (Mani.Services group) <> length settings \/
  exists s u, s ∈ Mani.Services group /\
    (r_cpu (Mani.Res s) = Some u \/ r_gpu (Mani.Res s) = Some u) /\ (MaxUint32 < units u)%Z.
Proof.
  unfold NewManifest. destruct (Nat.eqb_spec (length (Mani.Services group)) (length settings)) as [Hlen|Hne];
    [|by split; auto]. simpl.
  transitivity (is_ok (services_toCRD h (Mani.Services group) settings) = false).
  { unfold manifestGroupToCRD. by destruct (services_toCRD _ _ _) as [[]|]. }
  trans (exists s u, s ∈ Mani.Services group /\
    (r_cpu (Mani.Res s) = Some u \/ r_gpu (Mani.Res s) = Some u) /\ (MaxUint32 < units u)%Z);
    [|naive_solver].
  revert settings h Hlen. induction (Mani.Services group) as [|s ss IH];
    intros [|sp sps] h Hlen; simpl in Hlen; try lia.
  - split; [done|]. intros (? & ? & ?%not_elem_of_nil & _). done.
  - simpl. destruct (manifestServiceFromProvider_err h s sp) as [(h1 & cs & -> & Hno)|(e & -> & u & Hu)].
    + simpl. trans (is_ok (services_toCRD h1 ss sps) = false).
      { by destruct (services_toCRD _ _ _) as [[]|]. }
      rewrite IH by lia. setoid_rewrite elem_of_cons. naive_solver.
    + split; [|done]. intros _. exists s, u. split; [left|done].
Qed.

(** No service of a recovered deployment has an endpoint. [fromCRD] appends the
    leased-IP endpoints of the exposes to its local copy of the resources, after the
    service was built from it, so the deployment it returns reserves no leased
    IP whatever its exposes ask for. *)
Theorem recovered_without_endpoints {P} (m : Crd.Manifest P) (d : deployment P) :
  Deployment m = Ok d ->
  forall s, s ∈ Mani.Services (dep_group d) -> r_endpoints (Mani.Res s) = [].
Proof.
  unfold Deployment. destruct (CRDLease.FromCRD _) as [lid|]; [|done].
  intros ([group sps] & Hg & Hd)%bind_result_Ok. simplify_eq/=.
  apply bind_result_Ok in Hg as ([ss sps'] & Hss & Hg). simplify_eq/=.
  intros s. apply services_fromCRD_endpoints in Hss. rewrite list.Forall_forall in Hss. by apply Hss.
Qed.

End Recovery.

(** *** Shared parameters *)

Section Shared.
Context `{HP : ServiceProtocolAPI} `{HB : Bech32} `{HH : LeaseHash}.

(** Two services of one resource id are given one pointer by
    [buildClusterSettings], and a TEE request is written through it: when the second
    asks for a TEE without attestation and the first asks for none, the stored
    manifest gives both the TEE type and disables the attestation of both. *)
Theorem tee_reaches_sharing_service (ns version name : string) (lid : LeaseID) (a b : Mani.Service)
    (tee : Mani.TEE) (p : ptr) (reservation : cluster_params ptr) (settings : list (option ptr))
    (h h' : sched_heap) (m : Crd.Manifest ptr) :
  r_id (Mani.Res a) = r_id (Mani.Res b) ->
  reservation !! r_id (Mani.Res a) = Some (Some p) ->
  buildClusterSettings [a; b] reservation = Ok settings ->
  (Mani.Params a ≫= Mani.PTEE) = None -> (Mani.Params b ≫= Mani.PTEE) = Some tee ->
  Mani.Attestation tee = false ->
  NewManifest ns lid (Mani.mkGroup name [a; b]) settings h = Ok (h', m) ->
  Forall (fun s => exists sp, Crd.Sched s = Some sp /\
      sp_tee_type sp = Mani.TEEKind tee /\ sp_attestation_disabled sp = true)
    (Crd.Services (Crd.SGroup (store_manifest version h' m))).
Proof.
  intros Hid Hres Hset Ha Hb Hatt Hnew. simpl in Hset. rewrite <- Hid, Hres in Hset. simplify_eq/=.
  unfold NewManifest, manifestGroupToCRD in Hnew. simpl in Hnew.
  apply bind_result_Ok in Hnew as ([h2 g] & Hg & Hnew). simplify_eq/=.
  apply bind_result_Ok in Hg as ([h3 ss] & Hss & Hg). simplify_eq/=.
  apply bind_result_Ok in Hss as ([h1 ca] & Hca & Hss). apply manifestServiceFromProvider_inv in Hca.
  apply bind_result_Ok in Hss as ([h4 rest] & Hrest & Hss). simplify_eq/=.
  apply bind_result_Ok in Hrest as ([h5 cb] & Hcb & Hrest). apply manifestServiceFromProvider_inv in Hcb.
  simplify_eq. unfold apply_tee in Hca, Hcb. rewrite Ha in Hca. injection Hca as <- Hsa.
  rewrite Hb, Hatt in Hcb. injection Hcb as <- Hsb. simpl.
  repeat (apply list.Forall_cons; split); [..|done]; eexists;
    (split; [simpl; rewrite <- ?Hsa, <- ?Hsb; simpl; by rewrite lookup_insert_eq|done]).
Qed.

End Shared.

(** ** Examples *)

Module CrdExamples.

#[local] Existing Instance named_protocols.
#[local] Existing Instance named_protocols_laws.
#[local] Existing Instance any_bech32.
#[local] Existing Instance seq_hash.

Definition ex_resources (id gpu : Z) : Resources :=
  mkResources id (Some (mkUnits 500 [])) (Some (mkMemory 1073741824 []))
    [mkStorage "default" 536870912 [mkAttribute "persistent" "false"]] (Some (mkUnits gpu []))
    [mkEndpoint Endpoint_LEASED_IP 1].

Definition ex_expose : Mani.ServiceExpose :=
  Mani.mkExpose 8080 80 TCP "" true ["app.example.com"]
    (Mani.mkHTTP 1048576 60000 60000 3 60000 ["error"] None) "ip1" 1.

Definition ex_service (name : string) (id : Z) (tee : option Mani.TEE) : Mani.Service :=
  Mani.mkService name "nginx" [] [] ["A=1"] (ex_resources id 0) 1 [ex_expose]
    (Some (Mani.mkParams [Mani.mkStorageParams "default" "/data" false] None tee)) None "".

Definition ex_group : Mani.Group :=
  Mani.mkGroup "g" [ex_service "web" 1 None; ex_service "api" 2 (Some (Mani.mkTEE "cpu" true))].

Definition ex_lid : LeaseID := mkLeaseID "akash1owner" 7 1 1 "akash1prov".

Definition ex_heap : sched_heap := {[ 0%nat := emptySchedulerParams ]}.

Lemma ex_group_ok : Forall service_ok (Mani.Services ex_group).
Proof.
  repeat constructor; try done; try (eexists; split; [done|]); split; vm_compute; congruence.
Qed.

Lemma manifest_recovered_witness :
  exists h' m d, NewManifest "lease" ex_lid ex_group [Some 0%nat; None] ex_heap = Ok (h', m) /\
    Deployment (store_manifest "12" h' m) = Ok d /\ dep_lid d = ex_lid /\ dep_version d = "12"%string /\
    dep_group d = Mani.mkGroup "g" (map recovered_service (Mani.Services ex_group)).
Proof.
  apply (manifest_recovered "lease" "12" ex_lid ex_group [Some 0%nat; None] ex_heap);
    [repeat split; done|split; done|exact ex_group_ok|done].
Defined.

Lemma recovered_without_endpoints_witness :
  exists d : deployment SchedulerParams,
    r_endpoints (Mani.Res (ex_service "web" 1 None)) = [mkEndpoint Endpoint_LEASED_IP 1] /\
    forall s, s ∈ Mani.Services (dep_group d) -> r_endpoints (Mani.Res s) = [].
Proof.
  destruct (NewManifest "lease" ex_lid ex_group [Some 0%nat; None] ex_heap) as [[h' m]|] eqn:Hm;
    [|vm_compute in Hm; discriminate].
  destruct (Deployment (store_manifest "12" h' m)) as [d|] eqn:Hd.
  - exists d. split; [done|]. exact (recovered_without_endpoints _ d Hd).
  - vm_compute in Hm. injection Hm as <- <-. vm_compute in Hd. discriminate.
Defined.

Lemma settings_recovered_witness :
  exists d, Deployment (store_manifest "12"
      (match NewManifest "lease" ex_lid ex_group [Some 0%nat; None] ex_heap with
       | Ok hm => hm.1 | Err _ => ∅ end)
      (match NewManifest "lease" ex_lid ex_group [Some 0%nat; None] ex_heap with
       | Ok hm => hm.2 | Err _ => Crd.mkManifest "" "" "" (CRDLease.LeaseIDFromAkash ex_lid) (Crd.mkGroup "" []) end))
    = Ok d /\
  buildClusterSettings (Mani.Services (dep_group d)) (dep_cparams d) =
    Ok [Some emptySchedulerParams; Some (mkSchedulerParams "" None false "cpu")].
Proof.
  destruct (NewManifest "lease" ex_lid ex_group [Some 0%nat; None] ex_heap) as [[h' m]|] eqn:Hm;
    [|vm_compute in Hm; discriminate].
  destruct (Deployment (store_manifest "12" h' m)) as [d|] eqn:Hd.
  - exists d. split; [exact Hd|].
    refine (eq_trans (settings_recovered "lease" "12" ex_lid ex_group [Some 0%nat; None] ex_heap h' m d
      _ _ _ Hm Hd ex_group_ok) _); [| | |reflexivity].
    + repeat constructor; intros p Hp; [injection Hp as <-; eexists; reflexivity|discriminate].
    + repeat constructor; by intros ?%not_elem_of_nil.
    + repeat constructor; [intros Hin; repeat (apply elem_of_cons in Hin as [?|Hin]; [done|]);
        by apply not_elem_of_nil in Hin|by intros ?%not_elem_of_nil].
  - vm_compute in Hm. injection Hm as <- <-. vm_compute in Hd. discriminate.
Defined.

Definition ex_shared : Mani.Group :=
  Mani.mkGroup "g" [ex_service "web" 1 None; ex_service "api" 1 (Some (Mani.mkTEE "cpu" false))].

Lemma tee_reaches_sharing_service_witness :
  exists h' m, NewManifest "lease" ex_lid ex_shared [Some 0%nat; Some 0%nat] ex_heap = Ok (h', m) /\
  Forall (fun s => exists sp, Crd.Sched s = Some sp /\
      sp_tee_type sp = "cpu"%string /\ sp_attestation_disabled sp = true)
    (Crd.Services (Crd.SGroup (store_manifest "12" h' m))).
Proof.
  destruct (NewManifest "lease" ex_lid ex_shared [Some 0%nat; Some 0%nat] ex_heap) as [[h' m]|] eqn:Hm;
    [|vm_compute in Hm; discriminate].
  exists h', m. split; [done|].
  eapply (tee_reaches_sharing_service "lease" "12" "g" ex_lid (ex_service "web" 1 None)
    (ex_service "api" 1 (Some (Mani.mkTEE "cpu" false))) (Mani.mkTEE "cpu" false) 0%nat
    {[ 1%Z := Some 0%nat ]} [Some 0%nat; Some 0%nat] ex_heap h' m); done.
Defined.

End CrdExamples.
