(* ===== verification/Kube.v ===== *)
(** * The Kubernetes API as the provider uses it

    One kind of object in the cluster is a [KubeCollection]: the calls the client
    and the operators make on it. The API server is not part of the provider, so the
    calls are operations of a class; [KubeLaws] says what is documented of them. A
    call that fails may have taken effect or not. [store_api] is a server that
    keeps its objects in a map and fails when it is told to. *)

From Stdlib Require Import ZArith Lia.
From stdpp Require Import base gmap list strings tactics.
From S2P Require Import Prelude Types Names.

(** ** Errors *)

Record kube_error := mkKubeError { ke_not_found : bool; ke_text : string }.

(** [kerrors.IsNotFound]. *)
Definition IsNotFound (e : kube_error) : bool := ke_not_found e.

(** [strings.Contains]. *)
Fixpoint str_contains (s sub : string) : bool :=
  String.prefix sub s ||
  match s with EmptyString => false | String _ s' => str_contains s' sub end.

(** ** Objects and calls *)

(** What the provider reads of the metadata of an object; the namespace is the one
    it is stored in. *)
Class KubeObject (Obj : Type) := {
  obj_name : Obj -> string;
  obj_labels : Obj -> labels_t
}.

(** [W] is the cluster, [St] what the server adds to an object (its resource
    version, its status). *)
Class KubeCollection (W Obj St : Type) := {
  kube_Get : W -> string -> string -> result kube_error (Obj * St);
  kube_List : W -> option string -> list (string * string) -> result kube_error (list (Obj * St));
  kube_Create : W -> string -> Obj -> W * option kube_error;
  kube_Update : W -> string -> Obj -> St -> W * option kube_error;
  kube_Delete : W -> string -> string -> W * option kube_error;
  kube_DeleteCollection : W -> string -> list (string * string) -> option string -> W * option kube_error
}.

(** An optional requirement on a string. *)
Definition optional_eqb (o : option string) (s : string) : bool :=
  match o with Some n => String.eqb n s | None => true end.

(** What [DeleteCollection] with a label selector and a field selector on the name
    removes from a namespace. *)
Definition selected `{KubeObject Obj} (ns : string) (selector : list (string * string))
    (name : option string) (ko : (string * string) * Obj) : bool :=
  String.eqb ns ko.1.1 && selector_matches selector (obj_labels ko.2) && optional_eqb name ko.1.2.

(** The effect of a call, and a call that had it, or failed and may have had it. *)
Definition took_effect {W X E} (stored : W -> X) (w : W) (effect : X) (r : W * option E) : Prop :=
  match r.2 with
  | None => stored r.1 = effect
  | Some _ => stored r.1 = stored w \/ stored r.1 = effect
  end.

(** [stored w] are the objects of the collection, by namespace and name. An answer
    that there is nothing to delete means that there is nothing. *)
Class KubeLaws (W Obj St : Type) `{KubeObject Obj} `{KubeCollection W Obj St} := {
  stored : W -> gmap (string * string) Obj;
  kube_Get_ok w ns n o st : kube_Get w ns n = Ok (o, st) -> stored w !! (ns, n) = Some o;
  kube_Get_missing w ns n e :
    kube_Get w ns n = Err e -> IsNotFound e = true -> stored w !! (ns, n) = None;
  kube_List_ok w ns selector os :
    kube_List w ns selector = Ok os ->
    forall o, o ∈ os.*1 <-> exists k, stored w !! k = Some o /\
      optional_eqb ns k.1 = true /\ selector_matches selector (obj_labels o) = true;
  kube_Create_effect w ns o :
    took_effect stored w (<[(ns, obj_name o) := o]> (stored w)) (kube_Create w ns o);
  kube_Update_effect w ns o st :
    took_effect stored w (<[(ns, obj_name o) := o]> (stored w)) (kube_Update w ns o st);
  kube_Delete_effect w ns n :
    took_effect stored w (delete (ns, n) (stored w)) (kube_Delete w ns n);
  kube_DeleteCollection_effect w ns selector name :
    took_effect stored w (filter (fun ko => selected ns selector name ko = false) (stored w))
      (kube_DeleteCollection w ns selector name);
  kube_Delete_missing w ns n e :
    (kube_Delete w ns n).2 = Some e -> IsNotFound e = true ->
    stored (kube_Delete w ns n).1 = delete (ns, n) (stored w);
  kube_DeleteCollection_missing w ns selector name e :
    (kube_DeleteCollection w ns selector name).2 = Some e -> IsNotFound e = true ->
    stored (kube_DeleteCollection w ns selector name).1 =
      filter (fun ko => selected ns selector name ko = false) (stored w)
}.

(** A call changes only the entries its effect changes. *)
Lemma took_effect_frame {W E} `{Countable K} {V} (stored : W -> gmap K V) w effect (r : W * option E) k :
  took_effect stored w effect r -> effect !! k = stored w !! k -> stored r.1 !! k = stored w !! k.
Proof. unfold took_effect. destruct (r.2) as [e|]; [intros [-> | ->]; done|intros ->; done]. Qed.

Lemma took_effect_lookup {W E} `{Countable K} {V} (stored : W -> gmap K V) w effect (r : W * option E) k :
  took_effect stored w effect r ->
  stored r.1 !! k = effect !! k \/ (r.2 <> None /\ stored r.1 !! k = stored w !! k).
Proof.
  unfold took_effect. destruct (r.2) as [e|]; [|intros ->; auto].
  intros [-> | ->]; auto.
Qed.

(** Reading an object before writing it: [Get], then [Update] with the version
    read, or [Create] when there is none. Any other error of the [Get] is returned. *)
Definition create_or_update `{KubeObject Obj} `{KubeCollection W Obj St} (w : W) (ns : string) (o : Obj)
    : W * option kube_error :=
  match kube_Get w ns (obj_name o) with
  | Ok (_, st) => kube_Update w ns o st
  | Err e => if IsNotFound e then kube_Create w ns o else (w, Some e)
  end.

Lemma create_or_update_effect `{KubeLaws W Obj St} w ns o :
  took_effect stored w (<[(ns, obj_name o) := o]> (stored w)) (create_or_update w ns o).
Proof.
  unfold create_or_update. destruct (kube_Get w ns (obj_name o)) as [[o' st]|e].
  - apply kube_Update_effect.
  - destruct (IsNotFound e); [apply kube_Create_effect|]. by left.
Qed.

(** ** A server *)

Section Store.
Context {Obj : Type} `{KubeObject Obj}.

(** The objects, and how the next writes go: [Some text] fails without effect. *)
Record store := mkStore {
  st_objects : gmap (string * string) Obj;
  st_failures : list (option string)
}.

Definition guarded (w : store) (k : gmap (string * string) Obj -> gmap (string * string) Obj)
    : store * option kube_error :=
  match st_failures w with
  | Some text :: fs => (mkStore (st_objects w) fs, Some (mkKubeError false text))
  | None :: fs => (mkStore (k (st_objects w)) fs, None)
  | [] => (mkStore (k (st_objects w)) [], None)
  end.

Definition store_List (w : store) (ns : option string) (selector : list (string * string))
    : list (Obj * unit) :=
  map (fun ko => (ko.2, tt))
    (filter (fun ko => optional_eqb ns ko.1.1 = true /\
                       selector_matches selector (obj_labels ko.2) = true)
       (map_to_list (st_objects w))).

Definition store_api : KubeCollection store Obj unit :=
  {| kube_Get w ns n := match st_objects w !! (ns, n) with
                        | Some o => Ok (o, tt)
                        | None => Err (mkKubeError true "not found")
                        end;
     kube_List w ns selector := Ok (store_List w ns selector);
     kube_Create w ns o := guarded w (insert (ns, obj_name o) o);
     kube_Update w ns o _ := guarded w (insert (ns, obj_name o) o);
     kube_Delete w ns n := guarded w (delete (ns, n));
     kube_DeleteCollection w ns selector name :=
       guarded w (filter (fun ko => selected ns selector name ko = false)) |}.

Lemma guarded_effect w k : took_effect st_objects w (k (st_objects w)) (guarded w k).
Proof. unfold took_effect, guarded. destruct (st_failures w) as [|[e|] fs]; simpl; auto. Qed.

Lemma store_laws : @KubeLaws store Obj unit _ store_api.
Proof.
  refine {| stored := st_objects |}; simpl.
  - intros w ns n o st H1. by case_match; simplify_eq.
  - intros w ns n e H1 _. by case_match; simplify_eq.
  - intros w ns selector os Hos o. simplify_eq. unfold store_List. rewrite list_elem_of_fmap. split.
    + intros ([o' []] & -> & Hin). apply list_elem_of_fmap in Hin as ([k o''] & Heq & Hin).
      simplify_eq/=. apply list_elem_of_filter in Hin as [[? ?] Hin].
      exists k. by rewrite elem_of_map_to_list in Hin.
    + intros (k & Hk & ? & ?). exists (o, tt). split; [done|]. apply list_elem_of_fmap.
      exists (k, o). split; [done|]. apply list_elem_of_filter. split; [done|].
      by rewrite elem_of_map_to_list.
  - intros w ns o. apply guarded_effect.
  - intros w ns o st. apply guarded_effect.
  - intros w ns n. apply guarded_effect.
  - intros w ns selector name. apply guarded_effect.
  - intros w ns n e. unfold guarded. by repeat case_match; intros; simplify_eq/=.
  - intros w ns selector name e. unfold guarded. by repeat case_match; intros; simplify_eq/=.
Defined.

End Store.

Arguments store Obj : clear implicits.
