(* ===== verification/Hostname.v ===== *)
(** * Hostname reservations

    Model of [cluster/hostname.go]: the map from hostnames to the deployment
    group that uses them, the four operations on it, the [hostnameService]
    loop that serialises them and the client methods that submit requests to
    that loop. *)

From stdpp Require Import base gmap list strings tactics.
From Stdlib Require Import ZArith Lia Ascii.
From S2P Require Import Prelude Types.


(** ** Data *)

(** [sdktypes.Address] compares by its bytes. *)
Abbreviation Address := string (only parsing).

Record hostnameID := mkHostnameID {
  owner : Address;
  dseq : Z;
  gseq : Z
}.

#[export] Instance hostnameID_eq_dec : EqDecision hostnameID.
Proof. solve_decision. Defined.

Definition hid_Equals (a b : hostnameID) : bool :=
  (gseq a =? gseq b)%Z && (dseq a =? dseq b)%Z && String.eqb (owner a) (owner b).

Inductive HostErr :=
| ErrHostInUse (h : string)
| ErrHostBlocked (h : string)
| ErrDomainBlocked (h : string)
| ErrOwnerAddress
| ErrNotRunning
| ErrCtx.

(** [errors.Is(err, ErrHostnameNotAllowed)]. *)
Definition isErrHostnameNotAllowed (e : HostErr) : bool :=
  match e with
  | ErrHostInUse _ | ErrHostBlocked _ | ErrDomainBlocked _ => true
  | _ => false
  end.

Abbreviation store_t := (gmap string hostnameID).

(** ** Operations on the store *)

Fixpoint prepare_scan (store : store_t) (hostnames : list string) (hID : hostnameID)
    (toChange : list string) : result HostErr (list string) :=
  match hostnames with
  | [] => Ok toChange
  | h :: hs =>
      match store !! h with
      | Some existingID =>
          if String.eqb (owner existingID) (owner hID)
          then prepare_scan store hs hID (toChange ++ [h])
          else Err (ErrHostInUse h)
      | None => prepare_scan store hs hID toChange
      end
  end.

Definition prepareHostnamesImpl (store : store_t) (hostnames : list string)
    (hID : hostnameID) : store_t * result HostErr unit :=
  match prepare_scan store hostnames hID [] with
  | Err e => (store, Err e)
  | Ok toChange => (fold_left (fun st h => <[h := hID]> st) toChange store, Ok tt)
  end.

(** Loop state of the first pass of [reserveHostnamesImpl]. *)
Record reserve_acc := mkReserveAcc {
  withheldHostnames : list string;
  withheldHostnamesMap : gset string;
  requestedHostnames : gset string
}.

Fixpoint reserve_scan (store : store_t) (hostnames : list string) (hID : hostnameID)
    (acc : reserve_acc) : result HostErr reserve_acc :=
  match hostnames with
  | [] => Ok acc
  | h :: hs =>
      let requested := {[ h ]} ∪ requestedHostnames acc in
      match store !! h with
      | Some existingID =>
          if negb (String.eqb (owner existingID) (owner hID))
          then Err (ErrHostInUse h)
          else if negb (hid_Equals existingID hID)
          then reserve_scan store hs hID
                 (mkReserveAcc (withheldHostnames acc ++ [h])
                    ({[ h ]} ∪ withheldHostnamesMap acc) requested)
          else reserve_scan store hs hID
                 (mkReserveAcc (withheldHostnames acc) (withheldHostnamesMap acc) requested)
      | None =>
          reserve_scan store hs hID
            (mkReserveAcc (withheldHostnames acc) (withheldHostnamesMap acc) requested)
      end
  end.

Definition keys_where (P : string -> hostnameID -> bool) (store : store_t) : list string :=
  (filter (fun kv => P kv.1 kv.2 = true) (map_to_list store)).*1.

Definition delete_all (hs : list string) (store : store_t) : store_t :=
  fold_left (fun st h => delete h st) hs store.

Definition reserveHostnamesImpl (store : store_t) (hostnames : list string)
    (hID : hostnameID) : store_t * result HostErr (list string) :=
  match reserve_scan store hostnames hID (mkReserveAcc [] ∅ ∅) with
  | Err e => (store, Err e)
  | Ok acc =>
      let removeHostnames :=
        keys_where (fun h existingID =>
          bool_decide (h ∉ requestedHostnames acc) && hid_Equals existingID hID) store in
      let marked := fold_left (fun st h =>
        if bool_decide (h ∈ withheldHostnamesMap acc) then st else <[h := hID]> st)
        hostnames store in
      (delete_all removeHostnames marked, Ok (withheldHostnames acc))
  end.

Fixpoint canReserveHostnamesImpl (store : store_t) (hostnames : list string)
    (ownerAddr : Address) : result HostErr unit :=
  match hostnames with
  | [] => Ok tt
  | h :: hs =>
      match store !! h with
      | Some existingID =>
          if negb (String.eqb (owner existingID) ownerAddr)
          then Err (ErrHostInUse h)
          else canReserveHostnamesImpl store hs ownerAddr
      | None => canReserveHostnamesImpl store hs ownerAddr
      end
  end.

Definition releaseHostnamesImpl (store : store_t) (hID : hostnameID) : store_t :=
  delete_all (keys_where (fun _ existing => hid_Equals existing hID) store) store.

(** ** The service

    Requests reach the loop over unbuffered channels, so the store sees them
    one at a time, in the order the loop receives them. *)

Inductive hs_request :=
| ReserveRequest (hostnames : list string) (hID : hostnameID)
| CanReserveRequest (hostnames : list string) (ownerAddr : Address)
| ReleaseRequest (hID : hostnameID)
| PrepareTransferRequest (hostnames : list string) (hID : hostnameID).

Inductive hs_response :=
| RespErr (e : HostErr)
| RespWithheld (hostnames : list string)
| RespNil.

Record hostnameService := mkHostnameService {
  inUse : store_t;
  blockedHostnames : list string;
  blockedDomains : list string
}.

Definition set_inUse (st : store_t) (hs : hostnameService) : hostnameService :=
  mkHostnameService st (blockedHostnames hs) (blockedDomains hs).

(** One iteration of [hostnameService.run] that receives a request. *)
Definition hs_run_step (hs : hostnameService) (r : hs_request) : hostnameService * hs_response :=
  match r with
  | ReserveRequest names hID =>
      let '(st, res) := reserveHostnamesImpl (inUse hs) names hID in
      (set_inUse st hs, match res with Ok w => RespWithheld w | Err e => RespErr e end)
  | CanReserveRequest names a =>
      (hs, match canReserveHostnamesImpl (inUse hs) names a with
           | Ok _ => RespNil | Err e => RespErr e end)
  | ReleaseRequest hID => (set_inUse (releaseHostnamesImpl (inUse hs) hID) hs, RespNil)
  | PrepareTransferRequest names hID =>
      let '(st, res) := prepareHostnamesImpl (inUse hs) names hID in
      (set_inUse st hs, match res with Ok _ => RespNil | Err e => RespErr e end)
  end.

Definition HostnameSeparator : Ascii.ascii := "."%char.

(** The loop over [cfg.BlockedHostnames] in [newHostnameService]. *)
Definition classify_blocked (names : list string) : list string * list string :=
  fold_left (fun '(hosts, domains) name =>
    match name with
    | String c rest =>
        if Ascii.eqb c HostnameSeparator
        then (hosts ++ [rest], domains ++ [name])
        else (hosts ++ [name], domains)
    | EmptyString => (hosts ++ [name], domains)
    end) names ([], []).

(** Which case of a [select] statement fires: the operation itself, the
    caller's context ending, or the service shutting down. *)
Inductive select_case := SelOp | SelCtxDone | SelShuttingDown.

Definition isHostnameBlocked (hs : hostnameService) (hostname : string) : option HostErr :=
  if bool_decide (hostname ∈ blockedHostnames hs) then Some (ErrHostBlocked hostname)
  else if existsb (fun d => has_suffix hostname d) (blockedDomains hs)
       then Some (ErrDomainBlocked hostname)
       else None.

(** The first blocked name of a request, if any. *)
Fixpoint first_blocked (hs : hostnameService) (names : list string) : option HostErr :=
  match names with
  | [] => None
  | h :: rest => match isHostnameBlocked hs h with
                 | Some e => Some e
                 | None => first_blocked hs rest
                 end
  end.

Section Client.
(** [DeploymentID.GetOwnerAddress]: decodes a bech32 account address. *)
Variable GetOwnerAddress : string -> option Address.

Definition hostnameIDFromLeaseID (lID : LeaseID) : result HostErr hostnameID :=
  match GetOwnerAddress (l_owner lID) with
  | None => Err ErrOwnerAddress
  | Some a => Ok (mkHostnameID a (l_dseq lID) (l_gseq lID))
  end.

Fixpoint load_initial (data : list (string * LeaseID)) (st : store_t) : result HostErr store_t :=
  match data with
  | [] => Ok st
  | (k, v) :: rest =>
      match hostnameIDFromLeaseID v with
      | Err e => Err e
      | Ok hID => load_initial rest (<[k := hID]> st)
      end
  end.

Definition newHostnameService (cfgBlocked : list string) (initialData : gmap string LeaseID)
    : result HostErr hostnameService :=
  let '(hosts, domains) := classify_blocked cfgBlocked in
  match load_initial (map_to_list initialData) ∅ with
  | Err e => Err e
  | Ok st => Ok (mkHostnameService st hosts domains)
  end.

(** [ReserveHostnames]: [s1] and [s2] are the cases its two [select]
    statements take. A context that ends after the request was submitted
    makes the call fail although the loop has processed it. *)
Definition ReserveHostnames (hs : hostnameService) (s1 s2 : select_case)
    (hostnames : list string) (leaseID : LeaseID)
    : hostnameService * result HostErr (list string) :=
  let lowercaseHostnames := map to_lower hostnames in
  match first_blocked hs lowercaseHostnames with
  | Some e => (hs, Err e)
  | None =>
    match hostnameIDFromLeaseID leaseID with
    | Err e => (hs, Err e)
    | Ok hID =>
      match s1 with
      | SelCtxDone => (hs, Err ErrCtx)
      | SelShuttingDown => (hs, Err ErrNotRunning)
      | SelOp =>
        let '(hs', resp) := hs_run_step hs (ReserveRequest lowercaseHostnames hID) in
        match s2 with
        | SelCtxDone => (hs', Err ErrCtx)
        | SelShuttingDown => (hs', Err ErrNotRunning)
        | SelOp => match resp with
                   | RespErr e => (hs', Err e)
                   | RespWithheld w => (hs', Ok w)
                   | RespNil => (hs', Ok [])
                   end
        end
      end
    end
  end.

Definition ReleaseHostnames (hs : hostnameService) (shutting : bool) (leaseID : LeaseID)
    : hostnameService * result HostErr unit :=
  match hostnameIDFromLeaseID leaseID with
  | Err e => (hs, Err e)
  | Ok hID =>
      if shutting then (hs, Ok tt)
      else ((hs_run_step hs (ReleaseRequest hID)).1, Ok tt)
  end.

Definition CanReserveHostnames (hs : hostnameService) (shutting : bool)
    (hostnames : list string) (ownerAddr : Address) : result HostErr unit :=
  let lowercaseHostnames := map to_lower hostnames in
  match first_blocked hs lowercaseHostnames with
  | Some e => Err e
  | None =>
      if shutting then Err ErrNotRunning
      else match (hs_run_step hs (CanReserveRequest lowercaseHostnames ownerAddr)).2 with
           | RespErr e => Err e
           | _ => Ok tt
           end
  end.

(** [PrepareHostnamesForTransfer] submits the names as they were given. *)
Definition PrepareHostnamesForTransfer (hs : hostnameService) (s1 s2 : select_case)
    (hostnames : list string) (leaseID : LeaseID) : hostnameService * result HostErr unit :=
  match hostnameIDFromLeaseID leaseID with
  | Err e => (hs, Err e)
  | Ok hID =>
    match s1 with
    | SelCtxDone => (hs, Err ErrCtx)
    | SelShuttingDown =>
        (hs, match s2 with SelCtxDone => Err ErrCtx | _ => Err ErrNotRunning end)
    | SelOp =>
      let '(hs', resp) := hs_run_step hs (PrepareTransferRequest hostnames hID) in
      match s2 with
      | SelCtxDone => (hs', Err ErrCtx)
      | SelShuttingDown => (hs', Err ErrNotRunning)
      | SelOp => (hs', match resp with RespErr e => Err e | _ => Ok tt end)
      end
    end
  end.

End Client.

(** ** Lemmas *)

Lemma hid_Equals_spec a b : hid_Equals a b = true <-> a = b.
Proof.
  destruct a as [o1 d1 g1], b as [o2 d2 g2]. unfold hid_Equals; simpl.
  rewrite !andb_true_iff, !Z.eqb_eq, String.eqb_eq. naive_solver.
Qed.

Lemma hid_Equals_refl a : hid_Equals a a = true.
Proof. by apply hid_Equals_spec. Qed.

(** The hostname is held by another owner. *)
Definition foreign (store : store_t) (o : Address) (h : string) : bool :=
  match store !! h with
  | Some id => negb (String.eqb (owner id) o)
  | None => false
  end.

(** The hostname is held by another deployment group. *)
Definition displaced (store : store_t) (hID : hostnameID) (h : string) : bool :=
  match store !! h with
  | Some id => negb (hid_Equals id hID)
  | None => false
  end.

Lemma foreign_displaced store hID h :
  foreign store (owner hID) h = true -> displaced store hID h = true.
Proof.
  unfold foreign, displaced. case_match; [|done].
  rewrite !negb_true_iff, String.eqb_neq. intros Hne.
  destruct (hid_Equals h0 hID) eqn:E; [|done]. apply hid_Equals_spec in E. congruence.
Qed.

Lemma keys_where_elem P (store : store_t) k :
  k ∈ keys_where P store <-> exists id, store !! k = Some id /\ P k id = true.
Proof.
  unfold keys_where. rewrite list_elem_of_fmap. split.
  - intros ([k' id] & -> & Hin). apply list_elem_of_filter in Hin as [HP Hin].
    apply elem_of_map_to_list in Hin. eauto.
  - intros (id & Hk & HP). exists (k, id). split; [done|].
    apply list_elem_of_filter. split; [done|]. by apply elem_of_map_to_list.
Qed.

Lemma delete_all_lookup ks (store : store_t) k :
  delete_all ks store !! k = if decide (k ∈ ks) then None else store !! k.
Proof.
  unfold delete_all. revert store. induction ks as [|h ks IH]; intros store; cbn [fold_left].
  - case_decide as H; [by apply not_elem_of_nil in H|done].
  - rewrite IH. destruct (decide (k ∈ ks)), (decide (k ∈ h :: ks)) as [Hin|Hin].
    + done.
    + exfalso. apply Hin. by right.
    + apply elem_of_cons in Hin as [->|]; [by simplify_map_eq|done].
    + rewrite lookup_delete_ne; [done|]. intros ->. apply Hin. by left.
Qed.

Lemma mark_lookup hs (W : gset string) hID (store : store_t) k :
  fold_left (fun st h => if bool_decide (h ∈ W) then st else <[h := hID]> st) hs store !! k =
  if decide (k ∈ hs /\ k ∉ W) then Some hID else store !! k.
Proof.
  revert store. induction hs as [|h hs IH]; intros store; cbn [fold_left].
  - case_decide as H; [destruct H as [H _]; by apply not_elem_of_nil in H|done].
  - rewrite IH. destruct (decide (k ∈ hs /\ k ∉ W)) as [[? ?]|Hn].
    + rewrite decide_True; [done|]. split; [by right|done].
    + destruct (decide (h = k)) as [->|Hne].
      * case_bool_decide as HW.
        -- rewrite decide_False; [done|]. by intros [_ ?].
        -- rewrite decide_True; [by simplify_map_eq|]. split; [by left|done].
      * rewrite (decide_False (P := k ∈ h :: hs /\ k ∉ W)).
        -- by case_bool_decide; simplify_map_eq.
        -- rewrite elem_of_cons. naive_solver.
Qed.

Lemma swap_lookup hs hID (store : store_t) k :
  fold_left (fun st h => <[h := hID]> st) hs store !! k =
  if decide (k ∈ hs) then Some hID else store !! k.
Proof.
  revert store. induction hs as [|h hs IH]; intros store; cbn [fold_left].
  - case_decide as H; [by apply not_elem_of_nil in H|done].
  - rewrite IH. destruct (decide (k ∈ hs)).
    + rewrite decide_True; [done|by right].
    + destruct (decide (h = k)) as [->|Hne].
      * rewrite decide_True; [by simplify_map_eq|by left].
      * rewrite decide_False; [by simplify_map_eq|]. rewrite elem_of_cons. naive_solver.
Qed.

Lemma reserve_scan_eq store hs hID acc :
  reserve_scan store hs hID acc =
  match List.find (foreign store (owner hID)) hs with
  | Some h => Err (ErrHostInUse h)
  | None =>
      Ok (mkReserveAcc
            (withheldHostnames acc ++ List.filter (displaced store hID) hs)
            (list_to_set (List.filter (displaced store hID) hs) ∪ withheldHostnamesMap acc)
            (list_to_set hs ∪ requestedHostnames acc))
  end.
Proof.
  revert acc. induction hs as [|h hs IH]; intros acc; cbn [reserve_scan List.find List.filter].
  - destruct acc; simpl. rewrite app_nil_r, !(left_id_L ∅ (∪)). done.
  - destruct (foreign store (owner hID) h) eqn:Hf, (displaced store hID h) eqn:Hd;
      unfold foreign, displaced in Hf, Hd; destruct (store !! h) as [id|]; try done;
      rewrite ?Hf, ?Hd; try done; rewrite IH; case_match; try done; simpl.
    + rewrite <- app_assoc; simpl. do 2 f_equal; apply set_eq; set_solver.
    + do 2 f_equal; apply set_eq; set_solver.
    + do 2 f_equal; apply set_eq; set_solver.
Qed.

Lemma reserve_impl_lookup store hs hID k :
  List.find (foreign store (owner hID)) hs = None ->
  (reserveHostnamesImpl store hs hID).1 !! k =
  if decide (k ∈ hs)
  then if displaced store hID k then store !! k else Some hID
  else if decide (store !! k = Some hID) then None else store !! k.
Proof.
  intros Hf. unfold reserveHostnamesImpl. rewrite reserve_scan_eq, Hf; simpl.
  rewrite delete_all_lookup, mark_lookup, !(right_id_L ∅ (∪)).
  destruct (decide (k ∈ hs)) as [Hk|Hk].
  - rewrite decide_False.
    2:{ rewrite keys_where_elem. intros (id & _ & [?%bool_decide_eq_true _]%andb_true_iff).
        set_solver. }
    destruct (displaced store hID k) eqn:Hd.
    + rewrite decide_False; [done|]. intros [_ Hn]. apply Hn.
      rewrite elem_of_list_to_set, list_elem_of_In, filter_In, <- list_elem_of_In. done.
    + rewrite decide_True; [done|]. split; [done|].
      rewrite elem_of_list_to_set, list_elem_of_In, filter_In. intros [_ ?]. congruence.
  - rewrite (decide_False (P := k ∈ hs /\ _)) by naive_solver.
    destruct (decide (store !! k = Some hID)) as [Hs|Hs].
    + rewrite decide_True; [done|]. rewrite keys_where_elem. exists hID.
      split; [done|]. rewrite hid_Equals_refl, andb_true_r, bool_decide_eq_true. set_solver.
    + rewrite decide_False; [done|]. rewrite keys_where_elem.
      intros (id & Hid & [_ E%hid_Equals_spec]%andb_true_iff). congruence.
Qed.

Lemma reserve_impl_result store hs hID :
  (reserveHostnamesImpl store hs hID).2 =
  match List.find (foreign store (owner hID)) hs with
  | Some h => Err (ErrHostInUse h)
  | None => Ok (List.filter (displaced store hID) hs)
  end.
Proof. unfold reserveHostnamesImpl. rewrite reserve_scan_eq. by destruct (List.find _ hs). Qed.

Lemma reserve_impl_fail store hs hID h :
  List.find (foreign store (owner hID)) hs = Some h ->
  reserveHostnamesImpl store hs hID = (store, Err (ErrHostInUse h)).
Proof. intros Hf. unfold reserveHostnamesImpl. by rewrite reserve_scan_eq, Hf. Qed.

Lemma find_foreign_none store o hs :
  List.find (foreign store o) hs = None <-> forall h, h ∈ hs -> foreign store o h = false.
Proof.
  split.
  - intros Hf h Hh. eapply find_none; [done|]. by apply list_elem_of_In.
  - intros H. destruct (List.find _ hs) eqn:Hf; [|done].
    apply find_some in Hf as [Hin Ht]. apply list_elem_of_In, H in Hin. congruence.
Qed.

Lemma prepare_scan_eq store hs hID acc :
  prepare_scan store hs hID acc =
  match List.find (foreign store (owner hID)) hs with
  | Some h => Err (ErrHostInUse h)
  | None => Ok (acc ++ List.filter (fun h => bool_decide (is_Some (store !! h))) hs)
  end.
Proof.
  revert acc. induction hs as [|h hs IH]; intros acc; cbn [prepare_scan List.find List.filter].
  - by rewrite app_nil_r.
  - destruct (foreign store (owner hID) h) eqn:Hf; unfold foreign in Hf;
      destruct (store !! h) as [id|]; try done.
    + apply negb_true_iff in Hf. by rewrite Hf.
    + apply negb_false_iff in Hf. rewrite Hf, IH. case_match; [done|].
      rewrite bool_decide_true by eauto. by rewrite <- app_assoc.
Qed.

Lemma prepare_impl_lookup store hs hID k :
  List.find (foreign store (owner hID)) hs = None ->
  (prepareHostnamesImpl store hs hID).1 !! k =
  if decide (k ∈ hs /\ is_Some (store !! k)) then Some hID else store !! k.
Proof.
  intros Hf. unfold prepareHostnamesImpl. rewrite prepare_scan_eq, Hf; simpl.
  rewrite swap_lookup.
  assert (k ∈ List.filter (fun h => bool_decide (is_Some (store !! h))) hs <->
          k ∈ hs /\ is_Some (store !! k)) as Hiff.
  { rewrite list_elem_of_In, filter_In, bool_decide_eq_true, <- list_elem_of_In. done. }
  destruct (decide (k ∈ hs /\ is_Some (store !! k))) as [H|H].
  - rewrite decide_True; [done|by apply Hiff].
  - rewrite decide_False; [done|by rewrite Hiff].
Qed.

Lemma release_lookup store hID k :
  releaseHostnamesImpl store hID !! k =
  if decide (store !! k = Some hID) then None else store !! k.
Proof.
  unfold releaseHostnamesImpl. rewrite delete_all_lookup.
  destruct (decide (store !! k = Some hID)) as [Hs|Hs].
  - rewrite decide_True; [done|]. rewrite keys_where_elem. exists hID.
    by rewrite hid_Equals_refl.
  - rewrite decide_False; [done|]. rewrite keys_where_elem.
    intros (id & Hid & E%hid_Equals_spec). congruence.
Qed.

(** The owner on whose behalf a request reaches the loop. *)
Definition request_owner (r : hs_request) : Address :=
  match r with
  | ReserveRequest _ hID | ReleaseRequest hID | PrepareTransferRequest _ hID => owner hID
  | CanReserveRequest _ a => a
  end.

(** Runs the loop over a sequence of requests. *)
Definition hs_run (hs : hostnameService) (rs : list hs_request) : hostnameService :=
  fold_left (fun s r => (hs_run_step s r).1) rs hs.

(** A request leaves alone every hostname held for another owner. *)
Lemma step_keeps_foreign hs r k id :
  inUse hs !! k = Some id -> owner id <> request_owner r ->
  inUse (hs_run_step hs r).1 !! k = Some id.
Proof.
  intros Hk Ho. destruct r as [hs' hID|hs' a|hID|hs' hID]; simpl in *.
  - rewrite (surjective_pairing (reserveHostnamesImpl _ _ _)); simpl.
    destruct (List.find (foreign (inUse hs) (owner hID)) hs') as [h|] eqn:Hf.
    { by rewrite (reserve_impl_fail _ _ _ _ Hf). }
    rewrite reserve_impl_lookup, Hk by done. destruct (decide (k ∈ hs')) as [Hin|].
    + rewrite find_foreign_none in Hf. specialize (Hf _ Hin). unfold foreign in Hf.
      rewrite Hk in Hf. apply negb_false_iff, String.eqb_eq in Hf. congruence.
    + rewrite decide_False; [done|]. congruence.
  - done.
  - rewrite release_lookup, decide_False; [done|]. congruence.
  - rewrite (surjective_pairing (prepareHostnamesImpl _ _ _)); simpl.
    destruct (List.find (foreign (inUse hs) (owner hID)) hs') as [h|] eqn:Hf.
    { unfold prepareHostnamesImpl. by rewrite prepare_scan_eq, Hf. }
    rewrite prepare_impl_lookup by done. rewrite decide_False; [done|].
    intros [Hin _]. rewrite find_foreign_none in Hf. specialize (Hf _ Hin).
    unfold foreign in Hf. rewrite Hk in Hf. apply negb_false_iff, String.eqb_eq in Hf. congruence.
Qed.

Lemma canReserve_eq store hs a :
  canReserveHostnamesImpl store hs a =
  match List.find (foreign store a) hs with
  | Some h => Err (ErrHostInUse h)
  | None => Ok tt
  end.
Proof.
  induction hs as [|h hs IH]; cbn [canReserveHostnamesImpl List.find]; [done|].
  unfold foreign at 1. destruct (store !! h) as [id|]; [|done].
  by destruct (String.eqb (owner id) a).
Qed.

Lemma classify_blocked_spec names hosts0 domains0 hosts domains :
  fold_left (fun '(hosts, domains) name =>
    match name with
    | String c rest =>
        if Ascii.eqb c HostnameSeparator
        then (hosts ++ [rest], domains ++ [name])
        else (hosts ++ [name], domains)
    | EmptyString => (hosts ++ [name], domains)
    end) names (hosts0, domains0) = (hosts, domains) ->
  (hosts0 ⊆ hosts /\ domains0 ⊆ domains) /\
  forall name, name ∈ names ->
    match name with
    | String c rest =>
        if Ascii.eqb c HostnameSeparator then rest ∈ hosts /\ name ∈ domains else name ∈ hosts
    | EmptyString => name ∈ hosts
    end.
Proof.
  revert hosts0 domains0. induction names as [|n names IH]; intros hosts0 domains0; cbn [fold_left].
  - intros [= <- <-]. split; [done|]. no_elem.
  - intros Hfold. destruct n as [|c rest]; [|destruct (Ascii.eqb c HostnameSeparator) eqn:Hc];
      apply IH in Hfold as [[Hh Hd] Hall]; (split; [set_solver|]);
      intros name [->|Hin]%elem_of_cons; try (by apply Hall); rewrite ?Hc; set_solver.
Qed.

Lemma first_blocked_hit hs names h :
  h ∈ names -> isHostnameBlocked hs h <> None ->
  exists e, first_blocked hs names = Some e /\ isErrHostnameNotAllowed e = true.
Proof.
  assert (forall x e, isHostnameBlocked hs x = Some e -> isErrHostnameNotAllowed e = true) as Hna.
  { intros x e. unfold isHostnameBlocked. intros H. by repeat case_match; simplify_eq. }
  induction names as [|x names IH]; intros Hin Hb; [by apply not_elem_of_nil in Hin|].
  simpl. destruct (isHostnameBlocked hs x) as [e|] eqn:E; [eauto|].
  apply elem_of_cons in Hin as [->|Hin]; [done|]. by apply IH.
Qed.

Lemma blocked_suffix hs d h :
  d ∈ blockedDomains hs -> has_suffix h d = true -> isHostnameBlocked hs h <> None.
Proof.
  intros Hd Hs. unfold isHostnameBlocked. case_bool_decide; [done|].
  replace (existsb _ _) with true; [done|]. symmetry. apply existsb_exists.
  exists d. by rewrite <- list_elem_of_In.
Qed.

(** ** Properties *)

(** [reserveHostnamesImpl] fails exactly when a requested hostname is held
    for another owner, naming the first one and leaving the store as it was.
    Otherwise it returns, in request order, the requested hostnames held by
    other deployment groups of the same owner; those keep their holder, every
    other requested hostname is held by the requester, the requester's
    hostnames that are no longer requested are dropped, and nothing else
    changes. *)
Theorem reserve_spec (store : store_t) (hostnames : list string) (hID : hostnameID) :
  match List.find (foreign store (owner hID)) hostnames with
  | Some h => reserveHostnamesImpl store hostnames hID = (store, Err (ErrHostInUse h))
  | None =>
      (reserveHostnamesImpl store hostnames hID).2 =
        Ok (List.filter (displaced store hID) hostnames) /\
      forall k, (reserveHostnamesImpl store hostnames hID).1 !! k =
        if decide (k ∈ hostnames)
        then if displaced store hID k then store !! k else Some hID
        else if decide (store !! k = Some hID) then None else store !! k
  end.
Proof.
  destruct (List.find _ _) eqn:Hf; [by apply reserve_impl_fail|].
  split; [by rewrite reserve_impl_result, Hf|]. intros k. by apply reserve_impl_lookup.
Qed.

(** C18: whatever sequence of requests the loop processes, a hostname keeps its
    holder as long as none of the requests is made for that holder's owner:
    no tenant can take, move or release another tenant's hostname. *)
Theorem hostnames_owner_isolation (hs : hostnameService) (rs : list hs_request) k id :
  inUse hs !! k = Some id ->
  Forall (fun r => request_owner r <> owner id) rs ->
  inUse (hs_run hs rs) !! k = Some id.
Proof.
  unfold hs_run. revert hs. induction rs as [|r rs IH]; intros hs Hk HF; [done|].
  inversion_clear HF as [|? ? Hr HF']. simpl. apply IH; [|done].
  apply step_keeps_foreign; [done|]. congruence.
Qed.

Lemma hostnames_owner_isolation_witness :
  inUse (hs_run (mkHostnameService {[ "a.org"%string := mkHostnameID "t1" 1 1 ]} [] [])
    [ReserveRequest ["a.org"; "b.org"]%string (mkHostnameID "t2" 7 1);
     PrepareTransferRequest ["a.org"%string] (mkHostnameID "t2" 8 1);
     ReleaseRequest (mkHostnameID "t2" 1 1)]) !! "a.org"%string
  = Some (mkHostnameID "t1" 1 1).
Proof.
  apply hostnames_owner_isolation; [reflexivity|].
  repeat constructor; simpl; discriminate.
Defined.

(** The migration protocol works: once the transfer of some hostnames to a
    deployment group has been prepared, reserving any of the hostnames that
    are held by it or by nobody withholds nothing and leaves every one of them
    held by that group. *)
Theorem prepare_then_reserve (store store' : store_t) hs names hID :
  prepareHostnamesImpl store hs hID = (store', Ok tt) ->
  (forall h, h ∈ names -> h ∈ hs \/ displaced store hID h = false) ->
  (reserveHostnamesImpl store' names hID).2 = Ok [] /\
  forall h, h ∈ names -> (reserveHostnamesImpl store' names hID).1 !! h = Some hID.
Proof.
  intros Hp Hn.
  assert (List.find (foreign store (owner hID)) hs = None) as Hf.
  { unfold prepareHostnamesImpl in Hp. rewrite prepare_scan_eq in Hp.
    by destruct (List.find _ hs). }
  assert (forall h, h ∈ names -> displaced store' hID h = false) as Hd.
  { intros h Hh. replace store' with (prepareHostnamesImpl store hs hID).1 by by rewrite Hp.
    unfold displaced. rewrite prepare_impl_lookup by done.
    case_decide as Hc; [by rewrite hid_Equals_refl|].
    destruct (Hn h Hh) as [Hin|Hnd]; [|done].
    destruct (store !! h) eqn:E; [|done]. exfalso. apply Hc. eauto. }
  assert (List.find (foreign store' (owner hID)) names = None) as Hf'.
  { apply find_foreign_none. intros h Hh. specialize (Hd h Hh).
    destruct (foreign store' (owner hID) h) eqn:E; [|done].
    apply foreign_displaced in E. congruence. }
  split.
  - rewrite reserve_impl_result, Hf'. f_equal.
    clear -Hd. induction names as [|h names IH]; [done|]. cbn.
    rewrite Hd by by left. apply IH. intros; apply Hd; by right.
  - intros h Hh. rewrite reserve_impl_lookup by done.
    rewrite decide_True by done. by rewrite Hd.
Qed.

Lemma prepare_then_reserve_witness :
  let st : store_t := {[ "a.org"%string := mkHostnameID "t1" 1 1 ]} in
  let new := mkHostnameID "t1" 2 1 in
  (reserveHostnamesImpl (prepareHostnamesImpl st ["a.org"%string] new).1
     ["a.org"%string; "b.org"%string] new).2 = Ok [].
Proof.
  intros st new.
  refine (proj1 (prepare_then_reserve st _ ["a.org"%string] _ new _ _)).
  - reflexivity.
  - intros h Hh. apply elem_of_cons in Hh as [->|Hh].
    + left. by left.
    + apply elem_of_cons in Hh as [->|Hh]; [by right|by apply not_elem_of_nil in Hh].
Defined.

(** [CanReserveHostnames] predicts [ReserveHostnames]: with the service
    running, the check accepts exactly the requests whose reservation, submitted
    next by the same owner, succeeds, and it refuses with the same error. *)
Theorem can_reserve_predicts (GetOwnerAddress : string -> option Address)
    (hs : hostnameService) hostnames lid hID :
  hostnameIDFromLeaseID GetOwnerAddress lid = Ok hID ->
  CanReserveHostnames hs false hostnames (owner hID) =
  match (ReserveHostnames GetOwnerAddress hs SelOp SelOp hostnames lid).2 with
  | Ok _ => Ok tt
  | Err e => Err e
  end.
Proof.
  intros Hid. unfold CanReserveHostnames, ReserveHostnames. rewrite Hid.
  destruct (first_blocked hs (map to_lower hostnames)); [done|]. simpl.
  rewrite (surjective_pairing (reserveHostnamesImpl _ _ _)); simpl.
  rewrite canReserve_eq, reserve_impl_result. by destruct (List.find _ _).
Qed.

Lemma can_reserve_predicts_witness :
  let hs := mkHostnameService {[ "a.org"%string := mkHostnameID "t1" 1 1 ]} [] [] in
  let lid := mkLeaseID "t2" 5 1 1 "p" in
  CanReserveHostnames hs false ["A.org"%string] "t2" = Err (ErrHostInUse "a.org").
Proof.
  intros hs lid.
  refine (eq_trans (can_reserve_predicts Some hs ["A.org"%string] lid
                      (mkHostnameID "t2" 5 1) _) _); reflexivity.
Defined.

(** A domain the provider blocks stays blocked: with [.d] among the blocked
    names of the configuration, no reservation that asks for [d] itself or for
    a name ending in [.d], in any letter case, succeeds or changes the
    service, and the error is [ErrHostnameNotAllowed]. *)
Theorem blocked_domain_refused (GetOwnerAddress : string -> option Address)
    cfgBlocked initialData hs d h hostnames lid s1 s2 :
  newHostnameService GetOwnerAddress cfgBlocked initialData = Ok hs ->
  String HostnameSeparator d ∈ cfgBlocked ->
  h ∈ hostnames ->
  to_lower h = d \/ has_suffix (to_lower h) (String HostnameSeparator d) = true ->
  exists e, ReserveHostnames GetOwnerAddress hs s1 s2 hostnames lid = (hs, Err e) /\
            isErrHostnameNotAllowed e = true.
Proof.
  unfold newHostnameService. destruct (classify_blocked cfgBlocked) as [hosts domains] eqn:Hc.
  intros Hnew Hd Hh Hcase. destruct (load_initial _ _ _); [|done]. injection Hnew as <-.
  apply classify_blocked_spec in Hc as [_ Hall]. specialize (Hall _ Hd). simpl in Hall.
  destruct Hall as [Hhost Hdom].
  edestruct (first_blocked_hit (mkHostnameService a hosts domains) (map to_lower hostnames)
               (to_lower h)) as (e & He & Hna).
  - apply list_elem_of_fmap. eauto.
  - destruct Hcase as [->|Hs]; [|by eapply blocked_suffix].
    unfold isHostnameBlocked. simpl. by rewrite bool_decide_true.
  - exists e. split; [|done]. unfold ReserveHostnames. by rewrite He.
Qed.

Lemma blocked_domain_refused_witness :
  exists hs e,
    newHostnameService Some [".bad.com"%string] ∅ = Ok hs /\
    ReserveHostnames Some hs SelOp SelOp ["X.Bad.com"%string] (mkLeaseID "t" 1 1 1 "p")
      = (hs, Err e).
Proof.
  exists (mkHostnameService ∅ ["bad.com"%string] [".bad.com"%string]).
  edestruct (blocked_domain_refused Some [".bad.com"%string] ∅
    (mkHostnameService ∅ ["bad.com"%string] [".bad.com"%string]) "bad.com"
    "X.Bad.com" ["X.Bad.com"%string] (mkLeaseID "t" 1 1 1 "p") SelOp SelOp) as (e & He & _).
  - reflexivity.
  - by left.
  - by left.
  - right. reflexivity.
  - exists e. split; [reflexivity|exact He].
Defined.

(** Preparing a transfer is case sensitive while reserving is not. Every
    name the service stores through [ReserveHostnames] is in lower case, so
    [PrepareHostnamesForTransfer] of a name with an upper-case letter reports
    success and changes nothing, whoever holds the lower-case name: the
    ownership check that guards the transfer is not made. *)
Theorem prepare_mixed_case_unchecked (GetOwnerAddress : string -> option Address)
    hs h lid hID :
  (forall k, is_Some (inUse hs !! k) -> to_lower k = k) ->
  hostnameIDFromLeaseID GetOwnerAddress lid = Ok hID ->
  to_lower h <> h ->
  PrepareHostnamesForTransfer GetOwnerAddress hs SelOp SelOp [h] lid = (hs, Ok tt).
Proof.
  intros Hlow Hid Hne. unfold PrepareHostnamesForTransfer. rewrite Hid. simpl.
  unfold prepareHostnamesImpl. simpl. destruct (inUse hs !! h) eqn:E.
  - destruct Hne. apply Hlow. eauto.
  - simpl. by destruct hs.
Qed.

Lemma prepare_mixed_case_unchecked_witness :
  let hs := mkHostnameService {[ "kittens.org"%string := mkHostnameID "t1" 1 1 ]} [] [] in
  let lid := mkLeaseID "t2" 5 1 1 "p" in
  PrepareHostnamesForTransfer Some hs SelOp SelOp ["kittens.org"%string] lid
    = (hs, Err (ErrHostInUse "kittens.org")) /\
  PrepareHostnamesForTransfer Some hs SelOp SelOp ["Kittens.org"%string] lid = (hs, Ok tt).
Proof.
  intros hs lid. split; [reflexivity|].
  apply (prepare_mixed_case_unchecked Some hs "Kittens.org" lid (mkHostnameID "t2" 5 1)).
  - intros k [id Hk]. unfold hs in Hk. simpl in Hk.
    apply lookup_singleton_Some in Hk as [<- _]. reflexivity.
  - reflexivity.
  - discriminate.
Defined.
