(* ===== verification/Attrs.v ===== *)
(** * Resource attributes

    Model of [cluster/types/v1beta3/clients/inventory/metrics.go]: the GPU,
    CPU and storage attributes of an order, parsed into what the inventory
    matches nodes against, and of the interconnect attributes read by
    [cluster/kube/operators/clients/inventory/interconnect.go]. *)

From stdpp Require Import base gmap list strings tactics.
From Stdlib Require Import ZArith Lia Ascii.
From S2P Require Import Prelude Types.

(** ** Definitions *)

Record GPUModelAttributes := mkGPUModelAttributes { RAM : string; Interface : string }.

#[export] Instance GPUModelAttributes_eq_dec : EqDecision GPUModelAttributes.
Proof. solve_decision. Defined.

(** [map[string]*GPUModelAttributes]: a present key may hold nil. *)
Abbreviation GPUModels := (gmap string (option GPUModelAttributes)).
Abbreviation GPUAttributes := (gmap string GPUModels).

Record StorageAttributes := mkStorageAttributes { Persistent : bool; Class' : string }.

Inductive AttrErr :=
| ErrInvalidGPUAttribute
| ErrUnexpectedGPUAttribute (t : string)
| ErrMemoryQuantity
| ErrGPUInterface (v : string)
| ErrGPUVendor (v : string)
| ErrCPUArch (v : string)
| ErrCPUAttribute (k : string)
| ErrStorageClass.

Definition ExistsOrWildcard (m : GPUModels) (model : string) : option (option GPUModelAttributes) :=
  match m !! model with
  | Some attr => Some attr
  | None => m !! "*"%string
  end.

Definition AttributeGPUInterconnectGroupKey : string := "interconnect/group".
Definition AttributeInterconnectFabricInfiniBand : string :=
  "capabilities/gpu-interconnect/fabric/infiniband".
Definition AttributeInterconnectFabricRoCE : string :=
  "capabilities/gpu-interconnect/fabric/roce".

Section WithAPI.
Context {api : InventoryAPI}.

(** The loop over the key/value tokens that follow the model. *)
Fixpoint parse_model_attrs (tokens : list string) (mattrs : GPUModelAttributes)
    : result AttrErr GPUModelAttributes :=
  match tokens with
  | key :: val :: rest =>
      if String.eqb key "ram" then
        match ram_string val with
        | None => Err ErrMemoryQuantity
        | Some q => parse_model_attrs rest (mkGPUModelAttributes q (Interface mattrs))
        end
      else if String.eqb key "interface" then
        if String.eqb val "pcie" || String.eqb val "sxm"
        then parse_model_attrs rest (mkGPUModelAttributes (RAM mattrs) val)
        else Err (ErrGPUInterface val)
      else parse_model_attrs rest mattrs
  | _ => Ok mattrs
  end.

(** One attribute other than the interconnect group: vendor, model and the
    model's attributes, nil when the key names none. *)
Definition parse_gpu_key (key : string)
    : result AttrErr (string * string * option GPUModelAttributes) :=
  let tokens := split "/" key in
  if (length tokens <? 4)%nat || negb (Nat.even (length tokens))
  then Err ErrInvalidGPUAttribute
  else match tokens with
  | t0 :: vendor :: t2 :: model :: rest =>
      if negb (String.eqb t0 "vendor") then Err (ErrUnexpectedGPUAttribute t0)
      else if negb (String.eqb t2 "model") then Err (ErrUnexpectedGPUAttribute t2)
      else match rest with
           | [] => Ok (vendor, model, None)
           | _ => match parse_model_attrs rest (mkGPUModelAttributes "" "") with
                  | Err e => Err e
                  | Ok a => Ok (vendor, model, Some a)
                  end
           end
  | _ => Err ErrInvalidGPUAttribute
  end.

Fixpoint parse_gpu_loop (attrs : Attributes) (nvidia amd : GPUModels)
    : result AttrErr (GPUModels * GPUModels) :=
  match attrs with
  | [] => Ok (nvidia, amd)
  | attr :: rest =>
      if String.eqb (Key attr) AttributeGPUInterconnectGroupKey
      then parse_gpu_loop rest nvidia amd
      else match parse_gpu_key (Key attr) with
           | Err e => Err e
           | Ok (vendor, model, mattrs) =>
               if String.eqb vendor "nvidia"
               then parse_gpu_loop rest (<[model := mattrs]> nvidia) amd
               else if String.eqb vendor "amd"
               then parse_gpu_loop rest nvidia (<[model := mattrs]> amd)
               else Err (ErrGPUVendor vendor)
           end
  end.

Definition ParseGPUAttributes (attrs : Attributes) : result AttrErr GPUAttributes :=
  match parse_gpu_loop attrs ∅ ∅ with
  | Err e => Err e
  | Ok (nvidia, amd) =>
      let res : GPUAttributes := if decide (nvidia = ∅) then ∅ else {[ "nvidia"%string := nvidia ]} in
      Ok (if decide (amd = ∅) then res else <[ "amd"%string := amd ]> res)
  end.

Fixpoint parse_cpu_loop (attrs : Attributes) (arch : string) : result AttrErr string :=
  match attrs with
  | [] => Ok arch
  | attr :: rest =>
      if String.eqb (Key attr) "arch" then
        if String.eqb (Value attr) "amd64" || String.eqb (Value attr) "arm64"
        then parse_cpu_loop rest (Value attr)
        else Err (ErrCPUArch (Value attr))
      else Err (ErrCPUAttribute (Key attr))
  end.

Definition ParseCPUAttributes (attrs : Attributes) : result AttrErr string :=
  parse_cpu_loop attrs "".

Definition CPUArchMatches (info : list CPUInfo) (attrs : Attributes) : result AttrErr bool :=
  match attrs with
  | [] => Ok true
  | _ =>
    match ParseCPUAttributes attrs with
    | Err e => Err e
    | Ok arch =>
      if String.eqb arch "" then Ok true
      else match info with
           | [] => Ok true
           | i :: _ => if String.eqb (ci_arch i) "" then Ok true
                       else Ok (String.eqb (ci_arch i) arch)
           end
    end
  end.

Definition ParseStorageAttributes (attrs : Attributes) : result AttrErr StorageAttributes :=
  let persistent := FindAsBool attrs StorageAttributePersistent in
  let class := FindAsString attrs StorageAttributeClass in
  if persistent && (String.eqb class "" || String.eqb class "ram")
  then Err ErrStorageClass
  else Ok (mkStorageAttributes persistent class).

End WithAPI.

(** ** Interconnect attributes *)

(** The group label, [None] when the resource has not opted in. *)
Definition ResourceInterconnectGroup (res : Resources) : option string :=
  match r_gpu res with
  | None => None
  | Some g =>
      match List.find (fun a => String.eqb (Key a) AttributeGPUInterconnectGroupKey) (u_attrs g) with
      | Some a => Some (Value a)
      | None => None
      end
  end.

Definition ResourceRequiresInterconnect (res : Resources) : bool :=
  match ResourceInterconnectGroup res with Some _ => true | None => false end.

Definition interconnectCapsSuitable (caps : NodeCapabilities) (requiredFabric : string) : bool :=
  if String.eqb (nc_interconnect_fabric caps) "" || String.eqb (nc_interconnect_resource_name caps) ""
  then false
  else String.eqb requiredFabric "" || String.eqb (nc_interconnect_fabric caps) requiredFabric.

Definition placementAttrs (rgroup : ResourceGroup) : Attributes :=
  match rgroup with
  | RGGroupPtr g | RGGroup g | RGGroupSpecPtr g | RGGroupSpec g => gs_requirements g
  | RGManifestGroup _ _ => []
  end.

Fixpoint placementFabricFromAttrs (attrs : Attributes) : option string :=
  match attrs with
  | [] => None
  | a :: rest =>
      if negb (String.eqb (Value a) "true") then placementFabricFromAttrs rest
      else if String.eqb (Key a) AttributeInterconnectFabricInfiniBand then Some "infiniband"%string
      else if String.eqb (Key a) AttributeInterconnectFabricRoCE then Some "roce"%string
      else placementFabricFromAttrs rest
  end.

Definition PlacementRequiredFabric (rgroup : ResourceGroup) : option string :=
  placementFabricFromAttrs (placementAttrs rgroup).
