(* ===== verification/KubeInventory.v ===== *)
(** * The cluster inventory

    Model of [cluster/kube/operators/clients/inventory/inventory.go]: the
    snapshot of the cluster's capacity, its sanitised copy, the placement of
    one replica on one node ([tryAdjust]) and the placement of a whole
    reservation ([Adjust]). *)

From stdpp Require Import base gmap list strings tactics.
From Stdlib Require Import ZArith Lia Ascii.
From S2P Require Import Prelude Types Attrs.

Definition runtimeClassNvidia : string := "nvidia".
Definition GPUVendorNvidia : string := "nvidia".
Definition SidecarCPULimitMillicores : Z := 100.
Definition SidecarMemoryLimitBytes : Z := 64 * 1024 * 1024.
Definition SidecarGPUMemoryLimitBytes : Z := 128 * 1024 * 1024.

Inductive AdjustErr :=
| ErrInsufficientCapacity
| ErrGroupResourceMismatch
| ErrInvalidInterconnectGroup (group : string)
| PanicNilDeref.

(** What [tryAdjust] answers: both statuses true; the node cannot take the
    resources; the cluster cannot; or a nil pointer was dereferenced. *)
Inductive ta_status := TAOk | TANodeFull | TAClusterFull | TAPanic.

#[export] Instance ta_status_eq_dec : EqDecision ta_status.
Proof. solve_decision. Defined.

(** Nodes claimed per interconnect group: [map[string]map[int]bool]. *)
Abbreviation group_claims := (gmap string (gset nat)).

Definition claimed (claims : group_claims) (group : string) (node : nat) : bool :=
  bool_decide (node ∈ default ∅ (claims !! group)).

Definition set_gpu_attrs (attrs : Attributes) (res : Resources) : Resources :=
  mkResources (r_id res) (r_cpu res) (r_memory res) (r_storage res)
    ((fun g => mkUnits (units g) attrs) <$> r_gpu res) (r_endpoints res).

Definition sParamsEnsureResources (sp : SchedulerParams) : SchedulerParams :=
  match sp_resources sp with
  | Some _ => sp
  | None => mkSchedulerParams (sp_runtime_class sp) (Some (mkSchedResources None None))
              (sp_attestation_disabled sp) (sp_tee_type sp)
  end.

Definition sParamsEnsureGPU (sp : SchedulerParams) : SchedulerParams :=
  let sp := sParamsEnsureResources sp in
  match sp_resources sp with
  | Some (mkSchedResources None ic) =>
      mkSchedulerParams (sp_runtime_class sp)
        (Some (mkSchedResources (Some (mkSchedGPU "" "" "" "")) ic))
        (sp_attestation_disabled sp) (sp_tee_type sp)
  | _ => sp
  end.

Definition set_runtime_class (rc : string) (sp : SchedulerParams) : SchedulerParams :=
  mkSchedulerParams rc (sp_resources sp) (sp_attestation_disabled sp) (sp_tee_type sp).

Definition set_sched_gpu (vendor model : string) (sp : SchedulerParams) : SchedulerParams :=
  let upd g := mkSchedGPU vendor model (sg_memory_size g) (sg_interface g) in
  mkSchedulerParams (sp_runtime_class sp)
    ((fun r => mkSchedResources (upd <$> sr_gpu r) (sr_interconnect r)) <$> sp_resources sp)
    (sp_attestation_disabled sp) (sp_tee_type sp).

Definition set_sched_interconnect (ic : SchedulerResourceInterconnect) (sp : SchedulerParams)
    : SchedulerParams :=
  mkSchedulerParams (sp_runtime_class sp)
    ((fun r => mkSchedResources (sr_gpu r) (Some ic)) <$> sp_resources sp)
    (sp_attestation_disabled sp) (sp_tee_type sp).

(** The attribute key [tryAdjustGPU] synthesises for the GPU it picked. *)
Definition gpu_key (vendor model : string) (attr : option GPUModelAttributes) : string :=
  let key := ("vendor/" +:+ vendor +:+ "/model/" +:+ model)%string in
  match attr with
  | None => key
  | Some a =>
      let key := if String.eqb (RAM a) "" then key else (key +:+ "/ram/" +:+ RAM a)%string in
      if String.eqb (Interface a) "" then key else (key +:+ "/interface/" +:+ Interface a)%string
  end.

Section WithAPI.
Context {api : InventoryAPI}.

(** ** Snapshots *)

Definition sanitizeQuantity (q : option Quantity) : option Quantity :=
  match q with
  | None => None
  | Some q => Some (if q_negative q then q_set q 0 else q)
  end.

Definition sanitizeResourcePair (p : ResourcePair api) : ResourcePair api :=
  mkResourcePair (sanitizeQuantity (rp_capacity p)) (sanitizeQuantity (rp_allocatable p))
    (sanitizeQuantity (rp_allocated p)).

Definition sanitizeNodeResources (r : NodeResources api) : NodeResources api :=
  mkNodeResources
    (sanitizeResourcePair (n_cpu r)) (n_cpu_info r)
    (sanitizeResourcePair (n_memory r))
    (sanitizeResourcePair (n_gpu r)) (n_gpu_info r)
    (sanitizeResourcePair (n_ephemeral r))
    (sanitizeResourcePair (n_volumes_attached r))
    (sanitizeResourcePair (n_volumes_mounted r))
    (sanitizeResourcePair (n_interconnect r)).

Definition sanitizeCluster (c : Cluster api) : Cluster api :=
  mkCluster
    (map (fun nd => mkNode (nd_name nd) (sanitizeNodeResources (nd_resources nd)) (nd_caps nd))
       (c_nodes c))
    (map (fun s => mkClusterStorage (cs_class s) (sanitizeResourcePair (cs_quantity s)))
       (c_storage c)).

(** [inventory]: the raw cluster and the sanitised copy reservations charge. *)
Record inventory := mkInventory { raw : Cluster api; sanitized : Cluster api }.

Definition newInventory (clState : Cluster api) : inventory :=
  mkInventory clState (sanitizeCluster clState).

Definition sanitizedDup (inv : inventory) : inventory :=
  mkInventory (sanitized inv) (sanitized inv).

Definition Snapshot (inv : inventory) : Cluster api := sanitized inv.

(** ** One replica on one node *)

Definition tryAdjustCPU (rp : ResourcePair api) (info : list CPUInfo) (res : Units)
    : option (ResourcePair api) :=
  match CPUArchMatches info (u_attrs res) with
  | Ok true => SubMilliNLZ rp (units res)
  | _ => None
  end.

(** Whether one GPU of the node satisfies the request, with the attributes
    of the request entry it matched. *)
Definition gpu_matches (attrs : GPUAttributes) (info : GPUInfo)
    : option (option GPUModelAttributes) :=
  match attrs !! gi_vendor info with
  | None => None
  | Some models =>
      match ExistsOrWildcard models (gi_name info) with
      | None => None
      | Some None => Some None
      | Some (Some attr) =>
          if negb (String.eqb (RAM attr) "") && negb (String.eqb (RAM attr) (gi_memory_size info))
          then None
          else if negb (String.eqb (Interface attr) "") &&
                  negb (String.eqb (Interface attr) (FilterGPUInterface (gi_interface info)))
          then None
          else Some (Some attr)
      end
  end.

(** The GPU at which the request's count is reached. *)
Fixpoint gpu_pick (attrs : GPUAttributes) (infos : list GPUInfo) (reqCnt : Z)
    : option (GPUInfo * option GPUModelAttributes) :=
  match infos with
  | [] => None
  | info :: rest =>
      match gpu_matches attrs info with
      | None => gpu_pick attrs rest reqCnt
      | Some attr => if (reqCnt - 1 =? 0)%Z then Some (info, attr)
                     else gpu_pick attrs rest (reqCnt - 1)
      end
  end.

(** Returns the charged pair, the attributes left on the request and the
    scheduler parameters. *)
Definition tryAdjustGPU (rp : ResourcePair api) (infos : list GPUInfo) (res : Units)
    (sparams : SchedulerParams) (teeType : TEEType) (teePlatform : TEEPlatform)
    : option (ResourcePair api * Attributes * SchedulerParams) :=
  let reqCnt := units res in
  if (reqCnt =? 0)%Z then Some (rp, u_attrs res, sparams)
  else if (q_value (Available rp) =? 0)%Z then None
  else match ParseGPUAttributes (u_attrs res) with
  | Err _ => None
  | Ok attrs =>
    match gpu_pick attrs infos reqCnt with
    | None => None
    | Some (info, attr) =>
      let vendor := to_lower (gi_vendor info) in
      match SubNLZ rp (units res) with
      | None => None
      | Some rp' =>
        let sparams := set_sched_gpu vendor (gi_name info) (sParamsEnsureGPU sparams) in
        let sparams :=
          if IsCC teeType
          then set_runtime_class (RuntimeClassForTEEType teeType teePlatform) sparams
          else if String.eqb vendor GPUVendorNvidia
          then set_runtime_class runtimeClassNvidia sparams
          else sparams in
        Some (rp', [mkAttribute (gpu_key vendor (gi_name info) attr) "true"], sparams)
      end
    end
  end.

Definition tryAdjustInterconnect (rp : ResourcePair api) (caps : NodeCapabilities)
    (res : Resources) (sparams : SchedulerParams) (requiredFabric : string) (required : bool)
    : option (ResourcePair api * SchedulerParams) :=
  if negb required then Some (rp, sparams)
  else if negb (interconnectCapsSuitable caps requiredFabric) then None
  else match r_gpu res with
  | None => None
  | Some gpu =>
      match SubNLZ rp (units gpu) with
      | None => None
      | Some rp' =>
          Some (rp', set_sched_interconnect
            (mkSchedInterconnect true (units gpu) (nc_interconnect_resource_name caps)
               (nc_interconnect_fabric caps) (nc_nccl_hca_prefixes caps))
            (sParamsEnsureResources sparams))
      end
  end.

Definition tryAdjustEphemeralStorage (rp : ResourcePair api) (res : Storage)
    : option (ResourcePair api) := SubNLZ rp (s_quantity res).

(** Charges the first storage class with that name: [None] when the cluster
    has no such class, [Some None] when it has no room. *)
Fixpoint charge_class (classes : list (ClusterStorage api)) (class : string) (v : Z)
    : option (option (list (ClusterStorage api))) :=
  match classes with
  | [] => None
  | cs :: rest =>
      if String.eqb (cs_class cs) class
      then match SubNLZ (cs_quantity cs) v with
           | None => Some None
           | Some q => Some (Some (mkClusterStorage (cs_class cs) q :: rest))
           end
      else match charge_class rest class v with
           | Some (Some rest') => Some (Some (cs :: rest'))
           | o => o
           end
  end.

(** The loop over the volumes of a resource: node memory, node ephemeral
    storage and the cluster's storage classes, or the status that ends it. *)
Fixpoint adjust_storage (caps : NodeCapabilities) (vols : list Storage)
    (mem eph : ResourcePair api) (classes : list (ClusterStorage api))
    : result ta_status (ResourcePair api * ResourcePair api * list (ClusterStorage api)) :=
  match vols with
  | [] => Ok (mem, eph, classes)
  | vol :: rest =>
    match ParseStorageAttributes (s_attrs vol) with
    | Err _ => Err TAClusterFull
    | Ok attrs =>
      if negb (Persistent attrs) then
        if String.eqb (Class' attrs) "ram" then
          match SubNLZ mem (s_quantity vol) with
          | None => Err TANodeFull
          | Some mem' => adjust_storage caps rest mem' eph classes
          end
        else
          match tryAdjustEphemeralStorage eph vol with
          | None => Err TANodeFull
          | Some eph' => adjust_storage caps rest mem eph' classes
          end
      else if negb (caps_support_class caps (Class' attrs)) then Err TANodeFull
      else match charge_class classes (Class' attrs) (s_quantity vol) with
           | Some (Some classes') => adjust_storage caps rest mem eph classes'
           | _ => Err TAClusterFull
           end
    end
  end.

(** The confidential-compute sidecar's share: runtime class, CPU, memory. *)
Definition adjust_sidecar (teeType : TEEType) (teePlatform : TEEPlatform)
    (sparams : SchedulerParams) (cpu mem : ResourcePair api)
    : option (SchedulerParams * ResourcePair api * ResourcePair api) :=
  if negb (IsCC teeType) then Some (sparams, cpu, mem)
  else
    let sparams := if String.eqb (sp_runtime_class sparams) ""
                   then set_runtime_class (RuntimeClassForTEEType teeType teePlatform) sparams
                   else sparams in
    match SubMilliNLZ cpu SidecarCPULimitMillicores with
    | None => None
    | Some cpu' =>
        let sidecarMem := if RuntimeClass_Is (sp_runtime_class sparams) [WithGPU]
                          then SidecarGPUMemoryLimitBytes else SidecarMemoryLimitBytes in
        match SubNLZ mem sidecarMem with
        | None => None
        | Some mem' => Some (sparams, cpu', mem')
        end
    end.

Record ta_result := mkTA {
  ta_inv : Cluster api;
  ta_claims : group_claims;
  ta_res : Resources;
  ta_sparams : option SchedulerParams;
  ta_stat : ta_status
}.

Definition tryAdjust (inv : Cluster api) (node : nat) (res : Resources)
    (teeType : TEEType) (teePlatform : TEEPlatform) (requiredFabric : string)
    (requiresInterconnect : bool) (interconnectGroup : string) (claims : group_claims)
    : ta_result :=
  let refuse res st := mkTA inv claims res None st in
  if negb (String.eqb interconnectGroup "") && claimed claims interconnectGroup node
  then refuse res TANodeFull else
  match c_nodes inv !! node with
  | None => refuse res TAPanic
  | Some nd =>
  if requiresInterconnect && negb (interconnectCapsSuitable (nd_caps nd) requiredFabric)
  then refuse res TANodeFull else
  let nr := nd_resources nd in
  match r_cpu res with
  | None => refuse res TAPanic
  | Some rcpu =>
  match tryAdjustCPU (n_cpu nr) (n_cpu_info nr) rcpu with
  | None => refuse res TANodeFull
  | Some cpu =>
  match tryAdjustInterconnect (n_interconnect nr) (nd_caps nd) res emptySchedulerParams
          requiredFabric requiresInterconnect with
  | None => refuse res TANodeFull
  | Some (interconnect, sparams) =>
  match r_gpu res with
  | None => refuse res TAPanic
  | Some rgpu =>
  match tryAdjustGPU (n_gpu nr) (n_gpu_info nr) rgpu sparams teeType teePlatform with
  | None => refuse res TANodeFull
  | Some (gpu, gattrs, sparams) =>
  let res := set_gpu_attrs gattrs res in
  match r_memory res with
  | None => refuse res TAPanic
  | Some rmem =>
  match SubNLZ (n_memory nr) (m_quantity rmem) with
  | None => refuse res TANodeFull
  | Some mem =>
  match adjust_storage (nd_caps nd) (r_storage res) mem (n_ephemeral nr) (c_storage inv) with
  | Err st => refuse res st
  | Ok (mem, eph, classes) =>
  match adjust_sidecar teeType teePlatform sparams cpu mem with
  | None => refuse res TANodeFull
  | Some (sparams, cpu, mem) =>
    let nr' := mkNodeResources cpu (n_cpu_info nr) mem gpu (n_gpu_info nr) eph
                 (n_volumes_attached nr) (n_volumes_mounted nr) interconnect in
    let claims' := if String.eqb interconnectGroup "" then claims
                   else <[interconnectGroup :=
                          {[ node ]} ∪ default ∅ (claims !! interconnectGroup)]> claims in
    mkTA (mkCluster (<[node := mkNode (nd_name nd) nr' (nd_caps nd)]> (c_nodes inv)) classes)
         claims' res
         (if decide (sparams = emptySchedulerParams) then None else Some sparams) TAOk
  end end end end end end end end end end.

End WithAPI.

Arguments inventory api : clear implicits.
Arguments ta_result api : clear implicits.

(** ** A whole reservation *)

Section Adjust.
Context {api : InventoryAPI}.

(** What a [ReservationGroup] carries for [Adjust]. *)
Record ReservationGroup := mkReservationGroup {
  rg_resources : ResourceGroup;
  rg_allocated : list ResourceUnit;
  rg_cluster_params : ReservationClusterSettings
}.

(** Local variables of [Adjust] that its loops update. *)
Record adj_state := mkAdj {
  a_inv : Cluster api;
  a_claims : group_claims;
  a_resources : list ResourceUnit;
  a_adjusted : list ResourceUnit;
  a_cparams : ReservationClusterSettings
}.

(** Its local variables that they only read. *)
Record adj_env := mkAdjEnv {
  e_orig : list ResourceUnit;
  e_opts : InventoryOptions;
  e_fabric : string;
  e_requires : list bool;
  e_group : list string
}.

(** How a pass over the loops' bodies ends. *)
Inductive loop_exit :=
| FallThrough
| ContinueNodes
| BreakNodes (err : option AdjustErr)
| GotoNodes.

Definition set_res (res : Resources) (u : ResourceUnit) : ResourceUnit :=
  mkResourceUnit res (ru_count u).
Definition set_count (n : nat) (u : ResourceUnit) : ResourceUnit :=
  mkResourceUnit (ru_res u) n.

(** [for ; resources[i].Count > 0; resources[i].Count--]. [shared] tells
    whether [adjusted] points into [adjustedResources] or at a copy. *)
Fixpoint replica_loop (env : adj_env) (node i : nat) (shared : bool) (count : nat)
    (adjusted : Resources) (st : adj_state) : adj_state * loop_exit :=
  match count with
  | O => (st, FallThrough)
  | S count' =>
      let r := tryAdjust (a_inv st) node adjusted (opt_TEEType (e_opts env))
                 (opt_TEEPlatform (e_opts env)) (e_fabric env)
                 (default false (e_requires env !! i)) (default "" (e_group env !! i))%string
                 (a_claims st) in
      let adjusted := ta_res r in
      let st := mkAdj (ta_inv r) (ta_claims r) (a_resources st)
                  (if shared then alter (set_res adjusted) i (a_adjusted st) else a_adjusted st)
                  (a_cparams st) in
      match ta_stat r with
      | TAPanic => (st, BreakNodes (Some PanicNilDeref))
      | TAClusterFull => (st, BreakNodes None)
      | TANodeFull => (st, ContinueNodes)
      | TAOk =>
          let next st := replica_loop env node i shared count' adjusted
            (mkAdj (a_inv st) (a_claims st) (alter (set_count count') i (a_resources st))
               (a_adjusted st) (a_cparams st)) in
          if shared then
            next (mkAdj (a_inv st) (a_claims st) (a_resources st) (a_adjusted st)
                    (<[r_id adjusted := ta_sparams r]> (a_cparams st)))
          else if decide (Some adjusted = ru_res <$> a_adjusted st !! i) then
            if decide (ta_sparams r = default None (a_cparams st !! r_id adjusted))
            then next st
            else (st, BreakNodes (Some ErrGroupResourceMismatch))
          else (st, BreakNodes (Some ErrGroupResourceMismatch))
      end
  end.

(** [for i := len(resources) - 1; i >= 0; i--], with [n = i + 1]. *)
Fixpoint unit_loop (env : adj_env) (node : nat) (n : nat) (st : adj_state)
    : adj_state * loop_exit :=
  match n with
  | O => (st, FallThrough)
  | S i =>
      match e_orig env !! i, a_resources st !! i, a_adjusted st !! i with
      | Some orig, Some unit, Some adj =>
          let shared := (ru_count orig =? ru_count unit)%nat in
          match replica_loop env node i shared (ru_count unit) (ru_res adj) st with
          | (st, FallThrough) =>
              if decide (ru_count <$> a_resources st !! i = Some O)
              then (mkAdj (a_inv st) (a_claims st) (remove_at i (a_resources st))
                      (a_adjusted st) (a_cparams st), GotoNodes)
              else unit_loop env node i st
          | other => other
          end
      | _, _, _ => (st, BreakNodes (Some PanicNilDeref))
      end
  end.

(** [for nodeIdx := range currInventory.Nodes]. *)
Fixpoint node_loop (env : adj_env) (nodes : list nat) (st : adj_state)
    : adj_state * loop_exit :=
  match nodes with
  | [] => (st, FallThrough)
  | nodeIdx :: rest =>
      match unit_loop env nodeIdx (length (a_resources st)) st with
      | (st, FallThrough) | (st, ContinueNodes) => node_loop env rest st
      | other => other
      end
  end.

(** The labelled loop, restarted by every [goto nodes]: [None] when the fuel
    runs out. *)
Fixpoint nodes_loop (env : adj_env) (fuel : nat) (st : adj_state)
    : option (adj_state * option AdjustErr) :=
  match fuel with
  | O => None
  | S fuel' =>
      match node_loop env (seq 0 (length (c_nodes (a_inv st)))) st with
      | (st, GotoNodes) => nodes_loop env fuel' st
      | (st, BreakNodes e) => Some (st, e)
      | (st, _) => Some (st, None)
      end
  end.

(** The group labels of the units, refusing one Kubernetes would not accept. *)
Fixpoint interconnect_groups (us : list ResourceUnit) : result AdjustErr (list bool * list string) :=
  match us with
  | [] => Ok ([], [])
  | u :: rest =>
      match ResourceInterconnectGroup (ru_res u) with
      | Some g =>
          if negb (IsValidLabelValue g) then Err (ErrInvalidInterconnectGroup g)
          else match interconnect_groups rest with
               | Err e => Err e
               | Ok (rs, gs) => Ok (true :: rs, g :: gs)
               end
      | None =>
          match interconnect_groups rest with
          | Err e => Err e
          | Ok (rs, gs) => Ok (false :: rs, ""%string :: gs)
          end
      end
  end.

Definition adjust_env (res : ReservationGroup) (cfg : InventoryOptions)
    (rg : list bool * list string) : adj_env :=
  mkAdjEnv (GetResourceUnits (rg_resources res)) cfg
    (default ""%string (PlacementRequiredFabric (rg_resources res))) rg.1 rg.2.

Definition adjust_init (inv : inventory api) (res : ReservationGroup) : adj_state :=
  let orig := GetResourceUnits (rg_resources res) in
  mkAdj (raw (sanitizedDup inv)) ∅ orig orig ∅.

(** [Adjust]: the inventory and the reservation it leaves behind. The loop is
    restarted at most once per resource unit. *)
Definition Adjust (inv : inventory api) (res : ReservationGroup) (cfg : InventoryOptions)
    : option (inventory api * ReservationGroup * option AdjustErr) :=
  match interconnect_groups (GetResourceUnits (rg_resources res)) with
  | Err e => Some (inv, res, Some e)
  | Ok rg =>
      match nodes_loop (adjust_env res cfg rg)
              (S (length (GetResourceUnits (rg_resources res)))) (adjust_init inv res) with
      | None => None
      | Some (st, err) =>
          match a_resources st with
          | [] =>
              Some (if DryRun cfg then inv else mkInventory (raw inv) (a_inv st),
                    mkReservationGroup (rg_resources res) (a_adjusted st) (a_cparams st),
                    None)
          | _ => Some (inv, res, Some (default ErrInsufficientCapacity err))
          end
      end
  end.

End Adjust.

Arguments adj_state api : clear implicits.
