(* ===== verification/InventoryProofs.v ===== *)
(** * The cluster inventory: proofs

    [Adjust] terminates, places every replica exactly once, charges each node
    what it placed there, keeps the peers of an interconnect group on distinct
    nodes, and leaves inventory and reservation alone when it fails. *)

From stdpp Require Import base gmap list strings tactics.
From Stdlib Require Import ZArith Lia Ascii.
From S2P Require Import Prelude Types Concrete Attrs KubeInventory.

(** ** Resources up to the GPU attributes

    [tryAdjustGPU] overwrites the GPU attributes of the request in place;
    everything else a resource asks for stays. *)

Definition same_demand (a b : Resources) : Prop :=
  set_gpu_attrs [] a = set_gpu_attrs [] b.

#[export] Instance same_demand_equiv : Equivalence same_demand.
Proof. split; unfold same_demand; [by intros ?|by intros ???|by intros ? ? ? -> ->]. Qed.

Lemma same_demand_set_gpu attrs res : same_demand (set_gpu_attrs attrs res) res.
Proof. destruct res as [? ? ? ? [[]|] ?]; reflexivity. Qed.

Lemma same_demand_fields a b :
  same_demand a b ->
  r_id a = r_id b /\ r_cpu a = r_cpu b /\ r_memory a = r_memory b /\ r_storage a = r_storage b /\
  (units <$> r_gpu a) = (units <$> r_gpu b).
Proof.
  destruct a as [? ? ? ? ga ?], b as [? ? ? ? gb ?]. unfold same_demand, set_gpu_attrs; simpl.
  intros [= -> -> -> -> Hg ->]. repeat split.
  destruct ga as [[]|], gb as [[]|]; simplify_eq/=; done.
Qed.

Section Proofs.
Context {api : InventoryAPI}.

(** ** [tryAdjust] *)

Lemma adjust_storage_Err caps vols (mem eph : ResourcePair api) classes st :
  adjust_storage caps vols mem eph classes = Err st -> st <> TAOk.
Proof.
  revert mem eph classes. induction vols as [|v vols IH]; intros mem eph classes; simpl; [done|].
  repeat (case_match; try done); try (by intros [= <-]); eauto.
Qed.

Lemma adjust_storage_not_panic caps vols (mem eph : ResourcePair api) classes st :
  adjust_storage caps vols mem eph classes = Err st -> st <> TAPanic.
Proof.
  revert mem eph classes. induction vols as [|v vols IH]; intros mem eph classes; simpl; [done|].
  repeat (case_match; try done); try (by intros [= <-]); eauto.
Qed.

Section TryAdjust.
Context (tt : TEEType) (tp : TEEPlatform) (fabric : string) (req : bool) (group : string).

Abbreviation try_adjust inv node res claims :=
  (tryAdjust (api := api) inv node res tt tp fabric req group claims).

Lemma tryAdjust_refused inv node res claims :
  ta_stat (try_adjust inv node res claims) <> TAOk ->
  ta_inv (try_adjust inv node res claims) = inv /\
  ta_claims (try_adjust inv node res claims) = claims.
Proof. unfold tryAdjust. repeat case_match; simpl; done. Qed.

Lemma tryAdjust_same_demand inv node res claims :
  same_demand (ta_res (try_adjust inv node res claims)) res.
Proof.
  unfold tryAdjust. repeat (case_match; simpl; try reflexivity); apply same_demand_set_gpu.
Qed.

Lemma tryAdjust_claims inv node res claims :
  ta_stat (try_adjust inv node res claims) = TAOk ->
  (group <> ""%string -> claimed claims group node = false) /\
  ta_claims (try_adjust inv node res claims) =
    if String.eqb group "" then claims
    else <[group := {[ node ]} ∪ default ∅ (claims !! group)]> claims.
Proof.
  unfold tryAdjust. destruct (String.eqb group "") eqn:Hg; simpl.
  - apply String.eqb_eq in Hg. repeat (case_match; simpl; try done);
      intros; first [by eauto using adjust_storage_Err | exfalso; by eapply adjust_storage_Err].
  - destruct (claimed claims group node) eqn:Hc; simpl; [done|].
    repeat (case_match; simpl; try done);
      intros; first [by eauto using adjust_storage_Err | exfalso; by eapply adjust_storage_Err].
Qed.

(** What a success says: every step of the code succeeded. *)
Lemma tryAdjust_ok inv node res claims :
  ta_stat (try_adjust inv node res claims) = TAOk ->
  exists nd rcpu rgpu rmem cpu ic sp1 gpu gattrs sp2 mem0 mem1 eph classes sp3 cpu' mem',
    let nr := nd_resources nd in
    c_nodes inv !! node = Some nd /\ r_cpu res = Some rcpu /\ r_gpu res = Some rgpu /\
    r_memory res = Some rmem /\
    (req = true -> interconnectCapsSuitable (nd_caps nd) fabric = true) /\
    tryAdjustCPU (n_cpu nr) (n_cpu_info nr) rcpu = Some cpu /\
    tryAdjustInterconnect (n_interconnect nr) (nd_caps nd) res emptySchedulerParams fabric req
      = Some (ic, sp1) /\
    tryAdjustGPU (n_gpu nr) (n_gpu_info nr) rgpu sp1 tt tp = Some (gpu, gattrs, sp2) /\
    SubNLZ (n_memory nr) (m_quantity rmem) = Some mem0 /\
    adjust_storage (nd_caps nd) (r_storage res) mem0 (n_ephemeral nr) (c_storage inv)
      = Ok (mem1, eph, classes) /\
    adjust_sidecar tt tp sp2 cpu mem1 = Some (sp3, cpu', mem') /\
    ta_inv (try_adjust inv node res claims) =
      mkCluster (<[node := mkNode (nd_name nd)
        (mkNodeResources cpu' (n_cpu_info nr) mem' gpu (n_gpu_info nr) eph
           (n_volumes_attached nr) (n_volumes_mounted nr) ic) (nd_caps nd)]> (c_nodes inv)) classes /\
    ta_res (try_adjust inv node res claims) = set_gpu_attrs gattrs res.
Proof.
  unfold tryAdjust.
  destruct (negb (String.eqb group "") && claimed claims group node); simpl; [done|].
  destruct (c_nodes inv !! node) as [nd|] eqn:Hnd; simpl; [|done].
  destruct (req && negb (interconnectCapsSuitable (nd_caps nd) fabric)) eqn:Hs; simpl; [done|].
  destruct (r_cpu res) as [rcpu|] eqn:Hrc; simpl; [|done].
  destruct (tryAdjustCPU _ _ rcpu) as [cpu|] eqn:Hcpu; simpl; [|done].
  destruct (tryAdjustInterconnect _ _ _ _ _ _) as [[ic sp1]|] eqn:Hic; simpl; [|done].
  destruct (r_gpu res) as [rgpu|] eqn:Hrg; simpl; [|done].
  destruct (tryAdjustGPU _ _ _ _ _ _) as [[[gpu gattrs] sp2]|] eqn:Hgpu; simpl; [|done].
  destruct (r_memory res) as [rmem|] eqn:Hrm; simpl; [|done].
  destruct (SubNLZ _ _) as [mem0|] eqn:Hmem; simpl; [|done].
  destruct (adjust_storage _ _ _ _ _) as [[[mem1 eph] classes]|st] eqn:Hst; simpl.
  2:{ intros ->. by apply adjust_storage_Err in Hst. }
  destruct (adjust_sidecar _ _ _ _ _) as [[[sp3 cpu'] mem']|] eqn:Hsc; simpl; [|done].
  intros _. exists nd, rcpu, rgpu, rmem, cpu, ic, sp1, gpu, gattrs, sp2, mem0, mem1, eph, classes, sp3, cpu', mem'.
  repeat split; auto.
  intros ->. simpl in Hs. by apply negb_false_iff in Hs.
Qed.

End TryAdjust.

(** ** Amounts *)

Record Amounts := mkAmounts {
  am_cpu : Z; am_mem : Z; am_gpu : Z; am_eph : Z; am_ic : Z
}.

(** What a node still has: millicores, bytes of memory, GPUs, bytes of
    ephemeral storage and interconnect devices. *)
Definition node_avail (nd : Node api) : Amounts :=
  let r := nd_resources nd in
  mkAmounts (q_milli (Available (n_cpu r))) (q_value (Available (n_memory r)))
    (q_value (Available (n_gpu r))) (q_value (Available (n_ephemeral r)))
    (q_value (Available (n_interconnect r))).

Definition vol_is (ram : bool) (v : Storage) : bool :=
  match ParseStorageAttributes (s_attrs v) with
  | Ok a => negb (Persistent a) && Bool.eqb ram (String.eqb (Class' a) "ram")
  | Err _ => false
  end.

Definition vols_sum (ram : bool) (vs : list Storage) : Z :=
  foldr (fun v acc => (if vol_is ram v then s_quantity v else 0) + acc)%Z 0%Z vs.

Definition units_of (u : option Units) : Z := match u with Some u => units u | None => 0%Z end.
Definition mem_of (m : option Memory) : Z := match m with Some m => m_quantity m | None => 0%Z end.

(** What one replica takes from its node, the attestation sidecar of a
    confidential-compute reservation included. *)
Definition demand (t : TEEType) (p : TEEPlatform) (req : bool) (res : Resources) : Amounts :=
  mkAmounts
    (units_of (r_cpu res) + (if IsCC t then SidecarCPULimitMillicores else 0))
    (mem_of (r_memory res) + vols_sum true (r_storage res) +
     (if IsCC t then if RuntimeClass_Is (RuntimeClassForTEEType t p) [WithGPU]
                     then SidecarGPUMemoryLimitBytes else SidecarMemoryLimitBytes
      else 0))
    (units_of (r_gpu res))
    (vols_sum false (r_storage res))
    (if req then units_of (r_gpu res) else 0).

Lemma demand_same t p req a b : same_demand a b -> demand t p req a = demand t p req b.
Proof.
  intros (_ & Hc & Hm & Hs & Hg)%same_demand_fields. unfold demand. rewrite Hc, Hm, Hs.
  assert (units_of (r_gpu a) = units_of (r_gpu b)) as ->; [|done].
  destruct (r_gpu a), (r_gpu b); simplify_eq/=; done.
Qed.

#[local] Instance demand_proper t p req : Proper (same_demand ==> eq) (demand t p req).
Proof. intros a b. apply demand_same. Qed.

(** [after] is [before] less [d], and not in debt unless nothing was taken. *)
Definition charged1 (before d after : Z) : Prop :=
  after = (before - d)%Z /\ (d = 0 \/ 0 <= after)%Z.

Definition charged (before d after : Amounts) : Prop :=
  charged1 (am_cpu before) (am_cpu d) (am_cpu after) /\
  charged1 (am_mem before) (am_mem d) (am_mem after) /\
  charged1 (am_gpu before) (am_gpu d) (am_gpu after) /\
  charged1 (am_eph before) (am_eph d) (am_eph after) /\
  charged1 (am_ic before) (am_ic d) (am_ic after).

Definition am_zero : Amounts := mkAmounts 0 0 0 0 0.
Definition am_add (a b : Amounts) : Amounts :=
  mkAmounts (am_cpu a + am_cpu b) (am_mem a + am_mem b) (am_gpu a + am_gpu b)
    (am_eph a + am_eph b) (am_ic a + am_ic b).

Lemma charged1_trans b d1 m d2 a :
  charged1 b d1 m -> charged1 m d2 a -> charged1 b (d1 + d2)%Z a.
Proof. unfold charged1. lia. Qed.

Lemma charged_zero a : charged a am_zero a.
Proof. unfold charged, charged1, am_zero; simpl. lia. Qed.

Lemma charged_trans b d1 m d2 a :
  charged b d1 m -> charged m d2 a -> charged b (am_add d1 d2) a.
Proof. unfold charged, am_add; simpl. intuition eauto using charged1_trans. Qed.

Section Laws.
Context {laws : InventoryLaws api}.

Lemma sub_charged p v p' :
  SubNLZ p v = Some p' -> charged1 (q_value (Available p)) v (q_value (Available p')).
Proof. intros [? ?]%sub_charges. unfold charged1. lia. Qed.

Lemma sub_milli_charged p v p' :
  SubMilliNLZ p v = Some p' -> charged1 (q_milli (Available p)) v (q_milli (Available p')).
Proof. intros [? ?]%sub_milli_charges. unfold charged1. lia. Qed.

Lemma charged1_id z : charged1 z 0 z.
Proof. unfold charged1. lia. Qed.

Lemma adjust_storage_charged caps vols mem eph classes mem' eph' classes' :
  adjust_storage caps vols mem eph classes = Ok (mem', eph', classes') ->
  charged1 (q_value (Available mem)) (vols_sum true vols) (q_value (Available mem')) /\
  charged1 (q_value (Available eph)) (vols_sum false vols) (q_value (Available eph')).
Proof.
  revert mem eph classes. induction vols as [|v vols IH]; intros mem eph classes; simpl.
  { intros [= -> -> ->]. split; apply charged1_id. }
  unfold vol_is. destruct (ParseStorageAttributes (s_attrs v)) as [a|e]; [|done].
  destruct (Persistent a); simpl.
  - repeat (case_match; try done). intros Hok. by apply IH in Hok.
  - destruct (String.eqb (Class' a) "ram"); simpl; unfold tryAdjustEphemeralStorage.
    + destruct (SubNLZ mem (s_quantity v)) as [m|] eqn:E; [|done].
      intros [H1 H2]%IH. split; [|done]. eapply charged1_trans; [by apply sub_charged|done].
    + destruct (SubNLZ eph (s_quantity v)) as [m|] eqn:E; [|done].
      intros [H1 H2]%IH. split; [done|]. eapply charged1_trans; [by apply sub_charged|done].
Qed.

Lemma tryAdjustGPU_charged rp infos res sp t p rp' attrs sp' :
  tryAdjustGPU rp infos res sp t p = Some (rp', attrs, sp') ->
  charged1 (q_value (Available rp)) (units res) (q_value (Available rp')) /\
  (IsCC t = true -> sp_runtime_class sp' = sp_runtime_class sp \/
                    sp_runtime_class sp' = RuntimeClassForTEEType t p).
Proof.
  unfold tryAdjustGPU. destruct (units res =? 0)%Z eqn:Hz.
  - intros [= -> _ ->]. apply Z.eqb_eq in Hz. rewrite Hz. split; [apply charged1_id|by left].
  - repeat (case_match; try done); intros [= <- _ <-]; (split; [by apply sub_charged|]); try done.
    intros _. by right.
Qed.

Lemma adjust_sidecar_charged t p sp cpu mem sp' cpu' mem' :
  sp_runtime_class sp = ""%string \/ sp_runtime_class sp = RuntimeClassForTEEType t p \/ IsCC t = false ->
  adjust_sidecar t p sp cpu mem = Some (sp', cpu', mem') ->
  charged1 (q_milli (Available cpu)) (if IsCC t then SidecarCPULimitMillicores else 0)
    (q_milli (Available cpu')) /\
  charged1 (q_value (Available mem))
    (if IsCC t then if RuntimeClass_Is (RuntimeClassForTEEType t p) [WithGPU]
                    then SidecarGPUMemoryLimitBytes else SidecarMemoryLimitBytes else 0)
    (q_value (Available mem')).
Proof.
  unfold adjust_sidecar. destruct (IsCC t) eqn:Hcc; simpl.
  2:{ intros _ [= _ -> ->]. split; apply charged1_id. }
  intros Hrc.
  set (sp1 := if String.eqb (sp_runtime_class sp) "" then _ else sp).
  assert (sp_runtime_class sp1 = RuntimeClassForTEEType t p) as ->.
  { unfold sp1. destruct (String.eqb_spec (sp_runtime_class sp) ""); [done|]. naive_solver. }
  destruct (SubMilliNLZ cpu _) as [c|] eqn:Hc; [|done].
  destruct (SubNLZ mem _) as [m|] eqn:Hm; [|done]. intros [= _ -> ->].
  split; [by apply sub_milli_charged|by apply sub_charged].
Qed.

Lemma tryAdjustInterconnect_charged rp caps res fabric req rp' sp' :
  tryAdjustInterconnect rp caps res emptySchedulerParams fabric req = Some (rp', sp') ->
  charged1 (q_value (Available rp)) (if req then units_of (r_gpu res) else 0)
    (q_value (Available rp')) /\
  sp_runtime_class sp' = ""%string.
Proof.
  unfold tryAdjustInterconnect. destruct req; simpl.
  - repeat (case_match; try done). intros [= <- <-]. split; [by apply sub_charged|done].
  - intros [= <- <-]. split; [apply charged1_id|done].
Qed.

(** A successful [tryAdjust] charges the node the replica's demand and touches
    no other node. *)
Lemma tryAdjust_charges t p fabric req group inv node res claims :
  let r := tryAdjust inv node res t p fabric req group claims in
  ta_stat r = TAOk ->
  exists nd nd',
    c_nodes inv !! node = Some nd /\ c_nodes (ta_inv r) !! node = Some nd' /\
    charged (node_avail nd) (demand t p req res) (node_avail nd') /\
    forall j, j <> node -> c_nodes (ta_inv r) !! j = c_nodes inv !! j.
Proof.
  intros r Hok.
  destruct (tryAdjust_ok t p fabric req group inv node res claims Hok)
    as (nd & rcpu & rgpu & rmem & cpu & ic & sp1 & gpu & gattrs & sp2 & mem0 & mem1 & eph &
        classes & sp3 & cpu' & mem' & Hnd & Hrc & Hrg & Hrm & _ & Hcpu & Hic & Hgpu & Hmem &
        Hst & Hsc & Hinv & _).
  exists nd. fold r in Hinv. rewrite Hinv. simpl. eexists. split; [done|]. split.
  { rewrite list_lookup_insert_eq; [done|]. by apply lookup_lt_Some in Hnd. }
  split; [|intros j Hj; by rewrite list_lookup_insert_ne by congruence].
  apply tryAdjustInterconnect_charged in Hic as [Hic Hrc1].
  apply tryAdjustGPU_charged in Hgpu as [Hgpu Hrc2].
  apply adjust_sidecar_charged in Hsc as [Hsc1 Hsc2].
  2:{ destruct (IsCC t); [|by auto]. destruct (Hrc2 eq_refl) as [->| ->]; auto. }
  apply adjust_storage_charged in Hst as [Hst1 Hst2].
  apply sub_charged in Hmem.
  assert (charged1 (q_milli (Available (n_cpu (nd_resources nd)))) (units rcpu)
            (q_milli (Available cpu))) as Hc.
  { unfold tryAdjustCPU in Hcpu. destruct (CPUArchMatches _ _) as [[]|]; [|done|done].
    by apply sub_milli_charged. }
  unfold charged, demand, node_avail; simpl. rewrite Hrc, Hrg, Hrm in *; simpl in *.
  split; [exact (charged1_trans _ _ _ _ _ Hc Hsc1)|].
  split; [exact (charged1_trans _ _ _ _ _ (charged1_trans _ _ _ _ _ Hmem Hst1) Hsc2)|].
  split; [exact Hgpu|]. split; [exact Hst2|exact Hic].
Qed.

End Laws.

(** ** Placements

    A placement is the sequence of successful [tryAdjust] calls that built an
    inventory: which unit went to which node. *)

Definition env_requires (env : adj_env) (i : nat) : bool := default false (e_requires env !! i).
Definition env_group (env : adj_env) (i : nat) : string := default ""%string (e_group env !! i).

Definition env_try (env : adj_env) (c : Cluster api) (k : group_claims) (i node : nat)
    (res : Resources) : ta_result api :=
  tryAdjust c node res (opt_TEEType (e_opts env)) (opt_TEEPlatform (e_opts env)) (e_fabric env)
    (env_requires env i) (env_group env i) k.

Inductive placement (env : adj_env) (c0 : Cluster api)
    : list (nat * nat) -> Cluster api -> group_claims -> Prop :=
| placement_nil : placement env c0 [] c0 ∅
| placement_snoc pl c k i node u res :
    placement env c0 pl c k ->
    e_orig env !! i = Some u ->
    same_demand res (ru_res u) ->
    ta_stat (env_try env c k i node res) = TAOk ->
    placement env c0 (pl ++ [(i, node)])
      (ta_inv (env_try env c k i node res)) (ta_claims (env_try env c k i node res)).

(** How many replicas of unit [i] a placement holds. *)
Definition placed (pl : list (nat * nat)) (i : nat) : nat :=
  length (filter (fun p => p.1 = i) pl).

Lemma placed_snoc pl i node j :
  placed (pl ++ [(i, node)]) j = (placed pl j + if decide (i = j) then 1 else 0)%nat.
Proof.
  unfold placed. rewrite list.filter_app, length_app. f_equal.
  destruct (decide (i = j)) as [->|Hne].
  - by rewrite filter_cons_True.
  - by rewrite filter_cons_False.
Qed.

Definition remaining (st : adj_state api) (i : nat) : nat :=
  match a_resources st !! i with Some u => ru_count u | None => 0%nat end.

(** The invariant of [Adjust]'s loops: the inventory is a placement, every
    replica is either placed or still wanted, and the working copies of the
    units stay aligned with the units of the order. *)
Record adj_ok (env : adj_env) (c0 : Cluster api) (st : adj_state api) : Prop := {
  ok_placement : exists pl, placement env c0 pl (a_inv st) (a_claims st) /\
    forall i u, e_orig env !! i = Some u -> (placed pl i + remaining st i)%nat = ru_count u;
  ok_len : (length (a_resources st) <= length (e_orig env))%nat;
  ok_adjusted : forall i u, e_orig env !! i = Some u ->
    exists v, a_adjusted st !! i = Some v /\ same_demand (ru_res v) (ru_res u);
  ok_nodes : length (c_nodes (a_inv st)) = length (c_nodes c0)
}.

(** No pointer of a resource the code follows is nil. *)
Definition res_wf (r : Resources) : Prop :=
  is_Some (r_cpu r) /\ is_Some (r_gpu r) /\ is_Some (r_memory r).

Definition units_wf (us : list ResourceUnit) : Prop := Forall (fun u => res_wf (ru_res u)) us.

Definition exit_ok (env : adj_env) (c0 : Cluster api) (n : nat) (st : adj_state api)
    (ex : loop_exit) : Prop :=
  match ex with
  | FallThrough | ContinueNodes => adj_ok env c0 st /\ length (a_resources st) = n
  | GotoNodes => adj_ok env c0 st /\ S (length (a_resources st)) = n
  | BreakNodes e => a_resources st <> [] /\ (units_wf (e_orig env) -> e <> Some PanicNilDeref)
  end.

Lemma res_wf_same a b : same_demand a b -> res_wf b -> res_wf a.
Proof.
  intros (_ & Hc & Hm & _ & Hg)%same_demand_fields (H1 & H2 & H3). unfold res_wf.
  rewrite Hc, Hm. repeat split; auto.
  destruct (r_gpu a), (r_gpu b); simplify_eq/=; eauto.
Qed.

Lemma tryAdjust_no_panic t p fabric req group (inv : Cluster api) node res claims :
  res_wf res -> (node < length (c_nodes inv))%nat ->
  ta_stat (tryAdjust inv node res t p fabric req group claims) <> TAPanic.
Proof.
  intros ([rc Hc] & [rg Hg] & [rm Hm]) [nd Hnd]%lookup_lt_is_Some_2. unfold tryAdjust.
  rewrite Hnd, Hc, Hg. simpl. rewrite Hm.
  repeat (case_match; simpl; try done). eauto using adjust_storage_not_panic.
Qed.

Lemma adjusted_update env i u (res : Resources) (adj : list ResourceUnit) :
  (forall j v, e_orig env !! j = Some v ->
     exists w, adj !! j = Some w /\ same_demand (ru_res w) (ru_res v)) ->
  e_orig env !! i = Some u -> same_demand res (ru_res u) ->
  forall j v, e_orig env !! j = Some v ->
    exists w, alter (set_res res) i adj !! j = Some w /\ same_demand (ru_res w) (ru_res v).
Proof.
  intros Hadj Hi Hres j v Hj. destruct (Hadj j v Hj) as (w & Hw & Hs).
  destruct (decide (i = j)) as [->|Hne].
  - rewrite list_lookup_alter_eq, Hw. eexists. split; [done|]. simpl. by simplify_eq.
  - rewrite list_lookup_alter_ne by done. eauto.
Qed.

Lemma alter_count_remaining (st : adj_state api) i n unit j :
  a_resources st !! i = Some unit ->
  match alter (set_count n) i (a_resources st) !! j with Some u => ru_count u | None => 0%nat end
  = if decide (i = j) then n else remaining st j.
Proof.
  intros Hi. unfold remaining. destruct (decide (i = j)) as [->|Hne].
  - by rewrite list_lookup_alter_eq, Hi.
  - by rewrite list_lookup_alter_ne.
Qed.

Lemma tryAdjust_nodes t p fabric req group (inv : Cluster api) node res claims :
  length (c_nodes (ta_inv (tryAdjust inv node res t p fabric req group claims))) =
  length (c_nodes inv).
Proof.
  destruct (decide (ta_stat (tryAdjust inv node res t p fabric req group claims) = TAOk)) as [H|H].
  - apply tryAdjust_ok in H.
    destruct H as (? & ? & ? & ? & ? & ? & ? & ? & ? & ? & ? & ? & ? & ? & ? & ? & ? & H).
    cbv zeta in H. destruct_and! H.
    match goal with E : ta_inv _ = _ |- _ => rewrite E end. simpl. by rewrite length_insert.
  - by apply tryAdjust_refused in H as [-> _].
Qed.

Section Step.
Context (env : adj_env) (c0 : Cluster api) (st : adj_state api) (node i : nat).
Context (u unit : ResourceUnit) (adjusted : Resources).
Context (Hst : adj_ok env c0 st).
Context (Hu : e_orig env !! i = Some u) (Hadj : same_demand adjusted (ru_res u)).

#[local] Abbreviation r := (env_try env (a_inv st) (a_claims st) i node adjusted).
#[local] Abbreviation adjusted' shared :=
  (if shared : bool then alter (set_res (ta_res r)) i (a_adjusted st) else a_adjusted st).

Lemma adjusted_step (shared : bool) j v :
  e_orig env !! j = Some v ->
  exists w, adjusted' shared !! j = Some w /\ same_demand (ru_res w) (ru_res v).
Proof using Hst Hu Hadj.
  destruct shared; [|apply (ok_adjusted _ _ _ Hst)].
  eapply adjusted_update; eauto using ok_adjusted.
  etrans; [apply tryAdjust_same_demand|done].
Qed.

Lemma adj_ok_refused (shared : bool) cp :
  ta_stat r <> TAOk ->
  adj_ok env c0 (mkAdj (ta_inv r) (ta_claims r) (a_resources st) (adjusted' shared) cp).
Proof using Hst Hu Hadj.
  intros [Hi Hc]%tryAdjust_refused. unfold env_try in *. rewrite Hi, Hc.
  destruct Hst as [[pl [Hpl Hcnt]] Hlen Ha Hn].
  split; simpl; [by exists pl|done| |done]. apply adjusted_step.
Qed.

Lemma adj_ok_placed (shared : bool) cp k :
  a_resources st !! i = Some unit -> ru_count unit = S k -> ta_stat r = TAOk ->
  adj_ok env c0 (mkAdj (ta_inv r) (ta_claims r) (alter (set_count k) i (a_resources st))
                   (adjusted' shared) cp).
Proof using Hst Hu Hadj.
  intros Hi Hk Hok. destruct Hst as [[pl [Hpl Hcnt]] Hlen Ha Hn]. split; simpl.
  - exists (pl ++ [(i, node)]). split; [by econstructor|]. intros j v Hj.
    rewrite placed_snoc. unfold remaining at 1. simpl.
    rewrite (alter_count_remaining _ _ _ unit) by done. specialize (Hcnt j v Hj).
    destruct (decide (i = j)) as [->|]; [|lia].
    assert (remaining st j = S k) by (unfold remaining; by rewrite Hi). lia.
  - by rewrite length_alter.
  - apply adjusted_step.
  - unfold env_try. rewrite tryAdjust_nodes. done.
Qed.

End Step.

Lemma replica_loop_ok env c0 node i shared count adjusted st unit u :
  adj_ok env c0 st -> (node < length (c_nodes c0))%nat ->
  e_orig env !! i = Some u -> same_demand adjusted (ru_res u) ->
  a_resources st !! i = Some unit -> ru_count unit = count ->
  let '(st', ex) := replica_loop env node i shared count adjusted st in
  exit_ok env c0 (length (a_resources st)) st' ex /\
  (ex = FallThrough -> remaining st' i = 0%nat) /\ ex <> GotoNodes.
Proof.
  intros Hst Hnode Hu. revert adjusted st unit Hst.
  induction count as [|count IH]; intros adjusted st unit Hst Hadj Hi Hc; simpl.
  { split; [done|]. split; [|done]. intros _. unfold remaining. by rewrite Hi. }
  assert (a_resources st <> []) as Hne by (intros He; by rewrite He in Hi).
  set (r := tryAdjust _ _ _ _ _ _ _ _ _).
  assert (r = env_try env (a_inv st) (a_claims st) i node adjusted) as Hr by reflexivity.
  clearbody r. pose proof (adj_ok_refused env c0 st node i u adjusted Hst Hu Hadj shared) as Href.
  pose proof (adj_ok_placed env c0 st node i u unit adjusted Hst Hu Hadj shared) as Hok.
  assert (same_demand (ta_res r) (ru_res u)) as Hres.
  { rewrite Hr. etrans; [apply tryAdjust_same_demand|done]. }
  assert (units_wf (e_orig env) -> ta_stat r <> TAPanic) as Hnp.
  { intros Hwf. rewrite Hr. apply tryAdjust_no_panic.
    - eapply res_wf_same; [done|]. by eapply (Forall_lookup_1 _ _ _ _ Hwf).
    - by rewrite (ok_nodes _ _ _ Hst). }
  rewrite <- Hr in *. clear Hr.
  destruct (ta_stat r) eqn:Hstat.
  - assert (alter (set_count count) i (a_resources st) !! i = Some (set_count count unit)) as Hi'
      by (by rewrite list_lookup_alter_eq, Hi).
    assert (length (alter (set_count count) i (a_resources st)) = length (a_resources st)) as Hl
      by apply length_alter.
    destruct shared.
    + eapply (IH (ta_res r)) in Hres; [|by apply Hok|exact Hi'|done].
      cbn [a_resources a_inv a_claims a_adjusted a_cparams] in *. rewrite Hl in Hres. exact Hres.
    + cbn [a_resources a_inv a_claims a_adjusted a_cparams] in *.
      destruct (decide _); [destruct (decide _)|]; try (by split_and!).
      eapply (IH (ta_res r)) in Hres; [|by apply Hok|exact Hi'|done].
      cbn [a_resources a_inv a_claims a_adjusted a_cparams] in *. rewrite Hl in Hres. exact Hres.
  - split_and!; [|done|done]. split; [by apply Href|done].
  - split_and!; try done.
  - split_and!; [|done|done]. split; [done|]. intros Hwf. by destruct (Hnp Hwf).
Qed.

Lemma remove_last {A} (l : list A) n : length l = S n -> remove_at n l = take n l.
Proof. intros Hl. unfold remove_at. rewrite drop_ge by lia. by rewrite app_nil_r. Qed.

(** The last unit is always the one worked on: when it is done it is removed,
    so the units left stay aligned with the units of the order. *)
Lemma unit_loop_ok env c0 node st :
  adj_ok env c0 st -> (node < length (c_nodes c0))%nat ->
  let '(st', ex) := unit_loop env node (length (a_resources st)) st in
  exit_ok env c0 (length (a_resources st)) st' ex.
Proof.
  intros Hst Hnode. destruct (length (a_resources st)) as [|i] eqn:Hl; [done|]. simpl.
  destruct (lookup_lt_is_Some_2 (a_resources st) i) as [unit Hi]; [lia|].
  destruct (lookup_lt_is_Some_2 (e_orig env) i) as [u Hu].
  { pose proof (ok_len _ _ _ Hst). lia. }
  destruct (ok_adjusted _ _ _ Hst i u Hu) as (v & Hv & Hs). rewrite Hu, Hi, Hv.
  pose proof (replica_loop_ok env c0 node i (ru_count u =? ru_count unit)%nat (ru_count unit)
    (ru_res v) st unit u Hst Hnode Hu Hs Hi eq_refl) as Hloop.
  destruct (replica_loop _ _ _ _ _ _ _) as [st' ex]. rewrite Hl in Hloop.
  destruct Hloop as (Hex & Hzero & Hgoto). destruct ex; try done.
  specialize (Hzero eq_refl). destruct Hex as [Hok Hlen].
  destruct (lookup_lt_is_Some_2 (a_resources st') i) as [w Hw]; [lia|].
  unfold remaining in Hzero. rewrite Hw in *. simpl. rewrite Hzero, decide_True by done.
  simpl. rewrite remove_last, length_take by done. split; [|lia].
  destruct Hok as [[pl [Hpl Hcnt]] Hlen' Ha Hn]. split; simpl; [|rewrite length_take; lia|done|done].
  exists pl. split; [done|]. intros j x Hj. rewrite <- (Hcnt j x Hj). f_equal.
  unfold remaining; simpl. destruct (decide (j < i)%nat).
  - by rewrite lookup_take_lt by lia.
  - rewrite lookup_take_ge by lia. destruct (decide (j = i)) as [->|]; [by rewrite Hw|].
    by rewrite lookup_ge_None_2 by lia.
Qed.

Lemma node_loop_ok env c0 nodes st :
  adj_ok env c0 st -> (forall n, n ∈ nodes -> n < length (c_nodes c0))%nat ->
  let '(st', ex) := node_loop env nodes st in
  exit_ok env c0 (length (a_resources st)) st' ex /\ ex <> ContinueNodes.
Proof.
  revert st. induction nodes as [|node nodes IH]; intros st Hst Hn; simpl; [done|].
  pose proof (unit_loop_ok env c0 node st Hst (Hn node (list_elem_of_here _ _))) as Hu.
  destruct (unit_loop _ _ _ _) as [st' ex]. destruct ex; try done.
  all: destruct Hu as [Hok <-]; apply IH; [done|]; intros m Hm; apply Hn; by right.
Qed.

(** Every restart removed a unit: the fuel is enough, and the loop ends with
    the invariant unless it gave up with a unit left. *)
Lemma nodes_loop_ok env c0 fuel st :
  adj_ok env c0 st -> (length (a_resources st) < fuel)%nat ->
  exists st' e, nodes_loop env fuel st = Some (st', e) /\
    (a_resources st' = [] -> adj_ok env c0 st') /\
    (units_wf (e_orig env) -> e <> Some PanicNilDeref).
Proof.
  revert st. induction fuel as [|fuel IH]; intros st Hst Hf; [lia|]. simpl.
  pose proof (node_loop_ok env c0 (seq 0 (length (c_nodes (a_inv st)))) st Hst) as Hn.
  destruct (node_loop _ _ _) as [st' ex].
  destruct Hn as [Hex Hne].
  { intros n [? ?]%elem_of_seq. rewrite <- (ok_nodes _ _ _ Hst). lia. }
  destruct ex; simpl in Hex; try done.
  - exists st', None. by destruct Hex.
  - exists st', err. split_and!; [done|intros He; by destruct Hex|by destruct Hex].
  - apply IH; [tauto|lia].
Qed.

Lemma adjust_init_ok inv res cfg rg :
  adj_ok (adjust_env res cfg rg) (sanitized inv) (adjust_init inv res).
Proof.
  split; simpl; [|done| |done].
  - exists []. split; [constructor|]. intros i u Hu. unfold remaining; simpl. by rewrite Hu.
  - intros i u Hu. exists u. split; [done|reflexivity].
Qed.

(** ** What a reservation promises *)

(** The first storage class of that name: the one [charge_class] charges. *)
Definition class_avail (classes : list (ClusterStorage api)) (class : string) : option Z :=
  (fun p => q_value (Available (cs_quantity p.2)))
    <$> find_index (fun cs => String.eqb (cs_class cs) class) classes.

Definition class_charged (before after : list (ClusterStorage api)) (d : string -> Z) : Prop :=
  forall class a, class_avail before class = Some a ->
    exists a', class_avail after class = Some a' /\ charged1 a (d class) a'.

Definition vol_in (class : string) (v : Storage) : bool :=
  match ParseStorageAttributes (s_attrs v) with
  | Ok a => Persistent a && String.eqb (Class' a) class
  | Err _ => false
  end.

(** What one replica takes from a storage class of the cluster. *)
Definition class_demand (vs : list Storage) (class : string) : Z :=
  foldr (fun v acc => (if vol_in class v then s_quantity v else 0) + acc)%Z 0%Z vs.

Lemma class_avail_cons cs rest class :
  class_avail (cs :: rest) class =
  if String.eqb (cs_class cs) class then Some (q_value (Available (cs_quantity cs)))
  else class_avail rest class.
Proof.
  unfold class_avail; simpl. destruct (String.eqb (cs_class cs) class); [done|].
  by destruct (find_index _ rest) as [[]|].
Qed.

Lemma class_charged_id classes : class_charged classes classes (fun _ => 0%Z).
Proof. intros class a Ha. exists a. split; [done|]. unfold charged1. lia. Qed.

Lemma class_charged_trans b m a d1 d2 :
  class_charged b m d1 -> class_charged m a d2 -> class_charged b a (fun c => d1 c + d2 c)%Z.
Proof.
  intros H1 H2 class x Hx. destruct (H1 class x Hx) as (y & Hy & Hc).
  destruct (H2 class y Hy) as (z & Hz & Hc'). exists z. split; [done|].
  by eapply charged1_trans.
Qed.

(** What the unit of a placement's entry asks for. *)
Definition unit_res (env : adj_env) (i : nat) : Resources :=
  default (mkResources 0 None None [] None []) (ru_res <$> e_orig env !! i).

Definition entry_demand (env : adj_env) (node : nat) (p : nat * nat) : Amounts :=
  if decide (p.2 = node)
  then demand (opt_TEEType (e_opts env)) (opt_TEEPlatform (e_opts env)) (env_requires env p.1)
         (unit_res env p.1)
  else am_zero.

Definition node_demand (env : adj_env) (pl : list (nat * nat)) (node : nat) : Amounts :=
  foldl (fun acc p => am_add acc (entry_demand env node p)) am_zero pl.

Definition storage_demand (env : adj_env) (pl : list (nat * nat)) (class : string) : Z :=
  foldl (fun acc p => acc + class_demand (r_storage (unit_res env p.1)) class)%Z 0%Z pl.

(** An assignment [pl] of replicas to nodes that takes cluster [c0] to [c]:
    every replica of every unit has a node, each node is charged the demands of
    the replicas it got and stays out of debt, each storage class is charged
    the persistent volumes, a replica that needs an interconnect is on a node
    with a suitable one, and peers of a group are on distinct nodes. *)
Record fits (env : adj_env) (c0 c : Cluster api) (pl : list (nat * nat)) : Prop := {
  fit_nodes : length (c_nodes c) = length (c_nodes c0);
  fit_charged : forall node nd, c_nodes c0 !! node = Some nd ->
    exists nd', c_nodes c !! node = Some nd' /\ nd_name nd' = nd_name nd /\
      nd_caps nd' = nd_caps nd /\ charged (node_avail nd) (node_demand env pl node) (node_avail nd');
  fit_storage : class_charged (c_storage c0) (c_storage c) (storage_demand env pl);
  fit_suitable : forall i node, (i, node) ∈ pl ->
    is_Some (e_orig env !! i) /\
    exists nd, c_nodes c0 !! node = Some nd /\
      (env_requires env i = true -> interconnectCapsSuitable (nd_caps nd) (e_fabric env) = true);
  fit_peers : forall a b i1 n1 i2 n2, pl !! a = Some (i1, n1) -> pl !! b = Some (i2, n2) ->
    a <> b -> env_group env i1 = env_group env i2 -> env_group env i1 <> ""%string -> n1 <> n2
}.

Definition complete (us : list ResourceUnit) (pl : list (nat * nat)) : Prop :=
  forall i u, us !! i = Some u -> placed pl i = ru_count u.

Section FitLaws.
Context {laws : InventoryLaws api}.

Lemma charge_class_charged classes class v classes' :
  charge_class classes class v = Some (Some classes') ->
  class_charged classes classes' (fun c => if String.eqb class c then v else 0%Z).
Proof.
  revert classes'. induction classes as [|cs rest IH]; intros classes'; simpl; [done|].
  destruct (String.eqb_spec (cs_class cs) class) as [Hc|Hne].
  - destruct (SubNLZ _ _) as [q|] eqn:Hq; [|done]. intros [= <-] c a.
    rewrite !class_avail_cons. simpl. rewrite Hc.
    destruct (String.eqb class c) eqn:E.
    + intros [= <-]. eexists. split; [done|]. by apply sub_charged.
    + intros Ha. exists a. split; [done|]. apply charged1_id.
  - destruct (charge_class rest class v) as [[rest'|]|]; try done. intros [= <-] c a.
    rewrite !class_avail_cons. destruct (String.eqb_spec (cs_class cs) c) as [<-|]; [|by apply IH].
    intros [= <-]. eexists. split; [done|].
    destruct (String.eqb_spec class (cs_class cs)); [congruence|]. apply charged1_id.
Qed.

Lemma adjust_storage_classes caps vols mem eph classes mem' eph' classes' :
  adjust_storage caps vols mem eph classes = Ok (mem', eph', classes') ->
  class_charged classes classes' (class_demand vols).
Proof.
  revert mem eph classes. induction vols as [|v vols IH]; intros mem eph classes; simpl.
  { intros [= _ _ <-]. apply class_charged_id. }
  destruct (ParseStorageAttributes (s_attrs v)) as [a|e] eqn:Hp; [|done].
  assert (Persistent a = false -> class_charged classes classes' (class_demand vols) ->
          class_charged classes classes' (class_demand (v :: vols))) as Hskip.
  { intros Ha H c x Hx. destruct (H c x Hx) as (y & Hy & Hc). exists y. split; [done|].
    unfold class_demand; simpl. unfold vol_in. rewrite Hp, Ha. simpl. by rewrite Z.add_0_l. }
  destruct (Persistent a) eqn:Ha; simpl.
  - destruct (negb _); [done|].
    destruct (charge_class _ _ _) as [[cl|]|] eqn:Hcc; try done. intros H%IH.
    apply charge_class_charged in Hcc. intros c x Hx.
    destruct (class_charged_trans _ _ _ _ _ Hcc H c x Hx) as (y & Hy & Hc). exists y.
    split; [done|]. unfold class_demand; simpl. unfold vol_in. by rewrite Hp, Ha.
  - repeat (case_match; try done); intros Hrest; eapply Hskip, IH; eauto.
Qed.

(** One more replica keeps an assignment an assignment. *)
Lemma charged_nodes_snoc env (c0 c c' : Cluster api) pl i node d nd nd' :
  (forall j x, c_nodes c0 !! j = Some x ->
    exists y, c_nodes c !! j = Some y /\ nd_name y = nd_name x /\
      nd_caps y = nd_caps x /\ charged (node_avail x) (node_demand env pl j) (node_avail y)) ->
  c_nodes c !! node = Some nd -> c_nodes c' !! node = Some nd' ->
  nd_name nd' = nd_name nd -> nd_caps nd' = nd_caps nd ->
  charged (node_avail nd) d (node_avail nd') -> d = entry_demand env node (i, node) ->
  (forall j, j <> node -> c_nodes c' !! j = c_nodes c !! j) ->
  forall j x, c_nodes c0 !! j = Some x ->
    exists y, c_nodes c' !! j = Some y /\ nd_name y = nd_name x /\
      nd_caps y = nd_caps x /\
      charged (node_avail x) (node_demand env (pl ++ [(i, node)]) j) (node_avail y).
Proof.
  intros Hc Hnd Hnd' Hname Hcaps Hch Hd Hother j x Hx.
  destruct (Hc j x Hx) as (y & Hy & Hn & Hcap & Hchg).
  unfold node_demand. rewrite foldl_app. simpl. fold (node_demand env pl j).
  destruct (decide (j = node)) as [->|Hne].
  - simplify_eq. exists nd'. split_and!; [done|congruence|congruence|].
    by eapply charged_trans.
  - exists y. rewrite Hother by done. split_and!; [done|done|done|].
    eapply charged_trans; [done|]. unfold entry_demand. simpl.
    rewrite decide_False by done. apply charged_zero.
Qed.

(** A claim table records exactly the nodes of the placed peers. *)
Lemma placement_claims env (c0 c : Cluster api) pl k i node :
  placement env c0 pl c k -> (i, node) ∈ pl -> env_group env i <> ""%string ->
  claimed k (env_group env i) node = true.
Proof.
  intros Hpl. induction Hpl as [|pl c k j n u res Hpl IH Hu Hs Hok]; intros Hin Hg.
  { by apply not_elem_of_nil in Hin. }
  destruct (tryAdjust_claims _ _ _ _ _ _ _ _ _ Hok) as [_ Hk]. unfold env_try at 1. rewrite Hk.
  unfold claimed. rewrite bool_decide_eq_true. apply elem_of_app in Hin as [Hin|Hin].
  - specialize (IH Hin Hg). unfold claimed in IH. rewrite bool_decide_eq_true in IH.
    destruct (String.eqb _ _); [done|].
    destruct (decide (env_group env j = env_group env i)) as [->|Hne].
    + rewrite lookup_insert_eq. simpl. set_solver.
    + by rewrite lookup_insert_ne.
  - apply list_elem_of_singleton in Hin. simplify_eq.
    destruct (String.eqb_spec (env_group env j) ""); [done|].
    rewrite lookup_insert_eq. simpl. set_solver.
Qed.

Lemma lookup_snoc_inv {A} (l : list A) x a y :
  (l ++ [x]) !! a = Some y -> l !! a = Some y \/ (a = length l /\ y = x).
Proof.
  intros [H|[Hge H]]%lookup_app_Some; [by left|]. right.
  apply list_lookup_singleton_Some in H as [H ->]. split; [lia|done].
Qed.

Lemma placement_peers env (c0 c : Cluster api) pl k :
  placement env c0 pl c k ->
  forall a b i1 n1 i2 n2, pl !! a = Some (i1, n1) -> pl !! b = Some (i2, n2) ->
    a <> b -> env_group env i1 = env_group env i2 -> env_group env i1 <> ""%string -> n1 <> n2.
Proof.
  intros Hpl. induction Hpl as [|pl c k j n u res Hpl IH Hu Hs Hok]; [done|].
  destruct (tryAdjust_claims _ _ _ _ _ _ _ _ _ Hok) as [Hfree _].
  intros a b i1 n1 i2 n2 Ha Hb Hab Hg Hne ->.
  apply lookup_snoc_inv in Ha as [Ha|[-> ?]]; apply lookup_snoc_inv in Hb as [Hb|[-> ?]];
    simplify_eq.
  - exact (IH a b i1 n2 i2 n2 Ha Hb Hab Hg Hne eq_refl).
  - apply list_elem_of_lookup_2 in Ha. apply (placement_claims _ _ _ _ _ _ _ Hpl) in Ha; [|done].
    rewrite Hg in *. rewrite Hfree in Ha by done. done.
  - apply list_elem_of_lookup_2 in Hb.
    apply (placement_claims _ _ _ _ _ _ _ Hpl) in Hb; [|congruence].
    rewrite <- Hg in *. rewrite Hfree in Hb by done. done.
Qed.

Lemma placement_fits env (c0 c : Cluster api) pl k :
  placement env c0 pl c k -> fits env c0 c pl.
Proof.
  intros Hall. pose proof (placement_peers _ _ _ _ _ Hall) as Hpeers.
  induction Hall as [|pl c k i node u res Hpl IH Hu Hs Hok].
  { split; [done| |apply class_charged_id| |done].
    - intros node nd Hnd. exists nd. split_and!; try done. apply charged_zero.
    - no_elem. }
  destruct IH as [Hlen Hchg Hsto Hsuit _]; [by eapply placement_peers|].
  assert (unit_res env i = ru_res u) as Hur by (unfold unit_res; by rewrite Hu).
  pose proof (tryAdjust_charges _ _ _ _ _ _ _ _ _ Hok) as (nd & nd' & Hnd & Hnd' & Hc & Hother).
  pose proof (tryAdjust_ok _ _ _ _ _ _ _ _ _ Hok) as
    (nd0 & ? & ? & ? & ? & ? & ? & ? & ? & ? & ? & ? & ? & classes & ? & ? & ? & Hall').
  cbv zeta in Hall'. destruct Hall' as (Hnd0 & _ & _ & _ & Hcaps & _ & _ & _ & _ & Hst & _ & Hinv & _).
  simplify_eq. fold (env_try env c k i node res) in Hinv, Hnd', Hother. rewrite Hinv in Hnd'.
  simpl in Hnd'. rewrite list_lookup_insert_eq in Hnd' by (by eapply lookup_lt_Some).
  assert (c_nodes (ta_inv (env_try env c k i node res)) !! node = Some nd') as Hnd''.
  { rewrite Hinv; simpl. rewrite list_lookup_insert_eq by (by eapply lookup_lt_Some). done. }
  split.
  - unfold env_try. rewrite tryAdjust_nodes. done.
  - eapply (charged_nodes_snoc env c0 c); try done; [by simplify_eq|by simplify_eq|].
    unfold entry_demand; simpl. rewrite decide_True by done. rewrite Hur. by apply demand_same.
  - rewrite Hinv. simpl. apply adjust_storage_classes in Hst.
    intros class a Ha. destruct (class_charged_trans _ _ _ _ _ Hsto Hst class a Ha) as (y & Hy & Hz).
    exists y. split; [done|]. unfold storage_demand. rewrite foldl_app. simpl. rewrite Hur.
    apply same_demand_fields in Hs as (_ & _ & _ & Hs & _). by rewrite <- Hs.
  - intros j n Hin. apply elem_of_app in Hin as [Hin|Hin]; [by apply Hsuit|].
    apply list_elem_of_singleton in Hin. simplify_eq. split; [by eauto|].
    assert (is_Some (c_nodes c0 !! node)) as [nd0' Hnd0'].
    { apply lookup_lt_is_Some. rewrite <- Hlen. by eapply lookup_lt_Some. }
    exists nd0'. split; [done|]. destruct (Hchg node nd0' Hnd0') as (y & Hy & _ & Hcap & _).
    simplify_eq. by rewrite <- Hcap.
  - exact Hpeers.
Qed.

End FitLaws.

Lemma Adjust_runs (inv : inventory api) (res : ReservationGroup) (cfg : InventoryOptions) rg :
  interconnect_groups (GetResourceUnits (rg_resources res)) = Ok rg ->
  exists st e,
    (a_resources st = [] -> adj_ok (adjust_env res cfg rg) (sanitized inv) st) /\
    (units_wf (GetResourceUnits (rg_resources res)) -> e <> Some PanicNilDeref) /\
    Adjust inv res cfg = Some
      match a_resources st with
      | [] => (if DryRun cfg then inv else mkInventory (raw inv) (a_inv st),
               mkReservationGroup (rg_resources res) (a_adjusted st) (a_cparams st), None)
      | _ => (inv, res, Some (default ErrInsufficientCapacity e))
      end.
Proof.
  intros Hrg.
  destruct (nodes_loop_ok (adjust_env res cfg rg) (sanitized inv)
    (S (length (GetResourceUnits (rg_resources res)))) (adjust_init inv res))
    as (st & e & Hl & Hok & Hp); [apply adjust_init_ok|simpl; lia|].
  exists st, e. split_and!; [done|done|]. unfold Adjust. rewrite Hrg, Hl.
  by destruct (a_resources st).
Qed.

Lemma Adjust_returns (inv : inventory api) (res : ReservationGroup) (cfg : InventoryOptions) :
  exists inv' res' err, Adjust inv res cfg = Some (inv', res', err).
Proof.
  destruct (interconnect_groups (GetResourceUnits (rg_resources res))) as [rg|e] eqn:Hrg.
  - destruct (Adjust_runs inv res cfg rg Hrg) as (st & e & _ & _ & ->).
    destruct (a_resources st); eauto.
  - unfold Adjust. rewrite Hrg. eauto.
Qed.

End Proofs.

(** ** Properties *)

(** C39: [Adjust] always returns: every [goto nodes] has removed a resource
    unit, so the labelled loop runs at most once per unit and once more. *)
Theorem Adjust_total {api : InventoryAPI} (inv : inventory api) (res : ReservationGroup)
    (cfg : InventoryOptions) :
  exists inv' res' err, Adjust inv res cfg = Some (inv', res', err).
Proof. apply Adjust_returns. Qed.

(** The assignment a successful [Adjust] found. *)
Lemma Adjust_assigns {api : InventoryAPI} {laws : InventoryLaws api}
    (inv inv' : inventory api) (res res' : ReservationGroup) (cfg : InventoryOptions) :
  Adjust inv res cfg = Some (inv', res', None) ->
  exists rg pl c,
    interconnect_groups (GetResourceUnits (rg_resources res)) = Ok rg /\
    complete (GetResourceUnits (rg_resources res)) pl /\
    fits (adjust_env res cfg rg) (sanitized inv) c pl /\
    inv' = (if DryRun cfg then inv else mkInventory (raw inv) c) /\
    rg_resources res' = rg_resources res /\
    forall i u, GetResourceUnits (rg_resources res) !! i = Some u ->
      exists v, rg_allocated res' !! i = Some v /\ same_demand (ru_res v) (ru_res u).
Proof.
  intros HA. destruct (interconnect_groups _) as [rg|e] eqn:Hrg.
  2:{ unfold Adjust in HA. rewrite Hrg in HA. done. }
  destruct (Adjust_runs inv res cfg rg Hrg) as (st & e & Hok & _ & HA').
  rewrite HA in HA'. destruct (a_resources st) eqn:Hres; [|by simplify_eq].
  specialize (Hok eq_refl). destruct (ok_placement _ _ _ Hok) as (pl & Hpl & Hcnt).
  exists rg, pl, (a_inv st). simplify_eq. split_and!; try done.
  - intros i u Hu. rewrite <- (Hcnt i u Hu). unfold remaining. rewrite Hres. simpl. lia.
  - by eapply placement_fits.
  - simpl. intros i u Hu. by apply (ok_adjusted _ _ _ Hok).
Qed.

(** C1: when [Adjust] succeeds there is an assignment of every replica of
    every unit of the group to a node under which each node is charged exactly
    the demand of the replicas it received (sidecars included) without going
    into debt, each storage class the persistent volumes, replicas that need an
    interconnect are on suitable nodes and peers of an interconnect group on
    distinct nodes; the allocated resources differ from the ordered ones in GPU
    attributes only, and the inventory keeps the result unless it was a dry
    run. *)
Theorem Adjust_refines_fits {api : InventoryAPI} {laws : InventoryLaws api}
    (inv inv' : inventory api) (res res' : ReservationGroup) (cfg : InventoryOptions) :
  Adjust inv res cfg = Some (inv', res', None) ->
  exists rg pl c,
    interconnect_groups (GetResourceUnits (rg_resources res)) = Ok rg /\
    complete (GetResourceUnits (rg_resources res)) pl /\
    fits (adjust_env res cfg rg) (sanitized inv) c pl /\
    inv' = (if DryRun cfg then inv else mkInventory (raw inv) c) /\
    rg_resources res' = rg_resources res /\
    forall i u, GetResourceUnits (rg_resources res) !! i = Some u ->
      exists v, rg_allocated res' !! i = Some v /\ same_demand (ru_res v) (ru_res u).
Proof. apply Adjust_assigns. Qed.

(** A reservation that is refused leaves the inventory and the
    reservation as they were, and a dry run leaves the inventory as it was
    whatever it answers. *)
Theorem Adjust_frame {api : InventoryAPI} (inv inv' : inventory api) (res res' : ReservationGroup)
    (cfg : InventoryOptions) (err : option AdjustErr) :
  Adjust inv res cfg = Some (inv', res', err) ->
  (is_Some err -> inv' = inv /\ res' = res) /\ (DryRun cfg = true -> inv' = inv) /\
  raw inv' = raw inv.
Proof.
  unfold Adjust. destruct (interconnect_groups _) as [rg|e].
  - destruct (nodes_loop _ _ _) as [[st e]|]; [|done].
    destruct (a_resources st); intros [= <- <- <-].
    + split_and!; [by intros []|by intros ->|by destruct (DryRun cfg)].
    + done.
  - by intros [= <- <- <-].
Qed.

(** [Adjust] never dereferences a nil CPU, GPU or memory when the group's
    units have all three, and then refuses only for lack of capacity, for a
    mismatch of a group's resources or for a malformed group label. *)
Theorem Adjust_no_panic {api : InventoryAPI} (inv inv' : inventory api)
    (res res' : ReservationGroup) (cfg : InventoryOptions) (err : option AdjustErr) :
  units_wf (GetResourceUnits (rg_resources res)) ->
  Adjust inv res cfg = Some (inv', res', err) -> err <> Some PanicNilDeref.
Proof.
  intros Hwf HA.
  destruct (interconnect_groups (GetResourceUnits (rg_resources res))) as [rg|e] eqn:Hrg.
  - destruct (Adjust_runs inv res cfg rg Hrg) as (st & e & _ & Hp & HA').
    rewrite HA in HA'. destruct (a_resources st); simplify_eq; [done|].
    intros [= He]. destruct e as [e|]; simplify_eq/=. by apply Hp.
  - unfold Adjust in HA. rewrite Hrg in HA. simplify_eq.
    clear -Hrg. revert e Hrg. induction (GetResourceUnits _) as [|u us IH]; simpl; [done|].
    intros e. repeat (case_match; try done); intros ?; simplify_eq; eauto.
Qed.

(** *** Sanitising *)

Definition quantity_ok {api : InventoryAPI} (q : option Quantity) : Prop :=
  forall z, q = Some z -> (0 <= q_value z)%Z /\ (0 <= q_milli z)%Z.

Definition pair_ok {api : InventoryAPI} (p : ResourcePair api) : Prop :=
  quantity_ok (rp_capacity p) /\ quantity_ok (rp_allocatable p) /\ quantity_ok (rp_allocated p).

Lemma sanitizeQuantity_ok {api : InventoryAPI} {laws : InventoryLaws api} q :
  quantity_ok (sanitizeQuantity q) /\ sanitizeQuantity (sanitizeQuantity q) = sanitizeQuantity q /\
  (quantity_ok q -> is_Some q -> is_Some (sanitizeQuantity q)).
Proof.
  destruct q as [q|]; simpl; [|by split_and!].
  destruct (q_negative q) eqn:Hn; simpl.
  - rewrite set_not_negative. split_and!; [|done|by eauto].
    intros z [= <-]. apply not_negative, set_not_negative.
  - rewrite Hn. split_and!; [|done|by eauto]. intros z [= <-]. by apply not_negative.
Qed.

Lemma sanitizeResourcePair_ok {api : InventoryAPI} {laws : InventoryLaws api} p :
  pair_ok (sanitizeResourcePair p) /\
  sanitizeResourcePair (sanitizeResourcePair p) = sanitizeResourcePair p.
Proof.
  unfold pair_ok, sanitizeResourcePair; simpl. split.
  - split_and!; apply sanitizeQuantity_ok.
  - f_equal; apply sanitizeQuantity_ok.
Qed.

Definition node_ok {api : InventoryAPI} (nd : Node api) : Prop :=
  let r := nd_resources nd in
  Forall pair_ok [n_cpu r; n_memory r; n_gpu r; n_ephemeral r; n_volumes_attached r;
                  n_volumes_mounted r; n_interconnect r].

(** The copy of the cluster reservations are charged against holds no
    negative quantity, keeps the nodes and storage classes of the raw one in
    order, and sanitising it again changes nothing. *)
Theorem newInventory_sanitized {api : InventoryAPI} {laws : InventoryLaws api} (c : Cluster api) :
  let s := Snapshot (newInventory c) in
  Forall node_ok (c_nodes s) /\ Forall (fun cs => pair_ok (cs_quantity cs)) (c_storage s) /\
  map nd_name (c_nodes s) = map nd_name (c_nodes c) /\
  map cs_class (c_storage s) = map cs_class (c_storage c) /\
  Snapshot (newInventory s) = s.
Proof.
  unfold Snapshot; simpl. split_and!.
  - apply Forall_map, Forall_true. intros nd. unfold node_ok; simpl.
    repeat first [apply List.Forall_nil|apply List.Forall_cons; [by apply sanitizeResourcePair_ok|]].
  - apply Forall_map, Forall_true. intros cs. by apply sanitizeResourcePair_ok.
  - rewrite map_map. by apply map_ext.
  - rewrite map_map. by apply map_ext.
  - unfold sanitizeCluster; simpl. rewrite !map_map. f_equal; apply map_ext; intros x; simpl.
    + unfold sanitizeNodeResources; simpl.
      by rewrite !(proj2 (sanitizeResourcePair_ok _)).
    + by rewrite (proj2 (sanitizeResourcePair_ok _)).
Qed.

(** *** Examples *)

Module Examples.

Definition a100 : GPUInfo := mkGPUInfo "nvidia" "10de" "a100" "20b2" "80Gi" "sxm4".
Definition h100 : GPUInfo := mkGPUInfo "nvidia" "10de" "h100" "2330" "80Gi" "sxm5".

Definition group_of (us : list ResourceUnit) : ReservationGroup :=
  mkReservationGroup (RGGroupSpec (mkGroupSpec "g" [] us)) [] ∅.

Definition no_opts : InventoryOptions := mkInventoryOptions false TEETypeNone TEEPlatformNone.

(** Two nodes of two cores; three replicas of one core. *)
Definition small : inventory milli_api :=
  newInventory (mkCluster [node_of "n0" 2 1000 [] 100 0 no_caps; node_of "n1" 2 1000 [] 100 0 no_caps] []).

Definition three : ReservationGroup := group_of [mkResourceUnit (resources_of 1 1000 100 0 []) 3].

Definition adjust_out (r : option (inventory milli_api * ReservationGroup * option AdjustErr)) :
    inventory milli_api * ReservationGroup * option AdjustErr :=
  default (small, three, None) r.

Lemma adjust_run inv res cfg e :
  (adjust_out (Adjust inv res cfg)).2 = e ->
  Adjust inv res cfg = Some ((adjust_out (Adjust inv res cfg)).1.1, (adjust_out (Adjust inv res cfg)).1.2, e).
Proof.
  destruct (Adjust_returns inv res cfg) as (inv' & res' & err & H). rewrite H. by intros <-.
Qed.

Lemma three_run :
  Adjust small three no_opts =
  Some ((adjust_out (Adjust small three no_opts)).1.1,
        (adjust_out (Adjust small three no_opts)).1.2, None).
Proof. apply adjust_run. vm_compute. reflexivity. Qed.

Definition five : ReservationGroup := group_of [mkResourceUnit (resources_of 1 1000 100 0 []) 5].

Lemma five_run :
  Adjust small five no_opts =
  Some ((adjust_out (Adjust small five no_opts)).1.1,
        (adjust_out (Adjust small five no_opts)).1.2, Some ErrInsufficientCapacity).
Proof. apply adjust_run. vm_compute. reflexivity. Qed.

(** A node short of memory in front of one that has room. *)
Definition starved : Node milli_api := node_of "n0" 8 10 [a100] 100 0 no_caps.
Definition roomy : Node milli_api := node_of "n1" 8 1000 [h100] 100 0 no_caps.

Definition any_nvidia : Attributes := [mkAttribute "vendor/nvidia/model/*" "true"].
Definition one_gpu : ReservationGroup :=
  group_of [mkResourceUnit (resources_of 1 1000 100 1 any_nvidia) 1].

End Examples.

Lemma Adjust_refines_fits_witness :
  exists rg pl c,
    complete (GetResourceUnits (rg_resources Examples.three)) pl /\
    fits (adjust_env Examples.three Examples.no_opts rg) (sanitized Examples.small) c pl.
Proof.
  destruct (Adjust_refines_fits Examples.small _ Examples.three _ Examples.no_opts
    Examples.three_run) as (rg & pl & c & _ & H2 & H3 & _).
  exists rg, pl, c. split; [exact H2|exact H3].
Defined.

Lemma Adjust_frame_witness :
  (Examples.adjust_out (Adjust Examples.small Examples.five Examples.no_opts)).1.1 = Examples.small.
Proof.
  exact (proj1 (proj1 (Adjust_frame Examples.small _ Examples.five _
    Examples.no_opts (Some ErrInsufficientCapacity) Examples.five_run) (ex_intro _ _ eq_refl))).
Defined.

Lemma Adjust_no_panic_witness :
  units_wf (GetResourceUnits (rg_resources Examples.five)) /\
  Some ErrInsufficientCapacity <> Some PanicNilDeref.
Proof.
  assert (units_wf (GetResourceUnits (rg_resources Examples.five))) as Hwf
    by (repeat constructor; eauto).
  split; [exact Hwf|].
  exact (Adjust_no_panic Examples.small _ Examples.five _
    Examples.no_opts (Some ErrInsufficientCapacity) Hwf Examples.five_run).
Defined.

(** A request for any GPU of a vendor is refused although a node of the
    cluster can take it: the GPU model found on an earlier node that then turned
    out to be short of memory stays pinned in the request. Without the earlier
    node the same request is placed. *)
Theorem Adjust_pins_refused_gpu :
  (Examples.adjust_out (Adjust (newInventory (mkCluster [Examples.starved; Examples.roomy] []))
     Examples.one_gpu Examples.no_opts)).2 = Some ErrInsufficientCapacity /\
  (Examples.adjust_out (Adjust (newInventory (mkCluster [Examples.roomy] []))
     Examples.one_gpu Examples.no_opts)).2 = None.
Proof. split; vm_compute; reflexivity. Qed.
