(* ===== verification/InvMetrics.v ===== *)
(** * Metrics of the inventory

    Model of [Metrics] of [cluster/kube/operators/clients/inventory/inventory.go] and of
    [cluster/types/v1beta3/clients/inventory/inventory.go]: what each node has and has left,
    and the totals over the cluster, in unsigned integers of 64 bits. The second does on its
    cluster what the first does on its sanitised copy. The theorem says that a reservation
    takes exactly its demand off what is available, of the nodes and of each storage class,
    and leaves the allocatable totals as they are. *)

From stdpp Require Import base gmap list strings tactics.
From Stdlib Require Import ZArith Lia Ascii.
From S2P Require Import Prelude Types Concrete Attrs KubeInventory InventoryProofs.

Record ResourcesMetric := mkResourcesMetric { rm_cpu : Z; rm_gpu : Z; rm_memory : Z; rm_ephemeral : Z }.

Record NodeMetrics := mkNodeMetrics {
  nm_name : string; nm_allocatable : ResourcesMetric; nm_available : ResourcesMetric
}.

Record MetricTotal := mkMetricTotal { mt_resources : ResourcesMetric; mt_storage : gmap string Z }.

Record Metrics_t := mkMetrics {
  me_nodes : list NodeMetrics; me_allocatable : MetricTotal; me_available : MetricTotal
}.

Section Metrics.
Context {api : InventoryAPI}.

(** The allocatable quantities are read through pointers: a nil one panics. *)
Definition node_allocatable (r : NodeResources api) : option ResourcesMetric :=
  cpu ← rp_allocatable (n_cpu r); gpu ← rp_allocatable (n_gpu r); mem ← rp_allocatable (n_memory r);
  eph ← rp_allocatable (n_ephemeral r);
  Some (mkResourcesMetric (wrap64 (q_milli cpu)) (wrap64 (q_value gpu)) (wrap64 (q_value mem)) (wrap64 (q_value eph))).

Definition node_available (r : NodeResources api) : ResourcesMetric :=
  mkResourcesMetric (wrap64 (q_milli (Available (n_cpu r)))) (wrap64 (q_value (Available (n_gpu r))))
    (wrap64 (q_value (Available (n_memory r)))) (wrap64 (q_value (Available (n_ephemeral r)))).

Definition node_metrics (nd : Node api) : option NodeMetrics :=
  allocatable ← node_allocatable (nd_resources nd);
  Some (mkNodeMetrics (nd_name nd) allocatable (node_available (nd_resources nd))).

(** [+=] on [uint64]. *)
Definition rm_add (a b : ResourcesMetric) : ResourcesMetric :=
  mkResourcesMetric (wrap64 (rm_cpu a + rm_cpu b)) (wrap64 (rm_gpu a + rm_gpu b))
    (wrap64 (rm_memory a + rm_memory b)) (wrap64 (rm_ephemeral a + rm_ephemeral b)).

Definition rm_zero : ResourcesMetric := mkResourcesMetric 0 0 0 0.

(** The loop over the nodes: what is reported of each, and both totals. *)
Definition nodes_metrics (nodes : list (Node api)) : option (list NodeMetrics * ResourcesMetric * ResourcesMetric) :=
  foldl (fun acc nd =>
    '(ms, total, available) ← acc; m ← node_metrics nd;
    Some (ms ++ [m], rm_add total (nm_allocatable m), rm_add available (nm_available m)))
    (Some ([], rm_zero, rm_zero)) nodes.

(** The loop over the storage classes; of classes with one name the last counts. *)
Definition storage_metrics (classes : list (ClusterStorage api)) : option (gmap string Z * gmap string Z) :=
  foldl (fun acc cs =>
    '(total, available) ← acc; allocatable ← rp_allocatable (cs_quantity cs);
    Some (<[cs_class cs := wrap64 (q_value allocatable)]> total,
          <[cs_class cs := wrap64 (q_value (Available (cs_quantity cs)))]> available))
    (Some (∅, ∅)) classes.

Definition cluster_metrics (c : Cluster api) : option Metrics_t :=
  '(nodes, total, available) ← nodes_metrics (c_nodes c);
  '(storageTotal, storageAvailable) ← storage_metrics (c_storage c);
  Some (mkMetrics nodes (mkMetricTotal total storageTotal) (mkMetricTotal available storageAvailable)).

Definition Metrics (inv : inventory api) : option Metrics_t := cluster_metrics (raw (sanitizedDup inv)).

(** ** Totals *)

(** The amounts a metric reports, of an amount. *)
Definition metric_of (a : Amounts) : ResourcesMetric :=
  mkResourcesMetric (wrap64 (am_cpu a)) (wrap64 (am_gpu a)) (wrap64 (am_mem a)) (wrap64 (am_eph a)).

Definition am_total {A} (f : A -> Amounts) (l : list A) : Amounts := foldr (fun x acc => am_add (f x) acc) am_zero l.

Lemma am_eq a b :
  am_cpu a = am_cpu b -> am_mem a = am_mem b -> am_gpu a = am_gpu b -> am_eph a = am_eph b -> am_ic a = am_ic b -> a = b.
Proof. destruct a, b. simpl. by intros -> -> -> -> ->. Qed.

#[local] Ltac amounts := apply am_eq; unfold am_add, am_zero; simpl; lia.

Lemma am_total_app {A} (f : A -> Amounts) l k : am_total f (l ++ k) = am_add (am_total f l) (am_total f k).
Proof. induction l as [|x l IH]; simpl; [|rewrite IH]; amounts. Qed.

Lemma am_total_add {A} (f g : A -> Amounts) l :
  am_total (fun x => am_add (f x) (g x)) l = am_add (am_total f l) (am_total g l).
Proof. induction l as [|x l IH]; simpl; [|rewrite IH]; amounts. Qed.

Lemma wrap64_add a b : wrap64 (wrap64 a + wrap64 b) = wrap64 (a + b).
Proof. unfold wrap64. rewrite wrap_add_l, Z.add_comm, wrap_add_l. f_equal. lia. Qed.

Lemma rm_add_metric a b : rm_add (metric_of a) (metric_of b) = metric_of (am_add a b).
Proof. unfold rm_add, metric_of, am_add. cbn [rm_cpu rm_gpu rm_memory rm_ephemeral]. by rewrite !wrap64_add. Qed.

(** The total that is reported is that of the nodes, modulo [2 ^ 64]. *)
Lemma nodes_metrics_available nodes ms total available :
  nodes_metrics nodes = Some (ms, total, available) -> available = metric_of (am_total node_avail nodes).
Proof.
  unfold nodes_metrics. intros H.
  assert (Hgen : forall nodes acc ms total available,
    foldl (fun acc nd => '(ms, total, available) ← acc; m ← node_metrics nd;
      Some (ms ++ [m], rm_add total (nm_allocatable m), rm_add available (nm_available m))) acc nodes
      = Some (ms, total, available) ->
    forall ms0 total0 a0, acc = Some (ms0, total0, metric_of a0) -> available = metric_of (am_add a0 (am_total node_avail nodes))).
  { clear. induction nodes as [|nd nodes IH]; intros acc ms total available Hf ms0 total0 a0 ->; simpl in *.
    - injection Hf as _ _ <-. f_equal. amounts.
    - destruct (node_metrics nd) as [m|] eqn:Hm; simpl in Hf.
      + unfold node_metrics in Hm. destruct (node_allocatable _) as [al|]; [|done]. injection Hm as <-. simpl in Hf.
        change (node_available (nd_resources nd)) with (metric_of (node_avail nd)) in Hf. rewrite rm_add_metric in Hf.
        rewrite (IH _ _ _ _ Hf _ _ _ eq_refl). f_equal. amounts.
      + exfalso. clear -Hf. induction nodes as [|nd' nodes IH]; simpl in Hf; [done|auto]. }
  rewrite (Hgen _ _ _ _ _ H [] rm_zero am_zero eq_refl). f_equal; amounts.
Qed.

(** ** What a reservation takes off the totals *)

Definition am_scale (n : Z) (a : Amounts) : Amounts :=
  mkAmounts (n * am_cpu a) (n * am_mem a) (n * am_gpu a) (n * am_eph a) (n * am_ic a).

(** What one replica of a unit takes, and what an order does, the sidecars included. *)
Definition replica_demand (env : adj_env) (i : nat) : Amounts :=
  demand (opt_TEEType (e_opts env)) (opt_TEEPlatform (e_opts env)) (env_requires env i) (unit_res env i).

Definition order_demand (env : adj_env) : Amounts :=
  am_total (fun i => am_scale (Z.of_nat (default 0%nat (ru_count <$> e_orig env !! i))) (replica_demand env i))
    (seq 0 (length (e_orig env))).

Lemma am_total_ext {A} (f g : A -> Amounts) l : (forall x, x ∈ l -> f x = g x) -> am_total f l = am_total g l.
Proof.
  induction l as [|x l IH]; intros H; simpl; [done|]. rewrite (H x) by left. rewrite IH; [done|].
  intros y Hy. apply H. by right.
Qed.

(** Of the indices only one counts. *)
Lemma am_total_delta k d o n :
  am_total (fun j => if decide (k = j) then d else am_zero) (seq o n) =
  if decide (o <= k < o + n)%nat then d else am_zero.
Proof.
  revert o. induction n as [|n IH]; intros o; simpl; [rewrite decide_False by lia; done|].
  rewrite IH. repeat case_decide; subst; try lia; amounts.
Qed.

Lemma am_total_zero {A} (l : list A) : am_total (fun _ => am_zero) l = am_zero.
Proof. induction l as [|x l IH]; simpl; [done|]. rewrite IH. amounts. Qed.

Lemma node_demand_total env pl j : node_demand env pl j = am_total (entry_demand env j) pl.
Proof.
  unfold node_demand. induction pl as [|p pl IH] using rev_ind; [done|].
  rewrite foldl_app, am_total_app. simpl. rewrite IH. amounts.
Qed.

(** The demand of the nodes together is that of the entries. *)
Lemma nodes_demand env pl n :
  (forall p, p ∈ pl -> (p.2 < n)%nat) ->
  am_total (node_demand env pl) (seq 0 n) = am_total (fun p => replica_demand env p.1) pl.
Proof.
  intros Hn. rewrite (am_total_ext _ _ _ (fun j _ => node_demand_total env pl j)).
  induction pl as [|p pl IH]; simpl; [apply am_total_zero|].
  rewrite am_total_add, IH by (intros q Hq; apply Hn; by right). f_equal.
  unfold entry_demand. fold (replica_demand env p.1). rewrite am_total_delta, decide_True; [done|].
  specialize (Hn p (list_elem_of_here _ _)). lia.
Qed.

Lemma scale_add n m a : am_scale (n + m) a = am_add (am_scale n a) (am_scale m a).
Proof. unfold am_scale, am_add. simpl. f_equal; lia. Qed.

(** The entries by unit. *)
Lemma entries_by_unit (D : nat -> Amounts) (pl : list (nat * nat)) m :
  (forall p, p ∈ pl -> (p.1 < m)%nat) ->
  am_total (fun p => D p.1) pl = am_total (fun i => am_scale (Z.of_nat (placed pl i)) (D i)) (seq 0 m).
Proof.
  intros Hm. induction pl as [|p pl IH].
  - simpl. symmetry. rewrite (am_total_ext _ (fun _ => am_zero) (seq 0 m)); [apply am_total_zero|].
    intros i _. unfold am_scale, am_zero, placed. simpl. by rewrite !Z.mul_0_l.
  - simpl. rewrite IH by (intros q Hq; apply Hm; by right).
    rewrite (am_total_ext (fun i => am_scale (Z.of_nat (placed (p :: pl) i)) (D i))
      (fun i => am_add (if decide (p.1 = i) then D p.1 else am_zero) (am_scale (Z.of_nat (placed pl i)) (D i)))).
    + rewrite am_total_add, am_total_delta, decide_True; [done|]. specialize (Hm p (list_elem_of_here _ _)). lia.
    + intros i _. unfold placed. rewrite filter_cons. case_decide as Hd; [subst i|].
      * simpl length. rewrite Nat2Z.inj_succ, <- Z.add_1_l, scale_add. f_equal. unfold am_scale. destruct (D p.1). simpl.
        f_equal; lia.
      * amounts.
Qed.

(** Nodes charged one by one are charged together. *)
Lemma nodes_charged (D : nat -> Amounts) (before after : list (Node api)) o :
  length after = length before ->
  (forall j x, before !! j = Some x -> exists y, after !! j = Some y /\ charged (node_avail x) (D (o + j)%nat) (node_avail y)) ->
  am_total node_avail before = am_add (am_total node_avail after) (am_total D (seq o (length before))).
Proof.
  revert after o. induction before as [|x before IH]; intros [|y after] o Hlen H; simplify_eq/=; [amounts|].
  destruct (H 0%nat x eq_refl) as (y' & [= <-] & Hc). rewrite Nat.add_0_r in Hc.
  rewrite (IH after (S o)); [|done|].
  - destruct Hc as ([Hc1 _] & [Hc2 _] & [Hc3 _] & [Hc4 _] & [Hc5 _]).
    apply am_eq; unfold am_add; simpl in *; lia.
  - intros j z Hz. destruct (H (S j) z Hz) as (w & Hw & Hch). exists w. split; [done|]. by rewrite Nat.add_succ_r in Hch.
Qed.

End Metrics.

(** What is available in the cluster after a reservation is what was before less what the
    order asks for, for every resource: nothing else is taken, and nothing is lost. *)
Lemma adjust_conserves {api : InventoryAPI} {laws : InventoryLaws api} (inv inv' : inventory api)
    (res res' : ReservationGroup) (cfg : InventoryOptions) :
  Adjust inv res cfg = Some (inv', res', None) -> DryRun cfg = false ->
  exists rg, interconnect_groups (GetResourceUnits (rg_resources res)) = Ok rg /\
    am_total node_avail (c_nodes (sanitized inv)) =
    am_add (am_total node_avail (c_nodes (sanitized inv'))) (order_demand (adjust_env res cfg rg)).
Proof.
  intros HA Hdry. destruct (Adjust_assigns inv inv' res res' cfg HA) as (rg & pl & c & Hrg & Hcomp & Hfits & Hinv & _).
  rewrite Hdry in Hinv. subst inv'. exists rg. split; [done|]. simpl.
  set (env := adjust_env res cfg rg) in *.
  rewrite (nodes_charged (node_demand env pl) (c_nodes (sanitized inv)) (c_nodes c) 0 (fit_nodes _ _ _ _ Hfits)).
  2:{ intros j x Hx. destruct (fit_charged _ _ _ _ Hfits j x Hx) as (y & ? & _ & _ & ?). eauto. }
  f_equal. rewrite nodes_demand.
  2:{ intros [i n] Hin. destruct (fit_suitable _ _ _ _ Hfits i n Hin) as (_ & nd & Hnd & _). by apply lookup_lt_Some in Hnd. }
  rewrite (entries_by_unit (replica_demand env) pl (length (e_orig env))).
  2:{ intros [i n] Hin. destruct (fit_suitable _ _ _ _ Hfits i n Hin) as ([u Hu] & _). by apply lookup_lt_Some in Hu. }
  apply am_total_ext. intros i [_ Hi]%elem_of_seq. simpl in Hi.
  destruct (lookup_lt_is_Some_2 (e_orig env) i Hi) as [u Hu]. rewrite Hu. simpl. by rewrite (Hcomp i u Hu).
Qed.

(** ** Storage classes *)

(** What an order takes of a storage class. *)
Definition order_storage {api : InventoryAPI} (env : adj_env) (class : string) : Z :=
  sumZ (fun i => (Z.of_nat (default 0%nat (ru_count <$> e_orig env !! i)) * class_demand (api := api) (r_storage (unit_res env i)) class)%Z)
    (seq 0 (length (e_orig env))).

Section StorageTotals.
Context {api : InventoryAPI}.

Lemma am_total_cpu {A} (f : A -> Amounts) l : am_cpu (am_total f l) = sumZ (fun x => am_cpu (f x)) l.
Proof. induction l as [|x l IH]; simpl; [done|]. by rewrite IH. Qed.

Lemma storage_demand_sum env pl class :
  storage_demand (api := api) env pl class = sumZ (fun p => class_demand (api := api) (r_storage (unit_res env p.1)) class) pl.
Proof.
  unfold storage_demand. induction pl as [|p pl IH] using rev_ind; [done|].
  rewrite foldl_app, sumZ_app. simpl. rewrite IH. lia.
Qed.

(** The demand of the entries of a complete placement is that of the order. *)
Lemma storage_by_unit env pl class :
  (forall p, p ∈ pl -> (p.1 < length (e_orig env))%nat) -> complete (e_orig env) pl ->
  storage_demand (api := api) env pl class = order_storage (api := api) env class.
Proof.
  intros Hm Hc. rewrite storage_demand_sum. unfold order_storage.
  set (D i := mkAmounts (class_demand (api := api) (r_storage (unit_res env i)) class) 0 0 0 0).
  pose proof (f_equal am_cpu (entries_by_unit D pl (length (e_orig env)) Hm)) as H. rewrite !am_total_cpu in H.
  etransitivity; [exact H|]. clear H. unfold am_scale. cbn [am_cpu D].
  assert (forall i, i ∈ seq 0 (length (e_orig env)) -> placed pl i = default 0%nat (ru_count <$> e_orig env !! i)) as Hp.
  { intros i [_ Hi]%elem_of_seq. simpl in Hi. destruct (lookup_lt_is_Some_2 _ _ Hi) as [u Hu]. rewrite (Hc i u Hu), Hu. done. }
  revert Hp. generalize (seq 0 (length (e_orig env))). intros l Hp. induction l as [|x l IH]; [done|].
  cbn [sumZ foldr]. rewrite (Hp x) by left. f_equal. apply IH. intros i Hi. apply Hp. by right.
Qed.

(** What is reported of the classes, when their names differ. *)
Lemma storage_metrics_lookup (classes : list (ClusterStorage api)) total available :
  storage_metrics classes = Some (total, available) -> NoDup (cs_class <$> classes) ->
  forall class, available !! class = wrap64 <$> class_avail classes class.
Proof.
  unfold storage_metrics.
  assert (Hgen : forall (classes : list (ClusterStorage api)) (t0 a0 total available : gmap string Z),
    foldl (fun acc cs => '(total, available) ← acc; allocatable ← rp_allocatable (cs_quantity cs);
      Some (<[cs_class cs := wrap64 (q_value allocatable)]> total,
            <[cs_class cs := wrap64 (q_value (Available (cs_quantity cs)))]> available)) (Some (t0, a0)) classes
      = Some (total, available) -> NoDup (cs_class <$> classes) ->
    forall class, available !! class =
      match class_avail classes class with Some z => Some (wrap64 z) | None => a0 !! class end).
  { clear. induction classes as [|cs rest IH]; intros t0 a0 total available Hf Hnd class; simpl in Hf; [by injection Hf as _ <-|].
    apply list.NoDup_cons in Hnd as [Hnew Hnd].
    destruct (rp_allocatable (cs_quantity cs)) as [al|]; simpl in Hf.
    2:{ exfalso. clear -Hf. induction rest as [|c rest IHr]; simpl in Hf; [done|auto]. }
    rewrite (IH _ _ _ _ Hf Hnd class), class_avail_cons. destruct (String.eqb_spec (cs_class cs) class) as [<-|Hne].
    - rewrite lookup_insert_eq. destruct (class_avail rest (cs_class cs)) eqn:E; [|done]. exfalso. apply Hnew.
      unfold class_avail in E. apply fmap_Some in E as ([n x] & E & _). apply find_index_Some in E as (Hx & Hp & _).
      apply String.eqb_eq in Hp. rewrite <- Hp. apply list_elem_of_fmap. exists x. split; [done|].
      by eapply list_elem_of_lookup_2.
    - by rewrite lookup_insert_ne. }
  intros H Hnd class. rewrite (Hgen _ _ _ _ _ H Hnd class), lookup_empty. by destruct (class_avail classes class).
Qed.

End StorageTotals.

(** A reservation takes off each storage class what the order asks of it. *)
Lemma adjust_storage_taken {api : InventoryAPI} {laws : InventoryLaws api} (inv inv' : inventory api)
    (res res' : ReservationGroup) (cfg : InventoryOptions) rg :
  Adjust inv res cfg = Some (inv', res', None) -> DryRun cfg = false ->
  interconnect_groups (GetResourceUnits (rg_resources res)) = Ok rg ->
  class_charged (c_storage (sanitized inv)) (c_storage (sanitized inv')) (order_storage (api := api) (adjust_env res cfg rg)).
Proof.
  intros HA Hdry Hrg. destruct (Adjust_assigns inv inv' res res' cfg HA) as (rg' & pl & c & Hrg' & Hcomp & Hfits & Hinv & _).
  rewrite Hrg in Hrg'. injection Hrg' as <-. rewrite Hdry in Hinv. subst inv'. cbn [sanitized].
  intros class a Ha. destruct (fit_storage _ _ _ _ Hfits class a Ha) as (a' & Ha' & Hc). exists a'. split; [done|].
  rewrite storage_by_unit in Hc; [done| |done]. intros [i n] Hin.
  destruct (fit_suitable _ _ _ _ Hfits i n Hin) as ([u Hu] & _). by apply lookup_lt_Some in Hu.
Qed.

(** ** What is allocatable *)

(** Charging a pair leaves its allocatable quantity. *)
Class AllocatableLaws (api : InventoryAPI) : Prop := {
  sub_keeps_allocatable p v p' : SubNLZ p v = Some p' -> rp_allocatable p' = rp_allocatable p;
  sub_milli_keeps_allocatable p v p' : SubMilliNLZ p v = Some p' -> rp_allocatable p' = rp_allocatable p
}.

#[export] Instance milli_allocatable : AllocatableLaws milli_api.
Proof.
  split; intros p v p'; unfold SubNLZ, SubMilliNLZ; simpl; case_match; simpl; intros; simplify_eq; done.
Qed.

Section Allocatable.
Context {api : InventoryAPI} {al : AllocatableLaws api}.

Definition same_node (a b : Node api) : Prop :=
  nd_name b = nd_name a /\
  rp_allocatable (n_cpu (nd_resources b)) = rp_allocatable (n_cpu (nd_resources a)) /\
  rp_allocatable (n_gpu (nd_resources b)) = rp_allocatable (n_gpu (nd_resources a)) /\
  rp_allocatable (n_memory (nd_resources b)) = rp_allocatable (n_memory (nd_resources a)) /\
  rp_allocatable (n_ephemeral (nd_resources b)) = rp_allocatable (n_ephemeral (nd_resources a)).

Definition same_class (a b : ClusterStorage api) : Prop :=
  cs_class b = cs_class a /\ rp_allocatable (cs_quantity b) = rp_allocatable (cs_quantity a).

Definition same_allocatable (c c' : Cluster api) : Prop :=
  Forall2 same_node (c_nodes c) (c_nodes c') /\ Forall2 same_class (c_storage c) (c_storage c').

#[local] Instance same_node_pre : PreOrder same_node.
Proof. split; [done|]. intros a b c (?&?&?&?&?) (?&?&?&?&?). repeat split; congruence. Qed.
#[local] Instance same_class_pre : PreOrder same_class.
Proof. split; [done|]. intros a b c [??] [??]. split; congruence. Qed.

Lemma charge_class_same (classes : list (ClusterStorage api)) class v classes' :
  charge_class classes class v = Some (Some classes') -> Forall2 same_class classes classes'.
Proof.
  revert classes'. induction classes as [|cs rest IH]; intros classes'; simpl; [done|].
  destruct (String.eqb (cs_class cs) class).
  - destruct (SubNLZ _ _) as [q|] eqn:Hq; [|done]. intros [= <-]. constructor; [|reflexivity].
    split; [done|]. by apply sub_keeps_allocatable in Hq.
  - destruct (charge_class rest class v) as [[rest'|]|]; try done. intros [= <-]. constructor; [reflexivity|by apply IH].
Qed.

Lemma adjust_storage_same caps vols mem eph (classes : list (ClusterStorage api)) mem' eph' classes' :
  adjust_storage caps vols mem eph classes = Ok (mem', eph', classes') ->
  rp_allocatable mem' = rp_allocatable mem /\ rp_allocatable eph' = rp_allocatable eph /\ Forall2 same_class classes classes'.
Proof.
  revert mem eph classes. induction vols as [|v vols IH]; intros mem eph classes; simpl.
  { intros [= <- <- <-]. split_and!; reflexivity. }
  destruct (ParseStorageAttributes (s_attrs v)) as [a|e]; [|done]. destruct (negb (Persistent a)).
  - destruct (String.eqb (Class' a) "ram").
    + destruct (SubNLZ mem _) as [m|] eqn:Hm; [|done]. apply sub_keeps_allocatable in Hm. intros H%IH. by rewrite Hm in H.
    + unfold tryAdjustEphemeralStorage. destruct (SubNLZ eph _) as [m|] eqn:Hm; [|done].
      apply sub_keeps_allocatable in Hm. intros H%IH. by rewrite Hm in H.
  - destruct (negb _); [done|]. destruct (charge_class _ _ _) as [[cl|]|] eqn:Hcc; try done.
    apply charge_class_same in Hcc. intros (? & ? & H)%IH. split_and!; [done..|]. by etransitivity.
Qed.

Lemma tryAdjust_same t p fabric req group (inv : Cluster api) node res claims :
  let r := tryAdjust inv node res t p fabric req group claims in
  ta_stat r = TAOk -> same_allocatable inv (ta_inv r).
Proof.
  intros r Hok.
  destruct (tryAdjust_ok t p fabric req group inv node res claims Hok)
    as (nd & rcpu & rgpu & rmem & cpu & ic & sp1 & gpu & gattrs & sp2 & mem0 & mem1 & eph &
        classes & sp3 & cpu' & mem' & Hnd & _ & _ & _ & _ & Hcpu & _ & Hgpu & Hmem & Hst & Hsc & Hinv & _).
  fold r in Hinv. rewrite Hinv. apply adjust_storage_same in Hst as (Hm1 & He & Hcl). split; [|exact Hcl].
  apply sub_keeps_allocatable in Hmem.
  assert (rp_allocatable cpu = rp_allocatable (n_cpu (nd_resources nd))) as Hc.
  { unfold tryAdjustCPU in Hcpu. destruct (CPUArchMatches _ _) as [[]|]; [|done|done]. by apply sub_milli_keeps_allocatable in Hcpu. }
  assert (rp_allocatable gpu = rp_allocatable (n_gpu (nd_resources nd))) as Hg.
  { unfold tryAdjustGPU in Hgpu. destruct (_ =? 0)%Z; [by simplify_eq|]. destruct (_ =? 0)%Z; [done|].
    destruct (ParseGPUAttributes _) as [attrs|]; [|done]. destruct (gpu_pick _ _ _) as [[info attr]|]; [|done].
    destruct (SubNLZ (n_gpu (nd_resources nd)) _) as [rp|] eqn:Eg; [|done]. apply sub_keeps_allocatable in Eg. by simplify_eq. }
  assert (rp_allocatable cpu' = rp_allocatable cpu /\ rp_allocatable mem' = rp_allocatable mem1) as [Hc' Hm'].
  { unfold adjust_sidecar in Hsc. destruct (negb _); [by simplify_eq|].
    destruct (SubMilliNLZ cpu _) as [c|] eqn:E1; [|done]. destruct (SubNLZ mem1 _) as [m|] eqn:E2; [|done].
    apply sub_milli_keeps_allocatable in E1. apply sub_keeps_allocatable in E2. by simplify_eq. }
  cbn [c_nodes]. rewrite <- (list_insert_id (c_nodes inv) node nd Hnd) at 1.
  apply Forall2_insert; [reflexivity|]. unfold same_node. simpl. split_and!; congruence.
Qed.

Lemma placement_same env (c0 c : Cluster api) pl k : placement env c0 pl c k -> same_allocatable c0 c.
Proof.
  induction 1 as [|pl c k i node u res _ [IH1 IH2] _ _ Hok]; [by split|].
  apply tryAdjust_same in Hok as [H1 H2]. split; by etransitivity.
Qed.

Lemma adjust_same (inv inv' : inventory api) (res res' : ReservationGroup) (cfg : InventoryOptions) :
  Adjust inv res cfg = Some (inv', res', None) -> same_allocatable (sanitized inv) (sanitized inv').
Proof.
  intros HA. destruct (interconnect_groups (GetResourceUnits (rg_resources res))) as [rg|e] eqn:Hrg.
  2:{ unfold Adjust in HA. rewrite Hrg in HA. done. }
  destruct (Adjust_runs inv res cfg rg Hrg) as (st & e & Hok & _ & HA').
  rewrite HA in HA'. destruct (a_resources st) eqn:Hres; [|by simplify_eq].
  specialize (Hok eq_refl). destruct (ok_placement _ _ _ Hok) as (pl & Hpl & _).
  apply placement_same in Hpl. simplify_eq. by destruct (DryRun cfg); [split|].
Qed.

(** What is reported of nodes with the same allocatable quantities. *)
Lemma nodes_metrics_same (nodes nodes' : list (Node api)) ms total av ms' total' av' :
  Forall2 same_node nodes nodes' ->
  nodes_metrics nodes = Some (ms, total, av) -> nodes_metrics nodes' = Some (ms', total', av') -> total' = total.
Proof.
  unfold nodes_metrics. set (step := fun acc nd => '(ms, total, available) ← acc; _).
  assert (Hnone : forall l, foldl step None l = None) by (intros l; induction l; done).
  assert (Hgen : forall nodes nodes' : list (Node api), Forall2 same_node nodes nodes' -> forall ms0 ms0' av0 av0' t0 ms total av ms' total' av',
    foldl step (Some (ms0, t0, av0)) nodes = Some (ms, total, av) ->
    foldl step (Some (ms0', t0, av0')) nodes' = Some (ms', total', av') -> total' = total).
  { clear -Hnone. induction 1 as [|a b nodes nodes' (Hn & H1 & H2 & H3 & H4) _ IH]; intros ms0 ms0' av0 av0' t0 ms total av ms' total' av'.
    - simpl. intros [= _ <- _] [= _ <- _]. done.
    - cbn [foldl].
      assert (node_allocatable (nd_resources b) = node_allocatable (nd_resources a)) as Hal
        by (unfold node_allocatable; by rewrite H1, H2, H3, H4).
      unfold step at 2 4. simpl. unfold node_metrics. rewrite Hal.
      destruct (node_allocatable (nd_resources a)) as [x|]; simpl; [|by rewrite Hnone]. apply IH. }
  intros Hall. by apply Hgen.
Qed.

Lemma storage_metrics_same (classes classes' : list (ClusterStorage api)) total av total' av' :
  Forall2 same_class classes classes' ->
  storage_metrics classes = Some (total, av) -> storage_metrics classes' = Some (total', av') -> total' = total.
Proof.
  unfold storage_metrics. set (step := fun acc cs => '(total, available) ← acc; _).
  assert (Hnone : forall l, foldl step None l = None) by (intros l; induction l; done).
  assert (Hgen : forall classes classes' : list (ClusterStorage api), Forall2 same_class classes classes' -> forall t0 av0 av0' total av total' av',
    foldl step (Some (t0, av0)) classes = Some (total, av) ->
    foldl step (Some (t0, av0')) classes' = Some (total', av') -> total' = total).
  { clear -Hnone. induction 1 as [|a b classes classes' [Hn H1] _ IH]; intros t0 av0 av0' total av total' av'.
    - simpl. intros [= <- _] [= <- _]. done.
    - cbn [foldl]. unfold step at 2 4. simpl. rewrite Hn, H1.
      destruct (rp_allocatable (cs_quantity a)) as [x|]; simpl; [|by rewrite Hnone]. apply IH. }
  intros Hall. by apply Hgen.
Qed.

Lemma same_classes (classes classes' : list (ClusterStorage api)) : Forall2 same_class classes classes' -> cs_class <$> classes' = cs_class <$> classes.
Proof. induction 1 as [|a b l l' [H _] _ IH]; [done|]. rewrite !fmap_cons. by rewrite H, IH. Qed.

End Allocatable.

(** The parts of the metrics of an inventory. *)
Lemma Metrics_parts {api : InventoryAPI} (inv : inventory api) m :
  Metrics inv = Some m -> exists ms,
    nodes_metrics (c_nodes (sanitized inv)) = Some (ms, mt_resources (me_allocatable m), mt_resources (me_available m)) /\
    storage_metrics (c_storage (sanitized inv)) = Some (mt_storage (me_allocatable m), mt_storage (me_available m)).
Proof.
  unfold Metrics, cluster_metrics. simpl. intros H.
  destruct (nodes_metrics _) as [[[ms total] available]|]; [|done]. simpl in H.
  destruct (storage_metrics _) as [[st sa]|]; [|done]. injection H as <-. by exists ms.
Qed.

(** A class that is charged is reported with that much less. *)
Lemma classes_charged {api : InventoryAPI} (before after : list (ClusterStorage api)) d class :
  class_charged before after d -> cs_class <$> after = cs_class <$> before ->
  wrap64 <$> class_avail before class = (fun a => wrap64 (a + d class)) <$> (wrap64 <$> class_avail after class).
Proof.
  intros Hch Hc. destruct (class_avail before class) as [a|] eqn:E.
  - destruct (Hch class a E) as (a' & -> & Hd & _). simpl. subst a'. f_equal.
    unfold wrap64. rewrite wrap_add_l. f_equal. lia.
  - assert (class_avail after class = None) as ->; [|done]. unfold class_avail in *. rewrite fmap_None, find_index_None in *.
    intros x Hx. destruct (String.eqb_spec (cs_class x) class) as [<-|]; [exfalso|done].
    assert (cs_class x ∈ cs_class <$> before) as Hin by (rewrite <- Hc; apply list_elem_of_fmap; by exists x).
    apply list_elem_of_fmap in Hin as (y & Hy & Hin). apply E in Hin. rewrite <- Hy, String.eqb_refl in Hin. done.
Qed.

(** C17: the totals the provider reports follow its reservations. After a reservation, what is
    reported as available of processors, GPUs, memory and ephemeral storage is what was
    before less the demand of the order, sidecars included, and what is reported as available
    of each storage class is what was before less the persistent volumes of that class the
    order asks for, all modulo [2 ^ 64]; the totals of what is allocatable, of the nodes and of
    the storage classes, are as they were. Stated for clusters whose storage classes have
    different names, and for a library that charges a pair of quantities without touching
    what is allocatable. *)
Theorem metrics_follow_reservations {api : InventoryAPI} {laws : InventoryLaws api} {al : AllocatableLaws api}
    (inv inv' : inventory api) (res res' : ReservationGroup) (cfg : InventoryOptions) (m m' : Metrics_t) :
  Adjust inv res cfg = Some (inv', res', None) -> DryRun cfg = false ->
  NoDup (cs_class <$> c_storage (sanitized inv)) ->
  Metrics inv = Some m -> Metrics inv' = Some m' ->
  exists rg, interconnect_groups (GetResourceUnits (rg_resources res)) = Ok rg /\
    let env := adjust_env res cfg rg in
    mt_resources (me_available m) = rm_add (mt_resources (me_available m')) (metric_of (order_demand env)) /\
    (forall class, mt_storage (me_available m) !! class =
       (fun a => wrap64 (a + order_storage (api := api) env class)) <$> mt_storage (me_available m') !! class) /\
    me_allocatable m' = me_allocatable m.
Proof.
  intros HA Hdry Hnd Hm Hm'. destruct (adjust_conserves inv inv' res res' cfg HA Hdry) as (rg & Hrg & Hc).
  exists rg. split; [done|]. cbv zeta.
  apply Metrics_parts in Hm as (ms & Hn & Hs). apply Metrics_parts in Hm' as (ms' & Hn' & Hs').
  destruct (adjust_same inv inv' res res' cfg HA) as [HsN HsC]. split_and!.
  - rewrite (nodes_metrics_available _ _ _ _ Hn), (nodes_metrics_available _ _ _ _ Hn'), Hc. symmetry. apply rm_add_metric.
  - intros class. pose proof (same_classes _ _ HsC) as Hcl.
    rewrite (storage_metrics_lookup _ _ _ Hs Hnd class), (storage_metrics_lookup _ _ _ Hs') by (by rewrite Hcl).
    apply classes_charged; [|done]. by eapply adjust_storage_taken.
  - destruct (me_allocatable m) as [r1 s1], (me_allocatable m') as [r2 s2]. simpl in *.
    by rewrite (nodes_metrics_same _ _ _ _ _ _ _ _ HsN Hn Hn'), (storage_metrics_same _ _ _ _ _ _ HsC Hs Hs').
Qed.

Module MetricsExamples.
Import Examples.

(** A node with a storage class, and an order of two replicas with a volume of it. *)
Definition stored : inventory milli_api :=
  newInventory (mkCluster [node_of "n0" 4 1000 [] 100 0 (mkNodeCapabilities ["beta2"%string] "" "" [])]
    [mkClusterStorage "beta2" (pair_of 500)]).

Definition ex_volumes : ReservationGroup :=
  group_of [mkResourceUnit (mkResources 1 (Some (mkUnits 1000 [])) (Some (mkMemory 100 []))
    [mkStorage "data" 20 [mkAttribute "persistent" "true"; mkAttribute "class" "beta2"]] (Some (mkUnits 0 [])) []) 2].

Definition after_volumes : inventory milli_api := (adjust_out (Adjust stored ex_volumes no_opts)).1.1.

Lemma volumes_run :
  Adjust stored ex_volumes no_opts = Some (after_volumes, (adjust_out (Adjust stored ex_volumes no_opts)).1.2, None).
Proof. apply adjust_run. vm_compute. reflexivity. Qed.

Definition metrics_or_none (i : inventory milli_api) : Metrics_t :=
  default (mkMetrics [] (mkMetricTotal rm_zero ∅) (mkMetricTotal rm_zero ∅)) (Metrics i).

Lemma metrics_follow_reservations_witness :
  mt_storage (me_available (metrics_or_none stored)) !! "beta2"%string = Some 500%Z /\
  mt_storage (me_available (metrics_or_none after_volumes)) !! "beta2"%string = Some 460%Z /\
  exists rg, let env := adjust_env ex_volumes no_opts rg in
    mt_resources (me_available (metrics_or_none stored)) =
      rm_add (mt_resources (me_available (metrics_or_none after_volumes))) (metric_of (order_demand env)) /\
    mt_storage (me_available (metrics_or_none stored)) !! "beta2"%string =
      (fun a => wrap64 (a + order_storage env "beta2")) <$> mt_storage (me_available (metrics_or_none after_volumes)) !! "beta2"%string /\
    me_allocatable (metrics_or_none after_volumes) = me_allocatable (metrics_or_none stored).
Proof.
  split; [vm_compute; reflexivity|]. split; [vm_compute; reflexivity|].
  destruct (metrics_follow_reservations stored _ ex_volumes _ no_opts (metrics_or_none stored) (metrics_or_none after_volumes)
    volumes_run eq_refl) as (rg & _ & H1 & H2 & H3);
    [apply (bool_decide_unpack _); vm_compute; exact I|vm_compute; reflexivity|vm_compute; reflexivity|].
  exists rg. cbv zeta. split; [exact H1|]. split; [exact (H2 "beta2"%string)|exact H3].
Defined.

End MetricsExamples.
