(* ===== verification/InvClient.v ===== *)
(** * The client of the inventory operator

    Model of [cluster/kube/operators/clients/inventory/client.go]: the loop that follows the
    service of the inventory operator and keeps a connector to it ([discovery]), the endpoint
    the connector dials ([newInventoryConnector]), the loop that receives the inventory
    ([inventoryRun]), and the goroutine that hands the inventories to one subscriber
    ([subscriber]). Channels are the data in them; the watch on services, the stream and the
    port forwarding come in as events. Timers are those of Go 1.23 and later: [Stop] answers
    whether the timer was running, and afterwards nothing can be received from it. *)

From Stdlib Require Import ZArith Lia Ascii.
From stdpp Require Import base gmap list strings tactics.
From S2P Require Import Prelude Types Concrete Names Attrs KubeInventory.

Section Client.
Context {api : InventoryAPI}.

Definition no_inventory : Cluster api := mkCluster [] [].

(** ** Subscribers *)

(** What came in and is not handed out, and the message that is offered, if any: the channel
    to the subscriber is nil when there is none. What came in and what was handed out are kept
    to speak about them. *)
Record Subscriber := mkSubscriber {
  su_pending : list (Cluster api); su_msg : option (inventory api);
  su_received : list (Cluster api); su_sent : list (inventory api)
}.

Definition new_subscriber : Subscriber := mkSubscriber [] None [] [].

Definition subscriber_in (inv : Cluster api) (s : Subscriber) : Subscriber :=
  let pending := su_pending s ++ [inv] in
  mkSubscriber pending
    (match su_msg s with Some m => Some m | None => newInventory <$> head pending end)
    (su_received s ++ [inv]) (su_sent s).

(** The subscriber takes the message that is offered. *)
Definition subscriber_out (s : Subscriber) : option Subscriber :=
  msg ← su_msg s;
  let pending := tail (su_pending s) in
  Some (mkSubscriber pending (newInventory <$> head pending) (su_received s) (su_sent s ++ [msg])).

(** ** The loop *)

Inductive inventoryState := inventoryEventUpdated (cluster : Cluster api) | inventoryEventDeleted.

Record Service := mkService { sv_name : string; sv_namespace : string; sv_ports : list (string * Z) }.

(** [d_running]: there is a connector whose end is not noticed yet. [d_invch]: the channel of
    the connectors holds one state at most. *)
Record Discovery := mkDiscovery {
  d_svc : option Service; d_inv : Cluster api; d_connected : bool; d_timer : bool; d_running : bool;
  d_invch : option inventoryState; d_subs : list Subscriber
}.

Definition discovery_init : Discovery := mkDiscovery None no_inventory false false false None [].

(** [started]: [newInventoryConnector] made a connector. *)
Definition startConnector (started : bool) (d : Discovery) : Discovery :=
  match d_svc d with
  | None => d
  | Some _ => mkDiscovery (d_svc d) (d_inv d) false (d_timer d || negb started) started None (d_subs d)
  end.

Inductive discovery_event :=
| ConnectorExit
| TimerFired (started : bool)
| ServiceAdded (svc : Service) (started : bool)
| ServiceDeleted
(** Another event of the watch, or the watch has ended: then the channel gives empty events. *)
| ServiceModified
| StateReceived
| Subscribe
(** A connector puts a state in the channel, a subscriber takes what it is offered. *)
| StateSent (st : inventoryState)
| Delivered (i : nat).

(** The loop goes on, or waits for ever inside a handler. *)
Inductive outcome := Next (d : Discovery) | Hung.

Definition set_state (d : Discovery) (st : inventoryState) : Discovery :=
  let inv := match st with inventoryEventUpdated c => c | inventoryEventDeleted => no_inventory end in
  mkDiscovery (d_svc d) inv true (d_timer d) (d_running d) None (map (subscriber_in inv) (d_subs d)).

(** [None] where the event cannot happen. *)
Definition discovery (d : Discovery) (ev : discovery_event) : option outcome :=
  match ev with
  | ConnectorExit =>
      if d_running d
      then Some (Next (mkDiscovery (d_svc d) (d_inv d) (d_connected d) true false (d_invch d) (d_subs d)))
      else None
  | TimerFired started =>
      if d_timer d
      then Some (Next (startConnector started
             (mkDiscovery (d_svc d) (d_inv d) (d_connected d) false (d_running d) (d_invch d) (d_subs d))))
      else None
  | ServiceAdded svc started =>
      Some (Next (startConnector started
        (mkDiscovery (Some svc) (d_inv d) (d_connected d) (d_timer d) (d_running d) (d_invch d) (d_subs d))))
  | ServiceDeleted =>
      if d_timer d
      then Some (Next (mkDiscovery None no_inventory (d_connected d) false (d_running d) (d_invch d) (d_subs d)))
      else Some Hung
  | ServiceModified => Some (Next d)
  | StateReceived => st ← d_invch d; Some (Next (set_state d st))
  | Subscribe =>
      let s := if d_connected d then subscriber_in (d_inv d) new_subscriber else new_subscriber in
      Some (Next (mkDiscovery (d_svc d) (d_inv d) (d_connected d) (d_timer d) (d_running d) (d_invch d) (d_subs d ++ [s])))
  | StateSent st =>
      match d_invch d with
      | None => Some (Next (mkDiscovery (d_svc d) (d_inv d) (d_connected d) (d_timer d) (d_running d) (Some st) (d_subs d)))
      | Some _ => None
      end
  | Delivered i =>
      s ← d_subs d !! i; s' ← subscriber_out s;
      Some (Next (mkDiscovery (d_svc d) (d_inv d) (d_connected d) (d_timer d) (d_running d) (d_invch d) (<[i := s']> (d_subs d))))
  end.

Inductive discovered : list discovery_event -> Discovery -> Prop :=
| discovered_init : discovered [] discovery_init
| discovered_step evs d ev d' :
    discovered evs d -> discovery d ev = Some (Next d') -> discovered (evs ++ [ev]) d'.

(** ** The connector *)

Definition grpc_port (ports : list (string * Z)) : option Z :=
  '(_, p) ← list_find (fun p => p.1 = "grpc"%string) ports; Some p.2.

Record OperatorPod := mkOperatorPod {
  op_name : string; op_namespace : string; op_phase : string; op_containers : list (string * list (string * Z))
}.

(** The port of the container of the operator, if one has it; the port of the service
    otherwise. *)
Fixpoint container_port (containers : list (string * list (string * Z))) (svcPort : Z) : Z :=
  match containers with
  | [] => svcPort
  | (name, ports) :: rest =>
      if String.eqb name "operator-inventory"
      then match grpc_port ports with Some p => p | None => container_port rest svcPort end
      else container_port rest svcPort
  end.

(** Outside of the cluster, or under test, the pod of the operator is reached by a forwarded
    port; [forward] gives the local one. *)
Definition connector_endpoint (svc : Service) (inside underTest : bool) (pods : result string (list OperatorPod))
    (forward : OperatorPod -> Z -> result string Z) : result string string :=
  let svcPort := default 0%Z (grpc_port (sv_ports svc)) in
  if inside && negb underTest
  then Ok (sv_name svc +:+ "." +:+ sv_namespace svc +:+ ".svc.cluster.local:" +:+ FormatUint svcPort)
  else
    match pods with
    | Err e => Err e
    | Ok pods =>
        match list_find (fun p => op_phase p = "Running"%string) pods with
        | None => Err "no inventory pods available"%string
        | Some (_, pod) =>
            let port := container_port (op_containers pod) svcPort in
            match (if underTest then Ok (port mod 2 ^ 16)%Z else forward pod port) with
            | Err e => Err e
            | Ok local => Ok ("localhost:" +:+ FormatUint local)
            end
        end
    end.

(** ** Receiving *)

(** What the stream does: the connection does not become ready before the end; opening the
    stream, failing to with the connection cancelled, or otherwise with the pause run out or
    cut short; a message, or an error with or without cancellation; the end while a state is
    sent. *)
Inductive run_event :=
| NotReady | Opened | OpenCanceled | OpenFailed (pauseOver : bool)
| Received (c : Cluster api) | RecvFailed (canceled : bool) | DoneSending.

(** Whether the stream is open and whether it has ended, and the states put in the channel.
    [room]: the channel has room for the last state when the loop ends. *)
Record Runner := mkRunner { ru_stream : bool; ru_ended : bool; ru_states : list inventoryState }.

Definition runner_end (room : bool) (r : Runner) : Runner :=
  mkRunner (ru_stream r) true (ru_states r ++ if room then [inventoryEventDeleted] else []).

Definition inventoryRun (room : bool) (r : Runner) (ev : run_event) : option Runner :=
  if ru_ended r then None
  else if ru_stream r then
    match ev with
    | Received c => Some (mkRunner true false (ru_states r ++ [inventoryEventUpdated c]))
    | RecvFailed canceled =>
        let r' := mkRunner false false (ru_states r ++ [inventoryEventDeleted]) in
        Some (if canceled then runner_end room r' else r')
    | DoneSending => Some (runner_end room r)
    | _ => None
    end
  else
    match ev with
    | Opened => Some (mkRunner true false (ru_states r))
    | NotReady | OpenCanceled | OpenFailed false => Some (runner_end room r)
    | OpenFailed true => Some r
    | _ => None
    end.

Inductive ran (room : bool) : list run_event -> Runner -> Prop :=
| ran_init : ran room [] (mkRunner false false [])
| ran_step evs r ev r' : ran room evs r -> inventoryRun room r ev = Some r' -> ran room (evs ++ [ev]) r'.

(** ** Subscribers get everything in order *)

(** The message offered is the first pending one, and handed out and pending together are what
    came in. *)
Definition subscriber_ok (s : Subscriber) : Prop :=
  su_msg s = newInventory <$> head (su_pending s) /\
  su_sent s ++ map newInventory (su_pending s) = map newInventory (su_received s).

Lemma subscriber_in_ok inv s : subscriber_ok s -> subscriber_ok (subscriber_in inv s).
Proof.
  unfold subscriber_ok, subscriber_in. intros [Hm Hs]. simpl. split.
  - rewrite Hm. by destruct (su_pending s).
  - by rewrite !map_app, app_assoc, Hs.
Qed.

Lemma subscriber_out_ok s s' : subscriber_out s = Some s' -> subscriber_ok s -> subscriber_ok s'.
Proof.
  unfold subscriber_ok, subscriber_out. intros H [Hm Hs]. destruct (su_msg s) as [m|] eqn:E; [|done].
  injection H as <-. simpl. split; [done|]. destruct (su_pending s) as [|c rest]; [done|]. simpl in *.
  injection Hm as ->. by rewrite <- app_assoc.
Qed.

Lemma new_subscriber_ok : subscriber_ok new_subscriber.
Proof. done. Qed.

(** ** The state of the loop *)

(** With a service known, a connector runs or the timer will start one; a subscriber is offered
    what came in in order; and once the connector has sent a state, every subscriber has been
    given the current inventory last. *)
Record discovery_ok (d : Discovery) : Prop := {
  dk_alive : is_Some (d_svc d) -> d_running d = true \/ d_timer d = true;
  dk_subs : Forall subscriber_ok (d_subs d);
  dk_current : is_Some (d_svc d) -> d_connected d = true ->
    Forall (fun s => list.last (su_received s) = Some (d_inv d)) (d_subs d)
}.

Lemma startConnector_ok started d :
  Forall subscriber_ok (d_subs d) -> discovery_ok (startConnector started d).
Proof.
  intros Hs. unfold startConnector. destruct (d_svc d) eqn:E; split; simpl; try done; rewrite ?E.
  - intros _. destruct started; [by left|right; apply orb_true_r].
  - by intros [].
  - by intros [].
Qed.

Lemma discovery_step_ok d ev d' : discovery d ev = Some (Next d') -> discovery_ok d -> discovery_ok d'.
Proof.
  intros H Hd. pose proof Hd as [Ha Hs Hc].
  destruct ev as [|started|svc started| | | | |st|i]; simpl in H.
  - destruct (d_running d); [|done]. injection H as <-. split; simpl; auto.
  - destruct (d_timer d); [|done]. injection H as <-. by apply startConnector_ok.
  - injection H as <-. by apply startConnector_ok.
  - destruct (d_timer d); [|done]. injection H as <-. split; simpl; try done; by intros [].
  - injection H as <-. done.
  - destruct (d_invch d) as [st|]; [|done]. injection H as <-. unfold set_state. split; simpl; [done| |].
    + apply list.Forall_fmap. eapply list.Forall_impl; [exact Hs|]. intros s. apply subscriber_in_ok.
    + intros _ _. apply list.Forall_fmap, list.Forall_forall. intros s _. simpl. apply list.last_snoc.
  - injection H as <-. split; simpl; [done| |].
    + apply Forall_app. split; [done|]. apply Forall_singleton.
      destruct (d_connected d); [apply subscriber_in_ok|]; apply new_subscriber_ok.
    + intros Hsv Hcn. apply Forall_app. split; [by apply Hc|]. rewrite Hcn. by apply Forall_singleton.
  - destruct (d_invch d); [done|]. injection H as <-. split; simpl; auto.
  - destruct (d_subs d !! i) as [s|] eqn:Hi; [|done]. simpl in H.
    destruct (subscriber_out s) as [s'|] eqn:Ho; [|done]. injection H as <-. split; simpl; [done| |].
    + apply Forall_insert; [done|]. eapply subscriber_out_ok; [done|]. by eapply Forall_lookup_1.
    + intros Hsv Hcn. apply Forall_insert; [by apply Hc|]. specialize (Hc Hsv Hcn).
      assert (su_received s' = su_received s) as -> by (unfold subscriber_out in Ho; destruct (su_msg s); by simplify_eq/=).
      by eapply (Forall_lookup_1 _ _ _ _ Hc).
Qed.

Lemma discovery_reachable_ok evs d : discovered evs d -> discovery_ok d.
Proof.
  induction 1 as [|evs d ev d' Hd IH Hst]; [|by eapply discovery_step_ok].
  split; simpl; [by intros []|constructor|done].
Qed.

(** ** What was sent and what was received *)

(** The states the connectors put in the channel, in the order of the events. *)
Definition sent (evs : list discovery_event) : list inventoryState :=
  omap (fun ev => match ev with StateSent st => Some st | _ => None end) evs.

(** What a state tells: the inventory it holds, or that there is none. *)
Definition shown (st : inventoryState) : Cluster api :=
  match st with inventoryEventUpdated c => c | inventoryEventDeleted => no_inventory end.

(** What the order of the events says of the channel alone: a state that is sent is taken by the
    loop unless a connector is started first, which there is when a service appears, and when
    the timer fires while one is known. *)
Record Channel := mkChannel { ch_known : bool; ch_queue : option inventoryState; ch_taken : list inventoryState }.

Definition channel_step (c : Channel) (ev : discovery_event) : Channel :=
  match ev with
  | StateSent st => mkChannel (ch_known c) (Some st) (ch_taken c)
  | StateReceived => mkChannel (ch_known c) None (ch_taken c ++ option_list (ch_queue c))
  | ServiceAdded _ _ => mkChannel true None (ch_taken c)
  | TimerFired _ => mkChannel (ch_known c) (if ch_known c then None else ch_queue c) (ch_taken c)
  | ServiceDeleted => mkChannel false (ch_queue c) (ch_taken c)
  | _ => c
  end.

Definition channel (evs : list discovery_event) : Channel := foldl channel_step (mkChannel false None []) evs.

Definition taken (evs : list discovery_event) : list inventoryState := ch_taken (channel evs).

Lemma channel_snoc evs ev : channel (evs ++ [ev]) = channel_step (channel evs) ev.
Proof. unfold channel. by rewrite foldl_app. Qed.

Lemma taken_snoc evs ev :
  taken (evs ++ [ev]) = taken evs ++ match ev with StateReceived => option_list (ch_queue (channel evs)) | _ => [] end.
Proof. unfold taken. rewrite channel_snoc. destruct ev; simpl; by rewrite ?app_nil_r. Qed.

Lemma taken_length pre post : (length (taken pre) <= length (taken (pre ++ post)))%nat.
Proof.
  induction post as [|ev post IH] using rev_ind; [by rewrite app_nil_r|].
  rewrite (assoc_L (++)), taken_snoc, length_app. lia.
Qed.

(** The loop takes states in the order in which they were sent, each once. *)
Lemma taken_sublist evs : taken evs ++ option_list (ch_queue (channel evs)) `sublist_of` sent evs.
Proof.
  induction evs as [|ev evs IH] using rev_ind; [apply sublist_nil_l|].
  unfold taken, sent in *. rewrite channel_snoc, omap_app.
  assert (ch_taken (channel evs) `sublist_of` omap (fun ev => match ev with StateSent st => Some st | _ => None end) evs) as Ht
    by (etransitivity; [apply sublist_inserts_r; reflexivity|exact IH]).
  destruct ev as [|b|svc b| | | | |st|i]; simpl; rewrite ?app_nil_r; try done.
  - destruct (ch_known (channel evs)); simpl; by rewrite ?app_nil_r.
  - by apply sublist_app.
Qed.

(** What the loop knows agrees with the channel, and every subscriber has received what the loop
    held when it subscribed and what it has taken since. *)
Record followed (evs : list discovery_event) (d : Discovery) : Prop := {
  fo_known : ch_known (channel evs) = bool_decide (is_Some (d_svc d));
  fo_queue : ch_queue (channel evs) = d_invch d;
  fo_subs i s : d_subs d !! i = Some s ->
    exists pre post d0, evs = pre ++ Subscribe :: post /\ discovered pre d0 /\ length (d_subs d0) = i /\
      su_received s = (if d_connected d0 then [d_inv d0] else []) ++ map shown (drop (length (taken pre)) (taken evs))
}.

(** An event that leaves the subscribers leaves what they received. *)
Lemma followed_subs evs ev (d d' : Discovery) :
  followed evs d -> ev <> StateReceived ->
  (forall i s', d_subs d' !! i = Some s' -> exists s, d_subs d !! i = Some s /\ su_received s' = su_received s) ->
  forall i s', d_subs d' !! i = Some s' ->
    exists pre post d0, evs ++ [ev] = pre ++ Subscribe :: post /\ discovered pre d0 /\ length (d_subs d0) = i /\
      su_received s' = (if d_connected d0 then [d_inv d0] else []) ++ map shown (drop (length (taken pre)) (taken (evs ++ [ev]))).
Proof.
  intros Hf Hne Hs i s' Hi. destruct (Hs i s' Hi) as (s & Hsi & ->).
  destruct (fo_subs _ _ Hf i s Hsi) as (pre & post & d0 & -> & Hd & Hl & Hr). exists pre, (post ++ [ev]), d0.
  rewrite taken_snoc. replace (match ev with StateReceived => _ | _ => [] end) with (@nil inventoryState) by (by destruct ev).
  rewrite app_nil_r. split_and!; [by rewrite <- (assoc_L (++))|done..].
Qed.

Lemma startConnector_followed started (d : Discovery) :
  d_svc (startConnector started d) = d_svc d /\ d_subs (startConnector started d) = d_subs d /\
  d_invch (startConnector started d) = match d_svc d with Some _ => None | None => d_invch d end.
Proof. unfold startConnector. destruct (d_svc d) eqn:E; simpl; by rewrite ?E. Qed.

Lemma followed_step evs d ev d' :
  discovered evs d -> followed evs d -> discovery d ev = Some (Next d') -> followed (evs ++ [ev]) d'.
Proof.
  intros Hdis Hf H. pose proof (fo_known _ _ Hf) as Hk. pose proof (fo_queue _ _ Hf) as Hq.
  pose proof (followed_subs evs ev d d' Hf) as Hsubs.
  destruct ev as [|started|svc started| | | | |st|i]; simpl in H.
  - destruct (d_running d); [|done]. injection H as <-. split; [by rewrite channel_snoc..|]. apply Hsubs; [done|]. simpl. eauto.
  - destruct (d_timer d); [|done]. injection H as <-.
    set (d1 := mkDiscovery (d_svc d) (d_inv d) (d_connected d) false (d_running d) (d_invch d) (d_subs d)) in *.
    destruct (startConnector_followed started d1) as (H1 & H2 & H3). split.
    + rewrite channel_snoc, H1. exact Hk.
    + rewrite channel_snoc, H3. simpl. rewrite Hk, Hq. destruct (d_svc d); simpl; by rewrite ?bool_decide_eq_true_2.
    + apply Hsubs; [done|]. rewrite H2. simpl. eauto.
  - injection H as <-.
    set (d1 := mkDiscovery (Some svc) (d_inv d) (d_connected d) (d_timer d) (d_running d) (d_invch d) (d_subs d)) in *.
    destruct (startConnector_followed started d1) as (H1 & H2 & H3). split.
    + by rewrite channel_snoc, H1.
    + by rewrite channel_snoc, H3.
    + apply Hsubs; [done|]. rewrite H2. simpl. eauto.
  - destruct (d_timer d); [|done]. injection H as <-. split; [|by rewrite channel_snoc|apply Hsubs; [done|]; simpl; eauto].
    by rewrite channel_snoc.
  - injection H as <-. split; [by rewrite channel_snoc..|]. apply Hsubs; [done|]. eauto.
  - destruct (d_invch d) as [st|] eqn:Ei; [|done]. injection H as <-. split; [by rewrite channel_snoc..|].
    intros i s. simpl. rewrite list_lookup_fmap. intros (s0 & Hi & ->)%fmap_Some.
    destruct (fo_subs _ _ Hf i s0 Hi) as (pre & post & d0 & -> & Hd & Hl & Hr). exists pre, (post ++ [StateReceived]), d0.
    rewrite taken_snoc, Hq. simpl. rewrite drop_app_le by apply taken_length. rewrite map_app.
    split_and!; [by rewrite <- (assoc_L (++))|done..|]. by rewrite Hr, (assoc_L (++)).
  - injection H as <-. split; [by rewrite channel_snoc..|]. intros i s. simpl.
    rewrite lookup_app_Some, list_lookup_singleton_Some. intros [Hi|(Hlen & Hi & <-)].
    + destruct (fo_subs _ _ Hf i s Hi) as (pre & post & d0 & -> & Hd & Hl & Hr). exists pre, (post ++ [Subscribe]), d0.
      rewrite taken_snoc, app_nil_r. split_and!; [by rewrite <- (assoc_L (++))|done..].
    + exists evs, [], d. split_and!; [done..|lia|]. rewrite taken_snoc, app_nil_r, drop_all. simpl. rewrite app_nil_r.
      by destruct (d_connected d).
  - destruct (d_invch d) eqn:Ei; [done|]. injection H as <-. split; [by rewrite channel_snoc..|]. apply Hsubs; [done|]. simpl. eauto.
  - destruct (d_subs d !! i) as [s|] eqn:Hi; [|done]. simpl in H.
    destruct (subscriber_out s) as [s'|] eqn:Ho; [|done]. injection H as <-. split; [by rewrite channel_snoc..|].
    apply Hsubs; [done|]. simpl. intros j x. rewrite list_lookup_insert_Some. intros [(<- & <- & _)|[_ Hj]]; [|eauto].
    exists s. split; [done|]. unfold subscriber_out in Ho. destruct (su_msg s); by simplify_eq/=.
Qed.

Lemma discovered_followed evs d : discovered evs d -> followed evs d.
Proof. induction 1 as [|evs d ev d' Hd IH Hst]; [|by eapply followed_step]. by split. Qed.

Definition starts_connector (ev : discovery_event) : Prop :=
  match ev with ServiceAdded _ _ | TimerFired _ => True | _ => False end.

Lemma discovered_snoc evs ev d' :
  discovered (evs ++ [ev]) d' -> exists d, discovered evs d /\ discovery d ev = Some (Next d').
Proof.
  intros H. inversion H as [E|evs0 d ev0 d0 H1 H2 E Ed]; [by destruct evs|].
  apply app_inj_tail in E as [<- <-]. by exists d.
Qed.

(** Without a new connector nothing that was sent is lost. *)
Lemma taken_all pre post d :
  discovered (pre ++ post) d -> sent pre = [] -> Forall (fun ev => ~ starts_connector ev) post ->
  taken (pre ++ post) ++ option_list (d_invch d) = sent (pre ++ post).
Proof.
  intros Hd Hpre Hpost. revert d Hd. induction post as [|ev post IH] using rev_ind; intros d' Hd.
  - rewrite app_nil_r in *. rewrite <- (fo_queue _ _ (discovered_followed _ _ Hd)).
    pose proof (taken_sublist pre) as H. rewrite Hpre in *. by apply sublist_nil_r in H.
  - apply Forall_app in Hpost as [Hpost Hev]. apply list.Forall_cons in Hev as [Hev _]. rewrite (assoc_L (++)) in *.
    pose proof (fo_queue _ _ (discovered_followed _ _ Hd)) as Hq'. rewrite channel_snoc in Hq'.
    apply discovered_snoc in Hd as (d & Hd & Hst). specialize (IH Hpost d Hd).
    pose proof (fo_queue _ _ (discovered_followed _ _ Hd)) as Hq.
    rewrite taken_snoc, <- Hq', Hq. unfold sent in *. rewrite omap_app, <- IH.
    destruct ev as [|b|svc b| | | | |st|i]; simpl in *; rewrite ?Hq, ?app_nil_r; try done.
    destruct (d_invch d); [done|]. simpl. by rewrite app_nil_r.
Qed.

(** C32: while the service of the inventory operator is known, whatever happens the client has a
    connector to it or will try again. The loop takes the states its connectors sent in their
    order and each at most once, and loses none of them unless a connector is started anew:
    that drops the state still waiting in the channel, if there is one. Every subscriber is given
    the inventory the client held when it subscribed, if the connector had sent one, then the
    inventory of each state the loop has taken since, in that order and nothing twice; what a
    subscriber was handed is the beginning of that, and all of it once nothing is offered to it.
    What it was given last is the inventory the client holds, once the connector has sent one. *)
Theorem inventory_delivered (evs : list discovery_event) (d : Discovery) :
  discovered evs d ->
  (is_Some (d_svc d) -> d_running d = true \/ d_timer d = true) /\
  taken evs ++ option_list (d_invch d) `sublist_of` sent evs /\
  (forall pre post, evs = pre ++ post -> sent pre = [] -> Forall (fun ev => ~ starts_connector ev) post ->
     taken evs ++ option_list (d_invch d) = sent evs) /\
  (forall i s, d_subs d !! i = Some s ->
     (exists pre post d0, evs = pre ++ Subscribe :: post /\ discovered pre d0 /\ length (d_subs d0) = i /\
        su_received s = (if d_connected d0 then [d_inv d0] else []) ++ map shown (drop (length (taken pre)) (taken evs))) /\
     su_sent s `prefix_of` map newInventory (su_received s) /\
     (su_msg s = None -> su_sent s = map newInventory (su_received s)) /\
     (is_Some (d_svc d) -> d_connected d = true -> list.last (su_received s) = Some (d_inv d))).
Proof.
  intros H. destruct (discovery_reachable_ok evs d H) as [Ha Hs Hc]. pose proof (discovered_followed evs d H) as Hf.
  split; [done|]. split; [rewrite <- (fo_queue _ _ Hf); apply taken_sublist|].
  split; [intros pre post ->; by apply taken_all|]. intros i s Hi.
  pose proof (list_elem_of_lookup_2 _ _ _ Hi) as Hin.
  pose proof (proj1 (list.Forall_forall _ _) Hs s Hin) as [Hm Hq]. split; [by apply (fo_subs _ _ Hf)|]. split_and!.
  - rewrite <- Hq. by exists (map newInventory (su_pending s)).
  - intros Hn. rewrite Hm in Hn. apply fmap_None in Hn. destruct (su_pending s); [|done]. simpl in Hq. by rewrite app_nil_r in Hq.
  - intros Hsv Hcn. exact (proj1 (list.Forall_forall _ _) (Hc Hsv Hcn) s Hin).
Qed.

(** Whenever the service is deleted while the timer is not running, which is the case while
    the connector works, the loop waits for ever for a timer that was stopped. *)
Theorem deleted_service_hangs (d : Discovery) : d_timer d = false <-> discovery d ServiceDeleted = Some Hung.
Proof. simpl. destruct (d_timer d); split; intros H; done. Qed.

(** ** The states a connector sends *)

(** The loss of a stream is told before anything else is, and so is the end of the connector
    where the channel has room: after the last inventory comes the word that it is void. *)
Theorem runner_tells_loss (evs : list run_event) (r : Runner) :
  ran true evs r -> ru_stream r = false \/ ru_ended r = true ->
  ru_states r = [] \/ list.last (ru_states r) = Some inventoryEventDeleted.
Proof.
  intros H. induction H as [|evs r ev r' H IH Hst]; [by left|]. unfold inventoryRun in Hst.
  destruct (ru_ended r); [done|]. destruct (ru_stream r) eqn:Hs.
  - destruct ev as [| | |pauseOver|c|canceled|]; try done; injection Hst as <-; simpl.
    + by intros [].
    + intros _. right. destruct canceled; simpl; apply list.last_snoc.
    + intros _. right. apply list.last_snoc.
  - assert (IH' := IH (or_introl eq_refl)).
    destruct ev as [| | |[]|c|canceled|]; try done; injection Hst as <-; simpl; intros Hor; auto;
      try (right; apply list.last_snoc); try (by destruct Hor).
Qed.

End Client.

Module ClientExamples.

#[local] Existing Instance milli_api.

Definition ex_service : Service := mkService "operator-inventory" "akash-services" [("http", 8080); ("grpc", 8081)]%string%Z.
Definition ex_cluster : Cluster milli_api := mkCluster [] [].

Definition ex_events : list (discovery_event (api := milli_api)) :=
  [Subscribe; ServiceAdded ex_service true; StateSent (inventoryEventUpdated ex_cluster); StateReceived; Delivered 0].

(** The state after some events. *)
Fixpoint run_events (d : Discovery (api := milli_api)) (evs : list discovery_event) : option Discovery :=
  match evs with
  | [] => Some d
  | ev :: rest => match discovery d ev with Some (Next d') => run_events d' rest | _ => None end
  end.

Lemma run_discovered pre d evs d' :
  discovered pre d -> run_events d evs = Some d' -> discovered (pre ++ evs) d'.
Proof.
  revert pre d. induction evs as [|ev evs IH]; intros pre d Hp H; simpl in H.
  - injection H as <-. by rewrite app_nil_r.
  - destruct (discovery d ev) as [[d1|]|] eqn:E; try done.
    rewrite (cons_middle ev pre evs), app_assoc. eapply IH; [|done]. by econstructor.
Qed.

Definition ex_state : Discovery (api := milli_api) :=
  mkDiscovery (Some ex_service) ex_cluster true false true None
    [mkSubscriber [] None [ex_cluster] [newInventory ex_cluster]].

Lemma ex_reached : discovered ex_events ex_state.
Proof. exact (run_discovered [] discovery_init ex_events ex_state discovered_init eq_refl). Qed.

Lemma inventory_delivered_witness :
  taken ex_events ++ option_list (d_invch ex_state) = sent ex_events /\
  exists s, d_subs ex_state !! 0%nat = Some s /\ su_sent s = map newInventory (su_received s) /\
    list.last (su_received s) = Some ex_cluster /\
    (exists pre post d0, ex_events = pre ++ Subscribe :: post /\ discovered pre d0 /\
       su_received s = (if d_connected d0 then [d_inv d0] else []) ++ map shown (drop (length (taken pre)) (taken ex_events))) /\
    discovery ex_state ServiceDeleted = Some Hung.
Proof.
  destruct (inventory_delivered ex_events ex_state ex_reached) as (_ & _ & Hall & Hs).
  split; [exact (Hall [Subscribe; ServiceAdded ex_service true]
    [StateSent (inventoryEventUpdated ex_cluster); StateReceived; Delivered 0]
    eq_refl eq_refl ltac:(repeat constructor; intros []))|].
  exists (mkSubscriber [] None [ex_cluster] [newInventory ex_cluster]).
  destruct (Hs 0%nat _ eq_refl) as ((pre & post & d0 & E & Hd & _ & Hr) & _ & Hsent & Hlast).
  split; [reflexivity|]. split; [exact (Hsent eq_refl)|]. split; [exact (Hlast (ex_intro _ _ eq_refl) eq_refl)|].
  split; [exists pre, post, d0; exact (conj E (conj Hd Hr))|reflexivity].
Defined.

Lemma runner_tells_loss_witness :
  exists r, ran (api := milli_api) true [Opened; Received ex_cluster; RecvFailed false] r /\
    list.last (ru_states r) = Some inventoryEventDeleted.
Proof.
  eexists. assert (H : ran (api := milli_api) true [Opened; Received ex_cluster; RecvFailed false]
    (mkRunner false false [inventoryEventUpdated ex_cluster; inventoryEventDeleted])).
  { apply (ran_step true [Opened; Received ex_cluster] (mkRunner true false [inventoryEventUpdated ex_cluster])); [|reflexivity].
    apply (ran_step true [Opened] (mkRunner true false [])); [|reflexivity].
    apply (ran_step true [] (mkRunner false false [])); [constructor|reflexivity]. }
  split; [exact H|]. destruct (runner_tells_loss _ _ H (or_introl eq_refl)) as [Hn|Hl]; [discriminate|exact Hl].
Defined.

Lemma ex_endpoint :
  connector_endpoint ex_service true false (Err "") (fun _ _ => Err ""%string) =
  Ok "operator-inventory.akash-services.svc.cluster.local:8081"%string.
Proof. vm_compute. reflexivity. Qed.

End ClientExamples.
