(* ===== verification/NullInventory.v ===== *)
(** * The inventory without an operator

    Model of [cluster/types/v1beta3/clients/inventory/inventory.go]: a client with an inventory
    of its own ([NewNull]), which is committed to by hand, and an inventory that places
    reservations on it. Its [Adjust] is an older sibling of the one in [KubeInventory]: it knows
    nothing of interconnects and runtime classes of GPUs. [charge_class], [adjust_storage] and
    [adjust_sidecar] are the same code in both; [InvMetrics] has its metrics and [InvClient] its
    subscribers. *)

From Stdlib Require Import ZArith Lia Ascii.
From stdpp Require Import base gmap list strings tactics.
From S2P Require Import Prelude Types Concrete Attrs KubeInventory InventoryProofs InvMetrics InvClient.

(** [NewResourcePair] and [NewResourcePairMilli]: capacity, allocatable and allocated. *)
Class PairConstructors (api : InventoryAPI) := {
  NewResourcePair : Z -> Z -> Z -> ResourcePair api;
  NewResourcePairMilli : Z -> Z -> Z -> ResourcePair api
}.

Definition Gi : Z := 2 ^ 30.
Definition nullClientCPU : Z := 5000.
Definition nullClientGPU : Z := 2.
Definition nullClientMemory : Z := 32 * Gi.
Definition nullClientStorage : Z := 512 * Gi.

Section Null.
Context {api : InventoryAPI}.

(** ** The cluster it starts with *)

Definition null_node `{!PairConstructors api} (name : string) (gpu : ResourcePair api) : Node api :=
  mkNode name
    (mkNodeResources (NewResourcePairMilli nullClientCPU nullClientCPU 100) []
       (NewResourcePair nullClientMemory nullClientMemory (1 * Gi)) gpu []
       (NewResourcePair nullClientStorage nullClientStorage (10 * Gi))
       (NewResourcePair 0 0 0) (NewResourcePair 0 0 0) (mkResourcePair None None None))
    (mkNodeCapabilities [] "" "" []).

Definition NewNull `{!PairConstructors api} (nodes : list string) : Cluster api :=
  mkCluster
    (match map (fun name => null_node name (NewResourcePair 0 0 0)) nodes with
     | [] => [null_node "solo" (NewResourcePair nullClientGPU nullClientGPU 1)]
     | nds => nds
     end)
    [mkClusterStorage "beta2" (NewResourcePair nullClientStorage nullClientStorage (nullClientStorage - 10 * Gi))].

(** ** Commits and subscriptions *)

(** The result of a subtraction is not looked at. *)
Definition try_sub (p : ResourcePair api) (v : Z) : ResourcePair api := default p (SubNLZ p v).

Fixpoint sub_class (classes : list (ClusterStorage api)) (class : string) (v : Z) : list (ClusterStorage api) :=
  match classes with
  | [] => []
  | cs :: rest => if String.eqb (cs_class cs) class then mkClusterStorage (cs_class cs) (try_sub (cs_quantity cs) v) :: rest
                  else cs :: sub_class rest class v
  end.

Definition commit_volume (acc : NodeResources api * list (ClusterStorage api)) (vol : Storage)
    : NodeResources api * list (ClusterStorage api) :=
  let '(nr, classes) := acc in
  let attrs := match ParseStorageAttributes (s_attrs vol) with Ok a => a | Err _ => mkStorageAttributes false "" end in
  if negb (Persistent attrs) then
    if String.eqb (Class' attrs) "ram" then
      (mkNodeResources (n_cpu nr) (n_cpu_info nr) (try_sub (n_memory nr) (s_quantity vol)) (n_gpu nr) (n_gpu_info nr)
         (n_ephemeral nr) (n_volumes_attached nr) (n_volumes_mounted nr) (n_interconnect nr), classes)
    else
      (mkNodeResources (n_cpu nr) (n_cpu_info nr) (n_memory nr) (n_gpu nr) (n_gpu_info nr)
         (try_sub (n_ephemeral nr) (s_quantity vol)) (n_volumes_attached nr) (n_volumes_mounted nr) (n_interconnect nr),
       classes)
  else (nr, sub_class classes (Class' attrs) (s_quantity vol)).

Definition try_sub_opt {A} (f : A -> Z) (p : ResourcePair api) (o : option A) : ResourcePair api :=
  match o with Some a => try_sub p (f a) | None => p end.

Definition commit_unit (acc : NodeResources api * list (ClusterStorage api)) (u : ResourceUnit)
    : NodeResources api * list (ClusterStorage api) :=
  let '(nr, classes) := acc in
  let res := ru_res u in
  foldl commit_volume
    (mkNodeResources (try_sub_opt units (n_cpu nr) (r_cpu res)) (n_cpu_info nr)
       (try_sub_opt m_quantity (n_memory nr) (r_memory res)) (try_sub_opt units (n_gpu nr) (r_gpu res)) (n_gpu_info nr)
       (n_ephemeral nr) (n_volumes_attached nr) (n_volumes_mounted nr) (n_interconnect nr), classes)
    (r_storage res).

(** Everything is taken from the first node. *)
Definition commit (c : Cluster api) (us : list ResourceUnit) : option (Cluster api) :=
  match c_nodes c with
  | [] => None
  | nd :: rest =>
      let '(nr, classes) := foldl commit_unit (nd_resources nd, c_storage c) us in
      Some (mkCluster (mkNode (nd_name nd) nr (nd_caps nd) :: rest) classes)
  end.

Record nullInventory := mkNull { nl_cluster : Cluster api; nl_subs : list Subscriber }.

Inductive null_event := NCommit (us : list ResourceUnit) | NSubscribe | NDelivered (i : nat).

(** [run]; [None] is a panic, or an event that cannot happen. *)
Definition null_run (n : nullInventory) (ev : null_event) : option nullInventory :=
  match ev with
  | NCommit us => c ← commit (nl_cluster n) us; Some (mkNull c (map (subscriber_in c) (nl_subs n)))
  | NSubscribe => Some (mkNull (nl_cluster n) (nl_subs n ++ [subscriber_in (nl_cluster n) new_subscriber]))
  | NDelivered i => s ← nl_subs n !! i; s' ← subscriber_out s; Some (mkNull (nl_cluster n) (<[i := s']> (nl_subs n)))
  end.

(** ** One replica on one node *)

Definition null_gpu_matches (attrs : GPUAttributes) (info : GPUInfo) : option (option GPUModelAttributes) :=
  match attrs !! gi_vendor info with
  | None => None
  | Some models =>
      match ExistsOrWildcard models (gi_name info) with
      | None => None
      | Some None => Some None
      | Some (Some attr) =>
          if negb (String.eqb (RAM attr) "") && negb (String.eqb (RAM attr) (gi_memory_size info)) then None
          else if negb (String.eqb (Interface attr) "") && negb (String.eqb (Interface attr) (gi_interface info)) then None
          else Some (Some attr)
      end
  end.

Fixpoint null_gpu_pick (attrs : GPUAttributes) (infos : list GPUInfo) (reqCnt : Z)
    : option (GPUInfo * option GPUModelAttributes) :=
  match infos with
  | [] => None
  | info :: rest =>
      match null_gpu_matches attrs info with
      | None => null_gpu_pick attrs rest reqCnt
      | Some attr => if (reqCnt - 1 =? 0)%Z then Some (info, attr) else null_gpu_pick attrs rest (reqCnt - 1)
      end
  end.

Definition null_tryAdjustGPU (rp : ResourcePair api) (infos : list GPUInfo) (res : Units)
    (sparams : SchedulerParams) (teeType : TEEType) (teePlatform : TEEPlatform)
    : option (ResourcePair api * Attributes * SchedulerParams) :=
  let reqCnt := units res in
  if (reqCnt =? 0)%Z then Some (rp, u_attrs res, sparams)
  else if (q_value (Available rp) =? 0)%Z then None
  else match ParseGPUAttributes (u_attrs res) with
  | Err _ => None
  | Ok attrs =>
    match null_gpu_pick attrs infos reqCnt with
    | None => None
    | Some (info, attr) =>
      let vendor := to_lower (gi_vendor info) in
      match SubNLZ rp (units res) with
      | None => None
      | Some rp' =>
        let sparams := set_sched_gpu vendor (gi_name info) (sParamsEnsureGPU sparams) in
        let sparams := if IsCC teeType then set_runtime_class (RuntimeClassForTEEType teeType teePlatform) sparams
                       else sparams in
        Some (rp', [mkAttribute (gpu_key vendor (gi_name info) attr) "true"], sparams)
      end
    end
  end.

(** There are no claims of nodes. *)
Definition null_tryAdjust (inv : Cluster api) (node : nat) (res : Resources) (teeType : TEEType)
    (teePlatform : TEEPlatform) : ta_result api :=
  let refuse res st := mkTA inv ∅ res None st in
  match c_nodes inv !! node with
  | None => refuse res TAPanic
  | Some nd =>
  let nr := nd_resources nd in
  match r_cpu res with
  | None => refuse res TAPanic
  | Some rcpu =>
  match tryAdjustCPU (n_cpu nr) (n_cpu_info nr) rcpu with
  | None => refuse res TANodeFull
  | Some cpu =>
  match r_gpu res with
  | None => refuse res TAPanic
  | Some rgpu =>
  match null_tryAdjustGPU (n_gpu nr) (n_gpu_info nr) rgpu emptySchedulerParams teeType teePlatform with
  | None => refuse res TANodeFull
  | Some (gpu, gattrs, sparams) =>
  let res := set_gpu_attrs gattrs res in
  match r_memory res with
  | None => refuse res TAPanic
  | Some rmem =>
  match SubNLZ (n_memory nr) (m_quantity rmem) with
  | None => refuse res TANodeFull
  | Some mem =>
  match adjust_storage (nd_caps nd) (r_storage res) mem (n_ephemeral nr) (c_storage inv) with
  | Err st => refuse res st
  | Ok (mem, eph, classes) =>
  match adjust_sidecar teeType teePlatform sparams cpu mem with
  | None => refuse res TANodeFull
  | Some (sparams, cpu, mem) =>
    let nr' := mkNodeResources cpu (n_cpu_info nr) mem gpu (n_gpu_info nr) eph
                 (n_volumes_attached nr) (n_volumes_mounted nr) (n_interconnect nr) in
    mkTA (mkCluster (<[node := mkNode (nd_name nd) nr' (nd_caps nd)]> (c_nodes inv)) classes) ∅ res
      (if decide (sparams = emptySchedulerParams) then None else Some sparams) TAOk
  end end end end end end end end end.

(** ** A whole reservation *)

Fixpoint null_replica_loop (orig : list ResourceUnit) (cfg : InventoryOptions) (node i : nat) (shared : bool) (count : nat)
    (adjusted : Resources) (st : adj_state api) : adj_state api * loop_exit :=
  match count with
  | O => (st, FallThrough)
  | S count' =>
      let r := null_tryAdjust (a_inv st) node adjusted (opt_TEEType cfg) (opt_TEEPlatform cfg) in
      let adjusted := ta_res r in
      let st := mkAdj (ta_inv r) ∅ (a_resources st)
                  (if shared then alter (set_res adjusted) i (a_adjusted st) else a_adjusted st) (a_cparams st) in
      match ta_stat r with
      | TAPanic => (st, BreakNodes (Some PanicNilDeref))
      | TAClusterFull => (st, BreakNodes None)
      | TANodeFull => (st, ContinueNodes)
      | TAOk =>
          let next st := null_replica_loop orig cfg node i shared count' adjusted
            (mkAdj (a_inv st) ∅ (alter (set_count count') i (a_resources st)) (a_adjusted st) (a_cparams st)) in
          if shared then
            next (mkAdj (a_inv st) ∅ (a_resources st) (a_adjusted st) (<[r_id adjusted := ta_sparams r]> (a_cparams st)))
          else if decide (Some adjusted = ru_res <$> a_adjusted st !! i) then
            if decide (ta_sparams r = default None (a_cparams st !! r_id adjusted)) then next st
            else (st, BreakNodes (Some ErrGroupResourceMismatch))
          else (st, BreakNodes (Some ErrGroupResourceMismatch))
      end
  end.

Fixpoint null_unit_loop (orig : list ResourceUnit) (cfg : InventoryOptions) (node : nat) (n : nat) (st : adj_state api)
    : adj_state api * loop_exit :=
  match n with
  | O => (st, FallThrough)
  | S i =>
      match orig !! i, a_resources st !! i, a_adjusted st !! i with
      | Some o, Some unit, Some adj =>
          let shared := (ru_count o =? ru_count unit)%nat in
          match null_replica_loop orig cfg node i shared (ru_count unit) (ru_res adj) st with
          | (st, FallThrough) =>
              if decide (ru_count <$> a_resources st !! i = Some O)
              then (mkAdj (a_inv st) ∅ (remove_at i (a_resources st)) (a_adjusted st) (a_cparams st), GotoNodes)
              else null_unit_loop orig cfg node i st
          | other => other
          end
      | _, _, _ => (st, BreakNodes (Some PanicNilDeref))
      end
  end.

Fixpoint null_node_loop (orig : list ResourceUnit) (cfg : InventoryOptions) (nodes : list nat) (st : adj_state api)
    : adj_state api * loop_exit :=
  match nodes with
  | [] => (st, FallThrough)
  | nodeIdx :: rest =>
      match null_unit_loop orig cfg nodeIdx (length (a_resources st)) st with
      | (st, FallThrough) | (st, ContinueNodes) => null_node_loop orig cfg rest st
      | other => other
      end
  end.

Fixpoint null_nodes_loop (orig : list ResourceUnit) (cfg : InventoryOptions) (fuel : nat) (st : adj_state api)
    : option (adj_state api * option AdjustErr) :=
  match fuel with
  | O => None
  | S fuel' =>
      match null_node_loop orig cfg (seq 0 (length (c_nodes (a_inv st)))) st with
      | (st, GotoNodes) => null_nodes_loop orig cfg fuel' st
      | (st, BreakNodes e) => Some (st, e)
      | (st, _) => Some (st, None)
      end
  end.

Definition null_Adjust (inv : Cluster api) (res : ReservationGroup) (cfg : InventoryOptions)
    : option (Cluster api * ReservationGroup * option AdjustErr) :=
  let orig := GetResourceUnits (rg_resources res) in
  match null_nodes_loop orig cfg (S (length orig)) (mkAdj inv ∅ orig orig ∅) with
  | None => None
  | Some (st, err) =>
      match a_resources st with
      | [] => Some (if DryRun cfg then inv else a_inv st,
                    mkReservationGroup (rg_resources res) (a_adjusted st) (a_cparams st), None)
      | _ => Some (inv, res, Some (default ErrInsufficientCapacity err))
      end
  end.

Definition null_Metrics (inv : Cluster api) : option Metrics_t := cluster_metrics inv.

End Null.

Arguments nullInventory api : clear implicits.

(** ** It agrees with the inventory of the operator *)

Section Agreement.
Context {api : InventoryAPI}.

Definition no_gpu (res : Resources) : Prop := units_of (r_gpu res) = 0%Z.

Lemma try_agrees (inv : Cluster api) node res t p fabric :
  no_gpu res -> tryAdjust inv node res t p fabric false "" ∅ = null_tryAdjust inv node res t p.
Proof.
  intros Hg. unfold tryAdjust, null_tryAdjust. cbn [String.eqb negb andb].
  destruct (c_nodes inv !! node) as [nd|]; [|done]. destruct (r_cpu res) as [rcpu|]; [|done].
  destruct (tryAdjustCPU _ _ _) as [cpu|]; [|done]. cbn [tryAdjustInterconnect negb].
  unfold no_gpu in Hg. destruct (r_gpu res) as [rgpu|]; [|done]. simpl in Hg.
  unfold tryAdjustGPU, null_tryAdjustGPU. by rewrite Hg.
Qed.

Lemma try_keeps_no_gpu (inv : Cluster api) node res t p :
  no_gpu res -> no_gpu (ta_res (null_tryAdjust inv node res t p)).
Proof.
  intros Hg. rewrite <- (try_agrees inv node res t p "") by done.
  destruct (same_demand_fields _ _ (tryAdjust_same_demand t p "" false "" inv node res ∅)) as (_ & _ & _ & _ & Hu).
  unfold no_gpu in *. destruct (r_gpu (ta_res _)), (r_gpu res); simpl in *; simplify_eq/=; congruence.
Qed.

Lemma null_no_claims (inv : Cluster api) node res t p : ta_claims (null_tryAdjust inv node res t p) = ∅.
Proof. unfold null_tryAdjust. repeat (case_match; try reflexivity). Qed.

(** No unit wants an interconnect. *)
Definition plain (env : adj_env) : Prop :=
  (forall i, default false (e_requires env !! i) = false) /\ (forall i, default ""%string (e_group env !! i) = ""%string).

Definition loop_ok (st : adj_state api) : Prop :=
  a_claims st = ∅ /\ Forall (fun u => no_gpu (ru_res u)) (a_adjusted st).

Lemma adjusted_no_gpu (res : Resources) i (us : list ResourceUnit) :
  no_gpu res -> Forall (fun u => no_gpu (ru_res u)) us -> Forall (fun u => no_gpu (ru_res u)) (alter (set_res res) i us).
Proof. intros Hr Hus. apply Forall_alter; [done|]. by intros. Qed.

Lemma replica_loop_agrees env node i shared count adjusted (st : adj_state api) :
  plain env -> no_gpu adjusted -> loop_ok st ->
  null_replica_loop (e_orig env) (e_opts env) node i shared count adjusted st =
    replica_loop env node i shared count adjusted st /\
  loop_ok (replica_loop env node i shared count adjusted st).1.
Proof.
  intros [Hreq Hgrp]. revert adjusted st. induction count as [|count IH]; intros adjusted st Hg [Hc Ha]; [done|].
  simpl. rewrite Hreq, Hgrp, Hc, try_agrees by done.
  set (r := null_tryAdjust _ _ _ _ _). assert (Hr : no_gpu (ta_res r)) by (by apply try_keeps_no_gpu).
  assert (Hcl : ta_claims r = ∅) by apply null_no_claims. rewrite Hcl.
  assert (Hadj : Forall (fun u => no_gpu (ru_res u))
    (if shared then alter (set_res (ta_res r)) i (a_adjusted st) else a_adjusted st))
    by (destruct shared; [by apply adjusted_no_gpu|done]).
  destruct (ta_stat r); try done.
  destruct shared; [by apply IH|]. case_decide; [|done]. case_decide; [|done]. by apply IH.
Qed.

Lemma unit_loop_agrees env node n (st : adj_state api) :
  plain env -> loop_ok st ->
  null_unit_loop (e_orig env) (e_opts env) node n st = unit_loop env node n st /\ loop_ok (unit_loop env node n st).1.
Proof.
  intros Hp. revert st. induction n as [|i IH]; intros st Hst; [done|]. simpl.
  destruct (e_orig env !! i) as [o|]; [|done]. destruct (a_resources st !! i) as [u|]; [|done].
  destruct (a_adjusted st !! i) as [adj|] eqn:Hadj; [|done].
  assert (Hg : no_gpu (ru_res adj)) by (by eapply (Forall_lookup_1 _ _ _ _ (proj2 Hst))).
  destruct (replica_loop_agrees env node i (ru_count o =? ru_count u)%nat (ru_count u) (ru_res adj) st Hp Hg Hst) as [-> Hok].
  destruct (replica_loop _ _ _ _ _ _ _) as [st' []]; try done. case_decide; [|by apply IH].
  simpl in Hok. destruct Hok as [Hc Ha]. by rewrite Hc.
Qed.

Lemma node_loop_agrees env nodes (st : adj_state api) :
  plain env -> loop_ok st ->
  null_node_loop (e_orig env) (e_opts env) nodes st = node_loop env nodes st /\ loop_ok (node_loop env nodes st).1.
Proof.
  intros Hp. revert st. induction nodes as [|n nodes IH]; intros st Hst; [done|]. simpl.
  destruct (unit_loop_agrees env n (length (a_resources st)) st Hp Hst) as [-> Hok].
  destruct (unit_loop _ _ _ _) as [st' []]; try done; by apply IH.
Qed.

Lemma nodes_loop_agrees env fuel (st : adj_state api) :
  plain env -> loop_ok st -> null_nodes_loop (e_orig env) (e_opts env) fuel st = nodes_loop env fuel st.
Proof.
  intros Hp. revert st. induction fuel as [|fuel IH]; intros st Hst; [done|]. simpl.
  destruct (node_loop_agrees env (seq 0 (length (c_nodes (a_inv st)))) st Hp Hst) as [-> Hok].
  destruct (node_loop _ _ _) as [st' []]; try done. by apply IH.
Qed.

Lemma no_gpu_plain us :
  Forall (fun u => ResourceInterconnectGroup (ru_res u) = None) us ->
  interconnect_groups us = Ok (replicate (length us) false, replicate (length us) ""%string).
Proof. induction 1 as [|u us Hu Hus IH]; simpl; [done|]. by rewrite Hu, IH. Qed.

Lemma replicate_default {A} n (x : A) i : default x (replicate n x !! i) = x.
Proof.
  destruct (replicate n x !! i) as [y|] eqn:E; [|done]. by apply lookup_replicate in E as [-> _].
Qed.

(** For orders without GPUs the two inventories answer alike: the same placement, the same
    cluster afterwards, the same error. *)
Theorem null_agrees (c : Cluster api) (res : ReservationGroup) (cfg : InventoryOptions) :
  Forall (fun u => no_gpu (ru_res u) /\ ResourceInterconnectGroup (ru_res u) = None) (GetResourceUnits (rg_resources res)) ->
  null_Adjust c res cfg =
  (fun r => (sanitized r.1.1, r.1.2, r.2)) <$> Adjust (mkInventory c c) res cfg.
Proof.
  intros H. unfold null_Adjust, Adjust. rewrite no_gpu_plain by (eapply list.Forall_impl; [exact H|]; by intros ? []).
  set (n := length _). set (env := adjust_env res cfg (replicate n false, replicate n ""%string)).
  pose proof (nodes_loop_agrees env (S n) (adjust_init (mkInventory c c) res)) as Hl.
  change (e_orig env) with (GetResourceUnits (rg_resources res)) in Hl. change (e_opts env) with cfg in Hl.
  change (adjust_init (mkInventory c c) res)
    with (mkAdj c ∅ (GetResourceUnits (rg_resources res)) (GetResourceUnits (rg_resources res)) ∅) in *.
  rewrite Hl.
  - destruct (nodes_loop env (S n) _) as [[st e]|]; [|done]. simpl. destruct (a_resources st); [|done]. by destruct (DryRun cfg).
  - split; intros i; apply replicate_default.
  - split; [done|]. simpl. eapply list.Forall_impl; [exact H|]. by intros ? [].
Qed.

End Agreement.

(** ** Commits *)

Section Commits.
Context {api : InventoryAPI}.

Inductive null_ran : Cluster api -> list null_event -> nullInventory api -> Prop :=
| null_ran_init c : null_ran c [] (mkNull c [])
| null_ran_step c evs n ev n' : null_ran c evs n -> null_run n ev = Some n' -> null_ran c (evs ++ [ev]) n'.

(** Every subscriber is offered every inventory since it subscribed, in order, and the last
    one it was given is the current one. *)
Theorem null_delivered (c : Cluster api) (evs : list null_event) (n : nullInventory api) (s : Subscriber) :
  null_ran c evs n -> s ∈ nl_subs n ->
  su_sent s `prefix_of` map newInventory (su_received s) /\ list.last (su_received s) = Some (nl_cluster n).
Proof.
  intros H. assert (Hok : Forall (fun s => subscriber_ok s /\ list.last (su_received s) = Some (nl_cluster n)) (nl_subs n)).
  { induction H as [c|c evs n ev n' H IH Hst]; [constructor|].
    destruct ev as [us| |i]; simpl in Hst.
    - destruct (commit _ _) as [c'|]; [|done]. injection Hst as <-. simpl. apply list.Forall_fmap.
      eapply list.Forall_impl; [exact IH|]. intros x [Hx _]. split; [by apply subscriber_in_ok|]. simpl. apply list.last_snoc.
    - injection Hst as <-. simpl. apply Forall_app. split; [exact IH|]. apply Forall_singleton.
      split; [apply subscriber_in_ok, new_subscriber_ok|done].
    - destruct (nl_subs n !! i) as [x|] eqn:Hi; [|done]. simpl in Hst. destruct (subscriber_out x) as [x'|] eqn:Ho; [|done].
      injection Hst as <-. simpl. apply Forall_insert; [exact IH|].
      pose proof (Forall_lookup_1 _ _ _ _ IH Hi) as [Hx Hl]. split; [by eapply subscriber_out_ok|].
      unfold subscriber_out in Ho. destruct (su_msg x); [|done]. by injection Ho as <-. }
  intros Hin. apply (proj1 (list.Forall_forall _ _)) with (x := s) in Hok; [|done]. destruct Hok as [[_ Hq] Hl].
  split; [|done]. rewrite <- Hq. by exists (map newInventory (su_pending s)).
Qed.

(** A commit takes the CPU units of an order, which are thousandths, for whole ones: more than
    there are whole ones, and nothing is taken. *)
Theorem commit_counts_cores {laws : InventoryLaws api} (nd : Node api) (rest : list (Node api)) classes
    (cpu : Units) (count : nat) (c' : Cluster api) :
  commit (mkCluster (nd :: rest) classes)
    [mkResourceUnit (mkResources 1 (Some cpu) None [] None []) count] = Some c' ->
  exists nd', c_nodes c' = nd' :: rest /\
    if (units cpu <=? q_value (Available (n_cpu (nd_resources nd))))%Z
    then q_value (Available (n_cpu (nd_resources nd'))) = (q_value (Available (n_cpu (nd_resources nd))) - units cpu)%Z
    else n_cpu (nd_resources nd') = n_cpu (nd_resources nd).
Proof.
  unfold commit. simpl. intros [= <-]. eexists. split; [reflexivity|]. simpl. unfold try_sub.
  destruct (SubNLZ _ _) as [p|] eqn:E; simpl.
  - apply sub_charges in E as [Hle Heq]. destruct (Z.leb_spec (units cpu) (q_value (Available (n_cpu (nd_resources nd)))));
      [done|lia].
  - apply sub_refuses in E. destruct (Z.leb_spec (units cpu) (q_value (Available (n_cpu (nd_resources nd))))); [lia|done].
Qed.

End Commits.

Module NullExamples.

#[local] Instance milli_pairs : PairConstructors milli_api := {|
  NewResourcePair c a u := mkResourcePair (Some (1000 * c)%Z : option (@Quantity milli_api)) (Some (1000 * a)%Z) (Some (1000 * u)%Z);
  NewResourcePairMilli c a u := mkResourcePair (Some c : option (@Quantity milli_api)) (Some a) (Some u)
|}.

Definition ex_order : ReservationGroup := Examples.group_of [mkResourceUnit (resources_of 1 1000 100 0 []) 3].

Lemma null_agrees_witness :
  exists c' res', null_Adjust (NewNull (api := milli_api) []) ex_order Examples.no_opts = Some (c', res', None).
Proof.
  rewrite (null_agrees (NewNull []) ex_order Examples.no_opts); [|repeat constructor].
  destruct (Adjust_returns (mkInventory (NewNull []) (NewNull [])) ex_order Examples.no_opts) as (i & r & e & E).
  assert (H : (snd <$> Adjust (mkInventory (NewNull []) (NewNull [])) ex_order Examples.no_opts) = Some None)
    by (vm_compute; reflexivity).
  rewrite E in H |- *. injection H as ->. exists (sanitized i), r. reflexivity.
Defined.

(** One core is a thousand units: the stand-in has five, and takes none. *)
Definition ex_commit : list ResourceUnit := [mkResourceUnit (mkResources 1 (Some (mkUnits 1000 [])) None [] None []) 1].
Definition ex_solo : Node milli_api := null_node "solo" (NewResourcePair nullClientGPU nullClientGPU 1).

Lemma commit_counts_cores_witness :
  exists c' nd', commit (mkCluster [ex_solo] []) ex_commit = Some c' /\ c_nodes c' = [nd'] /\
    n_cpu (nd_resources nd') = n_cpu (nd_resources ex_solo).
Proof.
  destruct (commit (mkCluster [ex_solo] []) ex_commit) as [c'|] eqn:E; [|discriminate].
  destruct (commit_counts_cores ex_solo [] [] (mkUnits 1000 []) 1 c' E) as (nd' & H1 & H2).
  exists c', nd'. split; [reflexivity|]. split; [exact H1|exact H2].
Defined.

Lemma ex_null_ran : null_ran (NewNull (api := milli_api) []) [NSubscribe]
  (mkNull (NewNull []) [subscriber_in (NewNull []) new_subscriber]).
Proof. apply (null_ran_step _ [] (mkNull (NewNull []) [])); [constructor|reflexivity]. Qed.

Lemma null_delivered_witness :
  list.last (su_received (subscriber_in (NewNull (api := milli_api) []) new_subscriber)) = Some (NewNull []).
Proof. exact (proj2 (null_delivered _ _ _ _ ex_null_ran (list_elem_of_here _ _))). Defined.

End NullExamples.
