(* ===== verification/InventoryService.v ===== *)
(** * The inventory service

    Model of [cluster/inventory.go], [cluster/reservation.go] and
    [cluster/util/endpoint_quantity.go]: the reservations of the provider, the
    committed copy of a group, leased IP and external port accounting, and the
    event loop [run] as a function from a state and an event to the next
    state. *)

From stdpp Require Import base gmap list strings relations tactics.
From Stdlib Require Import ZArith Lia Ascii.
From S2P Require Import Prelude Types Concrete Attrs KubeInventory InventoryProofs.

(** Code of other modules the service calls: [sdlutil.ComputeCommittedResources]
    and its commit level, [inventoryV1.NewResourcePair], and the running totals
    of package [provider]. *)
Class ServiceAPI (api : InventoryAPI) := {
  Level : Type;
  ComputeCommittedResources : Level -> Z -> Z;
  NewResourcePair : Z -> Z -> Z -> ResourcePair api;
  ResourcesMetric : Type;
  NewResourcesMetric : ResourcesMetric;
  AddResourceUnits : ResourcesMetric -> list ResourceUnit -> ResourcesMetric
}.

(** ** Endpoints *)

Definition accumEndpointsOfResources (r : Resources) (kind : EndpointKind) (accum : gset Z)
    : gset Z :=
  foldl (fun acc e => if decide (Kind e = kind) then {[ SequenceNumber e ]} ∪ acc else acc)
    accum (r_endpoints r).

Definition GetEndpointQuantityOfResourceGroup (rg : ResourceGroup) (kind : EndpointKind) : Z :=
  Z.of_nat (size (foldl (fun acc u => accumEndpointsOfResources (ru_res u) kind acc) ∅
                    (GetResourceUnits rg))).

Definition GetEndpointQuantityOfResourceUnits (r : Resources) (kind : EndpointKind) : Z :=
  Z.of_nat (size (accumEndpointsOfResources r kind ∅)).

(** ** Reservations *)

(** [clusterParams interface{}]: unset, the settings [Adjust] computed, or the
    settings a recovered deployment carried, by pointer or by value. *)
Inductive ClusterParams :=
| CPNone
| CPReservation (p : ReservationClusterSettings)
| CPSettingsPtr (p : option (list (option SchedulerParams)))
| CPSettings (p : list (option SchedulerParams)).

Record reservation := mkReservation {
  rv_order : OrderID;
  rv_resources : ResourceGroup;
  rv_adjusted : list ResourceUnit;
  rv_params : ClusterParams;
  endpointQuantity : Z;
  allocated : bool;
  ipsConfirmed : bool;
  teeType : TEEType
}.

Definition newReservation (order : OrderID) (rg : ResourceGroup) : reservation :=
  mkReservation order rg [] CPNone
    (GetEndpointQuantityOfResourceGroup rg Endpoint_LEASED_IP) false false TEETypeNone.

Definition SetAllocatedResources (v : list ResourceUnit) (r : reservation) : reservation :=
  mkReservation (rv_order r) (rv_resources r) v (rv_params r) (endpointQuantity r) (allocated r)
    (ipsConfirmed r) (teeType r).
Definition SetClusterParams (v : ClusterParams) (r : reservation) : reservation :=
  mkReservation (rv_order r) (rv_resources r) (rv_adjusted r) v (endpointQuantity r) (allocated r)
    (ipsConfirmed r) (teeType r).
Definition set_allocated (b : bool) (r : reservation) : reservation :=
  mkReservation (rv_order r) (rv_resources r) (rv_adjusted r) (rv_params r) (endpointQuantity r) b
    (ipsConfirmed r) (teeType r).
Definition set_confirmed (b : bool) (r : reservation) : reservation :=
  mkReservation (rv_order r) (rv_resources r) (rv_adjusted r) (rv_params r) (endpointQuantity r)
    (allocated r) b (teeType r).
Definition set_tee (t : TEEType) (r : reservation) : reservation :=
  mkReservation (rv_order r) (rv_resources r) (rv_adjusted r) (rv_params r) (endpointQuantity r)
    (allocated r) (ipsConfirmed r) t.

Definition is_kind (k : EndpointKind) (e : Endpoint) : bool := bool_decide (Kind e = k).

(** Ports are counted per resource, whatever its replica count. *)
Definition reservationCountEndpoints (r : reservation) : Z :=
  foldl (fun cnt u =>
    foldl (fun c e => if is_kind Endpoint_RANDOM_PORT e then wrap64 (c + 1) else c)
      cnt (r_endpoints (ru_res u))) 0%Z (GetResourceUnits (rv_resources r)).

Definition teeTypeFromAttrs (attrs : Attributes) : TEEType :=
  match find_index (fun a => String.eqb (Key a) "tee/type" &&
                             match ParseTEEType (Value a) with Some _ => true | None => false end)
          attrs with
  | Some (_, a) => default TEETypeNone (ParseTEEType (Value a))
  | None => TEETypeNone
  end.

Definition teeTypeFromResourceGroup (rg : ResourceGroup) : TEEType :=
  match rg with
  | RGGroupSpec g | RGGroupSpecPtr g | RGGroup g | RGGroupPtr g =>
      teeTypeFromAttrs (gs_requirements g)
  | RGManifestGroup _ _ => TEETypeNone
  end.

Definition teeTypeFromSchedulerParams (sparams : list (option SchedulerParams)) : TEEType :=
  let usable sp :=
    match sp with
    | Some sp => negb (String.eqb (sp_tee_type sp) "") && negb (sp_attestation_disabled sp) &&
                 match ParseTEEType (sp_tee_type sp) with Some _ => true | None => false end
    | None => false
    end in
  match find_index usable sparams with
  | Some (_, Some sp) => default TEETypeNone (ParseTEEType (sp_tee_type sp))
  | _ => TEETypeNone
  end.

Definition teeTypeFromClusterParams (cp : ClusterParams) : TEEType :=
  match cp with
  | CPSettingsPtr None => TEETypeNone
  | CPSettingsPtr (Some sparams) | CPSettings sparams => teeTypeFromSchedulerParams sparams
  | CPReservation _ | CPNone => TEETypeNone
  end.

Definition placementRequirements (rg : ResourceGroup) : Attributes :=
  match rg with
  | RGGroupPtr g | RGGroup g | RGGroupSpecPtr g | RGGroupSpec g => gs_requirements g
  | RGManifestGroup _ _ => []
  end.

(** Inventory options are functions on the option record. *)
Definition WithTEEType (t : TEEType) (o : InventoryOptions) : InventoryOptions :=
  mkInventoryOptions (DryRun o) t (opt_TEEPlatform o).
Definition WithTEEPlatform (p : TEEPlatform) (o : InventoryOptions) : InventoryOptions :=
  mkInventoryOptions (DryRun o) (opt_TEEType o) p.
Definition apply_opts (opts : list (InventoryOptions -> InventoryOptions)) : InventoryOptions :=
  foldl (fun cfg opt => opt cfg) (mkInventoryOptions false TEETypeNone TEEPlatformNone) opts.

(** ** Leased IPs *)

Record AddressUsage := mkAddressUsage { ip_Available : Z; ip_InUse : Z }.

Definition availableLeasedIPs (total inUse reserved : Z) : Z :=
  if (inUse >=? total)%Z then 0%Z
  else let available := wrap64 (total - inUse) in
       if (reserved >=? available)%Z then 0%Z else wrap64 (available - reserved).

Section Service.
Context {api : InventoryAPI} {sapi : ServiceAPI api}.

Record Config := mkConfig {
  CPUCommitLevel : Level; GPUCommitLevel : Level; MemoryCommitLevel : Level;
  StorageCommitLevel : Level;
  InventoryExternalPortQuantity : Z;
  has_ip_client : bool;
  teePlatform : TEEPlatform
}.

Record inventoryServiceState := mkState {
  inventory_ : option (inventory api);
  ipAddrUsage : AddressUsage;
  reservations : list reservation
}.

Definition countReservedIPs (state : inventoryServiceState) : Z :=
  foldl (fun reserved entry =>
    if ipsConfirmed entry then reserved else wrap64 (reserved + endpointQuantity entry))
    0%Z (reservations state).

Definition leasedIPStatus (state : inventoryServiceState) : ResourcePair api :=
  let reserved := countReservedIPs state in
  let alloc := wrap64 (ip_InUse (ipAddrUsage state) + reserved) in
  NewResourcePair (to_int64 (ip_Available (ipAddrUsage state)))
    (to_int64 (ip_Available (ipAddrUsage state))) (to_int64 alloc).

(** ** The committed copy of a group *)

(** Protobuf getters answer the zero value on nil. *)
Definition commit_units (level : Level) (u : option Units) : Units :=
  match u with
  | Some u => mkUnits (ComputeCommittedResources level (units u)) (u_attrs u)
  | None => mkUnits (ComputeCommittedResources level 0) []
  end.

Definition commit_memory (level : Level) (m : option Memory) : Memory :=
  match m with
  | Some m => mkMemory (ComputeCommittedResources level (m_quantity m)) (m_attrs m)
  | None => mkMemory (ComputeCommittedResources level 0) []
  end.

Definition commit_resources (cfg : Config) (r : Resources) : Resources :=
  mkResources (r_id r)
    (Some (commit_units (CPUCommitLevel cfg) (r_cpu r)))
    (Some (commit_memory (MemoryCommitLevel cfg) (r_memory r)))
    (map (fun v => mkStorage (s_name v)
                     (ComputeCommittedResources (StorageCommitLevel cfg) (s_quantity v))
                     (s_attrs v)) (r_storage r))
    (Some (commit_units (GPUCommitLevel cfg) (r_gpu r)))
    (r_endpoints r).

Definition resourcesToCommit (cfg : Config) (rg : ResourceGroup) : ResourceGroup :=
  RGGroupSpec (mkGroupSpec (GetName rg) (placementRequirements rg)
    (map (fun u => mkResourceUnit (commit_resources cfg (ru_res u)) (ru_count u))
       (GetResourceUnits rg))).

Definition adjustOpts (cfg : Config) (t : TEEType) : list (InventoryOptions -> InventoryOptions) :=
  [WithTEEPlatform (teePlatform cfg)] ++
  (if decide (t = TEETypeNone) then [] else [WithTEEType t]).

(** ** Requests *)

Inductive inventoryError :=
| errReservationNotFound
| errInventoryNotAvailableYet
| errNoLeasedIPsAvailable
| errInsufficientIPs (wanted : Z)
| errAdjust (e : AdjustErr)
| ErrInvalidResource (idx : nat).

Inductive inventoryResponse :=
| RespNone
| RespValue (r : reservation)
| RespErr (e : inventoryError).

(** [Adjust] on a reservation of the service: on success the allocated
    resources and the cluster parameters are stored in it. ([None] does not
    occur: [Adjust_returns].) *)
Definition adjust_reservation (cfg : Config) (inv : inventory api) (r : reservation)
    : inventory api * reservation * option AdjustErr :=
  match Adjust inv (mkReservationGroup (rv_resources r) (rv_adjusted r) ∅)
          (apply_opts (adjustOpts cfg (teeType r))) with
  | Some (inv', rg', None) =>
      (inv', SetClusterParams (CPReservation (rg_cluster_params rg'))
               (SetAllocatedResources (rg_allocated rg') r), None)
  | Some (inv', _, Some e) => (inv', r, Some e)
  | None => (inv, r, Some ErrInsufficientCapacity)
  end.

(** A call on the nil inventory panics: [None]. *)
Definition handleRequest (cfg : Config) (order : OrderID) (rg : ResourceGroup)
    (state : inventoryServiceState) : option (inventoryServiceState * inventoryResponse) :=
  let r := newReservation order (resourcesToCommit cfg rg) in
  let ips :=
    if negb (endpointQuantity r =? 0)%Z then
      if negb (has_ip_client cfg) then Err errNoLeasedIPsAvailable
      else
        let reserved := countReservedIPs state in
        let available := availableLeasedIPs (ip_Available (ipAddrUsage state))
                           (ip_InUse (ipAddrUsage state)) reserved in
        if (endpointQuantity r >? available)%Z then Err (errInsufficientIPs (endpointQuantity r))
        else Ok r
    else Ok (set_confirmed true r) in
  match ips with
  | Err e => Some (state, RespErr e)
  | Ok r =>
      let r := set_tee (teeTypeFromResourceGroup rg) r in
      match inventory_ state with
      | None => None
      | Some inv =>
          match adjust_reservation cfg inv r with
          | (inv', _, Some e) =>
              Some (mkState (Some inv') (ipAddrUsage state) (reservations state),
                    RespErr (errAdjust e))
          | (inv', r', None) =>
              Some (mkState (Some inv') (ipAddrUsage state) (reservations state ++ [r']),
                    RespValue r')
          end
      end
  end.

(** The checks [reserve] makes before it hands the request to the loop. *)
Fixpoint reserve_check (idx : nat) (us : list ResourceUnit) : option inventoryError :=
  match us with
  | [] => None
  | u :: rest =>
      match r_cpu (ru_res u), r_gpu (ru_res u), r_memory (ru_res u) with
      | Some _, Some _, Some _ => reserve_check (S idx) rest
      | _, _, _ => Some (ErrInvalidResource idx)
      end
  end.

(** ** Status *)

(** [sanitizeStatusQuantity] compares through the pointer: nil panics. *)
Definition sanitizeStatusQuantity (q : option Quantity) : option (option Quantity) :=
  match q with
  | None => None
  | Some q => Some (Some (if q_negative q then q_set q 0 else q))
  end.

Definition sanitizeStatusResourcePair (p : ResourcePair api) : option (ResourcePair api) :=
  a ← sanitizeStatusQuantity (rp_capacity p);
  b ← sanitizeStatusQuantity (rp_allocatable p);
  c ← sanitizeStatusQuantity (rp_allocated p);
  Some (mkResourcePair a b c).

Definition sanitizeStatusNodeResources (r : NodeResources api) : option (NodeResources api) :=
  cpu ← sanitizeStatusResourcePair (n_cpu r);
  mem ← sanitizeStatusResourcePair (n_memory r);
  gpu ← sanitizeStatusResourcePair (n_gpu r);
  eph ← sanitizeStatusResourcePair (n_ephemeral r);
  att ← sanitizeStatusResourcePair (n_volumes_attached r);
  mnt ← sanitizeStatusResourcePair (n_volumes_mounted r);
  Some (mkNodeResources cpu (n_cpu_info r) mem gpu (n_gpu_info r) eph att mnt (n_interconnect r)).

Definition sanitizeStatusCluster (c : Cluster api) : option (Cluster api) :=
  nodes ← mapM (fun nd => r ← sanitizeStatusNodeResources (nd_resources nd);
                          Some (mkNode (nd_name nd) r (nd_caps nd))) (c_nodes c);
  storage ← mapM (fun s => q ← sanitizeStatusResourcePair (cs_quantity s);
                           Some (mkClusterStorage (cs_class s) q)) (c_storage c);
  Some (mkCluster nodes storage).

Record ReservationsMetric := mkReservationsMetric { rm_count : Z; rm_resources : ResourcesMetric }.

Record ProviderInventory := mkProviderInventory {
  pi_cluster : Cluster api;
  pi_leasedIP : ResourcePair api;
  pi_pending : ReservationsMetric;
  pi_active : ReservationsMetric
}.

Definition add_metric (m : ReservationsMetric) (r : reservation) : ReservationsMetric :=
  mkReservationsMetric (rm_count m + 1)
    (AddResourceUnits (rm_resources m) (GetResourceUnits (rv_resources r))).

(** [None]: a nil quantity was dereferenced. *)
Definition getStatusV1 (state : inventoryServiceState)
    : option (result inventoryError ProviderInventory) :=
  match inventory_ state with
  | None => Some (Err errInventoryNotAvailableYet)
  | Some inv =>
      cluster ← sanitizeStatusCluster (Snapshot inv);
      let m0 := mkReservationsMetric 0 NewResourcesMetric in
      let '(pending, active) :=
        foldl (fun '(p, a) r => if allocated r then (p, add_metric a r) else (add_metric p r, a))
          (m0, m0) (reservations state) in
      Some (Ok (mkProviderInventory cluster (leasedIPStatus state) pending active))
  end.

(** ** The event loop *)

Record confirmationItem := mkConfirm { orderID : OrderID; expectedQuantity : Z }.

(** The variables of [run] and the fields of the service it updates. *)
Record runState := mkRun {
  state_ : inventoryServiceState;
  availableExternalPorts : Z;
  reservech : bool;
  runch : option (list confirmationItem);
  timer : bool;
  invupch : option (inventory api);
  currinv : option (inventory api);
  signalch : bool
}.

Definition set_state (st : inventoryServiceState) (s : runState) : runState :=
  mkRun st (availableExternalPorts s) (reservech s) (runch s) (timer s) (invupch s) (currinv s)
    (signalch s).
Definition set_reservations (l : list reservation) (st : inventoryServiceState)
    : inventoryServiceState := mkState (inventory_ st) (ipAddrUsage st) l.
Definition set_ports (p : Z) (s : runState) : runState :=
  mkRun (state_ s) p (reservech s) (runch s) (timer s) (invupch s) (currinv s) (signalch s).
Definition trySignal (s : runState) : runState :=
  mkRun (state_ s) (availableExternalPorts s) (reservech s) (runch s) (timer s) (invupch s)
    (currinv s) true.

(** The IPs a check asks about: allocated and not yet confirmed. *)
Definition runCheck_items (state : inventoryServiceState) : list confirmationItem :=
  map (fun r => mkConfirm (rv_order r) (endpointQuantity r))
    (filter (fun r => ipsConfirmed r = false /\ allocated r = true) (reservations state)).

(** What the check finds, given the number of addresses the IP operator
    reports per order ([None] for an error). *)
Definition runCheck_confirmed (items : list confirmationItem) (status : OrderID -> option Z)
    : list OrderID :=
  map orderID (filter (fun it => status (orderID it) = Some (expectedQuantity it)) items).

Definition updateIPs (cfg : Config) (s : runState) : runState :=
  if has_ip_client cfg then
    match runch s with
    | None => mkRun (state_ s) (availableExternalPorts s) false
                (Some (runCheck_items (state_ s))) false (invupch s) (currinv s) (signalch s)
    | Some _ => mkRun (state_ s) (availableExternalPorts s) false (runch s) (timer s) (invupch s)
                  (currinv s) (signalch s)
    end
  else if negb (reservech s) && bool_decide (is_Some (inventory_ (state_ s))) then
    mkRun (state_ s) (availableExternalPorts s) true (runch s) (timer s) (invupch s) (currinv s)
      (signalch s)
  else s.

Definition same_group (order : OrderID) (name : string) (r : reservation) : bool :=
  bool_decide (rv_order r = order) && String.eqb (GetName (rv_resources r)) name.

(** A deployment's status, for the first reservation of its order and group. *)
Definition on_deployment (order : OrderID) (name : string) (deployed : bool) (s : runState)
    : runState :=
  match find_index (same_group order name) (reservations (state_ s)) with
  | None => s
  | Some (i, res) =>
      let s' := set_state (set_reservations
                  (<[i := set_allocated deployed res]> (reservations (state_ s))) (state_ s)) s in
      if Bool.eqb deployed (allocated res) then s'
      else
        let n := reservationCountEndpoints res in
        let p := availableExternalPorts s in
        let s' := set_ports (if deployed then wrap64 (p - n) else wrap64 (p + n)) s' in
        match currinv s', invupch s' with
        | Some inv, None =>
            mkRun (state_ s') (availableExternalPorts s') (reservech s') (runch s') (timer s')
              (Some inv) (currinv s') (signalch s')
        | _, _ => s'
        end
  end.

Definition on_unreserve (order : OrderID) (s : runState) : runState * inventoryResponse :=
  match find_index (fun r => bool_decide (rv_order r = order)) (reservations (state_ s)) with
  | None => (s, RespErr errReservationNotFound)
  | Some (i, res) =>
      let s' := set_state (set_reservations (remove_at i (reservations (state_ s))) (state_ s)) s in
      (if allocated res
       then set_ports (wrap64 (availableExternalPorts s + reservationCountEndpoints res)) s'
       else s', RespValue res)
  end.

Definition on_lookup (order : OrderID) (name : string) (s : runState) : inventoryResponse :=
  match find_index (same_group order name) (reservations (state_ s)) with
  | None => RespErr errReservationNotFound
  | Some (_, res) => RespValue res
  end.

(** Pending reservations are charged to a new inventory again; one that no
    longer fits is only logged. *)
Fixpoint readjust (cfg : Config) (inv : inventory api) (rs : list reservation)
    : inventory api * list reservation :=
  match rs with
  | [] => (inv, [])
  | r :: rest =>
      if allocated r then let '(inv', rest') := readjust cfg inv rest in (inv', r :: rest')
      else
        let '(inv1, r', _) := adjust_reservation cfg inv r in
        let '(inv', rest') := readjust cfg inv1 rest in
        (inv', r' :: rest')
  end.

Definition on_inventory (cfg : Config) (inv : inventory api) (s : runState) : runState :=
  let st := state_ s in
  let s := mkRun (mkState (Some inv) (ipAddrUsage st) (reservations st)) (availableExternalPorts s)
             (reservech s) (runch s) (timer s) None (Some inv) (signalch s) in
  let s := updateIPs cfg s in
  let '(inv', rs) := readjust cfg inv (reservations st) in
  trySignal (set_state (mkState (Some inv') (ipAddrUsage st) rs) s).

(** Marks the first reservation of every confirmed order. *)
Definition confirm_order (rs : list reservation) (order : OrderID) : list reservation :=
  match find_index (fun r => bool_decide (rv_order r = order)) rs with
  | Some (i, r) => <[i := set_confirmed true r]> rs
  | None => rs
  end.

Definition on_run (items : list confirmationItem) (usage : option AddressUsage)
    (status : OrderID -> option Z) (s : runState) : runState :=
  let st := state_ s in
  let st' := match usage with
             | None => st
             | Some u => mkState (inventory_ st) u
                           (foldl confirm_order (reservations st)
                              (runCheck_confirmed items status))
             end in
  trySignal (mkRun st' (availableExternalPorts s) true None true (invupch s) (currinv s)
               (signalch s)).

Inductive event :=
| EvDeployment (order : OrderID) (group : string) (deployed : bool)
| EvTimer
| EvReserve (order : OrderID) (rg : ResourceGroup)
| EvLookup (order : OrderID) (name : string)
| EvUnreserve (order : OrderID)
| EvInventory (inv : option (inventory api))
| EvInventoryUpdate
| EvRunResult (usage : option AddressUsage) (status : OrderID -> option Z)
| EvStatusV1
| EvSignal.

(** What a turn of the loop does: the event's channel is not ready; the
    service panics; or it goes on. *)
Inductive outcome :=
| Disabled
| Panicked
| Stepped (s : runState) (resp : inventoryResponse).

Definition run_step (cfg : Config) (s : runState) (ev : event) : outcome :=
  match ev with
  | EvDeployment order group deployed =>
      Stepped (updateIPs cfg (on_deployment order group deployed s)) RespNone
  | EvTimer =>
      if timer s then
        Stepped (updateIPs cfg (mkRun (state_ s) (availableExternalPorts s) (reservech s) (runch s)
                   false (invupch s) (currinv s) (signalch s))) RespNone
      else Disabled
  | EvReserve order rg =>
      if reservech s then
        match handleRequest cfg order rg (state_ s) with
        | None => Panicked
        | Some (st, resp) => Stepped (set_state st s) resp
        end
      else Disabled
  | EvLookup order name => Stepped s (on_lookup order name s)
  | EvUnreserve order => let '(s', resp) := on_unreserve order s in Stepped s' resp
  | EvInventory None => Stepped s RespNone
  | EvInventory (Some inv) =>
      Stepped (mkRun (state_ s) (availableExternalPorts s) (reservech s) (runch s) (timer s)
                 (Some inv) (currinv s) (signalch s)) RespNone
  | EvInventoryUpdate =>
      match invupch s with
      | None => Disabled
      | Some inv => Stepped (on_inventory cfg inv s) RespNone
      end
  | EvRunResult usage status =>
      match runch s with
      | None => Disabled
      | Some items => Stepped (on_run items usage status s) RespNone
      end
  | EvStatusV1 =>
      match getStatusV1 (state_ s) with
      | None => Panicked
      | Some (Err e) => Stepped s (RespErr e)
      | Some (Ok _) => Stepped s RespNone
      end
  | EvSignal =>
      if signalch s then
        match getStatusV1 (state_ s) with
        | None => Panicked
        | Some _ => Stepped (mkRun (state_ s) (availableExternalPorts s) (reservech s) (runch s)
                               (timer s) (invupch s) (currinv s) false) RespNone
        end
      else Disabled
  end.

(** [newInventoryService] rebuilds the reservations of the deployments found in
    the cluster. *)
Definition recovered (d : LeaseID * ResourceGroup * ClusterParams) : reservation :=
  let '(lid, group, cp) := d in
  set_tee (teeTypeFromClusterParams cp)
    (SetClusterParams cp (newReservation (lease_order lid) group)).

Definition run_init (cfg : Config) (deployments : list (LeaseID * ResourceGroup * ClusterParams))
    : runState :=
  mkRun (mkState None (mkAddressUsage 0 0) (map recovered deployments))
    (InventoryExternalPortQuantity cfg) false None false None None false.

Definition step (cfg : Config) (s s' : runState) : Prop :=
  exists ev resp, run_step cfg s ev = Stepped s' resp.

End Service.

Arguments Config api {sapi}.
Arguments inventoryServiceState api : clear implicits.
Arguments runState api : clear implicits.
Arguments event api : clear implicits.

(** ** External ports *)

Section Ports.
Context {api : InventoryAPI} {sapi : ServiceAPI api}.

Definition port_weight (r : reservation) : Z :=
  if allocated r then reservationCountEndpoints r else 0%Z.

(** Ports free plus ports held by allocated reservations. *)
Definition ports_total (s : runState api) : Z :=
  wrap64 (availableExternalPorts s + sumZ port_weight (reservations (state_ s))).

Lemma ports_total_eq (s s' : runState api) :
  availableExternalPorts s' = availableExternalPorts s ->
  sumZ port_weight (reservations (state_ s')) = sumZ port_weight (reservations (state_ s)) ->
  ports_total s' = ports_total s.
Proof. unfold ports_total. by intros -> ->. Qed.

Lemma adjust_reservation_weight cfg inv r inv' r' e :
  adjust_reservation cfg inv r = (inv', r', e) ->
  port_weight r' = port_weight r /\ allocated r' = allocated r /\ rv_order r' = rv_order r.
Proof. unfold adjust_reservation. go_cases; by intros [= <- <- <-]. Qed.

Lemma readjust_weight cfg inv rs inv' rs' :
  readjust cfg inv rs = (inv', rs') -> sumZ port_weight rs' = sumZ port_weight rs.
Proof.
  revert inv inv' rs'. induction rs as [|r rs IH]; intros inv inv' rs'; simpl; [by intros [= _ <-]|].
  destruct (allocated r).
  - destruct (readjust cfg inv rs) eqn:E. intros [= _ <-]. simpl. by rewrite (IH _ _ _ E).
  - destruct (adjust_reservation cfg inv r) as [[i1 r'] e] eqn:Ea.
    destruct (readjust cfg i1 rs) eqn:E. intros [= _ <-]. simpl.
    apply adjust_reservation_weight in Ea as (-> & _). by rewrite (IH _ _ _ E).
Qed.

Lemma confirm_order_weight rs order : sumZ port_weight (confirm_order rs order) = sumZ port_weight rs.
Proof.
  unfold confirm_order. destruct (find_index _ rs) as [[i r]|] eqn:E; [|done].
  apply find_index_Some in E as (Hi & _). rewrite (sumZ_insert _ _ _ r) by done.
  replace (port_weight (set_confirmed true r)) with (port_weight r) by done. lia.
Qed.

Lemma confirm_orders_weight orders rs :
  sumZ port_weight (foldl confirm_order rs orders) = sumZ port_weight rs.
Proof.
  revert rs. induction orders as [|o os IH]; intros rs; simpl; [done|].
  by rewrite IH, confirm_order_weight.
Qed.

Lemma updateIPs_frame cfg (s : runState api) :
  state_ (updateIPs cfg s) = state_ s /\
  availableExternalPorts (updateIPs cfg s) = availableExternalPorts s /\
  invupch (updateIPs cfg s) = invupch s /\ currinv (updateIPs cfg s) = currinv s.
Proof. unfold updateIPs. by go_cases. Qed.

Lemma updateIPs_ports cfg (s : runState api) : ports_total (updateIPs cfg s) = ports_total s.
Proof. destruct (updateIPs_frame cfg s) as (H1 & H2 & _). apply ports_total_eq; by rewrite ?H1, ?H2. Qed.

Lemma on_deployment_ports order name deployed (s : runState api) :
  ports_total (on_deployment order name deployed s) = ports_total s.
Proof.
  unfold on_deployment. destruct (find_index _ _) as [[i res]|] eqn:E; [|done].
  apply find_index_Some in E as (Hi & _).
  assert (forall b, sumZ port_weight (<[i := set_allocated b res]> (reservations (state_ s))) =
    (sumZ port_weight (reservations (state_ s)) - port_weight res +
     (if b then reservationCountEndpoints res else 0))%Z) as Hsum
    by (intros b; by rewrite (sumZ_insert _ _ _ res)).
  destruct (Bool.eqb deployed (allocated res)) eqn:Hb.
  - apply eqb_prop in Hb as ->. apply ports_total_eq; [done|]. simpl. rewrite Hsum.
    unfold port_weight. destruct (allocated res); lia.
  - assert (port_weight res = if deployed then 0 else reservationCountEndpoints res)%Z as Hw.
    { unfold port_weight. by destruct deployed, (allocated res). }
    cbv zeta. set (p := if deployed then wrap64 _ else _).
    assert (wrap64 (p + sumZ port_weight (<[i := set_allocated deployed res]>
              (reservations (state_ s)))) = ports_total s) as Hp.
    { rewrite Hsum, Hw. unfold p, ports_total.
      destruct deployed; unfold wrap64; rewrite wrap_add_l; f_equal; lia. }
    rewrite <- Hp. go_cases.
Qed.

Lemma on_unreserve_ports order (s : runState api) :
  ports_total (on_unreserve order s).1 = ports_total s.
Proof.
  unfold on_unreserve. destruct (find_index _ _) as [[i res]|] eqn:E; [|done].
  apply find_index_Some in E as (Hi & _). simpl.
  unfold ports_total. destruct (allocated res) eqn:Ha; simpl;
    rewrite (sumZ_remove_at _ _ _ res) by done; unfold port_weight at 2; rewrite Ha.
  - unfold wrap64. rewrite wrap_add_l. f_equal. lia.
  - f_equal. lia.
Qed.

Lemma handleRequest_ports cfg order rg (st st' : inventoryServiceState api) resp :
  handleRequest cfg order rg st = Some (st', resp) ->
  sumZ port_weight (reservations st') = sumZ port_weight (reservations st).
Proof.
  unfold handleRequest. set (ips := if negb _ then _ else _). destruct ips as [r|e] eqn:Hips; [|by intros [= <- _]].
  assert (allocated r = false) as Hr.
  { revert Hips. unfold ips. repeat (case_match; try done); by intros [= <-]. }
  clear ips Hips. destruct (inventory_ st); [|done].
  destruct (adjust_reservation _ _ _) as [[inv' r'] [e|]] eqn:Ea; intros [= <- _]; [done|].
  simpl. rewrite sumZ_app. simpl. apply adjust_reservation_weight in Ea as (_ & Ha & _).
  unfold port_weight at 2. rewrite Ha. simpl. rewrite Hr. lia.
Qed.

Lemma run_step_ports cfg (s s' : runState api) ev resp :
  run_step cfg s ev = Stepped s' resp -> ports_total s' = ports_total s.
Proof.
  destruct ev as [order name deployed| |order rg|order name|order|[inv|]| |usage status| |]; simpl.
  - intros [= <- _]. by rewrite updateIPs_ports, on_deployment_ports.
  - destruct (timer s); [|done]. intros [= <- _]. by rewrite updateIPs_ports.
  - destruct (reservech s); [|done].
    destruct (handleRequest _ _ _ _) as [[st r]|] eqn:E; [|done]. intros [= <- _].
    apply ports_total_eq; [done|]. simpl. by eapply handleRequest_ports.
  - by intros [= <- _].
  - pose proof (on_unreserve_ports order s) as H. destruct (on_unreserve order s). by intros [= <- _].
  - by intros [= <- _].
  - by intros [= <- _].
  - destruct (invupch s); [|done]. intros [= <- _]. unfold on_inventory.
    destruct (readjust _ _ _) as [inv' rs] eqn:E. apply ports_total_eq; simpl.
    + by destruct (updateIPs_frame cfg (mkRun (mkState (Some i) (ipAddrUsage (state_ s))
        (reservations (state_ s))) (availableExternalPorts s) (reservech s) (runch s) (timer s)
        None (Some i) (signalch s))) as (_ & -> & _).
    + by eapply readjust_weight.
  - destruct (runch s); [|done]. intros [= <- _]. apply ports_total_eq; [done|]. simpl.
    destruct usage; simpl; [apply confirm_orders_weight|done].
  - destruct (getStatusV1 _) as [[]|]; by intros [= <- _].
  - destruct (signalch s); [|done]. destruct (getStatusV1 _); by intros [= <- _].
Qed.

Lemma recovered_unallocated ds : sumZ port_weight (map recovered ds) = 0%Z.
Proof. induction ds as [|[[l g] c] ds IH]; simpl; [done|]. rewrite IH. done. Qed.

End Ports.

(** External ports are conserved by the inventory service: whatever events
    the loop has handled since it started, the ports it believes free and the
    random-port endpoints of the reservations it holds allocated add up to the
    configured quantity (as 64-bit unsigned integers). *)
Theorem external_ports_conserved {api : InventoryAPI} {sapi : ServiceAPI api} (cfg : Config api)
    (deployments : list (LeaseID * ResourceGroup * ClusterParams)) (s : runState api) :
  rtc (step cfg) (run_init cfg deployments) s ->
  ports_total s = wrap64 (InventoryExternalPortQuantity cfg).
Proof.
  intros Hr. apply (rtc_preserves (step cfg)
    (fun s => ports_total s = wrap64 (InventoryExternalPortQuantity cfg))) in Hr; [done| |].
  - intros x y Hx (ev & resp & Hs). by rewrite (run_step_ports _ _ _ _ _ Hs).
  - unfold ports_total; simpl. by rewrite recovered_unallocated, Z.add_0_r.
Qed.

(** ** Leased IPs *)

Section IPs.
Context {api : InventoryAPI} {sapi : ServiceAPI api}.

Definition ip_weight (r : reservation) : Z :=
  if ipsConfirmed r then 0%Z else endpointQuantity r.

(** The addresses reserved and not yet seen by the IP operator. *)
Definition reserved_ips (st : inventoryServiceState api) : Z := sumZ ip_weight (reservations st).

(** Machine counters of a state that fit their width. *)
Record ips_wf (st : inventoryServiceState api) : Prop := {
  wf_available : is_uint 64 (ip_Available (ipAddrUsage st));
  wf_inuse : is_uint 64 (ip_InUse (ipAddrUsage st));
  wf_reserved : (reserved_ips st < 2 ^ 64)%Z;
  wf_quantities : forall r, r ∈ reservations st -> (0 <= endpointQuantity r)%Z
}.

Lemma countReservedIPs_sum st : countReservedIPs st = wrap64 (reserved_ips st).
Proof.
  unfold countReservedIPs, reserved_ips.
  assert (forall rs acc, foldl (fun reserved entry => if ipsConfirmed entry then reserved
            else wrap64 (reserved + endpointQuantity entry)) (wrap64 acc) rs
          = wrap64 (acc + sumZ ip_weight rs)) as H.
  { intros rs. induction rs as [|r rs IH]; intros acc; simpl; [by rewrite Z.add_0_r|].
    assert (ip_weight r = if ipsConfirmed r then 0 else endpointQuantity r)%Z as -> by done.
    destruct (ipsConfirmed r); [by rewrite IH|].
    replace (wrap64 (wrap64 acc + endpointQuantity r)) with (wrap64 (acc + endpointQuantity r))
      by (symmetry; apply wrap_add_l).
    rewrite IH. f_equal. lia. }
  exact (H (reservations st) 0%Z).
Qed.

Lemma countReservedIPs_exact st : ips_wf st -> countReservedIPs st = reserved_ips st.
Proof.
  intros Hwf. rewrite countReservedIPs_sum. apply wrap_id. split; [|apply Hwf].
  apply sumZ_nonneg. intros r Hr. unfold ip_weight. destruct (ipsConfirmed r); [lia|].
  by apply (wf_quantities _ Hwf).
Qed.

Lemma availableLeasedIPs_exact total inUse reserved :
  is_uint 64 total -> is_uint 64 inUse -> (0 <= reserved)%Z ->
  availableLeasedIPs total inUse reserved = Z.max 0 (total - inUse - reserved).
Proof.
  unfold is_uint, availableLeasedIPs. intros Ht Hi Hr.
  destruct (Z.geb_spec inUse total); [lia|].
  unfold wrap64. rewrite (wrap_id 64 (total - inUse)) by (unfold is_uint; lia).
  destruct (Z.geb_spec reserved (total - inUse)); [lia|].
  rewrite wrap_id by (unfold is_uint; lia). lia.
Qed.

Lemma adjust_reservation_ips cfg inv r inv' r' e :
  adjust_reservation cfg inv r = (inv', r', e) ->
  ip_weight r' = ip_weight r /\ endpointQuantity r' = endpointQuantity r.
Proof. unfold adjust_reservation. go_cases; by intros [= <- <- <-]. Qed.

End IPs.

(** C2: leased IPs are never over-committed by a reservation: when a request
    for leased IPs is accepted, the addresses in use and all addresses reserved
    but not yet in use still fit the pool, the new reservation included; and a
    request that would not fit is refused with the state unchanged. *)
Theorem leased_ips_not_overcommitted {api : InventoryAPI} {sapi : ServiceAPI api} (cfg : Config api)
    (order : OrderID) (rg : ResourceGroup) (st : inventoryServiceState api) :
  ips_wf st ->
  let q := GetEndpointQuantityOfResourceGroup (resourcesToCommit cfg rg) Endpoint_LEASED_IP in
  let free := (ip_Available (ipAddrUsage st) - ip_InUse (ipAddrUsage st) - reserved_ips st)%Z in
  (forall st' r, handleRequest cfg order rg st = Some (st', RespValue r) -> q <> 0%Z ->
    (ip_InUse (ipAddrUsage st') + reserved_ips st' <= ip_Available (ipAddrUsage st'))%Z) /\
  (has_ip_client cfg = true -> q <> 0%Z -> (free < q)%Z ->
    handleRequest cfg order rg st = Some (st, RespErr (errInsufficientIPs q))).
Proof.
  intros Hwf q free. unfold handleRequest. simpl. fold q.
  rewrite (countReservedIPs_exact st Hwf).
  rewrite availableLeasedIPs_exact; [|apply Hwf|apply Hwf|].
  2:{ rewrite <- (countReservedIPs_exact st Hwf), countReservedIPs_sum. by apply wrap_uint. }
  assert (0 <= q)%Z by (unfold q, GetEndpointQuantityOfResourceGroup; lia).
  split.
  - intros st' r Hh Hq. destruct (Z.eqb_spec q 0); [done|]. simpl in Hh.
    destruct (has_ip_client cfg); [|done]. simpl in Hh.
    match type of Hh with context [(q >? ?m)%Z] => destruct (Z.gtb_spec q m) as [Hgt|Hle] end; [done|].
    destruct (inventory_ st) as [inv|]; [|done].
    destruct (adjust_reservation _ _ _) as [[inv' r'] [e|]] eqn:Ea; [done|].
    simplify_eq/=. unfold reserved_ips; simpl. rewrite sumZ_app. simpl.
    apply adjust_reservation_ips in Ea as [-> _]. unfold ip_weight at 2; simpl. fold q.
    fold (reserved_ips st). lia.
  - intros Hip Hq Hfree. destruct (Z.eqb_spec q 0); [done|]. simpl. rewrite Hip. simpl.
    match goal with |- context [(q >? ?m)%Z] => destruct (Z.gtb_spec q m) end; [done|lia].
Qed.

(** ** The list of reservations *)

Section Requests.
Context {api : InventoryAPI} {sapi : ServiceAPI api}.

Lemma handleRequest_accepts cfg order rg (st st' : inventoryServiceState api) r :
  handleRequest cfg order rg st = Some (st', RespValue r) ->
  reservations st' = reservations st ++ [r] /\ rv_order r = order /\
  rv_resources r = resourcesToCommit cfg rg /\ allocated r = false /\
  teeType r = teeTypeFromResourceGroup rg /\
  exists inv inv' r0, inventory_ st = Some inv /\ inventory_ st' = Some inv' /\
    rv_resources r0 = resourcesToCommit cfg rg /\
    adjust_reservation cfg inv r0 = (inv', r, None).
Proof.
  unfold handleRequest. set (ips := if negb _ then _ else _).
  destruct ips as [r0|e] eqn:Hips; [|done].
  assert (rv_order r0 = order /\ rv_resources r0 = resourcesToCommit cfg rg /\
          allocated r0 = false) as (Ho & Hr & Ha).
  { revert Hips. unfold ips. repeat (case_match; try done); by intros [= <-]. }
  clear ips Hips. destruct (inventory_ st) as [inv|]; [|done].
  destruct (adjust_reservation _ _ _) as [[inv' r'] [e|]] eqn:Ea; [done|].
  intros [= <- <-]. simpl.
  assert (rv_resources r' = resourcesToCommit cfg rg /\
          teeType r' = teeTypeFromResourceGroup rg) as [Hr' Ht'].
  { revert Ea. unfold adjust_reservation. go_cases; by intros [= <- <-]. }
  pose proof (adjust_reservation_weight _ _ _ _ _ _ Ea) as (_ & Ha' & Ho').
  simpl in *. split_and!; try done; [congruence|congruence|].
  eexists _, _, _. split_and!; [done|done| |exact Ea]. done.
Qed.

Lemma handleRequest_refuses cfg order rg (st st' : inventoryServiceState api) e :
  handleRequest cfg order rg st = Some (st', RespErr e) -> st' = st.
Proof.
  unfold handleRequest. set (ips := if negb _ then _ else _).
  destruct ips as [r0|e0]; [|by intros [= <- _]].
  destruct (inventory_ st) as [inv|] eqn:Hi; [|done].
  destruct (adjust_reservation _ _ _) as [[inv' r'] [e0|]] eqn:Ea; [|done].
  intros [= <- _]. assert (inv' = inv) as ->; [|destruct st; simpl in *; congruence].
  revert Ea. unfold adjust_reservation.
  destruct (Adjust _ _ _) as [[[i g] [e1|]]|] eqn:HA; intros [= <- <- <-]; [|done].
  clear -HA. unfold Adjust in HA. repeat (case_match; try done); by simplify_eq.
Qed.

Lemma find_index_app_fresh {A} (p : A -> bool) l x :
  (forall y, y ∈ l -> p y = false) -> p x = true -> find_index p (l ++ [x]) = Some (length l, x).
Proof.
  intros Hl Hx. induction l as [|y l IH]; simpl; [by rewrite Hx|].
  rewrite (Hl y (list_elem_of_here _ _)), IH; [done|]. intros z Hz. apply Hl. by right.
Qed.

Lemma remove_at_last {A} (l : list A) x : remove_at (length l) (l ++ [x]) = l.
Proof. unfold remove_at. rewrite take_app_length, drop_ge by (rewrite length_app; simpl; lia). apply app_nil_r. Qed.

End Requests.

(** A reservation the service accepted for an order it held none for is
    found by a lookup with the group's name, and giving it back returns that
    reservation and restores the list of reservations and the free ports. *)
Theorem reserve_lookup_unreserve {api : InventoryAPI} {sapi : ServiceAPI api} (cfg : Config api)
    (s s1 : runState api) (order : OrderID) (rg : ResourceGroup) (r : reservation) :
  (forall x, x ∈ reservations (state_ s) -> rv_order x <> order) ->
  run_step cfg s (EvReserve order rg) = Stepped s1 (RespValue r) ->
  run_step cfg s1 (EvLookup order (GetName rg)) = Stepped s1 (RespValue r) /\
  exists s2, run_step cfg s1 (EvUnreserve order) = Stepped s2 (RespValue r) /\
    reservations (state_ s2) = reservations (state_ s) /\
    availableExternalPorts s2 = availableExternalPorts s /\
    run_step cfg s2 (EvLookup order (GetName rg)) = Stepped s2 (RespErr errReservationNotFound).
Proof.
  intros Hfresh. simpl. destruct (reservech s); [|done].
  destruct (handleRequest cfg order rg (state_ s)) as [[st resp]|] eqn:Hh; [|done].
  intros [= <- ->]. apply handleRequest_accepts in Hh as (Hl & Ho & Hr & Ha & _).
  assert (find_index (same_group order (GetName rg)) (reservations (state_ s)) = None) as Hnone.
  { apply find_index_None. intros x Hx. unfold same_group.
    by rewrite bool_decide_eq_false_2 by (by apply Hfresh). }
  unfold on_lookup, on_unreserve; simpl. rewrite Hl.
  rewrite find_index_app_fresh.
  2:{ by apply find_index_None. }
  2:{ unfold same_group. rewrite bool_decide_eq_true_2 by done. rewrite Hr. simpl.
      apply String.eqb_refl. }
  split; [done|].
  rewrite find_index_app_fresh.
  2:{ intros x Hx. apply bool_decide_eq_false_2. by apply Hfresh. }
  2:{ by apply bool_decide_eq_true_2. }
  rewrite Ha, remove_at_last. eexists. split; [done|]. simpl. by rewrite Hnone.
Qed.

(** ** The nil inventory *)

Section NilInventory.
Context {api : InventoryAPI} {sapi : ServiceAPI api}.

(** Requests are accepted only once there is an inventory. *)
Definition accepts_with_inventory (s : runState api) : Prop :=
  runch s = None /\ (reservech s = true -> is_Some (inventory_ (state_ s))).

Lemma on_deployment_inventory order name b (s : runState api) :
  inventory_ (state_ (on_deployment order name b s)) = inventory_ (state_ s) /\
  reservech (on_deployment order name b s) = reservech s /\
  runch (on_deployment order name b s) = runch s.
Proof. unfold on_deployment. go_cases. Qed.

Lemma updateIPs_no_client cfg (s : runState api) :
  has_ip_client cfg = false -> accepts_with_inventory s ->
  accepts_with_inventory (updateIPs cfg s).
Proof.
  intros Hip [Hr Ha]. unfold updateIPs. rewrite Hip.
  destruct (negb _ && _) eqn:Hc; [|by split].
  apply andb_true_iff in Hc as [_ Hc%bool_decide_eq_true]. by split.
Qed.

Lemma handleRequest_inventory cfg order rg (st st' : inventoryServiceState api) resp :
  handleRequest cfg order rg st = Some (st', resp) ->
  is_Some (inventory_ st) -> is_Some (inventory_ st').
Proof. unfold handleRequest. cbv zeta. repeat case_match; intros; simplify_eq/=; eauto. Qed.

Lemma run_step_no_client cfg (s s' : runState api) ev resp :
  has_ip_client cfg = false -> accepts_with_inventory s ->
  run_step cfg s ev = Stepped s' resp -> accepts_with_inventory s'.
Proof.
  intros Hip Hs.
  destruct ev as [order name deployed| |order rg|order name|order|[inv|]| |usage status| |]; simpl.
  - intros [= <- _]. apply updateIPs_no_client; [done|]. destruct Hs as [Hr Ha].
    destruct (on_deployment_inventory order name deployed s) as (H1 & H2 & H3).
    split; [by rewrite H3|by rewrite H1, H2].
  - destruct (timer s); [|done]. intros [= <- _]. apply updateIPs_no_client; [done|exact Hs].
  - destruct (reservech s) eqn:Hre; [|done].
    destruct (handleRequest _ _ _ _) as [[st r]|] eqn:E; [|done]. intros [= <- _].
    destruct Hs as [Hr Ha]. split; [done|]. intros _. simpl.
    eapply handleRequest_inventory; [done|]. by apply Ha.
  - by intros [= <- _].
  - unfold on_unreserve. destruct Hs as [Hr Ha].
    destruct (find_index _ _) as [[i res]|]; [destruct (allocated res)|]; by intros [= <- _].
  - by intros [= <- _].
  - by intros [= <- _].
  - destruct (invupch s) as [inv|]; [|done]. intros [= <- _]. unfold on_inventory.
    destruct (readjust _ _ _) as [inv' rs]. destruct Hs as [Hr Ha]. split; [|by eauto].
    simpl. unfold updateIPs. rewrite Hip. by case_match.
  - destruct Hs as [-> _]. done.
  - destruct (getStatusV1 _) as [[]|]; by intros [= <- _].
  - destruct (signalch s); [|done]. destruct (getStatusV1 _); by intros [= <- _].
Qed.

Lemma handleRequest_some cfg order rg (st : inventoryServiceState api) :
  is_Some (inventory_ st) -> handleRequest cfg order rg st <> None.
Proof. intros [inv Hi]. unfold handleRequest. rewrite Hi. cbv zeta. repeat case_match; done. Qed.

End NilInventory.

(** Without an IP operator client the service never takes a reservation
    request before it has an inventory, so no request dereferences the nil
    inventory, whatever events came before. *)
Theorem reserve_waits_for_inventory {api : InventoryAPI} {sapi : ServiceAPI api} (cfg : Config api)
    (deployments : list (LeaseID * ResourceGroup * ClusterParams)) (s : runState api)
    (order : OrderID) (rg : ResourceGroup) :
  has_ip_client cfg = false -> rtc (step cfg) (run_init cfg deployments) s ->
  run_step cfg s (EvReserve order rg) <> Panicked.
Proof.
  intros Hip Hr.
  apply (rtc_preserves (step cfg) accepts_with_inventory) in Hr as [_ Ha].
  - simpl. destruct (reservech s); [|done].
    destruct (handleRequest _ _ _ _) as [[]|] eqn:E; [done|].
    exfalso. by eapply handleRequest_some; [apply Ha|].
  - intros x y Hx (ev & resp & Hs). by eapply run_step_no_client.
  - done.
Qed.

(** ** Status *)

Section Status.
Context {api : InventoryAPI} {sapi : ServiceAPI api} {laws : InventoryLaws api}.

Definition pair_set (p : ResourcePair api) : Prop :=
  is_Some (rp_capacity p) /\ is_Some (rp_allocatable p) /\ is_Some (rp_allocated p).

(** Every quantity the status reads is set. *)
Definition cluster_set (c : Cluster api) : Prop :=
  Forall (fun nd => let r := nd_resources nd in
    pair_set (n_cpu r) /\ pair_set (n_memory r) /\ pair_set (n_gpu r) /\ pair_set (n_ephemeral r) /\
    pair_set (n_volumes_attached r) /\ pair_set (n_volumes_mounted r)) (c_nodes c) /\
  Forall (fun cs => pair_set (cs_quantity cs)) (c_storage c).

Lemma sanitizeStatusPair_done p :
  pair_set p ->
  sanitizeStatusResourcePair (sanitizeResourcePair p) = Some (sanitizeResourcePair p).
Proof using laws.
  intros ([a Ha] & [b Hb] & [c Hc]). unfold sanitizeResourcePair, sanitizeStatusResourcePair; simpl.
  rewrite Ha, Hb, Hc; simpl.
  assert (forall q : Quantity, (if q_negative (if q_negative q then q_set q 0 else q)
    then q_set (if q_negative q then q_set q 0 else q) 0 else if q_negative q then q_set q 0 else q)
    = if q_negative q then q_set q 0 else q) as H.
  { intros q. destruct (q_negative q) eqn:E; [by rewrite set_not_negative|by rewrite E]. }
  by rewrite !H.
Qed.

Lemma sanitizeStatusNode_done r :
  pair_set (n_cpu r) /\ pair_set (n_memory r) /\ pair_set (n_gpu r) /\ pair_set (n_ephemeral r) /\
  pair_set (n_volumes_attached r) /\ pair_set (n_volumes_mounted r) ->
  sanitizeStatusNodeResources (sanitizeNodeResources r) = Some (sanitizeNodeResources r).
Proof using laws.
  intros (H1 & H2 & H3 & H4 & H5 & H6). unfold sanitizeStatusNodeResources; simpl.
  rewrite sanitizeStatusPair_done by done; simpl.
  rewrite sanitizeStatusPair_done by done; simpl.
  rewrite sanitizeStatusPair_done by done; simpl.
  rewrite sanitizeStatusPair_done by done; simpl.
  rewrite sanitizeStatusPair_done by done; simpl.
  by rewrite sanitizeStatusPair_done by done.
Qed.

Lemma sanitizeStatus_snapshot (c : Cluster api) :
  cluster_set c ->
  sanitizeStatusCluster (Snapshot (newInventory c)) = Some (Snapshot (newInventory c)).
Proof using laws.
  intros [Hn Hs]. unfold sanitizeStatusCluster, Snapshot; simpl.
  assert (forall A (f : A -> option A) l, Forall (fun x => f x = Some x) l -> mapM f l = Some l) as HM.
  { intros A f l Hl. induction Hl as [|x l Hx Hl IH]; simpl; [done|]. by rewrite Hx, IH. }
  rewrite !HM; [done| |].
  - apply Forall_map. revert Hn. apply List.Forall_impl. intros nd Hnd. simpl.
    by rewrite sanitizeStatusNode_done.
  - apply Forall_map. revert Hs. apply List.Forall_impl. intros cs Hcs. simpl.
    by rewrite sanitizeStatusPair_done.
Qed.

Lemma metric_counts rs p a :
  let '(p', a') := foldl (fun '(p, a) r => if allocated r then (p, add_metric a r)
                          else (add_metric p r, a)) (p, a) rs in
  rm_count p' = (rm_count p + Z.of_nat (length (filter (fun r => allocated r = false) rs)))%Z /\
  rm_count a' = (rm_count a + Z.of_nat (length (filter (fun r => allocated r = true) rs)))%Z.
Proof using.
  revert p a. induction rs as [|r rs IH]; intros p a; simpl; [lia|].
  destruct (allocated r) eqn:Ha.
  - specialize (IH p (add_metric a r)). destruct (foldl _ _ _) as [p' a'].
    rewrite filter_cons_False, filter_cons_True by congruence. simpl in *. lia.
  - specialize (IH (add_metric p r) a). destruct (foldl _ _ _) as [p' a'].
    rewrite filter_cons_True, filter_cons_False by congruence. simpl in *. lia.
Qed.

End Status.

(** On an inventory built from a cluster whose quantities are all set, the
    status reports the sanitised cluster as it is (the second sanitising pass
    changes nothing), and counts every reservation once, allocated ones as
    active and the others as pending. *)
Theorem getStatusV1_reports {api : InventoryAPI} {sapi : ServiceAPI api} {laws : InventoryLaws api}
    (c : Cluster api) (usage : AddressUsage) (rs : list reservation) :
  cluster_set c ->
  exists st, getStatusV1 (mkState (Some (newInventory c)) usage rs) = Some (Ok st) /\
    pi_cluster st = Snapshot (newInventory c) /\
    rm_count (pi_pending st) = Z.of_nat (length (filter (fun r => allocated r = false) rs)) /\
    rm_count (pi_active st) = Z.of_nat (length (filter (fun r => allocated r = true) rs)).
Proof.
  intros Hc. unfold getStatusV1. cbn [inventory_ reservations].
  rewrite (sanitizeStatus_snapshot c Hc).
  pose proof (metric_counts rs (mkReservationsMetric 0 NewResourcesMetric)
    (mkReservationsMetric 0 NewResourcesMetric)) as H.
  cbn [mbind option_bind]. destruct (foldl _ _ _) as [p a]. destruct H as [Hp Ha].
  eexists. split; [done|]. split; [done|]. simpl in *. split; lia.
Qed.

(** ** Confirmations *)

Lemma confirm_order_lookup rs order i r' :
  confirm_order rs order !! i = Some r' ->
  exists r, rs !! i = Some r /\ rv_order r' = rv_order r /\
    (ipsConfirmed r' = true -> ipsConfirmed r = true \/ rv_order r = order).
Proof.
  unfold confirm_order. destruct (find_index _ rs) as [[j r]|] eqn:E; [|by eauto 6].
  apply find_index_Some in E as (Hj & Hp%bool_decide_eq_true & _).
  destruct (decide (i = j)) as [->|Hne].
  - rewrite list_lookup_insert_eq by (by eapply lookup_lt_Some). intros [= <-].
    exists r. split_and!; [done|done|]. by right.
  - rewrite list_lookup_insert_ne by done. intros H. exists r'. eauto.
Qed.

Lemma confirm_orders_lookup orders rs i r' :
  foldl confirm_order rs orders !! i = Some r' ->
  exists r, rs !! i = Some r /\ rv_order r' = rv_order r /\
    (ipsConfirmed r' = true -> ipsConfirmed r = true \/ rv_order r ∈ orders).
Proof.
  revert rs. induction orders as [|o os IH]; intros rs; simpl; [by eauto 6|].
  intros (r1 & H1 & Ho1 & Hc1)%IH. apply confirm_order_lookup in H1 as (r & Hr & Ho & Hc).
  exists r. split_and!; [done|congruence|]. intros Hconf.
  destruct (Hc1 Hconf) as [H|H]; [|right; right; congruence].
  destruct (Hc H) as [?|Ho']; [by left|]. right. rewrite Ho'. left.
Qed.

(** After a check of the IP operator a reservation's addresses count as
    confirmed only if they were already, or if the check asked about its order
    and the operator reported exactly the number of addresses it expected; no
    reservation appears or changes its order. *)
Theorem ip_confirmation_sound {api : InventoryAPI} {sapi : ServiceAPI api} (cfg : Config api)
    (s s' : runState api) (items : list confirmationItem) (u : AddressUsage)
    (status : OrderID -> option Z) (resp : inventoryResponse) (i : nat) (r' : reservation) :
  runch s = Some items ->
  run_step cfg s (EvRunResult (Some u) status) = Stepped s' resp ->
  reservations (state_ s') !! i = Some r' ->
  exists r, reservations (state_ s) !! i = Some r /\ rv_order r' = rv_order r /\
    (ipsConfirmed r' = true -> ipsConfirmed r = true \/
      exists it, it ∈ items /\ orderID it = rv_order r /\
        status (rv_order r) = Some (expectedQuantity it)).
Proof.
  intros Hrun. simpl. rewrite Hrun. intros [= <- _]. simpl. intros H.
  apply confirm_orders_lookup in H as (r & Hr & Ho & Hc). exists r. split_and!; [done|done|].
  intros Hconf. destruct (Hc Hconf) as [Hb|Hin]; [by left|right].
  unfold runCheck_confirmed in Hin. apply list_elem_of_In, in_map_iff in Hin as (it & Heq & Hin).
  apply list_elem_of_In, list_elem_of_filter in Hin as [Hst Hin].
  exists it. split_and!; [done|done|]. by rewrite <- Heq.
Qed.

(** ** Examples *)

Module ServiceExamples.
Import InventoryProofs.Examples.

#[global] Instance plain_service : ServiceAPI milli_api := {|
  Level := unit;
  ComputeCommittedResources _ v := v;
  NewResourcePair a b c := mkResourcePair (Some (1000 * a)%Z : option (@Quantity milli_api))
                             (Some (1000 * b)%Z) (Some (1000 * c)%Z);
  ResourcesMetric := nat;
  NewResourcesMetric := 0%nat;
  AddResourceUnits n us := (n + length us)%nat
|}.

Definition cfg_with (ip : bool) : Config milli_api := mkConfig tt tt tt tt 10 ip TEEPlatformNone.

Definition order1 : OrderID := mkOrderID "owner" 1 1 1.
Definition lease1 : LeaseID := mkLeaseID "owner" 1 1 1 "provider".

Definition web (kind : EndpointKind) (n : nat) : ResourceGroup :=
  RGManifestGroup "web"
    [mkResourceUnit (mkResources 1 (Some (mkUnits 1000 [])) (Some (mkMemory 100 []))
       [mkStorage "default" 10 []] (Some (mkUnits 0 []))
       (map (fun i => mkEndpoint kind (Z.of_nat i)) (seq 0 n))) 1].

(** The service with an inventory, ready to reserve. *)
Definition ready (rs : list reservation) : runState milli_api :=
  mkRun (mkState (Some small) (mkAddressUsage 2 0) rs) 10 true None false None (Some small) false.

Definition accepted (o : outcome (api := milli_api)) : option (runState milli_api * reservation) :=
  match o with Stepped s (RespValue r) => Some (s, r) | _ => None end.

Lemma accepted_inv o x :
  accepted o = Some x -> o = Stepped x.1 (RespValue x.2).
Proof. destruct o as [| |s []]; simpl; try done. by intros [= <-]. Qed.

Definition accepts (o : outcome (api := milli_api)) : bool :=
  match accepted o with Some _ => true | None => false end.

Lemma web_accepted :
  exists x, accepted (run_step (cfg_with false) (ready [])
              (EvReserve order1 (web Endpoint_RANDOM_PORT 1))) = Some x.
Proof.
  assert (accepts (run_step (cfg_with false) (ready [])
            (EvReserve order1 (web Endpoint_RANDOM_PORT 1))) = true) as H
    by (vm_compute; reflexivity).
  unfold accepts in H. destruct (accepted _); [by eauto|done].
Qed.

Definition full_pair (z : Z) : ResourcePair milli_api :=
  mkResourcePair (Some (1000 * z)%Z : option (@Quantity milli_api)) (Some (1000 * z)%Z) (Some 0%Z).

Definition one_class : Cluster milli_api := mkCluster [] [mkClusterStorage "beta2" (full_pair 5)].

Definition deployed_web : reservation :=
  set_allocated true (newReservation order1 (web Endpoint_LEASED_IP 2)).

Definition checking : runState milli_api :=
  mkRun (mkState (Some small) (mkAddressUsage 2 0) [deployed_web]) 10 false
    (Some [mkConfirm order1 2]) false None (Some small) false.

End ServiceExamples.

Lemma external_ports_conserved_witness :
  exists s, rtc (step (ServiceExamples.cfg_with false))
      (run_init (ServiceExamples.cfg_with false)
         [(ServiceExamples.lease1, ServiceExamples.web Endpoint_RANDOM_PORT 2, CPNone)]) s /\
    availableExternalPorts s = 8%Z /\ ports_total s = wrap64 10.
Proof.
  set (s0 := run_init (ServiceExamples.cfg_with false)
         [(ServiceExamples.lease1, ServiceExamples.web Endpoint_RANDOM_PORT 2, CPNone)]).
  set (s1 := updateIPs (ServiceExamples.cfg_with false)
               (on_deployment ServiceExamples.order1 "web" true s0)).
  assert (rtc (step (ServiceExamples.cfg_with false)) s0 s1) as Hr.
  { apply rtc_once. exists (EvDeployment ServiceExamples.order1 "web" true), RespNone. reflexivity. }
  exists s1. split; [exact Hr|]. split; [vm_compute; reflexivity|].
  exact (external_ports_conserved (ServiceExamples.cfg_with false) _ s1 Hr).
Defined.

Lemma leased_ips_not_overcommitted_witness :
  ips_wf (state_ (ServiceExamples.ready [])) /\
  handleRequest (ServiceExamples.cfg_with true) ServiceExamples.order1
    (ServiceExamples.web Endpoint_LEASED_IP 3) (state_ (ServiceExamples.ready [])) =
  Some (state_ (ServiceExamples.ready []), RespErr (errInsufficientIPs 3)).
Proof.
  assert (ips_wf (state_ (ServiceExamples.ready []))) as Hwf.
  { split; [by vm_compute|by vm_compute|by vm_compute|].
    no_elem. }
  split; [exact Hwf|].
  exact (proj2 (leased_ips_not_overcommitted (ServiceExamples.cfg_with true) ServiceExamples.order1
    (ServiceExamples.web Endpoint_LEASED_IP 3) (state_ (ServiceExamples.ready [])) Hwf)
    eq_refl ltac:(by vm_compute) ltac:(vm_compute; reflexivity)).
Defined.

Lemma reserve_lookup_unreserve_witness :
  exists s1 r,
    run_step (ServiceExamples.cfg_with false) (ServiceExamples.ready [])
      (EvReserve ServiceExamples.order1 (ServiceExamples.web Endpoint_RANDOM_PORT 1)) =
      Stepped s1 (RespValue r) /\
    run_step (ServiceExamples.cfg_with false) s1 (EvLookup ServiceExamples.order1 "web") =
      Stepped s1 (RespValue r).
Proof.
  destruct ServiceExamples.web_accepted as [x Hx%ServiceExamples.accepted_inv].
  exists x.1, x.2. split; [exact Hx|].
  apply (reserve_lookup_unreserve (ServiceExamples.cfg_with false) (ServiceExamples.ready []) x.1
    ServiceExamples.order1 (ServiceExamples.web Endpoint_RANDOM_PORT 1) x.2); [|exact Hx].
  no_elem.
Defined.

Lemma reserve_waits_for_inventory_witness :
  run_step (ServiceExamples.cfg_with false) (run_init (ServiceExamples.cfg_with false) [])
    (EvReserve ServiceExamples.order1 (ServiceExamples.web Endpoint_RANDOM_PORT 1)) <> Panicked.
Proof.
  apply (reserve_waits_for_inventory (ServiceExamples.cfg_with false) []); [reflexivity|apply rtc_refl].
Defined.

Lemma getStatusV1_reports_witness :
  cluster_set ServiceExamples.one_class /\
  exists st, getStatusV1 (mkState (Some (newInventory ServiceExamples.one_class))
      (mkAddressUsage 2 0) [ServiceExamples.deployed_web]) = Some (Ok st) /\
    rm_count (pi_active st) = 1%Z.
Proof.
  assert (cluster_set ServiceExamples.one_class) as Hc
    by (split; simpl; repeat constructor; eauto).
  split; [exact Hc|].
  destruct (getStatusV1_reports ServiceExamples.one_class (mkAddressUsage 2 0)
    [ServiceExamples.deployed_web] Hc) as (st & H1 & _ & _ & H4).
  exists st. split; [exact H1|]. rewrite H4. reflexivity.
Defined.

Lemma ip_confirmation_sound_witness :
  exists s' r', run_step (ServiceExamples.cfg_with true) ServiceExamples.checking
      (EvRunResult (Some (mkAddressUsage 2 2)) (fun _ => Some 2%Z)) = Stepped s' RespNone /\
    reservations (state_ s') !! 0%nat = Some r' /\ ipsConfirmed r' = true /\
    exists r, reservations (state_ ServiceExamples.checking) !! 0%nat = Some r /\
      rv_order r' = rv_order r.
Proof.
  eexists _, _. split; [reflexivity|]. split; [reflexivity|]. split; [reflexivity|].
  destruct (ip_confirmation_sound (ServiceExamples.cfg_with true) ServiceExamples.checking _
    [mkConfirm ServiceExamples.order1 2] (mkAddressUsage 2 2) (fun _ => Some 2%Z) RespNone 0%nat _
    eq_refl eq_refl eq_refl) as (r & H1 & H2 & _).
  exists r. split; [exact H1|exact H2].
Defined.

(** With an IP operator client the service can panic: a deployment event
    before the first inventory starts an IP check, the end of the check opens
    the reservation channel, and the next reservation request is adjusted
    against the nil inventory. *)
Theorem reserve_panics_before_inventory :
  exists s, rtc (step (ServiceExamples.cfg_with true))
              (run_init (ServiceExamples.cfg_with true) []) s /\
    run_step (ServiceExamples.cfg_with true) s
      (EvReserve ServiceExamples.order1 (ServiceExamples.web Endpoint_RANDOM_PORT 1)) = Panicked.
Proof.
  eexists. split.
  - eapply rtc_l; [exists (EvDeployment ServiceExamples.order1 "web" true), RespNone; reflexivity|].
    eapply rtc_l; [exists (EvRunResult (Some (mkAddressUsage 2 0)) (fun _ => None)), RespNone; reflexivity|].
    apply rtc_refl.
  - vm_compute. reflexivity.
Qed.
