(* ===== verification/Order.v ===== *)
(** * The bid engine's order

    Model of [bidengine/order.go]: one order from the moment it is seen on
    chain until it is won, lost, closed or given up. [run]'s select loop is a
    function from a state and an event to the next state and the effects it
    has on the cluster, the bus and the chain; what follows the loop is
    [cleanup]. *)

From stdpp Require Import base gmap list strings relations tactics.
From Stdlib Require Import ZArith Lia Ascii.
From S2P Require Import Prelude Types.

(** ** Data *)

(** [dtypes.GroupID], as [OrderID.GroupID()] and [LeaseID.GroupID()] give it. *)
Record GroupID := mkGroupID { g_owner : string; g_dseq : Z; g_gseq : Z }.

#[export] Instance GroupID_eq_dec : EqDecision GroupID.
Proof. solve_decision. Defined.

Definition order_group (o : OrderID) : GroupID := mkGroupID (o_owner o) (o_dseq o) (o_gseq o).
Definition lease_group (l : LeaseID) : GroupID := mkGroupID (l_owner l) (l_dseq l) (l_gseq l).

(** [sdk.DecCoin]; the amount is an integer number of the smallest decimals. *)
Record DecCoin := mkDecCoin { denom : string; amount : Z }.

Record Group := mkGroup {
  group_spec : GroupSpec;
  group_price : DecCoin;
  signed_all : list string;
  signed_any : list string
}.

Inductive BidState := BidOpen | BidOther.

Record order_cfg := mkOrderCfg {
  oc_order : OrderID;
  BidTimeout : Z;
  CreatedAtBlockHeight : Z;
  provider_address : string;
  provider_string : string
}.

Definition minTimePerBlock : Z := 5 * 1000000000.

Definition bidTimeoutEnabled (cfg : order_cfg) : bool := (BidTimeout cfg >? 0)%Z.

(** Durations are signed 64-bit nanoseconds. *)
Definition isStaleBid (cfg : order_cfg) (createdAtBlock : Z) : bool :=
  if negb (bidTimeoutEnabled cfg) then false
  else
    let blockAge := to_int64 (createdAtBlock - CreatedAtBlockHeight cfg) in
    let atLeastThisOld := to_int64 (blockAge * minTimePerBlock) in
    (atLeastThisOld >? BidTimeout cfg)%Z.

(** ** Eligibility *)

(** What [shouldBid] asks of the group spec, the provider's attributes and the
    attribute signature service. *)
Class BidAPI := {
  AuditedProvider : Type;
  ownAttrs : AuditedProvider;
  MatchAttributes : GroupSpec -> bool;
  cfg_attributes_subset : Attributes -> bool;
  GetAttributes : option Attributes;
  MatchResourcesRequirements : GroupSpec -> Attributes -> bool;
  GetAuditorAttributeSignatures : string -> option (list AuditedProvider);
  MatchRequirements : GroupSpec -> list AuditedProvider -> bool;
  ValidateBasic : GroupSpec -> bool
}.

Section ShouldBid.
Context {bapi : BidAPI}.

(** The loop over the auditors: the attributes gathered ([None] when a query
    fails) and the auditors asked. *)
Fixpoint gather (auditors gotten : list string) (acc : list AuditedProvider)
    : option (list AuditedProvider) * list string :=
  match auditors with
  | [] => (Some acc, gotten)
  | a :: rest =>
      if bool_decide (a ∈ gotten) then gather rest gotten acc
      else match GetAuditorAttributeSignatures a with
           | None => (None, gotten ++ [a])
           | Some res => gather rest (gotten ++ [a]) (acc ++ res)
           end
  end.

(** The decision ([None] for an error) and the auditors asked. *)
Definition shouldBid (MaxGroupVolumes : Z) (g : Group) : option bool * list string :=
  let spec := group_spec g in
  if negb (MatchAttributes spec) then (Some false, [])
  else if negb (cfg_attributes_subset (gs_requirements spec)) then (Some false, [])
  else match GetAttributes with
  | None => (None, [])
  | Some attr =>
      if negb (MatchResourcesRequirements spec attr) then (Some false, [])
      else if existsb (fun u => (Z.of_nat (length (r_storage (ru_res u))) >? MaxGroupVolumes)%Z)
                (gs_units spec) then (Some false, [])
      else
        let auditors := signed_all g ++ signed_any g in
        let '(signed, asked) :=
          match auditors with
          | [] => (Some true, [])
          | _ => match gather auditors [] [ownAttrs] with
                 | (None, asked) => (None, asked)
                 | (Some provAttr, asked) => (Some (MatchRequirements spec provAttr), asked)
                 end
          end in
        match signed with
        | None => (None, asked)
        | Some false => (Some false, asked)
        | Some true => if ValidateBasic spec then (Some true, asked) else (Some false, asked)
        end
  end.

End ShouldBid.

(** ** State, events and effects *)

(** A channel field is true while its runner's result has not been read. *)
Record order_state := mkOrder {
  groupch : bool;
  storedGroupCh : bool;
  clusterch : bool;
  bidch : bool;
  pricech : bool;
  queryBidCh : bool;
  shouldBidCh : bool;
  bidTimeout : bool;
  group : option Group;
  reservation_ : option OrderID;
  won : bool;
  bidPlaced : bool
}.

Inductive bid_query :=
| BidNotFound
| BidQueryError
| BidFound (st : BidState) (createdAt : Z).

Inductive order_event :=
| OShutdown
| OQueryBid (q : bid_query)
| OLeaseCreated (lid : LeaseID)
| OOrderClosed (oid : OrderID)
| OBidClosed (lid : LeaseID)
| OGroup (g : option Group)
| OShouldBid (b : option bool)
| OCluster (r : option OrderID)
| OPrice (p : option DecCoin)
| OBid (ok : bool)
| OTimeout.

Inductive effect :=
| EffShouldBid (g : Group)
| EffReserve (oid : OrderID)
| EffCalculatePrice
| EffCreateBid (price : DecCoin)
| EffLeaseWon (lid : LeaseID) (g : option Group)
| EffUnreserve (oid : OrderID)
| EffCloseBid.

(** How a turn of the loop ends: the channel was not ready, the loop goes on,
    or [break loop]. *)
Inductive turn :=
| NotReady
| Loop (s : order_state) (e : list effect)
| Break (s : order_state) (e : list effect).

Definition order_init (checkForExistingBid : bool) : order_state :=
  mkOrder (negb checkForExistingBid) checkForExistingBid false false false checkForExistingBid
    false false None None false false.

Definition on_query_bid (cfg : order_cfg) (s : order_state) (q : bid_query) : turn :=
  let resume s timeout placed :=
    Loop (mkOrder (storedGroupCh s) false (clusterch s) (bidch s) (pricech s) false (shouldBidCh s)
            timeout (group s) (reservation_ s) (won s) placed) [] in
  let stop placed :=
    Break (mkOrder (groupch s) (storedGroupCh s) (clusterch s) (bidch s) (pricech s) false
             (shouldBidCh s) (bidTimeout s) (group s) (reservation_ s) (won s) placed) [] in
  if negb (queryBidCh s) then NotReady
  else match q with
  | BidNotFound => resume s (bidTimeout s) (bidPlaced s)
  | BidQueryError => stop (bidPlaced s)
  | BidFound BidOther _ => stop (bidPlaced s)
  | BidFound BidOpen createdAt =>
      if isStaleBid cfg createdAt then stop true
      else resume s (bidTimeoutEnabled cfg) true
  end.

Definition on_lease_created (cfg : order_cfg) (s : order_state) (lid : LeaseID) : turn :=
  if negb (bool_decide (order_group (oc_order cfg) = lease_group lid)) then Loop s []
  else if negb (String.eqb (l_provider lid) (provider_address cfg)) then
    Break (mkOrder (groupch s) (storedGroupCh s) (clusterch s) (bidch s) (pricech s) (queryBidCh s)
             (shouldBidCh s) (bidTimeout s) (group s) (reservation_ s) (won s)
             (if bidch s then true else bidPlaced s)) []
  else
    Break (mkOrder (groupch s) (storedGroupCh s) (clusterch s) (bidch s) (pricech s) (queryBidCh s)
             (shouldBidCh s) (bidTimeout s) (group s) (reservation_ s) true (bidPlaced s))
      [EffLeaseWon lid (group s)].

Definition on_bid_closed (cfg : order_cfg) (s : order_state) (lid : LeaseID) : turn :=
  if won s then Loop s []
  else if negb (bool_decide (order_group (oc_order cfg) = lease_group lid)) then Loop s []
  else if negb (String.eqb (l_provider lid) (provider_string cfg)) then Loop s []
  else Break (mkOrder (groupch s) (storedGroupCh s) (clusterch s) (bidch s) (pricech s)
                (queryBidCh s) (shouldBidCh s) (bidTimeout s) (group s) (reservation_ s) (won s)
                false) [].

Definition on_group (s : order_state) (g : option Group) : turn :=
  if negb (groupch s) then NotReady
  else
    let s' shouldBid g :=
      mkOrder false (storedGroupCh s) (clusterch s) (bidch s) (pricech s) (queryBidCh s) shouldBid
        (bidTimeout s) g (reservation_ s) (won s) (bidPlaced s) in
    match g with
    | None => Break (s' (shouldBidCh s) (group s)) []
    | Some g => Loop (s' true (Some g)) [EffShouldBid g]
    end.

Definition on_should_bid (cfg : order_cfg) (s : order_state) (b : option bool) : turn :=
  if negb (shouldBidCh s) then NotReady
  else
    let s' cl :=
      mkOrder (groupch s) (storedGroupCh s) cl (bidch s) (pricech s) (queryBidCh s) false
        (bidTimeout s) (group s) (reservation_ s) (won s) (bidPlaced s) in
    match b with
    | Some true => Loop (s' true) [EffReserve (oc_order cfg)]
    | _ => Break (s' (clusterch s)) []
    end.

Definition on_cluster (s : order_state) (r : option OrderID) : turn :=
  if negb (clusterch s) then NotReady
  else
    let s' price r :=
      mkOrder (groupch s) (storedGroupCh s) false (bidch s) price (queryBidCh s) (shouldBidCh s)
        (bidTimeout s) (group s) r (won s) (bidPlaced s) in
    match r with
    | None => Break (s' (pricech s) (reservation_ s)) []
    | Some r => if bidPlaced s then Loop (s' (pricech s) (Some r)) []
                else Loop (s' true (Some r)) [EffCalculatePrice]
    end.

Definition on_price (s : order_state) (p : option DecCoin) : turn :=
  if negb (pricech s) then NotReady
  else
    let s' bid :=
      mkOrder (groupch s) (storedGroupCh s) (clusterch s) bid false (queryBidCh s) (shouldBidCh s)
        (bidTimeout s) (group s) (reservation_ s) (won s) (bidPlaced s) in
    match p, group s with
    | Some price, Some g =>
        let maxPrice := group_price g in
        if negb (String.eqb (denom maxPrice) (denom price)) then Break (s' (bidch s)) []
        else if (amount maxPrice <? amount price)%Z then Break (s' (bidch s)) []
        else Loop (s' true) [EffCreateBid price]
    | _, _ => Break (s' (bidch s)) []
    end.

Definition on_bid (cfg : order_cfg) (s : order_state) (ok : bool) : turn :=
  if negb (bidch s) then NotReady
  else
    let s' timeout placed :=
      mkOrder (groupch s) (storedGroupCh s) (clusterch s) false (pricech s) (queryBidCh s)
        (shouldBidCh s) timeout (group s) (reservation_ s) (won s) placed in
    if ok then Loop (s' (bidTimeoutEnabled cfg) true) []
    else Break (s' (bidTimeout s) (bidPlaced s)) [].

Definition order_step (cfg : order_cfg) (s : order_state) (ev : order_event) : turn :=
  match ev with
  | OShutdown => Break s []
  | OQueryBid q => on_query_bid cfg s q
  | OLeaseCreated lid => on_lease_created cfg s lid
  | OOrderClosed oid => if decide (oid = oc_order cfg) then Break s [] else Loop s []
  | OBidClosed lid => on_bid_closed cfg s lid
  | OGroup g => on_group s g
  | OShouldBid b => on_should_bid cfg s b
  | OCluster r => on_cluster s r
  | OPrice p => on_price s p
  | OBid ok => on_bid cfg s ok
  | OTimeout => if bidTimeout s then Break s [] else NotReady
  end.

(** What happens after the loop. [late] is the result of a reservation that
    was still under way. *)
Definition cleanup (s : order_state) (late : option OrderID) : list effect :=
  if won s then []
  else
    let r := if clusterch s then match late with Some r => Some r | None => reservation_ s end
             else reservation_ s in
    match r with Some oid => [EffUnreserve oid] | None => [] end ++
    (if bidPlaced s then [EffCloseBid] else []).

(** The loop from its start: the states it can be in, with the events it has
    taken and the effects it has had. *)
Inductive order_loop (cfg : order_cfg) (chk : bool)
    : list order_event -> order_state -> list effect -> Prop :=
| loop_start : order_loop cfg chk [] (order_init chk) []
| loop_turn evs s effs ev s' e :
    order_loop cfg chk evs s effs -> order_step cfg s ev = Loop s' e ->
    order_loop cfg chk (evs ++ [ev]) s' (effs ++ e).

(** A run to completion: its events, the state the loop was left in and all
    effects, those of the cleanup included. *)
Inductive order_run (cfg : order_cfg) (chk : bool) (late : option OrderID)
    : list order_event -> order_state -> list effect -> Prop :=
| run_done evs s effs ev s' e :
    order_loop cfg chk evs s effs -> order_step cfg s ev = Break s' e ->
    order_run cfg chk late (evs ++ [ev]) s' (effs ++ e ++ cleanup s' late).

(** ** The invariant of the loop *)

Definition b2n (b : bool) : nat := if b then 1%nat else 0%nat.

Definition is_reserve (e : effect) : bool := match e with EffReserve _ => true | _ => false end.
Definition is_create (e : effect) : bool := match e with EffCreateBid _ => true | _ => false end.
Definition is_final (e : effect) : bool :=
  match e with EffLeaseWon _ _ | EffUnreserve _ | EffCloseBid => true | _ => false end.

Definition count (p : effect -> bool) (effs : list effect) : nat :=
  length (List.filter p effs).

Lemma count_app p a b : count p (a ++ b) = (count p a + count p b)%nat.
Proof. unfold count. by rewrite List.filter_app, length_app. Qed.

Lemma count_zero p effs : (forall e, e ∈ effs -> p e = false) -> count p effs = 0%nat.
Proof.
  unfold count. induction effs as [|e effs IH]; intros H; simpl; [done|].
  rewrite (H e (list_elem_of_here _ _)). apply IH. intros x Hx. apply H. by right.
Qed.

(** The provider's bid is on chain as far as the order has seen. *)
Definition bid_seen (evs : list order_event) : Prop :=
  OBid true ∈ evs \/ exists h, OQueryBid (BidFound BidOpen h) ∈ evs.

Record order_inv (evs : list order_event) (s : order_state) (effs : list effect) : Prop := {
  inv_pipeline : (b2n (groupch s) + b2n (storedGroupCh s) + b2n (shouldBidCh s) +
    b2n (clusterch s) + b2n (pricech s) + b2n (bidch s) <= 1)%nat;
  inv_query : queryBidCh s = storedGroupCh s;
  inv_early : (groupch s || storedGroupCh s || shouldBidCh s = true) ->
    reservation_ s = None /\ count is_reserve effs = 0%nat /\ count is_create effs = 0%nat;
  inv_group : (shouldBidCh s || clusterch s || pricech s || bidch s = true) -> is_Some (group s);
  inv_reserve : count is_reserve effs =
    (b2n (clusterch s) + match reservation_ s with Some _ => 1 | None => 0 end)%nat;
  inv_reservation : forall r, OCluster (Some r) ∈ evs <-> reservation_ s = Some r;
  inv_cluster : clusterch s = true -> reservation_ s = None;
  inv_held : pricech s || bidch s = true -> is_Some (reservation_ s);
  inv_price : pricech s = true -> bidPlaced s = false;
  inv_create : (count is_create effs <= b2n (bidch s) + b2n (bidPlaced s))%nat /\
    (clusterch s || pricech s = true -> count is_create effs = 0%nat);
  inv_bid : bidch s = true -> bidPlaced s = false /\ (0 < count is_create effs)%nat;
  inv_seen : bidPlaced s = true <-> bid_seen evs;
  inv_offer : forall p, EffCreateBid p ∈ effs ->
    exists g, group s = Some g /\ denom (group_price g) = denom p /\
      (amount p <= amount (group_price g))%Z /\ is_Some (reservation_ s);
  inv_eligible : (exists o, EffReserve o ∈ effs) -> OShouldBid (Some true) ∈ evs;
  inv_existing : (exists h, OQueryBid (BidFound BidOpen h) ∈ evs) ->
    count is_create effs = 0%nat /\ pricech s = false /\ bidch s = false;
  inv_open : won s = false /\ forall e, e ∈ effs -> is_final e = false
}.

Lemma elem_snoc {A} (x y : A) l : x ∈ l ++ [y] <-> x ∈ l \/ x = y.
Proof. rewrite elem_of_app, list_elem_of_singleton. done. Qed.

Lemma order_inv_init chk : order_inv [] (order_init chk) [].
Proof.
  split; simpl; try done; try (by destruct chk; simpl; lia).
  - intros r. split; [by intros H%not_elem_of_nil|done].
  - split; [done|]. intros [H|[h H]]; by apply not_elem_of_nil in H.
  - no_elem.
  - intros [o H]. by apply not_elem_of_nil in H.
  - split; [done|]. no_elem.
Qed.

Definition bid_event (ev : order_event) : bool :=
  match ev with
  | OBid true | OQueryBid (BidFound BidOpen _) => true
  | _ => false
  end.

Lemma bid_seen_snoc evs ev : bid_seen (evs ++ [ev]) <-> bid_seen evs \/ bid_event ev = true.
Proof.
  unfold bid_seen. rewrite elem_snoc. split.
  - intros [[H|<-]|[h H]]; [by left; left|by right|]. apply elem_snoc in H as [H|<-];
      [left; right; by eauto|by right].
  - intros [[H|[h H]]|H]; [by left; left|right; exists h; apply elem_snoc; by left|].
    destruct ev as [|[]| | | | | | | |[]|]; try done.
    + destruct st; [|done]. right. eexists. apply elem_snoc. by right.
    + left. by right.
Qed.

Lemma reservation_snoc evs ev r :
  OCluster (Some r) ∈ evs ++ [ev] <-> OCluster (Some r) ∈ evs \/ ev = OCluster (Some r).
Proof. rewrite elem_snoc. intuition congruence. Qed.

(** No other step of the pipeline is under way when one is. *)
Ltac order_idle Hp :=
  repeat match type of Hp with
  | context [b2n ?b] => is_var b; destruct b; simpl in Hp; [exfalso; lia|]
  end; simpl in *.

(** How each part of the invariant that looks at the history moves with it. *)
Section History.
Context (evs : list order_event) (ev : order_event) (effs es : list effect).

Lemma hist_reservation (R : option OrderID) :
  (forall r, OCluster (Some r) ∈ evs <-> R = Some r) -> (forall r, ev <> OCluster (Some r)) ->
  forall r, OCluster (Some r) ∈ evs ++ [ev] <-> R = Some r.
Proof. intros H Hne r. rewrite reservation_snoc, H. naive_solver. Qed.

Lemma hist_seen (bp : bool) :
  (bp = true <-> bid_seen evs) -> bid_event ev = false -> (bp = true <-> bid_seen (evs ++ [ev])).
Proof. intros H Hne. rewrite bid_seen_snoc, Hne. naive_solver. Qed.

Lemma hist_eligible :
  ((exists o, EffReserve o ∈ effs) -> OShouldBid (Some true) ∈ evs) ->
  (forall o, EffReserve o ∉ es) ->
  ((exists o, EffReserve o ∈ effs ++ es) -> OShouldBid (Some true) ∈ evs ++ [ev]).
Proof.
  intros H Hne [o Ho]. apply elem_snoc. left. apply H. exists o.
  apply elem_of_app in Ho as [Ho|Ho]; [done|]. by destruct (Hne o).
Qed.

Lemma hist_existing (pr bi : bool) :
  ((exists h, OQueryBid (BidFound BidOpen h) ∈ evs) ->
    count is_create effs = 0%nat /\ pr = false /\ bi = false) ->
  (forall h, ev <> OQueryBid (BidFound BidOpen h)) ->
  ((exists h, OQueryBid (BidFound BidOpen h) ∈ evs ++ [ev]) ->
    count is_create effs = 0%nat /\ pr = false /\ bi = false).
Proof.
  intros H Hne [h Hh]. apply elem_snoc in Hh as [Hh|Hh]; [by eauto|]. by destruct (Hne h).
Qed.

Lemma hist_open (w : bool) :
  (w = false /\ forall e, e ∈ effs -> is_final e = false) ->
  (forall e, e ∈ es -> is_final e = false) ->
  (w = false /\ forall e, e ∈ effs ++ es -> is_final e = false).
Proof. intros [Hw H] Hes. split; [done|]. intros e [He|He]%elem_of_app; auto. Qed.

Lemma hist_offer (Q : DecCoin -> Prop) :
  (forall p, EffCreateBid p ∈ effs -> Q p) -> (forall p, EffCreateBid p ∉ es) ->
  forall p, EffCreateBid p ∈ effs ++ es -> Q p.
Proof. intros H Hes p [Hp|Hp]%elem_of_app; [auto|by destruct (Hes p)]. Qed.

End History.

(** Membership in the short lists a turn appends. *)
Ltac order_short :=
  intros; repeat match goal with
  | H : _ ∈ [] |- _ => by apply not_elem_of_nil in H
  | H : _ ∈ [_] |- _ => apply list_elem_of_singleton in H; subst
  | |- _ ∉ _ => intros ?
  end; try done.

Ltac order_history :=
  try first
    [ solve [eapply hist_reservation; [eassumption|order_short]]
    | solve [eapply hist_seen; [eassumption|reflexivity]]
    | solve [eapply hist_eligible; [eassumption|order_short]]
    | solve [eapply hist_existing; [eassumption|order_short]]
    | solve [eapply hist_open; [eassumption|order_short]]
    | solve [eapply hist_offer; [eassumption|order_short]] ].

Lemma inv_skip evs s effs ev :
  order_inv evs s effs -> bid_event ev = false -> (forall r, ev <> OCluster (Some r)) ->
  order_inv (evs ++ [ev]) s effs.
Proof.
  intros H Hb Hc. destruct H. constructor; try done.
  - intros r. rewrite reservation_snoc. naive_solver.
  - rewrite bid_seen_snoc, Hb. naive_solver.
  - intros He. apply elem_snoc. left. naive_solver.
  - apply hist_existing; [done|]. intros h ->. done.
Qed.

Lemma inv_query_turn cfg evs s effs q s' e :
  order_inv evs s effs -> on_query_bid cfg s q = Loop s' e ->
  order_inv (evs ++ [OQueryBid q]) s' (effs ++ e).
Proof.
  intros H. unfold on_query_bid. destruct (queryBidCh s) eqn:Hready; simpl; [|done].
  destruct s as [gch sch cch bch pch qch shch bt g r w bp].
  destruct H as [Hp Hq He Hg Hr Hrs Hcl Hres Hpr Hcr Hb Hse Ho Hel Hex Hop]; simpl in *. subst qch sch.
  order_idle Hp. destruct (He eq_refl) as (-> & Hr0 & Hc0).
  destruct q as [| |[] h]; simpl; try done.
  2: destruct (isStaleBid cfg h); simpl; [done|].
  all: intros [= <- <-]; constructor; simpl; rewrite ?count_app; simpl;
    rewrite ?Nat.add_0_r, ?Hr0, ?Hc0; try done; order_history.
  1,2: split; [lia|done].
  rewrite bid_seen_snoc. naive_solver.
Qed.

Lemma inv_group_turn evs s effs x s' e :
  order_inv evs s effs -> on_group s x = Loop s' e -> order_inv (evs ++ [OGroup x]) s' (effs ++ e).
Proof.
  intros H. unfold on_group. destruct (groupch s) eqn:Hready; simpl; [|done].
  destruct s as [gch sch cch bch pch qch shch bt g r w bp].
  destruct H as [Hp Hq He Hg Hr Hrs Hcl Hres Hpr Hcr Hb Hse Ho Hel Hex Hop]; simpl in *. subst gch.
  order_idle Hp. destruct (He eq_refl) as (-> & Hr0 & Hc0).
  destruct x as [x|]; [|done]. intros [= <- <-].
  constructor; simpl; rewrite ?count_app; simpl; rewrite ?Nat.add_0_r, ?Hr0, ?Hc0; try done;
    order_history.
  - split; [lia|done].
  - intros p [Hin|Hin]%elem_of_app; [|order_short].
    destruct (Ho p Hin) as (? & _ & _ & _ & []%is_Some_None).
Qed.

Lemma inv_should_bid_turn cfg evs s effs b s' e :
  order_inv evs s effs -> on_should_bid cfg s b = Loop s' e ->
  order_inv (evs ++ [OShouldBid b]) s' (effs ++ e).
Proof.
  intros H. unfold on_should_bid. destruct (shouldBidCh s) eqn:Hready; simpl; [|done].
  destruct s as [gch sch cch bch pch qch shch bt g r w bp].
  destruct H as [Hp Hq He Hg Hr Hrs Hcl Hres Hpr Hcr Hb Hse Ho Hel Hex Hop]; simpl in *. subst shch.
  order_idle Hp. destruct (He eq_refl) as (-> & Hr0 & Hc0).
  destruct b as [[]|]; try done. intros [= <- <-].
  constructor; simpl; rewrite ?count_app; simpl; rewrite ?Nat.add_0_r, ?Hr0, ?Hc0; try done;
    order_history.
  - split; [lia|done].
  - intros _. apply elem_snoc. by right.
Qed.

Lemma inv_cluster_turn evs s effs x s' e :
  order_inv evs s effs -> on_cluster s x = Loop s' e ->
  order_inv (evs ++ [OCluster x]) s' (effs ++ e).
Proof.
  intros H. unfold on_cluster. destruct (clusterch s) eqn:Hready; simpl; [|done].
  destruct s as [gch sch cch bch pch qch shch bt g r w bp].
  destruct H as [Hp Hq He Hg Hr Hrs Hcl Hres Hpr Hcr Hb Hse Ho Hel Hex Hop]; simpl in *. subst cch.
  order_idle Hp. destruct Hcr as [_ Hc0]. specialize (Hc0 eq_refl).
  rewrite (Hcl eq_refl) in *. destruct x as [x|]; [|done].
  destruct bp; intros [= <- <-];
  constructor; simpl; rewrite ?count_app; simpl; rewrite ?Nat.add_0_r, ?Hr, ?Hc0; try done;
    order_history.
  1: lia.
  2: split; [lia|done].
  1,3: intros y; rewrite reservation_snoc, Hrs; naive_solver.
  3:{ intros [h [Hh|Hh]%elem_snoc]; [|done].
      assert (false = true) by (apply Hse; right; eauto). done. }
  all: intros p [Hin|Hin]%elem_of_app; [|order_short].
  all: destruct (Ho p Hin) as (? & _ & _ & _ & []%is_Some_None).
Qed.

Lemma inv_price_turn evs s effs x s' e :
  order_inv evs s effs -> on_price s x = Loop s' e -> order_inv (evs ++ [OPrice x]) s' (effs ++ e).
Proof.
  intros H. unfold on_price. destruct (pricech s) eqn:Hready; simpl; [|done].
  destruct s as [gch sch cch bch pch qch shch bt g r w bp].
  destruct H as [Hp Hq He Hg Hr Hrs Hcl Hres Hpr Hcr Hb Hse Ho Hel Hex Hop]; simpl in *. subst pch.
  order_idle Hp. destruct Hcr as [_ Hc0]. specialize (Hc0 eq_refl). rewrite (Hpr eq_refl) in *.
  destruct x as [p|]; [|done]. destruct g as [g|]; [|done].
  destruct (String.eqb_spec (denom (group_price g)) (denom p)) as [Hd|]; simpl; [|done].
  destruct (Z.ltb_spec (amount (group_price g)) (amount p)); [done|]. intros [= <- <-].
  constructor; simpl; rewrite ?count_app; simpl; rewrite ?Nat.add_0_r, ?Hc0; try done;
    order_history.
  - intros y [Hin|Hin]%elem_of_app; [by apply Ho|]. apply list_elem_of_singleton in Hin as [= ->].
    exists g. auto.
  - intros [h [Hh|Hh]%elem_snoc]; [|done]. destruct Hex as (_ & ? & _); [by eauto|done].
Qed.

Lemma inv_bid_turn cfg evs s effs ok s' e :
  order_inv evs s effs -> on_bid cfg s ok = Loop s' e -> order_inv (evs ++ [OBid ok]) s' (effs ++ e).
Proof.
  intros H. unfold on_bid. destruct (bidch s) eqn:Hready; simpl; [|done].
  destruct s as [gch sch cch bch pch qch shch bt g r w bp].
  destruct H as [Hp Hq He Hg Hr Hrs Hcl Hres Hpr Hcr Hb Hse Ho Hel Hex Hop]; simpl in *. subst bch.
  order_idle Hp. destruct (Hb eq_refl) as [-> _]. destruct ok; [|done]. intros [= <- <-].
  constructor; simpl; rewrite ?count_app; simpl; rewrite ?Nat.add_0_r; try done; order_history; [lia| |].
  - rewrite bid_seen_snoc. naive_solver.
  - intros [h [Hh|Hh]%elem_snoc]; [|done]. destruct Hex as (_ & _ & ?); [by eauto|done].
Qed.

Lemma order_inv_turn cfg evs s effs ev s' e :
  order_inv evs s effs -> order_step cfg s ev = Loop s' e ->
  order_inv (evs ++ [ev]) s' (effs ++ e).
Proof.
  intros H. destruct ev as [|q|lid|oid|lid|g|b|r|p|ok|]; simpl.
  - done.
  - by apply inv_query_turn.
  - unfold on_lease_created. repeat (case_match; try done). intros [= <- <-].
    rewrite app_nil_r. by apply inv_skip.
  - destruct (decide _); [done|]. intros [= <- <-]. rewrite app_nil_r. by apply inv_skip.
  - unfold on_bid_closed. repeat (case_match; try done); intros [= <- <-];
      rewrite app_nil_r; by apply inv_skip.
  - by apply inv_group_turn.
  - by apply inv_should_bid_turn.
  - by apply inv_cluster_turn.
  - by apply inv_price_turn.
  - by apply inv_bid_turn.
  - by destruct (bidTimeout s).
Qed.

Lemma order_loop_inv cfg chk evs s effs : order_loop cfg chk evs s effs -> order_inv evs s effs.
Proof. induction 1; [apply order_inv_init|by eapply order_inv_turn]. Qed.

(** ** The end of a run *)

Definition is_unreserve (e : effect) : bool := match e with EffUnreserve _ => true | _ => false end.
Definition is_close (e : effect) : bool := match e with EffCloseBid => true | _ => false end.
Definition is_won (e : effect) : bool := match e with EffLeaseWon _ _ => true | _ => false end.

Lemma count_loop_final p evs s effs :
  order_inv evs s effs -> (forall e, p e = true -> is_final e = true) -> count p effs = 0%nat.
Proof.
  intros H Hp. apply count_zero. intros e He. destruct (p e) eqn:E; [|done].
  apply Hp in E. rewrite (proj2 (inv_open _ _ _ H) e He) in E. done.
Qed.

(** What the last turn does to the state: it keeps the reservation, takes the
    reservation's result off the channel only when there is none, and is the
    only one that can win. *)
Lemma break_turn cfg evs s effs ev s' e :
  order_inv evs s effs -> order_step cfg s ev = Break s' e ->
  reservation_ s' = reservation_ s /\ (forall r, ev <> OCluster (Some r)) /\
  (clusterch s' = true -> clusterch s = true) /\
  count is_unreserve e = 0%nat /\ count is_close e = 0%nat /\ count is_create e = 0%nat /\
  count is_reserve e = 0%nat /\
  (won s' = true -> exists lid, ev = OLeaseCreated lid /\ e = [EffLeaseWon lid (group s)] /\
     l_provider lid = provider_address cfg /\ lease_group lid = order_group (oc_order cfg)) /\
  (won s' = false -> e = []).
Proof.
  intros H. pose proof (proj1 (inv_open _ _ _ H)) as Hw.
  destruct ev as [|q|lid|oid|lid|g|b|r|p|ok|]; simpl.
  - intros [= <- <-]. naive_solver congruence.
  - unfold on_query_bid. repeat (case_match; try done); intros [= <- <-]; simpl; naive_solver congruence.
  - unfold on_lease_created. destruct (bool_decide _) eqn:Hb; simpl; [|done].
    apply bool_decide_eq_true in Hb.
    destruct (String.eqb_spec (l_provider lid) (provider_address cfg)); simpl;
      intros [= <- <-]; simpl; naive_solver congruence.
  - destruct (decide _); [|done]. intros [= <- <-]. naive_solver congruence.
  - unfold on_bid_closed. repeat (case_match; try done); intros [= <- <-]; simpl; naive_solver congruence.
  - unfold on_group. repeat (case_match; try done); intros [= <- <-]; simpl; naive_solver congruence.
  - unfold on_should_bid. repeat (case_match; try done); intros [= <- <-]; simpl; naive_solver congruence.
  - unfold on_cluster. repeat (case_match; try done); intros [= <- <-]; simpl; naive_solver congruence.
  - unfold on_price. repeat (case_match; try done); intros [= <- <-]; simpl; naive_solver congruence.
  - unfold on_bid. repeat (case_match; try done); intros [= <- <-]; simpl; naive_solver congruence.
  - destruct (bidTimeout s); [|done]. intros [= <- <-]. naive_solver congruence.
Qed.

(** The reservation a run holds when its loop ends: the one it was given, or
    the one still under way if that comes through. *)
Definition held (evs : list order_event) (s : order_state) (late : option OrderID)
    (r : OrderID) : Prop :=
  OCluster (Some r) ∈ evs \/ (clusterch s = true /\ late = Some r).

Lemma run_held cfg chk late evs s effs r :
  order_run cfg chk late evs s effs -> held evs s late r ->
  (if clusterch s then match late with Some r => Some r | None => reservation_ s end
   else reservation_ s) = Some r.
Proof.
  intros [evs0 s0 effs0 ev s' e Hl Hb] Hh. apply order_loop_inv in Hl as Hi.
  destruct (break_turn _ _ _ _ _ _ _ Hi Hb) as (Hr & Hev & Hc & _).
  destruct Hh as [Hin|[Hcl ->]]; [|by rewrite Hcl].
  apply reservation_snoc in Hin as [Hin|Hin]; [|by destruct (Hev r)].
  apply (inv_reservation _ _ _ Hi) in Hin. rewrite Hr, Hin.
  destruct (clusterch s') eqn:E; [|done].
  rewrite (inv_cluster _ _ _ Hi) in Hin; [done|]. by apply Hc.
Qed.

(** ** Properties *)

Lemma count_elem p effs e : e ∈ effs -> p e = true -> (1 <= count p effs)%nat.
Proof.
  intros He Hp. unfold count. induction He as [x l|x y l He IH]; simpl; [rewrite Hp; simpl; lia|].
  destruct (p y); simpl; [lia|auto].
Qed.

Lemma count_pos p effs : (0 < count p effs)%nat -> exists e, e ∈ effs /\ p e = true.
Proof.
  unfold count. intros H. destruct (List.filter p effs) as [|e l] eqn:E; simpl in H; [lia|].
  exists e. assert (In e (List.filter p effs)) as Hin by (rewrite E; by left).
  apply filter_In in Hin as [Hin Hp]. split; [by apply list_elem_of_In|done].
Qed.

Lemma count_cleanup s late :
  count is_create (cleanup s late) = 0%nat /\ count is_reserve (cleanup s late) = 0%nat /\
  count is_won (cleanup s late) = 0%nat /\
  count is_close (cleanup s late) = b2n (negb (won s) && bidPlaced s).
Proof.
  unfold cleanup. destruct (won s); [done|]. rewrite !count_app.
  repeat case_match; simpl; auto.
Qed.

(** C3: whatever the order has seen, when its run ends it has either handed its
    reservation over to a won lease, announced exactly once and only for a
    lease of this group held by this provider, with the reservation and the bid
    left alone; or it has announced nothing and given back exactly once the
    reservation it held, one still under way when the loop ended included, and
    given back none when it held none. *)
Theorem order_settles_reservation (cfg : order_cfg) (chk : bool) (late : option OrderID)
    (evs : list order_event) (s : order_state) (effs : list effect) :
  order_run cfg chk late evs s effs ->
  (won s = true -> count is_unreserve effs = 0%nat /\ count is_close effs = 0%nat /\
     count is_won effs = 1%nat /\
     exists lid g, EffLeaseWon lid g ∈ effs /\ l_provider lid = provider_address cfg /\
       lease_group lid = order_group (oc_order cfg)) /\
  (won s = false -> count is_won effs = 0%nat /\
     (forall r, held evs s late r -> EffUnreserve r ∈ effs /\ count is_unreserve effs = 1%nat) /\
     ((forall r, ~ held evs s late r) -> count is_unreserve effs = 0%nat)).
Proof.
  intros Hrun. pose proof (fun r => run_held cfg chk late evs s effs r Hrun) as Hheld.
  destruct Hrun as [evs0 s0 effs0 ev s' e Hl Hb]. apply order_loop_inv in Hl as Hi.
  destruct (break_turn _ _ _ _ _ _ _ Hi Hb) as (Hr & Hev & Hc & Hu & Hcl & _ & _ & Hwon & Hlost).
  assert (forall p, (forall x, p x = true -> is_final x = true) -> count p effs0 = 0%nat) as H0
    by (intros; by eapply count_loop_final).
  rewrite !count_app, !H0 by (by intros []). destruct (count_cleanup s' late) as (_ & _ & Hw0 & Hc0).
  rewrite Hw0, Hc0, Hu, Hcl. split.
  - intros Hw. destruct (Hwon Hw) as (lid & _ & -> & Hp & Hg). unfold cleanup. rewrite Hw.
    split_and!; [done|done|done|]. exists lid, (group s0). split_and!; [|done|done].
    apply elem_of_app. right. left.
  - intros Hw. rewrite (Hlost Hw). split; [done|]. unfold cleanup in *. rewrite Hw in *. split.
    + intros r Hh. rewrite (Hheld r Hh). split.
      * rewrite !elem_of_app. right. right. left. left.
      * rewrite count_app. simpl. by destruct (bidPlaced s').
    + intros Hnone. rewrite count_app.
      assert ((if clusterch s' then match late with Some r => Some r | None => reservation_ s' end
               else reservation_ s') = None) as ->; [|by destruct (bidPlaced s')].
      assert (forall r, reservation_ s' <> Some r) as Hn.
      { intros r Hsr. apply (Hnone r). left. apply elem_snoc. left.
        apply (inv_reservation _ _ _ Hi). congruence. }
      destruct (clusterch s') eqn:E; [destruct late as [r|]|].
      * destruct (Hnone r). right. done.
      * destruct (reservation_ s') eqn:?; [by edestruct Hn|done].
      * destruct (reservation_ s') eqn:?; [by edestruct Hn|done].
Qed.

(** An order asks for at most one reservation and broadcasts at most one
    bid; it bids only for a group it was found eligible for and holds a
    reservation for, in the group's denomination and at most at the group's
    price; and it does not bid again when its bid was already open on chain. *)
Theorem order_bids_once (cfg : order_cfg) (chk : bool) (late : option OrderID)
    (evs : list order_event) (s : order_state) (effs : list effect) :
  order_run cfg chk late evs s effs ->
  (count is_reserve effs <= 1)%nat /\ (count is_create effs <= 1)%nat /\
  (forall p, EffCreateBid p ∈ effs ->
    exists g r, group s = Some g /\ denom (group_price g) = denom p /\
      (amount p <= amount (group_price g))%Z /\ OCluster (Some r) ∈ evs /\
      OShouldBid (Some true) ∈ evs) /\
  ((exists h, OQueryBid (BidFound BidOpen h) ∈ evs) -> count is_create effs = 0%nat).
Proof.
  intros [evs0 s0 effs0 ev s' e Hl Hb]. apply order_loop_inv in Hl as Hi.
  destruct (break_turn _ _ _ _ _ _ _ Hi Hb) as (Hr & Hev & _ & _ & _ & Hcr & Hre & _).
  destruct (count_cleanup s' late) as (Hc1 & Hc2 & _).
  assert (count is_reserve effs0 <= 1)%nat as Hres.
  { rewrite (inv_reserve _ _ _ Hi). pose proof (inv_cluster _ _ _ Hi) as Hcl.
    destruct (clusterch s0); simpl; [rewrite Hcl by done; lia|]. destruct (reservation_ s0); lia. }
  assert (count is_create effs0 <= 1)%nat as Hcreate.
  { pose proof (proj1 (inv_create _ _ _ Hi)). pose proof (inv_bid _ _ _ Hi) as Hb'.
    destruct (bidch s0); simpl in *; [rewrite (proj1 (Hb' eq_refl)) in *; simpl in *; lia|].
    destruct (bidPlaced s0); simpl in *; lia. }
  rewrite !count_app, Hcr, Hre, Hc1, Hc2. split_and!; [lia|lia| |].
  - intros p Hp. assert (EffCreateBid p ∈ effs0) as Hin.
    { rewrite !elem_of_app in Hp. destruct Hp as [?|[Hp|Hp]]; [done| |];
        apply (count_elem is_create) in Hp; try done; lia. }
    destruct (inv_offer _ _ _ Hi p Hin) as (g & Hg & Hd & Ha & [r Hr']).
    exists g, r. split_and!; [|done|done| |].
    + revert Hb. clear -Hg. destruct ev; simpl;
        unfold on_query_bid, on_lease_created, on_bid_closed, on_group, on_should_bid, on_cluster,
          on_price, on_bid; repeat (case_match; try done); by intros [= <- <-].
    + apply elem_snoc. left. by apply (inv_reservation _ _ _ Hi).
    + apply elem_snoc. left. apply (inv_eligible _ _ _ Hi).
      destruct (count_pos is_reserve effs0) as ([] & Hin' & ?); try done; [|by eauto].
      rewrite (inv_reserve _ _ _ Hi), Hr'. lia.
  - intros [h Hh]. apply elem_snoc in Hh as [Hh|<-].
    + rewrite (proj1 (inv_existing _ _ _ Hi (ex_intro _ h Hh))). lia.
    + assert (queryBidCh s0 = true) as Hq.
      { simpl in Hb. unfold on_query_bid in Hb. by destruct (queryBidCh s0). }
      rewrite (inv_query _ _ _ Hi) in Hq.
      destruct (inv_early _ _ _ Hi) as (_ & _ & ->); [|lia]. rewrite Hq. by destruct (groupch s0).
Qed.

(** An order that ends without a lease does not leave its bid behind: if it
    found its bid open on chain or its bid transaction went through, the run
    broadcasts a close of the bid, unless it ended because the bid was reported
    closed; the same holds if another provider won while its bid transaction
    was under way; and no close is broadcast without a bid found or sent. *)
Theorem order_closes_bid (cfg : order_cfg) (chk : bool) (late : option OrderID)
    (evs : list order_event) (s : order_state) (effs : list effect) :
  order_run cfg chk late evs s effs -> won s = false ->
  (bid_seen evs -> (forall lid, list.last evs <> Some (OBidClosed lid)) -> EffCloseBid ∈ effs) /\
  (forall p lid, EffCreateBid p ∈ effs -> list.last evs = Some (OLeaseCreated lid) ->
    EffCloseBid ∈ effs) /\
  (EffCloseBid ∈ effs -> bid_seen evs \/ exists p, EffCreateBid p ∈ effs).
Proof.
  intros [evs0 s0 effs0 ev s' e Hl Hb] Hw. apply order_loop_inv in Hl as Hi.
  destruct (break_turn _ _ _ _ _ _ _ Hi Hb) as (_ & _ & _ & _ & Hcl & Hcr & _ & _ & Hlost).
  rewrite last_snoc. rewrite (Hlost Hw) in *. simpl. destruct (count_cleanup s' late) as (Hc1 & _ & _ & Hc0).
  assert (bidPlaced s' = true -> EffCloseBid ∈ effs0 ++ cleanup s' late) as Hclose.
  { intros Hbp. apply elem_of_app. right. unfold cleanup. rewrite Hw, Hbp.
    apply elem_of_app. right. left. }
  assert ((forall lid, ev <> OBidClosed lid) -> bidPlaced s0 = true \/ bid_event ev = true ->
          bidPlaced s' = true) as Hkeep.
  { intros Hne Hor. revert Hb. destruct ev as [|q|lid|oid|lid|g|b|r|p|ok|]; simpl in *;
      unfold on_query_bid, on_lease_created, on_group, on_should_bid, on_cluster, on_price, on_bid;
      repeat (case_match; try done); intros Hb; simplify_eq; simpl; naive_solver. }
  split_and!.
  - intros [Hs|Hs]%bid_seen_snoc Hne; apply Hclose, Hkeep; try (intros lid ->; by apply (Hne lid)).
    + left. by apply (inv_seen _ _ _ Hi).
    + by right.
  - intros p lid Hp [= ->]. apply Hclose.
    assert (EffCreateBid p ∈ effs0) as Hin.
    { apply elem_of_app in Hp as [?|Hp]; [done|]. apply (count_elem is_create) in Hp; [lia|done]. }
    apply (count_elem is_create) in Hin; [|done]. pose proof (proj1 (inv_create _ _ _ Hi)) as Hc.
    revert Hb. simpl. unfold on_lease_created. repeat (case_match; try done); intros [= <-]; simpl.
    + done.
    + destruct (bidPlaced s0); [done|]. simpl in Hc. lia.
  - intros Hin. assert (bidPlaced s' = true) as Hbp.
    { apply elem_of_app in Hin as [Hin|Hin].
      - apply (proj2 (inv_open _ _ _ Hi)) in Hin. done.
      - apply (count_elem is_close) in Hin; [|done]. rewrite Hc0, Hw in Hin. simpl in Hin.
        destruct (bidPlaced s'); simpl in Hin; [done|lia]. }
    destruct (bidPlaced s0) eqn:Hbp0.
    { left. apply bid_seen_snoc. left. by apply (inv_seen _ _ _ Hi). }
    revert Hb. destruct ev as [|q|lid|oid|lid|g|b|r|p|[]|]; simpl;
      unfold on_query_bid, on_lease_created, on_bid_closed, on_group, on_should_bid, on_cluster,
        on_price, on_bid; repeat (case_match; try done); intros Hb; simplify_eq/=; try congruence.
    + left. apply bid_seen_snoc. by right.
    + right. destruct (inv_bid _ _ _ Hi) as [_ Hpos]; [done|].
      destruct (count_pos _ _ Hpos) as ([] & Hin' & ?); try done. eexists. apply elem_of_app. by left.
Qed.

(** A bid made before the session started, however long ago, is never
    found stale, whatever the bid timeout: the age is computed with the wrong
    sign. *)
Theorem stale_bid_never_detected (cfg : order_cfg) (createdAt : Z) :
  (0 < BidTimeout cfg)%Z -> (0 <= createdAt <= CreatedAtBlockHeight cfg)%Z ->
  (CreatedAtBlockHeight cfg <= 1000000000)%Z -> isStaleBid cfg createdAt = false.
Proof.
  intros Ht Hc Hh. unfold isStaleBid, minTimePerBlock. destruct (bidTimeoutEnabled cfg); [|done].
  simpl. rewrite (to_int64_id (createdAt - CreatedAtBlockHeight cfg)) by (unfold is_int64; lia).
  rewrite to_int64_id by (unfold is_int64; lia).
  match goal with |- (?a >? ?b)%Z = false => destruct (Z.gtb_spec a b); [|done] end. lia.
Qed.

Section Eligible.
Context {bapi : BidAPI}.

Lemma gather_spec auditors gotten acc r asked :
  gather auditors gotten acc = (r, asked) -> NoDup gotten ->
  NoDup asked /\ (forall a, a ∈ gotten -> a ∈ asked) /\
  (forall a, a ∈ asked -> a ∈ gotten \/ a ∈ auditors) /\
  (is_Some r -> forall a, a ∈ auditors -> a ∈ asked /\ is_Some (GetAuditorAttributeSignatures a) \/ a ∈ gotten).
Proof.
  revert gotten acc. induction auditors as [|a rest IH]; intros gotten acc; simpl.
  { intros [= <- <-] Hn. split_and!; auto. no_elem. }
  destruct (bool_decide (a ∈ gotten)) eqn:Hin.
  - apply bool_decide_eq_true in Hin. intros Hg Hn. destruct (IH _ _ Hg Hn) as (H1 & H2 & H3 & H4).
    split_and!; [done|done| |].
    + intros x Hx. destruct (H3 x Hx); [by left|right; by right].
    + intros Hr x [->|Hx]%elem_of_cons; [by right|by apply H4].
  - apply bool_decide_eq_false in Hin.
    assert (NoDup gotten -> NoDup (gotten ++ [a])) as Hnd.
    { intros Hn. apply list.NoDup_app. split_and!; [done| |apply NoDup_singleton].
      intros x Hx Hx'%list_elem_of_singleton. by subst. }
    destruct (GetAuditorAttributeSignatures a) as [res|] eqn:Ha.
    + intros Hg Hn. destruct (IH _ _ Hg (Hnd Hn)) as (H1 & H2 & H3 & H4). split_and!; [done| | |].
      * intros x Hx. apply H2, elem_of_app. by left.
      * intros x Hx. destruct (H3 x Hx) as [[?|Hx']%elem_of_app|]; [by left| |right; by right].
        apply list_elem_of_singleton in Hx' as ->. right. left.
      * intros Hr x [->|Hx]%elem_of_cons.
        -- left. split; [apply H2, elem_of_app; right; left|]. by rewrite Ha.
        -- destruct (H4 Hr x Hx) as [|[?|Hx']%elem_of_app]; [by left|by right|].
           apply list_elem_of_singleton in Hx' as ->.
           left. split; [apply H2, elem_of_app; right; left|]. by rewrite Ha.
    + intros [= <- <-] Hn. split_and!; [by apply Hnd| | |].
      * intros x Hx. apply elem_of_app. by left.
      * intros x [?|Hx']%elem_of_app; [by left|]. apply list_elem_of_singleton in Hx' as ->.
        right. left.
      * intros [? ?]. done.
Qed.

End Eligible.

(** A group is bid on only if the provider's attributes, the configured
    attributes, the resource requirements and the volume limit all allow it,
    the group is valid, and, if it asks for audited attributes, every auditor it
    names answered; no auditor is asked twice, and none it does not name. *)
Theorem shouldBid_accepts {bapi : BidAPI} (maxVolumes : Z) (g : Group) (asked : list string)
    (r : option bool) :
  shouldBid maxVolumes g = (r, asked) ->
  NoDup asked /\ (forall a, a ∈ asked -> a ∈ signed_all g ++ signed_any g) /\
  (r = Some true ->
    MatchAttributes (group_spec g) = true /\
    cfg_attributes_subset (gs_requirements (group_spec g)) = true /\
    (exists attr, GetAttributes = Some attr /\ MatchResourcesRequirements (group_spec g) attr = true) /\
    (forall u, u ∈ gs_units (group_spec g) ->
      (Z.of_nat (length (r_storage (ru_res u))) <= maxVolumes)%Z) /\
    ValidateBasic (group_spec g) = true /\
    (forall a, a ∈ signed_all g ++ signed_any g ->
      a ∈ asked /\ is_Some (GetAuditorAttributeSignatures a)) /\
    (signed_all g ++ signed_any g <> [] ->
      exists provAttr, MatchRequirements (group_spec g) provAttr = true)).
Proof.
  unfold shouldBid.
  assert (forall x : list string, NoDup (@nil string) /\ (forall a, a ∈ @nil string -> a ∈ x)) as Hnil.
  { intros x. split; [constructor|]. no_elem. }
  destruct (MatchAttributes (group_spec g)); simpl; [|intros [= <- <-]; split_and!; [apply (Hnil [])|apply Hnil|done]].
  destruct (cfg_attributes_subset _); simpl; [|intros [= <- <-]; split_and!; [apply (Hnil [])|apply Hnil|done]].
  destruct GetAttributes as [attr|]; [|intros [= <- <-]; split_and!; [apply (Hnil [])|apply Hnil|done]].
  destruct (MatchResourcesRequirements _ attr) eqn:Hm; simpl; [|intros [= <- <-]; split_and!; [apply (Hnil [])|apply Hnil|done]].
  destruct (existsb _ _) eqn:Hvol; [intros [= <- <-]; split_and!; [apply (Hnil [])|apply Hnil|done]|].
  assert (forall u, u ∈ gs_units (group_spec g) ->
      (Z.of_nat (length (r_storage (ru_res u))) <= maxVolumes)%Z) as Hv.
  { intros u Hu. destruct (Z_le_gt_dec (Z.of_nat (length (r_storage (ru_res u)))) maxVolumes); [done|].
    exfalso. apply Bool.diff_true_false. rewrite <- Hvol. symmetry. apply existsb_exists. exists u.
    split; [by apply list_elem_of_In|]. apply Z.gtb_lt. lia. }
  destruct (signed_all g ++ signed_any g) as [|a0 l0] eqn:Haud.
  - destruct (ValidateBasic _); intros [= <- <-];
      (split; [apply (Hnil [])|split; [apply (Hnil [])|intros ?]]); [|done].
    split_and!; try done; [by eauto|]. no_elem.
  - destruct (gather _ _ _) as [provAttr asked'] eqn:Hg.
    destruct (gather_spec _ _ _ _ _ Hg (proj1 (Hnil []))) as (H1 & _ & H3 & H4).
    assert (forall a, a ∈ asked' -> a ∈ a0 :: l0) as Hsub.
    { intros a Ha. destruct (H3 a Ha) as [H|]; [by apply not_elem_of_nil in H|done]. }
    destruct provAttr as [pa|].
    + destruct (MatchRequirements _ pa) eqn:Hreq; [destruct (ValidateBasic _)|];
        intros [= <- <-]; (split_and!; [done|done|]); intros ?; try done.
      split_and!; eauto. intros a Ha.
      destruct (H4 (ex_intro _ _ eq_refl) a Ha) as [|Hx]; [done|by apply not_elem_of_nil in Hx].
    + intros [= <- <-]. by split_and!.
Qed.

(** ** Examples *)

Module OrderExamples.

Definition oid : OrderID := mkOrderID "owner" 7 1 1.
Definition cfg : order_cfg := mkOrderCfg oid 300000000000 1000 "akash1me" "owner:akash1me".
Definition grp : Group := mkGroup (mkGroupSpec "g" [] []) (mkDecCoin "uakt" 100) ["aud1"] ["aud1"; "aud2"].

(** The usual course: the bid is placed and lost to another provider. *)
Definition evs : list order_event :=
  [OGroup (Some grp); OShouldBid (Some true); OCluster (Some oid);
   OPrice (Some (mkDecCoin "uakt" 60)); OBid true].
Definition placed : order_state :=
  mkOrder false false false false false false false true (Some grp) (Some oid) false true.
Definition effs : list effect :=
  [EffShouldBid grp; EffReserve oid; EffCalculatePrice; EffCreateBid (mkDecCoin "uakt" 60)].

Lemma placed_loop : order_loop cfg false evs placed effs.
Proof.
  pose proof (loop_start cfg false) as H.
  apply (loop_turn _ _ _ _ _ (OGroup (Some grp)) _ _) with (2 := eq_refl) in H.
  apply (loop_turn _ _ _ _ _ (OShouldBid (Some true)) _ _) with (2 := eq_refl) in H.
  apply (loop_turn _ _ _ _ _ (OCluster (Some oid)) _ _) with (2 := eq_refl) in H.
  apply (loop_turn _ _ _ _ _ (OPrice (Some (mkDecCoin "uakt" 60))) _ _) with (2 := eq_refl) in H.
  apply (loop_turn _ _ _ _ _ (OBid true) _ _) with (2 := eq_refl) in H.
  exact H.
Qed.

Definition lost : LeaseID := mkLeaseID "owner" 7 1 1 "akash1other".

Lemma lost_run :
  order_run cfg false None (evs ++ [OLeaseCreated lost]) placed
    (effs ++ [] ++ [EffUnreserve oid; EffCloseBid]).
Proof. exact (run_done cfg false None _ _ _ (OLeaseCreated lost) placed [] placed_loop eq_refl). Qed.

#[global] Instance permissive : BidAPI := {|
  AuditedProvider := unit; ownAttrs := tt; MatchAttributes _ := true;
  cfg_attributes_subset _ := true; GetAttributes := Some [];
  MatchResourcesRequirements _ _ := true; GetAuditorAttributeSignatures _ := Some [];
  MatchRequirements _ _ := true; ValidateBasic _ := true
|}.

End OrderExamples.

Lemma order_settles_reservation_witness :
  held (OrderExamples.evs ++ [OLeaseCreated OrderExamples.lost]) OrderExamples.placed None
    OrderExamples.oid /\
  count is_unreserve (OrderExamples.effs ++ [] ++ [EffUnreserve OrderExamples.oid; EffCloseBid]) = 1%nat.
Proof.
  assert (held (OrderExamples.evs ++ [OLeaseCreated OrderExamples.lost]) OrderExamples.placed None
    OrderExamples.oid) as Hh.
  { left. apply elem_of_app. left. right. right. left. }
  split; [exact Hh|].
  destruct (order_settles_reservation _ _ _ _ _ _ OrderExamples.lost_run) as [_ H].
  destruct (H eq_refl) as (_ & H' & _). apply (H' _ Hh).
Defined.

Lemma order_bids_once_witness :
  (count is_create (OrderExamples.effs ++ [] ++ [EffUnreserve OrderExamples.oid; EffCloseBid]) <= 1)%nat.
Proof. apply (order_bids_once _ _ _ _ _ _ OrderExamples.lost_run). Defined.

Lemma order_closes_bid_witness :
  EffCloseBid ∈ OrderExamples.effs ++ [] ++ [EffUnreserve OrderExamples.oid; EffCloseBid].
Proof.
  apply (proj1 (order_closes_bid _ _ _ _ _ _ OrderExamples.lost_run eq_refl)).
  - left. apply elem_of_app. left. do 4 right. left.
  - intros lid. vm_compute. discriminate.
Defined.

Lemma stale_bid_never_detected_witness :
  isStaleBid OrderExamples.cfg 1 = false.
Proof. apply stale_bid_never_detected; vm_compute; intuition congruence. Defined.

Lemma shouldBid_accepts_witness :
  NoDup ["aud1"%string; "aud2"%string] /\
  forall a, a ∈ ["aud1"%string; "aud1"%string; "aud2"%string] -> a ∈ ["aud1"%string; "aud2"%string].
Proof.
  destruct (shouldBid_accepts (bapi := OrderExamples.permissive) 3 OrderExamples.grp ["aud1"%string; "aud2"%string] (Some true)
    ltac:(vm_compute; reflexivity))
    as (H1 & _ & H2).
  split; [exact H1|]. intros a Ha. apply (H2 eq_refl). exact Ha.
Defined.
