(* ===== verification/Manifest.v ===== *)
(** * Manifests

    Model of [manifest/manager.go], [manifest/watchdog.go],
    [manifest/proxy_limits.go] and [manifest/parse.go], with the ingress buffer
    sizing of [cluster/types/v1beta3/clients/hostname/hostname.go]: the manager
    of one deployment, which checks the manifests tenants submit against chain
    reads and publishes them, and the watchdog that closes the bid of a lease no
    manifest arrives for. *)

From stdpp Require Import base gmap list strings relations tactics.
From Stdlib Require Import ZArith Lia Ascii.
From S2P Require Import Prelude Types Hostname.

(** ** Manifest data *)

Record Proxy := mkProxy {
  p_BufferSize : Z; p_BuffersNumber : Z; p_BuffersSize : Z; p_BusyBuffersSize : Z
}.

Record ServiceExpose := mkExpose {
  ex_hosts : list string;
  ex_is_ingress : bool;
  ex_proxy : option Proxy
}.

Record Service := mkService { svc_name : string; svc_expose : list ServiceExpose }.
Record MGroup := mkMGroup { mg_name : string; mg_services : list Service }.
Record Manifest := mkManifest { man_id : Z; man_groups : list MGroup }.

(** ** What the manager calls *)

(** The deployment as the chain reports it. *)
Record ChainGroup := mkChainGroup { cg_gseq : Z; cg_name : string }.
Record Deployment := mkDeployment { d_owner : string; d_hash : string; d_groups : list ChainGroup }.

(** [Manifest.Validate], [Version], [CheckAgainstDeployment] and
    [DeploymentID.GetOwnerAddress]. *)
Class ManifestAPI := {
  Validate : Manifest -> bool;
  Version : Manifest -> option string;
  CheckAgainstDeployment : Manifest -> list ChainGroup -> bool;
  GetOwnerAddress : string -> option string
}.

(** What the hostname service promises its clients. *)
Class HostnameClient := {
  hc_state : Type;
  hc_can_reserve : hc_state -> list string -> string -> result HostErr unit;
  hc_free : hc_state -> string -> string -> Prop;
  hc_sound : forall st names o, hc_can_reserve st names o = Ok tt ->
    forall h, h ∈ names -> hc_free st o h
}.

(** ** Checks on a manifest *)

Inductive ManifestErr :=
| ErrInvalidManifest
| ErrManifestVersion
| ErrVersionFailed
| ErrCrossValidation
| errManifestRejected (service : string)
| ErrHostnames (e : HostErr)
| ErrOwner
| ErrRequestCtx
| ErrNotRunning_
| ErrNoLeaseForDeployment
| ErrFetch.

Definition maxProxyBufferSize : Z := 128 * 1024.
Definition maxProxyBuffersNumber : Z := 16.
Definition maxProxyBuffersSize : Z := 128 * 1024.
Definition maxProxyBusyBuffersSize : Z := 256 * 1024.

Definition proxy_over (p : Proxy) : bool :=
  (p_BufferSize p >? maxProxyBufferSize)%Z || (p_BuffersNumber p >? maxProxyBuffersNumber)%Z ||
  (p_BuffersSize p >? maxProxyBuffersSize)%Z || (p_BusyBuffersSize p >? maxProxyBusyBuffersSize)%Z.

Definition expose_over (e : ServiceExpose) : bool :=
  match ex_proxy e with None => false | Some p => proxy_over p end.

Definition validateProxyBufferLimits (m : Manifest) : option ManifestErr :=
  if existsb (fun g => existsb (fun s => existsb expose_over (svc_expose s)) (mg_services g))
       (man_groups m)
  then Some ErrInvalidManifest else None.

Definition AllHostnamesOfManifestGroup (g : MGroup) : list string :=
  mg_services g ≫= (fun s => svc_expose s ≫= ex_hosts).

(** ** Proxy buffers of the ingress *)

Record IngressBuffers := mkIngressBuffers { ib_BufferSize : Z; ib_Number : Z; ib_BusySize : Z }.

Definition IngressProxyBuffers (bufferSize buffersNumber busyBuffersSize : Z) : IngressBuffers :=
  let out := mkIngressBuffers (if (bufferSize >? 0)%Z then bufferSize else 0) 0 0 in
  let number := buffersNumber in
  let busy := busyBuffersSize in
  if ((number =? 0) && (busy =? 0) || (bufferSize =? 0))%Z then out
  else
    let number := if (number =? 0)%Z then 4%Z else number in
    if (number <? 2)%Z then out
    else
      let busy := if (busy =? 0)%Z then wrap32 (2 * bufferSize) else busy in
      if ((busy <? bufferSize) || (busy >? wrap32 (wrap32 (number - 1) * bufferSize)))%Z then out
      else mkIngressBuffers (ib_BufferSize out) number busy.

(** ** The height of a chain read *)

Definition digit (c : ascii) : option Z :=
  let n := Z.of_nat (nat_of_ascii c) in
  if ((48 <=? n) && (n <=? 57))%Z then Some (n - 48)%Z else None.

Fixpoint digits (s : string) (acc : Z) : option Z :=
  match s with
  | EmptyString => Some acc
  | String c rest => match digit c with None => None | Some d => digits rest (acc * 10 + d) end
  end.

(** [strconv.ParseInt(s, 10, 64)]: an optional sign and at least one digit, in
    the range of a signed 64-bit integer. *)
Definition ParseInt64 (s : string) : option Z :=
  let '(neg, body) := match s with
                      | String c rest => if Ascii.eqb c "-" then (true, rest)
                                         else if Ascii.eqb c "+" then (false, rest) else (false, s)
                      | EmptyString => (false, s)
                      end in
  match body with
  | EmptyString => None
  | _ => match digits body 0 with
         | None => None
         | Some n => let z := if neg then (- n)%Z else n in
                     if ((- 2 ^ 63 <=? z) && (z <? 2 ^ 63))%Z then Some z else None
         end
  end.

Definition readHeight (values : list string) : Z :=
  match values with
  | [] => 0%Z
  | v :: _ => match ParseInt64 v with
              | None => 0%Z
              | Some h => if (h <? 0)%Z then 0%Z else h
              end
  end.

(** ** The manager *)

Record LeaseWon := mkLeaseWon { lw_lease : LeaseID; lw_group : ChainGroup }.

Record manifestRequest := mkRequest { rq_id : nat; rq_manifest : Manifest; rq_reread : bool }.

Record deploymentVersion := mkVersion { dv_hash : string; dv_height : Z }.

Record fetchResult := mkFetch {
  fr_deployment : Deployment; fr_leases : list LeaseWon; fr_height : Z
}.

Record manager := mkManager {
  m_data : Deployment;
  m_requests : list manifestRequest;
  m_pendingRequests : list manifestRequest;
  m_manifests : list Manifest;
  m_expected : deploymentVersion;
  m_localLeases : list LeaseWon;
  m_fetched : bool;
  m_fetchedAt : Z;
  m_stoptimer : bool;
  m_runch : bool
}.

Definition no_data : Deployment := mkDeployment "" "" [].

Definition manager_init : manager :=
  mkManager no_data [] [] [] (mkVersion "" 0) [] false 0 false false.

Inductive meffect :=
| EffReply (id : nat) (e : option ManifestErr)
| EffDrop (id : nat)
| EffPublish (lid : LeaseID) (g : ChainGroup) (m : Manifest)
| EffFetchData.

Record ServiceConfig := mkServiceConfig {
  HTTPServicesRequireAtLeastOneHost : bool;
  CachedResultMaxAge : Z
}.

(** [doFetchData] on what the two queries return: each lease gets the group of
    its sequence number, the last one reported. *)
Definition group_of_lease (groups : list ChainGroup) (lid : LeaseID) : option ChainGroup :=
  snd <$> find_index (fun g => (cg_gseq g =? l_gseq lid)%Z) (reverse groups).

Definition doFetchData (deployment : option Deployment) (leases : option (list LeaseID))
    (header : list string) : option fetchResult :=
  match deployment, leases with
  | Some d, Some ls =>
      match mapM (fun lid => mkLeaseWon lid <$> group_of_lease (d_groups d) lid) ls with
      | Some lws => Some (mkFetch d lws (readHeight header))
      | None => None
      end
  | _, _ => None
  end.

Definition clearFetched (m : manager) : manager :=
  mkManager no_data (m_requests m) (m_pendingRequests m) (m_manifests m) (m_expected m) [] false 0
    (m_stoptimer m) (m_runch m).

Definition set_runch (b : bool) (m : manager) : manager :=
  mkManager (m_data m) (m_requests m) (m_pendingRequests m) (m_manifests m) (m_expected m)
    (m_localLeases m) (m_fetched m) (m_fetchedAt m) (m_stoptimer m) b.

Definition maybeScheduleStop (m : manager) : manager :=
  let set b := mkManager (m_data m) (m_requests m) (m_pendingRequests m) (m_manifests m)
                 (m_expected m) (m_localLeases m) (m_fetched m) (m_fetchedAt m) b (m_runch m) in
  if (0 <? length (m_localLeases m))%nat || (0 <? length (m_manifests m))%nat
  then if m_stoptimer m then set false else m
  else if m_stoptimer m then set true else m.

(** [None]: no read is needed; otherwise a read is running afterwards. *)
Definition maybeFetchData (cfg : ServiceConfig) (now : Z) (m : manager) : manager * list meffect :=
  if m_runch m then (m, [])
  else if negb (m_fetched m) || (now - m_fetchedAt m >? CachedResultMaxAge cfg)%Z
  then (set_runch true (clearFetched m), [EffFetchData])
  else (m, []).

Definition maybeRereadData (m : manager) : manager * list meffect :=
  match m_requests m with
  | [] => (set_runch false m, [])
  | _ => (set_runch true (clearFetched m), [EffFetchData])
  end.

Definition applyUpdate (m : manager) : manager := clearFetched m.

Definition applyFetchResult (now : Z) (r : fetchResult) (m : manager) : manager :=
  let expected :=
    if String.eqb (d_hash (fr_deployment r)) "" then m_expected m
    else if (fr_height r <? dv_height (m_expected m))%Z then m_expected m
    else mkVersion (d_hash (fr_deployment r)) (fr_height r) in
  mkManager (fr_deployment r) (m_requests m) (m_pendingRequests m) (m_manifests m) expected
    (fr_leases r) true now (m_stoptimer m) (m_runch m).

Definition fillAllRequests (e : option ManifestErr) (m : manager) : manager * list meffect :=
  (mkManager (m_data m) [] [] (m_manifests m) (m_expected m) (m_localLeases m) (m_fetched m)
     (m_fetchedAt m) (m_stoptimer m) (m_runch m),
   map (fun r => EffReply (rq_id r) e) (m_pendingRequests m ++ m_requests m)).

Definition emitReceivedEvents (m : manager) : manager * list meffect :=
  match list.last (m_manifests m) with
  | None => (m, [])
  | Some latest =>
      if negb (m_fetched m) then (m, [])
      else match m_localLeases m with
      | [] => fillAllRequests (Some ErrNoLeaseForDeployment) m
      | leases =>
          (mkManager (m_data m) (m_requests m) [] (m_manifests m) (m_expected m) (m_localLeases m)
             (m_fetched m) (m_fetchedAt m) (m_stoptimer m) (m_runch m),
           map (fun l => EffPublish (lw_lease l) (lw_group l) latest) leases ++
           map (fun r => EffReply (rq_id r) None) (m_pendingRequests m))
      end
  end.

Definition maybeEmitReceivedEvents (m : manager) : manager * list meffect :=
  if (0 <? length (m_requests m))%nat && (length (m_pendingRequests m) =? 0)%nat
  then (m, []) else emitReceivedEvents m.

Section Validate.
Context {mapi : ManifestAPI} {hc : HostnameClient}.

(** A service exposed over an ingress without a hostname. *)
Definition hostless_ingress (s : Service) : bool :=
  existsb (fun e => ex_is_ingress e && (length (ex_hosts e) =? 0)%nat) (svc_expose s).

Fixpoint collect_hosts (requireHost : bool) (groups : list (MGroup * string))
    (acc : list string) : result ManifestErr (list string) :=
  match groups with
  | [] => Ok acc
  | (g, name) :: rest =>
      if negb (String.eqb name (mg_name g)) then collect_hosts requireHost rest acc
      else
        let acc := acc ++ AllHostnamesOfManifestGroup g in
        if requireHost then
          match find_index hostless_ingress (mg_services g) with
          | Some (_, s) => Err (errManifestRejected (svc_name s))
          | None => collect_hosts requireHost rest acc
          end
        else collect_hosts requireHost rest acc
  end.

Definition checkHostnamesForManifest (cfg : ServiceConfig) (hs : hc_state) (m : manager)
    (man : Manifest) (groupNames : list string) : option ManifestErr :=
  match GetOwnerAddress (d_owner (m_data m)) with
  | None => Some ErrOwner
  | Some owner =>
      let pairs := man_groups man ≫= (fun g => map (fun n => (g, n)) groupNames) in
      match collect_hosts (HTTPServicesRequireAtLeastOneHost cfg) pairs [] with
      | Err e => Some e
      | Ok names => match hc_can_reserve hs names owner with
                    | Ok _ => None
                    | Err e => Some (ErrHostnames e)
                    end
      end
  end.

Definition validateRequest (cfg : ServiceConfig) (hs : hc_state) (done : nat -> bool)
    (m : manager) (req : manifestRequest) : option ManifestErr :=
  if done (rq_id req) then Some ErrRequestCtx
  else if negb (Validate (rq_manifest req)) then Some ErrInvalidManifest
  else match validateProxyBufferLimits (rq_manifest req) with
  | Some e => Some e
  | None =>
      match Version (rq_manifest req) with
      | None => Some ErrVersionFailed
      | Some version =>
          if negb (String.eqb version (dv_hash (m_expected m))) then Some ErrManifestVersion
          else if negb (CheckAgainstDeployment (rq_manifest req) (d_groups (m_data m)))
          then Some ErrCrossValidation
          else checkHostnamesForManifest cfg hs m (rq_manifest req)
                 (map (fun l => cg_name (lw_group l)) (m_localLeases m))
      end
  end.

(** The loop of [validateRequests]: the requests to read the chain again for,
    the requests accepted, and the replies. *)
Fixpoint validate_loop (cfg : ServiceConfig) (hs : hc_state) (done : nat -> bool) (m : manager)
    (reqs : list manifestRequest)
    : list manifestRequest * list manifestRequest * list meffect :=
  match reqs with
  | [] => ([], [], [])
  | req :: rest =>
      let '(reread, accepted, effs) := validate_loop cfg hs done m rest in
      if done (rq_id req) then (reread, accepted, EffDrop (rq_id req) :: effs)
      else match validateRequest cfg hs done m req with
      | None => (reread, req :: accepted, effs)
      | Some ErrManifestVersion =>
          if negb (rq_reread req)
          then (mkRequest (rq_id req) (rq_manifest req) true :: reread, accepted, effs)
          else (reread, accepted, EffReply (rq_id req) (Some ErrManifestVersion) :: effs)
      | Some e => (reread, accepted, EffReply (rq_id req) (Some e) :: effs)
      end
  end.

Definition validateRequests (cfg : ServiceConfig) (hs : hc_state) (done : nat -> bool)
    (m : manager) : manager * list meffect :=
  if negb (m_fetched m) || (length (m_requests m) =? 0)%nat then (m, [])
  else
    let '(reread, accepted, effs) := validate_loop cfg hs done m (m_requests m) in
    (mkManager (m_data m) reread (m_pendingRequests m ++ accepted)
       (m_manifests m ++ match accepted with r :: _ => [rq_manifest r] | [] => [] end)
       (m_expected m) (m_localLeases m) (m_fetched m) (m_fetchedAt m) (m_stoptimer m) (m_runch m),
     effs).

(** What [run] does once it has chain data at hand. *)
Definition process (cfg : ServiceConfig) (hs : hc_state) (done : nat -> bool) (m : manager)
    : manager * list meffect :=
  let '(m, e1) := validateRequests cfg hs done m in
  let '(m, e2) := maybeEmitReceivedEvents m in
  (m, e1 ++ e2).

Inductive mevent :=
| MShutdown
| MStopTimer
| MLease (now : Z)
| MRemoveLease
| MManifest (id : nat) (man : Manifest) (now : Z) (done : nat -> bool) (hs : hc_state)
| MUpdate
| MFetched (r : option fetchResult) (now : Z) (done : nat -> bool) (hs : hc_state).

Inductive mturn :=
| MNotReady
| MLoop (m : manager) (e : list meffect)
| MBreak (m : manager) (e : list meffect).

Definition add_request (r : manifestRequest) (m : manager) : manager :=
  mkManager (m_data m) (m_requests m ++ [r]) (m_pendingRequests m) (m_manifests m) (m_expected m)
    (m_localLeases m) (m_fetched m) (m_fetchedAt m) (m_stoptimer m) (m_runch m).

(** One turn of the manager's loop; leaving it answers all requests. *)
Definition manager_step (cfg : ServiceConfig) (m : manager) (ev : mevent) : mturn :=
  let stop := let '(m', e) := fillAllRequests (Some ErrNotRunning_) m in MBreak m' e in
  match ev with
  | MShutdown => stop
  | MStopTimer => if m_stoptimer m then stop else MNotReady
  | MLease now =>
      let '(m, e) := maybeFetchData cfg now (maybeScheduleStop (clearFetched m)) in MLoop m e
  | MRemoveLease => MLoop (maybeScheduleStop (clearFetched m)) []
  | MManifest id man now done hs =>
      let m := maybeScheduleStop (add_request (mkRequest id man false) m) in
      let '(m, e1) := maybeFetchData cfg now m in
      if m_runch m then MLoop m e1
      else
        let '(m, e2) := process cfg hs done m in
        let '(m, e3) := maybeRereadData m in
        MLoop m (e1 ++ e2 ++ e3)
  | MUpdate => MLoop (applyUpdate m) []
  | MFetched r now done hs =>
      if negb (m_runch m) then MNotReady
      else
        let m := set_runch false m in
        match r with
        | None => let '(m, e) := fillAllRequests (Some ErrFetch) m in MLoop m e
        | Some r =>
            let '(m, e1) := process cfg hs done (applyFetchResult now r m) in
            let '(m, e2) := maybeRereadData (maybeScheduleStop m) in
            MLoop m (e1 ++ e2)
        end
  end.

End Validate.

(** ** Runs of the manager *)

Section Runs.
Context {mapi : ManifestAPI} {hc : HostnameClient}.
Context (cfg : ServiceConfig).

Inductive manager_loop : list mevent -> manager -> list meffect -> Prop :=
| mloop_start : manager_loop [] manager_init []
| mloop_turn evs m effs ev m' e :
    manager_loop evs m effs -> manager_step cfg m ev = MLoop m' e ->
    manager_loop (evs ++ [ev]) m' (effs ++ e).

(** A run up to the end of the manager. *)
Inductive manager_run : list mevent -> list meffect -> Prop :=
| mrun_done evs m effs ev m' e :
    manager_loop evs m effs -> manager_step cfg m ev = MBreak m' e ->
    manager_run (evs ++ [ev]) (effs ++ e).

(** The requests received, and those answered or given up. *)
Definition received (evs : list mevent) : list nat :=
  evs ≫= (fun ev => match ev with MManifest id _ _ _ _ => [id] | _ => [] end).

Definition settled (effs : list meffect) : list nat :=
  effs ≫= (fun e => match e with EffReply id _ | EffDrop id => [id] | _ => [] end).

Definition fetches (effs : list meffect) : nat :=
  length (effs ≫= (fun e => match e with EffFetchData => [tt] | _ => [] end)).

Definition ids (rs : list manifestRequest) : list nat := map rq_id rs.

Lemma received_app a b : received (a ++ b) = received a ++ received b.
Proof. apply bind_app. Qed.
Lemma settled_app a b : settled (a ++ b) = settled a ++ settled b.
Proof. apply bind_app. Qed.
Lemma fetches_app a b : fetches (a ++ b) = (fetches a + fetches b)%nat.
Proof. unfold fetches. by rewrite bind_app, length_app. Qed.

Lemma settled_replies (f : manifestRequest -> option ManifestErr) rs :
  settled (map (fun r => EffReply (rq_id r) (f r)) rs) = ids rs.
Proof. induction rs as [|r rs IH]; simpl; [done|]. f_equal. exact IH. Qed.

Lemma settled_publish (g : LeaseWon -> meffect) ls :
  (forall l, exists a b c, g l = EffPublish a b c) -> settled (map g ls) = [].
Proof.
  intros Hg. induction ls as [|l ls IH]; simpl; [done|].
  destruct (Hg l) as (a & b & c & ->). exact IH.
Qed.

(** Everything a turn can leave waiting. *)
Definition waiting (m : manager) : list nat := ids (m_pendingRequests m) ++ ids (m_requests m).

Lemma fillAllRequests_spec e m m' effs :
  fillAllRequests e m = (m', effs) ->
  settled effs = waiting m /\ waiting m' = [] /\ m_requests m' = [] /\ m_pendingRequests m' = [] /\
  fetches effs = 0%nat.
Proof.
  unfold fillAllRequests, waiting. intros [= <- <-]. simpl. split_and!; try done.
  - rewrite (settled_replies (fun _ => e)). unfold ids. apply map_app.
  - induction (m_pendingRequests m ++ m_requests m); simpl; done.
Qed.

Lemma validate_loop_settles hs done m reqs reread accepted effs :
  validate_loop cfg hs done m reqs = (reread, accepted, effs) ->
  settled effs ++ ids accepted ++ ids reread ≡ₚ ids reqs /\ fetches effs = 0%nat /\
  Forall (fun r => rq_reread r = true) reread /\
  (forall id, EffDrop id ∈ effs -> done id = true) /\
  (forall lid g man, EffPublish lid g man ∉ effs).
Proof.
  revert reread accepted effs.
  induction reqs as [|r reqs IH]; intros reread accepted effs; simpl.
  { intros [= <- <- <-]. split_and!; try done; set_solver. }
  destruct (validate_loop cfg hs done m reqs) as [[rr ac] ef] eqn:E.
  destruct (IH _ _ _ eq_refl) as (Hp & Hf & Hrr & Hd & Hpub).
  destruct (done (rq_id r)) eqn:Hdone.
  { intros [= <- <- <-]. simpl. split_and!; try done.
    - by rewrite Hp.
    - intros id Hin. apply elem_of_cons in Hin as [[= ->]|?]; auto.
    - intros lid g man Hin. apply elem_of_cons in Hin as [?|?]; [done|]. by eapply Hpub. }
  assert (forall e, (rr, ac, EffReply (rq_id r) e :: ef) = (reread, accepted, effs) ->
    settled effs ++ ids accepted ++ ids reread ≡ₚ rq_id r :: ids reqs /\ fetches effs = 0%nat /\
    Forall (fun r => rq_reread r = true) reread /\
    (forall id, EffDrop id ∈ effs -> done id = true) /\
    (forall lid g man, EffPublish lid g man ∉ effs)) as Hreply.
  { intros e [= <- <- <-]. simpl. split_and!; try done.
    - by rewrite Hp.
    - intros id Hin. apply elem_of_cons in Hin as [?|?]; [done|auto].
    - intros lid g man Hin. apply elem_of_cons in Hin as [?|?]; [done|]. by eapply Hpub. }
  destruct (validateRequest _ _ _ _ _) as [[]|] eqn:Hv; try (by apply Hreply).
  - destruct (rq_reread r) eqn:Hre; simpl; [by apply Hreply|]. intros [= <- <- <-]. simpl.
    split_and!; try done.
    + rewrite <- Hp. solve_Permutation.
    + by constructor.
  - intros [= <- <- <-]. simpl. split_and!; try done. rewrite <- Hp.
    solve_Permutation.
Qed.
(** The fields no processing touches. *)
Definition same_chain (a b : manager) : Prop :=
  m_data a = m_data b /\ m_expected a = m_expected b /\ m_localLeases a = m_localLeases b /\
  m_fetched a = m_fetched b /\ m_stoptimer a = m_stoptimer b /\ m_runch a = m_runch b.

Lemma validateRequests_spec hs done m m' effs :
  validateRequests cfg hs done m = (m', effs) -> m_pendingRequests m = [] ->
  same_chain m' m /\ settled effs ++ waiting m' ≡ₚ waiting m /\ fetches effs = 0%nat /\
  (m_fetched m = true -> Forall (fun r => rq_reread r = true) (m_requests m')) /\
  (m_pendingRequests m' <> [] -> m_fetched m' = true /\ m_manifests m' <> []) /\
  (forall id, EffDrop id ∈ effs -> done id = true) /\
  (forall lid g man, EffPublish lid g man ∉ effs).
Proof.
  unfold validateRequests. intros Hv Hpend.
  destruct (negb (m_fetched m) || (length (m_requests m) =? 0)%nat) eqn:Hskip.
  - injection Hv as <- <-. split_and!; try done; try set_solver.
    intros Hf. rewrite Hf in Hskip. simpl in Hskip. apply Nat.eqb_eq, nil_length_inv in Hskip.
    rewrite Hskip. constructor.
  - destruct (validate_loop _ _ _ _ _) as [[rr ac] ef] eqn:E. injection Hv as <- <-.
    apply validate_loop_settles in E as (Hp & Hf & Hrr & Hd & Hpub).
    apply orb_false_iff in Hskip as [Hfe _]. apply negb_false_iff in Hfe.
    split_and!; try done; simpl.
    + unfold waiting; simpl. rewrite Hpend. simpl. by rewrite <- Hp.
    + rewrite Hpend. simpl. intros Hne. split; [done|]. destruct ac; [done|]. by destruct (m_manifests m).
Qed.

Lemma publish_effects ls latest rs :
  let effs := map (fun l => EffPublish (lw_lease l) (lw_group l) latest) ls ++
              map (fun r => EffReply (rq_id r) None) rs in
  settled effs = ids rs /\ fetches effs = 0%nat /\ (forall id, EffDrop id ∉ effs).
Proof.
  simpl. split_and!.
  - rewrite settled_app, settled_publish by eauto. by rewrite (settled_replies (fun _ => None)).
  - rewrite fetches_app. induction ls; simpl; [|done]. induction rs; done.
  - intros id Hin. apply elem_of_app in Hin as [Hin|Hin];
      apply list_elem_of_In, in_map_iff in Hin as (? & ? & _); done.
Qed.

Lemma emit_spec m m' effs :
  maybeEmitReceivedEvents m = (m', effs) ->
  (m_pendingRequests m <> [] -> m_fetched m = true /\ m_manifests m <> []) ->
  same_chain m' m /\ settled effs ++ waiting m' ≡ₚ waiting m /\ fetches effs = 0%nat /\
  m_pendingRequests m' = [] /\ m_manifests m' = m_manifests m /\
  (m_requests m' = [] \/ m_requests m' = m_requests m) /\ (forall id, EffDrop id ∉ effs).
Proof.
  unfold maybeEmitReceivedEvents. intros He Hpend.
  destruct ((0 <? length (m_requests m))%nat && (length (m_pendingRequests m) =? 0)%nat) eqn:Hc.
  { injection He as <- <-. apply andb_true_iff in Hc as [_ Hc]. apply Nat.eqb_eq, nil_length_inv in Hc.
    split_and!; try done; [by right|no_elem]. }
  unfold emitReceivedEvents in He.
  assert (forall m0, (m, []) = (m0, effs) -> m_fetched m = false \/ m_manifests m = [] ->
    same_chain m0 m /\ settled effs ++ waiting m0 ≡ₚ waiting m /\ fetches effs = 0%nat /\
    m_pendingRequests m0 = [] /\ m_manifests m0 = m_manifests m /\
    (m_requests m0 = [] \/ m_requests m0 = m_requests m) /\ (forall id, EffDrop id ∉ effs)) as Hskip.
  { intros m0 [= <- <-] Hor. assert (m_pendingRequests m = []) as Hnil.
    { destruct (m_pendingRequests m) eqn:E; [done|]. destruct Hpend as [? ?]; [done|].
      destruct Hor; congruence. }
    split_and!; try done; [by right|no_elem]. }
  destruct (list.last (m_manifests m)) as [latest|] eqn:Hl.
  2:{ apply Hskip; [done|]. right. by apply last_None. }
  destruct (m_fetched m) eqn:Hf; simpl in He; [|by apply Hskip; [|left]].
  destruct (m_localLeases m) as [|l ls] eqn:Hls.
  - pose proof (fillAllRequests_spec _ _ _ _ He) as (Hs & Hw & Hr & Hp & Hfe).
    assert (same_chain m' m /\ m_manifests m' = m_manifests m /\ forall id, EffDrop id ∉ effs)
      as (Hsame & Hman & Hd).
    { unfold fillAllRequests in He. injection He as <- <-. split_and!; [done|done|].
      intros id Hin. apply list_elem_of_In, in_map_iff in Hin as (? & ? & _). done. }
    split_and!; try done; [|by left]. by rewrite Hs, Hw, app_nil_r.
  - pose proof (publish_effects (l :: ls) latest (m_pendingRequests m)) as (Hs & Hfe & Hd).
    injection He as <- <-. split_and!; try done; [|by right].
    match goal with |- settled ?x ++ _ ≡ₚ _ =>
      replace (settled x) with (ids (m_pendingRequests m)) by (symmetry; exact Hs) end.
    done.
Qed.

Lemma process_spec hs done m m' effs :
  process cfg hs done m = (m', effs) -> m_pendingRequests m = [] -> m_fetched m = true ->
  same_chain m' m /\ settled effs ++ waiting m' ≡ₚ waiting m /\ fetches effs = 0%nat /\
  m_pendingRequests m' = [] /\ Forall (fun r => rq_reread r = true) (m_requests m') /\
  (forall id, EffDrop id ∈ effs -> done id = true).
Proof.
  unfold process. intros Hp Hpend Hf.
  destruct (validateRequests cfg hs done m) as [m1 e1] eqn:E1.
  destruct (maybeEmitReceivedEvents m1) as [m2 e2] eqn:E2. injection Hp as <- <-.
  apply validateRequests_spec in E1 as (Hs1 & Hp1 & Hf1 & Hr1 & Hpend1 & Hd1 & _); [|done].
  apply emit_spec in E2 as (Hs2 & Hp2 & Hf2 & Hpend2 & _ & Hr2 & Hd2); [|done].
  split_and!.
  - destruct Hs1, Hs2. unfold same_chain in *. destruct_and!. split_and!; congruence.
  - rewrite settled_app, <- Hp1, <- Hp2. solve_Permutation.
  - rewrite fetches_app. lia.
  - done.
  - destruct Hr2 as [-> | ->]; [constructor|by apply Hr1].
  - intros id [Hin|Hin]%elem_of_app; [by apply Hd1|by destruct (Hd2 id)].
Qed.

(** Requests the chain has not been read again for. *)
Definition fresh (rs : list manifestRequest) : nat :=
  length (List.filter (fun r => negb (rq_reread r)) rs).

Lemma fresh_app a b : fresh (a ++ b) = (fresh a + fresh b)%nat.
Proof. unfold fresh. by rewrite List.filter_app, length_app. Qed.

Lemma fresh_reread rs : Forall (fun r => rq_reread r = true) rs -> fresh rs = 0%nat.
Proof. unfold fresh. induction 1 as [|r rs Hr _ IH]; simpl; [done|]. by rewrite Hr. Qed.

Lemma validate_loop_fresh hs done m reqs reread accepted effs :
  validate_loop cfg hs done m reqs = (reread, accepted, effs) -> (length reread <= fresh reqs)%nat.
Proof.
  revert reread accepted effs. unfold fresh.
  induction reqs as [|r reqs IH]; intros reread accepted effs; simpl.
  { intros [= <- <- <-]. done. }
  destruct (validate_loop cfg hs done m reqs) as [[rr ac] ef] eqn:E.
  specialize (IH _ _ _ eq_refl).
  destruct (rq_reread r), (done (rq_id r)); simpl;
    repeat (case_match; try done); intros [= <- <- <-]; simpl; lia.
Qed.

Lemma process_fresh hs done m m' effs :
  process cfg hs done m = (m', effs) -> m_pendingRequests m = [] -> m_fetched m = true ->
  (length (m_requests m') <= fresh (m_requests m))%nat.
Proof.
  unfold process. intros Hp Hpend Hf.
  destruct (validateRequests cfg hs done m) as [m1 e1] eqn:E1.
  destruct (maybeEmitReceivedEvents m1) as [m2 e2] eqn:E2. injection Hp as <- <-.
  pose proof (validateRequests_spec _ _ _ _ _ E1 Hpend) as (_ & _ & _ & _ & Hpend1 & _).
  apply emit_spec in E2 as (_ & _ & _ & _ & _ & Hr2 & _); [|done].
  assert (length (m_requests m1) <= fresh (m_requests m))%nat as H1.
  { unfold validateRequests in E1. rewrite Hf in E1. simpl in E1.
    destruct (length (m_requests m) =? 0)%nat eqn:Hz.
    - injection E1 as <- <-. apply Nat.eqb_eq in Hz. lia.
    - destruct (validate_loop _ _ _ _ _) as [[rr ac] ef] eqn:E. injection E1 as <- <-. simpl.
      by eapply validate_loop_fresh. }
  destruct Hr2 as [-> | ->]; [simpl; lia|done].
Qed.

(** ** The invariant of the manager *)

Definition leases_won (evs : list mevent) : nat :=
  length (evs ≫= (fun ev => match ev with MLease _ => [tt] | _ => [] end)).

Definition ctx_done (ev : mevent) (id : nat) : Prop :=
  match ev with
  | MManifest _ _ _ done _ | MFetched _ _ done _ => done id = true
  | _ => False
  end.

Record manager_inv (evs : list mevent) (m : manager) (effs : list meffect) : Prop := {
  mi_stop : m_stoptimer m = false;
  mi_pending : m_pendingRequests m = [];
  mi_reading : m_requests m <> [] -> m_runch m = true;
  mi_settled : settled effs ++ ids (m_requests m) ≡ₚ received evs;
  mi_fetches : (fetches effs + fresh (m_requests m) <=
                leases_won evs + 2 * length (received evs))%nat;
  mi_drop : forall id, EffDrop id ∈ effs -> exists ev, ev ∈ evs /\ ctx_done ev id
}.

Lemma leases_won_app a b : leases_won (a ++ b) = (leases_won a + leases_won b)%nat.
Proof. unfold leases_won. by rewrite bind_app, length_app. Qed.

Lemma maybeScheduleStop_off m : m_stoptimer m = false -> maybeScheduleStop m = m.
Proof. intros H. unfold maybeScheduleStop. rewrite H. by destruct (_ || _). Qed.

Lemma drop_later evs ev effs e :
  (forall id, EffDrop id ∈ effs -> exists x, x ∈ evs /\ ctx_done x id) ->
  (forall id, EffDrop id ∈ e -> ctx_done ev id) ->
  forall id, EffDrop id ∈ effs ++ e -> exists x, x ∈ evs ++ [ev] /\ ctx_done x id.
Proof.
  intros H1 H2 id [Hin|Hin]%elem_of_app.
  - destruct (H1 id Hin) as (x & Hx & Hd). exists x. split; [|done]. apply elem_of_app. by left.
  - exists ev. split; [|auto]. apply elem_of_app. right. left.
Qed.

(** After the chain data has been processed: [m1] is the manager before, with
    its requests accounted for, [m2] after. *)
Lemma inv_process evs m1 effs hs done m2 e m3 e3 ev :
  m_stoptimer m1 = false -> m_pendingRequests m1 = [] -> m_fetched m1 = true ->
  settled effs ++ ids (m_requests m1) ≡ₚ received (evs ++ [ev]) ->
  (fetches effs + fresh (m_requests m1) <=
     leases_won (evs ++ [ev]) + 2 * length (received (evs ++ [ev])))%nat ->
  (forall id, EffDrop id ∈ effs -> exists x, x ∈ evs /\ ctx_done x id) ->
  (forall id, done id = true -> ctx_done ev id) ->
  process cfg hs done m1 = (m2, e) -> maybeRereadData m2 = (m3, e3) ->
  manager_inv (evs ++ [ev]) m3 (effs ++ e ++ e3).
Proof.
  intros Hst Hpend Hf Hset Hfe Hdr Hctx Hp Hrr.
  pose proof (process_fresh _ _ _ _ _ Hp Hpend Hf) as Hlen.
  destruct (process_spec _ _ _ _ _ Hp Hpend Hf) as (Hs & Hperm & Hf0 & Hpend2 & Hall & Hd).
  apply fresh_reread in Hall. unfold waiting in Hperm. rewrite Hpend, Hpend2 in Hperm. simpl in Hperm.
  destruct Hs as (_ & _ & _ & _ & Hst2 & _).
  assert (m_requests m3 = m_requests m2 /\ m_pendingRequests m3 = [] /\ m_stoptimer m3 = false /\
    (m_requests m2 <> [] -> m_runch m3 = true) /\ settled e3 = [] /\
    (fetches e3 <= length (m_requests m2))%nat /\ (forall id, EffDrop id ∉ e3))
    as (Hr3 & Hp3 & Hst3 & Hrun & Hs3 & Hf3 & Hd3).
  { unfold maybeRereadData in Hrr. destruct (m_requests m2) as [|r rs] eqn:E;
      injection Hrr as <- <-; simpl; split_and!; try done; try congruence.
    - no_elem.
    - unfold fetches; simpl; lia.
    - intros id Hin%list_elem_of_singleton. done. }
  split; rewrite ?Hr3; try done.
  - rewrite !settled_app, Hs3, app_nil_r, <- Hset, <- Hperm. solve_Permutation.
  - rewrite !fetches_app, Hf0, Hall. lia.
  - apply drop_later; [done|]. intros id [Hin|Hin]%elem_of_app; [by apply Hctx, Hd|].
    by destruct (Hd3 id).
Qed.

(** A turn that only starts or drops a chain read. *)
Lemma inv_plain evs m effs ev m' e :
  manager_inv evs m effs -> m_stoptimer m' = false -> m_pendingRequests m' = [] ->
  m_requests m' = m_requests m -> (m_requests m <> [] -> m_runch m' = true) ->
  received [ev] = [] -> settled e = [] -> (fetches e <= leases_won [ev])%nat ->
  (forall id, EffDrop id ∉ e) ->
  manager_inv (evs ++ [ev]) m' (effs ++ e).
Proof.
  intros [H1 H2 H3 H4 H5 H6] Hst Hp Hr Hrun Hrec Hset Hf Hd. split; rewrite ?Hr; try done.
  - by rewrite settled_app, Hset, app_nil_r, received_app, Hrec, app_nil_r.
  - rewrite fetches_app, leases_won_app, received_app, Hrec, app_nil_r. lia.
  - apply drop_later; [done|]. intros id Hin. by destruct (Hd id).
Qed.

Lemma maybeFetchData_spec now m m' e :
  maybeFetchData cfg now m = (m', e) ->
  m_requests m' = m_requests m /\ m_pendingRequests m' = m_pendingRequests m /\
  m_stoptimer m' = m_stoptimer m /\ settled e = [] /\ (fetches e <= 1)%nat /\
  (forall id, EffDrop id ∉ e) /\
  (m_runch m' = true \/ (m_runch m' = false /\ m_fetched m' = true /\ e = [] /\ m' = m)).
Proof.
  unfold maybeFetchData. destruct (m_runch m) eqn:Hr.
  { intros [= <- <-]. split_and!; try done; try (by left); try (unfold fetches; simpl; lia).
    all: no_elem. }
  destruct (negb (m_fetched m) || _) eqn:Hc; intros [= <- <-]; split_and!; try done; try (by left).
  - intros id Hin%list_elem_of_singleton. done.
  - unfold fetches; simpl; lia.
  - no_elem.
  - right. apply orb_false_iff in Hc as [Hc _]. apply negb_false_iff in Hc. done.
Qed.

(** A manifest received. *)
Lemma inv_manifest evs m effs id man now done hs m' e :
  manager_inv evs m effs -> manager_step cfg m (MManifest id man now done hs) = MLoop m' e ->
  manager_inv (evs ++ [MManifest id man now done hs]) m' (effs ++ e).
Proof.
  intros Hi. pose proof Hi as [H1 H2 H3 H4 H5 H6]. simpl. rewrite maybeScheduleStop_off by done.
  destruct (maybeFetchData _ _ _) as [m1 e1] eqn:E.
  apply maybeFetchData_spec in E as (Hr & Hp & Hst & Hs & Hf & Hd & Hrun).
  simpl in Hp, Hst. assert (fresh (m_requests m1) = S (fresh (m_requests m))) as Hfr.
  { rewrite Hr. simpl. rewrite fresh_app. unfold fresh at 2. simpl. lia. }
  assert (ids (m_requests m1) = ids (m_requests m) ++ [id]) as Hids.
  { rewrite Hr. unfold ids. simpl. by rewrite map_app. }
  assert (received (evs ++ [MManifest id man now done hs]) = received evs ++ [id]) as Hrec
    by apply received_app.
  assert (leases_won (evs ++ [MManifest id man now done hs]) = leases_won evs) as Hlw.
  { rewrite leases_won_app. unfold leases_won at 2. simpl. lia. }
  destruct Hrun as [Hrun|(Hrun & Hfet & -> & _)]; rewrite Hrun.
  - intros [= <- <-]. split; try congruence.
    + by rewrite settled_app, Hs, app_nil_r, Hids, Hrec, <- H4, app_assoc.
    + rewrite fetches_app, Hlw, Hrec, length_app, Hfr. simpl. lia.
    + apply drop_later; [done|]. intros x Hin. by destruct (Hd x).
  - destruct (process _ _ _ _) as [m2 e2] eqn:E2. destruct (maybeRereadData m2) as [m3 e3] eqn:E3.
    intros [= <- <-]. simpl.
    eapply (inv_process evs m1 effs hs done m2 e2 m3 e3); eauto; try congruence.
    + rewrite Hids, Hrec, <- H4. by rewrite app_assoc.
    + rewrite Hlw, Hrec, length_app, Hfr. simpl. lia.
Qed.

(** The result of a chain read. *)
Lemma inv_read evs m effs r now done hs m' e :
  manager_inv evs m effs -> manager_step cfg m (MFetched r now done hs) = MLoop m' e ->
  manager_inv (evs ++ [MFetched r now done hs]) m' (effs ++ e).
Proof.
  intros Hi. pose proof Hi as [H1 H2 H3 H4 H5 H6]. simpl.
  destruct (m_runch m) eqn:Hrun; simpl; [|done]. destruct r as [r|].
  - destruct (process _ _ _ _) as [m2 e2] eqn:E2.
    assert (m_stoptimer m2 = false) as Hst2.
    { apply process_spec in E2 as ((_ & _ & _ & _ & -> & _) & _); done. }
    rewrite maybeScheduleStop_off by done.
    destruct (maybeRereadData m2) as [m3 e3] eqn:E3. intros [= <- <-].
    apply (inv_process evs (applyFetchResult now r (set_runch false m)) effs hs done m2 e2 m3 e3);
      try done.
    + rewrite received_app. simpl. by rewrite app_nil_r.
    + rewrite received_app, leases_won_app. simpl. rewrite app_nil_r. unfold leases_won at 2. simpl. lia.
  - intros [= <- <-].
    pose proof (fillAllRequests_spec (Some ErrFetch) (set_runch false m) _ _ eq_refl)
      as (Hs & _ & _ & _ & Hf2).
    split; try done.
    + rewrite settled_app. simpl in Hs. rewrite Hs. unfold waiting. simpl. rewrite H2. simpl.
      rewrite received_app, app_nil_r, <- H4. simpl. by rewrite app_nil_r.
    + rewrite fetches_app, received_app, leases_won_app. simpl in Hf2. rewrite Hf2. simpl.
      rewrite app_nil_r. unfold fresh; simpl. lia.
    + apply drop_later; [done|]. intros x Hin.
      apply list_elem_of_In, in_map_iff in Hin as (? & ? & _). done.
Qed.

Lemma manager_inv_turn evs m effs ev m' e :
  manager_inv evs m effs -> manager_step cfg m ev = MLoop m' e ->
  manager_inv (evs ++ [ev]) m' (effs ++ e).
Proof.
  intros Hi. pose proof Hi as [H1 H2 H3 H4 H5 H6].
  destruct ev as [| |now| |id man now fin hs| |r now fin hs];
    [done|simpl; by rewrite H1| | |by apply inv_manifest| |by apply inv_read]; simpl.
  - rewrite maybeScheduleStop_off by done.
    destruct (maybeFetchData _ _ _) as [m1 e1] eqn:E. intros [= <- <-].
    apply maybeFetchData_spec in E as (Hr & Hp & Hst & Hs & Hf & Hd & Hrun). simpl in *.
    eapply inv_plain; eauto; try congruence.
    destruct Hrun as [?|(_ & ? & _ & ->)]; [done|]. done.
  - rewrite maybeScheduleStop_off by done. intros [= <- <-].
    eapply inv_plain; eauto. no_elem.
  - intros [= <- <-]. eapply inv_plain; eauto. no_elem.
Qed.

Lemma manager_loop_inv evs m effs : manager_loop evs m effs -> manager_inv evs m effs.
Proof.
  induction 1 as [|evs m effs ev m' e _ IH Hs]; [|by eapply manager_inv_turn].
  split; try done. no_elem.
Qed.

(** ** What gets published *)

Definition reads (evs : list mevent) : list fetchResult :=
  evs ≫= (fun ev => match ev with MFetched (Some r) _ _ _ => [r] | _ => [] end).

Definition submitted (evs : list mevent) (man : Manifest) : Prop :=
  exists id now done hs, MManifest id man now done hs ∈ evs.

(** The manifest was submitted, is valid and within the proxy limits, and its
    version is the hash of a deployment read from the chain (or the empty hash
    nothing has been read for). *)
Definition vetted (evs : list mevent) (man : Manifest) : Prop :=
  submitted evs man /\ Validate man = true /\ validateProxyBufferLimits man = None /\
  exists v, Version man = Some v /\
    (v = ""%string \/ exists r, r ∈ reads evs /\ d_hash (fr_deployment r) = v).

Definition leased (evs : list mevent) (l : LeaseWon) : Prop :=
  exists r, r ∈ reads evs /\ l ∈ fr_leases r.

Record publish_inv (evs : list mevent) (m : manager) (effs : list meffect) : Prop := {
  pv_requests : forall q, q ∈ m_requests m -> submitted evs (rq_manifest q);
  pv_manifests : forall man, man ∈ m_manifests m -> vetted evs man;
  pv_leases : forall l, l ∈ m_localLeases m -> leased evs l;
  pv_highest : forall r, r ∈ reads evs -> d_hash (fr_deployment r) <> ""%string ->
    (fr_height r <= dv_height (m_expected m))%Z;
  pv_expected : m_expected m = mkVersion "" 0 \/ exists r, r ∈ reads evs /\
    m_expected m = mkVersion (d_hash (fr_deployment r)) (fr_height r);
  pv_published : forall lid g man, EffPublish lid g man ∈ effs ->
    vetted evs man /\ leased evs (mkLeaseWon lid g)
}.

Lemma reads_app a b : reads (a ++ b) = reads a ++ reads b.
Proof. apply bind_app. Qed.

Lemma vetted_later evs ev man : vetted evs man -> vetted (evs ++ [ev]) man.
Proof.
  intros ((id & now & d & hs & Hin) & Hv & Hp & v & Hver & Hr). split_and!; [|done|done|].
  - exists id, now, d, hs. apply elem_of_app. by left.
  - exists v. split; [done|]. destruct Hr as [?|(r & Hin' & ?)]; [by left|right].
    exists r. rewrite reads_app, elem_of_app. auto.
Qed.

Lemma leased_later evs ev l : leased evs l -> leased (evs ++ [ev]) l.
Proof. intros (r & Hr & Hl). exists r. rewrite reads_app, elem_of_app. auto. Qed.

Lemma submitted_later evs ev man : submitted evs man -> submitted (evs ++ [ev]) man.
Proof. intros (id & now & d & hs & Hin). exists id, now, d, hs. apply elem_of_app. by left. Qed.

(** Everything the invariant says about the past still holds later; only
    the fields of the manager need looking at. *)
Lemma publish_inv_later evs ev m m' effs :
  publish_inv evs m effs -> reads [ev] = [] ->
  m_requests m' = m_requests m \/ m_requests m' = [] ->
  m_manifests m' = m_manifests m -> m_localLeases m' = m_localLeases m \/ m_localLeases m' = [] ->
  m_expected m' = m_expected m -> publish_inv (evs ++ [ev]) m' effs.
Proof.
  intros [H1 H2 H3 H4 H5 H6] Hr Hq Hman Hl He.
  assert (reads (evs ++ [ev]) = reads evs) as Hreads by (by rewrite reads_app, Hr, app_nil_r).
  split.
  - destruct Hq as [-> | ->]; intros q Hin; [by apply submitted_later, H1|by apply not_elem_of_nil in Hin].
  - rewrite Hman. intros man Hin. by apply vetted_later, H2.
  - destruct Hl as [-> | ->]; intros l Hin; [by apply leased_later, H3|by apply not_elem_of_nil in Hin].
  - rewrite Hreads, He. done.
  - rewrite Hreads, He. done.
  - intros lid g man Hin. destruct (H6 lid g man Hin). by split; [apply vetted_later|apply leased_later].
Qed.

Lemma validateRequest_vetted hs done m req :
  validateRequest cfg hs done m req = None ->
  Validate (rq_manifest req) = true /\ validateProxyBufferLimits (rq_manifest req) = None /\
  Version (rq_manifest req) = Some (dv_hash (m_expected m)).
Proof.
  unfold validateRequest. destruct (done _); [done|]. destruct (Validate _); simpl; [|done].
  destruct (validateProxyBufferLimits _); [done|]. destruct (Version _) as [v|]; [|done].
  destruct (String.eqb_spec v (dv_hash (m_expected m))); simpl; [|done]. by intros _; subst.
Qed.

Lemma validate_loop_vetted hs done m reqs reread accepted effs :
  validate_loop cfg hs done m reqs = (reread, accepted, effs) ->
  (forall q, q ∈ reread -> exists q', q' ∈ reqs /\ rq_manifest q = rq_manifest q') /\
  (forall q, q ∈ accepted -> q ∈ reqs /\ validateRequest cfg hs done m q = None).
Proof.
  revert reread accepted effs.
  induction reqs as [|r reqs IH]; intros reread accepted effs; simpl.
  { intros [= <- <- <-]. split; no_elem. }
  destruct (validate_loop cfg hs done m reqs) as [[rr ac] ef] eqn:E.
  destruct (IH _ _ _ eq_refl) as [Ha Hb].
  assert ((forall q, q ∈ rr -> exists q', q' ∈ r :: reqs /\ rq_manifest q = rq_manifest q') /\
          (forall q, q ∈ ac -> q ∈ r :: reqs /\ validateRequest cfg hs done m q = None)) as [Ha' Hb'].
  { split.
    - intros q Hq. destruct (Ha q Hq) as (q' & ? & ?). exists q'. split; [by right|done].
    - intros q Hq. destruct (Hb q Hq). split; [by right|done]. }
  destruct (done (rq_id r)); [intros [= <- <- <-]; by split|].
  destruct (validateRequest _ _ _ _ _) as [[]|] eqn:Hv; try (intros [= <- <- <-]; by split).
  - destruct (rq_reread r); simpl; intros [= <- <- <-]; split; auto.
    intros q [->|Hq]%elem_of_cons; [|auto]. exists r. split; [left|done].
  - intros [= <- <- <-]. split; [done|]. intros q [->|Hq]%elem_of_cons; [|auto].
    split; [left|done].
Qed.

Lemma validateRequests_publish evs m effs hs done m1 e1 :
  publish_inv evs m effs -> validateRequests cfg hs done m = (m1, e1) ->
  publish_inv evs m1 (effs ++ e1).
Proof.
  intros Hi E1. unfold validateRequests in E1.
  destruct (negb _ || _); [injection E1 as <- <-; by rewrite app_nil_r|].
  destruct (validate_loop _ _ _ _ _) as [[rr ac] ef] eqn:E. injection E1 as <- <-.
  pose proof (validate_loop_settles _ _ _ _ _ _ _ E) as (_ & _ & _ & _ & Hpub).
  apply validate_loop_vetted in E as [Ha Hb]. destruct Hi as [I1 I2 I3 I4 I5 I6].
  split; simpl; try done.
  - intros q Hq. destruct (Ha q Hq) as (q' & Hin & ->). by apply I1.
  - intros man [Hin|Hin]%elem_of_app; [by apply I2|].
    destruct ac as [|q ac]; [by apply not_elem_of_nil in Hin|].
    apply list_elem_of_singleton in Hin as ->.
    destruct (Hb q (list_elem_of_here _ _)) as [Hq Hv].
    apply validateRequest_vetted in Hv as (V1 & V2 & V3). split_and!; [by apply I1|done|done|].
    eexists. split; [done|]. destruct I5 as [->|(r & Hr & ->)]; [by left|right]. by exists r.
  - intros lid g man [Hin|Hin]%elem_of_app; [by apply I6|]. by destruct (Hpub lid g man).
Qed.

Lemma maybeEmit_publish evs m1 effs m2 e2 :
  publish_inv evs m1 effs -> maybeEmitReceivedEvents m1 = (m2, e2) ->
  publish_inv evs m2 (effs ++ e2).
Proof.
  intros H1 E2. unfold maybeEmitReceivedEvents, emitReceivedEvents in E2.
  destruct (_ && _); [injection E2 as <- <-; by rewrite app_nil_r|].
  destruct (list.last (m_manifests m1)) as [latest|] eqn:Hl; [|injection E2 as <- <-; by rewrite app_nil_r].
  destruct (negb _); [injection E2 as <- <-; by rewrite app_nil_r|].
  destruct H1 as [I1 I2 I3 I4 I5 I6]. destruct (m_localLeases m1) as [|l0 ls] eqn:Hls.
  - injection E2 as <- <-. split; simpl; try done.
    + no_elem.
    + by rewrite Hls.
    + intros lid g man [Hin|Hin]%elem_of_app; [by apply I6|].
      apply list_elem_of_In, in_map_iff in Hin as (? & ? & _). done.
  - assert (e2 = map (fun l => EffPublish (lw_lease l) (lw_group l) latest) (l0 :: ls) ++
                 map (fun r => EffReply (rq_id r) None) (m_pendingRequests m1)) as Heq
      by (by injection E2).
    injection E2 as <- _. split; simpl; try done.
    intros lid g man [Hin|Hin]%elem_of_app; [by apply I6|]. rewrite Heq in Hin.
    apply elem_of_app in Hin as [Hin|Hin];
      apply list_elem_of_In, in_map_iff in Hin as (x & Hx & Hin); [|done].
    injection Hx as <- <- <-. split.
    + apply I2. by apply last_Some_elem_of.
    + apply I3. destruct x. by apply list_elem_of_In.
Qed.

Lemma process_publish evs m effs hs done m' e :
  publish_inv evs m effs -> process cfg hs done m = (m', e) -> publish_inv evs m' (effs ++ e).
Proof.
  intros Hi Hp. unfold process in Hp.
  destruct (validateRequests cfg hs done m) as [m1 e1] eqn:E1.
  destruct (maybeEmitReceivedEvents m1) as [m2 e2] eqn:E2. injection Hp as <- <-.
  rewrite app_assoc. eapply maybeEmit_publish; [|done]. by eapply validateRequests_publish.
Qed.

Lemma publish_inv_fields evs m m' effs e :
  publish_inv evs m effs ->
  m_requests m' = m_requests m \/ m_requests m' = [] ->
  m_manifests m' = m_manifests m -> m_localLeases m' = m_localLeases m \/ m_localLeases m' = [] ->
  m_expected m' = m_expected m -> (forall lid g man, EffPublish lid g man ∉ e) ->
  publish_inv evs m' (effs ++ e).
Proof.
  intros [H1 H2 H3 H4 H5 H6] Hq Hman Hl He Hpub. split; rewrite ?Hman, ?He; try done.
  - destruct Hq as [-> | ->]; [done|]. no_elem.
  - destruct Hl as [-> | ->]; [done|]. no_elem.
  - intros lid g man [Hin|Hin]%elem_of_app; [by apply H6|]. by destruct (Hpub lid g man).
Qed.

Lemma maybeFetchData_fields now m m' e :
  maybeFetchData cfg now m = (m', e) ->
  m_requests m' = m_requests m /\ m_manifests m' = m_manifests m /\
  (m_localLeases m' = m_localLeases m \/ m_localLeases m' = []) /\
  m_expected m' = m_expected m /\ (forall lid g man, EffPublish lid g man ∉ e).
Proof.
  unfold maybeFetchData. intros H.
  destruct (m_runch m); [|destruct (_ || _)]; injection H as <- <-; split_and!; auto;
    intros lid g man Hin; set_solver.
Qed.

Lemma maybeRereadData_fields m m' e :
  maybeRereadData m = (m', e) ->
  m_requests m' = m_requests m /\ m_manifests m' = m_manifests m /\
  (m_localLeases m' = m_localLeases m \/ m_localLeases m' = []) /\
  m_expected m' = m_expected m /\ (forall lid g man, EffPublish lid g man ∉ e).
Proof.
  unfold maybeRereadData. intros H.
  destruct (m_requests m) eqn:E; injection H as <- <-; split_and!; auto;
    intros lid g man Hin; set_solver.
Qed.

Lemma publish_inv_read evs m effs r now done hs :
  publish_inv evs m effs ->
  publish_inv (evs ++ [MFetched (Some r) now done hs]) (applyFetchResult now r m) effs.
Proof.
  intros [H1 H2 H3 H4 H5 H6]. set (ev := MFetched _ _ _ _).
  assert (reads (evs ++ [ev]) = reads evs ++ [r]) as Hr by apply reads_app.
  split; simpl.
  - intros q Hq. by apply submitted_later, H1.
  - intros man Hman. by apply vetted_later, H2.
  - intros l Hl. exists r. rewrite Hr, elem_of_app. split; [right; left|done].
  - intros x. rewrite Hr, elem_of_app, list_elem_of_singleton.
    intros [Hx| ->] Hne.
    + specialize (H4 x Hx Hne). destruct (String.eqb _ _); [done|].
      destruct (Z.ltb_spec (fr_height r) (dv_height (m_expected m))); simpl; lia.
    + destruct (String.eqb_spec (d_hash (fr_deployment r)) ""); [done|].
      destruct (Z.ltb_spec (fr_height r) (dv_height (m_expected m))); simpl; lia.
  - assert (m_expected m = mkVersion "" 0 \/ exists x, x ∈ reads (evs ++ [ev]) /\
      m_expected m = mkVersion (d_hash (fr_deployment x)) (fr_height x)) as Hold.
    { destruct H5 as [?|(x & Hx & ?)]; [by left|right]. exists x. rewrite Hr, elem_of_app. auto. }
    destruct (String.eqb _ _); [done|]. destruct (_ <? _)%Z; [done|]. right. exists r.
    rewrite Hr, elem_of_app. split; [right; left|done].
  - intros lid g man Hin. destruct (H6 lid g man Hin). by split; [apply vetted_later|apply leased_later].
Qed.

(** A manifest received. *)
Lemma publish_manifest evs m effs id man now done hs m' e :
  manager_inv evs m effs -> publish_inv evs m effs ->
  manager_step cfg m (MManifest id man now done hs) = MLoop m' e ->
  publish_inv (evs ++ [MManifest id man now done hs]) m' (effs ++ e).
Proof.
  intros Hmi Hi. pose proof (mi_stop _ _ _ Hmi) as Hst. simpl. rewrite maybeScheduleStop_off by done.
  set (ev := MManifest _ _ _ _ _). set (m0 := add_request _ m).
  assert (publish_inv (evs ++ [ev]) m0 effs) as H0.
  { pose proof (publish_inv_later evs ev m m effs Hi eq_refl (or_introl eq_refl) eq_refl
      (or_introl eq_refl) eq_refl) as [I1 I2 I3 I4 I5 I6].
    split; simpl; try done. intros q [Hq|Hq]%elem_of_app; [by apply I1|].
    apply list_elem_of_singleton in Hq as ->. exists id, now, done, hs.
    apply elem_of_app. right. left. }
  destruct (maybeFetchData _ _ _) as [m1 e1] eqn:E.
  apply maybeFetchData_fields in E as (F1 & F2 & F3 & F4 & F5).
  assert (publish_inv (evs ++ [ev]) m1 (effs ++ e1)) as H1 by (apply (publish_inv_fields _ m0); auto).
  destruct (m_runch m1); [by intros [= <- <-]|].
  destruct (process _ _ _ _) as [m2 e2] eqn:E2. destruct (maybeRereadData m2) as [m3 e3] eqn:E3.
  intros [= <- <-]. apply maybeRereadData_fields in E3 as (G1 & G2 & G3 & G4 & G5).
  rewrite !app_assoc. apply (publish_inv_fields _ m2); auto. by eapply process_publish.
Qed.

(** The result of a chain read. *)
Lemma publish_read evs m effs r now done hs m' e :
  manager_inv evs m effs -> publish_inv evs m effs ->
  manager_step cfg m (MFetched r now done hs) = MLoop m' e ->
  publish_inv (evs ++ [MFetched r now done hs]) m' (effs ++ e).
Proof.
  intros Hmi Hi. simpl. destruct (m_runch m); simpl; [|done]. destruct r as [r|].
  - destruct (process _ _ _ _) as [m2 e2] eqn:E2.
    assert (m_stoptimer m2 = false) as Hst2.
    { apply process_spec in E2 as ((_ & _ & _ & _ & -> & _) & _);
        [apply (mi_stop _ _ _ Hmi)|apply (mi_pending _ _ _ Hmi)|done]. }
    rewrite maybeScheduleStop_off by done.
    destruct (maybeRereadData m2) as [m3 e3] eqn:E3. intros [= <- <-].
    apply maybeRereadData_fields in E3 as (G1 & G2 & G3 & G4 & G5).
    rewrite app_assoc. apply (publish_inv_fields _ m2); auto. eapply process_publish; [|exact E2].
    apply publish_inv_read.
    rewrite <- (app_nil_r effs). apply (publish_inv_fields _ m); auto. set_solver.
  - intros [= <- <-]. eapply publish_inv_fields; [eapply publish_inv_later; eauto|..]; simpl; auto.
    intros lid g man Hin. apply list_elem_of_In, in_map_iff in Hin as (? & ? & _). done.
Qed.

Lemma publish_inv_turn evs m effs ev m' e :
  manager_inv evs m effs -> publish_inv evs m effs -> manager_step cfg m ev = MLoop m' e ->
  publish_inv (evs ++ [ev]) m' (effs ++ e).
Proof.
  intros Hmi Hi. pose proof (mi_stop _ _ _ Hmi) as Hst.
  destruct ev as [| |now| |id man now fin hs| |r now fin hs];
    [done|simpl; by rewrite Hst| | |by apply publish_manifest| |by apply publish_read]; simpl.
  - rewrite maybeScheduleStop_off by done.
    destruct (maybeFetchData _ _ _) as [m1 e1] eqn:E. intros [= <- <-].
    apply maybeFetchData_fields in E as (F1 & F2 & F3 & F4 & F5). simpl in *.
    apply (publish_inv_fields _ (clearFetched m)); auto.
    eapply publish_inv_later; eauto.
  - rewrite maybeScheduleStop_off by done. intros [= <- <-]. rewrite app_nil_r.
    eapply publish_inv_later; eauto.
  - intros [= <- <-]. rewrite app_nil_r. eapply publish_inv_later; eauto.
Qed.

Lemma manager_loop_publish evs m effs : manager_loop evs m effs -> publish_inv evs m effs.
Proof.
  induction 1 as [|evs m effs ev m' e Hl IH Hs].
  - split; simpl; try (by left); intros; set_solver.
  - eapply publish_inv_turn; eauto. by apply manager_loop_inv.
Qed.

End Runs.

(** ** The hostname service as the manager's client *)

Lemma CanReserveHostnames_sound hs names o :
  CanReserveHostnames hs false names o = Ok tt ->
  forall h, h ∈ names ->
    isHostnameBlocked hs (to_lower h) = None /\ foreign (inUse hs) o (to_lower h) = false.
Proof.
  unfold CanReserveHostnames. destruct (first_blocked hs (map to_lower names)) eqn:Hb; [done|].
  intros Hc h Hh.
  assert (to_lower h ∈ map to_lower names) as Hin.
  { apply list_elem_of_In, in_map, list_elem_of_In. done. }
  split.
  - clear Hc Hh. revert Hb Hin. induction (map to_lower names) as [|x l IH]; simpl.
    { no_elem. }
    destruct (isHostnameBlocked hs x) eqn:Hx; [done|].
    intros Hb [->|Hin]%elem_of_cons; auto.
  - simpl in Hc. rewrite canReserve_eq in Hc.
    destruct (List.find (foreign (inUse hs) o) (map to_lower names)) eqn:Hf; [done|].
    by apply (find_none _ _ Hf), list_elem_of_In.
Qed.

#[export] Instance hostname_client : HostnameClient := {|
  hc_state := hostnameService;
  hc_can_reserve hs names o := CanReserveHostnames hs false names o;
  hc_free hs o h :=
    isHostnameBlocked hs (to_lower h) = None /\ foreign (inUse hs) o (to_lower h) = false;
  hc_sound := CanReserveHostnames_sound
|}.

(** ** The watchdog *)

Inductive wd_state := WDWaiting | WDClosing (shutdownSeen : bool) | WDDone.
Inductive wd_event := WDTimeout | WDShutdown | WDResult.

(** One turn of the watchdog: the next state and whether it broadcasts the
    close of the bid; [None] when the event cannot be received. A broadcast
    under way is waited for even when a shutdown is requested. *)
Definition watchdog_step (s : wd_state) (ev : wd_event) : option (wd_state * bool) :=
  match s, ev with
  | WDWaiting, WDTimeout => Some (WDClosing false, true)
  | WDWaiting, WDShutdown => Some (WDDone, false)
  | WDClosing _, WDResult => Some (WDDone, false)
  | WDClosing false, WDShutdown => Some (WDClosing true, false)
  | _, _ => None
  end.

Fixpoint watchdog_run (s : wd_state) (evs : list wd_event) : option (wd_state * nat) :=
  match evs with
  | [] => Some (s, 0%nat)
  | ev :: rest =>
      match watchdog_step s ev with
      | None => None
      | Some (s', b) =>
          match watchdog_run s' rest with
          | None => None
          | Some (s'', n) => Some (s'', ((if b then 1 else 0) + n)%nat)
          end
      end
  end.

(** ** Properties *)

(** C14: every manifest a tenant submits is answered exactly once before the
    manager ends, or given up, and it is given up only if its own request
    context had ended when the manager looked at it. *)
Theorem manifest_requests_settled {mapi : ManifestAPI} {hc : HostnameClient} (cfg : ServiceConfig)
    (evs : list mevent) (effs : list meffect) :
  manager_run cfg evs effs ->
  settled effs ≡ₚ received evs /\
  forall id, EffDrop id ∈ effs -> exists ev, ev ∈ evs /\ ctx_done ev id.
Proof.
  intros [evs0 m effs0 ev m' e Hl Hb]. apply manager_loop_inv in Hl as [H1 H2 H3 H4 H5 H6].
  assert (received [ev] = [] /\ fillAllRequests (Some ErrNotRunning_) m = (m', e)) as [Hr Hf].
  { destruct ev; simpl in Hb |- *; repeat (case_match; try done); simplify_eq; auto. }
  assert (forall id, EffDrop id ∉ e) as Hd.
  { unfold fillAllRequests in Hf. injection Hf as _ <-. intros id Hin.
    apply list_elem_of_In, in_map_iff in Hin as (? & ? & _). done. }
  apply fillAllRequests_spec in Hf as (Hs & _). split.
  - rewrite settled_app, Hs, received_app, Hr, app_nil_r, <- H4. unfold waiting. by rewrite H2.
  - apply drop_later; [done|]. intros id Hin. by destruct (Hd id).
Qed.

(** Between events no submitted manifest is forgotten: an accepted one has
    been published or refused, one still waiting has a chain read under way,
    and all others have been answered or given up; and waiting is bounded, since
    the manager reads the chain at most once per lease won and twice per
    manifest received. *)
Theorem manifest_waiting_bounded {mapi : ManifestAPI} {hc : HostnameClient} (cfg : ServiceConfig)
    (evs : list mevent) (m : manager) (effs : list meffect) :
  manager_loop cfg evs m effs ->
  m_pendingRequests m = [] /\ (m_requests m <> [] -> m_runch m = true) /\
  settled effs ++ ids (m_requests m) ≡ₚ received evs /\
  (fetches effs <= leases_won evs + 2 * length (received evs))%nat.
Proof. intros [H1 H2 H3 H4 H5 H6]%manager_loop_inv. split_and!; try done. lia. Qed.

(** C20: what the manager publishes for a lease is a manifest that was submitted
    to it, is valid, keeps within the proxy limits, and whose version is the
    hash of a deployment it read from the chain; the lease is one a chain read reported active
    for this provider. Stated for manifests whose version is not the empty text. *)
Theorem manifest_published_vetted {mapi : ManifestAPI} {hc : HostnameClient} (cfg : ServiceConfig)
    (evs : list mevent) (m : manager) (effs : list meffect) (lid : LeaseID) (g : ChainGroup)
    (man : Manifest) :
  manager_loop cfg evs m effs -> Version man <> Some ""%string -> EffPublish lid g man ∈ effs ->
  submitted evs man /\ Validate man = true /\ validateProxyBufferLimits man = None /\
  (exists r, r ∈ reads evs /\ Version man = Some (d_hash (fr_deployment r))) /\
  leased evs (mkLeaseWon lid g).
Proof.
  intros Hl Hv Hin. apply manager_loop_publish in Hl.
  destruct (pv_published _ _ _ Hl lid g man Hin) as [(H1 & H2 & H3 & v & H4 & H5) H6].
  split_and!; try done. destruct H5 as [->|(r & Hr & <-)]; [done|]. eauto.
Qed.

(** The version a manifest must match never goes back: it is the hash of
    a deployment read at the greatest height any read with a hash has
    reported, so a lagging node cannot bring an older version back. *)
Theorem expected_version_highest {mapi : ManifestAPI} {hc : HostnameClient} (cfg : ServiceConfig)
    (evs : list mevent) (m : manager) (effs : list meffect) :
  manager_loop cfg evs m effs ->
  (forall r, r ∈ reads evs -> d_hash (fr_deployment r) <> ""%string ->
     (fr_height r <= dv_height (m_expected m))%Z) /\
  (m_expected m = mkVersion "" 0 \/
   exists r, r ∈ reads evs /\ m_expected m = mkVersion (d_hash (fr_deployment r)) (fr_height r)).
Proof.
  intros Hl%manager_loop_publish. split; [apply (pv_highest _ _ _ Hl)|apply (pv_expected _ _ _ Hl)].
Qed.

Lemma collect_hosts_elem b pairs acc names :
  collect_hosts b pairs acc = Ok names ->
  (forall h, h ∈ acc -> h ∈ names) /\
  forall g h, (g, mg_name g) ∈ pairs -> h ∈ AllHostnamesOfManifestGroup g -> h ∈ names.
Proof.
  revert acc. induction pairs as [|[g n] pairs IH]; intros acc; simpl.
  { intros [= <-]. split; [done|]. no_elem. }
  destruct (String.eqb_spec n (mg_name g)) as [->|Hne]; simpl.
  - intros Hc. assert (collect_hosts b pairs (acc ++ AllHostnamesOfManifestGroup g) = Ok names) as Hc'.
    { destruct b; [|done]. by repeat (case_match; try done). }
    destruct (IH _ Hc') as [Ha Hb]. split.
    + intros h Hh. apply Ha, elem_of_app. by left.
    + intros g' h [Heq|Hin]%elem_of_cons Hh; [|by eapply Hb].
      injection Heq as ->. apply Ha, elem_of_app. by right.
  - intros Hc. destruct (IH _ Hc) as [Ha Hb]. split; [done|].
    intros g' h [Heq|Hin]%elem_of_cons Hh; [|by eapply Hb]. simplify_eq.
Qed.

(** When a manifest is accepted, every hostname of every group the provider
    holds a lease for is free for the deployment's owner as the hostname
    service promises. *)
Theorem accepted_hostnames_free {mapi : ManifestAPI} {hc : HostnameClient} (cfg : ServiceConfig)
    (hs : hc_state) (done : nat -> bool) (m : manager) (req : manifestRequest) :
  validateRequest cfg hs done m req = None ->
  exists o, GetOwnerAddress (d_owner (m_data m)) = Some o /\
    forall g l h, g ∈ man_groups (rq_manifest req) -> l ∈ m_localLeases m ->
      cg_name (lw_group l) = mg_name g -> h ∈ AllHostnamesOfManifestGroup g -> hc_free hs o h.
Proof.
  unfold validateRequest. repeat (case_match; try done).
  unfold checkHostnamesForManifest. destruct (GetOwnerAddress _) as [o|]; [|done].
  destruct (collect_hosts _ _ _) as [names|] eqn:Hc; [|done].
  destruct (hc_can_reserve hs names o) as [[]|] eqn:Hr; [|done]. intros _.
  exists o. split; [done|]. intros g l h Hg Hl Hn Hh.
  apply (hc_sound _ _ _ Hr). destruct (collect_hosts_elem _ _ _ _ Hc) as [_ Hb].
  apply (Hb g h); [|done]. apply list_elem_of_bind. exists g. split; [|done].
  apply list_elem_of_In, in_map_iff. exists (mg_name g). split; [done|].
  apply in_map_iff. exists l. split; [done|by apply list_elem_of_In].
Qed.

(** The manager's stop timer never runs: no event ever starts it, so a
    manager without leases and manifests does not stop after the linger
    period. *)
Theorem stop_timer_never_starts {mapi : ManifestAPI} {hc : HostnameClient} (cfg : ServiceConfig)
    (evs : list mevent) (m : manager) (effs : list meffect) :
  manager_loop cfg evs m effs -> manager_step cfg m MStopTimer = MNotReady.
Proof. intros [Hst _ _ _ _ _]%manager_loop_inv. simpl. by rewrite Hst. Qed.

(** The proxy buffer settings emitted for an ingress are ones nginx
    accepts: when a number of buffers and a busy size are emitted, there are at
    least two buffers and the busy size lies between one buffer and all but one,
    computed without overflow although the code computes in 32 bits. *)
Theorem IngressProxyBuffers_accepted (bufferSize number busy : Z) :
  is_uint 32 bufferSize -> is_uint 32 number -> is_uint 32 busy ->
  let out := IngressProxyBuffers bufferSize number busy in
  ib_BufferSize out = bufferSize /\
  ((ib_Number out = 0 /\ ib_BusySize out = 0) \/
   (2 <= ib_Number out /\ 0 < bufferSize /\
    bufferSize <= ib_BusySize out <= (ib_Number out - 1) * bufferSize /\
    (number <> 0 -> ib_Number out = number) /\ (busy <> 0 -> ib_BusySize out = busy)))%Z.
Proof.
  intros Hb Hn Hbu. unfold IngressProxyBuffers, is_uint in *.
  assert ((if (bufferSize >? 0)%Z then bufferSize else 0%Z) = bufferSize) as ->
    by (destruct (Z.gtb_spec bufferSize 0); lia).
  destruct (_ || _)%bool eqn:Hz; simpl; [by auto|].
  apply orb_false_iff in Hz as [Hz Hb0%Z.eqb_neq].
  set (n := if (number =? 0)%Z then 4%Z else number).
  assert (0 <= n < 2 ^ 32)%Z by (unfold n; destruct (number =? 0)%Z; lia).
  destruct (Z.ltb_spec n 2); simpl; [by auto|].
  set (b := if (busy =? 0)%Z then _ else busy).
  destruct (_ || _)%bool eqn:Hc; simpl; [by auto|]. split; [done|]. right.
  apply orb_false_iff in Hc as [Hc1%Z.ltb_ge Hc2].
  assert (b <= wrap32 (wrap32 (n - 1) * bufferSize))%Z as Hc3.
  { destruct (Z.gtb_spec b (wrap32 (wrap32 (n - 1) * bufferSize))); [done|lia]. }
  unfold wrap32 in Hc3. rewrite (wrap_id 32 (n - 1)) in Hc3 by (unfold is_uint; lia).
  pose proof (wrap_le 32 ((n - 1) * bufferSize)) as Hw.
  assert (0 <= (n - 1) * bufferSize)%Z by (apply Z.mul_nonneg_nonneg; lia).
  split_and!; try lia.
  - unfold n. intros Hnz. destruct (Z.eqb_spec number 0); lia.
  - unfold b. intros Hnz. destruct (Z.eqb_spec busy 0); lia.
Qed.

(** The watchdog broadcasts the close of the bid at most once; it does so
    exactly when the timeout comes before a shutdown; and once the broadcast is
    under way it ends only with the broadcast's result, shutdown or not. *)
Theorem watchdog_closes_once (evs : list wd_event) (s : wd_state) (n : nat) :
  watchdog_run WDWaiting evs = Some (s, n) ->
  (n <= 1)%nat /\ (n = 1%nat <-> head evs = Some WDTimeout) /\
  (n = 1%nat -> (s = WDDone <-> WDResult ∈ evs)).
Proof.
  destruct evs as [|[] rest]; simpl; try done.
  - intros [= <- <-]. naive_solver lia.
  - destruct rest as [|[] rest]; simpl; try done.
    + intros [= <- <-]. split_and!; [lia|done|]. intros _. split; [done|].
      intros H%list_elem_of_singleton. done.
    + destruct rest as [|[] rest]; simpl; try done.
      * intros [= <- <-]. split_and!; [lia|done|]. intros _. split; [done|]. set_solver.
      * destruct rest as [|[] ?]; simpl; try done. intros [= <- <-]. split_and!; [lia|done|].
        intros _. split; [|done]. intros _. right. right. left.
    + destruct rest as [|[] ?]; simpl; try done. intros [= <- <-]. split_and!; [lia|done|].
      intros _. split; [|done]. intros _. right. left.
  - destruct rest as [|[] ?]; simpl; try done. intros [= <- <-].
    split_and!; [lia| |lia]. split; [lia|done].
Qed.

(** ** Examples *)

Module ManifestExamples.

#[global] Instance simple_manifests : ManifestAPI := {|
  Validate _ := true;
  Version m := Some (if (man_id m =? 1)%Z then "v1" else "v2")%string;
  CheckAgainstDeployment _ _ := true;
  GetOwnerAddress s := Some s
|}.

Definition cfg : ServiceConfig := mkServiceConfig true 300.
Definition hs : hostnameService := mkHostnameService ∅ [] [].
Definition man : Manifest :=
  mkManifest 1 [mkMGroup "g" [mkService "web" [mkExpose ["example.com"%string] true None]]].
Definition lid : LeaseID := mkLeaseID "owner" 5 1 1 "provider".
Definition grp : ChainGroup := mkChainGroup 1 "g".
Definition read : fetchResult := mkFetch (mkDeployment "owner" "v1" [grp]) [mkLeaseWon lid grp] 42.

Definition ev1 : mevent := MManifest 7 man 10 (fun _ => false) hs.
Definition ev2 : mevent := MFetched (Some read) 11 (fun _ => false) hs.

Definition after : manager :=
  mkManager (fr_deployment read) [] [] [man] (mkVersion "v1" 42) [mkLeaseWon lid grp] true 11 false
    false.
Definition effs : list meffect := [EffFetchData; EffPublish lid grp man; EffReply 7 None].

Lemma after_loop : manager_loop cfg [ev1; ev2] after effs.
Proof.
  pose proof (mloop_start cfg) as H.
  apply (mloop_turn cfg _ _ _ ev1 _ _) with (2 := eq_refl) in H.
  apply (mloop_turn cfg _ _ _ ev2 _ _) with (2 := eq_refl) in H.
  exact H.
Qed.

Lemma after_run : manager_run cfg [ev1; ev2; MShutdown] effs.
Proof. exact (mrun_done cfg _ _ _ MShutdown _ _ after_loop eq_refl). Qed.

End ManifestExamples.

Lemma manifest_requests_settled_witness :
  settled ManifestExamples.effs ≡ₚ [7%nat].
Proof.
  exact (proj1 (manifest_requests_settled ManifestExamples.cfg _ _ ManifestExamples.after_run)).
Defined.

Lemma manifest_waiting_bounded_witness :
  (fetches ManifestExamples.effs <= 2)%nat.
Proof.
  exact (proj2 (proj2 (proj2 (manifest_waiting_bounded ManifestExamples.cfg _ _ _
    ManifestExamples.after_loop)))).
Defined.

Lemma manifest_published_vetted_witness :
  exists r, r ∈ reads [ManifestExamples.ev1; ManifestExamples.ev2] /\
    Version ManifestExamples.man = Some (d_hash (fr_deployment r)).
Proof.
  refine (proj1 (proj2 (proj2 (proj2 (manifest_published_vetted ManifestExamples.cfg _ _ _
    ManifestExamples.lid ManifestExamples.grp ManifestExamples.man ManifestExamples.after_loop
    _ _))))); [discriminate|right; left].
Defined.

Lemma expected_version_highest_witness :
  (fr_height ManifestExamples.read <= dv_height (m_expected ManifestExamples.after))%Z.
Proof.
  apply (proj1 (expected_version_highest ManifestExamples.cfg _ _ _ ManifestExamples.after_loop)).
  - left.
  - discriminate.
Defined.

Lemma accepted_hostnames_free_witness :
  hc_free ManifestExamples.hs "owner" "example.com".
Proof.
  destruct (accepted_hostnames_free (hc := hostname_client) ManifestExamples.cfg ManifestExamples.hs
    (fun _ => false) ManifestExamples.after (mkRequest 7 ManifestExamples.man false))
    as (o & Ho & H); [vm_compute; reflexivity|].
  injection Ho as <-.
  refine (H _ (mkLeaseWon ManifestExamples.lid ManifestExamples.grp) _ (list_elem_of_here _ _) _
    eq_refl _); left.
Defined.

Lemma stop_timer_never_starts_witness :
  manager_step ManifestExamples.cfg ManifestExamples.after MStopTimer = MNotReady.
Proof. exact (stop_timer_never_starts ManifestExamples.cfg _ _ _ ManifestExamples.after_loop). Defined.

Lemma IngressProxyBuffers_accepted_witness :
  ib_BusySize (IngressProxyBuffers 8192 4 0) = 16384%Z /\
  (8192 <= ib_BusySize (IngressProxyBuffers 8192 4 0) <= 3 * 8192)%Z.
Proof.
  split; [reflexivity|].
  destruct (IngressProxyBuffers_accepted 8192 4 0) as [_ [[H _]|(_ & _ & H & _)]];
    [unfold is_uint; lia|unfold is_uint; lia|unfold is_uint; lia|discriminate H|exact H].
Defined.

Lemma watchdog_closes_once_witness :
  watchdog_run WDWaiting [WDTimeout; WDShutdown; WDResult] = Some (WDDone, 1%nat) /\
  (1 = 1 <-> head [WDTimeout; WDShutdown; WDResult] = Some WDTimeout)%nat.
Proof.
  split; [reflexivity|].
  exact (proj1 (proj2 (watchdog_closes_once [WDTimeout; WDShutdown; WDResult] WDDone 1 eq_refl))).
Defined.
