(* ===== verification/Deployment.v ===== *)
(** * Deployments

    Model of the loop of [cluster/manager.go]: the manager that deploys, updates
    and tears down one lease. What a deploy and a teardown do is in the file
    Deploy, the monitor of a deployed lease in the file Monitor. *)

From stdpp Require Import base gmap list strings relations tactics.
From Stdlib Require Import ZArith Lia Ascii.
From S2P Require Import Prelude Types Hostname.

(** ** The manager's loop *)

Inductive deploymentState :=
| dsDeployActive | dsDeployPending | dsDeployComplete
| dsTeardownActive | dsTeardownPending | dsTeardownComplete.

#[export] Instance deploymentState_eq_dec : EqDecision deploymentState.
Proof. solve_decision. Defined.

(** The operation whose result [runch] will deliver. *)
Inductive op := OpDeploy (d : Z) | OpTeardown.

(** The manager with the variables of [run]. A deployment is known by a
    number. [monitors] counts the monitors started and not yet told to stop;
    [reclaimch] is the channel's buffer; [reclaiming] holds the deadline of an
    attempt under way. *)
Record deploymentManager := mkDM {
  dm_state : deploymentState;
  dm_deployment : Z;
  runch : option op;
  monitors : nat;
  retryTeardown : bool;
  reclaimch : option Z;
  reclaimDeadline : Z;
  reclaiming : option Z;
  reclaimC : bool;
  dm_error : bool
}.

Inductive run_result := RunOk | RunErr | RunInactive.

Inductive dm_event :=
| DShutdown
| DReclaim
| DReclaimTimer
| DReclaimResult (done : bool)
| DUpdate (d : Z)
| DResult (r : run_result)
| DRetry
| DTeardown
| DReclaimRequest (deadline : Z).

Inductive dm_effect :=
| EStartDeploy (d : Z)
| EStartTeardown
| EStartMonitor
| EReclaimAttempt (deadline : Z).

Inductive dm_turn :=
| DNotReady
| DPanic
| DLoop (dm : deploymentManager) (e : list dm_effect)
| DBreak (dm : deploymentManager).

Definition tearingDown (dm : deploymentManager) : bool :=
  match dm_state dm with
  | dsTeardownPending | dsTeardownActive | dsTeardownComplete => true
  | _ => false
  end.

Definition set_dm_state (s : deploymentState) (dm : deploymentManager) : deploymentManager :=
  mkDM s (dm_deployment dm) (runch dm) (monitors dm) (retryTeardown dm) (reclaimch dm)
    (reclaimDeadline dm) (reclaiming dm) (reclaimC dm) (dm_error dm).
Definition set_runch (o : option op) (dm : deploymentManager) : deploymentManager :=
  mkDM (dm_state dm) (dm_deployment dm) o (monitors dm) (retryTeardown dm) (reclaimch dm)
    (reclaimDeadline dm) (reclaiming dm) (reclaimC dm) (dm_error dm).
Definition set_retry (b : bool) (dm : deploymentManager) : deploymentManager :=
  mkDM (dm_state dm) (dm_deployment dm) (runch dm) (monitors dm) b (reclaimch dm)
    (reclaimDeadline dm) (reclaiming dm) (reclaimC dm) (dm_error dm).
Definition set_monitors (n : nat) (dm : deploymentManager) : deploymentManager :=
  mkDM (dm_state dm) (dm_deployment dm) (runch dm) n (retryTeardown dm) (reclaimch dm)
    (reclaimDeadline dm) (reclaiming dm) (reclaimC dm) (dm_error dm).
Definition set_deployment (d : Z) (dm : deploymentManager) : deploymentManager :=
  mkDM (dm_state dm) d (runch dm) (monitors dm) (retryTeardown dm) (reclaimch dm)
    (reclaimDeadline dm) (reclaiming dm) (reclaimC dm) (dm_error dm).
Definition set_reclaim (ch : option Z) (dl : Z) (busy : option Z) (tm : bool)
    (dm : deploymentManager) : deploymentManager :=
  mkDM (dm_state dm) (dm_deployment dm) (runch dm) (monitors dm) (retryTeardown dm) ch dl busy tm
    (dm_error dm).
Definition set_error (b : bool) (dm : deploymentManager) : deploymentManager :=
  mkDM (dm_state dm) (dm_deployment dm) (runch dm) (monitors dm) (retryTeardown dm) (reclaimch dm)
    (reclaimDeadline dm) (reclaiming dm) (reclaimC dm) b.

(** Stopping is asking the last monitor to shut down; a stopped one stays
    stopped. *)
Definition stopMonitor (dm : deploymentManager) : deploymentManager :=
  set_monitors (pred (monitors dm)) dm.

Definition startMonitor (dm : deploymentManager) : deploymentManager :=
  set_monitors (S (monitors dm)) dm.

Definition startDeploy (dm : deploymentManager) : deploymentManager * list dm_effect :=
  (set_runch (Some (OpDeploy (dm_deployment dm))) (set_dm_state dsDeployActive (stopMonitor dm)),
   [EStartDeploy (dm_deployment dm)]).

Definition startTeardown (dm : deploymentManager) : deploymentManager * list dm_effect :=
  (set_runch (Some OpTeardown) (set_dm_state dsTeardownActive (stopMonitor dm)), [EStartTeardown]).

Definition dm_handleUpdate (dm : deploymentManager) : deploymentManager * list dm_effect :=
  match dm_state dm with
  | dsDeployActive => (set_dm_state dsDeployPending dm, [])
  | dsDeployComplete => startDeploy dm
  | _ => (dm, [])
  end.

Definition startReclaimAttempt (dm : deploymentManager) : deploymentManager * list dm_effect :=
  match reclaiming dm with
  | Some _ => (dm, [])
  | None =>
      if tearingDown dm then (dm, [])
      else (set_reclaim (reclaimch dm) (reclaimDeadline dm) (Some (reclaimDeadline dm))
              (reclaimC dm) dm, [EReclaimAttempt (reclaimDeadline dm)])
  end.

(** [reclaim]: a deadline already queued makes the new one be dropped. *)
Definition reclaim (deadline : Z) (dm : deploymentManager) : deploymentManager :=
  match reclaimch dm with
  | Some _ => dm
  | None => set_reclaim (Some deadline) (reclaimDeadline dm) (reclaiming dm) (reclaimC dm) dm
  end.

#[local] Abbreviation loop_of r := (DLoop r.1 r.2).

(** The result of the operation under way. *)
Definition on_result (r : run_result) (dm : deploymentManager) : dm_turn :=
  let dm := set_runch None dm in
  match r with
  | RunInactive => loop_of (startTeardown dm)
  | _ =>
      let failed := match r with RunErr => true | _ => false end in
      match dm_state dm with
      | dsDeployActive =>
          DLoop (set_error failed (startMonitor (set_dm_state dsDeployComplete dm))) [EStartMonitor]
      | dsDeployPending => loop_of (startDeploy dm)
      | dsDeployComplete | dsTeardownComplete => DPanic
      | dsTeardownActive =>
          if failed then DLoop (set_retry true dm) []
          else DBreak (set_dm_state dsTeardownComplete dm)
      | dsTeardownPending => loop_of (startTeardown dm)
      end
  end.

Definition on_teardown (dm : deploymentManager) : dm_turn :=
  let dm := stopMonitor dm in
  match dm_state dm with
  | dsDeployActive | dsDeployPending => DLoop (set_dm_state dsTeardownPending dm) []
  | dsDeployComplete => loop_of (startTeardown dm)
  | _ => DLoop dm []
  end.

Definition dm_step (dm : deploymentManager) (ev : dm_event) : dm_turn :=
  match ev with
  | DShutdown => DBreak dm
  | DReclaimRequest deadline => DLoop (reclaim deadline dm) []
  | DReclaim =>
      match reclaimch dm with
      | None => DNotReady
      | Some deadline =>
          loop_of (startReclaimAttempt (set_reclaim None deadline (reclaiming dm) (reclaimC dm) dm))
      end
  | DReclaimTimer =>
      if reclaimC dm then
        loop_of (startReclaimAttempt
          (set_reclaim (reclaimch dm) (reclaimDeadline dm) (reclaiming dm) false dm))
      else DNotReady
  | DReclaimResult done =>
      match reclaiming dm with
      | None => DNotReady
      | Some _ =>
          DLoop (set_reclaim (reclaimch dm) (reclaimDeadline dm) None
                   (if tearingDown dm then reclaimC dm else negb done) dm) []
      end
  | DUpdate d => loop_of (dm_handleUpdate (set_deployment d dm))
  | DResult r =>
      match runch dm with
      | None => DNotReady
      | Some _ => on_result r dm
      end
  | DRetry => if retryTeardown dm then loop_of (startTeardown (set_retry false dm)) else DNotReady
  | DTeardown => on_teardown dm
  end.

(** A manager starts with a deploy under way. *)
Definition dm_init (d : Z) : deploymentManager :=
  mkDM dsDeployActive d (Some (OpDeploy d)) 0 false None 0 None false false.

Inductive dm_loop (d0 : Z) : list dm_event -> deploymentManager -> list dm_effect -> Prop :=
| dm_start : dm_loop d0 [] (dm_init d0) [EStartDeploy d0]
| dm_more evs dm effs ev dm' e :
    dm_loop d0 evs dm effs -> dm_step dm ev = DLoop dm' e ->
    dm_loop d0 (evs ++ [ev]) dm' (effs ++ e).

(** ** Invariant *)

Definition deploying (s : deploymentState) : bool :=
  match s with dsDeployActive | dsDeployPending | dsTeardownPending => true | _ => false end.

(** What the state says about the operation under way, the monitor and the
    retry timer. *)
Record dm_inv (dm : deploymentManager) (effs : list dm_effect) : Prop := {
  di_deploying : deploying (dm_state dm) = true ->
    exists d, runch dm = Some (OpDeploy d) /\ (dm_state dm = dsDeployActive -> d = dm_deployment dm);
  di_complete : dm_state dm = dsDeployComplete -> runch dm = None /\
    exists pre post, effs = pre ++ EStartDeploy (dm_deployment dm) :: post /\
      forall d, EStartDeploy d ∉ post;
  di_active : dm_state dm = dsDeployActive ->
    exists pre post, effs = pre ++ EStartDeploy (dm_deployment dm) :: post /\
      forall d, EStartDeploy d ∉ post;
  di_teardown : dm_state dm = dsTeardownActive ->
    (runch dm = Some OpTeardown /\ retryTeardown dm = false) \/
    (runch dm = None /\ retryTeardown dm = true);
  di_retry : retryTeardown dm = true -> dm_state dm = dsTeardownActive;
  di_monitor : monitors dm = (if decide (dm_state dm = dsDeployComplete) then 1 else 0)%nat;
  di_open : dm_state dm <> dsTeardownComplete
}.

(** Appending effects that start no deploy keeps the last one last. *)
Lemma last_deploy_later effs e d :
  (exists pre post, effs = pre ++ EStartDeploy d :: post /\ forall d, EStartDeploy d ∉ post) ->
  (forall d, EStartDeploy d ∉ e) ->
  exists pre post, effs ++ e = pre ++ EStartDeploy d :: post /\ forall d, EStartDeploy d ∉ post.
Proof.
  intros (pre & post & -> & Hp) He. exists pre, (post ++ e). split; [by rewrite <- app_assoc|].
  intros d' [Hin|Hin]%elem_of_app; [by apply (Hp d')|by apply (He d')].
Qed.

Lemma last_deploy_new effs d :
  exists pre post, effs ++ [EStartDeploy d] = pre ++ EStartDeploy d :: post /\
    forall d', EStartDeploy d' ∉ post.
Proof. exists effs, []. split; [done|]. no_elem. Qed.

Lemma dm_inv_init d : dm_inv (dm_init d) [EStartDeploy d].
Proof.
  split; simpl; try done.
  - intros _. exists d. done.
  - intros _. apply (last_deploy_new [] d).
Qed.

(** A turn that starts an operation or a monitor, or none of them. *)
Lemma inv_startDeploy dm effs :
  monitors dm = 0%nat \/ monitors dm = 1%nat -> retryTeardown dm = false ->
  dm_inv (startDeploy dm).1 (effs ++ (startDeploy dm).2).
Proof.
  intros Hm Hr. split; simpl; try done.
  - intros _. eauto.
  - intros _. apply last_deploy_new.
  - congruence.
  - destruct Hm as [-> | ->]; done.
Qed.

Lemma inv_startTeardown dm effs :
  monitors dm = 0%nat \/ monitors dm = 1%nat -> retryTeardown dm = false ->
  dm_inv (startTeardown dm).1 (effs ++ (startTeardown dm).2).
Proof.
  intros Hm Hr. split; simpl; try done.
  - intros _. by left.
  - destruct Hm as [-> | ->]; done.
Qed.

(** Turns that touch only the reclamation fields. *)
Lemma inv_reclaim dm dm' effs e :
  dm_inv dm effs -> dm_state dm' = dm_state dm -> dm_deployment dm' = dm_deployment dm ->
  runch dm' = runch dm -> monitors dm' = monitors dm -> retryTeardown dm' = retryTeardown dm ->
  (forall d, EStartDeploy d ∉ e) -> dm_inv dm' (effs ++ e).
Proof.
  intros [H1 H2 H3 H4 H5 H6 H7] E1 E2 E3 E4 E5 He. split; rewrite ?E1, ?E2, ?E3, ?E4, ?E5; try done.
  - intros Hs. destruct (H2 Hs) as [? ?]. split; [done|]. by apply last_deploy_later.
  - intros Hs. apply last_deploy_later; auto.
Qed.

Lemma monitors_01 dm effs : dm_inv dm effs -> monitors dm = 0%nat \/ monitors dm = 1%nat.
Proof. intros H. rewrite (di_monitor _ _ H). destruct (decide _); auto. Qed.

Lemma retry_off dm effs :
  dm_inv dm effs -> dm_state dm <> dsTeardownActive -> retryTeardown dm = false.
Proof.
  intros H Hs. destruct (retryTeardown dm) eqn:E; [|done]. by apply (di_retry _ _ H) in E.
Qed.

Lemma no_deploy_nil d : EStartDeploy d ∉ [].
Proof. apply not_elem_of_nil. Qed.

#[local] Hint Resolve no_deploy_nil monitors_01 retry_off : core.

Lemma startReclaimAttempt_inv dm effs :
  dm_inv dm effs ->
  dm_inv (startReclaimAttempt dm).1 (effs ++ (startReclaimAttempt dm).2).
Proof.
  intros H. apply (inv_reclaim dm); try done;
    unfold startReclaimAttempt; destruct (reclaiming dm); try destruct (tearingDown dm); simpl; auto.
  intros d Hin%list_elem_of_singleton. done.
Qed.

Lemma inv_result dm effs r dm' e :
  dm_inv dm effs -> is_Some (runch dm) -> on_result r dm = DLoop dm' e -> dm_inv dm' (effs ++ e).
Proof.
  intros H Hrun. unfold on_result.
  assert (retryTeardown dm = false) as Hretry.
  { destruct (retryTeardown dm) eqn:E; [|done]. pose proof (di_retry _ _ H E) as Hs.
    destruct (di_teardown _ _ H Hs) as [[_ ?]|[Hn _]]; [congruence|].
    destruct Hrun as [? ?]. congruence. }
  assert (forall b, dm_state dm = dsDeployActive ->
    dm_inv (set_error b (startMonitor (set_dm_state dsDeployComplete (set_runch None dm))))
      (effs ++ [EStartMonitor])) as Hcomplete.
  { intros b Hs. pose proof (di_monitor _ _ H) as Hm. rewrite Hs in Hm. simpl in Hm.
    split; simpl; try done; [|congruence|by rewrite Hm].
    intros _. split; [done|]. apply last_deploy_later; [by apply (di_active _ _ H)|].
    intros d Hin%list_elem_of_singleton. done. }
  assert (monitors dm = 0%nat \/ monitors dm = 1%nat) as Hm by eauto.
  destruct r; [| |intros [= <- <-]; by apply inv_startTeardown].
  all: destruct (dm_state dm) eqn:Hs; cbn [set_runch dm_state]; rewrite Hs; try done; intros [= <- <-].
  all: try (by apply Hcomplete); try (by apply (inv_startDeploy (set_runch None dm)));
    try (by apply (inv_startTeardown (set_runch None dm))).
  rewrite app_nil_r. pose proof (di_monitor _ _ H) as Hm'. rewrite Hs in Hm'.
  split; simpl; rewrite ?Hs; try done. by right.
Qed.

Lemma inv_teardown dm effs dm' e :
  dm_inv dm effs -> on_teardown dm = DLoop dm' e -> dm_inv dm' (effs ++ e).
Proof.
  intros H. pose proof (di_monitor _ _ H) as Hm. unfold on_teardown.
  destruct (dm_state dm) eqn:Hs; simpl; rewrite Hs; simpl in Hm; try done.
  - intros [= <- <-]. rewrite app_nil_r. pose proof (retry_off _ _ H ltac:(by rewrite Hs)) as Hr.
    destruct (di_deploying _ _ H) as (d & Hd & _); [by rewrite Hs|].
    split; simpl; try done; [by exists d|congruence|by rewrite Hm].
  - intros [= <- <-]. rewrite app_nil_r. pose proof (retry_off _ _ H ltac:(by rewrite Hs)) as Hr.
    destruct (di_deploying _ _ H) as (d & Hd & _); [by rewrite Hs|].
    split; simpl; try done; [by exists d|congruence|by rewrite Hm].
  - intros [= <- <-]. apply inv_startTeardown; simpl; [by rewrite Hm; left|].
    eapply retry_off; [done|by rewrite Hs].
  - intros [= <- <-]. apply (inv_reclaim dm); simpl; auto. by rewrite Hm.
  - intros [= <- <-]. apply (inv_reclaim dm); simpl; auto. by rewrite Hm.
  - intros [= <- <-]. apply (inv_reclaim dm); simpl; auto. by rewrite Hm.
Qed.

Lemma inv_update dm effs d :
  dm_inv dm effs ->
  dm_inv (dm_handleUpdate (set_deployment d dm)).1 (effs ++ (dm_handleUpdate (set_deployment d dm)).2).
Proof.
  intros H. unfold dm_handleUpdate; simpl. pose proof (di_monitor _ _ H) as Hm.
  destruct (dm_state dm) eqn:Hs; simpl; simpl in Hm; rewrite ?app_nil_r.
  3:{ apply (inv_startDeploy (set_deployment d dm)); simpl; [by right|].
      eapply retry_off; [done|by rewrite Hs]. }
  all: pose proof (retry_off _ _ H) as Hr; rewrite Hs in Hr.
  all: pose proof (di_deploying _ _ H) as Hd; rewrite Hs in Hd; simpl in Hd.
  all: split; simpl; rewrite ?Hs; try done;
    try (intros _; destruct Hd as (x & Hx & _); [done|]; by exists x);
    try (rewrite Hr by done; done).
  - intros _. by apply (di_teardown _ _ H).
  - by apply (di_open _ _ H) in Hs.
Qed.

Lemma dm_inv_turn dm effs ev dm' e :
  dm_inv dm effs -> dm_step dm ev = DLoop dm' e -> dm_inv dm' (effs ++ e).
Proof.
  intros H. destruct ev as [| | |fin|d|r| | |deadline]; simpl.
  - done.
  - destruct (reclaimch dm) as [dl|]; [|done]. intros [= <- <-]. apply startReclaimAttempt_inv.
    rewrite <- (app_nil_r effs). apply (inv_reclaim dm); auto.
  - destruct (reclaimC dm); [|done]. intros [= <- <-]. apply startReclaimAttempt_inv.
    rewrite <- (app_nil_r effs). apply (inv_reclaim dm); auto.
  - destruct (reclaiming dm); [|done]. intros [= <- <-]. apply (inv_reclaim dm); auto.
  - intros [= <- <-]. by apply inv_update.
  - destruct (runch dm) eqn:Hr; [|done]. intros Hres. eapply inv_result; eauto.
  - destruct (retryTeardown dm) eqn:Hr; [|done]. intros [= <- <-].
    apply inv_startTeardown; [|done]. exact (monitors_01 _ _ H).
  - by apply inv_teardown.
  - intros [= <- <-]. apply (inv_reclaim dm); auto; unfold reclaim; by destruct (reclaimch dm).
Qed.

Lemma dm_loop_inv d0 evs dm effs : dm_loop d0 evs dm effs -> dm_inv dm effs.
Proof. induction 1; [apply dm_inv_init|by eapply dm_inv_turn]. Qed.

(** A continuation of the loop. *)
Inductive dm_steps : deploymentManager -> deploymentManager -> list dm_effect -> Prop :=
| dms_refl dm : dm_steps dm dm []
| dms_step dm ev dm1 e1 dm2 e2 :
    dm_step dm ev = DLoop dm1 e1 -> dm_steps dm1 dm2 e2 -> dm_steps dm dm2 (e1 ++ e2).

Lemma tearing_step dm ev dm' e :
  tearingDown dm = true -> dm_step dm ev = DLoop dm' e ->
  tearingDown dm' = true /\ forall x, x ∈ e -> x = EStartTeardown.
Proof.
  intros Ht. unfold tearingDown in Ht.
  assert (forall x, x ∈ @nil dm_effect -> x = EStartTeardown) as Hnil
    by (no_elem).
  assert (forall x, x ∈ [EStartTeardown] -> x = EStartTeardown) as Hone
    by (intros x Hx; by apply list_elem_of_singleton in Hx).
  destruct ev as [| | |fin|d|r| | |deadline]; simpl.
  - done.
  - destruct (reclaimch dm); [|done]. unfold startReclaimAttempt, tearingDown; simpl.
    rewrite Ht. destruct (reclaiming dm); intros [= <- <-]; auto.
  - destruct (reclaimC dm); [|done]. unfold startReclaimAttempt, tearingDown; simpl.
    rewrite Ht. destruct (reclaiming dm); intros [= <- <-]; auto.
  - destruct (reclaiming dm); [|done]. intros [= <- <-]. unfold tearingDown at 1; simpl. auto.
  - unfold dm_handleUpdate, tearingDown; simpl. destruct (dm_state dm) eqn:Hs; try done;
      intros [= <- <-]; simpl; rewrite Hs; auto.
  - destruct (runch dm); [|done]. unfold on_result, tearingDown; simpl.
    destruct r, (dm_state dm) eqn:Hs; try done; intros [= <- <-]; simpl; rewrite ?Hs; auto.
  - destruct (retryTeardown dm); [|done]. intros [= <- <-]. auto.
  - unfold on_teardown, tearingDown; simpl. destruct (dm_state dm) eqn:Hs; try done;
      intros [= <- <-]; simpl; rewrite ?Hs; auto.
  - intros [= <- <-]. unfold reclaim, tearingDown. destruct (reclaimch dm); simpl; auto.
Qed.

Definition latest (d0 : Z) (evs : list dm_event) : Z :=
  foldl (fun d ev => match ev with DUpdate d' => d' | _ => d end) d0 evs.

Lemma startReclaimAttempt_frame dm :
  dm_deployment (startReclaimAttempt dm).1 = dm_deployment dm /\
  (forall x, x ∈ (startReclaimAttempt dm).2 -> exists d, x = EReclaimAttempt d).
Proof.
  unfold startReclaimAttempt. destruct (reclaiming dm); [|destruct (tearingDown dm)]; simpl;
    (split; [done|]); intros x Hx; try (by apply not_elem_of_nil in Hx).
  apply list_elem_of_singleton in Hx as ->. eauto.
Qed.

Lemma latest_step dm ev dm' e d0 evs :
  dm_step dm ev = DLoop dm' e -> dm_deployment dm = latest d0 evs ->
  dm_deployment dm' = latest d0 (evs ++ [ev]).
Proof.
  intros Hs Hd. unfold latest. rewrite foldl_app. fold (latest d0 evs). rewrite <- Hd. simpl.
  destruct ev as [| | |fin|d|r| | |deadline]; simpl in *.
  - done.
  - destruct (reclaimch dm); [|done]. injection Hs as <- _.
    apply (startReclaimAttempt_frame (set_reclaim _ _ _ _ dm)).
  - destruct (reclaimC dm); [|done]. injection Hs as <- _.
    apply (startReclaimAttempt_frame (set_reclaim _ _ _ _ dm)).
  - by go_cases.
  - injection Hs as <- _. unfold dm_handleUpdate. simpl. by destruct (dm_state dm).
  - destruct (runch dm); [|done]. unfold on_result in Hs. simpl in Hs.
    destruct r, (dm_state dm) eqn:E; try done; by injection Hs as <- _.
  - destruct (retryTeardown dm); [|done]. by injection Hs as <- _.
  - unfold on_teardown in Hs. simpl in Hs.
    destruct (dm_state dm) eqn:E; try done; by injection Hs as <- _.
  - simplify_eq. unfold reclaim. by case_match.
Qed.

Lemma dm_loop_latest d0 evs dm effs :
  dm_loop d0 evs dm effs -> dm_deployment dm = latest d0 evs.
Proof. induction 1; [done|by eapply latest_step]. Qed.

(** ** Properties of the loop *)

(** The panics of the manager's loop cannot happen: no sequence of events
    makes it read an operation's result in a state that has none. *)
Theorem manager_never_panics (d0 : Z) (evs : list dm_event) (dm : deploymentManager)
    (effs : list dm_effect) (ev : dm_event) :
  dm_loop d0 evs dm effs -> dm_step dm ev <> DPanic.
Proof.
  intros Hl%dm_loop_inv. destruct ev as [| | |fin|d|r| | |deadline]; simpl; try done.
  - by destruct (reclaimch dm).
  - by destruct (reclaimC dm).
  - by destruct (reclaiming dm).
  - destruct (runch dm) as [o|] eqn:Hr; [|done]. unfold on_result.
    pose proof (di_complete _ _ Hl) as Hc. pose proof (di_open _ _ Hl) as Ho.
    simpl. destruct r, (dm_state dm) eqn:Hs; try done; destruct (Hc eq_refl); congruence.
  - by destruct (retryTeardown dm).
  - unfold on_teardown. simpl. by destruct (dm_state dm).
Qed.

(** Teardown is final: once the manager is tearing down it stays so, and
    whatever happens it starts no deploy, no monitor and no attempt to close a
    reclaimed lease again, only further teardowns. *)
Theorem teardown_is_final (dm dm' : deploymentManager) (e : list dm_effect) :
  tearingDown dm = true -> dm_steps dm dm' e ->
  tearingDown dm' = true /\ forall x, x ∈ e -> x = EStartTeardown.
Proof.
  intros Ht Hs. induction Hs as [dm|dm ev dm1 e1 dm2 e2 Hstep Hs IH].
  - split; [done|]. no_elem.
  - destruct (tearing_step _ _ _ _ Ht Hstep) as [Ht1 He1].
    destruct (IH Ht1) as [Ht2 He2]. split; [done|]. intros x [Hx|Hx]%elem_of_app; auto.
Qed.

(** C15: what runs when: a deploy or a teardown is started only when the one
    before it has reported its result; exactly one monitor runs, and only while
    the lease is deployed; and then the last deploy started was of the latest
    version the manager was given. *)
Theorem manager_runs_latest (d0 : Z) (evs : list dm_event) (dm : deploymentManager)
    (effs : list dm_effect) :
  dm_loop d0 evs dm effs ->
  (forall ev dm' e x, dm_step dm ev = DLoop dm' e -> x ∈ e ->
     (x = EStartTeardown \/ exists d, x = EStartDeploy d) ->
     runch dm = None \/ exists r, ev = DResult r) /\
  monitors dm = (if decide (dm_state dm = dsDeployComplete) then 1 else 0)%nat /\
  (dm_state dm = dsDeployComplete ->
     runch dm = None /\
     exists pre post, effs = pre ++ EStartDeploy (latest d0 evs) :: post /\
       forall d, EStartDeploy d ∉ post).
Proof.
  intros Hl. pose proof (dm_loop_latest _ _ _ _ Hl) as Hd. apply dm_loop_inv in Hl as H.
  split_and!.
  - intros ev dm' e x Hs Hx Hk.
    destruct ev as [| | |fin|d|r| | |deadline]; simpl in Hs; eauto.
    + done.
    + destruct (reclaimch dm); [|done]. injection Hs as _ <-.
      apply startReclaimAttempt_frame in Hx as [? ->]. naive_solver.
    + destruct (reclaimC dm); [|done]. injection Hs as _ <-.
      apply startReclaimAttempt_frame in Hx as [? ->]. naive_solver.
    + destruct (reclaiming dm); [|done]. simplify_eq. by apply not_elem_of_nil in Hx.
    + injection Hs as _ <-. unfold dm_handleUpdate in Hx. simpl in Hx.
      destruct (dm_state dm) eqn:E; simpl in Hx; try (by apply not_elem_of_nil in Hx). left. by apply (di_complete _ _ H).
    + destruct (retryTeardown dm) eqn:E; [|done]. left.
      destruct (di_teardown _ _ H) as [[_ ?]|[? _]]; [by apply (di_retry _ _ H)|congruence|done].
    + unfold on_teardown in Hs. destruct (dm_state dm) eqn:E; simpl in Hs; rewrite E in Hs;
        simplify_eq/=; try (by apply not_elem_of_nil in Hx). left. by apply (di_complete _ _ H).
    + simplify_eq. by apply not_elem_of_nil in Hx.
  - apply (di_monitor _ _ H).
  - intros Hs. rewrite <- Hd. by apply (di_complete _ _ H).
Qed.

(** A manager that is tearing down gets there: the deploy still under way
    starts the teardown when it ends, however it ends; a teardown under way ends
    the manager when it succeeds and is scheduled again when it fails; and the
    manager stops only when asked to shut down or after a teardown that
    succeeded. *)
Theorem teardown_progress (d0 : Z) (evs : list dm_event) (dm : deploymentManager)
    (effs : list dm_effect) :
  dm_loop d0 evs dm effs ->
  (tearingDown dm = true ->
    (exists d, runch dm = Some (OpDeploy d) /\
       forall r, exists dm', dm_step dm (DResult r) = DLoop dm' [EStartTeardown]) \/
    (runch dm = Some OpTeardown /\ (exists dm', dm_step dm (DResult RunOk) = DBreak dm') /\
       exists dm', dm_step dm (DResult RunErr) = DLoop dm' [] /\ retryTeardown dm' = true) \/
    (exists dm', dm_step dm DRetry = DLoop dm' [EStartTeardown])) /\
  (forall ev dm', dm_step dm ev = DBreak dm' ->
    ev = DShutdown \/ (ev = DResult RunOk /\ runch dm = Some OpTeardown /\
                       dm_state dm' = dsTeardownComplete)).
Proof.
  intros H%dm_loop_inv. split.
  - unfold tearingDown. destruct (dm_state dm) eqn:Hs; try done; intros _.
    + destruct (di_teardown _ _ H Hs) as [[Hr Ht]|[Hr Ht]].
      * right. left. split; [done|]. simpl. rewrite Hr. unfold on_result. simpl. rewrite Hs. eauto.
      * right. right. simpl. rewrite Ht. eexists. reflexivity.
    + left. destruct (di_deploying _ _ H) as (d & Hr & _); [by rewrite Hs|]. exists d.
      split; [done|]. intros r. simpl. rewrite Hr. unfold on_result. simpl. rewrite Hs.
      destruct r; eexists; reflexivity.
    + by apply (di_open _ _ H) in Hs.
  - intros ev dm'. destruct ev as [| | |fin|d|r| | |deadline]; simpl; auto.
    + by destruct (reclaimch dm).
    + by destruct (reclaimC dm).
    + by destruct (reclaiming dm).
    + done.
    + destruct (runch dm) as [o|] eqn:Hr; [|done]. unfold on_result. simpl.
      destruct r, (dm_state dm) eqn:Hs; simpl; try done. intros [= <-]. right.
      destruct (di_teardown _ _ H Hs) as [[Hr' _]|[Hr' _]]; [|congruence].
      split_and!; [done|congruence|done].
    + by destruct (retryTeardown dm).
    + unfold on_teardown. simpl. by destruct (dm_state dm).
    + done.
Qed.

(** ** Examples *)

Module DeploymentExamples.

(** A lease that is updated while it is first deployed, and then torn down. *)
Definition ex_events : list dm_event := [DUpdate 2; DResult RunOk; DResult RunOk].

Definition ex_deployed : deploymentManager :=
  mkDM dsDeployComplete 2 None 1 false None 0 None false false.

Definition ex_effects : list dm_effect := [EStartDeploy 1; EStartDeploy 2; EStartMonitor].

Lemma dm_ex_loop : dm_loop 1 ex_events ex_deployed ex_effects.
Proof.
  pose proof (dm_start 1) as H.
  apply (dm_more _ _ _ _ (DUpdate 2)) with (2 := eq_refl) in H.
  apply (dm_more _ _ _ _ (DResult RunOk)) with (2 := eq_refl) in H.
  apply (dm_more _ _ _ _ (DResult RunOk)) with (2 := eq_refl) in H.
  exact H.
Defined.

Definition ex_closing : deploymentManager :=
  mkDM dsTeardownActive 2 (Some OpTeardown) 0 false None 0 None false false.

Lemma dm_ex_loop_closing : dm_loop 1 (ex_events ++ [DTeardown]) ex_closing (ex_effects ++ [EStartTeardown]).
Proof. eapply dm_more; [exact dm_ex_loop|reflexivity]. Defined.

Lemma manager_never_panics_witness : dm_step ex_deployed (DResult RunOk) <> DPanic.
Proof. exact (manager_never_panics 1 ex_events ex_deployed ex_effects _ dm_ex_loop). Defined.

Lemma teardown_is_final_witness :
  tearingDown ex_closing = true /\ forall dm' e, dm_step ex_closing (DUpdate 3) = DLoop dm' e ->
    tearingDown dm' = true.
Proof.
  split; [reflexivity|]. intros dm' e Hs.
  apply (teardown_is_final ex_closing dm' (e ++ []) eq_refl).
  econstructor; [exact Hs|constructor].
Defined.

Lemma manager_runs_latest_witness :
  monitors ex_deployed = 1%nat /\
  exists pre post, ex_effects = pre ++ EStartDeploy (latest 1 ex_events) :: post.
Proof.
  destruct (manager_runs_latest 1 ex_events ex_deployed ex_effects dm_ex_loop) as (_ & H & Hc).
  split; [exact H|]. destruct (Hc eq_refl) as (_ & pre & post & Heq & _). eauto.
Defined.

Lemma teardown_progress_witness :
  exists dm', dm_step ex_closing (DResult RunErr) = DLoop dm' [] /\ retryTeardown dm' = true.
Proof.
  destruct (teardown_progress 1 _ ex_closing _ dm_ex_loop_closing) as [H _].
  destruct (H eq_refl) as [(d & Hd & _)|[(_ & _ & Hr)|(dm' & Hr)]]; [done|exact Hr|done].
Defined.

End DeploymentExamples.
