(* ===== verification/Deploy.v ===== *)
(** * What a deploy and a teardown do

    Model of [doDeploy], [doTeardown], [checkLeaseActive] and
    [attemptReclaimClose] of [cluster/manager.go], of the cleanup helper of
    [cluster/manager_cleanup.go] and of the names they use, from
    [manifest/parse.go] and [cluster/util/ip_sharing_key.go]. *)

From stdpp Require Import base gmap list strings tactics.
From Stdlib Require Import ZArith Lia Ascii.
From S2P Require Import Prelude Types Names Hostname.

(** ** Names *)

(** The regular expression for endpoint names: lower-case letters, digits and
    dashes, at least one. *)
Definition endpoint_char (c : ascii) : bool :=
  let n := nat_of_ascii c in
  ((97 <=? n)%nat && (n <=? 122)%nat) || ((48 <=? n)%nat && (n <=? 57)%nat) || (n =? 45)%nat.

Fixpoint all_chars (p : ascii -> bool) (s : string) : bool :=
  match s with EmptyString => true | String c s' => p c && all_chars p s' end.

Definition allowedIPEndpointName (s : string) : bool :=
  negb (String.eqb s "") && all_chars endpoint_char s.

(** What the names and [doDeploy] use of other modules: the name-based UUID of a
    string, the string of a lease id, SHA-256 and [mani.ParseServiceProtocol]. *)
Class DeployAPI := {
  uuid_sha1 : string -> list Z;
  lease_string : LeaseID -> string;
  sha256 : string -> list Z;
  ParseServiceProtocol : string -> option string
}.

(** ** Data *)

(** A [ServiceExpose]; [e_external_port] is what [GetExternalPort] returns. *)
Record Expose := mkExpose {
  e_is_ingress : bool;
  e_hosts : list string;
  e_global : bool;
  e_ip : string;
  e_port : Z;
  e_external_port : Z;
  e_proto : string
}.

Record DService := mkDService { ds_name : string; ds_expose : list Expose; ds_count : Z }.

(** An IP declaration found in the cluster. *)
Record DeclaredIP := mkDeclaredIP {
  di_key : string; di_proto : string; di_service : string; di_port : Z
}.

Inductive LeaseState := LeaseActive | LeaseReclaiming (deadline : option Z) | LeaseClosed
| LeaseInsufficientFunds | LeaseOther.

Inductive DeployErr :=
| ErrLeaseQuery | ErrLeaseInactive | ErrLeaseMismatch | ErrLeaseState
| ErrDeclaredIPs | ErrReserve (e : HostErr) | ErrDeploy | ErrProtocol | ErrDeclareHostname
| ErrDeclareIP | ErrContext.

(** Calls that change the cluster. *)
Inductive cluster_call :=
| CDeploy
| CDeclareHostname (host service : string) (port : Z)
| CDeclareIP (service : string) (port externalPort : Z) (proto key : string)
| CPurgeHostname (host : string)
| CPurgeIP (service : string) (port : Z) (proto : string).

(** How the cluster answers. *)
Inductive ip_answer := IPDeclared | IPAlreadyExists | IPFailed.

#[export] Instance ip_answer_eq_dec : EqDecision ip_answer.
Proof. solve_decision. Defined.

Record cluster_answers := mkAnswers {
  an_lease : option (LeaseID * LeaseState);
  an_declared_ips : option (list DeclaredIP);
  an_deploy : bool;
  an_hostname : string -> bool;
  an_ip : string -> string -> ip_answer
}.

(** ** The lease *)

(** The lease as the chain reports it, [None] when the query fails for good; the
    deadline to arm, if any. *)
Definition checkLeaseActive (lid : LeaseID) (q : option (LeaseID * LeaseState))
    : result DeployErr (option Z) :=
  match q with
  | None => Err ErrLeaseQuery
  | Some (id, st) =>
      if negb (bool_decide (id = lid)) then Err ErrLeaseMismatch
      else match st with
      | LeaseActive => Ok None
      | LeaseReclaiming deadline => Ok deadline
      | LeaseClosed | LeaseInsufficientFunds => Err ErrLeaseInactive
      | LeaseOther => Err ErrLeaseState
      end
  end.

(** ** Cleanup after a deploy *)

Record deployCleanupHelper := mkCleanup {
  hostnamesToPurge : list string;
  ipsToPurge : list (string * Z * string)
}.

Definition addHostname (h : string) (c : deployCleanupHelper) : deployCleanupHelper :=
  mkCleanup (hostnamesToPurge c ++ [h]) (ipsToPurge c).

Definition addIP (service : string) (port : Z) (proto : string) (c : deployCleanupHelper)
    : deployCleanupHelper :=
  mkCleanup (hostnamesToPurge c) (ipsToPurge c ++ [(service, port, proto)]).

(** Failed purges are only logged. *)
Definition purgeAll (c : deployCleanupHelper) : list cluster_call :=
  map CPurgeHostname (hostnamesToPurge c) ++
  map (fun '(s, p, proto) => CPurgeIP s p proto) (ipsToPurge c).

Section Deploy.
Context {dapi : DeployAPI} {gr : GoRange}.

Definition IngressHost (lid : LeaseID) (svcName : string) : string :=
  to_lower (base32hex (uuid_sha1 (lease_string lid +:+ svcName)%string)).

Definition MakeIPSharingKey (lid : LeaseID) (endpointName : string) : string :=
  let effectiveName :=
    if allowedIPEndpointName endpointName then endpointName
    else to_lower (base32hex (take 15 (sha256 endpointName))) in
  (l_owner lid +:+ "-ip-" +:+ effectiveName)%string.

(** The maps built by the loop over the services and what they expose: the hosts
    to declare with their service, [currentHostnames], the leased IPs and the
    sharing keys of this request. *)
Record extracted := mkExtracted {
  x_hosts : gmap string (Expose * string);
  x_current : gset string;
  x_leased : list (Expose * string);
  x_keys : gset string
}.

Definition add_host (svc : string) (e : Expose) (h : string) (x : extracted) : extracted :=
  mkExtracted (<[h := (e, svc)]> (x_hosts x)) (x_current x) (x_leased x) (x_keys x).

Definition add_current (blocked : gset string) (svc : string) (e : Expose) (x : extracted)
    (h : string) : extracted :=
  if decide (h ∈ blocked) then x
  else mkExtracted (<[h := (e, svc)]> (x_hosts x)) ({[ h ]} ∪ x_current x) (x_leased x) (x_keys x).

(** [static] is the domain of the static ingress hosts, when they are on. *)
Definition static_host (lid : LeaseID) (domain svc : string) : string :=
  (IngressHost lid svc +:+ "." +:+ domain)%string.

Definition add_ingress (lid : LeaseID) (static : option string) (blocked : gset string)
    (svc : string) (x : extracted) (e : Expose) : extracted :=
  if e_is_ingress e then
    let x := match static with
             | Some domain => add_host svc e (static_host lid domain svc) x
             | None => x
             end in
    foldl (add_current blocked svc e) x (e_hosts e)
  else x.

Definition add_leased (lid : LeaseID) (svc : string) (x : extracted) (e : Expose) : extracted :=
  if e_global e && negb (String.eqb (e_ip e) "")
  then mkExtracted (x_hosts x) (x_current x) (x_leased x ++ [(e, svc)])
         ({[ MakeIPSharingKey lid (e_ip e) ]} ∪ x_keys x)
  else x.

Definition add_expose (lid : LeaseID) (static : option string) (blocked : gset string)
    (x : extracted) (es : Expose * string) : extracted :=
  add_leased lid es.2 (add_ingress lid static blocked es.2 x es.1) es.1.

(** What the services expose, in the order of the two loops. *)
Definition exposes (services : list DService) : list (Expose * string) :=
  services ≫= (fun s => map (fun e => (e, ds_name s)) (ds_expose s)).

Definition extract (lid : LeaseID) (static : option string) (blocked : gset string)
    (services : list DService) : extracted :=
  foldl (add_expose lid static blocked) (mkExtracted ∅ ∅ [] ∅) (exposes services).

(** [AllHostnamesOfManifestGroup]. *)
Definition all_hostnames (services : list DService) : list string :=
  services ≫= (fun s => ds_expose s ≫= e_hosts).

(** Hostnames in use that the manifest no longer has. *)
Definition removed_hostnames (currentHostnames : gset string) (services : list DService)
    (c : deployCleanupHelper) : deployCleanupHelper :=
  foldl (fun c h => if decide (h ∈ all_hostnames services) then c else addHostname h c) c
    (range_set currentHostnames).

(** Declared IPs no longer wanted are queued until one has a protocol that does
    not parse. *)
Fixpoint stale_ips (keys : gset string) (ips : list DeclaredIP) (c : deployCleanupHelper)
    : deployCleanupHelper * bool :=
  match ips with
  | [] => (c, true)
  | ip :: rest =>
      if decide (di_key ip ∈ keys) then stale_ips keys rest c
      else match ParseServiceProtocol (di_proto ip) with
           | None => (c, false)
           | Some proto => stale_ips keys rest (addIP (di_service ip) (di_port ip) proto c)
           end
  end.

Fixpoint declare_hostnames (answer : string -> bool) (hosts : list (string * (Expose * string)))
    : bool * list cluster_call :=
  match hosts with
  | [] => (true, [])
  | (h, (e, svc)) :: rest =>
      let call := CDeclareHostname h svc (wrap32 (e_external_port e)) in
      if answer h then let '(ok, calls) := declare_hostnames answer rest in (ok, call :: calls)
      else (false, [call])
  end.

(** The keys whose declaration already exists are withheld. *)
Fixpoint declare_ips (lid : LeaseID) (answer : string -> string -> ip_answer)
    (leased : list (Expose * string)) : option (list string) * list cluster_call :=
  match leased with
  | [] => (Some [], [])
  | (e, svc) :: rest =>
      let key := MakeIPSharingKey lid (e_ip e) in
      let call := CDeclareIP svc (e_port e) (wrap32 (e_external_port e)) (e_proto e) key in
      match answer svc key with
      | IPFailed => (None, [call])
      | IPAlreadyExists =>
          let '(r, calls) := declare_ips lid answer rest in ((fun l => key :: l) <$> r, call :: calls)
      | IPDeclared => let '(r, calls) := declare_ips lid answer rest in (r, call :: calls)
      end
  end.

(** [doDeploy]: the hostnames current afterwards, the withheld hostnames and
    endpoints or the error, and the calls made to the cluster, the purges of the
    cleanup helper last. [reserve] is the answer of the hostname service. *)
Definition doDeploy (lid : LeaseID) (static : option string) (services : list DService)
    (an : cluster_answers) (reserve : result HostErr (list string)) (currentHostnames : gset string)
    : gset string * result DeployErr (list string * list string) * list cluster_call :=
  match checkLeaseActive lid (an_lease an) with
  | Err e => (currentHostnames, Err e, [])
  | Ok _ =>
  match an_declared_ips an with
  | None => (currentHostnames, Err ErrDeclaredIPs, [])
  | Some currentIPs =>
  match reserve with
  | Err e => (currentHostnames, Err (ErrReserve e), [])
  | Ok withheld =>
    let helper := removed_hostnames currentHostnames services (mkCleanup [] []) in
    if negb (an_deploy an)
    then (currentHostnames, Err ErrDeploy, CDeploy :: purgeAll helper)
    else
      let x := extract lid static (list_to_set withheld) services in
      let '(helper, parsed) := stale_ips (x_keys x) currentIPs helper in
      if negb parsed then (x_current x, Err ErrProtocol, CDeploy :: purgeAll helper)
      else
        let '(ok, calls1) := declare_hostnames (an_hostname an) (range_map (x_hosts x)) in
        if negb ok then (x_current x, Err ErrDeclareHostname, CDeploy :: calls1 ++ purgeAll helper)
        else
          let '(r, calls2) := declare_ips lid (an_ip an) (x_leased x) in
          let calls := CDeploy :: calls1 ++ calls2 ++ purgeAll helper in
          match r with
          | None => (x_current x, Err ErrDeclareIP, calls)
          | Some endpoints => (x_current x, Ok (withheld, endpoints), calls)
          end
  end end end.

End Deploy.

(** ** Teardown *)

(** What the collecting loop of [doTeardown] receives next: the result of one of
    the activities, or the end of its context. *)
Inductive teardown_recv := RecvResult (r : option DeployErr) | RecvDone.

(** [n] results are still due; [None] when [recvs] has too few of them. *)
Fixpoint collect_teardown (n : nat) (first : option DeployErr) (recvs : list teardown_recv)
    : option (option DeployErr) :=
  match n with
  | O => Some first
  | S n =>
      match recvs with
      | [] => None
      | RecvDone :: _ => Some (Some ErrContext)
      | RecvResult r :: rest =>
          collect_teardown n (match first with None => r | Some _ => first end) rest
      end
  end.

(** The workload, the hostnames and the IPs of the lease. *)
Definition teardownActivityCount : nat := 3.

Definition doTeardown (recvs : list teardown_recv) : option (option DeployErr) :=
  collect_teardown teardownActivityCount None recvs.

(** ** Closing a reclaimed lease *)

Definition second : Z := 1000000000.

(** [attemptReclaimClose]: whether the close is broadcast, and whether it is done
    with the delay before another attempt. *)
Definition attemptReclaimClose (retryInterval deadline : Z) (syncInfo : option (bool * Z))
    (broadcastOk : bool) : bool * (bool * Z) :=
  match syncInfo with
  | None => (false, (false, retryInterval))
  | Some (catchingUp, blockTime) =>
      if catchingUp then (false, (false, retryInterval))
      else
        let remaining := to_int64 (deadline - blockTime) in
        if (remaining >? 0)%Z then (false, (false, to_int64 (remaining * second)))
        else if broadcastOk then (true, (true, 0%Z)) else (true, (false, retryInterval))
  end.

(** ** What the loops compute *)

Section Facts.
Context {dapi : DeployAPI} {gr : GoRange}.
Implicit Types (x : extracted) (h svc : string) (e : Expose).

Lemma add_current_hosts blocked svc e hosts x h :
  h ∈ x_current (foldl (add_current blocked svc e) x hosts) <->
  h ∈ x_current x \/ exists h', h' ∈ hosts /\ h' = h /\ h' ∉ blocked.
Proof.
  apply (foldl_adds _ (fun x => h ∈ x_current x)). intros x' h'. unfold add_current.
  case_decide; simpl; [naive_solver|]. rewrite elem_of_union, elem_of_singleton. naive_solver.
Qed.

Lemma add_current_dom blocked svc e hosts x h :
  h ∈ dom (x_hosts (foldl (add_current blocked svc e) x hosts)) <->
  h ∈ dom (x_hosts x) \/ exists h', h' ∈ hosts /\ h' = h /\ h' ∉ blocked.
Proof.
  apply (foldl_adds _ (fun x => h ∈ dom (x_hosts x))). intros x' h'. unfold add_current.
  case_decide; simpl; [naive_solver|]. rewrite dom_insert, elem_of_union, elem_of_singleton.
  naive_solver.
Qed.

Lemma add_current_frame blocked svc e hosts x :
  x_leased (foldl (add_current blocked svc e) x hosts) = x_leased x /\
  x_keys (foldl (add_current blocked svc e) x hosts) = x_keys x.
Proof.
  apply (foldl_keeps _ (fun y => x_leased y = x_leased x /\ x_keys y = x_keys x)); [|done].
  intros y h _ Hy. unfold add_current. by case_decide.
Qed.

Lemma add_leased_frame lid svc x e :
  x_hosts (add_leased lid svc x e) = x_hosts x /\ x_current (add_leased lid svc x e) = x_current x.
Proof. unfold add_leased. by destruct (_ && _). Qed.

(** An ingress host of [e] the lease may use. *)
Definition offers (blocked : gset string) (h : string) (es : Expose * string) : Prop :=
  e_is_ingress es.1 = true /\ h ∈ e_hosts es.1 /\ h ∉ blocked.

Definition offers_static (lid : LeaseID) (static : option string) (h : string)
    (es : Expose * string) : Prop :=
  e_is_ingress es.1 = true /\ exists d, static = Some d /\ h = static_host lid d es.2.

Lemma extract_current lid static blocked services h :
  h ∈ x_current (extract lid static blocked services) <->
  exists es, es ∈ exposes services /\ offers blocked h es.
Proof.
  unfold extract.
  rewrite (foldl_adds _ (fun x => h ∈ x_current x) (offers blocked h)).
  { split; [intros [Hh|?]; [by apply not_elem_of_empty in Hh|done]|by right]. }
  intros x [e svc]. unfold add_expose, offers. simpl.
  rewrite (proj2 (add_leased_frame _ _ _ _)). unfold add_ingress.
  destruct (e_is_ingress e); [|naive_solver].
  rewrite add_current_hosts. destruct static; simpl; naive_solver.
Qed.

Lemma extract_dom lid static blocked services h :
  h ∈ dom (x_hosts (extract lid static blocked services)) <->
  exists es, es ∈ exposes services /\ (offers blocked h es \/ offers_static lid static h es).
Proof.
  unfold extract.
  rewrite (foldl_adds _ (fun x => h ∈ dom (x_hosts x))
            (fun es => offers blocked h es \/ offers_static lid static h es)).
  { simpl. rewrite dom_empty. set_solver. }
  intros x [e svc]. unfold add_expose, offers, offers_static. simpl.
  rewrite (proj1 (add_leased_frame _ _ _ _)). unfold add_ingress.
  destruct (e_is_ingress e); [|naive_solver].
  rewrite add_current_dom. destruct static as [d|]; simpl;
    rewrite ?dom_insert, ?elem_of_union, ?elem_of_singleton; naive_solver.
Qed.

(** A host is declared for a service that exposes it. *)
Lemma extract_hosts_sound lid static blocked services h es :
  x_hosts (extract lid static blocked services) !! h = Some es ->
  es ∈ exposes services /\ (offers blocked h es \/ offers_static lid static h es).
Proof.
  unfold extract. revert h es.
  apply (foldl_keeps _ (fun x => forall h es, x_hosts x !! h = Some es ->
    es ∈ exposes services /\ (offers blocked h es \/ offers_static lid static h es)));
    [|intros h es; simpl; by rewrite lookup_empty].
  intros x [e svc] Hin Hx. unfold add_expose. simpl.
  rewrite (proj1 (add_leased_frame _ _ _ _)). unfold add_ingress.
  destruct (e_is_ingress e) eqn:He; [|done].
  apply (foldl_keeps _ (fun x => forall h es, x_hosts x !! h = Some es ->
    es ∈ exposes services /\ (offers blocked h es \/ offers_static lid static h es))).
  - intros y h Hh Hy h' es'. unfold add_current. case_decide; [apply Hy|]. simpl.
    intros [[<- <-]|[_ Hl]]%lookup_insert_Some; [|by apply Hy].
    split; [done|]. by left.
  - destruct static as [d|]; [|done]. simpl. intros h' es'.
    intros [[<- <-]|[_ Hl]]%lookup_insert_Some; [|by apply Hx].
    split; [done|]. right. split; [done|]. eauto.
Qed.

(** The leased IPs, in order, and their keys. *)
Definition wants_ip (es : Expose * string) : bool :=
  e_global es.1 && negb (String.eqb (e_ip es.1) "").

Lemma add_expose_leased lid static blocked x es :
  x_leased (add_expose lid static blocked x es) =
    x_leased x ++ (if wants_ip es then [es] else []) /\
  forall k, k ∈ x_keys (add_expose lid static blocked x es) <->
    k ∈ x_keys x \/ (wants_ip es = true /\ k = MakeIPSharingKey lid (e_ip es.1)).
Proof.
  destruct es as [e svc]. unfold add_expose, add_leased, wants_ip. simpl.
  assert (x_leased (add_ingress lid static blocked svc x e) = x_leased x /\
          x_keys (add_ingress lid static blocked svc x e) = x_keys x) as [H1 H2].
  { unfold add_ingress. destruct (e_is_ingress e); [|done].
    destruct static; [apply (add_current_frame _ _ _ _ (add_host _ _ _ _))|apply add_current_frame]. }
  destruct (_ && _); simpl; rewrite H1, H2, ?app_nil_r; split; try done; intros k;
    rewrite ?elem_of_union, ?elem_of_singleton; naive_solver.
Qed.

Lemma extract_leased lid static blocked services :
  x_leased (extract lid static blocked services) =
    filter (fun es => wants_ip es = true) (exposes services).
Proof.
  unfold extract. change (filter _ _) with
    (x_leased (mkExtracted ∅ ∅ [] ∅) ++ filter (fun es => wants_ip es = true) (exposes services)).
  generalize (mkExtracted ∅ ∅ [] ∅). induction (exposes services) as [|es l IH]; intros x; simpl.
  - by rewrite app_nil_r.
  - rewrite IH, (proj1 (add_expose_leased _ _ _ _ _)), <- app_assoc. f_equal.
    rewrite filter_cons. by destruct (wants_ip es).
Qed.

Lemma extract_keys lid static blocked services k :
  k ∈ x_keys (extract lid static blocked services) <->
  exists es, es ∈ exposes services /\ wants_ip es = true /\ k = MakeIPSharingKey lid (e_ip es.1).
Proof.
  unfold extract.
  rewrite (foldl_adds _ (fun x => k ∈ x_keys x)
            (fun es => wants_ip es = true /\ k = MakeIPSharingKey lid (e_ip es.1))).
  { set_solver. }
  intros x es. apply add_expose_leased.
Qed.

(** *** The cleanup helper *)

Lemma removed_hostnames_spec current services :
  hostnamesToPurge (removed_hostnames current services (mkCleanup [] [])) ≡ₚ
    filter (fun h => h ∉ all_hostnames services) (elements current) /\
  ipsToPurge (removed_hostnames current services (mkCleanup [] [])) = [].
Proof.
  rewrite <- range_set_perm. unfold removed_hostnames.
  change (filter _ _) with
    (hostnamesToPurge (mkCleanup [] []) ++
     filter (fun h => h ∉ all_hostnames services) (range_set current)).
  assert (ipsToPurge (mkCleanup [] []) = []) as Hi by done. revert Hi.
  generalize (mkCleanup [] []).
  induction (range_set current) as [|h l IH]; intros c Hi; simpl; [by rewrite app_nil_r|].
  destruct (IH (if decide (h ∈ all_hostnames services) then c else addHostname h c)) as [H1 H2];
    [by case_decide|].
  split; [|done]. rewrite H1, filter_cons.
  destruct (decide (h ∈ all_hostnames services)) as [Hh|Hh]; simpl.
  - by rewrite decide_False by naive_solver.
  - rewrite decide_True by done. by rewrite <- app_assoc.
Qed.

Lemma stale_ips_spec keys ips c c' :
  stale_ips keys ips c = (c', true) ->
  hostnamesToPurge c' = hostnamesToPurge c /\
  forall s p proto, (s, p, proto) ∈ ipsToPurge c' <-> ((s, p, proto) ∈ ipsToPurge c \/
    exists ip, ip ∈ ips /\ (di_key ip ∉ keys) /\ di_service ip = s /\ di_port ip = p /\
      ParseServiceProtocol (di_proto ip) = Some proto).
Proof.
  revert c. induction ips as [|ip ips IH]; intros c; simpl.
  - intros [= <-]. split; [done|]. intros s p proto. split; [by left|].
    intros [?|(ip & Hip & _)]; [done|]. by apply not_elem_of_nil in Hip.
  - case_decide as Hk.
    + intros [H1 H2]%IH. split; [done|]. intros s p proto. rewrite H2.
      setoid_rewrite elem_of_cons. naive_solver.
    + destruct (ParseServiceProtocol (di_proto ip)) as [pr|] eqn:Hp; [|done].
      intros [H1 H2]%IH. split; [done|]. intros s p proto. rewrite H2. simpl.
      rewrite elem_of_app, list_elem_of_singleton. setoid_rewrite elem_of_cons. naive_solver.
Qed.

Lemma stale_ips_hostnames keys ips c :
  hostnamesToPurge (stale_ips keys ips c).1 = hostnamesToPurge c.
Proof.
  revert c. induction ips as [|ip ips IH]; intros c; simpl; [done|].
  case_decide; [apply IH|]. by destruct (ParseServiceProtocol _); [rewrite IH|].
Qed.

(** *** Declarations *)

Lemma declare_hostnames_all answer hosts calls :
  declare_hostnames answer hosts = (true, calls) ->
  calls = map (fun '(h, (e, svc)) => CDeclareHostname h svc (wrap32 (e_external_port e))) hosts.
Proof.
  revert calls. induction hosts as [|[h [e svc]] hosts IH]; intros calls; simpl; [by intros [= <-]|].
  destruct (answer h); [|done]. destruct (declare_hostnames answer hosts) as [ok cs].
  intros [= -> <-]. by rewrite <- (IH cs eq_refl).
Qed.

Lemma declare_ips_all lid answer leased endpoints calls :
  declare_ips lid answer leased = (Some endpoints, calls) ->
  calls = map (fun '(e, svc) => CDeclareIP svc (e_port e) (wrap32 (e_external_port e)) (e_proto e)
                                  (MakeIPSharingKey lid (e_ip e))) leased /\
  endpoints = map (fun es => MakeIPSharingKey lid (e_ip es.1))
    (filter (fun es => answer es.2 (MakeIPSharingKey lid (e_ip es.1)) = IPAlreadyExists) leased).
Proof.
  revert endpoints calls. induction leased as [|[e svc] leased IH]; intros endpoints calls; simpl;
    [by intros [= <- <-]|].
  destruct (declare_ips lid answer leased) as [r cs] eqn:Hd. rewrite filter_cons. simpl.
  destruct (answer svc _) eqn:Ha; [intros [= -> <-]|destruct r as [l|]; intros [= <- <-]|done].
  - rewrite decide_False by done. by destruct (IH _ _ eq_refl) as [-> ->].
  - rewrite decide_True by done. by destruct (IH _ _ eq_refl) as [-> ->].
Qed.

End Facts.

(** ** Properties *)

(** The chain says the lease is this one and it may be deployed. *)
Definition deployable (lid : LeaseID) (q : option (LeaseID * LeaseState)) : Prop :=
  exists st, q = Some (lid, st) /\ (st = LeaseActive \/ exists deadline, st = LeaseReclaiming deadline).

Lemma checkLeaseActive_ok lid q r : checkLeaseActive lid q = Ok r -> deployable lid q.
Proof.
  unfold checkLeaseActive, deployable. destruct q as [[id st]|]; [|done].
  case_bool_decide; simpl; [|done]. subst id. destruct st; intros ?; simplify_eq; eauto.
Qed.

Definition is_purge (c : cluster_call) : bool :=
  match c with CPurgeHostname _ | CPurgeIP _ _ _ => true | _ => false end.

Lemma purgeAll_is_purge c x : x ∈ purgeAll c -> is_purge x = true.
Proof.
  unfold purgeAll. rewrite elem_of_app, !list_elem_of_fmap.
  intros [(? & -> & _)|([[] ?] & -> & _)]; done.
Qed.

(** The parts of a deploy that ends well. *)
Lemma doDeploy_ok `{DeployAPI} `{GoRange} lid static services an reserve current current' w eps
    calls :
  doDeploy lid static services an reserve current = (current', Ok (w, eps), calls) ->
  exists ips c calls1 calls2,
    deployable lid (an_lease an) /\ an_declared_ips an = Some ips /\ reserve = Ok w /\
    an_deploy an = true /\
    let x := extract lid static (list_to_set w) services in
    current' = x_current x /\
    stale_ips (x_keys x) ips (removed_hostnames current services (mkCleanup [] [])) = (c, true) /\
    declare_hostnames (an_hostname an) (range_map (x_hosts x)) = (true, calls1) /\
    declare_ips lid (an_ip an) (x_leased x) = (Some eps, calls2) /\
    calls = CDeploy :: calls1 ++ calls2 ++ purgeAll c.
Proof.
  unfold doDeploy. destruct (checkLeaseActive lid (an_lease an)) as [dl|] eqn:Hc; [|done].
  apply checkLeaseActive_ok in Hc.
  destruct (an_declared_ips an) as [ips|]; [|done]. destruct reserve as [w'|]; [|done].
  destruct (an_deploy an); [|done]. simpl.
  destruct (stale_ips _ _ _) as [c []] eqn:Hs; simpl; [|done].
  destruct (declare_hostnames _ _) as [[] calls1] eqn:Hd; simpl; [|done].
  destruct (declare_ips _ _ _) as [[l|] calls2] eqn:Hi; [|done].
  intros [= <- <- <- <-]. exists ips, c, calls1, calls2. done.
Qed.

(** After a deploy that ends well the lease's current hostnames are exactly
    the ingress hostnames of its manifest that are not withheld from it; each of
    them is declared, a hostname is declared only for a service that exposes it
    (or as that service's static host) and never when withheld, and exactly the
    hostnames it had and the manifest dropped are purged, after everything is
    declared. *)
Theorem deploy_declares_hostnames `{DeployAPI} `{GoRange} (lid : LeaseID) (static : option string)
    (services : list DService) (an : cluster_answers) (reserve : result HostErr (list string))
    (current current' : gset string) (withheld endpoints : list string)
    (calls : list cluster_call) :
  doDeploy lid static services an reserve current = (current', Ok (withheld, endpoints), calls) ->
  (forall h, h ∈ current' <->
     exists es, es ∈ exposes services /\ offers (list_to_set withheld) h es) /\
  (forall h, h ∈ current' -> exists svc port, CDeclareHostname h svc port ∈ calls) /\
  (forall h svc port, CDeclareHostname h svc port ∈ calls ->
     exists e, (e, svc) ∈ exposes services /\ port = wrap32 (e_external_port e) /\
       (offers (list_to_set withheld) h (e, svc) \/ offers_static lid static h (e, svc))) /\
  (forall h, CPurgeHostname h ∈ calls <-> h ∈ current /\ h ∉ all_hostnames services) /\
  exists front back, calls = front ++ back /\
    (forall x, x ∈ front -> is_purge x = false) /\ (forall x, x ∈ back -> is_purge x = true).
Proof.
  intros (ips & c & calls1 & calls2 & _ & _ & -> & _ & -> & Hs & Hd & Hi & ->)%doDeploy_ok.
  apply declare_hostnames_all in Hd as ->. apply declare_ips_all in Hi as [-> _].
  apply stale_ips_spec in Hs as [Hp _].
  destruct (removed_hostnames_spec current services) as [Hr _]. rewrite <- Hp in Hr.
  assert (forall h svc port, CDeclareHostname h svc port ∈
    map (fun '(h, (e, svc)) => CDeclareHostname h svc (wrap32 (e_external_port e)))
      (range_map (x_hosts (extract lid static (list_to_set withheld) services))) <->
    exists e, x_hosts (extract lid static (list_to_set withheld) services) !! h = Some (e, svc) /\
      port = wrap32 (e_external_port e)) as Hm.
  { intros h svc port. rewrite list_elem_of_fmap. split.
    - intros ([h' [e svc']] & Heq & Hin%elem_of_range_map). naive_solver.
    - intros (e & Hl & ->). exists (h, (e, svc)). by rewrite elem_of_range_map. }
  split_and!.
  - intros h. apply extract_current.
  - intros h Hh. assert (h ∈ dom (x_hosts (extract lid static (list_to_set withheld) services)))
      as [[e svc] Hl]%elem_of_dom.
    { apply extract_dom. apply extract_current in Hh as (es & ? & ?). eauto. }
    exists svc, (wrap32 (e_external_port e)). right. apply elem_of_app. left. apply Hm. eauto.
  - intros h svc port Hin. apply elem_of_cons in Hin as [?|Hin]; [done|].
    rewrite !elem_of_app in Hin. destruct Hin as [Hin|[Hin|Hin]].
    + apply Hm in Hin as (e & Hl & ->). exists e. apply extract_hosts_sound in Hl. naive_solver.
    + apply list_elem_of_fmap in Hin as ([] & ? & _). done.
    + by apply purgeAll_is_purge in Hin.
  - intros h. rewrite elem_of_cons, !elem_of_app. unfold purgeAll.
    rewrite elem_of_app, !list_elem_of_fmap. setoid_rewrite Hr.
    setoid_rewrite list_elem_of_filter. setoid_rewrite elem_of_elements. split.
    + intros [?|[(? & ? & _)|[(? & ? & _)|[(? & ? & ?)|(? & ? & _)]]]]; simplify_eq; go_cases.
      naive_solver.
    + intros [? ?]. right. right. right. left. eauto.
  - eexists (CDeploy :: _ ++ _), (purgeAll c). split; [simpl; by rewrite <- app_assoc|].
    split; [|apply purgeAll_is_purge]. intros x. rewrite elem_of_cons, elem_of_app, !list_elem_of_fmap.
    intros [->|[([? []] & -> & _)|([] & -> & _)]]; done.
Qed.

(** After a deploy that ends well an IP declaration was asked for, in the
    manifest's order, for each exposed port that is global and names an IP
    endpoint; the endpoints reported as withheld are those whose declaration the
    cluster already had; and the declarations purged are exactly those found whose
    sharing key no exposed port uses any more. *)
Theorem deploy_declares_ips `{DeployAPI} `{GoRange} (lid : LeaseID) (static : option string)
    (services : list DService) (an : cluster_answers) (reserve : result HostErr (list string))
    (current current' : gset string) (withheld endpoints : list string)
    (calls : list cluster_call) :
  doDeploy lid static services an reserve current = (current', Ok (withheld, endpoints), calls) ->
  exists ips, an_declared_ips an = Some ips /\
  let key (es : Expose * string) := MakeIPSharingKey lid (e_ip es.1) in
  let leased := filter (fun es => wants_ip es = true) (exposes services) in
  filter (fun c => match c with CDeclareIP _ _ _ _ _ => true | _ => false end = true) calls =
    map (fun es => CDeclareIP es.2 (e_port es.1) (wrap32 (e_external_port es.1)) (e_proto es.1)
                     (key es)) leased /\
  endpoints = map key (filter (fun es => an_ip an es.2 (key es) = IPAlreadyExists) leased) /\
  forall s p proto, CPurgeIP s p proto ∈ calls <->
    exists ip, ip ∈ ips /\ (forall es, es ∈ leased -> key es <> di_key ip) /\
      di_service ip = s /\ di_port ip = p /\ ParseServiceProtocol (di_proto ip) = Some proto.
Proof.
  intros (ips & c & calls1 & calls2 & _ & Hips & -> & _ & -> & Hs & Hd & Hi & ->)%doDeploy_ok.
  exists ips. split; [done|]. cbn zeta.
  apply declare_hostnames_all in Hd as ->. rewrite extract_leased in Hi.
  apply declare_ips_all in Hi as [-> ->].
  apply stale_ips_spec in Hs as [_ Hp].
  destruct (removed_hostnames_spec current services) as [_ Hr]. rewrite Hr in Hp.
  split_and!.
  - rewrite filter_cons. simpl. rewrite !list.filter_app.
    rewrite (list_filter_none _ (map _ (range_map _))), (list_filter_none _ (purgeAll c)),
      app_nil_r, list_filter_all; simpl.
    + apply list_fmap_ext. by intros ? [] ?.
    + intros x ([] & -> & _)%list_elem_of_fmap. done.
    + intros x Hx%purgeAll_is_purge. by destruct x.
    + intros x ([? []] & -> & _)%list_elem_of_fmap. done.
  - done.
  - intros s p proto. rewrite elem_of_cons, !elem_of_app. unfold purgeAll.
    rewrite elem_of_app, !list_elem_of_fmap. split.
    + intros [?|[([? []] & ? & _)|[([] & ? & _)|[(? & ? & _)|([[] ?] & ? & Hin)]]]]; simplify_eq.
      apply Hp in Hin as [Hin|(ip & Hip & Hk & ?)]; [by apply not_elem_of_nil in Hin|].
      exists ip. split; [done|]. split; [|naive_solver].
      intros es [? ?]%list_elem_of_filter Heq. apply Hk. apply extract_keys. eauto.
    + intros (ip & Hip & Hk & ? & ? & ?). right. right. right. right. exists (s, p, proto).
      split; [done|]. apply Hp. right. exists ip. split_and!; auto.
      intros (es & ? & ? & ?)%extract_keys. apply (Hk es); [|done]. by apply list_elem_of_filter.
Qed.

(** Whatever the answers, a deploy touches the cluster only when the chain
    reports this very lease active or being reclaimed and the hostname service
    accepted its hostnames; before that it changes nothing. When the workload
    itself cannot be deployed, no hostname or IP is declared and the current
    hostnames stay. *)
Theorem deploy_guarded `{DeployAPI} `{GoRange} (lid : LeaseID) (static : option string)
    (services : list DService) (an : cluster_answers) (reserve : result HostErr (list string))
    (current current' : gset string) (r : result DeployErr (list string * list string))
    (calls : list cluster_call) :
  doDeploy lid static services an reserve current = (current', r, calls) ->
  (calls = [] /\ current' = current /\ is_ok r = false) \/
  (deployable lid (an_lease an) /\ is_ok reserve = true /\
   (exists rest, calls = CDeploy :: rest) /\
   (an_deploy an = false -> r = Err ErrDeploy /\ current' = current /\
      forall x, x ∈ calls -> x = CDeploy \/ is_purge x = true) /\
   (an_deploy an = true -> current' = x_current (extract lid static
      (list_to_set (match reserve with Ok w => w | Err _ => [] end)) services))).
Proof.
  unfold doDeploy. destruct (checkLeaseActive lid (an_lease an)) as [dl|] eqn:Hc;
    [|intros [= <- <- <-]; by left].
  apply checkLeaseActive_ok in Hc.
  destruct (an_declared_ips an) as [ips|]; [|intros [= <- <- <-]; by left].
  destruct reserve as [w|]; [|intros [= <- <- <-]; by left]. cbn zeta.
  destruct (an_deploy an); simpl.
  - destruct (stale_ips _ _ _) as [c []]; simpl;
      [|intros [= <- <- <-]; right; split_and!; eauto; done].
    destruct (declare_hostnames _ _) as [[] calls1]; simpl;
      [|intros [= <- <- <-]; right; split_and!; eauto; done].
    destruct (declare_ips _ _ _) as [[l|] calls2];
      intros [= <- <- <-]; right; split_and!; eauto; done.
  - intros [= <- <- <-]. right. split_and!; eauto; [|done]. intros _. split_and!; try done.
    intros x [->|Hx]%elem_of_cons; [by left|right]. by eapply purgeAll_is_purge.
Qed.

(** A teardown succeeds exactly when its three activities, the workload, the
    hostnames and the IPs, all report success before its context ends; otherwise
    its error is the first failure received, or the context's. *)
Theorem teardown_all_or_error (recvs : list teardown_recv) :
  (doTeardown recvs = Some None <->
     exists rest, recvs = RecvResult None :: RecvResult None :: RecvResult None :: rest) /\
  (forall e, e <> ErrContext -> doTeardown recvs = Some (Some e) ->
     exists pre post, recvs = pre ++ RecvResult (Some e) :: post /\
       (forall x, x ∈ pre -> x = RecvResult None) /\ (length pre < 3)%nat).
Proof.
  unfold doTeardown, teardownActivityCount. split.
  - split; [|by intros (rest & ->)].
    destruct recvs as [|[[|]|] [|[[|]|] [|[[|]|] rest]]]; simpl; try done. eauto.
  - intros e He. destruct recvs as [|[[e1|]|] rest]; simpl; try done; [| |congruence].
    + intros Hd. exists [], rest. split_and!; [|intros ? Hx; by apply not_elem_of_nil in Hx|simpl; lia].
      destruct rest as [|[?|] [|[?|] ?]]; simplify_eq/=; done.
    + destruct rest as [|[[e2|]|] rest]; simpl; try done; [| |congruence].
      * intros Hd. exists [RecvResult None], rest. split_and!; [|set_solver|simpl; lia].
        destruct rest as [|[?|] ?]; simplify_eq/=; done.
      * destruct rest as [|[[e3|]|] rest]; simpl; try done; [|congruence].
        intros [= ->]. exists [RecvResult None; RecvResult None], rest.
        split_and!; [done|set_solver|simpl; lia].
Qed.

(** The close of a reclaimed lease is broadcast only by a node that is in sync
    and once the chain's block time has reached the deadline; the attempt is done
    exactly when the broadcast was accepted; and when the deadline is ahead, the
    next attempt comes after what remains of it. *)
Theorem reclaim_close_due (retryInterval deadline blockTime : Z) (synced broadcastOk : bool)
    (syncInfo : option (bool * Z)) (sent fin : bool) (wait : Z) :
  (0 <= deadline < 2 ^ 33)%Z -> (0 <= blockTime < 2 ^ 33)%Z ->
  syncInfo = None \/ syncInfo = Some (negb synced, blockTime) ->
  attemptReclaimClose retryInterval deadline syncInfo broadcastOk = (sent, (fin, wait)) ->
  (sent = true <-> syncInfo = Some (false, blockTime) /\ (deadline <= blockTime)%Z) /\
  (fin = sent && broadcastOk) /\
  (syncInfo = Some (false, blockTime) -> (blockTime < deadline)%Z ->
     wait = ((deadline - blockTime) * second)%Z).
Proof.
  intros Hd Hb Hs. unfold attemptReclaimClose.
  assert (to_int64 (deadline - blockTime) = (deadline - blockTime)%Z) as E1.
  { apply to_int64_id. unfold is_int64. lia. }
  destruct Hs as [-> | ->]; [intros [= <- <- <-]; naive_solver|].
  destruct synced; simpl; [|intros [= <- <- <-]; naive_solver].
  rewrite E1. destruct (Z.gtb_spec (deadline - blockTime) 0).
  - intros [= <- <- <-]. split_and!; [|done|].
    + split; [done|]. intros [_ ?]. lia.
    + intros _ _. apply to_int64_id. unfold is_int64, second. lia.
  - destruct broadcastOk; intros [= <- <- <-]; (split_and!; [|done|lia]); split; try done;
      intros _; split; [done|lia|done|lia].
Qed.

(** ** Examples *)

Module DeployExamples.

#[global] Instance ex_api : DeployAPI :=
  {| uuid_sha1 s := [Z.of_nat (String.length s)]; lease_string l := l_owner l;
     sha256 s := [Z.of_nat (String.length s)]; ParseServiceProtocol p := Some p |}.

#[global] Instance ex_range : GoRange := sorted_range.

Definition ex_lease : LeaseID := mkLeaseID "akash1" 1 1 1 "p".

Definition ex_services : list DService :=
  [mkDService "web"
     [mkExpose true ["a.com"; "b.com"] true "" 80 80 "TCP";
      mkExpose false [] true "front" 81 8081 "TCP"] 1].

Definition ex_answers : cluster_answers :=
  mkAnswers (Some (ex_lease, LeaseActive))
    (Some [mkDeclaredIP "akash1-ip-gone" "TCP" "web" 90; mkDeclaredIP "akash1-ip-front" "TCP" "web" 8081])
    true (fun _ => true) (fun _ _ => IPAlreadyExists).

Definition ex_deploy := doDeploy ex_lease (Some "ing.io") ex_services ex_answers (Ok ["b.com"]) {[ "old.com" ]}.

(** The 16 bytes of a UUID make 26 characters. *)
Example base32hex_length : String.length (base32hex (replicate 16 255%Z)) = 26%nat.
Proof. reflexivity. Qed.

Example base32hex_rfc : base32hex [102; 111; 111]%Z = "CPNMU".
Proof. reflexivity. Qed.

Lemma deploy_declares_hostnames_witness :
  "a.com" ∈ ex_deploy.1.1 /\ ("b.com" ∉ ex_deploy.1.1) /\ CPurgeHostname "old.com" ∈ ex_deploy.2.
Proof.
  destruct (deploy_declares_hostnames ex_lease (Some "ing.io") ex_services ex_answers (Ok ["b.com"])
    {[ "old.com" ]} ex_deploy.1.1 ["b.com"] ["akash1-ip-front"] ex_deploy.2)
    as (H1 & _ & _ & H2 & _); [vm_compute; reflexivity|].
  split_and!.
  - apply H1. eexists. split; [left|]. vm_compute. split_and!; [done|left|].
    intros H. inversion H.
  - intros (es & _ & _ & _ & Hb)%H1. apply Hb. vm_compute. reflexivity.
  - apply H2. split; [vm_compute; reflexivity|]. vm_compute. intros H.
    repeat (apply elem_of_cons in H as [H|H]; [done|]). by apply not_elem_of_nil in H.
Defined.

Lemma deploy_declares_ips_witness :
  CPurgeIP "web" 90 "TCP" ∈ ex_deploy.2 /\ ~ CPurgeIP "web" 8081 "TCP" ∈ ex_deploy.2.
Proof.
  destruct (deploy_declares_ips ex_lease (Some "ing.io") ex_services ex_answers (Ok ["b.com"])
    {[ "old.com" ]} ex_deploy.1.1 ["b.com"] ["akash1-ip-front"] ex_deploy.2)
    as (ips & Hips & _ & _ & H); [vm_compute; reflexivity|].
  injection Hips as <-. split.
  - apply H. eexists. split; [left|]. split_and!; try done.
    intros es Hes. vm_compute in Hes.
    apply elem_of_cons in Hes as [-> |Hes]; [done|]. by apply not_elem_of_nil in Hes.
  - intros (ip & Hip & Hk & Hr)%H.
    apply elem_of_cons in Hip as [-> |Hip]; [by destruct Hr as (_ & ? & _)|].
    apply elem_of_cons in Hip as [-> |Hip]; [|by apply not_elem_of_nil in Hip].
    apply (Hk (mkExpose false [] true "front" 81 8081 "TCP", "web")); [|done].
    vm_compute. left.
Defined.

Lemma deploy_guarded_witness :
  (doDeploy ex_lease None ex_services
     (mkAnswers (Some (ex_lease, LeaseClosed)) (Some []) true (fun _ => true) (fun _ _ => IPDeclared))
     (Ok []) ∅).2 = [].
Proof.
  destruct (deploy_guarded ex_lease None ex_services
     (mkAnswers (Some (ex_lease, LeaseClosed)) (Some []) true (fun _ => true) (fun _ _ => IPDeclared))
     (Ok []) ∅ ∅ (Err ErrLeaseInactive) [] eq_refl) as [(H & _)|(Hd & _)].
  - exact H.
  - destruct Hd as (st & [= <-] & [?|[]]); done.
Defined.

Lemma teardown_all_or_error_witness :
  exists pre post, [RecvResult None; RecvResult (Some ErrDeploy); RecvResult None] =
    pre ++ RecvResult (Some ErrDeploy) :: post.
Proof.
  destruct (teardown_all_or_error [RecvResult None; RecvResult (Some ErrDeploy); RecvResult None])
    as [_ H]. destruct (H ErrDeploy ltac:(done) eq_refl) as (pre & post & Heq & _). eauto.
Defined.

Lemma reclaim_close_due_witness :
  (attemptReclaimClose 5 1700000100 (Some (false, 1700000040%Z)) true).2.2 = (60 * second)%Z.
Proof.
  apply (reclaim_close_due 5 1700000100 1700000040 true true (Some (false, 1700000040%Z))
    false false (60 * second)%Z); [lia|lia|by right|reflexivity|done|lia].
Defined.

(** Two deployments of one owner; the first holds the hostname. *)
Definition ex_other : LeaseID := mkLeaseID "akash1" 2 1 1 "p".
Definition ex_mixed : list DService :=
  [mkDService "web" [mkExpose true ["Example.com"] true "" 80 80 "TCP"] 1].
Definition ex_store : hostnameService :=
  mkHostnameService {[ "example.com" := mkHostnameID "akash1" 2 1 ]} [] [].

(** The hostname service withholds a hostname in lower case, and [doDeploy]
    compares it with the hostname as the manifest spells it: a hostname with a
    capital letter that another deployment of the owner holds is declared for this
    lease as well, although it was withheld from it. *)
Theorem withheld_mixed_case_declared :
  exists reserve current calls,
    (ReserveHostnames Some ex_store SelOp SelOp (all_hostnames ex_mixed) ex_lease).2 = reserve /\
    reserve = Ok ["example.com"] /\
    doDeploy ex_lease None ex_mixed ex_answers reserve ∅ = (current, Ok (["example.com"], []), calls) /\
    CDeclareHostname "Example.com" "web" 80 ∈ calls.
Proof.
  eexists _, _, _. split_and!; [reflexivity|vm_compute; reflexivity|vm_compute; reflexivity|].
  right. left.
Qed.

End DeployExamples.
