(* ===== verification/Monitor.v ===== *)
(** * The deployment monitor

    Model of [cluster/monitor.go]: the loop that checks a deployed lease at
    intervals, publishes changes of its status and closes a lease that stays
    unhealthy. *)

From stdpp Require Import base gmap list strings tactics.
From Stdlib Require Import ZArith Lia.
From S2P Require Import Prelude.

(** ** The check *)

(** A service of the manifest group: its name and the replicas it wants. *)
Record spec := mkSpec { spec_name : string; spec_count : Z }.

(** [doCheck]: [status] is the answer of the cluster, the available replicas of
    each service, or [None] for an error; the error accompanies [false]. *)
Definition bad_service (status : gmap string Z) (s : spec) : bool :=
  match status !! spec_name s with
  | Some available => (wrap32 available <? spec_count s)%Z
  | None => true
  end.

Definition doCheck (services : list spec) (status : option (gmap string Z)) : bool * bool :=
  match status with
  | None => (false, true)
  | Some status =>
      let badsvc := foldl (fun n s => if bad_service status s then S n else n) 0%nat services in
      (Nat.eqb badsvc 0, false)
  end.

(** ** The loop *)

Inductive ClusterDeploymentStatus :=
| ClusterDeploymentUnknown | ClusterDeploymentPending | ClusterDeploymentDeployed.

#[export] Instance ClusterDeploymentStatus_eq_dec : EqDecision ClusterDeploymentStatus.
Proof. solve_decision. Defined.

(** [MonitorMaxRetries] and whether [MonitorHealthcheckPeriod] is positive. *)
Record monitor_cfg := mkMonitorCfg { MonitorMaxRetries : Z; healthchecks : bool }.

(** The monitor with the variables of [run]: which channels are set. *)
Record deploymentMonitor := mkMonitor {
  attempts : Z;
  prevStatus : ClusterDeploymentStatus;
  tickch : bool;
  m_runch : bool;
  closech : bool
}.

Inductive monitor_event := MShutdown | MTick | MResult (healthy : bool) | MClosed.

Inductive monitor_effect :=
| MRunCheck
| MPublish (s : ClusterDeploymentStatus)
| MCloseLease.

#[export] Instance monitor_effect_eq_dec : EqDecision monitor_effect.
Proof. solve_decision. Defined.

Definition monitor_init : deploymentMonitor :=
  mkMonitor 0 ClusterDeploymentUnknown true false false.

(** The result of a check. *)
Definition on_check (cfg : monitor_cfg) (healthy : bool) (m : deploymentMonitor)
    : deploymentMonitor * list monitor_effect :=
  let currStatus := if healthy then ClusterDeploymentDeployed else ClusterDeploymentPending in
  let att := if healthy then 0%Z else attempts m in
  let tick := if healthy then healthchecks cfg else false in
  let pub := if decide (currStatus = prevStatus m) then [] else [MPublish currStatus] in
  if healthy then (mkMonitor att currStatus tick false (closech m), pub)
  else if (att <=? MonitorMaxRetries cfg)%Z
  then (mkMonitor att currStatus true false (closech m), pub)
  else (mkMonitor att currStatus tick false true, pub ++ [MCloseLease]).

(** [None] when the event cannot happen, or ends the loop. *)
Definition monitor_step (cfg : monitor_cfg) (m : deploymentMonitor) (ev : monitor_event)
    : option (deploymentMonitor * list monitor_effect) :=
  match ev with
  | MShutdown => None
  | MTick =>
      if tickch m
      then Some (mkMonitor (wrap64 (attempts m + 1)) (prevStatus m) false true (closech m), [MRunCheck])
      else None
  | MResult healthy => if m_runch m then Some (on_check cfg healthy m) else None
  | MClosed =>
      if closech m
      then Some (mkMonitor (attempts m) (prevStatus m) (tickch m) (m_runch m) false, [])
      else None
  end.

Inductive monitor_loop (cfg : monitor_cfg)
    : list monitor_event -> deploymentMonitor -> list monitor_effect -> Prop :=
| monitor_start : monitor_loop cfg [] monitor_init []
| monitor_more evs m effs ev m' e :
    monitor_loop cfg evs m effs -> monitor_step cfg m ev = Some (m', e) ->
    monitor_loop cfg (evs ++ [ev]) m' (effs ++ e).

(** ** What a history of checks amounts to *)

Definition checks (evs : list monitor_event) : list bool :=
  omap (fun ev => match ev with MResult b => Some b | _ => None end) evs.

(** How many of the last checks were unhealthy, one after the other. *)
Definition failing (rs : list bool) : Z :=
  foldl (fun n r => if r : bool then 0 else n + 1)%Z 0%Z rs.

(** The statuses worth publishing: each check's when it differs from the one
    before. *)
Definition status_of (healthy : bool) : ClusterDeploymentStatus :=
  if healthy then ClusterDeploymentDeployed else ClusterDeploymentPending.

Fixpoint changes (prev : ClusterDeploymentStatus) (rs : list bool)
    : list ClusterDeploymentStatus :=
  match rs with
  | [] => []
  | r :: rest =>
      (if decide (status_of r = prev) then [] else [status_of r]) ++ changes (status_of r) rest
  end.

Definition published (effs : list monitor_effect) : list ClusterDeploymentStatus :=
  omap (fun e => match e with MPublish s => Some s | _ => None end) effs.

Definition closes (effs : list monitor_effect) : nat :=
  length (filter (fun e => e = MCloseLease) effs).

Lemma checks_snoc evs ev :
  checks (evs ++ [ev]) = checks evs ++ match ev with MResult b => [b] | _ => [] end.
Proof. unfold checks. rewrite omap_app. by destruct ev. Qed.

Lemma failing_snoc rs r : failing (rs ++ [r]) = (if r : bool then 0 else failing rs + 1)%Z.
Proof. unfold failing. by rewrite foldl_app. Qed.

Lemma failing_nonneg rs : (0 <= failing rs)%Z.
Proof.
  induction rs as [|r rs IH] using rev_ind; [done|]. rewrite failing_snoc. destruct r; lia.
Qed.

Lemma changes_snoc prev rs r :
  changes prev (rs ++ [r]) =
  changes prev rs ++ (if decide (status_of r = default prev (status_of <$> list.last rs)) then []
                      else [status_of r]).
Proof.
  revert prev. induction rs as [|r' rs IH]; intros prev; simpl; [by rewrite app_nil_r|].
  rewrite IH, <- app_assoc, last_cons. by destruct (list.last rs).
Qed.

(** ** Invariant *)

Record monitor_inv (cfg : monitor_cfg) (rs : list bool) (m : deploymentMonitor)
    (effs : list monitor_effect) : Prop := {
  mi_attempts : attempts m = (failing rs + (if m_runch m then 1 else 0))%Z;
  mi_bound : (failing rs <= MonitorMaxRetries cfg + 1)%Z;
  mi_running : m_runch m || tickch m = true -> (failing rs <= MonitorMaxRetries cfg)%Z;
  mi_one : m_runch m && tickch m = false;
  mi_alive : (failing rs <= MonitorMaxRetries cfg)%Z ->
    m_runch m || tickch m = true \/ (healthchecks cfg = false /\ list.last rs = Some true);
  mi_prev : prevStatus m = default ClusterDeploymentUnknown (status_of <$> list.last rs);
  mi_published : published effs = changes ClusterDeploymentUnknown rs;
  mi_closes : closes effs = (if decide (failing rs = MonitorMaxRetries cfg + 1)%Z then 1 else 0)%nat
}.

Lemma published_app a b : published (a ++ b) = published a ++ published b.
Proof. apply omap_app. Qed.

Lemma closes_app a b : closes (a ++ b) = (closes a + closes b)%nat.
Proof. unfold closes. by rewrite list.filter_app, length_app. Qed.

Lemma on_check_effects cfg healthy m :
  published (on_check cfg healthy m).2 =
    (if decide (status_of healthy = prevStatus m) then [] else [status_of healthy]) /\
  closes (on_check cfg healthy m).2 =
    (if negb healthy && (MonitorMaxRetries cfg <? attempts m)%Z then 1 else 0)%nat.
Proof.
  unfold on_check, status_of. destruct healthy; simpl; [by case_decide|].
  rewrite Z.ltb_antisym. destruct (attempts m <=? _)%Z; simpl; by case_decide.
Qed.

Lemma monitor_step_inv cfg rs m effs ev m' e :
  (0 <= MonitorMaxRetries cfg < 2 ^ 64 - 1)%Z ->
  monitor_inv cfg rs m effs -> monitor_step cfg m ev = Some (m', e) ->
  monitor_inv cfg (rs ++ match ev with MResult b => [b] | _ => [] end) m' (effs ++ e).
Proof.
  intros Hmax [Ha Hb Hr Ho Hl Hp Hpub Hc]. pose proof (failing_nonneg rs) as Hn.
  destruct ev as [| |healthy|]; simpl; [done| | |].
  - destruct (tickch m) eqn:Ht; [|done]. intros [= <- <-]. rewrite app_nil_r.
    assert (m_runch m = false) as Hm by (by destruct (m_runch m)). rewrite Hm in *. simpl in *.
    specialize (Hr eq_refl).
    split; simpl; rewrite ?published_app, ?closes_app, ?app_nil_r, ?Nat.add_0_r; auto.
    rewrite Ha. unfold wrap64. rewrite wrap_id; [lia|]. unfold is_uint. lia.
  - destruct (m_runch m) eqn:Hm; [|done]. intros [= Hoc]. simpl in *. specialize (Hr eq_refl).
    destruct (on_check_effects cfg healthy m) as [He1 He2]. rewrite Hoc in He1, He2. simpl in *.
    assert (published (effs ++ e) = changes ClusterDeploymentUnknown (rs ++ [healthy])) as Hpub'.
    { by rewrite published_app, changes_snoc, Hpub, He1, Hp. }
    assert (closes effs = 0)%nat as Hc0 by (rewrite Hc, decide_False by lia; done).
    unfold on_check in Hoc. destruct healthy.
    + injection Hoc as <- <-. split; simpl; rewrite ?failing_snoc, ?last_snoc; try done; try lia.
      * intros _. destruct (healthchecks cfg); auto.
      * rewrite closes_app, Hc0, He2, decide_False by lia. done.
    + destruct (Z.leb_spec (attempts m) (MonitorMaxRetries cfg)); injection Hoc as <- <-;
        split; simpl; rewrite ?failing_snoc, ?last_snoc; try done; try lia; auto.
      * rewrite closes_app, Hc0, He2. simpl. rewrite decide_False by lia.
        by destruct (Z.ltb_spec (MonitorMaxRetries cfg) (attempts m)); [lia|].
      * rewrite closes_app, Hc0, He2. simpl. rewrite decide_True by lia.
        by destruct (Z.ltb_spec (MonitorMaxRetries cfg) (attempts m)); [|lia].
  - destruct (closech m); [|done]. intros [= <- <-]. rewrite !app_nil_r. by split.
Qed.

Lemma monitor_loop_inv cfg evs m effs :
  (0 <= MonitorMaxRetries cfg < 2 ^ 64 - 1)%Z ->
  monitor_loop cfg evs m effs -> monitor_inv cfg (checks evs) m effs.
Proof.
  intros Hmax. induction 1 as [|evs m effs ev m' e Hl IH Hs].
  - assert (failing [] = 0)%Z as Hf by done.
    split; simpl; rewrite ?Hf; try done; try lia; auto. by rewrite decide_False by lia.
  - rewrite checks_snoc. by eapply monitor_step_inv.
Qed.

(** ** Properties *)

(** The monitor closes the lease exactly when the last [MonitorMaxRetries] + 1
    checks were all unhealthy, and does so once: it then checks no more. Until
    then a check is under way or scheduled, never both, except that a healthy
    lease is left alone when health checks are off. *)
Theorem monitor_closes_unstable (cfg : monitor_cfg) (evs : list monitor_event)
    (m : deploymentMonitor) (effs : list monitor_effect) :
  (0 <= MonitorMaxRetries cfg < 2 ^ 64 - 1)%Z -> monitor_loop cfg evs m effs ->
  (failing (checks evs) <= MonitorMaxRetries cfg + 1)%Z /\
  closes effs = (if decide (failing (checks evs) = MonitorMaxRetries cfg + 1)%Z then 1 else 0)%nat /\
  (failing (checks evs) = MonitorMaxRetries cfg + 1 -> m_runch m = false /\ tickch m = false)%Z /\
  (failing (checks evs) <= MonitorMaxRetries cfg ->
     xorb (m_runch m) (tickch m) = true \/
     (healthchecks cfg = false /\ list.last (checks evs) = Some true))%Z.
Proof.
  intros Hmax Hl. destruct (monitor_loop_inv _ _ _ _ Hmax Hl) as [Ha Hb Hr Ho Ha' Hp Hpub Hc].
  split_and!; [done|done| |].
  - intros Hf. destruct (m_runch m), (tickch m); auto; specialize (Hr eq_refl); lia.
  - intros Hf. destruct (Ha' Hf) as [H|H]; [left|by right].
    by destruct (m_runch m), (tickch m).
Qed.

(** The statuses the monitor publishes are the changes of the lease's health:
    one event for each check that differs from the one before it, in order, and
    no other. *)
Theorem monitor_publishes_changes (cfg : monitor_cfg) (evs : list monitor_event)
    (m : deploymentMonitor) (effs : list monitor_effect) :
  (0 <= MonitorMaxRetries cfg < 2 ^ 64 - 1)%Z -> monitor_loop cfg evs m effs ->
  published effs = changes ClusterDeploymentUnknown (checks evs).
Proof. intros Hmax Hl. apply (mi_published _ _ _ _ (monitor_loop_inv _ _ _ _ Hmax Hl)). Qed.

Lemma badsvc_count status services n :
  foldl (fun n s => if bad_service status s then S n else n) n services =
  (n + length (filter (fun s => bad_service status s = true) services))%nat.
Proof.
  revert n. induction services as [|s services IH]; intros n; simpl; [lia|].
  rewrite IH, filter_cons. destruct (bad_service status s); simpl; lia.
Qed.

(** A check is healthy exactly when the cluster answered and reports, for
    every service of the manifest, at least the replicas it wants. *)
Theorem check_healthy (services : list spec) (status : gmap string Z) :
  (forall n a, status !! n = Some a -> 0 <= a < 2 ^ 31)%Z ->
  doCheck services None = (false, true) /\
  ((doCheck services (Some status)).1 = true <->
   forall s, s ∈ services -> exists a, status !! spec_name s = Some a /\ (spec_count s <= a)%Z).
Proof.
  intros Hs. split; [done|]. simpl. rewrite badsvc_count, Nat.eqb_eq. simpl.
  assert (forall s, bad_service status s = false <->
    exists a, status !! spec_name s = Some a /\ (spec_count s <= a)%Z) as Hb.
  { intros s. unfold bad_service. destruct (status !! spec_name s) as [a|] eqn:Ha; [|naive_solver].
    specialize (Hs _ _ Ha). unfold wrap32. rewrite wrap_id by (unfold is_uint; lia).
    rewrite Z.ltb_ge. naive_solver. }
  setoid_rewrite <- Hb. split.
  - intros Hl%nil_length_inv s Hin. destruct (bad_service status s) eqn:E; [|done].
    assert (s ∈ filter (fun s => bad_service status s = true) services) as H
      by (by apply list_elem_of_filter). rewrite Hl in H. by apply not_elem_of_nil in H.
  - intros H. rewrite list_filter_none; [done|]. intros s Hin. rewrite (H s Hin). done.
Qed.

(** ** Examples *)

Module MonitorExamples.

Definition ex_cfg : monitor_cfg := mkMonitorCfg 1 true.

(** Up once, then down twice: closed. *)
Definition ex_events : list monitor_event :=
  [MTick; MResult true; MTick; MResult false; MTick; MResult false].
Definition ex_effects : list monitor_effect :=
  [MRunCheck; MPublish ClusterDeploymentDeployed; MRunCheck; MPublish ClusterDeploymentPending;
   MRunCheck; MCloseLease].
Definition ex_closing : deploymentMonitor := mkMonitor 2 ClusterDeploymentPending false false true.

Lemma monitor_ex_loop : monitor_loop ex_cfg ex_events ex_closing ex_effects.
Proof.
  pose proof (monitor_start ex_cfg) as H.
  apply (monitor_more _ _ _ _ MTick) with (2 := eq_refl) in H.
  apply (monitor_more _ _ _ _ (MResult true)) with (2 := eq_refl) in H.
  apply (monitor_more _ _ _ _ MTick) with (2 := eq_refl) in H.
  apply (monitor_more _ _ _ _ (MResult false)) with (2 := eq_refl) in H.
  apply (monitor_more _ _ _ _ MTick) with (2 := eq_refl) in H.
  apply (monitor_more _ _ _ _ (MResult false)) with (2 := eq_refl) in H.
  exact H.
Defined.

Lemma monitor_closes_unstable_witness :
  failing (checks ex_events) = 2%Z /\ closes ex_effects = 1%nat.
Proof.
  destruct (monitor_closes_unstable ex_cfg ex_events ex_closing ex_effects ltac:(simpl; lia) monitor_ex_loop)
    as (_ & H & _). split; [reflexivity|]. rewrite H. reflexivity.
Defined.

Lemma monitor_publishes_changes_witness :
  published ex_effects = [ClusterDeploymentDeployed; ClusterDeploymentPending].
Proof.
  rewrite (monitor_publishes_changes ex_cfg ex_events ex_closing ex_effects ltac:(simpl; lia) monitor_ex_loop).
  reflexivity.
Defined.

Lemma check_healthy_witness :
  (doCheck [mkSpec "web" 2] (Some {[ "web" := 2%Z ]})).1 = true.
Proof.
  apply (check_healthy [mkSpec "web" 2] {[ "web" := 2%Z ]}).
  - intros n a [_ <-]%lookup_singleton_Some. lia.
  - intros s [-> |Hs]%elem_of_cons; [|by apply not_elem_of_nil in Hs]. by exists 2%Z.
Defined.

End MonitorExamples.
