(* ===== verification/Balance.v ===== *)
(** * The balance checker

    Model of [balance_checker.go]: the funds check of a lease, the queue of
    withdrawals and the loop that monitors every lease's funds. The monitors'
    states are shared by pointer between the map of leases, the queue and the
    transaction in flight, so they live in a heap here. *)

From stdpp Require Import base gmap list strings tactics.
From Stdlib Require Import ZArith Lia.
From S2P Require Import Prelude Types.

(** ** The funds check *)

Inductive respState := respStateNextCheck | respStateOutOfFunds | respStateScheduledWithdraw.

#[export] Instance respState_eq_dec : EqDecision respState.
Proof. solve_decision. Defined.

Record BalanceCheckerConfig := mkBalanceCfg {
  WithdrawalPeriod : Z;
  LeaseFundsCheckInterval : Z
}.

Inductive ClosedReason := ReasonUnspecified | ReasonOwner | ReasonInsufficientFunds
| ReasonChain (r : Z).

(** States of a lease and of an escrow payment or account. *)
Inductive Lease_State := LSActive | LSReclaiming | LSClosed | LSInsufficientFunds | LSOther.
Inductive Escrow_State := ESOpen | ESClosed | ESOverdrawn | ESOther.

Inductive check_err :=
| CEQuery | CENotSynced | CEDifferentID | CELeaseState | CEPublish.

(** The answers of the chain to one check, [None] for a query that failed. The
    leases of the deployment are given by their prices, for each of the two states
    asked for. *)
Record chain_view := mkChainView {
  cv_sync : option (bool * Z);
  cv_lease : option (LeaseID * Lease_State * ClosedReason * Escrow_State);
  cv_account : option (Escrow_State * Z * list (string * Z));
  cv_active : option (list Z);
  cv_reclaiming : option (list Z)
}.

(** [checkAfter], [state], [err] and the reason of [closed]. *)
Record leaseCheckResponse := mkResp {
  r_checkAfter : Z;
  r_state : respState;
  r_err : option check_err;
  r_closed : option ClosedReason
}.

(** [LeaseCalcBalanceRemain], [LeaseCalcBlocksRemain], [AverageBlockTime] and the
    denomination, of other modules; a balance is [None] when there is no fund of
    that denomination. *)
Class EscrowAPI := {
  LeaseCalcBalanceRemain : option Z -> Z -> Z -> Z -> Z;
  LeaseCalcBlocksRemain : Z -> Z -> Z;
  AverageBlockTime : Z;
  DenomUact : string
}.

Section Check.
Context {eapi : EscrowAPI}.

Definition first_fund (funds : list (string * Z)) : option Z :=
  snd <$> head (filter (fun f => f.1 = DenomUact) funds).

(** How long to wait, and whether the lease is out of funds. *)
Definition check_balance (cfg : BalanceCheckerConfig) (blocksRemain : Z) (st : respState)
    : leaseCheckResponse :=
  if (blocksRemain <=? 0)%Z
  then mkResp (LeaseFundsCheckInterval cfg) respStateOutOfFunds None None
  else
    let blocksPerCheckInterval := Z.quot (LeaseFundsCheckInterval cfg) AverageBlockTime in
    let blocks := if (blocksRemain >? blocksPerCheckInterval)%Z then blocksPerCheckInterval
                  else blocksRemain in
    mkResp (to_int64 (blocks * AverageBlockTime)) st None None.

Definition doEscrowCheck (cfg : BalanceCheckerConfig) (lid : LeaseID) (scheduledWithdraw : bool)
    (cv : chain_view) : leaseCheckResponse :=
  let st := if scheduledWithdraw then respStateScheduledWithdraw else respStateNextCheck in
  let err e := mkResp 0 st (Some e) None in
  let closed r := mkResp 0 st None (Some r) in
  match cv_sync cv with
  | None => err CEQuery
  | Some (true, _) => err CENotSynced
  | Some (false, height) =>
  match cv_lease cv with
  | None => err CEQuery
  | Some (id, lstate, reason, payment) =>
  if negb (bool_decide (id = lid)) then err CEDifferentID else
  match lstate with
  | LSClosed | LSInsufficientFunds => closed reason
  | LSOther => err CELeaseState
  | LSActive | LSReclaiming =>
  match payment with
  | ESClosed => closed ReasonUnspecified
  | ESOverdrawn => closed ReasonInsufficientFunds
  | _ =>
  match cv_account cv with
  | None => err CEQuery
  | Some (account, settledAt, funds) =>
  match account with
  | ESClosed => closed ReasonOwner
  | ESOverdrawn => closed ReasonInsufficientFunds
  | _ =>
  match cv_active cv, cv_reclaiming cv with
  | Some active, Some reclaiming =>
      let totalLeaseAmount := sumZ (fun price => price) (active ++ reclaiming) in
      let balanceRemain :=
        LeaseCalcBalanceRemain (first_fund funds) height settledAt totalLeaseAmount in
      check_balance cfg (LeaseCalcBlocksRemain balanceRemain totalLeaseAmount) st
  | _, _ => err CEQuery
  end end end end end end end.

End Check.

(** ** The queue of withdrawals *)

Record withdrawItem := mkItem { wi_lid : LeaseID; wi_state : nat }.

#[export] Instance withdrawItem_eq_dec : EqDecision withdrawItem.
Proof. solve_decision. Defined.

Definition maxWithdrawBatch : nat := 20.

Section Queue.
Variable keep : withdrawItem -> bool.

(** The first withdrawal to be sent alone that is kept, and what is left. *)
Fixpoint next_alone (alone : list withdrawItem) : option withdrawItem * list withdrawItem :=
  match alone with
  | [] => (None, [])
  | item :: rest => if keep item then (Some item, rest) else next_alone rest
  end.

(** At most [n] of the due withdrawals, and what is left. *)
Fixpoint next_due (n : nat) (due : list withdrawItem) : list withdrawItem * list withdrawItem :=
  match due, n with
  | [], _ | _, O => ([], due)
  | item :: rest, S n' =>
      if keep item then let '(batch, due') := next_due n' rest in (item :: batch, due')
      else next_due n rest
  end.

(** [withdrawQueue.next]: the next batch, and the queue's [alone] and [due]. *)
Definition wq_next (alone due : list withdrawItem)
    : list withdrawItem * list withdrawItem * list withdrawItem :=
  match next_alone alone with
  | (Some item, alone') => ([item], alone', due)
  | (None, alone') => let '(batch, due') := next_due maxWithdrawBatch due in (batch, alone', due')
  end.

End Queue.

(** ** The loop *)

(** [scheduledWithdrawAt] is [None] for the zero time; [tm] names a timer. *)
Record leaseState := mkLS {
  tm : option nat;
  scheduledWithdrawAt : option Z;
  ls_closed : bool;
  withdrawing : bool;
  retryWithdraw : bool
}.

(** A funds check: its lease and whether a withdrawal is due with it. *)
Abbreviation check := (LeaseID * bool)%type.

(** The checker with the variables of [run]. [timers] holds the pending timers
    with their period; [checks] the checks being made; [sending] is the
    transaction in flight; [ended] whether the context has ended. *)
Record balanceChecker := mkBC {
  heap : gmap nat leaseState;
  next_ptr : nat;
  leases : gmap LeaseID nat;
  timers : gmap nat (check * Z);
  next_timer : nat;
  bc_checks : list check;
  due : list withdrawItem;
  alone : list withdrawItem;
  sending : option (list withdrawItem);
  ended : bool
}.

Inductive withdraw_err := WPaymentClosed | WAccountClosed | WOther.

Inductive bc_event :=
| BAdd (lid : LeaseID) (isNew : bool) (firstIn checkIn now : Z)
| BRemove (lid : LeaseID)
| BTimer (t : nat)
| BCheck (i : nat) (cv : chain_view) (now : Z) (publishOk : bool)
| BWithdrawn (err : option withdraw_err) (publishOk : bool)
| BContext
| BDrop (i : nat).

(** A withdrawal transaction (with its gas simulated or not), and the report that
    a lease is closed, of the monitor [p]. *)
Inductive bc_effect :=
| BWithdraw (items : list withdrawItem) (simulate : bool)
| BClosed (lid : LeaseID) (reason : ClosedReason) (p : nat).

Definition set_heap (p : nat) (ls : leaseState) (bc : balanceChecker) : balanceChecker :=
  mkBC (<[p := ls]> (heap bc)) (next_ptr bc) (leases bc) (timers bc) (next_timer bc) (bc_checks bc)
    (due bc) (alone bc) (sending bc) (ended bc).

Definition set_queue (d a : list withdrawItem) (s : option (list withdrawItem))
    (bc : balanceChecker) : balanceChecker :=
  mkBC (heap bc) (next_ptr bc) (leases bc) (timers bc) (next_timer bc) (bc_checks bc) d a s (ended bc).

Definition set_checks (cs : list check) (bc : balanceChecker) : balanceChecker :=
  mkBC (heap bc) (next_ptr bc) (leases bc) (timers bc) (next_timer bc) cs
    (due bc) (alone bc) (sending bc) (ended bc).

Definition set_ls_tm (t : nat) (ls : leaseState) : leaseState :=
  mkLS (Some t) (scheduledWithdrawAt ls) (ls_closed ls) (withdrawing ls) (retryWithdraw ls).
Definition set_ls_closed (ls : leaseState) : leaseState :=
  mkLS (tm ls) (scheduledWithdrawAt ls) true (withdrawing ls) (retryWithdraw ls).
Definition set_ls_withdrawing (b retry : bool) (ls : leaseState) : leaseState :=
  mkLS (tm ls) (scheduledWithdrawAt ls) (ls_closed ls) b retry.
Definition set_ls_scheduled (t : option Z) (ls : leaseState) : leaseState :=
  mkLS (tm ls) t (ls_closed ls) (withdrawing ls) (retryWithdraw ls).

(** [lState.tm = bc.timerFunc(...)], where [ls] is what the state holds else. *)
Definition arm (p : nat) (ls : leaseState) (c : check) (period : Z) (bc : balanceChecker)
    : balanceChecker :=
  let t := next_timer bc in
  mkBC (<[p := set_ls_tm t ls]> (heap bc)) (next_ptr bc) (leases bc)
    (<[t := (c, period)]> (timers bc)) (S t) (bc_checks bc) (due bc) (alone bc) (sending bc) (ended bc).

(** A withdrawal still worth sending. *)
Definition wi_keep (bc : balanceChecker) (item : withdrawItem) : bool :=
  bool_decide (leases bc !! wi_lid item = Some (wi_state item)) &&
  match heap bc !! wi_state item with Some ls => negb (ls_closed ls) | None => false end.

Definition sendWithdrawals (bc : balanceChecker) : balanceChecker * list bc_effect :=
  match sending bc with
  | Some _ => (bc, [])
  | None =>
      if ended bc then (bc, [])
      else
        let '(batch, a, d) := wq_next (wi_keep bc) (alone bc) (due bc) in
        match batch with
        | [] => (set_queue d a None bc, [])
        | _ => (set_queue d a (Some batch) bc, [BWithdraw batch (1 <? length batch)%nat])
        end
  end.

Definition minute : Z := 60000000000.

Section Loop.
Context {eapi : EscrowAPI} (cfg : BalanceCheckerConfig).

Definition on_add (lid : LeaseID) (isNew : bool) (firstIn checkIn now : Z) (bc : balanceChecker)
    : balanceChecker :=
  let scheduled :=
    if (WithdrawalPeriod cfg >? 0)%Z
    then Some (now + (if isNew then WithdrawalPeriod cfg else firstIn))%Z else None in
  let p := next_ptr bc in
  let ls := mkLS None scheduled false false false in
  let bc := mkBC (<[p := ls]> (heap bc)) (S p) (<[lid := p]> (leases bc)) (timers bc)
              (next_timer bc) (bc_checks bc) (due bc) (alone bc) (sending bc) (ended bc) in
  if isNew then set_checks (bc_checks bc ++ [(lid, false)]) bc
  else arm p ls (lid, false) checkIn bc.

Definition on_remove (lid : LeaseID) (bc : balanceChecker) : balanceChecker :=
  match leases bc !! lid with
  | None => bc
  | Some p =>
      let stopped := match heap bc !! p with
                     | Some ls => match tm ls with Some t => delete t (timers bc) | None => timers bc end
                     | None => timers bc
                     end in
      mkBC (heap bc) (next_ptr bc) (delete lid (leases bc)) stopped (next_timer bc) (bc_checks bc)
        (due bc) (alone bc) (sending bc) (ended bc)
  end.

(** The timer armed after a check, and whether a withdrawal is due with it. *)
Definition next_check (withdraw : bool) (checkAfter now : Z) (scheduled : option Z) : Z * bool :=
  match withdraw, scheduled with
  | false, Some at_ =>
      let withdrawIn := (at_ - now)%Z in
      if (checkAfter >=? withdrawIn)%Z then (withdrawIn, true) else (checkAfter, false)
  | _, _ => (checkAfter, false)
  end.

Definition on_response (lid : LeaseID) (res : leaseCheckResponse) (now : Z) (publishOk : bool)
    (bc : balanceChecker) : balanceChecker * list bc_effect :=
  match leases bc !! lid with
  | None => (bc, [])
  | Some p =>
  match heap bc !! p with
  | None => (bc, [])
  | Some ls =>
    if ls_closed ls then (bc, []) else
    let retry := (arm p ls (lid, bool_decide (r_state res = respStateScheduledWithdraw)) minute bc,
                  []) in
    match r_closed res with
    | Some reason =>
        if publishOk then (set_heap p (set_ls_closed ls) bc, [BClosed lid reason p]) else retry
    | None =>
      match r_err res with
      | Some _ => retry
      | None =>
        let st := if retryWithdraw ls && bool_decide (r_state res = respStateNextCheck)
                  then respStateScheduledWithdraw else r_state res in
        let withdraw := negb (bool_decide (st = respStateNextCheck)) &&
                        (WithdrawalPeriod cfg >? 0)%Z in
        let ls := if withdraw then set_ls_scheduled (Some (now + WithdrawalPeriod cfg)%Z) ls else ls in
        let '(period, sched) := next_check withdraw (r_checkAfter res) now (scheduledWithdrawAt ls) in
        if withdraw && negb (withdrawing ls)
        then
          let bc := arm p (set_ls_withdrawing true false ls) (lid, sched) period bc in
          sendWithdrawals (set_queue (due bc ++ [mkItem lid p]) (alone bc) (sending bc) bc)
        else (arm p ls (lid, sched) period bc, [])
      end
    end
  end end.

Definition isEscrowClosedErr (e : withdraw_err) : bool :=
  match e with WPaymentClosed | WAccountClosed => true | WOther => false end.

Definition withdrawFailed (item : withdrawItem) (err : withdraw_err) (publishOk : bool)
    (bc : balanceChecker) : balanceChecker * list bc_effect :=
  let p := wi_state item in
  match heap bc !! p with
  | None => (bc, [])
  | Some ls =>
    let ls := set_ls_withdrawing false (retryWithdraw ls) ls in
    let current := bool_decide (leases bc !! wi_lid item = Some p) in
    if negb current || ls_closed ls || negb (isEscrowClosedErr err)
    then (set_heap p (if current && negb (ls_closed ls) then set_ls_withdrawing false true ls else ls)
            bc, [])
    else
      let reason := match err with WAccountClosed => ReasonOwner | _ => ReasonUnspecified end in
      if publishOk then (set_heap p (set_ls_closed ls) bc, [BClosed (wi_lid item) reason p])
      else (set_heap p ls bc, [])
  end.

Definition settle (bc : balanceChecker) (item : withdrawItem) : balanceChecker :=
  match heap bc !! wi_state item with
  | Some ls => set_heap (wi_state item) (set_ls_withdrawing false (retryWithdraw ls) ls) bc
  | None => bc
  end.

(** A batch is never empty. *)
Definition on_withdrawn (items : list withdrawItem) (err : option withdraw_err) (publishOk : bool)
    (bc : balanceChecker) : balanceChecker * list bc_effect :=
  let bc := set_queue (due bc) (alone bc) None bc in
  let '(bc, e1) :=
    match err, items with
    | None, _ => (foldl settle bc items, [])
    | Some e, [item] => withdrawFailed item e publishOk bc
    | Some _, _ => (set_queue (due bc) (alone bc ++ items) (sending bc) bc, [])
    end in
  let '(bc, e2) := sendWithdrawals bc in (bc, e1 ++ e2).

(** [None] when the event cannot happen. The result of a check may be dropped
    once the context has ended. *)
Definition bc_step (bc : balanceChecker) (ev : bc_event) : option (balanceChecker * list bc_effect) :=
  match ev with
  | BAdd lid isNew firstIn checkIn now => Some (on_add lid isNew firstIn checkIn now bc, [])
  | BRemove lid => Some (on_remove lid bc, [])
  | BTimer t =>
      match timers bc !! t with
      | None => None
      | Some (c, _) =>
          Some (mkBC (heap bc) (next_ptr bc) (leases bc) (delete t (timers bc)) (next_timer bc)
                  (bc_checks bc ++ [c]) (due bc) (alone bc) (sending bc) (ended bc), [])
      end
  | BCheck i cv now publishOk =>
      match bc_checks bc !! i with
      | None => None
      | Some (lid, scheduled) =>
          Some (on_response lid (doEscrowCheck cfg lid scheduled cv) now publishOk
                  (set_checks (remove_at i (bc_checks bc)) bc))
      end
  | BWithdrawn err publishOk =>
      match sending bc with
      | None => None
      | Some items => Some (on_withdrawn items err publishOk bc)
      end
  | BContext =>
      Some (mkBC (heap bc) (next_ptr bc) (leases bc) (timers bc) (next_timer bc) (bc_checks bc)
              (due bc) (alone bc) (sending bc) true, [])
  | BDrop i =>
      if ended bc then Some (set_checks (remove_at i (bc_checks bc)) bc, []) else None
  end.

Definition bc_init : balanceChecker := mkBC ∅ 0 ∅ ∅ 0 [] [] [] None false.

Inductive bc_loop : list bc_event -> balanceChecker -> list bc_effect -> Prop :=
| bc_start : bc_loop [] bc_init []
| bc_more evs bc effs ev bc' e :
    bc_loop evs bc effs -> bc_step bc ev = Some (bc', e) -> bc_loop (evs ++ [ev]) bc' (effs ++ e).

End Loop.

(** ** The queue *)

Section QueueFacts.
Variable keep : withdrawItem -> bool.

Lemma next_alone_spec l :
  exists dropped, (forall it, it ∈ dropped -> keep it = false) /\
    match next_alone keep l with
    | (Some it, rest) => keep it = true /\ l = dropped ++ it :: rest
    | (None, rest) => rest = [] /\ l = dropped
    end.
Proof.
  induction l as [|it l (dropped & Hd & IH)]; simpl.
  - exists []. split; [|done]. no_elem.
  - destruct (keep it) eqn:Hk.
    + exists []. split; [|done]. no_elem.
    + exists (it :: dropped). split; [intros x [->|Hx]%elem_of_cons; auto|].
      destruct (next_alone keep l) as [[]]; naive_solver.
Qed.

Lemma next_due_spec n l :
  exists dropped, (forall it, it ∈ dropped -> keep it = false) /\
    let r := next_due keep n l in
    l ≡ₚ dropped ++ r.1 ++ r.2 /\ (forall it, it ∈ r.1 -> keep it = true) /\
    (length r.1 <= n)%nat /\ ((length r.1 < n)%nat -> r.2 = []).
Proof.
  revert n. induction l as [|it l IH]; intros n.
  - exists []. assert (next_due keep n [] = ([], [])) as -> by (by destruct n). cbn zeta.
    split_and!; try done; try (no_elem). simpl. lia.
  - destruct n as [|n].
    + exists []. cbn. split_and!; try done; try (no_elem); lia.
    + simpl. destruct (keep it) eqn:Hk.
      * destruct (IH n) as (dropped & Hd & Hp & Hkeep & Hlen & Hleft). exists dropped.
        destruct (next_due keep n l) as [b d1]. simpl in *. split_and!; auto; try lia.
        -- rewrite Hp. solve_Permutation.
        -- intros x [->|Hx]%elem_of_cons; auto.
        -- intros ?. apply Hleft. lia.
      * destruct (IH (S n)) as (dropped & Hd & Hp & Hrest). exists (it :: dropped).
        split_and!; [intros x [->|Hx]%elem_of_cons; auto| |apply Hrest..].
        cbn zeta in Hp. simpl in Hp |- *. by rewrite Hp at 1.
Qed.

(** What is taken is kept, what is dropped is not, and a batch is empty only when
    the queue is. *)
Lemma wq_next_spec a d batch a' d' :
  wq_next keep a d = (batch, a', d') ->
  exists dropped, (forall it, it ∈ dropped -> keep it = false) /\
    d ++ a ≡ₚ dropped ++ d' ++ a' ++ batch /\
    (forall it, it ∈ batch -> keep it = true) /\ (length batch <= maxWithdrawBatch)%nat /\
    (batch = [] -> a' = [] /\ d' = []).
Proof.
  unfold wq_next. destruct (next_alone_spec a) as (da & Hda & Ha).
  destruct (next_alone keep a) as [[it|] rest].
  - destruct Ha as [Hk ->]. intros [= <- <- <-]. exists da. split_and!; [done| | | |done].
    + solve_Permutation.
    + intros x [->|Hx]%elem_of_cons; [done|]. by apply not_elem_of_nil in Hx.
    + unfold maxWithdrawBatch. simpl. lia.
  - destruct Ha as [-> ->]. destruct (next_due_spec maxWithdrawBatch d) as (dd & Hdd & Hp & Hk & Hl & Hn).
    destruct (next_due keep maxWithdrawBatch d) as [b d1]. intros [= <- <- <-]. simpl in *.
    exists (dd ++ da). split_and!; [|rewrite Hp; solve_Permutation|done|done|].
    + intros x [Hx|Hx]%elem_of_app; auto.
    + intros ->. split; [done|]. apply Hn. unfold maxWithdrawBatch. simpl. lia.
Qed.

End QueueFacts.

(** ** Invariants *)

Definition outstanding (bc : balanceChecker) : list withdrawItem :=
  due bc ++ alone bc ++ default [] (sending bc).

(** A check of the lease is scheduled or being made. *)
Definition watched (bc : balanceChecker) (lid : LeaseID) : Prop :=
  (exists t b z, timers bc !! t = Some ((lid, b), z)) \/ exists b, (lid, b) ∈ bc_checks bc.

(** The monitors and their timers; the leases of [X] need not be watched. *)
Record mon_inv (X : LeaseID -> Prop) (bc : balanceChecker) : Prop := {
  i_heap : forall p, is_Some (heap bc !! p) -> (p < next_ptr bc)%nat;
  i_leases : forall lid p, leases bc !! lid = Some p -> is_Some (heap bc !! p);
  i_inj : forall l1 l2 p, leases bc !! l1 = Some p -> leases bc !! l2 = Some p -> l1 = l2;
  i_timers : forall t, is_Some (timers bc !! t) -> (t < next_timer bc)%nat;
  i_tm_fresh : forall p ls t, heap bc !! p = Some ls -> tm ls = Some t -> (t < next_timer bc)%nat;
  i_tm : forall lid p ls t c z, leases bc !! lid = Some p -> heap bc !! p = Some ls ->
    tm ls = Some t -> timers bc !! t = Some (c, z) -> c.1 = lid;
  i_watched : forall lid p ls, ~ X lid -> ended bc = false -> leases bc !! lid = Some p ->
    heap bc !! p = Some ls -> ls_closed ls = false -> watched bc lid
}.

(** The queue, with the withdrawals [H] the loop has taken in hand. *)
Record queue_inv (cfg : BalanceCheckerConfig) (H : list withdrawItem) (bc : balanceChecker) : Prop := {
  i_out : forall it, it ∈ H ++ outstanding bc ->
    exists ls, heap bc !! wi_state it = Some ls /\ withdrawing ls = true;
  i_nodup : NoDup (wi_state <$> (H ++ outstanding bc));
  i_pending : forall lid p ls, leases bc !! lid = Some p -> heap bc !! p = Some ls ->
    ls_closed ls = false -> withdrawing ls = true -> mkItem lid p ∈ H ++ outstanding bc;
  i_off : (WithdrawalPeriod cfg <= 0)%Z -> H ++ outstanding bc = []
}.

(** What [sendWithdrawals] establishes. *)
Record sent_inv (bc : balanceChecker) : Prop := {
  i_idle : sending bc = None -> ended bc = false -> due bc = [] /\ alone bc = [];
  i_batch : forall b, sending bc = Some b -> (1 <= length b <= maxWithdrawBatch)%nat
}.

Lemma sendWithdrawals_form bc :
  exists d a s, (sendWithdrawals bc).1 = set_queue d a s bc.
Proof.
  unfold sendWithdrawals. destruct (sending bc) as [b|] eqn:Hs.
  { exists (due bc), (alone bc), (Some b). by destruct bc; simpl in *; subst. }
  destruct (ended bc) eqn:He.
  { exists (due bc), (alone bc), None. by destruct bc; simpl in *; subst. }
  destruct (wq_next _ _ _) as [[[|it b] a] d]; simpl; eauto.
Qed.

Lemma mon_inv_queue X d a s bc : mon_inv X bc -> mon_inv X (set_queue d a s bc).
Proof. intros [H1 H2 H3 H4 H5 H6 H7]. by split. Qed.

Lemma mon_inv_send X bc : mon_inv X bc -> mon_inv X (sendWithdrawals bc).1.
Proof.
  intros H. destruct (sendWithdrawals_form bc) as (d & a & s & ->). by apply mon_inv_queue.
Qed.

(** Changing a monitor's state without its timer; a monitor once closed needs no
    watch. *)
Lemma mon_inv_set_heap X p ls ls' bc :
  mon_inv X bc -> heap bc !! p = Some ls -> tm ls' = tm ls ->
  (ls_closed ls' = false -> ls_closed ls = false) -> mon_inv X (set_heap p ls' bc).
Proof.
  intros [H1 H2 H3 H4 H5 H6 H7] Hp Ht Hc. split; simpl; try done.
  - intros q. rewrite lookup_insert_is_Some. intros [<-|[_ ?]]; eauto.
  - intros lid q Hq. destruct (decide (p = q)) as [<-|Hne]; simplify_map_eq; eauto.
  - intros q ls1 t. rewrite lookup_insert_Some. intros [[<- <-]|[_ ?]]; eauto. rewrite Ht. eauto.
  - intros lid q ls1 t c z Hq. rewrite lookup_insert_Some. intros [[<- <-]|[_ ?]]; eauto.
    rewrite Ht. eauto.
  - intros lid q ls1 HX He Hq. rewrite lookup_insert_Some. intros [[<- <-]|[_ ?]] Hcl; [|by eapply H7].
    eapply (H7 lid p ls); eauto.
Qed.

(** Arming a timer makes its lease watched. *)
Lemma mon_inv_arm X (Y : LeaseID -> Prop) p ls ls' lid b z bc :
  mon_inv X bc -> leases bc !! lid = Some p -> heap bc !! p = Some ls ->
  (ls_closed ls' = false -> ls_closed ls = false) -> (forall l, X l -> Y l \/ l = lid) ->
  mon_inv Y (arm p ls' (lid, b) z bc).
Proof.
  intros [H1 H2 H3 H4 H5 H6 H7] Hl Hp Hc HY. split; simpl; try done.
  - intros q. rewrite lookup_insert_is_Some. intros [<-|[_ ?]]; eauto.
  - intros l q Hq. destruct (decide (p = q)) as [<-|Hne]; simplify_map_eq; eauto.
  - intros t. rewrite lookup_insert_is_Some. intros [<-|[_ Ht]]; [lia|]. apply H4 in Ht. lia.
  - intros q ls1 t. rewrite lookup_insert_Some. intros [[<- <-]|[_ Hq]]; simpl.
    + intros [= <-]. lia.
    + intros Ht. specialize (H5 _ _ _ Hq Ht). lia.
  - intros l q ls1 t c z1 Hq. rewrite lookup_insert_Some. intros [[<- <-]|[Hne Hq']]; simpl.
    + intros [= <-]. rewrite lookup_insert_eq. intros [= <- <-]. simpl. eapply H3; eauto.
    + intros Ht. specialize (H5 _ _ _ Hq' Ht) as Hlt. rewrite lookup_insert_ne by lia. eauto.
  - intros l q ls1 HX He Hq Hh Hcl. destruct (decide (l = lid)) as [->|Hne].
    + left. exists (next_timer bc), b, z. simpl. by rewrite lookup_insert_eq.
    + assert (p <> q) by (intros <-; by rewrite (H3 _ _ _ Hq Hl) in Hne).
      rewrite lookup_insert_ne in Hh by done.
      destruct (H7 l q ls1) as [(t & b1 & z1 & Ht)|Hck]; try done; [naive_solver| |by right].
      left. exists t, b1, z1. simpl. rewrite lookup_insert_ne; [done|].
      assert (t < next_timer bc)%nat by (by apply H4). lia.
Qed.

(** A new monitor: its pointer is fresh and no timer is its own. *)
Lemma mon_inv_fresh X (Y : LeaseID -> Prop) lid sched bc :
  mon_inv X bc -> (forall l, X l -> Y l) -> Y lid ->
  let p := next_ptr bc in
  mon_inv Y (mkBC (<[p := mkLS None sched false false false]> (heap bc)) (S p)
    (<[lid := p]> (leases bc)) (timers bc) (next_timer bc) (bc_checks bc) (due bc) (alone bc)
    (sending bc) (ended bc)).
Proof.
  intros [H1 H2 H3 H4 H5 H6 H7] HXY HY p.
  assert (forall l q, leases bc !! l = Some q -> q <> p) as Hfresh.
  { intros l q Hq. apply H2, H1 in Hq. subst p. lia. }
  split; simpl; try done.
  - intros q. rewrite lookup_insert_is_Some. intros [<-|[_ Hq%H1]]; [lia|]. subst p. lia.
  - intros l q. rewrite lookup_insert_Some. intros [[<- <-]|[_ Hq]]; [by rewrite lookup_insert_eq|].
    rewrite lookup_insert_ne; eauto. apply not_eq_sym. eauto.
  - intros l1 l2 q. rewrite !lookup_insert_Some.
    intros [[<- <-]|[_ Ha]] [[<- Hq]|[_ Hb]]; eauto; subst; exfalso; eapply Hfresh; eauto.
  - intros q ls t. rewrite lookup_insert_Some. intros [[<- <-]|[_ ?]]; [done|eauto].
  - intros l q ls t c z. rewrite !lookup_insert_Some.
    intros [[<- <-]|[_ Ha]] [[? <-]|[? Hb]]; try done; eauto.
  - intros l q ls HX He. rewrite !lookup_insert_Some.
    intros [[<- _]|[_ Ha]] Hb Hc; [by destruct HX|].
    destruct Hb as [[<- _]|[_ Hb]]; [by destruct (Hfresh _ _ Ha)|].
    apply (H7 l q ls); auto.
Qed.

Lemma mon_inv_add cfg lid isNew firstIn checkIn now bc :
  mon_inv (fun _ => False) bc ->
  mon_inv (fun _ => False) (on_add cfg lid isNew firstIn checkIn now bc).
Proof.
  intros H. unfold on_add.
  set (sched := if (WithdrawalPeriod cfg >? 0)%Z then _ else _).
  apply (mon_inv_fresh _ (fun l => l = lid) lid sched) in H; [|done|done]. cbn zeta in *.
  destruct isNew.
  - destruct H as [H1 H2 H3 H4 H5 H6 H7]. split; simpl in *; try done.
    intros l p ls _ He Hl Hp Hc. destruct (decide (l = lid)) as [->|Hne].
    + right. exists false. simpl. apply elem_of_app. right. left.
    + destruct (H7 l p ls Hne He Hl Hp Hc) as [?|[b Hb]]; [by left|].
      right. exists b. simpl. apply elem_of_app. by left.
  - apply (mon_inv_arm (fun l => l = lid) _ _ (mkLS None sched false false false)); simpl; auto.
    + by rewrite lookup_insert_eq.
    + by rewrite lookup_insert_eq.
Qed.

Lemma mon_inv_remove lid bc :
  mon_inv (fun _ => False) bc -> mon_inv (fun _ => False) (on_remove lid bc).
Proof.
  intros H. unfold on_remove. destruct (leases bc !! lid) as [p|] eqn:Hl; [|done].
  destruct H as [H1 H2 H3 H4 H5 H6 H7]. destruct (H2 _ _ Hl) as [ls Hp]. rewrite Hp.
  set (tms := match tm ls with Some t => _ | None => _ end).
  assert (forall t x, tms !! t = Some x -> timers bc !! t = Some x) as Hsub.
  { subst tms. intros t x. destruct (tm ls); [|done]. by intros [_ ?]%lookup_delete_Some. }
  split; simpl.
  - done.
  - intros l q [_ Hq]%lookup_delete_Some. eauto.
  - intros l1 l2 q [_ Ha]%lookup_delete_Some [_ Hb]%lookup_delete_Some. eauto.
  - intros t [x Ht%Hsub]. apply H4. eauto.
  - eauto.
  - intros l q ls1 t c z [_ Hq]%lookup_delete_Some Hq1 Ht Hx%Hsub. eauto.
  - intros l q ls1 HX He [Hne Hq]%lookup_delete_Some Hq1 Hc.
    destruct (H7 l q ls1) as [(t & b & z & Ht)|Hck]; try done; [|by right].
    left. exists t, b, z. simpl. subst tms. destruct (tm ls) as [t'|] eqn:Htm; [|done].
    apply lookup_delete_Some. split; [|done]. intros ->. destruct Hne.
    symmetry. by apply (H6 _ _ _ _ _ _ Hl Hp Htm Ht).
Qed.

Lemma mon_inv_timer t c z bc :
  mon_inv (fun _ => False) bc -> timers bc !! t = Some (c, z) ->
  mon_inv (fun _ => False) (mkBC (heap bc) (next_ptr bc) (leases bc) (delete t (timers bc))
    (next_timer bc) (bc_checks bc ++ [c]) (due bc) (alone bc) (sending bc) (ended bc)).
Proof.
  intros [H1 H2 H3 H4 H5 H6 H7] Ht. split; simpl; try done.
  - intros t' [x [_ Hx]%lookup_delete_Some]. eauto.
  - intros l q ls1 t' c' z' Hq Hq1 Ht' [_ Hx]%lookup_delete_Some. eauto.
  - intros l q ls HX He Hq Hq1 Hc.
    destruct (H7 l q ls) as [(t' & b & z' & Ht')|[b Hb]]; try done.
    + destruct (decide (t' = t)) as [->|Hne].
      * right. exists b. simpl. apply elem_of_app. right. rewrite Ht in Ht'. simplify_eq. left.
      * left. exists t', b, z'. simpl. by apply lookup_delete_Some.
    + right. exists b. simpl. apply elem_of_app. by left.
Qed.

Lemma remove_at_elem {A} (l : list A) i x y :
  l !! i = Some x -> y ∈ l -> y <> x -> y ∈ remove_at i l.
Proof.
  intros Hi Hy Hne. rewrite <- (take_drop_middle l i x Hi) in Hy. unfold remove_at.
  rewrite elem_of_app, elem_of_cons in *. naive_solver.
Qed.

Lemma mon_inv_taken i lid b bc :
  mon_inv (fun _ => False) bc -> bc_checks bc !! i = Some (lid, b) ->
  mon_inv (fun l => l = lid) (set_checks (remove_at i (bc_checks bc)) bc).
Proof.
  intros [H1 H2 H3 H4 H5 H6 H7] Hi. split; simpl; try done.
  intros l q ls Hne He Hq Hq1 Hc. destruct (H7 l q ls) as [?|[b' Hb]]; auto; [by left|].
  right. exists b'. simpl. eapply remove_at_elem; eauto. congruence.
Qed.

Lemma mon_inv_response cfg lid res now ok bc :
  mon_inv (fun l => l = lid) bc ->
  mon_inv (fun _ => False) (on_response cfg lid res now ok bc).1.
Proof.
  intros H. unfold on_response.
  assert (forall q ls, (leases bc !! lid = Some q -> heap bc !! q = Some ls -> ls_closed ls = true) ->
    leases bc !! lid = None \/ (leases bc !! lid = Some q /\ heap bc !! q = Some ls) ->
    mon_inv (fun _ => False) bc) as Hdone.
  { intros q ls Hcl Hcase. destruct H as [H1 H2 H3 H4 H5 H6 H7]. split; try done.
    intros l q' ls' _ He Hq Hq' Hc. destruct (decide (l = lid)) as [->|Hne]; [|by eapply H7].
    destruct Hcase as [Hn|[Hn Hn']]; [congruence|].
    simplify_eq. by rewrite Hcl in Hc. }
  destruct (leases bc !! lid) as [p|] eqn:Hl; [|apply (Hdone 0%nat (mkLS None None true false false)); auto].
  destruct (i_leases _ _ H _ _ Hl) as [ls Hp]. rewrite Hp.
  destruct (ls_closed ls) eqn:Hc; [apply (Hdone p ls); auto|].
  assert (forall ls' b z, (ls_closed ls' = false -> ls_closed ls = false) ->
    mon_inv (fun _ => False) (arm p ls' (lid, b) z bc)) as Harm.
  { intros ls' b z Hcl. eapply mon_inv_arm; eauto. }
  destruct (r_closed res) as [reason|].
  - destruct ok; [|by apply Harm]. simpl.
    assert (mon_inv (fun l => l = lid) (set_heap p (set_ls_closed ls) bc)) as [H1 H2 H3 H4 H5 H6 H7]
      by (by eapply mon_inv_set_heap).
    split; try done. intros l q ls' _ He Hq Hq' Hcl. destruct (decide (l = lid)) as [->|Hne].
    + simpl in Hq, Hq'. rewrite Hl in Hq. simplify_eq. rewrite lookup_insert_eq in Hq'.
      by injection Hq' as <-.
    + by eapply H7.
  - destruct (r_err res); [by apply Harm|].
    set (w := negb _ && _). set (ls2 := if w then _ else ls).
    assert (ls_closed ls2 = false) as Hc2 by (subst ls2; by destruct w).
    destruct (next_check _ _ _ _) as [period sched].
    destruct (w && negb (withdrawing ls2)); [|by apply Harm].
    apply mon_inv_send, mon_inv_queue, Harm. by simpl.
Qed.

Lemma mon_inv_settle X items bc : mon_inv X bc -> mon_inv X (foldl settle bc items).
Proof.
  intros H. apply (foldl_keeps _ (mon_inv X)); [|done]. intros b it _ Hb. unfold settle.
  destruct (heap b !! wi_state it) as [ls|] eqn:Hp; [|done]. by eapply mon_inv_set_heap.
Qed.

Lemma mon_inv_failed X item err ok bc :
  mon_inv X bc -> mon_inv X (withdrawFailed item err ok bc).1.
Proof.
  intros H. unfold withdrawFailed. destruct (heap bc !! wi_state item) as [ls|] eqn:Hp; [|done].
  simpl. destruct (_ || _); simpl.
  - eapply mon_inv_set_heap; eauto; by destruct (_ && _).
  - destruct ok; simpl; by eapply mon_inv_set_heap.
Qed.

Lemma mon_inv_withdrawn X items err ok bc :
  mon_inv X bc -> mon_inv X (on_withdrawn items err ok bc).1.
Proof.
  intros H. unfold on_withdrawn. apply (mon_inv_queue _ (due bc) (alone bc) None) in H.
  set (r := match err with Some _ => _ | None => _ end).
  assert (mon_inv X r.1) as Hr.
  { subst r. destruct err as [e|]; [|by apply mon_inv_settle].
    destruct items as [|it [|]]; simpl;
      [by apply mon_inv_queue|by apply mon_inv_failed|by apply mon_inv_queue]. }
  destruct r as [bc1 e1]. simpl in Hr. apply mon_inv_send in Hr.
  by destruct (sendWithdrawals bc1).
Qed.

(** *** The queue *)

Lemma queue_inv_perm cfg H H' bc bc' :
  queue_inv cfg H bc -> heap bc' = heap bc -> leases bc' = leases bc ->
  H ++ outstanding bc ≡ₚ H' ++ outstanding bc' -> queue_inv cfg H' bc'.
Proof.
  intros [H1 H2 H3 H4] Eh El Hp. split; rewrite ?Eh, ?El.
  - intros it. rewrite <- Hp. apply H1.
  - by rewrite <- Hp.
  - intros lid p ls. rewrite <- Hp. apply H3.
  - intros Hw. rewrite (H4 Hw) in Hp. by apply Permutation_nil_l in Hp.
Qed.

(** Sending drops only withdrawals that are no longer wanted. *)
Lemma queue_inv_send cfg bc : queue_inv cfg [] bc -> queue_inv cfg [] (sendWithdrawals bc).1.
Proof.
  intros H. unfold sendWithdrawals. destruct (sending bc) eqn:Hs; [done|].
  destruct (ended bc); [done|].
  destruct (wq_next (wi_keep bc) (alone bc) (due bc)) as [[batch a] d] eqn:Hn.
  apply wq_next_spec in Hn as (dropped & Hd & Hp & _).
  set (s := match batch with [] => None | _ => Some batch end).
  assert (queue_inv cfg [] (set_queue d a s bc)) as Hq; [|by destruct batch].
  assert (outstanding bc ≡ₚ dropped ++ outstanding (set_queue d a s bc)) as Hout.
  { unfold outstanding. rewrite Hs. simpl. rewrite app_nil_r, Hp. by destruct batch. }
  destruct H as [H1 H2 H3 H4]. simpl in *. split; simpl.
  - intros it Hit. apply H1. rewrite Hout. apply elem_of_app. by right.
  - rewrite Hout, fmap_app, list.NoDup_app in H2. apply H2.
  - intros lid p ls Hl Hh Hc Hw. specialize (H3 lid p ls Hl Hh Hc Hw) as Hin.
    rewrite Hout, elem_of_app in Hin. destruct Hin as [Hin|]; [|done].
    apply Hd in Hin. unfold wi_keep in Hin. simpl in Hin. rewrite Hh, Hc in Hin.
    by rewrite bool_decide_true in Hin.
  - intros Hw. specialize (H4 Hw). rewrite H4 in Hout. apply Permutation_nil_l in Hout.
    by symmetry in Hout; apply app_eq_nil in Hout as [_ ?].
Qed.

Lemma sent_inv_send bc :
  (forall b, sending bc = Some b -> (1 <= length b <= maxWithdrawBatch)%nat) ->
  sent_inv (sendWithdrawals bc).1.
Proof.
  intros Hb. unfold sendWithdrawals. destruct (sending bc) eqn:Hs.
  { simpl. split; [by rewrite Hs|]. intros b Hb'. apply Hb. congruence. }
  destruct (ended bc) eqn:He; [simpl; split; congruence|].
  destruct (wq_next _ _ _) as [[batch a] d] eqn:Hn.
  apply wq_next_spec in Hn as (dropped & _ & _ & _ & Hl & Hnil).
  destruct batch as [|it batch]; simpl; split; simpl; try done.
  - intros _ _. by destruct Hnil.
  - intros b [= <-]. simpl in *. lia.
Qed.

(** Changing a monitor's state but not whether a withdrawal is outstanding. *)
Lemma queue_inv_set_heap cfg H p ls ls' bc bc' :
  queue_inv cfg H bc -> heap bc !! p = Some ls -> heap bc' = <[p := ls']> (heap bc) ->
  leases bc' = leases bc -> outstanding bc' = outstanding bc ->
  withdrawing ls' = withdrawing ls -> (ls_closed ls' = false -> ls_closed ls = false) ->
  queue_inv cfg H bc'.
Proof.
  intros [H1 H2 H3 H4] Hp Eh El Eo Hw Hc. split; rewrite ?Eh, ?El, ?Eo; try done.
  - intros it Hit. destruct (H1 it Hit) as (ls1 & Hl & Hw1).
    destruct (decide (p = wi_state it)) as [->|Hne].
    + exists ls'. rewrite lookup_insert_eq. split; congruence.
    + exists ls1. by rewrite lookup_insert_ne.
  - intros lid q ls1 Hl. rewrite lookup_insert_Some. intros [[<- <-]|[_ ?]] Hcl Hwl; [|eauto].
    apply (H3 lid p ls); auto. congruence.
Qed.

(** A withdrawal in hand is over. *)
Lemma queue_inv_over cfg it H ls ls' bc :
  queue_inv cfg (it :: H) bc -> heap bc !! wi_state it = Some ls -> withdrawing ls' = false ->
  queue_inv cfg H (set_heap (wi_state it) ls' bc).
Proof.
  intros [H1 H2 H3 H4] Hp Hw. rewrite <- app_comm_cons, fmap_cons in H2.
  apply list.NoDup_cons in H2 as [Hn H2]. split.
  - intros it' Hit. destruct (H1 it') as (ls1 & Hl & Hw1); [right; exact Hit|].
    exists ls1. split; [|done]. simpl. rewrite lookup_insert_ne; [done|].
    intros Heq. apply Hn. rewrite Heq. apply list_elem_of_fmap_2, Hit.
  - exact H2.
  - intros lid p ls1 Hl Hh Hc Hwi. simpl in Hl, Hh. apply lookup_insert_Some in Hh as [[<- <-]|[Hne Hh]].
    + congruence.
    + specialize (H3 _ _ _ Hl Hh Hc Hwi). apply elem_of_cons in H3 as [<-|?]; [done|done].
  - intros Hoff. by apply H4 in Hoff.
Qed.

Lemma queue_inv_settle cfg items bc :
  queue_inv cfg items bc -> queue_inv cfg [] (foldl settle bc items).
Proof.
  revert bc. induction items as [|it items IH]; intros bc H; simpl; [done|]. apply IH.
  unfold settle. destruct (i_out _ _ _ H it) as (ls & Hp & _); [left|]. rewrite Hp.
  by eapply queue_inv_over.
Qed.

Lemma queue_inv_failed cfg it err ok bc :
  queue_inv cfg [it] bc -> queue_inv cfg [] (withdrawFailed it err ok bc).1.
Proof.
  intros H. unfold withdrawFailed. destruct (i_out _ _ _ H it) as (ls & Hp & _); [left|].
  rewrite Hp. simpl. destruct (_ || _); simpl.
  - eapply queue_inv_over; eauto. by destruct (_ && _).
  - destruct ok; simpl; by eapply queue_inv_over.
Qed.

Lemma queue_inv_add cfg lid isNew firstIn checkIn now bc :
  (forall p, is_Some (heap bc !! p) -> (p < next_ptr bc)%nat) ->
  queue_inv cfg [] bc -> queue_inv cfg [] (on_add cfg lid isNew firstIn checkIn now bc).
Proof.
  intros Hfresh [H1 H2 H3 H4]. unfold on_add.
  set (sched := if (WithdrawalPeriod cfg >? 0)%Z then _ else _). cbn zeta.
  set (bc1 := mkBC _ _ _ _ _ _ _ _ _ _).
  assert (queue_inv cfg [] bc1) as Hq.
  { split; try done.
    - intros it Hit. destruct (H1 it Hit) as (ls & Hl & Hw). exists ls. split; [|done].
      subst bc1. simpl. rewrite lookup_insert_ne; [done|].
      specialize (Hfresh (wi_state it) (ex_intro _ _ Hl)). lia.
    - intros l p ls. subst bc1. simpl. rewrite !lookup_insert_Some.
      intros [[_ <-]|[_ Hl]] [[_ <-]|[Hne Hh]] Hc Hw; try done. by apply (H3 l p ls). }
  destruct isNew; [by apply (queue_inv_perm _ [] [] bc1)|].
  apply (queue_inv_set_heap _ [] (next_ptr bc) (mkLS None sched false false false)
    (set_ls_tm (next_timer bc) (mkLS None sched false false false)) bc1); subst bc1; simpl; try done.
  by rewrite lookup_insert_eq.
Qed.

Lemma queue_inv_remove cfg lid bc : queue_inv cfg [] bc -> queue_inv cfg [] (on_remove lid bc).
Proof.
  intros H. unfold on_remove. destruct (leases bc !! lid); [|done].
  destruct H as [H1 H2 H3 H4]. split; try done. simpl.
  intros l p ls [_ Hl]%lookup_delete_Some. by apply H3.
Qed.

Lemma queue_inv_response cfg lid res now ok bc :
  (forall l1 l2 p, leases bc !! l1 = Some p -> leases bc !! l2 = Some p -> l1 = l2) ->
  queue_inv cfg [] bc -> queue_inv cfg [] (on_response cfg lid res now ok bc).1.
Proof.
  intros Hinj H. unfold on_response. destruct (leases bc !! lid) as [p|] eqn:Hl; [|done].
  destruct (heap bc !! p) as [ls|] eqn:Hp; [|done]. destruct (ls_closed ls) eqn:Hc; [done|].
  assert (forall ls' b z, withdrawing ls' = withdrawing ls -> ls_closed ls' = ls_closed ls ->
    queue_inv cfg [] (arm p ls' (lid, b) z bc)) as Harm.
  { intros ls' b z Hw Hcl. eapply (queue_inv_set_heap _ _ p ls (set_ls_tm (next_timer bc) ls')); eauto.
    all: simpl; congruence. }
  destruct (r_closed res) as [reason|].
  { destruct ok; [|by apply Harm]. simpl. by eapply queue_inv_set_heap. }
  destruct (r_err res); [by apply Harm|].
  set (w := negb _ && _). set (ls2 := if w then _ else ls).
  assert (withdrawing ls2 = withdrawing ls /\ ls_closed ls2 = ls_closed ls) as [Hw2 Hc2]
    by (subst ls2; by destruct w).
  destruct (next_check _ _ _ _) as [period sched].
  destruct (w && negb (withdrawing ls2)) eqn:Hq; [|by apply Harm].
  apply andb_true_iff in Hq as [Hw Hq]. apply negb_true_iff in Hq.
  apply andb_true_iff in Hw as [_ Hw]. apply queue_inv_send.
  destruct H as [H1 H2 H3 H4].
  assert (forall it, it ∈ outstanding bc -> wi_state it <> p) as Hnew.
  { intros it Hit Heq. destruct (H1 it Hit) as (ls1 & Hh & Hw1). congruence. }
  set (bc' := set_queue _ _ _ _).
  assert (outstanding bc' ≡ₚ mkItem lid p :: outstanding bc) as Hout.
  { unfold outstanding. simpl. solve_Permutation. }
  split; simpl.
  - intros it. rewrite Hout, elem_of_cons. intros [->|Hit]; simpl.
    + eexists. rewrite lookup_insert_eq. done.
    + destruct (H1 it Hit) as (ls1 & Hh & Hw1). exists ls1.
      rewrite lookup_insert_ne by (apply not_eq_sym; by apply Hnew). done.
  - rewrite Hout, fmap_cons. apply list.NoDup_cons. split; [|done].
    intros (it & Hs & Hit)%list_elem_of_fmap. by apply (Hnew it Hit).
  - intros l q ls1 Hl1. rewrite Hout, elem_of_cons, lookup_insert_Some.
    intros [[<- <-]|[Hne Hh]] Hcl Hwl; [|right; eauto].
    left. by rewrite (Hinj _ _ _ Hl1 Hl).
  - intros Hoff. apply Z.gtb_lt in Hw. lia.
Qed.

Lemma queue_inv_withdrawn cfg items err ok bc :
  sending bc = Some items -> queue_inv cfg [] bc ->
  queue_inv cfg [] (on_withdrawn items err ok bc).1.
Proof.
  intros Hs H. unfold on_withdrawn.
  assert (queue_inv cfg items (set_queue (due bc) (alone bc) None bc)) as Hq.
  { apply (queue_inv_perm _ [] items bc); try done. unfold outstanding. rewrite Hs. simpl.
    solve_Permutation. }
  set (r := match err with Some _ => _ | None => _ end).
  assert (queue_inv cfg [] r.1) as Hr.
  { subst r. destruct err as [e|]; [|by apply queue_inv_settle].
    destruct items as [|it [|it2 items]]; simpl; [|by apply queue_inv_failed|];
      (eapply queue_inv_perm; [exact Hq|done..|]); unfold outstanding; simpl; solve_Permutation. }
  destruct r as [bc1 e1]. simpl in Hr. apply queue_inv_send in Hr.
  by destruct (sendWithdrawals bc1).
Qed.

(** *** Sending *)

Lemma sent_inv_same bc bc' :
  sent_inv bc -> sending bc' = sending bc -> due bc' = due bc -> alone bc' = alone bc ->
  (ended bc' = false -> ended bc = false) -> sent_inv bc'.
Proof. intros [H1 H2] E1 E2 E3 E4. split; rewrite ?E1, ?E2, ?E3; auto. Qed.

Lemma sent_inv_response cfg lid res now ok bc :
  sent_inv bc -> sent_inv (on_response cfg lid res now ok bc).1.
Proof.
  intros H. unfold on_response. destruct (leases bc !! lid) as [p|]; [|done].
  destruct (heap bc !! p) as [ls|]; [|done]. destruct (ls_closed ls); [done|].
  destruct (r_closed res); [destruct ok; by apply (sent_inv_same bc)|].
  destruct (r_err res); [by apply (sent_inv_same bc)|].
  destruct (next_check _ _ _ _) as [period sched].
  destruct (_ && negb _); [|by apply (sent_inv_same bc)].
  apply sent_inv_send. simpl. apply (i_batch _ H).
Qed.

Lemma settle_frame items bc :
  sending (foldl settle bc items) = sending bc /\ leases (foldl settle bc items) = leases bc.
Proof.
  apply (foldl_keeps _ (fun b => sending b = sending bc /\ leases b = leases bc)); [|done].
  intros b it _ Hb. unfold settle. by destruct (heap b !! wi_state it).
Qed.

Lemma failed_frame it err ok bc :
  sending (withdrawFailed it err ok bc).1 = sending bc.
Proof.
  unfold withdrawFailed. destruct (heap bc !! wi_state it); [|done]. simpl.
  destruct (_ || _); [done|]. by destruct ok.
Qed.

Lemma sent_inv_withdrawn items err ok bc : sent_inv (on_withdrawn items err ok bc).1.
Proof.
  unfold on_withdrawn.
  set (r := match err with Some _ => _ | None => _ end).
  assert (sending r.1 = None) as Hr.
  { subst r. destruct err as [e|]; [|simpl; by rewrite (proj1 (settle_frame _ _))].
    destruct items as [|it [|it2 items]]; simpl; [done|by rewrite failed_frame|done]. }
  destruct r as [bc1 e1]. simpl in Hr.
  assert (sent_inv (sendWithdrawals bc1).1) by (apply sent_inv_send; congruence).
  by destruct (sendWithdrawals bc1).
Qed.

(** What every kind of step keeps. *)
#[export] Hint Resolve mon_inv_add mon_inv_remove mon_inv_timer mon_inv_response mon_inv_withdrawn
  queue_inv_remove queue_inv_withdrawn sent_inv_response sent_inv_withdrawn : provider.

(** ** Every reachable state *)

Section Reach.
Context {eapi : EscrowAPI} (cfg : BalanceCheckerConfig).

Record bc_inv (bc : balanceChecker) : Prop := {
  bi_mon : mon_inv (fun _ => False) bc;
  bi_queue : queue_inv cfg [] bc;
  bi_sent : sent_inv bc
}.

Lemma bc_inv_init : bc_inv bc_init.
Proof.
  split; split; simpl; try done.
  - intros p [x Hx]. by rewrite lookup_empty in Hx.
  - intros t [x Hx]. by rewrite lookup_empty in Hx.
  - no_elem.
  - constructor.
Qed.

Lemma bc_step_inv bc ev bc' e : bc_inv bc -> bc_step cfg bc ev = Some (bc', e) -> bc_inv bc'.
Proof.
  intros [Hm Hq Hs]. destruct ev as [lid isNew firstIn checkIn now|lid|t|i cv now ok|err ok| |i]; simpl.
  - intros [= <- <-]. split; [eauto with provider|apply queue_inv_add; [apply Hm|done]|].
    unfold on_add. destruct isNew; by apply (sent_inv_same bc).
  - intros [= <- <-]. split; [eauto with provider|eauto with provider|].
    unfold on_remove. destruct (leases bc !! lid); [|done]. by apply (sent_inv_same bc).
  - destruct (timers bc !! t) as [[c z]|] eqn:Ht; [|done]. intros [= <- <-].
    split; [eauto with provider|by apply (queue_inv_perm _ [] [] bc)|by apply (sent_inv_same bc)].
  - destruct (bc_checks bc !! i) as [[lid b]|] eqn:Hi; [|done]. intros [= Hr].
    eapply mon_inv_taken in Hm as Hm'; [|done].
    set (bc1 := set_checks _ bc) in *. set (res := doEscrowCheck _ _ _ _) in *.
    replace bc' with (on_response cfg lid res now ok bc1).1 by (by rewrite Hr).
    split; [eauto with provider|apply queue_inv_response|apply sent_inv_response].
    + apply Hm.
    + by apply (queue_inv_perm _ [] [] bc).
    + by apply (sent_inv_same bc).
  - destruct (sending bc) as [items|] eqn:Hi; [|done]. intros [= Hr].
    replace bc' with (on_withdrawn items err ok bc).1 by (by rewrite Hr).
    split; [eauto with provider|eauto with provider|eauto with provider].
  - intros [= <- <-]. split.
    + destruct Hm as [H1 H2 H3 H4 H5 H6 H7]. by split.
    + by apply (queue_inv_perm _ [] [] bc).
    + by apply (sent_inv_same bc).
  - destruct (ended bc) eqn:He; [|done]. intros [= <- <-]. split.
    + destruct Hm as [H1 H2 H3 H4 H5 H6 H7]. split; try done. simpl. congruence.
    + by apply (queue_inv_perm _ [] [] bc).
    + apply (sent_inv_same bc); try done.
Qed.

Lemma bc_loop_inv evs bc effs : bc_loop cfg evs bc effs -> bc_inv bc.
Proof. induction 1; [apply bc_inv_init|by eapply bc_step_inv]. Qed.

End Reach.

(** ** Reports of closed leases *)

Definition closed_ptrs (effs : list bc_effect) : list nat :=
  omap (fun e => match e with BClosed _ _ p => Some p | _ => None end) effs.

Definition is_closed (bc : balanceChecker) (p : nat) : Prop :=
  exists ls, heap bc !! p = Some ls /\ ls_closed ls = true.

(** A step never reopens a monitor, and reports only one it closes. *)
Record closing (bc bc' : balanceChecker) (e : list bc_effect) : Prop := {
  cl_keeps : forall p, is_closed bc p -> is_closed bc' p;
  cl_once : NoDup (closed_ptrs e);
  cl_new : forall p, p ∈ closed_ptrs e -> is_closed bc' p /\ ~ is_closed bc p
}.

Lemma closing_quiet bc bc' e :
  closed_ptrs e = [] -> (forall p, is_closed bc p -> is_closed bc' p) -> closing bc bc' e.
Proof.
  intros He Hc. split; rewrite ?He; [done|constructor|]. no_elem.
Qed.

Lemma closing_set_heap bc bc' p ls ls' :
  heap bc !! p = Some ls -> heap bc' = <[p := ls']> (heap bc) ->
  (ls_closed ls = true -> ls_closed ls' = true) -> closing bc bc' [].
Proof.
  intros Hp Hh Hc. apply closing_quiet; [done|]. intros q (ls1 & Hq & Hq1). unfold is_closed. rewrite Hh.
  destruct (decide (p = q)) as [->|Hne].
  - exists ls'. rewrite lookup_insert_eq. split; [done|]. apply Hc. congruence.
  - exists ls1. by rewrite lookup_insert_ne.
Qed.

Lemma closing_reports bc p ls lid reason :
  heap bc !! p = Some ls -> ls_closed ls = false ->
  forall ls', ls_closed ls' = true -> closing bc (set_heap p ls' bc) [BClosed lid reason p].
Proof.
  intros Hp Hc ls' Hc'.
  assert (closing bc (set_heap p ls' bc) []) as [H _ _] by (by eapply closing_set_heap).
  split; [done|apply NoDup_singleton|]. intros q ->%list_elem_of_singleton. split.
  - exists ls'. simpl. by rewrite lookup_insert_eq.
  - intros (ls1 & Hq & Hq1). congruence.
Qed.

Lemma closing_send bc bc' e :
  closing bc bc' e -> closing bc (sendWithdrawals bc').1 (e ++ (sendWithdrawals bc').2).
Proof.
  intros [H1 H2 H3]. destruct (sendWithdrawals_form bc') as (d & a & s & Hf).
  assert (closed_ptrs (e ++ (sendWithdrawals bc').2) = closed_ptrs e) as He.
  { unfold closed_ptrs. rewrite omap_app. unfold sendWithdrawals.
    destruct (sending bc'); [by rewrite app_nil_r|]. destruct (ended bc'); [by rewrite app_nil_r|].
    destruct (wq_next _ _ _) as [[[|it b] ?] ?]; by rewrite app_nil_r. }
  rewrite Hf. split; rewrite ?He; auto.
Qed.

Lemma closing_response cfg lid res now ok bc :
  closing bc (on_response cfg lid res now ok bc).1 (on_response cfg lid res now ok bc).2.
Proof.
  unfold on_response. destruct (leases bc !! lid) as [p|]; [|by apply closing_quiet].
  destruct (heap bc !! p) as [ls|] eqn:Hp; [|by apply closing_quiet].
  destruct (ls_closed ls) eqn:Hc; [by apply closing_quiet|].
  assert (forall ls' b z, closing bc (arm p ls' (lid, b) z bc) []) as Harm.
  { intros ls' b z. eapply closing_set_heap; [done|reflexivity|congruence]. }
  destruct (r_closed res) as [reason|].
  { destruct ok; [|apply Harm]. by eapply closing_reports. }
  destruct (r_err res); [apply Harm|]. destruct (next_check _ _ _ _) as [period sched].
  destruct (_ && negb _); [|apply Harm]. apply (closing_send bc _ []).
  eapply closing_set_heap; [done|reflexivity|congruence].
Qed.

Lemma closing_failed it err ok bc :
  closing bc (withdrawFailed it err ok bc).1 (withdrawFailed it err ok bc).2.
Proof.
  unfold withdrawFailed. destruct (heap bc !! wi_state it) as [ls|] eqn:Hp; [|by apply closing_quiet].
  simpl. destruct (_ || _) eqn:Hb; simpl.
  - eapply closing_set_heap; [done|reflexivity|]. by destruct (_ && _).
  - apply orb_false_iff in Hb as [[_ Hc]%orb_false_iff _].
    destruct ok; simpl; [by eapply closing_reports|by eapply closing_set_heap].
Qed.

Lemma settle_closed items bc p : is_closed bc p -> is_closed (foldl settle bc items) p.
Proof.
  intros H. apply (foldl_keeps _ (fun b => is_closed b p)); [|done].
  intros b it _ Hb. unfold settle. destruct (heap b !! wi_state it) as [ls|] eqn:Hp; [|done].
  eapply (cl_keeps _ _ []); [|done]. by eapply closing_set_heap.
Qed.

Lemma closing_withdrawn items err ok bc :
  closing bc (on_withdrawn items err ok bc).1 (on_withdrawn items err ok bc).2.
Proof.
  unfold on_withdrawn. set (bc0 := set_queue _ _ None bc).
  set (r := match err with Some _ => _ | None => _ end).
  assert (closing bc r.1 r.2) as Hr.
  { subst r. destruct err as [e|]; [|apply closing_quiet; [done|]; intros p; apply (settle_closed _ bc0)].
    destruct items as [|it [|it2 items]]; simpl; [by apply closing_quiet| |by apply closing_quiet].
    destruct (closing_failed it e ok bc0) as [H1 H2 H3]. by split. }
  destruct r as [bc1 e1]. apply closing_send in Hr. simpl in *. by destruct (sendWithdrawals bc1).
Qed.

Section Reports.
Context {eapi : EscrowAPI} (cfg : BalanceCheckerConfig).

Lemma closing_step bc ev bc' e :
  bc_inv cfg bc -> bc_step cfg bc ev = Some (bc', e) -> closing bc bc' e.
Proof.
  intros [Hm _ _]. destruct ev as [lid isNew firstIn checkIn now|lid|t|i cv now ok|err ok| |i]; simpl.
  - intros [= <- <-]. apply closing_quiet; [done|]. intros p (ls & Hp & Hc). exists ls. split; [|done].
    assert (next_ptr bc <> p) by (pose proof (i_heap _ _ Hm p (ex_intro _ _ Hp)); lia).
    unfold on_add. destruct isNew; simpl; by rewrite ?lookup_insert_ne by done.
  - intros [= <- <-]. apply closing_quiet; [done|]. intros p. unfold on_remove.
    by destruct (leases bc !! lid).
  - destruct (timers bc !! t) as [[c z]|]; [|done]. intros [= <- <-]. by apply closing_quiet.
  - destruct (bc_checks bc !! i) as [[lid b]|]; [|done]. intros [= Hr].
    set (bc1 := set_checks _ bc) in *.
    pose proof (closing_response cfg lid (doEscrowCheck cfg lid b cv) now ok bc1) as H.
    rewrite Hr in H. destruct H as [H1 H2 H3]. by split.
  - destruct (sending bc) as [items|]; [|done]. intros [= Hr].
    pose proof (closing_withdrawn items err ok bc) as H. by rewrite Hr in H.
  - intros [= <- <-]. by apply closing_quiet.
  - destruct (ended bc); [|done]. intros [= <- <-]. by apply closing_quiet.
Qed.

Lemma reports_inv evs bc effs :
  bc_loop cfg evs bc effs ->
  NoDup (closed_ptrs effs) /\ forall p, p ∈ closed_ptrs effs -> is_closed bc p.
Proof.
  induction 1 as [|evs bc effs ev bc' e Hl [IH1 IH2] Hs].
  - split; [constructor|]. no_elem.
  - apply bc_loop_inv in Hl. apply closing_step in Hs as [H1 H2 H3]; [|done].
    unfold closed_ptrs. rewrite omap_app. fold (closed_ptrs effs) (closed_ptrs e).
    rewrite list.NoDup_app. split_and!; auto.
    + intros p Hp He. apply H3 in He as [_ He]. by apply He, IH2.
    + intros p [Hp|Hp]%elem_of_app; [by apply H1, IH2|by apply H3].
Qed.

(** What a step sends. *)
Lemma send_effect bc items sim :
  BWithdraw items sim ∈ (sendWithdrawals bc).2 ->
  sending bc = None /\ ended bc = false /\ sending (sendWithdrawals bc).1 = Some items /\
  sim = (1 <? length items)%nat /\
  forall it, it ∈ items -> wi_keep (sendWithdrawals bc).1 it = true.
Proof.
  unfold sendWithdrawals. destruct (sending bc) eqn:Hs; [by intros ?%not_elem_of_nil|].
  destruct (ended bc) eqn:He; [by intros ?%not_elem_of_nil|].
  destruct (wq_next _ _ _) as [[[|it b] a] d] eqn:Hn; simpl; [by intros ?%not_elem_of_nil|].
  apply wq_next_spec in Hn as (_ & _ & _ & Hk & _ & _).
  intros Hin%list_elem_of_singleton. simplify_eq. by split_and!.
Qed.

Lemma step_withdraw bc ev bc' e items sim :
  bc_step cfg bc ev = Some (bc', e) -> BWithdraw items sim ∈ e ->
  (sending bc = None \/ exists err ok, ev = BWithdrawn err ok) /\
  exists bc1, bc' = (sendWithdrawals bc1).1 /\ BWithdraw items sim ∈ (sendWithdrawals bc1).2.
Proof.
  destruct ev as [lid isNew firstIn checkIn now|lid|t|i cv now ok|err ok| |i]; simpl;
    [by intros [= <- <-] ?%not_elem_of_nil..| | | | |].
  - destruct (timers bc !! t) as [[c z]|]; [|done]. by intros [= <- <-] ?%not_elem_of_nil.
  - destruct (bc_checks bc !! i) as [[lid b]|]; [|done]. unfold on_response. simpl.
    destruct (leases bc !! lid) as [p|]; [|by intros [= <- <-] ?%not_elem_of_nil].
    destruct (heap bc !! p) as [ls|]; [|by intros [= <- <-] ?%not_elem_of_nil].
    destruct (ls_closed ls); [by intros [= <- <-] ?%not_elem_of_nil|].
    destruct (r_closed _).
    { destruct ok; intros [= <- <-] Hin; [by apply list_elem_of_singleton in Hin|].
      by apply not_elem_of_nil in Hin. }
    destruct (r_err _); [by intros [= <- <-] ?%not_elem_of_nil|].
    destruct (next_check _ _ _ _) as [period sched].
    destruct (_ && negb _); [|by intros [= <- <-] ?%not_elem_of_nil].
    intros [= Hs] Hin. set (bc1 := set_queue _ _ _ _) in Hs.
    assert (BWithdraw items sim ∈ (sendWithdrawals bc1).2) as Hin' by (by rewrite Hs).
    split; [left; by apply send_effect in Hin' as (? & _)|]. exists bc1. by rewrite Hs.
  - destruct (sending bc) as [its|]; [|done]. intros [= Hw] Hin. split; [by right; eauto|].
    unfold on_withdrawn in Hw. set (r := match err with Some _ => _ | None => _ end) in Hw.
    assert (BWithdraw items sim ∉ r.2) as Hr.
    { subst r. destruct err as [er|]; [|by intros ?%not_elem_of_nil].
      destruct its as [|it [|it2 its]]; simpl; [by intros ?%not_elem_of_nil| |by intros ?%not_elem_of_nil].
      unfold withdrawFailed. destruct (heap _ !! _); [|by intros ?%not_elem_of_nil]. simpl.
      destruct (_ || _); [by intros ?%not_elem_of_nil|].
      destruct ok; [by intros ?%list_elem_of_singleton|by intros ?%not_elem_of_nil]. }
    destruct r as [bc1 e1]. exists bc1. destruct (sendWithdrawals bc1) as [bc2 e2]. simpl in *.
    injection Hw as <- <-. split; [done|]. by apply elem_of_app in Hin as [?|?].
  - by intros [= <- <-] ?%not_elem_of_nil.
  - destruct (ended bc); [|done]. by intros [= <- <-] ?%not_elem_of_nil.
Qed.

End Reports.

(** ** Properties *)

(** Withdrawal transactions go out one at a time: one is sent only when none
    is in flight, for between one and [maxWithdrawBatch] monitors, all different,
    each the current monitor of a lease not reported closed, and only when
    withdrawals are on; the gas is simulated for more than one lease. *)
Theorem withdrawals_one_at_a_time {eapi : EscrowAPI} (cfg : BalanceCheckerConfig)
    (evs : list bc_event) (bc bc' : balanceChecker) (effs e : list bc_effect) (ev : bc_event)
    (items : list withdrawItem) (simulate : bool) :
  bc_loop cfg evs bc effs -> bc_step cfg bc ev = Some (bc', e) -> BWithdraw items simulate ∈ e ->
  (sending bc = None \/ exists err ok, ev = BWithdrawn err ok) /\
  sending bc' = Some items /\ (1 <= length items <= maxWithdrawBatch)%nat /\
  NoDup (wi_state <$> items) /\ (forall it, it ∈ items -> wi_keep bc' it = true) /\
  (0 < WithdrawalPeriod cfg)%Z /\ simulate = (1 <? length items)%nat.
Proof.
  intros Hl Hs Hin. assert (bc_inv cfg bc') as [_ Hq Hsent]
    by (eapply bc_step_inv; [by eapply bc_loop_inv|done]).
  destruct (step_withdraw cfg _ _ _ _ _ _ Hs Hin) as (H1 & bc1 & -> & Hin1).
  apply send_effect in Hin1 as (_ & _ & Hse & Hsim & Hk).
  assert (exists pre, outstanding (sendWithdrawals bc1).1 = pre ++ items) as [pre Hout].
  { unfold outstanding. rewrite Hse. rewrite app_assoc. eexists. reflexivity. }
  destruct (i_batch _ Hsent _ Hse). split_and!; try done.
  - pose proof (i_nodup _ _ _ Hq) as Hn. rewrite Hout in Hn. simpl in Hn.
    rewrite fmap_app, list.NoDup_app in Hn. apply Hn.
  - destruct (Z_lt_le_dec 0 (WithdrawalPeriod cfg)) as [|Hoff]; [done|].
    apply (i_off _ _ _ Hq) in Hoff. rewrite Hout in Hoff. simpl in Hoff.
    apply app_eq_nil in Hoff as [_ ->]. simpl in *. lia.
Qed.

(** C12: no withdrawal is lost or doubled: as long as the checker runs, a lease not
    reported closed is marked as withdrawing exactly when one withdrawal of its
    monitor is queued or in flight, and nothing waits in the queue while no
    transaction is in flight. *)
Theorem withdrawals_not_lost {eapi : EscrowAPI} (cfg : BalanceCheckerConfig)
    (evs : list bc_event) (bc : balanceChecker) (effs : list bc_effect) :
  bc_loop cfg evs bc effs ->
  (forall lid p ls, leases bc !! lid = Some p -> heap bc !! p = Some ls -> ls_closed ls = false ->
     (withdrawing ls = true <-> mkItem lid p ∈ outstanding bc)) /\
  NoDup (wi_state <$> outstanding bc) /\
  (ended bc = false -> sending bc = None -> outstanding bc = []).
Proof.
  intros [_ [H1 H2 H3 _] [H4 _]]%bc_loop_inv. simpl in *. split_and!; [|done|].
  - intros lid p ls Hl Hp Hc. split; [by eapply H3|]. intros Hin.
    destruct (H1 _ Hin) as (ls1 & Hp1 & Hw). simpl in Hp1. congruence.
  - intros He Hs. unfold outstanding. rewrite Hs. by destruct (H4 Hs He) as [-> ->].
Qed.

(** No lease is forgotten: as long as the checker runs, every lease it
    monitors and has not reported closed has a funds check scheduled or under
    way. *)
Theorem lease_stays_watched {eapi : EscrowAPI} (cfg : BalanceCheckerConfig)
    (evs : list bc_event) (bc : balanceChecker) (effs : list bc_effect) (lid : LeaseID) (p : nat)
    (ls : leaseState) :
  bc_loop cfg evs bc effs -> ended bc = false ->
  leases bc !! lid = Some p -> heap bc !! p = Some ls -> ls_closed ls = false ->
  watched bc lid.
Proof. intros [Hm _ _]%bc_loop_inv He Hl Hp Hc. apply (i_watched _ _ Hm lid p ls); auto. Qed.

(** A monitor reports its lease closed at most once, and once it has, nothing
    that happens makes the checker withdraw from the lease for that monitor or
    report it again. *)
Theorem closed_reported_once {eapi : EscrowAPI} (cfg : BalanceCheckerConfig)
    (evs : list bc_event) (bc bc' : balanceChecker) (effs e : list bc_effect) (ev : bc_event) :
  bc_loop cfg evs bc effs -> bc_step cfg bc ev = Some (bc', e) ->
  NoDup (closed_ptrs effs) /\
  forall p, p ∈ closed_ptrs effs ->
    (p ∉ closed_ptrs e) /\
    forall items simulate it, BWithdraw items simulate ∈ e -> it ∈ items -> wi_state it <> p.
Proof.
  intros Hl Hs. destruct (reports_inv cfg _ _ _ Hl) as [Hn Hc]. split; [done|].
  intros p Hp%Hc. apply bc_loop_inv in Hl.
  destruct (closing_step cfg _ _ _ _ Hl Hs) as [H1 H2 H3]. split.
  - intros Hin. by apply H3 in Hin as [_ ?].
  - intros items sim it Hin Hit Heq.
    destruct (step_withdraw cfg _ _ _ _ _ _ Hs Hin) as (_ & bc1 & -> & Hin1).
    apply send_effect in Hin1 as (_ & _ & _ & _ & Hk). specialize (Hk it Hit).
    destruct (H1 p Hp) as (ls & Hls & Hcl). unfold wi_keep in Hk. rewrite Heq, Hls, Hcl in Hk.
    by rewrite andb_false_r in Hk.
Qed.

(** The wait for the next check. *)
Lemma check_balance_spec {eapi : EscrowAPI} cfg blocks st :
  (0 < AverageBlockTime)%Z -> (0 <= LeaseFundsCheckInterval cfg < 2 ^ 63)%Z ->
  st <> respStateOutOfFunds ->
  let r := check_balance cfg blocks st in
  r_closed r = None /\ r_err r = None /\ (0 <= r_checkAfter r <= LeaseFundsCheckInterval cfg)%Z /\
  (r_state r = respStateOutOfFunds <-> (blocks <= 0)%Z).
Proof.
  intros Hb Hi Hst. unfold check_balance. destruct (Z.leb_spec blocks 0); simpl.
  { split_and!; try done; lia. }
  set (q := Z.quot _ _).
  assert (0 <= q /\ q * AverageBlockTime <= LeaseFundsCheckInterval cfg)%Z as [Hq1 Hq2].
  { subst q. rewrite Z.quot_div_nonneg by lia. split; [apply Z.div_pos; lia|].
    rewrite Z.mul_comm. apply Z.mul_div_le. lia. }
  set (n := if (blocks >? q)%Z then q else blocks).
  assert (0 <= n <= q)%Z as Hn by (subst n; destruct (Z.gtb_spec blocks q); lia).
  assert (0 <= n * AverageBlockTime <= LeaseFundsCheckInterval cfg)%Z by nia.
  rewrite to_int64_id by (unfold is_int64; lia). split_and!; try done; try lia.
  split; [done|lia].
Qed.

(** A lease or an escrow that never pays again. *)
Definition dead (cv : chain_view) : Prop :=
  exists id lst reason pay, cv_lease cv = Some (id, lst, reason, pay) /\
    (lst = LSClosed \/ lst = LSInsufficientFunds \/
     ((lst = LSActive \/ lst = LSReclaiming) /\
      (pay = ESClosed \/ pay = ESOverdrawn \/
       exists acc settled funds, cv_account cv = Some (acc, settled, funds) /\
         (acc = ESClosed \/ acc = ESOverdrawn)))).

(** The cases of a check that ends in an error, and in a closed lease. *)
Ltac refused := simpl; split; [split; [intros [? [=]]|naive_solver]|done].
Ltac reported :=
  simpl; split; [split; [intros _; eexists _, _, _, _; split; [reflexivity|naive_solver]|
                         intros _; by eexists]|done].

(** A funds check reports a lease closed exactly when a node in sync answers
    for that lease that it, its payment or its escrow account is closed or
    overdrawn; a check with neither an error nor a closed lease asks for the next
    one after at most the check interval, and the lease counts as out of funds
    exactly when no block can be paid any more. *)
Theorem escrow_check_reports {eapi : EscrowAPI} (cfg : BalanceCheckerConfig) (lid : LeaseID)
    (scheduled : bool) (cv : chain_view) :
  (0 < AverageBlockTime)%Z -> (0 <= LeaseFundsCheckInterval cfg < 2 ^ 63)%Z ->
  let r := doEscrowCheck cfg lid scheduled cv in
  (is_Some (r_closed r) <->
     (exists h, cv_sync cv = Some (false, h)) /\
     (exists lst reason pay, cv_lease cv = Some (lid, lst, reason, pay)) /\ dead cv) /\
  (r_closed r = None -> r_err r = None ->
     (0 <= r_checkAfter r <= LeaseFundsCheckInterval cfg)%Z /\
     exists h acc settled funds active reclaiming,
       cv_sync cv = Some (false, h) /\ cv_account cv = Some (acc, settled, funds) /\
       cv_active cv = Some active /\ cv_reclaiming cv = Some reclaiming /\
       let total := sumZ (fun price => price) (active ++ reclaiming) in
       (r_state r = respStateOutOfFunds <->
        LeaseCalcBlocksRemain (LeaseCalcBalanceRemain (first_fund funds) h settled total) total <= 0)%Z).
Proof.
  intros Hb Hi. cbn zeta. unfold doEscrowCheck, dead.
  set (st := if scheduled then _ else _).
  assert (st <> respStateOutOfFunds) as Hst by (subst st; by destruct scheduled).
  destruct (cv_sync cv) as [[[] h]|]; [refused|simpl|refused].
  destruct (cv_lease cv) as [[[[id lst] reason] pay]|]; [simpl|refused].
  case_bool_decide as Hid; simpl; [subst id|refused].
  assert (forall r, (exists h0, Some (false, h) = Some (false, h0)) /\
    (exists l1 r1 p1, Some (lid, lst, reason, pay) = Some (lid, l1, r1, p1)) /\ r <-> r) as Hyes by naive_solver.
  rewrite Hyes. clear Hyes. destruct lst; [|  |reported|reported|refused].
  all: destruct pay; [|reported|reported|].
  all: (destruct (cv_account cv) as [[[acc settled] funds]|]; [|refused]).
  all: destruct acc; [|reported|reported|].
  all: destruct (cv_active cv) as [active|]; [|refused].
  all: destruct (cv_reclaiming cv) as [reclaiming|]; [|refused].
  all: set (blocks := LeaseCalcBlocksRemain _ _);
    destruct (check_balance_spec cfg blocks st Hb Hi Hst) as (H1 & H2 & H3 & H4); split;
    [rewrite H1; split; [by intros []|naive_solver]|].
  all: intros _ _; split; [done|]; exists h; naive_solver.
Qed.

(** ** Examples *)

Module BalanceExamples.

#[global] Instance ex_escrow : EscrowAPI :=
  {| LeaseCalcBalanceRemain b h s t := (default 0 b - (h - s) * t)%Z;
     LeaseCalcBlocksRemain b t := (b / t)%Z; AverageBlockTime := 6000000000; DenomUact := "uact" |}.

(** Withdrawals every hour, checks every ten minutes. *)
Definition ex_cfg : BalanceCheckerConfig := mkBalanceCfg 3600000000000 600000000000.
Definition ex_lease : LeaseID := mkLeaseID "akash1" 1 1 1 "p".

(** The balance is spent; the payment is closed. *)
Definition ex_spent : chain_view :=
  mkChainView (Some (false, 100%Z)) (Some (ex_lease, LSActive, ReasonUnspecified, ESOpen))
    (Some (ESOpen, 0%Z, [("uact", 50%Z)])) (Some [1%Z]) (Some []).
Definition ex_dead : chain_view :=
  mkChainView (Some (false, 100%Z)) (Some (ex_lease, LSActive, ReasonUnspecified, ESClosed))
    None None None.

(** A new lease, out of funds at its first check: a withdrawal goes out. *)
Definition ex_add : list bc_event := [BAdd ex_lease true 0 0 0].
Definition ex_added : balanceChecker :=
  mkBC {[ 0%nat := mkLS None (Some 3600000000000%Z) false false false ]} 1 {[ ex_lease := 0%nat ]}
    ∅ 0 [(ex_lease, false)] [] [] None false.
Definition ex_out : balanceChecker * list bc_effect :=
  default (ex_added, []) (bc_step ex_cfg ex_added (BCheck 0 ex_spent 5 true)).

Lemma ex_loop_add : bc_loop ex_cfg ex_add ex_added [].
Proof.
  pose proof (bc_start ex_cfg) as H.
  apply (bc_more _ _ _ _ (BAdd ex_lease true 0 0 0)) with (2 := eq_refl) in H. exact H.
Defined.

Lemma ex_step_out : bc_step ex_cfg ex_added (BCheck 0 ex_spent 5 true) = Some (ex_out.1, ex_out.2).
Proof. vm_compute. reflexivity. Defined.

Lemma ex_loop_out : bc_loop ex_cfg [BAdd ex_lease true 0 0 0; BCheck 0 ex_spent 5 true] ex_out.1 ex_out.2.
Proof. exact (bc_more _ _ _ _ _ _ _ ex_loop_add ex_step_out). Defined.

Lemma withdrawals_one_at_a_time_witness : sending ex_out.1 = Some [mkItem ex_lease 0].
Proof.
  apply (withdrawals_one_at_a_time ex_cfg ex_add ex_added ex_out.1 [] ex_out.2
    (BCheck 0 ex_spent 5 true) [mkItem ex_lease 0] false ex_loop_add ex_step_out).
  vm_compute. left.
Defined.

Lemma withdrawals_not_lost_witness : mkItem ex_lease 0 ∈ outstanding ex_out.1.
Proof.
  destruct (withdrawals_not_lost ex_cfg _ _ _ ex_loop_out) as [H _].
  apply (H ex_lease 0%nat (mkLS (Some 0%nat) (Some 3600000000005%Z) false true false));
    vm_compute; reflexivity.
Defined.

Lemma lease_stays_watched_witness : watched ex_out.1 ex_lease.
Proof.
  apply (lease_stays_watched ex_cfg _ _ _ ex_lease 0
    (mkLS (Some 0%nat) (Some 3600000000005%Z) false true false) ex_loop_out);
    vm_compute; reflexivity.
Defined.

(** The lease is found closed, and then looked at again. *)
Definition ex_closed : balanceChecker * list bc_effect :=
  default (ex_added, []) (bc_step ex_cfg ex_added (BCheck 0 ex_dead 5 true)).

Lemma ex_loop_closed :
  bc_loop ex_cfg [BAdd ex_lease true 0 0 0; BCheck 0 ex_dead 5 true] ex_closed.1 ex_closed.2.
Proof.
  apply (bc_more _ _ _ _ (BCheck 0 ex_dead 5 true) ex_closed.1 ex_closed.2 ex_loop_add).
  vm_compute. reflexivity.
Defined.

Lemma closed_reported_once_witness :
  0%nat ∈ closed_ptrs ex_closed.2 /\ NoDup (closed_ptrs ex_closed.2).
Proof.
  split; [vm_compute; left|].
  apply (closed_reported_once ex_cfg _ ex_closed.1 _ ex_closed.2 [] BContext ex_loop_closed eq_refl).
Defined.

Lemma escrow_check_reports_witness : is_Some (r_closed (doEscrowCheck ex_cfg ex_lease false ex_dead)).
Proof.
  apply (escrow_check_reports ex_cfg ex_lease false ex_dead); [reflexivity|simpl; lia|].
  split_and!; [by eexists|by eexists _, _, _|].
  eexists _, _, _, _. split; [reflexivity|]. right. right. split; by left.
Defined.

(** A lease removed while its first check is under way and monitored again is
    checked twice at a time from then on: the old check's result arms a timer for
    the new monitor, whose own check arms another and leaves the first running. *)
Definition ex_funded : chain_view :=
  mkChainView (Some (false, 100%Z)) (Some (ex_lease, LSActive, ReasonUnspecified, ESOpen))
    (Some (ESOpen, 0%Z, [("uact", 100000%Z)])) (Some [1%Z]) (Some []).

Definition ex_readded : list bc_event :=
  [BAdd ex_lease true 0 0 0; BRemove ex_lease; BAdd ex_lease true 0 0 1;
   BCheck 0 ex_funded 2 true; BCheck 0 ex_funded 3 true].

Fixpoint bc_run (bc : balanceChecker) (evs : list bc_event) : option balanceChecker :=
  match evs with
  | [] => Some bc
  | ev :: rest =>
      match bc_step ex_cfg bc ev with
      | Some (bc', _) => bc_run bc' rest
      | None => None
      end
  end.

Example readded_lease_checked_twice :
  (fun bc => (size (leases bc), size (timers bc))) <$> bc_run bc_init ex_readded = Some (1, 2)%nat.
Proof. vm_compute. reflexivity. Qed.

End BalanceExamples.
