(* ===== verification/IgnoreList.v ===== *)
(** * The operators' ignore list and prepared results

    Model of [operator/common/ignore_list.go], the leases an operator has failed
    on and gives up for a while, and of [operator/common/prepared_data.go], the
    reports an operator keeps ready to serve. *)

From stdpp Require Import base gmap list strings fin_maps fin_map_dom tactics.
From Stdlib Require Import ZArith Lia.
From S2P Require Import Prelude Types.

(** ** The ignore list *)

Record IgnoreListConfig := mkIgnoreListConfig {
  FailureLimit : Z;
  EntryLimit : Z;
  AgeLimit : Z
}.

(** Errors are opaque; [extra] is a set. *)
Record ignoreListEntry := mkEntry {
  failureCount : Z;
  failedAt : Z;
  lastError : string;
  extra : gset string
}.

Abbreviation entries_t := (gmap LeaseID ignoreListEntry).

(** The zero value of an entry. *)
Definition zeroEntry : ignoreListEntry := mkEntry 0 0 "" ∅.

Definition AddError (k : LeaseID) (failure : string) (ex : list string) (now : Z)
    (entries : entries_t) : entries_t :=
  let entry := default zeroEntry (entries !! k) in
  <[k := mkEntry (wrap64 (failureCount entry + 1)) now failure
           (foldl (fun s v => {[ v ]} ∪ s) (extra entry) ex)]> entries.

Definition IsFlagged (cfg : IgnoreListConfig) (k : LeaseID) (entries : entries_t) : bool :=
  match entries !! k with
  | None => false
  | Some entry => (failureCount entry >=? FailureLimit cfg)%Z
  end.

Definition Size (entries : entries_t) : nat := size entries.

Section Prune.
Context {gr : GoRange}.

(** The second selection: entries, in whatever order, until enough would go. *)
Fixpoint select_excess (limit : Z) (n : nat) (toDelete : list LeaseID)
    (rest : list (LeaseID * ignoreListEntry)) : list LeaseID :=
  match rest with
  | [] => toDelete
  | (k, _) :: rest' =>
      if (Z.of_nat n - Z.of_nat (length toDelete) <=? limit)%Z then toDelete
      else select_excess limit n (toDelete ++ [k]) rest'
  end.

Definition delete_keys (ks : list LeaseID) (entries : entries_t) : entries_t :=
  foldl (fun m k => delete k m) entries ks.

Definition too_old (cfg : IgnoreListConfig) (now : Z) (entry : ignoreListEntry) : bool :=
  (now - failedAt entry >? AgeLimit cfg)%Z.

Definition Prune (cfg : IgnoreListConfig) (now : Z) (entries : entries_t) : entries_t * bool :=
  let limit := to_int64 (EntryLimit cfg) in
  if (Z.of_nat (size entries) >? limit)%Z then
    let old := (filter (fun ke => too_old cfg now ke.2 = true) (range_map entries)).*1 in
    let young := delete_keys old entries in
    let excess := select_excess limit (size young) [] (range_map young) in
    (delete_keys excess young, negb (bool_decide (old = [])) || negb (bool_decide (excess = [])))
  else (entries, false).

End Prune.

(** ** Prepared results *)

Definition preparedResultByteSizeLimit : nat := Z.to_nat 8388608.

Record preparedResultData := mkPreparedData { preparedAt : Z; pr_bytes : list Z }.
Record preparedResult := mkPrepared { needsPrepare : bool; pr_data : preparedResultData }.

Definition Flag (pr : preparedResult) : preparedResult := mkPrepared true (pr_data pr).

Definition pr_Set (data : list Z) (now : Z) (pr : preparedResult) : preparedResult :=
  mkPrepared false (mkPreparedData now
    (if (preparedResultByteSizeLimit <? length data)%nat then take preparedResultByteSizeLimit data
     else data)).

(** A fresh result holds nothing; setting the empty value unflags it. *)
Definition newPreparedResult (now : Z) : preparedResult :=
  pr_Set [] now (mkPrepared true (mkPreparedData 0 [])).

Inductive http_answer := NoContent | OK200 (lastModified : Z) (body : list Z).

Definition servePreparedResult (pr : preparedResult) : http_answer :=
  match pr_bytes (pr_data pr) with
  | [] => NoContent
  | bytes => OK200 (preparedAt (pr_data pr)) bytes
  end.

(** The prepared endpoints of an operator's server, by path. *)
Abbreviation results_t := (gmap string preparedResult).

(** [None] is the panic of a path registered twice. *)
Definition AddPreparedEndpoint (path : string) (now : Z) (results : results_t) : option results_t :=
  match results !! path with
  | Some _ => None
  | None => Some (<[path := newPreparedResult now]> results)
  end.

(** [PrepareAll] over the entries in some order: [prepare] is what an endpoint's
    function sets, or [None] for an error, which stops the loop. *)
Fixpoint prepare_all (prepare : string -> option (list Z)) (now : Z)
    (entries : list (string * preparedResult)) (results : results_t) : results_t * bool :=
  match entries with
  | [] => (results, true)
  | (path, pr) :: rest =>
      if needsPrepare pr then
        match prepare path with
        | None => (results, false)
        | Some data => prepare_all prepare now rest (<[path := pr_Set data now pr]> results)
        end
      else prepare_all prepare now rest results
  end.

Definition PrepareAll `{GoRange} (prepare : string -> option (list Z)) (now : Z)
    (results : results_t) : results_t * bool :=
  prepare_all prepare now (range_map results) results.

(** ** Facts *)

Lemma delete_keys_lookup ks entries k :
  delete_keys ks entries !! k = if decide (k ∈ ks) then None else entries !! k.
Proof.
  unfold delete_keys. revert entries. induction ks as [|k' ks IH]; intros entries; cbn [foldl].
  - rewrite decide_False; [done|apply not_elem_of_nil].
  - rewrite IH. destruct (decide (k ∈ ks)) as [Hk|Hk].
    + rewrite decide_True; [done|by right].
    + destruct (decide (k' = k)) as [->|Hne].
      * rewrite lookup_delete_eq, decide_True; [done|left].
      * rewrite lookup_delete_ne by done. rewrite decide_False; [done|].
        intros [?|?]%elem_of_cons; congruence.
Qed.

Lemma delete_keys_size ks entries :
  NoDup ks -> (forall k, k ∈ ks -> is_Some (entries !! k)) ->
  size (delete_keys ks entries) = (size entries - length ks)%nat.
Proof.
  unfold delete_keys. revert entries. induction ks as [|k ks IH]; intros entries Hn Hk; simpl; [lia|].
  apply list.NoDup_cons in Hn as [Hnk Hn]. rewrite IH; [|done|].
  - rewrite map_size_delete. destruct (Hk k ltac:(left)) as [x ->]. simpl. lia.
  - intros k' Hk'. rewrite lookup_delete_ne by (intros ->; done). apply Hk. by right.
Qed.

(** The selection stops as soon as enough is selected. *)
Lemma select_excess_spec limit n td (rest : list (LeaseID * ignoreListEntry)) :
  (0 <= limit)%Z -> (length td <= n)%nat -> (n <= length td + length rest)%nat ->
  exists ks, select_excess limit n td rest = td ++ ks /\ ks `prefix_of` rest.*1 /\
    length (td ++ ks) = Nat.max (length td) (n - Z.to_nat limit)%nat.
Proof.
  intros Hl. revert td. induction rest as [|[k e] rest IH]; intros td Ht Hn; simpl in *.
  - exists []. rewrite app_nil_r. split_and!; [done|apply prefix_nil|lia].
  - destruct (Z.leb_spec (Z.of_nat n - Z.of_nat (length td)) limit).
    + exists []. rewrite app_nil_r. split_and!; [done|apply prefix_nil|lia].
    + destruct (IH (td ++ [k])) as (ks & -> & Hp & Hlen);
        [rewrite length_app; simpl; lia|rewrite length_app; simpl; lia|].
      exists (k :: ks). rewrite <- app_assoc in *. simpl in *.
      split_and!; [done|by apply prefix_cons|]. rewrite Hlen, length_app. simpl. lia.
Qed.

Lemma prepare_all_lookup prepare now entries results path :
  NoDup entries.*1 ->
  let r := prepare_all prepare now entries results in
  (path ∉ entries.*1 -> r.1 !! path = results !! path) /\
  (r.2 = true -> forall pr, (path, pr) ∈ entries -> needsPrepare pr = true ->
     exists data, prepare path = Some data /\ r.1 !! path = Some (pr_Set data now pr)) /\
  (forall pr, (path, pr) ∈ entries -> results !! path = Some pr ->
     needsPrepare pr = false -> r.1 !! path = Some pr).
Proof.
  revert results. induction entries as [|[k e] rest IH]; intros results Hn.
  { simpl. split_and!; [done|..]; intros; by exfalso; eapply not_elem_of_nil. }
  rewrite fmap_cons in Hn. apply list.NoDup_cons in Hn as [Hk Hn]. cbn zeta in *. simpl.
  assert (forall pr, (path, pr) ∈ (k, e) :: rest ->
    (path = k /\ pr = e) \/ (path <> k /\ (path, pr) ∈ rest)) as Hcase.
  { intros pr [[= -> ->]|Hin]%elem_of_cons; [by left|]. right. split; [|done].
    intros ->. apply Hk. by apply (list_elem_of_fmap_2 fst) in Hin. }
  destruct (needsPrepare e) eqn:He.
  - destruct (prepare k) as [data|] eqn:Hp.
    + destruct (IH (<[k := pr_Set data now e]> results) Hn) as (H1 & H2 & H3). split_and!.
      * intros Hnin. rewrite not_elem_of_cons in Hnin. destruct Hnin. rewrite H1 by done.
        by rewrite lookup_insert_ne.
      * intros Hr pr Hin Hpr. apply Hcase in Hin as [[-> ->]|[Hne Hin]]; [|by apply H2].
        exists data. split; [done|]. destruct (IH (<[k := pr_Set data now e]> results) Hn) as (H1' & _).
        rewrite H1' by done. by rewrite lookup_insert_eq.
      * intros pr Hin Hl Hpr. apply Hcase in Hin as [[-> ->]|[Hne Hin]]; [congruence|].
        apply H3; [done| |done]. by rewrite lookup_insert_ne by congruence.
    + simpl. split_and!; done.
  - destruct (IH results Hn) as (H1 & H2 & H3). split_and!.
    + intros Hnin. rewrite not_elem_of_cons in Hnin. apply H1, Hnin.
    + intros Hr pr Hin Hpr. apply Hcase in Hin as [[-> ->]|[Hne Hin]]; [congruence|by apply H2].
    + intros pr Hin Hl Hpr. apply Hcase in Hin as [[-> ->]|[Hne Hin]]; [|by apply H3].
      rewrite H1; done.
Qed.

(** The two rounds of pruning. *)
Section PruneFacts.
Context {gr : GoRange} (cfg : IgnoreListConfig) (now : Z).
Implicit Types entries : entries_t.

Definition old_keys entries : list LeaseID :=
  (filter (fun ke => too_old cfg now ke.2 = true) (range_map entries)).*1.
Definition young_entries entries : entries_t :=
  filter (fun ke => too_old cfg now ke.2 = false) entries.

Lemma old_keys_spec entries k :
  k ∈ old_keys entries <-> exists e, entries !! k = Some e /\ too_old cfg now e = true.
Proof.
  unfold old_keys. rewrite list_elem_of_fmap. setoid_rewrite list_elem_of_filter. split.
  - intros ([k' e] & -> & Ho & Hin%elem_of_range_map). eauto.
  - intros (e & Hl & Ho). exists (k, e). by rewrite elem_of_range_map.
Qed.

Lemma delete_old entries : delete_keys (old_keys entries) entries = young_entries entries.
Proof.
  apply map_eq. intros k. rewrite delete_keys_lookup. unfold young_entries. case_decide as Hk.
  - apply old_keys_spec in Hk as (e & Hl & Ho). symmetry. apply map_lookup_filter_None. right.
    intros e' He'. simplify_eq. simpl. congruence.
  - destruct (entries !! k) as [e|] eqn:Hl; symmetry.
    + apply map_lookup_filter_Some. split; [done|]. simpl.
      destruct (too_old cfg now e) eqn:Ho; [|done]. destruct Hk. apply old_keys_spec. eauto.
    + apply map_lookup_filter_None. by left.
Qed.

(** Deleting present keys shrinks the map, strictly unless there are none. *)
Lemma delete_keys_sub ks entries : delete_keys ks entries ⊆ entries.
Proof.
  apply map_subseteq_spec. intros k e. rewrite delete_keys_lookup. by case_decide.
Qed.

Lemma delete_keys_same ks entries :
  (forall k, k ∈ ks -> is_Some (entries !! k)) -> delete_keys ks entries = entries <-> ks = [].
Proof.
  intros Hk. split; [|by intros ->]. intros Heq. destruct ks as [|k ks]; [done|].
  destruct (Hk k ltac:(left)) as [e He]. rewrite <- Heq, delete_keys_lookup in He.
  by rewrite decide_True in He by left.
Qed.

Definition excess_keys (limit : Z) entries : list LeaseID :=
  select_excess limit (size entries) [] (range_map entries).

Lemma excess_keys_spec limit entries :
  (0 <= limit)%Z ->
  NoDup (excess_keys limit entries) /\
  (forall k, k ∈ excess_keys limit entries -> is_Some (entries !! k)) /\
  length (excess_keys limit entries) = (size entries - Z.to_nat limit)%nat.
Proof.
  intros Hl. destruct (range_map_keys entries) as [Hn Hlen]. unfold excess_keys.
  destruct (select_excess_spec limit (size entries) [] (range_map entries)) as (ks & -> & Hp & Hks);
    [done|simpl; lia|simpl; lia|]. simpl in *. split_and!.
  - destruct Hp as [rest Hp]. rewrite Hp, list.NoDup_app in Hn. apply Hn.
  - intros k Hk. destruct Hp as [rest Hp].
    assert (k ∈ (range_map entries).*1) as ([k' e] & -> & Hin%elem_of_range_map)%list_elem_of_fmap
      by (rewrite Hp; apply elem_of_app; by left). simpl. eauto.
  - lia.
Qed.

End PruneFacts.

(** ** Properties *)

(** After pruning the list holds no more than its limit, and pruning is exact:
    a list within the limit is left alone; otherwise the entries older than the
    age limit go, and of the rest only as many as still exceed the limit; what
    stays is unchanged, and the result says whether anything went. *)
Theorem prune_exact `{GoRange} (cfg : IgnoreListConfig) (now : Z) (entries : entries_t) :
  (0 <= EntryLimit cfg < 2 ^ 63)%Z ->
  let r := Prune cfg now entries in
  r.1 ⊆ entries /\
  Size r.1 = (if (Z.of_nat (size entries) >? EntryLimit cfg)%Z
              then Nat.min (size (young_entries cfg now entries)) (Z.to_nat (EntryLimit cfg))
              else size entries) /\
  (EntryLimit cfg < Z.of_nat (size entries) -> r.1 ⊆ young_entries cfg now entries)%Z /\
  (r.2 = true <-> r.1 <> entries).
Proof.
  intros Hlim. unfold Prune, Size. rewrite to_int64_id by (unfold is_int64; lia).
  destruct (Z.gtb_spec (Z.of_nat (size entries)) (EntryLimit cfg)) as [Hgt|Hle];
    [|split_and!; [done|done|lia|naive_solver]].
  fold (old_keys cfg now entries). rewrite delete_old. fold (excess_keys (EntryLimit cfg) (young_entries cfg now entries)).
  set (young := young_entries cfg now entries). set (ks := excess_keys _ young).
  destruct (excess_keys_spec (EntryLimit cfg) young) as (Hn & Hk & Hlen); [lia|]. fold ks in Hn, Hk, Hlen.
  assert (young ⊆ entries) as Hsub by (apply map_filter_subseteq).
  pose proof (delete_keys_sub ks young) as Hsub2. simpl. split_and!.
  - by etrans.
  - rewrite delete_keys_size by done. lia.
  - done.
  - rewrite orb_true_iff, !negb_true_iff, !bool_decide_eq_false. split.
    + intros Hd Heq. rewrite Heq in Hsub2. assert (young = entries) as Hy by (by apply (anti_symm (⊆))).
      destruct Hd as [Hd|Hd]; apply Hd.
      * eapply delete_keys_same; [|by rewrite delete_old]. intros k (e & ? & _)%old_keys_spec. eauto.
      * eapply delete_keys_same; [done|]. by rewrite Heq.
    + intros Hne. destruct (decide (old_keys cfg now entries = [])) as [Ho|]; [right|by left].
      intros Hks. apply Hne. rewrite Hks. unfold delete_keys. simpl. subst young.
      by rewrite <- delete_old, Ho.
Qed.

(** A lease is flagged exactly when it has failed as often as the failure
    limit since it was last dropped from the list: each failure counts once, keeps
    its time and error and adds to the hostnames noted, and touches no other
    lease. *)
Theorem add_error_counts (cfg : IgnoreListConfig) (k k' : LeaseID) (failure : string)
    (ex : list string) (now : Z) (entries : entries_t) :
  let before := default zeroEntry (entries !! k) in
  (0 <= failureCount before < 2 ^ 64 - 1)%Z ->
  let entries' := AddError k failure ex now entries in
  (k' <> k -> entries' !! k' = entries !! k') /\
  (exists e, entries' !! k = Some e /\ failureCount e = (failureCount before + 1)%Z /\
     failedAt e = now /\ lastError e = failure /\
     (forall v, v ∈ extra e <-> v ∈ extra before \/ v ∈ ex)) /\
  (IsFlagged cfg k entries' = true <-> (FailureLimit cfg <= failureCount before + 1)%Z).
Proof.
  intros before Hb entries'. unfold entries', AddError. fold before. split_and!.
  - intros Hne. by rewrite lookup_insert_ne.
  - eexists. rewrite lookup_insert_eq. split; [done|]. simpl. split_and!; [|done|done|].
    + unfold wrap64. rewrite wrap_id; [done|]. unfold is_uint. lia.
    + intros v. rewrite (foldl_adds _ (fun s => v ∈ s) (fun u => u = v)).
      * split; [intros [?|(u & Hu & ->)]; auto|intros [?|?]; eauto].
      * intros s u. rewrite elem_of_union, elem_of_singleton. naive_solver.
  - unfold IsFlagged. rewrite lookup_insert_eq. simpl.
    unfold wrap64. rewrite wrap_id by (unfold is_uint; lia). rewrite Z.geb_le. done.
Qed.

(** Preparing the reports brings every flagged endpoint up to date and leaves
    the others as they are; a report kept ready is never longer than the limit,
    whatever an endpoint sets. *)
Theorem prepare_all_current `{GoRange} (prepare : string -> option (list Z)) (now : Z)
    (results : results_t) (path : string) (pr : preparedResult) :
  results !! path = Some pr ->
  let r := PrepareAll prepare now results in
  (needsPrepare pr = false -> r.1 !! path = Some pr) /\
  (r.2 = true -> needsPrepare pr = true -> exists data pr', prepare path = Some data /\
     r.1 !! path = Some pr' /\ needsPrepare pr' = false /\ preparedAt (pr_data pr') = now /\
     pr_bytes (pr_data pr') = take preparedResultByteSizeLimit data).
Proof.
  intros Hl r. unfold r, PrepareAll. destruct (range_map_keys results) as [Hn _].
  destruct (prepare_all_lookup prepare now (range_map results) results path Hn) as (_ & H2 & H3).
  assert ((path, pr) ∈ range_map results) as Hin by (by apply elem_of_range_map).
  split; [by apply H3|]. intros Hr Hp. destruct (H2 Hr pr Hin Hp) as (data & Hd & Hs).
  exists data, (pr_Set data now pr). split_and!; try done. unfold pr_Set. cbn [pr_data pr_bytes].
  destruct (Nat.ltb_spec preparedResultByteSizeLimit (length data)); [done|].
  by rewrite take_ge by lia.
Qed.

(** ** Examples *)

Module IgnoreExamples.

#[global] Instance ex_range : GoRange := sorted_range.
Definition ex_cfg : IgnoreListConfig := mkIgnoreListConfig 2 1 100.
Definition ex_lease (n : Z) : LeaseID := mkLeaseID "akash1" n 1 1 "p".

(** One stale entry and two fresh ones, with room for one. *)
Definition ex_entries : entries_t :=
  AddError (ex_lease 3) "e" [] 950 (AddError (ex_lease 2) "e" [] 940 (AddError (ex_lease 1) "e" [] 0 ∅)).

Lemma prune_exact_witness : Size (Prune ex_cfg 1000 ex_entries).1 = 1%nat.
Proof.
  destruct (prune_exact ex_cfg 1000 ex_entries ltac:(simpl; lia)) as (_ & H & _).
  rewrite H. vm_compute. reflexivity.
Defined.

Lemma add_error_counts_witness :
  IsFlagged ex_cfg (ex_lease 1) (AddError (ex_lease 1) "e" ["a.com"] 5 ex_entries) = true.
Proof.
  apply (add_error_counts ex_cfg (ex_lease 1) (ex_lease 2) "e" ["a.com"] 5 ex_entries);
    vm_compute; done.
Defined.

Lemma prepare_all_current_witness :
  exists pr', (PrepareAll (fun _ => Some [1; 2]%Z) 7 {[ "/a" := Flag (newPreparedResult 1) ]}).1 !! "/a"
    = Some pr' /\ needsPrepare pr' = false.
Proof.
  destruct (prepare_all_current (fun _ => Some [1; 2]%Z) 7 {[ "/a" := Flag (newPreparedResult 1) ]} "/a"
    (Flag (newPreparedResult 1)) (lookup_singleton_eq _ _)) as [_ H].
  destruct (H eq_refl eq_refl) as (data & pr' & _ & Hl & Hn & _). eauto.
Defined.

End IgnoreExamples.
