(* ===== verification/HostnameOp.v ===== *)
(** * The hostname operator

    Model of [operator/hostname/operator.go], [operator_gateway.go] and [types.go]:
    the operator that turns the hostname declarations of the leases (the
    [ProviderHost] resources) into routes of the cluster, one per hostname, with the
    table it keeps of them. The routes are behind the class [Router]; [Ingress]
    implements it with ingress resources ([NGINX] mode) and [HttpRoute] with routes of
    the Gateway API. *)

From Stdlib Require Import ZArith Lia.
From stdpp Require Import base gmap list strings relations tactics.
From S2P Require Import Prelude Types Names CRD Kube IgnoreList.

(** Go's [int32(x)] of a [uint32]. *)
Definition to_int32 (z : Z) : Z :=
  let u := wrap32 z in if (u <? 2 ^ 31)%Z then u else (u - 2 ^ 32)%Z.

Lemma wrap32_to_int32 z : is_uint 32 z -> wrap32 (to_int32 z) = z.
Proof.
  intros Hz. unfold to_int32, wrap32. rewrite (wrap_id 32 z) by done.
  destruct (Z.ltb_spec z (2 ^ 31)).
  - by apply wrap_id.
  - unfold wrap, is_uint in *. rewrite <- (Z.mod_small z (2 ^ 32)) at 2 by done.
    rewrite Zminus_mod, Z_mod_same_full, Z.sub_0_r, Zmod_mod. done.
Qed.

(** ** Data *)

(** [ctypes.ProviderResourceEvent] is a string. *)
Definition ProviderResourceAdd : string := "add".
Definition ProviderResourceUpdate : string := "update".
Definition ProviderResourceDelete : string := "delete".

Record hostnameResourceEvent := mkHostEvent {
  he_type : string;
  he_hostname : string;
  he_lid : LeaseID;
  he_service : string;
  he_external_port : Z
}.

Record managedHostname := mkManaged {
  lastEvent : option hostnameResourceEvent;
  presentLease : LeaseID;
  presentServiceName : string;
  presentExternalPort : Z;
  lastChangeAt : Z
}.

Record ConnectToDeploymentDirective := mkDirective {
  d_Hostname : string; d_LeaseID : LeaseID; d_ServiceName : string; d_ServicePort : Z;
  d_ReadTimeout : Z; d_SendTimeout : Z; d_NextTimeout : Z; d_MaxBodySize : Z; d_NextTries : Z;
  d_NextCases : list string;
  d_ProxyBufferingDisable : bool; d_ProxyBufferSize : Z; d_ProxyBuffersNumber : Z;
  d_ProxyBuffersSize : Z; d_ProxyBusyBuffersSize : Z; d_ProxyConnectTimeout : Z
}.

(** [chostname.LeaseIDHostnameConnection]; [c_port] is an [int32]. *)
Record connection := mkConnection {
  c_lease : LeaseID; c_hostname : string; c_port : Z; c_service : string
}.

(** A hostname as the cluster routes it. *)
Record route := mkRoute { rt_lease : LeaseID; rt_service : string; rt_port : Z }.

(** An error of the API, an object that is not as it should be, or a panic, which
    ends the process. *)
Inductive router_error :=
| RtKube (e : kube_error)
| RtInvalid (what : string)
| RtPanic (what : string).

Inductive op_error :=
| OpRouter (e : router_error)
| OpExpectedNotFound (what : string)
| OpStopped (what : string)
| OpCanceled.

(** ** What the operator calls *)

(** [connectHostnameToDeployment], [removeHostnameFromDeployment] (with its
    [allowMissing]) and [getHostnameDeploymentConnections]. *)
Class Router (W : Type) := {
  connectHostname : W -> ConnectToDeploymentDirective -> W * option router_error;
  removeHostname : W -> string -> LeaseID -> bool -> W * option router_error;
  getConnections : W -> result router_error (list connection)
}.

Definition route_of (d : ConnectToDeploymentDirective) : route :=
  mkRoute (d_LeaseID d) (d_ServiceName d) (d_ServicePort d).

(** What it promises: [routes w] are the routes in the cluster, by the namespace
    they are in and their hostname. A removal takes the lease's route away and
    touches no other name. In an [owned] cluster the managed objects are named
    and labelled the way the operator does it. *)
Class RouterLaws (W : Type) `{LeaseHash} `{Router W} := {
  routes : W -> gmap (string * string) route;
  owned : W -> Prop;
  connect_owned w d : owned w -> lease_ok (d_LeaseID d) -> owned (connectHostname w d).1;
  remove_owned w h lid am : owned w -> owned (removeHostname w h lid am).1;
  connect_effect w d :
    lease_ok (d_LeaseID d) ->
    took_effect routes w (<[(LidNS (d_LeaseID d), d_Hostname d) := route_of d]> (routes w))
      (connectHostname w d);
  remove_frame w h lid am k :
    k <> (LidNS lid, h) -> routes (removeHostname w h lid am).1 !! k = routes w !! k;
  remove_shrinks w h lid am k r :
    routes (removeHostname w h lid am).1 !! k = Some r -> routes w !! k = Some r;
  remove_done w h lid am r :
    owned w -> (removeHostname w h lid am).2 = None ->
    routes (removeHostname w h lid am).1 !! (LidNS lid, h) = Some r -> rt_lease r <> lid;
  connections_ok w cs :
    owned w -> getConnections w = Ok cs ->
    forall c, c ∈ cs <-> exists ns r, routes w !! (ns, c_hostname c) = Some r /\
      c = mkConnection (rt_lease r) (c_hostname c) (rt_port r) (rt_service r)
}.

(** The manifest of a lease, by its name, and [mani.ServiceExpose.GetExternalPort]
    of an expose's port and external port. *)
Class ManifestReader (W : Type) := {
  read_manifest : W -> string -> result kube_error (Crd.Manifest SchedulerParams);
  GetExternalPort : Z -> Z -> Z
}.

(** ** The operator *)

(** [flag_*] is whether the prepared report is out of date. *)
Record hostnameOperator := mkOp {
  hostnames : gmap string managedHostname;
  leasesIgnored : gmap LeaseID ignoreListEntry;
  flag_hostnames : bool;
  flag_ignored : bool
}.

Section Operator.
Context {W : Type} `{LeaseHash} `{Router W} `{ManifestReader W}.
Context (cfg : IgnoreListConfig).

Definition set_hostnames (f : gmap string managedHostname -> gmap string managedHostname)
    (op : hostnameOperator) : hostnameOperator :=
  mkOp (f (hostnames op)) (leasesIgnored op) (flag_hostnames op) (flag_ignored op).

Definition flagHostnamesData (op : hostnameOperator) : hostnameOperator :=
  mkOp (hostnames op) (leasesIgnored op) true (flag_ignored op).

(** The text of an error, as far as it is searched. *)
Definition op_error_text (e : op_error) : string :=
  match e with
  | OpRouter (RtKube e) => ke_text e
  | OpRouter (RtInvalid what) | OpRouter (RtPanic what) => what
  | OpExpectedNotFound what => "observation stopped: resource not found: " +:+ what
  | OpStopped what => "observation stopped: " +:+ what
  | OpCanceled => "context canceled"
  end.

Definition errorIsKubernetesResourceNotFound (failure : op_error) : bool :=
  match failure with
  | OpRouter (RtKube e) => IsNotFound e || str_contains (ke_text e) "not found"
  | OpExpectedNotFound _ => true
  | _ => str_contains (op_error_text failure) "not found"
  end.

Definition recordEventError (ev : hostnameResourceEvent) (failure : option op_error) (now : Z)
    (op : hostnameOperator) : hostnameOperator :=
  match failure with
  | None => op
  | Some e =>
      if errorIsKubernetesResourceNotFound e then
        mkOp (hostnames op) (AddError (he_lid ev) (op_error_text e) [he_hostname ev] now (leasesIgnored op))
          (flag_hostnames op) true
      else op
  end.

Definition isEventIgnored (ev : hostnameResourceEvent) (op : hostnameOperator) : bool :=
  IsFlagged cfg (he_lid ev) (leasesIgnored op).

(** A CRD without HTTP options gets defaults. *)
Definition buildDirective (ev : hostnameResourceEvent) (expose : Crd.ServiceExpose)
    : ConnectToDeploymentDirective :=
  let o := Crd.EHTTP expose in
  let d := mkDirective (he_hostname ev) (he_lid ev) (he_service ev) (to_int32 (he_external_port ev)) in
  if (Crd.MaxBodySize o =? 0)%Z
  then (d 60000 60000 60000 1048576 3 ["error"%string; "timeout"%string] false 0 0 0 0 0)%Z
  else d (Crd.ReadTimeout o) (Crd.SendTimeout o) (Crd.NextTimeout o) (Crd.MaxBodySize o)
         (Crd.NextTries o) (Crd.NextCases o) (Crd.ProxyBufferingDisable o) (Crd.ProxyBufferSize o)
         (Crd.ProxyBuffersNumber o) (Crd.ProxyBuffersSize o) (Crd.ProxyBusyBuffersSize o)
         (Crd.ProxyConnectTimeout o).

Definition getManifestGroup (w : W) (lid : LeaseID) : result op_error (option (Crd.Group SchedulerParams)) :=
  match read_manifest w (LidNS lid) with
  | Ok m => Ok (Some (Crd.SGroup m))
  | Err e => if IsNotFound e then Ok None else Err (OpRouter (RtKube e))
  end.

(** The expose of a service that carries the hostname: the first global one with
    the port. A service with no instance and an expose with no port count as
    missing. *)
Definition expose_matches (externalPort : Z) (e : Crd.ServiceExpose) : bool :=
  Crd.Global e && (externalPort =? wrap32 (GetExternalPort (Crd.Port e) (Crd.ExternalPort e)))%Z.

Definition locateServiceFromManifest (w : W) (lid : LeaseID) (serviceName : string) (externalPort : Z)
    : result op_error Crd.ServiceExpose :=
  (let? group := getManifestGroup w lid in
   match group with
   | None => Err (OpExpectedNotFound "manifest")
   | Some group =>
       match List.find (fun s => String.eqb (Crd.Name s) serviceName) (Crd.Services group) with
       | Some service =>
           if (Crd.Count service =? 0)%Z then Err (OpExpectedNotFound "service")
           else match List.find (expose_matches externalPort) (Crd.Exposes service) with
                | Some expose => if (Crd.Port expose =? 0)%Z
                                 then Err (OpExpectedNotFound "service expose") else Ok expose
                | None => Err (OpExpectedNotFound "service expose")
                end
       | None => Err (OpExpectedNotFound "service")
       end
   end)%go.

Definition applyDeleteEvent (w : W) (ev : hostnameResourceEvent) (op : hostnameOperator)
    : W * hostnameOperator * option op_error :=
  let r := removeHostname w (he_hostname ev) (he_lid ev) true in
  match r.2 with
  | None => (r.1, flagHostnamesData (set_hostnames (delete (he_hostname ev)) op), None)
  | Some e => (r.1, op, Some (OpRouter e))
  end.

(** The stored entry, once everything went well. *)
Definition store_entry (ev : hostnameResourceEvent) (now : Z) (op : hostnameOperator) : hostnameOperator :=
  flagHostnamesData (set_hostnames
    (insert (he_hostname ev)
       (mkManaged (Some ev) (he_lid ev) (he_service ev) (he_external_port ev) now)) op).

Definition applyAddOrUpdateEvent (w : W) (ev : hostnameResourceEvent) (now : Z) (op : hostnameOperator)
    : W * hostnameOperator * option op_error :=
  match locateServiceFromManifest w (he_lid ev) (he_service ev) (he_external_port ev) with
  | Err e => (w, op, Some e)
  | Ok selectedExpose =>
      let directive := buildDirective ev selectedExpose in
      let entry := hostnames op !! he_hostname ev in
      let isSameLease := match entry with
                         | Some e => bool_decide (presentLease e = he_lid ev)
                         | None => true
                         end in
      let '(w, op, err) :=
        match entry, isSameLease with
        | Some e, false =>
            let r := removeHostname w (he_hostname ev) (presentLease e) false in
            match r.2 with
            | Some err => (r.1, op, Some (OpRouter err))
            | None =>
                let c := connectHostname r.1 directive in
                (c.1, set_hostnames (delete (he_hostname ev)) op, OpRouter <$> c.2)
            end
        | _, _ => let c := connectHostname w directive in (c.1, op, OpRouter <$> c.2)
        end in
      match err with
      | None => (w, store_entry ev now op, None)
      | Some _ => (w, op, err)
      end
  end.

Definition applyEvent (w : W) (ev : hostnameResourceEvent) (now : Z) (op : hostnameOperator)
    : W * hostnameOperator * option op_error :=
  if String.eqb (he_type ev) ProviderResourceDelete then applyDeleteEvent w ev op
  else if String.eqb (he_type ev) ProviderResourceAdd || String.eqb (he_type ev) ProviderResourceUpdate then
    if isEventIgnored ev op then (w, op, None)
    else let '(w, op, err) := applyAddOrUpdateEvent w ev now op in
         (w, recordEventError ev err now op, err)
  else (w, op, Some (OpStopped "unknown event type")).

(** *** The loop *)

(** The table at the start of an observation: the connections the cluster has. *)
Definition load_connections (cs : list connection) (op : hostnameOperator) : hostnameOperator :=
  flagHostnamesData (set_hostnames (fun _ =>
    foldl (fun m c => <[c_hostname c := mkManaged None (c_lease c) (c_service c) (wrap32 (c_port c)) 0]> m)
      ∅ cs) op).

Definition start_observation (w : W) (op : hostnameOperator) : hostnameOperator * option op_error :=
  match getConnections w with
  | Err e => (set_hostnames (fun _ => ∅) op, Some (OpRouter e))
  | Ok cs => (load_connections cs op, None)
  end.

Context `{GoRange}.

Definition prune (now : Z) (op : hostnameOperator) : hostnameOperator :=
  let '(entries, changed) := Prune cfg now (leasesIgnored op) in
  mkOp (hostnames op) entries (flag_hostnames op) (flag_ignored op || changed).

(** What the [select] of the loop receives; [EvEvents None] is the closed channel. *)
Inductive monitor_event :=
| EvDone
| EvEvents (ev : option hostnameResourceEvent) (now : Z)
| EvPruneTick (now : Z)
| EvPrepareTick.

(** An error leaves the loop. *)
Definition monitor_step (w : W) (op : hostnameOperator) (e : monitor_event)
    : W * hostnameOperator * option op_error :=
  match e with
  | EvDone => (w, op, Some OpCanceled)
  | EvEvents None _ => (w, op, Some (OpStopped ""))
  | EvEvents (Some ev) now => applyEvent w ev now op
  | EvPruneTick now => (w, prune now op, None)
  | EvPrepareTick => (w, mkOp (hostnames op) (leasesIgnored op) false false, None)
  end.

(** [run] between two observations. *)
Inductive run_action := RunTerminate | RunDelay | RunAgain.

Definition run_next (err : op_error) (elapsed retryDelay : Z) : run_action :=
  match err with
  | OpCanceled => RunTerminate
  | _ => if (elapsed <? retryDelay)%Z then RunDelay else RunAgain
  end.

(** The histories of the loop that no error has ended. *)
Inductive observing : W -> hostnameOperator -> list monitor_event -> W -> hostnameOperator -> Prop :=
| observing_nil w op : observing w op [] w op
| observing_cons w op e w1 op1 es w2 op2 :
    monitor_step w op e = (w1, op1, None) -> observing w1 op1 es w2 op2 ->
    observing w op (e :: es) w2 op2.

(** Runs a history; [None] if an error ends it. *)
Fixpoint run_events (w : W) (op : hostnameOperator) (es : list monitor_event) : option (W * hostnameOperator) :=
  match es with
  | [] => Some (w, op)
  | e :: es' => match monitor_step w op e with
                | (w1, op1, None) => run_events w1 op1 es'
                | (_, _, Some _) => None
                end
  end.

Lemma run_events_observing w op es w' op' :
  run_events w op es = Some (w', op') -> observing w op es w' op'.
Proof.
  revert w op. induction es as [|e es IH]; intros w op Hr; simpl in Hr.
  - simplify_eq. constructor.
  - destruct (monitor_step w op e) as [[w1 op1] [err|]] eqn:Hs; [done|]. econstructor; eauto.
Qed.

Lemma applyAddOrUpdateEvent_known w ev now op w' op' err what :
  applyAddOrUpdateEvent w ev now op = (w', op', err) -> err <> Some (OpStopped what).
Proof.
  unfold applyAddOrUpdateEvent, locateServiceFromManifest, getManifestGroup.
  intros Ha. repeat (case_match; simplify_eq/=; try done).
  all: by match goal with H : OpRouter <$> ?o = _ |- _ => destruct o; simplify_eq/= end.
Qed.

End Operator.

(** ** The source of the events *)

Section Observe.
Context `{Bech32}.

Record ProviderHostSpec := mkHostSpec {
  ph_owner : string; ph_provider : string; ph_hostname : string; ph_dseq : Z; ph_gseq : Z;
  ph_oseq : Z; ph_service : string; ph_external_port : Z
}.

Definition ProviderHostSpec_LeaseID (s : ProviderHostSpec) : option LeaseID :=
  owner ← bech32_canonical (ph_owner s);
  provider ← bech32_canonical (ph_provider s);
  Some (mkLeaseID owner (ph_dseq s) (ph_gseq s) (ph_oseq s) provider).

Definition host_event (type : string) (lid : LeaseID) (s : ProviderHostSpec) : hostnameResourceEvent :=
  mkHostEvent type (ph_hostname s) lid (ph_service s) (ph_external_port s).

(** The resources found at the start; one without a lease is skipped. *)
Definition initial_events (data : list ProviderHostSpec) : list hostnameResourceEvent :=
  omap (fun v => (fun lid => host_event ProviderResourceAdd lid v) <$> ProviderHostSpec_LeaseID v) data.

Inductive watch_type := Added | Modified | Deleted | Bookmark | WatchError.

(** A watch result carries a [ProviderHost] or some other object. *)
Inductive watch_object := WHost (s : ProviderHostSpec) | WOther.

Inductive watch_outcome := WatchStop | WatchSkip | WatchEmit (ev : hostnameResourceEvent).

Definition watch_result (type : watch_type) (object : watch_object) : watch_outcome :=
  match type with
  | WatchError => WatchStop
  | _ =>
      match object with
      | WOther => WatchSkip
      | WHost s =>
          match ProviderHostSpec_LeaseID s with
          | None => WatchSkip
          | Some lid =>
              match type with
              | Added => WatchEmit (host_event ProviderResourceAdd lid s)
              | Modified => WatchEmit (host_event ProviderResourceUpdate lid s)
              | Deleted => WatchEmit (host_event ProviderResourceDelete lid s)
              | _ => WatchSkip
              end
          end
      end
  end.

(** The channel: what was found, then what the watch reports until it stops. *)
Fixpoint watch_events (results : list (watch_type * watch_object)) : list hostnameResourceEvent :=
  match results with
  | [] => []
  | (type, object) :: rest =>
      match watch_result type object with
      | WatchStop => []
      | WatchSkip => watch_events rest
      | WatchEmit ev => ev :: watch_events rest
      end
  end.

Definition observeHostnameState (data : list ProviderHostSpec)
    (results : list (watch_type * watch_object)) : list hostnameResourceEvent :=
  initial_events data ++ watch_events results.

End Observe.

(** ** The table and the cluster *)

Section Mirror.
Context {W : Type} `{HH : LeaseHash} `{HR : !Router W} `{HL : !RouterLaws W} `{HM : ManifestReader W}.
Context `{HG : GoRange} (cfg : IgnoreListConfig).

(** The route an entry of the table stands for. *)
Definition entry_route (e : managedHostname) : route :=
  mkRoute (presentLease e) (presentServiceName e) (to_int32 (presentExternalPort e)).

(** The cluster routes what the table lists, and nothing else. *)
Definition mirror (w : W) (op : hostnameOperator) : Prop :=
  owned w /\ forall ns h r, routes w !! (ns, h) = Some r <->
    exists e, hostnames op !! h = Some e /\ ns = LidNS (presentLease e) /\ r = entry_route e.

(** The numbers of the event's lease are within their types, and a deletion is of
    the lease that holds the hostname. *)
Definition event_ok (op : hostnameOperator) (ev : hostnameResourceEvent) : Prop :=
  lease_ok (he_lid ev) /\
  (he_type ev = ProviderResourceDelete ->
   forall e, hostnames op !! he_hostname ev = Some e -> presentLease e = he_lid ev).

(** Removing the route of an entry the cluster mirrors leaves no route for the name. *)
Lemma remove_clears w op h e am :
  mirror w op -> hostnames op !! h = Some e ->
  (removeHostname w h (presentLease e) am).2 = None ->
  forall ns, routes (removeHostname w h (presentLease e) am).1 !! (ns, h) = None.
Proof.
  intros [Hown Hm] He Hok ns. apply eq_None_not_Some. intros [r Hr].
  pose proof (remove_shrinks _ _ _ _ _ _ Hr) as (e' & He' & -> & ->)%Hm. simplify_eq.
  by pose proof (remove_done _ _ _ _ _ Hown Hok Hr).
Qed.

Lemma remove_others w h lid am ns h' :
  h' <> h -> routes (removeHostname w h lid am).1 !! (ns, h') = routes w !! (ns, h').
Proof. intros Hne. apply remove_frame. congruence. Qed.

(** Connecting a name no other namespace routes, and recording it. *)
Lemma connect_mirror w op0 op d e :
  owned w -> lease_ok (d_LeaseID d) ->
  (connectHostname w d).2 = None -> entry_route e = route_of d ->
  hostnames op = <[d_Hostname d := e]> (hostnames op0) ->
  (forall ns h, h <> d_Hostname d -> forall r, routes w !! (ns, h) = Some r <->
     exists e, hostnames op0 !! h = Some e /\ ns = LidNS (presentLease e) /\ r = entry_route e) ->
  (forall ns r, routes w !! (ns, d_Hostname d) = Some r -> ns = LidNS (d_LeaseID d)) ->
  mirror (connectHostname w d).1 op.
Proof.
  intros Hown Hlid Hok He Hop Hother Hh. split; [by apply connect_owned|]. intros ns h r.
  pose proof (connect_effect w d Hlid) as Heff. unfold took_effect in Heff. rewrite Hok in Heff.
  assert (presentLease e = d_LeaseID d) as Hlease by (unfold entry_route, route_of in He; congruence).
  rewrite Heff, Hop. destruct (decide (h = d_Hostname d)) as [->|Hne].
  - rewrite lookup_insert_eq. split.
    + intros Hr. exists e. split; [done|].
      destruct (decide (ns = LidNS (d_LeaseID d))) as [->|Hns].
      * rewrite lookup_insert_eq in Hr. by rewrite Hlease, He; simplify_eq.
      * rewrite lookup_insert_ne in Hr by congruence. by apply Hh in Hr.
    + intros (e' & [= <-] & -> & ->). by rewrite Hlease, lookup_insert_eq, He.
  - rewrite !lookup_insert_ne by congruence. by apply Hother.
Qed.

Lemma buildDirective_fields ev expose :
  d_Hostname (buildDirective ev expose) = he_hostname ev /\
  d_LeaseID (buildDirective ev expose) = he_lid ev /\
  route_of (buildDirective ev expose) =
    mkRoute (he_lid ev) (he_service ev) (to_int32 (he_external_port ev)).
Proof. unfold buildDirective. by case_match. Qed.

(** Adding or updating a hostname without an error keeps the mirror. *)
Lemma applyAddOrUpdateEvent_mirror w ev now op w' op' :
  mirror w op -> lease_ok (he_lid ev) -> applyAddOrUpdateEvent w ev now op = (w', op', None) ->
  mirror w' op' /\ routes w' !! (LidNS (he_lid ev), he_hostname ev) =
    Some (mkRoute (he_lid ev) (he_service ev) (to_int32 (he_external_port ev))).
Proof.
  unfold applyAddOrUpdateEvent. intros Hmir Hlid Happ. destruct (Hmir) as [Hown Hm].
  destruct (locateServiceFromManifest _ _ _ _) as [expose|]; [|done].
  destruct (buildDirective_fields ev expose) as (Hdh & Hdl & Hdr).
  set (d := buildDirective ev expose) in *.
  assert (forall w1 op1, owned w1 -> (connectHostname w1 d).2 = None ->
    (forall h, h <> he_hostname ev -> hostnames op1 !! h = hostnames op !! h) ->
    (forall ns h, h <> he_hostname ev -> routes w1 !! (ns, h) = routes w !! (ns, h)) ->
    (forall ns r, routes w1 !! (ns, he_hostname ev) = Some r -> ns = LidNS (he_lid ev)) ->
    let w2 := (connectHostname w1 d).1 in
    mirror w2 (store_entry ev now op1) /\
    routes w2 !! (LidNS (he_lid ev), he_hostname ev) =
      Some (mkRoute (he_lid ev) (he_service ev) (to_int32 (he_external_port ev)))) as Hconn.
  { intros w1 op1 Hown1 Hok Hop1 Hw1 Hns w2.
    assert (mirror w2 (store_entry ev now op1)) as Hmir2.
    { eapply (connect_mirror w1 op1 _ d); [done|by rewrite Hdl|done| |by rewrite Hdh| |by rewrite Hdh, Hdl].
      - by rewrite Hdr.
      - rewrite Hdh. intros ns h Hne r. rewrite Hw1, Hop1 by done. apply Hm. }
    split; [done|]. apply Hmir2. eexists. split; [apply lookup_insert_eq|done]. }
  destruct (hostnames op !! he_hostname ev) as [e|] eqn:He;
    [destruct (decide (presentLease e = he_lid ev)) as [Hsame|Hdiff]|].
  - rewrite bool_decide_eq_true_2 in Happ by done.
    destruct (connectHostname w d).2 as [err|] eqn:Hc; simplify_eq/=.
    apply Hconn; [done..|]. intros ns r (e' & ? & -> & _)%Hm. simplify_eq. by rewrite Hsame.
  - rewrite bool_decide_eq_false_2 in Happ by done. simpl in Happ.
    destruct (removeHostname w (he_hostname ev) (presentLease e) false).2 as [err|] eqn:Hrm;
      [done|]. simpl in Happ.
    destruct (connectHostname _ d).2 as [err|] eqn:Hc; simplify_eq/=.
    apply Hconn; [by apply remove_owned|done|..].
    + intros h Hne. simpl. by rewrite lookup_delete_ne.
    + intros ns h Hne. by apply remove_others.
    + intros ns r Hr. by rewrite (remove_clears w op _ e) in Hr.
  - destruct (connectHostname w d).2 as [err|] eqn:Hc; simplify_eq/=.
    apply Hconn; [done..|]. intros ns r (e' & ? & _)%Hm. congruence.
Qed.

Lemma applyDeleteEvent_mirror w ev op w' op' :
  mirror w op ->
  (forall e, hostnames op !! he_hostname ev = Some e -> presentLease e = he_lid ev) ->
  applyDeleteEvent w ev op = (w', op', None) ->
  mirror w' op' /\ forall ns, routes w' !! (ns, he_hostname ev) = None.
Proof.
  unfold applyDeleteEvent. intros Hmir Hholder Happ. destruct (Hmir) as [Hown Hm]. simpl in Happ.
  destruct (removeHostname w (he_hostname ev) (he_lid ev) true).2 as [err|] eqn:Hrm; [done|].
  simplify_eq/=.
  assert (forall ns, routes (removeHostname w (he_hostname ev) (he_lid ev) true).1 !!
    (ns, he_hostname ev) = None) as Hnone.
  { intros ns. destruct (hostnames op !! he_hostname ev) as [e|] eqn:He.
    - rewrite <- (Hholder e eq_refl) in *. by apply (remove_clears w op).
    - apply eq_None_not_Some. intros [r Hr]. apply remove_shrinks in Hr.
      apply Hm in Hr as (e & ? & _). congruence. }
  split; [|done]. split; [by apply remove_owned|]. intros ns h r. simpl.
  destruct (decide (h = he_hostname ev)) as [->|Hne].
  - rewrite Hnone, lookup_delete_eq. split; [done|]. by intros (? & ? & _).
  - rewrite remove_others, lookup_delete_ne by done. apply Hm.
Qed.

Lemma recordEventError_hostnames ev err now op :
  hostnames (recordEventError ev err now op) = hostnames op.
Proof. unfold recordEventError. by repeat case_match. Qed.

Lemma mirror_ext w op op' : hostnames op' = hostnames op -> mirror w op -> mirror w op'.
Proof. unfold mirror. by intros ->. Qed.

(** Reads an event's type off the tests on it. *)
Lemma applyEvent_cases w ev now op w' op' err :
  applyEvent cfg w ev now op = (w', op', err) ->
  (he_type ev = ProviderResourceDelete /\ applyDeleteEvent w ev op = (w', op', err)) \/
  (he_type ev <> ProviderResourceDelete /\ isEventIgnored cfg ev op = true /\
     w' = w /\ op' = op /\ err = None) \/
  (he_type ev <> ProviderResourceDelete /\ exists op1, applyAddOrUpdateEvent w ev now op = (w', op1, err) /\
     op' = recordEventError ev err now op1) \/
  (he_type ev <> ProviderResourceDelete /\ he_type ev <> ProviderResourceAdd /\
     he_type ev <> ProviderResourceUpdate /\ w' = w /\ op' = op /\ err <> None).
Proof.
  unfold applyEvent. destruct (String.eqb_spec (he_type ev) ProviderResourceDelete); [by auto|].
  destruct (String.eqb_spec (he_type ev) ProviderResourceAdd),
    (String.eqb_spec (he_type ev) ProviderResourceUpdate); simpl; intros Happ.
  4: { right. right. right. simplify_eq. done. }
  all: destruct (isEventIgnored cfg ev op) eqn:Hi;
    [right; left; by simplify_eq|right; right; left; split; [done|]];
    destruct (applyAddOrUpdateEvent w ev now op) as [[w1 op1] err1] eqn:Ha; simplify_eq; eauto.
Qed.

Lemma applyEvent_mirror w ev now op w' op' :
  mirror w op -> event_ok op ev -> applyEvent cfg w ev now op = (w', op', None) -> mirror w' op'.
Proof.
  intros Hm Hd [[Ht Happ]|[(_ & _ & -> & -> & _)|[(_ & op1 & Happ & ->)|(_ & _ & _ & _ & _ & ?)]]]%applyEvent_cases;
    destruct Hd as [Hlid Hd];
    [eapply applyDeleteEvent_mirror; [done|by apply Hd|done]|done|by eapply applyAddOrUpdateEvent_mirror|done].
Qed.

(** The events of a history are in order when they are applied. *)
Fixpoint events_ok (w : W) (op : hostnameOperator) (es : list monitor_event) : Prop :=
  match es with
  | [] => True
  | e :: es' =>
      match e with EvEvents (Some ev) _ => event_ok op ev | _ => True end /\
      let '(w1, op1, _) := monitor_step cfg w op e in events_ok w1 op1 es'
  end.

Lemma observing_mirror w op es w' op' :
  mirror w op -> observing cfg w op es w' op' -> events_ok w op es -> mirror w' op'.
Proof.
  intros Hm Hobs. revert Hm. induction Hobs as [|w op e w1 op1 es w2 op2 Hstep Hobs IH]; [done|].
  intros Hm [Hd Hds]. rewrite Hstep in Hds. apply IH; [|done].
  destruct e as [|[ev|] now|now|]; simpl in Hstep; simplify_eq.
  - by eapply applyEvent_mirror.
  - unfold prune. destruct (Prune _ _ _). by apply (mirror_ext _ op).
  - by apply (mirror_ext _ op).
Qed.

(** A cluster an operator can take over: its own, the routes each in the namespace of its
    lease, one per hostname, with a port that is an [int32]. *)
Definition routable (w : W) : Prop :=
  owned w /\
  (forall ns h r, routes w !! (ns, h) = Some r ->
     ns = LidNS (rt_lease r) /\ to_int32 (wrap32 (rt_port r)) = rt_port r) /\
  (forall ns ns' h r r', routes w !! (ns, h) = Some r -> routes w !! (ns', h) = Some r' -> r = r').

Definition conn_entry (c : connection) : managedHostname :=
  mkManaged None (c_lease c) (c_service c) (wrap32 (c_port c)) 0.

Lemma load_lookup cs (m : gmap string managedHostname) h e :
  foldl (fun m c => <[c_hostname c := conn_entry c]> m) m cs !! h = Some e ->
  m !! h = Some e \/ exists c, c ∈ cs /\ c_hostname c = h /\ e = conn_entry c.
Proof.
  revert m. induction cs as [|c cs IH]; intros m Hl; simpl in Hl; [by left|].
  apply IH in Hl as [Hl|(c' & Hin & Hc)]; [|right; exists c'; by rewrite elem_of_cons; auto].
  destruct (decide (c_hostname c = h)) as [<-|Hne].
  - rewrite lookup_insert_eq in Hl. simplify_eq. right. exists c. rewrite elem_of_cons. auto.
  - rewrite lookup_insert_ne in Hl by done. by left.
Qed.

Lemma load_is_Some cs (m : gmap string managedHostname) h :
  is_Some (m !! h) \/ (exists c, c ∈ cs /\ c_hostname c = h) ->
  is_Some (foldl (fun m c => <[c_hostname c := conn_entry c]> m) m cs !! h).
Proof.
  revert m. induction cs as [|c cs IH]; intros m Hor; simpl.
  - destruct Hor as [?|(? & ?%not_elem_of_nil & _)]; done.
  - apply IH. destruct (decide (c_hostname c = h)) as [<-|Hne].
    + left. rewrite lookup_insert_eq. eauto.
    + rewrite lookup_insert_ne by done. destruct Hor as [?|(c' & [->|?]%elem_of_cons & ?)]; [by auto|done|].
      right. eauto.
Qed.

Lemma start_mirror w op op' :
  routable w -> start_observation w op = (op', None) -> mirror w op'.
Proof.
  intros (Hown & Hns & Huniq). unfold start_observation.
  destruct (getConnections w) as [cs|] eqn:Hcs; [|done]. intros [= <-].
  pose proof (connections_ok w cs Hown Hcs) as Hin. split; [done|]. intros ns h r. simpl.
  change (foldl _ ∅ cs) with (foldl (fun m c => <[c_hostname c := conn_entry c]> m)
    (∅ : gmap string managedHostname) cs).
  assert (forall ns h r, routes w !! (ns, h) = Some r ->
    mkConnection (rt_lease r) h (rt_port r) (rt_service r) ∈ cs) as Hconn.
  { intros ns0 h0 r0 Hr. apply Hin. by exists ns0, r0. }
  assert (forall e, foldl (fun m c => <[c_hostname c := conn_entry c]> m)
      (∅ : gmap string managedHostname) cs !! h = Some e ->
    exists ns r, routes w !! (ns, h) = Some r /\ ns = LidNS (presentLease e) /\ r = entry_route e) as Hent.
  { intros e [He|(c & Hc & <- & ->)]%load_lookup; [by rewrite lookup_empty in He|].
    apply Hin in Hc as (ns0 & r0 & Hr & Heq). exists ns0, r0. split; [done|].
    destruct (Hns _ _ _ Hr) as [-> Hport]. rewrite Heq. unfold entry_route, conn_entry. simpl.
    rewrite Hport. by destruct r0. }
  split.
  - intros Hr. destruct (load_is_Some cs ∅ h) as [e He].
    { right. eexists. by split; [by eapply Hconn|]. }
    exists e. split; [done|]. destruct (Hent e He) as (ns' & r' & Hr' & -> & ->).
    pose proof (Huniq _ _ _ _ _ Hr Hr') as ->. split; [|done]. by destruct (Hns _ _ _ Hr).
  - intros (e & He & -> & ->). destruct (Hent e He) as (ns' & r' & Hr' & -> & ->). done.
Qed.

Lemma connect_others w d ns h :
  lease_ok (d_LeaseID d) -> h <> d_Hostname d -> routes (connectHostname w d).1 !! (ns, h) = routes w !! (ns, h).
Proof.
  intros Hlid Hne. apply (took_effect_frame _ _ _ _ _ (connect_effect w d Hlid)).
  rewrite lookup_insert_ne; congruence.
Qed.

(** Adding or updating a hostname, successfully or not, leaves the others alone. *)
Lemma applyAddOrUpdateEvent_frame w ev now op w' op' err ns h :
  applyAddOrUpdateEvent w ev now op = (w', op', err) -> lease_ok (he_lid ev) -> h <> he_hostname ev ->
  routes w' !! (ns, h) = routes w !! (ns, h).
Proof.
  unfold applyAddOrUpdateEvent. intros Ha Hlid Hne.
  destruct (locateServiceFromManifest _ _ _ _) as [expose|]; [|by simplify_eq].
  destruct (buildDirective_fields ev expose) as (Hdh & Hdl & _).
  assert (forall w1, routes (connectHostname w1 (buildDirective ev expose)).1 !! (ns, h)
    = routes w1 !! (ns, h)) as Hc by (intros; apply connect_others; by rewrite ?Hdl, ?Hdh).
  simpl in Ha. repeat case_match; simplify_eq/=; rewrite ?Hc; try done; by apply remove_others.
Qed.

(** Each hostname is routed in at most one namespace. *)
Definition routed_once (w : W) : Prop :=
  forall ns ns' h r r', routes w !! (ns, h) = Some r -> routes w !! (ns', h) = Some r' -> ns = ns'.

Lemma mirror_once w op : mirror w op -> routed_once w.
Proof. intros [_ Hm] ns ns' h r r' (e & He & -> & _)%Hm (e' & He' & -> & _)%Hm. by simplify_eq. Qed.

Lemma remove_once w h lid am : routed_once w -> routed_once (removeHostname w h lid am).1.
Proof. intros Hw ns ns' h' r r' Hr%remove_shrinks Hr'%remove_shrinks. by eapply Hw. Qed.

(** A connection, whether or not it took effect, in the namespace the name is in. *)
Lemma connect_once w d :
  lease_ok (d_LeaseID d) -> routed_once w ->
  (forall ns r, routes w !! (ns, d_Hostname d) = Some r -> ns = LidNS (d_LeaseID d)) ->
  routed_once (connectHostname w d).1.
Proof.
  intros Hlid Hw Hd ns ns' h r r' Hr Hr'. pose proof (connect_effect w d Hlid) as Heff.
  assert (forall ns r, routes (connectHostname w d).1 !! (ns, h) = Some r ->
    (h = d_Hostname d -> ns = LidNS (d_LeaseID d)) /\
    (h = d_Hostname d \/ exists r0, routes w !! (ns, h) = Some r0)) as Hcase.
  { intros ns0 r0 Hr0. destruct (decide ((ns0, h) = (LidNS (d_LeaseID d), d_Hostname d))) as [?|Hne];
      [by simplify_eq; auto|].
    rewrite (took_effect_frame _ _ _ _ _ Heff) in Hr0 by (by rewrite lookup_insert_ne).
    split; [|by eauto]. intros ->. by eapply Hd. }
  destruct (Hcase _ _ Hr) as [H1 [?|[r1 Hr1]]], (Hcase _ _ Hr') as [H2 [?|[r2 Hr2]]];
    try (by rewrite H1, H2); by eapply Hw.
Qed.

(** *** Theorems *)

(** C6: the table of the hostname operator mirrors the cluster: started on a
    cluster whose routes are its own, after any sequence of events, prunings and
    reports that ended in no error, a hostname is routed exactly when the table
    lists it, and to the lease, service and port listed. Deletions are assumed to be
    of the lease that holds the hostname. *)
Theorem hostnames_mirror_routes (w w' : W) (op op0 op' : hostnameOperator) (es : list monitor_event) :
  routable w -> start_observation w op = (op0, None) ->
  observing cfg w op0 es w' op' -> events_ok w op0 es ->
  forall ns h r, routes w' !! (ns, h) = Some r <->
    exists e, hostnames op' !! h = Some e /\ ns = LidNS (presentLease e) /\ r = entry_route e.
Proof. intros Hr Hs Hobs Hd. by apply (observing_mirror w op0 es _ _ (start_mirror _ _ _ Hr Hs)). Qed.

(** No two leases ever serve one hostname: from a table that mirrors the
    cluster, whatever event is applied and wherever it fails, with the failing call
    having taken effect or not, each hostname is routed in at most one namespace. *)
Theorem hostname_routed_once (w w' : W) (op op' : hostnameOperator) (ev : hostnameResourceEvent)
    (now : Z) (err : option op_error) :
  mirror w op -> lease_ok (he_lid ev) -> applyEvent cfg w ev now op = (w', op', err) ->
  forall ns ns' h r r',
    routes w' !! (ns, h) = Some r -> routes w' !! (ns', h) = Some r' -> ns = ns'.
Proof.
  intros Hmir Hlid Happ. change (routed_once w'). pose proof (mirror_once _ _ Hmir) as Hw.
  destruct (Hmir) as [Hown Hm].
  pose proof (fun h lid am => remove_once w h lid am Hw) as Hrm.
  destruct (applyEvent_cases _ _ _ _ _ _ _ Happ)
    as [[_ Hd]|[(_ & _ & -> & _)|[(_ & op1 & Ha & _)|(_ & _ & _ & -> & _)]]]; [|done| |done].
  - unfold applyDeleteEvent in Hd. simpl in Hd. case_match; simplify_eq/=; apply Hrm.
  - unfold applyAddOrUpdateEvent in Ha.
    destruct (locateServiceFromManifest _ _ _ _) as [expose|]; [|by simplify_eq].
    destruct (buildDirective_fields ev expose) as (Hdh & Hdl & _). simpl in Ha.
    destruct (hostnames op !! he_hostname ev) as [e|] eqn:He;
      [case_bool_decide as Hsame|].
    + assert (w' = (connectHostname w (buildDirective ev expose)).1) as -> by (by repeat case_match; simplify_eq).
      apply connect_once; [by rewrite Hdl|done|]. rewrite Hdh, Hdl. intros ns r (e' & ? & -> & _)%Hm. simplify_eq. by rewrite Hsame.
    + destruct (removeHostname w (he_hostname ev) (presentLease e) false).2 as [err1|] eqn:Hr;
        simpl in Ha; [simplify_eq; apply Hrm|].
      assert (w' = (connectHostname (removeHostname w (he_hostname ev) (presentLease e) false).1
        (buildDirective ev expose)).1) as -> by (by repeat case_match; simplify_eq).
      apply connect_once; [by rewrite Hdl|apply Hrm|]. rewrite Hdh. intros ns r. by rewrite (remove_clears w op _ e).
    + assert (w' = (connectHostname w (buildDirective ev expose)).1) as -> by (by repeat case_match; simplify_eq).
      apply connect_once; [by rewrite Hdl|done|]. rewrite Hdh. intros ns r (e' & ? & _)%Hm. congruence.
Qed.

(** An addition or update that succeeds routes the hostname to the event's
    lease, service and port, takes it from the lease that held it, and touches no
    other hostname; a deletion that succeeds leaves the hostname unrouted. *)
Theorem event_routes_hostname (w w' : W) (op op' : hostnameOperator) (ev : hostnameResourceEvent) (now : Z) :
  mirror w op -> isEventIgnored cfg ev op = false -> event_ok op ev ->
  applyEvent cfg w ev now op = (w', op', None) ->
  (forall ns r, routes w' !! (ns, he_hostname ev) = Some r <->
     he_type ev <> ProviderResourceDelete /\ ns = LidNS (he_lid ev) /\
     r = mkRoute (he_lid ev) (he_service ev) (to_int32 (he_external_port ev))) /\
  (forall ns h, h <> he_hostname ev -> routes w' !! (ns, h) = routes w !! (ns, h)).
Proof.
  intros Hm Hi Hd Happ. pose proof (applyEvent_mirror _ _ _ _ _ _ Hm Hd Happ) as Hm'.
  destruct (applyEvent_cases _ _ _ _ _ _ _ Happ)
    as [[Ht Ha]|[(_ & ? & _)|[(Ht & op1 & Ha & ->)|(_ & _ & _ & _ & _ & ?)]]];
    [|congruence| |done].
  - destruct (applyDeleteEvent_mirror _ _ _ _ _ Hm (proj2 Hd Ht) Ha) as [_ Hnone]. split.
    + intros ns r. rewrite Hnone. split; [done|]. by intros [? _].
    + intros ns h Hne. unfold applyDeleteEvent in Ha. simpl in Ha.
      case_match; simplify_eq/=. by apply remove_others.
  - destruct (applyAddOrUpdateEvent_mirror _ _ _ _ _ _ Hm (proj1 Hd) Ha) as [_ Hr]. split.
    + intros ns r. split.
      * intros Hr'. assert (ns = LidNS (he_lid ev)) as -> by (eapply (mirror_once _ _ Hm'); done).
        split_and!; [done..|]. congruence.
      * by intros (_ & -> & ->).
    + intros ns h Hne. eapply applyAddOrUpdateEvent_frame; [done|apply Hd|done].
Qed.

(** A deletion of a lease that does not hold the hostname (the operator ignored
    the event that would have handed it over) forgets the hostname but leaves it
    routed to the lease that held it. *)
Theorem delete_of_other_lease_leaks (w w' : W) (op op' : hostnameOperator) (ev : hostnameResourceEvent)
    (now : Z) (e : managedHostname) :
  mirror w op -> hostnames op !! he_hostname ev = Some e ->
  LidNS (presentLease e) <> LidNS (he_lid ev) -> he_type ev = ProviderResourceDelete ->
  applyEvent cfg w ev now op = (w', op', None) ->
  routes w' !! (LidNS (presentLease e), he_hostname ev) = Some (entry_route e) /\
  hostnames op' !! he_hostname ev = None.
Proof.
  intros Hm He Hns Ht Happ. unfold applyEvent in Happ. rewrite Ht in Happ. simpl in Happ.
  unfold applyDeleteEvent in Happ. simpl in Happ. case_match; simplify_eq/=.
  rewrite lookup_delete_eq. split; [|done]. rewrite remove_frame by congruence. apply Hm. eauto.
Qed.

(** Only a missing resource counts against a lease: applying an event changes
    the ignore list exactly when it fails with an error that says a resource was not
    found, and then it adds one failure to the event's lease. *)
Theorem ignores_only_missing (w w' : W) (op op' : hostnameOperator) (ev : hostnameResourceEvent)
    (now : Z) (err : option op_error) :
  applyEvent cfg w ev now op = (w', op', err) -> he_type ev <> ProviderResourceDelete ->
  leasesIgnored op' =
    match err with
    | Some e => if errorIsKubernetesResourceNotFound e
                then AddError (he_lid ev) (op_error_text e) [he_hostname ev] now (leasesIgnored op)
                else leasesIgnored op
    | None => leasesIgnored op
    end.
Proof.
  intros Happ Ht. assert (forall w op w' op' err, applyAddOrUpdateEvent w ev now op = (w', op', err) ->
    leasesIgnored op' = leasesIgnored op) as Hkeep.
  { intros w0 op0 w1 op1 err0. unfold applyAddOrUpdateEvent. intros H0.
    by repeat case_match; simplify_eq/=. }
  unfold applyEvent in Happ. destruct (String.eqb_spec (he_type ev) ProviderResourceDelete); [done|].
  case_match; [|by simplify_eq]. case_match; [by simplify_eq|].
  destruct (applyAddOrUpdateEvent w ev now op) as [[w1 op1] err1] eqn:Ha. simplify_eq.
  apply Hkeep in Ha. unfold recordEventError. repeat case_match; simpl; by rewrite ?Ha.
Qed.

End Mirror.

(** Every event the operator receives has a type it handles: whatever the
    cluster lists and the watch reports, [applyEvent] never meets an unknown type,
    so an observation does not stop for one. *)
Theorem observed_events_handled `{Bech32} {W} `{LeaseHash} `{Router W} `{ManifestReader W}
    (cfg : IgnoreListConfig) (data : list ProviderHostSpec) (results : list (watch_type * watch_object))
    (w : W) (op : hostnameOperator) (now : Z) :
  Forall (fun ev => (he_type ev = ProviderResourceAdd \/ he_type ev = ProviderResourceUpdate \/
                     he_type ev = ProviderResourceDelete) /\
                    (applyEvent cfg w ev now op).2 <> Some (OpStopped "unknown event type"))
    (observeHostnameState data results).
Proof.
  apply (list.Forall_impl (fun ev => he_type ev = ProviderResourceAdd \/
    he_type ev = ProviderResourceUpdate \/ he_type ev = ProviderResourceDelete)).
  - apply list.Forall_forall. intros ev [Hin|Hin]%elem_of_app.
    + apply list_elem_of_omap in Hin as (s & _ & Hs).
      destruct (ProviderHostSpec_LeaseID s); simplify_eq/=. by left.
    + induction results as [|[t o] rest IH]; simpl in Hin; [by apply not_elem_of_nil in Hin|].
      destruct (watch_result t o) as [| |ev'] eqn:Hw; [by apply not_elem_of_nil in Hin|by apply IH|].
      apply elem_of_cons in Hin as [->|Hin]; [|by apply IH].
      unfold watch_result in Hw. repeat case_match; simplify_eq/=; auto.
  - intros ev Ht. split; [done|]. unfold applyEvent.
    destruct Ht as [-> |[-> | ->]]; simpl;
      try (case_match; [done|]; destruct (applyAddOrUpdateEvent w ev now op) as [[w1 op1] err] eqn:Ha;
           simpl; by eapply applyAddOrUpdateEvent_known).
    unfold applyDeleteEvent. simpl. by destruct (removeHostname _ _ _ _).2.
Qed.
