(* ===== verification/Ingress.v ===== *)
(** * Routes as ingress resources

    Model of the ingress mode of [operator/hostname/operator.go] and of the same
    functions of [cluster/kube/client_ingress.go]: the ingress a hostname is
    connected with, its nginx annotations, how it is removed and how the existing
    ones are read back. It implements the [Router] the hostname operator is proved
    against. *)

From Stdlib Require Import ZArith Lia Ascii.
From stdpp Require Import base gmap list strings tactics.
From S2P Require Import Prelude Types Names CRD Kube IgnoreList Manifest HostnameOp.

(** ** Objects *)

Record HTTPIngressPath := mkPath { ip_path : string; ip_service : string; ip_port : Z }.

(** The paths are behind a pointer that may be nil. *)
Record IngressRule := mkRule { ir_host : string; ir_http : option (list HTTPIngressPath) }.

Record Ingress := mkIngress {
  ing_name : string; ing_labels : labels_t; ing_annotations : labels_t; ing_class : string;
  ing_rules : list IngressRule
}.

#[export] Instance ingress_object : KubeObject Ingress :=
  {| obj_name := ing_name; obj_labels := ing_labels |}.

Definition akashIngressClassName : string := "akash-ingress-class".

Definition ingressRules (hostname kubeServiceName : string) (kubeServicePort : Z) : list IngressRule :=
  [mkRule hostname (Some [mkPath "/" kubeServiceName kubeServicePort])].

(** ** Annotations *)

(** [math.Ceil(float64(x) / 1000.0)] of a [uint32]: the quotient is exact enough to
    be rounded up exactly. *)
Definition ceil_seconds (ms : Z) : Z := ((ms + 999) / 1000)%Z.

Definition nginx_root : string := "nginx.ingress.kubernetes.io".
Definition nginx_key (name : string) : string := nginx_root +:+ "/" +:+ name.

Definition is_http_code (c : ascii) : bool :=
  let n := nat_of_ascii c in (49 <=? n)%nat && (n <=? 53)%nat.

(** One case of [proxy-next-upstream]; [None] is the panic on an empty one. *)
Definition next_case (v : string) : option string :=
  match v with
  | EmptyString => None
  | String c _ => Some (if is_http_code c then "http_" +:+ v else v)
  end.

Fixpoint next_cases (cases : list string) : option string :=
  match cases with
  | [] => Some ""
  | [v] => next_case v
  | v :: rest => first ← next_case v; others ← next_cases rest; Some (first +:+ " " +:+ others)
  end.

Definition insert_if (b : bool) (k v : string) (m : labels_t) : labels_t :=
  if b then <[k := v]> m else m.

Definition kubeNginxIngressAnnotations (d : ConnectToDeploymentDirective) : option labels_t :=
  cases ← next_cases (d_NextCases d);
  let pb := IngressProxyBuffers (d_ProxyBufferSize d) (d_ProxyBuffersNumber d) (d_ProxyBusyBuffersSize d) in
  let nextTimeout := if (0 <? d_NextTimeout d)%Z then ceil_seconds (d_NextTimeout d) else 0%Z in
  Some
    (insert_if (0 <? d_ProxyConnectTimeout d)%Z (nginx_key "proxy-connect-timeout")
       (FormatUint (ceil_seconds (d_ProxyConnectTimeout d)))
    (insert_if (0 <? ib_BusySize pb)%Z (nginx_key "proxy-busy-buffers-size") (FormatUint (ib_BusySize pb))
    (insert_if (0 <? ib_Number pb)%Z (nginx_key "proxy-buffers-number") (FormatUint (ib_Number pb))
    (insert_if (0 <? ib_BufferSize pb)%Z (nginx_key "proxy-buffer-size") (FormatUint (ib_BufferSize pb))
    (insert_if (d_ProxyBufferingDisable d) (nginx_key "proxy-buffering") "off"
    (<[nginx_key "proxy-next-upstream" := cases]>
    (<[nginx_key "proxy-next-upstream-timeout" := FormatUint nextTimeout]>
    (<[nginx_key "proxy-body-size" := FormatUint (d_MaxBodySize d)]>
    (<[nginx_key "proxy-next-upstream-tries" := FormatUint (d_NextTries d)]>
    (<[nginx_key "proxy-send-timeout" := FormatUint (ceil_seconds (d_SendTimeout d))]>
    (<[nginx_key "proxy-read-timeout" := FormatUint (ceil_seconds (d_ReadTimeout d))]> ∅))))))))))).

(** ** Operations *)

Section Operations.
Context {W St : Type} `{LeaseHash} `{!KubeCollection W Ingress St}.

Definition lease_labels (lid : LeaseID) : labels_t :=
  AppendLeaseLabels lid {[ AkashManagedLabelName := "true" ]}.

Definition ingress_of (d : ConnectToDeploymentDirective) (annotations : labels_t) : Ingress :=
  mkIngress (d_Hostname d) (lease_labels (d_LeaseID d)) annotations akashIngressClassName
    (ingressRules (d_Hostname d) (d_ServiceName d) (d_ServicePort d)).

(** The ingress is looked up, and updated or created; an error of the lookup other
    than its absence is returned. *)
Definition connectHostnameToDeployment (w : W) (d : ConnectToDeploymentDirective) : W * option router_error :=
  match kubeNginxIngressAnnotations d with
  | None => (w, Some (RtPanic "index out of range"))
  | Some annotations =>
      let r := create_or_update w (LidNS (d_LeaseID d)) (ingress_of d annotations) in
      (r.1, RtKube <$> r.2)
  end.

Definition removeHostnameFromDeployment (w : W) (hostname : string) (lid : LeaseID) (allowMissing : bool)
    : W * option router_error :=
  let r := kube_DeleteCollection w (LidNS lid) (kubeSelectorForLease lid) (Some hostname) in
  match r.2 with
  | Some e => if allowMissing && IsNotFound e then (r.1, None) else (r.1, Some (RtKube e))
  | None => (r.1, None)
  end.

Definition ingress_connection (o : Ingress) : result router_error connection :=
  match RecoverLeaseIDFromLabels (ing_labels o) with
  | Err _ => Err (RtInvalid "lease labels")
  | Ok lid =>
      match ing_rules o with
      | [rule] =>
          match ir_http rule with
          | Some [path] => Ok (mkConnection lid (ir_host rule) (ip_port path) (ip_service path))
          | Some _ => Err (RtInvalid "invalid number of paths")
          | None => Err (RtPanic "nil pointer dereference")
          end
      | _ => Err (RtInvalid "invalid number of rules")
      end
  end.

(** [EachListItem] stops at the first error. *)
Fixpoint each_item {A B} (f : A -> result router_error B) (l : list A) : result router_error (list B) :=
  match l with
  | [] => Ok []
  | x :: l' => (let? y := f x in let? ys := each_item f l' in Ok (y :: ys))%go
  end.

Definition getHostnameDeploymentConnections (w : W) : result router_error (list connection) :=
  match kube_List w None [(AkashManagedLabelName, "true"%string)] with
  | Err e => Err (RtKube e)
  | Ok items => each_item ingress_connection items.*1
  end.

#[export] Instance ingress_router : Router W :=
  {| connectHostname := connectHostnameToDeployment;
     removeHostname := removeHostnameFromDeployment;
     getConnections := getHostnameDeploymentConnections |}.

End Operations.

(** ** The router it implements *)

Section Laws.
Context {W St : Type} `{HH : LeaseHash} `{HK : !KubeCollection W Ingress St} `{HL : !KubeLaws W Ingress St}.

Definition managed (o : Ingress) : bool :=
  selector_matches [(AkashManagedLabelName, "true"%string)] (ing_labels o).

(** The route a managed ingress that can be read back stands for. *)
Definition ingress_route (o : Ingress) : option route :=
  if managed o then
    match ingress_connection o with
    | Ok c => Some (mkRoute (c_lease c) (c_service c) (c_port c))
    | Err _ => None
    end
  else None.

Definition ingress_routes (w : W) : gmap (string * string) route := omap ingress_route (stored w).

(** A managed ingress is named after the host it routes, and labelled the way
    [AppendLeaseLabels] labels it. *)
Definition ingress_owned (w : W) : Prop :=
  forall k o c, stored w !! k = Some o -> managed o = true -> ingress_connection o = Ok c ->
    c_hostname c = k.2 /\ selector_matches (kubeSelectorForLease (c_lease c)) (ing_labels o) = true.

Lemma ingress_of_connection d annotations :
  lease_ok (d_LeaseID d) ->
  ingress_connection (ingress_of d annotations) =
    Ok (mkConnection (d_LeaseID d) (d_Hostname d) (d_ServicePort d) (d_ServiceName d)).
Proof.
  intros Hlid. unfold ingress_connection. simpl. unfold lease_labels.
  by rewrite recover_append by done.
Qed.

Lemma ingress_of_route d annotations :
  lease_ok (d_LeaseID d) -> ingress_route (ingress_of d annotations) = Some (route_of d).
Proof.
  intros Hlid. unfold ingress_route. rewrite ingress_of_connection by done.
  unfold managed, selector_matches, lease_labels, AppendLeaseLabels. cbn [forallb ing_labels ingress_of].
  rewrite bool_decide_eq_true_2; [done|]. unfold lease_labels, AppendLeaseLabels. by simplify_map_eq.
Qed.

(** The ingress of a directive is put in place, or the call fails. *)
Lemma connect_stored w d :
  (exists annotations, took_effect stored w
     (<[(LidNS (d_LeaseID d), d_Hostname d) := ingress_of d annotations]> (stored w))
     (connectHostnameToDeployment w d)) \/
  ((connectHostnameToDeployment w d).1 = w /\ (connectHostnameToDeployment w d).2 <> None).
Proof.
  unfold connectHostnameToDeployment.
  destruct (kubeNginxIngressAnnotations d) as [annotations|]; [|by right].
  left. exists annotations.
  pose proof (create_or_update_effect w (LidNS (d_LeaseID d)) (ingress_of d annotations)) as Heff.
  unfold took_effect in *. simpl. by destruct (create_or_update _ _ _).2.
Qed.

Lemma ingress_connect_effect w d :
  lease_ok (d_LeaseID d) ->
  took_effect ingress_routes w (<[(LidNS (d_LeaseID d), d_Hostname d) := route_of d]> (ingress_routes w))
    (connectHostnameToDeployment w d).
Proof.
  intros Hlid. destruct (connect_stored w d) as [[annotations Heff]|[Hw Herr]].
  - assert (omap ingress_route (<[(LidNS (d_LeaseID d), d_Hostname d) := ingress_of d annotations]> (stored w))
      = <[(LidNS (d_LeaseID d), d_Hostname d) := route_of d]> (ingress_routes w)) as Ho
      by (apply omap_insert_Some; by apply ingress_of_route).
    unfold took_effect, ingress_routes in *. destruct ((connectHostnameToDeployment w d).2) as [e|].
    + destruct Heff as [-> | ->]; [by left|right]. done.
    + by rewrite Heff.
  - unfold took_effect. destruct ((connectHostnameToDeployment w d).2) as [e|]; [|done].
    left. by rewrite Hw.
Qed.

Lemma ingress_connect_owned w d :
  ingress_owned w -> lease_ok (d_LeaseID d) -> ingress_owned (connectHostnameToDeployment w d).1.
Proof.
  intros Hown Hlid k o c Hk Hm Hc. destruct (connect_stored w d) as [[annotations Heff]|[Hw _]].
  - destruct (took_effect_lookup _ _ _ _ k Heff) as [Hl|[_ Hl]]; rewrite Hl in Hk; [|by eapply Hown].
    destruct (decide (k = (LidNS (d_LeaseID d), d_Hostname d))) as [->|Hne].
    + rewrite lookup_insert_eq in Hk. injection Hk as <-. rewrite ingress_of_connection in Hc by done.
      injection Hc as <-. split; [done|]. apply selector_lease_append.
    + rewrite lookup_insert_ne in Hk by done. by eapply Hown.
  - rewrite Hw in Hk. by eapply Hown.
Qed.

(** What a removal leaves of the objects. *)
Lemma remove_stored w h lid am :
  let w' := (removeHostnameFromDeployment w h lid am).1 in
  let removed := filter (fun ko => selected (LidNS lid) (kubeSelectorForLease lid) (Some h) ko = false) (stored w) in
  (stored w' = stored w \/ stored w' = removed) /\
  ((removeHostnameFromDeployment w h lid am).2 = None -> stored w' = removed).
Proof.
  unfold removeHostnameFromDeployment. cbv zeta.
  pose proof (kube_DeleteCollection_effect w (LidNS lid) (kubeSelectorForLease lid) (Some h)) as Heff.
  unfold took_effect in Heff.
  destruct (kube_DeleteCollection w (LidNS lid) (kubeSelectorForLease lid) (Some h)).2 as [e|] eqn:He.
  - destruct (am && IsNotFound e) eqn:Ham; simpl; [|by split].
    apply andb_true_iff in Ham as [_ Hnf].
    pose proof (kube_DeleteCollection_missing _ _ _ _ _ He Hnf) as ->. auto.
  - simpl. rewrite Heff. auto.
Qed.

Lemma remove_lookup w h lid am k o :
  stored (removeHostnameFromDeployment w h lid am).1 !! k = Some o -> stored w !! k = Some o.
Proof.
  destruct (remove_stored w h lid am) as [[-> | ->] _]; [done|]. by intros [? _]%map_lookup_filter_Some.
Qed.

Lemma remove_keeps w h lid am k :
  k <> (LidNS lid, h) -> stored (removeHostnameFromDeployment w h lid am).1 !! k = stored w !! k.
Proof.
  intros Hne. destruct (remove_stored w h lid am) as [[-> | ->] _]; [done|].
  apply option_eq. intros o. rewrite map_lookup_filter_Some. split; [by intros [? _]|].
  intros Hk. split; [done|]. unfold selected. destruct k as [ns n]. simpl.
  destruct (String.eqb_spec (LidNS lid) ns) as [<-|]; [|done].
  destruct (String.eqb_spec h n) as [<-|]; [done|]. by rewrite andb_false_r.
Qed.

Lemma ingress_routes_lookup w k r :
  ingress_routes w !! k = Some r <-> exists o c, stored w !! k = Some o /\ managed o = true /\
    ingress_connection o = Ok c /\ r = mkRoute (c_lease c) (c_service c) (c_port c).
Proof.
  unfold ingress_routes, ingress_route. rewrite lookup_omap_Some. split.
  - intros (o & Ho & Hk). exists o. repeat case_match; simplify_eq; eauto 10.
  - intros (o & c & Hk & Hm & Hc & ->). exists o. by rewrite Hm, Hc.
Qed.

Lemma each_item_ok {A B} (f : A -> result router_error B) l ys :
  each_item f l = Ok ys -> forall y, y ∈ ys <-> exists x, x ∈ l /\ f x = Ok y.
Proof.
  revert ys. induction l as [|x l IH]; intros ys H y; simpl in H.
  - simplify_eq. split; [by intros ?%not_elem_of_nil|]. by intros (? & ?%not_elem_of_nil & _).
  - apply bind_result_Ok in H as (z & Hz & H). apply bind_result_Ok in H as (zs & Hzs & H).
    injection H as <-. rewrite elem_of_cons, (IH zs Hzs). split.
    + intros [->|(x' & Hx & Hf)]; [exists x|exists x']; (split; [by constructor|done]).
    + intros (x' & [->|Hx]%elem_of_cons & Hf); [left; congruence|right; eauto].
Qed.

Lemma each_item_all {A B} (f : A -> result router_error B) l ys x :
  each_item f l = Ok ys -> x ∈ l -> exists y, f x = Ok y.
Proof.
  revert ys. induction l as [|z l IH]; intros ys H Hx; simpl in H; [by apply not_elem_of_nil in Hx|].
  apply bind_result_Ok in H as (y & Hy & H). apply bind_result_Ok in H as (zs & Hzs & H).
  apply elem_of_cons in Hx as [->|Hx]; eauto.
Qed.

Lemma ingress_connections_ok w cs :
  ingress_owned w -> getHostnameDeploymentConnections w = Ok cs ->
  forall c, c ∈ cs <-> exists ns r, ingress_routes w !! (ns, c_hostname c) = Some r /\
    c = mkConnection (rt_lease r) (c_hostname c) (rt_port r) (rt_service r).
Proof.
  unfold getHostnameDeploymentConnections. intros Hown Hcs c.
  destruct (kube_List w None _) as [items|] eqn:Hi; [|done].
  pose proof (kube_List_ok w None _ items Hi) as Hitems. rewrite (each_item_ok _ _ _ Hcs). split.
  - intros (o & ([ns n] & Hk & _ & Hm)%Hitems & Hc).
    destruct (Hown (ns, n) o c Hk Hm Hc) as [Hn _]. simpl in Hn. rewrite Hn.
    exists ns. eexists. rewrite ingress_routes_lookup. split; [by eauto 10|]. subst n. by destruct c.
  - intros (ns & r & (o & c' & Hk & Hm & Hc & ->)%ingress_routes_lookup & Heq). exists o. split.
    + apply Hitems. eauto.
    + rewrite Hc. destruct (Hown _ _ _ Hk Hm Hc) as [Hn _]. simpl in Hn. rewrite Heq.
      rewrite <- Hn. by destruct c'.
Qed.

#[export] Instance ingress_router_laws : @RouterLaws W HH ingress_router.
Proof.
  refine {| routes := ingress_routes; owned := ingress_owned |}; simpl.
  - apply ingress_connect_owned.
  - intros w h lid am Hown k o c Hk%remove_lookup. by apply Hown.
  - apply ingress_connect_effect.
  - intros w h lid am k Hne. unfold ingress_routes. by rewrite !lookup_omap, remove_keeps.
  - intros w h lid am k r (o & c & Hk%remove_lookup & Hr)%ingress_routes_lookup.
    apply ingress_routes_lookup. eauto.
  - intros w h lid am r Hown Hok (o & c & Hk & Hm & Hc & ->)%ingress_routes_lookup. simpl. intros <-.
    destruct (remove_stored w h (c_lease c) am) as [_ Hrem]. rewrite (Hrem Hok) in Hk.
    apply map_lookup_filter_Some in Hk as [Hk Hsel].
    destruct (Hown _ _ _ Hk Hm Hc) as [_ Hmatch]. unfold selected in Hsel. simpl in Hsel.
    rewrite !String.eqb_refl, Hmatch in Hsel. done.
  - apply ingress_connections_ok.
Defined.

End Laws.

(** ** Examples *)

Module IngressExamples.

#[local] Existing Instance seq_hash.
#[local] Instance ex_api : KubeCollection (store Ingress) Ingress unit := store_api.
#[local] Instance ex_api_laws : KubeLaws (store Ingress) Ingress unit := store_laws.
#[local] Instance ex_go_range : GoRange := sorted_range.

Definition ex_expose : Crd.ServiceExpose :=
  Crd.mkExpose 8080 80 "TCP" "" true ["app.example.com"%string]
    (Crd.mkHTTP 0 0 0 0 0 [] false 0 0 0 0 0) "" 0.

Definition ex_manifest : Crd.Manifest SchedulerParams :=
  Crd.mkManifest "ns" "lease" "1" (CRDLease.mk "o" "1" 1 1 "p")
    (Crd.mkGroup "g" [Crd.mkService "web" "nginx" [] [] []
       (Crd.mkResources 1 (Crd.mkUnits 1 []) (Crd.mkUnits 0 []) (Crd.mkMemory "1" []) [])
       1 [ex_expose] None None None ""]).

(** Every lease but the one with sequence 9 has the manifest. *)
#[local] Instance ex_reader : ManifestReader (store Ingress) :=
  {| read_manifest _ name :=
       if String.eqb name (LidNS (mkLeaseID "akash1b" 9 1 1 "akash1p"))
       then Err (mkKubeError true "not found") else Ok ex_manifest;
     GetExternalPort port external := if (external =? 0)%Z then port else external |}.

Definition ex_cfg : IgnoreListConfig := mkIgnoreListConfig 3 100 3600.
Definition ex_op : hostnameOperator := mkOp ∅ ∅ false false.
Definition ex_world : store Ingress := mkStore ∅ [].
Definition ex_lease (n : Z) : LeaseID := mkLeaseID "akash1a" n 1 1 "akash1p".
Definition ex_event (type : string) (n : Z) : hostnameResourceEvent :=
  mkHostEvent type "app.example.com" (ex_lease n) "web" 80.

Lemma ex_lease_ok n : (0 <= n < 2 ^ 64)%Z -> lease_ok (ex_lease n).
Proof. intros Hn. unfold lease_ok, is_uint. simpl. lia. Qed.

Lemma ex_no_route k : routes ex_world !! k = None.
Proof. change (omap ingress_route (∅ : gmap (string * string) Ingress) !! k = None). by rewrite omap_empty. Qed.

Lemma ex_routable : routable ex_world.
Proof.
  split_and!.
  - intros k o c Hk. change ((∅ : gmap (string * string) Ingress) !! k = Some o) in Hk.
    by rewrite lookup_empty in Hk.
  - intros ns h r Hr. by rewrite ex_no_route in Hr.
  - intros ns ns' h r r' Hr. by rewrite ex_no_route in Hr.
Qed.

Lemma ex_mirror : mirror ex_world ex_op.
Proof.
  split; [apply ex_routable|]. intros ns h r. rewrite ex_no_route. split; [done|].
  intros (e & He & _). by simpl in He; rewrite lookup_empty in He.
Qed.

Definition ex_history : list monitor_event :=
  [EvEvents (Some (ex_event ProviderResourceAdd 1)) 5;
   EvEvents (Some (ex_event ProviderResourceUpdate 2)) 6; EvPruneTick 7].

Definition ex_op0 : hostnameOperator := mkOp ∅ ∅ true false.

Lemma ex_history_ok : events_ok ex_cfg ex_world ex_op0 ex_history.
Proof. vm_compute. split_and!; intros; first [exact I|reflexivity|discriminate]. Qed.

Lemma ex_history_lease :
  (fun s => presentLease <$> (hostnames s.2 !! "app.example.com"%string))
    <$> run_events ex_cfg ex_world ex_op0 ex_history = Some (Some (ex_lease 2)).
Proof. vm_compute. reflexivity. Qed.

Lemma hostnames_mirror_routes_witness :
  exists w' op', start_observation ex_world ex_op = (ex_op0, None) /\
    observing ex_cfg ex_world ex_op0 ex_history w' op' /\
    (exists e, hostnames op' !! "app.example.com"%string = Some e /\ presentLease e = ex_lease 2) /\
    forall ns h r, routes w' !! (ns, h) = Some r <->
      exists e, hostnames op' !! h = Some e /\ ns = LidNS (presentLease e) /\ r = entry_route e.
Proof.
  pose proof ex_history_lease as Hl.
  destruct (run_events ex_cfg ex_world ex_op0 ex_history) as [[w' op']|] eqn:Hr; [|discriminate].
  apply run_events_observing in Hr. exists w', op'. split; [reflexivity|]. split; [exact Hr|]. split.
  - simpl in Hl. destruct (hostnames op' !! _) as [e|]; [|discriminate]. exists e.
    split; [reflexivity|]. simpl in Hl. by injection Hl.
  - exact (hostnames_mirror_routes ex_cfg ex_world w' ex_op ex_op0 op' ex_history
      ex_routable eq_refl Hr ex_history_ok).
Defined.

(** The handover of the hostname, with the creation of the new route failing. *)
Definition ex_world1 : store Ingress :=
  match run_events ex_cfg ex_world ex_op0 (take 1 ex_history) with
  | Some (w, _) => mkStore (st_objects w) [None; Some "connection refused"%string] | None => ex_world end.
Definition ex_op1 : hostnameOperator :=
  match run_events ex_cfg ex_world ex_op0 (take 1 ex_history) with Some (_, op) => op | None => ex_op end.

Lemma ex_mirror1 : mirror ex_world1 ex_op1.
Proof.
  assert (events_ok ex_cfg ex_world ex_op0 (take 1 ex_history)) as Hok.
  { vm_compute. split_and!; intros; first [exact I|reflexivity|discriminate]. }
  unfold ex_world1, ex_op1.
  destruct (run_events ex_cfg ex_world ex_op0 (take 1 ex_history)) as [[w' op']|] eqn:Hr;
    [|apply ex_mirror].
  apply run_events_observing in Hr.
  pose proof (observing_mirror ex_cfg _ _ _ _ _ (start_mirror ex_world ex_op ex_op0 ex_routable eq_refl) Hr Hok) as Hm.
  exact Hm.
Qed.

Lemma ex_handover_fails :
  snd <$> Some (applyEvent ex_cfg ex_world1 (ex_event ProviderResourceUpdate 2) 6 ex_op1) =
  Some (Some (OpRouter (RtKube (mkKubeError false "connection refused")))).
Proof. vm_compute. reflexivity. Qed.

Lemma hostname_routed_once_witness :
  exists w' op' err, applyEvent ex_cfg ex_world1 (ex_event ProviderResourceUpdate 2) 6 ex_op1 =
      (w', op', Some err) /\
    forall ns ns' h r r',
      routes w' !! (ns, h) = Some r -> routes w' !! (ns', h) = Some r' -> ns = ns'.
Proof.
  pose proof ex_handover_fails as Hf. simpl in Hf.
  destruct (applyEvent ex_cfg ex_world1 (ex_event ProviderResourceUpdate 2) 6 ex_op1) as [[w' op'] err] eqn:He.
  simpl in Hf. injection Hf as ->. do 3 eexists. split; [reflexivity|].
  exact (hostname_routed_once ex_cfg ex_world1 w' ex_op1 op' (ex_event ProviderResourceUpdate 2) 6 _
    ex_mirror1 (ex_lease_ok 2 ltac:(lia)) He).
Defined.

Lemma ex_add_ok :
  snd (applyEvent ex_cfg ex_world (ex_event ProviderResourceAdd 1) 5 ex_op) = None.
Proof. vm_compute. reflexivity. Qed.

Lemma event_routes_hostname_witness :
  exists w' op', applyEvent ex_cfg ex_world (ex_event ProviderResourceAdd 1) 5 ex_op = (w', op', None) /\
    routes w' !! (LidNS (ex_lease 1), "app.example.com"%string) = Some (mkRoute (ex_lease 1) "web" 80).
Proof.
  pose proof ex_add_ok as Hok.
  destruct (applyEvent ex_cfg ex_world (ex_event ProviderResourceAdd 1) 5 ex_op) as [[w' op'] err] eqn:He.
  simpl in Hok. subst err. exists w', op'. split; [reflexivity|].
  refine (proj2 (proj1 (event_routes_hostname ex_cfg ex_world w' ex_op op'
    (ex_event ProviderResourceAdd 1) 5 ex_mirror eq_refl _ He) _ _) _).
  - split; [exact (ex_lease_ok 1 ltac:(lia))|discriminate].
  - split; [discriminate|]. split; reflexivity.
Defined.

(** Lease 2 is ignored, so the hostname stays with lease 1 until it is deleted. *)
Lemma ex_delete_ok :
  snd (applyEvent ex_cfg ex_world1 (ex_event ProviderResourceDelete 2) 6 ex_op1) = None /\
  (presentLease <$> (hostnames ex_op1 !! "app.example.com"%string)) = Some (ex_lease 1) /\
  LidNS (ex_lease 1) <> LidNS (ex_lease 2).
Proof. split; [vm_compute; reflexivity|]. split; [vm_compute; reflexivity|]. vm_compute. discriminate. Qed.

Lemma delete_of_other_lease_leaks_witness :
  exists w' op', applyEvent ex_cfg ex_world1 (ex_event ProviderResourceDelete 2) 6 ex_op1 = (w', op', None) /\
    (exists r, routes w' !! (LidNS (ex_lease 1), "app.example.com"%string) = Some r) /\
    hostnames op' !! "app.example.com"%string = None.
Proof.
  destruct ex_delete_ok as (Hok & Hl & Hns).
  destruct (applyEvent ex_cfg ex_world1 (ex_event ProviderResourceDelete 2) 6 ex_op1) as [[w' op'] err] eqn:He.
  simpl in Hok. subst err. exists w', op'. split; [reflexivity|].
  destruct (hostnames ex_op1 !! "app.example.com"%string) as [e|] eqn:Hent; [|discriminate].
  simpl in Hl. injection Hl as Hl.
  destruct (delete_of_other_lease_leaks ex_cfg ex_world1 w' ex_op1 op' (ex_event ProviderResourceDelete 2) 6 e
    ex_mirror1 Hent ltac:(rewrite Hl; exact Hns) eq_refl He) as [Hr Hn].
  split; [|exact Hn]. exists (entry_route e). rewrite <- Hl. exact Hr.
Defined.

(** A lease without a manifest. *)
Definition ex_missing : hostnameResourceEvent :=
  mkHostEvent ProviderResourceAdd "app.example.com" (mkLeaseID "akash1b" 9 1 1 "akash1p") "web" 80.

Lemma ignores_only_missing_witness :
  exists w' op' e, applyEvent ex_cfg ex_world ex_missing 5 ex_op = (w', op', Some e) /\
    leasesIgnored op' = AddError (he_lid ex_missing) (op_error_text e) ["app.example.com"%string] 5 ∅.
Proof.
  assert (snd (applyEvent ex_cfg ex_world ex_missing 5 ex_op) = Some (OpExpectedNotFound "manifest"))
    as Herr by (vm_compute; reflexivity).
  destruct (applyEvent ex_cfg ex_world ex_missing 5 ex_op) as [[w' op'] err] eqn:He.
  simpl in Herr. subst err. do 3 eexists. split; [reflexivity|].
  exact (ignores_only_missing ex_cfg ex_world w' ex_op op' ex_missing 5 _ He ltac:(discriminate)).
Defined.

End IngressExamples.
