(* ===== verification/HttpRoute.v ===== *)
(** * Routes as Gateway API resources

    Model of [cluster/kube/gateway/] ([httproute.go], [nginx_gateway.go], [gateway.go]) and of
    the gateway mode of the hostname operator ([operator/hostname/operator_gateway.go], the
    same as [cluster/kube/client_gateway.go]): a hostname is routed by an [HTTPRoute], whose
    options for nginx are in a [SnippetsFilter] that the route refers to. The filter is
    applied and accepted before the route refers to it. Like [Ingress], this implements the
    [Router] the hostname operator is proved against.

    The gateway's controller is not part of the provider: what the polls for its acceptance
    read, and the identifiers and generations the server assigns, are in [GatewayServer]. *)

From Stdlib Require Import ZArith Lia Ascii.
From stdpp Require Import base gmap list strings sorting tactics.
From S2P Require Import Prelude Types Names CRD Kube IgnoreList Manifest HostnameOp Ingress.

(** ** Objects *)

Record ParentReference := mkParent { pr_group : string; pr_kind : string; pr_namespace : string; pr_name : string }.

(** A filter of a rule that refers to an object in the namespace of the route. *)
Record ExtensionRef := mkExtRef { xr_group : string; xr_kind : string; xr_name : string }.

Record BackendRef := mkBackendRef { br_name : string; br_port : option Z }.

(** The one match of a rule is a prefix of the path. *)
Record RouteRule := mkRouteRule { rr_prefix : string; rr_filters : list ExtensionRef; rr_backends : list BackendRef }.

Record HTTPRouteSpec := mkSpec {
  sp_parents : list ParentReference; sp_hostnames : list string; sp_rules : list RouteRule
}.

Record HTTPRoute := mkHTTPRoute {
  hr_name : string; hr_labels : labels_t; hr_annotations : labels_t; hr_spec : HTTPRouteSpec
}.

#[export] Instance httproute_object : KubeObject HTTPRoute := {| obj_name := hr_name; obj_labels := hr_labels |}.

(** The route that owns an object, by name and identifier. *)
Record OwnerReference := mkOwner { or_name : string; or_uid : string }.

Record SnippetsFilter := mkFilter {
  sf_apiVersion : string; sf_kind : string; sf_name : string; sf_namespace : string;
  sf_context : string; sf_value : string; sf_owners : list OwnerReference
}.

#[export] Instance filter_object : KubeObject SnippetsFilter := {| obj_name := sf_name; obj_labels _ := ∅ |}.

(** [GroupVersionKind().Group]: the API version up to the slash, if it has one. *)
Definition group_of (apiVersion : string) : string :=
  match split "/" apiVersion with [g; _] => g | _ => "" end.

(** ** The options of a route *)

Definition newline : string := String "010" "".

Definition validProxyNextUpstreamTokens : list string :=
  ["error"; "timeout"; "invalid_header"; "http_500"; "http_502"; "http_503"; "http_504"; "http_403"; "http_404";
   "http_429"; "non_idempotent"; "off"]%string.

(** [strconv.Atoi] reads what [ParseInt] reads. *)
Definition normalizeNextCase (c : string) : string * bool :=
  let c := match ParseInt64 c with Some _ => "http_" +:+ c | None => c end in
  (c, existsb (String.eqb c) validProxyNextUpstreamTokens).

Definition buffer_group (bufferSize poolNum poolSize busy : Z) : list string :=
  ["proxy_buffer_size " +:+ FormatUint bufferSize +:+ ";";
   "proxy_buffers " +:+ FormatUint poolNum +:+ " " +:+ FormatUint poolSize +:+ ";";
   "proxy_busy_buffers_size " +:+ FormatUint busy +:+ ";"].

Definition proxyBufferLines (d : ConnectToDeploymentDirective) : list string :=
  let bufferSize := d_ProxyBufferSize d in
  let poolNum := d_ProxyBuffersNumber d in
  let poolSize := d_ProxyBuffersSize d in
  let busy := d_ProxyBusyBuffersSize d in
  (if negb (Bool.eqb (poolNum =? 0) (poolSize =? 0)) then []
   else if (bufferSize =? 0) && (poolNum =? 0) && (busy =? 0) then []
   else
     let bufferSize := if bufferSize =? 0 then poolSize else bufferSize in
     let poolSize := if poolSize =? 0 then bufferSize else poolSize in
     let poolNum := if poolNum =? 0 then 8 else poolNum in
     if (bufferSize =? 0) || (poolSize =? 0) || (poolNum <? 2) then []
     else
       let minBusy := if bufferSize <? poolSize then poolSize else bufferSize in
       let maxBusy := wrap32 (wrap32 (poolNum - 1) * poolSize) in
       let busy := if busy =? 0 then minBusy else busy in
       if (busy <? minBusy) || (maxBusy <? busy) then []
       else buffer_group bufferSize poolNum poolSize busy)%Z.

(** [strings.Join(l, " ")]. *)
Fixpoint join_spaces (l : list string) : string :=
  match l with [] => "" | [x] => x | x :: l' => x +:+ " " +:+ join_spaces l' end.

Definition valid_cases (l : list string) : list string :=
  omap (fun c => let '(tok, ok) := normalizeNextCase c in if ok then Some tok else None) l.

Definition line_if (b : bool) (l : string) : list string := if b then [l] else [].

(** The lines of the snippet. *)
Definition snippet_lines (d : ConnectToDeploymentDirective) : list string :=
  (line_if (0 <? d_MaxBodySize d)%Z ("client_max_body_size " +:+ FormatUint (d_MaxBodySize d) +:+ ";") ++
   line_if (0 <? d_ReadTimeout d)%Z ("proxy_read_timeout " +:+ FormatUint (d_ReadTimeout d) +:+ "ms;") ++
   line_if (0 <? d_SendTimeout d)%Z ("proxy_send_timeout " +:+ FormatUint (d_SendTimeout d) +:+ "ms;") ++
   line_if (0 <? d_ProxyConnectTimeout d)%Z
     ("proxy_connect_timeout " +:+ FormatUint (ceil_seconds (d_ProxyConnectTimeout d)) +:+ "s;") ++
   line_if (d_ProxyBufferingDisable d) "proxy_buffering off;" ++
   proxyBufferLines d ++
   line_if (0 <? d_NextTries d)%Z ("proxy_next_upstream_tries " +:+ FormatUint (d_NextTries d) +:+ ";") ++
   line_if (0 <? d_NextTimeout d)%Z ("proxy_next_upstream_timeout " +:+ FormatUint (d_NextTimeout d) +:+ "ms;") ++
   match valid_cases (d_NextCases d) with
   | [] => []
   | cases => ["proxy_next_upstream " +:+ join_spaces cases +:+ ";"]
   end).

Definition httpOptionsSnippet (d : ConnectToDeploymentDirective) : string :=
  foldr (fun l rest => l +:+ newline +:+ rest) ""%string (snippet_lines d).

(** ** Providers of a gateway *)

Record GatewayProvider := mkProvider {
  gp_Name : string;
  gp_BuildAnnotations : ConnectToDeploymentDirective -> labels_t;
  gp_BuildHTTPRouteSpec : string -> string -> string -> string -> Z -> list SnippetsFilter -> HTTPRouteSpec;
  gp_BuildRouteExtensions : string -> string -> ConnectToDeploymentDirective -> list SnippetsFilter
}.

Definition snippetsFilterAPIVersion : string := "gateway.nginx.org/v1alpha1".
Definition snippetsFilterKind : string := "SnippetsFilter".

Definition BuildRouteExtensions (namespace routeName : string) (d : ConnectToDeploymentDirective) : list SnippetsFilter :=
  let snippet := httpOptionsSnippet d in
  if String.eqb snippet "" then []
  else [mkFilter snippetsFilterAPIVersion snippetsFilterKind routeName namespace "http.server.location" snippet []].

Definition extension_ref (ext : SnippetsFilter) : ExtensionRef :=
  mkExtRef (group_of (sf_apiVersion ext)) (sf_kind ext) (sf_name ext).

Definition BuildHTTPRouteSpec (gatewayName gatewayNamespace hostname serviceName : string) (servicePort : Z)
    (extensions : list SnippetsFilter) : HTTPRouteSpec :=
  mkSpec [mkParent "gateway.networking.k8s.io" "Gateway" gatewayNamespace gatewayName] [hostname]
    [mkRouteRule "/" (extension_ref <$> extensions) [mkBackendRef serviceName (Some servicePort)]].

Definition nginxGateway : GatewayProvider :=
  mkProvider "nginx" (fun _ => ∅) BuildHTTPRouteSpec BuildRouteExtensions.

(** The providers by name. *)
Definition defaultRegistry : gmap string GatewayProvider := {["nginx"%string := nginxGateway]}.

Definition SupportedNames (r : gmap string GatewayProvider) : list string := merge_sort String.le (map_to_list r).*1.

Definition GetProvider (name : string) : result (string * list string) GatewayProvider :=
  match defaultRegistry !! name with Some p => Ok p | None => Err (name, SupportedNames defaultRegistry) end.

(** What the hostname operator needs of a provider: the route is for the hostname, its
    first backend is the service, and its extensions have names of their own. *)
Class ProviderLaws (p : GatewayProvider) := {
  spec_hostname gn gns h svc port exts :
    sp_hostnames (gp_BuildHTTPRouteSpec p gn gns h svc port exts) = [h];
  spec_backend gn gns h svc port exts :
    exists rule rules backends, sp_rules (gp_BuildHTTPRouteSpec p gn gns h svc port exts) = rule :: rules /\
      rr_backends rule = mkBackendRef svc (Some port) :: backends;
  extension_names ns name d : NoDup (sf_name <$> gp_BuildRouteExtensions p ns name d)
}.

#[export] Instance nginx_laws : ProviderLaws nginxGateway.
Proof.
  split; [done|intros; simpl; eauto|]. intros ns name d. simpl. unfold BuildRouteExtensions.
  destruct (String.eqb _ _); simpl; [constructor|]. apply NoDup_singleton.
Qed.

(** ** Acceptance of an extension *)

(** A condition as far as it is read; a field that is missing reads as the empty string,
    and what is not an object is [None]. *)
Record condition := mkCondition { cn_type : string; cn_status : string; cn_observed : option Z }.

Definition filter_status := list (option (list (option condition))).

Definition condition_accepts (generation : Z) (c : option condition) : bool :=
  match c with
  | None => false
  | Some c =>
      String.eqb (cn_type c) "Accepted" && String.eqb (cn_status c) "True" &&
      match cn_observed c with None => true | Some g => (g =? 0)%Z || (generation <=? g)%Z end
  end.

Definition extensionAccepted (status : filter_status) (generation : Z) : bool :=
  existsb (fun c => match c with None => false | Some conds => existsb (condition_accepts generation) conds end) status.

(** [None] is the timeout. *)
Fixpoint waitForExtensionAccepted (polls : list (result kube_error filter_status)) (generation : Z)
    : result (option kube_error) unit :=
  match polls with
  | [] => Err None
  | Err e :: _ => Err (Some e)
  | Ok status :: rest => if extensionAccepted status generation then Ok tt else waitForExtensionAccepted rest generation
  end.

(** ** Operations *)

(** What the server adds: the identifier of a route that was read ([GetUID]), that of one
    just created, the generation of an extension just applied, and what the polls for its
    status read from then on until they time out. *)
Class GatewayServer (W Mr : Type) := {
  uid_of : Mr -> string;
  assigned_uid : W -> string -> string -> string;
  applied_generation : W -> string -> string -> Z;
  accept_polls : W -> string -> string -> list (result kube_error filter_status);
  IsConflict : kube_error -> bool
}.

Record HTTPRouteConfig := mkRouteConfig { GatewayName : string; GatewayNamespace : string; Provider : GatewayProvider }.

(** [retry.DefaultRetry] tries five times. *)
Definition retry_steps : nat := 5.

Section Operations.
Context {W Mr Mf : Type} `{LeaseHash} `{HR : !KubeCollection W HTTPRoute Mr} `{HF : !KubeCollection W SnippetsFilter Mf}.
Context `{HG : !GatewayServer W Mr}.

Definition wrapped (what : string) (e : kube_error) : kube_error := mkKubeError (ke_not_found e) (what +:+ ke_text e).

Definition owned_by (routeName uid : string) (ext : SnippetsFilter) : SnippetsFilter :=
  mkFilter (sf_apiVersion ext) (sf_kind ext) (sf_name ext) (sf_namespace ext) (sf_context ext) (sf_value ext)
    [mkOwner routeName uid].

(** [Get], then [Update] with the version read, or [Create] when there is none; then the
    wait. *)
Fixpoint applyRouteExtensions (w : W) (ns routeName ownerUID : string) (exts : list SnippetsFilter)
    : W * option router_error :=
  match exts with
  | [] => (w, None)
  | ext :: rest =>
      let ext := owned_by routeName ownerUID ext in
      let name := sf_kind ext +:+ " " +:+ sf_name ext in
      let '(w, err) := create_or_update w ns ext in
      match err with
      | Some e => (w, Some (RtKube (wrapped ("failed to apply route extension " +:+ name +:+ ": ") e)))
      | None =>
          match waitForExtensionAccepted (accept_polls w ns (sf_name ext)) (applied_generation w ns (sf_name ext)) with
          | Ok _ => applyRouteExtensions w ns routeName ownerUID rest
          | Err (Some e) => (w, Some (RtKube (wrapped ("route extension " +:+ name +:+ " not accepted by the gateway: ") e)))
          | Err None => (w, Some (RtInvalid ("route extension " +:+ name +:+
                                             " not accepted by the gateway: context deadline exceeded")))
          end
      end
  end.

(** [retry.RetryOnConflict] of a [Get] and an [Update] with the version read. *)
Fixpoint publish (steps : nat) (w : W) (ns : string) (u : HTTPRoute) (last : kube_error) : W * option kube_error :=
  match steps with
  | O => (w, Some last)
  | S steps =>
      match kube_Get w ns (hr_name u) with
      | Err e => if IsConflict e then publish steps w ns u e else (w, Some e)
      | Ok (_, st) =>
          let '(w, err) := kube_Update w ns u st in
          match err with
          | Some e => if IsConflict e then publish steps w ns u e else (w, Some e)
          | None => (w, None)
          end
      end
  end.

Definition route_object (config : HTTPRouteConfig) (d : ConnectToDeploymentDirective) (spec : HTTPRouteSpec) : HTTPRoute :=
  mkHTTPRoute (d_Hostname d) (lease_labels (d_LeaseID d)) (gp_BuildAnnotations (Provider config) d) spec.

Definition empty_spec : HTTPRouteSpec := mkSpec [] [] [].

Definition route_extensions (config : HTTPRouteConfig) (d : ConnectToDeploymentDirective) : list SnippetsFilter :=
  gp_BuildRouteExtensions (Provider config) (LidNS (d_LeaseID d)) (d_Hostname d) d.

Definition final_route (config : HTTPRouteConfig) (d : ConnectToDeploymentDirective) : HTTPRoute :=
  route_object config d
    (gp_BuildHTTPRouteSpec (Provider config) (GatewayName config) (GatewayNamespace config) (d_Hostname d)
       (d_ServiceName d) (d_ServicePort d) (route_extensions config d)).

Definition no_error : kube_error := mkKubeError false "".

(** The extensions with the identifier of their owner, then the route: [create] is set for
    a new route without extensions, which was not created yet. *)
Definition attach (w : W) (config : HTTPRouteConfig) (d : ConnectToDeploymentDirective) (ownerUID : string) (create : bool)
    : W * option router_error :=
  let ns := LidNS (d_LeaseID d) in
  let '(w, err) := applyRouteExtensions w ns (d_Hostname d) ownerUID (route_extensions config d) in
  match err with
  | Some e => (w, Some e)
  | None =>
      let u := final_route config d in
      let r := if create then kube_Create w ns u else publish retry_steps w ns u no_error in
      (r.1, RtKube <$> r.2)
  end.

Definition CreateOrUpdateHTTPRoute (w : W) (config : HTTPRouteConfig) (d : ConnectToDeploymentDirective)
    : W * option router_error :=
  let ns := LidNS (d_LeaseID d) in
  match kube_Get (Obj := HTTPRoute) w ns (d_Hostname d) with
  | Ok (_, st) => attach w config d (uid_of st) false
  | Err e =>
      if negb (IsNotFound e) then (w, Some (RtKube e))
      else match route_extensions config d with
      | [] => attach w config d "" true
      | _ =>
          let '(w, err) := kube_Create w ns (route_object config d empty_spec) in
          match err with
          | Some e => (w, Some (RtKube e))
          | None => attach w config d (assigned_uid w ns (d_Hostname d)) false
          end
      end
  end.

Definition DeleteHTTPRoute (w : W) (namespace hostname : string) (allowMissing : bool) : W * option router_error :=
  let '(w, err) := kube_Delete (Obj := HTTPRoute) w namespace hostname in
  match err with
  | Some e => if allowMissing && IsNotFound e then (w, None) else (w, Some (RtKube e))
  | None => (w, None)
  end.

(** The connection of a route; a route without hostname, rule, backend or port is skipped. *)
Definition route_connection (o : HTTPRoute) : result router_error (option connection) :=
  match RecoverLeaseIDFromLabels (hr_labels o) with
  | Err _ => Err (RtInvalid "lease labels")
  | Ok lid =>
      Ok match sp_hostnames (hr_spec o), sp_rules (hr_spec o) with
         | h :: _, rule :: _ =>
             match rr_backends rule with
             | mkBackendRef svc (Some port) :: _ => Some (mkConnection lid h port svc)
             | _ => None
             end
         | _, _ => None
         end
  end.

Definition ListHTTPRouteConnections (w : W) : result router_error (list connection) :=
  match kube_List (Obj := HTTPRoute) w None [(AkashManagedLabelName, "true"%string)] with
  | Err e => Err (RtKube e)
  | Ok items => (let? cs := each_item route_connection items.*1 in Ok (omap id cs))%go
  end.

Context (config : HTTPRouteConfig).

Definition connectHostnameToDeploymentGateway (w : W) (d : ConnectToDeploymentDirective) : W * option router_error :=
  CreateOrUpdateHTTPRoute w config d.

Definition removeHostnameFromDeploymentGateway (w : W) (hostname : string) (lid : LeaseID) (allowMissing : bool)
    : W * option router_error :=
  DeleteHTTPRoute w (LidNS lid) hostname allowMissing.

Definition httproute_router : Router W :=
  {| connectHostname := connectHostnameToDeploymentGateway;
     removeHostname := removeHostnameFromDeploymentGateway;
     getConnections := ListHTTPRouteConnections |}.

End Operations.

(** ** The router it implements *)

Section Laws.
Context {W Mr Mf : Type} `{HH : LeaseHash}.
Context `{HR : !KubeCollection W HTTPRoute Mr} `{HF : !KubeCollection W SnippetsFilter Mf}.
Context `{HRL : !KubeLaws W HTTPRoute Mr} `{HFL : !KubeLaws W SnippetsFilter Mf} `{HG : !GatewayServer W Mr}.

Definition route_objects (w : W) : gmap (string * string) HTTPRoute := stored w.
Definition filter_objects (w : W) : gmap (string * string) SnippetsFilter := stored w.

(** Writing an object of one kind leaves those of the other alone. *)
Class KindsApart := {
  filter_create_apart w ns (f : SnippetsFilter) : route_objects (kube_Create w ns f).1 = route_objects w;
  filter_update_apart w ns (f : SnippetsFilter) st : route_objects (kube_Update w ns f st).1 = route_objects w;
  route_create_apart w ns (o : HTTPRoute) : filter_objects (kube_Create w ns o).1 = filter_objects w;
  route_update_apart w ns (o : HTTPRoute) st : filter_objects (kube_Update w ns o st).1 = filter_objects w
}.

Context `{HA : !KindsApart} (config : HTTPRouteConfig) `{HP : !ProviderLaws (Provider config)}.

(** The route a managed object stands for; a placeholder stands for none. *)
Definition managed_route (o : HTTPRoute) : bool :=
  selector_matches [(AkashManagedLabelName, "true"%string)] (hr_labels o).

Definition http_route (o : HTTPRoute) : option route :=
  if managed_route o then
    match route_connection o with
    | Ok (Some c) => Some (mkRoute (c_lease c) (c_service c) (c_port c))
    | _ => None
    end
  else None.

Definition http_routes (w : W) : gmap (string * string) route := omap http_route (route_objects w).

(** A managed route is named after the host it routes. *)
Definition http_owned (w : W) : Prop :=
  forall k o c, route_objects w !! k = Some o -> managed_route o = true -> route_connection o = Ok (Some c) -> c_hostname c = k.2.

Lemma route_object_managed d spec : managed_route (route_object config d spec) = true.
Proof.
  unfold managed_route, selector_matches, route_object. cbn [forallb hr_labels].
  rewrite bool_decide_eq_true_2; [done|]. unfold lease_labels, AppendLeaseLabels. by simplify_map_eq.
Qed.

Lemma final_route_connection d :
  lease_ok (d_LeaseID d) ->
  route_connection (final_route config d) =
    Ok (Some (mkConnection (d_LeaseID d) (d_Hostname d) (d_ServicePort d) (d_ServiceName d))).
Proof.
  intros Hlid. unfold route_connection, final_route, route_object. cbn [hr_labels hr_spec]. unfold lease_labels.
  rewrite recover_append by done. rewrite spec_hostname.
  edestruct (spec_backend (p := Provider config)) as (rule & rules & backends & -> & ->). done.
Qed.

Lemma final_route_route d : lease_ok (d_LeaseID d) -> http_route (final_route config d) = Some (route_of d).
Proof.
  intros Hlid. unfold http_route. rewrite final_route_connection by done.
  unfold final_route. by rewrite route_object_managed.
Qed.

Lemma placeholder_connection d :
  lease_ok (d_LeaseID d) -> route_connection (route_object config d empty_spec) = Ok None.
Proof.
  intros Hlid. unfold route_connection, route_object. cbn [hr_labels hr_spec]. unfold lease_labels.
  by rewrite recover_append by done.
Qed.

Lemma placeholder_route d : lease_ok (d_LeaseID d) -> http_route (route_object config d empty_spec) = None.
Proof. intros Hlid. unfold http_route. rewrite placeholder_connection by done. by rewrite route_object_managed. Qed.

(** Extensions are written, routes are not. *)
Lemma extensions_apart w ns name uid exts :
  route_objects (applyRouteExtensions w ns name uid exts).1 = route_objects w.
Proof.
  revert w. induction exts as [|ext exts IH]; intros w; simpl; [done|].
  assert (route_objects (create_or_update w ns (owned_by name uid ext)).1 = route_objects w) as Hw.
  { unfold create_or_update. destruct (kube_Get w ns _) as [[o st]|e]; [apply filter_update_apart|].
    destruct (IsNotFound e); [apply filter_create_apart|done]. }
  destruct (create_or_update w ns (owned_by name uid ext)) as [w1 [e|]]; [done|]. simpl in Hw.
  destruct (waitForExtensionAccepted _ _) as [[]|[e|]]; simpl; [|done..]. by rewrite IH.
Qed.

Definition key_of (d : ConnectToDeploymentDirective) : string * string := (LidNS (d_LeaseID d), d_Hostname d).

Lemma publish_effect steps w d last :
  took_effect route_objects w (<[key_of d := final_route config d]> (route_objects w))
    (publish steps w (LidNS (d_LeaseID d)) (final_route config d) last).
Proof.
  revert w last. induction steps as [|steps IH]; intros w last; simpl; [by left|].
  destruct (kube_Get w _ _) as [[o st]|e].
  2:{ destruct (IsConflict e); [apply IH|by left]. }
  pose proof (kube_Update_effect w (LidNS (d_LeaseID d)) (final_route config d) st) as Hu. unfold took_effect in Hu.
  destruct (kube_Update w (LidNS (d_LeaseID d)) (final_route config d) st) as [w1 [e|]]; simpl in *; [|done].
  destruct (IsConflict e); [|by destruct Hu as [Hu|Hu]; [left|right]].
  specialize (IH w1 e). unfold took_effect in *. unfold route_objects in *.
  change (LidNS (d_LeaseID d), hr_name (final_route config d)) with (key_of d) in Hu.
  destruct Hu as [-> | ->] in IH.
  - exact IH.
  - rewrite insert_insert_eq in IH. destruct (publish _ _ _ _ _).2; [|done]. right. by destruct IH.
Qed.

(** What a connection leaves of the routes: those it found, possibly with a placeholder
    where there was none, or the final one. *)
Lemma attach_effect w d uid create :
  took_effect route_objects w (<[key_of d := final_route config d]> (route_objects w)) (attach w config d uid create).
Proof.
  unfold attach. pose proof (extensions_apart w (LidNS (d_LeaseID d)) (d_Hostname d) uid (route_extensions config d)) as Hx.
  destruct (applyRouteExtensions _ _ _ _ _) as [w1 [e|]]; simpl in Hx; [by left|]. rewrite <- Hx.
  assert (took_effect route_objects w1 (<[key_of d := final_route config d]> (route_objects w1))
    (if create then kube_Create w1 (LidNS (d_LeaseID d)) (final_route config d)
     else publish retry_steps w1 (LidNS (d_LeaseID d)) (final_route config d) no_error)) as Hr.
  { destruct create; [exact (kube_Create_effect w1 (LidNS (d_LeaseID d)) (final_route config d))|apply publish_effect]. }
  unfold took_effect in *. cbv zeta. cbn [fst snd]. rewrite <- Hx. by destruct (if create then _ else _) as [w2 [e|]].
Qed.

Definition with_placeholder (w : W) (d : ConnectToDeploymentDirective) : gmap (string * string) HTTPRoute :=
  <[key_of d := route_object config d empty_spec]> (route_objects w).

Lemma connect_objects w d :
  let r := connectHostnameToDeploymentGateway config w d in
  (route_objects r.1 = route_objects w /\ r.2 <> None) \/
  (route_objects w !! key_of d = None /\ route_objects r.1 = with_placeholder w d /\ r.2 <> None) \/
  route_objects r.1 = <[key_of d := final_route config d]> (route_objects w).
Proof.
  cbv zeta. unfold connectHostnameToDeploymentGateway, CreateOrUpdateHTTPRoute.
  assert (forall uid create, let r := attach w config d uid create in
    (route_objects r.1 = route_objects w /\ r.2 <> None) \/
    route_objects r.1 = <[key_of d := final_route config d]> (route_objects w)) as Ha.
  { intros uid create. cbv zeta. pose proof (attach_effect w d uid create) as He. unfold took_effect in He.
    destruct (attach w config d uid create).2; [|by right]. destruct He as [He|He]; [left|right]; done. }
  destruct (kube_Get w _ _) as [[o st]|e] eqn:Eg.
  { destruct (Ha (uid_of st) false) as [?|?]; auto. }
  destruct (IsNotFound e) eqn:En; simpl; [|by left].
  pose proof (kube_Get_missing _ _ _ _ Eg En) as Hnone.
  destruct (route_extensions config d) as [|ext exts].
  { destruct (Ha ""%string true) as [?|?]; auto. }
  pose proof (kube_Create_effect w (LidNS (d_LeaseID d)) (route_object config d empty_spec)) as Hc.
  unfold took_effect in Hc. destruct (kube_Create w _ _) as [w1 [e'|]]; simpl in Hc |- *.
  { destruct Hc as [Hc|Hc]; [left|right; left]; done. }
  pose proof (attach_effect w1 d (assigned_uid w1 (LidNS (d_LeaseID d)) (d_Hostname d)) false) as He. unfold took_effect in He.
  change (route_objects w1 = with_placeholder w d) in Hc. rewrite Hc in He.
  assert (<[key_of d := final_route config d]> (with_placeholder w d) = <[key_of d := final_route config d]> (route_objects w))
    as Ei by apply insert_insert_eq.
  rewrite Ei in He. destruct (attach w1 config d _ false).2; [|by right; right].
  destruct He as [He|He]; [right; left|right; right]; done.
Qed.

Lemma placeholder_invisible w d :
  lease_ok (d_LeaseID d) -> route_objects w !! key_of d = None -> omap http_route (with_placeholder w d) = http_routes w.
Proof.
  intros Hlid Hnone. unfold with_placeholder, http_routes. rewrite omap_insert_None by (by apply placeholder_route).
  apply delete_id. by rewrite lookup_omap, Hnone.
Qed.

Lemma http_connect_effect w d :
  lease_ok (d_LeaseID d) ->
  took_effect http_routes w (<[key_of d := route_of d]> (http_routes w)) (connectHostnameToDeploymentGateway config w d).
Proof.
  intros Hlid. unfold took_effect.
  assert (omap http_route (<[key_of d := final_route config d]> (route_objects w)) = <[key_of d := route_of d]> (http_routes w))
    as Hf by (apply omap_insert_Some; by apply final_route_route).
  destruct (connect_objects w d) as [[Ho He]|[(Hn & Ho & He)|Ho]];
    unfold http_routes in *; destruct (connectHostnameToDeploymentGateway config w d).2; try done; rewrite Ho.
  - by left.
  - left. by apply placeholder_invisible.
  - right. exact Hf.
  - exact Hf.
Qed.

Lemma http_connect_owned w d :
  http_owned w -> lease_ok (d_LeaseID d) -> http_owned (connectHostnameToDeploymentGateway config w d).1.
Proof.
  intros Hown Hlid k o c Hk Hm Hc.
  destruct (connect_objects w d) as [[Ho _]|[(_ & Ho & _)|Ho]]; rewrite Ho in Hk; [by eapply Hown|..];
    (destruct (decide (k = key_of d)) as [->|Hne];
       [unfold with_placeholder in Hk; rewrite lookup_insert_eq in Hk; injection Hk as <-
       |unfold with_placeholder in Hk; rewrite lookup_insert_ne in Hk by done; by eapply Hown]).
  - by rewrite placeholder_connection in Hc.
  - rewrite final_route_connection in Hc by done. by injection Hc as <-.
Qed.

Lemma delete_objects w h lid am :
  let r := removeHostnameFromDeploymentGateway w h lid am in
  (route_objects r.1 = route_objects w \/ route_objects r.1 = delete (LidNS lid, h) (route_objects w)) /\
  (r.2 = None -> route_objects r.1 = delete (LidNS lid, h) (route_objects w)).
Proof.
  cbv zeta. unfold removeHostnameFromDeploymentGateway, DeleteHTTPRoute.
  pose proof (kube_Delete_effect (Obj := HTTPRoute) w (LidNS lid) h) as He. unfold took_effect in He.
  pose proof (kube_Delete_missing (Obj := HTTPRoute) w (LidNS lid) h) as Hm.
  destruct (kube_Delete w (LidNS lid) h) as [w1 [e|]]; simpl in *; [|auto].
  destruct (am && IsNotFound e) eqn:Ea; simpl; [|by split].
  apply andb_prop in Ea as [_ En]. specialize (Hm e eq_refl En). auto.
Qed.

Lemma http_routes_lookup w k r :
  http_routes w !! k = Some r <-> exists o c, route_objects w !! k = Some o /\ managed_route o = true /\
    route_connection o = Ok (Some c) /\ r = mkRoute (c_lease c) (c_service c) (c_port c).
Proof.
  unfold http_routes, http_route. rewrite lookup_omap_Some. split.
  - intros (o & Ho & Hk). exists o. repeat case_match; simplify_eq; eauto 10.
  - intros (o & c & Hk & Hm & Hc & ->). exists o. by rewrite Hm, Hc.
Qed.

Lemma http_connections_ok w cs :
  http_owned w -> ListHTTPRouteConnections w = Ok cs ->
  forall c, c ∈ cs <-> exists ns r, http_routes w !! (ns, c_hostname c) = Some r /\
    c = mkConnection (rt_lease r) (c_hostname c) (rt_port r) (rt_service r).
Proof.
  unfold ListHTTPRouteConnections. intros Hown Hcs c.
  destruct (kube_List w None _) as [items|] eqn:Hi; [|done].
  pose proof (kube_List_ok w None _ items Hi) as Hitems.
  apply bind_result_Ok in Hcs as (l & Hl & Hcs). injection Hcs as <-.
  rewrite list_elem_of_omap. setoid_rewrite (each_item_ok _ _ _ Hl). split.
  - intros (x & (o & ([ns n] & Hk & _ & Hm)%Hitems & Hc) & Ex). simpl in Ex. subst x.
    pose proof (Hown (ns, n) o c Hk Hm Hc) as Hn. simpl in Hn. rewrite Hn.
    exists ns. eexists. rewrite http_routes_lookup. split; [by eauto 10|]. subst n. by destruct c.
  - intros (ns & r & (o & c' & Hk & Hm & Hc & ->)%http_routes_lookup & Heq). exists (Some c). split; [|done].
    exists o. split; [apply Hitems; eauto|].
    rewrite Hc. pose proof (Hown _ _ _ Hk Hm Hc) as Hn. simpl in Hn. rewrite Heq, <- Hn. by destruct c'.
Qed.

#[export] Instance httproute_router_laws : @RouterLaws W HH (httproute_router config).
Proof.
  refine {| routes := http_routes; owned := http_owned |}; simpl.
  - apply http_connect_owned.
  - intros w h lid am Hown k o c Hk. apply Hown.
    destruct (delete_objects w h lid am) as [[Ho|Ho] _]; rewrite Ho in Hk; [done|].
    by apply lookup_delete_Some in Hk as [_ ?].
  - apply http_connect_effect.
  - intros w h lid am k Hne. unfold http_routes. rewrite !lookup_omap.
    destruct (delete_objects w h lid am) as [[-> | ->] _]; [done|]. by rewrite lookup_delete_ne.
  - intros w h lid am k r. unfold http_routes. rewrite !lookup_omap.
    destruct (delete_objects w h lid am) as [[-> | ->] _]; [done|].
    destruct (decide (k = (LidNS lid, h))) as [->|Hne]; [by rewrite lookup_delete_eq|by rewrite lookup_delete_ne].
  - intros w h lid am r _ Hok. unfold http_routes. rewrite lookup_omap.
    destruct (delete_objects w h lid am) as [_ ->]; [|done]. by rewrite lookup_delete_eq.
  - apply http_connections_ok.
Defined.

(** ** A route is published with its options *)

(** The extension is in the cluster, and the gateway has said that it accepts it. *)
Definition accepted (w : W) (ns : string) (ext : SnippetsFilter) : Prop :=
  filter_objects w !! (ns, sf_name ext) = Some ext /\
  exists status, Ok status ∈ accept_polls w ns (sf_name ext) /\
    extensionAccepted status (applied_generation w ns (sf_name ext)) = true.

Lemma wait_accepted polls generation :
  waitForExtensionAccepted polls generation = Ok tt ->
  exists status, Ok status ∈ polls /\ extensionAccepted status generation = true.
Proof.
  induction polls as [|[status|e] polls IH]; simpl; [done| |done].
  destruct (extensionAccepted status generation) eqn:E; [intros _|intros Hw].
  - exists status. split; [apply list_elem_of_here|done].
  - destruct (IH Hw) as (st & Hin & Hst). exists st. split; [by apply list_elem_of_further|done].
Qed.

Lemma extensions_frame w ns name uid exts n :
  n ∉ sf_name <$> exts ->
  filter_objects (applyRouteExtensions w ns name uid exts).1 !! (ns, n) = filter_objects w !! (ns, n).
Proof.
  revert w. induction exts as [|ext exts IH]; intros w Hn; simpl; [done|].
  rewrite fmap_cons in Hn. apply not_elem_of_cons in Hn as [Hne Hn].
  assert (filter_objects (create_or_update w ns (owned_by name uid ext)).1 !! (ns, n) = filter_objects w !! (ns, n)) as Hw.
  { eapply took_effect_frame; [apply create_or_update_effect|]. apply lookup_insert_ne. simpl. congruence. }
  destruct (create_or_update w ns (owned_by name uid ext)) as [w1 [e|]]; [done|]. simpl in Hw.
  destruct (waitForExtensionAccepted _ _) as [[]|[e|]]; simpl; [|done..]. by rewrite IH.
Qed.

Lemma extensions_accepted w ns name uid exts :
  NoDup (sf_name <$> exts) -> (applyRouteExtensions w ns name uid exts).2 = None ->
  forall ext, ext ∈ exts ->
    filter_objects (applyRouteExtensions w ns name uid exts).1 !! (ns, sf_name ext) = Some (owned_by name uid ext) /\
    exists w1, accepted w1 ns (owned_by name uid ext).
Proof.
  revert w. induction exts as [|x exts IH]; intros w Hnd Hok ext Hin; [by apply not_elem_of_nil in Hin|].
  rewrite fmap_cons in Hnd. apply list.NoDup_cons in Hnd as [Hx Hnd]. simpl in *.
  pose proof (create_or_update_effect w ns (owned_by name uid x)) as He. unfold took_effect in He.
  destruct (create_or_update w ns (owned_by name uid x)) as [w1 [e|]]; [done|]. simpl in He.
  destruct (waitForExtensionAccepted _ _) as [[]|[e|]] eqn:Ew; [|done..].
  apply elem_of_cons in Hin as [->|Hin]; [|by apply IH].
  assert (filter_objects w1 !! (ns, sf_name x) = Some (owned_by name uid x)) as Hs
    by (unfold filter_objects; rewrite He; apply lookup_insert_eq).
  rewrite extensions_frame by done. split; [done|]. exists w1. split; [done|]. by apply wait_accepted.
Qed.

Lemma publish_apart steps w ns u last : filter_objects (publish steps w ns u last).1 = filter_objects w.
Proof.
  revert w last. induction steps as [|steps IH]; intros w last; simpl; [done|].
  destruct (kube_Get w _ _) as [[o st]|e]; [|by destruct (IsConflict e)].
  pose proof (route_update_apart w ns u st) as Hu. destruct (kube_Update w ns u st) as [w1 [e|]]; simpl in *; [|done].
  destruct (IsConflict e); [by rewrite IH|done].
Qed.

Definition options_accepted (w : W) (d : ConnectToDeploymentDirective) : Prop :=
  exists uid, forall ext, ext ∈ route_extensions config d ->
    filter_objects w !! (LidNS (d_LeaseID d), sf_name ext) = Some (owned_by (d_Hostname d) uid ext) /\
    exists w1, accepted w1 (LidNS (d_LeaseID d)) (owned_by (d_Hostname d) uid ext).

Lemma attach_options w d uid create :
  route_objects (attach w config d uid create).1 = route_objects w \/ options_accepted (attach w config d uid create).1 d.
Proof.
  unfold attach. pose proof (extensions_apart w (LidNS (d_LeaseID d)) (d_Hostname d) uid (route_extensions config d)) as Hx.
  pose proof (extensions_accepted w (LidNS (d_LeaseID d)) (d_Hostname d) uid (route_extensions config d)
    (extension_names _ _ _)) as Ha.
  destruct (applyRouteExtensions _ _ _ _ _) as [w1 [e|]]; cbn [fst snd] in *; [by left|]. right. exists uid.
  assert (filter_objects (if create then kube_Create w1 (LidNS (d_LeaseID d)) (final_route config d)
    else publish retry_steps w1 (LidNS (d_LeaseID d)) (final_route config d) no_error).1 = filter_objects w1) as Ef
    by (destruct create; [apply route_create_apart|apply publish_apart]).
  intros ext Hext. rewrite Ef. by apply Ha.
Qed.

(** C8: connecting a hostname changes its route, whether or not it succeeds, only to the
    placeholder, which routes nothing, where there was no route, or to the final one; and
    the latter only when every object it refers to for its options is in the cluster, owned by a route of that name, and has been
    accepted by the gateway: a backend is never exposed without
    its options. *)
Theorem options_before_route (w : W) (d : ConnectToDeploymentDirective) (o : HTTPRoute) :
  let r := CreateOrUpdateHTTPRoute w config d in
  route_objects r.1 !! key_of d = Some o -> route_objects w !! key_of d <> Some o ->
  (route_objects w !! key_of d = None /\ o = route_object config d empty_spec /\ r.2 <> None) \/
  (o = final_route config d /\ options_accepted r.1 d).
Proof.
  cbv zeta. intros Ho Hne. destruct (connect_objects w d) as [[E _]|[(Hn & E & Herr)|E]];
    change (connectHostnameToDeploymentGateway config w d) with (CreateOrUpdateHTTPRoute w config d) in *; rewrite E in Ho.
  - done.
  - unfold with_placeholder in Ho. rewrite lookup_insert_eq in Ho. injection Ho as <-. by left.
  - rewrite lookup_insert_eq in Ho. injection Ho as <-. right. split; [done|].
    assert (route_objects (CreateOrUpdateHTTPRoute w config d).1 !! key_of d = Some (final_route config d)) as Hf
      by (rewrite E; apply lookup_insert_eq).
    revert Hf. unfold CreateOrUpdateHTTPRoute.
    assert (forall w1 uid create, route_objects w1 !! key_of d <> Some (final_route config d) ->
      route_objects (attach w1 config d uid create).1 !! key_of d = Some (final_route config d) ->
      options_accepted (attach w1 config d uid create).1 d) as Hat.
    { intros w1 uid create Hw1 Hf. destruct (attach_options w1 d uid create) as [Ea|Ha]; [by rewrite Ea in Hf|done]. }
    destruct (kube_Get w _ _) as [[o st]|e] eqn:Eg; [by apply Hat|].
    destruct (negb (IsNotFound e)); [done|]. destruct (route_extensions config d) as [|ext exts] eqn:Ex; [by apply Hat|].
    pose proof (kube_Create_effect w (LidNS (d_LeaseID d)) (route_object config d empty_spec)) as Hc. unfold took_effect in Hc.
    assert (final_route config d <> route_object config d empty_spec) as Hdiff.
    { unfold final_route, route_object. intros Hs%(f_equal hr_spec)%(f_equal sp_hostnames). cbn [hr_spec] in Hs.
      by rewrite spec_hostname in Hs. }
    destruct (kube_Create w _ _) as [w1 [e'|]]; simpl in Hc |- *.
    + intros Hf. exfalso. destruct Hc as [Hc|Hc]; change (stored w1) with (route_objects w1) in Hc; rewrite Hc in Hf; [done|].
      rewrite lookup_insert_eq in Hf. congruence.
    + apply Hat. change (stored w1) with (route_objects w1) in Hc. rewrite Hc, lookup_insert_eq. congruence.
Qed.

(** ** A route that is gone *)

(** When the route of the lease that holds a hostname is gone, another lease that declares
    the hostname does not get it: the removal of the old route, which is not allowed to be
    missing, fails, the table keeps the old lease, and the failure is counted against the
    new one. An ingress that is gone is no obstacle. *)
Theorem missing_route_blocks_handover `{!ManifestReader W} (w : W) (ev : hostnameResourceEvent) (now : Z)
    (op : hostnameOperator) (e : managedHostname) (expose : Crd.ServiceExpose) (err : kube_error) :
  hostnames op !! he_hostname ev = Some e -> presentLease e <> he_lid ev ->
  locateServiceFromManifest w (he_lid ev) (he_service ev) (he_external_port ev) = Ok expose ->
  (kube_Delete (Obj := HTTPRoute) w (LidNS (presentLease e)) (he_hostname ev)).2 = Some err -> IsNotFound err = true ->
  let '(w', op', failure) := @applyAddOrUpdateEvent W HH (httproute_router config) _ w ev now op in
  op' = op /\ failure = Some (OpRouter (RtKube err)) /\ errorIsKubernetesResourceNotFound (OpRouter (RtKube err)) = true /\
  http_routes w' !! (LidNS (presentLease e), he_hostname ev) = None.
Proof.
  intros He Hne Hl Hd Hnf. unfold applyAddOrUpdateEvent. rewrite Hl, He, bool_decide_eq_false_2 by done.
  pose proof (kube_Delete_missing (Obj := HTTPRoute) _ _ _ _ Hd Hnf) as Hs.
  simpl. unfold removeHostnameFromDeploymentGateway, DeleteHTTPRoute.
  destruct (kube_Delete w (LidNS (presentLease e)) (he_hostname ev)) as [w1 r]. simpl in *. subst r. simpl.
  split_and!; [done|done|by rewrite Hnf|]. unfold http_routes. rewrite lookup_omap. unfold route_objects.
  by rewrite Hs, lookup_delete_eq.
Qed.

End Laws.

(** ** The snippet is confined *)

(** Characters that end no directive, open no block and quote nothing. *)
Definition safe_char (c : ascii) : bool :=
  let n := nat_of_ascii c in
  (97 <=? n)%nat && (n <=? 122)%nat || (48 <=? n)%nat && (n <=? 57)%nat || Ascii.eqb c "_" || Ascii.eqb c " ".

Fixpoint all_safe (s : string) : bool :=
  match s with EmptyString => true | String c s' => safe_char c && all_safe s' end.

Definition snippet_directives : list string :=
  ["client_max_body_size"; "proxy_read_timeout"; "proxy_send_timeout"; "proxy_connect_timeout"; "proxy_buffering";
   "proxy_buffer_size"; "proxy_buffers"; "proxy_busy_buffers_size"; "proxy_next_upstream_tries";
   "proxy_next_upstream_timeout"; "proxy_next_upstream"]%string.

Definition safe_line (l : string) : Prop :=
  exists name args, name ∈ snippet_directives /\ l = name +:+ " " +:+ args +:+ ";" /\ all_safe args = true.

Lemma all_safe_app a b : all_safe (a +:+ b) = all_safe a && all_safe b.
Proof.
  induction a as [|c a IH]; [done|]. change (safe_char c && all_safe (a +:+ b) = (safe_char c && all_safe a) && all_safe b).
  by rewrite IH, andb_assoc.
Qed.

Lemma digits_safe s acc v : parse_digits acc s = Some v -> all_safe s = true.
Proof.
  revert acc. induction s as [|c s IH]; intros acc; simpl; [done|].
  destruct (digit_of c) as [n|] eqn:Hd; [|done]. intros Hs. apply IH in Hs. rewrite Hs, andb_true_r.
  unfold digit_of in Hd. unfold safe_char. case_match eqn:E; [|done].
  assert ((48 <=? nat_of_ascii c)%nat && (nat_of_ascii c <=? 57)%nat = true) as H48
    by (apply andb_prop in E as [?%Z.leb_le ?%Z.leb_le]; apply andb_true_intro; split; apply Nat.leb_le; lia).
  cbv zeta. rewrite H48.
  by rewrite orb_true_r.
Qed.

Lemma all_safe_FormatUint z : all_safe (FormatUint z) = true.
Proof.
  assert (FormatUint z = FormatUint (Z.max 0 z)) as -> by (unfold FormatUint; f_equal; lia).
  eapply digits_safe. apply FormatUint_digits. lia.
Qed.

Lemma safe_line_intro (name args : string) :
  name ∈ snippet_directives -> all_safe args = true -> safe_line (name +:+ " " +:+ args +:+ ";").
Proof. intros Hn Ha. by exists name, args. Qed.

(** A line with a number and a unit. *)
Lemma safe_number (name unit : string) z l :
  name ∈ snippet_directives -> all_safe unit = true -> l = name +:+ " " +:+ FormatUint z +:+ unit +:+ ";" -> safe_line l.
Proof.
  intros Hn Hu ->. rewrite <- (string_app_assoc (FormatUint z)). apply safe_line_intro; [done|].
  by rewrite all_safe_app, all_safe_FormatUint.
Qed.

Lemma safe_numbers (name : string) x y l :
  name ∈ snippet_directives -> l = name +:+ " " +:+ FormatUint x +:+ " " +:+ FormatUint y +:+ ";" -> safe_line l.
Proof.
  intros Hn ->. exists name, (FormatUint x +:+ " " +:+ FormatUint y). rewrite !string_app_assoc. split_and!; [done|done|].
  by rewrite !all_safe_app, !all_safe_FormatUint.
Qed.

Lemma valid_cases_tokens l : Forall (fun c => c ∈ validProxyNextUpstreamTokens) (valid_cases l).
Proof.
  apply list.Forall_forall. intros c Hc. apply list_elem_of_omap in Hc as (x & _ & Hx). unfold normalizeNextCase in Hx.
  destruct (existsb _ _) eqn:Ev; [|done]. injection Hx as <-. apply existsb_exists in Ev as (t & Ht & ->%String.eqb_eq).
  by apply list_elem_of_In.
Qed.

Lemma tokens_safe c : c ∈ validProxyNextUpstreamTokens -> all_safe c = true.
Proof.
  assert (Forall (fun t => all_safe t = true) validProxyNextUpstreamTokens) as H by (by repeat constructor).
  rewrite list.Forall_forall in H. apply H.
Qed.

Lemma join_safe l : Forall (fun c => all_safe c = true) l -> all_safe (join_spaces l) = true.
Proof.
  induction 1 as [|x l Hx Hl IH]; [done|]. destruct l as [|y l]; [done|].
  change (all_safe (x +:+ " " +:+ join_spaces (y :: l)) = true). by rewrite all_safe_app, Hx, all_safe_app, IH.
Qed.

Lemma Forall_line_if (P : string -> Prop) b l : P l -> Forall P (line_if b l).
Proof. intros HP. destruct b; repeat constructor. done. Qed.

Ltac literal_elem := repeat first [apply list_elem_of_here | apply list_elem_of_further].

Lemma buffer_lines_safe d : Forall safe_line (proxyBufferLines d).
Proof.
  unfold proxyBufferLines, buffer_group. cbv zeta.
  repeat match goal with |- Forall _ (if ?b then [] else _) => destruct b; [constructor|] end. repeat constructor.
  - by eapply (safe_number "proxy_buffer_size" ""); [literal_elem|..].
  - by eapply (safe_numbers "proxy_buffers"); [literal_elem|].
  - by eapply (safe_number "proxy_busy_buffers_size" ""); [literal_elem|..].
Qed.

(** C11: whatever a tenant puts in the options of a route, the snippet given to the gateway that
    all tenants share is a sequence of lines, each one directive of a fixed list with
    arguments of letters, digits, underscores and spaces: nothing in it ends a directive
    early, opens a block or quotes. *)
Theorem snippet_confined (d : ConnectToDeploymentDirective) :
  exists lines, httpOptionsSnippet d = foldr (fun l rest => l +:+ newline +:+ rest) ""%string lines /\ Forall safe_line lines.
Proof.
  exists (snippet_lines d). split; [done|]. unfold snippet_lines. rewrite !Forall_app.
  split_and!; try (apply Forall_line_if); [..|].
  - by eapply (safe_number "client_max_body_size" ""); [literal_elem|..].
  - by eapply (safe_number "proxy_read_timeout" "ms"); [literal_elem|..].
  - by eapply (safe_number "proxy_send_timeout" "ms"); [literal_elem|..].
  - by eapply (safe_number "proxy_connect_timeout" "s"); [literal_elem|..].
  - by apply (safe_line_intro "proxy_buffering" "off"); [literal_elem|].
  - apply buffer_lines_safe.
  - by eapply (safe_number "proxy_next_upstream_tries" ""); [literal_elem|..].
  - by eapply (safe_number "proxy_next_upstream_timeout" "ms"); [literal_elem|..].
  - pose proof (valid_cases_tokens (d_NextCases d)) as Ht. destruct (valid_cases (d_NextCases d)) as [|c cs]; [constructor|].
    constructor; [|constructor]. apply (safe_line_intro "proxy_next_upstream"); [literal_elem|].
    apply join_safe. apply (list.Forall_impl _ _ _ Ht). apply tokens_safe.
Qed.

(** ** The proxy buffers are consistent *)

(** What nginx requires of the three directives together. *)
Definition nginx_buffers_ok (bufferSize number size busy : Z) : Prop :=
  (0 < bufferSize /\ 0 < size /\ 2 <= number /\ Z.max bufferSize size <= busy <= (number - 1) * size)%Z.

(** The buffer directives are written together or not at all, in values nginx accepts, and
    those the tenant has set are written as they were set. So no tenant breaks the
    configuration of the gateway with them, although the product is computed in 32 bits. *)
Theorem proxy_buffers_consistent (d : ConnectToDeploymentDirective) :
  is_uint 32 (d_ProxyBufferSize d) -> is_uint 32 (d_ProxyBuffersNumber d) -> is_uint 32 (d_ProxyBuffersSize d) ->
  is_uint 32 (d_ProxyBusyBuffersSize d) ->
  proxyBufferLines d = [] \/
  exists bufferSize number size busy,
    proxyBufferLines d = buffer_group bufferSize number size busy /\
    nginx_buffers_ok bufferSize number size busy /\
    (d_ProxyBufferSize d = 0 \/ bufferSize = d_ProxyBufferSize d)%Z /\
    (d_ProxyBuffersNumber d = 0 \/ number = d_ProxyBuffersNumber d)%Z /\
    (d_ProxyBuffersSize d = 0 \/ size = d_ProxyBuffersSize d)%Z /\
    (d_ProxyBusyBuffersSize d = 0 \/ busy = d_ProxyBusyBuffersSize d)%Z.
Proof.
  unfold is_uint, proxyBufferLines. intros Hb Hn Hs Hy. cbv zeta.
  destruct (negb _); [by left|]. destruct (_ && _ && _); [by left|].
  set (b := if (d_ProxyBufferSize d =? 0)%Z then _ else _).
  assert (0 <= b < 2 ^ 32 /\ (d_ProxyBufferSize d = 0 \/ b = d_ProxyBufferSize d))%Z as [Hb' Eb]
    by (unfold b; destruct (Z.eqb_spec (d_ProxyBufferSize d) 0); auto).
  clearbody b. set (s := if (d_ProxyBuffersSize d =? 0)%Z then b else _).
  assert (0 <= s < 2 ^ 32 /\ (d_ProxyBuffersSize d = 0 \/ s = d_ProxyBuffersSize d))%Z as [Hs' Es]
    by (unfold s; destruct (Z.eqb_spec (d_ProxyBuffersSize d) 0); auto).
  set (n := if (d_ProxyBuffersNumber d =? 0)%Z then 8%Z else _).
  assert (0 <= n < 2 ^ 32 /\ (d_ProxyBuffersNumber d = 0 \/ n = d_ProxyBuffersNumber d))%Z as [Hn' En]
    by (unfold n; destruct (Z.eqb_spec (d_ProxyBuffersNumber d) 0); auto with lia).
  clearbody s n. destruct ((b =? 0) || (s =? 0) || (n <? 2))%Z eqn:E0; [by left|].
  apply orb_false_elim in E0 as [[?%Z.eqb_neq ?%Z.eqb_neq]%orb_false_elim ?%Z.ltb_ge].
  set (m := if (b <? s)%Z then s else b). assert (m = Z.max b s) as Hm by (unfold m; destruct (Z.ltb_spec b s); lia).
  set (y := if (d_ProxyBusyBuffersSize d =? 0)%Z then m else _).
  assert (d_ProxyBusyBuffersSize d = 0 \/ y = d_ProxyBusyBuffersSize d)%Z as Ey
    by (unfold y; destruct (Z.eqb_spec (d_ProxyBusyBuffersSize d) 0); auto).
  clearbody m y. destruct ((y <? m) || (_ <? y))%Z eqn:E1; [by left|].
  apply orb_false_elim in E1 as [?%Z.ltb_ge Hmax%Z.ltb_ge]. right. exists b, n, s, y. split; [done|]. split; [|done].
  unfold wrap32 in Hmax. rewrite (wrap_id 32 (n - 1)) in Hmax by (unfold is_uint; lia).
  unfold nginx_buffers_ok, wrap in *. pose proof (Z.mod_le ((n - 1) * s) (2 ^ 32) ltac:(nia) ltac:(lia)). lia.
Qed.

(** A product that does not fit in 32 bits makes a group nginx would accept be dropped. *)
Lemma large_buffers_dropped :
  exists d, proxyBufferLines d = [] /\ (d_ProxyBufferSize d <> 0 /\ d_ProxyBuffersNumber d <> 0 /\
    d_ProxyBuffersSize d <> 0 /\ d_ProxyBusyBuffersSize d <> 0)%Z /\
    nginx_buffers_ok (d_ProxyBufferSize d) (d_ProxyBuffersNumber d) (d_ProxyBuffersSize d) (d_ProxyBusyBuffersSize d).
Proof.
  exists (mkDirective "" (mkLeaseID "" 0 0 0 "") "" 0 0 0 0 0 0 [] false 65536 65537 65536 65536 0).
  split; [reflexivity|]. unfold nginx_buffers_ok. simpl. lia.
Qed.

(** ** Examples *)

Module HttpRouteExamples.

#[local] Existing Instance seq_hash.

(** A cluster with routes and filters; deleting what is not there is an error. *)
Record world := mkWorld { w_routes : store HTTPRoute; w_filters : store SnippetsFilter }.

Definition api {O} `{KubeObject O} : KubeCollection (store O) O unit := store_api.

Definition missing : kube_error := mkKubeError true "not found".

#[local] Instance routes_api : KubeCollection world HTTPRoute unit :=
  {| kube_Get w := @kube_Get _ _ _ api (w_routes w);
     kube_List w := @kube_List _ _ _ api (w_routes w);
     kube_Create w ns o := let r := @kube_Create _ _ _ api (w_routes w) ns o in (mkWorld r.1 (w_filters w), r.2);
     kube_Update w ns o st := let r := @kube_Update _ _ _ api (w_routes w) ns o st in (mkWorld r.1 (w_filters w), r.2);
     kube_Delete w ns n := match st_objects (w_routes w) !! (ns, n) with
                           | None => (w, Some missing)
                           | Some _ => let r := @kube_Delete _ _ _ api (w_routes w) ns n in (mkWorld r.1 (w_filters w), r.2)
                           end;
     kube_DeleteCollection w ns sel n :=
       let r := @kube_DeleteCollection _ _ _ api (w_routes w) ns sel n in (mkWorld r.1 (w_filters w), r.2) |}.

#[local] Instance filters_api : KubeCollection world SnippetsFilter unit :=
  {| kube_Get w := @kube_Get _ _ _ api (w_filters w);
     kube_List w := @kube_List _ _ _ api (w_filters w);
     kube_Create w ns o := let r := @kube_Create _ _ _ api (w_filters w) ns o in (mkWorld (w_routes w) r.1, r.2);
     kube_Update w ns o st := let r := @kube_Update _ _ _ api (w_filters w) ns o st in (mkWorld (w_routes w) r.1, r.2);
     kube_Delete w ns n := let r := @kube_Delete _ _ _ api (w_filters w) ns n in (mkWorld (w_routes w) r.1, r.2);
     kube_DeleteCollection w ns sel n :=
       let r := @kube_DeleteCollection _ _ _ api (w_filters w) ns sel n in (mkWorld (w_routes w) r.1, r.2) |}.

#[local] Instance routes_laws : KubeLaws world HTTPRoute unit.
Proof.
  pose proof (@store_laws HTTPRoute _) as L.
  refine {| stored w := st_objects (w_routes w) |}.
  - intros w. apply (@kube_Get_ok _ _ _ _ api store_laws (w_routes w)).
  - intros w. apply (@kube_Get_missing _ _ _ _ api store_laws (w_routes w)).
  - intros w. apply (@kube_List_ok _ _ _ _ api store_laws (w_routes w)).
  - intros w. apply (@kube_Create_effect _ _ _ _ api store_laws (w_routes w)).
  - intros w. apply (@kube_Update_effect _ _ _ _ api store_laws (w_routes w)).
  - intros w ns n. simpl. destruct (st_objects (w_routes w) !! (ns, n)) as [o|]; [|by left].
    apply (@kube_Delete_effect _ _ _ _ api store_laws (w_routes w)).
  - intros w. apply (@kube_DeleteCollection_effect _ _ _ _ api store_laws (w_routes w)).
  - intros w ns n e. simpl. destruct (st_objects (w_routes w) !! (ns, n)) as [o|] eqn:E.
    + apply (@kube_Delete_missing _ _ _ _ api store_laws (w_routes w)).
    + intros _ _. simpl. by rewrite delete_id.
  - intros w. apply (@kube_DeleteCollection_missing _ _ _ _ api store_laws (w_routes w)).
Defined.

#[local] Instance filters_laws : KubeLaws world SnippetsFilter unit.
Proof.
  refine {| stored w := st_objects (w_filters w) |}.
  - intros w. apply (@kube_Get_ok _ _ _ _ api store_laws (w_filters w)).
  - intros w. apply (@kube_Get_missing _ _ _ _ api store_laws (w_filters w)).
  - intros w. apply (@kube_List_ok _ _ _ _ api store_laws (w_filters w)).
  - intros w. apply (@kube_Create_effect _ _ _ _ api store_laws (w_filters w)).
  - intros w. apply (@kube_Update_effect _ _ _ _ api store_laws (w_filters w)).
  - intros w. apply (@kube_Delete_effect _ _ _ _ api store_laws (w_filters w)).
  - intros w. apply (@kube_DeleteCollection_effect _ _ _ _ api store_laws (w_filters w)).
  - intros w. apply (@kube_Delete_missing _ _ _ _ api store_laws (w_filters w)).
  - intros w. apply (@kube_DeleteCollection_missing _ _ _ _ api store_laws (w_filters w)).
Defined.

(** The controller accepts a filter at the second poll. *)
#[local] Instance ex_server : GatewayServer world unit :=
  {| uid_of _ := "uid-0"%string; assigned_uid _ _ _ := "uid-1"%string; applied_generation _ _ _ := 1%Z;
     accept_polls _ _ _ := [Ok []; Ok [Some [Some (mkCondition "Accepted" "True" (Some 1%Z))]]]; IsConflict _ := false |}.

#[local] Instance ex_apart : KindsApart.
Proof. by split. Qed.

Definition ex_config : HTTPRouteConfig := mkRouteConfig "gateway" "akash-gateway" nginxGateway.

Definition ex_lease (n : Z) : LeaseID := mkLeaseID "akash1a" n 1 1 "akash1p".

Definition ex_directive : ConnectToDeploymentDirective :=
  mkDirective "app.example.com" (ex_lease 1) "web" 80 60000 60000 60000 1048576 3 ["error"; "500; }"; "502"]%string
    false 8192 0 0 0 0.

Definition ex_empty : world := mkWorld (mkStore ∅ []) (mkStore ∅ []).

Lemma options_before_route_witness :
  let r := CreateOrUpdateHTTPRoute ex_empty ex_config ex_directive in
  (final_route ex_config ex_directive = route_object ex_config ex_directive empty_spec /\ r.2 <> None) \/
  options_accepted ex_config r.1 ex_directive.
Proof.
  destruct (options_before_route ex_config ex_empty ex_directive (final_route ex_config ex_directive)) as [(_ & E & H)|[_ H]].
  - vm_compute. reflexivity.
  - vm_compute. discriminate.
  - left. by split.
  - by right.
Defined.

Lemma proxy_buffers_consistent_witness :
  proxyBufferLines ex_directive <> [] /\ exists bufferSize number size busy,
    proxyBufferLines ex_directive = buffer_group bufferSize number size busy /\ nginx_buffers_ok bufferSize number size busy.
Proof.
  assert (proxyBufferLines ex_directive <> []) as Hne by (vm_compute; discriminate). split; [exact Hne|].
  destruct (proxy_buffers_consistent ex_directive) as [E|(b & n & s & y & E & H & _)];
    [unfold is_uint; simpl; lia..|by destruct Hne|eauto 10].
Defined.

#[local] Instance ex_reader : ManifestReader world :=
  {| read_manifest _ _ := Ok IngressExamples.ex_manifest; GetExternalPort port external := if (external =? 0)%Z then port else external |}.

Definition ex_event : hostnameResourceEvent := mkHostEvent ProviderResourceAdd "app.example.com" (ex_lease 2) "web" 80.
Definition ex_held : managedHostname := mkManaged None (ex_lease 1) "web" 80 0.
Definition ex_op : hostnameOperator := mkOp {["app.example.com"%string := ex_held]} ∅ false false.

Lemma missing_route_blocks_handover_witness :
  let '(w', op', failure) := @applyAddOrUpdateEvent world _ (httproute_router ex_config) _ ex_empty ex_event 5 ex_op in
  op' = ex_op /\ failure = Some (OpRouter (RtKube missing)) /\ errorIsKubernetesResourceNotFound (OpRouter (RtKube missing)) = true /\
  http_routes w' !! (LidNS (presentLease ex_held), "app.example.com"%string) = None.
Proof.
  apply (missing_route_blocks_handover ex_config ex_empty ex_event 5 ex_op ex_held IngressExamples.ex_expose missing);
    [vm_compute; reflexivity|vm_compute; discriminate|vm_compute; reflexivity..].
Defined.

End HttpRouteExamples.
