(* ===== verification/Migrations.v ===== *)
(** * Migrations between versions of the provider

    Model of [migrations/] ([registry.go], [state.go], [ingress_to_httproute.go]) and of
    [runMigrations] of [cmd/provider-services/cmd/migrate_run.go]: which migrations a start
    of the provider runs, what it records of them in its state file, and the one migration
    there is, from ingresses to routes of the Gateway API.

    The file is a value that a write replaces; writes may fail. The JSON of the state is read
    back as it was written. *)

From Stdlib Require Import ZArith Lia Ascii.
From stdpp Require Import base gmap list strings sorting tactics.
From S2P Require Import Prelude Types Names CRD Kube IgnoreList Manifest HostnameOp Ingress HttpRoute.

(** ** Versions *)

(** [strings.TrimPrefix(s, "v")]. *)
Definition trim_v (s : string) : string :=
  match s with String c rest => if Ascii.eqb c "v" then rest else s | EmptyString => s end.

(** The text up to the first dash. *)
Fixpoint stripVersionSuffix (s : string) : string :=
  match s with
  | EmptyString => EmptyString
  | String c rest => if Ascii.eqb c "-" then EmptyString else String c (stripVersionSuffix rest)
  end.

(** [fmt.Sscanf(part, "%d", &result)] of a new [int]: blanks are skipped, a sign and the
    longest run of digits are read; the variable stays zero when there is none or the number
    does not fit. *)
Fixpoint skip_blanks (s : string) : string :=
  match s with String c rest => if Ascii.eqb c " " then skip_blanks rest else s | EmptyString => s end.

Fixpoint leading_digits (s : string) (acc : Z) : Z :=
  match s with
  | EmptyString => acc
  | String c rest => match digit_of c with Some d => leading_digits rest (10 * acc + d) | None => acc end
  end.

Definition scan_int (s : string) : Z :=
  let s := skip_blanks s in
  let '(neg, body) := match s with
                      | String c rest => if Ascii.eqb c "-" then (true, rest)
                                         else if Ascii.eqb c "+" then (false, rest) else (false, s)
                      | EmptyString => (false, s)
                      end in
  let n := leading_digits body 0 in
  let z := if neg then (- n)%Z else n in
  if ((- 2 ^ 63 <=? z) && (z <? 2 ^ 63))%Z then z else 0%Z.

Definition parseVersionPart (parts : list string) (index : nat) : Z :=
  match parts !! index with None => 0%Z | Some part => scan_int (stripVersionSuffix part) end.

(** The loop over the parts from [i], [n] of them. *)
Fixpoint parts_less (n i : nat) (p1 p2 : list string) : bool :=
  match n with
  | O => false
  | S n =>
      let a := parseVersionPart p1 i in
      let b := parseVersionPart p2 i in
      if (a <? b)%Z then true else if (b <? a)%Z then false else parts_less n (S i) p1 p2
  end.

Definition version_parts (v : string) : list string := split "." (trim_v (stripVersionSuffix v)).

Definition versionLessThan (v1 v2 : string) : bool :=
  if String.eqb v1 "" then false
  else if String.eqb v2 "" then false
  else let p1 := version_parts v1 in let p2 := version_parts v2 in
       parts_less (Nat.max (List.length p1) (List.length p2)) 0 p1 p2.

(** ** The state file *)

Record State := mkState { Applied : list string; LastRun : Z; ProviderVersion : string }.

(** [FUnreadable] stands for a file that cannot be read or is not JSON. *)
Inductive file := FMissing | FUnreadable | FState (s : State).

(** The file, how the next writes go, and the clock. *)
Record disk := mkDisk { dk_file : file; dk_writes : list bool; dk_now : Z }.

Definition empty_state : State := mkState [] 0 "".

Definition Load (d : disk) : option State :=
  match dk_file d with FMissing => Some empty_state | FUnreadable => None | FState s => Some s end.

(** A write that fails leaves the file as it was. *)
Definition Save (d : disk) (s : State) : disk * bool :=
  let ok := default true (head (dk_writes d)) in
  (mkDisk (if ok then FState (mkState (Applied s) (dk_now d) (ProviderVersion s)) else dk_file d)
     (tail (dk_writes d)) (dk_now d), ok).

Definition IsApplied (d : disk) (name : string) : option bool :=
  s ← Load d; Some (bool_decide (name ∈ Applied s)).

Definition MarkApplied (d : disk) (name : string) : disk * bool :=
  match Load d with
  | None => (d, false)
  | Some s => if bool_decide (name ∈ Applied s) then (d, true)
              else Save d (mkState (Applied s ++ [name]) (LastRun s) (ProviderVersion s))
  end.

Definition SetProviderVersion (d : disk) (version : string) : disk * bool :=
  match Load d with
  | None => (d, false)
  | Some s => Save d (mkState (Applied s) (LastRun s) version)
  end.

Definition GetProviderVersion (d : disk) : option string := ProviderVersion <$> Load d.

(** ** The registry *)

Record Migration := mkMigration { m_name : string; m_from : string }.

(** [Register]; [None] is its panic. *)
Definition Register (registry : gmap string Migration) (m : Migration) : option (gmap string Migration) :=
  if String.eqb (m_name m) "" then None
  else match registry !! m_name m with Some _ => None | None => Some (<[m_name m := m]> registry) end.

Definition name_le (a b : Migration) : Prop := String.le (m_name a) (m_name b).

#[export] Instance name_le_dec : RelDecision name_le.
Proof. unfold name_le, RelDecision. intros a b. apply _. Defined.

#[export] Instance name_le_total : Total name_le.
Proof. intros a b. apply (total String.le). Qed.

#[export] Instance name_le_trans : Transitive name_le.
Proof. intros a b c. unfold name_le. apply transitivity. Qed.

Section Runs.
Context `{GoRange} (registry : gmap string Migration).

Definition GetAll : list Migration := merge_sort name_le (range_map registry).*2.

(** Whether a migration that has not been applied is due. *)
Definition version_matches (previousVersion fromVersion : string) : bool :=
  let normalizedPrevious := trim_v previousVersion in
  let normalizedFrom := trim_v fromVersion in
  versionLessThan normalizedPrevious normalizedFrom || String.eqb normalizedPrevious normalizedFrom.

Definition due (previousVersion : string) (m : Migration) : bool :=
  negb (String.eqb (m_from m) "") && negb (String.eqb previousVersion "") && version_matches previousVersion (m_from m).

(** The state file is read again for every migration. *)
Definition GetPending (d : disk) : option (list Migration) :=
  previousVersion ← GetProviderVersion d;
  applied ← mapM (fun m => IsApplied d (m_name m)) GetAll;
  Some (omap (fun p : Migration * bool => let '(m, a) := p in
                if negb a && due previousVersion m then Some m else None) (zip GetAll applied)).

(** [run] is whether a migration succeeds when it is run now. *)
Fixpoint run_all (run : Migration -> bool) (d : disk) (ms : list Migration) : disk * list string * list string * nat :=
  match ms with
  | [] => (d, [], [], 0%nat)
  | m :: rest =>
      if run m then
        let '(d, ok) := MarkApplied d (m_name m) in
        let '(d, ran, errs, n) := run_all run d rest in
        if ok then (d, m_name m :: ran, errs, S n) else (d, m_name m :: ran, m_name m :: errs, n)
      else
        let '(d, ran, errs, n) := run_all run d rest in (d, m_name m :: ran, m_name m :: errs, n)
  end.

(** The disk, the migrations that were run, the errors and the number of successes. *)
Definition RunMigrations (run : Migration -> bool) (currentVersion : string) (d : disk)
    : disk * list string * list string * nat :=
  match GetPending d with
  | None => (d, [], ["pending"%string], 0%nat)
  | Some pending =>
      let '(d, ran, errs, n) := run_all run d pending in
      if String.eqb currentVersion "" then (d, ran, errs, n)
      else let '(d, ok) := SetProviderVersion d currentVersion in
           (d, ran, (if ok then errs else errs ++ ["version"%string]), n)
  end.

Record runMigrationsResult := mkRunResult { SuccessCount : nat; Errs : list string }.

(** The version is set, or the start fails. *)
Definition finish_run (d : disk) (currentVersion : string) (ran : list string)
    : disk * list string * option runMigrationsResult :=
  let '(d, ok) := SetProviderVersion d currentVersion in
  (d, ran, if ok then Some (mkRunResult 0 []) else None).

Fixpoint mark_all (d : disk) (ms : list Migration) : disk * bool :=
  match ms with
  | [] => (d, true)
  | m :: rest => let '(d, ok) := MarkApplied d (m_name m) in if ok then mark_all d rest else (d, false)
  end.

(** One start of the provider: the disk it leaves, the migrations it ran, and its result.
    [version] is the version it was built with. *)
Definition runMigrations (run : Migration -> bool) (version : string) (d : disk)
    : disk * list string * option runMigrationsResult :=
  let currentVersion := if String.eqb version "" then "0.0.0"%string else version in
  match GetProviderVersion d with
  | None => (d, [], None)
  | Some previousVersion =>
      if String.eqb previousVersion "" then
        let '(d, ok) := mark_all d GetAll in
        if ok then finish_run d currentVersion [] else (d, [], None)
      else match GetAll with
      | [] => finish_run d currentVersion []
      | _ =>
          match GetPending d with
          | None => (d, [], None)
          | Some [] => finish_run d currentVersion []
          | Some _ =>
              let '(d, ran, errs, n) := RunMigrations run currentVersion d in
              (d, ran, Some (mkRunResult n errs))
          end
      end
  end.

End Runs.

(** ** The order of versions *)

(** The numbers of a version, zero beyond its last part. *)
Definition version_number (v : string) (i : nat) : Z := parseVersionPart (version_parts v) i.

Definition same_numbers (v w : string) : Prop := forall i, version_number v i = version_number w i.

Definition numbers_less (v w : string) : Prop :=
  exists i, (version_number v i < version_number w i)%Z /\ forall j, (j < i)%nat -> version_number v j = version_number w j.

Lemma part_beyond p i : (List.length p <= i)%nat -> parseVersionPart p i = 0%Z.
Proof. intros Hi. unfold parseVersionPart. by rewrite lookup_ge_None_2. Qed.

Lemma parts_less_spec n i p1 p2 :
  parts_less n i p1 p2 = true <->
  exists k, (i <= k < i + n)%nat /\ (parseVersionPart p1 k < parseVersionPart p2 k)%Z /\
    forall j, (i <= j < k)%nat -> parseVersionPart p1 j = parseVersionPart p2 j.
Proof.
  revert i. induction n as [|n IH]; intros i; simpl; [split; [done|intros (k & Hk & _); lia]|].
  destruct (Z.ltb_spec (parseVersionPart p1 i) (parseVersionPart p2 i)) as [Hlt|Hge].
  { split; [intros _|done]. exists i. split; [lia|]. split; [done|]. intros j Hj. lia. }
  destruct (Z.ltb_spec (parseVersionPart p2 i) (parseVersionPart p1 i)) as [Hgt|Hle].
  { split; [done|]. intros (k & Hk & Hlt & Heq). destruct (decide (k = i)) as [->|]; [lia|].
    specialize (Heq i ltac:(lia)). lia. }
  rewrite IH. split; intros (k & Hk & Hlt & Heq).
  - exists k. split; [lia|]. split; [done|]. intros j Hj. destruct (decide (j = i)) as [->|]; [lia|]. apply Heq. lia.
  - exists k. destruct (decide (k = i)) as [->|]; [lia|]. split; [lia|]. split; [done|]. intros j Hj. apply Heq. lia.
Qed.

Lemma versionLessThan_spec v w : versionLessThan v w = true <-> v <> ""%string /\ w <> ""%string /\ numbers_less v w.
Proof.
  unfold versionLessThan, numbers_less, version_number.
  destruct (String.eqb_spec v ""); [split; [done|by intros [? _]]|].
  destruct (String.eqb_spec w ""); [split; [done|by intros (_ & ? & _)]|].
  rewrite parts_less_spec. split.
  - intros (k & _ & Hlt & Heq). split_and!; [done..|]. exists k. split; [done|]. intros j Hj. apply Heq. lia.
  - intros (_ & _ & k & Hlt & Heq). exists k. split_and!; [lia| |done|intros j Hj; apply Heq; lia].
    destruct (decide (k < 0 + Nat.max (List.length (version_parts v)) (List.length (version_parts w)))%nat); [lia|].
    rewrite !part_beyond in Hlt by lia. lia.
Qed.

Lemma numbers_less_trans u v w : numbers_less u v -> numbers_less v w -> numbers_less u w.
Proof.
  intros (i & Hi & Ei) (k & Hk & Ek). destruct (Nat.lt_trichotomy i k) as [Hlt|[->|Hlt]].
  - exists i. split; [rewrite <- (Ek i) by lia; done|]. intros j Hj. rewrite Ei by lia. apply Ek. lia.
  - exists k. split; [lia|]. intros j Hj. rewrite Ei by lia. by apply Ek.
  - exists k. split; [rewrite (Ei k) by lia; done|]. intros j Hj. rewrite Ei by lia. apply Ek. lia.
Qed.

Lemma numbers_less_irrefl v : ~ numbers_less v v.
Proof. intros (i & Hi & _). lia. Qed.

(** The first part in which two versions differ, if there is one among the first [n]. *)
Lemma first_difference v w n :
  (exists i, version_number v i <> version_number w i /\ forall j, (j < i)%nat -> version_number v j = version_number w j) \/
  forall i, (i < n)%nat -> version_number v i = version_number w i.
Proof.
  induction n as [|n [IH|IH]]; [right; lia|by left|].
  destruct (decide (version_number v n = version_number w n)) as [E|E]; [right|left; eauto].
  intros i Hi. destruct (decide (i = n)) as [->|]; [done|]. apply IH. lia.
Qed.

(** Versions are strictly ordered by their numbers, so that of two versions one is older
    unless they have the same numbers; what follows a dash does not count. *)
Theorem versions_ordered (u v w : string) :
  versionLessThan v v = false /\
  (versionLessThan u v = true -> versionLessThan v w = true -> versionLessThan u w = true) /\
  (v <> ""%string -> w <> ""%string ->
    (versionLessThan v w = true \/ versionLessThan w v = true \/ same_numbers v w) /\
    (same_numbers v w -> versionLessThan v w = false)).
Proof.
  split; [|split].
  - apply not_true_is_false. rewrite versionLessThan_spec. intros (_ & _ & Hl). by apply numbers_less_irrefl in Hl.
  - rewrite !versionLessThan_spec. intros (? & ? & ?) (? & ? & ?). split_and!; [done..|]. by eapply numbers_less_trans.
  - intros Hv Hw. rewrite !versionLessThan_spec. split.
    + destruct (first_difference v w (Nat.max (List.length (version_parts v)) (List.length (version_parts w)))) as [(i & Hi & Ei)|He].
      * destruct (Z.lt_total (version_number v i) (version_number w i)) as [H|[H|H]]; [left|done|right; left].
        -- split_and!; [done..|]. by exists i.
        -- split_and!; [done..|]. exists i. split; [done|]. intros j Hj. symmetry. by apply Ei.
      * right; right. intros i.
        destruct (decide (i < Nat.max (List.length (version_parts v)) (List.length (version_parts w)))%nat); [by apply He|].
        unfold version_number. rewrite !part_beyond by lia. done.
    + intros Hs. apply not_true_is_false. rewrite versionLessThan_spec. intros (_ & _ & i & Hi & _). rewrite Hs in Hi. lia.
Qed.

(** ** What a start runs *)

Section RunProofs.
Context `{GoRange} (registry : gmap string Migration).

Definition is_pending (s : State) (m : Migration) : bool :=
  negb (bool_decide (m_name m ∈ Applied s)) && due (ProviderVersion s) m.

Lemma pending_filter s l :
  omap (fun p : Migration * bool => let '(m, a) := p in
          if negb a && due (ProviderVersion s) m then Some m else None)
    (zip l ((fun m => bool_decide (m_name m ∈ Applied s)) <$> l)) = filter (fun m => is_pending s m = true) l.
Proof.
  induction l as [|m l IH]; [done|]. rewrite fmap_cons, filter_cons. cbn [zip zip_with omap list_omap]. rewrite <- IH.
  case_decide as Hp; unfold is_pending in Hp; by destruct (negb _ && _).
Qed.

Lemma GetPending_spec d s :
  Load d = Some s -> GetPending registry d = Some (filter (fun m => is_pending s m = true) (GetAll registry)).
Proof.
  intros Hs. unfold GetPending, GetProviderVersion, IsApplied. rewrite Hs. simpl.
  assert (forall l, mapM (fun m => Some (bool_decide (m_name m ∈ Applied s))) l =
    Some ((fun m => bool_decide (m_name m ∈ Applied s)) <$> l)) as Hm.
  { induction l as [|m l IH]; [done|]. simpl. by rewrite IH. }
  rewrite Hm. simpl. f_equal. apply pending_filter.
Qed.

Lemma elem_of_GetAll m : m ∈ GetAll registry <-> exists n, registry !! n = Some m.
Proof.
  unfold GetAll. rewrite merge_sort_Permutation, list_elem_of_fmap. split.
  - intros ([n m'] & -> & Hin%elem_of_range_map). eauto.
  - intros (n & Hn). exists (n, m). split; [done|]. by apply elem_of_range_map.
Qed.

(** What a write leaves: a state with the same applied migrations or more, and the version
    it had or the one it was given. *)
Definition extends (s s' : State) : Prop :=
  ProviderVersion s' = ProviderVersion s /\ Applied s ⊆ Applied s'.

Lemma extends_refl s : extends s s.
Proof. by split. Qed.

Lemma extends_trans a b c : extends a b -> extends b c -> extends a c.
Proof. intros [E1 S1] [E2 S2]. split; [congruence|set_solver]. Qed.

Lemma Save_Load d s d' ok :
  Save d s = (d', ok) ->
  Load d' = if ok then Some (mkState (Applied s) (dk_now d) (ProviderVersion s)) else Load d.
Proof. unfold Save, Load. intros [= <- <-]. by destruct (default true (head (dk_writes d))). Qed.

Lemma Mark_spec d s name d' ok :
  Load d = Some s -> MarkApplied d name = (d', ok) ->
  exists s', Load d' = Some s' /\ extends s s' /\ (ok = true -> name ∈ Applied s').
Proof.
  unfold MarkApplied. intros Hs Hm. rewrite Hs in Hm. case_bool_decide as Hin.
  { injection Hm as <- <-. exists s. split; [done|]. split; [apply extends_refl|done]. }
  apply Save_Load in Hm. destruct ok; rewrite Hm; simpl.
  - eexists. split; [done|]. split; [split; simpl; [done|set_solver]|]. simpl. set_solver.
  - exists s. split; [done|]. by split; [apply extends_refl|].
Qed.

Lemma SetVersion_spec d s v d' ok :
  Load d = Some s -> SetProviderVersion d v = (d', ok) ->
  exists s', Load d' = Some s' /\ Applied s' = Applied s /\
    ((ok = true /\ ProviderVersion s' = v) \/ (ok = false /\ ProviderVersion s' = ProviderVersion s)).
Proof.
  unfold SetProviderVersion. intros Hs Hm. rewrite Hs in Hm. apply Save_Load in Hm. destruct ok; rewrite Hm.
  - eexists. split; [done|]. simpl. auto.
  - exists s. split; [done|]. auto.
Qed.

Lemma run_all_spec run d s ms d' ran errs n :
  Load d = Some s -> run_all run d ms = (d', ran, errs, n) ->
  ran = m_name <$> ms /\ exists s', Load d' = Some s' /\ extends s s'.
Proof.
  revert d s d' ran errs n. induction ms as [|m ms IH]; intros d s d' ran errs n Hs Hr; simpl in Hr.
  { simplify_eq. split; [done|]. exists s. split; [done|apply extends_refl]. }
  destruct (run m).
  - destruct (MarkApplied d (m_name m)) as [d1 ok] eqn:Em. destruct (Mark_spec _ _ _ _ _ Hs Em) as (s1 & Hs1 & He & _).
    destruct (run_all run d1 ms) as [[[d2 ran2] errs2] n2] eqn:Er.
    destruct (IH _ _ _ _ _ _ Hs1 Er) as (-> & s2 & Hs2 & He2).
    assert (d' = d2 /\ ran = m_name m :: (m_name <$> ms)) as [-> ->] by (by destruct ok; simplify_eq).
    split; [done|]. exists s2. split; [done|]. by eapply extends_trans.
  - destruct (run_all run d ms) as [[[d2 ran2] errs2] n2] eqn:Er. simplify_eq.
    by destruct (IH _ _ _ _ _ _ Hs Er) as (-> & Hx).
Qed.

Lemma mark_all_spec d s ms d' ok :
  Load d = Some s -> mark_all d ms = (d', ok) ->
  exists s', Load d' = Some s' /\ extends s s' /\ (ok = true -> forall m, m ∈ ms -> m_name m ∈ Applied s').
Proof.
  revert d s. induction ms as [|m ms IH]; intros d s Hs Hr; simpl in Hr.
  { simplify_eq. exists s. split; [done|]. split; [apply extends_refl|]. intros _ m Hm. by apply not_elem_of_nil in Hm. }
  destruct (MarkApplied d (m_name m)) as [d1 ok1] eqn:Em. destruct (Mark_spec _ _ _ _ _ Hs Em) as (s1 & Hs1 & He & Hok).
  destruct ok1; [|simplify_eq; exists s1; by split_and!]. destruct (IH _ _ Hs1 Hr) as (s2 & Hs2 & He2 & Hall).
  exists s2. split; [done|]. split; [by eapply extends_trans|]. intros ->. specialize (Hok eq_refl).
  intros x [->|Hx]%elem_of_cons; [|by apply Hall]. apply He2, Hok.
Qed.

(** What one start leaves of the state. *)
Definition current (version : string) : string := if String.eqb version "" then "0.0.0"%string else version.

Definition after_start (version : string) (s s' : State) : Prop :=
  Applied s ⊆ Applied s' /\ (ProviderVersion s' = ProviderVersion s \/ ProviderVersion s' = current version).

Lemma start_spec run version d s d' ran res :
  Load d = Some s -> runMigrations registry run version d = (d', ran, res) ->
  exists s', Load d' = Some s' /\ after_start version s s' /\
    (ran = [] \/ ran = m_name <$> filter (fun m => is_pending s m = true) (GetAll registry)).
Proof.
  intros Hs. unfold runMigrations, GetProviderVersion. rewrite Hs. cbn [fmap option_fmap option_map].
  fold (current version).
  assert (forall d1 s1 ran1 x y z, Load d1 = Some s1 -> extends s s1 -> ran1 = [] \/ ran1 = m_name <$> filter (fun m => is_pending s m = true) (GetAll registry) ->
    finish_run d1 (current version) ran1 = (x, y, z) ->
    exists s', Load x = Some s' /\ after_start version s s' /\ (y = [] \/ y = m_name <$> filter (fun m => is_pending s m = true) (GetAll registry))) as Hfin.
  { intros d1 s1 ran1 x y z Hs1 [Ev Ea] Hran. unfold finish_run. destruct (SetProviderVersion d1 (current version)) as [d2 ok] eqn:E.
    destruct (SetVersion_spec _ _ _ _ _ Hs1 E) as (s2 & Hs2 & Ha & Hv). intros [= <- <- <-]. exists s2. split; [done|].
    split; [|done]. split; [by rewrite Ha|]. destruct Hv as [[_ ->]|[_ ->]]; auto. }
  destruct (String.eqb (ProviderVersion s) "").
  { destruct (mark_all d (GetAll registry)) as [d1 ok] eqn:Em.
    destruct (mark_all_spec _ _ _ _ _ Hs Em) as (s1 & Hs1 & He & _).
    destruct ok; [by apply (Hfin _ s1); auto|]. intros [= <- <- <-]. exists s1. destruct He as [Ev Ea].
    split; [done|]. split; [by split; auto|auto]. }
  destruct (GetAll registry) as [|m l] eqn:El; [apply (Hfin _ s); auto using extends_refl|].
  rewrite (GetPending_spec d s Hs), El. destruct (filter _ (m :: l)) as [|p ps] eqn:Ef.
  { apply (Hfin _ s); auto using extends_refl. }
  unfold RunMigrations. rewrite (GetPending_spec d s Hs), El, Ef.
  destruct (run_all run d (p :: ps)) as [[[d1 ran1] errs1] n1] eqn:Er.
  destruct (run_all_spec _ _ _ _ _ _ _ _ Hs Er) as (-> & s1 & Hs1 & Ev & Ea).
  destruct (String.eqb (current version) "").
  { intros [= <- <- <-]. exists s1. split; [done|]. split; [by split; auto|auto]. }
  destruct (SetProviderVersion d1 (current version)) as [d2 ok] eqn:E.
  destruct (SetVersion_spec _ _ _ _ _ Hs1 E) as (s2 & Hs2 & Ha & Hv). intros [= <- <- <-]. exists s2. split; [done|].
  split; [|auto]. split; [by rewrite Ha|]. destruct Hv as [[_ ->]|[_ ->]]; auto.
Qed.

(** Starts of the provider, one after the other, in versions that satisfy [P]: whatever
    they run succeeds or fails, and so do their writes. *)
Inductive starts (P : string -> Prop) : disk -> list (list string) -> disk -> Prop :=
| starts_nil d : starts P d [] d
| starts_cons d d1 d2 run version writes now ran res rans :
    P version -> runMigrations registry run version (mkDisk (dk_file d) writes now) = (d1, ran, res) ->
    starts P d1 rans d2 -> starts P d (ran :: rans) d2.

(** A migration is known by its name. *)
Definition registry_ok : Prop := forall n m, registry !! n = Some m -> m_name m = n.

Lemma pending_named s m :
  registry_ok -> m ∈ GetAll registry ->
  m_name m ∈ m_name <$> filter (fun x => is_pending s x = true) (GetAll registry) -> is_pending s m = true.
Proof.
  intros Hok [n Hn]%elem_of_GetAll Hin. apply list_elem_of_fmap in Hin as (x & Ex & Hx).
  apply list_elem_of_filter in Hx as [Hp [k Hk]%elem_of_GetAll].
  pose proof (Hok _ _ Hn). pose proof (Hok _ _ Hk). assert (x = m) as -> by congruence. done.
Qed.

(** A property of the state that rules a migration out and that starts keep. *)
Lemma never_again (P : string -> Prop) (Q : State -> Prop) m d s rans d' :
  registry_ok -> m ∈ GetAll registry ->
  (forall s, Q s -> is_pending s m = false) ->
  (forall s s' v, Q s -> P v -> after_start v s s' -> Q s') ->
  Load d = Some s -> Q s -> starts P d rans d' -> Forall (fun ran => m_name m ∉ ran) rans.
Proof.
  intros Hok Hm Hno Hkeep Hs HQ Hst. revert s Hs HQ.
  induction Hst as [|d d1 d2 run version writes now ran res rans HP Hr Hst IH]; intros s Hs HQ; [constructor|].
  assert (Load (mkDisk (dk_file d) writes now) = Some s) as Hs0 by exact Hs.
  destruct (start_spec _ _ _ _ _ _ _ Hs0 Hr) as (s1 & Hs1 & Ha & Hran). constructor; [|by eapply (IH s1); eauto].
  destruct Hran as [->| ->]; [apply not_elem_of_nil|]. intros Hin%pending_named; [|done..]. by rewrite Hno in Hin.
Qed.

(** A migration that is recorded as applied is not run again by any later start. *)
Theorem applied_not_repeated (m : Migration) (d d' : disk) (s : State) (rans : list (list string)) :
  registry_ok -> m ∈ GetAll registry -> Load d = Some s -> m_name m ∈ Applied s ->
  starts (fun _ => True) d rans d' -> Forall (fun ran => m_name m ∉ ran) rans.
Proof.
  intros Hok Hm Hs Hin Hst. apply (never_again (fun _ => True) (fun s => m_name m ∈ Applied s) m d s rans d'); try done.
  - intros x Hx. unfold is_pending. by rewrite bool_decide_eq_true_2.
  - intros x y v Hx _ [Hsub _]. by apply Hsub.
Qed.

(** ** A start without failing writes *)

Lemma Save_good d s : dk_writes d = [] ->
  Save d s = (mkDisk (FState (mkState (Applied s) (dk_now d) (ProviderVersion s))) [] (dk_now d), true).
Proof. intros Hw. unfold Save. by rewrite Hw. Qed.

Lemma Mark_good d s name : Load d = Some s -> dk_writes d = [] ->
  exists d' s', MarkApplied d name = (d', true) /\ dk_writes d' = [] /\ Load d' = Some s' /\ extends s s' /\ name ∈ Applied s'.
Proof.
  intros Hs Hw. unfold MarkApplied. rewrite Hs. case_bool_decide as Hin.
  - exists d, s. by split_and!.
  - rewrite Save_good by done. eexists _, _. split; [done|]. split; [done|]. split; [done|]. split; [split; [done|]|]; set_solver.
Qed.

Lemma run_all_good run d s ms : Load d = Some s -> dk_writes d = [] ->
  exists d' s', run_all run d ms = (d', m_name <$> ms, m_name <$> filter (fun m => run m = false) ms,
      List.length (filter (fun m => run m = true) ms)) /\
    dk_writes d' = [] /\ Load d' = Some s' /\ extends s s' /\ forall m, m ∈ ms -> run m = true -> m_name m ∈ Applied s'.
Proof.
  revert d s. induction ms as [|m ms IH]; intros d s Hs Hw; simpl.
  { exists d, s. split_and!; try done. intros m Hm. by apply not_elem_of_nil in Hm. }
  rewrite !filter_cons. destruct (run m) eqn:Em; simpl.
  - destruct (Mark_good d s (m_name m) Hs Hw) as (d1 & s1 & -> & Hw1 & Hs1 & He & Hin).
    destruct (IH d1 s1 Hs1 Hw1) as (d2 & s2 & -> & Hw2 & Hs2 & He2 & Hall). exists d2, s2.
    split_and!; [done|done|done|by eapply extends_trans|]. intros x [->|Hx]%elem_of_cons Hrun; [by apply He2|by apply Hall].
  - destruct (IH d s Hs Hw) as (d2 & s2 & -> & Hw2 & Hs2 & He2 & Hall). exists d2, s2.
    split_and!; [done|done|done|done|]. intros x [->|Hx]%elem_of_cons Hrun; [congruence|by apply Hall].
Qed.

Lemma Set_good d s v : Load d = Some s -> dk_writes d = [] ->
  exists d' s', SetProviderVersion d v = (d', true) /\ Load d' = Some s' /\ Applied s' = Applied s /\ ProviderVersion s' = v.
Proof. intros Hs Hw. unfold SetProviderVersion. rewrite Hs, Save_good by done. by eexists _, _. Qed.

Lemma current_nonempty version : String.eqb (current version) "" = false.
Proof. unfold current. by destruct (String.eqb version "") eqn:E. Qed.

Lemma start_good (run : Migration -> bool) (version : string) (d d' : disk) (s : State) (ran : list string) res :
  Load d = Some s -> ProviderVersion s <> ""%string -> dk_writes d = [] ->
  runMigrations registry run version d = (d', ran, res) ->
  let pending := filter (fun m => is_pending s m = true) (GetAll registry) in
  ran = m_name <$> pending /\
  res = Some (mkRunResult (List.length (filter (fun m => run m = true) pending)) (m_name <$> filter (fun m => run m = false) pending)) /\
  exists s', Load d' = Some s' /\ ProviderVersion s' = current version /\ Applied s ⊆ Applied s' /\
    forall m, m ∈ pending -> run m = true -> m_name m ∈ Applied s'.
Proof.
  intros Hs Hv Hw Hr. cbv zeta. unfold runMigrations, GetProviderVersion in Hr. rewrite Hs in Hr. cbn [fmap option_fmap option_map] in Hr.
  fold (current version) in Hr. destruct (String.eqb_spec (ProviderVersion s) ""); [done|].
  assert (forall x y z, finish_run d (current version) [] = (x, y, z) ->
    y = [] /\ z = Some (mkRunResult 0 []) /\
    exists s', Load x = Some s' /\ ProviderVersion s' = current version /\ Applied s ⊆ Applied s') as Hfin.
  { intros x y z. unfold finish_run. destruct (Set_good d s (current version) Hs Hw) as (d1 & s1 & -> & Hs1 & Ha & Hv1).
    intros [= <- <- <-]. split_and!; [done..|]. exists s1. by rewrite Ha. }
  destruct (GetAll registry) as [|m l] eqn:El.
  { destruct (Hfin _ _ _ Hr) as (-> & -> & s' & Hs' & Hv' & Ha'). split_and!; [done..|]. exists s'. split_and!; try done.
    intros x Hx. by apply not_elem_of_nil in Hx. }
  rewrite (GetPending_spec d s Hs), El in Hr. destruct (filter _ (m :: l)) as [|p ps] eqn:Ef.
  { destruct (Hfin _ _ _ Hr) as (-> & -> & s' & Hs' & Hv' & Ha'). split_and!; [done..|]. exists s'. split_and!; try done.
    intros x Hx. by apply not_elem_of_nil in Hx. }
  unfold RunMigrations in Hr. rewrite (GetPending_spec d s Hs), El, Ef, current_nonempty in Hr.
  destruct (run_all_good run d s (p :: ps) Hs Hw) as (d1 & s1 & E & Hw1 & Hs1 & [Ev1 Ea1] & Hall). rewrite E in Hr.
  destruct (Set_good d1 s1 (current version) Hs1 Hw1) as (d2 & s2 & E2 & Hs2 & Ha & Hv2). rewrite E2 in Hr.
  injection Hr as <- <- <-. split_and!; [done..|]. exists s2. rewrite Ha. by split_and!.
Qed.

(** A start from a known version whose writes succeed runs exactly the migrations that are
    registered, not recorded as applied and due from that version, in the order of their
    names; it records those that succeeded, reports those that failed, and records its own
    version. *)
Theorem start_runs_pending (run : Migration -> bool) (version : string) (d d' : disk) (s : State) (ran : list string) res :
  Load d = Some s -> ProviderVersion s <> ""%string -> dk_writes d = [] ->
  runMigrations registry run version d = (d', ran, res) ->
  let pending := filter (fun m => is_pending s m = true) (GetAll registry) in
  ran = m_name <$> pending /\
  res = Some (mkRunResult (List.length (filter (fun m => run m = true) pending)) (m_name <$> filter (fun m => run m = false) pending)) /\
  exists s', Load d' = Some s' /\ ProviderVersion s' = current version /\ Applied s ⊆ Applied s' /\
    forall m, m ∈ pending -> run m = true -> m_name m ∈ Applied s'.
Proof. apply start_good. Qed.

(** ** Migrations that are lost *)

(** The version is newer than the one the migration is for. *)
Definition newer (m : Migration) (version : string) : Prop :=
  versionLessThan (trim_v (m_from m)) (trim_v version) = true.

Lemma newer_not_due m v : newer m v -> due v m = false.
Proof.
  unfold newer, due, version_matches. intros Hn. apply versionLessThan_spec in Hn as (Hf & Hv & Hl).
  assert (versionLessThan (trim_v v) (trim_v (m_from m)) = false) as ->.
  { apply not_true_is_false. rewrite versionLessThan_spec. intros (_ & _ & Hl').
    by apply (numbers_less_irrefl (trim_v v)), (numbers_less_trans _ (trim_v (m_from m))). }
  destruct (String.eqb_spec (trim_v v) (trim_v (m_from m))) as [E|_]; [|by rewrite andb_false_r].
  rewrite E in Hl. by apply numbers_less_irrefl in Hl.
Qed.

(** A migration that fails is reported by the start that ran it, and lost: the start
    records its version all the same, and from then on the migration is not due, so that no
    later start of that version or a newer one runs it. *)
Theorem failed_migration_abandoned (run : Migration -> bool) (version : string) (d d1 d2 : disk) (s : State) (m : Migration)
    (ran : list string) res (rans : list (list string)) :
  registry_ok -> m ∈ GetAll registry -> Load d = Some s -> ProviderVersion s <> ""%string -> dk_writes d = [] ->
  is_pending s m = true -> run m = false -> newer m (current version) ->
  runMigrations registry run version d = (d1, ran, res) -> starts (fun v => newer m (current v)) d1 rans d2 ->
  m_name m ∈ ran /\ (exists n errs, res = Some (mkRunResult n errs) /\ m_name m ∈ errs) /\
  Forall (fun ran => m_name m ∉ ran) rans.
Proof.
  intros Hok Hm Hs Hv Hw Hp Hf Hn Hr Hst.
  destruct (start_good _ _ _ _ _ _ _ Hs Hv Hw Hr) as (-> & -> & s1 & Hs1 & Hv1 & _).
  assert (m ∈ filter (fun m => is_pending s m = true) (GetAll registry)) as Hin by (by apply list_elem_of_filter).
  split; [by apply list_elem_of_fmap_2|]. split.
  { eexists _, _. split; [done|]. apply list_elem_of_fmap_2. by apply list_elem_of_filter. }
  apply (never_again (fun v => newer m (current v)) (fun s => newer m (ProviderVersion s)) m d1 s1 rans d2); try done.
  - intros x Hx. unfold is_pending. rewrite newer_not_due by done. apply andb_false_r.
  - intros x y v Hx Hpv [_ [->| ->]]; done.
  - by rewrite Hv1.
Qed.

(** A provider without a state file is taken for a new one, whatever version it was at:
    nothing is migrated, everything is recorded as applied. *)
Theorem no_state_no_migration (run : Migration -> bool) (version : string) (d d' : disk) (ran : list string) res :
  dk_file d = FMissing -> dk_writes d = [] -> runMigrations registry run version d = (d', ran, res) ->
  ran = [] /\ res = Some (mkRunResult 0 []) /\
  exists s', Load d' = Some s' /\ forall m, m ∈ GetAll registry -> m_name m ∈ Applied s'.
Proof.
  intros Hf Hw. assert (Load d = Some empty_state) as Hs by (unfold Load; by rewrite Hf).
  unfold runMigrations, GetProviderVersion. rewrite Hs. simpl. fold (current version).
  assert (forall ms d s, Load d = Some s -> dk_writes d = [] -> exists d' s', mark_all d ms = (d', true) /\ dk_writes d' = [] /\
    Load d' = Some s' /\ extends s s' /\ forall m, m ∈ ms -> m_name m ∈ Applied s') as Hall.
  { clear. induction ms as [|m ms IH]; intros d s Hs Hw; simpl.
    - exists d, s. split_and!; try done. intros m Hm. by apply not_elem_of_nil in Hm.
    - destruct (Mark_good d s (m_name m) Hs Hw) as (d1 & s1 & -> & Hw1 & Hs1 & He & Hin).
      destruct (IH d1 s1 Hs1 Hw1) as (d2 & s2 & -> & Hw2 & Hs2 & He2 & Ha). exists d2, s2.
      split_and!; [done|done|done|by eapply extends_trans|]. intros x [->|Hx]%elem_of_cons; [by apply He2|by apply Ha]. }
  destruct (Hall (GetAll registry) d empty_state Hs Hw) as (d1 & s1 & -> & Hw1 & Hs1 & _ & Ha).
  unfold finish_run. destruct (Set_good d1 s1 (current version) Hs1 Hw1) as (d2 & s2 & -> & Hs2 & Ea & _).
  intros [= <- <- <-]. split_and!; [done..|]. exists s2. by rewrite Ea.
Qed.

(** A migration that gives no version is never due, although its interface says that it
    always runs. *)
Lemma unversioned_never_due m v : m_from m = ""%string -> due v m = false.
Proof. intros Hm. unfold due. by rewrite Hm. Qed.

End RunProofs.

(** ** From ingresses to routes *)

(** [strconv.ParseFloat] of a text and [math.Ceil] of the number. *)
Class Floats := { parse_float_ceil : string -> option Z }.

Definition getAnnotationValue (annotations : labels_t) (key defaultValue : string) : string :=
  default defaultValue (annotations !! key).

Definition getAnnotationInt `{Floats} (annotations : labels_t) (key : string) (defaultValue : Z) : Z :=
  match annotations !! key with
  | Some val => match ParseInt64 val with
                | Some n => n
                | None => default defaultValue (parse_float_ceil val)
                end
  | None => defaultValue
  end.

(** [strconv.Itoa]. *)
Definition itoa (z : Z) : string := if (z <? 0)%Z then "-" +:+ FormatUint (- z) else FormatUint z.

Definition gateway_key (name : string) : string := "nginx.org/" +:+ name.

Definition convertAnnotations `{Floats} (ingressAnnotations : labels_t) : labels_t :=
  let value := getAnnotationValue ingressAnnotations in
  let readTimeout := getAnnotationInt ingressAnnotations (nginx_key "proxy-read-timeout") 60 in
  let sendTimeout := getAnnotationInt ingressAnnotations (nginx_key "proxy-send-timeout") 60 in
  let nextTimeout := value (nginx_key "proxy-next-upstream-timeout") "0"%string in
  let nextUpstream := value (nginx_key "proxy-next-upstream") ""%string in
  let annotations : labels_t :=
    <[gateway_key "proxy-next-upstream-tries" := value (nginx_key "proxy-next-upstream-tries") "3"%string]>
    (<[gateway_key "client-max-body-size" := value (nginx_key "proxy-body-size") "1m"%string]>
    (<[gateway_key "proxy-send-timeout" := itoa sendTimeout]>
    (<[gateway_key "proxy-read-timeout" := itoa readTimeout]> ∅))) in
  let annotations :=
    match (if String.eqb nextTimeout "0" then None else ParseInt64 nextTimeout) with
    | Some n => insert_if (0 <? n)%Z (gateway_key "proxy-next-upstream-timeout") (itoa n +:+ "s") annotations
    | None => annotations
    end in
  insert_if (negb (String.eqb nextUpstream "")) (gateway_key "proxy-next-upstream") nextUpstream annotations.

Definition buildHTTPRoute `{Floats} (name : string) (labels ingressAnnotations : labels_t)
    (gatewayName gatewayNamespace hostname serviceName : string) (servicePort : Z) : HTTPRoute :=
  mkHTTPRoute name labels (convertAnnotations ingressAnnotations)
    (mkSpec [mkParent "gateway.networking.k8s.io" "Gateway" gatewayNamespace gatewayName] [hostname]
       [mkRouteRule "/" [] [mkBackendRef serviceName (Some servicePort)]]).

Section IngressMigration.
Context {W Si Mr : Type} `{HI : !KubeCollection W Ingress Si} `{HR : !KubeCollection W HTTPRoute Mr} `{HFl : Floats}.
Context (ing_namespace : Si -> string) (gatewayName gatewayNamespace : string).

(** The route of an ingress; an ingress without rule or path has none. *)
Definition migrated (ingress : Ingress) : option HTTPRoute :=
  match ing_rules ingress with
  | rule :: _ =>
      match ir_http rule with
      | Some (path :: _) =>
          Some (buildHTTPRoute (ing_name ingress) (ing_labels ingress) (ing_annotations ingress) gatewayName gatewayNamespace
                  (ir_host rule) (ip_service path) (ip_port path))
      | _ => None
      end
  | [] => None
  end.

Definition migrateIngress (w : W) (ns : string) (ingress : Ingress) : W * option kube_error :=
  match migrated ingress with
  | None => (w, None)
  | Some route => create_or_update w ns route
  end.

Fixpoint migrate_each (w : W) (items : list (Ingress * Si)) : W * option kube_error :=
  match items with
  | [] => (w, None)
  | (ingress, st) :: rest =>
      let '(w, err) := migrateIngress w (ing_namespace st) ingress in
      match err with Some e => (w, Some e) | None => migrate_each w rest end
  end.

Definition ingressToHTTPRoute_Run (w : W) : W * option kube_error :=
  match kube_List (Obj := Ingress) w None [(AkashManagedLabelName, "true"%string)] with
  | Err e => (w, Some e)
  | Ok items => migrate_each w items
  end.

Context `{HIL : !KubeLaws W Ingress Si} `{HRL : !KubeLaws W HTTPRoute Mr}.

(** A listed object carries the namespace and the name it is stored under. *)
Class Namespaced := {
  listed_at w sel items (o : Ingress) st : kube_List w None sel = Ok items -> (o, st) ∈ items ->
    stored w !! (ing_namespace st, ing_name o) = Some o;
  listed_all w sel items (o : Ingress) k : kube_List w None sel = Ok items -> stored w !! k = Some o ->
    selector_matches sel (ing_labels o) = true -> exists st, (o, st) ∈ items /\ k = (ing_namespace st, ing_name o)
}.

Context `{HN : !Namespaced}.

Definition item_key (i : Ingress * Si) : string * string := (ing_namespace i.2, ing_name i.1).

Lemma migrated_name o route : migrated o = Some route -> hr_name route = ing_name o.
Proof. unfold migrated. intros H. by repeat case_match; simplify_eq. Qed.

Lemma migrate_each_spec (f : string * string -> option Ingress) w items w' :
  (forall i, i ∈ items -> f (item_key i) = Some i.1) -> migrate_each w items = (w', None) ->
  forall k, route_objects w' !! k =
    match (if bool_decide (k ∈ item_key <$> items) then f k ≫= migrated else None) with
    | Some route => Some route
    | None => route_objects w !! k
    end.
Proof.
  revert w. induction items as [|[o st] items IH]; intros w Hf Hr k; simpl in Hr; [by simplify_eq|].
  destruct (migrateIngress w (ing_namespace st) o) as [w1 [e|]] eqn:Em; [done|].
  rewrite (IH w1) by (try done; intros i Hi; apply Hf; by apply list_elem_of_further).
  pose proof (Hf (o, st) (list_elem_of_here _ _)) as Ho. simpl in Ho. rewrite fmap_cons.
  assert (route_objects w1 = match migrated o with Some route => <[item_key (o, st) := route]> (route_objects w) | None => route_objects w end) as Hw1.
  { unfold migrateIngress in Em. destruct (migrated o) as [route|] eqn:Er; [|by simplify_eq].
    pose proof (create_or_update_effect w (ing_namespace st) route) as He. unfold took_effect in He. rewrite Em in He. simpl in He.
    unfold item_key. cbn [fst snd]. rewrite <- (migrated_name _ _ Er). exact He. }
  destruct (decide (k ∈ item_key <$> items)) as [Hin|Hnin].
  - rewrite !bool_decide_eq_true_2 by (done || by apply list_elem_of_further). destruct (f k ≫= migrated) as [r|] eqn:Ef; [done|].
    rewrite Hw1. destruct (migrated o) as [route|] eqn:Er; [|done].
    destruct (decide (k = item_key (o, st))) as [->|Hne]; [|by rewrite lookup_insert_ne].
    rewrite Ho in Ef. simpl in Ef. congruence.
  - rewrite bool_decide_eq_false_2 by done. rewrite Hw1. destruct (decide (k = item_key (o, st))) as [->|Hne].
    + rewrite bool_decide_eq_true_2 by apply list_elem_of_here. rewrite Ho. simpl.
      destruct (migrated o) as [route|]; [by rewrite lookup_insert_eq|done].
    + rewrite bool_decide_eq_false_2 by (by intros [?|?]%elem_of_cons). destruct (migrated o); [by rewrite lookup_insert_ne|done].
Qed.

(** The migration that ends without an error has given every route of the ingress mode to
    the gateway mode, with its lease, service and port, and touches no other route; but the
    rules it writes refer to no filter, so the options of the routes are not applied. *)
Theorem ingresses_migrated (w w' : W) :
  ingressToHTTPRoute_Run w = (w', None) ->
  (forall k r, ingress_routes w !! k = Some r -> http_routes w' !! k = Some r /\
     exists o, route_objects w' !! k = Some o /\ Forall (fun rule => rr_filters rule = []) (sp_rules (hr_spec o))) /\
  (forall k, stored (Obj := Ingress) w !! k = None -> route_objects w' !! k = route_objects w !! k).
Proof.
  unfold ingressToHTTPRoute_Run. destruct (kube_List w None _) as [items|e] eqn:El; [|done]. intros Hr.
  pose proof (migrate_each_spec (fun k => stored w !! k) w items w') as Hm. specialize (Hm) with (2 := Hr).
  assert (forall i, i ∈ items -> stored w !! item_key i = Some i.1) as Hi.
  { intros [o st] Hin. by eapply listed_at. }
  specialize (Hm Hi). split.
  - intros k r (o & c & Hk & Hma & Hc & ->)%ingress_routes_lookup.
    destruct (listed_all w _ items o k El Hk Hma) as (st & Hin & Ek).
    specialize (Hm k). rewrite bool_decide_eq_true_2 in Hm
      by (apply list_elem_of_fmap; exists (o, st); split; [by rewrite Ek|done]).
    rewrite Hk in Hm. simpl in Hm. unfold ingress_connection in Hc. unfold migrated in Hm.
    destruct (RecoverLeaseIDFromLabels (ing_labels o)) as [lid|] eqn:Elid; [|done].
    destruct (ing_rules o) as [|rule [|? ?]]; [done| |done]. destruct (ir_http rule) as [[|path [|? ?]]|]; try done.
    injection Hc as <-. simpl in *. split.
    + apply http_routes_lookup. eexists _, _. split; [exact Hm|]. split; [exact Hma|].
      unfold route_connection. simpl. by rewrite Elid.
    + eexists. split; [exact Hm|]. by repeat constructor.
  - intros k Hk. rewrite Hm. destruct (bool_decide (k ∈ item_key <$> items)) eqn:Eb; [|done].
    by rewrite Hk.
Qed.

End IngressMigration.

(** ** Examples *)

Module MigrationExamples.

#[local] Instance ex_order : GoRange := sorted_range.

Definition ex_migration : Migration := mkMigration "ingress-to-httproute-001" "0.10.6".
Definition ex_registry : gmap string Migration := {["ingress-to-httproute-001"%string := ex_migration]}.

Lemma ex_registry_ok : registry_ok ex_registry.
Proof. intros n m Hn. unfold ex_registry in Hn. apply lookup_singleton_Some in Hn as [<- <-]. reflexivity. Qed.

Definition ex_disk (version : string) : disk := mkDisk (FState (mkState [] 0 version)) [] 5.

Lemma ex_all : GetAll ex_registry = [ex_migration].
Proof. vm_compute. reflexivity. Qed.

Lemma ex_in_all : ex_migration ∈ GetAll ex_registry.
Proof. rewrite ex_all. apply list_elem_of_here. Qed.

Lemma versions_ordered_witness : versionLessThan "v0.9.2" "0.10.6" = true /\ versionLessThan "0.9.2" "0.11.0" = true.
Proof.
  split; [vm_compute; reflexivity|].
  destruct (versions_ordered "0.9.2" "0.10.6" "0.11.0") as (_ & Ht & _). apply Ht; vm_compute; reflexivity.
Defined.

Lemma start_runs_pending_witness :
  exists d', runMigrations ex_registry (fun _ => true) "0.11.0" (ex_disk "0.10.6") =
      (d', ["ingress-to-httproute-001"%string], Some (mkRunResult 1 [])) /\
    exists s', Load d' = Some s' /\ ProviderVersion s' = "0.11.0"%string /\ "ingress-to-httproute-001"%string ∈ Applied s'.
Proof.
  eexists. split; [vm_compute; reflexivity|].
  destruct (start_runs_pending ex_registry (fun _ => true) "0.11.0" (ex_disk "0.10.6") _ (mkState [] 0 "0.10.6") _ _
    eq_refl ltac:(vm_compute; discriminate) eq_refl ltac:(vm_compute; reflexivity)) as (_ & _ & s' & Hs & Hv & _ & Ha).
  exists s'. split; [exact Hs|]. split; [exact Hv|]. apply (Ha ex_migration); [|reflexivity].
  apply list_elem_of_filter. split; [vm_compute; reflexivity|apply ex_in_all].
Defined.

(** The migration fails on the way from 0.10.6 to 0.11.0; a second start does not run it. *)
Definition ex_failed : disk := mkDisk (FState (mkState [] 5 "0.11.0")) [] 5.

Lemma failed_migration_abandoned_witness :
  runMigrations ex_registry (fun _ => false) "0.11.0" (ex_disk "0.10.6") =
    (ex_failed, ["ingress-to-httproute-001"%string], Some (mkRunResult 0 ["ingress-to-httproute-001"%string])) /\
  (exists rans d, starts ex_registry (fun v => newer ex_migration (current v)) ex_failed rans d /\ rans <> [] /\
     Forall (fun ran => "ingress-to-httproute-001"%string ∉ ran) rans).
Proof.
  assert (runMigrations ex_registry (fun _ => false) "0.11.0" (ex_disk "0.10.6") =
    (ex_failed, ["ingress-to-httproute-001"%string], Some (mkRunResult 0 ["ingress-to-httproute-001"%string]))) as Hr
    by (vm_compute; reflexivity).
  split; [exact Hr|].
  assert (starts ex_registry (fun v => newer ex_migration (current v)) ex_failed [[]] ex_failed) as Hst.
  { eapply starts_cons with (run := fun _ => true) (version := "0.11.0"%string) (writes := []) (now := 5%Z);
      [vm_compute; reflexivity|vm_compute; reflexivity|apply starts_nil]. }
  exists [[]], ex_failed. split; [exact Hst|]. split; [discriminate|].
  apply (failed_migration_abandoned ex_registry (fun _ => false) "0.11.0" (ex_disk "0.10.6") ex_failed ex_failed
    (mkState [] 0 "0.10.6") ex_migration ["ingress-to-httproute-001"%string]
    (Some (mkRunResult 0 ["ingress-to-httproute-001"%string])) [[]] ex_registry_ok ex_in_all); try exact Hr; try exact Hst;
    first [reflexivity | vm_compute; discriminate | vm_compute; reflexivity].
Defined.

End MigrationExamples.
