(* ===== verification/Declarations.v ===== *)
(** * Declarations of hostnames and leased IPs

    Model of [cluster/kube/client_hostname_connections.go] and
    [cluster/kube/cluster_ip_connections.go] (and of their copies in
    [operator/ip/operator.go]): a deploy declares the hostnames and IPs of a lease as
    [ProviderHost] and [ProviderLeasedIP] resources, which the operators watch, and
    withdraws them again. *)

From Stdlib Require Import ZArith Lia.
From stdpp Require Import base gmap list strings tactics.
From S2P Require Import Prelude Types Names CRD Kube IgnoreList HostnameOp.

(** ** Hostnames *)

Record ProviderHost := mkProviderHost {
  prh_name : string; prh_labels : labels_t; prh_annotations : labels_t; prh_spec : ProviderHostSpec
}.

#[export] Instance ProviderHost_object : KubeObject ProviderHost :=
  {| obj_name := prh_name; obj_labels := prh_labels |}.

Definition AkashLeaseUpdatedAt : string := "akash.network/lease.updated_at".

Definition managed_selector : list (string * string) := [(AkashManagedLabelName, "true"%string)].

#[global] Arguments managed_selector : simpl never.

Record ActiveHostname := mkActive { ah_lid : LeaseID; ah_hostname : string }.

Section Hostnames.
Context {W St : Type} `{!KubeCollection W ProviderHost St} `{Bech32}.
Context (ns : string).

Definition host_labels (lid : LeaseID) : labels_t :=
  AppendLeaseLabels lid {[ AkashManagedLabelName := "true" ]}.

Definition host_spec (lid : LeaseID) (host serviceName : string) (externalPort : Z) : ProviderHostSpec :=
  mkHostSpec (l_owner lid) (l_provider lid) host (l_dseq lid) (l_gseq lid) (l_oseq lid)
    serviceName externalPort.

(** [now] is the time in its text form. The annotations of an existing resource are
    kept. *)
Definition DeclareHostname (w : W) (lid : LeaseID) (host serviceName : string) (externalPort : Z)
    (now : string) : W * option kube_error :=
  let spec := host_spec lid host serviceName externalPort in
  match kube_Get w ns host with
  | Ok (obj, st) =>
      kube_Update w ns (mkProviderHost (prh_name obj) (host_labels lid)
        (<[AkashLeaseUpdatedAt := now]> (prh_annotations obj)) spec) st
  | Err e =>
      if IsNotFound e then
        kube_Create w ns (mkProviderHost host (host_labels lid) {[ AkashLeaseUpdatedAt := now ]} spec)
      else (w, Some e)
  end.

Definition PurgeDeclaredHostname (w : W) (lid : LeaseID) (hostname : string) : W * option kube_error :=
  kube_DeleteCollection w ns (kubeSelectorForLease lid) (Some hostname).

Definition PurgeDeclaredHostnames (w : W) (lid : LeaseID) : W * option kube_error :=
  kube_DeleteCollection w ns (kubeSelectorForLease lid) None.

(** The address of twenty zero bytes. *)
Context (unrecoverableOwner : string).

Definition valid_address (s : string) : bool :=
  match bech32_canonical s with Some _ => true | None => false end.

Definition reservationLeaseID (ph : ProviderHost) : LeaseID :=
  let s := prh_spec ph in
  let label := default ""%string (prh_labels ph !! AkashLeaseOwnerLabelName) in
  let owner := if valid_address (ph_owner s) then ph_owner s
               else if valid_address label then label
               else unrecoverableOwner in
  mkLeaseID owner (ph_dseq s) (ph_gseq s) (ph_oseq s) (ph_provider s).

Definition active_hostname (ph : ProviderHost) : ActiveHostname :=
  mkActive (default (reservationLeaseID ph) (ProviderHostSpec_LeaseID (prh_spec ph)))
    (ph_hostname (prh_spec ph)).

Definition AllHostnames (w : W) : result kube_error (list ActiveHostname) :=
  (let? items := kube_List w (Some ns) managed_selector in
   Ok (map active_hostname items.*1))%go.

End Hostnames.

(** ** Leased IPs *)

Record ProviderLeasedIPSpec := mkIPSpec {
  pi_lease : CRDLease.t; pi_service : string; pi_port : Z; pi_external_port : Z;
  pi_sharing_key : string; pi_protocol : string
}.

Record ProviderLeasedIP := mkProviderLeasedIP {
  pip_name : string; pip_labels : labels_t; pip_spec : ProviderLeasedIPSpec
}.

#[export] Instance ProviderLeasedIP_object : KubeObject ProviderLeasedIP :=
  {| obj_name := pip_name; obj_labels := pip_labels |}.

Inductive declare_error := ErrAlreadyExists | DeclareKube (e : kube_error).

Definition serviceNameLabel : string := "service-name".
Definition externalPortLabel : string := "external-port".
Definition protoLabel : string := "proto".

Section LeasedIPs.
Context {W St : Type} `{!KubeCollection W ProviderLeasedIP St} `{ServiceProtocolAPI}.
Context (ns : string).

Definition GetDeclaredIPs (w : W) (lid : LeaseID) : result kube_error (list ProviderLeasedIPSpec) :=
  (let? items := kube_List w (Some ns) (kubeSelectorForLease lid) in
   Ok (map pip_spec items.*1))%go.

Definition declared_ip_name (sharingKey : string) (proto : ServiceProtocol) (externalPort : Z) : string :=
  to_lower (sharingKey +:+ "-" +:+ proto_ToString proto +:+ "-" +:+ FormatUint externalPort).

Definition declared_ip (lid : LeaseID) (serviceName : string) (port externalPort : Z)
    (proto : ServiceProtocol) (sharingKey : string) : ProviderLeasedIP :=
  mkProviderLeasedIP (declared_ip_name sharingKey proto externalPort)
    (AppendLeaseLabels lid
      (<[protoLabel := proto_ToString proto]> (<[externalPortLabel := FormatUint externalPort]>
      (<[serviceNameLabel := serviceName]> {[ AkashManagedLabelName := "true" ]}))))
    (mkIPSpec (CRDLease.LeaseIDFromAkash lid) serviceName port externalPort sharingKey
      (proto_ToString proto)).

Definition DeclareIP (w : W) (lid : LeaseID) (serviceName : string) (port externalPort : Z)
    (proto : ServiceProtocol) (sharingKey : string) (overwrite : bool) : W * option declare_error :=
  let obj := declared_ip lid serviceName port externalPort proto sharingKey in
  match kube_Get w ns (declared_ip_name sharingKey proto externalPort) with
  | Ok (_, st) =>
      if negb overwrite then (w, Some ErrAlreadyExists)
      else let r := kube_Update w ns obj st in (r.1, DeclareKube <$> r.2)
  | Err e =>
      if IsNotFound e then let r := kube_Create w ns obj in (r.1, DeclareKube <$> r.2)
      else (w, Some (DeclareKube e))
  end.

(** The selector for the lease, service, protocol and port is built, but the call
    is made with the one for managed resources. *)
Definition PurgeDeclaredIP (w : W) (lid : LeaseID) (serviceName : string) (externalPort : Z)
    (proto : ServiceProtocol) : W * option kube_error :=
  let labelSelector := kubeSelectorForLease lid ++
    [(serviceNameLabel, serviceName); (protoLabel, proto_ToString proto);
     (externalPortLabel, FormatUint externalPort)] in
  kube_DeleteCollection w ns managed_selector None.

Definition PurgeDeclaredIPs (w : W) (lid : LeaseID) : W * option kube_error :=
  kube_DeleteCollection w ns (managed_selector ++ kubeSelectorForLease lid) None.

End LeasedIPs.

(** ** Selectors and lease labels *)

(** The labels of a lease are matched by the selector of a lease of the same order
    only. *)
Lemma selector_lease_order a b labels :
  lease_ok a -> lease_ok b ->
  selector_matches (kubeSelectorForLease a) (AppendLeaseLabels b labels) = true ->
  lease_order a = lease_order b.
Proof.
  intros (Ha1 & Ha2 & Ha3) (Hb1 & Hb2 & Hb3). unfold selector_matches, kubeSelectorForLease.
  cbn [forallb]. rewrite !andb_true_iff, !bool_decide_eq_true. unfold AppendLeaseLabels.
  intros (Ho & Hd & Hg & Hs & _). simplify_map_eq. unfold is_uint in *. unfold lease_order. f_equal.
  - congruence.
  - apply FormatUint_inj; [lia|lia|congruence].
  - apply FormatUint_inj; [lia|lia|congruence].
  - apply FormatUint_inj; [lia|lia|congruence].
Qed.

Lemma selector_app s t labels :
  selector_matches (s ++ t) labels = selector_matches s labels && selector_matches t labels.
Proof. apply forallb_app. Qed.

Lemma managed_append lid (labels : labels_t) :
  labels !! AkashManagedLabelName = Some "true"%string ->
  selector_matches managed_selector (AppendLeaseLabels lid labels) = true.
Proof.
  intros Hl. unfold selector_matches, managed_selector. cbn [forallb].
  rewrite bool_decide_eq_true_2; [done|]. unfold AppendLeaseLabels. by simplify_map_eq.
Qed.

(** A collection of objects deleted by selector: what goes and what stays. *)
Section Deletion.
Context {W Obj St : Type} `{HO : KubeObject Obj} `{HK : !KubeCollection W Obj St} `{HL : !KubeLaws W Obj St}.

Lemma delete_collection_keeps w ns selector name k o :
  stored w !! k = Some o -> selected ns selector name (k, o) = false ->
  stored (kube_DeleteCollection w ns selector name).1 !! k = Some o.
Proof.
  intros Hk Hsel. rewrite (took_effect_frame _ _ _ _ _ (kube_DeleteCollection_effect w ns selector name));
    [done|]. rewrite Hk. by apply map_lookup_filter_Some.
Qed.

Lemma delete_collection_removes w ns selector name k o :
  (kube_DeleteCollection w ns selector name).2 = None ->
  stored w !! k = Some o -> selected ns selector name (k, o) = true ->
  stored (kube_DeleteCollection w ns selector name).1 !! k = None.
Proof.
  intros Hok Hk Hsel. pose proof (kube_DeleteCollection_effect w ns selector name) as Heff.
  unfold took_effect in Heff. rewrite Hok in Heff. rewrite Heff.
  apply map_lookup_filter_None. right. intros o' Ho'. simplify_eq. by rewrite Hsel.
Qed.

End Deletion.

(** ** Theorems on hostnames *)

Section HostnameTheorems.
Context {W St : Type} `{HK : !KubeCollection W ProviderHost St} `{HL : !KubeLaws W ProviderHost St}.
Context `{HB : Bech32} (ns unrecoverableOwner : string).

(** Declarations are stored under the hostname they declare. *)
Definition hosts_named (w : W) : Prop :=
  forall k ph, stored w !! k = Some ph -> prh_name ph = k.2 /\ ph_hostname (prh_spec ph) = k.2.

Lemma DeclareHostname_stored w lid host svc port now w' :
  hosts_named w -> DeclareHostname ns w lid host svc port now = (w', None) ->
  exists annotations, stored w' = <[(ns, host) :=
    mkProviderHost host (host_labels lid) annotations (host_spec lid host svc port)]> (stored w).
Proof.
  unfold DeclareHostname. intros Hn Hd. destruct (kube_Get w ns host) as [[obj st]|e] eqn:Hg.
  - apply kube_Get_ok in Hg. destruct (Hn _ _ Hg) as [Hname _]. simpl in Hname. rewrite Hname in Hd.
    eexists. match type of Hd with kube_Update ?w ?ns ?o ?st = _ =>
      pose proof (kube_Update_effect w ns o st) as Heff end.
    rewrite Hd in Heff. exact Heff.
  - destruct (IsNotFound e); [|done]. eexists.
    match type of Hd with kube_Create ?w ?ns ?o = _ => pose proof (kube_Create_effect w ns o) as Heff end.
    rewrite Hd in Heff. exact Heff.
Qed.

Lemma host_spec_lease lid host svc port :
  CRDLease.addresses_ok lid -> ProviderHostSpec_LeaseID (host_spec lid host svc port) = Some lid.
Proof.
  intros [Ho Hp]. unfold ProviderHostSpec_LeaseID, host_spec. simpl. rewrite Ho, Hp. by destruct lid.
Qed.

Lemma AllHostnames_elem w hs a :
  AllHostnames ns unrecoverableOwner w = Ok hs ->
  a ∈ hs <-> exists k ph, stored w !! k = Some ph /\ k.1 = ns /\
    selector_matches managed_selector (prh_labels ph) = true /\ a = active_hostname unrecoverableOwner ph.
Proof.
  unfold AllHostnames. intros (items & Hi & Hhs)%bind_result_Ok. injection Hhs as <-.
  rewrite list_elem_of_fmap. pose proof (kube_List_ok _ _ _ _ Hi) as Hitems. split.
  - intros (ph & -> & ([k1 k2] & Hk & Hns & Hm)%Hitems). simpl in Hns.
    exists (k1, k2), ph. split_and!; [done| |done|done]. by apply String.eqb_eq in Hns.
  - intros (k & ph & Hk & Hns & Hm & ->). exists ph. split; [done|]. apply Hitems. exists k.
    split_and!; [done| |done]. simpl. rewrite Hns. apply String.eqb_refl.
Qed.

(** A hostname declared for a lease is reserved for that lease when the provider
    restarts: [AllHostnames] lists it with the lease that declared it last, and lists
    it only once. *)
Theorem declared_hostname_reserved (w w' : W) (lid : LeaseID) (host svc now : string) (port : Z)
    (hs : list ActiveHostname) :
  hosts_named w -> CRDLease.addresses_ok lid ->
  DeclareHostname ns w lid host svc port now = (w', None) ->
  AllHostnames ns unrecoverableOwner w' = Ok hs ->
  mkActive lid host ∈ hs /\ forall a, a ∈ hs -> ah_hostname a = host -> a = mkActive lid host.
Proof.
  intros Hn Haddr Hd Hall. destruct (DeclareHostname_stored _ _ _ _ _ _ _ Hn Hd) as [annotations Hst].
  set (ph := mkProviderHost host (host_labels lid) annotations (host_spec lid host svc port)) in *.
  assert (active_hostname unrecoverableOwner ph = mkActive lid host) as Hact.
  { unfold active_hostname. simpl. by rewrite host_spec_lease. }
  split.
  - rewrite (AllHostnames_elem _ _ _ Hall). exists (ns, host), ph. rewrite Hst, lookup_insert_eq.
    split_and!; [done|done| |done]. by apply managed_append.
  - intros a (k & ph' & Hk & Hns & _ & ->)%(AllHostnames_elem _ _ _ Hall) Hhost. rewrite Hst in Hk.
    destruct (decide (k = (ns, host))) as [->|Hne]; [rewrite lookup_insert_eq in Hk; injection Hk as <-; exact Hact|].
    rewrite lookup_insert_ne in Hk by done. destruct (Hn _ _ Hk) as [_ Hk2].
    destruct k as [k1 k2]. unfold active_hostname in Hhost. simpl in *. congruence.
Qed.

(** Every hostname declared in the cluster stays reserved at a restart, whatever
    became of its resource: [AllHostnames] lists each managed [ProviderHost], with
    the lease of its spec when that is valid, and otherwise with a valid address for
    owner: that of the spec, of the label, or one nobody holds the key of. *)
Theorem damaged_hostname_stays_reserved (w : W) (hs : list ActiveHostname) (host : string) (ph : ProviderHost) :
  AllHostnames ns unrecoverableOwner w = Ok hs -> stored w !! (ns, host) = Some ph ->
  selector_matches managed_selector (prh_labels ph) = true ->
  valid_address unrecoverableOwner = true ->
  (forall a c, bech32_canonical a = Some c -> valid_address c = true) ->
  exists a, a ∈ hs /\ ah_hostname a = ph_hostname (prh_spec ph) /\ valid_address (l_owner (ah_lid a)) = true /\
    (forall lid, ProviderHostSpec_LeaseID (prh_spec ph) = Some lid -> ah_lid a = lid) /\
    (ProviderHostSpec_LeaseID (prh_spec ph) = None ->
       valid_address (ph_owner (prh_spec ph)) = true -> l_owner (ah_lid a) = ph_owner (prh_spec ph)).
Proof.
  intros Hall Hst Hm Hunrec Hcanon. exists (active_hostname unrecoverableOwner ph). split.
  { rewrite (AllHostnames_elem _ _ _ Hall). exists (ns, host), ph. done. }
  split; [done|]. unfold active_hostname. simpl.
  destruct (ProviderHostSpec_LeaseID (prh_spec ph)) as [lid|] eqn:Hlid; simpl; split_and!.
  - unfold ProviderHostSpec_LeaseID in Hlid.
    apply bind_Some in Hlid as (owner & Ho & (pr & _ & [= <-])%bind_Some). by eapply Hcanon.
  - by intros ? [= ->].
  - done.
  - by repeat case_match.
  - done.
  - intros _ Hv. by rewrite Hv.
Qed.

(** A lease withdraws its own hostnames only: whatever
    [PurgeDeclaredHostname] and [PurgeDeclaredHostnames] do, successfully or not, a
    hostname declared by a lease of another order stays declared; and the hostname
    they are asked to withdraw is gone when they succeed. *)
Theorem purge_hostname_own (w : W) (lid other : LeaseID) (host h : string)
    (ph : ProviderHost) :
  lease_ok lid -> lease_ok other ->
  stored w !! (ns, h) = Some ph -> prh_labels ph = host_labels other ->
  (lease_order lid <> lease_order other ->
     stored (PurgeDeclaredHostname ns w lid host).1 !! (ns, h) = Some ph /\
     stored (PurgeDeclaredHostnames ns w lid).1 !! (ns, h) = Some ph) /\
  (other = lid ->
     ((PurgeDeclaredHostname ns w lid h).2 = None ->
        stored (PurgeDeclaredHostname ns w lid h).1 !! (ns, h) = None) /\
     ((PurgeDeclaredHostnames ns w lid).2 = None ->
        stored (PurgeDeclaredHostnames ns w lid).1 !! (ns, h) = None)).
Proof.
  intros Hlid Hother Hst Hlab. split.
  - intros Hne. assert (selector_matches (kubeSelectorForLease lid) (prh_labels ph) = false) as Hsel.
    { apply not_true_is_false. rewrite Hlab. by intros ?%selector_lease_order. }
    split; apply delete_collection_keeps; try done; unfold selected; simpl;
      by rewrite Hsel, andb_false_r.
  - intros ->. assert (selector_matches (kubeSelectorForLease lid) (prh_labels ph) = true) as Hsel.
    { rewrite Hlab. apply selector_lease_append. }
    split; intros Hok; eapply delete_collection_removes; try done; unfold selected; simpl;
      by rewrite !String.eqb_refl, Hsel.
Qed.

End HostnameTheorems.

(** ** Theorems on leased IPs *)

Section IPTheorems.
Context {W St : Type} `{HK : !KubeCollection W ProviderLeasedIP St} `{HL : !KubeLaws W ProviderLeasedIP St}.
Context `{HP : ServiceProtocolAPI} (ns : string).

(** [PurgeDeclaredIP], asked to withdraw one IP of one lease, withdraws the
    declarations of all leases: when it succeeds, no IP any lease of any tenant had
    declared is declared any more. The selector it builds is not the one it passes. *)
Theorem PurgeDeclaredIP_removes_all (w w' : W) (lid other : LeaseID) (svc osvc : string)
    (port oport oexternal : Z) (proto oproto : ServiceProtocol) (key name : string) :
  stored w !! (ns, name) = Some (declared_ip other osvc oport oexternal oproto key) ->
  PurgeDeclaredIP ns w lid svc port proto = (w', None) ->
  stored w' !! (ns, name) = None.
Proof.
  intros Hst Hp. unfold PurgeDeclaredIP in Hp.
  pose proof (delete_collection_removes w ns managed_selector None _ _ (f_equal snd Hp) Hst) as Hgone.
  rewrite Hp in Hgone. apply Hgone. unfold selected. simpl. rewrite String.eqb_refl. simpl.
  rewrite managed_append; [done|]. by simplify_map_eq.
Qed.

(** [PurgeDeclaredIPs] withdraws the declarations of its lease and no others:
    successful or not, the IPs a lease of another order declared stay declared; when
    it succeeds, those of its own lease are gone. *)
Theorem PurgeDeclaredIPs_own (w : W) (lid other : LeaseID) (svc key name : string) (port external : Z)
    (proto : ServiceProtocol) :
  lease_ok lid -> lease_ok other ->
  stored w !! (ns, name) = Some (declared_ip other svc port external proto key) ->
  (lease_order lid <> lease_order other ->
     stored (PurgeDeclaredIPs ns w lid).1 !! (ns, name) =
       Some (declared_ip other svc port external proto key)) /\
  (other = lid -> (PurgeDeclaredIPs ns w lid).2 = None ->
     stored (PurgeDeclaredIPs ns w lid).1 !! (ns, name) = None).
Proof.
  intros Hlid Hother Hst. unfold PurgeDeclaredIPs. split.
  - intros Hne. apply delete_collection_keeps; [done|]. unfold selected. rewrite selector_app. simpl.
    replace (selector_matches (kubeSelectorForLease lid) _) with false.
    + by rewrite !andb_false_r.
    + symmetry. apply not_true_is_false. by intros ?%selector_lease_order.
  - intros -> Hok. eapply delete_collection_removes; [done..|]. unfold selected. rewrite selector_app. simpl.
    rewrite selector_lease_append, managed_append by (by simplify_map_eq).
    by rewrite String.eqb_refl.
Qed.

(** A declaration made without [overwrite] never replaces one that is there, and
    one that succeeds is in the cluster as it was asked for. *)
Theorem DeclareIP_exclusive (w w' : W) (lid : LeaseID) (svc key : string) (port external : Z)
    (proto : ServiceProtocol) (overwrite : bool) (r : option declare_error) :
  DeclareIP ns w lid svc port external proto key overwrite = (w', r) ->
  (overwrite = false -> forall ip, stored w !! (ns, declared_ip_name key proto external) = Some ip ->
     stored w' = stored w /\ r <> None) /\
  (r = None -> stored w' = <[(ns, declared_ip_name key proto external) :=
     declared_ip lid svc port external proto key]> (stored w)).
Proof.
  unfold DeclareIP. intros Hd.
  destruct (kube_Get w ns (declared_ip_name key proto external)) as [[o st]|e] eqn:Hg.
  - destruct overwrite; simpl in Hd.
    + split; [done|]. intros ->.
      pose proof (kube_Update_effect w ns (declared_ip lid svc port external proto key) st) as Heff.
      unfold took_effect in Heff. destruct (kube_Update _ _ _ _) as [w1 [e|]]; simplify_eq/=. exact Heff.
    + simplify_eq. done.
  - destruct (IsNotFound e) eqn:Hnf.
    + pose proof (kube_Get_missing _ _ _ _ Hg Hnf) as Hnone. split; [by intros _ ip; rewrite Hnone|].
      intros ->. pose proof (kube_Create_effect w ns (declared_ip lid svc port external proto key)) as Heff.
      unfold took_effect in Heff. destruct (kube_Create _ _ _) as [w1 [e'|]]; simplify_eq/=. exact Heff.
    + simplify_eq. done.
Qed.

End IPTheorems.

(** ** Examples *)

Module DeclarationExamples.

#[local] Existing Instance named_protocols.
#[local] Existing Instance any_bech32.
#[local] Instance ex_hosts_api : KubeCollection (store ProviderHost) ProviderHost unit := store_api.
#[local] Instance ex_hosts_laws : KubeLaws (store ProviderHost) ProviderHost unit := store_laws.
#[local] Instance ex_ips_api : KubeCollection (store ProviderLeasedIP) ProviderLeasedIP unit := store_api.
#[local] Instance ex_ips_laws : KubeLaws (store ProviderLeasedIP) ProviderLeasedIP unit := store_laws.

Definition lease_a : LeaseID := mkLeaseID "akash1a" 1 1 1 "akash1p".
Definition lease_b : LeaseID := mkLeaseID "akash1b" 2 1 1 "akash1p".
Definition no_hosts : store ProviderHost := mkStore ∅ [].

Lemma leases_ok : lease_ok lease_a /\ lease_ok lease_b.
Proof. unfold lease_ok, is_uint. simpl. lia. Qed.

Lemma declared_hostname_reserved_witness :
  exists w' hs, DeclareHostname "lease" no_hosts lease_a "app.example.com" "web" 80 "now" = (w', None) /\
    AllHostnames "lease" "akash1zero" w' = Ok hs /\ mkActive lease_a "app.example.com" ∈ hs.
Proof.
  eexists. eexists. split; [reflexivity|]. split; [reflexivity|].
  eapply (declared_hostname_reserved "lease" "akash1zero" no_hosts _ lease_a "app.example.com" "web" "now" 80);
    [|split; reflexivity|reflexivity|reflexivity].
  intros k ph Hk. change ((∅ : gmap (string * string) ProviderHost) !! k = Some ph) in Hk.
  rewrite lookup_empty in Hk. discriminate.
Defined.

(** A resource whose provider address was damaged. *)
Definition damaged : ProviderHost :=
  mkProviderHost "app.example.com" (host_labels lease_a) ∅
    (mkHostSpec "akash1a" "" "app.example.com" 1 1 1 "web" 80).
Definition damaged_world : store ProviderHost := mkStore {[ ("lease", "app.example.com")%string := damaged ]} [].

Lemma damaged_hostname_stays_reserved_witness :
  exists hs a, AllHostnames (St := unit) "lease" "akash1zero" damaged_world = Ok hs /\ a ∈ hs /\
    ah_hostname a = "app.example.com"%string /\ valid_address (l_owner (ah_lid a)) = true.
Proof.
  assert (AllHostnames (St := unit) "lease" "akash1zero" damaged_world =
    Ok [active_hostname "akash1zero" damaged]) as Hall by (vm_compute; reflexivity).
  assert (stored damaged_world !! ("lease", "app.example.com")%string = Some damaged) as Hst
    by (vm_compute; reflexivity).
  destruct (damaged_hostname_stays_reserved "lease" "akash1zero" damaged_world _ "app.example.com" damaged
    Hall Hst eq_refl eq_refl) as (a & Ha & Hh & Hv & _).
  - clear. intros x c Hc. unfold valid_address. simpl in *. destruct (String.eqb_spec x "") as [|Hx]; [done|].
    injection Hc as <-. by destruct (String.eqb_spec x "").
  - eexists. exists a. split; [exact Hall|]. split; [exact Ha|]. split; [exact Hh|exact Hv].
Defined.

Definition host_b : ProviderHost :=
  mkProviderHost "b.example.com" (host_labels lease_b) ∅ (host_spec lease_b "b.example.com" "web" 80).
Definition two_hosts : store ProviderHost := mkStore {[ ("lease", "b.example.com")%string := host_b ]} [].

Lemma two_hosts_b : stored two_hosts !! ("lease", "b.example.com")%string = Some host_b.
Proof. vm_compute. reflexivity. Qed.

Lemma purge_hostname_own_witness :
  stored (PurgeDeclaredHostnames "lease" two_hosts lease_a).1 !! ("lease", "b.example.com")%string =
    Some host_b /\
  stored (PurgeDeclaredHostname "lease" two_hosts lease_b "b.example.com").1 !!
    ("lease", "b.example.com")%string = None.
Proof.
  split.
  - refine (proj2 (proj1 (purge_hostname_own "lease" two_hosts lease_a lease_b "b.example.com" "b.example.com"
      host_b (proj1 leases_ok) (proj2 leases_ok) two_hosts_b eq_refl) _)). discriminate.
  - refine (proj1 (proj2 (purge_hostname_own "lease" two_hosts lease_b lease_b "b.example.com" "b.example.com"
      host_b (proj2 leases_ok) (proj2 leases_ok) two_hosts_b eq_refl) eq_refl) _). vm_compute. reflexivity.
Defined.

(** An IP of tenant b, and tenant a withdrawing one of its own. *)
Definition ip_b : ProviderLeasedIP := declared_ip lease_b "web" 8080 80 TCP "akash1b-ip-x".
Definition ip_world : store ProviderLeasedIP := mkStore {[ ("lease", pip_name ip_b)%string := ip_b ]} [].

Lemma ip_world_b : stored ip_world !! ("lease"%string, pip_name ip_b) = Some ip_b.
Proof. vm_compute. reflexivity. Qed.

Lemma PurgeDeclaredIP_removes_all_witness :
  exists w', PurgeDeclaredIP "lease" ip_world lease_a "api" 443 TCP = (w', None) /\
    stored ip_world !! ("lease"%string, pip_name ip_b) = Some ip_b /\
    stored w' !! ("lease"%string, pip_name ip_b) = None.
Proof.
  eexists. split; [reflexivity|]. split; [exact ip_world_b|].
  exact (PurgeDeclaredIP_removes_all "lease" ip_world _ lease_a lease_b "api" "web" 443 8080 80 TCP TCP
    "akash1b-ip-x" _ ip_world_b eq_refl).
Defined.

Lemma PurgeDeclaredIPs_own_witness :
  stored (PurgeDeclaredIPs "lease" ip_world lease_a).1 !! ("lease"%string, pip_name ip_b) = Some ip_b.
Proof.
  refine (proj1 (PurgeDeclaredIPs_own "lease" ip_world lease_a lease_b "web" "akash1b-ip-x" (pip_name ip_b)
    8080 80 TCP (proj1 leases_ok) (proj2 leases_ok) ip_world_b) _). discriminate.
Defined.

Lemma DeclareIP_exclusive_witness :
  exists w' r, DeclareIP "lease" ip_world lease_a "api" 9090 80 TCP "akash1b-ip-x" false = (w', r) /\
    stored w' = stored ip_world /\ r <> None.
Proof.
  destruct (DeclareIP "lease" ip_world lease_a "api" 9090 80 TCP "akash1b-ip-x" false) as [w' r] eqn:Hd.
  exists w', r. split; [reflexivity|].
  exact (proj1 (DeclareIP_exclusive "lease" ip_world w' lease_a "api" "akash1b-ip-x" 9090 80 TCP false r Hd)
    eq_refl ip_b ip_world_b).
Defined.

End DeclarationExamples.
