(* ===== verification/MetalLB.v ===== *)
(** * The MetalLB client

    Model of [cluster/kube/operators/clients/metallb/client.go]: a leased IP is a
    load-balancer service in the namespace of the lease, which MetalLB gives an
    address; the client creates, removes and lists these services, reads the
    addresses they were given, and reads MetalLB's metrics. The class [Passthroughs]
    is what the IP operator uses of it. *)

From Stdlib Require Import ZArith Lia Ascii.
From stdpp Require Import base gmap list strings tactics.
From S2P Require Import Prelude Types Names Kube HostnameOp Ingress.

(** ** Data *)

Section Data.
Context `{ServiceProtocolAPI}.

Record ClusterIPPassthroughDirective := mkIPDirective {
  i_LeaseID : LeaseID; i_ServiceName : string; i_Port : Z; i_ExternalPort : Z;
  i_SharingKey : string; i_Protocol : ServiceProtocol
}.

(** [ipPassthrough]. *)
Record ipPassthrough := mkPassthrough {
  p_lID : LeaseID; p_serviceName : string; p_port : Z; p_externalPort : Z;
  p_sharingKey : string; p_protocol : ServiceProtocol
}.

(** [ipLeaseState]. *)
Record ipLeaseState := mkLeaseState {
  s_leaseID : LeaseID; s_ip : string; s_serviceName : string; s_externalPort : Z; s_port : Z;
  s_sharingKey : string; s_protocol : ServiceProtocol
}.

End Data.

Record ServicePort := mkServicePort {
  sp_name : string; sp_protocol : string; sp_port : Z; sp_target : Z
}.

Record KService := mkKService {
  ks_name : string; ks_labels : labels_t; ks_annotations : labels_t; ks_type : string;
  ks_ports : list ServicePort; ks_selector : labels_t
}.

#[export] Instance KService_object : KubeObject KService :=
  {| obj_name := ks_name; obj_labels := ks_labels |}.

Definition metalLbAllowSharedIP : string := "metallb.universe.tf/allow-shared-ip".
Definition metalLbPoolAnnotation : string := "metallb.universe.tf/address-pool".
Definition defaultMetalLBPoolName : string := "default".
Definition ServiceTypeLoadBalancer : string := "LoadBalancer".

Inductive metallb_error :=
| MKube (e : kube_error)
| errInternal
| errMetalLB (what : string)
| errInvalidLeaseService (what : string)
| MLabels (e : label_error).

(** Go's [map[string]string] lookup without a check: a missing key is empty. *)
Definition map_get (m : labels_t) (k : string) : string := default ""%string (m !! k).

(** ** Operations *)

Section Client.
Context `{ServiceProtocolAPI} `{LeaseHash}.
Context {W St : Type} `{!KubeCollection W KService St} (lb_ingress : St -> list string).
Context (poolName : string).

Definition createIPPassthroughResourceName (d : ClusterIPPassthroughDirective) : string :=
  to_lower (i_ServiceName d +:+ "-ip-" +:+ FormatUint (i_ExternalPort d) +:+ "-" +:+ proto_text (i_Protocol d)).

Definition PurgeIPPassthrough (w : W) (d : ClusterIPPassthroughDirective) : W * option metallb_error :=
  let r := kube_Delete w (LidNS (i_LeaseID d)) (createIPPassthroughResourceName d) in
  match r.2 with
  | Some e => if IsNotFound e then (r.1, None) else (r.1, Some (MKube e))
  | None => (r.1, None)
  end.

Definition kube_protocol (p : ServiceProtocol) : option string :=
  if decide (p = TCP) then Some "TCP"%string
  else if decide (p = UDP) then Some "UDP"%string
  else None.

(** [intstr.FromInt] keeps 32 bits. *)
Definition passthrough_service (d : ClusterIPPassthroughDirective) (proto : string) : KService :=
  let portName := createIPPassthroughResourceName d in
  mkKService portName
    (<[AkashServiceTarget := AkashMetalLB]> (<[AkashManagedLabelName := "true"%string]>
      (AppendLeaseLabels (i_LeaseID d) ∅)))
    (insert_if (negb (String.eqb poolName defaultMetalLBPoolName)) metalLbPoolAnnotation poolName
      {[ metalLbAllowSharedIP := i_SharingKey d ]})
    ServiceTypeLoadBalancer
    [mkServicePort portName proto (to_int32 (i_ExternalPort d)) (to_int32 (i_Port d))]
    (<[AkashManifestServiceLabelName := i_ServiceName d]> {[ AkashManagedLabelName := "true"%string ]}).

Definition CreateIPPassthrough (w : W) (d : ClusterIPPassthroughDirective) : W * option metallb_error :=
  match kube_protocol (i_Protocol d) with
  | None => (w, Some errInternal)
  | Some proto =>
      let r := create_or_update w (LidNS (i_LeaseID d)) (passthrough_service d proto) in
      (r.1, MKube <$> r.2)
  end.

Definition metallb_selector : list (string * string) :=
  [(AkashManagedLabelName, "true"%string); (AkashServiceTarget, AkashMetalLB)].

(** One service of [GetIPPassthroughs]: [Ok None] is a service that is no lease's.
    The port is not read. *)
Definition read_passthrough (s : KService) : result metallb_error (option ipPassthrough) :=
  match ks_labels s !! AkashLeaseOwnerLabelName with
  | None => Ok None
  | Some _ =>
      if negb (String.eqb (ks_type s) ServiceTypeLoadBalancer) then Err (errMetalLB "wrong type")
      else match ks_ports s with
           | [portDefn] =>
               match RecoverLeaseIDFromLabels (ks_labels s) with
               | Err e => Err (MLabels e)
               | Ok leaseID =>
                   match ServiceProtocolFromKube (sp_protocol portDefn) with
                   | None => Err (errMetalLB "invalid protocol")
                   | Some mproto =>
                       let serviceName := map_get (ks_selector s) AkashManifestServiceLabelName in
                       if String.eqb serviceName "" then Err (errMetalLB "empty selector")
                       else Ok (Some (mkPassthrough leaseID serviceName 0 (wrap32 (sp_port portDefn))
                              (map_get (ks_annotations s) metalLbAllowSharedIP) mproto))
                   end
               end
           | _ => Err (errMetalLB "wrong number of ports")
           end
  end.

Fixpoint read_passthroughs (items : list KService) : result metallb_error (list ipPassthrough) :=
  match items with
  | [] => Ok []
  | s :: rest =>
      (let? v := read_passthrough s in let? vs := read_passthroughs rest in
       Ok (match v with Some p => p :: vs | None => vs end))%go
  end.

Definition GetIPPassthroughs (w : W) : result metallb_error (list ipPassthrough) :=
  match kube_List w None metallb_selector with
  | Err e => Err (MKube e)
  | Ok items => read_passthroughs items.*1
  end.

Definition read_lease_state (leaseID : LeaseID) (s : KService * St) : result metallb_error ipLeaseState :=
  match lb_ingress s.2 with
  | [ip] =>
      match ks_ports s.1 with
      | [port] =>
          match ServiceProtocolFromKube (sp_protocol port) with
          | None => Err (errInvalidLeaseService "invalid protocol")
          | Some proto =>
              Ok (mkLeaseState leaseID ip (map_get (ks_selector s.1) AkashManifestServiceLabelName)
                (wrap32 (sp_port port)) (wrap32 (sp_target port))
                (map_get (ks_annotations s.1) metalLbAllowSharedIP) proto)
          end
      | _ => Err (errInvalidLeaseService "port specs")
      end
  | _ => Err (errInvalidLeaseService "load balancers")
  end.

Fixpoint read_lease_states (leaseID : LeaseID) (items : list (KService * St))
    : result metallb_error (list ipLeaseState) :=
  match items with
  | [] => Ok []
  | s :: rest =>
      (let? v := read_lease_state leaseID s in let? vs := read_lease_states leaseID rest in
       Ok (v :: vs))%go
  end.

Definition GetIPAddressStatusForLease (w : W) (leaseID : LeaseID) : result metallb_error (list ipLeaseState) :=
  match kube_List w (Some (LidNS leaseID)) metallb_selector with
  | Err e => Err (MKube e)
  | Ok items => read_lease_states leaseID items
  end.

End Client.

(** ** Usage *)

(** A metric of a family: the value of its gauge, if it is one, and its labels. *)
Record metric := mkMetric { mt_gauge : option Z; mt_labels : list (string * string) }.

Definition metricNameAddrInUse : string := "metallb_allocator_addresses_in_use_total".
Definition metricNameAddrTotal : string := "metallb_allocator_addresses_total".

(** The search through the metrics of a family: the first gauge of the pool. *)
Fixpoint search_metrics (poolName : string) (metrics : list metric) : option Z :=
  match metrics with
  | [] => None
  | m :: rest =>
      match mt_gauge m with
      | None => search_metrics poolName rest
      | Some v =>
          if existsb (fun l => String.eqb l.1 "pool" && String.eqb l.2 poolName) (mt_labels m)
          then Some v else search_metrics poolName rest
      end
  end.

Record usage := mkUsage { u_inUse : option Z; u_available : option Z }.

(** The loop over the families, in the order of the map; it stops when both are set. *)
Fixpoint usage_loop (poolName : string) (families : list (string * list metric)) (u : usage) : usage :=
  match families with
  | [] => u
  | (name, metrics) :: rest =>
      match u_inUse u, u_available u with
      | Some _, Some _ => u
      | _, _ =>
          let found := search_metrics poolName metrics in
          if String.eqb name metricNameAddrInUse then
            usage_loop poolName rest
              (mkUsage (match found with Some v => Some v | None => u_inUse u end) (u_available u))
          else if String.eqb name metricNameAddrTotal then
            usage_loop poolName rest
              (mkUsage (u_inUse u) (match found with Some v => Some v | None => u_available u end))
          else usage_loop poolName rest u
      end
  end.

(** What is read of a successful answer: a value that was not found is 0. *)
Definition GetIPAddressUsage `{GoRange} (poolName : string) (mf : gmap string (list metric)) : Z * Z :=
  let u := usage_loop poolName (range_map mf) (mkUsage None None) in
  (default 0%Z (u_inUse u), default 0%Z (u_available u)).

(** ** What the IP operator uses *)

Class Passthroughs (W : Type) `{ServiceProtocolAPI} := {
  pt_create : W -> ClusterIPPassthroughDirective -> W * option metallb_error;
  pt_purge : W -> ClusterIPPassthroughDirective -> W * option metallb_error;
  pt_list : W -> result metallb_error (list ipPassthrough);
  pt_usage : W -> result metallb_error (Z * Z)
}.

(** The numbers of a directive are within their types, its protocol is one and its
    service has a name. *)
Definition directive_ok `{ServiceProtocolAPI} (d : ClusterIPPassthroughDirective) : Prop :=
  lease_ok (i_LeaseID d) /\ is_uint 32 (i_Port d) /\ is_uint 32 (i_ExternalPort d) /\
  proto_ok (i_Protocol d) /\ i_ServiceName d <> ""%string.

(** Where a directive puts its service. *)
Definition service_key `{ServiceProtocolAPI} `{LeaseHash} (d : ClusterIPPassthroughDirective) : string * string :=
  (LidNS (i_LeaseID d), createIPPassthroughResourceName d).

(** [exposed w] is what the services of the cluster expose, by where they are. *)
Class PassthroughLaws (W : Type) `{ServiceProtocolAPI} `{LeaseHash} `{!Passthroughs W} := {
  exposed : W -> gmap (string * string) ClusterIPPassthroughDirective;
  pt_create_effect w d :
    directive_ok d -> took_effect exposed w (<[service_key d := d]> (exposed w)) (pt_create w d);
  pt_purge_effect w d :
    took_effect exposed w (delete (service_key d) (exposed w)) (pt_purge w d);
  pt_list_ok w ps :
    pt_list w = Ok ps ->
    forall k d, exposed w !! k = Some d ->
      mkPassthrough (i_LeaseID d) (i_ServiceName d) 0 (i_ExternalPort d) (i_SharingKey d) (i_Protocol d) ∈ ps
}.

(** ** The client provides it *)

Section Laws.
Context `{HP : ServiceProtocolAPI} `{HPL : !ServiceProtocolLaws} `{HH : LeaseHash}.
Context {W St : Type} `{HK : !KubeCollection W KService St} `{HL : !KubeLaws W KService St}.
Context (lb_ingress : St -> list string) (poolName : string) (usage_of : W -> result metallb_error (Z * Z)).

Definition metallb_passthroughs : Passthroughs W :=
  {| pt_create := CreateIPPassthrough poolName; pt_purge := PurgeIPPassthrough;
     pt_list := GetIPPassthroughs; pt_usage := usage_of |}.

(** The directive a service of the client stands for. *)
Definition service_directive (s : KService) : option ClusterIPPassthroughDirective :=
  if selector_matches metallb_selector (ks_labels s) then
    match read_passthrough s, ks_ports s with
    | Ok (Some p), [port] =>
        Some (mkIPDirective (p_lID p) (p_serviceName p) (wrap32 (sp_target port)) (p_externalPort p)
          (p_sharingKey p) (p_protocol p))
    | _, _ => None
    end
  else None.

Lemma kube_protocol_ok p :
  proto_ok p -> exists proto, kube_protocol p = Some proto /\ ServiceProtocolFromKube proto = Some p.
Proof.
  destruct proto_distinct as (Hne & _), proto_from_kube as [Ht Hu]. unfold kube_protocol.
  intros [-> | ->]; [rewrite decide_True by done|rewrite decide_False, decide_True by done]; eauto.
Qed.

Lemma shared_ip_annotation d :
  map_get (ks_annotations (passthrough_service poolName d "TCP")) metalLbAllowSharedIP = i_SharingKey d.
Proof.
  unfold map_get. cbn [ks_annotations passthrough_service]. unfold insert_if.
  destruct (negb _); by simplify_map_eq.
Qed.

Lemma map_get_insert (m : labels_t) k v : map_get (<[k := v]> m) k = v.
Proof. unfold map_get. by rewrite lookup_insert_eq. Qed.

(** Creating a passthrough and reading it back gives everything but the port. *)
Lemma passthrough_roundtrip d proto :
  directive_ok d -> ServiceProtocolFromKube proto = Some (i_Protocol d) ->
  read_passthrough (passthrough_service poolName d proto) =
    Ok (Some (mkPassthrough (i_LeaseID d) (i_ServiceName d) 0 (i_ExternalPort d) (i_SharingKey d)
      (i_Protocol d))).
Proof.
  intros (Hlid & Hport & Hext & Hproto & Hname) Hk. unfold read_passthrough.
  rewrite (shared_ip_annotation d : map_get (ks_annotations (passthrough_service poolName d proto)) _ = _).
  cbn [passthrough_service ks_labels ks_type ks_ports ks_selector sp_protocol sp_port].
  assert (RecoverLeaseIDFromLabels (<[AkashServiceTarget:=AkashMetalLB]>
    (<[AkashManagedLabelName:="true"%string]> (AppendLeaseLabels (i_LeaseID d) ∅))) = Ok (i_LeaseID d)) as Hr.
  { rewrite <- (recover_append (i_LeaseID d) (<[AkashServiceTarget:=AkashMetalLB]>
      (<[AkashManagedLabelName:="true"%string]> (∅ : labels_t))) Hlid).
    by apply f_equal. }
  rewrite Hr, Hk. clear Hr Hk. rewrite !lookup_insert_ne, append_owner by done.
  rewrite String.eqb_refl, map_get_insert. cbn [negb].
  rewrite (proj2 (String.eqb_neq _ _) Hname). by rewrite wrap32_to_int32.
Qed.

Lemma service_directive_of d proto :
  directive_ok d -> ServiceProtocolFromKube proto = Some (i_Protocol d) ->
  service_directive (passthrough_service poolName d proto) = Some d.
Proof.
  intros Hok Hk. unfold service_directive. rewrite passthrough_roundtrip by done.
  replace (selector_matches _ _) with true.
  - simpl. rewrite wrap32_to_int32 by apply Hok. by destruct d.
  - symmetry. unfold selector_matches, metallb_selector. cbn [forallb passthrough_service ks_labels].
    rewrite !bool_decide_eq_true_2; [done|by simplify_map_eq..].
Qed.

Definition metallb_exposed (w : W) : gmap (string * string) ClusterIPPassthroughDirective :=
  omap service_directive (stored w).

Lemma CreateIPPassthrough_effect w d :
  directive_ok d ->
  took_effect metallb_exposed w (<[service_key d := d]> (metallb_exposed w)) (CreateIPPassthrough poolName w d).
Proof.
  intros Hok. destruct (kube_protocol_ok (i_Protocol d)) as (proto & Hp & Hk); [apply Hok|].
  unfold CreateIPPassthrough. rewrite Hp.
  pose proof (create_or_update_effect w (LidNS (i_LeaseID d)) (passthrough_service poolName d proto)) as Heff.
  assert (omap service_directive (<[service_key d := passthrough_service poolName d proto]> (stored w))
    = <[service_key d := d]> (metallb_exposed w)) as Ho
    by (apply omap_insert_Some; by apply service_directive_of).
  unfold took_effect, metallb_exposed in *. cbn [fst snd].
  destruct (create_or_update _ _ _).2 as [e|]; simpl.
  - destruct Heff as [-> | ->]; [by left|by right].
  - by rewrite Heff.
Qed.

Lemma PurgeIPPassthrough_effect w d :
  took_effect metallb_exposed w (delete (service_key d) (metallb_exposed w)) (PurgeIPPassthrough w d).
Proof.
  unfold PurgeIPPassthrough.
  pose proof (kube_Delete_effect w (LidNS (i_LeaseID d)) (createIPPassthroughResourceName d)) as Heff.
  pose proof (kube_Delete_missing w (LidNS (i_LeaseID d)) (createIPPassthroughResourceName d)) as Hmiss.
  unfold took_effect, metallb_exposed in *.
  rewrite <- omap_delete. fold (service_key d) in Heff, Hmiss.
  destruct (kube_Delete _ _ _).2 as [e|]; [|simpl; by rewrite Heff].
  destruct (IsNotFound e) eqn:Hnf; simpl.
  - by rewrite (Hmiss e).
  - destruct Heff as [-> | ->]; auto.
Qed.

Lemma read_passthroughs_elem items ps s p :
  read_passthroughs items = Ok ps -> s ∈ items -> read_passthrough s = Ok (Some p) -> p ∈ ps.
Proof.
  revert ps. induction items as [|s' items IH]; intros ps Hr Hs Hp; [by apply not_elem_of_nil in Hs|].
  simpl in Hr. apply bind_result_Ok in Hr as (v & Hv & Hr). apply bind_result_Ok in Hr as (vs & Hvs & Hr).
  injection Hr as <-. apply elem_of_cons in Hs as [->|Hs].
  - rewrite Hp in Hv. injection Hv as <-. left.
  - destruct v; [right|]; by eapply IH.
Qed.

Lemma read_lease_states_elem lid (items : list (KService * St)) ss s :
  read_lease_states lb_ingress lid items = Ok ss -> s ∈ items ->
  exists v, v ∈ ss /\ read_lease_state lb_ingress lid s = Ok v.
Proof.
  revert ss. induction items as [|s' items IH]; intros ss Hr Hs; [by apply not_elem_of_nil in Hs|].
  simpl in Hr. apply bind_result_Ok in Hr as (v & Hv & Hr). apply bind_result_Ok in Hr as (vs & Hvs & Hr).
  injection Hr as <-. apply elem_of_cons in Hs as [->|Hs].
  - exists v. split; [left|done].
  - destruct (IH vs Hvs Hs) as (v' & Hin & Hv'). exists v'. split; [by right|done].
Qed.

Lemma GetIPPassthroughs_elem w ps k d :
  GetIPPassthroughs w = Ok ps -> metallb_exposed w !! k = Some d ->
  mkPassthrough (i_LeaseID d) (i_ServiceName d) 0 (i_ExternalPort d) (i_SharingKey d) (i_Protocol d) ∈ ps.
Proof.
  unfold GetIPPassthroughs. intros Hg Hd. destruct (kube_List _ _ _) as [items|] eqn:Hi; [|done].
  unfold metallb_exposed in Hd. apply lookup_omap_Some in Hd as (s & Hsd & Hs).
  unfold service_directive in Hsd. destruct (selector_matches _ _) eqn:Hm; [|done].
  eapply read_passthroughs_elem; [done| |].
  - apply (kube_List_ok _ _ _ _ Hi). exists k. done.
  - destruct (read_passthrough s) as [[p|]|] eqn:Hp; try done.
    destruct (ks_ports s) as [|port [|]] eqn:Hports; try done. injection Hsd as <-. simpl.
    unfold read_passthrough in Hp. by repeat case_match; simplify_eq/=.
Qed.

#[export] Instance metallb_passthrough_laws : @PassthroughLaws W HP HH metallb_passthroughs.
Proof.
  refine {| exposed := metallb_exposed : W -> gmap (string * string) ClusterIPPassthroughDirective |}; simpl.
  - apply CreateIPPassthrough_effect.
  - apply PurgeIPPassthrough_effect.
  - intros w ps Hps k d Hd. by eapply GetIPPassthroughs_elem.
Defined.

(** *** Theorems *)

(** What the tenant is shown of a leased IP is what was asked for: after a
    successful [CreateIPPassthrough], the status of the lease lists the service with
    its name, port, external port, sharing key and protocol and the one address the
    load balancer gave it, ports being carried through signed 32-bit fields. *)
Theorem lease_ip_status_roundtrip (w w' : W) (d : ClusterIPPassthroughDirective) (ss : list ipLeaseState) :
  directive_ok d -> CreateIPPassthrough poolName w d = (w', None) ->
  GetIPAddressStatusForLease lb_ingress w' (i_LeaseID d) = Ok ss ->
  exists ip, mkLeaseState (i_LeaseID d) ip (i_ServiceName d) (i_ExternalPort d) (i_Port d)
    (i_SharingKey d) (i_Protocol d) ∈ ss.
Proof.
  intros Hok Hc Hs. destruct (kube_protocol_ok (i_Protocol d)) as (proto & Hp & Hk); [apply Hok|].
  unfold CreateIPPassthrough in Hc. rewrite Hp in Hc.
  pose proof (create_or_update_effect w (LidNS (i_LeaseID d)) (passthrough_service poolName d proto)) as Heff.
  destruct (create_or_update _ _ _) as [w1 [e|]]; simplify_eq/=. unfold took_effect in Heff. simpl in Heff.
  unfold GetIPAddressStatusForLease in Hs. destruct (kube_List _ _ _) as [items|] eqn:Hi; [|done].
  assert (passthrough_service poolName d proto ∈ items.*1) as Hin.
  { apply (kube_List_ok _ _ _ _ Hi). exists (service_key d). rewrite Heff. split; [apply lookup_insert_eq|].
    split; [apply String.eqb_refl|]. pose proof (service_directive_of d proto Hok Hk) as Hsd.
    unfold service_directive in Hsd. simpl. by destruct (selector_matches _ _). }
  apply list_elem_of_fmap in Hin as ([s st] & Hs1 & Hin). simpl in Hs1. subst s.
  destruct (read_lease_states_elem _ _ _ _ Hs Hin) as (v & Hv & Hrv).
  unfold read_lease_state in Hrv. cbn [fst snd] in Hrv.
  destruct (lb_ingress st) as [|ip [|]]; try done. exists ip.
  cbn [passthrough_service ks_ports sp_protocol sp_port sp_target ks_selector] in Hrv.
  rewrite Hk, map_get_insert, (wrap32_to_int32 (i_ExternalPort d)), (wrap32_to_int32 (i_Port d)) in Hrv
    by apply Hok.
  rewrite (shared_ip_annotation d : map_get (ks_annotations (passthrough_service poolName d proto)) _ = _) in Hrv.
  by injection Hrv as <-.
Qed.

(** The passthroughs an operator finds when it starts have no port: for every
    cluster, each passthrough [GetIPPassthroughs] returns has port 0, whatever port
    its service forwards to. *)
Theorem listed_passthrough_port_lost (w : W) (ps : list ipPassthrough) (p : ipPassthrough) :
  GetIPPassthroughs w = Ok ps -> p ∈ ps -> p_port p = 0%Z.
Proof.
  unfold GetIPPassthroughs. destruct (kube_List _ _ _) as [items|]; [|done].
  revert ps. induction items.*1 as [|s rest IH]; intros ps Hr Hp; simpl in Hr;
    [injection Hr as <-; by apply not_elem_of_nil in Hp|].
  apply bind_result_Ok in Hr as (v & Hv & Hr). apply bind_result_Ok in Hr as (vs & Hvs & Hr).
  injection Hr as <-. destruct v as [p'|]; [|by eapply IH].
  apply elem_of_cons in Hp as [->|Hp]; [|by eapply IH].
  unfold read_passthrough in Hv. by repeat case_match; simplify_eq/=.
Qed.

End Laws.

(** *** Usage *)

(** The metrics of a family in a list of families. *)
Fixpoint family (name : string) (families : list (string * list metric)) : option (list metric) :=
  match families with
  | [] => None
  | (n, metrics) :: rest => if String.eqb n name then Some metrics else family name rest
  end.

Lemma family_elem name families metrics :
  NoDup families.*1 -> (name, metrics) ∈ families -> family name families = Some metrics.
Proof.
  induction families as [|[n ms] rest IH]; intros Hnd Hin; [by apply not_elem_of_nil in Hin|].
  cbn [fmap list_fmap fst] in Hnd. apply list.NoDup_cons in Hnd as [Hn Hnd]. simpl.
  apply elem_of_cons in Hin as [[= <- <-]|Hin]; [by rewrite String.eqb_refl|].
  destruct (String.eqb_spec n name) as [->|]; [|by apply IH].
  destruct Hn. apply list_elem_of_fmap. by exists (name, metrics).
Qed.

Lemma family_None name families : name ∉ families.*1 -> family name families = None.
Proof.
  induction families as [|[n ms] rest IH]; intros Hn; [done|]. cbn [fmap list_fmap fst] in Hn.
  apply not_elem_of_cons in Hn as [Hne Hn]. simpl.
  destruct (String.eqb_spec n name); [congruence|]. by apply IH.
Qed.

Lemma usage_loop_spec poolName families u :
  NoDup families.*1 ->
  (u_inUse u <> None -> metricNameAddrInUse ∉ families.*1) ->
  (u_available u <> None -> metricNameAddrTotal ∉ families.*1) ->
  usage_loop poolName families u =
    mkUsage (match u_inUse u with
             | Some v => Some v
             | None => family metricNameAddrInUse families ≫= search_metrics poolName
             end)
            (match u_available u with
             | Some v => Some v
             | None => family metricNameAddrTotal families ≫= search_metrics poolName
             end).
Proof.
  revert u. induction families as [|[name metrics] rest IH]; intros u Hnd Hin Hav.
  { by destruct u as [[|] [|]]. }
  cbn [fmap list_fmap fst] in *. apply list.NoDup_cons in Hnd as [Hname Hnd].
  assert (forall x : option Z, (x <> None -> metricNameAddrInUse ∉ name :: rest.*1) ->
    x <> None -> metricNameAddrInUse ∉ rest.*1) as Hw1 by (intros ? H1 H2 H3; apply (H1 H2); by right).
  assert (forall x : option Z, (x <> None -> metricNameAddrTotal ∉ name :: rest.*1) ->
    x <> None -> metricNameAddrTotal ∉ rest.*1) as Hw2 by (intros ? H1 H2 H3; apply (H1 H2); by right).
  assert (usage_loop poolName ((name, metrics) :: rest) u =
    match u_inUse u, u_available u with
    | Some _, Some _ => u
    | _, _ => let found := search_metrics poolName metrics in
        if String.eqb name metricNameAddrInUse then
          usage_loop poolName rest
            (mkUsage (match found with Some v => Some v | None => u_inUse u end) (u_available u))
        else if String.eqb name metricNameAddrTotal then
          usage_loop poolName rest
            (mkUsage (u_inUse u) (match found with Some v => Some v | None => u_available u end))
        else usage_loop poolName rest u
    end) as -> by done.
  cbn [family]. destruct (String.eqb_spec name metricNameAddrInUse) as [->|Hi];
    [|destruct (String.eqb_spec name metricNameAddrTotal) as [->|Ht]].
  - assert (u_inUse u = None) as Hnone.
    { destruct (u_inUse u); [|done]. destruct Hin; [done|left]. }
    rewrite Hnone. cbv zeta. rewrite IH; [|done|intros _; done|by apply Hw2].
    cbn [u_inUse u_available]. simpl. rewrite (family_None metricNameAddrInUse) by done. simpl.
    by destruct (search_metrics poolName metrics).
  - assert (u_available u = None) as Hnone.
    { destruct (u_available u); [|done]. destruct Hav; [done|left]. }
    rewrite Hnone. destruct (String.eqb_spec metricNameAddrTotal metricNameAddrInUse); [done|].
    cbv zeta. simpl. rewrite (IH (mkUsage _ _)); [|done|by apply Hw1|intros _; done].
    cbn [u_inUse u_available]. rewrite (family_None metricNameAddrTotal) by done. simpl.
    destruct (u_inUse u); by destruct (search_metrics poolName metrics).
  - cbv zeta. rewrite IH by eauto. by destruct u as [[|] [|]].
Qed.

(** The usage read from MetalLB does not depend on the order Go visits the
    metric families in: it is the value of the first gauge of the pool in the
    in-use family and in the total family, and 0 for one that has none, even though
    the loop stops once both are found. *)
Theorem usage_order_irrelevant `{GoRange} (poolName : string) (mf : gmap string (list metric)) :
  GetIPAddressUsage poolName mf =
    (default 0%Z ((mf !! metricNameAddrInUse) ≫= search_metrics poolName),
     default 0%Z ((mf !! metricNameAddrTotal) ≫= search_metrics poolName)).
Proof.
  unfold GetIPAddressUsage. destruct (range_map_keys mf) as [Hnd _].
  rewrite usage_loop_spec by done. cbn [u_inUse u_available].
  assert (forall name, family name (range_map mf) = mf !! name) as Hf.
  { intros name. destruct (mf !! name) as [ms|] eqn:Hn.
    - apply family_elem; [done|]. by apply elem_of_range_map.
    - apply family_None. intros Hin. apply list_elem_of_fmap in Hin as ([n ms] & -> & Hin).
      apply elem_of_range_map in Hin. simpl in Hn. congruence. }
  by rewrite !Hf.
Qed.
