(* ===== verification/IPOp.v ===== *)
(** * The IP operator

    Model of [operator/ip/operator.go] and [operator/ip/types.go]: the operator that
    turns the declarations of leased IPs into load-balancer services, the table it
    keeps of them, the usage it reports, the barrier that keeps requests out while it
    is not observing, and its lease-status endpoint. *)

From Stdlib Require Import ZArith Lia Ascii.
From stdpp Require Import base gmap list strings relations tactics.
From S2P Require Import Prelude Types Names Kube IgnoreList HostnameOp Ingress Declarations MetalLB.

(** ** Data *)

Section Data.
Context `{ServiceProtocolAPI}.

Record ipResourceEvent := mkIPEvent {
  ie_type : string; ie_lid : LeaseID; ie_service : string; ie_port : Z; ie_external_port : Z;
  ie_sharing_key : string; ie_protocol : ServiceProtocol
}.

Record managedIP := mkManagedIP {
  m_lease : LeaseID; m_service : string; m_event : option ipResourceEvent; m_sharing_key : string;
  m_external_port : Z; m_port : Z; m_changed_at : Z; m_protocol : ServiceProtocol
}.

(** [flag_*] is whether the prepared report is out of date. *)
Record ipOperator := mkIPOp {
  ip_state : gmap string managedIP;
  ip_ignored : gmap LeaseID ignoreListEntry;
  ip_available : Z;
  ip_inUse : Z;
  ip_flag_state : bool;
  ip_flag_ignored : bool;
  ip_flag_usage : bool
}.

Definition set_state (f : gmap string managedIP -> gmap string managedIP) (op : ipOperator) : ipOperator :=
  mkIPOp (f (ip_state op)) (ip_ignored op) (ip_available op) (ip_inUse op) (ip_flag_state op)
    (ip_flag_ignored op) (ip_flag_usage op).

Definition flagState (op : ipOperator) : ipOperator :=
  mkIPOp (ip_state op) (ip_ignored op) (ip_available op) (ip_inUse op) true
    (ip_flag_ignored op) (ip_flag_usage op).

Definition buildIPDirective (ev : ipResourceEvent) : ClusterIPPassthroughDirective :=
  mkIPDirective (ie_lid ev) (ie_service ev) (ie_port ev) (ie_external_port ev) (ie_sharing_key ev)
    (ie_protocol ev).

Definition entry_directive (e : managedIP) : ClusterIPPassthroughDirective :=
  mkIPDirective (m_lease e) (m_service e) (m_port e) (m_external_port e) (m_sharing_key e) (m_protocol e).

End Data.

Definition getStateKey (lid : LeaseID) (sharingKey : string) (externalPort : Z) : string :=
  l_owner lid +:+ "-" +:+ sharingKey +:+ "-" +:+ FormatUint externalPort.

Inductive ip_error :=
| IPMetalLB (e : metallb_error)
| IPStopped (what : string)
| IPCanceled.

(** ** The operator *)

Section Operator.
Context `{ServiceProtocolAPI} {W : Type} `{!Passthroughs W} (cfg : IgnoreListConfig).

Definition metallb_text (e : metallb_error) : string :=
  match e with
  | MKube e => ke_text e
  | errInternal => "kube: internal error unknown protocol"
  | errMetalLB what => "metal lb error: " +:+ what
  | errInvalidLeaseService what => "metal lb error lease service error: " +:+ what
  | MLabels _ => "kube: invalid lease labels"
  end.

(** [kubeErrors.IsNotFound] of the operator's errors. *)
Definition ip_not_found (e : ip_error) : bool :=
  match e with IPMetalLB (MKube e) => IsNotFound e | _ => false end.

Definition ip_recordEventError (ev : ipResourceEvent) (failure : option ip_error) (now : Z)
    (op : ipOperator) : ipOperator :=
  match failure with
  | Some (IPMetalLB e) =>
      if ip_not_found (IPMetalLB e) then
        mkIPOp (ip_state op)
          (AddError (ie_lid ev) (metallb_text e) [ie_sharing_key ev] now (ip_ignored op))
          (ip_available op) (ip_inUse op) (ip_flag_state op) true (ip_flag_usage op)
      else op
  | _ => op
  end.

Definition event_key (ev : ipResourceEvent) : string :=
  getStateKey (ie_lid ev) (ie_sharing_key ev) (ie_external_port ev).

Definition ip_applyDeleteEvent (w : W) (ev : ipResourceEvent) (op : ipOperator)
    : W * ipOperator * option ip_error :=
  let r := pt_purge w (buildIPDirective ev) in
  match r.2 with
  | None => (r.1, flagState (set_state (delete (event_key ev)) op), None)
  | Some e => (r.1, op, Some (IPMetalLB e))
  end.

Definition has_changed (e : managedIP) (ev : ipResourceEvent) : bool :=
  negb (String.eqb (m_service e) (ie_service ev)) || negb (m_port e =? ie_port ev)%Z ||
  negb (String.eqb (m_sharing_key e) (ie_sharing_key ev)) ||
  negb (m_external_port e =? ie_external_port ev)%Z ||
  negb (bool_decide (m_protocol e = ie_protocol ev)).

Definition ip_store_entry (ev : ipResourceEvent) (now : Z) (op : ipOperator) : ipOperator :=
  flagState (set_state (insert (event_key ev)
    (mkManagedIP (ie_lid ev) (ie_service ev) (Some ev) (ie_sharing_key ev) (ie_external_port ev)
       (ie_port ev) now (ie_protocol ev))) op).

Definition ip_applyAddOrUpdateEvent (w : W) (ev : ipResourceEvent) (now : Z) (op : ipOperator)
    : W * ipOperator * option ip_error :=
  let directive := buildIPDirective ev in
  let '(w, op, err) :=
    match ip_state op !! event_key ev with
    | None => let c := pt_create w directive in (c.1, op, c.2)
    | Some entry =>
        if decide (m_lease entry = ie_lid ev) then
          if has_changed entry ev then let c := pt_create w directive in (c.1, op, c.2)
          else (w, op, None)
        else
          let r := pt_purge w (entry_directive entry) in
          match r.2 with
          | Some e => (r.1, op, Some e)
          | None => let c := pt_create r.1 directive in
                    (c.1, set_state (delete (event_key ev)) op, c.2)
          end
    end in
  match err with
  | Some e => (w, op, Some (IPMetalLB e))
  | None => (w, ip_store_entry ev now op, None)
  end.

Definition ip_applyEvent (w : W) (ev : ipResourceEvent) (now : Z) (op : ipOperator)
    : W * ipOperator * option ip_error :=
  if String.eqb (ie_type ev) ProviderResourceDelete then ip_applyDeleteEvent w ev op
  else if String.eqb (ie_type ev) ProviderResourceAdd || String.eqb (ie_type ev) ProviderResourceUpdate then
    if IsFlagged cfg (ie_lid ev) (ip_ignored op) then (w, op, None)
    else let '(w, op, err) := ip_applyAddOrUpdateEvent w ev now op in
         (w, ip_recordEventError ev err now op, err)
  else (w, op, Some (IPStopped "unknown event type")).

(** *** The loop *)

Definition updateCounts (w : W) (op : ipOperator) : ipOperator * option ip_error :=
  match pt_usage w with
  | Err e => (op, Some (IPMetalLB e))
  | Ok (inUse, available) =>
      (mkIPOp (ip_state op) (ip_ignored op) available inUse (ip_flag_state op) (ip_flag_ignored op) true, None)
  end.

(** The protocol of an entry found at the start is not set. *)
Definition passthrough_entry (now : Z) (p : ipPassthrough) : managedIP :=
  mkManagedIP (p_lID p) (p_serviceName p) None (p_sharingKey p) (p_externalPort p) (p_port p) now noProtocol.

Definition load_passthroughs (now : Z) (ps : list ipPassthrough) (op : ipOperator) : ipOperator :=
  flagState (set_state (fun _ =>
    foldl (fun m p => <[getStateKey (p_lID p) (p_sharingKey p) (p_externalPort p) := passthrough_entry now p]> m)
      ∅ ps) op).

Definition ip_start (w : W) (now : Z) (op : ipOperator) : ipOperator * option ip_error :=
  let op := set_state (fun _ => ∅) op in
  match pt_list w with
  | Err e => (op, Some (IPMetalLB e))
  | Ok ps => updateCounts w (load_passthroughs now ps op)
  end.

Context `{GoRange}.

Inductive ip_event :=
| IPDone
| IPEvents (ev : option ipResourceEvent) (now : Z)
| IPPruneTick (now : Z)
| IPPrepareTick
| IPUpdateTick
| IPPool (ok : bool).

(** The reports are made current. *)
Definition ip_prepare (op : ipOperator) : ipOperator :=
  mkIPOp (ip_state op) (ip_ignored op) (ip_available op) (ip_inUse op) false false false.

(** An iteration that updates the counts prepares the reports when that succeeds.
    [inl] leaves the loop, with the error it leaves with; a closed pool channel leaves
    without one. *)
Definition ip_update (w : W) (op : ipOperator) : ipOperator * option (option ip_error) :=
  match updateCounts w op with
  | (op, Some e) => (op, Some (Some e))
  | (op, None) => (ip_prepare op, None)
  end.

Definition ip_monitor_step (w : W) (op : ipOperator) (e : ip_event)
    : W * ipOperator * option (option ip_error) :=
  match e with
  | IPDone => (w, op, Some (Some IPCanceled))
  | IPEvents None _ => (w, op, Some (Some (IPStopped "")))
  | IPEvents (Some ev) now =>
      let '(w, op, err) := ip_applyEvent w ev now op in
      match err with
      | Some e => (w, op, Some (Some e))
      | None => let '(op, exit) := ip_update w op in (w, op, exit)
      end
  | IPPruneTick now =>
      (w, ip_prepare (mkIPOp (ip_state op) (Prune cfg now (ip_ignored op)).1 (ip_available op) (ip_inUse op)
            (ip_flag_state op) true (ip_flag_usage op)), None)
  | IPPrepareTick => (w, ip_prepare op, None)
  | IPUpdateTick => let '(op, exit) := ip_update w op in (w, op, exit)
  | IPPool false => (w, op, Some None)
  | IPPool true => let '(op, exit) := ip_update w op in (w, op, exit)
  end.

(** The histories of the loop that have not left it. *)
Inductive ip_observing : W -> ipOperator -> list ip_event -> W -> ipOperator -> Prop :=
| ip_observing_nil w op : ip_observing w op [] w op
| ip_observing_cons w op e w1 op1 es w2 op2 :
    ip_monitor_step w op e = (w1, op1, None) -> ip_observing w1 op1 es w2 op2 ->
    ip_observing w op (e :: es) w2 op2.

End Operator.

(** ** The source of the events *)

Section Observe.
Context `{ServiceProtocolAPI} `{Bech32}.

(** The event of a declaration; [None] when its lease or protocol is not valid. *)
Definition ip_event_of (type : string) (s : ProviderLeasedIPSpec) : option ipResourceEvent :=
  _ ← bech32_canonical (CRDLease.Owner (pi_lease s));
  _ ← bech32_canonical (CRDLease.Provider (pi_lease s));
  lid ← CRDLease.FromCRD (pi_lease s);
  proto ← ParseServiceProtocol (pi_protocol s);
  Some (mkIPEvent type lid (pi_service s) (pi_port s) (pi_external_port s) (pi_sharing_key s) proto).

(** The declarations found at the start: one that is not valid fails the observation. *)
Definition ip_initial_events (data : list ProviderLeasedIPSpec) : option (list ipResourceEvent) :=
  mapM (ip_event_of ProviderResourceAdd) data.

Inductive ip_watch_outcome := IPWatchPanic | IPWatchSkip | IPWatchEmit (ev : ipResourceEvent).

(** [None] is an object that is no [ProviderLeasedIP], such as the status of an
    error: the type assertion on it panics. An error that did carry one would be sent
    on with an empty type. *)
Definition ip_watch_result (type : watch_type) (object : option ProviderLeasedIPSpec) : ip_watch_outcome :=
  match object with
  | None => IPWatchPanic
  | Some s =>
      match ip_event_of "" s with
      | None => IPWatchSkip
      | Some ev =>
          let typed t := IPWatchEmit (mkIPEvent t (ie_lid ev) (ie_service ev) (ie_port ev)
            (ie_external_port ev) (ie_sharing_key ev) (ie_protocol ev)) in
          match type with
          | Added => typed ProviderResourceAdd
          | Modified => typed ProviderResourceUpdate
          | Deleted => typed ProviderResourceDelete
          | WatchError => IPWatchEmit ev
          | Bookmark => IPWatchSkip
          end
      end
  end.

(** A declaration of a leased IP reaches the operator unchanged: whatever
    [DeclareIP] stores is observed, at the start and on a change, as the event with
    the same lease, service, ports, sharing key and protocol. *)
Theorem declared_ip_observed `{!ServiceProtocolLaws} (lid : LeaseID) (svc key : string) (port external : Z)
    (proto : ServiceProtocol) :
  lease_ok lid -> CRDLease.addresses_ok lid -> proto_ok proto ->
  let spec := pip_spec (declared_ip lid svc port external proto key) in
  ip_initial_events [spec] = Some [mkIPEvent ProviderResourceAdd lid svc port external key proto] /\
  ip_watch_result Added (Some spec) = IPWatchEmit (mkIPEvent ProviderResourceAdd lid svc port external key proto) /\
  ip_watch_result Modified (Some spec) =
    IPWatchEmit (mkIPEvent ProviderResourceUpdate lid svc port external key proto) /\
  ip_watch_result Deleted (Some spec) =
    IPWatchEmit (mkIPEvent ProviderResourceDelete lid svc port external key proto).
Proof.
  intros Hl Ha Hp spec.
  assert (forall type, ip_event_of type spec = Some (mkIPEvent type lid svc port external key proto)) as He.
  { intros type. unfold ip_event_of, spec. simpl. pose proof (CRDLease.FromCRD_LeaseIDFromAkash lid Hl Ha) as Hf.
    destruct Ha as [Ho Hpr]. simpl in Ho, Hpr. rewrite Ho, Hpr. simpl. rewrite Hf. simpl.
    by rewrite (proto_parse_print proto Hp). }
  unfold ip_initial_events, ip_watch_result. simpl. by rewrite !He.
Qed.

End Observe.

(** ** The lease-status endpoint *)

Section Status.
Context `{ServiceProtocolAPI} `{Bech32} {W : Type}.
Context (pt_status : W -> LeaseID -> result metallb_error (list ipLeaseState)).

Record LeaseIPStatus := mkIPStatus {
  ls_port : Z; ls_external_port : Z; ls_service : string; ls_ip : string; ls_protocol : string
}.

Inductive http_status := StatusNotFound | StatusInternalServerError | StatusNoContent
| StatusOK (body : list LeaseIPStatus).

(** The path variables of a request. *)
Definition handleIPLeaseStatusGet (providerAddress : string) (w : W) (owner dseq gseq oseq : string) : http_status :=
  match ParseUint 64 dseq, ParseUint 32 gseq, ParseUint 32 oseq, bech32_canonical owner with
  | Some dseq, Some gseq, Some oseq, Some _ =>
      match pt_status w (mkLeaseID owner dseq (wrap32 gseq) (wrap32 oseq) providerAddress) with
      | Err _ => StatusInternalServerError
      | Ok [] => StatusNoContent
      | Ok ss => StatusOK (map (fun s => mkIPStatus (s_port s) (s_externalPort s) (s_serviceName s) (s_ip s)
                                          (proto_ToString (s_protocol s))) ss)
      end
  | _, _, _, _ => StatusNotFound
  end.

(** Asking for the status of a lease with its own identifiers looks up exactly
    that lease: the endpoint answers an internal error if the lookup fails, no
    content if the lease has no IP, and otherwise the list of its IPs, and never
    claims the lease does not exist. *)
Theorem status_of_lease (w : W) (lid : LeaseID) :
  lease_ok lid -> bech32_canonical (l_owner lid) = Some (l_owner lid) ->
  handleIPLeaseStatusGet (l_provider lid) w (l_owner lid) (FormatUint (l_dseq lid)) (FormatUint (l_gseq lid))
      (FormatUint (l_oseq lid)) =
    match pt_status w lid with
    | Err _ => StatusInternalServerError
    | Ok [] => StatusNoContent
    | Ok ss => StatusOK (map (fun s => mkIPStatus (s_port s) (s_externalPort s) (s_serviceName s) (s_ip s)
                                        (proto_ToString (s_protocol s))) ss)
    end.
Proof.
  intros (Hd & Hg & Ho) Howner. unfold handleIPLeaseStatusGet.
  rewrite (ParseUint_FormatUint 64 _ Hd), (ParseUint_FormatUint 32 _ Hg), (ParseUint_FormatUint 32 _ Ho), Howner.
  unfold wrap32. rewrite !wrap_id by done. by destruct lid.
Qed.

End Status.

(** ** The barrier *)

(** Where a request is: before [enter], between its read of [enabled] and its
    increment of [active], being served, or done. *)
Inductive phase := PWaiting | PLoaded | PInside | PGone.

#[export] Instance phase_eq_dec : EqDecision phase.
Proof. solve_decision. Defined.

(** [b_clear] is whether [waitUntilClear] has found no active request since the
    barrier was last enabled or disabled. *)
Record barrier := mkBarrier { b_enabled : bool; b_active : Z; b_requests : list phase; b_clear : bool }.

Inductive barrier_step : barrier -> barrier -> Prop :=
| b_enable b : barrier_step b (mkBarrier true (b_active b) (b_requests b) false)
| b_disable b : barrier_step b (mkBarrier false (b_active b) (b_requests b) false)
| b_arrive b : barrier_step b (mkBarrier (b_enabled b) (b_active b) (b_requests b ++ [PWaiting]) (b_clear b))
| b_enter_load b i :
    b_requests b !! i = Some PWaiting ->
    barrier_step b (mkBarrier (b_enabled b) (b_active b)
      (<[i := if b_enabled b then PLoaded else PGone]> (b_requests b)) (b_clear b))
| b_enter_add b i :
    b_requests b !! i = Some PLoaded ->
    barrier_step b (mkBarrier (b_enabled b) (b_active b + 1) (<[i := PInside]> (b_requests b)) (b_clear b))
| b_exit b i :
    b_requests b !! i = Some PInside ->
    barrier_step b (mkBarrier (b_enabled b) (b_active b - 1) (<[i := PGone]> (b_requests b)) (b_clear b))
| b_wait b :
    b_active b = 0%Z -> barrier_step b (mkBarrier (b_enabled b) (b_active b) (b_requests b) true).

Definition new_barrier : barrier := mkBarrier false 0 [] false.

Definition inside (p : phase) : Z := if decide (p = PInside) then 1 else 0.

(** [active] counts the requests being served. *)
Definition barrier_inv (b : barrier) : Prop := b_active b = sumZ inside (b_requests b).

Lemma barrier_inv_step b b' : barrier_inv b -> barrier_step b b' -> barrier_inv b'.
Proof.
  unfold barrier_inv. intros Hb Hs. destruct Hs as [b|b|b|b i Hi|b i Hi|b i Hi|b _]; simpl; try done.
  - rewrite sumZ_app. simpl. unfold inside at 2. simpl. lia.
  - rewrite (sumZ_insert inside _ _ _ _ Hi). destruct (b_enabled b); unfold inside; simpl;
      fold inside; lia.
  - rewrite (sumZ_insert inside _ _ _ _ Hi). unfold inside at 2 3. simpl. lia.
  - rewrite (sumZ_insert inside _ _ _ _ Hi). unfold inside at 2 3. simpl. lia.
Qed.

(** When [waitUntilClear] finds the barrier clear no request is being served:
    [active] is the number of requests inside, under every interleaving of requests,
    [enable] and [disable]. *)
Theorem barrier_counts_requests (b : barrier) :
  rtc barrier_step new_barrier b ->
  b_active b = sumZ inside (b_requests b) /\
  (b_active b = 0%Z -> PInside ∉ b_requests b).
Proof.
  intros Hr. assert (barrier_inv b) as Hb
    by exact (rtc_preserves barrier_step barrier_inv barrier_inv_step new_barrier b eq_refl Hr).
  split; [done|]. intros H0 Hin. unfold barrier_inv in Hb. rewrite H0 in Hb. clear Hr H0.
  induction (b_requests b) as [|p l IH]; [by apply not_elem_of_nil in Hin|]. simpl in Hb.
  assert (0 <= sumZ inside l)%Z by (apply sumZ_nonneg; intros x _; unfold inside; case_decide; lia).
  apply elem_of_cons in Hin as [<-|Hin].
  - unfold inside at 1 in Hb. rewrite decide_True in Hb by done. lia.
  - apply IH; [|done]. assert (0 <= inside p)%Z by (unfold inside; case_decide; lia). lia.
Qed.

(** But a clear barrier does not stay clear: a request that read [enabled] before
    [disable] and increments [active] after [waitUntilClear] has looked is served
    after the barrier was disabled and found clear. *)
Theorem barrier_clear_not_final :
  exists b, rtc barrier_step new_barrier b /\
    b_enabled b = false /\ b_clear b = true /\ PInside ∈ b_requests b.
Proof.
  exists (mkBarrier false 1 [PInside] true). split; [|split_and!; [done..|left]].
  eapply rtc_l; [apply b_enable|]. eapply rtc_l; [apply b_arrive|].
  eapply rtc_l; [by apply (b_enter_load _ 0)|]. eapply rtc_l; [apply b_disable|].
  eapply rtc_l; [by apply b_wait|]. eapply rtc_l; [by apply (b_enter_add _ 0)|]. apply rtc_refl.
Qed.

(** ** What the operator keeps *)

Definition owner_ok (lid : LeaseID) : Prop := contains_char "-"%char (l_owner lid) = false.

(** The state key is the owner, the sharing key and the external port. *)
Lemma getStateKey_inj lid lid' key key' port port' :
  owner_ok lid -> owner_ok lid' -> (0 <= port)%Z -> (0 <= port')%Z ->
  getStateKey lid key port = getStateKey lid' key' port' ->
  l_owner lid = l_owner lid' /\ key = key' /\ port = port'.
Proof.
  unfold getStateKey. intros Ho Ho' Hp Hp' E.
  destruct (sep_inj_l _ _ _ _ _ Ho Ho' E) as [Howner E']. split; [done|].
  destruct (sep_inj_r "-"%char key key' (FormatUint port) (FormatUint port')) as [Hk Hport];
    [by apply FormatUint_no_char..|exact E'|].
  split; [done|]. by apply FormatUint_inj.
Qed.

(** The protocol is the last part of a service's name. *)
Lemma resource_name_proto `{ServiceProtocolLaws} d d' :
  proto_ok (i_Protocol d) -> i_Protocol d' = noProtocol ->
  createIPPassthroughResourceName d <> createIPPassthroughResourceName d'.
Proof.
  intros Hp Hn E. unfold createIPPassthroughResourceName in E. rewrite Hn, proto_zero_text in E.
  rewrite !to_lower_app in E. destruct proto_lower as [Ht Hu].
  rewrite <- !(string_app_assoc (to_lower (FormatUint _))), <- !(string_app_assoc (to_lower "-ip-")),
    <- !(string_app_assoc (to_lower (i_ServiceName _))) in E.
  rewrite !(string_app_assoc _ (to_lower "-")) in E.
  destruct Hp as [Hp|Hp]; rewrite Hp in E; rewrite ?Ht, ?Hu in E.
  - by apply (sep_inj_r "-"%char _ _ "tcp" "") in E as [_ ?].
  - by apply (sep_inj_r "-"%char _ _ "udp" "") in E as [_ ?].
Qed.

Section Isolation.
Context `{HP : ServiceProtocolAPI} `{HPL : !ServiceProtocolLaws} `{HH : LeaseHash} `{HHL : !LeaseHashLaws}.
Context {W : Type} `{HT : !Passthroughs W} `{HTL : !PassthroughLaws W} (cfg : IgnoreListConfig).

(** The leases of a provider: addresses have no hyphen, and no two leases share a
    namespace. *)
Definition leases_ok (L : list LeaseID) : Prop :=
  (forall a, a ∈ L -> owner_ok a) /\ (forall a b, a ∈ L -> b ∈ L -> no_collision a b).

Definition event_ok (L : list LeaseID) (ev : ipResourceEvent) : Prop :=
  ie_lid ev ∈ L /\ directive_ok (buildIPDirective ev).

Definition entry_ok (L : list LeaseID) (k : string) (e : managedIP) : Prop :=
  m_lease e ∈ L /\ (0 <= m_external_port e)%Z /\
  k = getStateKey (m_lease e) (m_sharing_key e) (m_external_port e).

(** The table is keyed by its own entries. *)
Definition table_ok (L : list LeaseID) (op : ipOperator) : Prop := map_Forall (entry_ok L) (ip_state op).

Lemma entry_of_event_owner L ev e :
  leases_ok L -> event_ok L ev -> entry_ok L (event_key ev) e -> l_owner (m_lease e) = l_owner (ie_lid ev).
Proof.
  intros HL [Hev Hd] (He & Hport & Hk). symmetry.
  destruct (getStateKey_inj _ _ _ _ _ _ (proj1 HL _ Hev) (proj1 HL _ He)
    (proj1 (proj1 (proj2 (proj2 Hd)))) Hport Hk) as [Ho _]. done.
Qed.

Lemma namespace_other L a b d n :
  leases_ok L -> a ∈ L -> b ∈ L -> l_owner a <> l_owner b -> i_LeaseID d = a -> service_key d <> (LidNS b, n).
Proof.
  intros HL Ha Hb Hab <- E. injection E as E _. apply Hab. f_equal. apply LidNS_inj; [|done].
  by apply HL.
Qed.

Lemma create_elsewhere w d k :
  directive_ok d -> service_key d <> k -> exposed (pt_create w d).1 !! k = exposed w !! k.
Proof.
  intros Hok Hk. apply (took_effect_frame _ _ _ _ _ (pt_create_effect w d Hok)).
  by apply lookup_insert_ne.
Qed.

Lemma purge_elsewhere w d k : service_key d <> k -> exposed (pt_purge w d).1 !! k = exposed w !! k.
Proof.
  intros Hk. apply (took_effect_frame _ _ _ _ _ (pt_purge_effect w d)). by apply lookup_delete_ne.
Qed.

Lemma ip_recordEventError_state ev r now op : ip_state (ip_recordEventError ev r now op) = ip_state op.
Proof. unfold ip_recordEventError. by repeat case_match. Qed.

Lemma applyAddOrUpdate_frame L w ev now op k :
  event_ok L ev -> service_key (buildIPDirective ev) <> k ->
  (forall e, ip_state op !! event_key ev = Some e -> m_lease e <> ie_lid ev ->
     service_key (entry_directive e) <> k) ->
  exposed (ip_applyAddOrUpdateEvent w ev now op).1.1 !! k = exposed w !! k.
Proof.
  intros [_ Hok] Hk He. unfold ip_applyAddOrUpdateEvent.
  destruct (ip_state op !! event_key ev) as [e|] eqn:Hs.
  - specialize (He e eq_refl). case_decide as Hl.
    + destruct (has_changed e ev); [|done]. simpl.
      by destruct (pt_create w _).2 eqn:E; rewrite <- (create_elsewhere w _ k Hok Hk).
    + specialize (He Hl). destruct (pt_purge w (entry_directive e)).2 as [x|] eqn:Hp; simpl.
      * by apply purge_elsewhere.
      * destruct (pt_create _ _).2 eqn:E; simpl; rewrite (create_elsewhere _ _ _ Hok Hk); by apply purge_elsewhere.
  - simpl. by destruct (pt_create w _).2 eqn:E; rewrite <- (create_elsewhere w _ k Hok Hk).
Qed.

Lemma applyEvent_frame L w ev now op k :
  event_ok L ev -> service_key (buildIPDirective ev) <> k ->
  (forall e, ip_state op !! event_key ev = Some e -> m_lease e <> ie_lid ev ->
     service_key (entry_directive e) <> k) ->
  exposed (ip_applyEvent cfg w ev now op).1.1 !! k = exposed w !! k.
Proof.
  intros Hev Hk He. unfold ip_applyEvent. destruct (String.eqb _ _).
  - unfold ip_applyDeleteEvent. by destruct (pt_purge w _).2 eqn:E; apply purge_elsewhere.
  - destruct (_ || _); [|done]. destruct (IsFlagged _ _ _); [done|].
    pose proof (applyAddOrUpdate_frame L w ev now op k Hev Hk He) as Hf.
    by destruct (ip_applyAddOrUpdateEvent w ev now op) as [[w' op'] err].
Qed.

Lemma applyEvent_table L w ev now op :
  event_ok L ev -> table_ok L op -> table_ok L (ip_applyEvent cfg w ev now op).1.2.
Proof.
  intros [Hev Hd] Ht. unfold ip_applyEvent, table_ok. destruct (String.eqb _ _).
  - unfold ip_applyDeleteEvent. destruct (pt_purge w _).2; [done|]. by apply map_Forall_delete.
  - destruct (_ || _); [|done]. destruct (IsFlagged _ _ _); [done|].
    assert (entry_ok L (event_key ev) (mkManagedIP (ie_lid ev) (ie_service ev) (Some ev) (ie_sharing_key ev)
      (ie_external_port ev) (ie_port ev) now (ie_protocol ev))) as Hnew by (split_and!; [done|apply Hd|done]).
    assert (map_Forall (entry_ok L) (delete (event_key ev) (ip_state op))) by by apply map_Forall_delete.
    destruct (ip_applyAddOrUpdateEvent w ev now op) as [[w' op'] err] eqn:E.
    cbn [fst snd]. rewrite ip_recordEventError_state. unfold ip_applyAddOrUpdateEvent in E.
    repeat (case_match; simplify_eq/=; try done); by apply map_Forall_insert_2.
Qed.

(** Every event of a history concerns a known lease. *)
Definition history_ok (L : list LeaseID) (es : list ip_event) : Prop :=
  forall ev now, IPEvents (Some ev) now ∈ es -> event_ok L ev.

Definition listing_ok (L : list LeaseID) (w : W) : Prop :=
  forall ps p, pt_list w = Ok ps -> p ∈ ps -> p_lID p ∈ L /\ (0 <= p_externalPort p)%Z.

Lemma ip_update_state w op op' x : ip_update w op = (op', x) -> ip_state op' = ip_state op.
Proof.
  unfold ip_update, updateCounts. destruct (pt_usage w) as [[u a]|e]; intros E; by injection E as <- _.
Qed.

(** A step that stays in the loop handles an event or keeps the cluster and the table. *)
Lemma ip_monitor_step_inv w op e w' op' :
  ip_monitor_step cfg w op e = (w', op', None) ->
  (w' = w /\ ip_state op' = ip_state op /\ forall ev now, e <> IPEvents (Some ev) now) \/
  (exists ev now op1, e = IPEvents (Some ev) now /\ ip_applyEvent cfg w ev now op = (w', op1, None) /\
     ip_state op' = ip_state op1).
Proof.
  destruct e as [|[ev|] now|now| | |[]]; simpl; intros E; try done.
  - right. destruct (ip_applyEvent cfg w ev now op) as [[w1 op1] [x|]] eqn:Ha; [done|].
    destruct (ip_update w1 op1) as [op2 exit] eqn:Hu. injection E as <- <- ->.
    exists ev, now, op1. split_and!; [done|done|by eapply ip_update_state].
  - left. by injection E as <- <-.
  - left. by injection E as <- <-.
  - left. destruct (ip_update w op) as [op2 exit] eqn:Hu. injection E as <- <- ->.
    by apply ip_update_state in Hu.
  - left. destruct (ip_update w op) as [op2 exit] eqn:Hu. injection E as <- <- ->.
    by apply ip_update_state in Hu.
Qed.

Lemma ip_start_entry w now op op' :
  ip_start w now op = (op', None) ->
  exists ps, pt_list w = Ok ps /\
  forall k e, ip_state op' !! k = Some e ->
    exists p, p ∈ ps /\ k = getStateKey (p_lID p) (p_sharingKey p) (p_externalPort p) /\
      e = passthrough_entry now p.
Proof.
  unfold ip_start. destruct (pt_list w) as [ps|x]; [|done]. intros E. exists ps. split; [done|].
  unfold updateCounts in E. destruct (pt_usage w) as [[u a]|x]; [|done]. injection E as <-. simpl.
  intros k e. apply (foldl_keeps _ (fun m : gmap string managedIP => m !! k = Some e -> _));
    [|by rewrite lookup_empty].
  intros m p Hp IH Hk. apply lookup_insert_Some in Hk as [[<- <-]|[_ Hk]]; [by exists p|by apply IH].
Qed.

Lemma ip_start_table L w now op op' :
  listing_ok L w -> ip_start w now op = (op', None) -> table_ok L op'.
Proof.
  intros Hl Hs. apply ip_start_entry in Hs as (ps & Hps & Hs). intros k e He.
  destruct (Hs k e He) as (p & Hp & -> & ->). by destruct (Hl ps p Hps Hp).
Qed.

Lemma ip_step_table L w op e w' op' :
  history_ok L [e] -> table_ok L op -> ip_monitor_step cfg w op e = (w', op', None) -> table_ok L op'.
Proof.
  intros Hh Ht Hs. apply ip_monitor_step_inv in Hs as [(-> & He & _)|(ev & now & op1 & -> & Ha & He)];
    unfold table_ok; rewrite He; [done|].
  pose proof (applyEvent_table L w ev now op) as Hat. rewrite Ha in Hat. apply Hat; [|done].
  apply (Hh ev now). left.
Qed.

(** C9: tenants are isolated by the IP operator: from its start and through any
    sequence of events of the leases of the provider, none of which concerns the
    owner of a lease, nothing that is exposed in the namespace of that lease is
    created, changed or removed, although one table is
    shared by all owners and an event may take over an entry of another lease. Stated for events
    after which the loop goes on; one that ends in an error ends the loop. *)
Theorem ip_tenant_isolation (L : list LeaseID) (w w' : W) (op0 op op' : ipOperator) (now : Z)
    (es : list ip_event) (victim : LeaseID) (name : string) :
  leases_ok L -> listing_ok L w -> victim ∈ L ->
  ip_start w now op0 = (op, None) -> ip_observing cfg w op es w' op' -> history_ok L es ->
  (forall ev t, IPEvents (Some ev) t ∈ es -> l_owner (ie_lid ev) <> l_owner victim) ->
  exposed w' !! (LidNS victim, name) = exposed w !! (LidNS victim, name).
Proof.
  intros HL Hl Hv Hstart Hobs. pose proof (ip_start_table L _ _ _ _ Hl Hstart) as Ht. clear Hl Hstart op0 now.
  induction Hobs as [|w op e w1 op1 es w2 op2 Hs Hobs IH]; [done|]. intros Hh Hother.
  assert (history_ok L [e]) as Hh1
    by (intros ev t Hin; apply (Hh ev t); apply list_elem_of_singleton in Hin as <-; left).
  rewrite IH; [|by eapply ip_step_table|intros ev t Hin; apply (Hh ev t); by right
    |intros ev t Hin; apply (Hother ev t); by right].
  apply ip_monitor_step_inv in Hs as [(-> & _)|(ev & t & op3 & -> & Ha & _)]; [done|].
  assert (event_ok L ev) as Hev by (apply (Hh ev t); left).
  assert (l_owner (ie_lid ev) <> l_owner victim) as Hne by (apply (Hother ev t); left).
  pose proof (applyEvent_frame L w ev t op (LidNS victim, name) Hev) as Hf. rewrite Ha in Hf. apply Hf.
  - apply (namespace_other L (ie_lid ev)); [done|apply Hev|done..].
  - intros e He _. apply (namespace_other L (m_lease e)); [done|by destruct (Ht _ _ He)|done| |done].
    by rewrite (entry_of_event_owner L ev e HL Hev (Ht _ _ He)).
Qed.

(** *** The table mirrors the cluster *)

(** A port of a service keeps the IP endpoint it is exposed on. *)
Definition endpoints_fixed (evs : list ipResourceEvent) : Prop :=
  forall a b, a ∈ evs -> b ∈ evs ->
    service_key (buildIPDirective a) = service_key (buildIPDirective b) -> event_key a = event_key b.

Definition entry_mirrored (evs : list ipResourceEvent) (w : W) (k : string) (e : managedIP) : Prop :=
  match m_event e with
  | None => m_protocol e = noProtocol
  | Some ev =>
      ev ∈ evs /\ k = event_key ev /\ entry_directive e = buildIPDirective ev /\
      exposed w !! service_key (buildIPDirective ev) = Some (buildIPDirective ev)
  end.

(** An entry is either left from the start, without a protocol, or exposed as its
    last event asked. *)
Definition ip_mirror (evs : list ipResourceEvent) (w : W) (op : ipOperator) : Prop :=
  map_Forall (entry_mirrored evs w) (ip_state op).

(** An entry survives what leaves its service alone. *)
Lemma entry_mirrored_frame evs w w' k e :
  (forall ev, m_event e = Some ev -> ev ∈ evs -> k = event_key ev ->
     exposed w' !! service_key (buildIPDirective ev) = exposed w !! service_key (buildIPDirective ev)) ->
  entry_mirrored evs w k e -> entry_mirrored evs w' k e.
Proof.
  unfold entry_mirrored. intros Hf. destruct (m_event e) as [ev|]; [|done].
  intros (Hin & Hk & Hd & Hx). by rewrite (Hf ev).
Qed.

Lemma mirrored_purge evs w ev e op :
  ip_mirror evs w op -> ev ∈ evs -> endpoints_fixed evs ->
  Forall (fun a => directive_ok (buildIPDirective a)) evs ->
  ip_state op !! event_key ev = Some e ->
  forall k e', k <> event_key ev -> ip_state op !! k = Some e' ->
    entry_mirrored evs (pt_purge w (entry_directive e)).1 k e'.
Proof.
  intros Hm Hev Hfix Hok He k e' Hk He'.
  apply (entry_mirrored_frame evs w); [|by apply Hm]. intros a Ha Hin ->.
  apply purge_elsewhere. intros E. pose proof (Hm _ _ He) as Hme. unfold entry_mirrored in Hme.
  destruct (m_event e) as [b|].
  - destruct Hme as (Hb & Hkb & Hd & _). rewrite Hd in E. apply Hk. rewrite Hkb. symmetry. by apply Hfix.
  - injection E as _ E. symmetry in E. revert E. apply resource_name_proto; [|exact Hme].
    rewrite list.Forall_forall in Hok. apply (Hok a Hin).
Qed.

Lemma mirrored_create evs w ev k e :
  ev ∈ evs -> endpoints_fixed evs -> directive_ok (buildIPDirective ev) ->
  k <> event_key ev -> entry_mirrored evs w k e ->
  entry_mirrored evs (pt_create w (buildIPDirective ev)).1 k e.
Proof.
  intros Hev Hfix Hok Hk. apply entry_mirrored_frame. intros a Ha Hin ->.
  apply create_elsewhere; [done|]. intros E. apply Hk. symmetry. by apply Hfix.
Qed.

Lemma created_exposed w d :
  directive_ok d -> (pt_create w d).2 = None -> exposed (pt_create w d).1 !! service_key d = Some d.
Proof.
  intros Hok Hn. pose proof (pt_create_effect w d Hok) as Heff. unfold took_effect in Heff.
  rewrite Hn in Heff. rewrite Heff. apply lookup_insert_eq.
Qed.

(** The entry of an event that has just been handled. *)
Lemma mirror_store evs w op ev now :
  ev ∈ evs ->
  exposed w !! service_key (buildIPDirective ev) = Some (buildIPDirective ev) ->
  (forall k e, k <> event_key ev -> ip_state op !! k = Some e -> entry_mirrored evs w k e) ->
  ip_mirror evs w (ip_store_entry ev now op).
Proof.
  intros Hev Hx Hrest k e Hk. simpl in Hk. apply lookup_insert_Some in Hk as [[<- <-]|[Hne Hk]]; [done|].
  by apply Hrest.
Qed.

Lemma unchanged_directive e ev :
  m_lease e = ie_lid ev -> has_changed e ev = false -> entry_directive e = buildIPDirective ev.
Proof.
  unfold has_changed, entry_directive, buildIPDirective. intros ->.
  rewrite !orb_false_iff, !negb_false_iff, !String.eqb_eq, !Z.eqb_eq, bool_decide_eq_true.
  by intros ((((-> & ->) & ->) & ->) & ->).
Qed.

Lemma addOrUpdate_mirror evs w ev now op w' op' :
  ip_mirror evs w op -> ev ∈ evs -> endpoints_fixed evs ->
  Forall (fun a => directive_ok (buildIPDirective a)) evs ->
  ip_applyAddOrUpdateEvent w ev now op = (w', op', None) ->
  ip_mirror evs w' op' /\ exposed w' !! service_key (buildIPDirective ev) = Some (buildIPDirective ev).
Proof.
  intros Hm Hev Hfix Hoks. assert (directive_ok (buildIPDirective ev)) as Hok
    by (rewrite list.Forall_forall in Hoks; by apply Hoks).
  unfold ip_applyAddOrUpdateEvent. destruct (ip_state op !! event_key ev) as [e|] eqn:He.
  - case_decide as Hl; [destruct (has_changed e ev) eqn:Hc|].
    + cbn [fst snd]. destruct (pt_create w _).2 eqn:Hn; [done|]. intros E; injection E as <- <-.
      pose proof (created_exposed w _ Hok Hn). split; [|done]. apply mirror_store; [done|done|].
      intros k e' Hk He'. apply mirrored_create; [done..|by apply Hm].
    + intros E; injection E as <- <-. pose proof (unchanged_directive e ev Hl Hc) as Hd.
      pose proof (Hm _ _ He) as Hme. unfold entry_mirrored in Hme. destruct (m_event e) as [a|].
      * destruct Hme as (_ & _ & Hda & Hx). rewrite <- Hda, Hd in Hx. split; [|done].
        apply mirror_store; [done..|]. intros k e' _ He'. by apply Hm.
      * exfalso. assert (noProtocol = ie_protocol ev) as Hp by (rewrite <- Hme; by injection Hd).
        destruct Hok as (_ & _ & _ & Hpo & _). simpl in Hpo. rewrite <- Hp in Hpo.
        destruct proto_distinct as (_ & ? & ?), Hpo; congruence.
    + pose proof (mirrored_purge evs w ev e op Hm Hev Hfix Hoks He) as Hp.
      destruct (pt_purge w (entry_directive e)) as [w1 [x|]]; [done|]. cbn [fst snd] in *.
      destruct (pt_create w1 _).2 eqn:Hn; [done|]. intros E; injection E as <- <-.
      pose proof (created_exposed w1 _ Hok Hn). split; [|done]. apply mirror_store; [done|done|].
      intros k e' Hk He'. apply mirrored_create; [done..|]. simpl in He'.
      rewrite lookup_delete_ne in He' by done. by apply Hp.
  - cbn [fst snd]. destruct (pt_create w _).2 eqn:Hn; [done|]. intros E; injection E as <- <-.
    pose proof (created_exposed w _ Hok Hn). split; [|done]. apply mirror_store; [done|done|].
    intros k e' Hk He'. apply mirrored_create; [done..|by apply Hm].
Qed.

Lemma ip_applyEvent_mirror evs w ev now op w' op' :
  ip_mirror evs w op -> ev ∈ evs -> endpoints_fixed evs ->
  Forall (fun a => directive_ok (buildIPDirective a)) evs ->
  ip_applyEvent cfg w ev now op = (w', op', None) ->
  ip_mirror evs w' op' /\
  (ie_type ev <> ProviderResourceDelete -> IsFlagged cfg (ie_lid ev) (ip_ignored op) = false ->
   exposed w' !! service_key (buildIPDirective ev) = Some (buildIPDirective ev)).
Proof.
  intros Hm Hev Hfix Hoks. unfold ip_applyEvent. destruct (String.eqb_spec (ie_type ev) ProviderResourceDelete) as [Ht|Ht].
  - unfold ip_applyDeleteEvent. destruct (pt_purge w _).2 eqn:Hp; [done|]. intros E; injection E as <- <-.
    split; [|done]. intros k e Hk. simpl in Hk. apply lookup_delete_Some in Hk as [Hne Hk].
    apply (entry_mirrored_frame evs w); [|by apply Hm]. intros a Ha Hin ->. apply purge_elsewhere.
    intros E. apply Hne. by apply Hfix.
  - destruct (_ || _); [|done]. destruct (IsFlagged _ _ _); [intros E; by injection E as <- <-|].
    destruct (ip_applyAddOrUpdateEvent w ev now op) as [[w1 op1] r] eqn:Ha. intros E. injection E as <- <- ->.
    by destruct (addOrUpdate_mirror evs w ev now op w1 op1) as [Hm1 Hx1].
Qed.

Definition event_of (e : ip_event) : option ipResourceEvent :=
  match e with IPEvents ev _ => ev | _ => None end.

(** The events of a history, well formed and with fixed endpoints. *)
Definition history_fixed (evs : list ipResourceEvent) (es : list ip_event) : Prop :=
  omap event_of es ⊆ evs /\ endpoints_fixed evs /\ Forall (fun a => directive_ok (buildIPDirective a)) evs.

Lemma ip_start_mirror evs w now op op' : ip_start w now op = (op', None) -> ip_mirror evs w op'.
Proof.
  intros Hs. apply ip_start_entry in Hs as (ps & _ & Hs). intros k e He.
  by destruct (Hs k e He) as (p & _ & _ & ->).
Qed.

Lemma ip_observing_mirror evs w op es w' op' :
  ip_observing cfg w op es w' op' -> history_fixed evs es -> ip_mirror evs w op -> ip_mirror evs w' op'.
Proof.
  induction 1 as [|w op e w1 op1 es w2 op2 Hs Hobs IH]; [done|]. intros (Hsub & Hfix & Hoks) Hm.
  simpl in Hsub. apply IH.
  - split; [|done]. intros a Ha. apply Hsub. destruct (event_of e); [by right|done].
  - apply ip_monitor_step_inv in Hs as [(-> & He & _)|(ev & t & op3 & -> & Ha & He)]; unfold ip_mirror; rewrite He;
      [done|].
    refine (proj1 (ip_applyEvent_mirror evs w ev t op w1 op3 Hm _ Hfix Hoks Ha)). apply Hsub. left.
Qed.

(** The table mirrors the cluster: from the operator's start and through any
    sequence of events in which a port of a service keeps its IP endpoint, every
    entry whose event has been handled is exposed in the namespace of its lease, with
    the service, ports, sharing key and protocol of that event. *)
Theorem ip_table_mirrors (evs : list ipResourceEvent) (w w' : W) (op0 op op' : ipOperator) (now : Z)
    (es : list ip_event) (k : string) (e : managedIP) (ev : ipResourceEvent) :
  ip_start w now op0 = (op, None) -> ip_observing cfg w op es w' op' -> history_fixed evs es ->
  ip_state op' !! k = Some e -> m_event e = Some ev ->
  ev ∈ evs /\ entry_directive e = buildIPDirective ev /\
  exposed w' !! service_key (buildIPDirective ev) = Some (buildIPDirective ev).
Proof.
  intros Hs Hobs Hh He Hev.
  pose proof (ip_observing_mirror evs _ _ _ _ _ Hobs Hh (ip_start_mirror evs _ _ _ _ Hs) k e He) as Hm.
  unfold entry_mirrored in Hm. rewrite Hev in Hm. by destruct Hm as (? & _ & ? & ?).
Qed.

(** A declared IP is exposed: whenever, after any such history, the operator
    handles the addition or the update of a declaration of a lease it does not
    ignore and stays in its loop, the service is exposed as declared. In particular
    a declaration found again after a restart is applied again, since what is listed
    from the cluster never compares equal to it. *)
Theorem ip_event_exposed (evs : list ipResourceEvent) (w w1 w' : W) (op0 op op1 op' : ipOperator) (now t : Z)
    (es : list ip_event) (ev : ipResourceEvent) :
  ip_start w now op0 = (op, None) -> ip_observing cfg w op es w1 op1 ->
  history_fixed evs (es ++ [IPEvents (Some ev) t]) ->
  ie_type ev <> ProviderResourceDelete -> IsFlagged cfg (ie_lid ev) (ip_ignored op1) = false ->
  ip_monitor_step cfg w1 op1 (IPEvents (Some ev) t) = (w', op', None) ->
  exposed w' !! service_key (buildIPDirective ev) = Some (buildIPDirective ev).
Proof.
  intros Hs Hobs (Hsub & Hfix & Hoks) Ht Hflag Hstep. rewrite omap_app in Hsub.
  assert (ip_mirror evs w1 op1) as Hm.
  { eapply ip_observing_mirror; [done| |by eapply ip_start_mirror]. split; [|done].
    intros a Ha. apply Hsub. apply elem_of_app. by left. }
  apply ip_monitor_step_inv in Hstep as [(_ & _ & Hno)|(a & t' & op3 & E & Ha & _)]; [by destruct (Hno ev t)|].
  injection E as <- <-. apply (ip_applyEvent_mirror evs w1 ev t op1 w' op3); try done.
  apply Hsub, elem_of_app. right. left.
Qed.

(** *** What goes wrong *)

(** A restart forgets the protocol: when a leased IP found at the start is then
    declared by another lease of the same owner, the service of the old lease is not
    removed, because the name of the service to purge is made without the protocol,
    and both leases stay exposed. *)
Theorem handover_after_restart_leaks (w w' : W) (op0 op op' : ipOperator) (now t : Z)
    (d : ClusterIPPassthroughDirective) (ev : ipResourceEvent) (e : managedIP) :
  ip_start w now op0 = (op, None) ->
  exposed w !! service_key d = Some d -> directive_ok d ->
  ip_state op !! event_key ev = Some e -> m_lease e = i_LeaseID d ->
  i_LeaseID d <> ie_lid ev -> no_collision (i_LeaseID d) (ie_lid ev) ->
  directive_ok (buildIPDirective ev) ->
  ip_applyAddOrUpdateEvent w ev t op = (w', op', None) ->
  exposed w' !! service_key d = Some d /\
  exposed w' !! service_key (buildIPDirective ev) = Some (buildIPDirective ev) /\
  forall k e', ip_state op' !! k = Some e' -> k = event_key ev -> m_lease e' = ie_lid ev.
Proof.
  intros Hs Hd Hdok He Hle Hne Hcol Hok. apply ip_start_entry in Hs as (ps & _ & Hs).
  destruct (Hs _ _ He) as (p & _ & _ & Hep). unfold ip_applyAddOrUpdateEvent. rewrite He.
  rewrite decide_False by congruence.
  destruct (pt_purge w (entry_directive e)) as [w1 [x|]] eqn:Hp; [done|]. cbn [fst snd].
  destruct (pt_create w1 _).2 eqn:Hn; [done|]. intros E; injection E as <- <-. split_and!.
  - rewrite create_elsewhere; [|done|].
    + change w1 with (w1, @None metallb_error).1. rewrite <- Hp, purge_elsewhere; [done|].
      intros E. injection E as _ E. symmetry in E. revert E.
      apply resource_name_proto; [apply Hdok|by rewrite Hep].
    + intros E. injection E as E _. apply Hne. symmetry. apply LidNS_inj; [|done].
      intros Hh. symmetry. apply Hcol. done.
  - by apply created_exposed.
  - intros k e' Hk ->. simpl in Hk. rewrite lookup_insert_eq in Hk. by injection Hk as <-.
Qed.

(** Moving a port of a service to another IP endpoint takes it off the network:
    the new declaration reuses the service, which the deletion of the old
    declaration, handled after it, then removes; the table keeps the new entry, so a
    repeated event does not bring it back. *)
Theorem endpoint_move_unexposes (w1 w2 w3 w4 : W) (op1 op2 op3 op4 : ipOperator) (t t' t'' : Z)
    (ev del : ipResourceEvent) (r : option ip_error) :
  service_key (buildIPDirective del) = service_key (buildIPDirective ev) -> event_key del <> event_key ev ->
  ie_type del = ProviderResourceDelete -> directive_ok (buildIPDirective ev) ->
  ip_applyAddOrUpdateEvent w1 ev t op1 = (w2, op2, None) ->
  ip_applyEvent cfg w2 del t' op2 = (w3, op3, None) ->
  ip_applyAddOrUpdateEvent w3 ev t'' op3 = (w4, op4, r) ->
  r = None /\ is_Some (ip_state op3 !! event_key ev) /\
  exposed w3 !! service_key (buildIPDirective ev) = None /\
  exposed w4 !! service_key (buildIPDirective ev) = None.
Proof.
  intros Hsame Hkey Htype Hok Ha1 Ha2 Ha3.
  assert (ip_state op2 !! event_key ev = Some (mkManagedIP (ie_lid ev) (ie_service ev) (Some ev)
    (ie_sharing_key ev) (ie_external_port ev) (ie_port ev) t (ie_protocol ev))) as He.
  { unfold ip_applyAddOrUpdateEvent in Ha1. repeat (case_match; simplify_eq/=; try done); apply lookup_insert_eq. }
  unfold ip_applyEvent in Ha2. rewrite Htype, String.eqb_refl in Ha2.
  unfold ip_applyDeleteEvent in Ha2. pose proof (pt_purge_effect w2 (buildIPDirective del)) as Heff.
  unfold took_effect in Heff. destruct (pt_purge w2 _).2 eqn:Hp; [done|]. injection Ha2 as <- <-.
  rewrite Hsame in Heff.
  assert (exposed (pt_purge w2 (buildIPDirective del)).1 !! service_key (buildIPDirective ev) = None) as Hnone
    by (rewrite Heff; apply lookup_delete_eq).
  unfold ip_applyAddOrUpdateEvent in Ha3. simpl in Ha3. rewrite lookup_delete_ne in Ha3 by done. rewrite He in Ha3.
  rewrite decide_True in Ha3 by done. unfold has_changed in Ha3. simpl in Ha3.
  rewrite !String.eqb_refl, !Z.eqb_refl, bool_decide_true in Ha3 by done. simpl in Ha3. injection Ha3 as <- <- <-.
  split_and!; try done. simpl. rewrite lookup_delete_ne by done. by rewrite He.
Qed.

End Isolation.

(** ** Examples *)

Section Run.
Context `{ServiceProtocolAPI} {W : Type} `{!Passthroughs W} (cfg : IgnoreListConfig).

Fixpoint ip_run (w : W) (op : ipOperator) (es : list ip_event) : option (W * ipOperator) :=
  match es with
  | [] => Some (w, op)
  | e :: es => match ip_monitor_step cfg w op e with
               | (w, op, None) => ip_run w op es
               | _ => None
               end
  end.

Lemma ip_run_observing w op es w' op' : ip_run w op es = Some (w', op') -> ip_observing cfg w op es w' op'.
Proof.
  revert w op. induction es as [|e es IH]; intros w op E; simpl in E; [injection E as <- <-; constructor|].
  destruct (ip_monitor_step cfg w op e) as [[w1 op1] [x|]] eqn:Hs; [done|]. econstructor; [exact Hs|by apply IH].
Qed.

End Run.

Module IPExamples.

#[local] Existing Instance seq_hash.
#[local] Existing Instance seq_hash_laws.
#[local] Existing Instance named_protocols.
#[local] Existing Instance named_protocols_laws.
#[local] Instance ex_services : KubeCollection (store KService) KService unit := store_api.
#[local] Instance ex_services_laws : KubeLaws (store KService) KService unit := store_laws.
#[local] Instance ex_metallb : Passthroughs (store KService) :=
  metallb_passthroughs "default" (fun _ => Ok (1, 10)%Z).
#[local] Instance ex_metallb_laws : PassthroughLaws (store KService) :=
  metallb_passthrough_laws "default" (fun _ => Ok (1, 10)%Z).

Definition ip_cfg : IgnoreListConfig := mkIgnoreListConfig 3 100 3600.
Definition ip_op0 : ipOperator := mkIPOp ∅ ∅ 0 0 false false false.
Definition ip_lease (owner : string) (n : Z) : LeaseID := mkLeaseID owner n 1 1 "akash1p".

(** Two leases of one tenant and one of another. *)
Definition ip_leases : list LeaseID := [ip_lease "akash1a" 1; ip_lease "akash1a" 2; ip_lease "akash1b" 3].

Definition ip_declared (type : string) (lid : LeaseID) (key : string) (proto : ServiceProtocol) : ipResourceEvent :=
  mkIPEvent type lid "web" 8080 80 key proto.

(** The other tenant's service and one of the first tenant's are up at the start. *)
Definition ip_world : store KService :=
  foldl (fun w ev => (pt_create w (buildIPDirective ev)).1) (mkStore ∅ [])
    [ip_declared ProviderResourceAdd (ip_lease "akash1b" 3) "b-ip" TCP;
     ip_declared ProviderResourceAdd (ip_lease "akash1a" 1) "a-ip" TCP].

Definition ip_op : ipOperator := (ip_start ip_world 1 ip_op0).1.

Lemma ip_started : ip_start ip_world 1 ip_op0 = (ip_op, None).
Proof.
  rewrite (surjective_pairing (ip_start _ _ _)). assert ((ip_start ip_world 1 ip_op0).2 = None) as ->;
    [vm_compute|]; reflexivity.
Qed.

Definition ip_add : ipResourceEvent := ip_declared ProviderResourceAdd (ip_lease "akash1a" 2) "a-ip" TCP.
Definition ip_udp : ipResourceEvent := ip_declared ProviderResourceUpdate (ip_lease "akash1a" 1) "a-ip2" UDP.
Definition ip_history : list ip_event := [IPEvents (Some ip_add) 5; IPPruneTick 6; IPEvents (Some ip_udp) 7].

Lemma ip_leases_ok : leases_ok ip_leases.
Proof.
  split.
  - intros a Ha. repeat (apply elem_of_cons in Ha as [->|Ha]; [reflexivity|]). by apply not_elem_of_nil in Ha.
  - intros a b Ha Hb.
    repeat (apply elem_of_cons in Ha as [->|Ha]; [|]); [..|by apply not_elem_of_nil in Ha];
      (repeat (apply elem_of_cons in Hb as [->|Hb]; [|]); [..|by apply not_elem_of_nil in Hb]);
      intros E; vm_compute in E; first [reflexivity|discriminate].
Qed.

Lemma ip_listing_ok : listing_ok ip_leases ip_world.
Proof.
  intros ps p Hps Hp. vm_compute in Hps. injection Hps as <-.
  repeat (apply elem_of_cons in Hp as [->|Hp]; [split; [|simpl; lia]|]); [..|by apply not_elem_of_nil in Hp];
    unfold ip_leases; repeat first [left|right].
Qed.

Lemma ip_declared_ok type lid key proto :
  lid ∈ ip_leases -> proto_ok proto -> directive_ok (buildIPDirective (ip_declared type lid key proto)).
Proof.
  intros Hl Hp. split_and!; [|unfold is_uint; simpl; lia..|exact Hp|discriminate].
  repeat (apply elem_of_cons in Hl as [->|Hl]; [split_and!; unfold is_uint; simpl; lia|]).
  by apply not_elem_of_nil in Hl.
Qed.

Lemma ip_add_ok : event_ok ip_leases ip_add.
Proof. split; [right; left|apply ip_declared_ok; [right; left|by left]]. Qed.

Lemma ip_udp_ok : event_ok ip_leases ip_udp.
Proof. split; [left|apply ip_declared_ok; [left|by right]]. Qed.

Ltac history_cases H :=
  repeat (apply elem_of_cons in H as [H|H]; [try discriminate|]); [..|by apply not_elem_of_nil in H].

Lemma ip_history_ok : history_ok ip_leases ip_history.
Proof.
  intros ev t H. history_cases H; injection H as -> _; [apply ip_add_ok|apply ip_udp_ok].
Qed.

Definition answered {A} (o : option A) : bool := match o with Some _ => true | None => false end.

Lemma answered_Some {A} (o : option A) : answered o = true -> is_Some o.
Proof. destruct o; [by eexists|done]. Qed.

Lemma ip_runs : is_Some (ip_run ip_cfg ip_world ip_op ip_history).
Proof. apply answered_Some. vm_compute. reflexivity. Qed.

Lemma ip_tenant_isolation_witness :
  exists w' op', ip_observing ip_cfg ip_world ip_op ip_history w' op' /\
    exposed w' !! (LidNS (ip_lease "akash1b" 3), "web-ip-80-tcp"%string) =
    exposed ip_world !! (LidNS (ip_lease "akash1b" 3), "web-ip-80-tcp"%string).
Proof.
  destruct ip_runs as [[w' op'] Hr]. apply ip_run_observing in Hr. exists w', op'. split; [exact Hr|].
  refine (ip_tenant_isolation ip_cfg ip_leases ip_world w' ip_op0 ip_op op' 1 ip_history
    (ip_lease "akash1b" 3) "web-ip-80-tcp" ip_leases_ok ip_listing_ok _ ip_started Hr ip_history_ok _).
  - right. right. left.
  - intros ev t H. history_cases H; injection H as -> _; discriminate.
Defined.

Definition ip_events : list ipResourceEvent := [ip_add; ip_udp].

Lemma ip_events_fixed : history_fixed ip_events ip_history.
Proof.
  split; [by vm_compute|]. split.
  - intros a b Ha Hb. history_cases Ha; history_cases Hb; subst; intros E; try reflexivity;
      vm_compute in E; discriminate.
  - repeat (apply list.Forall_cons; split); [apply ip_add_ok|apply ip_udp_ok|by apply list.Forall_nil].
Qed.

Lemma ip_run_entry :
  (fun s => m_event <$> (ip_state s.2 !! event_key ip_add)) <$> ip_run ip_cfg ip_world ip_op ip_history =
  Some (Some (Some ip_add)).
Proof. vm_compute. reflexivity. Qed.

Lemma ip_table_mirrors_witness :
  exists w' op', ip_observing ip_cfg ip_world ip_op ip_history w' op' /\
    exposed w' !! service_key (buildIPDirective ip_add) = Some (buildIPDirective ip_add).
Proof.
  pose proof ip_run_entry as He.
  destruct (ip_run ip_cfg ip_world ip_op ip_history) as [[w' op']|] eqn:Hr; [|discriminate].
  apply ip_run_observing in Hr. exists w', op'. split; [exact Hr|]. simpl in He.
  destruct (ip_state op' !! event_key ip_add) as [e|] eqn:Hk; [|discriminate]. simpl in He. injection He as He.
  exact (proj2 (proj2 (ip_table_mirrors ip_cfg ip_events ip_world w' ip_op0 ip_op op' 1 ip_history
    (event_key ip_add) e ip_add ip_started Hr ip_events_fixed Hk He))).
Defined.

(** The declaration of the service found at the start comes again. *)
Definition ip_again : ipResourceEvent := ip_declared ProviderResourceAdd (ip_lease "akash1a" 1) "a-ip" TCP.

Lemma ip_again_fixed : history_fixed [ip_again] ([] ++ [IPEvents (Some ip_again) 5]).
Proof.
  split; [done|]. split.
  - intros a b Ha Hb. history_cases Ha; history_cases Hb; by subst.
  - apply list.Forall_cons. split; [apply ip_declared_ok; [left|by left]|by apply list.Forall_nil].
Qed.

Lemma ip_again_stays : (ip_monitor_step ip_cfg ip_world ip_op (IPEvents (Some ip_again) 5)).2 = None.
Proof. vm_compute. reflexivity. Qed.

Lemma ip_event_exposed_witness :
  exists w' op', ip_monitor_step ip_cfg ip_world ip_op (IPEvents (Some ip_again) 5) = (w', op', None) /\
    exposed w' !! service_key (buildIPDirective ip_again) = Some (buildIPDirective ip_again).
Proof.
  pose proof ip_again_stays as Hs.
  destruct (ip_monitor_step ip_cfg ip_world ip_op (IPEvents (Some ip_again) 5)) as [[w' op'] r] eqn:E.
  simpl in Hs. subst r. exists w', op'. split; [reflexivity|].
  exact (ip_event_exposed ip_cfg [ip_again] ip_world ip_world w' ip_op0 ip_op ip_op op' 1 5 [] ip_again
    ip_started (ip_observing_nil ip_cfg ip_world ip_op) ip_again_fixed ltac:(discriminate) eq_refl E).
Defined.

Lemma ip_handover_ok :
  (ip_applyAddOrUpdateEvent ip_world ip_add 5 ip_op).2 = None /\
  m_lease <$> (ip_state ip_op !! event_key ip_add) = Some (ip_lease "akash1a" 1) /\
  exposed ip_world !! service_key (buildIPDirective ip_again) = Some (buildIPDirective ip_again).
Proof. split; [|split]; vm_compute; reflexivity. Qed.

Lemma handover_after_restart_leaks_witness :
  exists w' op', ip_applyAddOrUpdateEvent ip_world ip_add 5 ip_op = (w', op', None) /\
    exposed w' !! service_key (buildIPDirective ip_again) = Some (buildIPDirective ip_again).
Proof.
  destruct ip_handover_ok as (Hok & Hl & Hx).
  destruct (ip_applyAddOrUpdateEvent ip_world ip_add 5 ip_op) as [[w' op'] r] eqn:Ha. simpl in Hok. subst r.
  exists w', op'. split; [reflexivity|].
  apply fmap_Some in Hl as (e & He & Hl). symmetry in Hl.
  refine (proj1 (handover_after_restart_leaks ip_world w' ip_op0 ip_op op' 1 5 (buildIPDirective ip_again)
    ip_add e ip_started Hx _ He Hl ltac:(discriminate) _ (proj2 ip_add_ok) Ha)).
  - apply ip_declared_ok; [left|by left].
  - intros E. vm_compute in E. discriminate.
Defined.

(** The service moves from one endpoint to the other. *)
Definition ip_moved : ipResourceEvent := ip_declared ProviderResourceAdd (ip_lease "akash1a" 1) "a-ip2" TCP.
Definition ip_deleted : ipResourceEvent := ip_declared ProviderResourceDelete (ip_lease "akash1a" 1) "a-ip" TCP.
Definition ip_moved1 := ip_applyAddOrUpdateEvent ip_world ip_moved 5 ip_op.
Definition ip_moved2 := ip_applyEvent ip_cfg ip_moved1.1.1 ip_deleted 6 ip_moved1.1.2.
Definition ip_moved3 := ip_applyAddOrUpdateEvent ip_moved2.1.1 ip_moved 7 ip_moved2.1.2.

Lemma ip_moved_ok : ip_moved1.2 = None /\ ip_moved2.2 = None.
Proof. split; vm_compute; reflexivity. Qed.

Lemma endpoint_move_unexposes_witness :
  exposed ip_moved3.1.1 !! service_key (buildIPDirective ip_moved) = None.
Proof.
  destruct ip_moved_ok as [H1 H2].
  pose proof (surjective_pairing ip_moved1) as E1. pose proof (surjective_pairing ip_moved2) as E2.
  pose proof (surjective_pairing ip_moved3) as E3.
  rewrite H1, (surjective_pairing ip_moved1.1) in E1. rewrite H2, (surjective_pairing ip_moved2.1) in E2.
  rewrite (surjective_pairing ip_moved3.1) in E3.
  refine (proj2 (proj2 (proj2 (endpoint_move_unexposes ip_cfg ip_world _ _ _ ip_op _ _ _ 5 6 7 ip_moved ip_deleted _
    _ _ eq_refl _ E1 E2 E3)))).
  - vm_compute. reflexivity.
  - vm_compute. discriminate.
  - apply ip_declared_ok; [left|by left].
Defined.

(** What the owner of the service sees of it. *)
#[local] Existing Instance any_bech32.

Lemma status_of_lease_witness :
  handleIPLeaseStatusGet (GetIPAddressStatusForLease (fun _ => ["10.0.0.7"%string])) "akash1p" ip_world
    "akash1b" "3" "1" "1" = StatusOK [mkIPStatus 8080 80 "web" "10.0.0.7" "TCP"].
Proof.
  assert (lease_ok (ip_lease "akash1b" 3)) as Hok by (split_and!; unfold is_uint; simpl; lia).
  refine (eq_trans (status_of_lease (GetIPAddressStatusForLease (fun _ => ["10.0.0.7"%string])) ip_world
    (ip_lease "akash1b" 3) Hok eq_refl) _).
  vm_compute. reflexivity.
Defined.

Lemma lease_ip_status_roundtrip_witness :
  exists w' ss ip, CreateIPPassthrough "default" (mkStore ∅ []) (buildIPDirective ip_add) = (w', None) /\
    GetIPAddressStatusForLease (fun _ => ["10.0.0.7"%string]) w' (ip_lease "akash1a" 2) = Ok ss /\
    mkLeaseState (ip_lease "akash1a" 2) ip "web" 80 8080 "a-ip" TCP ∈ ss.
Proof.
  pose (c := CreateIPPassthrough "default" (mkStore ∅ []) (buildIPDirective ip_add)).
  assert (c = (c.1, None)) as Hc by (unfold c; vm_compute; reflexivity).
  assert (exists ss, GetIPAddressStatusForLease (fun _ => ["10.0.0.7"%string]) c.1 (ip_lease "akash1a" 2) = Ok ss)
    as [ss Hss] by (eexists; unfold c; vm_compute; reflexivity).
  destruct (lease_ip_status_roundtrip (fun _ => ["10.0.0.7"%string]) "default" (mkStore ∅ []) c.1
    (buildIPDirective ip_add) ss (proj2 ip_add_ok) Hc Hss) as [ip Hip].
  exists c.1, ss, ip. split; [exact Hc|]. split; [exact Hss|exact Hip].
Defined.

Lemma listed_passthrough_port_lost_witness :
  exists ps p, GetIPPassthroughs ip_world = Ok ps /\ p ∈ ps /\ p_port p = 0%Z.
Proof.
  assert (exists p ps, GetIPPassthroughs ip_world = Ok (p :: ps)) as (p & ps & Hps)
    by (do 2 eexists; vm_compute; reflexivity).
  exists (p :: ps), p. split; [exact Hps|]. split; [left|].
  exact (listed_passthrough_port_lost ip_world (p :: ps) p Hps ltac:(left)).
Defined.

Lemma declared_ip_observed_witness :
  ip_initial_events [pip_spec (declared_ip (ip_lease "akash1a" 1) "web" 8080 80 TCP "a-ip")] = Some [ip_again].
Proof.
  refine (proj1 (declared_ip_observed (ip_lease "akash1a" 1) "web" "a-ip" 8080 80 TCP _ _ _)).
  - split_and!; unfold is_uint; simpl; lia.
  - split; reflexivity.
  - by left.
Defined.

Lemma barrier_counts_requests_witness :
  rtc barrier_step new_barrier (mkBarrier true 0 [PGone] false) /\ PInside ∉ [PGone].
Proof.
  assert (rtc barrier_step new_barrier (mkBarrier true 0 [PGone] false)) as Hr.
  { eapply rtc_l; [apply b_enable|]. eapply rtc_l; [apply b_arrive|].
    eapply rtc_l; [by apply (b_enter_load _ 0)|]. eapply rtc_l; [by apply (b_enter_add _ 0)|].
    eapply rtc_l; [by apply (b_exit _ 0)|]. apply rtc_refl. }
  split; [exact Hr|]. exact (proj2 (barrier_counts_requests _ Hr) eq_refl).
Defined.

End IPExamples.
