(* ===== verification/BidService.v ===== *)
(** * The bid engine service

    Model of [bidengine/service.go]: the fetcher that traverses the open orders of
    the chain page by page, the loop that keeps one monitor per order, the point
    from which a restart resumes the traversal, and the shutdown. A monitor is the
    run of one order, modelled in [Order]. *)

From Stdlib Require Import ZArith Lia.
From stdpp Require Import base gmap list strings tactics.
From S2P Require Import Prelude Types Names Registry.

(** The key an order is kept under, of the node's packages: no two orders share one. *)
Class OrderPaths := { OrderPath : OrderID -> string }.
Class OrderPathLaws `{OrderPaths} := { OrderPath_inj :: Inj (=) (=) OrderPath }.

(** ** The fetcher *)

(** A nil key is an empty one. *)
Record ordersPage := mkPage { pg_orders : list OrderID; pg_key : string; pg_last : bool }.

Inductive orders_answer :=
| OrdersErr (invalidArgument : bool)
| OrdersOk (orders : list OrderID) (nextKey : string).

Inductive fetch_error := FetchCanceled | ErrOrdersNextKeyRepeated.

(** Before a query, before the send of a page with the key that follows it, or
    returned. *)
Inductive fetcher :=
| FQuery (nextKey : string) (resuming : bool)
| FPush (page : ordersPage) (next : string)
| FEnd (err : option fetch_error).

(** [stored] is the key that was loaded, empty when the load failed. *)
Definition fetch_start (stored : string) : fetcher := FQuery stored (negb (String.eqb stored "")).

(** The answer to a query on a context that is not canceled. *)
Definition fetch_answer (nextKey : string) (resuming : bool) (a : orders_answer) : fetcher :=
  match a with
  | OrdersErr invalid => if resuming && invalid then FQuery "" false else FQuery nextKey resuming
  | OrdersOk orders next =>
      if negb (String.eqb next "") && String.eqb next nextKey then FEnd (Some ErrOrdersNextKeyRepeated)
      else FPush (mkPage orders nextKey (String.eqb next "")) next
  end.

(** After the send. *)
Definition fetch_sent (page : ordersPage) (next : string) : fetcher :=
  if pg_last page then FEnd None else FQuery next false.

Definition fetch_cancel (f : fetcher) : fetcher :=
  match f with FEnd _ => f | _ => FEnd (Some FetchCanceled) end.

(** ** The service *)

Inductive bs_phase := BsWaiting | BsRunning | BsDraining | BsDone.

Record bidService := mkBidService {
  bs_phase_of : bs_phase;
  bs_orders : gmap string OrderID;
  bs_ordersch : list ordersPage;
  bs_fetcher : fetcher;
  bs_catchupIncomplete : bool;
  bs_signal : bool
}.

(** The channel of pages has room for as many as a page has orders. *)
Definition ordersch_cap : nat := 1000.

Inductive bs_effect :=
| BsQueued (page : ordersPage) (next : string)
| BsMonitor (oid : OrderID) (catchup : bool)
| BsPersist (key : string)
| BsStopped (oid : OrderID)
| BsReport (orders : Z).

(** [oks] are the outcomes of the calls of [newOrder], in their order, and success
    where the list ends; [BsDrained] is the report of a monitor that has ended. *)
Inductive bs_event :=
| BsAnswer (a : orders_answer)
| BsSend
| BsCancelFetch
| BsOperatorsReady (ok : bool)
| BsPage (oks : list bool) (persisted : bool)
| BsOrderCreated (oid : OrderID) (ok : bool)
| BsStatus
| BsSignal
| BsDrained (oid : OrderID)
| BsShutdown.

Section Service.
Context `{OrderPaths}.

Definition bs_init (stored : string) : bidService :=
  mkBidService BsWaiting ∅ [] (fetch_start stored) false false.

Definition set_orders (orders : gmap string OrderID) (s : bidService) : bidService :=
  mkBidService (bs_phase_of s) orders (bs_ordersch s) (bs_fetcher s) (bs_catchupIncomplete s)
    (bs_signal s).

Definition set_fetcher (f : fetcher) (s : bidService) : bidService :=
  mkBidService (bs_phase_of s) (bs_orders s) (bs_ordersch s) f (bs_catchupIncomplete s) (bs_signal s).

Definition set_queue (q : list ordersPage) (s : bidService) : bidService :=
  mkBidService (bs_phase_of s) (bs_orders s) q (bs_fetcher s) (bs_catchupIncomplete s) (bs_signal s).

Definition set_phase (p : bs_phase) (s : bidService) : bidService :=
  mkBidService p (bs_orders s) (bs_ordersch s) (bs_fetcher s) (bs_catchupIncomplete s)
    (bs_signal s).

Definition set_incomplete (s : bidService) : bidService :=
  mkBidService (bs_phase_of s) (bs_orders s) (bs_ordersch s) (bs_fetcher s) true (bs_signal s).

Definition bs_trySignal (s : bidService) : bidService :=
  mkBidService (bs_phase_of s) (bs_orders s) (bs_ordersch s) (bs_fetcher s) (bs_catchupIncomplete s)
    true.

(** The loop of [processOrdersPage] over the orders of a page. *)
Fixpoint catchup_orders (orders : list OrderID) (oks : list bool) (s : bidService)
    : bidService * list bs_effect :=
  match orders with
  | [] => (s, [])
  | oid :: rest =>
      match bs_orders s !! OrderPath oid with
      | Some _ => catchup_orders rest oks s
      | None =>
          if default true (head oks) then
            let r := catchup_orders rest (tail oks) (set_orders (<[OrderPath oid := oid]> (bs_orders s)) s) in
            (r.1, BsMonitor oid true :: r.2)
          else catchup_orders rest (tail oks) (set_incomplete s)
      end
  end.

(** [persisted] is whether the key could be written. *)
Definition processOrdersPage (page : ordersPage) (oks : list bool) (persisted : bool) (s : bidService)
    : bidService * list bs_effect :=
  let '(s, e) := catchup_orders (pg_orders page) oks s in
  (s, e ++ if pg_last page && negb (bs_catchupIncomplete s) && persisted then [BsPersist (pg_key page)] else []).

Definition order_count (s : bidService) : Z := wrap32 (Z.of_nat (size (bs_orders s))).

(** The drain ends when no order is left. *)
Definition drained (s : bidService) : bidService :=
  if decide (bs_orders s = ∅) then set_phase BsDone s else s.

Definition bs_step (s : bidService) (ev : bs_event) : option (bidService * list bs_effect) :=
  match ev with
  | BsAnswer a =>
      match bs_fetcher s with
      | FQuery key resuming => Some (set_fetcher (fetch_answer key resuming a) s, [])
      | _ => None
      end
  | BsSend =>
      match bs_fetcher s with
      | FPush page next =>
          if (length (bs_ordersch s) <? ordersch_cap)%nat
          then Some (set_fetcher (fetch_sent page next) (set_queue (bs_ordersch s ++ [page]) s), [BsQueued page next])
          else None
      | _ => None
      end
  | BsCancelFetch => Some (set_fetcher (fetch_cancel (bs_fetcher s)) s, [])
  | BsOperatorsReady ok =>
      match bs_phase_of s with
      | BsWaiting => Some (if ok then bs_trySignal (set_phase BsRunning s) else set_phase BsDone s, [])
      | _ => None
      end
  | BsPage oks persisted =>
      match bs_phase_of s, bs_ordersch s with
      | BsRunning, page :: rest => Some (processOrdersPage page oks persisted (set_queue rest s))
      | _, _ => None
      end
  | BsOrderCreated oid ok =>
      match bs_phase_of s with
      | BsRunning =>
          match bs_orders s !! OrderPath oid with
          | Some _ => Some (s, [])
          | None => if ok then Some (bs_trySignal (set_orders (<[OrderPath oid := oid]> (bs_orders s)) s),
                                     [BsMonitor oid false])
                    else Some (s, [])
          end
      | _ => None
      end
  | BsStatus => match bs_phase_of s with BsRunning => Some (s, [BsReport (order_count s)]) | _ => None end
  | BsSignal =>
      match bs_phase_of s with
      | BsRunning =>
          if bs_signal s then Some (mkBidService BsRunning (bs_orders s) (bs_ordersch s) (bs_fetcher s)
            (bs_catchupIncomplete s) false, [BsReport (order_count s)])
          else None
      | _ => None
      end
  | BsDrained oid =>
      if decide (bs_orders s !! OrderPath oid = Some oid) then
        let s' := set_orders (delete (OrderPath oid) (bs_orders s)) s in
        match bs_phase_of s with
        | BsRunning => Some (bs_trySignal s', [BsStopped oid])
        | BsDraining => Some (drained s', [BsStopped oid])
        | _ => None
        end
      else None
  | BsShutdown =>
      match bs_phase_of s with
      | BsRunning => Some (drained (set_phase BsDraining s), [])
      | _ => None
      end
  end.

(** The histories of the service from its start. *)
Inductive bs_run (stored : string) : list bs_event -> bidService -> list bs_effect -> Prop :=
| bs_run_start : bs_run stored [] (bs_init stored) []
| bs_run_step evs s effs ev s' e :
    bs_run stored evs s effs -> bs_step s ev = Some (s', e) -> bs_run stored (evs ++ [ev]) s' (effs ++ e).

End Service.

(** ** One monitor per order *)

Definition started_of (e : bs_effect) : option OrderID :=
  match e with BsMonitor oid _ => Some oid | _ => None end.

Definition stopped_of (e : bs_effect) : option OrderID :=
  match e with BsStopped oid => Some oid | _ => None end.

Section Monitors.
Context `{HP : OrderPaths} `{HPL : !OrderPathLaws}.

(** What a step starts, stops and leaves running. *)
Abbreviation bs_balanced s e s' :=
  (balanced OrderPath (bs_orders s) (omap started_of e) (omap stopped_of e) (bs_orders s')).

Lemma bs_balanced_app s e s1 e1 s2 : bs_balanced s e s1 -> bs_balanced s1 e1 s2 -> bs_balanced s (e ++ e1) s2.
Proof. rewrite !omap_app. apply balanced_trans. Qed.

Lemma catchup_orders_balanced orders oks s :
  keyed OrderPath (bs_orders s) -> bs_balanced s (catchup_orders orders oks s).2 (catchup_orders orders oks s).1.
Proof.
  revert oks s. induction orders as [|oid orders IH]; intros oks s Hk; simpl; [done|].
  destruct (bs_orders s !! OrderPath oid) eqn:Hs; [by apply IH|].
  destruct (default true (head oks)); [|apply (IH (tail oks) (set_incomplete s) Hk)].
  pose proof (balanced_start OrderPath (bs_orders s) oid Hk Hs) as Hb.
  exact (balanced_trans _ _ [_] [] _ _ _ _ Hb
    (IH (tail oks) (set_orders (<[OrderPath oid := oid]> (bs_orders s)) s) (proj1 Hb))).
Qed.

Lemma drained_orders s : bs_orders (drained s) = bs_orders s.
Proof. unfold drained. by case_decide. Qed.

Lemma bs_step_balanced s ev s' e :
  keyed OrderPath (bs_orders s) -> bs_step s ev = Some (s', e) -> bs_balanced s e s'.
Proof.
  intros Hk. destruct ev as [a| | |ok|oks per|oid ok| | |oid| ]; simpl.
  - by case_match; intros E; simplify_eq.
  - by repeat case_match; intros E; simplify_eq.
  - by intros E; simplify_eq.
  - by repeat case_match; intros E; simplify_eq.
  - destruct (bs_phase_of s); [done| |done|done]. destruct (bs_ordersch s) as [|page rest]; [done|].
    intros E. injection E as E. unfold processOrdersPage in E.
    pose proof (catchup_orders_balanced (pg_orders page) oks (set_queue rest s) Hk) as Hb.
    destruct (catchup_orders _ _ _) as [s1 e1]. injection E as <- <-.
    eapply bs_balanced_app; [exact Hb|]. destruct (_ && _); apply balanced_refl, Hb.
  - repeat case_match; intros E; simplify_eq; simpl; [done|by apply (balanced_start OrderPath)|done].
  - by repeat case_match; intros E; simplify_eq.
  - by repeat case_match; intros E; simplify_eq.
  - case_decide as Ho; [|done].
    repeat case_match; intros E; simplify_eq; rewrite ?drained_orders; simpl; by apply (balanced_stop OrderPath).
  - repeat case_match; intros E; simplify_eq. by rewrite drained_orders.
Qed.

Lemma bs_run_balanced stored evs s effs : bs_run stored evs s effs -> bs_balanced (bs_init stored) effs s.
Proof.
  induction 1 as [|evs s effs ev s' e Hr IH Hs]; [done|].
  eapply bs_balanced_app; [done|]. eapply bs_step_balanced; [apply IH|done].
Qed.

(** Each order is bid on by one monitor at a time: through any interleaving of
    the catch-up of open orders, of orders announced by the chain and of monitors
    that end, the monitors started for an order are those that have ended plus the
    one the service still keeps, if it keeps one. *)
Theorem one_monitor_per_order (stored : string) (evs : list bs_event) (s : bidService) (effs : list bs_effect)
    (oid : OrderID) :
  bs_run stored evs s effs ->
  occurs oid (omap started_of effs) =
    (occurs oid (omap stopped_of effs) + if decide (bs_orders s !! OrderPath oid = Some oid) then 1 else 0)%nat.
Proof. intros Hr. apply bs_run_balanced in Hr. exact (balanced_empty OrderPath _ _ _ oid Hr). Qed.

End Monitors.

(** ** The catch-up *)

Definition queued_of (e : bs_effect) : option (ordersPage * string) :=
  match e with BsQueued page next => Some (page, next) | _ => None end.

(** The pages of a history, with the keys that followed them. *)
Definition queued (effs : list bs_effect) : list (ordersPage * string) := omap queued_of effs.

(** [chained k pages k'] when each page was asked for with the key the page before
    it named, the first with [k], and the last names [k']; only the last may be the
    end of the traversal, and none names its own key. *)
Inductive chained : string -> list (ordersPage * string) -> string -> Prop :=
| chained_nil k : chained k [] k
| chained_snoc k pages k' page next :
    chained k pages k' -> pg_key page = k' -> pg_last page = String.eqb next "" ->
    (pages <> [] -> k' <> ""%string) -> next <> k' \/ next = ""%string ->
    chained k (pages ++ [(page, next)]) next.

Section Catchup.
Context `{HP : OrderPaths} `{HPL : !OrderPathLaws}.

Definition monitored (effs : list bs_effect) (oid : OrderID) : Prop := exists c, BsMonitor oid c ∈ effs.

(** [done] are the pages taken from the channel. *)
Record catchup_inv (stored : string) (s : bidService) (effs : list bs_effect) (done : list ordersPage) : Prop := {
  ci_queue : (queued effs).*1 = done ++ bs_ordersch s;
  ci_keyed : keyed OrderPath (bs_orders s);
  ci_orders : forall k oid, bs_orders s !! k = Some oid -> monitored effs oid;
  ci_done : bs_catchupIncomplete s = false ->
    forall page oid, page ∈ done -> oid ∈ pg_orders page -> monitored effs oid;
  ci_fetch : exists k, (k = stored \/ k = ""%string) /\
    match bs_fetcher s with
    | FQuery key resuming => chained k (queued effs) key /\ (queued effs <> [] -> key <> ""%string) /\
        (resuming = true -> queued effs = [])
    | FPush page next => exists k', chained k (queued effs) k' /\ (queued effs <> [] -> k' <> ""%string) /\
        pg_key page = k' /\ pg_last page = String.eqb next "" /\ (next <> k' \/ next = ""%string)
    | FEnd _ => exists k', chained k (queued effs) k'
    end;
  ci_persist : forall key, BsPersist key ∈ effs -> exists k pages page,
    (k = stored \/ k = ""%string) /\ queued effs = pages ++ [(page, ""%string)] /\
    chained k (queued effs) "" /\ pg_key page = key /\
    (forall p n oid, (p, n) ∈ queued effs -> oid ∈ pg_orders p -> monitored effs oid) /\
    exists x, bs_fetcher s = FEnd x
}.

Lemma monitored_app effs e oid : monitored effs oid -> monitored (effs ++ e) oid.
Proof. intros [c Hc]. exists c. apply elem_of_app. by left. Qed.

Lemma queued_app effs e : queued (effs ++ e) = queued effs ++ queued e.
Proof. apply omap_app. Qed.

(** A page that ends the traversal is the last one. *)
Lemma chained_last k l1 page next l2 k' :
  chained k (l1 ++ (page, next) :: l2) k' -> pg_last page = true -> l2 = [] /\ next = ""%string /\ k' = ""%string.
Proof.
  intros Hc Hlast. remember (l1 ++ (page, next) :: l2) as pages eqn:Hp.
  revert l2 Hp. induction Hc as [k|k pages k' p n Hc IH Hk Hl Hne Hnn]; intros l2 Hp; [by destruct l1|].
  destruct l2 as [|x l2 _] using rev_ind.
  - apply app_inj_tail in Hp as [-> Hp]. simplify_eq. rewrite Hl in Hlast. by apply String.eqb_eq in Hlast as ->.
  - rewrite app_comm_cons, app_assoc in Hp. apply app_inj_tail in Hp as [-> <-]. exfalso.
    destruct (IH l2 eq_refl) as (_ & _ & ->). apply Hne; [by destruct l1|done].
Qed.

(** Steps that queue, start and persist nothing and leave the table and the fetcher's
    progress. *)
Lemma catchup_frame stored s s' effs e dn :
  catchup_inv stored s effs dn ->
  queued e = [] -> (forall key, BsPersist key ∉ e) ->
  bs_ordersch s' = bs_ordersch s -> bs_fetcher s' = bs_fetcher s ->
  bs_catchupIncomplete s' = bs_catchupIncomplete s ->
  keyed OrderPath (bs_orders s') -> (forall k oid, bs_orders s' !! k = Some oid -> monitored (effs ++ e) oid) ->
  catchup_inv stored s' (effs ++ e) dn.
Proof.
  intros [] Hq Hp Ho Hf Hi Hk Hm. assert (queued (effs ++ e) = queued effs) as Hqe by by rewrite queued_app, Hq, app_nil_r.
  split; rewrite ?Hqe, ?Ho, ?Hf, ?Hi; try done.
  - intros Hin page oid H1 H2. by apply monitored_app, (ci_done0 Hin page).
  - intros key Hin. apply elem_of_app in Hin as [Hin|Hin]; [|by destruct (Hp key)].
    destruct (ci_persist0 key Hin) as (k & pages & page & H1 & H2 & H3 & H4 & H5 & H6).
    exists k, pages, page. split_and!; try done. intros p n oid Hpn Hoid. by eapply monitored_app, H5.
Qed.

Lemma catchup_orders_spec orders oks s :
  keyed OrderPath (bs_orders s) ->
  let r := catchup_orders orders oks s in
  keyed OrderPath (bs_orders r.1) /\ queued r.2 = [] /\ (forall key, BsPersist key ∉ r.2) /\
  bs_ordersch r.1 = bs_ordersch s /\ bs_fetcher r.1 = bs_fetcher s /\ bs_phase_of r.1 = bs_phase_of s /\
  (bs_catchupIncomplete r.1 = false -> bs_catchupIncomplete s = false) /\
  (forall k oid, bs_orders r.1 !! k = Some oid -> bs_orders s !! k = Some oid \/ monitored r.2 oid) /\
  (bs_catchupIncomplete r.1 = false -> forall oid, oid ∈ orders ->
     bs_orders s !! OrderPath oid = Some oid \/ monitored r.2 oid).
Proof.
  revert oks s. induction orders as [|oid orders IH]; intros oks s Hk; simpl;
    [split_and!; try done; [no_elem|by left|no_elem]|].
  destruct (bs_orders s !! OrderPath oid) as [o|] eqn:Hs.
  - destruct (IH oks s Hk) as (? & ? & ? & ? & ? & ? & ? & ? & Hall). split_and!; try done.
    intros Hi o' [->|Ho']%elem_of_cons; [|by apply Hall]. left. rewrite Hs. f_equal.
    symmetry. by apply (inj OrderPath), (Hk _ _ Hs).
  - destruct (default true (head oks)); cbn [fst snd].
    + set (s1 := set_orders (<[OrderPath oid := oid]> (bs_orders s)) s).
      assert (keyed OrderPath (bs_orders s1)) as Hk1 by by apply map_Forall_insert_2.
      destruct (IH (tail oks) s1 Hk1) as (? & Hq & Hp & ? & ? & ? & ? & Hm & Hall).
      assert (forall o, monitored (catchup_orders orders (tail oks) s1).2 o ->
        monitored (BsMonitor oid true :: (catchup_orders orders (tail oks) s1).2) o) as Hcons
        by (intros o [c Hc]; exists c; by right).
      assert (monitored (BsMonitor oid true :: (catchup_orders orders (tail oks) s1).2) oid) as Hoid
        by (exists true; left).
      split_and!; try done.
      * intros key [?|Hin]%elem_of_cons; [done|by eapply Hp].
      * intros k o Ho. apply Hm in Ho as [Ho|Ho]; [|right; by apply Hcons].
        simpl in Ho. apply lookup_insert_Some in Ho as [[<- <-]|[_ Ho]]; [by right|by left].
      * intros Hi o' [->|Ho']%elem_of_cons; [by right|]. destruct (Hall Hi o' Ho') as [Ho|Ho]; [|right; by apply Hcons].
        simpl in Ho. apply lookup_insert_Some in Ho as [[_ <-]|[_ Ho]]; [by right|by left].
    + destruct (IH (tail oks) (set_incomplete s) Hk) as (? & ? & ? & ? & ? & ? & Hi & ? & ?).
      split_and!; try done; intros Hf; by apply Hi in Hf.
Qed.

Lemma catchup_page stored s effs dn page rest oks persisted :
  catchup_inv stored s effs dn -> bs_ordersch s = page :: rest ->
  let r := processOrdersPage page oks persisted (set_queue rest s) in
  catchup_inv stored r.1 (effs ++ r.2) (dn ++ [page]).
Proof.
  intros [] Hq. unfold processOrdersPage.
  destruct (catchup_orders_spec (pg_orders page) oks (set_queue rest s) ci_keyed0)
    as (Hk & Hqe & Hp & Ho & Hf & _ & Hi & Hm & Hall).
  destruct (catchup_orders _ _ _) as [s1 e1]. cbn [fst snd] in *.
  assert (forall oid, oid ∈ pg_orders page -> bs_catchupIncomplete s1 = false -> monitored (effs ++ e1) oid) as Hpage.
  { intros oid Hin Hc. destruct (Hall Hc oid Hin) as [H1|[c H1]].
    - apply monitored_app, (ci_orders0 _ _ H1).
    - exists c. apply elem_of_app. by right. }
  set (e2 := if pg_last page && negb (bs_catchupIncomplete s1) && persisted then [BsPersist (pg_key page)] else []).
  assert (queued e2 = []) as Hq2 by (unfold e2; by destruct (_ && _)).
  assert (queued (effs ++ e1 ++ e2) = queued effs) as Hall_q
    by by rewrite !queued_app, Hqe, Hq2, !app_nil_r.
  assert (bs_catchupIncomplete s1 = false -> forall q oid, q ∈ dn ++ [page] -> oid ∈ pg_orders q ->
    monitored (effs ++ e1) oid) as Hdone.
  { intros Hc q oid [H1|H1]%elem_of_app Hoid; [by apply monitored_app, (ci_done0 (Hi Hc) q)|].
    apply list_elem_of_singleton in H1 as ->. by apply Hpage. }
  split; rewrite ?Hall_q, ?Hf; try done.
  - rewrite ci_queue0, Hq, Ho. simpl. by rewrite <- app_assoc.
  - intros k oid Hoid. apply Hm in Hoid as [H1|[c H1]].
    + apply monitored_app, (ci_orders0 _ _ H1).
    + exists c. rewrite !elem_of_app. auto.
  - intros Hc q oid H1 H2. rewrite app_assoc. by eapply monitored_app, Hdone.
  - intros key Hin. rewrite !elem_of_app in Hin. destruct Hin as [Hin|[Hin|Hin]]; [|by destruct (Hp key)|].
    + destruct (ci_persist0 key Hin) as (k & pages & p & H1 & H2 & H3 & H4 & H5 & H6).
      exists k, pages, p. split_and!; try done. intros p' n oid Hpn Hoid. by eapply monitored_app, H5.
    + unfold e2 in Hin. destruct (pg_last page) eqn:Hlast; [|by apply not_elem_of_nil in Hin].
      destruct (bs_catchupIncomplete s1) eqn:Hc; [by apply not_elem_of_nil in Hin|].
      destruct persisted; [|by apply not_elem_of_nil in Hin]. apply list_elem_of_singleton in Hin as [= ->].
      rewrite Hq in ci_queue0. apply fmap_app_inv in ci_queue0 as (l1 & l2 & Hl1 & Hl2 & Hqs).
      destruct l2 as [|[p n] l2]; [done|]. simpl in Hl2. injection Hl2 as <- Hl2.
      destruct ci_fetch0 as (k & Hk0 & Hfe).
      assert (exists k', chained k (queued effs) k') as [k' Hch] 
        by (destruct (bs_fetcher s); [destruct Hfe as [? _]|destruct Hfe as (? & ? & _)|]; eauto).
      rewrite Hqs in Hch. destruct (chained_last _ _ _ _ _ _ Hch Hlast) as (-> & -> & ->). rewrite <- Hqs in Hch.
      exists k, l1, page. split_and!; try done.
      * intros p' n' oid Hpn Hoid. rewrite app_assoc. apply monitored_app, (Hdone eq_refl p'); [|done].
        rewrite Hqs in Hpn. apply elem_of_app in Hpn as [Hpn|Hpn]; apply elem_of_app; [left|right].
        -- rewrite Hl1. apply list_elem_of_fmap. by exists (p', n').
        -- apply list_elem_of_singleton in Hpn. simplify_eq. left.
      * assert (forall k2, chained k (queued effs) k2 -> (queued effs <> [] -> k2 <> ""%string) -> False) as Hno.
        { intros k2 Hc2 Hne. rewrite Hqs in Hc2, Hne.
          destruct (chained_last _ _ _ _ _ _ Hc2 Hlast) as (_ & _ & ->). apply Hne; [by destruct l1|done]. }
        simpl. destruct (bs_fetcher s); [destruct Hfe as (H1 & H2 & _)|destruct Hfe as (k2 & H1 & H2 & _)|by eexists];
          destruct (Hno _ H1 H2).
Qed.

(** What the fetcher may be between two steps. *)
Definition fetch_ok (k : string) (pages : list (ordersPage * string)) (f : fetcher) : Prop :=
  match f with
  | FQuery key resuming => chained k pages key /\ (pages <> [] -> key <> ""%string) /\ (resuming = true -> pages = [])
  | FPush page next => exists k', chained k pages k' /\ (pages <> [] -> k' <> ""%string) /\
      pg_key page = k' /\ pg_last page = String.eqb next "" /\ (next <> k' \/ next = ""%string)
  | FEnd _ => exists k', chained k pages k'
  end.

Lemma fetch_ok_end k pages f err : fetch_ok k pages f -> fetch_ok k pages (FEnd err).
Proof.
  destruct f as [key res|page next|err']; simpl; [intros (? & _)|intros (k' & ? & _)|intros [k' ?]]; by eexists.
Qed.

Lemma fetch_answer_ok k pages key resuming a :
  fetch_ok k pages (FQuery key resuming) ->
  exists k0, (k0 = k \/ k0 = ""%string) /\ fetch_ok k0 pages (fetch_answer key resuming a).
Proof.
  intros (Hc & Hne & Hr). destruct a as [inv|orders next]; simpl.
  - destruct resuming, inv; simpl; try by (exists k; auto).
    exists ""%string. split; [by right|]. rewrite (Hr eq_refl). split_and!; [constructor|done|done].
  - destruct (negb (String.eqb next "") && String.eqb next key) eqn:E; simpl.
    + exists k. split; [by left|]. by exists key.
    + exists k. split; [by left|]. exists key. split_and!; try done. simpl.
      destruct (String.eqb_spec next ""); [by right|]. simpl in E. apply String.eqb_neq in E. by left.
Qed.

Lemma fetch_sent_ok k pages page next :
  fetch_ok k pages (FPush page next) -> fetch_ok k (pages ++ [(page, next)]) (fetch_sent page next).
Proof.
  intros (k' & Hc & Hne & Hk & Hl & Hn). assert (chained k (pages ++ [(page, next)]) next) as Hc' by by econstructor.
  unfold fetch_sent. destruct (pg_last page); [by exists next|]. split_and!; [done| |done].
  intros _ ->. done.
Qed.

Lemma catchup_fetcher stored s effs e dn f q :
  catchup_inv stored s effs dn -> (forall key, BsPersist key ∉ e) ->
  (queued (effs ++ e)).*1 = dn ++ q -> (q = bs_ordersch s \/ forall x, bs_fetcher s <> FEnd x) ->
  (exists k, (k = stored \/ k = ""%string) /\ fetch_ok k (queued (effs ++ e)) f) ->
  (forall x, bs_fetcher s = FEnd x -> f = FEnd x /\ queued e = []) ->
  catchup_inv stored (set_fetcher f (set_queue q s)) (effs ++ e) dn.
Proof.
  intros [] Hp Hq Hqs Hf Hend. split; try done.
  - intros k oid Ho. by eapply monitored_app, ci_orders0.
  - intros Hi page oid H1 H2. by eapply monitored_app, ci_done0.
  - intros key [Hin|Hin]%elem_of_app; [|by destruct (Hp key)].
    destruct (ci_persist0 key Hin) as (k & pages & page & H1 & H2 & H3 & H4 & H5 & x & H6).
    destruct (Hend x H6) as [-> Hqe]. rewrite queued_app, Hqe, app_nil_r.
    exists k, pages, page. split_and!; try done; [|by exists x].
    intros p n oid Hpn Hoid. by eapply monitored_app, H5.
Qed.

Lemma catchup_step stored s effs dn ev s' e :
  catchup_inv stored s effs dn -> bs_step s ev = Some (s', e) ->
  exists dn', catchup_inv stored s' (effs ++ e) dn'.
Proof.
  intros Hi Hs. pose proof (proj1 (bs_step_balanced _ _ _ _ (ci_keyed _ _ _ _ Hi) Hs)) as Hk.
  assert (forall e k oid, bs_orders s !! k = Some oid -> monitored (effs ++ e) oid) as Hold
    by (intros e0 k oid Ho; apply monitored_app, (ci_orders _ _ _ _ Hi _ _ Ho)).
  destruct ev as [a| | |ok|oks per|oid ok| | |oid| ]; simpl in Hs.
  - exists dn. destruct (bs_fetcher s) as [key res| |] eqn:Hf; try done. injection Hs as <- <-.
    destruct (ci_fetch _ _ _ _ Hi) as (k & Hk0 & Hfe). rewrite Hf in Hfe.
    destruct (fetch_answer_ok k _ key res a Hfe) as (k1 & Hk1 & Hok).
    apply (catchup_fetcher stored s effs [] dn _ (bs_ordersch s)); rewrite ?app_nil_r; try done; try no_elem;
      [apply Hi|by left|exists k1; split; [destruct Hk1 as [->| ->]; auto|done]|by rewrite Hf].
  - exists dn. destruct (bs_fetcher s) as [|page next|] eqn:Hf; try done. destruct (_ <? _)%nat; [|done].
    injection Hs as <- <-. destruct (ci_fetch _ _ _ _ Hi) as (k & Hk0 & Hfe). rewrite Hf in Hfe.
    apply catchup_fetcher; try done.
    + intros key [?|?]%elem_of_cons; [done|by eapply not_elem_of_nil].
    + rewrite queued_app, fmap_app, (ci_queue _ _ _ _ Hi). by rewrite <- app_assoc.
    + right. by rewrite Hf.
    + exists k. split; [done|]. rewrite queued_app. by apply fetch_sent_ok.
    + by rewrite Hf.
  - exists dn. injection Hs as <- <-. destruct (ci_fetch _ _ _ _ Hi) as (k & Hk0 & Hfe).
    apply (catchup_fetcher stored s effs [] dn _ (bs_ordersch s)); rewrite ?app_nil_r; try done; try no_elem;
      [apply Hi|by left| |intros x ->; done].
    exists k. split; [done|]. unfold fetch_cancel. destruct (bs_fetcher s) eqn:Hf; [..|done];
      by apply (fetch_ok_end _ _ (bs_fetcher s)); rewrite Hf.
  - exists dn. destruct (bs_phase_of s); try done. injection Hs as <- <-.
    apply (catchup_frame _ s); destruct ok; try done; try no_elem; by apply Hold.
  - destruct (bs_phase_of s); try done. destruct (bs_ordersch s) as [|page rest] eqn:Hq; [done|].
    injection Hs as Hs. exists (dn ++ [page]).
    pose proof (catchup_page stored s effs dn page rest oks per Hi Hq) as Hc. by rewrite Hs in Hc.
  - exists dn. destruct (bs_phase_of s); try done. destruct (bs_orders s !! OrderPath oid) eqn:Ho;
      [|destruct ok]; injection Hs as <- <-; apply (catchup_frame _ s); try done; try no_elem; try by apply Hold.
    + intros key [?|?]%elem_of_cons; [done|by eapply not_elem_of_nil].
    + intros k o Hko. simpl in Hko. apply lookup_insert_Some in Hko as [[<- <-]|[_ Hko]]; [|by eapply Hold].
      exists false. apply elem_of_app. right. left.
  - exists dn. destruct (bs_phase_of s); try done. injection Hs as <- <-.
    apply (catchup_frame _ s); try done; [intros key [?|?]%elem_of_cons; [done|by eapply not_elem_of_nil]|by apply Hold].
  - exists dn. destruct (bs_phase_of s); try done. destruct (bs_signal s); [|done]. injection Hs as <- <-.
    apply (catchup_frame _ s); try done; [intros key [?|?]%elem_of_cons; [done|by eapply not_elem_of_nil]|by apply Hold].
  - exists dn. case_decide; [|done].
    assert (forall k o, delete (OrderPath oid) (bs_orders s) !! k = Some o -> monitored (effs ++ [BsStopped oid]) o) as Hd
      by (intros k o [_ Hko]%lookup_delete_Some; by eapply Hold).
    assert (forall key, BsPersist key ∉ [BsStopped oid]) as Hnp
      by (intros key [?|?]%elem_of_cons; [done|by eapply not_elem_of_nil]).
    destruct (bs_phase_of s); try done; injection Hs as <- <-; apply (catchup_frame _ s); try done;
      unfold drained; by case_decide.
  - exists dn. destruct (bs_phase_of s); try done. injection Hs as <- <-.
    apply (catchup_frame _ s); try done; try no_elem; unfold drained; case_decide; try done; by apply Hold.
Qed.

Lemma bs_run_catchup stored evs s effs : bs_run stored evs s effs -> exists dn, catchup_inv stored s effs dn.
Proof.
  induction 1 as [|evs s effs ev s' e Hr [dn IH] Hs]; [|by eapply catchup_step].
  exists []. split; simpl; try done; try no_elem.
  exists stored. split; [by left|]. split_and!; [constructor|done..].
Qed.

(** C22: the key from which the next start resumes is persisted only when the traversal is
    complete: it has gone, page by page, from the key it was started with (or from the
    beginning, when the node rejected that key) to the last page, which was asked for with
    the key persisted, and a monitor has been started for every order of every page, those
    of pages that waited in the channel too. So no order the traversal met is left without
    a monitor when the key moves on. The next start begins at that last page: open orders
    of the earlier pages are not looked at again, as the service intends (it resumes
    instead of traversing all open orders again), and the theorem does not say that a
    restart bids on them. *)
Theorem catchup_key_safe (stored : string) (evs : list bs_event) (s : bidService) (effs : list bs_effect)
    (key : string) :
  bs_run stored evs s effs -> BsPersist key ∈ effs ->
  exists k pages page,
    (k = stored \/ k = ""%string) /\ queued effs = pages ++ [(page, ""%string)] /\
    chained k (queued effs) "" /\ pg_key page = key /\
    forall p n oid, (p, n) ∈ queued effs -> oid ∈ pg_orders p -> exists c, BsMonitor oid c ∈ effs.
Proof.
  intros Hr Hin. apply bs_run_catchup in Hr as [dn []].
  destruct (ci_persist0 key Hin) as (k & pages & page & ? & ? & ? & ? & ? & _). by exists k, pages, page.
Qed.

End Catchup.

(** ** Shutdown *)

Section Drain.
Context `{HP : OrderPaths} `{HPL : !OrderPathLaws}.

Definition drain_inv (s : bidService) : Prop :=
  keyed OrderPath (bs_orders s) /\ match bs_phase_of s with BsDraining => bs_orders s <> ∅ | BsDone | BsWaiting => bs_orders s = ∅ | _ => True end.

Lemma drain_step s ev s' e : drain_inv s -> bs_step s ev = Some (s', e) -> drain_inv s'.
Proof.
  intros [Hk Hp] Hs. split; [by eapply bs_step_balanced|].
  destruct ev as [a| | |ok|oks per|oid ok| | |oid| ]; simpl in Hs.
  - by repeat (case_match; simplify_eq/=; try done).
  - by repeat (case_match; simplify_eq/=; try done).
  - by simplify_eq/=.
  - by destruct (bs_phase_of s) eqn:Hph; try done; destruct ok; simplify_eq/=; rewrite ?Hph.
  - destruct (bs_phase_of s) eqn:Hph; try done. destruct (bs_ordersch s) as [|page rest]; [done|].
    injection Hs as Hs. unfold processOrdersPage in Hs.
    pose proof (catchup_orders_spec (pg_orders page) oks (set_queue rest s) Hk) as Hc.
    destruct (catchup_orders _ _ _) as [s1 e1]. simplify_eq. destruct Hc as (_ & _ & _ & _ & _ & Hph' & _).
    simpl in Hph'. by rewrite Hph', Hph.
  - destruct (bs_phase_of s) eqn:Hph; try done. by repeat (case_match; simplify_eq/=; try done).
  - destruct (bs_phase_of s) eqn:Hph; try done. by simplify_eq; rewrite Hph.
  - destruct (bs_phase_of s) eqn:Hph; try done. by destruct (bs_signal s); simplify_eq/=.
  - case_decide; [|done]. destruct (bs_phase_of s) eqn:Hph; try done; simplify_eq; simpl; [by rewrite Hph|].
    unfold drained. case_decide; simpl; [done|]. by rewrite Hph.
  - destruct (bs_phase_of s) eqn:Hph; try done. simplify_eq. unfold drained. by case_decide.
Qed.

(** The reports of the monitors that are left. *)
Definition drain_events (s : bidService) : list bs_event := BsDrained <$> (map_to_list (bs_orders s)).*2.

(** A shutdown ends: once the service drains it is not stuck as long as a
    monitor is left, it starts no other one, and when the monitors it waits for have
    all reported, in any order, it is done. *)
Theorem drain_ends (stored : string) (evs : list bs_event) (s : bidService) (effs : list bs_effect)
    (order : list OrderID) :
  bs_run stored evs s effs -> bs_phase_of s = BsDraining ->
  order ≡ₚ (map_to_list (bs_orders s)).*2 ->
  exists s' effs', bs_run stored (evs ++ (BsDrained <$> order)) s' (effs ++ effs') /\
    bs_phase_of s' = BsDone /\ bs_orders s' = ∅ /\ effs' = BsStopped <$> order.
Proof.
  intros Hr Hph Hperm. assert (drain_inv s) as [Hk Hne].
  { clear Hph Hperm. induction Hr as [|evs s effs ev s' e Hr IH Hs]; [by split|by eapply drain_step]. }
  rewrite Hph in Hne. revert evs s effs Hr Hph Hperm Hk Hne.
  induction order as [|oid order IH]; intros evs s effs Hr Hph Hperm Hk Hne.
  { exfalso. apply Permutation_nil_l in Hperm. symmetry in Hperm. apply fmap_nil_inv, map_to_list_empty_iff in Hperm. done. }
  assert (bs_orders s !! OrderPath oid = Some oid) as Ho.
  { assert (oid ∈ (map_to_list (bs_orders s)).*2) as Hin by (rewrite <- Hperm; left).
    apply list_elem_of_fmap in Hin as ([k o] & -> & Hin%elem_of_map_to_list). simpl.
    by rewrite <- (Hk _ _ Hin). }
  set (s1 := set_orders (delete (OrderPath oid) (bs_orders s)) s).
  assert (bs_step s (BsDrained oid) = Some (drained s1, [BsStopped oid])) as Hs
    by (simpl; by rewrite decide_True, Hph by done).
  pose proof (bs_run_step _ _ _ _ _ _ _ Hr Hs) as Hr1.
  assert (order ≡ₚ (map_to_list (bs_orders s1)).*2) as Hperm1.
  { apply (Permutation_cons_inv (a := oid)). rewrite Hperm. simpl.
    rewrite <- (insert_delete_id (bs_orders s) (OrderPath oid) oid Ho) at 1.
    rewrite map_to_list_insert by apply lookup_delete_eq. done. }
  rewrite fmap_cons, cons_middle, app_assoc. unfold drained in Hr1. case_decide as Hempty.
  - simpl in Hempty, Hperm1. rewrite Hempty, map_to_list_empty in Hperm1.
    apply Permutation_nil_r in Hperm1 as ->. rewrite app_nil_r. eexists _, [BsStopped oid]. by split_and!.
  - destruct (IH _ _ _ Hr1 Hph Hperm1) as (s' & effs' & Hr' & ? & ? & ->); [by apply map_Forall_delete|done|].
    exists s', (BsStopped oid :: (BsStopped <$> order)). split_and!; try done.
    replace (effs ++ BsStopped oid :: _) with ((effs ++ [BsStopped oid]) ++ (BsStopped <$> order))
      by by rewrite <- app_assoc.
    done.
Qed.

End Drain.

(** ** Examples *)

Section Exec.
Context `{OrderPaths}.

Fixpoint bs_exec (s : bidService) (evs : list bs_event) : option (bidService * list bs_effect) :=
  match evs with
  | [] => Some (s, [])
  | ev :: evs =>
      match bs_step s ev with
      | None => None
      | Some (s1, e) => match bs_exec s1 evs with Some (s2, e2) => Some (s2, e ++ e2) | None => None end
      end
  end.

Lemma bs_exec_run stored evs0 s effs evs s' e :
  bs_run stored evs0 s effs -> bs_exec s evs = Some (s', e) -> bs_run stored (evs0 ++ evs) s' (effs ++ e).
Proof.
  revert evs0 s effs e. induction evs as [|ev evs IH]; intros evs0 s effs e Hr He; simpl in He.
  - injection He as <- <-. by rewrite !app_nil_r.
  - destruct (bs_step s ev) as [[s1 e1]|] eqn:Hs; [|done].
    destruct (bs_exec s1 evs) as [[s2 e2]|] eqn:H2; [|done]. injection He as <- <-.
    rewrite cons_middle, !app_assoc. eapply IH; [|done]. by econstructor.
Qed.

End Exec.

Module BidServiceExamples.

(** Orders by a number of their own. *)
#[local] Instance ex_paths : OrderPaths := {| OrderPath o := FormatUint (Zpos (encode o)) |}.
#[local] Instance ex_paths_laws : OrderPathLaws.
Proof. split. intros a b E. apply FormatUint_inj in E; [|lia..]. by apply encode_inj; injection E. Qed.

Definition ex_oid (n : Z) : OrderID := mkOrderID "akash1a" n 1 1.

(** Two pages from the stored key, one order announced meanwhile and on a page
    too. *)
Definition ex_events : list bs_event :=
  [BsAnswer (OrdersErr false); BsAnswer (OrdersOk [ex_oid 1; ex_oid 2] "k2"); BsOperatorsReady true; BsSend;
   BsOrderCreated (ex_oid 2) true; BsPage [] true; BsAnswer (OrdersOk [ex_oid 3] ""); BsSend; BsPage [] true].

Definition ex_final : option (bidService * list bs_effect) := bs_exec (bs_init "k1") ex_events.

Definition ex_expected : list bs_effect :=
  [BsQueued (mkPage [ex_oid 1; ex_oid 2] "k1" false) "k2"; BsMonitor (ex_oid 2) false; BsMonitor (ex_oid 1) true;
   BsQueued (mkPage [ex_oid 3] "k2" true) ""; BsMonitor (ex_oid 3) true; BsPersist "k2"].

Lemma ex_effects : snd <$> ex_final = Some ex_expected.
Proof. vm_compute. reflexivity. Qed.

Lemma ex_runs : exists s, bs_run "k1" ex_events s ex_expected.
Proof.
  pose proof ex_effects as He. unfold ex_final in He.
  destruct (bs_exec (bs_init "k1") ex_events) as [[s e]|] eqn:E; [|discriminate].
  simpl in He. injection He as ->. exists s.
  exact (bs_exec_run "k1" [] _ [] _ _ _ (bs_run_start "k1") E).
Qed.

Lemma one_monitor_per_order_witness :
  exists s, bs_run "k1" ex_events s ex_expected /\ bs_orders s !! OrderPath (ex_oid 2) = Some (ex_oid 2).
Proof.
  destruct ex_runs as [s Hr]. exists s. split; [exact Hr|].
  pose proof (one_monitor_per_order "k1" ex_events s ex_expected (ex_oid 2) Hr) as Hc.
  destruct (decide (bs_orders s !! OrderPath (ex_oid 2) = Some (ex_oid 2))) as [Ho|]; [exact Ho|].
  vm_compute in Hc. discriminate.
Defined.

Lemma catchup_key_safe_witness :
  exists s k pages page, bs_run "k1" ex_events s ex_expected /\
    queued ex_expected = pages ++ [(page, ""%string)] /\ chained k (queued ex_expected) "" /\
    pg_key page = "k2"%string.
Proof.
  destruct ex_runs as [s Hr].
  destruct (catchup_key_safe "k1" ex_events s ex_expected "k2" Hr) as (k & pages & page & _ & H1 & H2 & H3 & _).
  { do 5 right. left. }
  exists s, k, pages, page. split_and!; assumption.
Defined.

Definition ex_drain_events : list bs_event := [BsOperatorsReady true; BsOrderCreated (ex_oid 1) true; BsShutdown].

Lemma ex_draining :
  (fun s => (bs_phase_of s.1, (map_to_list (bs_orders s.1)).*2)) <$> bs_exec (bs_init "") ex_drain_events =
  Some (BsDraining, [ex_oid 1]).
Proof. vm_compute. reflexivity. Qed.

Lemma drain_ends_witness :
  exists s' effs', bs_run "" (ex_drain_events ++ [BsDrained (ex_oid 1)]) s' effs' /\ bs_phase_of s' = BsDone.
Proof.
  pose proof ex_draining as Hd.
  destruct (bs_exec (bs_init "") ex_drain_events) as [[s e]|] eqn:E; [|discriminate].
  simpl in Hd. injection Hd as Hph Ho.
  pose proof (bs_exec_run "" [] _ [] _ _ _ (bs_run_start "") E) as Hr.
  destruct (drain_ends "" ex_drain_events s e [ex_oid 1] Hr Hph) as (s' & effs' & Hr' & Hdone & _).
  { rewrite Ho. reflexivity. }
  exists s', (e ++ effs'). split; [exact Hr'|exact Hdone].
Defined.

End BidServiceExamples.
