(* ===== verification/ProviderAttrs.v ===== *)
(** * The provider's attributes and their signatures

    Model of [bidengine/provider_attributes.go]: the service that answers the orders'
    questions about the attributes of the provider and about those an auditor has
    signed. Signed attributes are cached for a time and within a size; the provider's
    own are fetched once and again when the chain announces an update, and handed out
    through a channel with room for one value. *)

From Stdlib Require Import ZArith Lia.
From stdpp Require Import base gmap list strings tactics.
From S2P Require Import Prelude Types.

(** ** State *)

Record AuditedProvider := mkAudited { ap_owner : string; ap_auditor : string; ap_attributes : Attributes }.
Abbreviation AuditedProviders := (list AuditedProvider).

(** An event of the bus: the chain's are sent as pointers, [byRef]. *)
Inductive audit_event :=
| EventTrustedAuditorCreated (owner auditor : string)
| EventTrustedAuditorDeleted (owner auditor : string)
| EventProviderUpdated (owner : string).

Record bus_event := mkBusEvent { be_event : audit_event; be_byRef : bool }.

Record providerAttrEntry := mkAttrEntry { pe_attr : AuditedProviders; pe_at : Z }.

(** The fetch of the provider's attributes: none, querying, or with its result
    received but its place not yet given back. *)
Inductive attr_fetch := AFIdle | AFBusy | AFDelivered.

(** Requests are known by number. [ps_inflight] are the fetches of signatures under
    way, [ps_waiting] the requests waiting for the attributes, [ps_timers] the
    retries that are due. *)
Record passState := mkPass {
  ps_data : gmap string providerAttrEntry;
  ps_inProgress : gset string;
  ps_pending : gmap string (list nat);
  ps_inflight : list string;
  ps_attr : Attributes;
  ps_currAttr : option Attributes;
  ps_pushAttr : bool;
  ps_fetchAttr : bool;
  ps_fetch : attr_fetch;
  ps_errors : nat;
  ps_timers : nat;
  ps_waiting : list nat
}.

Inductive ps_effect :=
| PsAnswer (id : nat) (v : AuditedProviders)
| PsFail (id : nat)
| PsAttr (id : nat) (v : Attributes)
| PsAttrFail (id : nat).

(** [PsFetched] carries the result of [fetch], in which an unknown provider is no
    data; [now] is the clock. *)
Inductive ps_event :=
| PsBus (ev : bus_event)
| PsRequest (id : nat) (auditor : string) (now : Z)
| PsFetched (auditor : string) (r : option AuditedProviders) (now : Z)
| PsFetchAttr
| PsAttrReq (id : nat)
| PsPush
| PsNewAttr (attr : Attributes)
| PsFetchReleased
| PsFetchFailed
| PsErrFetch
| PsTimer
| PsTake (id : nat)
| PsTimeout (id : nat).

(** ** Operations *)

Definition pass_init : passState := mkPass ∅ ∅ ∅ [] [] None false false AFIdle 0 0 [].

(** The [with_*] functions replace one field. *)
Definition with_data (d : gmap string providerAttrEntry) (s : passState) : passState :=
  mkPass d (ps_inProgress s) (ps_pending s) (ps_inflight s) (ps_attr s) (ps_currAttr s) (ps_pushAttr s)
    (ps_fetchAttr s) (ps_fetch s) (ps_errors s) (ps_timers s) (ps_waiting s).
Definition with_pending (p : gmap string (list nat)) (s : passState) : passState :=
  mkPass (ps_data s) (ps_inProgress s) p (ps_inflight s) (ps_attr s) (ps_currAttr s) (ps_pushAttr s)
    (ps_fetchAttr s) (ps_fetch s) (ps_errors s) (ps_timers s) (ps_waiting s).
Definition with_inflight (l : list string) (s : passState) : passState :=
  mkPass (ps_data s) (ps_inProgress s) (ps_pending s) l (ps_attr s) (ps_currAttr s) (ps_pushAttr s)
    (ps_fetchAttr s) (ps_fetch s) (ps_errors s) (ps_timers s) (ps_waiting s).
Definition with_attr (a : Attributes) (s : passState) : passState :=
  mkPass (ps_data s) (ps_inProgress s) (ps_pending s) (ps_inflight s) a (ps_currAttr s) (ps_pushAttr s)
    (ps_fetchAttr s) (ps_fetch s) (ps_errors s) (ps_timers s) (ps_waiting s).
Definition with_channels (curr : option Attributes) (push fetch : bool) (s : passState) : passState :=
  mkPass (ps_data s) (ps_inProgress s) (ps_pending s) (ps_inflight s) (ps_attr s) curr push fetch (ps_fetch s)
    (ps_errors s) (ps_timers s) (ps_waiting s).
Definition with_fetch (f : attr_fetch) (errors timers : nat) (s : passState) : passState :=
  mkPass (ps_data s) (ps_inProgress s) (ps_pending s) (ps_inflight s) (ps_attr s) (ps_currAttr s) (ps_pushAttr s)
    (ps_fetchAttr s) f errors timers (ps_waiting s).
Definition with_waiting (w : list nat) (s : passState) : passState :=
  mkPass (ps_data s) (ps_inProgress s) (ps_pending s) (ps_inflight s) (ps_attr s) (ps_currAttr s) (ps_pushAttr s)
    (ps_fetchAttr s) (ps_fetch s) (ps_errors s) (ps_timers s) w.

Section Pass.
Context `{GoRange} (providerAddr : string) (ttl : Z).

Definition purgeAuditor (auditor : string) (s : passState) : passState :=
  with_data (delete auditor (ps_data s)) s.

(** Sends on channels with room for one, dropped when it is taken. *)
Definition fetchAttributes (s : passState) : passState :=
  with_channels (ps_currAttr s) (ps_pushAttr s) true s.

Definition pushCurrAttributes (s : passState) : passState :=
  with_channels (ps_currAttr s) true (ps_fetchAttr s) s.

(** The type switch names the event types themselves, not pointers to them. *)
Definition pass_handleEvent (ev : bus_event) (s : passState) : passState :=
  if be_byRef ev then s
  else match be_event ev with
       | EventTrustedAuditorCreated owner auditor | EventTrustedAuditorDeleted owner auditor =>
           if String.eqb owner providerAddr then purgeAuditor auditor s else s
       | EventProviderUpdated owner => if String.eqb owner providerAddr then fetchAttributes s else s
       end.

Definition failAllPending (auditor : string) (s : passState) : passState * list ps_effect :=
  (with_pending (delete auditor (ps_pending s)) s,
   map PsFail (default [] (ps_pending s !! auditor))).

Definition providerAttrSize (entries : AuditedProviders) : Z :=
  sumZ (fun x => Z.of_nat (length (ap_attributes x))) entries.

Definition maxEntries : Z := 50000.

Definition expired (now : Z) (e : providerAttrEntry) : bool := (ttl <? now - pe_at e)%Z.

(** The entries taken off, in the order of the map, until their size reaches the
    target. *)
Fixpoint prune_entries (target size : Z) (l : list (string * providerAttrEntry)) : list string :=
  match l with
  | [] => []
  | (auditor, e) :: rest =>
      let size := (size + providerAttrSize (pe_attr e))%Z in
      auditor :: if (target <=? size)%Z then [] else prune_entries target size rest
  end.

Definition delete_all (keys : list string) (d : gmap string providerAttrEntry) : gmap string providerAttrEntry :=
  foldl (fun d k => delete k d) d keys.

Definition cache_size (l : list (string * providerAttrEntry)) : Z :=
  sumZ (fun kv => providerAttrSize (pe_attr kv.2)) l.

Definition trimCache (now : Z) (d : gmap string providerAttrEntry) : gmap string providerAttrEntry :=
  let entries := range_map d in
  let size := cache_size (filter (fun kv => expired now kv.2 = false) entries) in
  let d := delete_all (filter (fun kv => expired now kv.2 = true) entries).*1 d in
  if (maxEntries <? size)%Z then delete_all (prune_entries (maxEntries / 2) 0 (range_map d)) d else d.

Definition completeAllPending (auditor : string) (result : AuditedProviders) (now : Z) (s : passState)
    : passState * list ps_effect :=
  (with_data (trimCache now (<[auditor := mkAttrEntry result now]> (ps_data s)))
     (with_pending (delete auditor (ps_pending s)) s),
   map (fun id => PsAnswer id result) (default [] (ps_pending s !! auditor))).

(** A fetch starts for every request that is not answered from the cache: nothing
    ever enters [ps_inProgress]. *)
Definition maybeStart (auditor : string) (s : passState) : passState :=
  match default [] (ps_pending s !! auditor) with
  | [] => s
  | _ => if decide (auditor ∈ ps_inProgress s) then s else with_inflight (ps_inflight s ++ [auditor]) s
  end.

Definition pass_addRequest (id : nat) (auditor : string) (now : Z) (s : passState)
    : passState * list ps_effect * bool :=
  let add := (with_pending (<[auditor := default [] (ps_pending s !! auditor) ++ [id]]> (ps_pending s)) s, [], true) in
  match ps_data s !! auditor with
  | Some entry => if (now - pe_at entry <? ttl)%Z then (s, [PsAnswer id (pe_attr entry)], false) else add
  | None => add
  end.

Definition tryFetchAttributes (s : passState) : passState :=
  match ps_fetch s with
  | AFIdle => with_fetch AFBusy (ps_errors s) (ps_timers s) s
  | _ => s
  end.

(** One turn of the loop or of one of the goroutines it starts; [None] when it
    cannot happen. *)
Definition pass_step (s : passState) (ev : ps_event) : option (passState * list ps_effect) :=
  match ev with
  | PsBus ev => Some (pass_handleEvent ev s, [])
  | PsRequest id auditor now =>
      let '(s, e, start) := pass_addRequest id auditor now s in
      Some (if (start : bool) then maybeStart auditor s else s, e)
  | PsFetched auditor r now =>
      match list_find (eq auditor) (ps_inflight s) with
      | None => None
      | Some (i, _) =>
          let s := with_inflight (remove_at i (ps_inflight s)) s in
          Some (match r with
                | None => failAllPending auditor s
                | Some v => completeAllPending auditor v now s
                end)
      end
  | PsFetchAttr =>
      if ps_fetchAttr s
      then Some (tryFetchAttributes (with_channels (ps_currAttr s) (ps_pushAttr s) false s), [])
      else None
  | PsAttrReq id => Some (with_waiting (ps_waiting s ++ [id]) s, [])
  | PsPush =>
      if ps_pushAttr s
      then Some (with_channels (match ps_currAttr s with None => Some (ps_attr s) | c => c end) false
                   (ps_fetchAttr s) s, [])
      else None
  | PsNewAttr attr =>
      match ps_fetch s with
      | AFBusy => Some (with_fetch AFDelivered (ps_errors s) (ps_timers s) (pushCurrAttributes (with_attr attr s)), [])
      | _ => None
      end
  | PsFetchReleased =>
      match ps_fetch s with
      | AFDelivered => Some (with_fetch AFIdle (ps_errors s) (ps_timers s) s, [])
      | _ => None
      end
  | PsFetchFailed =>
      match ps_fetch s with
      | AFBusy => Some (with_fetch AFIdle (S (ps_errors s)) (ps_timers s) s, [])
      | _ => None
      end
  | PsErrFetch =>
      match ps_errors s with
      | O => None
      | S n => Some (with_fetch (ps_fetch s) n (S (ps_timers s)) s, [])
      end
  | PsTimer =>
      match ps_timers s with
      | O => None
      | S n => Some (fetchAttributes (with_fetch (ps_fetch s) (ps_errors s) n s), [])
      end
  | PsTake id =>
      match list_find (eq id) (ps_waiting s), ps_currAttr s with
      | Some (i, _), Some attr =>
          Some (pushCurrAttributes (with_waiting (remove_at i (ps_waiting s))
                  (with_channels None (ps_pushAttr s) (ps_fetchAttr s) s)), [PsAttr id attr])
      | _, _ => None
      end
  | PsTimeout id =>
      match list_find (eq id) (ps_waiting s) with
      | Some (i, _) => Some (with_waiting (remove_at i (ps_waiting s)) s, [PsAttrFail id])
      | None => None
      end
  end.

(** The histories of the service: it starts by asking for the attributes. *)
Inductive pass_run : list ps_event -> passState -> list ps_effect -> Prop :=
| pass_start : pass_run [] (fetchAttributes pass_init) []
| pass_more evs s effs ev s' e :
    pass_run evs s effs -> pass_step s ev = Some (s', e) -> pass_run (evs ++ [ev]) s' (effs ++ e).

End Pass.

(** ** Every request is settled *)

Definition requested_of (ev : ps_event) : option nat :=
  match ev with PsRequest id _ _ => Some id | _ => None end.

Definition settled_of (e : ps_effect) : option nat :=
  match e with PsAnswer id _ | PsFail id => Some id | _ => None end.

Definition pending_ids (p : gmap string (list nat)) : list nat := map_to_list p ≫= snd.

Lemma pending_ids_delete p auditor :
  pending_ids p ≡ₚ default [] (p !! auditor) ++ pending_ids (delete auditor p).
Proof.
  unfold pending_ids. destruct (p !! auditor) as [l|] eqn:Hl; simpl.
  - by rewrite <- (map_to_list_delete _ _ _ Hl).
  - by rewrite delete_id.
Qed.

Lemma pending_ids_insert p auditor l :
  pending_ids (<[auditor := l]> p) ≡ₚ l ++ pending_ids (delete auditor p).
Proof.
  unfold pending_ids. rewrite <- insert_delete_eq. by rewrite map_to_list_insert by apply lookup_delete_eq.
Qed.

Lemma settled_answers ids v : omap settled_of (map (fun id => PsAnswer id v) ids) = ids.
Proof. induction ids as [|id ids IH]; [done|]. simpl. f_equal. exact IH. Qed.

Lemma settled_fails ids : omap settled_of (map PsFail ids) = ids.
Proof. induction ids as [|id ids IH]; [done|]. simpl. f_equal. exact IH. Qed.

Section Requests.
Context `{GoRange} (providerAddr : string) (ttl : Z).

(** The part of the state the attribute requests do not touch. *)
Definition same_requests (s s' : passState) : Prop :=
  ps_pending s' = ps_pending s /\ ps_inflight s' = ps_inflight s /\ ps_inProgress s' = ps_inProgress s.

Lemma pass_step_other s ev s' e :
  pass_step providerAddr ttl s ev = Some (s', e) ->
  match ev with PsRequest _ _ _ | PsFetched _ _ _ => True
  | _ => same_requests s s' /\ omap settled_of e = [] /\ requested_of ev = None end.
Proof.
  destruct ev; simpl; try done; intros Hs; unfold pass_handleEvent, tryFetchAttributes in Hs;
    repeat (case_match; simplify_eq/=; try done); by simplify_eq.
Qed.

(** No fetch is marked in progress, and each auditor with a request pending has a
    fetch under way. *)
Definition fetching (s : passState) : Prop :=
  ps_inProgress s = ∅ /\
  map_Forall (fun auditor ids => ids <> [] /\ auditor ∈ ps_inflight s) (ps_pending s).

Lemma elem_of_remove_at {A} (l : list A) i x y : l !! i = Some y -> x ∈ l -> x <> y -> x ∈ remove_at i l.
Proof.
  intros Hi Hx Hne. rewrite <- (take_drop_middle _ _ _ Hi) in Hx. unfold remove_at.
  apply elem_of_app in Hx as [Hx|Hx]; apply elem_of_app; [by left|].
  apply elem_of_cons in Hx as [->|Hx]; [done|by right].
Qed.

Lemma addRequest_spec id auditor now s :
  fetching s ->
  let '(s1, e, start) := pass_addRequest ttl id auditor now s in
  let s' := if (start : bool) then maybeStart auditor s1 else s1 in
  fetching s' /\ omap settled_of e ++ pending_ids (ps_pending s') ≡ₚ id :: pending_ids (ps_pending s).
Proof.
  intros [Hip Hf]. unfold pass_addRequest.
  set (add := (with_pending _ s, [] : list ps_effect, true)).
  assert (let '(s1, e, start) := add in let s' := if (start : bool) then maybeStart auditor s1 else s1 in
    fetching s' /\ omap settled_of e ++ pending_ids (ps_pending s') ≡ₚ id :: pending_ids (ps_pending s)) as Hadd.
  { unfold add, maybeStart. simpl. rewrite lookup_insert_eq. simpl.
    destruct (default [] (ps_pending s !! auditor) ++ [id]) as [|x l] eqn:Hl; [by destruct (default _ _)|].
    rewrite decide_False by (rewrite Hip; set_solver). simpl. split; [split; [done|]|].
    - apply map_Forall_insert_2; [split; [done|set_solver]|].
      eapply map_Forall_impl; [exact Hf|]. intros a ids [? ?]. split; [done|set_solver].
    - rewrite pending_ids_insert, <- Hl, (pending_ids_delete (ps_pending s) auditor).
      by rewrite <- app_assoc, Permutation_middle. }
  destruct (ps_data s !! auditor); [|exact Hadd]. destruct (_ <? _)%Z; [done|exact Hadd].
Qed.

Lemma pass_step_settled s ev s' e :
  fetching s -> pass_step providerAddr ttl s ev = Some (s', e) ->
  fetching s' /\
  omap settled_of e ++ pending_ids (ps_pending s') ≡ₚ omap requested_of [ev] ++ pending_ids (ps_pending s).
Proof.
  intros Hf Hs. pose proof (pass_step_other s ev s' e Hs) as Ho.
  destruct ev as [| id auditor now | auditor r now | | | | | | | | | |];
    try (match type of Ho with True => fail 1 | _ => idtac end;
         destruct Ho as [(Hp & Hi & Hg) [He Hr]]; unfold fetching; simpl omap; rewrite Hp, Hi, Hg, He; by simpl).
  - simpl in Hs. pose proof (addRequest_spec id auditor now s Hf) as Ha.
    destruct (pass_addRequest ttl id auditor now s) as [[s1 e1] start]. by injection Hs as <- <-.
  - simpl in Hs. destruct (list_find (eq auditor) (ps_inflight s)) as [[i x]|] eqn:Hl; [|done].
    apply list_find_Some in Hl as (Hi & <- & _). destruct Hf as [Hip Hf].
    assert (map_Forall (fun a ids => ids <> [] /\ a ∈ remove_at i (ps_inflight s)) (delete auditor (ps_pending s))) as Hd.
    { intros a ids [Hne Ha]%lookup_delete_Some. destruct (Hf a ids Ha). split; [done|].
      eapply elem_of_remove_at; [done..|]. done. }
    destruct r as [v|]; injection Hs as <- <-; simpl; (split; [by split|]);
      rewrite ?settled_answers, ?settled_fails; by rewrite <- pending_ids_delete.
Qed.

(** C36: every question about signed attributes is answered once, and none is
    forgotten: the requests made so far are those answered or refused and those
    pending; each auditor with a pending request has a fetch under way, and the report of a fetch
    leaves none of its auditor's requests pending. Stated for a service that is not shut down. *)
Theorem attr_requests_settled (evs : list ps_event) (s : passState) (effs : list ps_effect) :
  pass_run providerAddr ttl evs s effs ->
  omap settled_of effs ++ pending_ids (ps_pending s) ≡ₚ omap requested_of evs /\
  (forall auditor ids, ps_pending s !! auditor = Some ids -> auditor ∈ ps_inflight s) /\
  (forall auditor r now s' e, pass_step providerAddr ttl s (PsFetched auditor r now) = Some (s', e) ->
     ps_pending s' !! auditor = None).
Proof.
  intros Hr. assert (fetching s /\ omap settled_of effs ++ pending_ids (ps_pending s) ≡ₚ omap requested_of evs)
    as [Hf Hp].
  { induction Hr as [|evs s effs ev s' e Hr [Hf IH] Hs]; [done|].
    destruct (pass_step_settled s ev s' e Hf Hs) as [Hf' Hstep]. split; [done|].
    rewrite !omap_app, <- app_assoc, Hstep, <- IH. simpl. destruct (requested_of ev); simpl;
      [by rewrite <- Permutation_middle, <- Permutation_cons_append|by rewrite app_nil_r]. }
  split; [done|]. split; [intros a ids Ha; by destruct (proj2 Hf a ids Ha)|].
  intros auditor r now s' e Hs. simpl in Hs. case_match; [|done]. case_match. injection Hs as Hs.
  destruct r; unfold completeAllPending, failAllPending in Hs; injection Hs as <- _; apply lookup_delete_eq.
Qed.

End Requests.

(** ** What is answered *)

Lemma cache_delete_lookup keys d k e : delete_all keys d !! k = Some e -> d !! k = Some e /\ k ∉ keys.
Proof.
  unfold delete_all. revert d. induction keys as [|a keys IH]; intros d; simpl; [intros ?; split; [done|no_elem]|].
  intros Hk. destruct (IH _ Hk) as [H1 H2]. apply lookup_delete_Some in H1 as [Hne H1]. split; [done|].
  intros [->|?]%elem_of_cons; done.
Qed.

Lemma trimCache_lookup `{GoRange} ttl now d k e : trimCache ttl now d !! k = Some e -> d !! k = Some e.
Proof.
  unfold trimCache. intros Hk. destruct (_ <? _)%Z; repeat (apply cache_delete_lookup in Hk as [Hk _]); done.
Qed.

Section Answers.
Context `{GoRange} (providerAddr : string) (ttl : Z).

Record provenance (evs : list ps_event) (s : passState) : Prop := {
  pv_data : forall auditor e, ps_data s !! auditor = Some e -> PsFetched auditor (Some (pe_attr e)) (pe_at e) ∈ evs;
  pv_pending : forall auditor ids id, ps_pending s !! auditor = Some ids -> id ∈ ids ->
    exists t, PsRequest id auditor t ∈ evs
}.

Lemma pass_step_data s ev s' e :
  pass_step providerAddr ttl s ev = Some (s', e) ->
  match ev with PsFetched _ _ _ => True
  | _ => forall auditor x, ps_data s' !! auditor = Some x -> ps_data s !! auditor = Some x end.
Proof.
  destruct ev as [[[]]| id auditor now | | | | | | | | | | |]; simpl; try done; intros Hs.
  all: unfold pass_handleEvent, tryFetchAttributes, pass_addRequest, maybeStart in Hs; simpl in Hs.
  all: repeat (case_match; simplify_eq/=; try done).
  all: simplify_eq; try done; intros a x Ha; simpl in Ha; try by apply lookup_delete_Some in Ha as [_ Ha].
Qed.

Lemma pass_step_provenance evs s ev s' e :
  provenance evs s -> pass_step providerAddr ttl s ev = Some (s', e) -> provenance (evs ++ [ev]) s'.
Proof.
  intros [Hd Hp] Hs. pose proof (pass_step_other providerAddr ttl s ev s' e Hs) as Ho.
  pose proof (pass_step_data s ev s' e Hs) as Hda.
  assert (forall a ids id, ps_pending s !! a = Some ids -> id ∈ ids -> exists t, PsRequest id a t ∈ evs ++ [ev]) as Hp'.
  { intros a ids id Ha Hid. destruct (Hp a ids id Ha Hid) as [t Ht]. exists t. apply elem_of_app. by left. }
  assert (forall a x, ps_data s !! a = Some x -> PsFetched a (Some (pe_attr x)) (pe_at x) ∈ evs ++ [ev]) as Hd'
    by (intros a x Ha; apply elem_of_app; left; by apply Hd).
  destruct ev as [| id auditor now | auditor r now | | | | | | | | | |];
    try (match type of Ho with True => fail 1 | _ => idtac end; destruct Ho as [(Hpe & _) _]; split;
         [intros a x Ha; by apply Hd', Hda|by rewrite Hpe]).
  - split; [intros a x Ha; by apply Hd', Hda|]. simpl in Hs. unfold pass_addRequest, maybeStart in Hs.
    intros a ids id' Ha Hid.
    assert (ps_pending s' = ps_pending s \/
      ps_pending s' = <[auditor := default [] (ps_pending s !! auditor) ++ [id]]> (ps_pending s)) as [E|E]
      by (repeat (case_match; simplify_eq/=; try (by left); try (by right))).
    + rewrite E in Ha. by eapply Hp'.
    + rewrite E in Ha. apply lookup_insert_Some in Ha as [[<- <-]|[_ Ha]]; [|by eapply Hp'].
      apply elem_of_app in Hid as [Hid|Hid].
      * destruct (ps_pending s !! auditor) as [l|] eqn:Hl; [by eapply Hp'|by apply not_elem_of_nil in Hid].
      * apply list_elem_of_singleton in Hid as ->. exists now. apply elem_of_app. right. left.
  - simpl in Hs. destruct (list_find _ _) as [[i x]|]; [|done]. destruct r as [v|]; injection Hs as <- <-; split; simpl.
    + intros a x' Ha. apply trimCache_lookup, lookup_insert_Some in Ha as [[<- <-]|[_ Ha]]; [|by apply Hd'].
      apply elem_of_app. right. left.
    + intros a ids id [_ Ha]%lookup_delete_Some. by eapply Hp'.
    + done.
    + intros a ids id [_ Ha]%lookup_delete_Some. by eapply Hp'.
Qed.

Lemma pass_run_provenance evs s effs : pass_run providerAddr ttl evs s effs -> provenance evs s.
Proof.
  induction 1 as [|evs s effs ev s' e Hr IH Hs]; [|by eapply pass_step_provenance].
  split; simpl; intros; by rewrite lookup_empty in *.
Qed.

(** Answers are genuine and fresh: what a request is answered is what the chain
    returned for the auditor it asked about, either by a fetch that reports after the
    request was made, or from the cache, by a fetch less than [ttl] before it. *)
Theorem attr_answers_fresh (evs : list ps_event) (s s' : passState) (effs e : list ps_effect) (ev : ps_event)
    (id : nat) (v : AuditedProviders) :
  pass_run providerAddr ttl evs s effs -> pass_step providerAddr ttl s ev = Some (s', e) -> PsAnswer id v ∈ e ->
  exists auditor t now,
    (ev = PsRequest id auditor now /\ PsFetched auditor (Some v) t ∈ evs /\ (now - t < ttl)%Z) \/
    (ev = PsFetched auditor (Some v) now /\ PsRequest id auditor t ∈ evs).
Proof.
  intros Hr Hs Hin. apply pass_run_provenance in Hr as [Hd Hp].
  destruct ev as [| id' auditor now | auditor r now | | | | | | | | | |]; simpl in Hs;
    try (exfalso; repeat (case_match; simplify_eq/=; try done); set_solver).
  - unfold pass_addRequest in Hs. destruct (ps_data s !! auditor) as [x|] eqn:Hx.
    + destruct (now - pe_at x <? ttl)%Z eqn:Hlt; simplify_eq; [|by apply not_elem_of_nil in Hin].
      apply list_elem_of_singleton in Hin. simplify_eq. exists auditor, (pe_at x), now. left. split_and!; [done| |lia].
      by apply Hd.
    + simplify_eq. by apply not_elem_of_nil in Hin.
  - destruct (list_find _ _) as [[i x]|]; [|done]. destruct r as [w|]; injection Hs as _ <-; simpl in Hin.
    + apply list_elem_of_fmap in Hin as (id' & [= -> ->] & Hid).
      destruct (ps_pending s !! auditor) as [ids|] eqn:Hl; [|by apply not_elem_of_nil in Hid].
      destruct (Hp _ _ _ Hl Hid) as [t Ht]. exists auditor, t, now. by right.
    + apply list_elem_of_fmap in Hin as (id' & ? & _). done.
Qed.

End Answers.

(** ** The size of the cache *)

Definition cache_total (d : gmap string providerAttrEntry) : Z := cache_size (map_to_list d).

Lemma providerAttrSize_nonneg l : (0 <= providerAttrSize l)%Z.
Proof. apply sumZ_nonneg. intros; lia. Qed.

#[local] Hint Resolve providerAttrSize_nonneg : core.

Lemma cache_size_perm l k : l ≡ₚ k -> cache_size l = cache_size k.
Proof. unfold cache_size, sumZ. induction 1; simpl; lia. Qed.

Lemma cache_total_delete d k :
  (cache_total d = match d !! k with Some e => providerAttrSize (pe_attr e) | None => 0 end
                   + cache_total (delete k d))%Z.
Proof.
  unfold cache_total. destruct (d !! k) as [e|] eqn:Hk.
  - by rewrite <- (cache_size_perm _ _ (map_to_list_delete _ _ _ Hk)).
  - by rewrite delete_id.
Qed.

Lemma cache_total_delete_le d k : (cache_total (delete k d) <= cache_total d)%Z.
Proof. rewrite (cache_total_delete d k). destruct (d !! k) as [e|]; [pose proof (providerAttrSize_nonneg (pe_attr e))|]; lia. Qed.

Lemma cache_total_insert d k e :
  (cache_total (<[k := e]> d) <= providerAttrSize (pe_attr e) + cache_total d)%Z.
Proof.
  rewrite (cache_total_delete (<[k := e]> d) k), lookup_insert_eq, delete_insert_eq.
  pose proof (cache_total_delete_le d k). lia.
Qed.

Lemma cache_total_delete_all keys d : (cache_total (delete_all keys d) <= cache_total d)%Z.
Proof.
  revert d. unfold delete_all. induction keys as [|k keys IH]; intros d; simpl; [lia|].
  pose proof (IH (delete k d)). pose proof (cache_total_delete_le d k). lia.
Qed.

Lemma cache_total_nonneg d : (0 <= cache_total d)%Z.
Proof. apply sumZ_nonneg. intros; apply providerAttrSize_nonneg. Qed.

(** Pruning takes the target off, or everything. *)
Lemma prune_entries_total target size l d :
  NoDup l.*1 -> (forall k e, (k, e) ∈ l -> d !! k = Some e) ->
  (cache_total d = cache_size l)%Z -> (size < target)%Z ->
  (cache_total (delete_all (prune_entries target size l) d) <= Z.max 0 (cache_total d - (target - size)))%Z.
Proof.
  unfold delete_all. revert size d. induction l as [|[k e] l IH]; intros size d Hnd Hl Ht Hsz; simpl.
  - rewrite Ht. unfold cache_size. simpl. lia.
  - cbn [fmap list_fmap fst] in Hnd. apply list.NoDup_cons in Hnd as [Hk Hnd].
    assert (d !! k = Some e) as Hke by (apply Hl; left).
    pose proof (cache_total_delete d k) as Hd. rewrite Hke in Hd.
    assert (cache_size ((k, e) :: l) = providerAttrSize (pe_attr e) + cache_size l)%Z as Hc by done.
    destruct (Z.leb_spec target (size + providerAttrSize (pe_attr e))); simpl; [lia|].
    etrans; [apply IH; [done| |lia|done]|lia].
    intros k' e' Hin. rewrite lookup_delete_ne; [by apply Hl; right|]. intros <-. apply Hk.
    apply list_elem_of_fmap. by exists (k, e').
Qed.

Section Cache.
Context `{GoRange} (providerAddr : string) (ttl : Z).

Lemma delete_all_notin keys d k : k ∉ keys -> delete_all keys d !! k = d !! k.
Proof.
  unfold delete_all. revert d. induction keys as [|a keys IH]; intros d Hk; simpl; [done|].
  apply not_elem_of_cons in Hk as [Hne Hk]. rewrite IH by done. by apply lookup_delete_ne.
Qed.

(** After the expired entries are removed, exactly the counted ones are left. *)
Lemma unexpired_total now d :
  cache_total (delete_all (filter (fun kv => expired ttl now kv.2 = true) (range_map d)).*1 d) =
  cache_size (filter (fun kv => expired ttl now kv.2 = false) (range_map d)).
Proof.
  set (keys := (filter _ (range_map d)).*1). apply cache_size_perm.
  apply NoDup_Permutation; [apply NoDup_map_to_list|apply list.NoDup_filter; rewrite range_map_perm; apply NoDup_map_to_list|].
  intros [k e]. rewrite elem_of_map_to_list, list_elem_of_filter, elem_of_range_map. simpl. split.
  - intros [Hd Hk]%cache_delete_lookup. split; [|done]. destruct (expired ttl now e) eqn:He; [|done].
    exfalso. apply Hk, list_elem_of_fmap. exists (k, e). split; [done|]. by rewrite list_elem_of_filter, elem_of_range_map.
  - intros [He Hd]. rewrite delete_all_notin; [done|]. intros Hin.
    apply list_elem_of_fmap in Hin as ([k' e'] & -> & Hin). rewrite list_elem_of_filter, elem_of_range_map in Hin.
    simpl in Hin, Hd. destruct Hin as [He' Hd']. rewrite Hd in Hd'. simplify_eq. by rewrite He in He'.
Qed.

Lemma trimCache_total now d :
  (cache_total (trimCache ttl now d) <= Z.max maxEntries (cache_total d - maxEntries / 2))%Z.
Proof.
  unfold trimCache. set (d1 := delete_all _ d). pose proof (unexpired_total now d) as Hu. fold d1 in Hu.
  pose proof (cache_total_delete_all (filter (fun kv => expired ttl now kv.2 = true) (range_map d)).*1 d) as Hle.
  fold d1 in Hle. rewrite <- Hu. destruct (Z.ltb_spec maxEntries (cache_total d1)); [|lia].
  etrans; [apply prune_entries_total|].
  - apply range_map_keys.
  - intros k e. by rewrite elem_of_range_map.
  - apply cache_size_perm. symmetry. apply range_map_perm.
  - by vm_compute.
  - unfold maxEntries in *. change (50000 / 2)%Z with 25000%Z in *. lia.
Qed.

Lemma pass_step_cache s ev s' e :
  pass_step providerAddr ttl s ev = Some (s', e) ->
  (forall auditor v now, ev = PsFetched auditor (Some v) now -> providerAttrSize v <= maxEntries / 2)%Z ->
  (cache_total (ps_data s) <= maxEntries)%Z -> (cache_total (ps_data s') <= maxEntries)%Z.
Proof.
  intros Hs Hsz Hc.
  assert (ps_data s' = ps_data s \/ (exists k, ps_data s' = delete k (ps_data s)) \/
    exists auditor v now, ev = PsFetched auditor (Some v) now /\
      ps_data s' = trimCache ttl now (<[auditor := mkAttrEntry v now]> (ps_data s))) as [->|[[k ->]|Hf]].
  { destruct ev as [[[]]| | auditor [v|] now | | | | | | | | | |]; simpl in Hs;
      unfold pass_handleEvent, tryFetchAttributes, pass_addRequest, maybeStart, completeAllPending, failAllPending in Hs;
      simpl in Hs; repeat (case_match; simplify_eq/=; try (by left)); simplify_eq; try (by left); right;
      first [left; by eexists|right; by eexists _, _, _]. }
  - done.
  - pose proof (cache_total_delete_le (ps_data s) k). lia.
  - destruct Hf as (auditor & v & now & -> & ->). specialize (Hsz _ _ _ eq_refl).
    pose proof (trimCache_total now (<[auditor := mkAttrEntry v now]> (ps_data s))).
    pose proof (cache_total_insert (ps_data s) auditor (mkAttrEntry v now)). simpl in *.
    unfold maxEntries in *. change (50000 / 2)%Z with 25000%Z in *. lia.
Qed.

(** The cache is bounded: as long as no auditor has signed more than 25000
    attributes of the provider, the cache never holds more than 50000 attributes,
    whatever entries the pruning picks. *)
Theorem attr_cache_bounded (evs : list ps_event) (s : passState) (effs : list ps_effect) :
  pass_run providerAddr ttl evs s effs ->
  (forall auditor v now, PsFetched auditor (Some v) now ∈ evs -> providerAttrSize v <= 25000)%Z ->
  (cache_total (ps_data s) <= 50000)%Z.
Proof.
  induction 1 as [|evs s effs ev s' e Hr IH Hs]; intros Hsz; [by vm_compute|].
  eapply pass_step_cache; [exact Hs| |apply IH].
  - intros auditor v now ->. apply (Hsz auditor v now), elem_of_app. right. left.
  - intros auditor v now Hin. apply (Hsz auditor v now), elem_of_app. by left.
Qed.

End Cache.

(** ** The provider's own attributes *)

Definition delivered (ev : ps_event) : bool := match ev with PsNewAttr _ => true | _ => false end.

Section Attributes.
Context `{GoRange} (providerAddr : string) (ttl : Z).

(** What is under way to fetch the attributes: a signal, a query, an error or a
    retry. *)
Definition fetch_tokens (s : passState) : nat :=
  (if ps_fetchAttr s then 1 else 0) + match ps_fetch s with AFBusy => 1 | _ => 0 end + ps_errors s + ps_timers s.

(** What the channel holds, and what is to be put on it, was delivered. *)
Record attr_inv (evs : list ps_event) (s : passState) : Prop := {
  ai_progress : countb delivered evs = 0%nat -> (1 <= fetch_tokens s)%nat /\ ps_fetch s <> AFDelivered;
  ai_attr : countb delivered evs <> 0%nat -> PsNewAttr (ps_attr s) ∈ evs;
  ai_curr : forall v, ps_currAttr s = Some v -> PsNewAttr v ∈ evs;
  ai_push : ps_pushAttr s = true -> countb delivered evs <> 0%nat
}.

(** The events that leave all of that alone. *)
Lemma attr_inv_frame evs ev s s' :
  attr_inv evs s -> delivered ev = false ->
  (ps_fetch s <> AFDelivered -> 1 <= fetch_tokens s -> 1 <= fetch_tokens s')%nat -> (ps_fetch s' = AFDelivered -> ps_fetch s = AFDelivered) ->
  ps_attr s' = ps_attr s ->
  (ps_currAttr s' = ps_currAttr s \/ ps_currAttr s' = None) ->
  (ps_pushAttr s' = true -> ps_pushAttr s = true \/ exists v, ps_currAttr s = Some v) ->
  attr_inv (evs ++ [ev]) s'.
Proof.
  intros [Hp Ha Hc Hpu] Hev Ht Hd Hat Hcu Hpu'.
  assert (countb delivered (evs ++ [ev]) = countb delivered evs) as Hn
    by (rewrite countb_app; unfold countb at 2; simpl; rewrite Hev; simpl; lia).
  assert (forall v, PsNewAttr v ∈ evs -> PsNewAttr v ∈ evs ++ [ev]) as Hmore by (intros; apply elem_of_app; by left).
  split; rewrite ?Hn.
  - intros H0. destruct (Hp H0). split; auto.
  - intros H0. rewrite Hat. by apply Hmore, Ha.
  - intros v Hv. destruct Hcu as [E|E]; rewrite E in Hv; [by apply Hmore, Hc|done].
  - intros H1. destruct (Hpu' H1) as [H2|[v H2]]; [by apply Hpu|]. apply Hc in H2.
    apply list_elem_of_split in H2 as (l1 & l2 & ->). rewrite countb_app. unfold countb at 2. simpl. lia.
Qed.

Lemma pass_step_attr evs s ev s' e :
  attr_inv evs s -> pass_step providerAddr ttl s ev = Some (s', e) -> attr_inv (evs ++ [ev]) s'.
Proof.
  intros Hi Hs. destruct ev as [[[] []]| id auditor now | auditor [v|] now | | | | attr | | | | | |]; simpl in Hs;
    unfold pass_handleEvent, tryFetchAttributes, pass_addRequest, maybeStart, completeAllPending, failAllPending in Hs;
    simpl in Hs.
  all: try (repeat (case_match; simplify_eq/=; try done); simplify_eq; by (apply (attr_inv_frame evs _ _ _ Hi);
    unfold fetch_tokens; simpl; try done; auto; repeat case_match; simplify_eq/=; try done; try lia; eauto)).
  - destruct (ps_pushAttr s) eqn:Hpu; [|done]. injection Hs as <- <-. destruct Hi as [Hp Ha Hc Hpush].
    assert (countb delivered (evs ++ [PsPush]) = countb delivered evs) as Hn
      by (rewrite countb_app; unfold countb at 2; simpl; lia).
    split; rewrite ?Hn; simpl; try done.
    + intros H0. apply elem_of_app. left. by apply Ha.
    + intros v Hv. apply elem_of_app. left. destruct (ps_currAttr s) as [w|]; simplify_eq; [by apply Hc|].
      by apply Ha, Hpush.
  - destruct (ps_fetch s); try done. injection Hs as <- <-. destruct Hi as [Hp Ha Hc Hpush].
    assert (countb delivered (evs ++ [PsNewAttr attr]) <> 0%nat) as Hn
      by (rewrite countb_app; unfold countb at 2; simpl; lia).
    split; simpl; try done.
    + intros _. apply elem_of_app. right. left.
    + intros v Hv. apply elem_of_app. left. by apply Hc.
Qed.

Lemma pass_run_attr evs s effs : pass_run providerAddr ttl evs s effs -> attr_inv evs s.
Proof.
  induction 1 as [|evs s effs ev s' e Hr IH Hs]; [|by eapply pass_step_attr].
  by split.
Qed.

Lemma attr_answer_step s ev s' e id v :
  pass_step providerAddr ttl s ev = Some (s', e) -> PsAttr id v ∈ e -> ps_currAttr s = Some v.
Proof.
  intros Hs Hin. destruct ev as [| | auditor [w|] now | | | | | | | | | |]; simpl in Hs;
    unfold pass_addRequest, completeAllPending, failAllPending in Hs;
    repeat (case_match; simplify_eq/=; try done); simplify_eq; try by apply not_elem_of_nil in Hin.
  all: try (apply list_elem_of_fmap in Hin as (? & ? & _); done).
  all: apply list_elem_of_singleton in Hin; by simplify_eq.
Qed.

(** The attributes handed out are the chain's, and they are asked for until they
    are there: every answer is one that was fetched, never the empty value the service
    starts with, and until the first has arrived a fetch is requested, under way,
    reported as failed or due to be tried again. *)
Theorem attributes_fetched (evs : list ps_event) (s : passState) (effs : list ps_effect) :
  pass_run providerAddr ttl evs s effs ->
  (forall id v, PsAttr id v ∈ effs -> PsNewAttr v ∈ evs) /\
  ((forall v, PsNewAttr v ∉ evs) -> (1 <= fetch_tokens s)%nat).
Proof.
  intros Hr. split.
  - induction Hr as [|evs s effs ev s' e Hr IH Hs]; intros id v Hin; [by apply not_elem_of_nil in Hin|].
    apply elem_of_app. left. apply elem_of_app in Hin as [Hin|Hin]; [by eapply IH|].
    apply (ai_curr _ _ (pass_run_attr _ _ _ Hr)). by eapply attr_answer_step.
  - intros Hno. apply pass_run_attr in Hr as [Hp _ _ _]. apply Hp. clear -Hno. unfold countb.
    induction evs as [|ev evs IH]; [done|]. simpl. destruct ev; simpl;
      try (apply IH; intros v Hv; apply (Hno v); by right). exfalso. apply (Hno attr). left.
Qed.

(** *** What goes wrong *)

(** Without events that are seen, no step adds to the fetches under way. *)
Lemma fetch_tokens_step s ev s' e :
  pass_step providerAddr ttl s ev = Some (s', e) -> (forall b, ev = PsBus b -> be_byRef b = true) ->
  (countb delivered [ev] + fetch_tokens s' <= fetch_tokens s)%nat.
Proof.
  intros Hs Hb. unfold countb, fetch_tokens. destruct s as [d ip p infl attr curr push fa f errs tims wait].
  destruct ev as [b| id auditor now | auditor [v|] now | | | | v | | | | | |]; simpl in Hs;
    [unfold pass_handleEvent in Hs; rewrite (Hb b eq_refl) in Hs|..];
    unfold tryFetchAttributes, pass_addRequest, maybeStart, completeAllPending, failAllPending in Hs; simpl in Hs;
    repeat (case_match; simplify_eq/=; try done; try lia).
Qed.

(** The chain's events are not seen: they are sent as pointers and the service
    looks for the types they point to, so the attributes are fetched with success at
    most once in its life, whatever updates the chain announces. *)
Theorem chain_updates_not_seen (evs : list ps_event) (s : passState) (effs : list ps_effect) :
  pass_run providerAddr ttl evs s effs -> (forall ev, PsBus ev ∈ evs -> be_byRef ev = true) ->
  (countb delivered evs <= 1)%nat.
Proof.
  intros Hr Hbus. assert (countb delivered evs + fetch_tokens s <= 1)%nat; [|lia].
  induction Hr as [|evs s effs ev s' e Hr IH Hs]; [done|].
  assert (countb delivered evs + fetch_tokens s <= 1)%nat as IH'
    by (apply IH; intros ev' Hin; apply Hbus, elem_of_app; by left).
  rewrite countb_app.
  assert (countb delivered [ev] + fetch_tokens s' <= fetch_tokens s)%nat; [|lia].
  apply (fetch_tokens_step _ _ _ _ Hs). intros b ->. apply Hbus, elem_of_app. right. left.
Qed.

Fixpoint pass_exec (s : passState) (evs : list ps_event) : option (passState * list ps_effect) :=
  match evs with
  | [] => Some (s, [])
  | ev :: evs =>
      match pass_step providerAddr ttl s ev with
      | None => None
      | Some (s1, e) => match pass_exec s1 evs with Some (s2, e2) => Some (s2, e ++ e2) | None => None end
      end
  end.

(** An update that arrives while a fetch is under way is lost: the request for
    another fetch is dropped, and when the fetch delivers what it read before the
    update, nothing asks for the new attributes any more. *)
Theorem update_during_fetch_lost (s : passState) (old : Attributes) :
  ps_fetch s = AFBusy -> ps_errors s = 0%nat -> ps_timers s = 0%nat ->
  exists s', pass_exec s [PsBus (mkBusEvent (EventProviderUpdated providerAddr) false); PsFetchAttr;
                          PsNewAttr old; PsFetchReleased] = Some (s', []) /\
    ps_attr s' = old /\ fetch_tokens s' = 0%nat /\ ps_fetch s' = AFIdle.
Proof.
  intros Hf He Ht. simpl. unfold pass_handleEvent, tryFetchAttributes, fetch_tokens. simpl.
  rewrite String.eqb_refl. simpl. rewrite Hf. simpl. rewrite Hf. simpl. rewrite He, Ht. eexists. split; [done|]. done.
Qed.

(** The answer that follows an update is the old one: the value already on the
    channel is not replaced when new attributes arrive, and goes to the next order that
    asks. *)
Theorem update_answered_stale (s : passState) (old new : Attributes) (id : nat) (rest : list nat) :
  ps_fetch s = AFBusy -> ps_currAttr s = Some old -> ps_waiting s = id :: rest ->
  exists s', pass_exec s [PsNewAttr new; PsPush; PsTake id] = Some (s', [PsAttr id old]) /\ ps_attr s' = new.
Proof.
  intros Hf Hc Hw. simpl. rewrite Hf. simpl. rewrite Hw, Hc. simpl. rewrite decide_True by done. simpl. by eexists.
Qed.

End Attributes.

(** ** Examples *)

Module ProviderAttrsExamples.

#[local] Instance ex_range : GoRange := sorted_range.

Section Runs.
Context (providerAddr : string) (ttl : Z).

Lemma pass_exec_run evs0 s effs evs s' e :
  pass_run providerAddr ttl evs0 s effs -> pass_exec providerAddr ttl s evs = Some (s', e) ->
  pass_run providerAddr ttl (evs0 ++ evs) s' (effs ++ e).
Proof.
  revert evs0 s effs e. induction evs as [|ev evs IH]; intros evs0 s effs e Hr He; simpl in He.
  - injection He as <- <-. by rewrite !app_nil_r.
  - destruct (pass_step providerAddr ttl s ev) as [[s1 e1]|] eqn:Hs; [|done].
    destruct (pass_exec providerAddr ttl s1 evs) as [[s2 e2]|] eqn:H2; [|done]. injection He as <- <-.
    rewrite cons_middle, !app_assoc. eapply IH; [|done]. by econstructor.
Qed.

End Runs.

Definition ex_attrs : Attributes := [mkAttribute "region" "us-west"].
Definition ex_signed : AuditedProviders := [mkAudited "akash1p" "akash1x" ex_attrs].

Definition ex_events : list ps_event :=
  [PsFetchAttr; PsFetchFailed; PsErrFetch; PsTimer; PsFetchAttr; PsNewAttr ex_attrs; PsFetchReleased; PsAttrReq 9;
   PsPush; PsTake 9; PsRequest 1 "akash1x" 10; PsRequest 2 "akash1x" 11; PsFetched "akash1x" (Some ex_signed) 12;
   PsFetched "akash1x" (Some ex_signed) 13; PsRequest 3 "akash1x" 14].

Definition ex_expected : list ps_effect :=
  [PsAttr 9 ex_attrs; PsAnswer 1 ex_signed; PsAnswer 2 ex_signed; PsAnswer 3 ex_signed].

Lemma attr_ex_effects :
  snd <$> pass_exec "akash1p" 100 (fetchAttributes pass_init) ex_events = Some ex_expected.
Proof. vm_compute. reflexivity. Qed.

Lemma ex_run : exists s, pass_run "akash1p" 100 ex_events s ex_expected.
Proof.
  pose proof attr_ex_effects as He.
  destruct (pass_exec "akash1p" 100 (fetchAttributes pass_init) ex_events) as [[s e]|] eqn:E; [|discriminate].
  simpl in He. injection He as ->. exists s.
  exact (pass_exec_run "akash1p" 100 [] _ [] _ _ _ (pass_start "akash1p" 100) E).
Qed.

Lemma attr_requests_settled_witness :
  exists s, pass_run "akash1p" 100 ex_events s ex_expected /\
    omap settled_of ex_expected ++ pending_ids (ps_pending s) ≡ₚ [1; 2; 3]%nat.
Proof.
  destruct ex_run as [s Hr]. exists s. split; [exact Hr|].
  exact (proj1 (attr_requests_settled "akash1p" 100 ex_events s ex_expected Hr)).
Defined.

Lemma attr_cache_bounded_witness :
  exists s, pass_run "akash1p" 100 ex_events s ex_expected /\ (cache_total (ps_data s) <= 50000)%Z.
Proof.
  destruct ex_run as [s Hr]. exists s. split; [exact Hr|].
  refine (attr_cache_bounded "akash1p" 100 ex_events s ex_expected Hr _). intros auditor v now Hin.
  repeat (apply elem_of_cons in Hin as [Hin|Hin];
    [first [discriminate|injection Hin as _ -> _; vm_compute; discriminate]|]).
  by apply not_elem_of_nil in Hin.
Defined.

Lemma attributes_fetched_witness :
  exists s, pass_run "akash1p" 100 ex_events s ex_expected /\ PsNewAttr ex_attrs ∈ ex_events.
Proof.
  destruct ex_run as [s Hr]. exists s. split; [exact Hr|].
  refine (proj1 (attributes_fetched "akash1p" 100 ex_events s ex_expected Hr) 9%nat ex_attrs _). left.
Defined.

Lemma chain_updates_not_seen_witness :
  exists s, pass_run "akash1p" 100 ex_events s ex_expected /\ (countb delivered ex_events <= 1)%nat.
Proof.
  destruct ex_run as [s Hr]. exists s. split; [exact Hr|].
  refine (chain_updates_not_seen "akash1p" 100 ex_events s ex_expected Hr _). intros ev Hin.
  repeat (apply elem_of_cons in Hin as [Hin|Hin]; [discriminate|]). by apply not_elem_of_nil in Hin.
Defined.

Definition ex_cached : list ps_event :=
  [PsRequest 1 "akash1x" 10; PsFetched "akash1x" (Some ex_signed) 12].

Lemma ex_cached_run :
  (fun s => (snd <$> pass_step "akash1p" 100 s.1 (PsRequest 2 "akash1x" 20), s.2))
    <$> pass_exec "akash1p" 100 (fetchAttributes pass_init) ex_cached =
  Some (Some [PsAnswer 2 ex_signed], [PsAnswer 1 ex_signed]).
Proof. vm_compute. reflexivity. Qed.

Lemma attr_answers_fresh_witness :
  exists auditor t, PsFetched auditor (Some ex_signed) t ∈ ex_cached /\ (20 - t < 100)%Z.
Proof.
  pose proof ex_cached_run as Hc.
  destruct (pass_exec "akash1p" 100 (fetchAttributes pass_init) ex_cached) as [[s e]|] eqn:E; [|discriminate].
  simpl in Hc. injection Hc as Hs He. subst e.
  destruct (pass_step "akash1p" 100 s (PsRequest 2 "akash1x" 20)) as [[s' e']|] eqn:Hstep;
    simpl in Hstep; rewrite Hstep in Hs; [|discriminate].
  simpl in Hs. injection Hs as ->.
  pose proof (pass_exec_run "akash1p" 100 [] _ [] _ _ _ (pass_start "akash1p" 100) E) as Hr.
  destruct (attr_answers_fresh "akash1p" 100 ex_cached s s' [PsAnswer 1 ex_signed] [PsAnswer 2 ex_signed]
    (PsRequest 2 "akash1x" 20) 2 ex_signed Hr Hstep) as (auditor & t & now & [(Hev & Hin & Hlt)|[Hev _]]);
    [left| |discriminate].
  injection Hev as <- <-. exists "akash1x"%string, t. split; [exact Hin|exact Hlt].
Defined.

Definition ex_busy : passState := mkPass ∅ ∅ ∅ [] [] (Some ex_attrs) false false AFBusy 0 0 [4%nat].

Lemma update_during_fetch_lost_witness :
  exists s', pass_exec "akash1p" 100 ex_busy
      [PsBus (mkBusEvent (EventProviderUpdated "akash1p") false); PsFetchAttr; PsNewAttr ex_attrs; PsFetchReleased]
      = Some (s', []) /\ fetch_tokens s' = 0%nat.
Proof.
  destruct (update_during_fetch_lost "akash1p" 100 ex_busy ex_attrs eq_refl eq_refl eq_refl) as (s' & H1 & _ & H2 & _).
  exists s'. split; assumption.
Defined.

Lemma update_answered_stale_witness :
  exists s', pass_exec "akash1p" 100 ex_busy [PsNewAttr []; PsPush; PsTake 4] = Some (s', [PsAttr 4 ex_attrs]).
Proof.
  destruct (update_answered_stale "akash1p" 100 ex_busy ex_attrs [] 4 [] eq_refl eq_refl eq_refl) as (s' & H1 & _).
  exists s'. exact H1.
Defined.

End ProviderAttrsExamples.
