(* ===== verification/ManifestService.v ===== *)
(** * The manifest service

    Model of [manifest/service.go]: the loop that keeps one manifest manager per
    deployment and hands it leases, updates and submitted manifests, and one watchdog
    per deployment, which closes the bid of a lease for which no manifest arrives. The
    manager and the watchdog are modelled in [Manifest]. *)

From Stdlib Require Import ZArith Lia.
From stdpp Require Import base gmap list strings tactics.
From S2P Require Import Prelude Types Registry Names Manifest.

(** The key a deployment is kept under, of the node's packages: no two deployments
    share one. *)
Class DeploymentPaths := { DeploymentPath : DeploymentID -> string }.
Class DeploymentPathLaws `{DeploymentPaths} := { DeploymentPath_inj :: Inj (=) (=) DeploymentPath }.

(** ** State *)

(** A watchdog: the lease it closes the bid of, whether it has been asked to stop, and
    where it is. *)
Record watchdog := mkWatchdog { wd_leaseID : LeaseID; wd_stop : bool; wd_at : wd_state }.

(** [MsDrainWatchdogs n] waits for [n] more watchdogs. *)
Inductive ms_phase := MsRunning | MsDrainManagers | MsDrainWatchdogs (n : nat) | MsDone.

Record mservice := mkMService {
  ms_phase_of : ms_phase;
  ms_managers : gmap string DeploymentID;
  ms_watchdogs : gmap DeploymentID watchdog;
  ms_signal : bool
}.

Inductive ms_message :=
| MgLease (lid : LeaseID)
| MgRemoveLease (lid : LeaseID)
| MgUpdate (hash : string)
| MgManifest (id : nat).

Inductive ms_effect :=
| MsStart (did : DeploymentID)
| MsSend (did : DeploymentID) (m : ms_message)
| MsStopManager (did : DeploymentID)
| MsEnded (did : DeploymentID)
| MsRefuse (id : nat)
| MsActive (b : bool)
| MsReport (n : Z)
| MsCloseBid (lid : LeaseID).

(** [taken] is whether the manager received the message rather than being about to
    shut down. [MsWatch] is a step of a watchdog. *)
Inductive ms_event :=
| MsLeaseWon (lid : LeaseID) (taken : bool)
| MsDeploymentUpdated (did : DeploymentID) (hash : string) (taken : bool)
| MsDeploymentClosed (did : DeploymentID)
| MsLeaseClosed (lid : LeaseID) (taken : bool)
| MsCheck (did : DeploymentID)
| MsSubmit (id : nat) (did : DeploymentID) (taken : bool)
| MsStatus
| MsSignal
| MsManagerDone (did : DeploymentID)
| MsWatch (did : DeploymentID) (ev : wd_event)
| MsWatchdogDone (did : DeploymentID)
| MsShutdown.

Section Service.
Context `{DeploymentPaths} (provider : string) (manifestTimeout : Z).

Definition ms_init : mservice := mkMService MsRunning ∅ ∅ false.

Definition with_managers (m : gmap string DeploymentID) (s : mservice) : mservice :=
  mkMService (ms_phase_of s) m (ms_watchdogs s) (ms_signal s).

Definition with_watchdogs (w : gmap DeploymentID watchdog) (s : mservice) : mservice :=
  mkMService (ms_phase_of s) (ms_managers s) w (ms_signal s).

Definition ms_trySignal (s : mservice) : mservice :=
  mkMService (ms_phase_of s) (ms_managers s) (ms_watchdogs s) true.

Definition stop_watchdog (w : watchdog) : watchdog := mkWatchdog (wd_leaseID w) true (wd_at w).

Definition maybeRemoveWatchdog (did : DeploymentID) (s : mservice) : mservice :=
  with_watchdogs (alter stop_watchdog did (ms_watchdogs s)) s.

Definition ensureManager (did : DeploymentID) (s : mservice) : mservice * list ms_effect :=
  match ms_managers s !! DeploymentPath did with
  | Some _ => (s, [])
  | None => (with_managers (<[DeploymentPath did := did]> (ms_managers s)) s, [MsStart did])
  end.

Definition send (did : DeploymentID) (m : ms_message) (taken : bool) : list ms_effect :=
  if taken then [MsSend did m] else [].

Definition ms_handleLease (lid : LeaseID) (taken : bool) (s : mservice) : mservice * list ms_effect :=
  let did := lease_deployment lid in
  let s := if (0 <? manifestTimeout)%Z then
             match ms_watchdogs s !! did with
             | None => with_watchdogs (<[did := mkWatchdog lid false WDWaiting]> (ms_watchdogs s)) s
             | Some _ => s
             end
           else s in
  let '(s, e) := ensureManager did s in
  (s, e ++ send did (MgLease lid) taken).

Definition manager_count (s : mservice) : Z := wrap32 (Z.of_nat (size (ms_managers s))).

(** The first drain ends with the managers, the second with the watchdogs. *)
Definition ms_drained (s : mservice) : mservice :=
  match ms_phase_of s with
  | MsDrainManagers =>
      if decide (ms_managers s = ∅) then
        mkMService (match size (ms_watchdogs s) with O => MsDone | n => MsDrainWatchdogs n end)
          ∅ (ms_watchdogs s) (ms_signal s)
      else s
  | _ => s
  end.

Definition ms_running (s : mservice) : bool := match ms_phase_of s with MsRunning => true | _ => false end.

Definition on_watchdog (did : DeploymentID) (ev : wd_event) (s : mservice) : option (mservice * list ms_effect) :=
  match ms_watchdogs s !! did with
  | None => None
  | Some w =>
      if (match ev with WDShutdown => wd_stop w | _ => true end) then
        match watchdog_step (wd_at w) ev with
        | None => None
        | Some (st, closes) =>
            Some (with_watchdogs (<[did := mkWatchdog (wd_leaseID w) (wd_stop w) st]> (ms_watchdogs s)) s,
                  if (closes : bool) then [MsCloseBid (wd_leaseID w)] else [])
        end
      else None
  end.

Definition ms_loop_step (s : mservice) (ev : ms_event) : option (mservice * list ms_effect) :=
  match ev with
  | MsLeaseWon lid taken =>
      Some (if String.eqb (l_provider lid) provider then ms_handleLease lid taken s else (s, []))
  | MsDeploymentUpdated did hash taken =>
      Some (s, match ms_managers s !! DeploymentPath did with Some _ => send did (MgUpdate hash) taken | None => [] end)
  | MsDeploymentClosed did =>
      Some (s, match ms_managers s !! DeploymentPath did with Some _ => [MsStopManager did] | None => [] end)
  | MsLeaseClosed lid taken =>
      Some (s, if String.eqb (l_provider lid) provider then
                 match ms_managers s !! DeploymentPath (lease_deployment lid) with
                 | Some _ => send (lease_deployment lid) (MgRemoveLease lid) taken
                 | None => []
                 end
               else [])
  | MsCheck did => Some (s, [MsActive (bool_decide (is_Some (ms_managers s !! DeploymentPath did)))])
  | MsSubmit id did taken =>
      let '(s, e) := ensureManager did (maybeRemoveWatchdog did s) in
      Some (ms_trySignal s, e ++ if taken then [MsSend did (MgManifest id)] else [MsRefuse id])
  | MsStatus => Some (s, [MsReport (manager_count s)])
  | MsSignal =>
      if ms_signal s
      then Some (mkMService (ms_phase_of s) (ms_managers s) (ms_watchdogs s) false, [MsReport (manager_count s)])
      else None
  | MsShutdown =>
      Some (ms_drained (mkMService MsDrainManagers (ms_managers s) (stop_watchdog <$> ms_watchdogs s) (ms_signal s)), [])
  | _ => None
  end.

Definition ms_step (s : mservice) (ev : ms_event) : option (mservice * list ms_effect) :=
  match ev with
  | MsWatch did ev => on_watchdog did ev s
  | MsManagerDone did =>
      if decide (ms_managers s !! DeploymentPath did = Some did) then
        let s' := with_managers (delete (DeploymentPath did) (ms_managers s)) s in
        match ms_phase_of s with
        | MsRunning => Some (ms_trySignal (maybeRemoveWatchdog did s'), [MsEnded did])
        | MsDrainManagers => Some (ms_drained s', [MsEnded did])
        | _ => None
        end
      else None
  | MsWatchdogDone did =>
      match wd_at <$> (ms_watchdogs s !! did) with
      | Some WDDone =>
          let s' := with_watchdogs (delete did (ms_watchdogs s)) s in
          match ms_phase_of s with
          | MsRunning => Some (s', [])
          | MsDrainWatchdogs n =>
              Some (mkMService (match pred n with O => MsDone | n => MsDrainWatchdogs n end) (ms_managers s')
                      (ms_watchdogs s') (ms_signal s'), [])
          | _ => None
          end
      | _ => None
      end
  | _ => if ms_running s then ms_loop_step s ev else None
  end.

Inductive ms_run : list ms_event -> mservice -> list ms_effect -> Prop :=
| ms_start : ms_run [] ms_init []
| ms_more evs s effs ev s' e :
    ms_run evs s effs -> ms_step s ev = Some (s', e) -> ms_run (evs ++ [ev]) s' (effs ++ e).

End Service.

(** ** One manager per deployment *)

Definition ms_started (e : ms_effect) : option DeploymentID := match e with MsStart did => Some did | _ => None end.
Definition ms_ended (e : ms_effect) : option DeploymentID := match e with MsEnded did => Some did | _ => None end.

Definition submitted_of (ev : ms_event) : option nat := match ev with MsSubmit id _ _ => Some id | _ => None end.

Definition routed_of (e : ms_effect) : option nat :=
  match e with MsSend _ (MgManifest id) | MsRefuse id => Some id | _ => None end.

Section Managers.
Context `{HP : DeploymentPaths} `{HPL : !DeploymentPathLaws} (provider : string) (manifestTimeout : Z).

Abbreviation ms_balanced s e s' :=
  (balanced DeploymentPath (ms_managers s) (omap ms_started e) (omap ms_ended e) (ms_managers s')).

Lemma ms_balanced_app s e s1 e1 s2 : ms_balanced s e s1 -> ms_balanced s1 e1 s2 -> ms_balanced s (e ++ e1) s2.
Proof. rewrite !omap_app. apply balanced_trans. Qed.

Lemma ensureManager_balanced did s :
  keyed DeploymentPath (ms_managers s) -> ms_balanced s (ensureManager did s).2 (ensureManager did s).1.
Proof.
  intros Hk. unfold ensureManager. destruct (ms_managers s !! _) eqn:Hs; [done|]. simpl.
  by apply (balanced_start DeploymentPath).
Qed.

Lemma ensureManager_live did s :
  keyed DeploymentPath (ms_managers s) -> ms_managers (ensureManager did s).1 !! DeploymentPath did = Some did.
Proof.
  intros Hk. unfold ensureManager. destruct (ms_managers s !! _) as [d|] eqn:Hs; simpl; [|apply lookup_insert_eq].
  rewrite Hs. f_equal. symmetry. apply (inj DeploymentPath), (Hk _ _ Hs).
Qed.

Lemma send_quiet did m taken : omap ms_started (send did m taken) = [] /\ omap ms_ended (send did m taken) = [].
Proof. by destruct taken. Qed.

Lemma ms_drained_managers s : ms_managers (ms_drained s) = ms_managers s.
Proof. unfold ms_drained. by case_match; [|case_decide as E; simpl; rewrite ?E|..]. Qed.

Lemma handleLease_balanced lid taken s :
  keyed DeploymentPath (ms_managers s) ->
  ms_balanced s (ms_handleLease manifestTimeout lid taken s).2 (ms_handleLease manifestTimeout lid taken s).1.
Proof.
  intros Hk. unfold ms_handleLease. set (s1 := if (_ <? _)%Z then _ else s).
  assert (ms_managers s1 = ms_managers s) as Hm by (unfold s1; by repeat case_match).
  rewrite <- Hm in Hk |- *. pose proof (ensureManager_balanced (lease_deployment lid) s1 Hk) as Hb.
  destruct (ensureManager _ s1) as [s2 e]. simpl in *. rewrite !omap_app.
  destruct (send_quiet (lease_deployment lid) (MgLease lid) taken) as [-> ->]. by rewrite !app_nil_r.
Qed.

Lemma ms_step_balanced s ev s' e :
  keyed DeploymentPath (ms_managers s) -> ms_step provider manifestTimeout s ev = Some (s', e) -> ms_balanced s e s'.
Proof.
  intros Hk. destruct ev as [lid tk|did hash tk|did|lid tk|did|id did tk| | |did|did wev|did| ]; simpl;
    try (destruct (ms_running s); [|done]).
  - destruct (String.eqb _ _); intros E; [injection E as E|by simplify_eq].
    pose proof (handleLease_balanced lid tk s Hk) as Hb. by rewrite E in Hb.
  - intros E; simplify_eq. case_match; [|done]. by destruct tk.
  - intros E; simplify_eq. by case_match.
  - intros E; simplify_eq. repeat case_match; try done. by destruct tk.
  - by intros E; simplify_eq.
  - pose proof (ensureManager_balanced did (maybeRemoveWatchdog did s) Hk) as Hb.
    destruct (ensureManager _ _) as [s1 e1]. intros E; simplify_eq. simpl in *.
    rewrite !omap_app. destruct tk; simpl; by rewrite !app_nil_r.
  - by intros E; simplify_eq.
  - by case_match; intros E; simplify_eq.
  - case_decide as Ho; [|done]. repeat case_match; intros E; simplify_eq; rewrite ?ms_drained_managers; simpl;
      by apply (balanced_stop DeploymentPath).
  - unfold on_watchdog. by repeat (case_match; simplify_eq/=; try done); intros E; simplify_eq/=.
  - by repeat (case_match; simplify_eq/=; try done); intros E; simplify_eq/=.
  - intros E; simplify_eq. by rewrite ms_drained_managers.
Qed.

Lemma ms_run_balanced evs s effs : ms_run provider manifestTimeout evs s effs -> ms_balanced ms_init effs s.
Proof.
  induction 1 as [|evs s effs ev s' e Hr IH Hs]; [done|].
  eapply ms_balanced_app; [done|]. eapply ms_step_balanced; [apply IH|done].
Qed.

(** Each deployment has one manifest manager at a time: the managers started for
    it are those that have ended plus the one the service still keeps, if any. *)
Theorem one_manifest_manager (evs : list ms_event) (s : mservice) (effs : list ms_effect) (did : DeploymentID) :
  ms_run provider manifestTimeout evs s effs ->
  occurs did (omap ms_started effs) =
    (occurs did (omap ms_ended effs) + if decide (ms_managers s !! DeploymentPath did = Some did) then 1 else 0)%nat.
Proof. intros Hr. apply ms_run_balanced in Hr. exact (balanced_empty DeploymentPath _ _ _ did Hr). Qed.

(** What a step sends: it routes the given requests, and only to managers that run
    after it. *)
Definition dispatches (s' : mservice) (e : list ms_effect) (ids : list nat) : Prop :=
  omap routed_of e = ids /\
  forall did m, MsSend did m ∈ e -> ms_managers s' !! DeploymentPath did = Some did.

Lemma dispatches_quiet s' e : (forall x, x ∈ e -> routed_of x = None /\ forall did m, x <> MsSend did m) -> dispatches s' e [].
Proof.
  intros He. split.
  - induction e as [|x e IH]; [done|]. simpl. destruct (He x) as [-> _]; [left|]. apply IH. intros y Hy. apply He. by right.
  - intros did m Hin. destruct (He _ Hin) as [_ Hne]. by destruct (Hne did m).
Qed.

Lemma dispatches_app s' e1 e2 l1 l2 : dispatches s' e1 l1 -> dispatches s' e2 l2 -> dispatches s' (e1 ++ e2) (l1 ++ l2).
Proof.
  intros [<- H1] [<- H2]. split; [apply omap_app|]. intros did m [Hin|Hin]%elem_of_app; [by eapply H1|by eapply H2].
Qed.

Lemma dispatches_send s' did m taken :
  ms_managers s' !! DeploymentPath did = Some did -> routed_of (MsSend did m) = None -> dispatches s' (send did m taken) [].
Proof.
  intros Hl Hr. destruct taken; [|by apply dispatches_quiet; no_elem]. split; [by destruct m|].
  intros d m' Hin. apply list_elem_of_singleton in Hin. by simplify_eq.
Qed.

Lemma dispatches_ensure s' did s : dispatches s' (ensureManager did s).2 [].
Proof.
  apply dispatches_quiet. unfold ensureManager. intros x Hin. case_match; simpl in Hin; [by apply not_elem_of_nil in Hin|].
  by apply list_elem_of_singleton in Hin as ->.
Qed.

(** Closes the goals of effects that send nothing. *)
Ltac quiet :=
  apply dispatches_quiet; let x := fresh in let Hx := fresh in intros x Hx;
  repeat (apply elem_of_cons in Hx as [->|Hx]; [done|]); by apply not_elem_of_nil in Hx.

Lemma handleLease_dispatches lid taken s :
  keyed DeploymentPath (ms_managers s) ->
  dispatches (ms_handleLease manifestTimeout lid taken s).1 (ms_handleLease manifestTimeout lid taken s).2 [].
Proof.
  intros Hk. unfold ms_handleLease. set (s1 := if (_ <? _)%Z then _ else s).
  assert (ms_managers s1 = ms_managers s) as Hm by (unfold s1; by repeat case_match).
  rewrite <- Hm in Hk. pose proof (ensureManager_live (lease_deployment lid) s1 Hk) as Hl.
  pose proof (dispatches_ensure (ensureManager (lease_deployment lid) s1).1 (lease_deployment lid) s1) as Hq.
  destruct (ensureManager _ s1) as [s2 e]. apply (dispatches_app s2 e _ [] []); [exact Hq|].
  by apply dispatches_send.
Qed.

Lemma ms_step_dispatches s ev s' e :
  keyed DeploymentPath (ms_managers s) -> ms_step provider manifestTimeout s ev = Some (s', e) ->
  dispatches s' e (omap submitted_of [ev]).
Proof.
  intros Hk Hs.
  assert (forall did d, ms_managers s !! DeploymentPath did = Some d -> ms_managers s !! DeploymentPath did = Some did) as Hown
    by (intros did d Hd; rewrite Hd; f_equal; symmetry; apply (inj DeploymentPath), (Hk _ _ Hd)).
  destruct ev as [lid tk|did hash tk|did|lid tk|did|id did tk| | |did|did wev|did| ]; simpl in Hs |- *;
    try (destruct (ms_running s); [|done]).
  - destruct (String.eqb _ _); [injection Hs as Hs|injection Hs as <- <-; quiet].
    pose proof (handleLease_dispatches lid tk s Hk) as Hd. by rewrite Hs in Hd.
  - injection Hs as <- <-. destruct (ms_managers s !! _) eqn:Hd; [|quiet]. apply dispatches_send; [by eapply Hown|done].
  - injection Hs as <- <-. destruct (ms_managers s !! _); quiet.
  - injection Hs as <- <-. destruct (String.eqb _ _); [|quiet]. destruct (ms_managers s !! _) eqn:Hd; [|quiet].
    apply dispatches_send; [by eapply Hown|done].
  - injection Hs as <- <-. quiet.
  - pose proof (ensureManager_live did (maybeRemoveWatchdog did s) Hk) as Hl.
    pose proof (dispatches_ensure (ensureManager did (maybeRemoveWatchdog did s)).1 did (maybeRemoveWatchdog did s)) as Hq.
    destruct (ensureManager _ _) as [s1 e1]. injection Hs as <- <-. apply (dispatches_app (ms_trySignal s1) e1 _ [] [id]); [exact Hq|].
    destruct tk; (split; [done|]); intros d m Hin; apply list_elem_of_singleton in Hin; by simplify_eq.
  - injection Hs as <- <-. quiet.
  - destruct (ms_signal s); [|done]. injection Hs as <- <-. quiet.
  - case_decide; [|done]. destruct (ms_phase_of s); try done; injection Hs as <- <-; quiet.
  - unfold on_watchdog in Hs. repeat (case_match; simplify_eq/=; try done); quiet.
  - repeat (case_match; simplify_eq/=; try done); quiet.
  - injection Hs as <- <-. quiet.
Qed.

(** Every submitted manifest is dispatched once, at once and to the right manager:
    the step that takes a submission sends it to the manager of its own deployment,
    which it starts if there is none, or refuses it when that manager is shutting
    down; and no message is ever sent to a deployment without a manager. *)
Theorem submissions_dispatched (evs : list ms_event) (s s' : mservice) (effs e : list ms_effect) (ev : ms_event) :
  ms_run provider manifestTimeout evs s effs -> ms_step provider manifestTimeout s ev = Some (s', e) ->
  omap routed_of e = omap submitted_of [ev] /\
  (forall did m, MsSend did m ∈ e -> ms_managers s' !! DeploymentPath did = Some did) /\
  (forall id did, ev = MsSubmit id did true -> MsSend did (MgManifest id) ∈ e).
Proof.
  intros Hr Hs. apply ms_run_balanced in Hr as [Hk _].
  destruct (ms_step_dispatches s ev s' e Hk Hs) as [H1 H2]. split_and!; [done|done|].
  intros id did ->. simpl in Hs. destruct (ms_running s); [|done].
  destruct (ensureManager _ _) as [s1 e1]. injection Hs as _ <-. apply elem_of_app. right. left.
Qed.

End Managers.

(** ** Watchdogs *)

Definition closed_of (e : ms_effect) : option LeaseID := match e with MsCloseBid lid => Some lid | _ => None end.

Section Watchdogs.
Context `{HP : DeploymentPaths} (provider : string) (manifestTimeout : Z).

(** The leases this provider has won. *)
Definition won_of (ev : ms_event) : option LeaseID :=
  match ev with MsLeaseWon lid _ => if String.eqb (l_provider lid) provider then Some lid else None | _ => None end.

Definition waits_for (lid : LeaseID) (w : watchdog) : bool :=
  bool_decide (wd_leaseID w = lid) && match wd_at w with WDWaiting => true | _ => false end.

(** Whether a watchdog still waits for the manifest of the lease. *)
Definition watched (lid : LeaseID) (s : mservice) : nat :=
  match ms_watchdogs s !! lease_deployment lid with
  | Some w => if waits_for lid w then 1 else 0
  | None => 0
  end.

(** What a step closes and still watches is what was watched and what it won; each
    watchdog watches a lease of its own deployment. *)
Definition watches (s : mservice) (wins closes : list LeaseID) (s' : mservice) : Prop :=
  map_Forall (fun did w => lease_deployment (wd_leaseID w) = did) (ms_watchdogs s') /\
  forall lid, (occurs lid closes + watched lid s' <= occurs lid wins + watched lid s)%nat.

Lemma watches_same s s' wins :
  map_Forall (fun did w => lease_deployment (wd_leaseID w) = did) (ms_watchdogs s) ->
  ms_watchdogs s' = ms_watchdogs s -> watches s wins [] s'.
Proof.
  intros Hk E. unfold watches, watched, occurs, countb. rewrite E. split; [done|]. intros lid. simpl. lia.
Qed.

Lemma watches_fmap s s' did :
  map_Forall (fun did w => lease_deployment (wd_leaseID w) = did) (ms_watchdogs s) ->
  ms_watchdogs s' = alter stop_watchdog did (ms_watchdogs s) -> watches s [] [] s'.
Proof.
  intros Hk E. unfold watches, watched. rewrite E. split.
  - intros d w Hw. apply lookup_alter_Some in Hw as [(-> & w' & Hw & ->)|[_ Hw]]; exact (Hk _ _ Hw).
  - intros lid. destruct (decide (lease_deployment lid = did)) as [->|Hne].
    + rewrite lookup_alter_eq. destruct (ms_watchdogs s !! did) as [w|]; simpl; [|lia].
      change (waits_for lid (stop_watchdog w)) with (waits_for lid w). lia.
    + by rewrite lookup_alter_ne by done.
Qed.

Lemma watches_delete s s' did :
  map_Forall (fun did w => lease_deployment (wd_leaseID w) = did) (ms_watchdogs s) ->
  ms_watchdogs s' = delete did (ms_watchdogs s) -> watches s [] [] s'.
Proof.
  intros Hk E. unfold watches, watched. rewrite E. split; [by apply map_Forall_delete|].
  intros lid. destruct (decide (lease_deployment lid = did)) as [->|Hne].
  - rewrite lookup_delete_eq. unfold occurs, countb. simpl. lia.
  - by rewrite lookup_delete_ne by done.
Qed.

Lemma watches_win s s' lid :
  map_Forall (fun did w => lease_deployment (wd_leaseID w) = did) (ms_watchdogs s) ->
  ms_watchdogs s !! lease_deployment lid = None ->
  ms_watchdogs s' = <[lease_deployment lid := mkWatchdog lid false WDWaiting]> (ms_watchdogs s) ->
  watches s [lid] [] s'.
Proof.
  intros Hk Hnone E. unfold watches, watched. rewrite E. split; [by apply map_Forall_insert_2|].
  intros l. destruct (decide (lease_deployment l = lease_deployment lid)) as [Hd|Hne].
  - rewrite Hd, lookup_insert_eq, Hnone. unfold waits_for, occurs, countb. simpl.
    rewrite andb_true_r. destruct (bool_decide (lid = l)); simpl; lia.
  - rewrite lookup_insert_ne by done. unfold occurs, countb. simpl. destruct (bool_decide _); simpl; lia.
Qed.

Lemma handleLease_watches lid taken s :
  map_Forall (fun did w => lease_deployment (wd_leaseID w) = did) (ms_watchdogs s) ->
  watches s [lid] [] (ms_handleLease manifestTimeout lid taken s).1.
Proof.
  intros Hk. unfold ms_handleLease. set (s1 := if (_ <? _)%Z then _ else s).
  assert (ms_watchdogs (ensureManager (lease_deployment lid) s1).1 = ms_watchdogs s1) as Hw
    by (unfold ensureManager; by case_match).
  destruct (ensureManager _ s1) as [s2 e]. simpl in Hw |- *. unfold s1 in Hw. clear s1.
  destruct (_ <? _)%Z; [|by apply watches_same].
  destruct (ms_watchdogs s !! lease_deployment lid) eqn:Hd; [by apply watches_same|by apply watches_win].
Qed.

Lemma on_watchdog_watches did ev s s' e :
  map_Forall (fun did w => lease_deployment (wd_leaseID w) = did) (ms_watchdogs s) ->
  on_watchdog did ev s = Some (s', e) -> watches s [] (omap closed_of e) s'.
Proof.
  unfold on_watchdog. intros Hk. destruct (ms_watchdogs s !! did) as [w|] eqn:Hw; [|done].
  destruct (match ev with WDShutdown => wd_stop w | _ => true end); [|done].
  destruct (watchdog_step (wd_at w) ev) as [[st b]|] eqn:Hst; [|done]. intros E; injection E as <- <-.
  pose proof (Hk _ _ Hw) as Hdid. simpl in Hdid. split; [by apply map_Forall_insert_2|].
  intros lid. unfold watched. simpl. destruct (decide (lease_deployment lid = did)) as [Hd|Hne].
  - rewrite Hd, lookup_insert_eq, Hw. unfold waits_for, occurs, countb. simpl.
    destruct (wd_at w), ev; simplify_eq/=; try (destruct b; simplify_eq/=);
      destruct (bool_decide (wd_leaseID w = lid)); simpl; try lia; by case_match; simplify_eq/=; lia.
  - rewrite lookup_insert_ne by done. destruct b; unfold occurs, countb; simpl; [|lia].
    rewrite bool_decide_false; [simpl; lia|]. intros <-. by apply Hne.
Qed.

Lemma ms_step_watches s ev s' e :
  map_Forall (fun did w => lease_deployment (wd_leaseID w) = did) (ms_watchdogs s) ->
  ms_step provider manifestTimeout s ev = Some (s', e) -> watches s (omap won_of [ev]) (omap closed_of e) s'.
Proof.
  intros Hk Hs.
  assert (forall did m tk, omap closed_of (send did m tk) = []) as Hsend by (intros; by destruct tk).
  assert (forall did s, omap closed_of (ensureManager did s).2 = [] /\
    ms_watchdogs (ensureManager did s).1 = ms_watchdogs s) as Hens
    by (intros d x; unfold ensureManager; by case_match).
  destruct ev as [lid tk|did hash tk|did|lid tk|did|id did tk| | |did|did wev|did| ]; simpl in Hs |- *;
    try (destruct (ms_running s); [|done]).
  - destruct (String.eqb _ _); [injection Hs as Hs|injection Hs as <- <-; by apply watches_same].
    pose proof (handleLease_watches lid tk s Hk) as Hw. rewrite Hs in Hw. simpl in Hw.
    replace (omap closed_of e) with (@nil LeaseID); [done|]. unfold ms_handleLease in Hs.
    set (s1 := if (_ <? _)%Z then _ else s) in Hs. destruct (Hens (lease_deployment lid) s1) as [He _].
    destruct (ensureManager _ s1) as [s2 e2]. injection Hs as _ <-. simpl in He. by rewrite omap_app, He, Hsend.
  - injection Hs as <- <-. case_match; rewrite ?Hsend; by apply watches_same.
  - injection Hs as <- <-. case_match; by apply watches_same.
  - injection Hs as <- <-. repeat case_match; rewrite ?Hsend; by apply watches_same.
  - injection Hs as <- <-. by apply watches_same.
  - destruct (Hens did (maybeRemoveWatchdog did s)) as [He Hw]. destruct (ensureManager _ _) as [s1 e1].
    injection Hs as <- <-. simpl in He, Hw. rewrite omap_app, He.
    replace ([] ++ _) with (@nil LeaseID) by by destruct tk. by apply (watches_fmap _ _ did).
  - injection Hs as <- <-. by apply watches_same.
  - destruct (ms_signal s); [|done]. injection Hs as <- <-. by apply watches_same.
  - case_decide; [|done]. destruct (ms_phase_of s) eqn:Hp; try done; injection Hs as <- <-;
      [by apply (watches_fmap _ _ did)|]. apply watches_same; [done|]. unfold ms_drained. simpl. rewrite Hp.
    by case_decide.
  - by eapply on_watchdog_watches.
  - repeat (case_match; simplify_eq/=; try done); by apply (watches_delete _ _ did).
  - injection Hs as <- <-.
    assert (ms_watchdogs (ms_drained (mkMService MsDrainManagers (ms_managers s) (stop_watchdog <$> ms_watchdogs s)
      (ms_signal s))) = stop_watchdog <$> ms_watchdogs s) as E by (unfold ms_drained; simpl; by case_decide).
    unfold watches, watched. rewrite E. split.
    + intros d w Hw. rewrite lookup_fmap in Hw. apply fmap_Some in Hw as (w' & Hw & ->). exact (Hk _ _ Hw).
    + intros lid. rewrite lookup_fmap. destruct (ms_watchdogs s !! _) as [w|]; simpl; [|lia].
      change (waits_for lid (stop_watchdog w)) with (waits_for lid w). lia.
Qed.

(** Only leases this provider has won are given up for want of a manifest: the bid
    of a lease is closed by a watchdog at most as often as the lease was announced as
    won by this provider. *)
Theorem watchdog_closes_won (evs : list ms_event) (s : mservice) (effs : list ms_effect) (lid : LeaseID) :
  ms_run provider manifestTimeout evs s effs ->
  (occurs lid (omap closed_of effs) <= occurs lid (omap won_of evs))%nat.
Proof.
  intros Hr. assert (watches ms_init (omap won_of evs) (omap closed_of effs) s) as [_ Hw].
  { induction Hr as [|evs s effs ev s' e Hr [Hk IH] Hs]; [by apply watches_same|].
    destruct (ms_step_watches s ev s' e Hk Hs) as [Hk' Hstep]. split; [done|]. intros l. rewrite !omap_app.
    unfold occurs in *. rewrite !countb_app. specialize (IH l). specialize (Hstep l). lia. }
  specialize (Hw lid). unfold watched in Hw. simpl in Hw. rewrite lookup_empty in Hw. lia.
Qed.

Fixpoint ms_exec (s : mservice) (evs : list ms_event) : option (mservice * list ms_effect) :=
  match evs with
  | [] => Some (s, [])
  | ev :: evs =>
      match ms_step provider manifestTimeout s ev with
      | None => None
      | Some (s1, e) => match ms_exec s1 evs with Some (s2, e2) => Some (s2, e ++ e2) | None => None end
      end
  end.

(** *** What goes wrong *)

(** A lease won after the manifest is closed as if there were none: the watchdog is
    created without looking whether the deployment's manager has its manifest already,
    and nothing but another submission stops it. Here the manager of the deployment has
    been sent a manifest and takes the new lease, and the lease's bid is closed when
    the timeout runs out. *)
Theorem watchdog_ignores_manifest (s : mservice) (lid : LeaseID) :
  ms_phase_of s = MsRunning -> (0 < manifestTimeout)%Z -> l_provider lid = provider ->
  ms_watchdogs s !! lease_deployment lid = None ->
  ms_managers s !! DeploymentPath (lease_deployment lid) = Some (lease_deployment lid) ->
  exists s', ms_exec s [MsLeaseWon lid true; MsWatch (lease_deployment lid) WDTimeout] =
    Some (s', [MsSend (lease_deployment lid) (MgLease lid); MsCloseBid lid]).
Proof.
  intros Hp Ht Hl Hw Hm. simpl. unfold ms_running. rewrite Hp, Hl, String.eqb_refl. unfold ms_handleLease.
  rewrite (proj2 (Z.ltb_lt _ _) Ht), Hw. unfold ensureManager. simpl. rewrite Hm. unfold on_watchdog. simpl.
  rewrite lookup_insert_eq. simpl. by eexists.
Qed.

(** The second lease of a deployment is not watched: while the first one's watchdog
    is there, a lease won by the same deployment gets none, and when the timeout runs
    out only the first one's bid is closed. *)
Theorem second_lease_unwatched (s : mservice) (lid lid2 : LeaseID) :
  ms_phase_of s = MsRunning -> l_provider lid2 = provider ->
  lease_deployment lid2 = lease_deployment lid ->
  ms_watchdogs s !! lease_deployment lid = Some (mkWatchdog lid false WDWaiting) ->
  ms_managers s !! DeploymentPath (lease_deployment lid) = Some (lease_deployment lid) ->
  exists s', ms_exec s [MsLeaseWon lid2 true; MsWatch (lease_deployment lid) WDTimeout;
                        MsWatch (lease_deployment lid) WDResult; MsWatchdogDone (lease_deployment lid)] =
    Some (s', [MsSend (lease_deployment lid) (MgLease lid2); MsCloseBid lid]) /\
    ms_watchdogs s' !! lease_deployment lid2 = None.
Proof.
  intros Hp Hl Hd Hw Hm. simpl. unfold ms_running. rewrite Hp, Hl, String.eqb_refl. unfold ms_handleLease.
  rewrite Hd, Hw. replace (if (_ <? _)%Z then s else s) with s by by destruct (_ <? _)%Z.
  unfold ensureManager. rewrite Hm. unfold on_watchdog. simpl. rewrite Hw. simpl. rewrite lookup_insert_eq. simpl.
  rewrite lookup_insert_eq. simpl. rewrite Hp. simpl. eexists. split; [done|]. simpl. apply lookup_delete_eq.
Qed.

End Watchdogs.

(** ** Examples *)

Module ManifestServiceExamples.

#[local] Instance ex_dpaths : DeploymentPaths := {| DeploymentPath d := FormatUint (Zpos (encode d)) |}.
#[local] Instance ex_dpaths_laws : DeploymentPathLaws.
Proof. split. intros a b E. apply FormatUint_inj in E; [|lia..]. by apply encode_inj; injection E. Qed.

Lemma ms_exec_run evs0 s effs evs s' e :
  ms_run "akash1p" 300 evs0 s effs -> ms_exec "akash1p" 300 s evs = Some (s', e) ->
  ms_run "akash1p" 300 (evs0 ++ evs) s' (effs ++ e).
Proof.
  revert evs0 s effs e. induction evs as [|ev evs IH]; intros evs0 s effs e Hr He; simpl in He.
  - injection He as <- <-. by rewrite !app_nil_r.
  - destruct (ms_step "akash1p" 300 s ev) as [[s1 e1]|] eqn:Hs; [|done].
    destruct (ms_exec "akash1p" 300 s1 evs) as [[s2 e2]|] eqn:H2; [|done]. injection He as <- <-.
    rewrite cons_middle, !app_assoc. eapply IH; [|done]. by econstructor.
Qed.

Definition ms_lid (g : Z) : LeaseID := mkLeaseID "akash1a" 7 g 1 "akash1p".
Definition ms_did : DeploymentID := mkDeploymentID "akash1a" 7.

Definition ms_events : list ms_event :=
  [MsLeaseWon (ms_lid 1) true; MsSubmit 1 ms_did true; MsWatch ms_did WDShutdown; MsWatchdogDone ms_did;
   MsLeaseWon (ms_lid 2) true; MsWatch ms_did WDTimeout].

Definition ms_effects : list ms_effect :=
  [MsStart ms_did; MsSend ms_did (MgLease (ms_lid 1)); MsSend ms_did (MgManifest 1);
   MsSend ms_did (MgLease (ms_lid 2)); MsCloseBid (ms_lid 2)].

Lemma ms_events_run : snd <$> ms_exec "akash1p" 300 ms_init ms_events = Some ms_effects.
Proof. vm_compute. reflexivity. Qed.

Lemma ms_ran : exists s, ms_run "akash1p" 300 ms_events s ms_effects.
Proof.
  pose proof ms_events_run as He. destruct (ms_exec "akash1p" 300 ms_init ms_events) as [[s e]|] eqn:E; [|discriminate].
  simpl in He. injection He as ->. exists s. exact (ms_exec_run [] _ [] _ _ _ (ms_start "akash1p" 300) E).
Qed.

Lemma one_manifest_manager_witness :
  exists s, ms_run "akash1p" 300 ms_events s ms_effects /\ ms_managers s !! DeploymentPath ms_did = Some ms_did.
Proof.
  destruct ms_ran as [s Hr]. exists s. split; [exact Hr|].
  pose proof (one_manifest_manager "akash1p" 300 ms_events s ms_effects ms_did Hr) as Hc.
  destruct (decide (ms_managers s !! DeploymentPath ms_did = Some ms_did)) as [Ho|]; [exact Ho|].
  vm_compute in Hc. discriminate.
Defined.

Lemma submissions_dispatched_witness :
  exists s' e, ms_step "akash1p" 300 ms_init (MsSubmit 1 ms_did true) = Some (s', e) /\ omap routed_of e = [1%nat].
Proof.
  eexists _, _. split; [reflexivity|].
  exact (proj1 (submissions_dispatched "akash1p" 300 [] ms_init _ [] _ (MsSubmit 1 ms_did true)
    (ms_start "akash1p" 300) eq_refl)).
Defined.

Lemma watchdog_closes_won_witness :
  exists s, ms_run "akash1p" 300 ms_events s ms_effects /\
    (occurs (ms_lid 2) (omap closed_of ms_effects) <= occurs (ms_lid 2) (omap (won_of "akash1p") ms_events))%nat.
Proof.
  destruct ms_ran as [s Hr]. exists s. split; [exact Hr|].
  exact (watchdog_closes_won "akash1p" 300 ms_events s ms_effects (ms_lid 2) Hr).
Defined.

(** The deployment has its manifest and no watchdog. *)
Definition ms_settled : mservice := mkMService MsRunning {[ DeploymentPath ms_did := ms_did ]} ∅ false.

Lemma watchdog_ignores_manifest_witness :
  exists s', ms_exec "akash1p" 300 ms_settled [MsLeaseWon (ms_lid 2) true; MsWatch ms_did WDTimeout] =
    Some (s', [MsSend ms_did (MgLease (ms_lid 2)); MsCloseBid (ms_lid 2)]).
Proof.
  exact (watchdog_ignores_manifest "akash1p" 300 ms_settled (ms_lid 2) eq_refl ltac:(lia) eq_refl eq_refl
    (lookup_insert_eq ∅ (DeploymentPath ms_did) ms_did)).
Defined.

Definition ms_watching : mservice :=
  mkMService MsRunning {[ DeploymentPath ms_did := ms_did ]} {[ ms_did := mkWatchdog (ms_lid 1) false WDWaiting ]} false.

Lemma second_lease_unwatched_witness :
  exists s', ms_exec "akash1p" 300 ms_watching
      [MsLeaseWon (ms_lid 2) true; MsWatch ms_did WDTimeout; MsWatch ms_did WDResult; MsWatchdogDone ms_did] =
    Some (s', [MsSend ms_did (MgLease (ms_lid 2)); MsCloseBid (ms_lid 1)]).
Proof.
  destruct (second_lease_unwatched "akash1p" 300 ms_watching (ms_lid 1) (ms_lid 2) eq_refl eq_refl eq_refl
    (lookup_insert_eq ∅ ms_did _) (lookup_insert_eq ∅ (DeploymentPath ms_did) ms_did)) as (s' & H1 & _).
  exists s'. exact H1.
Defined.

End ManifestServiceExamples.
