(* ===== verification/Pricing.v ===== *)
(** * Bid prices

    Model of [bidengine/pricing.go] and of what [bidengine/shellscript.go] computes: the
    price of a group from the configured scales, and the data handed to a pricing
    script and the price read from it. Decimals are those of two other packages: an
    exact one for the computation and the chain's, with 18 digits, for the result. *)

From Stdlib Require Import ZArith Lia QArith Lqa Ascii.
From stdpp Require Import base gmap list strings tactics.
From S2P Require Import Prelude Types Concrete InventoryService Order Attrs.

(** ** Decimals *)

(** [decimal.Decimal], and [LegacyNewDecFromStr] of its text, in units of 10^-18:
    [None] when that has more digits than fit. Attributes are looked up by the
    attributes package; an attribute that is not set is [None]. *)
Class PricingAPI := {
  Dec : Type;
  dec_of : Z -> Dec;
  dadd : Dec -> Dec -> Dec;
  dmul : Dec -> Dec -> Dec;
  ddiv : Dec -> Dec -> Dec;
  dzero : Dec -> bool;
  dneg : Dec -> bool;
  legacy_of : Dec -> option Z;
  LegacyMaxSortableDec : Z;
  AttrAsBool : Attributes -> string -> bool;
  AttrAsString : Attributes -> string -> option string;
  attrPersistent : string;
  attrClass : string;
  StorageEphemeral : string
}.

(** Sums and products are exact; a quotient is rounded, which keeps order and sign. *)
Class PricingLaws `{PricingAPI} := {
  dval : Dec -> Q;
  dval_of z : (dval (dec_of z) == inject_Z z)%Q;
  dval_add a b : (dval (dadd a b) == dval a + dval b)%Q;
  dval_mul a b : (dval (dmul a b) == dval a * dval b)%Q;
  dval_div_mono a b c : (dval a <= dval b -> 0 < dval c -> dval (ddiv a c) <= dval (ddiv b c))%Q;
  dval_div_zero a c : (dval a == 0 -> 0 < dval c -> dval (ddiv a c) == 0)%Q;
  dzero_spec d : (dzero d = true <-> dval d == 0)%Q;
  dneg_spec d : (dneg d = true <-> dval d < 0)%Q;
  legacy_of_exact d z : (legacy_of d = Some z -> inject_Z z == dval d * inject_Z (10 ^ 18))%Q
}.

Inductive price_error :=
| errAllScalesZero
| errScaleNegative
| ErrBidQuantityInvalid
| ErrBidZero
| errNoPriceScaleForStorageClass (class : string)
| PriceConversion
| PricePanic
| PriceScript.

(** ** Prices by scale *)

Section Scale.
Context `{PricingAPI} `{GoRange}.

Record scalePricing := mkScale {
  cpuScale : Dec; memoryScale : Dec; storageScale : gmap string Dec; endpointScale : Dec; ipScale : Dec
}.

Definition IsAnyZero (ss : gmap string Dec) : bool :=
  (size ss =? 0)%nat || existsb (fun kv => dzero kv.2) (range_map ss).

Definition IsAnyNegative (ss : gmap string Dec) : bool := existsb (fun kv => dneg kv.2) (range_map ss).

Definition MakeScalePricing (fp : scalePricing) : result price_error scalePricing :=
  if dzero (cpuScale fp) && dzero (memoryScale fp) && IsAnyZero (storageScale fp) && dzero (endpointScale fp) &&
     dzero (ipScale fp) then Err errAllScalesZero
  else if dneg (cpuScale fp) || dneg (memoryScale fp) || IsAnyNegative (storageScale fp) || dneg (endpointScale fp) ||
          dneg (ipScale fp) then Err errScaleNegative
  else Ok fp.

Record totals := mkTotals { t_cpu : Dec; t_memory : Dec; t_storage : gmap string Dec; t_endpoint : Dec }.

Definition storage_class (s : Storage) : string :=
  if AttrAsBool (s_attrs s) attrPersistent then default StorageEphemeral (AttrAsString (s_attrs s) attrClass)
  else StorageEphemeral.

(** The storage of one resource unit. *)
Fixpoint sum_storage (count : Dec) (volumes : list Storage) (totals : gmap string Dec)
    : result price_error (gmap string Dec) :=
  match volumes with
  | [] => Ok totals
  | v :: rest =>
      let q := dmul (dec_of (s_quantity v)) count in
      match totals !! storage_class v with
      | None => Err (errNoPriceScaleForStorageClass (storage_class v))
      | Some total => sum_storage count rest (<[storage_class v := dadd total q]> totals)
      end
  end.

Definition sum_unit (u : ResourceUnit) (t : totals) : result price_error totals :=
  let count := dec_of (Z.of_nat (ru_count u)) in
  match r_cpu (ru_res u), r_memory (ru_res u) with
  | Some cpu, Some mem =>
      (let? storage := sum_storage count (r_storage (ru_res u)) (t_storage t) in
       Ok (mkTotals (dadd (t_cpu t) (dmul (dec_of (units cpu)) count))
             (dadd (t_memory t) (dmul (dec_of (m_quantity mem)) count)) storage
             (dadd (t_endpoint t) (dec_of (Z.of_nat (length (r_endpoints (ru_res u))))))))%go
  | _, _ => Err PricePanic
  end.

Fixpoint sum_units (us : list ResourceUnit) (t : totals) : result price_error totals :=
  match us with
  | [] => Ok t
  | u :: rest => (let? t := sum_unit u t in sum_units rest t)%go
  end.

(** [unit.Mi]. *)
Definition mebibytes : Dec := dec_of (2 ^ 20).

(** The totals by class, each in mebibytes times its scale. *)
Definition scaled_storage (fp : scalePricing) (totals : gmap string Dec) : gmap string Dec :=
  map_imap (fun class total =>
    Some (dmul (ddiv total mebibytes) (default (dec_of 0) (storageScale fp !! class)))) totals.

Definition scale_CalculatePrice (fp : scalePricing) (price : DecCoin) (g : GroupSpec) : result price_error DecCoin :=
  let zero := dec_of 0 in
  let ipTotal := dmul (dadd zero (ipScale fp))
    (dec_of (GetEndpointQuantityOfResourceGroup (RGGroupSpecPtr g) Endpoint_LEASED_IP)) in
  (let? t := sum_units (gs_units g) (mkTotals zero zero ((fun _ => zero) <$> storageScale fp) zero) in
   let cpuTotal := dmul (t_cpu t) (cpuScale fp) in
   let memoryTotal := dmul (ddiv (t_memory t) mebibytes) (memoryScale fp) in
   let storageTotal := scaled_storage fp (t_storage t) in
   let endpointTotal := dmul (t_endpoint t) (endpointScale fp) in
   if dneg cpuTotal || dneg memoryTotal || IsAnyNegative storageTotal || dneg endpointTotal || dneg ipTotal
   then Err ErrBidQuantityInvalid
   else
     let total := dadd (dadd (foldl (fun c kv => dadd c kv.2) (dadd cpuTotal memoryTotal) (range_map storageTotal))
                         endpointTotal) ipTotal in
     if dneg total then Err ErrBidQuantityInvalid
     else if dzero total then Err ErrBidZero
     else match legacy_of total with
          | None => Err PriceConversion
          | Some cost => if (LegacyMaxSortableDec <? cost)%Z then Err ErrBidQuantityInvalid
                         else Ok (mkDecCoin (denom price) cost)
          end)%go.

End Scale.

(** ** The price as a formula *)

Section Formula.
Context `{HA : PricingAPI} `{HL : !PricingLaws} `{HG : GoRange}.

Definition sumQ {A} (f : A -> Q) (l : list A) : Q := foldr (fun x acc => f x + acc)%Q 0%Q l.

Definition cpu_total (us : list ResourceUnit) : Z :=
  sumZ (fun u => match r_cpu (ru_res u) with Some c => units c * Z.of_nat (ru_count u) | None => 0 end)%Z us.

Definition memory_total (us : list ResourceUnit) : Z :=
  sumZ (fun u => match r_memory (ru_res u) with Some m => m_quantity m * Z.of_nat (ru_count u) | None => 0 end)%Z us.

Definition volume_total (class : string) (count : nat) (vs : list Storage) : Z :=
  sumZ (fun v => if String.eqb (storage_class v) class then s_quantity v * Z.of_nat count else 0)%Z vs.

Definition storage_total (class : string) (us : list ResourceUnit) : Z :=
  sumZ (fun u => volume_total class (ru_count u) (r_storage (ru_res u))) us.

Definition endpoint_total (us : list ResourceUnit) : Z :=
  sumZ (fun u => Z.of_nat (length (r_endpoints (ru_res u)))) us.

(** A quantity of bytes, in mebibytes as the decimals round it. *)
Definition in_mebibytes (z : Z) : Q := dval (ddiv (dec_of z) mebibytes).

Definition price_spec (fp : scalePricing) (g : GroupSpec) : Q :=
  (inject_Z (cpu_total (gs_units g)) * dval (cpuScale fp) +
   in_mebibytes (memory_total (gs_units g)) * dval (memoryScale fp) +
   sumQ (fun kv => in_mebibytes (storage_total kv.1 (gs_units g)) * dval kv.2) (map_to_list (storageScale fp)) +
   inject_Z (endpoint_total (gs_units g)) * dval (endpointScale fp) +
   dval (ipScale fp) * inject_Z (GetEndpointQuantityOfResourceGroup (RGGroupSpecPtr g) Endpoint_LEASED_IP))%Q.

(** The accumulated totals mean the quantities of the units seen. *)
Record means (fp : scalePricing) (t : totals) (us : list ResourceUnit) : Prop := {
  mn_cpu : (dval (t_cpu t) == inject_Z (cpu_total us))%Q;
  mn_memory : (dval (t_memory t) == inject_Z (memory_total us))%Q;
  mn_dom : dom (t_storage t) = dom (storageScale fp);
  mn_storage : forall class d, t_storage t !! class = Some d -> (dval d == inject_Z (storage_total class us))%Q;
  mn_endpoint : (dval (t_endpoint t) == inject_Z (endpoint_total us))%Q
}.

Lemma dval_weighted q count : (dval (dmul (dec_of q) (dec_of (Z.of_nat count))) == inject_Z (q * Z.of_nat count))%Q.
Proof. by rewrite dval_mul, !dval_of, inject_Z_mult. Qed.

Lemma sum_storage_spec count vs m m' :
  sum_storage (dec_of (Z.of_nat count)) vs m = Ok m' ->
  dom m' = dom m /\
  forall class d', m' !! class = Some d' -> exists d, m !! class = Some d /\
    (dval d' == dval d + inject_Z (volume_total class count vs))%Q.
Proof.
  revert m. induction vs as [|v vs IH]; intros m E; simpl in E.
  - injection E as <-. split; [done|]. intros class d Hd. exists d. split; [done|]. simpl. rewrite Qplus_0_r. reflexivity.
  - destruct (m !! storage_class v) as [total|] eqn:Ht; [|done]. apply IH in E as [Hdom Hm]. split.
    + rewrite Hdom, dom_insert_L. apply elem_of_dom_2 in Ht. set_solver.
    + intros class d' Hd'. destruct (Hm _ _ Hd') as (d1 & H1 & H2). simpl.
      destruct (String.eqb_spec (storage_class v) class) as [Hc|Hc].
      * subst class. rewrite lookup_insert_eq in H1. injection H1 as <-. exists total. split; [done|].
        rewrite H2, dval_add, dval_weighted, inject_Z_plus. ring.
      * rewrite lookup_insert_ne in H1 by done. exists d1. split; [done|]. rewrite H2, inject_Z_plus. ring.
Qed.

Lemma sumZ_snoc {A} (f : A -> Z) l x : sumZ f (l ++ [x]) = (sumZ f l + f x)%Z.
Proof. rewrite sumZ_app. simpl. lia. Qed.

Lemma sum_unit_means fp t us u t' : means fp t us -> sum_unit u t = Ok t' -> means fp t' (us ++ [u]).
Proof.
  intros [Hc Hm Hd Hs He] E. unfold sum_unit in E.
  destruct (r_cpu (ru_res u)) as [cpu|] eqn:Hcpu; [|done]. destruct (r_memory (ru_res u)) as [mem|] eqn:Hmem; [|done].
  apply bind_result_Ok in E as (st & Hst & E). injection E as <-.
  apply sum_storage_spec in Hst as [Hdom Hst].
  split; cbn [t_cpu t_memory t_storage t_endpoint].
  - unfold cpu_total. rewrite sumZ_snoc, Hcpu, inject_Z_plus, dval_add, Hc, dval_weighted. reflexivity.
  - unfold memory_total. rewrite sumZ_snoc, Hmem, inject_Z_plus, dval_add, Hm, dval_weighted. reflexivity.
  - by rewrite Hdom.
  - intros class d Hcl. destruct (Hst _ _ Hcl) as (d0 & H0 & Hd0). unfold storage_total.
    rewrite sumZ_snoc, inject_Z_plus, Hd0, (Hs _ _ H0). reflexivity.
  - unfold endpoint_total. rewrite sumZ_snoc, inject_Z_plus, dval_add, He, dval_of. reflexivity.
Qed.

Lemma sum_units_means fp us t us0 t' : means fp t us0 -> sum_units us t = Ok t' -> means fp t' (us0 ++ us).
Proof.
  revert t us0. induction us as [|u us IH]; intros t us0 Hm E; simpl in E; [injection E as <-; by rewrite app_nil_r|].
  apply bind_result_Ok in E as (t1 & H1 & E). rewrite cons_middle, app_assoc. eapply IH; [|done].
  by eapply sum_unit_means.
Qed.

Lemma sumQ_perm {A} (f : A -> Q) l k : l ≡ₚ k -> (sumQ f l == sumQ f k)%Q.
Proof.
  unfold sumQ. induction 1; cbn [foldr].
  - reflexivity.
  - rewrite IHPermutation. reflexivity.
  - ring.
  - etransitivity; eassumption.
Qed.

Lemma foldl_dadd (l : list (string * Dec)) c :
  (dval (foldl (fun c kv => dadd c kv.2) c l) == dval c + sumQ (fun kv => dval kv.2) l)%Q.
Proof.
  revert c. induction l as [|kv l IH]; intros c; cbn [foldl sumQ foldr]; [ring|].
  rewrite IH, dval_add. unfold sumQ. ring.
Qed.

Lemma dval_div_eq a b c : (dval a == dval b)%Q -> (0 < dval c)%Q -> (dval (ddiv a c) == dval (ddiv b c))%Q.
Proof. intros E Hc. apply Qle_antisym; apply dval_div_mono; try done; rewrite E; apply Qle_refl. Qed.

Lemma mebibytes_pos : (0 < dval mebibytes)%Q.
Proof. unfold mebibytes. rewrite dval_of. reflexivity. Qed.

(** Two maps over the same keys, summed class by class. *)
Lemma sumQ_maps (m : gmap string Dec) (m2 : gmap string Dec) (F : string * Dec -> Q) :
  dom m2 = dom m ->
  (forall k x y, m !! k = Some x -> m2 !! k = Some y -> (dval y == F (k, x))%Q) ->
  (sumQ (fun kv => dval kv.2) (map_to_list m2) == sumQ F (map_to_list m))%Q.
Proof.
  revert m2. induction m as [|i x m Hi IH] using map_ind; intros m2 Hdom HF.
  - rewrite dom_empty_L in Hdom. apply dom_empty_inv_L in Hdom as ->. rewrite !map_to_list_empty. reflexivity.
  - assert (is_Some (m2 !! i)) as [y Hy] by (apply elem_of_dom; rewrite Hdom, dom_insert_L; set_solver).
    rewrite (sumQ_perm _ _ _ (map_to_list_insert m i x Hi)).
    rewrite <- (sumQ_perm _ _ _ (map_to_list_delete m2 i y Hy)). cbn [sumQ foldr snd].
    change (foldr _ 0%Q (map_to_list (delete i m2))) with (sumQ (fun kv => dval kv.2) (map_to_list (delete i m2))).
    change (foldr _ 0%Q (map_to_list m)) with (sumQ F (map_to_list m)).
    rewrite (HF i x y); [|apply lookup_insert_eq|done]. rewrite (IH (delete i m2)); [reflexivity| |].
    + rewrite dom_delete_L, Hdom, dom_insert_L. apply not_elem_of_dom_2 in Hi. set_solver.
    + intros k x' y' Hk [Hne Hk']%lookup_delete_Some. apply HF; [|done]. by rewrite lookup_insert_ne.
Qed.

(** The parts of the price, once all units are summed. *)
Section Parts.
Context (fp : scalePricing) (g : GroupSpec) (t : totals) (Ht : means fp t (gs_units g)).

Definition ip_part : Dec := dmul (dadd (dec_of 0) (ipScale fp))
  (dec_of (GetEndpointQuantityOfResourceGroup (RGGroupSpecPtr g) Endpoint_LEASED_IP)).

Definition total_part : Dec :=
  dadd (dadd (foldl (fun c kv => dadd c kv.2)
                (dadd (dmul (t_cpu t) (cpuScale fp)) (dmul (ddiv (t_memory t) mebibytes) (memoryScale fp)))
                (range_map (scaled_storage fp (t_storage t))))
          (dmul (t_endpoint t) (endpointScale fp))) ip_part.

Lemma mebibytes_means d z : (dval d == inject_Z z)%Q -> (dval (ddiv d mebibytes) == in_mebibytes z)%Q.
Proof. intros E. apply dval_div_eq; [|apply mebibytes_pos]. by rewrite E, dval_of. Qed.

Lemma scaled_storage_lookup class y :
  scaled_storage fp (t_storage t) !! class = Some y ->
  exists sc, storageScale fp !! class = Some sc /\
    (dval y == in_mebibytes (storage_total class (gs_units g)) * dval sc)%Q.
Proof.
  unfold scaled_storage. rewrite map_lookup_imap. destruct (t_storage t !! class) as [d|] eqn:Hd; [|done].
  assert (is_Some (storageScale fp !! class)) as [sc Hsc]
    by (apply elem_of_dom; rewrite <- (mn_dom _ _ _ Ht); by apply elem_of_dom_2 in Hd).
  simpl. rewrite Hsc. simpl. intros [= <-]. exists sc. split; [done|].
  by rewrite dval_mul, (mebibytes_means d _ (mn_storage _ _ _ Ht _ _ Hd)).
Qed.

Lemma scaled_storage_dom : dom (scaled_storage fp (t_storage t)) = dom (storageScale fp).
Proof.
  rewrite <- (mn_dom _ _ _ Ht). apply set_eq. intros k. unfold scaled_storage. rewrite !elem_of_dom, map_lookup_imap.
  destruct (t_storage t !! k); simpl; split; intros []; eauto; done.
Qed.

Lemma total_part_value : (dval total_part == price_spec fp g)%Q.
Proof.
  unfold total_part, ip_part, price_spec. rewrite !dval_add, foldl_dadd, !dval_add, !dval_mul, dval_add, !dval_of.
  rewrite (mn_cpu _ _ _ Ht), (mn_endpoint _ _ _ Ht), (mebibytes_means _ _ (mn_memory _ _ _ Ht)).
  rewrite (sumQ_perm _ _ _ (range_map_perm (scaled_storage fp (t_storage t)))).
  rewrite (sumQ_maps (storageScale fp) (scaled_storage fp (t_storage t))
    (fun kv => in_mebibytes (storage_total kv.1 (gs_units g)) * dval kv.2)%Q scaled_storage_dom).
  - change (inject_Z 0) with 0%Q. ring.
  - intros k x y Hx Hy. destruct (scaled_storage_lookup k y Hy) as (sc & Hsc & E).
    rewrite Hx in Hsc. injection Hsc as <-. exact E.
Qed.

End Parts.

Lemma means_start fp :
  means fp (mkTotals (dec_of 0) (dec_of 0) ((fun _ => dec_of 0) <$> storageScale fp) (dec_of 0)) [].
Proof.
  split; cbn [t_cpu t_memory t_storage t_endpoint]; try by rewrite dval_of.
  - apply dom_fmap_L.
  - intros class d Hd. rewrite lookup_fmap in Hd. apply fmap_Some in Hd as (? & _ & ->). by rewrite dval_of.
Qed.

(** C38: a price by scale is the configured formula: the sum over the resource units of
    CPU, memory and storage times their count, in mebibytes where they are bytes, times
    the scale of each, plus the endpoints and the leased IPs times theirs, in whatever
    order the storage classes are visited; it is in the denomination of the group's
    price and is more than zero. *)
Theorem scale_price_formula (fp : scalePricing) (price coin : DecCoin) (g : GroupSpec) :
  scale_CalculatePrice fp price g = Ok coin ->
  denom coin = denom price /\ (inject_Z (amount coin) == price_spec fp g * inject_Z (10 ^ 18))%Q /\
  (0 < amount coin <= LegacyMaxSortableDec)%Z.
Proof.
  unfold scale_CalculatePrice. intros E. apply bind_result_Ok in E as (t & Hs & E).
  pose proof (sum_units_means fp _ _ [] _ (means_start fp) Hs) as Ht. simpl in Ht.
  destruct (_ || _); [done|]. pose proof (total_part_value fp g t Ht) as Hv.
  change (dadd (dadd (foldl _ _ _) _) _) with (total_part fp g t) in E.
  destruct (dneg (total_part fp g t)) eqn:Hneg; [done|]. destruct (dzero (total_part fp g t)) eqn:Hzero; [done|].
  destruct (legacy_of (total_part fp g t)) as [cost|] eqn:Hl; [|done].
  destruct (Z.ltb_spec LegacyMaxSortableDec cost); [done|]. injection E as <-. simpl.
  pose proof (legacy_of_exact _ _ Hl) as Hc. split_and!; [done|by rewrite Hc, Hv| |lia].
  assert (0 < dval (total_part fp g t))%Q as Hpos.
  { apply Qnot_le_lt. intros Hle. apply Qle_lteq in Hle as [Hlt|Heq].
    - apply dneg_spec in Hlt. congruence.
    - apply dzero_spec in Heq. congruence. }
  assert (0 < inject_Z cost)%Q as Hcp by (rewrite Hc; apply Qmult_lt_0_compat; [done|reflexivity]).
  rewrite Zlt_Qlt. exact Hcp.
Qed.

(** *** Which orders are priced *)

(** The resources of a valid order: CPU and memory are given, and no quantity is
    negative. *)
Definition unit_ok (u : ResourceUnit) : Prop :=
  (exists c, r_cpu (ru_res u) = Some c /\ 0 <= units c)%Z /\
  (exists m, r_memory (ru_res u) = Some m /\ 0 <= m_quantity m)%Z /\
  Forall (fun v => 0 <= s_quantity v)%Z (r_storage (ru_res u)).

Definition priced (fp : scalePricing) (u : ResourceUnit) : Prop :=
  Forall (fun v => storage_class v ∈ dom (storageScale fp)) (r_storage (ru_res u)).

Lemma sum_storage_outcome count vs m :
  match sum_storage count vs m with
  | Ok m' => Forall (fun v => storage_class v ∈ dom m) vs
  | Err e => exists v, v ∈ vs /\ (storage_class v ∉ dom m) /\ e = errNoPriceScaleForStorageClass (storage_class v)
  end.
Proof.
  revert m. induction vs as [|v vs IH]; intros m; simpl; [by apply list.Forall_nil|].
  destruct (m !! storage_class v) as [d|] eqn:Hd.
  - specialize (IH (<[storage_class v := dadd d (dmul (dec_of (s_quantity v)) count)]> m)).
    assert (dom (<[storage_class v := dadd d (dmul (dec_of (s_quantity v)) count)]> m) = dom m) as E
      by (rewrite dom_insert_L; apply elem_of_dom_2 in Hd; set_solver).
    rewrite E in IH. destruct (sum_storage _ _ _).
    + apply list.Forall_cons. split; [by apply elem_of_dom_2 in Hd|done].
    + destruct IH as (v' & ? & ? & ?). exists v'. split_and!; [by right|done..].
  - exists v. split_and!; [left|by apply not_elem_of_dom|done].
Qed.

Lemma sum_units_outcome fp us t us0 :
  means fp t us0 -> Forall unit_ok us ->
  match sum_units us t with
  | Ok _ => Forall (priced fp) us
  | Err e => exists u v, u ∈ us /\ v ∈ r_storage (ru_res u) /\ (storage_class v ∉ dom (storageScale fp)) /\
      e = errNoPriceScaleForStorageClass (storage_class v)
  end.
Proof.
  revert t us0. induction us as [|u us IH]; intros t us0 Hm Hus; simpl; [by apply list.Forall_nil|].
  apply list.Forall_cons in Hus as [((c & Hc & _) & (m & Hmem & _) & _) Hus].
  assert (sum_unit u t = sum_unit u t) as E by done. unfold sum_unit at 2 in E. rewrite Hc, Hmem in E.
  pose proof (sum_storage_outcome (dec_of (Z.of_nat (ru_count u))) (r_storage (ru_res u)) (t_storage t)) as Ho.
  rewrite (mn_dom _ _ _ Hm) in Ho. destruct (sum_storage _ _ _) as [st|e]; simpl in E; rewrite E; simpl.
  - specialize (IH _ _ (sum_unit_means _ _ _ _ _ Hm E) Hus). destruct (sum_units us _).
    + apply list.Forall_cons. by split.
    + destruct IH as (u' & v & ? & ? & ? & ?). exists u', v. split_and!; [by right|done..].
  - destruct Ho as (v & ? & ? & ->). exists u, v. split_and!; [left|done..].
Qed.

Definition nonneg_scales (fp : scalePricing) : Prop :=
  (0 <= dval (cpuScale fp))%Q /\ (0 <= dval (memoryScale fp))%Q /\
  (forall class sc, storageScale fp !! class = Some sc -> (0 <= dval sc)%Q) /\
  (0 <= dval (endpointScale fp))%Q /\ (0 <= dval (ipScale fp))%Q.

Lemma dneg_false d : dneg d = false <-> (0 <= dval d)%Q.
Proof.
  rewrite <- not_true_iff_false, dneg_spec. split; [apply Qnot_lt_le|intros H1 H2; by apply (Qle_not_lt _ _ H1)].
Qed.

Lemma IsAnyNegative_false (m : gmap string Dec) :
  IsAnyNegative m = false <-> forall k d, m !! k = Some d -> (0 <= dval d)%Q.
Proof.
  unfold IsAnyNegative. rewrite <- not_true_iff_false, existsb_exists. split.
  - intros Hno k d Hd. apply dneg_false. apply not_true_iff_false. intros Hn. apply Hno.
    exists (k, d). split; [|done]. apply list_elem_of_In. by rewrite elem_of_range_map.
  - intros Hall ([k d] & Hin & Hn). apply list_elem_of_In in Hin. rewrite elem_of_range_map in Hin. simpl in Hn.
    apply Hall, dneg_false in Hin. congruence.
Qed.

(** The strategy made from the configured scales has no negative scale. *)
Lemma MakeScalePricing_nonneg fp fp' : MakeScalePricing fp = Ok fp' -> fp' = fp /\ nonneg_scales fp.
Proof.
  unfold MakeScalePricing. destruct (_ && _); [done|]. destruct (_ || _) eqn:E; [done|]. intros [= <-].
  rewrite !orb_false_iff, !dneg_false, IsAnyNegative_false in E. unfold nonneg_scales. tauto.
Qed.

Lemma inject_nonneg z : (0 <= z)%Z -> (0 <= inject_Z z)%Q.
Proof. intros Hz. change 0%Q with (inject_Z 0). by rewrite <- Zle_Qle. Qed.

Lemma in_mebibytes_mono a b : (a <= b)%Z -> (in_mebibytes a <= in_mebibytes b)%Q.
Proof.
  intros Hab. apply dval_div_mono; [|apply mebibytes_pos]. rewrite !dval_of. by rewrite <- Zle_Qle.
Qed.

Lemma in_mebibytes_nonneg z : (0 <= z)%Z -> (0 <= in_mebibytes z)%Q.
Proof.
  intros Hz. rewrite <- (dval_div_zero (dec_of 0) mebibytes); [by apply in_mebibytes_mono|by rewrite dval_of|
    apply mebibytes_pos].
Qed.

Lemma sumZ_Forall {A} (f : A -> Z) (P : A -> Prop) l : (forall x, P x -> 0 <= f x)%Z -> Forall P l -> (0 <= sumZ f l)%Z.
Proof. intros Hf Hl. apply sumZ_nonneg. intros x Hx. apply Hf. rewrite list.Forall_forall in Hl. by apply Hl. Qed.

Lemma volume_total_nonneg class n vs : Forall (fun v => 0 <= s_quantity v)%Z vs -> (0 <= volume_total class n vs)%Z.
Proof. apply sumZ_Forall. intros v Hv. destruct (String.eqb _ _); nia. Qed.

Lemma totals_nonneg us :
  Forall unit_ok us ->
  (0 <= cpu_total us)%Z /\ (0 <= memory_total us)%Z /\ (forall class, 0 <= storage_total class us)%Z /\
  (0 <= endpoint_total us)%Z.
Proof.
  intros Hus. split_and!; [| |intros class|]; (eapply sumZ_Forall; [|exact Hus]); intros u ((c & Hc & ?) & (m & Hm & ?) & Hs).
  - rewrite Hc. nia.
  - rewrite Hm. nia.
  - by apply volume_total_nonneg.
  - lia.
Qed.

(** Every valid order gets a price or a reason: with scales that are not negative,
    an order is refused for its storage class exactly when a class has no scale, for a
    price of zero exactly when the formula is zero, and otherwise only because the
    price does not fit the chain's decimals; it is never refused for a negative
    amount, and nothing panics. *)
Theorem scale_price_total (fp : scalePricing) (price : DecCoin) (g : GroupSpec) :
  nonneg_scales fp -> Forall unit_ok (gs_units g) ->
  (exists u v, u ∈ gs_units g /\ v ∈ r_storage (ru_res u) /\ (storage_class v ∉ dom (storageScale fp)) /\
     scale_CalculatePrice fp price g = Err (errNoPriceScaleForStorageClass (storage_class v))) \/
  (Forall (priced fp) (gs_units g) /\
   exists total, (dval total == price_spec fp g)%Q /\
     scale_CalculatePrice fp price g =
       if dzero total then Err ErrBidZero
       else match legacy_of total with
            | None => Err PriceConversion
            | Some cost => if (LegacyMaxSortableDec <? cost)%Z then Err ErrBidQuantityInvalid
                           else Ok (mkDecCoin (denom price) cost)
            end).
Proof.
  intros (Hc & Hm & Hs & He & Hi) Hus. unfold scale_CalculatePrice.
  pose proof (sum_units_outcome fp (gs_units g) _ [] (means_start fp) Hus) as Ho.
  destruct (sum_units (gs_units g) _) as [t|e] eqn:Hsum; simpl; [right|left].
  2:{ destruct Ho as (u & v & ? & ? & ? & ->). by exists u, v. }
  split; [done|]. pose proof (sum_units_means fp _ _ [] _ (means_start fp) Hsum) as Ht. simpl in Ht.
  destruct (totals_nonneg _ Hus) as (H1 & H2 & H3 & H4).
  assert (dneg (dmul (t_cpu t) (cpuScale fp)) = false) as ->
    by (apply dneg_false; rewrite dval_mul, (mn_cpu _ _ _ Ht); apply Qmult_le_0_compat; [by apply inject_nonneg|done]).
  assert (dneg (dmul (ddiv (t_memory t) mebibytes) (memoryScale fp)) = false) as ->
    by (apply dneg_false; rewrite dval_mul, (mebibytes_means _ _ (mn_memory _ _ _ Ht));
        apply Qmult_le_0_compat; [by apply in_mebibytes_nonneg|done]).
  assert (IsAnyNegative (scaled_storage fp (t_storage t)) = false) as ->.
  { apply IsAnyNegative_false. intros class d Hd. destruct (scaled_storage_lookup fp g t Ht class d Hd) as (sc & Hsc & E).
    rewrite E. apply Qmult_le_0_compat; [apply in_mebibytes_nonneg, H3|by eapply Hs]. }
  assert (dneg (dmul (t_endpoint t) (endpointScale fp)) = false) as ->
    by (apply dneg_false; rewrite dval_mul, (mn_endpoint _ _ _ Ht); apply Qmult_le_0_compat; [by apply inject_nonneg|done]).
  assert (dneg (ip_part fp g) = false) as Hip.
  { apply dneg_false. unfold ip_part. rewrite dval_mul, dval_add, !dval_of. apply Qmult_le_0_compat.
    - change (inject_Z 0) with 0%Q. by rewrite Qplus_0_l.
    - apply inject_nonneg. unfold GetEndpointQuantityOfResourceGroup. lia. }
  unfold ip_part in Hip. rewrite Hip. simpl.
  change (dadd (dadd (foldl _ _ _) _) _) with (total_part fp g t).
  exists (total_part fp g t). pose proof (total_part_value fp g t Ht) as Hv. split; [done|].
  assert (dneg (total_part fp g t) = false) as ->; [|done].
  apply dneg_false. rewrite Hv. unfold price_spec.
  assert (0 <= sumQ (fun kv => in_mebibytes (storage_total kv.1 (gs_units g)) * dval kv.2) (map_to_list (storageScale fp)))%Q.
  { assert (forall kv, kv ∈ map_to_list (storageScale fp) -> 0 <= dval kv.2)%Q as Hall
      by (intros [k d] Hin; apply elem_of_map_to_list in Hin; by eapply Hs).
    induction (map_to_list (storageScale fp)) as [|kv l IH]; [apply Qle_refl|]. cbn [sumQ foldr].
    apply (Qplus_le_compat 0 _ 0); [|apply IH; intros; apply Hall; by right].
    apply Qmult_le_0_compat; [by apply in_mebibytes_nonneg|apply Hall; left]. }
  repeat apply (Qplus_le_compat 0 _ 0); try done; apply Qmult_le_0_compat; try done;
    first [by apply inject_nonneg|by apply in_mebibytes_nonneg|apply inject_nonneg; unfold GetEndpointQuantityOfResourceGroup; lia].
Qed.

(** *** Larger orders *)

Lemma accumEndpoints_mono r kind acc : acc ⊆ accumEndpointsOfResources r kind acc.
Proof.
  unfold accumEndpointsOfResources. apply (foldl_keeps _ (fun a => acc ⊆ a)); [|done].
  intros a e _ Ha. case_decide; set_solver.
Qed.

Lemma leased_ips_mono us u kind :
  (GetEndpointQuantityOfResourceGroup (RGGroupSpecPtr (mkGroupSpec "" [] us)) kind <=
   GetEndpointQuantityOfResourceGroup (RGGroupSpecPtr (mkGroupSpec "" [] (us ++ [u]))) kind)%Z.
Proof.
  unfold GetEndpointQuantityOfResourceGroup. simpl. rewrite foldl_snoc. apply Nat2Z.inj_le, subseteq_size, accumEndpoints_mono.
Qed.

Lemma Qmult_mono a b c : (a <= b)%Q -> (0 <= c)%Q -> (a * c <= b * c)%Q.
Proof. intros. by apply Qmult_le_compat_r. Qed.

Lemma price_spec_mono fp name reqs us u :
  nonneg_scales fp -> unit_ok u ->
  (price_spec fp (mkGroupSpec name reqs us) <= price_spec fp (mkGroupSpec name reqs (us ++ [u])))%Q.
Proof.
  intros (Hc & Hm & Hs & He & Hi) Hu. unfold price_spec. cbn [gs_units].
  pose proof (leased_ips_mono us u Endpoint_LEASED_IP) as Hips.
  destruct Hu as ((c & Hcpu & ?) & (m & Hmem & ?) & Hst).
  repeat apply Qplus_le_compat.
  - apply Qmult_mono; [|done]. unfold cpu_total. rewrite <- Zle_Qle, sumZ_snoc, Hcpu. nia.
  - apply Qmult_mono; [|done]. apply in_mebibytes_mono. unfold memory_total. rewrite sumZ_snoc, Hmem. nia.
  - assert (forall kv, kv ∈ map_to_list (storageScale fp) -> 0 <= dval kv.2)%Q as Hall
      by (intros [k d] Hin; apply elem_of_map_to_list in Hin; by eapply Hs).
    induction (map_to_list (storageScale fp)) as [|kv l IH]; [apply Qle_refl|]. cbn [sumQ foldr].
    apply Qplus_le_compat; [|apply IH; intros; apply Hall; by right].
    apply Qmult_mono; [|apply Hall; left]. apply in_mebibytes_mono. unfold storage_total. rewrite sumZ_snoc.
    pose proof (volume_total_nonneg kv.1 (ru_count u) _ Hst). lia.
  - apply Qmult_mono; [|done]. unfold endpoint_total. rewrite <- Zle_Qle, sumZ_snoc. lia.
  - rewrite !(Qmult_comm (dval (ipScale fp))). apply Qmult_mono; [|done]. rewrite <- Zle_Qle. exact Hips.
Qed.

(** Asking for more never costs less: adding a resource unit to an order does not
    lower its price. *)
Theorem scale_price_monotone (fp : scalePricing) (price coin coin' : DecCoin) (name : string) (reqs : Attributes)
    (us : list ResourceUnit) (u : ResourceUnit) :
  nonneg_scales fp -> unit_ok u ->
  scale_CalculatePrice fp price (mkGroupSpec name reqs us) = Ok coin ->
  scale_CalculatePrice fp price (mkGroupSpec name reqs (us ++ [u])) = Ok coin' ->
  (amount coin <= amount coin')%Z.
Proof.
  intros Hfp Hu H1 H2. assert (forall c g, scale_CalculatePrice fp price g = Ok c ->
    (inject_Z (amount c) == price_spec fp g * inject_Z (10 ^ 18))%Q) as Hf.
  { intros c g E. unfold scale_CalculatePrice in E. apply bind_result_Ok in E as (t & Hs & E).
    pose proof (sum_units_means fp _ _ [] _ (means_start fp) Hs) as Ht. simpl in Ht.
    destruct (_ || _); [done|]. change (dadd (dadd (foldl _ _ _) _) _) with (total_part fp g t) in E.
    repeat (case_match; try done). injection E as <-. simpl. rewrite (legacy_of_exact _ _ H3).
    by rewrite (total_part_value fp g t Ht). }
  rewrite Zle_Qle, (Hf _ _ H1), (Hf _ _ H2). apply Qmult_mono; [by apply price_spec_mono|]. done.
Qed.

(** *** What goes wrong *)

(** Scales that are not all zero are rejected as all zero: with several storage
    classes, one class priced at zero is enough when only storage is priced, although
    another class has a price and the error says that at least one must be non-zero. *)
Theorem storage_only_scales_rejected (fp : scalePricing) (free paid : string) (zero price : Dec) :
  dzero (cpuScale fp) = true -> dzero (memoryScale fp) = true -> dzero (endpointScale fp) = true ->
  dzero (ipScale fp) = true ->
  storageScale fp !! free = Some zero -> dzero zero = true ->
  storageScale fp !! paid = Some price -> (0 < dval price)%Q ->
  MakeScalePricing fp = Err errAllScalesZero.
Proof.
  intros Hc Hm He Hi Hfree Hz _ _. unfold MakeScalePricing. rewrite Hc, Hm, He, Hi.
  assert (IsAnyZero (storageScale fp) = true) as ->; [|done].
  unfold IsAnyZero. apply orb_true_iff. right. apply existsb_exists. exists (free, zero). split; [|done].
  apply list_elem_of_In. by rewrite elem_of_range_map.
Qed.

End Formula.

(** ** Prices by script *)

Record gpuVendorAttributes := mkVendorAttrs { va_Model : string; va_RAM : option string; va_Interface : option string }.

Record gpuElement := mkGpuElement { ge_Units : Z; ge_Vendor : gmap string gpuVendorAttributes }.

Record storageElement := mkStorageElement { se_Class : string; se_Size : Z }.

Record dataForScriptElement := mkScriptElement {
  ds_Memory : Z; ds_CPU : Z; ds_GPU : gpuElement; ds_Storage : list storageElement; ds_Count : nat;
  ds_EndpointQuantity : Z; ds_IPLeaseQuantity : Z
}.

Record dataForScript := mkScriptData {
  sd_Resources : list dataForScriptElement; sd_Price : DecCoin; sd_PricePrecision : option Z;
  sd_ConfidentialCompute : bool
}.

(** The pairs of tokens after the model; an odd one is read past the end. *)
Fixpoint script_gpu_tokens (tokens : list string) (attrs : gpuVendorAttributes) : option gpuVendorAttributes :=
  match tokens with
  | [] => Some attrs
  | [_] => None
  | key :: val :: rest =>
      script_gpu_tokens rest
        (if String.eqb key "ram" then mkVendorAttrs (va_Model attrs) (Some val) (va_Interface attrs)
         else if String.eqb key "interface" then mkVendorAttrs (va_Model attrs) (va_RAM attrs) (Some val)
         else attrs)
  end.

(** [None] is a panic. *)
Definition script_gpu_attr (vendors : gmap string gpuVendorAttributes) (key : string)
    : option (gmap string gpuVendorAttributes) :=
  let tokens := split "/"%char key in
  match tokens with
  | [] => None
  | t0 :: _ =>
      if String.eqb t0 "vendor" then
        match tokens with
        | _ :: vendor :: _ :: model :: rest =>
            attrs ← script_gpu_tokens rest (mkVendorAttrs model None None);
            Some (<[vendor := attrs]> vendors)
        | _ => None
        end
      else Some vendors
  end.

Fixpoint script_gpu_attrs (attrs : Attributes) (vendors : gmap string gpuVendorAttributes)
    : option (gmap string gpuVendorAttributes) :=
  match attrs with
  | [] => Some vendors
  | a :: rest => vendors ← script_gpu_attr vendors (Key a); script_gpu_attrs rest vendors
  end.

Definition parseGPU (gpu : Units) : option gpuElement :=
  vendors ← script_gpu_attrs (u_attrs gpu) ∅; Some (mkGpuElement (units gpu) vendors).

Section Script.
Context `{PricingAPI}.

Definition parseStorage (volumes : list Storage) : list storageElement :=
  map (fun v => mkStorageElement
         (match AttrAsString (s_attrs v) attrClass with
          | Some class => if String.eqb class "" then StorageEphemeral else class
          | None => StorageEphemeral
          end) (s_quantity v)) volumes.

Definition script_element (u : ResourceUnit) : option dataForScriptElement :=
  let r := ru_res u in
  cpu ← r_cpu r; gpu0 ← r_gpu r; gpu ← parseGPU gpu0; mem ← r_memory r;
  Some (mkScriptElement (m_quantity mem) (units cpu) gpu (parseStorage (r_storage r)) (ru_count u)
    (Z.of_nat (length (r_endpoints r))) (GetEndpointQuantityOfResourceUnits r Endpoint_LEASED_IP)).

(** The elements have room for the resources of the order, but are those of the
    allocated ones when there are any: writing past the end panics, and what is not
    written stays zero. *)
Definition script_elements (room : nat) (us : list ResourceUnit) : option (list dataForScriptElement) :=
  es ← mapM script_element us;
  if (length es <=? room)%nat
  then Some (es ++ replicate (room - length es) (mkScriptElement 0 0 (mkGpuElement 0 ∅) [] 0 0 0))
  else None.

Definition newDataForScript (price : DecCoin) (g : GroupSpec) (allocated : list ResourceUnit) (precision : Z)
    : option dataForScript :=
  es ← script_elements (length (gs_units g)) (match allocated with [] => gs_units g | _ => allocated end);
  Some (mkScriptData es price (if (0 <? precision)%Z then Some precision else None)
    (existsb (fun a => String.eqb (Key a) "confidential-compute" && String.eqb (Value a) "true") (gs_requirements g))).

(** What the script did: it ran out of its time, it failed, or it printed a text,
    [None] when that is blank, which [parse] reads as an amount. *)
Inductive script_outcome := ScriptTimeout | ScriptFailed | ScriptPrinted (text : option string).

Definition script_price (parse : string -> option Z) (price : DecCoin) (o : script_outcome)
    : result price_error DecCoin :=
  match o with
  | ScriptTimeout | ScriptFailed => Err PriceScript
  | ScriptPrinted None => Err ErrBidQuantityInvalid
  | ScriptPrinted (Some text) =>
      match parse text with
      | None => Err ErrBidQuantityInvalid
      | Some v => if (v =? 0)%Z then Err ErrBidZero
                  else if (v <? 0)%Z then Err ErrBidQuantityInvalid
                  else Ok (mkDecCoin (denom price) v)
      end
  end.

End Script.

Section ScriptTheorems.
Context `{HA : PricingAPI} {api : InventoryAPI}.

Lemma script_gpu_tokens_even tokens attrs :
  Nat.even (length tokens) = true -> is_Some (script_gpu_tokens tokens attrs).
Proof.
  revert attrs. induction tokens as [[|a [|b tokens]] IH] using (induction_ltof1 _ length); intros attrs He; simpl in *;
    [by eexists|done|]. apply IH; [unfold ltof; simpl; lia|done].
Qed.

Lemma script_gpu_attr_ok vendors key r : parse_gpu_key key = Ok r -> is_Some (script_gpu_attr vendors key).
Proof.
  unfold parse_gpu_key, script_gpu_attr. destruct (split "/"%char key) as [|t0 [|vendor [|t2 [|model rest]]]]; try done.
  destruct (_ || _) eqn:E; [done|]. intros _. destruct (String.eqb t0 "vendor"); [|by eexists].
  apply orb_false_iff in E as [_ E]. apply negb_false_iff in E.
  destruct (script_gpu_tokens_even rest (mkVendorAttrs model None None)) as [a ->]; [done|]. by eexists.
Qed.

Lemma script_gpu_attrs_ok attrs nvidia amd res vendors :
  parse_gpu_loop attrs nvidia amd = Ok res -> is_Some (script_gpu_attrs attrs vendors).
Proof.
  revert nvidia amd vendors. induction attrs as [|a attrs IH]; intros nvidia amd vendors E; simpl in *; [by eexists|].
  destruct (String.eqb_spec (Key a) AttributeGPUInterconnectGroupKey) as [->|Hne].
  - assert (script_gpu_attr vendors AttributeGPUInterconnectGroupKey = Some vendors) as -> by done. simpl. by eapply IH.
  - destruct (parse_gpu_key (Key a)) as [r|] eqn:Hk; [|done].
    destruct (script_gpu_attr_ok vendors (Key a) r Hk) as [v ->]. simpl.
    destruct r as [[vendor model] mattrs]. destruct (String.eqb _ _); [by eapply IH|].
    destruct (String.eqb _ _); [by eapply IH|done].
Qed.

(** The resources of an order the inventory has accepted: nothing is missing and the
    GPU attributes are ones it could parse. *)
Definition script_ok (u : ResourceUnit) : Prop :=
  is_Some (r_cpu (ru_res u)) /\ is_Some (r_memory (ru_res u)) /\
  exists gpu, r_gpu (ru_res u) = Some gpu /\ is_ok (ParseGPUAttributes (u_attrs gpu)) = true.

(** Pricing by script does not panic on an order the inventory has accepted: GPU
    attributes that the placement could parse are read without running past their
    tokens, and when the allocated resources are as many as the ordered ones, the
    script gets one element for each, in order, with nothing made up. *)
Theorem script_data_total (price : DecCoin) (g : GroupSpec) (allocated : list ResourceUnit) (precision : Z) :
  let us := match allocated with [] => gs_units g | _ => allocated end in
  Forall script_ok us -> length us = length (gs_units g) ->
  exists d, newDataForScript price g allocated precision = Some d /\
    length (sd_Resources d) = length us /\
    forall i u, us !! i = Some u -> exists e, sd_Resources d !! i = Some e /\ script_element u = Some e.
Proof.
  intros us Hok Hlen. unfold newDataForScript. fold us. unfold script_elements.
  assert (exists es, mapM script_element us = Some es) as [es Hes].
  { apply mapM_is_Some. eapply list.Forall_impl; [exact Hok|]. intros u ([c Hc] & [m Hm] & gpu & Hg & Hp).
    unfold compose, script_element. rewrite Hc, Hg. simpl. unfold parseGPU.
    assert (is_Some (script_gpu_attrs (u_attrs gpu) ∅)) as [v ->].
    { unfold ParseGPUAttributes in Hp. destruct (parse_gpu_loop (u_attrs gpu) ∅ ∅) as [r|] eqn:E; [|done].
      by eapply script_gpu_attrs_ok. }
    simpl. rewrite Hm. by eexists. }
  pose proof (length_mapM _ _ _ Hes) as Hl. rewrite Hes. simpl. rewrite <- Hl, Hlen, Nat.leb_refl, Nat.sub_diag.
  simpl. rewrite app_nil_r. eexists. split; [done|]. simpl. split; [lia|].
  intros i u Hu. apply mapM_Some in Hes. destruct (Forall2_lookup_l _ _ _ _ _ Hes Hu) as (e & He & Hue). by exists e.
Qed.

(** The price a script prints is bid only if it is more than zero; a script that
    times out, fails, prints nothing or prints something else never leads to a bid. *)
Theorem script_price_positive (parse : string -> option Z) (price coin : DecCoin) (o : script_outcome) :
  script_price parse price o = Ok coin <->
  exists text, o = ScriptPrinted (Some text) /\ parse text = Some (amount coin) /\
    (0 < amount coin)%Z /\ denom coin = denom price.
Proof.
  split.
  - destruct o as [| |[text|]]; simpl; try done. destruct (parse text) as [v|] eqn:Hp; [|done].
    destruct (Z.eqb_spec v 0); [done|]. destruct (Z.ltb_spec v 0); [done|]. intros [= <-].
    exists text. simpl. split_and!; [done|done|lia|done].
  - intros (text & -> & Hp & Hpos & Hd). simpl. rewrite Hp. destruct (Z.eqb_spec (amount coin) 0); [lia|].
    destruct (Z.ltb_spec (amount coin) 0); [lia|]. rewrite <- Hd. by destruct coin.
Qed.

End ScriptTheorems.

(** ** Prices at random *)

(** The chain's decimals in units of 10^-18, and the sums of memory in [calculatePriceRange]. *)
Definition legacy_one : Z := 10 ^ 18.

Fixpoint group_memory (us : list ResourceUnit) : option Z :=
  match us with
  | [] => Some 0%Z
  | u :: rest => mem ← r_memory (ru_res u); total ← group_memory rest;
                 Some (m_quantity mem * Z.of_nat (ru_count u) + total)%Z
  end.

Definition calculatePriceRange (price : DecCoin) (g : GroupSpec) : option (DecCoin * DecCoin) :=
  mem ← group_memory (gs_units g);
  let cmin := (Z.quot (mem * 50) (2 ^ 30) * legacy_one)%Z in
  let cmax := (Z.quot (mem * 1048576) (2 ^ 30) * legacy_one)%Z in
  let cmax := if (amount price <? cmax)%Z then amount price else cmax in
  let cmin := if (cmin =? 0)%Z then legacy_one else cmin in
  let cmax := if (cmax =? 0)%Z then legacy_one else cmax in
  (* a negative amount makes no coin *)
  if (cmin <? 0)%Z || (cmax <? 0)%Z then None else Some (mkDecCoin (denom price) cmin, mkDecCoin (denom price) cmax).

(** [draw n] is the answer of [rand.Int] for the bound [n]. *)
Definition random_CalculatePrice (draw : Z -> option Z) (price : DecCoin) (g : GroupSpec) : result price_error DecCoin :=
  match calculatePriceRange price g with
  | None => Err PricePanic
  | Some (minPrice, maxPrice) =>
      if (amount minPrice =? amount maxPrice)%Z then Ok maxPrice
      else
        let scale := 10000%Z in
        let delta := ((amount maxPrice - amount minPrice) * scale)%Z in
        let minbid := Z.quot delta legacy_one in
        if (minbid <? - 2 ^ 63)%Z || (2 ^ 63 <=? minbid)%Z then Err PricePanic
        else
          let minbid := if (minbid <? 1)%Z then 1%Z else minbid in
          match draw minbid with
          | None => Err PriceConversion
          | Some val =>
              let scaledValue := Z.quot (Z.quot (val * legacy_one) scale) 100 in
              Ok (mkDecCoin (denom minPrice) (amount minPrice + scaledValue))
          end
  end.

(** A random price is in the lowest hundredth of the range from the minimum to the
    maximum the order pays, not anywhere in it: what is drawn is divided by a hundred
    more than the range was scaled by. An order that pays less than the minimum is
    priced at the minimum. *)
Theorem random_price_low (draw : Z -> option Z) (price minPrice maxPrice coin : DecCoin) (g : GroupSpec) :
  (forall n v, draw n = Some v -> 0 <= v < n)%Z ->
  calculatePriceRange price g = Some (minPrice, maxPrice) -> random_CalculatePrice draw price g = Ok coin ->
  (amount minPrice < amount maxPrice ->
   amount minPrice <= amount coin <= amount minPrice + (amount maxPrice - amount minPrice) / 100)%Z /\
  (amount maxPrice <= amount minPrice -> amount coin = amount minPrice)%Z.
Proof.
  intros Hdraw Hr E. unfold random_CalculatePrice in E. rewrite Hr in E.
  destruct (Z.eqb_spec (amount minPrice) (amount maxPrice)) as [He|Hne]; [injection E as <-; lia|].
  set (delta := (amount maxPrice - amount minPrice)%Z) in *. cbv zeta in E.
  destruct (_ || _) eqn:Hfit; [done|]. set (q := Z.quot (delta * 10000) legacy_one) in *.
  destruct (draw (if (q <? 1)%Z then 1%Z else q)) as [v|] eqn:Hd; [|done]. apply Hdraw in Hd.
  injection E as <-. simpl. assert (legacy_one = 10 ^ 18)%Z as H1 by done.
  assert (0 <= v * legacy_one)%Z as Hv0 by nia.
  rewrite (Z.quot_div_nonneg (v * legacy_one) 10000) by lia.
  rewrite (Z.quot_div_nonneg _ 100) by (first [apply Z.div_pos; lia|lia]). rewrite Z.div_div by lia.
  change (10000 * 100)%Z with 1000000%Z. split.
  - intros Hlt. assert (0 < delta)%Z as Hpos by lia.
    assert (q = delta * 10000 / legacy_one)%Z as Hq by (apply Z.quot_div_nonneg; lia).
    assert (0 <= v * legacy_one / 1000000)%Z by (apply Z.div_pos; lia). split; [lia|].
    apply Z.add_le_mono_l. destruct (Z.ltb_spec q 1).
    + assert (v = 0)%Z as -> by lia. rewrite Z.mul_0_l, Z.div_0_l by lia. apply Z.div_pos; lia.
    + apply Z.div_le_lower_bound; [lia|].
      pose proof (Z.mul_div_le (v * legacy_one) 1000000). pose proof (Z.mul_div_le (delta * 10000) legacy_one).
      nia.
  - intros Hle. assert (q < 1)%Z as Hq.
    { unfold q. pose proof (Z.quot_le_mono (delta * 10000) 0 legacy_one).
      rewrite Z.quot_0_l in * by lia. lia. }
    apply Z.ltb_lt in Hq. rewrite Hq in Hd. assert (v = 0)%Z as -> by lia.
    rewrite Z.mul_0_l, Z.div_0_l by lia. lia.
Qed.

(** ** Examples *)

Module PricingExamples.

(** Decimals as rationals; a quotient is rounded to 16 digits, halves away from zero. *)
Definition round_half (n d : Z) : Z :=
  if (0 <=? n)%Z then ((2 * n + d) / (2 * d))%Z else (- ((2 * - n + d) / (2 * d)))%Z.

Definition round16 (q : Q) : Q := (round_half (Qnum q * 10 ^ 16) (Zpos (Qden q)) # 10 ^ 16)%Q.

Lemma div_cross a b c d : (0 < b -> 0 < d -> a * d <= c * b -> a / b <= c / d)%Z.
Proof.
  intros Hb Hd H. apply Z.div_le_lower_bound; [done|]. pose proof (Z.mul_div_le a b Hb) as Hm.
  apply (Zmult_le_reg_r _ _ b); [lia|]. apply (Z.le_trans _ (a * d)); [|lia].
  replace (d * (a / b) * b)%Z with (b * (a / b) * d)%Z by ring. apply Z.mul_le_mono_nonneg_r; lia.
Qed.

Lemma round_half_mono n d n' d' :
  (0 < d -> 0 < d' -> n * d' <= n' * d -> round_half n d <= round_half n' d')%Z.
Proof.
  intros Hd Hd' H. unfold round_half. destruct (Z.leb_spec 0 n), (Z.leb_spec 0 n').
  - apply div_cross; nia.
  - exfalso. nia.
  - pose proof (Z.div_pos (2 * - n + d) (2 * d)). pose proof (Z.div_pos (2 * n' + d') (2 * d')). lia.
  - rewrite <- Z.opp_le_mono. apply div_cross; nia.
Qed.

#[export] Instance q_pricing : PricingAPI := {|
  Dec := Q;
  dec_of := inject_Z;
  dadd := Qplus;
  dmul := Qmult;
  ddiv a b := round16 (a / b)%Q;
  dzero d := Qeq_bool d 0;
  dneg d := negb (Qle_bool 0 d);
  legacy_of d := if (Qnum d * 10 ^ 18 mod Zpos (Qden d) =? 0)%Z then Some (Qnum d * 10 ^ 18 / Zpos (Qden d))%Z else None;
  LegacyMaxSortableDec := 10 ^ 36;
  AttrAsBool attrs key := existsb (fun a => String.eqb (Key a) key && String.eqb (Value a) "true") attrs;
  AttrAsString attrs key := Value <$> List.find (fun a => String.eqb (Key a) key) attrs;
  attrPersistent := "persistent";
  attrClass := "class";
  StorageEphemeral := "ephemeral"
|}.

#[export] Instance q_laws : PricingLaws.
Proof.
  refine {| dval := fun d : @Dec q_pricing => (d : Q) |}; simpl; try reflexivity.
  - intros a b c Hab Hc. unfold round16, Qle. cbn [Qnum Qden]. apply Z.mul_le_mono_nonneg_r; [done|].
    apply round_half_mono; [done|done|].
    assert (a / c <= b / c)%Q as H by (apply Qle_shift_div_l; [done|];
      rewrite Qmult_comm, Qmult_div_r; [done|intros E; rewrite E in Hc; by apply Qlt_irrefl in Hc]).
    unfold Qle in H. nia.
  - intros a c Ha Hc. assert (a / c == 0)%Q as H by (rewrite Ha; reflexivity).
    unfold round16, Qeq in *. cbn [Qnum Qden] in *. rewrite Z.mul_0_l in *. rewrite Z.mul_1_r in *.
    rewrite H. unfold round_half. cbn [Z.mul Z.leb Z.compare Z.opp Z.add]. rewrite Z.div_small; [done|lia].
  - intros d. apply Qeq_bool_iff.
  - intros d. rewrite negb_true_iff, <- not_true_iff_false, Qle_bool_iff. split; [apply Qnot_le_lt|apply Qlt_not_le].
  - intros d z. destruct (Z.eqb_spec (Qnum d * 10 ^ 18 mod Zpos (Qden d)) 0) as [E|]; [|done]. intros [= <-].
    unfold Qeq. cbn [Qnum Qden inject_Z Qmult]. rewrite Z.mul_1_r.
    pose proof (Z.div_mod (Qnum d * 10 ^ 18) (Zpos (Qden d))). rewrite Pos.mul_1_r. lia.
Defined.

Definition scales : scalePricing :=
  mkScale (1 # 100 : @Dec q_pricing)%Q (1 # 50)%Q {[ "ephemeral" := (1 # 1000)%Q; "beta2" := (1 # 200)%Q ]} (1 # 2)%Q 5%Q.

Definition units_of (cpu mem : Z) (storage : list Storage) : Resources :=
  mkResources 1 (Some (mkUnits cpu [])) (Some (mkMemory mem [])) storage
    (Some (mkUnits 1 [mkAttribute "vendor/nvidia/model/a100/ram/80Gi" "true"])) [].

Definition vols : list Storage :=
  [mkStorage "default" (2 ^ 30) []; mkStorage "data" (2 ^ 31) [mkAttribute "persistent" "true"; mkAttribute "class" "beta2"]].

Definition unit1 : ResourceUnit := mkResourceUnit (units_of 1000 (2 ^ 29) vols) 2.

Definition group1 : GroupSpec := mkGroupSpec "g" [] [unit1].
Definition group2 : GroupSpec := mkGroupSpec "g" [] [unit1; unit1].
Definition offer : DecCoin := mkDecCoin "uakt" (500 * legacy_one).

Definition price1 : result price_error DecCoin := @scale_CalculatePrice q_pricing sorted_range scales offer group1.

Definition coin_of (r : result price_error DecCoin) : DecCoin := match r with Ok c => c | Err _ => mkDecCoin "" 0 end.

Lemma scales_nonneg : @nonneg_scales q_pricing q_laws scales.
Proof.
  unfold nonneg_scales. split_and!; [by vm_compute|by vm_compute| |by vm_compute|by vm_compute].
  intros class sc Hsc. unfold scales in Hsc. cbn [storageScale] in Hsc.
  apply lookup_insert_Some in Hsc as [[_ <-]|[_ Hsc]]; [vm_compute; discriminate|].
  apply lookup_singleton_Some in Hsc as [_ <-]. vm_compute. discriminate.
Qed.

Lemma unit1_ok : unit_ok unit1.
Proof. unfold unit_ok. split_and!; [by eexists|by eexists|by repeat apply list.Forall_cons_2]. Qed.

Lemma scale_price_formula_witness :
  price1 = Ok (coin_of price1) /\ (0 < amount (coin_of price1))%Z.
Proof.
  split; [vm_compute; reflexivity|].
  destruct (@scale_price_formula q_pricing q_laws sorted_range scales offer (coin_of price1) group1) as (_ & _ & H & _);
    [vm_compute; reflexivity|exact H].
Defined.

Lemma scale_price_total_witness :
  is_ok price1 = true.
Proof.
  destruct (@scale_price_total q_pricing q_laws sorted_range scales offer group1 scales_nonneg) as [(u & v & _ & _ & _ & E)|(_ & total & _ & E)].
  - apply list.Forall_cons_2; [exact unit1_ok|apply list.Forall_nil_2].
  - exfalso. fold price1 in E. vm_compute in E. discriminate E.
  - vm_compute. reflexivity.
Defined.

Lemma scale_price_monotone_witness :
  (amount (coin_of price1) <= amount (coin_of (@scale_CalculatePrice q_pricing sorted_range scales offer group2)))%Z.
Proof.
  apply (@scale_price_monotone q_pricing q_laws sorted_range scales offer _ _ "g" [] [unit1] unit1 scales_nonneg unit1_ok);
    vm_compute; reflexivity.
Defined.

Definition storage_scales : scalePricing :=
  mkScale (0 : @Dec q_pricing)%Q 0%Q {[ "ephemeral" := 0%Q; "beta2" := (1 # 200)%Q ]} 0%Q 0%Q.

Lemma storage_only_scales_rejected_witness : @MakeScalePricing q_pricing sorted_range storage_scales = Err errAllScalesZero.
Proof.
  by apply (@storage_only_scales_rejected q_pricing q_laws sorted_range storage_scales "ephemeral" "beta2" 0%Q (1 # 200)%Q).
Defined.

Lemma script_data_total_witness :
  is_Some (@newDataForScript q_pricing offer group1 [unit1] 6).
Proof.
  destruct (@script_data_total q_pricing milli_api offer group1 [unit1] 6) as (d & E & _).
  - apply list.Forall_cons_2; [|apply list.Forall_nil_2].
    split; [by eexists|]. split; [by eexists|]. eexists. split; [done|]. vm_compute. reflexivity.
  - reflexivity.
  - exists d. exact E.
Defined.

Definition top_draw (n : Z) : option Z := if (0 <? n)%Z then Some (n - 1)%Z else None.

Lemma random_price_low_witness :
  (amount (coin_of (random_CalculatePrice top_draw offer group1)) <= 545 * 10 ^ 17)%Z.
Proof.
  destruct (random_price_low top_draw offer (mkDecCoin "uakt" (50 * legacy_one)) offer
    (coin_of (random_CalculatePrice top_draw offer group1)) group1) as [H _].
  - intros n v. unfold top_draw. destruct (Z.ltb_spec 0 n); [|discriminate]. intros [= <-]. lia.
  - vm_compute. reflexivity.
  - vm_compute. reflexivity.
  - apply H. vm_compute. reflexivity.
Defined.

(** A scale with three decimals times a quotient of sixteen does not fit eighteen: such
    an order gets no price although its cost is ordinary. *)
Example odd_memory_not_priced :
  @scale_CalculatePrice q_pricing sorted_range
    (mkScale (1 # 1000 : @Dec q_pricing)%Q (1 # 1000)%Q ∅ 0%Q 0%Q) offer
    (mkGroupSpec "g" [] [mkResourceUnit (units_of 1000 (2 ^ 29 + 1) []) 1]) = Err PriceConversion.
Proof. vm_compute. reflexivity. Qed.

End PricingExamples.
