(* ===== verification/Builder.v ===== *)
(** * The Kubernetes objects of a lease

    Model of [cluster/kube/builder/]: the namespace, the workloads ([workload.go],
    [deployment.go], [statefulset.go]), the services ([service.go]) and the access
    objects ([serviceaccount.go], [role.go], [rolebinding.go], [permissions.go],
    [service_credentials.go]) built for the services of a manifest, and what an update
    keeps of the objects that exist. The network policies are in another file. *)

From Stdlib Require Import ZArith Lia Ascii.
From stdpp Require Import base gmap list strings tactics.
From S2P Require Import Prelude Types Names CRD.

(** ** What the SDK computes *)

(** [IsIngress] and [GetExternalPort] of an expose, attributes read as a boolean or a
    string ([None] when they are not set or no such value), and the share of a resource
    that is requested at a commit level. *)
Class SDK `{ServiceProtocolAPI} := {
  IsIngress : Mani.ServiceExpose -> bool;
  GetExternalPort : Mani.ServiceExpose -> Z;
  attr_bool : Attributes -> string -> option bool;
  attr_string : Attributes -> string -> option string;
  sdl_persistent : string;
  sdl_class : string;
  CommitLevel : Type;
  ComputeCommittedResources : CommitLevel -> Z -> Z
}.

(** What is committed is at most what was asked for. *)
Class SDKLaws `{SDK} := {
  committed_bound l v : (0 <= v -> 0 <= ComputeCommittedResources l v <= v)%Z
}.

(** ** Objects *)

Record SecurityContext := mkSecurity { RunAsNonRoot : bool; Privileged : bool; AllowPrivilegeEscalation : bool }.
Record EnvVar := mkEnv { ev_name : string; ev_value : string }.
Record VolumeMount := mkMount { vm_name : string; vm_read_only : bool; vm_path : string }.

(** Resources by name; CPU is in thousandths. *)
Record Container := mkContainer {
  c_name : string; c_image : string; c_command : list string; c_args : list string;
  c_requests : gmap string Z; c_limits : gmap string Z; c_security : SecurityContext;
  c_mounts : list VolumeMount; c_env : list EnvVar; c_ports : list Z
}.

(** A volume in memory, and a claim of a persistent one. *)
Record Volume := mkVolume { v_name : string; v_size : Z }.
Record VolumeClaim := mkClaim { vc_name : string; vc_request : Z; vc_class : option string }.

Inductive selector_op := OpIn | OpGt.
Record NodeSelector := mkNodeSelector { ns_key : string; ns_op : selector_op; ns_values : list string }.

(** The peers a pod must not share a node with are those with its interconnect group. *)
Record Affinity := mkAffinity { af_nodes : list NodeSelector; af_apart_from : option string }.

Record PodTemplate := mkPodTemplate {
  pt_labels : labels_t; pt_annotations : labels_t; pt_affinity : Affinity; pt_runtime_class : option string;
  pt_automount_token : bool; pt_service_account : string; pt_containers : list Container;
  pt_pull_secrets : list string; pt_volumes : list Volume
}.

Inductive DeploymentStrategy := RollingUpdate (maxUnavailable maxSurge : Z) | OtherStrategy.

Record KDeployment := mkKDeployment {
  kd_name : string; kd_labels : labels_t; kd_selector : labels_t; kd_strategy : DeploymentStrategy;
  kd_revision_limit : option Z; kd_replicas : Z; kd_template : PodTemplate
}.

Record KStatefulSet := mkKStatefulSet {
  ks_name : string; ks_labels : labels_t; ks_selector : labels_t; ks_revision_limit : option Z;
  ks_replicas : Z; ks_template : PodTemplate; ks_claims : list VolumeClaim
}.

Inductive ServiceType := ClusterIP | NodePort | LoadBalancer.
Record ServicePort := mkServicePort {
  p_name : string; p_port : Z; p_target : Z; p_protocol : string; p_node_port : Z
}.
Record KServiceObj := mkServiceObj {
  so_name : string; so_labels : labels_t; so_type : ServiceType; so_selector : labels_t; so_ports : list ServicePort
}.

Record KNamespace := mkNamespace { kn_name : string; kn_labels : labels_t; kn_deleting : bool }.
Record KServiceAccount := mkServiceAccount { sa_name : string; sa_labels : labels_t }.
Record PolicyRule := mkPolicyRule { pr_groups : list string; pr_resources : list string; pr_verbs : list string }.
Record KRole := mkRole { ro_name : string; ro_labels : labels_t; ro_rules : list PolicyRule }.
Record KRoleBinding := mkRoleBinding {
  rb_name : string; rb_labels : labels_t; rb_role : string; rb_account : string; rb_namespace : string
}.

#[export] Instance SecurityContext_eq_dec : EqDecision SecurityContext.
Proof. solve_decision. Defined.
#[export] Instance EnvVar_eq_dec : EqDecision EnvVar.
Proof. solve_decision. Defined.
#[export] Instance VolumeMount_eq_dec : EqDecision VolumeMount.
Proof. solve_decision. Defined.
#[export] Instance Container_eq_dec : EqDecision Container.
Proof. solve_decision. Defined.
#[export] Instance Volume_eq_dec : EqDecision Volume.
Proof. solve_decision. Defined.
#[export] Instance VolumeClaim_eq_dec : EqDecision VolumeClaim.
Proof. solve_decision. Defined.
#[export] Instance selector_op_eq_dec : EqDecision selector_op.
Proof. solve_decision. Defined.
#[export] Instance NodeSelector_eq_dec : EqDecision NodeSelector.
Proof. solve_decision. Defined.
#[export] Instance Affinity_eq_dec : EqDecision Affinity.
Proof. solve_decision. Defined.
#[export] Instance PodTemplate_eq_dec : EqDecision PodTemplate.
Proof. solve_decision. Defined.
#[export] Instance DeploymentStrategy_eq_dec : EqDecision DeploymentStrategy.
Proof. solve_decision. Defined.
#[export] Instance KDeployment_eq_dec : EqDecision KDeployment.
Proof. solve_decision. Defined.
#[export] Instance KStatefulSet_eq_dec : EqDecision KStatefulSet.
Proof. solve_decision. Defined.
#[export] Instance ServiceType_eq_dec : EqDecision ServiceType.
Proof. solve_decision. Defined.
#[export] Instance ServicePort_eq_dec : EqDecision ServicePort.
Proof. solve_decision. Defined.
#[export] Instance KServiceObj_eq_dec : EqDecision KServiceObj.
Proof. solve_decision. Defined.
#[export] Instance KNamespace_eq_dec : EqDecision KNamespace.
Proof. solve_decision. Defined.
#[export] Instance PolicyRule_eq_dec : EqDecision PolicyRule.
Proof. solve_decision. Defined.
#[export] Instance KServiceAccount_eq_dec : EqDecision KServiceAccount.
Proof. solve_decision. Defined.
#[export] Instance KRole_eq_dec : EqDecision KRole.
Proof. solve_decision. Defined.
#[export] Instance KRoleBinding_eq_dec : EqDecision KRoleBinding.
Proof. solve_decision. Defined.

(** ** Settings and deployments *)

(** What the builders read of the settings; an API server endpoint is its address, whether
    that is an IPv4 one, and its port. *)
Record APIEndpoint := mkEndpointAddr { ae_ip : string; ae_is4 : bool; ae_port : Z }.

Record Settings `{SDK} := mkSettings {
  ClusterPublicHostname : string; NetworkPoliciesEnabled : bool; APIServerEndpoints : list APIEndpoint;
  CPUCommitLevel : CommitLevel; GPUCommitLevel : CommitLevel; MemoryCommitLevel : CommitLevel;
  StorageCommitLevel : CommitLevel; DockerImagePullSecretsName : string; GatewayMode : bool;
  GatewayNamespace : string; InterconnectRoCENetworksNamespace : string; InterconnectRoCENetworks : string
}.
Arguments mkSettings {H H0}.

(** [ClusterDeployment]. *)
Record cdeployment `{ServiceProtocolAPI} := mkCDeployment {
  cd_lid : LeaseID; cd_group : Mani.Group; cd_sparams : list (option SchedulerParams);
  cd_version : string; cd_update : bool
}.
Arguments mkCDeployment {H}.

Inductive build_error := BuildPanic | BuildCRD (e : crd_error) | errUnsupportedProtocol | errInvalidServiceBuilder.

Definition ValTrue : string := "true".
Definition akashNetworkNamespace : string := "akash.network/namespace".
Definition AkashManifestResourceVersion : string := "akash.network/manifest.resource.version".
Definition AkashInterconnectGroupLabelName : string := "akash.network/interconnect-group".
Definition AkashServiceCapabilityGPU : string := "akash.network/capabilities.gpu".
Definition AkashServiceCapabilityStorage : string := "akash.network/capabilities.storage".
Definition AkashAttestationDisabledAnnotation : string := "akash.network/attestation-disabled".
Definition multusNetworksAnnotation : string := "k8s.v1.cni.cncf.io/networks".
Definition InterconnectFabricRoCE : string := "roce".
Definition runtimeClassNoneValue : string := "none".

Definition WithCC : runtimeClassFilter := mkFilter true false false false.
Definition WithSNP : runtimeClassFilter := mkFilter false false true false.
Definition WithTDX : runtimeClassFilter := mkFilter false false false true.

Definition megabytes : Z := (1024 * 1024)%Z.
Definition SidecarCPULimitMillicores : Z := 100.
Definition SidecarMemoryLimitBytes : Z := (64 * megabytes)%Z.
Definition SidecarCPURequestMillicores : Z := 10.
Definition SidecarMemoryRequestBytes : Z := (32 * megabytes)%Z.
Definition SidecarGPUMemoryLimitBytes : Z := (128 * megabytes)%Z.
Definition SidecarGPUMemoryRequestBytes : Z := (64 * megabytes)%Z.
Definition MinPrimaryCPUMillicores : Z := 10.
Definition MinPrimaryMemoryBytes : Z := (16 * megabytes)%Z.

(** [strings.SplitN(s, "=", 2)]. *)
Fixpoint cut_equals (s : string) : string * option string :=
  match s with
  | EmptyString => (""%string, None)
  | String c rest =>
      if Ascii.eqb c "="%char then (""%string, Some rest)
      else let r := cut_equals rest in (String c r.1, r.2)
  end.

Fixpoint join_commas (l : list string) : string :=
  match l with
  | [] => ""
  | [s] => s
  | s :: rest => s +:+ "," +:+ join_commas rest
  end.

(** [strings.TrimSpace], on text in ASCII. *)
Definition is_space (c : ascii) : bool :=
  let n := nat_of_ascii c in (n =? 32)%nat || ((9 <=? n)%nat && (n <=? 13)%nat).

Fixpoint trim_left (s : string) : string :=
  match s with
  | EmptyString => EmptyString
  | String c rest => if is_space c then trim_left rest else s
  end.

Fixpoint trim_right (s : string) : string :=
  match s with
  | EmptyString => EmptyString
  | String c rest => match trim_right rest with
                     | EmptyString => if is_space c then EmptyString else String c EmptyString
                     | r => String c r
                     end
  end.

Definition trim_space (s : string) : string := trim_right (trim_left s).

(** ** Labels *)

Section Builders.
Context `{HP : ServiceProtocolAPI} `{HS : !SDK} `{HH : LeaseHash}.

Definition base_selectorLabels (d : cdeployment) : labels_t :=
  <[akashNetworkNamespace := LidNS (cd_lid d)]> {[ AkashManagedLabelName := ValTrue ]}.

Definition base_labels (d : cdeployment) : labels_t :=
  <[AkashManifestResourceVersion := cd_version d]> (base_selectorLabels d).

Definition IsObjectRevisionLatest (d : cdeployment) (labels : labels_t) : bool :=
  match labels !! AkashManifestResourceVersion with
  | None => false
  | Some v => String.eqb (cd_version d) v
  end.

(** The labels of others are kept, ours replaced. *)
Definition updateAkashLabels (currLabels newLabels : labels_t) : labels_t :=
  newLabels ∪ filter (fun kv => has_prefix kv.1 AkashManagedLabelName = false) currLabels.

(** ** Namespaces *)

Definition ns_labels (d : cdeployment) : labels_t := AppendLeaseLabels (cd_lid d) (base_labels d).

Definition ns_Create (d : cdeployment) : KNamespace := mkNamespace (LidNS (cd_lid d)) (ns_labels d) false.

Definition ns_Update (d : cdeployment) (obj : KNamespace) : KNamespace :=
  mkNamespace (LidNS (cd_lid d)) (updateAkashLabels (kn_labels obj) (ns_labels d)) (kn_deleting obj).

(** ** Workloads *)

(** [Workload]: the service of the index in the stored manifest, its scheduler parameters,
    and the service of the same index in the deployment's own group. *)
Record Workload := mkWorkload {
  wl_settings : Settings; wl_deployment : cdeployment; wl_service : Mani.Service;
  wl_params : option SchedulerParams; wl_own : Mani.Service
}.

(** An index out of range panics, and so does one only the deployment's group lacks, when
    the name of the workload is read. *)
Definition NewWorkloadBuilder (settings : Settings) (d : cdeployment) (m : Crd.Manifest SchedulerParams)
    (serviceIdx : nat) : result build_error Workload :=
  match group_FromCRD (Crd.SGroup m) with
  | Err e => Err (BuildCRD e)
  | Ok (group, sparams) =>
      match Mani.Services group !! serviceIdx, sparams !! serviceIdx, Mani.Services (cd_group d) !! serviceIdx with
      | Some service, Some params, Some own => Ok (mkWorkload settings d service params own)
      | _, _, _ => Err BuildPanic
      end
  end.

Definition wl_name (b : Workload) : string := Mani.Name (wl_own b).
Definition wl_ns (b : Workload) : string := LidNS (cd_lid (wl_deployment b)).

Definition wl_labels (b : Workload) : labels_t :=
  let obj := <[AkashManifestServiceLabelName := wl_name b]> (base_labels (wl_deployment b)) in
  if String.eqb (Mani.InterconnectGroup (wl_own b)) "" then obj
  else <[AkashInterconnectGroupLabelName := Mani.InterconnectGroup (wl_own b)]> obj.

Definition wl_selectorLabels (b : Workload) : labels_t :=
  <[AkashManifestServiceLabelName := wl_name b]> (base_selectorLabels (wl_deployment b)).

(** The version of the manifest is not a label of the pods, unless they have it already. *)
Definition podLabels (b : Workload) (current : labels_t) : labels_t :=
  let labels := delete AkashManifestResourceVersion (wl_labels b) in
  match current !! AkashManifestResourceVersion with
  | Some version => <[AkashManifestResourceVersion := version]> labels
  | None => labels
  end.

Definition sparamsInterconnect (sparams : option SchedulerParams) : option SchedulerResourceInterconnect :=
  (sparams ≫= sp_resources) ≫= sr_interconnect.

Definition interconnect_enabled (b : Workload) : option SchedulerResourceInterconnect :=
  ic ← sparamsInterconnect (wl_params b); if si_enabled ic then Some ic else None.

Definition podAnnotations (b : Workload) : labels_t :=
  let obj : labels_t := match wl_params b with
             | Some p => if sp_attestation_disabled p then {[ AkashAttestationDisabledAnnotation := ValTrue ]} else ∅
             | None => ∅
             end in
  match interconnect_enabled b with
  | Some ic =>
      let networks := trim_space (InterconnectRoCENetworks (wl_settings b)) in
      if String.eqb (si_fabric ic) InterconnectFabricRoCE && negb (String.eqb networks "")
      then <[multusNetworksAnnotation := networks]> obj else obj
  | None => obj
  end.

Definition runtimeClass (b : Workload) : option string :=
  match wl_params b with
  | Some p => if String.eqb (sp_runtime_class p) "" || String.eqb (sp_runtime_class p) runtimeClassNoneValue
              then None else Some (sp_runtime_class p)
  | None => None
  end.

(** [int32(Count)]. *)
Definition to_int32 (z : Z) : Z := let v := wrap32 z in if (v <? 2 ^ 31)%Z then v else (v - 2 ^ 32)%Z.

Definition replicas (b : Workload) : Z := to_int32 (Mani.Count (wl_own b)).

(** *** Affinity *)

Definition positive_selector (key : string) : NodeSelector := mkNodeSelector key OpGt ["0"%string].
Definition true_selector (key : string) : NodeSelector := mkNodeSelector key OpIn [ValTrue].

Definition nodeSelectorsFromResources (res : SchedulerResources) : list NodeSelector :=
  match sr_gpu res with
  | None => []
  | Some gpu =>
      let key := AkashServiceCapabilityGPU +:+ ".vendor." +:+ sg_vendor gpu +:+ ".model." +:+ sg_model gpu in
      positive_selector key ::
      (if String.eqb (sg_memory_size gpu) "" then [] else [positive_selector (key +:+ ".ram." +:+ sg_memory_size gpu)]) ++
      (if String.eqb (sg_interface gpu) "" then [] else [positive_selector (key +:+ ".interface." +:+ sg_interface gpu)])
  end.

Definition confidential_selectors (rc : string) : list NodeSelector :=
  if RuntimeClass_Is rc [WithCC] then
    true_selector "katacontainers.io/kata-runtime" ::
    (if RuntimeClass_Is rc [WithSNP] then [true_selector "amd.feature.node.kubernetes.io/snp"] else []) ++
    (if RuntimeClass_Is rc [WithTDX] then [true_selector "intel.feature.node.kubernetes.io/tdx"] else []) ++
    (if RuntimeClass_Is rc [WithGPU] then [true_selector "nvidia.com/cc.ready.state"] else [])
  else [].

Definition is_persistent (s : Storage) : bool := default false (attr_bool (s_attrs s) sdl_persistent).

Definition storage_selector (s : Storage) : list NodeSelector :=
  if is_persistent s then
    match attr_string (s_attrs s) sdl_class with
    | Some class => [positive_selector (AkashServiceCapabilityStorage +:+ ".class." +:+ class)]
    | None => []
    end
  else [].

Definition affinity (b : Workload) : Affinity :=
  mkAffinity
    (true_selector AkashManagedLabelName ::
     match wl_params b with
     | Some p => match sp_resources p with Some r => nodeSelectorsFromResources r | None => [] end ++
                 confidential_selectors (sp_runtime_class p)
     | None => []
     end ++ (r_storage (Mani.Res (wl_service b)) ≫= storage_selector))
    (let rg := Mani.InterconnectGroup (wl_service b) in if String.eqb rg "" then None else Some rg).

(** *** The container *)

Definition sidecarEnabled (b : Workload) : bool :=
  match wl_params b with
  | Some p => RuntimeClass_Is (sp_runtime_class p) [WithCC] && negb (sp_attestation_disabled p)
  | None => false
  end.

(** What is left of a request and a limit once a sidecar has its own. *)
Definition primary_share (sidecarRequest sidecarLimit least request limit : Z) : Z * Z :=
  let limit := if (limit - sidecarLimit <? least)%Z then least else (limit - sidecarLimit)%Z in
  let request := if (request - sidecarRequest <? least)%Z then least else (request - sidecarRequest)%Z in
  (if (limit <? request)%Z then limit else request, limit).

(** Requests and limits, in this order. *)
Abbreviation resource_lists := (gmap string Z * gmap string Z)%type.

Definition set_resource (name : string) (request limit : Z) (rl : resource_lists) : resource_lists :=
  (<[name := request]> rl.1, <[name := limit]> rl.2).

Definition container_cpu (b : Workload) (rl : resource_lists) : resource_lists :=
  match r_cpu (Mani.Res (wl_service b)) with
  | None => rl
  | Some cpu =>
      let limit := to_int64 (units cpu) in
      let request := to_int64 (ComputeCommittedResources (CPUCommitLevel (wl_settings b)) (units cpu)) in
      let '(request, limit) :=
        if sidecarEnabled b
        then primary_share SidecarCPURequestMillicores SidecarCPULimitMillicores MinPrimaryCPUMillicores request limit
        else (request, limit) in
      set_resource "cpu" request limit rl
  end.

(** [None] is a panic: no scheduler parameters for a GPU, or a vendor that is not known. *)
Definition container_gpu (b : Workload) (rl : resource_lists) : option resource_lists :=
  match r_gpu (Mani.Res (wl_service b)) with
  | None => Some rl
  | Some gpu =>
      if negb (0 <? units gpu)%Z then Some rl
      else
        p ← wl_params b; g ← (sp_resources p ≫= sr_gpu);
        name ← (if String.eqb (sg_vendor g) "nvidia"
                then Some (if RuntimeClass_Is (sp_runtime_class p) [WithCC] then "nvidia.com/pgpu" else "nvidia.com/gpu")
                else if String.eqb (sg_vendor g) "amd" then Some "amd.com/gpu"
                else None)%string;
        Some (set_resource name (to_int64 (ComputeCommittedResources (GPUCommitLevel (wl_settings b)) (units gpu)))
                (to_int64 (units gpu)) rl)
  end.

Definition container_interconnect (b : Workload) (rl : resource_lists) : resource_lists :=
  match interconnect_enabled b with
  | Some ic => if String.eqb (si_resource_name ic) "" then rl
               else set_resource (si_resource_name ic) (to_int64 (si_units ic)) (to_int64 (si_units ic)) rl
  | None => rl
  end.

(** The volumes: those in memory are added up, the size of another ephemeral one is set. *)
Definition container_volume (b : Workload) (acc : Z * resource_lists) (s : Storage) : Z * resource_lists :=
  if is_persistent s then acc
  else
    let class := default ""%string (attr_string (s_attrs s) sdl_class) in
    if String.eqb class "ram" then (wrap64 (acc.1 + s_quantity s), acc.2)
    else if String.eqb class "" then
      (acc.1, set_resource "ephemeral-storage"
                (to_int64 (ComputeCommittedResources (StorageCommitLevel (wl_settings b)) (s_quantity s)))
                (to_int64 (s_quantity s)) acc.2)
    else acc.

Definition container_memory (b : Workload) (requestedMem : Z) (rl : resource_lists) : resource_lists :=
  match r_memory (Mani.Res (wl_service b)) with
  | None => rl
  | Some mem =>
      let limit := to_int64 (wrap64 (m_quantity mem + requestedMem)) in
      let request := to_int64 (ComputeCommittedResources (MemoryCommitLevel (wl_settings b)) (m_quantity mem)) in
      let gpu := match wl_params b with Some p => RuntimeClass_Is (sp_runtime_class p) [WithGPU] | None => false end in
      let '(request, limit) :=
        if sidecarEnabled b
        then primary_share (if gpu then SidecarGPUMemoryRequestBytes else SidecarMemoryRequestBytes)
               (if gpu then SidecarGPUMemoryLimitBytes else SidecarMemoryLimitBytes) MinPrimaryMemoryBytes request limit
        else (request, limit) in
      set_resource "memory" request limit rl
  end.

Definition container_resources (b : Workload) : option resource_lists :=
  rl ← container_gpu b (container_cpu b (∅, ∅));
  let '(requestedMem, rl) :=
    foldl (container_volume b) (0%Z, container_interconnect b rl) (r_storage (Mani.Res (wl_service b))) in
  Some (container_memory b requestedMem rl).

(** *** Environment *)

Definition env_of (env : string) : EnvVar := let p := cut_equals env in mkEnv p.1 (default ""%string p.2).

(** A variable of the provider is added unless the manifest sets it. *)
Definition addIfNotPresent (added : list string) (env : list EnvVar) (key value : string) : list EnvVar :=
  if existsb (String.eqb key) added then env else env ++ [mkEnv key value].

Definition provider_env (b : Workload) : list (string * string) :=
  let lid := cd_lid (wl_deployment b) in
  [("AKASH_GROUP_SEQUENCE", FormatUint (l_gseq lid)); ("AKASH_DEPLOYMENT_SEQUENCE", FormatUint (l_dseq lid));
   ("AKASH_ORDER_SEQUENCE", FormatUint (l_oseq lid)); ("AKASH_OWNER", l_owner lid);
   ("AKASH_PROVIDER", l_provider lid);
   ("AKASH_CLUSTER_PUBLIC_HOSTNAME", ClusterPublicHostname (wl_settings b))]%string ++
  match interconnect_enabled b with
  | Some ic => ("NCCL_IB_DISABLE", "0")%string ::
      (let hca := join_commas (si_nccl_hca_prefixes ic) in
       if String.eqb hca "" then [] else [("NCCL_IB_HCA"%string, hca)])
  | None => []
  end.

Definition addEnvVarsForDeployment (b : Workload) (added : list string) (env : list EnvVar) : list EnvVar :=
  foldl (fun env kv => addIfNotPresent added env kv.1 kv.2) env (provider_env b).

Definition container_env (b : Workload) : list EnvVar :=
  let env := map env_of (Mani.Env (wl_service b)) in
  addEnvVarsForDeployment b (map ev_name env) env.

Definition container (b : Workload) : option Container :=
  let service := wl_service b in
  rl ← container_resources b;
  Some (mkContainer (Mani.Name service) (Mani.Image service) (Mani.Command service) (Mani.Args service)
    rl.1 rl.2 (mkSecurity false false false)
    (match Mani.Params service with
     | Some p => map (fun st => mkMount (Mani.Name service +:+ "-" +:+ Mani.StName st) (Mani.ReadOnly st) (Mani.Mount st))
                   (Mani.PStorage p)
     | None => []
     end)
    (container_env b) (map (fun e => to_int32 (Mani.Port e)) (Mani.Exposes service))).

(** *** Volumes, secrets and permissions *)

Definition volumes (b : Workload) : list Volume :=
  omap (fun s =>
    match attr_string (s_attrs s) sdl_class, attr_bool (s_attrs s) sdl_persistent with
    | Some class, Some false =>
        if String.eqb class "ram" then Some (mkVolume (Mani.Name (wl_service b) +:+ "-" +:+ s_name s) (to_int64 (s_quantity s)))
        else None
    | _, _ => None
    end) (r_storage (Mani.Res (wl_service b))).

Definition persistentVolumeClaims (b : Workload) : list VolumeClaim :=
  omap (fun s =>
    if is_persistent s then
      Some (mkClaim (Mani.Name (wl_service b) +:+ "-" +:+ s_name s) (to_int64 (s_quantity s))
        (class ← attr_string (s_attrs s) sdl_class; if String.eqb class "default" then None else Some class))
    else None) (r_storage (Mani.Res (wl_service b))).

Definition credentials_name (b : Workload) : string := "docker-creds-" +:+ wl_name b.

Definition imagePullSecrets (b : Workload) : list string :=
  let sname := match Mani.Credentials (wl_service b) with
               | Some _ => credentials_name b
               | None => DockerImagePullSecretsName (wl_settings b)
               end in
  if String.eqb sname "" then [] else [sname].

Definition getWorkloadPermissions (b : Workload) : option (list string) := Mani.Params (wl_service b) ≫= Mani.PRead.

Definition hasPermissions (b : Workload) : bool :=
  match getWorkloadPermissions b with Some (_ :: _) => true | _ => false end.

Definition serviceAccountName (b : Workload) : string := if hasPermissions b then wl_name b else "".

(** *** Deployments and stateful sets *)

Definition pod_template (b : Workload) (current : labels_t) : option PodTemplate :=
  c ← container b;
  Some (mkPodTemplate (podLabels b current) (podAnnotations b) (affinity b) (runtimeClass b) (hasPermissions b)
    (serviceAccountName b) [c] (imagePullSecrets b) (volumes b)).

Definition or_panic {A} (o : option A) : result build_error A :=
  match o with Some a => Ok a | None => Err BuildPanic end.

Definition deployment_Create (b : Workload) : result build_error KDeployment :=
  (let? t := or_panic (pod_template b ∅) in
   Ok (mkKDeployment (wl_name b) (wl_labels b) (wl_selectorLabels b) (RollingUpdate 1 0) (Some 10%Z) (replicas b) t))%go.

Definition deployment_Update (b : Workload) (obj : KDeployment) : result build_error KDeployment :=
  (let? t := or_panic (pod_template b (pt_labels (kd_template obj))) in
   Ok (mkKDeployment (kd_name obj) (updateAkashLabels (kd_labels obj) (wl_labels b)) (wl_selectorLabels b)
     (kd_strategy obj) (kd_revision_limit obj) (replicas b) t))%go.

Definition statefulSet_Create (b : Workload) : result build_error KStatefulSet :=
  (let? t := or_panic (pod_template b ∅) in
   Ok (mkKStatefulSet (wl_name b) (wl_labels b) (wl_selectorLabels b) (Some 1%Z) (replicas b) t
     (persistentVolumeClaims b)))%go.

Definition statefulSet_Update (b : Workload) (obj : KStatefulSet) : result build_error KStatefulSet :=
  (let? t := or_panic (pod_template b (pt_labels (ks_template obj))) in
   Ok (mkKStatefulSet (ks_name obj) (updateAkashLabels (ks_labels obj) (wl_labels b)) (wl_selectorLabels b)
     (ks_revision_limit obj) (replicas b) t (persistentVolumeClaims b)))%go.

(** ** Services *)

Definition makeGlobalServiceNameFromBasename (basename : string) : string := basename +:+ "-np".

Definition service_name (b : Workload) (requireNodePort : bool) : string :=
  if requireNodePort then makeGlobalServiceNameFromBasename (wl_name b) else wl_name b.

Definition workloadServiceType (requireNodePort : bool) : ServiceType := if requireNodePort then NodePort else ClusterIP.

Definition service_protocol (p : ServiceProtocol) : option string :=
  if decide (p = TCP) then Some "TCP"%string else if decide (p = UDP) then Some "UDP"%string else None.

(** Whether an expose belongs to the service: the global one has those that are global
    and no ingress, the local one the others and every ingress. *)
Definition belongs (requireNodePort : bool) (e : Mani.ServiceExpose) : bool :=
  (Bool.eqb (Mani.Global e) requireNodePort || (negb requireNodePort && IsIngress e)) &&
  negb (requireNodePort && IsIngress e).

(** The loop of [ports]; [added] are the external ports seen. *)
Fixpoint ports_loop (requireNodePort : bool) (i : nat) (exposes : list Mani.ServiceExpose) (added : list Z)
    : result build_error (list ServicePort) :=
  match exposes with
  | [] => Ok []
  | e :: rest =>
      if belongs requireNodePort e then
        match service_protocol (Mani.Proto e) with
        | None => Err errUnsupportedProtocol
        | Some protocol =>
            let externalPort := GetExternalPort e in
            if existsb (Z.eqb externalPort) added then ports_loop requireNodePort (S i) rest added
            else (let? ps := ports_loop requireNodePort (S i) rest (externalPort :: added) in
                  Ok (mkServicePort (FormatUint (Z.of_nat i) +:+ "-" +:+ FormatUint externalPort) (to_int32 externalPort)
                        (to_int32 (Mani.Port e)) protocol 0 :: ps))%go
        end
      else ports_loop requireNodePort (S i) rest added
  end.

Definition service_ports (b : Workload) (requireNodePort : bool) : result build_error (list ServicePort) :=
  (let? ps := ports_loop requireNodePort 0 (Mani.Exposes (wl_own b)) [] in
   match ps with [] => Err errInvalidServiceBuilder | _ => Ok ps end)%go.

Definition service_Any (b : Workload) (requireNodePort : bool) : bool :=
  existsb (fun e =>
    if requireNodePort && IsIngress e then false
    else (negb requireNodePort && IsIngress e) || Bool.eqb (Mani.Global e) requireNodePort)
    (Mani.Exposes (wl_own b)).

Definition service_Create (b : Workload) (requireNodePort : bool) : result build_error KServiceObj :=
  (let? ports := service_ports b requireNodePort in
   Ok (mkServiceObj (service_name b requireNodePort) (wl_labels b) (workloadServiceType requireNodePort)
     (wl_selectorLabels b) ports))%go.

(** The last current port like the new one is used in its place, with its node port. *)
Definition same_port (port curport : ServicePort) : bool :=
  String.eqb (p_name curport) (p_name port) && (p_port curport =? p_port port)%Z &&
  (p_target curport =? p_target port)%Z && String.eqb (p_protocol curport) (p_protocol port).

Definition retain_port (current : list ServicePort) (port : ServicePort) : ServicePort :=
  foldl (fun acc curport => if same_port port curport then curport else acc) port current.

Definition service_Update (b : Workload) (requireNodePort : bool) (obj : KServiceObj) : result build_error KServiceObj :=
  (let? ports := service_ports b requireNodePort in
   Ok (mkServiceObj (so_name obj) (updateAkashLabels (so_labels obj) (wl_labels b)) (so_type obj)
     (wl_selectorLabels b) (if requireNodePort then map (retain_port (so_ports obj)) ports else ports)))%go.

(** ** Access *)

Definition access_labels (b : Workload) : labels_t := AppendLeaseLabels (cd_lid (wl_deployment b)) (wl_labels b).

Definition serviceAccount_Create (b : Workload) : KServiceAccount := mkServiceAccount (wl_name b) (access_labels b).

Definition serviceAccount_Update (b : Workload) (obj : KServiceAccount) : KServiceAccount :=
  mkServiceAccount (wl_name b) (updateAkashLabels (sa_labels obj) (access_labels b)).

(** The rules for reading a resource, by its name in the manifest; others have none. *)
Definition resource_rules (resource : string) : list PolicyRule :=
  if String.eqb resource "logs" then
    [mkPolicyRule [""] ["pods"] ["get"; "list"; "watch"];
     mkPolicyRule [""] ["pods/log"] ["get"];
     mkPolicyRule ["apps"] ["deployments"] ["get"; "list"; "watch"]]%string
  else if String.eqb resource "events" then [mkPolicyRule [""] ["events"] ["get"; "list"; "watch"]]%string
  else [].

Fixpoint GenerateRules (seen resources : list string) : list PolicyRule :=
  match resources with
  | [] => []
  | r :: rest => if existsb (String.eqb r) seen then GenerateRules seen rest
                 else resource_rules r ++ GenerateRules (r :: seen) rest
  end.

Definition buildPolicyRules (b : Workload) : list PolicyRule :=
  match getWorkloadPermissions b with Some read => GenerateRules [] read | None => [] end.

Definition role_Create (b : Workload) : KRole := mkRole (wl_name b) (access_labels b) (buildPolicyRules b).

Definition role_Update (b : Workload) (obj : KRole) : KRole :=
  mkRole (wl_name b) (updateAkashLabels (ro_labels obj) (access_labels b)) (buildPolicyRules b).

Definition roleBinding_Create (b : Workload) : KRoleBinding :=
  mkRoleBinding (wl_name b) (access_labels b) (wl_name b) (wl_name b) (wl_ns b).

Definition roleBinding_Update (b : Workload) (obj : KRoleBinding) : KRoleBinding :=
  mkRoleBinding (wl_name b) (updateAkashLabels (rb_labels obj) (access_labels b)) (wl_name b) (wl_name b) (wl_ns b).

End Builders.

(** ** Credentials *)

(** [base64.StdEncoding]: six bits to a character, padded to four characters. *)
Definition base64_char (n : nat) : ascii :=
  if (n <? 26)%nat then ascii_of_nat (65 + n)
  else if (n <? 52)%nat then ascii_of_nat (71 + n)
  else if (n <? 62)%nat then ascii_of_nat (n - 4)
  else if (n =? 62)%nat then "+"%char else "/"%char.

Fixpoint base64 (s : string) : string :=
  match s with
  | EmptyString => ""
  | String a EmptyString =>
      let x := (nat_of_ascii a * 16)%nat in
      String (base64_char (x / 64)) (String (base64_char (x mod 64)) "==")
  | String a (String b EmptyString) =>
      let x := ((nat_of_ascii a * 256 + nat_of_ascii b) * 4)%nat in
      String (base64_char (x / 4096)) (String (base64_char (x / 64 mod 64)) (String (base64_char (x mod 64)) "="))
  | String a (String b (String c rest)) =>
      let x := ((nat_of_ascii a * 256 + nat_of_ascii b) * 256 + nat_of_ascii c)%nat in
      String (base64_char (x / (4096 * 64))) (String (base64_char (x / 4096 mod 64))
        (String (base64_char (x / 64 mod 64)) (String (base64_char (x mod 64)) (base64 rest))))
  end.

Definition encodeAuth (username password : string) : string := base64 (username +:+ ":" +:+ password).

(** The one registry a secret names, as encoded in JSON. *)
Record dockerCredentialsEntry := mkDockerEntry {
  dk_username : string; dk_password : string; dk_email : string; dk_auth : string
}.

Record KSecret := mkSecret { sec_name : string; sec_labels : labels_t; sec_host : string; sec_entry : dockerCredentialsEntry }.

#[export] Instance dockerCredentialsEntry_eq_dec : EqDecision dockerCredentialsEntry.
Proof. solve_decision. Defined.
#[export] Instance KSecret_eq_dec : EqDecision KSecret.
Proof. solve_decision. Defined.

Definition encodeSecret (c : Mani.ImageCredentials) : dockerCredentialsEntry :=
  let u := trim_space (Mani.Username c) in
  let p := trim_space (Mani.Password c) in
  mkDockerEntry u p (trim_space (Mani.Email c)) (encodeAuth u p).

Definition credentials_Create `{HP : ServiceProtocolAPI} `{HS : !SDK} `{HH : LeaseHash} (b : Workload)
    (c : Mani.ImageCredentials) : KSecret :=
  mkSecret (credentials_name b) (wl_labels b) (Mani.Host c) (encodeSecret c).

Definition credentials_Update `{HP : ServiceProtocolAPI} `{HS : !SDK} `{HH : LeaseHash} (b : Workload)
    (c : Mani.ImageCredentials) (obj : KSecret) : KSecret :=
  mkSecret (sec_name obj) (updateAkashLabels (sec_labels obj) (wl_labels b)) (Mani.Host c) (encodeSecret c).

(** ** Labels that are kept *)

Section LabelTheorems.
Context `{HP : ServiceProtocolAPI} `{HS : !SDK} `{HH : LeaseHash}.

Lemma updateAkashLabels_new cur new k v : new !! k = Some v -> updateAkashLabels cur new !! k = Some v.
Proof. intros H. unfold updateAkashLabels. by apply lookup_union_Some_l. Qed.

Lemma updateAkashLabels_other cur new k :
  has_prefix k AkashManagedLabelName = false -> new !! k = None -> updateAkashLabels cur new !! k = cur !! k.
Proof.
  intros Hk Hn. unfold updateAkashLabels. rewrite lookup_union_r by done. rewrite map_lookup_filter.
  destruct (cur !! k) as [v|]; [|done]. simpl. by rewrite option_guard_True.
Qed.

Lemma wl_labels_version b : wl_labels b !! AkashManifestResourceVersion = Some (cd_version (wl_deployment b)).
Proof.
  unfold wl_labels, base_labels. case_match; [rewrite lookup_insert_ne by done|rewrite !lookup_insert_ne by done];
    apply lookup_insert_eq.
Qed.

Lemma AppendLeaseLabels_other lid labels k :
  k ∉ [AkashLeaseProviderLabelName; AkashLeaseOSeqLabelName; AkashLeaseGSeqLabelName; AkashLeaseDSeqLabelName;
       AkashLeaseOwnerLabelName] ->
  AppendLeaseLabels lid labels !! k = labels !! k.
Proof. intros Hk. unfold AppendLeaseLabels. rewrite !lookup_insert_ne; [done|set_solver..]. Qed.

(** An updated workload object has the version of the deployment. *)
Lemma updated_is_latest b cur :
  IsObjectRevisionLatest (wl_deployment b) (updateAkashLabels cur (wl_labels b)) = true.
Proof.
  unfold IsObjectRevisionLatest. rewrite (updateAkashLabels_new _ _ _ _ (wl_labels_version b)). apply String.eqb_refl.
Qed.

(** ** Pods that are not restarted *)

(** The same workload at another version of the manifest. *)
Definition at_version (v : string) (b : Workload) : Workload :=
  let d := wl_deployment b in
  mkWorkload (wl_settings b) (mkCDeployment (cd_lid d) (cd_group d) (cd_sparams d) v (cd_update d)) (wl_service b)
    (wl_params b) (wl_own b).

Lemma wl_labels_at_version b v :
  delete AkashManifestResourceVersion (wl_labels (at_version v b)) = delete AkashManifestResourceVersion (wl_labels b).
Proof.
  apply map_eq. intros k. rewrite !lookup_delete. case_decide as Hk; [done|].
  unfold wl_labels, base_labels, at_version, wl_name. simpl. case_match.
  - destruct (decide (k = AkashManifestServiceLabelName)) as [->|]; [by rewrite !lookup_insert_eq|].
    rewrite !lookup_insert_ne by congruence. done.
  - destruct (decide (k = AkashInterconnectGroupLabelName)) as [->|]; [by rewrite !lookup_insert_eq|].
    rewrite !(lookup_insert_ne _ AkashInterconnectGroupLabelName) by congruence.
    destruct (decide (k = AkashManifestServiceLabelName)) as [->|]; [by rewrite !lookup_insert_eq|].
    rewrite !lookup_insert_ne by congruence. done.
Qed.

Lemma podLabels_version b cur :
  podLabels b cur !! AkashManifestResourceVersion = cur !! AkashManifestResourceVersion.
Proof.
  unfold podLabels. destruct (cur !! AkashManifestResourceVersion) as [v|];
    [apply lookup_insert_eq|apply lookup_delete_eq].
Qed.

Lemma podLabels_stable b v cur : podLabels (at_version v b) (podLabels b cur) = podLabels b cur.
Proof.
  unfold podLabels at 1. rewrite podLabels_version, wl_labels_at_version. unfold podLabels.
  by destruct (cur !! AkashManifestResourceVersion).
Qed.

Lemma pod_template_version b v cur t :
  pod_template b cur = Some t -> pod_template (at_version v b) (pt_labels t) = Some t.
Proof.
  unfold pod_template. intros E. destruct (container b) as [c|] eqn:Hc; [|done]. simpl in E. injection E as <-. simpl.
  change (container (at_version v b)) with (container b). rewrite Hc. simpl. by rewrite podLabels_stable.
Qed.

(** Pods are not restarted by a new version of the manifest alone: the pod template of
    a deployment or stateful set, built or updated before, is the same after an update for
    the same service under another version, also for an object of an older provider that
    has the version among its pods' labels. *)
Theorem pods_survive_version (b : Workload) (v : string) :
  (forall o o', deployment_Create b = Ok o -> deployment_Update (at_version v b) o = Ok o' ->
     kd_template o' = kd_template o) /\
  (forall old o o', deployment_Update b old = Ok o -> deployment_Update (at_version v b) o = Ok o' ->
     kd_template o' = kd_template o) /\
  (forall o o', statefulSet_Create b = Ok o -> statefulSet_Update (at_version v b) o = Ok o' ->
     ks_template o' = ks_template o) /\
  (forall old o o', statefulSet_Update b old = Ok o -> statefulSet_Update (at_version v b) o = Ok o' ->
     ks_template o' = ks_template o).
Proof.
  assert (forall cur t, or_panic (pod_template b cur) = Ok t ->
            or_panic (pod_template (at_version v b) (pt_labels t)) = Ok t) as H.
  { intros cur t. destruct (pod_template b cur) as [t'|] eqn:E; simpl; [|done]. intros [= <-].
    by rewrite (pod_template_version b v cur t' E). }
  unfold deployment_Create, deployment_Update, statefulSet_Create, statefulSet_Update.
  split_and!; intros; repeat match goal with
    | E : bind_result _ _ = Ok _ |- _ => apply bind_result_Ok in E as (? & ? & E); injection E as <-
    end; simpl in *; match goal with
    | E : or_panic (pod_template b _) = Ok _, E' : or_panic (pod_template (at_version v b) _) = Ok _ |- _ =>
        rewrite (H _ _ E) in E'; by injection E' as <-
    end.
Qed.

End LabelTheorems.

(** ** Resources of the container *)

Section ResourceTheorems.
Context `{HP : ServiceProtocolAPI} `{HS : !SDK} `{HL : !SDKLaws} `{HH : LeaseHash}.

(** The volumes in memory, which count as memory of the container. *)
Definition ram_volume (s : Storage) : Z :=
  if is_persistent s then 0 else if String.eqb (default ""%string (attr_string (s_attrs s) sdl_class)) "ram"
  then s_quantity s else 0.

Definition ram_total (b : Workload) : Z := sumZ ram_volume (r_storage (Mani.Res (wl_service b))).

Lemma container_volumes_spec b vs acc rl name :
  name <> "ephemeral-storage"%string ->
  let r := foldl (container_volume b) (wrap64 acc, rl) vs in
  r.1 = wrap64 (acc + sumZ ram_volume vs) /\ r.2.1 !! name = rl.1 !! name /\ r.2.2 !! name = rl.2 !! name.
Proof.
  intros Hn. revert acc rl. induction vs as [|s vs IH]; intros acc rl; simpl; [by rewrite Z.add_0_r|].
  unfold container_volume at 2 4 6, ram_volume at 1. simpl.
  destruct (is_persistent s); [rewrite Z.add_0_l; apply IH|].
  destruct (String.eqb _ "ram").
  - assert (wrap64 (wrap64 acc + s_quantity s) = wrap64 (acc + s_quantity s)) as -> by apply wrap_add_l.
    rewrite Z.add_assoc. apply IH.
  - rewrite Z.add_0_l. destruct (String.eqb _ ""); [|apply IH].
    destruct (IH acc (set_resource "ephemeral-storage"
      (to_int64 (ComputeCommittedResources (StorageCommitLevel (wl_settings b)) (s_quantity s)))
      (to_int64 (s_quantity s)) rl)) as (H1 & H2 & H3).
    simpl in *. rewrite lookup_insert_ne in H2, H3 by congruence. by rewrite H1, H2, H3.
Qed.

Lemma container_gpu_keeps b rl rl' name :
  container_gpu b rl = Some rl' -> name ∈ ["cpu"; "memory"]%string ->
  rl'.1 !! name = rl.1 !! name /\ rl'.2 !! name = rl.2 !! name.
Proof.
  unfold container_gpu. intros E Hn. destruct (r_gpu _) as [gpu|]; [|by injection E as <-].
  destruct (negb _); [by injection E as <-|]. destruct (wl_params b) as [p|]; [|done]. simpl in E.
  destruct (sp_resources p ≫= sr_gpu) as [g|]; [|done]. simpl in E.
  repeat case_match; simpl in E; try done; injection E as <-; simpl; rewrite !lookup_insert_ne; set_solver.
Qed.

(** What a container keeps beside its sidecar: the least it runs with, if nothing is left. *)
Definition share (b : Workload) (sidecar least total : Z) : Z :=
  if sidecarEnabled b then Z.max (total - sidecar) least else total.

Lemma primary_share_spec sr sl least request limit :
  (0 <= sr)%Z -> let r := primary_share sr sl least request limit in
  r.2 = Z.max (limit - sl) least /\ (r.1 <= r.2)%Z.
Proof. unfold primary_share. intros Hs. simpl. repeat case_match; simpl; lia. Qed.

Definition sidecar_memory (b : Workload) : Z :=
  if match wl_params b with Some p => RuntimeClass_Is (sp_runtime_class p) [WithGPU] | None => false end
  then SidecarGPUMemoryLimitBytes else SidecarMemoryLimitBytes.

(** The CPU the container is given, before the other resources are set. *)
Lemma container_cpu_share (b : Workload) (cpu : Units) :
  r_cpu (Mani.Res (wl_service b)) = Some cpu -> (0 <= units cpu < 2 ^ 63)%Z ->
  exists rq, (rq <= share b SidecarCPULimitMillicores MinPrimaryCPUMillicores (units cpu))%Z /\
    (container_cpu b (∅, ∅)).1 !! "cpu"%string = Some rq /\
    (container_cpu b (∅, ∅)).2 !! "cpu"%string =
      Some (share b SidecarCPULimitMillicores MinPrimaryCPUMillicores (units cpu)).
Proof.
  intros Hcpu Hu. unfold container_cpu, share. rewrite Hcpu.
  pose proof (committed_bound (CPUCommitLevel (wl_settings b)) (units cpu)).
  rewrite !to_int64_id by (unfold is_int64; lia). destruct (sidecarEnabled b).
  - pose proof (primary_share_spec SidecarCPURequestMillicores SidecarCPULimitMillicores MinPrimaryCPUMillicores
      (ComputeCommittedResources (CPUCommitLevel (wl_settings b)) (units cpu)) (units cpu) ltac:(done)) as [He Hle].
    destruct (primary_share _ _ _ _ _) as [r l]. simpl in *. subst l. exists r.
    rewrite !lookup_insert_eq. done.
  - exists (ComputeCommittedResources (CPUCommitLevel (wl_settings b)) (units cpu)). simpl.
    rewrite !lookup_insert_eq. split_and!; [lia|done|done].
Qed.

(** The shares of the container in the resources of its lease. *)
Lemma container_shares (b : Workload) (c : Container) (cpu : Units) (mem : Memory) :
  container b = Some c ->
  r_cpu (Mani.Res (wl_service b)) = Some cpu -> r_memory (Mani.Res (wl_service b)) = Some mem ->
  (0 <= units cpu < 2 ^ 63)%Z -> (0 <= m_quantity mem)%Z -> (0 <= ram_total b)%Z ->
  (m_quantity mem + ram_total b < 2 ^ 63)%Z ->
  (forall ic, interconnect_enabled b = Some ic -> si_resource_name ic <> "cpu"%string) ->
  exists cpuRequest memRequest,
    c_limits c !! "cpu"%string =
      Some (share b SidecarCPULimitMillicores MinPrimaryCPUMillicores (units cpu)) /\
    c_limits c !! "memory"%string =
      Some (share b (sidecar_memory b) MinPrimaryMemoryBytes (m_quantity mem + ram_total b)) /\
    c_requests c !! "cpu"%string = Some cpuRequest /\ c_requests c !! "memory"%string = Some memRequest /\
    (cpuRequest <= share b SidecarCPULimitMillicores MinPrimaryCPUMillicores (units cpu))%Z /\
    (memRequest <= share b (sidecar_memory b) MinPrimaryMemoryBytes (m_quantity mem + ram_total b))%Z.
Proof.
  intros Hc Hcpu Hmem Hu Hq Hram Hfit Hic. unfold container in Hc.
  destruct (container_resources b) as [rl|] eqn:Hr; [|done]. simpl in Hc. injection Hc as <-. simpl.
  unfold container_resources in Hr. destruct (container_gpu b _) as [rl1|] eqn:Hg; [|done]. simpl in Hr.
  destruct (container_gpu_keeps _ _ _ "cpu" Hg ltac:(set_solver)) as [Hg1 Hg2].
  destruct (container_cpu_share b cpu Hcpu Hu) as (rq & Hrq & H1 & H2).
  set (rl2 := container_interconnect b rl1) in *.
  assert (rl2.1 !! "cpu"%string = Some rq /\ rl2.2 !! "cpu"%string =
    Some (share b SidecarCPULimitMillicores MinPrimaryCPUMillicores (units cpu))) as [H3 H4].
  { unfold rl2, container_interconnect. destruct (interconnect_enabled b) as [ic|]; [|by rewrite Hg1, Hg2].
    destruct (String.eqb _ _); [by rewrite Hg1, Hg2|]. simpl. specialize (Hic ic eq_refl).
    rewrite !lookup_insert_ne by done. by rewrite Hg1, Hg2. }
  destruct (container_volumes_spec b (r_storage (Mani.Res (wl_service b))) 0 rl2 "cpu" ltac:(done)) as (Hm & Hv1 & Hv2).
  change (wrap64 0) with 0%Z in *. destruct (foldl _ _ _) as [requestedMem rl3]. simpl in *. injection Hr as <-.
  unfold container_memory. rewrite Hmem. fold (ram_total b) in Hm.
  rewrite (wrap_id 64) in Hm by (unfold is_uint; lia). subst requestedMem.
  pose proof (committed_bound (MemoryCommitLevel (wl_settings b)) (m_quantity mem)) as Hcm.
  unfold wrap64. rewrite (wrap_id 64) by (unfold is_uint; lia). rewrite !to_int64_id by (unfold is_int64; lia).
  unfold share at 2 4. fold (sidecar_memory b). destruct (sidecarEnabled b) eqn:Hside.
  - match goal with |- context [primary_share ?sr ?sl ?m ?r ?l] =>
      pose proof (primary_share_spec sr sl m r l ltac:(by case_match)) as [He Hle];
      destruct (primary_share sr sl m r l) as [r' l'] end.
    simpl in *. subst l'. exists rq, r'. rewrite !lookup_insert_eq, !lookup_insert_ne by done.
    rewrite Hv1, Hv2. split_and!; try done; lia.
  - exists rq, (ComputeCommittedResources (MemoryCommitLevel (wl_settings b)) (m_quantity mem)).
    simpl. rewrite !lookup_insert_eq, !lookup_insert_ne by done. rewrite Hv1, Hv2. split_and!; try done; lia.
Qed.

(** C27: a container is never given more than the lease has: its CPU limit is the leased
    one and its memory limit the leased one with the volumes in memory, each less the part
    of the attestation sidecar where there is one (but at least the minimum), and it
    requests no more than its limits, at whatever level resources are committed. *)
Theorem container_within_lease (b : Workload) (c : Container) (cpu : Units) (mem : Memory) :
  container b = Some c ->
  r_cpu (Mani.Res (wl_service b)) = Some cpu -> r_memory (Mani.Res (wl_service b)) = Some mem ->
  (0 <= units cpu < 2 ^ 63)%Z -> (0 <= m_quantity mem)%Z -> (0 <= ram_total b)%Z ->
  (m_quantity mem + ram_total b < 2 ^ 63)%Z ->
  (forall ic, interconnect_enabled b = Some ic -> si_resource_name ic <> "cpu"%string) ->
  exists cpuRequest memRequest,
    c_limits c !! "cpu"%string =
      Some (share b SidecarCPULimitMillicores MinPrimaryCPUMillicores (units cpu)) /\
    c_limits c !! "memory"%string =
      Some (share b (sidecar_memory b) MinPrimaryMemoryBytes (m_quantity mem + ram_total b)) /\
    c_requests c !! "cpu"%string = Some cpuRequest /\ c_requests c !! "memory"%string = Some memRequest /\
    (cpuRequest <= share b SidecarCPULimitMillicores MinPrimaryCPUMillicores (units cpu))%Z /\
    (memRequest <= share b (sidecar_memory b) MinPrimaryMemoryBytes (m_quantity mem + ram_total b))%Z.
Proof. apply container_shares. Qed.

(** ** Environment *)

(** The variables of a container are those of the manifest, then those of the provider
    that the manifest does not set. *)
Lemma container_env_spec (b : Workload) :
  let own := map env_of (Mani.Env (wl_service b)) in
  container_env b = own ++ map (fun kv => mkEnv kv.1 kv.2)
    (filter (fun kv => kv.1 ∉ map ev_name own) (provider_env b)).
Proof.
  unfold container_env, addEnvVarsForDeployment. set (own := map env_of _). cbv zeta.
  assert (forall l env, foldl (fun env kv => addIfNotPresent (map ev_name own) env kv.1 kv.2) env l =
    env ++ map (fun kv => mkEnv kv.1 kv.2) (filter (fun kv => kv.1 ∉ map ev_name own) l)) as H; [|apply H].
  induction l as [|kv l IH]; intros env; simpl; [by rewrite app_nil_r|].
  rewrite IH, filter_cons. unfold addIfNotPresent. destruct (existsb _ _) eqn:E.
  - apply existsb_exists in E as (x & Hx & ->%String.eqb_eq). rewrite decide_False; [done|].
    intros Hn. apply Hn. by apply list_elem_of_In.
  - rewrite decide_True.
    + simpl. by rewrite <- app_assoc.
    + intros Hin. apply not_true_iff_false in E. apply E. apply existsb_exists. exists kv.1.
      split; [by apply list_elem_of_In|apply String.eqb_refl].
Qed.

(** ** Permissions *)

Lemma GenerateRules_elem seen read rule :
  rule ∈ GenerateRules seen read <-> exists r, r ∈ read /\ (r ∉ seen) /\ rule ∈ resource_rules r.
Proof.
  revert seen. induction read as [|r read IH]; intros seen; simpl.
  - split; [by intros ?%elem_of_nil|]. intros (x & H & _). by apply elem_of_nil in H.
  - destruct (existsb (String.eqb r) seen) eqn:E.
    + apply existsb_exists in E as (x & Hx & ->%String.eqb_eq). apply list_elem_of_In in Hx. rewrite IH. split.
      * intros (y & ? & ? & ?). exists y. split_and!; [by right|done..].
      * intros (y & [->|?]%elem_of_cons & ? & ?); [done|]. by exists y.
    + assert (r ∉ seen) as Hr.
      { intros Hin. apply not_true_iff_false in E. apply E, existsb_exists. exists r.
        split; [by apply list_elem_of_In|apply String.eqb_refl]. }
      rewrite elem_of_app, IH. split.
      * intros [H|(y & Hy & Hs & ?)]; [exists r; split_and!; [left|done..]|].
        exists y. split_and!; [by right| |done]. intros Hin. apply Hs. by right.
      * intros (y & [->|Hy]%elem_of_cons & Hs & H); [by left|]. destruct (decide (y = r)) as [->|]; [by left|].
        right. exists y. split_and!; [done| |done]. intros [->|]%elem_of_cons; done.
Qed.

(** A tenant's service can only read, and only what the manifest names: every rule of
    its role is one of the rules of a resource the manifest lists, whatever the order and
    the repetitions, and allows no verb but getting, listing and watching, of pods, their
    logs, deployments and events. *)
Theorem role_read_only (b : Workload) (rule : PolicyRule) :
  (rule ∈ ro_rules (role_Create b) <->
   exists read r, getWorkloadPermissions b = Some read /\ r ∈ read /\ rule ∈ resource_rules r) /\
  (rule ∈ ro_rules (role_Create b) ->
   pr_verbs rule ⊆ ["get"; "list"; "watch"]%string /\
   pr_resources rule ⊆ ["pods"; "pods/log"; "deployments"; "events"]%string).
Proof.
  assert (rule ∈ ro_rules (role_Create b) <->
    exists read r, getWorkloadPermissions b = Some read /\ r ∈ read /\ rule ∈ resource_rules r) as Hiff.
  { simpl. unfold buildPolicyRules. destruct (getWorkloadPermissions b) as [read|].
    - rewrite GenerateRules_elem. split.
      + intros (r & ? & _ & ?). by exists read, r.
      + intros (read' & r & [= <-] & ? & ?). exists r. split_and!; [done|by intros ?%elem_of_nil|done].
    - split; [by intros ?%elem_of_nil|]. by intros (? & ? & ? & _). }
  split; [done|]. rewrite Hiff. intros (read & r & _ & _ & H). unfold resource_rules in H.
  repeat case_match; repeat (apply elem_of_cons in H as [->|H]; [by set_solver|]); by apply elem_of_nil in H.
Qed.

End ResourceTheorems.

(** ** Ports of the services *)

Section PortTheorems.
Context `{HP : ServiceProtocolAPI} `{HS : !SDK} `{HH : LeaseHash}.
Implicit Types (e : Mani.ServiceExpose) (np : bool).

Lemma Any_belongs b np : service_Any b np = existsb (belongs np) (Mani.Exposes (wl_own b)).
Proof.
  unfold service_Any. induction (Mani.Exposes (wl_own b)) as [|e es IH]; simpl; [done|]. rewrite IH. f_equal.
  unfold belongs. by destruct np, (IsIngress e), (Mani.Global e).
Qed.

Lemma ports_loop_err np i es added : ports_loop np i es added <> Err errInvalidServiceBuilder.
Proof.
  revert i added. induction es as [|e es IH]; intros i added; simpl; [done|].
  destruct (belongs np e); [|apply IH]. destruct (service_protocol _); [|done]. destruct (existsb _ _); [apply IH|].
  specialize (IH (S i) (GetExternalPort e :: added)). by destruct (ports_loop _ _ _ _).
Qed.

Lemma ports_loop_empty np i es : ports_loop np i es [] = Ok [] <-> existsb (belongs np) es = false.
Proof.
  revert i. induction es as [|e es IH]; intros i; simpl; [done|]. destruct (belongs np e); simpl; [|apply IH].
  split; [|done]. destruct (service_protocol _); [|done]. by destruct (ports_loop _ _ _ _).
Qed.

(** [Any] says exactly whether a service can be built: it is false if and only if
    computing the ports fails for want of any, so the deploy never asks for a service that
    would have none and leaves none out that has one. *)
Theorem any_predicts_ports (b : Workload) (requireNodePort : bool) :
  service_Any b requireNodePort = false <-> service_ports b requireNodePort = Err errInvalidServiceBuilder.
Proof.
  rewrite Any_belongs, <- (ports_loop_empty requireNodePort 0). unfold service_ports. split; [by intros ->|].
  pose proof (ports_loop_err requireNodePort 0 (Mani.Exposes (wl_own b)) []) as Hn.
  destruct (ports_loop _ _ _ _) as [[|p ps]|err]; simpl; [done|done|congruence].
Qed.

(** The port built for an expose. *)
Definition port_of (i : nat) e (protocol : string) : ServicePort :=
  mkServicePort (FormatUint (Z.of_nat i) +:+ "-" +:+ FormatUint (GetExternalPort e)) (to_int32 (GetExternalPort e))
    (to_int32 (Mani.Port e)) protocol 0.

Lemma existsb_eqb_elem (x : Z) l : existsb (Z.eqb x) l = true <-> x ∈ l.
Proof.
  rewrite existsb_exists. split.
  - intros (y & Hy & ->%Z.eqb_eq). by apply list_elem_of_In.
  - intros Hx. exists x. split; [by apply list_elem_of_In|apply Z.eqb_refl].
Qed.

(** The ports built are those of the first expose of each external port. *)
Lemma ports_loop_spec np i es added ps :
  ports_loop np i es added = Ok ps ->
  forall p, p ∈ ps <-> exists j e protocol, es !! j = Some e /\ belongs np e = true /\
    service_protocol (Mani.Proto e) = Some protocol /\ p = port_of (i + j) e protocol /\
    (GetExternalPort e ∉ added) /\
    forall j' e', (j' < j)%nat -> es !! j' = Some e' -> belongs np e' = true -> GetExternalPort e' <> GetExternalPort e.
Proof.
  revert i added ps. induction es as [|e es IH]; intros i added ps E p; simpl in E.
  - injection E as <-. split; [by intros ?%elem_of_nil|]. by intros (j & ? & ? & ? & _).
  - destruct (belongs np e) eqn:Hb.
    + destruct (service_protocol (Mani.Proto e)) as [protocol|] eqn:Hp; [|done].
      destruct (existsb (Z.eqb (GetExternalPort e)) added) eqn:Ha.
      * apply existsb_eqb_elem in Ha. rewrite (IH _ _ _ E p). split.
        -- intros (j & e' & pr & H1 & H2 & H3 & -> & H5 & H6). exists (S j), e', pr. split_and!; try done.
           ++ f_equal. lia.
           ++ intros [|j'] e2 Hlt He2 Hb2; [|apply (H6 j'); [lia|done..]]. injection He2 as <-. congruence.
        -- intros ([|j] & e' & pr & H1 & H2 & H3 & -> & H5 & H6); [injection H1 as <-; done|].
           exists j, e', pr. split_and!; try done; [f_equal; lia|].
           intros j' e2 Hlt He2. apply (H6 (S j')); [lia|done].
      * apply bind_result_Ok in E as (ps' & E & Hps). injection Hps as <-.
        apply not_true_iff_false in Ha. rewrite existsb_eqb_elem in Ha. rewrite elem_of_cons, (IH _ _ _ E p). split.
        -- intros [->|(j & e' & pr & H1 & H2 & H3 & -> & H5 & H6)].
           ++ exists 0%nat, e, protocol. rewrite Nat.add_0_r. split_and!; try done. intros j' e' Hlt. lia.
           ++ rewrite elem_of_cons in H5. exists (S j), e', pr. split_and!; try done; [f_equal; lia|tauto|].
              intros [|j'] e2 Hlt He2 Hb2; [injection He2 as <-; naive_solver|apply (H6 j'); [lia|done..]].
        -- intros ([|j] & e' & pr & H1 & H2 & H3 & -> & H5 & H6).
           ++ left. injection H1 as <-. rewrite Hp in H3. injection H3 as <-. by rewrite Nat.add_0_r.
           ++ right. exists j, e', pr. split_and!; try done; [f_equal; lia| |].
              ** intros [Hx|?]%elem_of_cons; [|done]. by apply (H6 0%nat e); [lia|..].
              ** intros j' e2 Hlt He2. apply (H6 (S j')); [lia|done].
    + rewrite (IH _ _ _ E p). split.
      * intros (j & e' & pr & H1 & H2 & H3 & -> & H5 & H6). exists (S j), e', pr. split_and!; try done.
        -- f_equal. lia.
        -- intros [|j'] e2 Hlt He2 Hb2; [injection He2 as <-; congruence|apply (H6 j'); [lia|done..]].
      * intros ([|j] & e' & pr & H1 & H2 & H3 & -> & H5 & H6); [injection H1 as <-; congruence|].
        exists j, e', pr. split_and!; try done; [f_equal; lia|]. intros j' e2 Hlt He2. apply (H6 (S j')); [lia|done].
Qed.

(** One external port in two protocols is opened in one only: a service whose exposes
    ask for the same external port over TCP and over UDP is built with the port of the first
    and without the other, and no error is reported. *)
Theorem second_protocol_dropped (b : Workload) (requireNodePort : bool) (e1 e2 : Mani.ServiceExpose) (protocol : string) :
  Mani.Exposes (wl_own b) = [e1; e2] -> belongs requireNodePort e1 = true -> belongs requireNodePort e2 = true ->
  GetExternalPort e1 = GetExternalPort e2 -> service_protocol (Mani.Proto e1) = Some protocol ->
  proto_ok (Mani.Proto e2) -> Mani.Proto e1 <> Mani.Proto e2 ->
  service_ports b requireNodePort = Ok [port_of 0 e1 protocol].
Proof.
  intros He H1 H2 Hext Hp Hok _. unfold service_ports. rewrite He. simpl. rewrite H1, Hp, H2, <- Hext, Z.eqb_refl. simpl.
  destruct (service_protocol (Mani.Proto e2)) as [q|] eqn:Hq; [done|].
  unfold service_protocol in Hq. destruct Hok as [Ho|Ho]; rewrite Ho in Hq; by repeat case_decide.
Qed.

(** *** Node ports *)

Lemma ports_loop_names np i es added ps p :
  ports_loop np i es added = Ok ps -> p ∈ ps ->
  exists j ext, (i <= j)%nat /\ p_name p = FormatUint (Z.of_nat j) +:+ "-" +:+ ext.
Proof.
  intros E Hp. apply (ports_loop_spec _ _ _ _ _ E) in Hp as (j & e & pr & _ & _ & _ & -> & _).
  exists (i + j)%nat, (FormatUint (GetExternalPort e)). split; [lia|done].
Qed.

Lemma ports_loop_nodup np i es added ps : ports_loop np i es added = Ok ps -> NoDup (map p_name ps).
Proof.
  revert i added ps. induction es as [|e es IH]; intros i added ps E; simpl in E; [injection E as <-; constructor|].
  destruct (belongs np e); [|by eapply IH]. destruct (service_protocol _) as [pr|]; [|done].
  destruct (existsb _ _); [by eapply IH|]. apply bind_result_Ok in E as (ps' & E & Hps). injection Hps as <-. simpl.
  apply list.NoDup_cons. split; [|by eapply IH]. intros Hin. apply list_elem_of_fmap in Hin as (p & Hn & Hp).
  destruct (ports_loop_names _ _ _ _ _ _ E Hp) as (j & ext & Hj & Hname). rewrite Hname in Hn.
  apply (sep_inj_l "-"%char) in Hn as [Hn _]; try (apply FormatUint_no_char; [done|lia]).
  apply FormatUint_inj in Hn; lia.
Qed.

Lemma same_port_name p q : same_port p q = true -> p_name q = p_name p.
Proof. unfold same_port. rewrite !andb_true_iff, !String.eqb_eq. tauto. Qed.

(** A port is replaced by the one that is like it. *)
Lemma retain_port_unique current p q :
  NoDup (map p_name current) -> q ∈ current -> same_port p q = true -> retain_port current p = q.
Proof.
  unfold retain_port. intros Hnd Hq Hs.
  assert (forall acc, (acc = p \/ acc = q) -> foldl (fun acc c => if same_port p c then c else acc) acc current = q) as H;
    [|by apply H; left]. revert Hnd Hq. induction current as [|c cs IH]; intros Hnd Hq acc Ha; [by apply elem_of_nil in Hq|].
  simpl in *. apply list.NoDup_cons in Hnd as [Hc Hnd]. apply elem_of_cons in Hq as [->|Hq].
  - rewrite Hs. clear IH. induction cs as [|d cs IH]; [done|]. simpl in *.
    destruct (same_port p d) eqn:Hd; [|apply IH; [set_solver|by apply list.NoDup_cons in Hnd as [_ ?]]].
    exfalso. apply Hc. rewrite (same_port_name _ _ Hs), <- (same_port_name _ _ Hd). left.
  - destruct (same_port p c) eqn:Hd.
    + exfalso. apply Hc. rewrite (same_port_name _ _ Hd), <- (same_port_name _ _ Hs). by apply list_elem_of_fmap_2.
    + by apply IH.
Qed.

(** Node ports survive a redeploy: when the ports the cluster has for a service are
    those it was built with, whatever node ports the cluster has assigned, an update for the
    same exposes keeps every port with its node port. *)
Theorem node_ports_retained (b b' : Workload) (o assigned updated : KServiceObj) :
  Mani.Exposes (wl_own b') = Mani.Exposes (wl_own b) ->
  service_Create b true = Ok o ->
  Forall2 (fun p q => same_port p q = true) (so_ports o) (so_ports assigned) ->
  service_Update b' true assigned = Ok updated ->
  so_ports updated = so_ports assigned.
Proof.
  intros He Hc Hsame Hu. unfold service_Create in Hc. apply bind_result_Ok in Hc as (ps & Hps & Hc). injection Hc as <-.
  unfold service_Update in Hu. apply bind_result_Ok in Hu as (ps' & Hps' & Hu). injection Hu as <-. simpl in *.
  unfold service_ports in Hps, Hps'. rewrite He in Hps'. rewrite Hps in Hps'. injection Hps' as <-.
  apply bind_result_Ok in Hps as (ps1 & Hl & Hps). assert (ps1 = ps) as -> by (destruct ps1; [done|by injection Hps]).
  assert (NoDup (map p_name (so_ports assigned))) as Hnd.
  { replace (map p_name (so_ports assigned)) with (map p_name ps); [by eapply ports_loop_nodup|].
    clear -Hsame. induction Hsame as [|p q l k H Hs IH]; [done|]. simpl. by rewrite IH, (same_port_name _ _ H). }
  assert (forall l k, Forall2 (fun p q => same_port p q = true) l k -> k ⊆ so_ports assigned ->
    map (retain_port (so_ports assigned)) l = k) as H; [|by apply H].
  induction 1 as [|p q l k Hpq Hs IH]; intros Hk; [done|]. simpl.
  rewrite (retain_port_unique _ p q Hnd), IH; [done|set_solver|apply Hk; left|done].
Qed.

End PortTheorems.
