(* ===== verification/NetPol.v ===== *)
(** * Network policies of a lease

    Model of [cluster/kube/builder/netpol.go]: the policies that close the namespace of a
    lease and open what its services expose, and what they mean for a connection. *)

From Stdlib Require Import ZArith Lia Ascii.
From stdpp Require Import base gmap list strings tactics.
From S2P Require Import Prelude Types Names CRD Builder.

(** ** Objects *)

Record PolicyPeer := mkPeer {
  pp_namespaces : option labels_t; pp_pods : option labels_t; pp_block : option (string * list string)
}.
Record PolicyPort := mkPolicyPort { pl_port : Z; pl_protocol : string }.
Record TrafficRule := mkTraffic { tr_peers : list PolicyPeer; tr_ports : list PolicyPort }.
Inductive PolicyType := PolicyIngress | PolicyEgress.

Record KNetworkPolicy := mkPolicy {
  np_name : string; np_labels : labels_t; np_pods : labels_t; np_types : list PolicyType;
  np_ingress : list TrafficRule; np_egress : list TrafficRule
}.

#[export] Instance PolicyPeer_eq_dec : EqDecision PolicyPeer.
Proof. solve_decision. Defined.
#[export] Instance PolicyPort_eq_dec : EqDecision PolicyPort.
Proof. solve_decision. Defined.
#[export] Instance TrafficRule_eq_dec : EqDecision TrafficRule.
Proof. solve_decision. Defined.
#[export] Instance PolicyType_eq_dec : EqDecision PolicyType.
Proof. solve_decision. Defined.
#[export] Instance KNetworkPolicy_eq_dec : EqDecision KNetworkPolicy.
Proof. solve_decision. Defined.

(** ** Building the policies *)

Definition metadata_name : string := "kubernetes.io/metadata.name".
Definition ingressLabelName : string := "app.kubernetes.io/name".
Definition ingressLabelValue : string := "ingress-nginx".
Definition akashDeploymentPolicyName : string := "akash-deployment-restrictions".

Definition namespace_peer (key value : string) : PolicyPeer := mkPeer (Some {[ key := value ]}) None None.
Definition block_peer (cidr : string) (except : list string) : PolicyPeer := mkPeer None None (Some (cidr, except)).

Definition hostCIDR (ep : APIEndpoint) : string := ae_ip ep +:+ (if ae_is4 ep then "/32" else "/128").

Section Policies.
Context `{HP : ServiceProtocolAPI} `{HS : !SDK} `{HH : LeaseHash}.

Definition same_namespace (d : cdeployment) : TrafficRule :=
  mkTraffic [namespace_peer akashNetworkNamespace (LidNS (cd_lid d))] [].

Definition ingress_rules (settings : Settings) (d : cdeployment) : list TrafficRule :=
  [same_namespace d;
   mkTraffic [mkPeer (Some {[ ingressLabelName := ingressLabelValue ]}) (Some {[ ingressLabelName := ingressLabelValue ]}) None] [];
   mkTraffic [] [mkPolicyPort 8790 "TCP"]] ++
  (if GatewayMode settings && negb (String.eqb (GatewayNamespace settings) "")
   then [mkTraffic [namespace_peer metadata_name (GatewayNamespace settings)] []] else []).

Definition egress_rules (d : cdeployment) : list TrafficRule :=
  [same_namespace d;
   mkTraffic [mkPeer (Some {[ metadata_name := "kube-system"%string ]}) (Some {[ "k8s-app" := "kube-dns" ]}%string) None]
     [mkPolicyPort 53 "UDP"; mkPolicyPort 53 "TCP"];
   mkTraffic [block_peer "0.0.0.0/0" ["10.0.0.0/8"; "192.168.0.0/16"; "172.16.0.0/12"]%string] []].

Definition restrictions (settings : Settings) (d : cdeployment) : KNetworkPolicy :=
  mkPolicy akashDeploymentPolicyName (base_labels d) ∅ [PolicyIngress; PolicyEgress]
    (ingress_rules settings d) (egress_rules d).

(** A protocol other than the two leaves the field empty. *)
Definition expose_port (e : Mani.ServiceExpose) : PolicyPort :=
  mkPolicyPort (to_int32 (Mani.Port e)) (default ""%string (service_protocol (Mani.Proto e))).

Definition opened (e : Mani.ServiceExpose) : bool := Mani.Global e && negb (IsIngress e).
Definition opened_by_ip (e : Mani.ServiceExpose) : bool := negb (String.eqb (Mani.IP e) "").

Definition serviceHasReadPermissions (s : Mani.Service) : bool :=
  match Mani.Params s ≫= Mani.PRead with Some (_ :: _) => true | _ => false end.

Definition service_pods (s : Mani.Service) : labels_t := {[ AkashManifestServiceLabelName := Mani.Name s ]}.

(** The ports of the endpoints, each once. *)
Fixpoint endpoint_ports (seen : list Z) (eps : list APIEndpoint) : list PolicyPort :=
  match eps with
  | [] => []
  | ep :: rest =>
      let p := to_int32 (ae_port ep) in
      if existsb (Z.eqb p) seen then endpoint_ports seen rest
      else mkPolicyPort p "TCP" :: endpoint_ports (p :: seen) rest
  end.

Definition service_policies (settings : Settings) (d : cdeployment) (s : Mani.Service) : list KNetworkPolicy :=
  let ports := expose_port <$> filter (fun e => opened e = true) (Mani.Exposes s) in
  let portsWithIP := expose_port <$> filter (fun e => opened_by_ip e = true) (Mani.Exposes s) in
  match ports with
  | [] => []
  | _ => [mkPolicy ("akash-" +:+ Mani.Name s +:+ "-np") (base_labels d) (service_pods s) [PolicyIngress] [mkTraffic [] ports] []]
  end ++
  match portsWithIP with
  | [] => []
  | _ => [mkPolicy ("akash-" +:+ Mani.Name s +:+ "-ip") (base_labels d) (service_pods s) [PolicyIngress]
            [mkTraffic [block_peer "0.0.0.0/0" []] portsWithIP] []]
  end ++
  match APIServerEndpoints settings with
  | [] => []
  | eps =>
      if serviceHasReadPermissions s then
        [mkPolicy ("akash-apiserver-" +:+ Mani.Name s) (base_labels d) (service_pods s) [PolicyEgress] []
           [mkTraffic (map (fun ep => block_peer (hostCIDR ep) []) eps) (endpoint_ports [] eps)]]
      else []
  end.

Definition netpol_Create (settings : Settings) (d : cdeployment) : list KNetworkPolicy :=
  if NetworkPoliciesEnabled settings
  then restrictions settings d :: (Mani.Services (cd_group d) ≫= service_policies settings d)
  else [].

Definition netpol_Update (d : cdeployment) (obj : KNetworkPolicy) : KNetworkPolicy :=
  mkPolicy (np_name obj) (updateAkashLabels (np_labels obj) (base_labels d)) (np_pods obj) (np_types obj)
    (np_ingress obj) (np_egress obj).

End Policies.

(** ** What policies mean *)

(** A pod on the network: the labels of its namespace, its own, and its IPv4 address as a
    number. *)
Record endpoint := mkNetEndpoint { en_namespace : labels_t; en_pod : labels_t; en_addr : Z }.

Definition addr4 (a b c d : Z) : Z := (((a * 256 + b) * 256 + c) * 256 + d)%Z.

(** A block of IPv4 addresses as it is written, [a.b.c.d/n]; a block of IPv6 addresses is none. *)
Definition parse_block (cidr : string) : option (Z * Z) :=
  match split "/"%char cidr with
  | [ip; len] =>
      match split "."%char ip with
      | [a; b; c; d] =>
          a ← ParseUint 8 a; b ← ParseUint 8 b; c ← ParseUint 8 c; d ← ParseUint 8 d; n ← ParseUint 8 len;
          if (n <=? 32)%Z then Some (addr4 a b c d, n) else None
      | _ => None
      end
  | _ => None
  end.

Definition block_holds (cidr : string) (addr : Z) : bool :=
  match parse_block cidr with
  | Some (net, n) => (addr / 2 ^ (32 - n) =? net / 2 ^ (32 - n))%Z
  | None => false
  end.

Definition labels_match (selector labels : labels_t) : bool :=
  forallb (fun kv => bool_decide (labels !! kv.1 = Some kv.2)) (map_to_list selector).

Definition selector_admits (o : option labels_t) (labels : labels_t) : bool :=
  match o with Some selector => labels_match selector labels | None => true end.

(** A block holds a pod by its address. The pods of a rule without a selector of namespaces are
    those of the policy's own, which no rule here has. *)
Definition peer_admits (s : endpoint) (p : PolicyPeer) : bool :=
  match pp_block p with
  | Some (cidr, except) => block_holds cidr (en_addr s) && negb (existsb (fun c => block_holds c (en_addr s)) except)
  | None => selector_admits (pp_namespaces p) (en_namespace s) && selector_admits (pp_pods p) (en_pod s)
  end.

Definition none_or {A} (p : A -> bool) (l : list A) : bool := match l with [] => true | _ => existsb p l end.

Definition rule_admits (s : endpoint) (port : Z) (protocol : string) (r : TrafficRule) : bool :=
  none_or (peer_admits s) (tr_peers r) &&
  none_or (fun p => (pl_port p =? port)%Z && String.eqb (pl_protocol p) protocol) (tr_ports r).

Definition restricts (ty : PolicyType) (pod : labels_t) (p : KNetworkPolicy) : bool :=
  existsb (fun t => bool_decide (t = ty)) (np_types p) && labels_match (np_pods p) pod.

Definition rules_of (ty : PolicyType) (p : KNetworkPolicy) : list TrafficRule :=
  match ty with PolicyIngress => np_ingress p | PolicyEgress => np_egress p end.

(** Kubernetes allows traffic of a pod in a direction when no policy of its namespace for that
    direction selects the pod, or one that does has a rule for the other end and the port. *)
Definition allowed (ty : PolicyType) (policies : list KNetworkPolicy) (pod : labels_t) (other : endpoint)
    (port : Z) (protocol : string) : bool :=
  let relevant := filter (fun p => restricts ty pod p = true) policies in
  match relevant with
  | [] => true
  | _ => existsb (fun p => existsb (rule_admits other port protocol) (rules_of ty p)) relevant
  end.

(** A connection is made when the policies of the namespace of its source let it out and those
    of the namespace of its target let it in. *)
Definition connects (srcPolicies dstPolicies : list KNetworkPolicy) (src dst : endpoint) (port : Z) (protocol : string)
  : bool :=
  allowed PolicyEgress srcPolicies (en_pod src) dst port protocol &&
  allowed PolicyIngress dstPolicies (en_pod dst) src port protocol.

(** ** Isolation *)

Lemma labels_match_subseteq (sel labels : labels_t) : labels_match sel labels = true <-> sel ⊆ labels.
Proof.
  unfold labels_match. rewrite forallb_forall, map_subseteq_spec. split.
  - intros H k v Hk. apply elem_of_map_to_list, list_elem_of_In in Hk. apply H in Hk. by apply bool_decide_eq_true in Hk.
  - intros H [k v] Hk. apply list_elem_of_In, elem_of_map_to_list in Hk. by apply bool_decide_eq_true, H.
Qed.

Lemma labels_match_singleton (k v : string) (labels : labels_t) :
  labels_match {[ k := v ]} labels = true <-> labels !! k = Some v.
Proof. rewrite labels_match_subseteq. apply map_singleton_subseteq_l. Qed.

(** *** Blocks of addresses *)

Definition is_addr (addr : Z) : Prop := (0 <= addr < 2 ^ 32)%Z.

(** Addresses outside the three private blocks. *)
Definition public_addr (addr : Z) : Prop :=
  ~ (addr4 10 0 0 0 <= addr <= addr4 10 255 255 255)%Z /\
  ~ (addr4 192 168 0 0 <= addr <= addr4 192 168 255 255)%Z /\
  ~ (addr4 172 16 0 0 <= addr <= addr4 172 31 255 255)%Z.

Lemma block_holds_range cidr net n addr :
  parse_block cidr = Some (net, n) -> (0 <= n <= 32)%Z -> (net mod 2 ^ (32 - n) = 0)%Z ->
  block_holds cidr addr = true <-> (net <= addr < net + 2 ^ (32 - n))%Z.
Proof.
  intros Hp Hn Hm. unfold block_holds. rewrite Hp, Z.eqb_eq. assert (0 < 2 ^ (32 - n))%Z as Hpos by lia.
  pose proof (Z.div_mod net (2 ^ (32 - n)) ltac:(lia)). pose proof (Z.div_mod addr (2 ^ (32 - n)) ltac:(lia)).
  pose proof (Z.mod_pos_bound addr (2 ^ (32 - n)) Hpos). split; [intros E; rewrite E in *; lia|]. intros Hr.
  symmetry. apply (Z.div_unique _ _ _ (addr - net)); lia.
Qed.

Lemma any_block addr : is_addr addr -> block_holds "0.0.0.0/0" addr = true.
Proof. intros H. apply (block_holds_range _ 0 0); [reflexivity|lia|reflexivity|]. exact H. Qed.

(** What the rule for public addresses lets out to. *)
Lemma public_block (e : endpoint) :
  is_addr (en_addr e) ->
  peer_admits e (block_peer "0.0.0.0/0" ["10.0.0.0/8"; "192.168.0.0/16"; "172.16.0.0/12"]%string) = true <->
  public_addr (en_addr e).
Proof.
  intros Ha. unfold peer_admits, block_peer. cbn [pp_block existsb]. rewrite any_block by done. cbn [andb].
  pose proof (block_holds_range "10.0.0.0/8" (addr4 10 0 0 0) 8 (en_addr e) eq_refl ltac:(lia) eq_refl) as H1.
  pose proof (block_holds_range "192.168.0.0/16" (addr4 192 168 0 0) 16 (en_addr e) eq_refl ltac:(lia) eq_refl) as H2.
  pose proof (block_holds_range "172.16.0.0/12" (addr4 172 16 0 0) 12 (en_addr e) eq_refl ltac:(lia) eq_refl) as H3.
  rewrite negb_true_iff, !orb_false_iff, <- !not_true_iff_false, H1, H2, H3.
  change (2 ^ (32 - 8))%Z with (addr4 1 0 0 0). change (2 ^ (32 - 16))%Z with (addr4 0 1 0 0).
  change (2 ^ (32 - 12))%Z with (addr4 0 16 0 0). unfold public_addr, addr4. intuition lia.
Qed.

Section Isolation.
Context `{HP : ServiceProtocolAPI} `{HS : !SDK} `{HH : LeaseHash}.
Context (settings : Settings) (Hon : NetworkPoliciesEnabled settings = true).

Lemma allowed_iff ty d pod other port protocol :
  allowed ty (netpol_Create settings d) pod other port protocol = true <->
  exists p r, p ∈ netpol_Create settings d /\ restricts ty pod p = true /\ r ∈ rules_of ty p /\
    rule_admits other port protocol r = true.
Proof.
  unfold allowed. set (relevant := filter _ _).
  assert (restrictions settings d ∈ relevant) as Hr.
  { apply list_elem_of_filter. split; [|unfold netpol_Create; rewrite Hon; left]. unfold restricts. by destruct ty. }
  destruct relevant as [|p0 ps] eqn:E; [by apply elem_of_nil in Hr|]. rewrite <- E in *. clear p0 ps E Hr.
  rewrite existsb_exists. setoid_rewrite existsb_exists. setoid_rewrite <- list_elem_of_In. split.
  - intros (p & [? ?]%list_elem_of_filter & r & ? & ?). by exists p, r.
  - intros (p & r & ? & ? & ? & ?). exists p. split; [by apply list_elem_of_filter|]. by exists r.
Qed.

(** An expose of the service a pod belongs to that asks for a port to be open to all. *)
Definition asks_open (d : cdeployment) (pod : labels_t) (port : Z) (protocol : string) : Prop :=
  exists svc e, svc ∈ Mani.Services (cd_group d) /\ pod !! AkashManifestServiceLabelName = Some (Mani.Name svc) /\
    e ∈ Mani.Exposes svc /\ (opened e || opened_by_ip e) = true /\ expose_port e = mkPolicyPort port protocol.

(** An address and a port of the API server, let out to for a service with permissions to read. *)
Definition api_egress (d : cdeployment) (pod : labels_t) (addr port : Z) (protocol : string) : Prop :=
  (exists svc, svc ∈ Mani.Services (cd_group d) /\ pod !! AkashManifestServiceLabelName = Some (Mani.Name svc) /\
     serviceHasReadPermissions svc = true) /\
  (exists ep, ep ∈ APIServerEndpoints settings /\ block_holds (hostCIDR ep) addr = true) /\
  (exists ep, ep ∈ APIServerEndpoints settings /\ to_int32 (ae_port ep) = port) /\ protocol = "TCP"%string.

Lemma none_or_elem {A} (p : A -> bool) (l : list A) x : x ∈ l -> none_or p l = true <-> exists y, y ∈ l /\ p y = true.
Proof.
  intros Hx. destruct l as [|z l]; [by apply elem_of_nil in Hx|]. unfold none_or. rewrite existsb_exists.
  by setoid_rewrite <- list_elem_of_In.
Qed.

Lemma port_matches port protocol (ports : list PolicyPort) p0 :
  p0 ∈ ports ->
  none_or (fun p => (pl_port p =? port)%Z && String.eqb (pl_protocol p) protocol) ports = true <->
  mkPolicyPort port protocol ∈ ports.
Proof.
  intros Hp. rewrite (none_or_elem _ _ p0 Hp). split.
  - intros (q & Hq & E). rewrite andb_true_iff, Z.eqb_eq, String.eqb_eq in E. destruct E as [<- <-]. by destruct q.
  - intros Hq. eexists. split; [done|]. simpl. by rewrite Z.eqb_refl, String.eqb_refl.
Qed.

(** A policy made of the exposes of a service, when there are any. *)
Lemma exposes_admit (keep : Mani.ServiceExpose -> bool) es port protocol :
  expose_port <$> filter (fun e => keep e = true) es <> [] ->
  none_or (fun p => (pl_port p =? port)%Z && String.eqb (pl_protocol p) protocol)
    (expose_port <$> filter (fun e => keep e = true) es) = true <->
  exists e, e ∈ es /\ keep e = true /\ expose_port e = mkPolicyPort port protocol.
Proof.
  intros Hne. destruct (expose_port <$> _) as [|p0 ps] eqn:E; [done|]. rewrite (port_matches _ _ _ p0) by left.
  rewrite <- E, list_elem_of_fmap. setoid_rewrite list_elem_of_filter. split.
  - intros (e & ? & ? & ?). by exists e.
  - intros (e & ? & ? & ?). by exists e.
Qed.

(** The policies of a service that let traffic in. *)
Lemma service_policies_open d svc pod s port protocol :
  is_addr (en_addr s) ->
  (exists p r, p ∈ service_policies settings d svc /\ restricts PolicyIngress pod p = true /\ r ∈ np_ingress p /\
     rule_admits s port protocol r = true) <->
  pod !! AkashManifestServiceLabelName = Some (Mani.Name svc) /\
  exists e, e ∈ Mani.Exposes svc /\ (opened e || opened_by_ip e) = true /\ expose_port e = mkPolicyPort port protocol.
Proof.
  intros Hs. unfold service_policies.
  pose proof (exposes_admit opened (Mani.Exposes svc) port protocol) as H1.
  pose proof (exposes_admit opened_by_ip (Mani.Exposes svc) port protocol) as H2.
  assert (forall keep, (expose_port <$> filter (fun e => keep e = true) (Mani.Exposes svc)) = [] ->
    forall e, e ∈ Mani.Exposes svc -> keep e = true -> False) as Hnone.
  { intros keep E e He Hk. apply fmap_nil_inv in E.
    assert (e ∈ filter (fun e => keep e = true) (Mani.Exposes svc)) as Hin by (by apply list_elem_of_filter).
    rewrite E in Hin. by apply elem_of_nil in Hin. }
  set (ports := expose_port <$> filter (fun e => opened e = true) (Mani.Exposes svc)) in *.
  set (withIP := expose_port <$> filter (fun e => opened_by_ip e = true) (Mani.Exposes svc)) in *.
  split.
  - intros (p & r & Hp & Hsel & Hr & Hadm). rewrite !elem_of_app in Hp. destruct Hp as [Hp|[Hp|Hp]].
    + destruct ports as [|p0 ps] eqn:E; [by apply elem_of_nil in Hp|]. apply list_elem_of_singleton in Hp as ->.
      simpl in Hr. apply list_elem_of_singleton in Hr as ->. unfold restricts in Hsel. simpl in Hsel.
      split; [by apply labels_match_singleton|]. unfold rule_admits in Hadm. cbn [tr_peers tr_ports none_or] in Hadm.
      apply (proj1 (H1 ltac:(done))) in Hadm as (e & ? & Ho & ?). exists e. split_and!; [assumption|by rewrite Ho|assumption].
    + destruct withIP as [|p0 ps] eqn:E; [by apply elem_of_nil in Hp|]. apply list_elem_of_singleton in Hp as ->.
      simpl in Hr. apply list_elem_of_singleton in Hr as ->. unfold restricts in Hsel. simpl in Hsel.
      split; [by apply labels_match_singleton|]. unfold rule_admits in Hadm. apply andb_true_iff in Hadm as [_ Hadm].
      apply (proj1 (H2 ltac:(done))) in Hadm as (e & ? & Ho & ?). exists e. split_and!; [assumption|by rewrite Ho, orb_true_r|assumption].
    + repeat case_match; try by apply elem_of_nil in Hp. apply list_elem_of_singleton in Hp as ->. done.
  - intros (Hpod & e & He & Ho & Hport).
    assert (forall name ports peers, restricts PolicyIngress pod (mkPolicy name (base_labels d) (service_pods svc) [PolicyIngress]
      [mkTraffic peers ports] []) = true) as Hsel by (intros; unfold restricts; simpl; by apply labels_match_singleton).
    apply orb_true_iff in Ho as [Ho|Ho].
    + destruct ports as [|p0 ps] eqn:E; [exfalso; by eapply (Hnone opened)|].
      do 2 eexists. rewrite !elem_of_app. split_and!; [left; left|apply Hsel|left|]. unfold rule_admits.
      cbn [tr_peers tr_ports none_or]. apply H1; [done|]. by exists e.
    + destruct withIP as [|p0 ps] eqn:E; [exfalso; by eapply (Hnone opened_by_ip)|].
      do 2 eexists. rewrite !elem_of_app. split_and!; [right; left; left|apply Hsel|left|]. unfold rule_admits.
      apply andb_true_iff. split; [|apply H2; [done|]; by exists e].
      cbn [tr_peers none_or existsb]. unfold peer_admits, block_peer. cbn [pp_block existsb negb].
      by rewrite any_block.
Qed.

Lemma endpoint_ports_elem seen eps p :
  p ∈ endpoint_ports seen eps <->
  pl_protocol p = "TCP"%string /\ (pl_port p ∉ seen) /\ exists ep, ep ∈ eps /\ to_int32 (ae_port ep) = pl_port p.
Proof.
  revert seen. induction eps as [|ep eps IH]; intros seen; cbn [endpoint_ports].
  { split; [by intros ?%elem_of_nil|]. intros (_ & _ & ep & Hep & _). by apply elem_of_nil in Hep. }
  destruct (existsb (Z.eqb (to_int32 (ae_port ep))) seen) eqn:E.
  - apply existsb_exists in E as (q & Hq & <-%Z.eqb_eq). apply list_elem_of_In in Hq. rewrite IH. split.
    + intros (? & ? & ep' & ? & ?). split_and!; [done..|]. exists ep'. split; [by right|done].
    + intros (? & ? & ep' & [->|?]%elem_of_cons & Hp); [congruence|]. split_and!; [done..|]. by exists ep'.
  - assert (to_int32 (ae_port ep) ∉ seen) as Hn.
    { intros Hin. apply not_true_iff_false in E. apply E, existsb_exists. exists (to_int32 (ae_port ep)).
      split; [by apply list_elem_of_In|apply Z.eqb_refl]. }
    rewrite elem_of_cons, IH, not_elem_of_cons. split.
    + intros [->|(? & [? ?] & ep' & ? & ?)].
      * split_and!; [done..|]. exists ep. split; [left|done].
      * split_and!; [done..|]. exists ep'. split; [by right|done].
    + intros (Ht & Hs & ep' & Hin & Hp). destruct (decide (pl_port p = to_int32 (ae_port ep))) as [Ep|Ep].
      * left. destruct p; simpl in *; congruence.
      * right. apply elem_of_cons in Hin as [->|Hin]; [congruence|]. split_and!; [done..|]. by exists ep'.
Qed.

(** The policies of a service that let traffic out. *)
Lemma service_policies_api d svc pod s port protocol :
  (exists p r, p ∈ service_policies settings d svc /\ restricts PolicyEgress pod p = true /\ r ∈ np_egress p /\
     rule_admits s port protocol r = true) <->
  (pod !! AkashManifestServiceLabelName = Some (Mani.Name svc) /\ serviceHasReadPermissions svc = true) /\
  (exists ep, ep ∈ APIServerEndpoints settings /\ block_holds (hostCIDR ep) (en_addr s) = true) /\
  (exists ep, ep ∈ APIServerEndpoints settings /\ to_int32 (ae_port ep) = port) /\ protocol = "TCP"%string.
Proof.
  assert (forall ep0 eps, APIServerEndpoints settings = ep0 :: eps ->
    rule_admits s port protocol (mkTraffic (map (fun ep => block_peer (hostCIDR ep) []) (APIServerEndpoints settings))
      (endpoint_ports [] (APIServerEndpoints settings))) = true <->
    (exists ep, ep ∈ APIServerEndpoints settings /\ block_holds (hostCIDR ep) (en_addr s) = true) /\
    (exists ep, ep ∈ APIServerEndpoints settings /\ to_int32 (ae_port ep) = port) /\ protocol = "TCP"%string) as Hrule.
  { intros ep0 eps E. unfold rule_admits. cbn [tr_peers tr_ports]. rewrite andb_true_iff.
    rewrite (none_or_elem _ _ (block_peer (hostCIDR ep0) [])) by (rewrite E; left).
    rewrite (port_matches _ _ _ (mkPolicyPort (to_int32 (ae_port ep0)) "TCP"))
      by (apply endpoint_ports_elem; split_and!; [done|apply not_elem_of_nil|exists ep0; split; [rewrite E; left|done]]).
    rewrite endpoint_ports_elem. cbn [pl_port pl_protocol]. split.
    - intros [(p & (ep & -> & Hep)%list_elem_of_fmap & Hb) (? & _ & ?)]. split_and!; [|done..]. exists ep. split; [done|].
      unfold peer_admits in Hb. cbn [block_peer pp_block existsb negb] in Hb. by rewrite andb_true_r in Hb.
    - intros ((ep & Hep & Hb) & ? & ?). split; [|by split_and!; [|apply not_elem_of_nil|]].
      exists (block_peer (hostCIDR ep) []). split; [apply list_elem_of_fmap; by exists ep|].
      unfold peer_admits. cbn [block_peer pp_block existsb negb]. by rewrite andb_true_r. }
  unfold service_policies. set (eps := APIServerEndpoints settings) in *. split.
  - intros (p & r & Hp & Hsel & Hr & Hadm). rewrite !elem_of_app in Hp.
    destruct Hp as [Hp|[Hp|Hp]]; [repeat case_match; [by apply elem_of_nil in Hp|apply list_elem_of_singleton in Hp as ->; by apply elem_of_nil in Hr]..|].
    destruct eps as [|ep0 eps'] eqn:E; [by apply elem_of_nil in Hp|].
    destruct (serviceHasReadPermissions svc) eqn:Hs; [|by apply elem_of_nil in Hp]. apply list_elem_of_singleton in Hp as ->.
    cbn [np_egress] in Hr. apply list_elem_of_singleton in Hr as ->. unfold restricts in Hsel. simpl in Hsel.
    split; [split; [by apply labels_match_singleton|done]|]. by apply (Hrule ep0 eps').
  - intros ([Hpod Hs] & (ep & Hep & Hb) & Hrest). destruct eps as [|ep0 eps'] eqn:E; [by apply elem_of_nil in Hep|]. rewrite Hs.
    do 2 eexists. rewrite !elem_of_app. split_and!; [right; right; left| |left|].
    + unfold restricts. simpl. by apply labels_match_singleton.
    + apply (Hrule ep0 eps'); [done|]. split; [by exists ep|done].
Qed.

(** The labels of the namespace of a lease: those it is built with, and its name. *)
Definition lease_namespace (d : cdeployment) : labels_t := <[metadata_name := LidNS (cd_lid d)]> (ns_labels d).

Lemma lease_namespace_labels d :
  lease_namespace d !! akashNetworkNamespace = Some (LidNS (cd_lid d)) /\
  lease_namespace d !! ingressLabelName = None /\ lease_namespace d !! metadata_name = Some (LidNS (cd_lid d)).
Proof.
  unfold lease_namespace, ns_labels, AppendLeaseLabels, base_labels, base_selectorLabels. split_and!.
  - rewrite !lookup_insert_ne by done. apply lookup_insert_eq.
  - rewrite !lookup_insert_ne by done. by apply lookup_singleton_ne.
  - apply lookup_insert_eq.
Qed.

(** A rule for the namespaces with a label. *)
Lemma namespace_rule k v s port protocol :
  rule_admits s port protocol (mkTraffic [namespace_peer k v] []) = true <-> en_namespace s !! k = Some v.
Proof.
  unfold rule_admits. cbn [tr_peers tr_ports none_or existsb peer_admits pp_block pp_namespaces pp_pods namespace_peer
    selector_admits]. rewrite orb_false_r, !andb_true_r. apply labels_match_singleton.
Qed.

(** What the policies of a lease let in from another. *)
Lemma other_lease_in d d' pod srcPod addr port protocol :
  LidNS (cd_lid d') <> LidNS (cd_lid d) -> GatewayNamespace settings <> LidNS (cd_lid d') -> is_addr addr ->
  allowed PolicyIngress (netpol_Create settings d) pod (mkNetEndpoint (lease_namespace d') srcPod addr) port protocol = true <->
  (port = 8790%Z /\ protocol = "TCP"%string) \/ asks_open d pod port protocol.
Proof.
  intros Hne Hgw Ha. rewrite allowed_iff. destruct (lease_namespace_labels d') as (L1 & L2 & L3).
  set (src := mkNetEndpoint (lease_namespace d') srcPod addr).
  unfold netpol_Create. rewrite Hon. split.
  - intros (p & r & [->|Hp]%elem_of_cons & Hsel & Hr & Hadm).
    + left. cbn [rules_of restrictions np_ingress] in Hr. unfold ingress_rules in Hr. rewrite elem_of_app, !elem_of_cons in Hr.
      destruct Hr as [[->|[->|[->|Hr]]]|Hr].
      * apply namespace_rule in Hadm. simpl in Hadm. congruence.
      * unfold rule_admits in Hadm. cbn [tr_peers none_or existsb peer_admits pp_block pp_namespaces selector_admits] in Hadm.
        rewrite orb_false_r, !andb_true_iff in Hadm. destruct Hadm as [[Hadm _] _].
        apply labels_match_singleton in Hadm. simpl in Hadm. congruence.
      * unfold rule_admits in Hadm. cbn [tr_peers tr_ports none_or existsb andb pl_port pl_protocol] in Hadm.
        rewrite orb_false_r, andb_true_iff, Z.eqb_eq, String.eqb_eq in Hadm. destruct Hadm as [<- <-]. by split.
      * apply elem_of_nil in Hr. destruct Hr.
      * destruct (_ && _); [|apply elem_of_nil in Hr; destruct Hr]. apply list_elem_of_singleton in Hr as ->.
        apply namespace_rule in Hadm. simpl in Hadm. congruence.
    + right. apply list_elem_of_bind in Hp as (svc & Hp & Hsvc).
      destruct (proj1 (service_policies_open d svc pod src port protocol Ha))
        as (Hpod & e & ? & ? & ?); [exists p, r; split_and!; assumption|]. exists svc, e. split_and!; assumption.
  - intros [[-> ->]|(svc & e & Hsvc & Hpod & He)].
    + exists (restrictions settings d), (mkTraffic [] [mkPolicyPort 8790 "TCP"]). split_and!; [left|done| |done].
      simpl. right. right. left.
    + destruct (proj2 (service_policies_open d svc pod src port protocol Ha))
        as (p & r & Hp & ? & ? & ?); [split; [assumption|exists e; assumption]|].
      exists p, r. split_and!; [right|assumption..]. apply list_elem_of_bind. exists svc. split; assumption.
Qed.

(** What the policies of a lease let out to another. *)
Lemma other_lease_out d d' pod dstPod addr port protocol :
  LidNS (cd_lid d') <> LidNS (cd_lid d) -> LidNS (cd_lid d') <> "kube-system"%string -> is_addr addr ->
  allowed PolicyEgress (netpol_Create settings d) pod (mkNetEndpoint (lease_namespace d') dstPod addr) port protocol = true <->
  public_addr addr \/ api_egress d pod addr port protocol.
Proof.
  intros Hne Hks Ha. rewrite allowed_iff. destruct (lease_namespace_labels d') as (L1 & _ & L3).
  set (dst := mkNetEndpoint (lease_namespace d') dstPod addr).
  unfold netpol_Create. rewrite Hon. split.
  - intros (p & r & [->|Hp]%elem_of_cons & Hsel & Hr & Hadm).
    + left. cbn [rules_of restrictions np_egress] in Hr. unfold egress_rules in Hr. rewrite !elem_of_cons in Hr.
      destruct Hr as [->|[->|[->|Hr]]].
      * apply namespace_rule in Hadm. simpl in Hadm. congruence.
      * unfold rule_admits in Hadm. cbn [tr_peers none_or existsb peer_admits pp_block pp_namespaces selector_admits] in Hadm.
        rewrite orb_false_r, !andb_true_iff in Hadm. destruct Hadm as [[Hadm _] _].
        apply labels_match_singleton in Hadm. simpl in Hadm. congruence.
      * unfold rule_admits in Hadm. cbn [tr_peers tr_ports none_or existsb] in Hadm.
        rewrite orb_false_r, andb_true_r in Hadm. by apply (public_block dst) in Hadm.
      * apply elem_of_nil in Hr. destruct Hr.
    + right. apply list_elem_of_bind in Hp as (svc & Hp & Hsvc).
      destruct (proj1 (service_policies_api d svc pod dst port protocol))
        as ([? ?] & Hrest); [exists p, r; split_and!; assumption|]. split; [exists svc; split_and!; assumption|exact Hrest].
  - intros [Hpub|[(svc & Hsvc & Hpod & Hs) Hrest]].
    + eexists (restrictions settings d), _. split_and!; [left|done|right; right; left|].
      unfold rule_admits. cbn [tr_peers tr_ports none_or existsb]. rewrite orb_false_r, andb_true_r. by apply (public_block dst).
    + destruct (proj2 (service_policies_api d svc pod dst port protocol) (conj (conj Hpod Hs) Hrest))
        as (p & r & Hp & ? & ? & ?).
      exists p, r. split_and!; [right|assumption..]. apply list_elem_of_bind. exists svc. split; assumption.
Qed.

(** C10: tenants are isolated on the network: with policies enabled, a pod of one lease can
    connect over IPv4 to a pod of another on a port exactly if both sides allow it. The
    lease of the target lets it in if that is the attestation port, or its manifest asks for
    the port to be open, by a global expose that is no ingress or by a leased IP of the
    service the pod belongs to. The lease of the source lets it out if the target has a
    public address (none of 10/8, 172.16/12 and 192.168/16), or the pod belongs to a service
    with permissions to read and the target has an address, and the port is one, of the API
    servers. So pods on private addresses do not reach each other across leases. Stated
    for leases in different namespaces, neither the gateway's nor kube-system, and blocks of
    addresses that hold a pod by its own address. *)
Theorem tenants_isolated (d d' : cdeployment) (pod srcPod : labels_t) (addr srcAddr port : Z) (protocol : string) :
  LidNS (cd_lid d') <> LidNS (cd_lid d) -> GatewayNamespace settings <> LidNS (cd_lid d') ->
  LidNS (cd_lid d) <> "kube-system"%string -> is_addr addr -> is_addr srcAddr ->
  connects (netpol_Create settings d') (netpol_Create settings d)
    (mkNetEndpoint (lease_namespace d') srcPod srcAddr) (mkNetEndpoint (lease_namespace d) pod addr) port protocol = true <->
  (public_addr addr \/ api_egress d' srcPod addr port protocol) /\
  ((port = 8790%Z /\ protocol = "TCP"%string) \/ asks_open d pod port protocol).
Proof.
  intros Hne Hgw Hks Ha Hs. unfold connects. cbn [en_pod]. rewrite andb_true_iff.
  by rewrite other_lease_out, other_lease_in by done.
Qed.

(** Pods of one lease reach each other on every port. *)
Lemma lease_connected d pod srcPod addr srcAddr port protocol :
  connects (netpol_Create settings d) (netpol_Create settings d)
    (mkNetEndpoint (lease_namespace d) srcPod srcAddr) (mkNetEndpoint (lease_namespace d) pod addr) port protocol = true.
Proof.
  unfold connects. cbn [en_pod]. apply andb_true_iff.
  split; apply allowed_iff; exists (restrictions settings d), (same_namespace d);
    (split_and!; [unfold netpol_Create; rewrite Hon; left|done|left|]); apply namespace_rule, lease_namespace_labels.
Qed.

End Isolation.
