(* ===== verification/KubeApply.v ===== *)
(** * Applying the objects of a lease

    Model of [cluster/kube/apply.go] and [cluster/kube/cleanup.go]: how each kind of object
    is created or brought up to date in the cluster, and how what a manifest no longer names
    is removed. The API server is a [Cluster]: objects by kind, namespace and name, each with
    a version that changes when the object does, and calls that may fail. *)

From Stdlib Require Import ZArith Lia.
From stdpp Require Import base gmap list strings tactics.
From S2P Require Import Prelude Types Names CRD Kube Builder NetPol.

(** ** Kinds and objects *)

Inductive kind :=
| KdNamespace | KdNetPol | KdSecret | KdDeployment | KdStatefulSet | KdService
| KdServiceAccount | KdRole | KdRoleBinding | KdManifest.

#[export] Instance kind_eq_dec : EqDecision kind.
Proof. solve_decision. Defined.

Definition kind_code (k : kind) : nat :=
  match k with
  | KdNamespace => 0 | KdNetPol => 1 | KdSecret => 2 | KdDeployment => 3 | KdStatefulSet => 4 | KdService => 5
  | KdServiceAccount => 6 | KdRole => 7 | KdRoleBinding => 8 | KdManifest => 9
  end.

Definition code_kind (n : nat) : kind :=
  match n with
  | 0 => KdNamespace | 1 => KdNetPol | 2 => KdSecret | 3 => KdDeployment | 4 => KdStatefulSet | 5 => KdService
  | 6 => KdServiceAccount | 7 => KdRole | 8 => KdRoleBinding | _ => KdManifest
  end%nat.

#[export] Instance kind_countable : Countable kind.
Proof. apply (inj_countable' kind_code code_kind). by intros []. Defined.


(** A manifest with the labels of its metadata. *)
Record KManifest := mkKManifest { km_labels : labels_t; km_manifest : Crd.Manifest SchedulerParams }.

#[export] Instance crd_ResourceUnits_eq_dec : EqDecision Crd.ResourceUnits.
Proof. solve_decision. Defined.
#[export] Instance crd_ResourceMemory_eq_dec : EqDecision Crd.ResourceMemory.
Proof. solve_decision. Defined.
#[export] Instance crd_ResourceVolume_eq_dec : EqDecision Crd.ResourceVolume.
Proof. solve_decision. Defined.
#[export] Instance crd_CResources_eq_dec : EqDecision Crd.CResources.
Proof. solve_decision. Defined.
#[export] Instance crd_HTTPOptions_eq_dec : EqDecision Crd.HTTPOptions.
Proof. solve_decision. Defined.
#[export] Instance crd_ServiceExpose_eq_dec : EqDecision Crd.ServiceExpose.
Proof. solve_decision. Defined.
#[export] Instance crd_StorageParams_eq_dec : EqDecision Crd.StorageParams.
Proof. solve_decision. Defined.
#[export] Instance crd_Permissions_eq_dec : EqDecision Crd.Permissions.
Proof. solve_decision. Defined.
#[export] Instance crd_ServiceParams_eq_dec : EqDecision Crd.ServiceParams.
Proof. solve_decision. Defined.
#[export] Instance crd_Credentials_eq_dec : EqDecision Crd.Credentials.
Proof. solve_decision. Defined.
#[export] Instance crd_lease_eq_dec : EqDecision CRDLease.t.
Proof. solve_decision. Defined.
#[export] Instance crd_Service_eq_dec : EqDecision (Crd.Service SchedulerParams).
Proof. solve_decision. Defined.
#[export] Instance crd_Group_eq_dec : EqDecision (Crd.Group SchedulerParams).
Proof. solve_decision. Defined.
#[export] Instance crd_Manifest_eq_dec : EqDecision (Crd.Manifest SchedulerParams).
Proof. solve_decision. Defined.
#[export] Instance KManifest_eq_dec : EqDecision KManifest.
Proof. solve_decision. Defined.

Inductive object :=
| ONamespace (o : KNamespace)
| ONetPol (o : KNetworkPolicy)
| OSecret (o : KSecret)
| ODeployment (o : KDeployment)
| OStatefulSet (o : KStatefulSet)
| OService (o : KServiceObj)
| OServiceAccount (o : KServiceAccount)
| ORole (o : KRole)
| ORoleBinding (o : KRoleBinding)
| OManifest (o : KManifest).

#[export] Instance object_eq_dec : EqDecision object.
Proof. solve_decision. Defined.

Definition object_kind (o : object) : kind :=
  match o with
  | ONamespace _ => KdNamespace | ONetPol _ => KdNetPol | OSecret _ => KdSecret | ODeployment _ => KdDeployment
  | OStatefulSet _ => KdStatefulSet | OService _ => KdService | OServiceAccount _ => KdServiceAccount
  | ORole _ => KdRole | ORoleBinding _ => KdRoleBinding | OManifest _ => KdManifest
  end.

Definition object_name (o : object) : string :=
  match o with
  | ONamespace o => kn_name o | ONetPol o => np_name o | OSecret o => sec_name o | ODeployment o => kd_name o
  | OStatefulSet o => ks_name o | OService o => so_name o | OServiceAccount o => sa_name o | ORole o => ro_name o
  | ORoleBinding o => rb_name o | OManifest o => Crd.MName (km_manifest o)
  end.

Definition object_labels (o : object) : labels_t :=
  match o with
  | ONamespace o => kn_labels o | ONetPol o => np_labels o | OSecret o => sec_labels o | ODeployment o => kd_labels o
  | OStatefulSet o => ks_labels o | OService o => so_labels o | OServiceAccount o => sa_labels o
  | ORole o => ro_labels o | ORoleBinding o => rb_labels o | OManifest o => km_labels o
  end.

(** ** The API server *)

(** Requirements on labels, of which a selector has to meet each. *)
Inductive requirement := ReqEquals (key value : string) | ReqNotIn (key : string) (values : list string).

Definition requirement_met (labels : labels_t) (r : requirement) : bool :=
  match r with
  | ReqEquals key value => bool_decide (labels !! key = Some value)
  | ReqNotIn key values =>
      match labels !! key with Some v => negb (existsb (String.eqb v) values) | None => true end
  end.

Definition selects (selector : list requirement) (labels : labels_t) : bool := forallb (requirement_met labels) selector.

Abbreviation okey := (kind * string * string)%type.

(** What a write sends is stored as it is, but for the node ports, which the server assigns. *)
Definition served (sent stored : object) : Prop :=
  match sent, stored with
  | OService s, OService t =>
      so_name t = so_name s /\ so_labels t = so_labels s /\ so_type t = so_type s /\ so_selector t = so_selector s /\
      Forall2 (fun p q => same_port p q = true) (so_ports s) (so_ports t)
  | _, _ => stored = sent
  end.

(** A version is given with an update that is to fail when the object has changed since. *)
Class Cluster (W : Type) := {
  k_Get : W -> kind -> string -> string -> result kube_error (object * string);
  k_List : W -> kind -> string -> list requirement -> result kube_error (list (object * string));
  k_Create : W -> string -> object -> W * result kube_error (object * string);
  k_Update : W -> string -> object -> option string -> W * result kube_error (object * string);
  k_PatchDeployment : W -> string -> string -> option Z -> DeploymentStrategy -> W * result kube_error (object * string);
  k_Delete : W -> kind -> string -> string -> W * option kube_error;
  k_DeleteCollection : W -> kind -> string -> list requirement -> W * option kube_error;
  valid_label_value : string -> bool
}.

Definition patched (limit : option Z) (strategy : DeploymentStrategy) (o : KDeployment) : KDeployment :=
  mkKDeployment (kd_name o) (kd_labels o) (kd_selector o) strategy
    (match limit with Some l => Some l | None => kd_revision_limit o end) (kd_replicas o) (kd_template o).

Section Laws.
Context {W : Type} (objects : W -> gmap okey (object * string)).

(** A write of one object that succeeded, or failed and may have been done. *)
Definition wrote (w : W) (key : okey) (ok : object * string -> Prop) (r : W * result kube_error (object * string)) : Prop :=
  match r.2 with
  | Ok ov => ok ov /\ objects r.1 = <[key := ov]> (objects w)
  | Err _ => objects r.1 = objects w \/ exists ov, ok ov /\ objects r.1 = <[key := ov]> (objects w)
  end.

(** What a deletion may touch: the object, and all that is in it when it is a namespace. *)
Definition within (kd : kind) (ns name : string) (key : okey) : Prop :=
  key = (kd, ns, name) \/ (kd = KdNamespace /\ key.1.2 = name /\ key.1.1 <> KdNamespace).

(** A namespace that is deleted stays until it is empty. *)
Definition gone (o : option (object * string)) : Prop :=
  match o with None => True | Some (ONamespace n, _) => kn_deleting n = true | Some _ => False end.

End Laws.

Class ClusterLaws (W : Type) `{Cluster W} := {
  objects : W -> gmap okey (object * string);
  k_Get_ok w kd ns n o v : k_Get w kd ns n = Ok (o, v) ->
    objects w !! (kd, ns, n) = Some (o, v) /\ object_kind o = kd /\ object_name o = n;
  k_Get_missing w kd ns n e : k_Get w kd ns n = Err e -> IsNotFound e = true -> objects w !! (kd, ns, n) = None;
  k_List_ok w kd ns sel os : k_List w kd ns sel = Ok os -> kd = KdNamespace \/ ns <> ""%string ->
    forall o v, (o, v) ∈ os <-> exists n, objects w !! (kd, ns, n) = Some (o, v) /\ selects sel (object_labels o) = true;
  k_stored w kd ns n o v : objects w !! (kd, ns, n) = Some (o, v) -> object_kind o = kd /\ object_name o = n;
  k_Create_wrote w ns o :
    wrote objects w (object_kind o, ns, object_name o) (fun ov => served o ov.1) (k_Create w ns o);
  k_Update_wrote w ns o v :
    wrote objects w (object_kind o, ns, object_name o) (fun ov => served o ov.1) (k_Update w ns o v);
  k_Update_stale w ns o v o0 v0 :
    objects w !! (object_kind o, ns, object_name o) = Some (o0, v0) -> v <> v0 ->
    is_ok (k_Update w ns o (Some v)).2 = false /\ objects (k_Update w ns o (Some v)).1 = objects w;
  k_Update_version w w' ns o v o0 v0 o' v' :
    objects w !! (object_kind o, ns, object_name o) = Some (o0, v0) ->
    k_Update w ns o v = (w', Ok (o', v')) -> o' <> o0 -> v' <> v0;
  k_Patch_wrote w ns n limit strategy :
    wrote objects w (KdDeployment, ns, n)
      (fun ov => exists o v, objects w !! (KdDeployment, ns, n) = Some (ODeployment o, v) /\
                   ov.1 = ODeployment (patched limit strategy o)) (k_PatchDeployment w ns n limit strategy);
  k_Delete_frame w kd ns n key : ~ within kd ns n key -> objects (k_Delete w kd ns n).1 !! key = objects w !! key;
  k_Delete_gone w kd ns n : (k_Delete w kd ns n).2 = None -> gone (objects (k_Delete w kd ns n).1 !! (kd, ns, n));
  k_Delete_missing w kd ns n e :
    (k_Delete w kd ns n).2 = Some e -> IsNotFound e = true -> objects (k_Delete w kd ns n).1 !! (kd, ns, n) = None;
  k_DeleteCollection_frame w kd ns sel key :
    (key.1 <> (kd, ns) \/ forall o v, objects w !! key = Some (o, v) -> selects sel (object_labels o) = false) ->
    objects (k_DeleteCollection w kd ns sel).1 !! key = objects w !! key
}.

(** ** Applying one object *)

Inductive apply_error := ApplyKube (e : kube_error) | ApplyBuild (e : build_error).

(** What an apply returns: the object it created, the one it updated or would have, and the
    one it found; the empty object that comes with an error is [None]. *)
Record applied := mkApplied {
  ap_new : option (object * string); ap_updated : option (object * string); ap_old : option (object * string)
}.

Definition nothing_applied : applied := mkApplied None None None.

Section Apply.
Context {W : Type} `{HC : Cluster W} `{HP : ServiceProtocolAPI} `{HS : !SDK} `{HH : LeaseHash}.

Definition create_applied (w : W) (ns : string) (build : result build_error object) : W * applied * option apply_error :=
  match build with
  | Err e => (w, nothing_applied, Some (ApplyBuild e))
  | Ok n =>
      let r := k_Create w ns n in
      match r.2 with
      | Ok ov => (r.1, mkApplied (Some ov) None None, None)
      | Err e => (r.1, nothing_applied, Some (ApplyKube e))
      end
  end.

(** The shape of the functions of [apply.go]: [changed] is the test whether to update. *)
Definition apply_object (w : W) (kd : kind) (ns name : string) (build : result build_error object)
    (update : object -> result build_error object) (changed : object -> object -> bool)
    : W * applied * option apply_error :=
  match k_Get w kd ns name with
  | Ok (o, v) =>
      match update o with
      | Err e => (w, mkApplied None None (Some (o, v)), Some (ApplyBuild e))
      | Ok u =>
          if changed o u then
            let r := k_Update w ns u (Some v) in
            match r.2 with
            | Ok uv => (r.1, mkApplied None (Some uv) (Some (o, v)), None)
            | Err e => (r.1, mkApplied None None (Some (o, v)), Some (ApplyKube e))
            end
          else (w, mkApplied None (Some (u, v)) (Some (o, v)), None)
      end
  | Err e => if IsNotFound e then create_applied w ns build else (w, nothing_applied, Some (ApplyKube e))
  end.

Definition labels_differ (o u : object) : bool := negb (bool_decide (object_labels u = object_labels o)).

(** An object of another kind is never found under a key. *)
Definition on_namespace (f : KNamespace -> KNamespace) (o : object) : result build_error object :=
  match o with ONamespace n => Ok (ONamespace (f n)) | _ => Err BuildPanic end.

Definition applyNS (w : W) (d : cdeployment) : W * applied * option apply_error :=
  apply_object w KdNamespace "" (LidNS (cd_lid d)) (Ok (ONamespace (ns_Create d))) (on_namespace (ns_Update d))
    (fun o u => negb (IsObjectRevisionLatest d (object_labels o)) || labels_differ o u).

Definition on_secret (f : KSecret -> KSecret) (o : object) : result build_error object :=
  match o with OSecret n => Ok (OSecret (f n)) | _ => Err BuildPanic end.

Definition secret_data (o : object) : option (string * dockerCredentialsEntry) :=
  match o with OSecret s => Some (sec_host s, sec_entry s) | _ => None end.

Definition applyServiceCredentials (w : W) (b : Workload) (c : Mani.ImageCredentials) : W * applied * option apply_error :=
  apply_object w KdSecret (wl_ns b) (credentials_name b) (Ok (OSecret (credentials_Create b c)))
    (on_secret (credentials_Update b c))
    (fun o u => negb (IsObjectRevisionLatest (wl_deployment b) (object_labels u)) ||
                negb (bool_decide (secret_data u = secret_data o)) || labels_differ o u).

Definition map_ok {A B} (f : A -> B) (r : result build_error A) : result build_error B :=
  match r with Ok a => Ok (f a) | Err e => Err e end.

Definition on_statefulSet (f : KStatefulSet -> result build_error KStatefulSet) (o : object) : result build_error object :=
  match o with OStatefulSet n => map_ok OStatefulSet (f n) | _ => Err BuildPanic end.

(** What is compared of a workload besides its labels. *)
Definition spec_differs (o u : object) : bool :=
  match o, u with
  | OStatefulSet a, OStatefulSet b =>
      negb (bool_decide ((ks_selector b, ks_revision_limit b, ks_replicas b, ks_template b, ks_claims b) =
                         (ks_selector a, ks_revision_limit a, ks_replicas a, ks_template a, ks_claims a)))
  | ODeployment a, ODeployment b =>
      negb (bool_decide ((kd_selector b, kd_strategy b, kd_revision_limit b, kd_replicas b, kd_template b) =
                         (kd_selector a, kd_strategy a, kd_revision_limit a, kd_replicas a, kd_template a)))
  | OService a, OService b =>
      negb (bool_decide ((so_type b, so_selector b, so_ports b) = (so_type a, so_selector a, so_ports a)))
  | ORole a, ORole b => negb (bool_decide (ro_rules b = ro_rules a))
  | ONetPol a, ONetPol b =>
      negb (bool_decide ((np_pods b, np_types b, np_ingress b, np_egress b) =
                         (np_pods a, np_types a, np_ingress a, np_egress a)))
  | _, _ => true
  end.

Definition applyStatefulSet (w : W) (b : Workload) : W * applied * option apply_error :=
  apply_object w KdStatefulSet (wl_ns b) (wl_name b) (map_ok OStatefulSet (statefulSet_Create b))
    (on_statefulSet (statefulSet_Update b))
    (fun o u => IsObjectRevisionLatest (wl_deployment b) (object_labels u) || spec_differs o u || labels_differ o u).

Definition on_service (f : KServiceObj -> result build_error KServiceObj) (o : object) : result build_error object :=
  match o with OService n => map_ok OService (f n) | _ => Err BuildPanic end.

Definition applyService (w : W) (b : Workload) (requireNodePort : bool) : W * applied * option apply_error :=
  apply_object w KdService (wl_ns b) (service_name b requireNodePort)
    (map_ok OService (service_Create b requireNodePort)) (on_service (service_Update b requireNodePort))
    (fun o u => IsObjectRevisionLatest (wl_deployment b) (object_labels u) || spec_differs o u || labels_differ o u).

Definition on_serviceAccount (f : KServiceAccount -> KServiceAccount) (o : object) : result build_error object :=
  match o with OServiceAccount n => Ok (OServiceAccount (f n)) | _ => Err BuildPanic end.

Definition applyServiceAccount (w : W) (b : Workload) : W * applied * option apply_error :=
  apply_object w KdServiceAccount (wl_ns b) (wl_name b) (Ok (OServiceAccount (serviceAccount_Create b)))
    (on_serviceAccount (serviceAccount_Update b))
    (fun o u => negb (IsObjectRevisionLatest (wl_deployment b) (object_labels u)) || labels_differ o u).

Definition on_role (f : KRole -> KRole) (o : object) : result build_error object :=
  match o with ORole n => Ok (ORole (f n)) | _ => Err BuildPanic end.

Definition applyRole (w : W) (b : Workload) : W * applied * option apply_error :=
  apply_object w KdRole (wl_ns b) (wl_name b) (Ok (ORole (role_Create b))) (on_role (role_Update b))
    (fun o u => negb (IsObjectRevisionLatest (wl_deployment b) (object_labels u)) || spec_differs o u || labels_differ o u).

Definition on_roleBinding (f : KRoleBinding -> KRoleBinding) (o : object) : result build_error object :=
  match o with ORoleBinding n => Ok (ORoleBinding (f n)) | _ => Err BuildPanic end.

Definition applyRoleBinding (w : W) (b : Workload) : W * applied * option apply_error :=
  apply_object w KdRoleBinding (wl_ns b) (wl_name b) (Ok (ORoleBinding (roleBinding_Create b)))
    (on_roleBinding (roleBinding_Update b))
    (fun o u => negb (IsObjectRevisionLatest (wl_deployment b) (object_labels u)) || labels_differ o u).

(** ** Deployments *)

(** The patch that follows an update: the history limit unless it is 10 already, and the
    strategy, which is compared with a pointer to a pointer and so always differs. The error
    of the update is overwritten by the one of the patch, and the object found by the one
    patched. *)
Definition patch_deployment (w : W) (ns : string) (o : KDeployment) (updated : option (object * string))
    : W * applied * option apply_error :=
  let limit := match kd_revision_limit o with
               | Some l => if (l =? 10)%Z then None else Some 10%Z
               | None => Some 10%Z
               end in
  let r := k_PatchDeployment w ns (kd_name o) limit (RollingUpdate 1 0) in
  match r.2 with
  | Ok pv => (r.1, mkApplied None updated (Some pv), None)
  | Err e => (r.1, mkApplied None updated None, Some (ApplyKube e))
  end.

Definition applyDeployment (w : W) (b : Workload) : W * applied * option apply_error :=
  match k_Get w KdDeployment (wl_ns b) (wl_name b) with
  | Ok (ODeployment o, v) =>
      match deployment_Update b o with
      | Err e => (w, mkApplied None None (Some (ODeployment o, v)), Some (ApplyBuild e))
      | Ok u =>
          let changed := IsObjectRevisionLatest (wl_deployment b) (kd_labels u) ||
                         spec_differs (ODeployment o) (ODeployment u) ||
                         labels_differ (ODeployment o) (ODeployment u) in
          if changed then
            let r := k_Update w (wl_ns b) (ODeployment u) (Some v) in
            patch_deployment r.1 (wl_ns b) o (match r.2 with Ok uv => Some uv | Err _ => None end)
          else patch_deployment w (wl_ns b) o (Some (ODeployment u, v))
      end
  | Ok (o, v) => (w, mkApplied None None (Some (o, v)), Some (ApplyBuild BuildPanic))
  | Err e => if IsNotFound e then create_applied w (wl_ns b) (map_ok ODeployment (deployment_Create b))
             else (w, nothing_applied, Some (ApplyKube e))
  end.

(** ** Network policies *)

(** The loop over the policies. Its error is a variable of its own, which ends the loop and
    is not the one returned. *)
Fixpoint apply_policies (w : W) (d : cdeployment) (ns : string) (policies : list KNetworkPolicy)
    (news updated : list (object * string))
    : W * list (object * string) * list (object * string) * option apply_error :=
  match policies with
  | [] => (w, news, updated, None)
  | pol :: rest =>
      match k_Get w KdNetPol ns (np_name pol) with
      | Ok (o, _) =>
          let u := ONetPol (netpol_Update d pol) in
          if negb (IsObjectRevisionLatest d (object_labels u)) || spec_differs o u || labels_differ o u then
            let r := k_Update w ns (ONetPol pol) None in
            match r.2 with
            | Ok uv => apply_policies r.1 d ns rest news (updated ++ [uv])
            | Err e => (r.1, news, updated, Some (ApplyKube e))
            end
          else apply_policies w d ns rest news updated
      | Err e =>
          if IsNotFound e then
            let r := k_Create w ns (ONetPol pol) in
            match r.2 with
            | Ok nv => apply_policies r.1 d ns rest (news ++ [nv]) updated
            | Err e => (r.1, news, updated, Some (ApplyKube e))
            end
          else (w, news, updated, Some (ApplyKube e))
      end
  end.

(** The policies created, updated and found before. *)
Definition applyNetPolicies (w : W) (settings : Settings) (d : cdeployment)
    : W * (list (object * string) * list (object * string) * list (object * string)) * option apply_error :=
  let ns := LidNS (cd_lid d) in
  match k_List w KdNetPol ns [] with
  | Err e => (w, ([], [], []), Some (ApplyKube e))
  | Ok currPolicies =>
      let '(w, news, updated, _) := apply_policies w d ns (netpol_Create settings d) [] [] in
      (w, (news, updated, currPolicies), None)
  end.

(** ** Removing what is stale *)


(** [labels.NewRequirement]: the values have to be label values, and there have to be some. *)
Definition NewRequirement_NotIn (key : string) (values : list string) : option requirement :=
  match values with
  | [] => None
  | _ => if forallb valid_label_value values then Some (ReqNotIn key values) else None
  end.

Inductive cleanup_error := CleanupSelector | CleanupKube (e : kube_error).

Fixpoint delete_each (w : W) (kd : kind) (ns : string) (os : list (object * string)) : W * option cleanup_error :=
  match os with
  | [] => (w, None)
  | (o, _) :: rest =>
      let r := k_Delete w kd ns (object_name o) in
      match r.2 with Some e => (r.1, Some (CleanupKube e)) | None => delete_each r.1 kd ns rest end
  end.

Definition delete_listed (w : W) (kd : kind) (ns : string) (sel : list requirement) : W * option cleanup_error :=
  match k_List w kd ns sel with
  | Err e => (w, Some (CleanupKube e))
  | Ok os => delete_each w kd ns os
  end.

(** One removal after another, until one fails. *)
Definition then_do (r : W * option cleanup_error) (k : W -> W * option cleanup_error) : W * option cleanup_error :=
  match r.2 with Some _ => r | None => k r.1 end.

Definition delete_collection (w : W) (kd : kind) (ns : string) (sel : list requirement) : W * option cleanup_error :=
  let r := k_DeleteCollection w kd ns sel in (r.1, CleanupKube <$> r.2).

Definition rbac_selector (servicesWithPermissions : list string) : option (list requirement) :=
  named ← match servicesWithPermissions with
          | [] => Some []
          | _ => r ← NewRequirement_NotIn AkashManifestServiceLabelName servicesWithPermissions; Some [r]
          end;
  Some (named ++ [ReqEquals AkashManagedLabelName ValTrue]).

Definition cleanupStaleRBACResources (w : W) (ns : string) (servicesWithPermissions : list string)
    : W * option cleanup_error :=
  match rbac_selector servicesWithPermissions with
  | None => (w, Some CleanupSelector)
  | Some sel =>
      then_do (delete_listed w KdServiceAccount ns sel) (fun w =>
      then_do (delete_listed w KdRole ns sel) (fun w => delete_listed w KdRoleBinding ns sel))
  end.

Definition stale_selector (services : list string) : option (list requirement) :=
  r1 ← NewRequirement_NotIn AkashManifestServiceLabelName services;
  Some [r1; ReqEquals AkashServiceTarget ValTrue; ReqNotIn AkashManagedLabelName [AkashMetalLB]].

Definition cleanupStaleResources (w : W) (lid : LeaseID) (services servicesWithPermissions : list string)
    : W * option cleanup_error :=
  let ns := LidNS lid in
  match stale_selector services with
  | None => (w, Some CleanupSelector)
  | Some sel =>
      then_do (delete_collection w KdDeployment ns sel) (fun w =>
      then_do (delete_collection w KdStatefulSet ns sel) (fun w =>
      then_do (delete_listed w KdService ns sel) (fun w => cleanupStaleRBACResources w ns servicesWithPermissions)))
  end.

End Apply.

(** ** What a call touches *)

Section Frames.
Context {W : Type} `{HC : Cluster W} `{HL : !ClusterLaws W} `{HP : ServiceProtocolAPI} `{HS : !SDK} `{HH : LeaseHash}.
Implicit Types (w : W) (P : okey -> Prop).

(** Only the keys of [P] may differ. *)
Definition only P w w' : Prop := forall k, ~ P k -> objects w' !! k = objects w !! k.

Lemma only_refl P w : only P w w.
Proof. by intros k _. Qed.

Lemma only_trans P w1 w2 w3 : only P w1 w2 -> only P w2 w3 -> only P w1 w3.
Proof. intros H1 H2 k Hk. by rewrite H2, H1. Qed.

Lemma only_weaken P (Q : okey -> Prop) w w' : (forall k, P k -> Q k) -> only P w w' -> only Q w w'.
Proof. intros Hpq H k Hk. apply H. intros Hp. by apply Hk, Hpq. Qed.

Lemma wrote_only P w key ok r : wrote objects w key ok r -> P key -> only P w r.1.
Proof.
  unfold wrote. intros Hw Hp k Hk. assert (key <> k) as Hne by (by intros ->).
  destruct r.2 as [ov|e]; [destruct Hw as [_ ->]; by rewrite lookup_insert_ne|].
  destruct Hw as [-> |(ov & _ & ->)]; [done|by rewrite lookup_insert_ne].
Qed.

Lemma wrote_ok w key ok r ov : wrote objects w key ok r -> r.2 = Ok ov -> ok ov /\ objects r.1 !! key = Some ov.
Proof. unfold wrote. intros Hw E. rewrite E in Hw. destruct Hw as [? ->]. by rewrite lookup_insert_eq. Qed.

(** The objects of a lease: those of its namespace, and the namespace. *)
Definition in_lease (ns : string) (k : okey) : Prop := k.1.2 = ns \/ k = (KdNamespace, ""%string, ns).

Lemma create_applied_only P w ns build w' a err :
  create_applied w ns build = (w', a, err) ->
  (forall n, build = Ok n -> P (object_kind n, ns, object_name n)) -> only P w w'.
Proof.
  unfold create_applied. intros E Hb. destruct build as [n|e]; [|simplify_eq; apply only_refl].
  pose proof (wrote_only P _ _ _ _ (k_Create_wrote w ns n) (Hb n eq_refl)) as Ho.
  destruct (k_Create w ns n) as [w1 [ov|e]]; simpl in *; by simplify_eq.
Qed.

(** What a builder makes has the kind and the name it is looked up by. *)
Definition built_as (kd : kind) (name : string) (r : result build_error object) : Prop :=
  forall o, r = Ok o -> object_kind o = kd /\ object_name o = name.

Lemma apply_object_only P w kd ns name build update changed w' a err :
  apply_object w kd ns name build update changed = (w', a, err) ->
  built_as kd name build ->
  (forall o, object_kind o = kd -> object_name o = name -> built_as kd name (update o)) ->
  P (kd, ns, name) -> only P w w'.
Proof.
  unfold apply_object. intros E Hb Hu Hp. destruct (k_Get w kd ns name) as [[o v]|e] eqn:Hg.
  - apply k_Get_ok in Hg as (_ & Hk & Hn). specialize (Hu o Hk Hn).
    destruct (update o) as [u|e]; [|simplify_eq; apply only_refl].
    destruct (changed o u); [|simplify_eq; apply only_refl]. destruct (Hu u eq_refl) as [Hk' Hn'].
    pose proof (k_Update_wrote w ns u (Some v)) as Hw. rewrite Hk', Hn' in Hw. apply (wrote_only P) in Hw; [|done].
    destruct (k_Update w ns u (Some v)) as [w1 [ov|e]]; simpl in *; by simplify_eq.
  - destruct (IsNotFound e); [|simplify_eq; apply only_refl]. eapply create_applied_only; [done|].
    intros n Hbn. destruct (Hb n Hbn) as [-> ->]. done.
Qed.

(** What is stored under the key once an apply succeeded. *)
Lemma apply_object_ok w kd ns name build update changed w' a :
  apply_object w kd ns name build update changed = (w', a, None) ->
  built_as kd name build ->
  (forall o, object_kind o = kd -> object_name o = name -> built_as kd name (update o)) ->
  exists ov, objects w' !! (kd, ns, name) = Some ov /\
    ((exists n, build = Ok n /\ served n ov.1) \/
     (exists o v u, objects w !! (kd, ns, name) = Some (o, v) /\ update o = Ok u /\
        ((changed o u = true /\ served u ov.1) \/ (changed o u = false /\ ov = (o, v))))).
Proof.
  unfold apply_object. intros E Hb Hu. destruct (k_Get w kd ns name) as [[o v]|e] eqn:Hg.
  - apply k_Get_ok in Hg as (Hg & Hk & Hn). specialize (Hu o Hk Hn).
    destruct (update o) as [u|e] eqn:Hup; [|done]. destruct (Hu u eq_refl) as [Hk' Hn']. destruct (changed o u) eqn:Hc.
    + pose proof (k_Update_wrote w ns u (Some v)) as Hw. rewrite Hk', Hn' in Hw.
      destruct (k_Update w ns u (Some v)) as [w1 [ov|e]] eqn:Hr; simpl in *; [|done]. simplify_eq.
      apply wrote_ok with (ov := ov) in Hw as [Hs Hl]; [|done]. simpl in *. exists ov. split; [done|]. right.
      exists o, v, u. split_and!; [done|done|by left].
    + simplify_eq. exists (o, v). split; [done|]. right. exists o, v, u. split_and!; [done|done|by right].
  - destruct (IsNotFound e); [|done]. unfold create_applied in E. destruct build as [n|e']; [|done].
    destruct (Hb n eq_refl) as [Hk Hn]. pose proof (k_Create_wrote w ns n) as Hw. rewrite Hk, Hn in Hw.
    destruct (k_Create w ns n) as [w1 [ov|e2]]; simpl in *; [|done]. simplify_eq.
    apply wrote_ok with (ov := ov) in Hw as [Hs Hl]; [|done]. exists ov. split; [done|]. left. by exists n.
Qed.

(** ** The functions of [apply.go] *)

Ltac built := intros ? ?; simplify_eq; split; [reflexivity|try reflexivity].

Lemma or_panic_ok {A} (o : option A) a : or_panic o = Ok a -> o = Some a.
Proof. destruct o; simpl; congruence. Qed.

Lemma statefulSet_Create_inv b o : statefulSet_Create b = Ok o ->
  exists t, pod_template b ∅ = Some t /\ ks_template o = t /\ ks_name o = wl_name b.
Proof. unfold statefulSet_Create. destruct (pod_template b ∅) as [t|]; simpl; [|done]. intros [= <-]. by exists t. Qed.

Lemma statefulSet_Update_inv b o u : statefulSet_Update b o = Ok u ->
  exists t, pod_template b (pt_labels (ks_template o)) = Some t /\ ks_template u = t /\ ks_name u = ks_name o.
Proof. unfold statefulSet_Update. destruct (pod_template b _) as [t|]; simpl; [|done]. intros [= <-]. by exists t. Qed.

Lemma deployment_Create_name b o : deployment_Create b = Ok o -> kd_name o = wl_name b.
Proof. unfold deployment_Create. destruct (pod_template b ∅); simpl; [|done]. by intros [= <-]. Qed.

Lemma deployment_Update_name b o u : deployment_Update b o = Ok u -> kd_name u = kd_name o.
Proof. unfold deployment_Update. destruct (pod_template b _); simpl; [|done]. by intros [= <-]. Qed.

Lemma service_Create_name b np o : service_Create b np = Ok o -> so_name o = service_name b np.
Proof. unfold service_Create. destruct (service_ports b np); simpl; [|done]. by intros [= <-]. Qed.

Lemma service_Update_name b np o u : service_Update b np o = Ok u -> so_name u = so_name o.
Proof. unfold service_Update. destruct (service_ports b np); simpl; [|done]. by intros [= <-]. Qed.

Lemma map_ok_built {A} (f : A -> object) kd name r :
  (forall a, r = Ok a -> object_kind (f a) = kd /\ object_name (f a) = name) -> built_as kd name (map_ok f r).
Proof. intros Hf o. destruct r as [a|e]; simpl; [|done]. intros [= <-]. by apply Hf. Qed.

Lemma applyNS_only w d w' a err : applyNS w d = (w', a, err) -> only (in_lease (LidNS (cd_lid d))) w w'.
Proof.
  intros E. eapply apply_object_only; [exact E| | |by right].
  - by intros o [= <-].
  - intros [] Hk Hn; try done. by intros ? [= <-].
Qed.

Section Workloads.
Context (b : Workload).
Lemma applyServiceCredentials_only P w c w' a err :
  applyServiceCredentials w b c = (w', a, err) -> P (KdSecret, wl_ns b, credentials_name b) -> only P w w'.
Proof.
  intros E Hp. eapply apply_object_only; [exact E| | |exact Hp].
  - by intros o [= <-].
  - intros [] Hk Hn; try done. by intros ? [= <-].
Qed.

Lemma statefulSet_built :
  built_as KdStatefulSet (wl_name b) (map_ok OStatefulSet (statefulSet_Create b)) /\
  (forall o, object_kind o = KdStatefulSet -> object_name o = wl_name b ->
    built_as KdStatefulSet (wl_name b) (on_statefulSet (statefulSet_Update b) o)).
Proof.
  split.
  - apply map_ok_built. intros a Ha. apply statefulSet_Create_inv in Ha as (t & _ & _ & ?). done.
  - intros [] Hk Hn; try done. apply map_ok_built. intros a Ha.
    apply statefulSet_Update_inv in Ha as (t & _ & _ & Hnm). simpl in *. split; congruence.
Qed.

Lemma applyStatefulSet_only P w w' a err :
  applyStatefulSet w b = (w', a, err) -> P (KdStatefulSet, wl_ns b, wl_name b) -> only P w w'.
Proof. intros E Hp. destruct statefulSet_built as [Hc Hu]. eapply apply_object_only; [exact E|exact Hc|exact Hu|exact Hp]. Qed.

Lemma applyService_only P w np w' a err :
  applyService w b np = (w', a, err) -> P (KdService, wl_ns b, service_name b np) -> only P w w'.
Proof.
  intros E Hp. eapply apply_object_only; [exact E| | |exact Hp].
  - apply map_ok_built. intros o Ho. by apply service_Create_name in Ho.
  - intros [] Hk Hn; try done. apply map_ok_built. intros u Ho. apply service_Update_name in Ho. simpl in *. split; congruence.
Qed.

Lemma applyServiceAccount_only P w w' a err :
  applyServiceAccount w b = (w', a, err) -> P (KdServiceAccount, wl_ns b, wl_name b) -> only P w w'.
Proof.
  intros E Hp. eapply apply_object_only; [exact E| | |exact Hp].
  - by intros o [= <-].
  - intros [] Hk Hn; try done. by intros ? [= <-].
Qed.

Lemma role_built :
  built_as KdRole (wl_name b) (Ok (ORole (role_Create b))) /\
  (forall o, object_kind o = KdRole -> object_name o = wl_name b -> built_as KdRole (wl_name b) (on_role (role_Update b) o)).
Proof. split; [by intros o [= <-]|]. intros [] Hk Hn; try done. by intros ? [= <-]. Qed.

Lemma applyRole_only P w w' a err :
  applyRole w b = (w', a, err) -> P (KdRole, wl_ns b, wl_name b) -> only P w w'.
Proof. intros E Hp. destruct role_built as [Hc Hu]. eapply apply_object_only; [exact E|exact Hc|exact Hu|exact Hp]. Qed.

Lemma applyRoleBinding_only P w w' a err :
  applyRoleBinding w b = (w', a, err) -> P (KdRoleBinding, wl_ns b, wl_name b) -> only P w w'.
Proof.
  intros E Hp. eapply apply_object_only; [exact E| | |exact Hp].
  - by intros o [= <-].
  - intros [] Hk Hn; try done. by intros ? [= <-].
Qed.

Lemma patch_deployment_only w ns o u w' a err P :
  patch_deployment w ns o u = (w', a, err) -> P (KdDeployment, ns, kd_name o) -> only P w w'.
Proof.
  unfold patch_deployment. intros E Hp.
  pose proof (wrote_only P _ _ _ _ (k_Patch_wrote w ns (kd_name o) (match kd_revision_limit o with
    Some l => if (l =? 10)%Z then None else Some 10%Z | None => Some 10%Z end) (RollingUpdate 1 0)) Hp) as Ho.
  destruct (k_PatchDeployment _ _ _ _ _) as [w1 [pv|e]]; simpl in *; by simplify_eq.
Qed.

Lemma applyDeployment_only P w w' a err :
  applyDeployment w b = (w', a, err) -> P (KdDeployment, wl_ns b, wl_name b) -> only P w w'.
Proof.
  unfold applyDeployment. intros E Hp. destruct (k_Get w KdDeployment (wl_ns b) (wl_name b)) as [[o v]|e] eqn:Hg.
  - apply k_Get_ok in Hg as (_ & Hk & Hn). destruct o as [| | |o| | | | | |]; try done. simpl in Hn.
    destruct (deployment_Update b o) as [u|e] eqn:Hu; [|simplify_eq; apply only_refl].
    apply deployment_Update_name in Hu as Hun. destruct (_ || _ || _) in E.
    + pose proof (wrote_only P _ _ _ _ (k_Update_wrote w (wl_ns b) (ODeployment u) (Some v))) as Ho.
      simpl in Ho. rewrite Hun, Hn in Ho. eapply only_trans; [by apply Ho|].
      eapply patch_deployment_only; [exact E|]. by rewrite Hn.
    + eapply patch_deployment_only; [exact E|]. by rewrite Hn.
  - destruct (IsNotFound e); [|simplify_eq; apply only_refl]. eapply create_applied_only; [done|].
    intros n. destruct (deployment_Create b) as [o|e'] eqn:Hc; simpl; [|done]. intros [= <-]. simpl.
    by rewrite (deployment_Create_name _ _ Hc).
Qed.

End Workloads.

Lemma apply_policies_only w d ns ps news upd w' r :
  apply_policies w d ns ps news upd = (w', r.1.1, r.1.2, r.2) -> only (in_lease ns) w w'.
Proof.
  revert w news upd. induction ps as [|p ps IH]; intros w news upd E; simpl in E; [simplify_eq; apply only_refl|].
  destruct (k_Get w KdNetPol ns (np_name p)) as [[o v]|e].
  - destruct (_ || _ || _) in E; [|by eapply IH].
    pose proof (wrote_only (in_lease ns) _ _ _ _ (k_Update_wrote w ns (ONetPol p) None) ltac:(by left)) as Ho.
    destruct (k_Update w ns (ONetPol p) None) as [w1 [uv|e]]; simpl in *; [|by simplify_eq].
    eapply only_trans; [exact Ho|by eapply IH].
  - destruct (IsNotFound e); [|simplify_eq; apply only_refl].
    pose proof (wrote_only (in_lease ns) _ _ _ _ (k_Create_wrote w ns (ONetPol p)) ltac:(by left)) as Ho.
    destruct (k_Create w ns (ONetPol p)) as [w1 [uv|e']]; simpl in *; [|by simplify_eq].
    eapply only_trans; [exact Ho|by eapply IH].
Qed.

Lemma applyNetPolicies_only w st d w' r err :
  applyNetPolicies w st d = (w', r, err) -> only (in_lease (LidNS (cd_lid d))) w w'.
Proof.
  unfold applyNetPolicies. intros E. destruct (k_List w _ _ _); [|simplify_eq; apply only_refl].
  destruct (apply_policies w d _ _ _ _) as [[[w1 n] u] e] eqn:Hp. simplify_eq.
  eapply (apply_policies_only _ _ _ _ _ _ _ (n, u, e)). exact Hp.
Qed.

(** ** What a clean-up removes *)

Lemma then_do_only P r k w w' e :
  then_do r k = (w', e) -> only P w r.1 ->
  (only P w r.1 -> forall w2 e, k r.1 = (w2, e) -> only P r.1 w2) -> only P w w'.
Proof.
  unfold then_do. intros E Hr Hk. destruct r as [w1 [e1|]]; simpl in *; [by simplify_eq|].
  eapply only_trans; [exact Hr|by eapply Hk].
Qed.

Lemma delete_each_only P w kd ns os w' e :
  delete_each w kd ns os = (w', e) -> kd <> KdNamespace -> (forall o v, (o, v) ∈ os -> P (kd, ns, object_name o)) ->
  only P w w'.
Proof.
  revert w. induction os as [|[o v] os IH]; intros w E Hkd Hp; simpl in E; [simplify_eq; apply only_refl|].
  assert (only P w (k_Delete w kd ns (object_name o)).1) as Ho.
  { intros k Hk. apply k_Delete_frame. intros [-> |[? _]]; [|done]. apply Hk. eapply Hp. by apply list_elem_of_here. }
  destruct (k_Delete w kd ns (object_name o)) as [w1 [e1|]]; simpl in *; [by simplify_eq|].
  eapply only_trans; [exact Ho|]. eapply IH; [done..|]. intros o' v' Hin. eapply Hp. apply list_elem_of_further, Hin.
Qed.

Lemma delete_listed_only P w kd ns sel w' e :
  delete_listed w kd ns sel = (w', e) -> kd <> KdNamespace -> ns <> ""%string ->
  (forall n o v, objects w !! (kd, ns, n) = Some (o, v) -> selects sel (object_labels o) = true -> P (kd, ns, n)) ->
  only P w w'.
Proof.
  unfold delete_listed. intros E Hkd Hns Hp. destruct (k_List w kd ns sel) as [os|e1] eqn:Hl;
    [|simplify_eq; apply only_refl].
  eapply delete_each_only; [exact E|done|]. intros o v Hin.
  apply (k_List_ok _ _ _ _ _ Hl) in Hin as (n & Hn & Hs); [|by right].
  destruct (k_stored _ _ _ _ _ _ Hn) as [_ <-]. by eapply Hp.
Qed.

(** Objects no label of which is for the clean-up. *)
Definition spared (ns : string) (kd : kind) w : Prop :=
  forall n o v, objects w !! (kd, ns, n) = Some (o, v) -> object_labels o !! AkashServiceTarget <> Some ValTrue.

Lemma stale_selector_target services sel labels :
  stale_selector services = Some sel -> labels !! AkashServiceTarget <> Some ValTrue -> selects sel labels = false.
Proof.
  unfold stale_selector. intros E Ht. apply bind_Some in E as (r1 & _ & [= <-]).
  unfold selects. simpl. rewrite (bool_decide_eq_false_2 _ Ht). by rewrite andb_false_r.
Qed.

(** The service accounts, roles and bindings of a namespace. *)
Definition access_of (ns : string) (k : okey) : Prop :=
  k.1 = (KdServiceAccount, ns) \/ k.1 = (KdRole, ns) \/ k.1 = (KdRoleBinding, ns).

Lemma cleanupStaleRBACResources_only w ns perms w' e :
  cleanupStaleRBACResources w ns perms = (w', e) -> ns <> ""%string -> only (access_of ns) w w'.
Proof.
  unfold cleanupStaleRBACResources. intros E Hns. destruct (rbac_selector perms) as [sel|]; [|simplify_eq; apply only_refl].
  assert (forall kd, kd <> KdNamespace -> (forall n, access_of ns (kd, ns, n)) ->
    forall w1 w2 e, delete_listed w1 kd ns sel = (w2, e) -> only (access_of ns) w1 w2) as Hd.
  { intros kd Hkd Ha w1 w2 e' E'. by eapply delete_listed_only; [exact E'|..]. }
  eapply then_do_only; [exact E|by eapply (Hd KdServiceAccount); [..|apply surjective_pairing]; [|intros n; left]|].
  intros _ w2 e1 E1. eapply then_do_only; [exact E1|by eapply (Hd KdRole); [..|apply surjective_pairing]; [|intros n; right; left]|].
  intros _ w4 e2 E2. eapply (Hd KdRoleBinding); [done| |exact E2]. intros n. by right; right.
Qed.

Lemma collection_only P w kd ns sel :
  (forall n o v, objects w !! (kd, ns, n) = Some (o, v) -> selects sel (object_labels o) = true -> P (kd, ns, n)) ->
  only P w (delete_collection w kd ns sel).1.
Proof.
  intros Hp k Hk. unfold delete_collection. simpl. apply k_DeleteCollection_frame.
  destruct k as [[kd' ns'] n]. simpl. destruct (decide ((kd', ns') = (kd, ns))) as [[= -> ->]|]; [right|by left].
  intros o v Ho. destruct (selects sel (object_labels o)) eqn:Hs; [|done]. exfalso. apply Hk. by eapply Hp.
Qed.

Definition workload_kind (kd : kind) : Prop := kd = KdDeployment \/ kd = KdStatefulSet \/ kd = KdService.

Lemma cleanup_touches P w lid services perms w' e :
  cleanupStaleResources w lid services perms = (w', e) -> LidNS lid <> ""%string ->
  (forall k, access_of (LidNS lid) k -> P k) ->
  (forall sel kd w1 n o v, stale_selector services = Some sel -> workload_kind kd -> only P w w1 ->
     objects w1 !! (kd, LidNS lid, n) = Some (o, v) -> selects sel (object_labels o) = true -> P (kd, LidNS lid, n)) ->
  only P w w'.
Proof.
  unfold cleanupStaleResources. intros E Hns Hacc Hp. set (ns := LidNS lid) in *.
  destruct (stale_selector services) as [sel|]; [|simplify_eq; apply only_refl].
  eapply then_do_only; [exact E| |].
  { apply collection_only. intros n o v. apply (Hp sel KdDeployment w n o v eq_refl); [by left|apply only_refl]. }
  intros H1 w2 e2 E2. eapply then_do_only; [exact E2| |].
  { apply collection_only. intros n o v. by apply (Hp sel KdStatefulSet _ n o v eq_refl); [right; left|]. }
  intros H2 w3 e3 E3. assert (only P w (delete_collection (delete_collection w KdDeployment ns sel).1 KdStatefulSet ns sel).1)
    as H12 by (eapply only_trans; [exact H1|exact H2]).
  eapply then_do_only; [exact E3| |].
  { eapply delete_listed_only; [apply surjective_pairing|done|done|]. intros n o v.
    apply (Hp sel KdService _ n o v eq_refl); [by right; right|exact H12]. }
  intros _ w4 e4 E4. eapply only_weaken; [exact Hacc|]. eapply cleanupStaleRBACResources_only; [exact E4|done].
Qed.

Lemma cleanup_only w lid services perms w' e :
  cleanupStaleResources w lid services perms = (w', e) -> LidNS lid <> ""%string -> only (in_lease (LidNS lid)) w w'.
Proof.
  intros E Hns. eapply cleanup_touches; [exact E|done| |by left].
  intros [[kd ns] n] [Hk|[Hk|Hk]]; simpl in Hk; left; simpl; congruence.
Qed.

Lemma cleanup_spares w lid services perms w' e :
  cleanupStaleResources w lid services perms = (w', e) -> LidNS lid <> ""%string ->
  (forall kd, workload_kind kd -> spared (LidNS lid) kd w) -> only (access_of (LidNS lid)) w w'.
Proof.
  intros E Hns Hsp. eapply cleanup_touches; [exact E|done|done|]. intros sel kd w1 n o v Hsel Hkd Ho Hl Hs.
  assert (~ access_of (LidNS lid) (kd, LidNS lid, n)) as Hna
    by (unfold access_of; simpl; destruct Hkd as [-> |[-> | ->]]; intuition congruence).
  rewrite Ho in Hl by done. rewrite (stale_selector_target _ _ _ Hsel) in Hs; [done|by eapply Hsp].
Qed.

(** No label a workload is given or keeps is the one the clean-up looks for. *)
Lemma wl_labels_target b : wl_labels b !! AkashServiceTarget = None.
Proof.
  unfold wl_labels. destruct (String.eqb _ ""); [|rewrite lookup_insert_ne by done];
    (rewrite lookup_insert_ne by done); unfold base_labels, base_selectorLabels;
    rewrite !lookup_insert_ne by done; by rewrite lookup_singleton_ne.
Qed.

Lemma updated_target b cur : updateAkashLabels cur (wl_labels b) !! AkashServiceTarget = None.
Proof.
  unfold updateAkashLabels. rewrite lookup_union, wl_labels_target, (left_id_L None _).
  apply map_lookup_filter_None. right. intros x _. by vm_compute.
Qed.

(** The clean-up of a deploy never removes a deployment, a stateful set or a service of
    the lease: it selects by [akash.network/service-target=true], which none of those the
    provider builds or updates carries, whatever the manifest names. *)
Theorem cleanup_misses_workloads (w w' : W) (lid : LeaseID) (services servicesWithPermissions : list string)
    (err : option cleanup_error) (kd : kind) (n : string) :
  LidNS lid <> ""%string -> workload_kind kd ->
  (forall kd n o v, workload_kind kd -> objects w !! (kd, LidNS lid, n) = Some (o, v) ->
     exists b, object_labels o = wl_labels b \/ exists cur, object_labels o = updateAkashLabels cur (wl_labels b)) ->
  cleanupStaleResources w lid services servicesWithPermissions = (w', err) ->
  objects w' !! (kd, LidNS lid, n) = objects w !! (kd, LidNS lid, n).
Proof.
  intros Hns Hkd Hb E. eapply cleanup_spares; [exact E|done| |].
  - intros kd' Hkd' n' o v Hl. destruct (Hb kd' n' o v Hkd' Hl) as (b & [-> |[cur ->]]);
      [by rewrite wl_labels_target|by rewrite updated_target].
  - unfold access_of. simpl. destruct Hkd as [-> |[-> | ->]]; intuition congruence.
Qed.

End Frames.

(** ** A server *)

(** The classes are inhabited: a list of the objects written, the latest first, each with its
    namespace and a version that grows with every change, and a list that says which of the
    next writes fail. *)
Section Server.

Abbreviation entry := (string * (object * string))%type.

Record server := mkServer { sv_list : list entry; sv_fail : list bool }.

Definition entry_key (e : entry) : okey := (object_kind e.2.1, e.1, object_name e.2.1).

Definition key_eqb (a b : okey) : bool :=
  bool_decide (a.1.1 = b.1.1) && String.eqb a.1.2 b.1.2 && String.eqb a.2 b.2.

Definition sv_get (s : server) (key : okey) : option (object * string) :=
  snd <$> find (fun e => key_eqb (entry_key e) key) (sv_list s).

Definition sv_objects (s : server) : gmap okey (object * string) :=
  list_to_map ((fun e => (entry_key e, e.2)) <$> sv_list s).

Definition refused (text : string) : kube_error := mkKubeError false text.
Definition missing : kube_error := mkKubeError true "not found".

(** Every write takes the head of the list of failures. *)
Definition attempt (s : server) (k : server -> server * result kube_error (object * string))
    : server * result kube_error (object * string) :=
  match sv_fail s with
  | true :: rest => (mkServer (sv_list s) rest, Err (refused "unavailable"))
  | false :: rest => k (mkServer (sv_list s) rest)
  | [] => k s
  end.

Definition put (s : server) (ns : string) (ov : object * string) : server * result kube_error (object * string) :=
  (mkServer ((ns, ov) :: sv_list s) (sv_fail s), Ok ov).

Definition next_version (o o0 : object) (v0 : string) : string := if decide (o = o0) then v0 else ("v" +:+ v0)%string.

Definition sv_Create (s : server) (ns : string) (o : object) : server * result kube_error (object * string) :=
  attempt s (fun s => match sv_get s (object_kind o, ns, object_name o) with
                      | Some _ => (s, Err (refused "already exists"))
                      | None => put s ns (o, "v"%string)
                      end).

Definition sv_Update (s : server) (ns : string) (o : object) (version : option string)
    : server * result kube_error (object * string) :=
  attempt s (fun s => match sv_get s (object_kind o, ns, object_name o) with
                      | None => (s, Err missing)
                      | Some (o0, v0) =>
                          if match version with Some v => String.eqb v v0 | None => true end
                          then put s ns (o, next_version o o0 v0)
                          else (s, Err (refused "conflict"))
                      end).

Definition sv_Patch (s : server) (ns name : string) (limit : option Z) (strategy : DeploymentStrategy)
    : server * result kube_error (object * string) :=
  attempt s (fun s => match sv_get s (KdDeployment, ns, name) with
                      | Some (ODeployment o0, v0) =>
                          let o := ODeployment (patched limit strategy o0) in
                          put s ns (o, next_version o (ODeployment o0) v0)
                      | _ => (s, Err missing)
                      end).

Definition keep_keys (s : server) (f : okey -> bool) : server :=
  mkServer (List.filter (fun e => f (entry_key e)) (sv_list s)) (sv_fail s).

Definition withinb (kd : kind) (ns name : string) (key : okey) : bool :=
  key_eqb key (kd, ns, name) ||
  (bool_decide (kd = KdNamespace) && String.eqb key.1.2 name && negb (bool_decide (key.1.1 = KdNamespace))).

Definition sv_Delete (s : server) (kd : kind) (ns name : string) : server * option kube_error :=
  match sv_get s (kd, ns, name) with
  | None => (s, Some missing)
  | Some _ => (keep_keys s (fun k => negb (withinb kd ns name k)), None)
  end.

Definition collected (s : server) (kd : kind) (ns : string) (sel : list requirement) (key : okey) : bool :=
  bool_decide (key.1.1 = kd) && String.eqb key.1.2 ns &&
  match sv_get s key with Some ov => selects sel (object_labels ov.1) | None => false end.

Definition sv_DeleteCollection (s : server) (kd : kind) (ns : string) (sel : list requirement) : server * option kube_error :=
  (keep_keys s (fun k => negb (collected s kd ns sel k)), None).

Definition sv_listed (s : server) (kd : kind) (ns : string) (sel : list requirement) (e : entry) : bool :=
  bool_decide (object_kind e.2.1 = kd) && (String.eqb e.1 ns || (String.eqb ns "" && negb (bool_decide (kd = KdNamespace)))) &&
  selects sel (object_labels e.2.1) && bool_decide (sv_get s (entry_key e) = Some e.2).

#[export] Instance server_cluster : Cluster server := {
  k_Get s kd ns n := match sv_get s (kd, ns, n) with Some ov => Ok ov | None => Err missing end;
  k_List s kd ns sel := Ok (snd <$> List.filter (sv_listed s kd ns sel) (sv_list s));
  k_Create := sv_Create;
  k_Update := sv_Update;
  k_PatchDeployment := sv_Patch;
  k_Delete := sv_Delete;
  k_DeleteCollection := sv_DeleteCollection;
  valid_label_value _ := true
}.

Lemma key_eqb_eq a b : key_eqb a b = true <-> a = b.
Proof.
  destruct a as [[a1 a2] a3], b as [[b1 b2] b3]. unfold key_eqb. simpl.
  rewrite !andb_true_iff, bool_decide_eq_true, !String.eqb_eq. split; [intros [[-> ->] ->]; done|]. by intros [= -> -> ->].
Qed.

Lemma sv_objects_get s key : sv_objects s !! key = sv_get s key.
Proof.
  unfold sv_objects, sv_get. induction (sv_list s) as [|e l IH]; [done|]. simpl.
  destruct (key_eqb (entry_key e) key) eqn:E.
  - apply key_eqb_eq in E as <-. by rewrite lookup_insert_eq.
  - rewrite lookup_insert_ne; [done|]. intros Heq. apply key_eqb_eq in Heq. congruence.
Qed.

Lemma sv_get_key s key ov : sv_get s key = Some ov -> object_kind ov.1 = key.1.1 /\ object_name ov.1 = key.2.
Proof.
  unfold sv_get. intros (e & Hf & ->)%fmap_Some. apply find_some in Hf as [_ Hk]. apply key_eqb_eq in Hk as <-. done.
Qed.

Lemma sv_get_in s e : sv_get s (entry_key e) = Some e.2 -> exists e', e' ∈ sv_list s /\ entry_key e' = entry_key e /\ e'.2 = e.2.
Proof.
  unfold sv_get. intros (e' & Hf & He)%fmap_Some. apply find_some in Hf as [Hin Hk]. apply key_eqb_eq in Hk.
  exists e'. split; [by apply list_elem_of_In|]. done.
Qed.

Lemma sv_get_keep s f key : sv_get (keep_keys s f) key = if f key then sv_get s key else None.
Proof.
  unfold sv_get, keep_keys. simpl. induction (sv_list s) as [|e l IH]; simpl; [by destruct (f key)|].
  destruct (f (entry_key e)) eqn:Hf; simpl; destruct (key_eqb (entry_key e) key) eqn:E; try done.
  - apply key_eqb_eq in E as <-. by rewrite Hf.
  - apply key_eqb_eq in E as <-. by rewrite Hf in *.
Qed.

Lemma withinb_spec kd ns name key : withinb kd ns name key = true <-> within kd ns name key.
Proof.
  unfold withinb, within. rewrite orb_true_iff, key_eqb_eq, !andb_true_iff, bool_decide_eq_true, String.eqb_eq,
    negb_true_iff, bool_decide_eq_false. tauto.
Qed.

(** A write that is tried leaves the objects, or does what it does. *)
Lemma attempt_wrote s key ok k :
  (forall s', sv_list s' = sv_list s -> wrote sv_objects s' key ok (k s')) -> wrote sv_objects s key ok (attempt s k).
Proof.
  unfold attempt. intros Hk. destruct s as [m [|[] rest]]; simpl; [by apply Hk|by left|].
  exact (Hk (mkServer m rest) eq_refl).
Qed.

Lemma same_port_refl p : same_port p p = true.
Proof. unfold same_port. by rewrite !String.eqb_refl, !Z.eqb_refl. Qed.

Lemma served_refl o : served o o.
Proof.
  destruct o; simpl; try done. split_and!; try done. induction (so_ports o); constructor; [apply same_port_refl|done].
Qed.

Lemma put_wrote s ns ov (ok : object * string -> Prop) key :
  key = (object_kind ov.1, ns, object_name ov.1) -> ok ov -> wrote sv_objects s key ok (put s ns ov).
Proof. intros -> Hok. unfold put, wrote. simpl. split; [done|reflexivity]. Qed.

Lemma sv_list_ok s kd ns sel o v :
  kd = KdNamespace \/ ns <> ""%string ->
  (o, v) ∈ snd <$> List.filter (sv_listed s kd ns sel) (sv_list s) <->
  exists n, sv_get s (kd, ns, n) = Some (o, v) /\ selects sel (object_labels o) = true.
Proof.
  intros Hns. rewrite list_elem_of_fmap. setoid_rewrite list_elem_of_In. setoid_rewrite filter_In. unfold sv_listed.
  setoid_rewrite andb_true_iff. setoid_rewrite andb_true_iff. setoid_rewrite andb_true_iff. setoid_rewrite bool_decide_eq_true.
  split.
  - intros ([ns' ov] & Hov & _ & [[Hk Hn] Hs] & Hg). simpl in *. subst ov. simpl in *. exists (object_name o). split; [|done].
    apply orb_true_iff in Hn as [Hn|Hn].
    + apply String.eqb_eq in Hn as ->. unfold entry_key in Hg. simpl in Hg. by rewrite Hk in Hg.
    + apply andb_true_iff in Hn as [Hn Hk']. apply String.eqb_eq in Hn as ->.
      apply negb_true_iff, bool_decide_eq_false in Hk'. destruct Hns; done.
  - intros (n & Hg & Hs). pose proof (sv_get_key _ _ _ Hg) as [Hk Hn]. simpl in *.
    destruct (sv_get_in s (ns, (o, v))) as ([ns' ov] & Hin & Hkey & Hov); [unfold entry_key; simpl; by rewrite Hk, Hn|].
    simpl in *. subst ov. simpl in *. unfold entry_key in Hkey. simpl in Hkey. injection Hkey as ->.
    exists (ns, (o, v)). split; [done|]. split; [by apply list_elem_of_In|]. unfold entry_key. simpl. rewrite Hk, Hn, Hg, Hs.
    by rewrite String.eqb_refl.
Qed.

#[export] Instance server_laws : ClusterLaws server.
Proof.
  refine {| objects := sv_objects |}.
  - intros s kd ns n o v. rewrite sv_objects_get. simpl. destruct (sv_get s _) as [ov|] eqn:E; [|done]. intros [= ->].
    split; [done|]. by apply (sv_get_key _ _ _ E).
  - intros s kd ns n e. rewrite sv_objects_get. simpl. by destruct (sv_get s _) eqn:E.
  - intros s kd ns sel os [= <-] Hns o v. rewrite sv_list_ok by done. by split; intros (x & Hx); exists x; rewrite sv_objects_get in *.
  - intros s kd ns n o v. rewrite sv_objects_get. intros Hl. by apply (sv_get_key _ _ _ Hl).
  - intros s ns o. apply attempt_wrote. intros s' _. destruct (sv_get s' _); [by left|].
    apply put_wrote; [done|apply served_refl].
  - intros s ns o v. apply attempt_wrote. intros s' _. destruct (sv_get s' _) as [[o0 v0]|]; [|by left].
    destruct (match v with Some _ => _ | None => _ end); [|by left]. apply put_wrote; [done|apply served_refl].
  - intros s ns o v o0 v0 Hl Hv. rewrite sv_objects_get in Hl. simpl. unfold sv_Update, attempt. unfold sv_get in *.
    destruct s as [m [|[] rest]]; simpl in *; rewrite ?Hl; simpl; [|done|].
    all: destruct (String.eqb_spec v v0); done.
  - intros s s' ns o v o0 v0 o' v' Hl. rewrite sv_objects_get in Hl. simpl. unfold sv_Update, attempt, put. unfold sv_get in *.
    assert (next_version o o0 v0 = v0 -> o = o0) as Hnv.
    { unfold next_version. destruct (decide (o = o0)); [done|]. intros Hv. apply (f_equal String.length) in Hv.
      rewrite string_app_length in Hv. simpl in Hv. lia. }
    destruct s as [m [|[] rest]]; simpl in *; rewrite ?Hl; simpl; [|done|].
    all: destruct (match v with Some _ => _ | None => _ end); [|done]; intros [= <- <- <-] Hne ?; by apply Hne, Hnv.
  - intros s ns n limit strategy. apply attempt_wrote. intros s' Hs'.
    assert (sv_get s' = sv_get s) as Heq by (unfold sv_get; by rewrite Hs').
    destruct (sv_get s' _) as [[[] v0]|] eqn:Hl; try by left.
    pose proof (sv_get_key _ _ _ Hl) as [_ Hn]. simpl in Hn.
    apply put_wrote; [by simpl; rewrite Hn|]. eexists _, _. rewrite sv_objects_get, <- Heq. done.
  - intros s kd ns n key Hk. rewrite !sv_objects_get. simpl. unfold sv_Delete. destruct (sv_get s (kd, ns, n)); [|done].
    simpl. rewrite sv_get_keep. destruct (withinb kd ns n key) eqn:E; [|done]. by apply withinb_spec in E.
  - intros s kd ns n. rewrite sv_objects_get. simpl. unfold sv_Delete. destruct (sv_get s (kd, ns, n)) eqn:E; simpl; [|done]. intros _.
    rewrite sv_get_keep. by rewrite (proj2 (withinb_spec kd ns n (kd, ns, n))) by (by left).
  - intros s kd ns n e. rewrite sv_objects_get. simpl. unfold sv_Delete. destruct (sv_get s (kd, ns, n)) eqn:E; simpl; [done|].
    intros _ _. done.
  - intros s kd ns sel key Hk. rewrite !sv_objects_get. simpl. unfold sv_DeleteCollection. simpl. rewrite sv_get_keep.
    destruct (collected s kd ns sel key) eqn:E; [|done]. exfalso. unfold collected in E.
    rewrite !andb_true_iff, bool_decide_eq_true, String.eqb_eq in E. destruct E as [[Hk1 Hk2] E].
    destruct (sv_get s key) as [[o v]|] eqn:Hg; [|done]. destruct Hk as [Hk|Hk].
    + apply Hk. destruct key as [[a b] c]. simpl in *. congruence.
    + simpl in E. specialize (Hk o v). rewrite sv_objects_get in Hk. by rewrite (Hk Hg) in E.
Defined.

End Server.
