(* ===== verification/KubeDeploy.v ===== *)
(** * The Kubernetes client: deploying and tearing down a lease

    Model of [Deploy], [TeardownLease], [LeaseIDs] and the queries of [cluster/kube/client.go],
    with the roll-back of [previousObj] and the manifest builder of
    [cluster/kube/builder/manifest.go]. A deploy runs in a monad of its own: the cluster and
    the objects to bring back as the state, and an error, a panic included, that ends it.

    Lists that are nil and lists that are empty are not told apart, so where the code compares
    objects as a whole the model sends at most the updates the code sends. What a
    TEE writes through scheduler parameters that services share is in the file on custom
    resources. *)

From Stdlib Require Import ZArith Lia.
From stdpp Require Import base gmap list strings sorting tactics.
From S2P Require Import Prelude Types Names CRD Kube Builder NetPol KubeApply.

(** ** Errors and requests *)

Inductive deploy_error :=
| ErrInternalError
| ErrNotConfiguredWithSettings
| ErrSettingsValidation
| ErrParamsType
| ErrNoRoCERailNetworks
| ErrManifestRenameNotAllowed
| DeployBuilder (e : builder_error)
| DeployCRD (e : crd_error)
| DeployBuild (e : build_error)
| DeployCleanup
| DeployKube (e : kube_error).

(** A panic is recovered from, as an internal error. *)
Definition of_build (e : build_error) : deploy_error :=
  match e with BuildPanic => ErrInternalError | BuildCRD e => DeployCRD e | e => DeployBuild e end.

Definition of_apply (e : apply_error) : deploy_error :=
  match e with ApplyKube e => DeployKube e | ApplyBuild e => of_build e end.

Definition of_cleanup (e : cleanup_error) : deploy_error :=
  match e with CleanupSelector => DeployCleanup | CleanupKube e => DeployKube e end.

(** The type of the parameters of a deployment is looked at when it is deployed. *)
Inductive client_params := ParamsSettings (sps : list (option ptr)) | ParamsReservation (m : cluster_params ptr) | ParamsOther.

Record IDeployment `{ServiceProtocolAPI} := mkIDeployment {
  i_lid : LeaseID; i_group : Mani.Group; i_params : client_params; i_version : string
}.
Arguments mkIDeployment {H}.

(** [vutil.IsDomainName]. *)
Class DomainNames := { IsDomainName : string -> bool }.

Record ClientSettings `{SDK} := mkClientSettings {
  DeploymentIngressStaticHosts : bool; DeploymentIngressDomain : string; cs_builder : Settings
}.
Arguments mkClientSettings {H H0}.

Definition ValidateSettings `{SDK} `{DomainNames} (s : ClientSettings) : result deploy_error unit :=
  if DeploymentIngressStaticHosts s then
    if String.eqb (DeploymentIngressDomain s) "" then Err ErrSettingsValidation
    else if IsDomainName (DeploymentIngressDomain s) then Ok tt else Err ErrSettingsValidation
  else Ok tt.

(** The network attachments of a namespace, by name. *)
Class Attachments (W : Type) := { k_ListNADs : W -> string -> result kube_error (list string) }.

(** ** What there was before *)

Inductive slot :=
| SNetPolicies | SServiceAccounts | SRoles | SRoleBindings | SServiceCreds | SStatefulSets | SDeployments
| SLocalServices | SGlobalServices.

#[export] Instance slot_eq_dec : EqDecision slot.
Proof. solve_decision. Defined.

Record history := mkHistory { h_new : list (object * string); h_updated : list (object * string); h_old : list (object * string) }.

Definition no_history : history := mkHistory [] [] [].

(** [previousObj]. *)
Record previousObj := mkPrevious {
  po_nmani : option (KManifest * string); po_umani : option (KManifest * string); po_omani : option (KManifest * string);
  po_ns : applied; po_slots : slot -> history
}.

Definition no_previous : previousObj := mkPrevious None None None nothing_applied (fun _ => no_history).

Definition set_slot (po : previousObj) (s : slot) (h : history) : previousObj :=
  mkPrevious (po_nmani po) (po_umani po) (po_omani po) (po_ns po) (fun s' => if decide (s' = s) then h else po_slots po s').

Definition set_ns (po : previousObj) (a : applied) : previousObj :=
  mkPrevious (po_nmani po) (po_umani po) (po_omani po) a (po_slots po).

(** The objects an apply returned are appended, those that are not nil. *)
Definition record_applied (po : previousObj) (s : slot) (a : applied) : previousObj :=
  let h := po_slots po s in
  set_slot po s (mkHistory (h_new h ++ option_list (ap_new a)) (h_updated h ++ option_list (ap_updated a))
                   (h_old h ++ option_list (ap_old a))).

Section Client.
Context {W : Type} `{HC : Cluster W} `{HA : !Attachments W} `{HP : ServiceProtocolAPI} `{HS : !SDK} `{HB : Bech32}
  `{HH : LeaseHash} `{HD : DomainNames}.

(** ** Rolling back *)

(** Each call is made whatever came of the one before; the objects are those of the
    namespace of the lease, latest first. *)
Definition delete_back (kd : kind) (ns : string) (os : list (object * string)) (r : W * list kube_error)
    : W * list kube_error :=
  foldl (fun r ov => let d := k_Delete r.1 kd ns (object_name ov.1) in (d.1, r.2 ++ option_list d.2)) r (rev os).

Definition restore_one (ns : string) (ov : object * string) (r : W * list kube_error) : W * list kube_error :=
  let u := k_Update r.1 ns ov.1 (Some ov.2) in
  (u.1, match u.2 with Ok _ => r.2 | Err e => r.2 ++ [e] end).

Definition restore_back (ns : string) (os : list (object * string)) (r : W * list kube_error) : W * list kube_error :=
  foldl (fun r ov => restore_one ns ov r) r (rev os).

Definition recover_objects (w : W) (ns : string) (p : previousObj) : W * list kube_error :=
  let r := (w, []) in
  let r := delete_back KdService ns (h_new (po_slots p SGlobalServices)) r in
  let r := restore_back ns (h_old (po_slots p SGlobalServices)) r in
  let r := delete_back KdService ns (h_new (po_slots p SLocalServices)) r in
  let r := restore_back ns (h_old (po_slots p SLocalServices)) r in
  let r := restore_back ns (h_old (po_slots p SDeployments)) r in
  let r := restore_back ns (h_old (po_slots p SStatefulSets)) r in
  let r := delete_back KdRoleBinding ns (h_new (po_slots p SRoleBindings)) r in
  let r := restore_back ns (h_old (po_slots p SRoleBindings)) r in
  let r := delete_back KdRole ns (h_new (po_slots p SRoles)) r in
  let r := restore_back ns (h_old (po_slots p SRoles)) r in
  let r := delete_back KdServiceAccount ns (h_new (po_slots p SServiceAccounts)) r in
  let r := restore_back ns (h_old (po_slots p SServiceAccounts)) r in
  let r := delete_back KdSecret ns (h_new (po_slots p SServiceCreds)) r in
  let r := restore_back ns (h_old (po_slots p SServiceCreds)) r in
  let r := delete_back KdNetPol ns (h_new (po_slots p SNetPolicies)) r in
  let r := restore_back ns (h_old (po_slots p SNetPolicies)) r in
  let r := match ap_new (po_ns p) with Some ov => delete_back KdNamespace "" [ov] r | None => r end in
  match ap_old (po_ns p) with Some ov => restore_one "" ov r | None => r end.

(** The manifest comes last. *)
Definition recover (w : W) (cns ns : string) (p : previousObj) : W * list kube_error :=
  let r := recover_objects w ns p in
  match po_omani p with Some (m, v) => restore_one cns (OManifest m, v) r | None => r end.

(** ** The steps of a deploy *)

Definition deploy (A : Type) : Type := W * previousObj -> W * previousObj * result deploy_error A.

Definition dret {A} (a : A) : deploy A := fun s => (s, Ok a).
Definition dfail {A} (e : deploy_error) : deploy A := fun s => (s, Err e).
Definition dlift {A} (r : result deploy_error A) : deploy A := fun s => (s, r).
Definition dbind {A B} (m : deploy A) (k : A -> deploy B) : deploy B :=
  fun s => let r := m s in match r.2 with Ok a => k a r.1 | Err e => (r.1, Err e) end.

Definition dwhen (c : bool) (m : deploy unit) : deploy unit := if c then m else dret tt.

Fixpoint deach {A} (f : A -> deploy unit) (l : list A) : deploy unit :=
  match l with [] => dret tt | a :: l' => dbind (f a) (fun _ => deach f l') end.

(** An apply, and its objects noted when it succeeds. *)
Definition dapply (s : slot) (f : W -> W * applied * option apply_error) : deploy unit :=
  fun st => let r := f st.1 in
    match r.2 with
    | Some e => ((r.1.1, st.2), Err (of_apply e))
    | None => ((r.1.1, record_applied st.2 s r.1.2), Ok tt)
    end.

(** *** The manifest *)

Definition manifest_labels (d : cdeployment) : labels_t :=
  AppendLeaseLabels (cd_lid d) (delete AkashManifestResourceVersion (base_labels d)).

Definition manifest_Create (cns : string) (d : cdeployment) (sps : list (option ptr)) (h : sched_heap)
    : result crd_error KManifest :=
  (let? (h, m) := NewManifest cns (cd_lid d) (cd_group d) sps h in
   Ok (mkKManifest (manifest_labels d) (store_manifest "" h m)))%go.

(** The metadata stays, the specification is the new one. *)
Definition manifest_Update (cns : string) (d : cdeployment) (sps : list (option ptr)) (h : sched_heap) (obj : KManifest)
    : result crd_error KManifest :=
  (let? (h, m) := NewManifest cns (cd_lid d) (cd_group d) sps h in
   let n := store_manifest "" h m in
   let o := km_manifest obj in
   Ok (mkKManifest (km_labels obj)
     (Crd.mkManifest (Crd.MName o) (Crd.Namespace o) (Crd.ResourceVersion o) (Crd.SLease n) (Crd.SGroup n))))%go.

(** Every service of the new manifest is one of the old and is named once, and every one of
    the old is named. *)
Fixpoint names_left (currSvcs : gset string) (names : list string) : result deploy_error (gset string) :=
  match names with
  | [] => Ok currSvcs
  | n :: rest => if decide (n ∈ currSvcs) then names_left (currSvcs ∖ {[n]}) rest else Err ErrManifestRenameNotAllowed
  end.

Definition manifest_names (m : KManifest) : list string := Crd.Name <$> Crd.Services (Crd.SGroup (km_manifest m)).

Definition check_rename (old new : KManifest) : result deploy_error unit :=
  (let? rest := names_left (list_to_set (manifest_names old)) (manifest_names new) in
   if decide (rest = ∅) then Ok tt else Err ErrManifestRenameNotAllowed)%go.

(** Manifests are stored under their own kind only. *)
Definition as_manifest (ov : object * string) : option (KManifest * string) :=
  match ov.1 with OManifest m => Some (m, ov.2) | _ => None end.

Definition set_manis (n u : option (KManifest * string)) (po : previousObj) : previousObj :=
  mkPrevious n u (po_omani po) (po_ns po) (po_slots po).

Definition set_omani (o : option (KManifest * string)) (po : previousObj) : previousObj :=
  mkPrevious (po_nmani po) (po_umani po) o (po_ns po) (po_slots po).

Definition get_manifest (cns : string) (d : cdeployment) : deploy unit :=
  fun st => match k_Get st.1 KdManifest cns (LidNS (cd_lid d)) with
            | Ok ov => ((st.1, set_omani (as_manifest ov) st.2), Ok tt)
            | Err e => if IsNotFound e then ((st.1, set_omani None st.2), Ok tt) else (st, Err (DeployKube e))
            end.

(** The new or updated manifest, written when it differs from the one there is. *)
Definition write_manifest (cns : string) (d : cdeployment) (sps : list (option ptr)) (h : sched_heap) : deploy unit :=
  fun st => match po_omani st.2 with
  | Some (old, v) =>
      match manifest_Update cns d sps h old with
      | Err e => (st, Err (DeployCRD e))
      | Ok new =>
          match check_rename old new with
          | Err e => ((st.1, set_manis None (Some (new, v)) st.2), Err e)
          | Ok _ =>
              if decide (new = old) then ((st.1, set_manis None (Some (new, v)) st.2), Ok tt)
              else let r := k_Update st.1 cns (OManifest new) (Some v) in
                match r.2 with
                | Ok ov => ((r.1, set_manis None (as_manifest ov) st.2), Ok tt)
                | Err e => ((r.1, set_manis None None st.2), Err (DeployKube e))
                end
          end
      end
  | None =>
      match manifest_Create cns d sps h with
      | Err e => (st, Err (DeployCRD e))
      | Ok new =>
          let r := k_Create st.1 cns (OManifest new) in
          match r.2 with
          | Ok ov => ((r.1, set_manis (as_manifest ov) None st.2), Ok tt)
          | Err e => ((r.1, set_manis None None st.2), Err (DeployKube e))
          end
      end
  end.

(** [currManifest], which is nil when there is none and none is written. *)
Definition currManifest (po : previousObj) : option (KManifest * string) :=
  match po_nmani po with
  | Some m => Some m
  | None => match po_umani po with Some m => Some m | None => po_omani po end
  end.

(** *** The objects of the services *)

Record deploymentService := mkDeploymentService {
  ds_workload : Workload; ds_credentials : option Mani.ImageCredentials; ds_persistent : bool;
  ds_access : bool; ds_exposed : bool
}.

Definition service_of (b : Workload) (service : Mani.Service) : deploymentService :=
  mkDeploymentService b (Mani.Credentials service) (existsb is_persistent (r_storage (Mani.Res service)))
    (hasPermissions b) (negb (length (Mani.Exposes service) =? 0)%nat).

(** Reading a nil manifest panics. *)
Fixpoint build_services (settings : Settings) (d : cdeployment) (m : option KManifest) (idx : nat)
    (services : list Mani.Service) : result deploy_error (list deploymentService) :=
  match services with
  | [] => Ok []
  | service :: rest =>
      match m with
      | None => Err ErrInternalError
      | Some m =>
          match NewWorkloadBuilder settings d (km_manifest m) idx with
          | Err e => Err (of_build e)
          | Ok b => (let? dss := build_services settings d (Some m) (S idx) rest in Ok (service_of b service :: dss))%go
          end
      end
  end.

Definition servicesWithPermissions (dss : list deploymentService) : list string :=
  (fun ds => wl_name (ds_workload ds)) <$> filter (fun ds => ds_access ds = true) dss.

(** The version of the manifest is that of the deployment, when it has none. *)
Definition with_version (d : cdeployment) (m : option (KManifest * string)) : result deploy_error cdeployment :=
  if String.eqb (cd_version d) "" then
    match m with
    | None => Err ErrInternalError
    | Some (_, v) => Ok (mkCDeployment (cd_lid d) (cd_group d) (cd_sparams d) v (cd_update d))
    end
  else Ok d.

(** *** Applying *)

Definition apply_namespace (d : cdeployment) : deploy unit :=
  fun st => let r := applyNS st.1 d in
    ((r.1.1, set_ns st.2 r.1.2), match r.2 with Some e => Err (of_apply e) | None => Ok tt end).

Definition apply_netpol (settings : Settings) (d : cdeployment) : deploy unit :=
  fun st => let r := applyNetPolicies st.1 settings d in
    let '(news, updated, olds) := r.1.2 in
    ((r.1.1, set_slot st.2 SNetPolicies (mkHistory news updated olds)),
     match r.2 with Some e => Err (of_apply e) | None => Ok tt end).

Definition clean_stale (d : cdeployment) (perms : list string) : deploy unit :=
  fun st => let r := cleanupStaleResources st.1 (cd_lid d) (Mani.Name <$> Mani.Services (cd_group d)) perms in
    ((r.1, st.2), match r.2 with Some e => Err (of_cleanup e) | None => Ok tt end).

(** The names of the objects there are; what is read is not used. The namespace is named by
    the one that was found, which has no name when there was none. *)
Definition list_current (kd : kind) : deploy unit :=
  fun st => let ns := match ap_old (po_ns st.2) with Some ov => object_name ov.1 | None => ""%string end in
    (st, match k_List st.1 kd ns [] with Ok _ => Ok tt | Err e => Err (DeployKube e) end).

Definition apply_service (ds : deploymentService) : deploy unit :=
  let b := ds_workload ds in
  dbind (dwhen (ds_access ds) (dapply SServiceAccounts (fun w => applyServiceAccount w b))) (fun _ =>
  dbind (dwhen (ds_access ds) (dapply SRoles (fun w => applyRole w b))) (fun _ =>
  dbind (dwhen (ds_access ds) (dapply SRoleBindings (fun w => applyRoleBinding w b))) (fun _ =>
  dbind (match ds_credentials ds with
         | Some c => dapply SServiceCreds (fun w => applyServiceCredentials w b c)
         | None => dret tt
         end) (fun _ =>
  dbind (dwhen (ds_persistent ds) (dapply SStatefulSets (fun w => applyStatefulSet w b))) (fun _ =>
  dbind (dwhen (negb (ds_persistent ds)) (dapply SDeployments (fun w => applyDeployment w b))) (fun _ =>
  dbind (dwhen (ds_exposed ds && service_Any b false) (dapply SLocalServices (fun w => applyService w b false))) (fun _ =>
  dwhen (ds_exposed ds && service_Any b true) (dapply SGlobalServices (fun w => applyService w b true))))))))).

(** What follows once the manifest is written. *)
Definition apply_all (settings : Settings) (d : cdeployment) (dss : list deploymentService) : deploy unit :=
  dbind (apply_namespace d) (fun _ =>
  dbind (apply_netpol settings d) (fun _ =>
  dbind (clean_stale d (servicesWithPermissions dss)) (fun _ =>
  dbind (list_current KdService) (fun _ =>
  dbind (list_current KdDeployment) (fun _ =>
  dbind (list_current KdStatefulSet) (fun _ => deach apply_service dss)))))).

Definition prepare (settings : Settings) (d : cdeployment) (st : W * previousObj)
    : result deploy_error (cdeployment * list deploymentService) :=
  (let? d := with_version d (currManifest st.2) in
   let? dss := build_services settings d (fst <$> currManifest st.2) 0 (Mani.Services (cd_group d)) in
   Ok (d, dss))%go.

Definition settle_manifest (cns : string) (d : cdeployment) (sps : list (option ptr)) (h : sched_heap) : deploy unit :=
  dbind (get_manifest cns d) (fun _ => dwhen (cd_update d) (write_manifest cns d sps h)).

Definition apply_prepared (settings : Settings) (d : cdeployment) : deploy unit :=
  dbind (fun st => (st, prepare settings d st)) (fun p => apply_all settings p.1 p.2).

Definition deploy_body (settings : Settings) (cns : string) (d : cdeployment) (sps : list (option ptr)) (h : sched_heap)
    : deploy unit :=
  dbind (settle_manifest cns d sps h) (fun _ => apply_prepared settings d).

(** *** The deployment and the settings *)

Definition params_of (d : IDeployment) : result deploy_error (list (option ptr) * bool) :=
  match i_params d with
  | ParamsSettings sps => Ok (sps, false)
  | ParamsReservation m =>
      match buildClusterSettings (Mani.Services (i_group d)) m with
      | Ok sps => Ok (sps, true)
      | Err e => Err (DeployBuilder e)
      end
  | ParamsOther => Err ErrParamsType
  end.

Definition cluster_deployment (h : sched_heap) (d : IDeployment)
    : result deploy_error (list (option ptr) * cdeployment) :=
  (let? (sps, update) := params_of d in
   let values := (fun sp => sp ≫= (h !!.)) <$> sps in
   match validate (i_group d) values with
   | Err e => Err (DeployBuilder e)
   | Ok _ => Ok (sps, mkCDeployment (i_lid d) (i_group d) values (i_version d) update)
   end)%go.

Definition deploymentNeedsRoCENetworks (d : cdeployment) : bool :=
  existsb (fun sp => match sparamsInterconnect sp with
                     | Some ic => si_enabled ic && String.eqb (si_fabric ic) InterconnectFabricRoCE
                     | None => false
                     end) (cd_sparams d).

Definition str_le (a b : string) : Prop := String.leb a b = true.

#[local] Instance str_le_dec a b : Decision (str_le a b).
Proof. unfold str_le. solve_decision. Defined.

Definition interconnectRoCENetworks (w : W) (ns : string) : result deploy_error string :=
  if String.eqb ns "" then Ok ""%string
  else match k_ListNADs w ns with
       | Err e => if IsNotFound e then Err ErrNoRoCERailNetworks else Err (DeployKube e)
       | Ok [] => Err ErrNoRoCERailNetworks
       | Ok names => Ok (join_commas (merge_sort str_le ((fun n => (ns +:+ "/" +:+ n)%string) <$> names)))
       end.

Definition set_networks (s : Settings) (networks : string) : Settings :=
  mkSettings (ClusterPublicHostname s) (NetworkPoliciesEnabled s) (APIServerEndpoints s) (CPUCommitLevel s)
    (GPUCommitLevel s) (MemoryCommitLevel s) (StorageCommitLevel s) (DockerImagePullSecretsName s) (GatewayMode s)
    (GatewayNamespace s) (InterconnectRoCENetworksNamespace s) networks.

Definition with_networks (w : W) (s : Settings) (d : cdeployment) : result deploy_error Settings :=
  if deploymentNeedsRoCENetworks d then
    if String.eqb (InterconnectRoCENetworksNamespace s) "" then Ok s
    else match interconnectRoCENetworks w (InterconnectRoCENetworksNamespace s) with
         | Ok networks => Ok (set_networks s networks)
         | Err e => Err e
         end
  else Ok s.

(** What is decided before the cluster is touched. *)
Definition deploy_plan (w : W) (cfg : option ClientSettings) (h : sched_heap) (d : IDeployment)
    : result deploy_error (Settings * list (option ptr) * cdeployment) :=
  match cfg with
  | None => Err ErrNotConfiguredWithSettings
  | Some cs =>
      (let? _ := ValidateSettings cs in
       let? (sps, cd) := cluster_deployment h d in
       let? settings := with_networks w (cs_builder cs) cd in
       Ok (settings, sps, cd))%go
  end.

(** [cns] is the namespace of the manifests, [h] the scheduler parameters in memory. *)
Definition Deploy (w : W) (cfg : option ClientSettings) (cns : string) (h : sched_heap) (d : IDeployment)
    : W * result deploy_error unit :=
  match deploy_plan w cfg h d with
  | Err e => (w, Err e)
  | Ok (settings, sps, cd) =>
      let r := deploy_body settings cns cd sps h (w, no_previous) in
      match r.2 with
      | Ok _ => (r.1.1, Ok tt)
      | Err e => ((recover r.1.1 cns (LidNS (cd_lid cd)) r.1.2).1, Err e)
      end
  end.

(** ** Tearing down *)

Definition unless_missing (e : option kube_error) : list kube_error :=
  match e with Some e => if IsNotFound e then [] else [e] | None => [] end.

(** Both deletions are tried; the errors are joined. *)
Definition TeardownLease (w : W) (cns : string) (lid : LeaseID) : W * list kube_error :=
  let r1 := k_Delete w KdNamespace "" (LidNS lid) in
  let r2 := k_Delete r1.1 KdManifest cns (LidNS lid) in
  (r2.1, unless_missing r1.2 ++ unless_missing r2.2).

End Client.

(** The frame of the apply that [E] says was made. *)
Ltac apply_only E :=
  first [apply (applyServiceAccount_only _ _ _ _ _ _ E)|apply (applyRole_only _ _ _ _ _ _ E)
        |apply (applyRoleBinding_only _ _ _ _ _ _ E)|apply (applyServiceCredentials_only _ _ _ _ _ _ _ E)
        |apply (applyStatefulSet_only _ _ _ _ _ _ E)|apply (applyDeployment_only _ _ _ _ _ _ E)
        |apply (applyService_only _ _ _ _ _ _ _ E)].

(** ** What a deploy touches *)

Section Contained.
Context {W : Type} `{HC : Cluster W} `{HL : !ClusterLaws W} `{HA : !Attachments W} `{HP : ServiceProtocolAPI} `{HS : !SDK}
  `{HB : Bech32} `{HH : LeaseHash} `{HD : DomainNames}.

Lemma served_key o o' : served o o' -> object_kind o' = object_kind o /\ object_name o' = object_name o.
Proof. destruct o, o'; simpl; try done; intros Hs; destruct_and?; simplify_eq; done. Qed.

Lemma apply_object_old (w : W) kd ns name build update changed w' a err ov :
  apply_object w kd ns name build update changed = (w', a, err) -> ap_old a = Some ov -> k_Get w kd ns name = Ok ov.
Proof.
  unfold apply_object, create_applied. intros E Ho. destruct (k_Get w kd ns name) as [[o v]|e].
  - destruct (update o) as [u|e]; [|by simplify_eq/=]. destruct (changed o u); [|by simplify_eq/=].
    destruct (k_Update w ns u (Some v)) as [w1 [uv|e]]; by simplify_eq/=.
  - destruct (IsNotFound e); [|by simplify_eq/=]. destruct build as [n|e']; [|by simplify_eq/=].
    destruct (k_Create w ns n) as [w1 [nv|e2]]; by simplify_eq/=.
Qed.

Lemma apply_object_new (w : W) kd ns name build update changed w' a err ov :
  apply_object w kd ns name build update changed = (w', a, err) -> ap_new a = Some ov ->
  exists n, build = Ok n /\ served n ov.1.
Proof.
  unfold apply_object, create_applied. intros E Ho. destruct (k_Get w kd ns name) as [[o v]|e].
  - destruct (update o) as [u|e]; [|by simplify_eq/=]. destruct (changed o u); [|by simplify_eq/=].
    destruct (k_Update w ns u (Some v)) as [w1 [uv|e]]; by simplify_eq/=.
  - destruct (IsNotFound e); [|by simplify_eq/=]. destruct build as [n|e']; [|by simplify_eq/=].
    pose proof (k_Create_wrote w ns n) as Hw. unfold wrote in Hw.
    destruct (k_Create w ns n) as [w1 [nv|e2]]; simplify_eq/=. exists n. split; [done|apply Hw].
Qed.

(** *** The roll-back *)

Lemma delete_back_only P kd ns os (r : W * list kube_error) :
  kd <> KdNamespace -> (forall n, P (kd, ns, n)) -> only P r.1 (delete_back kd ns os r).1.
Proof.
  intros Hkd Hp. unfold delete_back. revert r. induction (rev os) as [|ov l IH]; intros r; simpl; [apply only_refl|].
  eapply only_trans; [|apply IH]. simpl. intros k Hk. apply k_Delete_frame. intros [-> |[? _]]; [by apply Hk|done].
Qed.

Lemma restore_one_only P ns ov (r : W * list kube_error) :
  P (object_kind ov.1, ns, object_name ov.1) -> only P r.1 (restore_one ns ov r).1.
Proof. intros Hp. exact (wrote_only P _ _ _ _ (k_Update_wrote r.1 ns ov.1 (Some ov.2)) Hp). Qed.

Lemma restore_back_only P ns os (r : W * list kube_error) :
  (forall kd n, P (kd, ns, n)) -> only P r.1 (restore_back ns os r).1.
Proof.
  intros Hp. unfold restore_back. revert r. induction (rev os) as [|ov l IH]; intros r; simpl; [apply only_refl|].
  eapply only_trans; [|apply IH]. by apply restore_one_only.
Qed.

Section Lease.
Context (cns : string) (lid : LeaseID) (Hns : LidNS lid <> ""%string).

(** The namespace of the lease, what is in it, and the manifest of the lease. *)
Definition of_lease (k : okey) : Prop := in_lease (LidNS lid) k \/ k = (KdManifest, cns, LidNS lid).

Context (P : okey -> Prop) (HPin : forall k, in_lease (LidNS lid) k -> P k).

Definition po_fits (po : previousObj) : Prop :=
  (forall o v, ap_new (po_ns po) = Some (o, v) -> object_kind o = KdNamespace /\ object_name o = LidNS lid) /\
  (forall o v, ap_old (po_ns po) = Some (o, v) -> object_kind o = KdNamespace /\ object_name o = LidNS lid) /\
  (forall m v, po_omani po = Some (m, v) -> Crd.MName (km_manifest m) = LidNS lid).

Definition contained {A} (m : deploy A) : Prop :=
  forall st : W * previousObj, po_fits st.2 -> only P st.1 (m st).1.1 /\ po_fits (m st).1.2.

Lemma contained_ret {A} (a : A) : contained (dret a).
Proof. intros st Hp. split; [apply only_refl|done]. Qed.

Lemma contained_bind {A B} (m : deploy A) (k : A -> deploy B) :
  contained m -> (forall a, contained (k a)) -> contained (dbind m k).
Proof.
  intros Hm Hk st Hp. unfold dbind. destruct (Hm st Hp) as [Ho Hp']. destruct (m st).2 as [a|e]; [|done].
  destruct (Hk a (m st).1 Hp') as [Ho2 Hp2]. split; [by eapply only_trans|done].
Qed.

Lemma contained_when c m : contained m -> contained (dwhen c m).
Proof. destruct c; [done|intros _; apply contained_ret]. Qed.

Lemma contained_apply s f :
  (forall w w' a err, f w = (w', a, err) -> only P w w') -> contained (dapply s f).
Proof.
  intros Hf st Hp. unfold dapply. destruct (f st.1) as [[w' a] err] eqn:E.
  pose proof (Hf _ _ _ _ E) as Ho. destruct err; simpl; [done|]. split; [done|exact Hp].
Qed.

Lemma contained_each {A} (f : A -> deploy unit) l : (forall a, a ∈ l -> contained (f a)) -> contained (deach f l).
Proof.
  induction l as [|a l IH]; intros Hf; simpl; [apply contained_ret|]. apply contained_bind; [apply Hf, list_elem_of_here|].
  intros _. apply IH. intros b Hb. apply Hf. by apply list_elem_of_further.
Qed.

Lemma contained_service ds : cd_lid (wl_deployment (ds_workload ds)) = lid -> contained (apply_service ds).
Proof.
  intros Hl. unfold apply_service.
  assert (wl_ns (ds_workload ds) = LidNS lid) as Hw by (unfold wl_ns; by rewrite Hl).
  repeat (apply contained_bind; [|intros _]); [..|]; try (apply contained_when).
  4: destruct (ds_credentials ds); [|apply contained_ret].
  all: apply contained_apply; intros w w' a err E; apply_only E; apply HPin; left; exact Hw.
Qed.

Lemma contained_namespace d : cd_lid d = lid -> contained (apply_namespace d).
Proof.
  intros Hl st Hp. unfold apply_namespace. destruct (applyNS st.1 d) as [[w' a] err] eqn:E. simpl. split.
  - eapply only_weaken; [|by eapply applyNS_only]. by rewrite Hl.
  - destruct Hp as (_ & _ & Hm). split_and!; simpl; [| |done].
    + intros o v Ho. apply (apply_object_new _ _ _ _ _ _ _ _ _ _ _ E) in Ho as (n & [= <-] & Hs).
      apply served_key in Hs as [Hk Hnm]. simpl in *. by rewrite Hk, Hnm, Hl.
    + intros o v Ho. apply (apply_object_old _ _ _ _ _ _ _ _ _ _ _ E) in Ho.
      apply k_Get_ok in Ho as (_ & ? & ?). by rewrite Hl in *.
Qed.

Lemma contained_netpol st d : cd_lid d = lid -> contained (apply_netpol st d).
Proof.
  intros Hl s Hp. unfold apply_netpol. destruct (applyNetPolicies s.1 st d) as [[w' [[n u] o]] err] eqn:E. simpl.
  split; [|exact Hp]. eapply only_weaken; [|by eapply applyNetPolicies_only]. by rewrite Hl.
Qed.

Lemma contained_clean d perms : cd_lid d = lid -> contained (clean_stale d perms).
Proof.
  intros Hl s Hp. unfold clean_stale. destruct (cleanupStaleResources _ _ _ _) as [w' err] eqn:E. simpl.
  split; [|exact Hp]. eapply only_weaken; [|eapply cleanup_only; [exact E|]]; by rewrite Hl.
Qed.

Lemma contained_list kd : contained (list_current kd).
Proof. intros s Hp. split; [apply only_refl|done]. Qed.

Lemma contained_get d : cd_lid d = lid -> contained (get_manifest cns d).
Proof.
  intros Hl st Hp. pose proof Hp as (Hn & Ho & _). unfold get_manifest. rewrite Hl.
  destruct (k_Get st.1 KdManifest cns (LidNS lid)) as [[o v]|e] eqn:E.
  - apply k_Get_ok in E as (_ & _ & Hnm). split; [apply only_refl|]. split_and!; [done..|].
    intros m v'. unfold as_manifest. simpl. destruct o; try done. intros [= <- <-]. exact Hnm.
  - destruct (IsNotFound e); (split; [apply only_refl|]); [by split_and!|exact Hp].
Qed.

Lemma manifest_Create_name d sps h m : manifest_Create cns d sps h = Ok m -> Crd.MName (km_manifest m) = LidNS (cd_lid d).
Proof.
  unfold manifest_Create, NewManifest. destruct (negb _); [done|]. destruct (manifestGroupToCRD _ _ _) as [[h' g]|e]; [|done].
  by intros [= <-].
Qed.

Lemma manifest_Update_name d sps h o m :
  manifest_Update cns d sps h o = Ok m -> Crd.MName (km_manifest m) = Crd.MName (km_manifest o).
Proof. unfold manifest_Update. destruct (NewManifest _ _ _ _ _) as [[h' g]|e]; [|done]. by intros [= <-]. Qed.

Lemma contained_write d sps h : cd_lid d = lid -> P (KdManifest, cns, LidNS lid) -> contained (write_manifest cns d sps h).
Proof.
  intros Hl Hkey st Hp. pose proof Hp as (Hn & Ho & Hm). unfold write_manifest.
  destruct (po_omani st.2) as [[old v]|] eqn:Eo.
  - destruct (manifest_Update cns d sps h old) as [new|e] eqn:Eu; [|split; [apply only_refl|done]].
    apply manifest_Update_name in Eu. rewrite (Hm old v eq_refl) in Eu.
    destruct (check_rename old new) as [[]|e]; [|split; [apply only_refl|exact Hp]].
    destruct (decide (new = old)); [split; [apply only_refl|exact Hp]|].
    pose proof (wrote_only P _ _ _ _ (k_Update_wrote st.1 cns (OManifest new) (Some v))) as Hw.
    simpl in Hw. rewrite Eu in Hw. specialize (Hw Hkey).
    destruct (k_Update st.1 cns (OManifest new) (Some v)) as [w1 [ov|e]]; split; [done|exact Hp|done|exact Hp].
  - destruct (manifest_Create cns d sps h) as [new|e] eqn:Eu; [|split; [apply only_refl|done]].
    apply manifest_Create_name in Eu. rewrite Hl in Eu.
    pose proof (wrote_only P _ _ _ _ (k_Create_wrote st.1 cns (OManifest new))) as Hw.
    simpl in Hw. rewrite Eu in Hw. specialize (Hw Hkey).
    destruct (k_Create st.1 cns (OManifest new)) as [w1 [ov|e]]; split; [done|exact Hp|done|exact Hp].
Qed.

Lemma build_services_deployment st d m i ss dss :
  build_services st d m i ss = Ok dss -> Forall (fun ds => wl_deployment (ds_workload ds) = d) dss.
Proof.
  revert i dss. induction ss as [|s ss IH]; intros i dss; simpl; [intros [= <-]; constructor|].
  destruct m as [m|]; [|done]. destruct (NewWorkloadBuilder st d (km_manifest m) i) as [b|e] eqn:E; [|done].
  destruct (build_services st d (Some m) (S i) ss) as [dss'|e] eqn:Er; simpl; [|done]. intros [= <-].
  constructor; [|by eapply IH]. unfold NewWorkloadBuilder in E. destruct (group_FromCRD _) as [[g sp]|e]; [|done].
  destruct (Mani.Services g !! i), (sp !! i), (Mani.Services (cd_group d) !! i); try done. by simplify_eq/=.
Qed.

Lemma with_version_lid d m d' : with_version d m = Ok d' ->
  cd_lid d' = cd_lid d /\ cd_group d' = cd_group d.
Proof. unfold with_version. destruct (String.eqb _ ""), m as [[m v]|]; try done; by intros [= <-]. Qed.

Lemma prepare_spec st d (s : W * previousObj) d' dss : prepare st d s = Ok (d', dss) ->
  cd_lid d' = cd_lid d /\ cd_group d' = cd_group d /\ with_version d (currManifest s.2) = Ok d' /\
  build_services st d' (fst <$> currManifest s.2) 0 (Mani.Services (cd_group d)) = Ok dss.
Proof.
  unfold prepare. destruct (with_version d _) as [d1|e] eqn:Ev; simpl; [|done].
  pose proof (with_version_lid _ _ _ Ev) as [Hl Hg]. rewrite Hg.
  destruct (build_services _ _ _ _ _) as [dss1|e] eqn:Eb; simpl; [|done]. intros [= <- <-]. done.
Qed.

Lemma contained_all st d dss : cd_lid d = lid -> Forall (fun ds => wl_deployment (ds_workload ds) = d) dss ->
  contained (apply_all st d dss).
Proof.
  intros Hl Hd. unfold apply_all. repeat (apply contained_bind; [|intros _]);
    [by apply contained_namespace|by apply contained_netpol|by apply contained_clean|apply contained_list..|].
  apply contained_each. intros ds Hin. apply contained_service. rewrite list.Forall_forall in Hd. by rewrite (Hd ds Hin).
Qed.

Lemma contained_prepared st d : cd_lid d = lid -> contained (apply_prepared st d).
Proof.
  intros Hl s Hp. unfold apply_prepared, dbind. simpl.
  destruct (prepare st d s) as [[d' dss]|e] eqn:E; [|split; [apply only_refl|done]].
  apply prepare_spec in E as (Hl' & _ & _ & Hb). simpl. apply contained_all; [congruence| |done].
  by eapply build_services_deployment.
Qed.

Lemma contained_settle d sps h : cd_lid d = lid -> P (KdManifest, cns, LidNS lid) -> contained (settle_manifest cns d sps h).
Proof.
  intros Hl Hkey. apply contained_bind; [by apply contained_get|intros _]. by apply contained_when, contained_write.
Qed.

Lemma contained_body st d sps h : cd_lid d = lid -> P (KdManifest, cns, LidNS lid) -> contained (deploy_body st cns d sps h).
Proof.
  intros Hl Hkey. apply contained_bind; [by apply contained_settle|intros _]. by apply contained_prepared.
Qed.

Lemma recover_objects_only w po : po_fits po -> only (in_lease (LidNS lid)) w (recover_objects w (LidNS lid) po).1.
Proof.
  intros (Hn & Ho & _). unfold recover_objects.
  assert (forall kd n, in_lease (LidNS lid) (kd, LidNS lid, n)) as Hin by (intros; by left).
  assert (forall ov r, object_kind ov.1 = KdNamespace -> object_name ov.1 = LidNS lid ->
    only (in_lease (LidNS lid)) r.1 (delete_back KdNamespace "" [ov] r).1) as Hdel.
  { intros ov r Hk Hnm k Hout. unfold delete_back. simpl. rewrite Hnm. apply k_Delete_frame. intros [-> |(_ & Hkn & _)];
      apply Hout; [by right|by left]. }
  set (r0 := (w, [])). change w with r0.1 at 1.
  match goal with |- only _ _ (match _ with Some _ => _ | None => ?r end).1 => apply (only_trans _ _ r.1 _) end;
    [|destruct (ap_old (po_ns po)) as [[o v]|] eqn:E; [|apply only_refl];
      destruct (Ho o v eq_refl) as [Hk Hnm]; apply restore_one_only; simpl; rewrite Hk, Hnm; by right].
  match goal with |- only _ _ (match _ with Some _ => _ | None => ?r end).1 => apply (only_trans _ _ r.1 _) end;
    [|destruct (ap_new (po_ns po)) as [[o v]|] eqn:E; [|apply only_refl];
      destruct (Hn o v eq_refl) as [Hk Hnm]; by apply Hdel].
  repeat first [by apply delete_back_only|by apply restore_back_only
    |eapply only_trans; [|first [by apply delete_back_only|by apply restore_back_only]]].
Qed.

Lemma recover_only w po : po_fits po -> only of_lease w (recover w cns (LidNS lid) po).1.
Proof.
  intros Hp. eapply (only_trans _ _ (recover_objects w (LidNS lid) po).1);
    [eapply only_weaken; [|by apply recover_objects_only]; by left|].
  unfold recover. destruct Hp as (_ & _ & Hm). destruct (po_omani po) as [[m v]|] eqn:E; [|apply only_refl].
  apply restore_one_only. simpl. rewrite (Hm m v eq_refl). by right.
Qed.

End Lease.

Lemma LidNS_nonempty `{!LeaseHashLaws} lid : LidNS lid <> ""%string.
Proof.
  unfold LidNS, LeaseIDToNamespace. destruct (lease_sha224_bytes lid) as [_ Hlen].
  destruct (lease_sha224 lid) as [|b l]; [done|]. unfold base32hex. simpl. by destruct (byte_bits b) as [|? [|? [|? [|? [|? ?]]]]] eqn:E.
Qed.

Lemma deploy_plan_lid w cfg h d st sps cd :
  deploy_plan w cfg h d = Ok (st, sps, cd) -> cd_lid cd = i_lid d /\ cd_group cd = i_group d.
Proof.
  unfold deploy_plan, cluster_deployment. destruct cfg as [cs|]; [|done].
  destruct (ValidateSettings cs); simpl; [|done]. destruct (params_of d) as [[sps' u]|]; simpl; [|done].
  destruct (validate _ _); simpl; [|done]. destruct (with_networks _ _ _); simpl; [|done]. by intros [= <- <- <-].
Qed.

Lemma no_previous_fits lid : po_fits lid no_previous.
Proof. by split_and!. Qed.

Lemma deploy_only `{!LeaseHashLaws} w cfg cns h d : only (of_lease cns (i_lid d)) w (Deploy w cfg cns h d).1.
Proof.
  unfold Deploy. destruct (deploy_plan w cfg h d) as [[[st sps] cd]|e] eqn:E; [|apply only_refl].
  apply deploy_plan_lid in E as [Hl _].
  destruct (contained_body cns (i_lid d) (LidNS_nonempty _) (of_lease cns (i_lid d)) ltac:(by left) st cd sps h Hl
    ltac:(by right) (w, no_previous) (no_previous_fits _)) as [Ho Hp].
  destruct (deploy_body st cns cd sps h (w, no_previous)) as [[w1 po] [[]|e]]; simpl in *; [done|].
  eapply only_trans; [exact Ho|]. rewrite Hl. by apply recover_only.
Qed.

(** C4: deploying a lease, whether it succeeds, fails half-way or is rolled back, leaves every
    object of every other lease as it was: its namespace, all that is in it, and its manifest. *)
Theorem deploy_isolated `{!LeaseHashLaws} (w : W) (cfg : option ClientSettings) (cns : string) (h : sched_heap)
    (d : IDeployment) (other : LeaseID) (k : okey) :
  other <> i_lid d -> no_collision (i_lid d) other -> cns <> LidNS (i_lid d) -> cns <> LidNS other ->
  of_lease cns other k -> objects (Deploy w cfg cns h d).1 !! k = objects w !! k.
Proof.
  intros Hne Hno Hc1 Hc2 Hk. apply (deploy_only w cfg cns h d).
  assert (LidNS (i_lid d) <> LidNS other) as Hd by (intros Heq; by apply LidNS_inj in Heq).
  pose proof (LidNS_nonempty (i_lid d)). pose proof (LidNS_nonempty other).
  unfold of_lease, in_lease in *. destruct k as [[kd ns] n]. simpl in *.
  intros [[Ha|Ha]|Ha]; destruct Hk as [[Hb|Hb]|Hb]; simplify_eq; congruence.
Qed.

End Contained.

(** ** The services a lease keeps *)

Section Names.
Context {W : Type} `{HC : Cluster W} `{HL : !ClusterLaws W} `{HA : !Attachments W} `{HP : ServiceProtocolAPI} `{HS : !SDK}
  `{HB : Bech32} `{HH : LeaseHash} `{HHL : !LeaseHashLaws} `{HD : DomainNames}.

Lemma names_left_spec curr names rest :
  names_left curr names = Ok rest -> NoDup names /\ (forall n, n ∈ names -> n ∈ curr) /\ rest = curr ∖ list_to_set names.
Proof.
  revert curr. induction names as [|n names IH]; intros curr; simpl.
  - intros [= <-]. split_and!; [constructor|set_solver|set_solver].
  - destruct (decide (n ∈ curr)) as [Hin|]; [|done]. intros E. apply IH in E as (Hnd & Hsub & ->). split_and!.
    + constructor; [|done]. intros Hn. apply Hsub in Hn. set_solver.
    + intros x Hx. apply elem_of_cons in Hx as [-> |Hx]; [done|]. apply Hsub in Hx. set_solver.
    + set_solver.
Qed.

Lemma check_rename_spec old new :
  check_rename old new = Ok tt ->
  NoDup (manifest_names new) /\ forall n, n ∈ manifest_names new <-> n ∈ manifest_names old.
Proof.
  unfold check_rename. destruct (names_left _ _) as [rest|e] eqn:E; simpl; [|done].
  apply names_left_spec in E as (Hnd & Hsub & ->). destruct (decide _) as [He|]; [|done]. intros _. split; [done|].
  intros n. split; intros Hn; [apply Hsub in Hn; by apply elem_of_list_to_set in Hn|].
  destruct (decide (n ∈ manifest_names new)) as [|Hnew]; [done|]. exfalso.
  apply (not_elem_of_empty (C := gset string) n). rewrite <- He. apply elem_of_difference.
  split; by rewrite elem_of_list_to_set.
Qed.

(** *** The manifest found is not lost *)

Definition same_omani {A} (m : deploy A) : Prop := forall st : W * previousObj, po_omani (m st).1.2 = po_omani st.2.

Lemma same_bind {A B} (m : deploy A) (k : A -> deploy B) : same_omani m -> (forall a, same_omani (k a)) -> same_omani (dbind m k).
Proof.
  intros Hm Hk st. unfold dbind. specialize (Hm st). destruct (m st).2 as [a|e]; [|done]. by rewrite (Hk a).
Qed.

Lemma same_when c m : same_omani m -> same_omani (dwhen c m).
Proof. by destruct c. Qed.

Lemma same_apply s f : same_omani (dapply s f).
Proof. intros st. unfold dapply. by destruct (f st.1).2. Qed.

Lemma same_service ds : same_omani (apply_service ds).
Proof.
  unfold apply_service. repeat (apply same_bind; [|intros _]); try (apply same_when, same_apply).
  destruct (ds_credentials ds); [apply same_apply|done].
Qed.

Lemma apply_prepared_omani st d : same_omani (apply_prepared st d).
Proof.
  apply same_bind; [done|]. intros [d' dss]. unfold apply_all. repeat (apply same_bind; [|intros _]); try done.
  - intros s. unfold apply_netpol. by destruct (applyNetPolicies s.1 st _) as [[w [[n u] o]] err].
  - simpl. induction dss as [|ds dss IH]; [done|]. simpl. apply same_bind; [apply same_service|done].
Qed.

Section Stored.
Context (cns : string) (lid : LeaseID) (Hcns : cns <> LidNS lid) (old : KManifest).

(** A manifest with the names of the services of [old] is stored. *)
Definition names_kept (w : W) : Prop :=
  exists m v, objects w !! (KdManifest, cns, LidNS lid) = Some (OManifest m, v) /\
    forall n, n ∈ manifest_names m <-> n ∈ manifest_names old.

Definition omani_kept (po : previousObj) : Prop :=
  forall m v, po_omani po = Some (m, v) ->
    Crd.MName (km_manifest m) = LidNS lid /\ forall n, n ∈ manifest_names m <-> n ∈ manifest_names old.

Lemma names_kept_frame w w' : only (in_lease (LidNS lid)) w w' -> names_kept w -> names_kept w'.
Proof.
  intros Ho (m & v & Hl & Hn). exists m, v. split; [|done]. rewrite Ho; [done|].
  intros [Hk|Hk]; simpl in Hk; [done|congruence].
Qed.

Lemma names_kept_update w m v : names_kept w -> Crd.MName (km_manifest m) = LidNS lid ->
  (forall n, n ∈ manifest_names m <-> n ∈ manifest_names old) -> names_kept (k_Update w cns (OManifest m) v).1.
Proof.
  intros Hk Hnm Hn. pose proof (k_Update_wrote w cns (OManifest m) v) as Hw. unfold wrote in Hw. simpl in Hw. rewrite Hnm in Hw.
  assert (forall ov : object * string, ov.1 = OManifest m -> objects (k_Update w cns (OManifest m) v).1 =
    <[(KdManifest, cns, LidNS lid) := ov]> (objects w) -> names_kept (k_Update w cns (OManifest m) v).1) as Hins.
  { intros [o v'] Heq Ho. simpl in Heq. subst o. exists m, v'. rewrite Ho, lookup_insert_eq. done. }
  destruct (k_Update w cns (OManifest m) v).2 as [ov|e].
  - destruct Hw as [Hs Ho]. eapply Hins; [|exact Ho]. exact Hs.
  - destruct Hw as [Ho|(ov & Hs & Ho)]; [|by eapply Hins]. unfold names_kept. by rewrite Ho.
Qed.

(** The part of a deploy that reads and writes the manifest. *)
Lemma settle_manifest_keeps d sps h w :
  cd_lid d = lid -> names_kept w ->
  let r := settle_manifest cns d sps h (w, no_previous) in
  names_kept r.1.1 /\ omani_kept r.1.2.
Proof.
  intros Hl Hk. unfold settle_manifest, dbind, get_manifest. rewrite Hl. simpl.
  destruct (k_Get w KdManifest cns (LidNS lid)) as [[o v]|e] eqn:Eg; simpl.
  - apply k_Get_ok in Eg as (Hs & _ & Hnm). pose proof Hk as (m & v' & Hs' & Hn). rewrite Hs in Hs'.
    injection Hs' as -> ->. simpl in Hnm. assert (omani_kept (set_omani (Some (m, v')) no_previous)) as Hom.
    { intros m' v''. simpl. intros [= <- <-]. done. }
    destruct (cd_update d); [|done]. simpl. unfold write_manifest. simpl.
    destruct (manifest_Update cns d sps h m) as [new|e] eqn:Eu; [|done]. apply manifest_Update_name in Eu.
    destruct (check_rename m new) as [[]|e] eqn:Er; [|done]. apply check_rename_spec in Er as [_ Hnew].
    destruct (decide (new = m)); [done|].
    assert (names_kept (k_Update w cns (OManifest new) (Some v')).1) as Hu.
    { apply names_kept_update; [done|congruence|]. intros n'. by rewrite Hnew. }
    destruct (k_Update w cns (OManifest new) (Some v')) as [w1 [ov|e]]; done.
  - destruct (IsNotFound e) eqn:En; [|done].
    destruct Hk as (m & v & Hs & _). 
    apply (k_Get_missing _ _ _ _ _ Eg) in En. congruence.
Qed.

Lemma restore_manifest_keeps po (r : W * list kube_error) :
  omani_kept po -> names_kept r.1 ->
  names_kept (match po_omani po with Some (m, v) => restore_one cns (OManifest m, v) r | None => r end).1.
Proof.
  intros Hom Hk. destruct (po_omani po) as [[m v]|] eqn:E; [|done]. destruct (Hom m v E) as [Hnm Hn].
  by apply names_kept_update.
Qed.

Lemma deploy_body_keeps st d sps h w :
  cd_lid d = lid -> names_kept w ->
  let r := deploy_body st cns d sps h (w, no_previous) in names_kept r.1.1 /\ omani_kept r.1.2 /\ po_fits lid r.1.2.
Proof.
  intros Hl Hk r. assert (po_fits lid r.1.2) as Hp.
  { eapply (contained_body cns lid (LidNS_nonempty lid) (of_lease cns lid)); [by left|done|by right|apply no_previous_fits]. }
  split; [|split]; [| |exact Hp]; subst r; unfold deploy_body, dbind in *;
    destruct (settle_manifest_keeps d sps h w Hl Hk) as [Hk1 Hom];
    destruct (settle_manifest cns d sps h (w, no_previous)) as [s1 [[]|e]] eqn:Es; simpl in *; try done.
  - eapply names_kept_frame; [|exact Hk1]. eapply (contained_prepared lid (LidNS_nonempty lid)); [done..|].
    pose proof (contained_settle cns lid (of_lease cns lid) d sps h Hl ltac:(by right) (w, no_previous)
      (no_previous_fits lid)) as [_ Hf]. by rewrite Es in Hf.
  - intros m v. rewrite apply_prepared_omani. apply Hom.
Qed.

End Stored.

(** C26: whatever comes of deploying an update of a lease, the manifest stored afterwards names
    the services it named before: none is added, removed or renamed. *)
Theorem deploy_keeps_services (w : W) (cfg : option ClientSettings) (cns : string) (h : sched_heap) (d : IDeployment)
    (old : KManifest) (v : string) :
  cns <> LidNS (i_lid d) -> objects w !! (KdManifest, cns, LidNS (i_lid d)) = Some (OManifest old, v) ->
  exists new v', objects (Deploy w cfg cns h d).1 !! (KdManifest, cns, LidNS (i_lid d)) = Some (OManifest new, v') /\
    forall n, n ∈ manifest_names new <-> n ∈ manifest_names old.
Proof.
  intros Hcns Hold. assert (names_kept cns (i_lid d) old w) as Hk by (exists old, v; done).
  unfold Deploy. destruct (deploy_plan w cfg h d) as [[[st sps] cd]|e] eqn:E; [|exact Hk].
  apply deploy_plan_lid in E as [Hl _].
  destruct (deploy_body_keeps cns (i_lid d) Hcns old st cd sps h w Hl Hk) as (Hk1 & Hom & Hp).
  destruct (deploy_body st cns cd sps h (w, no_previous)) as [[w1 po] [[]|e]]; simpl in *; [exact Hk1|].
  rewrite Hl. apply restore_manifest_keeps; [done|]. eapply names_kept_frame; [done| |exact Hk1].
  by apply recover_objects_only.
Qed.

End Names.

(** ** What a deploy leaves running *)

Section Running.
Context {W : Type} `{HC : Cluster W} `{HL : !ClusterLaws W} `{HA : !Attachments W} `{HP : ServiceProtocolAPI} `{HS : !SDK}
  `{HB : Bech32} `{HH : LeaseHash} `{HHL : !LeaseHashLaws} `{HD : DomainNames}.

Lemma applyStatefulSet_ok (w : W) b w' a :
  applyStatefulSet w b = (w', a, None) ->
  exists o v cur, objects w' !! (KdStatefulSet, wl_ns b, wl_name b) = Some (OStatefulSet o, v) /\
    pod_template b cur = Some (ks_template o) /\ ks_replicas o = replicas b.
Proof.
  intros E. destruct (statefulSet_built b) as [Hc Hu].
  apply apply_object_ok in E as ([ob v] & Hl & [(n & En & Hs)|(o & v0 & u & _ & Eu & Hch)]); [| |done..].
  - destruct (statefulSet_Create b) as [o|e] eqn:Ec; simpl in En; [|done]. injection En as <-. simpl in Hs. subst ob.
    exists o, v, ∅. split; [done|]. apply statefulSet_Create_inv in Ec as Ht. destruct Ht as (t & Ht & <- & _). split; [done|].
    revert Ec. unfold statefulSet_Create. rewrite Ht. simpl. by intros [= <-].
  - destruct o; try done. simpl in Eu. destruct (statefulSet_Update b o) as [o'|e] eqn:Ec; simpl in Eu; [|done].
    injection Eu as <-. destruct Hch as [[_ Hs]|[Hch _]].
    + simpl in Hs. subst ob. exists o', v, (pt_labels (ks_template o)). split; [done|].
      apply statefulSet_Update_inv in Ec as Ht. destruct Ht as (t & Ht & <- & _). split; [done|].
      revert Ec. unfold statefulSet_Update. rewrite Ht. simpl. by intros [= <-].
    + exfalso. assert (ks_labels o' = updateAkashLabels (ks_labels o) (wl_labels b)) as Hlab.
      { revert Ec. unfold statefulSet_Update. destruct (pod_template b _); simpl; [|done]. by intros [= <-]. }
      simpl in Hch. by rewrite Hlab, updated_is_latest in Hch.
Qed.

Lemma applyRole_ok (w : W) b w' a :
  applyRole w b = (w', a, None) ->
  exists o v, objects w' !! (KdRole, wl_ns b, wl_name b) = Some (ORole o, v) /\ ro_rules o = buildPolicyRules b.
Proof.
  intros E. destruct (role_built b) as [Hc Hu].
  apply apply_object_ok in E as ([ob v] & Hl & [(n & [= <-] & Hs)|(o & v0 & u & _ & Eu & Hch)]); [| |done..].
  - simpl in Hs. subst ob. by exists (role_Create b), v.
  - destruct o; try done. injection Eu as <-. destruct Hch as [[_ Hs]|[Hch Heq]].
    + simpl in Hs. subst ob. by exists (role_Update b o), v.
    + injection Heq as -> ->. exists o, v0. split; [done|]. apply orb_false_iff in Hch as [Hch _].
      apply orb_false_iff in Hch as [_ Hr]. simpl in Hr. apply negb_false_iff, bool_decide_eq_true in Hr. done.
Qed.

(** A deployment with the pods and the number of replicas of a workload. *)
Definition built (b : Workload) (o : KDeployment) : Prop :=
  (exists cur, pod_template b cur = Some (kd_template o)) /\ kd_replicas o = replicas b.

(** The API server refused the update of the deployment [o0] it had to one that is built, and
    [o] is [o0] with nothing but the patch that follows the update. *)
Definition update_refused (b : Workload) (o : KDeployment) : Prop :=
  exists (w0 w1 : W) o0 v0 u e limit,
    objects w0 !! (KdDeployment, wl_ns b, wl_name b) = Some (ODeployment o0, v0) /\
    deployment_Update b o0 = Ok u /\ built b u /\
    k_Update w0 (wl_ns b) (ODeployment u) (Some v0) = (w1, Err e) /\ objects w1 = objects w0 /\
    o = patched limit (RollingUpdate 1 0) o0.

Lemma deployment_Update_built b o u : deployment_Update b o = Ok u -> built b u.
Proof.
  unfold deployment_Update. destruct (pod_template b _) as [t|] eqn:E; simpl; [|done]. intros [= <-]. split; [by eexists|done].
Qed.

Lemma deployment_Create_built b o : deployment_Create b = Ok o -> built b o.
Proof.
  unfold deployment_Create. destruct (pod_template b _) as [t|] eqn:E; simpl; [|done]. intros [= <-]. split; [by eexists|done].
Qed.

Lemma patch_deployment_ok (w w' : W) ns (o : KDeployment) upd a :
  patch_deployment w ns o upd = (w', a, None) ->
  exists o1 v1 limit v, objects w !! (KdDeployment, ns, kd_name o) = Some (ODeployment o1, v1) /\
    objects w' !! (KdDeployment, ns, kd_name o) = Some (ODeployment (patched limit (RollingUpdate 1 0) o1), v).
Proof.
  unfold patch_deployment. intros Ep.
  match type of Ep with context [k_PatchDeployment ?w1 ?ns ?n ?l ?st] =>
    pose proof (k_Patch_wrote w1 ns n l st) as Hw; destruct (k_PatchDeployment w1 ns n l st) as [w2 [pv|e]] end;
    simplify_eq/=. apply wrote_ok with (ov := pv) in Hw as [(o1 & v1 & Ho & Hp) Hl]; [|done]. simpl in Hl.
  destruct pv as [o2 v2]. simpl in Hp. subst o2. eexists _, _, _, _. split; [exact Ho|exact Hl].
Qed.

Lemma applyDeployment_ok (w : W) b w' a :
  applyDeployment w b = (w', a, None) ->
  exists o v, objects w' !! (KdDeployment, wl_ns b, wl_name b) = Some (ODeployment o, v) /\ (built b o \/ update_refused b o).
Proof.
  unfold applyDeployment. intros E. destruct (k_Get w KdDeployment (wl_ns b) (wl_name b)) as [[o v]|e] eqn:Hg.
  - apply k_Get_ok in Hg as (Hst & Hk & Hn). destruct o as [| | |o| | | | | |]; try done. simpl in Hn.
    destruct (deployment_Update b o) as [u|e] eqn:Hu; [|done]. pose proof (deployment_Update_built _ _ _ Hu) as Hb.
    assert (kd_name u = wl_name b) as Hun by (by rewrite (deployment_Update_name _ _ _ Hu)).
    assert (kd_labels u = updateAkashLabels (kd_labels o) (wl_labels b)) as Hlab.
    { revert Hu. unfold deployment_Update. destruct (pod_template b _); simpl; [|done]. by intros [= <-]. }
    rewrite Hlab, updated_is_latest in E. cbn [orb] in E.
    pose proof (k_Update_wrote w (wl_ns b) (ODeployment u) (Some v)) as Hw. simpl in Hw. rewrite Hun in Hw.
    destruct (k_Update w (wl_ns b) (ODeployment u) (Some v)) as [w1 res] eqn:Eu. simpl in E.
    apply patch_deployment_ok in E as (o1 & v1 & limit & v2 & H1 & H2). rewrite Hn in *. eexists _, _. split; [exact H2|].
    assert ((exists ov, served (ODeployment u) ov.1 /\ objects w1 = <[(KdDeployment, wl_ns b, wl_name b) := ov]> (objects w)) ->
      built b (patched limit (RollingUpdate 1 0) o1)) as Hdone.
    { intros ([o2 v3] & Hs & Hx). simpl in Hs. subst o2. rewrite Hx, lookup_insert_eq in H1. by injection H1 as <- <-. }
    unfold wrote in Hw. simpl in Hw. destruct res as [ov|e].
    + left. apply Hdone. by exists ov.
    + destruct Hw as [Hx|Hx]; [|left; by apply Hdone]. right. rewrite Hx, Hst in H1. injection H1 as <- <-.
      by exists w, w1, o, v, u, e, limit.
  - destruct (IsNotFound e); [|done]. unfold create_applied in E.
    destruct (deployment_Create b) as [o|e'] eqn:Ec; simpl in E; [|done]. pose proof (deployment_Create_built _ _ Ec) as Hb.
    apply deployment_Create_name in Ec.
    pose proof (k_Create_wrote w (wl_ns b) (ODeployment o)) as Hw. simpl in Hw. rewrite Ec in Hw.
    destruct (k_Create w (wl_ns b) (ODeployment o)) as [w2 [[o2 v2]|e2]]; simplify_eq/=.
    apply wrote_ok with (ov := (o2, v2)) in Hw as [Hs Hl]; [|done]. simpl in *. subst o2. eexists _, _. split; [exact Hl|by left].
Qed.

(** The workload of a service is there with its pods, and the role it is given; the deployment of a
    service without persistent storage may be the one that was there, when its update was
    refused. *)
Definition running (w : W) (ds : deploymentService) : Prop :=
  let b := ds_workload ds in
  (if ds_persistent ds then
     exists o v cur, objects w !! (KdStatefulSet, wl_ns b, wl_name b) = Some (OStatefulSet o, v) /\
       pod_template b cur = Some (ks_template o) /\ ks_replicas o = replicas b
   else exists o v, objects w !! (KdDeployment, wl_ns b, wl_name b) = Some (ODeployment o, v) /\
       (built b o \/ update_refused b o)) /\
  (ds_access ds = true ->
     exists o v, objects w !! (KdRole, wl_ns b, wl_name b) = Some (ORole o, v) /\ ro_rules o = buildPolicyRules b).

(** What the steps for a workload may touch. *)
Definition of_workload (b : Workload) (k : okey) : Prop :=
  k.1.2 = wl_ns b /\ (k.1.1 = KdSecret \/ k.1.1 = KdService \/ k.2 = wl_name b).

Definition touching {A} (P : okey -> Prop) (m : deploy A) : Prop := forall st : W * previousObj, only P st.1 (m st).1.1.

Lemma touching_ret {A} P (a : A) : touching P (dret a).
Proof. intros st. apply only_refl. Qed.

Lemma touching_bind {A B} P (m : deploy A) (k : A -> deploy B) : touching P m -> (forall a, touching P (k a)) -> touching P (dbind m k).
Proof.
  intros Hm Hk st. unfold dbind. specialize (Hm st). destruct (m st).2 as [a|e]; [|done]. eapply only_trans; [exact Hm|apply Hk].
Qed.

Lemma touching_when P c m : touching P m -> touching P (dwhen c m).
Proof. destruct c; [done|intros _; apply touching_ret]. Qed.

Lemma touching_apply (P : okey -> Prop) s (f : W -> W * applied * option apply_error) :
  (forall w w' a err, f w = (w', a, err) -> only P w w') -> touching P (dapply s f).
Proof.
  intros Hf st. unfold dapply. destruct (f st.1) as [[w' a] err] eqn:E. pose proof (Hf _ _ _ _ E). by destruct err.
Qed.

Lemma touching_run {A} P (m : deploy A) (st st' : W * previousObj) r : m st = (st', r) -> touching P m -> only P st.1 st'.1.
Proof. intros E Ht. specialize (Ht st). by rewrite E in Ht. Qed.

(** A success of two steps is one of each. *)
Lemma dbind_ok {A B} (m : deploy A) (k : A -> deploy B) (st : W * previousObj) st' b :
  dbind m k st = (st', Ok b) -> exists a st1, m st = (st1, Ok a) /\ k a st1 = (st', Ok b).
Proof. unfold dbind. destruct (m st) as [st1 [a|e]]; simpl; [|done]. intros E. by exists a, st1. Qed.

Lemma dapply_ok s (f : W -> W * applied * option apply_error) (st st' : W * previousObj) :
  dapply s f st = (st', Ok tt) -> exists a, f st.1 = (st'.1, a, None).
Proof. unfold dapply. destruct (f st.1) as [[w a] [e|]]; simpl; [done|]. intros [= <-]. by exists a. Qed.

Lemma dwhen_ok c m (st st' : W * previousObj) : dwhen c m st = (st', Ok tt) -> c = true -> m st = (st', Ok tt).
Proof. by intros E ->. Qed.

(** The steps that are left touch only keys of [P]. *)
Ltac touch :=
  repeat (apply touching_bind; [|intros _]); try apply touching_when;
  try (match goal with |- touching _ (match ?c with Some _ => _ | None => _ end) => destruct c; [|apply touching_ret] end);
  apply touching_apply; let Ea := fresh in intros ? ? ? ? Ea; apply_only Ea.

Lemma apply_service_touching ds : touching (of_workload (ds_workload ds)) (apply_service ds).
Proof. unfold apply_service. touch; (split; [done|]); simpl; tauto. Qed.

Lemma apply_service_running ds (st st' : W * previousObj) : apply_service ds st = (st', Ok tt) -> running st'.1 ds.
Proof.
  unfold apply_service. set (b := ds_workload ds). intros E.
  apply dbind_ok in E as ([] & s1 & _ & E). apply dbind_ok in E as ([] & s2 & Erole & E).
  assert (only (fun k => k.1.1 <> KdRole) s2.1 st'.1) as Fr.
  { apply (touching_run _ _ _ _ _ E). touch; done. }
  split; [|intros Ha; apply (dwhen_ok _ _ _ _ Erole), dapply_ok in Ha as (a & Ea);
    apply applyRole_ok in Ea as (o & v & Hl & Hr); exists o, v; split; [rewrite Fr; [done|simpl; tauto]|done]].
  apply dbind_ok in E as ([] & s3 & _ & E). apply dbind_ok in E as ([] & s4 & _ & E).
  apply dbind_ok in E as ([] & s5 & Eset & E). destruct (ds_persistent ds) eqn:Ep.
  - assert (only (fun k => k.1.1 <> KdStatefulSet) s5.1 st'.1) as Fs.
    { apply (touching_run _ _ _ _ _ E). touch; done. }
    apply dapply_ok in Eset as (a & Ea). apply applyStatefulSet_ok in Ea as (o & v & cur & Hl & Ht & Hr).
    exists o, v, cur. split; [rewrite Fs; [done|simpl; tauto]|done].
  - apply dbind_ok in E as ([] & s6 & Edep & E).
    assert (only (fun k => k.1.1 <> KdDeployment) s6.1 st'.1) as Fs.
    { apply (touching_run _ _ _ _ _ E). touch; done. }
    apply dapply_ok in Edep as (a & Ea). apply applyDeployment_ok in Ea as (o & v & Hl & Hb).
    exists o, v. split; [rewrite Fs; [done|simpl; tauto]|exact Hb].
Qed.

Lemma running_frame (P : okey -> Prop) (w w' : W) ds :
  only P w w' -> (forall kd, P (kd, wl_ns (ds_workload ds), wl_name (ds_workload ds)) -> kd = KdSecret \/ kd = KdService) ->
  running w ds -> running w' ds.
Proof.
  intros Ho Hp [Hr Ha]. assert (forall kd, kd <> KdSecret -> kd <> KdService ->
    objects w' !! (kd, wl_ns (ds_workload ds), wl_name (ds_workload ds)) =
    objects w !! (kd, wl_ns (ds_workload ds), wl_name (ds_workload ds))) as Hf.
  { intros kd H1 H2. apply Ho. intros Hk. destruct (Hp kd Hk); done. }
  unfold running. rewrite !Hf by done. done.
Qed.

Lemma all_running dss (st st' : W * previousObj) :
  deach apply_service dss st = (st', Ok tt) -> NoDup ((fun ds => wl_name (ds_workload ds)) <$> dss) ->
  Forall (running st'.1) dss.
Proof.
  revert st. induction dss as [|ds dss IH]; intros st E Hnd; [constructor|]. simpl in *.
  apply list.NoDup_cons in Hnd as [Hnew Hnd]. apply dbind_ok in E as ([] & s1 & E1 & E2).
  constructor; [|by eapply IH]. apply apply_service_running in E1.
  eapply (running_frame (fun k => exists ds', ds' ∈ dss /\ of_workload (ds_workload ds') k)); [| |exact E1].
  - apply (touching_run _ _ _ _ _ E2). clear -HL. induction dss as [|d' dss IH]; simpl; [apply touching_ret|].
    apply touching_bind; [|intros _].
    + intros st. eapply only_weaken; [|apply apply_service_touching]. intros k Hk. exists d'. split; [apply list_elem_of_here|done].
    + intros st. eapply only_weaken; [|apply IH]. intros k (x & Hx & Hk). exists x. split; [by apply list_elem_of_further|done].
  - intros kd (ds' & Hin & _ & [Hk|[Hk|Hk]]); simpl in Hk; [by left|by right|]. exfalso. apply Hnew.
    rewrite Hk. apply list_elem_of_fmap. by exists ds'.
Qed.

Lemma build_services_lookup st d m i ss dss j svc :
  build_services st d m i ss = Ok dss -> (forall k, ss !! k = Mani.Services (cd_group d) !! (i + k)%nat) -> ss !! j = Some svc ->
  exists m' b, m = Some m' /\ NewWorkloadBuilder st d (km_manifest m') (i + j) = Ok b /\ wl_own b = svc /\
    dss !! j = Some (service_of b svc).
Proof.
  revert i dss j. induction ss as [|s ss IH]; intros i dss j E Hss Hj; [done|]. simpl in E.
  destruct m as [m|]; [|done]. destruct (NewWorkloadBuilder st d (km_manifest m) i) as [b|e] eqn:Eb; [|done].
  destruct (build_services st d (Some m) (S i) ss) as [rest|e] eqn:Er; simpl in E; [|done]. injection E as <-.
  destruct j as [|j]; simpl in *.
  - injection Hj as ->. exists m, b. rewrite Nat.add_0_r. split_and!; [done|done| |done].
    specialize (Hss 0%nat). simpl in Hss. rewrite Nat.add_0_r in Hss. unfold NewWorkloadBuilder in Eb.
    destruct (group_FromCRD _) as [[g sp]|e]; [|done]. rewrite <- Hss in Eb.
    destruct (Mani.Services g !! i), (sp !! i); try done. by simplify_eq/=.
  - destruct (IH (S i) rest j Er) as (m' & b' & Hm & Hb & Ho & Hl); [|done|].
    + intros k. specialize (Hss (S k)). simpl in Hss. rewrite Hss. f_equal. lia.
    + exists m', b'. split_and!; [done| |done|done]. by rewrite <- Hb, Nat.add_succ_r.
Qed.

Lemma build_services_names st d m i ss dss :
  build_services st d m i ss = Ok dss -> (forall k, ss !! k = Mani.Services (cd_group d) !! (i + k)%nat) ->
  (fun ds => wl_name (ds_workload ds)) <$> dss = Mani.Name <$> ss.
Proof.
  intros E Hss. apply list_eq. intros j. rewrite !list_lookup_fmap. destruct (ss !! j) as [svc|] eqn:Hj.
  - destruct (build_services_lookup _ _ _ _ _ _ _ _ E Hss Hj) as (m' & b & _ & _ & Ho & Hl). rewrite Hl. simpl.
    unfold wl_name. by rewrite Ho.
  - simpl. enough (length dss = length ss) as Hlen by
      (rewrite (lookup_ge_None_2 dss j); [done|]; rewrite Hlen; by apply lookup_ge_None_1).
    clear -E. revert i dss E. induction ss as [|s ss IH]; intros i dss; simpl; [by intros [= <-]|].
    destruct m as [m|]; [|done]. destruct (NewWorkloadBuilder _ _ _ _); [|done].
    destruct (build_services _ _ _ _ _) eqn:Er; simpl; [|done]. intros [= <-]. simpl. f_equal. by eapply IH.
Qed.

(** The manifest a deploy goes on with is the one stored, and the new one when it is written. *)
Lemma settle_manifest_ok cns d sps h (w : W) s1 :
  settle_manifest cns d sps h (w, no_previous) = (s1, Ok tt) ->
  forall m v, currManifest s1.2 = Some (m, v) ->
    (exists v', objects s1.1 !! (KdManifest, cns, LidNS (cd_lid d)) = Some (OManifest m, v')) /\
    (cd_update d = true -> exists h' mm, NewManifest cns (cd_lid d) (cd_group d) sps h = Ok (h', mm) /\
       Crd.SGroup (km_manifest m) = Crd.SGroup (store_manifest "" h' mm)).
Proof.
  unfold settle_manifest. intros E. apply dbind_ok in E as ([] & s0 & Eg & E). unfold get_manifest in Eg. simpl in Eg.
  destruct (k_Get w KdManifest cns (LidNS (cd_lid d))) as [[o v0]|e] eqn:Hg.
  - apply k_Get_ok in Hg as (Hs & Hk & Hnm). destruct o as [| | | | | | | | |m0]; try done. injection Eg as <-. simpl in Hnm.
    destruct (cd_update d); [|injection E as <-; intros m v [= <- <-]; split; [by exists v0|done]].
    simpl in E. unfold write_manifest in E. simpl in E.
    destruct (manifest_Update cns d sps h m0) as [new|e] eqn:Eu; [|done]. apply manifest_Update_name in Eu as Hnn.
    assert (exists h' mm, NewManifest cns (cd_lid d) (cd_group d) sps h = Ok (h', mm) /\
       Crd.SGroup (km_manifest new) = Crd.SGroup (store_manifest "" h' mm)) as Hnew.
    { unfold manifest_Update in Eu. destruct (NewManifest _ _ _ _ _) as [[h' mm]|e]; [|done]. injection Eu as <-.
      by exists h', mm. }
    destruct (check_rename m0 new); [|done].
    destruct (decide (new = m0)) as [-> |]; [injection E as <-; intros m v [= <- <-]; split; [by exists v0|done]|].
    pose proof (k_Update_wrote w cns (OManifest new) (Some v0)) as Hw. simpl in Hw. rewrite Hnn, Hnm in Hw.
    destruct (k_Update w cns (OManifest new) (Some v0)) as [w1 [[o1 v1]|e]]; [|done]. injection E as <-.
    apply wrote_ok with (ov := (o1, v1)) in Hw as [Hsv Hl]; [|done]. simpl in Hsv. subst o1.
    intros m v [= <- <-]. split; [by exists v1|done].
  - destruct (IsNotFound e); [|done]. injection Eg as <-.
    destruct (cd_update d); [|injection E as <-; done]. simpl in E. unfold write_manifest in E. simpl in E.
    destruct (manifest_Create cns d sps h) as [new|e'] eqn:Eu; [|done]. apply manifest_Create_name in Eu as Hnn.
    pose proof (k_Create_wrote w cns (OManifest new)) as Hw. simpl in Hw. rewrite Hnn in Hw.
    destruct (k_Create w cns (OManifest new)) as [w1 [[o1 v1]|e1]]; [|done]. injection E as <-.
    apply wrote_ok with (ov := (o1, v1)) in Hw as [Hsv Hl]; [|done]. simpl in Hsv. subst o1.
    intros m v [= <- <-]. split; [by exists v1|]. intros _.
    unfold manifest_Create in Eu. destruct (NewManifest _ _ _ _ _) as [[h' mm]|e2]; [|done]. injection Eu as <-.
    by exists h', mm.
Qed.

(** The last step of an apply of everything. *)
Lemma apply_all_ok st d dss (s s' : W * previousObj) :
  apply_all st d dss s = (s', Ok tt) -> exists s1, deach apply_service dss s1 = (s', Ok tt).
Proof.
  intros E. do 6 (apply dbind_ok in E as (? & ? & _ & E)). eexists. exact E.
Qed.

(** C13: when a deploy succeeds, every service of the group has its workload in the cluster,
    built from the manifest that is stored: a stateful set with the pods and the number of
    replicas asked for when it has persistent storage, a deployment with them otherwise, and
    the role with exactly the rules of its permissions when it has some. The one exception is a
    deployment that was there before and whose update to those pods and replicas the API
    server refused: the error of the update is overwritten by the result of the patch that
    follows it, so the deploy succeeds and the deployment is the old one with the patch. The
    manifest stored is the one of the group that was sent, unless the deploy was of a manifest
    stored before. Stated for a group whose services have different names. *)
Theorem deploy_applies (w w' : W) (cfg : option ClientSettings) (cns : string) (h : sched_heap) (d : IDeployment)
    (i : nat) (svc : Mani.Service) :
  cns <> LidNS (i_lid d) -> NoDup (Mani.Name <$> Mani.Services (i_group d)) ->
  Deploy w cfg cns h d = (w', Ok tt) -> Mani.Services (i_group d) !! i = Some svc ->
  exists st sps cd cd' m v b,
    deploy_plan w cfg h d = Ok (st, sps, cd) /\ cd_lid cd' = i_lid d /\ cd_group cd' = i_group d /\
    objects w' !! (KdManifest, cns, LidNS (i_lid d)) = Some (OManifest m, v) /\
    (cd_update cd = true -> exists h' mm, NewManifest cns (i_lid d) (i_group d) sps h = Ok (h', mm) /\
       Crd.SGroup (km_manifest m) = Crd.SGroup (store_manifest "" h' mm)) /\
    NewWorkloadBuilder st cd' (km_manifest m) i = Ok b /\ wl_own b = svc /\ running w' (service_of b svc).
Proof.
  intros Hcns Hnd E Hi. unfold Deploy in E. destruct (deploy_plan w cfg h d) as [[[st sps] cd]|e] eqn:Ep; [|done].
  apply deploy_plan_lid in Ep as Hpl. destruct Hpl as [Hl Hg].
  destruct (deploy_body st cns cd sps h (w, no_previous)) as [[w1 po] [[]|e]] eqn:Eb; simpl in E; [|done].
  injection E as <-. unfold deploy_body in Eb. apply dbind_ok in Eb as ([] & s1 & Es & Eb).
  pose proof Eb as Eb'. unfold apply_prepared in Eb. apply dbind_ok in Eb as ([d' dss] & s2 & Epr & Eall).
  injection Epr as <- Epr. apply prepare_spec in Epr as (Hl' & Hg' & _ & Hbs). simpl in Eall.
  apply apply_all_ok in Eall as (s3 & Eall). rewrite Hg in Hbs.
  assert (forall k, Mani.Services (i_group d) !! k = Mani.Services (cd_group d') !! (0 + k)%nat) as Hss
    by (intros k; simpl; by rewrite Hg', Hg).
  destruct (build_services_lookup _ _ _ _ _ _ _ _ Hbs Hss Hi) as (m & b & Hm & Hb & Hown & Hds).
  apply fmap_Some in Hm as ([m' v] & Hcur & ->). simpl in Hb.
  destruct (settle_manifest_ok _ _ _ _ _ _ Es _ _ Hcur) as [[v' Hst] Hnew].
  assert (Forall (running w1) dss) as Hrun.
  { eapply (all_running dss s3 (w1, po)); [exact Eall|]. by rewrite (build_services_names _ _ _ _ _ _ Hbs Hss). }
  exists st, sps, cd, d', m', v', b. rewrite Hl in *. rewrite Hg in *. split_and!; try done.
  - simpl. pose proof (contained_settle cns (i_lid d) (of_lease cns (i_lid d)) cd sps h Hl ltac:(by right)
      (w, no_previous) (no_previous_fits _)) as [_ Hf]. rewrite Es in Hf. simpl in Hf.
    pose proof (contained_prepared (i_lid d) (LidNS_nonempty _) (in_lease (LidNS (i_lid d))) ltac:(done) st cd Hl s1 Hf) as [Ho _].
    rewrite Eb' in Ho. simpl in Ho. rewrite Ho; [done|]. intros [Hk|Hk]; simpl in Hk; [done|congruence].
  - rewrite list.Forall_forall in Hrun. eapply Hrun, list_elem_of_lookup_2, Hds.
Qed.

(** ** What a teardown leaves *)

Lemma teardown_spec (w : W) cns lid w' errs :
  TeardownLease w cns lid = (w', errs) -> cns <> LidNS lid ->
  (errs = [] -> gone (objects w' !! (KdNamespace, ""%string, LidNS lid)) /\
     objects w' !! (KdManifest, cns, LidNS lid) = None) /\
  only (of_lease cns lid) w w'.
Proof.
  unfold TeardownLease. intros [= <- <-] Hcns.
  set (w1 := (k_Delete w KdNamespace "" (LidNS lid)).1).
  assert (forall k, k <> (KdManifest, cns, LidNS lid) ->
    objects (k_Delete w1 KdManifest cns (LidNS lid)).1 !! k = objects w1 !! k) as Hf2.
  { intros k Hk. apply k_Delete_frame. intros [-> |[? _]]; done. }
  split.
  - intros Herr. apply app_eq_nil in Herr as [Hr1 Hr2]. split.
    + rewrite Hf2 by done. destruct (k_Delete w KdNamespace "" (LidNS lid)).2 as [e|] eqn:E1; simpl in Hr1.
      * destruct (IsNotFound e) eqn:En; [|done]. subst w1. by rewrite (k_Delete_missing _ _ _ _ _ E1 En).
      * subst w1. by apply k_Delete_gone.
    + destruct (k_Delete w1 KdManifest cns (LidNS lid)).2 as [e|] eqn:E1; simpl in Hr2.
      * destruct (IsNotFound e) eqn:En; [|done]. by apply (k_Delete_missing _ _ _ _ _ E1 En).
      * apply k_Delete_gone in E1. destruct (objects _ !! _) as [[o v]|] eqn:Ho; [|done].
        apply k_stored in Ho as [Hk _]. by destruct o.
  - intros k Hk. rewrite Hf2 by (intros ->; apply Hk; by right). subst w1. apply k_Delete_frame.
    intros [-> |(_ & Hns & _)]; apply Hk; left; [by right|by left].
Qed.

(** A teardown that reports no error leaves neither the manifest of the lease nor its
    namespace, but for one that is being deleted; and it touches no other lease, whether it
    reports one or not. *)
Theorem teardown_complete (w w' : W) (cns : string) (lid : LeaseID) (errs : list kube_error) :
  TeardownLease w cns lid = (w', errs) -> cns <> LidNS lid ->
  (errs = [] -> gone (objects w' !! (KdNamespace, ""%string, LidNS lid)) /\
     objects w' !! (KdManifest, cns, LidNS lid) = None) /\
  only (of_lease cns lid) w w'.
Proof. apply teardown_spec. Qed.

(** ** What a roll-back does not bring back *)

Lemma restore_refused (w : W) ns o v o' v' errs :
  objects w !! (object_kind o, ns, object_name o) = Some (o', v') -> v <> v' ->
  objects (restore_one ns (o, v) (w, errs)).1 = objects w /\ exists e, (restore_one ns (o, v) (w, errs)).2 = errs ++ [e].
Proof.
  intros Hl Hv. destruct (k_Update_stale w ns o v o' v' Hl Hv) as [Hok Ho]. unfold restore_one. simpl. split; [exact Ho|].
  destruct (k_Update w ns o (Some v)).2 as [ov|e]; [done|]. by exists e.
Qed.

(** An update that changed anything gave the object a new version. *)
Lemma apply_object_version (w : W) kd ns name build update changed w' a o v o' v' :
  apply_object w kd ns name build update changed = (w', a, None) ->
  (forall o, object_kind o = kd -> object_name o = name -> built_as kd name (update o)) ->
  ap_old a = Some (o, v) -> objects w' !! (kd, ns, name) = Some (o', v') -> (o', v') <> (o, v) -> v <> v'.
Proof.
  intros E Hb Hold Hl Hne. pose proof (apply_object_old _ _ _ _ _ _ _ _ _ _ _ E Hold) as Hg.
  unfold apply_object in E. rewrite Hg in E. apply k_Get_ok in Hg as (Hst & Hk & Hn).
  specialize (Hb o Hk Hn). destruct (update o) as [u|e]; [|done]. destruct (Hb u eq_refl) as [Hk' Hn'].
  destruct (changed o u); [|simplify_eq; congruence].
  pose proof (k_Update_wrote w ns u (Some v)) as Hw. pose proof (k_Update_version w w' ns u (Some v) o v) as Hver.
  rewrite Hk', Hn' in Hw, Hver. destruct (k_Update w ns u (Some v)) as [w1 [[u1 v1]|e]]; simplify_eq/=.
  apply wrote_ok with (ov := (u1, v1)) in Hw as [_ Hl1]; [|done]. simpl in Hl1. rewrite Hl in Hl1. injection Hl1 as -> ->.
  intros ->. destruct (decide (u1 = o)) as [-> |Hd]; [by apply Hne|]. by eapply (Hver u1 v1).
Qed.

(** The roll-back of a failed deploy does not bring back a stateful set that the deploy
    changed: it sends the object as it was read, with the version it had then, which the
    server refuses; the changed one stays. *)
Theorem updates_not_rolled_back (w w' : W) (b : Workload) (a : applied) (o : object) (v : string) (errs : list kube_error) :
  applyStatefulSet w b = (w', a, None) -> ap_old a = Some (o, v) ->
  objects w' !! (KdStatefulSet, wl_ns b, wl_name b) <> Some (o, v) ->
  let r := restore_back (wl_ns b) (option_list (ap_old a)) (w', errs) in
  objects r.1 = objects w' /\ exists e, r.2 = errs ++ [e].
Proof.
  intros E Hold Hne. destruct (statefulSet_built b) as [Hc Hu]. rewrite Hold. simpl. unfold restore_back. simpl.
  pose proof (apply_object_old _ _ _ _ _ _ _ _ _ _ _ E Hold) as Hg. apply k_Get_ok in Hg as (_ & Hk & Hn).
  destruct (applyStatefulSet_ok _ _ _ _ E) as (o' & v' & _ & Hl & _).
  eapply restore_refused; [by rewrite Hk, Hn|]. eapply apply_object_version; [exact E|exact Hu|exact Hold|exact Hl|congruence].
Qed.

End Running.
