(* ===== verification/KubeQuery.v ===== *)
(** * The Kubernetes client: what it reports

    Model of the queries of [cluster/kube/client.go]: the deployments and leases found in the
    cluster, the state of the services of a lease, and the ports that are forwarded to them. *)

From Stdlib Require Import ZArith Lia.
From stdpp Require Import base gmap list strings tactics.
From S2P Require Import Prelude Types Names CRD Kube HostnameOp Declarations Builder NetPol KubeApply KubeDeploy.

(** ** Status of workloads *)

(** What the cluster says of a workload: the fields of its status. *)
Record Replicas := mkReplicas {
  rs_observed : Z; rs_replicas : Z; rs_updated : Z; rs_ready : Z; rs_available : Z; rs_current : Z
}.

Class WorkloadStatus (W : Type) := { k_status : W -> kind -> string -> string -> Replicas }.

Record ServiceStatus := mkServiceStatus {
  ss_name : string; ss_available : Z; ss_total : Z; ss_observed : Z; ss_replicas : Z; ss_updated : Z; ss_ready : Z;
  ss_available_replicas : Z; ss_uris : list string
}.

Definition deployment_status (name : string) (r : Replicas) : ServiceStatus :=
  mkServiceStatus name (rs_available r) (rs_replicas r) (rs_observed r) (rs_replicas r) (rs_updated r) (rs_ready r)
    (rs_available r) [].

(** A stateful set counts its current replicas as those available. *)
Definition statefulSet_status (name : string) (r : Replicas) : ServiceStatus :=
  mkServiceStatus name (rs_current r) (rs_replicas r) (rs_observed r) (rs_replicas r) (rs_updated r) (rs_ready r)
    (rs_current r) [].

Definition add_uri (s : ServiceStatus) (uri : string) : ServiceStatus :=
  mkServiceStatus (ss_name s) (ss_available s) (ss_total s) (ss_observed s) (ss_replicas s) (ss_updated s) (ss_ready s)
    (ss_available_replicas s) (ss_uris s ++ [uri]).

Definition set_uris (s : ServiceStatus) (uris : list string) : ServiceStatus :=
  mkServiceStatus (ss_name s) (ss_available s) (ss_total s) (ss_observed s) (ss_replicas s) (ss_updated s) (ss_ready s)
    (ss_available_replicas s) uris.

Inductive query_error :=
| QInternal (e : kube_error) | QKube (e : kube_error) | QCRD (e : crd_error) | QProtocol
| ErrLeaseNotFound | ErrNoDeploymentForLease | ErrNoManifestForLease | ErrNoServiceForLease
| QNotConfigured | QSettings.

(** [ForwardedPortStatus] of the SDK. *)
Record ForwardedPort `{ServiceProtocolAPI} := mkForwarded {
  fp_host : string; fp_port : Z; fp_external : Z; fp_proto : ServiceProtocol; fp_name : string
}.
Arguments mkForwarded {H}.

Definition to_uint16 (z : Z) : Z := (z mod 2 ^ 16)%Z.

Section Queries.
Context {W : Type} `{HC : Cluster W} `{HW : !WorkloadStatus W} `{HP : ServiceProtocolAPI} `{HS : !SDK} `{HB : Bech32}
  `{HH : LeaseHash} `{HD : DomainNames}.

(** ** Deployments *)

Definition versioned (v : string) (m : KManifest) : Crd.Manifest SchedulerParams :=
  let o := km_manifest m in Crd.mkManifest (Crd.MName o) (Crd.Namespace o) v (Crd.SLease o) (Crd.SGroup o).

Definition manifests_of (os : list (object * string)) : list (KManifest * string) := omap as_manifest os.

(** The deployments up to the first that cannot be read, and its error. *)
Fixpoint deployments_of (ms : list (KManifest * string)) (acc : list (deployment SchedulerParams))
    : list (deployment SchedulerParams) * option crd_error :=
  match ms with
  | [] => (acc, None)
  | (m, v) :: rest =>
      match Deployment (versioned v m) with
      | Ok d => deployments_of rest (acc ++ [d])
      | Err e => (acc, Some e)
      end
  end.

Definition GetDeployment (w : W) (cns : string) (owner : string) (dseq : Z)
    : result query_error (list (deployment SchedulerParams)) :=
  match k_List w KdManifest cns
          [ReqEquals AkashLeaseDSeqLabelName (FormatUint dseq); ReqEquals AkashLeaseOwnerLabelName owner] with
  | Err e => Err (QKube e)
  | Ok os => match deployments_of (manifests_of os) [] with
             | (ds, None) => Ok ds
             | (_, Some e) => Err (QCRD e)
             end
  end.

Definition Deployments (w : W) (cns : string) : list (deployment SchedulerParams) * option query_error :=
  match k_List w KdManifest cns [] with
  | Err e => ([], Some (QKube e))
  | Ok os => let r := deployments_of (manifests_of os) [] in (r.1, QCRD <$> r.2)
  end.

Definition GetManifestGroup (w : W) (cns : string) (lid : LeaseID)
    : result query_error (option (Crd.Group SchedulerParams)) :=
  match k_Get w KdManifest cns (LidNS lid) with
  | Err e => if IsNotFound e then Ok None else Err (QKube e)
  | Ok (OManifest m, _) => Ok (Some (Crd.SGroup (km_manifest m)))
  | Ok _ => Ok None
  end.

(** ** Leases *)

Definition add_lease (lids : list LeaseID) (lid : LeaseID) : list LeaseID :=
  if decide (lid ∈ lids) then lids else lids ++ [lid].

(** The lease a namespace is for: none when it is being deleted or has not its labels. *)
Definition lease_of_namespace (o : object) : option LeaseID :=
  match o with
  | ONamespace n => if kn_deleting n then None
                    else match RecoverLeaseIDFromLabels (kn_labels n) with Ok lid => Some lid | Err _ => None end
  | _ => None
  end.

Definition lease_of_manifest (o : object) : option LeaseID :=
  match o with OManifest m => CRDLease.FromCRD (Crd.SLease (km_manifest m)) | _ => None end.

Definition LeaseIDs (w : W) (cns : string) : result kube_error (list LeaseID) :=
  (let? namespaces := k_List w KdNamespace "" [ReqEquals AkashManagedLabelName ValTrue] in
   let? manifests := k_List w KdManifest cns [] in
   Ok (foldl add_lease [] (omap (fun ov => lease_of_namespace ov.1) namespaces ++
                           omap (fun ov => lease_of_manifest ov.1) manifests)))%go.

(** ** Status of a lease *)

Definition leaseExists (w : W) (lid : LeaseID) : result query_error unit :=
  match k_Get w KdNamespace "" (LidNS lid) with
  | Ok _ => Ok tt
  | Err e => if IsNotFound e then Err ErrLeaseNotFound else Err (QInternal e)
  end.

Definition list_internal (w : W) (kd : kind) (ns : string) : result query_error (list (object * string)) :=
  match k_List w kd ns [] with Ok os => Ok os | Err e => Err (QInternal e) end.

Definition enter_status (kd : kind) (f : string -> Replicas -> ServiceStatus) (w : W) (ns : string)
    (m : gmap string ServiceStatus) (ov : object * string) : gmap string ServiceStatus :=
  let n := object_name ov.1 in <[n := f n (k_status w kd ns n)]> m.

Definition deploymentsForLease (w : W) (lid : LeaseID) : result query_error (gmap string ServiceStatus) :=
  let ns := LidNS lid in
  (let? _ := leaseExists w lid in
   let? deployments := list_internal w KdDeployment ns in
   let? statefulsets := list_internal w KdStatefulSet ns in
   let m := foldl (enter_status KdDeployment deployment_status w ns) ∅ deployments in
   let m := foldl (enter_status KdStatefulSet statefulSet_status w ns) m statefulsets in
   if decide (m = ∅) then Err ErrNoDeploymentForLease else Ok m)%go.

Definition check_settings (cfg : option ClientSettings) : result query_error ClientSettings :=
  match cfg with
  | None => Err QNotConfigured
  | Some cs => match ValidateSettings cs with Ok _ => Ok cs | Err _ => Err QSettings end
  end.

Section Hosts.
Context {St : Type} `{HK : !KubeCollection W ProviderHost St}.

(** A host is added to the service it is for, when the service is known. *)
Definition add_host (m : gmap string ServiceStatus) (h : ProviderHost * St) : gmap string ServiceStatus :=
  match m !! ph_service (prh_spec h.1) with
  | Some s => <[ph_service (prh_spec h.1) := add_uri s (ph_hostname (prh_spec h.1))]> m
  | None => m
  end.

Definition LeaseStatus (w : W) (cfg : option ClientSettings) (cns : string) (lid : LeaseID)
    : result query_error (gmap string ServiceStatus) :=
  (let? _ := check_settings cfg in
   let? m := deploymentsForLease w lid in
   match kube_List w (Some cns) (kubeSelectorForLease lid) with
   | Err e => Err (QKube e)
   | Ok hosts => Ok (foldl add_host m hosts)
   end)%go.

Definition no_http : Mani.HTTPOptions := Mani.mkHTTP 0 0 0 0 0 [] None.

(** The loop over the exposes of the services of the name, which an ingress ends. *)
Fixpoint has_ingress (exposes : list Crd.ServiceExpose) : result query_error bool :=
  match exposes with
  | [] => Ok false
  | e :: rest =>
      match ParseServiceProtocol (Crd.Proto e) with
      | None => Err QProtocol
      | Some proto =>
          if IsIngress (Mani.mkExpose (Crd.Port e) (Crd.ExternalPort e) proto (Crd.ESvc e) (Crd.Global e) (Crd.Hosts e)
                          no_http "" 0)
          then Ok true else has_ingress rest
      end
  end.

Fixpoint hostnames_check (name : string) (services : list (Crd.Service SchedulerParams)) : result query_error bool :=
  match services with
  | [] => Ok false
  | s :: rest =>
      if String.eqb (Crd.Name s) name then
        (let? found := has_ingress (Crd.Exposes s) in if found then Ok true else hostnames_check name rest)%go
      else hostnames_check name rest
  end.

Definition crd_persistent (s : Crd.Service SchedulerParams) : bool :=
  existsb (fun v => default false (attr_bool (Crd.VAttrs v) sdl_persistent)) (Crd.Volumes (Crd.Res s)).

(** The status of the deployment or stateful set of a service. *)
Definition workload_status (w : W) (ns name : string) (svc : Crd.Service SchedulerParams) : result query_error ServiceStatus :=
  let kd := if crd_persistent svc then KdStatefulSet else KdDeployment in
  let f := if crd_persistent svc then statefulSet_status else deployment_status in
  match k_Get w kd ns name with
  | Err e => Err (QInternal e)
  | Ok (o, _) => Ok (f (object_name o) (k_status w kd ns name))
  end.

Definition find_service (name : string) (services : list (Crd.Service SchedulerParams))
    : option (Crd.Service SchedulerParams) :=
  find (fun s => String.eqb (Crd.Name s) name) services.

Definition ServiceStatus_of (w : W) (cns : string) (lid : LeaseID) (name : string) : result query_error ServiceStatus :=
  (let? _ := leaseExists w lid in
   match k_Get w KdManifest cns (LidNS lid) with
   | Ok (OManifest m, _) =>
       let services := Crd.Services (Crd.SGroup (km_manifest m)) in
       match find_service name services with
       | None => Err ErrNoServiceForLease
       | Some svc =>
           let? result := workload_status w (LidNS lid) name svc in
           let? hasHostnames := hostnames_check name services in
           if hasHostnames then
             match kube_List w (Some cns) (kubeSelectorForLease lid) with
             | Err e => Err (QInternal e)
             | Ok hosts => Ok (set_uris result ((fun h : ProviderHost * St => ph_hostname (prh_spec h.1)) <$> hosts))
             end
           else Ok result
       end
   | _ => Err ErrNoManifestForLease
   end)%go.

End Hosts.

(** ** Forwarded ports *)

Definition SuffixForNodePortServiceName : string := "-np".

(** The name without its last characters; a name that is shorter panics. *)
Definition chop_suffix (name : string) : option string :=
  let n := String.length SuffixForNodePortServiceName in
  if (String.length name <? n)%nat then None else Some (String.substring 0 (String.length name - n) name).

Definition forwarded_port (host name : string) (p : ServicePort) : option ForwardedPort :=
  if (0 <? p_node_port p)%Z then
    match (if String.eqb (p_protocol p) "TCP" then Some TCP
           else if String.eqb (p_protocol p) "UDP" then Some UDP else None) with
    | Some proto => Some (mkForwarded host (to_uint16 (p_target p)) (to_uint16 (p_node_port p)) proto name)
    | None => None
    end
  else None.

Definition add_forwarded (host : string) (r : option (gmap string (list ForwardedPort))) (ov : object * string)
    : option (gmap string (list ForwardedPort)) :=
  m ← r;
  match ov.1 with
  | OService s =>
      if decide (so_type s = NodePort) then
        name ← chop_suffix (so_name s);
        match so_ports s with
        | [] => Some m
        | ports => Some (<[name := omap (forwarded_port host name) ports]> m)
        end
      else Some m
  | _ => Some m
  end.

(** [None] is a panic. *)
Definition ForwardedPortStatus (w : W) (cfg : option ClientSettings) (lid : LeaseID)
    : option (result query_error (gmap string (list ForwardedPort))) :=
  match check_settings cfg with
  | Err e => Some (Err e)
  | Ok cs =>
      match list_internal w KdService (LidNS lid) with
      | Err e => Some (Err e)
      | Ok services => Ok <$> foldl (add_forwarded (ClusterPublicHostname (cs_builder cs))) (Some ∅) services
      end
  end.

End Queries.

(** ** The leases that are reported *)

Section LeaseTheorems.
Context {W : Type} `{HC : Cluster W} `{HL : !ClusterLaws W} `{HA : !Attachments W} `{HP : ServiceProtocolAPI} `{HS : !SDK}
  `{HB : Bech32} `{HH : LeaseHash} `{HHL : !LeaseHashLaws} `{HD : DomainNames}.

Lemma add_leases_spec lids acc :
  NoDup acc -> NoDup (foldl add_lease acc lids) /\ forall l, l ∈ foldl add_lease acc lids <-> l ∈ acc \/ l ∈ lids.
Proof.
  revert acc. induction lids as [|x lids IH]; intros acc Hnd; simpl; [split; [done|]; set_solver|].
  assert (NoDup (add_lease acc x) /\ forall l, l ∈ add_lease acc x <-> l ∈ acc \/ l = x) as [Hnd' Hin].
  { unfold add_lease. destruct (decide (x ∈ acc)) as [Hx|Hx]; [split; [done|]; intros l; split; [tauto|]; by intros [?| ->]|].
    split; [|intros l; rewrite elem_of_app, list_elem_of_singleton; done].
    apply list.NoDup_app. split_and!; [done| |apply list.NoDup_singleton].
    intros y Hy ->%list_elem_of_singleton. done. }
  destruct (IH _ Hnd') as [Hn Hi]. split; [done|]. intros l. rewrite Hi, Hin, elem_of_cons. tauto.
Qed.

(** A namespace that is for the lease, and a manifest that names it. *)
Definition namespace_for (w : W) (lid : LeaseID) (n : string) : Prop :=
  exists o v, objects w !! (KdNamespace, ""%string, n) = Some (ONamespace o, v) /\
    kn_labels o !! AkashManagedLabelName = Some ValTrue /\ kn_deleting o = false /\
    RecoverLeaseIDFromLabels (kn_labels o) = Ok lid.

Definition manifest_for (w : W) (cns : string) (lid : LeaseID) (n : string) : Prop :=
  exists m v, objects w !! (KdManifest, cns, n) = Some (OManifest m, v) /\
    CRDLease.FromCRD (Crd.SLease (km_manifest m)) = Some lid.

Lemma LeaseIDs_spec (w : W) (cns : string) (lids : list LeaseID) :
  cns <> ""%string -> LeaseIDs w cns = Ok lids ->
  NoDup lids /\ forall lid, lid ∈ lids <-> (exists n, namespace_for w lid n) \/ (exists n, manifest_for w cns lid n).
Proof.
  intros Hcns. unfold LeaseIDs. destruct (k_List w KdNamespace "" _) as [nss|e] eqn:En; simpl; [|done].
  destruct (k_List w KdManifest cns []) as [ms|e] eqn:Em; simpl; [|done]. intros [= <-].
  destruct (add_leases_spec (omap (fun ov => lease_of_namespace ov.1) nss ++ omap (fun ov => lease_of_manifest ov.1) ms) []
    (NoDup_nil_2)) as [Hnd Hin]. split; [done|]. intros lid. rewrite Hin, elem_of_app, !list_elem_of_omap. split.
  - intros [Hx|[([o v] & Ho & Hl)|([o v] & Ho & Hl)]]; [by apply not_elem_of_nil in Hx|left|right].
    + apply (k_List_ok _ _ _ _ _ En) in Ho as (n & Ho & Hs); [|by left]. exists n. simpl in Hl.
      destruct o as [o| | | | | | | | |]; try done. simpl in Hl. destruct (kn_deleting o) eqn:Ed; [done|].
      destruct (RecoverLeaseIDFromLabels _) as [l|] eqn:Er; [|done]. injection Hl as ->. exists o, v. split_and!; try done.
      unfold selects in Hs. simpl in Hs. rewrite andb_true_r in Hs. by apply bool_decide_eq_true in Hs.
    + apply (k_List_ok _ _ _ _ _ Em) in Ho as (n & Ho & _); [|by right]. exists n. simpl in Hl.
      destruct o; try done. by exists o, v.
  - intros [(n & o & v & Ho & Hm & Hd & Hr)|(n & m & v & Ho & Hr)]; right; [left|right].
    + exists (ONamespace o, v). split; [|simpl; by rewrite Hd, Hr]. apply (k_List_ok _ _ _ _ _ En); [by left|].
      exists n. split; [done|]. unfold selects. simpl. by rewrite (bool_decide_eq_true_2 _ Hm).
    + exists (OManifest m, v). split; [|done]. apply (k_List_ok _ _ _ _ _ Em); [by right|]. by exists n.
Qed.

(** The leases reported are those that have a namespace which is not being deleted or a
    manifest in the cluster, each of them once. *)
Theorem LeaseIDs_exact (w : W) (cns : string) (lids : list LeaseID) :
  cns <> ""%string -> LeaseIDs w cns = Ok lids ->
  NoDup lids /\ forall lid, lid ∈ lids <-> (exists n, namespace_for w lid n) \/ (exists n, manifest_for w cns lid n).
Proof. apply LeaseIDs_spec. Qed.

(** Once a lease is torn down without an error it is not reported any more, where what
    names it is named after it: so it is not torn down again, nor taken for an orphan. *)
Theorem torn_down_unlisted (w w' : W) (cns : string) (lid : LeaseID) (lids : list LeaseID) :
  cns <> ""%string -> cns <> LidNS lid ->
  (forall n, namespace_for w lid n \/ manifest_for w cns lid n -> n = LidNS lid) ->
  TeardownLease w cns lid = (w', []) -> LeaseIDs w' cns = Ok lids -> (lid ∉ lids).
Proof.
  intros Hc1 Hc2 Hplace Et El Hin. apply LeaseIDs_spec in El as [_ El]; [|done]. apply El in Hin as Hl.
  apply teardown_spec in Et as [Hgone Ho]; [|done]. destruct (Hgone eq_refl) as [Hg Hm].
  assert (forall n, n <> LidNS lid -> objects w' !! (KdNamespace, ""%string, n) = objects w !! (KdNamespace, ""%string, n) /\
    objects w' !! (KdManifest, cns, n) = objects w !! (KdManifest, cns, n)) as Hf.
  { intros n Hn. pose proof (LidNS_nonempty lid). split; apply Ho; unfold of_lease, in_lease; simpl;
      intros [[?|?]|?]; simplify_eq; congruence. }
  destruct Hl as [(n & o & v & Hs & Hrest)|(n & m & v & Hs & Hr)].
  - destruct (decide (n = LidNS lid)) as [-> |Hn].
    + rewrite Hs in Hg. simpl in Hg. destruct Hrest as (_ & Hd & _). congruence.
    + apply Hn, Hplace. left. exists o, v. by rewrite <- (proj1 (Hf n Hn)).
  - destruct (decide (n = LidNS lid)) as [-> |Hn]; [congruence|].
    apply Hn, Hplace. right. exists m, v. by rewrite <- (proj2 (Hf n Hn)).
Qed.

End LeaseTheorems.

(** ** The ports that are reported *)

Section PortTheorems.
Context {W : Type} `{HC : Cluster W} `{HL : !ClusterLaws W} `{HP : ServiceProtocolAPI} `{HPL : !ServiceProtocolLaws}
  `{HS : !SDK}
  `{HB : Bech32} `{HH : LeaseHash} `{HHL : !LeaseHashLaws} `{HD : DomainNames}.

Lemma substring_app (a b : string) : String.substring 0 (String.length a) (a +:+ b) = a.
Proof. induction a as [|c a IH]; [by destruct b|]. simpl. by rewrite IH. Qed.

Lemma chop_suffix_app (base : string) : chop_suffix (base +:+ SuffixForNodePortServiceName) = Some base.
Proof.
  unfold chop_suffix. rewrite string_app_length. change (String.length SuffixForNodePortServiceName) with 3%nat.
  destruct (Nat.ltb_spec (String.length base + 3) 3); [lia|]. f_equal.
  replace (String.length base + 3 - 3)%nat with (String.length base) by lia. apply substring_app.
Qed.

(** Node ports are served by services with the suffix. *)
Definition suffixed (ov : object * string) : Prop :=
  forall o, ov.1 = OService o -> so_type o = NodePort -> exists base, so_name o = (base +:+ SuffixForNodePortServiceName)%string.

Lemma add_forwarded_suffixed host m ov :
  suffixed ov -> exists m', add_forwarded host (Some m) ov = Some m' /\
    forall base, m' !! base = match ov.1 with
      | OService o => if decide (so_type o = NodePort /\ so_name o = (base +:+ SuffixForNodePortServiceName)%string /\ so_ports o <> [])
                      then Some (omap (forwarded_port host base) (so_ports o)) else m !! base
      | _ => m !! base
      end.
Proof.
  intros Hs. unfold add_forwarded. simpl. destruct ov as [o v]. simpl in *. destruct o; try by eexists.
  destruct (decide (so_type o = NodePort)) as [Ht|Ht]; [|eexists; split; [done|]; intros base; by rewrite decide_False by tauto].
  destruct (Hs o eq_refl Ht) as [b0 Hb]. rewrite Hb, chop_suffix_app. simpl. destruct (so_ports o) as [|p ps] eqn:Ep.
  - eexists. split; [done|]. intros base. by rewrite decide_False by tauto.
  - eexists. split; [done|]. intros base. destruct (decide (b0 = base)) as [-> |Hne].
    + rewrite lookup_insert_eq, decide_True; [done|]. by split_and!.
    + rewrite lookup_insert_ne by done. rewrite decide_False; [done|]. intros (_ & Heq & _). apply Hne.
      assert (Some b0 = Some base) as [=]; [|done]. by rewrite <- !chop_suffix_app, <- Heq.
Qed.

Lemma forwarded_all host os m0 :
  Forall suffixed os -> exists m, foldl (add_forwarded host) (Some m0) os = Some m /\
    forall base o v, (o, v) ∈ os -> (forall o1 v1 s, (o1, v1) ∈ os -> o1 = OService s -> object_name o1 = object_name o -> o1 = o) ->
      forall s, o = OService s -> so_type s = NodePort -> so_name s = (base +:+ SuffixForNodePortServiceName)%string ->
        so_ports s <> [] -> m !! base = Some (omap (forwarded_port host base) (so_ports s)).
Proof.
  intros Hall. assert (exists m, foldl (add_forwarded host) (Some m0) os = Some m /\
    forall base F, (forall o1 v1 s, (o1, v1) ∈ os -> o1 = OService s -> so_type s = NodePort ->
        so_name s = (base +:+ SuffixForNodePortServiceName)%string -> so_ports s <> [] ->
        omap (forwarded_port host base) (so_ports s) = F) ->
      (m0 !! base = Some F \/ exists o1 v1 s, (o1, v1) ∈ os /\ o1 = OService s /\ so_type s = NodePort /\
        so_name s = (base +:+ SuffixForNodePortServiceName)%string /\ so_ports s <> []) -> m !! base = Some F) as (m & Hm & Hspec).
  { revert m0. induction Hall as [|[o v] os Hs Hall IH]; intros m0; cbn [foldl].
    - exists m0. split; [done|]. intros base F _ [?|(? & ? & ? & Hx & _)]; [done|by apply not_elem_of_nil in Hx].
    - destruct (add_forwarded_suffixed host m0 (o, v) Hs) as (m1 & -> & Hm1). destruct (IH m1) as (m & Hm & Hspec).
      exists m. split; [done|]. intros base F Huni Hor. apply Hspec.
      + intros o1 v1 s Hin. apply (Huni o1 v1 s). by apply list_elem_of_further.
      + rewrite Hm1. simpl. destruct Hor as [H0|(o1 & v1 & s & Hin & -> & Ht & Hn & Hp)].
        * left. destruct o; try done. destruct (decide _) as [(Ht & Hn & Hp)|]; [|done]. f_equal.
          eapply Huni; [apply list_elem_of_here|done..].
        * apply elem_of_cons in Hin as [[= <- <-]|Hin]; [|right; by exists (OService s), v1, s].
          left. rewrite decide_True by done. f_equal. eapply Huni; [apply list_elem_of_here|done..]. }
  exists m. split; [done|]. intros base o v Hin Huni s -> Ht Hn Hp. apply Hspec.
  - intros o1 v1 s1 Hin1 -> _ Hn1 _. assert (OService s1 = OService s) as [=]; [|by subst].
    eapply Huni; [exact Hin1|done|]. simpl. congruence.
  - right. by exists (OService s), v, s.
Qed.

Lemma ports_loop_protocols np i es added ps :
  ports_loop np i es added = Ok ps -> Forall (fun p => p_protocol p = "TCP"%string \/ p_protocol p = "UDP"%string) ps.
Proof.
  intros E. apply list.Forall_forall. intros p Hp. apply (ports_loop_spec _ _ _ _ _ E) in Hp as (j & e & pr & _ & _ & Hpr & -> & _).
  simpl. unfold service_protocol in Hpr. destruct (decide _); [left; congruence|]. destruct (decide _); [right; congruence|done].
Qed.

Lemma list_internal_ok (w : W) kd ns os : list_internal w kd ns = Ok os -> k_List w kd ns [] = Ok os.
Proof. unfold list_internal. destruct (k_List w kd ns []); [|done]. by intros [= ->]. Qed.

(** Every port of the service that forwards to a workload is reported, under the name of
    the workload, with the port of the container and the node port the cluster chose: none is
    lost, and none is reported for another. *)
Theorem forwarded_ports (w : W) (cs : ClientSettings) (b : Workload) (sent stored : KServiceObj) (v : string)
    (m : gmap string (list ForwardedPort)) :
  ForwardedPortStatus w (Some cs) (cd_lid (wl_deployment b)) = Some (Ok m) ->
  (forall n o v, objects w !! (KdService, wl_ns b, n) = Some (OService o, v) -> so_type o = NodePort ->
     exists base, n = (base +:+ SuffixForNodePortServiceName)%string) ->
  service_Create b true = Ok sent -> served (OService sent) (OService stored) ->
  objects w !! (KdService, wl_ns b, service_name b true) = Some (OService stored, v) ->
  Forall (fun p => 0 < p_node_port p < 2 ^ 16)%Z (so_ports stored) ->
  exists fs, m !! wl_name b = Some fs /\
    Forall2 (fun p f => fp_host f = ClusterPublicHostname (cs_builder cs) /\ fp_name f = wl_name b /\
               fp_port f = to_uint16 (p_target p) /\ fp_external f = p_node_port p /\
               service_protocol (fp_proto f) = Some (p_protocol p)) (so_ports stored) fs.
Proof.
  unfold ForwardedPortStatus. simpl. destruct (ValidateSettings cs) as [[]|e]; [|done].
  destruct (list_internal w KdService _) as [os|e] eqn:El; [|done]. intros Em Hsuf Ec Hsv Hst Hnp.
  apply list_internal_ok in El. pose proof (k_List_ok _ _ _ _ _ El) as Hos. fold (wl_ns b) in Hos.
  assert (forall o1 v1, (o1, v1) ∈ os <-> exists n, objects w !! (KdService, wl_ns b, n) = Some (o1, v1)) as Hin.
  { intros o1 v1. rewrite Hos by (right; apply LidNS_nonempty). split; [intros (n & ? & _); by exists n|].
    intros (n & ?). by exists n. }
  destruct (forwarded_all (ClusterPublicHostname (cs_builder cs)) os ∅) as (m' & Hm' & Hspec).
  { apply list.Forall_forall. intros [o1 v1] H1 o Ho1 Ht. simpl in Ho1. subst o1. apply Hin in H1 as (n & H1).
    destruct (k_stored _ _ _ _ _ _ H1) as [_ Hn]. simpl in Hn. destruct (Hsuf n o v1 H1 Ht) as [base ->]. by exists base. }
  cbn [cs_builder] in Em. rewrite Hm' in Em. injection Em as <-.
  destruct Hsv as (Hname & _ & Htype & _ & Hports). unfold service_Create in Ec.
  destruct (service_ports b true) as [ps|e] eqn:Eps; simpl in Ec; [|done]. injection Ec as <-. simpl in *.
  assert (ps <> [] /\ Forall (fun p => p_protocol p = "TCP"%string \/ p_protocol p = "UDP"%string) ps) as [Hne Hpr].
  { unfold service_ports in Eps. destruct (ports_loop true 0 _ []) as [qs|e] eqn:El2; simpl in Eps; [|done].
    apply ports_loop_protocols in El2. destruct qs; [done|]. by injection Eps as <-. }
  exists (omap (forwarded_port (ClusterPublicHostname (cs_builder cs)) (wl_name b)) (so_ports stored)). split.
  - eapply (Hspec (wl_name b) (OService stored) v); [apply Hin; by eexists| |done|done|by rewrite Hname|].
    + intros o1 v1 s1 H1 -> Hn1. apply Hin in H1 as (n & H1). destruct (k_stored _ _ _ _ _ _ H1) as [_ Hn].
      destruct (k_stored _ _ _ _ _ _ Hst) as [_ Hn2]. simpl in *. rewrite <- Hn, Hn1, Hn2 in H1. congruence.
    + intros Hnil. rewrite Hnil in Hports. by inversion Hports.
  - clear -Hports Hpr Hnp HPL. induction Hports as [|p q ps qs Hpq Hports IH]; [constructor|].
    apply list.Forall_cons in Hpr as [Hp Hpr]. apply list.Forall_cons in Hnp as [Hq Hnp].
    unfold same_port in Hpq. rewrite !andb_true_iff, !String.eqb_eq in Hpq. destruct Hpq as [[[_ _] _] Hproto].
    simpl. unfold forwarded_port at 1. destruct (Z.ltb_spec 0 (p_node_port q)); [|lia].
    assert (to_uint16 (p_node_port q) = p_node_port q) as Hu by (unfold to_uint16; apply Z.mod_small; lia).
    destruct proto_distinct as (Hd & _). rewrite Hproto. unfold service_protocol.
    destruct Hp as [Hp|Hp]; rewrite Hp; simpl; (constructor; [|by apply IH]); simpl; split_and!; try done; try exact Hu.
    + rewrite decide_True by done. congruence.
    + rewrite decide_False by congruence. rewrite decide_True by done. congruence.
Qed.

End PortTheorems.

(** ** The hosts that are reported *)

Section HostTheorems.
Context {W : Type} `{HC : Cluster W} `{HL : !ClusterLaws W} `{HW : !WorkloadStatus W} `{HP : ServiceProtocolAPI} `{HS : !SDK}
  `{HB : Bech32} `{HH : LeaseHash} `{HHL : !LeaseHashLaws} `{HD : DomainNames} {St : Type}
  `{HK : !KubeCollection W ProviderHost St}.

Definition hosts_for (name : string) (hosts : list (ProviderHost * St)) : list string :=
  (fun h => ph_hostname (prh_spec h.1)) <$> filter (fun h => ph_service (prh_spec h.1) = name) hosts.

Lemma add_hosts_lookup hosts m n :
  foldl add_host m hosts !! n = (fun s => set_uris s (ss_uris s ++ hosts_for n hosts)) <$> m !! n.
Proof.
  revert m. induction hosts as [|h hosts IH]; intros m; cbn [foldl].
  - destruct (m !! n) as [[]|]; [|done]. unfold hosts_for, set_uris. simpl. by rewrite app_nil_r.
  - rewrite IH. unfold add_host. unfold hosts_for. rewrite filter_cons.
    destruct (decide (ph_service (prh_spec h.1) = n)) as [<-|Hn].
    + destruct (m !! ph_service (prh_spec h.1)) as [s|] eqn:E; [|by rewrite E]. rewrite lookup_insert_eq. simpl.
      unfold set_uris, add_uri. simpl. by rewrite <- app_assoc.
    + destruct (m !! ph_service (prh_spec h.1)); [by rewrite lookup_insert_ne|done].
Qed.

Lemma enter_status_lookup kd f (w : W) ns os m n :
  foldl (enter_status kd f w ns) m os !! n =
  if decide (n ∈ (fun ov => object_name ov.1) <$> os) then Some (f n (k_status w kd ns n)) else m !! n.
Proof.
  revert m. induction os as [|ov os IH]; intros m; [done|]. cbn [foldl]. rewrite IH. unfold enter_status at 1. simpl.
  destruct (decide (n ∈ _ <$> os)) as [Hin|Hin];
    [rewrite decide_True; [done|by apply list_elem_of_further]|].
  destruct (decide (object_name ov.1 = n)) as [<-|Hne].
  - rewrite lookup_insert_eq, decide_True; [done|apply list_elem_of_here].
  - rewrite lookup_insert_ne by done. rewrite decide_False; [done|]. by intros [?|?]%elem_of_cons.
Qed.

Definition workload_stored (w : W) (kd : kind) (ns n : string) : Prop := is_Some (objects w !! (kd, ns, n)).

Lemma listed_names (w : W) kd ns os n :
  list_internal w kd ns = Ok os -> ns <> ""%string ->
  n ∈ (fun ov => object_name ov.1) <$> os <-> workload_stored w kd ns n.
Proof.
  unfold list_internal. destruct (k_List w kd ns []) as [os'|e] eqn:E; [|done]. intros [= <-] Hns.
  rewrite list_elem_of_fmap. unfold workload_stored. split.
  - intros ([o v] & -> & Hin). apply (k_List_ok _ _ _ _ _ E) in Hin as (n' & Ho & _); [|by right].
    destruct (k_stored _ _ _ _ _ _ Ho) as [_ <-]. by eexists.
  - intros ([o v] & Ho). exists (o, v). destruct (k_stored _ _ _ _ _ _ Ho) as [_ Hn]. split; [done|].
    apply (k_List_ok _ _ _ _ _ E); [by right|]. by exists n.
Qed.

(** The status of a lease has one entry for every workload of its namespace and no other,
    a stateful set going before a deployment of the same name; each carries the hostnames
    declared for the service of that name, and no other ones. *)
Theorem lease_status_exact (w : W) (cfg : option ClientSettings) (cns : string) (lid : LeaseID)
    (m : gmap string ServiceStatus) (hosts : list (ProviderHost * St)) (n : string) :
  LeaseStatus w cfg cns lid = Ok m -> kube_List w (Some cns) (kubeSelectorForLease lid) = Ok hosts ->
  (workload_stored w KdStatefulSet (LidNS lid) n ->
     m !! n = Some (set_uris (statefulSet_status n (k_status w KdStatefulSet (LidNS lid) n)) (hosts_for n hosts))) /\
  (~ workload_stored w KdStatefulSet (LidNS lid) n -> workload_stored w KdDeployment (LidNS lid) n ->
     m !! n = Some (set_uris (deployment_status n (k_status w KdDeployment (LidNS lid) n)) (hosts_for n hosts))) /\
  (~ workload_stored w KdStatefulSet (LidNS lid) n -> ~ workload_stored w KdDeployment (LidNS lid) n -> m !! n = None).
Proof.
  unfold LeaseStatus, deploymentsForLease. destruct (check_settings cfg); simpl; [|done].
  destruct (leaseExists w lid); simpl; [|done].
  destruct (list_internal w KdDeployment _) as [ds|] eqn:Ed; simpl; [|done].
  destruct (list_internal w KdStatefulSet _) as [ss|] eqn:Es; simpl; [|done].
  destruct (decide _); simpl; [done|]. intros Hm Hh. rewrite Hh in Hm. injection Hm as <-.
  pose proof (LidNS_nonempty lid) as Hne.
  rewrite add_hosts_lookup, !enter_status_lookup, lookup_empty.
  rewrite <- (listed_names _ _ _ _ n Ed Hne), <- (listed_names _ _ _ _ n Es Hne).
  split_and!; intros; repeat case_decide; done.
Qed.

(** What a single service reports: the hosts of the whole lease, once one of its exposes is
    an ingress. *)
Lemma service_status_hosts (w : W) cns lid name s m v hosts :
  ServiceStatus_of w cns lid name = Ok s -> k_Get w KdManifest cns (LidNS lid) = Ok (OManifest m, v) ->
  hostnames_check name (Crd.Services (Crd.SGroup (km_manifest m))) = Ok true ->
  kube_List w (Some cns) (kubeSelectorForLease lid) = Ok hosts ->
  ss_uris s = (fun h : ProviderHost * St => ph_hostname (prh_spec h.1)) <$> hosts.
Proof.
  unfold ServiceStatus_of. destruct (leaseExists w lid); simpl; [|done]. intros E Hm Hc Hh. rewrite Hm in E.
  destruct (find_service name _); [|done]. destruct (workload_status _ _ _ _); simpl in E; [|done].
  rewrite Hc in E. simpl in E. rewrite Hh in E. by injection E as <-.
Qed.

(** A service with an ingress reports the hostnames of every other service of the lease
    as its own, where the status of the lease keeps them apart: the two disagree as soon as
    another service of the lease has a hostname. *)
Theorem service_status_foreign_hosts (w : W) (cfg : option ClientSettings) (cns : string) (lid : LeaseID) (name : string)
    (s s' : ServiceStatus) (km : KManifest) (v : string) (m : gmap string ServiceStatus)
    (hosts : list (ProviderHost * St)) (h : ProviderHost * St) :
  ServiceStatus_of w cns lid name = Ok s -> LeaseStatus w cfg cns lid = Ok m -> m !! name = Some s' ->
  k_Get w KdManifest cns (LidNS lid) = Ok (OManifest km, v) ->
  hostnames_check name (Crd.Services (Crd.SGroup (km_manifest km))) = Ok true ->
  kube_List w (Some cns) (kubeSelectorForLease lid) = Ok hosts ->
  h ∈ hosts -> ph_service (prh_spec h.1) <> name ->
  ph_hostname (prh_spec h.1) ∈ ss_uris s /\ (length (ss_uris s') < length (ss_uris s))%nat.
Proof.
  intros Es El Hs' Hm Hc Hh Hin Hne. rewrite (service_status_hosts _ _ _ _ _ _ _ _ Es Hm Hc Hh). split.
  - apply list_elem_of_fmap. by exists h.
  - unfold LeaseStatus in El. destruct (check_settings cfg); simpl in El; [|done].
    destruct (deploymentsForLease w lid) as [m0|] eqn:Ed; simpl in El; [|done]. rewrite Hh in El. injection El as <-.
    rewrite add_hosts_lookup in Hs'. apply fmap_Some in Hs' as (s0 & Hs0 & ->). simpl.
    assert (ss_uris s0 = []) as ->.
    { unfold deploymentsForLease in Ed. destruct (leaseExists w lid); simpl in Ed; [|done].
      destruct (list_internal w KdDeployment _); simpl in Ed; [|done].
      destruct (list_internal w KdStatefulSet _); simpl in Ed; [|done]. destruct (decide _) in Ed; [done|].
      injection Ed as <-. rewrite !enter_status_lookup, lookup_empty in Hs0.
      destruct (decide _) in Hs0; [by injection Hs0 as <-|]. destruct (decide _) in Hs0; [by injection Hs0 as <-|done]. }
    simpl. unfold hosts_for. rewrite !length_fmap. apply list_elem_of_split in Hin as (l1 & l2 & ->).
    rewrite list.filter_app, filter_cons_False, !length_app by done. simpl.
    pose proof (length_filter (fun h : ProviderHost * St => ph_service (prh_spec h.1) = name) l1).
    pose proof (length_filter (fun h : ProviderHost * St => ph_service (prh_spec h.1) = name) l2). lia.
Qed.

End HostTheorems.
