(* ===== verification/KubeExamples.v ===== *)
(** * The Kubernetes client on concrete leases

    A server as a map of objects, an SDK with two protocols and attributes read as text, and a
    lease of two services: the hypotheses of the theorems on the objects of a lease, on
    deploying and on the queries hold for it, and the runs below show what a deploy reports
    when calls fail. *)

From Stdlib Require Import ZArith Lia.
From stdpp Require Import base gmap list strings tactics.
From S2P Require Import Prelude Types Names CRD Kube HostnameOp Declarations Builder NetPol KubeApply KubeDeploy KubeQuery.

Module KubeExamples.

#[local] Existing Instance named_protocols.
#[local] Existing Instance named_protocols_laws.
#[local] Existing Instance any_bech32.
#[local] Existing Instance seq_hash.
#[local] Existing Instance seq_hash_laws.

Definition attr_text (attrs : Attributes) (key : string) : option string :=
  Value <$> find (fun a => String.eqb (Key a) key) attrs.

#[local] Instance kx_sdk : SDK := {|
  IsIngress e := Mani.Global e && String.eqb (Mani.Proto e) "TCP" && (Mani.ExternalPort e =? 80)%Z;
  GetExternalPort e := if (Mani.ExternalPort e =? 0)%Z then Mani.Port e else Mani.ExternalPort e;
  attr_bool attrs key := (fun v => String.eqb v "true") <$> attr_text attrs key;
  attr_string := attr_text;
  sdl_persistent := "persistent";
  sdl_class := "class";
  CommitLevel := unit;
  ComputeCommittedResources _ v := v
|}.

#[local] Instance kx_sdk_laws : SDKLaws.
Proof. split. simpl. lia. Defined.

#[local] Instance kx_domains : DomainNames := {| IsDomainName s := negb (String.eqb s "") |}.
#[local] Instance kx_nads : Attachments server := {| k_ListNADs _ _ := Ok [] |}.
#[local] Instance kx_status : WorkloadStatus server := {| k_status _ _ _ _ := mkReplicas 1 1 1 1 1 1 |}.

(** ** A lease *)

Definition kx_http : Mani.HTTPOptions := Mani.mkHTTP 1048576 60000 60000 3 60000 ["error"] None.

Definition kx_resources (id : Z) (persistent : string) : Resources :=
  mkResources id (Some (mkUnits 500 [])) (Some (mkMemory 268435456 []))
    [mkStorage "default" 536870912 [mkAttribute "persistent" persistent]] (Some (mkUnits 0 [])) [].

Definition kx_web : Mani.Service :=
  Mani.mkService "web" "nginx" [] [] ["A=1"] (kx_resources 1 "false") 2
    [Mani.mkExpose 8080 80 "TCP" "" true ["app.example.com"] kx_http "" 0;
     Mani.mkExpose 22 0 "TCP" "" true [] kx_http "" 0]
    (Some (Mani.mkParams [] (Some ["logs"]) None)) None "".

Definition kx_db : Mani.Service :=
  Mani.mkService "db" "postgres" [] [] [] (kx_resources 2 "true") 1
    [Mani.mkExpose 5432 0 "TCP" "web" false [] kx_http "" 0]
    (Some (Mani.mkParams [Mani.mkStorageParams "default" "/data" false] None None)) None "".

Definition kx_group : Mani.Group := Mani.mkGroup "g" [kx_web; kx_db].
Definition kx_lid : LeaseID := mkLeaseID "akash1owner" 7 1 1 "akash1prov".
Definition kx_other : LeaseID := mkLeaseID "akash1other" 8 1 1 "akash1prov".
Definition kx_heap : sched_heap := {[ 0%nat := emptySchedulerParams ]}.

Definition kx_deployment (lid : LeaseID) (group : Mani.Group) : IDeployment :=
  mkIDeployment lid group (ParamsReservation {[ 1%Z := Some 0%nat; 2%Z := Some 0%nat ]}) "".

Definition kx_settings : Settings := mkSettings "provider.example.com" true [] tt tt tt tt "" false "" "" "".
Definition kx_cfg : option ClientSettings := Some (mkClientSettings false "" kx_settings).
Definition kx_empty : server := mkServer [] [].
Definition kx_ns : string := Eval vm_compute in LidNS kx_lid.

Definition kx_deploy (w : server) (group : Mani.Group) : server * result deploy_error unit :=
  Deploy w kx_cfg "lease" kx_heap (kx_deployment kx_lid group).

Definition kx_deployed : server := (kx_deploy kx_empty kx_group).1.

Lemma kx_deploys : kx_deploy kx_empty kx_group = (kx_deployed, Ok tt).
Proof.
  assert (is_ok (kx_deploy kx_empty kx_group).2 = true) as Hok by (vm_compute; reflexivity).
  unfold kx_deployed. destruct (kx_deploy kx_empty kx_group) as [w [[]|e]]; [reflexivity|discriminate].
Qed.

Definition kx_key : okey := (KdManifest, "lease"%string, LidNS kx_lid).

Lemma kx_manifest : exists m v, objects kx_deployed !! kx_key = Some (OManifest m, v).
Proof.
  change (objects kx_deployed) with (sv_objects kx_deployed). rewrite sv_objects_get.
  assert (match sv_get kx_deployed kx_key with Some (OManifest _, _) => true | _ => false end = true) as Hm
    by (vm_compute; reflexivity).
  destruct (sv_get kx_deployed kx_key) as [[[] v]|]; try discriminate Hm. by exists o, v.
Qed.

Lemma kx_cns : "lease"%string <> LidNS kx_lid.
Proof. vm_compute. discriminate. Qed.

Lemma kx_names : NoDup (Mani.Name <$> Mani.Services kx_group).
Proof. apply (bool_decide_unpack _). vm_compute. exact I. Qed.

(** ** Deploying *)

Definition kx_two : server := (Deploy kx_empty kx_cfg "lease" kx_heap (kx_deployment kx_other kx_group)).1.

Lemma deploy_isolated_witness :
  kx_other <> kx_lid /\
  objects (kx_deploy kx_two kx_group).1 !! (KdManifest, "lease"%string, LidNS kx_other) =
  objects kx_two !! (KdManifest, "lease"%string, LidNS kx_other).
Proof.
  split; [discriminate|].
  apply (deploy_isolated kx_two kx_cfg "lease" kx_heap (kx_deployment kx_lid kx_group) kx_other).
  - discriminate.
  - intros H. vm_compute in H. discriminate.
  - exact kx_cns.
  - vm_compute. discriminate.
  - right. reflexivity.
Defined.

Lemma deploy_keeps_services_witness :
  exists old v new v', objects kx_deployed !! kx_key = Some (OManifest old, v) /\
    objects (kx_deploy kx_deployed kx_group).1 !! kx_key = Some (OManifest new, v') /\
    forall n, n ∈ manifest_names new <-> n ∈ manifest_names old.
Proof.
  destruct kx_manifest as (old & v & Hold).
  destruct (deploy_keeps_services kx_deployed kx_cfg "lease" kx_heap (kx_deployment kx_lid kx_group) old v kx_cns Hold)
    as (new & v' & Hnew & Hn).
  exists old, v, new, v'. exact (conj Hold (conj Hnew Hn)).
Defined.

Lemma deploy_applies_witness :
  kx_deploy kx_empty kx_group = (kx_deployed, Ok tt) /\
  (exists b, wl_own b = kx_db /\ running kx_deployed (service_of b kx_db)) /\
  (exists b, wl_own b = kx_web /\ ds_persistent (service_of b kx_web) = false /\ running kx_deployed (service_of b kx_web)).
Proof.
  split; [exact kx_deploys|]. split.
  - destruct (deploy_applies kx_empty kx_deployed kx_cfg "lease" kx_heap (kx_deployment kx_lid kx_group) 1 kx_db
      kx_cns kx_names kx_deploys eq_refl) as (st & sps & cd & cd' & m & v & b & _ & _ & _ & _ & _ & _ & Hown & Hrun).
    exists b. exact (conj Hown Hrun).
  - destruct (deploy_applies kx_empty kx_deployed kx_cfg "lease" kx_heap (kx_deployment kx_lid kx_group) 0 kx_web
      kx_cns kx_names kx_deploys eq_refl) as (st & sps & cd & cd' & m & v & b & _ & _ & _ & _ & _ & _ & Hown & Hrun).
    exists b. exact (conj Hown (conj eq_refl Hrun)).
Defined.

(** A manifest with another service is refused, and the one stored stays. *)
Example rename_refused :
  (kx_deploy kx_deployed (Mani.mkGroup "g" [kx_web])).2 = Err ErrManifestRenameNotAllowed.
Proof. vm_compute. reflexivity. Qed.

Lemma teardown_complete_witness :
  exists w', TeardownLease kx_deployed "lease" kx_lid = (w', []) /\
    gone (objects w' !! (KdNamespace, ""%string, LidNS kx_lid)) /\ objects w' !! kx_key = None.
Proof.
  destruct (TeardownLease kx_deployed "lease" kx_lid) as [w' errs] eqn:E. exists w'.
  assert (errs = []) as ->.
  { assert ((TeardownLease kx_deployed "lease" kx_lid).2 = []) as H by (vm_compute; reflexivity). by rewrite E in H. }
  split; [reflexivity|]. exact (proj1 (teardown_complete kx_deployed w' "lease" kx_lid [] E kx_cns) eq_refl).
Defined.

(** ** Workloads *)

Definition kx_cd (lid : LeaseID) (version : string) : cdeployment :=
  mkCDeployment lid kx_group [Some emptySchedulerParams; Some emptySchedulerParams] version true.

Definition kx_wl (svc : Mani.Service) : Workload :=
  mkWorkload kx_settings (kx_cd kx_lid "v2") svc (Some emptySchedulerParams) svc.

Definition kx_db2 : Mani.Service :=
  Mani.mkService "db" "postgres:17" [] [] [] (kx_resources 2 "true") 1 (Mani.Exposes kx_db) (Mani.Params kx_db) None "".

Lemma updates_not_rolled_back_witness :
  exists w' a o v, applyStatefulSet kx_deployed (kx_wl kx_db2) = (w', a, None) /\ ap_old a = Some (o, v) /\
    objects (restore_back (wl_ns (kx_wl kx_db2)) (option_list (ap_old a)) (w', [])).1 = objects w'.
Proof.
  destruct (applyStatefulSet kx_deployed (kx_wl kx_db2)) as [[w' a] err] eqn:E.
  assert (match applyStatefulSet kx_deployed (kx_wl kx_db2) with
          | (w', a, None) => match ap_old a, sv_get w' (KdStatefulSet, wl_ns (kx_wl kx_db2), wl_name (kx_wl kx_db2)) with
                             | Some (_, v), Some (_, v') => negb (String.eqb v v')
                             | _, _ => false
                             end
          | _ => false
          end = true) as H by (vm_compute; reflexivity).
  rewrite E in H. destruct err; [discriminate|]. destruct (ap_old a) as [[o v]|] eqn:Ho; [|discriminate].
  destruct (sv_get w' _) as [[o' v']|] eqn:Hg; [|discriminate]. exists w', a, o, v. split; [reflexivity|]. split; [exact Ho|].
  refine (proj1 (updates_not_rolled_back kx_deployed w' (kx_wl kx_db2) a o v [] E Ho _)).
  change (objects w') with (sv_objects w'). rewrite sv_objects_get, Hg. intros [= -> ->].
  by rewrite String.eqb_refl in H.
Defined.

Lemma container_within_lease_witness :
  exists c cpuRequest, container (kx_wl kx_web) = Some c /\ c_limits c !! "cpu"%string = Some 500%Z /\
    c_requests c !! "cpu"%string = Some cpuRequest /\ (cpuRequest <= 500)%Z.
Proof.
  destruct (container (kx_wl kx_web)) as [c|] eqn:E;
    [|assert (is_Some (container (kx_wl kx_web))) as [c H] by (vm_compute; eexists; reflexivity); congruence].
  destruct (container_within_lease (kx_wl kx_web) c (mkUnits 500 []) (mkMemory 268435456 []) E eq_refl eq_refl)
    as (cr & mr & H1 & H2 & H3 & H4 & H5 & H6); [simpl; lia..|vm_compute; discriminate|vm_compute; reflexivity|discriminate|].
  exists c, cr. exact (conj eq_refl (conj H1 (conj H3 H5))).
Defined.

Definition kx_tcp53 : Mani.ServiceExpose := Mani.mkExpose 53 0 TCP "" true [] kx_http "" 0.
Definition kx_udp53 : Mani.ServiceExpose := Mani.mkExpose 53 0 UDP "" true [] kx_http "" 0.

Definition kx_udp : Mani.Service :=
  Mani.mkService "dns" "dns" [] [] [] (kx_resources 1 "false") 1
    [kx_tcp53; kx_udp53] None None "".

Lemma second_protocol_dropped_witness :
  service_ports (kx_wl kx_udp) true = Ok [port_of 0 kx_tcp53 "TCP"].
Proof.
  eapply (second_protocol_dropped (kx_wl kx_udp) true kx_tcp53
    kx_udp53); try reflexivity; [by right|discriminate].
Defined.

Definition kx_assign (o : KServiceObj) : KServiceObj :=
  mkServiceObj (so_name o) (so_labels o) (so_type o) (so_selector o)
    ((fun p => mkServicePort (p_name p) (p_port p) (p_target p) (p_protocol p) 30022) <$> so_ports o).

Lemma kx_assigned o : served (OService o) (OService (kx_assign o)).
Proof.
  simpl. split_and!; try done. induction (so_ports o) as [|p ps IH]; [constructor|]. constructor; [|exact IH].
  unfold same_port. simpl. by rewrite !String.eqb_refl, !Z.eqb_refl.
Qed.

Lemma node_ports_retained_witness :
  exists o u, service_Create (kx_wl kx_web) true = Ok o /\ service_Update (kx_wl kx_web) true (kx_assign o) = Ok u /\
    so_ports u = so_ports (kx_assign o).
Proof.
  destruct (service_Create (kx_wl kx_web) true) as [o|e] eqn:E;
    [|assert (is_ok (service_Create (kx_wl kx_web) true) = true) as H by (vm_compute; reflexivity); rewrite E in H; discriminate].
  assert (exists ps, service_ports (kx_wl kx_web) true = Ok ps) as [ps Hps] by (eexists; vm_compute; reflexivity).
  destruct (service_Update (kx_wl kx_web) true (kx_assign o)) as [u|e] eqn:Eu;
    [|unfold service_Update in Eu; rewrite Hps in Eu; discriminate].
  exists o, u. split; [reflexivity|]. split; [exact Eu|].
  refine (node_ports_retained (kx_wl kx_web) (kx_wl kx_web) o (kx_assign o) u eq_refl E _ Eu).
  destruct (kx_assigned o) as (_ & _ & _ & _ & H). exact H.
Defined.

(** Two pods, one on a private address and one on a public one. *)
Definition kx_pod (d : cdeployment) (addr : Z) : endpoint :=
  mkNetEndpoint (lease_namespace d) {[ AkashManifestServiceLabelName := "web"%string ]} addr.

Lemma tenants_isolated_witness :
  LidNS kx_other <> LidNS kx_lid /\
  connects (netpol_Create kx_settings (kx_cd kx_other "v")) (netpol_Create kx_settings (kx_cd kx_lid "v"))
    (kx_pod (kx_cd kx_other "v") (addr4 10 0 0 1)) (kx_pod (kx_cd kx_lid "v") (addr4 8 8 8 8)) 8790 "TCP" = true /\
  connects (netpol_Create kx_settings (kx_cd kx_other "v")) (netpol_Create kx_settings (kx_cd kx_lid "v"))
    (kx_pod (kx_cd kx_other "v") (addr4 10 0 0 1)) (kx_pod (kx_cd kx_lid "v") (addr4 10 0 0 2)) 8790 "TCP" = false.
Proof.
  split; [vm_compute; discriminate|].
  assert (forall addr port, is_addr addr -> LidNS kx_other <> LidNS kx_lid -> _) as Hw
    by (intros addr port Ha Hne;
        exact (tenants_isolated kx_settings eq_refl (kx_cd kx_lid "v") (kx_cd kx_other "v")
          {[ AkashManifestServiceLabelName := "web"%string ]} {[ AkashManifestServiceLabelName := "web"%string ]}
          addr (addr4 10 0 0 1) port "TCP" Hne ltac:(vm_compute; discriminate) ltac:(vm_compute; discriminate)
          Ha ltac:(split; vm_compute; done))).
  split.
  - apply Hw; [split; vm_compute; done|vm_compute; discriminate|]. split; [left|left; split; reflexivity].
    unfold public_addr, addr4. lia.
  - apply not_true_is_false. intros H. apply Hw in H; [|split; vm_compute; done|vm_compute; discriminate].
    destruct H as [[(H & _)|(_ & (ep & Hep & _) & _)] _]; [apply H; unfold addr4; lia|].
    by apply elem_of_nil in Hep.
Defined.

(** A deployment of a service the manifest does not name any more. *)
Definition kx_template : PodTemplate := mkPodTemplate ∅ ∅ (mkAffinity [] None) None false "" [] [] [].
Definition kx_stale : server :=
  mkServer [(LidNS kx_lid, (ODeployment (mkKDeployment "old" (wl_labels (kx_wl kx_udp)) ∅ OtherStrategy None 1 kx_template), "v"%string))] [].

Lemma cleanup_misses_workloads_witness :
  exists w' err, cleanupStaleResources kx_stale kx_lid ["web"%string] [] = (w', err) /\
    objects w' !! (KdDeployment, LidNS kx_lid, "old"%string) = objects kx_stale !! (KdDeployment, LidNS kx_lid, "old"%string).
Proof.
  destruct (cleanupStaleResources kx_stale kx_lid ["web"%string] []) as [w' err] eqn:E. exists w', err. split; [reflexivity|].
  refine (cleanup_misses_workloads kx_stale w' kx_lid ["web"%string] [] err KdDeployment "old"
    (LidNS_nonempty kx_lid) (or_introl eq_refl) _ E).
  intros kd n o v _ Ho. change (objects kx_stale) with (sv_objects kx_stale) in Ho. rewrite sv_objects_get in Ho.
  apply fmap_Some in Ho as (e & Hf & Hov). apply find_some in Hf as [[He|[]] _]. subst e. injection Hov as -> ->.
  exists (kx_wl kx_udp). left. reflexivity.
Defined.

(** ** Queries *)

Lemma LeaseIDs_exact_witness :
  LeaseIDs kx_deployed "lease" = Ok [kx_lid] /\
  (kx_lid ∈ [kx_lid] <-> (exists n, namespace_for kx_deployed kx_lid n) \/ (exists n, manifest_for kx_deployed "lease" kx_lid n)).
Proof.
  assert (LeaseIDs kx_deployed "lease" = Ok [kx_lid]) as E by (vm_compute; reflexivity). split; [exact E|].
  exact (proj2 (LeaseIDs_exact kx_deployed "lease" [kx_lid] ltac:(discriminate) E) kx_lid).
Defined.

Definition kx_placed (e : string * (object * string)) : bool :=
  match object_kind e.2.1 with
  | KdNamespace | KdManifest => String.eqb (object_name e.2.1) (LidNS kx_lid)
  | _ => true
  end.

Lemma kx_all_placed kd ns n o v :
  objects kx_deployed !! (kd, ns, n) = Some (o, v) -> kd = KdNamespace \/ kd = KdManifest -> n = LidNS kx_lid.
Proof.
  change (objects kx_deployed) with (sv_objects kx_deployed). rewrite sv_objects_get. intros Hg Hk.
  assert (forallb kx_placed (sv_list kx_deployed) = true) as Hall by (vm_compute; reflexivity).
  apply fmap_Some in Hg as (e & Hf & Hov). apply find_some in Hf as [Hin Hkey]. apply key_eqb_eq in Hkey.
  rewrite forallb_forall in Hall. specialize (Hall e Hin). unfold kx_placed in Hall.
  unfold entry_key in Hkey. injection Hkey as Hkd _ Hn. rewrite Hkd, Hn in Hall.
  destruct Hk as [-> | ->]; by apply String.eqb_eq in Hall.
Qed.

Lemma torn_down_unlisted_witness :
  exists w' lids, TeardownLease kx_deployed "lease" kx_lid = (w', []) /\ LeaseIDs w' "lease" = Ok lids /\ (kx_lid ∉ lids).
Proof.
  destruct (TeardownLease kx_deployed "lease" kx_lid) as [w' errs] eqn:E.
  assert ((TeardownLease kx_deployed "lease" kx_lid).2 = [] /\
          LeaseIDs (TeardownLease kx_deployed "lease" kx_lid).1 "lease" = Ok []) as [H1 H2] by (vm_compute; split; reflexivity).
  rewrite E in H1, H2. simpl in H1, H2. subst errs. exists w', []. split; [reflexivity|]. split; [exact H2|].
  refine (torn_down_unlisted kx_deployed w' "lease" kx_lid [] ltac:(discriminate) kx_cns _ E H2).
  intros n [(o & v & Hs & _)|(m & v & Hs & _)]; eapply kx_all_placed; [exact Hs|by left|exact Hs|by right].
Defined.

Definition kx_sent : KServiceObj :=
  match service_Create (kx_wl kx_web) true with Ok o => o | Err _ => mkServiceObj "" ∅ NodePort ∅ [] end.
Definition kx_ports : server := mkServer [(LidNS kx_lid, (OService (kx_assign kx_sent), "v"%string))] [].

Lemma forwarded_ports_witness :
  exists m fs, ForwardedPortStatus kx_ports kx_cfg kx_lid = Some (Ok m) /\ m !! "web"%string = Some fs /\
    length fs = length (so_ports (kx_assign kx_sent)).
Proof.
  assert (exists m, ForwardedPortStatus kx_ports kx_cfg kx_lid = Some (Ok m)) as [m Hm] by (eexists; vm_compute; reflexivity).
  assert (service_Create (kx_wl kx_web) true = Ok kx_sent) as Hc by (vm_compute; reflexivity).
  destruct (forwarded_ports kx_ports (mkClientSettings false "" kx_settings) (kx_wl kx_web) kx_sent (kx_assign kx_sent) "v" m Hm)
    as (fs & Hfs & Hall).
  - intros n o v Hl _. change (objects kx_ports) with (sv_objects kx_ports) in Hl. rewrite sv_objects_get in Hl.
    pose proof (sv_get_key _ _ _ Hl) as [_ Hn]. cbn [fst snd] in Hn. apply fmap_Some in Hl as (e & Hf & Hov).
    apply find_some in Hf as [[He|[]] _]. subst e. injection Hov as -> _. exists "web"%string. rewrite <- Hn.
    vm_compute. reflexivity.
  - exact Hc.
  - apply kx_assigned.
  - change (objects kx_ports) with (sv_objects kx_ports). rewrite sv_objects_get. vm_compute. reflexivity.
  - vm_compute. repeat constructor.
  - exists m, fs. split; [exact Hm|]. split; [exact Hfs|]. symmetry. exact (Forall2_length Hall).
Defined.

(** The hosts of two services of the lease. *)
Definition kx_hosts : list (ProviderHost * unit) :=
  (fun x => (mkProviderHost x.2 ∅ ∅ (mkHostSpec "akash1owner" "akash1prov" x.2 7 1 1 x.1 80), tt)) <$>
    [("web", "app.example.com"); ("api", "api.example.com")]%string.

#[local] Instance kx_hosts_api : KubeCollection server ProviderHost unit := {|
  kube_Get _ _ _ := Err missing; kube_List _ _ _ := Ok kx_hosts; kube_Create w _ _ := (w, None);
  kube_Update w _ _ _ := (w, None); kube_Delete w _ _ := (w, None); kube_DeleteCollection w _ _ _ := (w, None)
|}.

Lemma lease_status_exact_witness :
  exists m, LeaseStatus kx_deployed kx_cfg "lease" kx_lid = Ok m /\
    (workload_stored kx_deployed KdStatefulSet (LidNS kx_lid) "db" ->
     m !! "db"%string = Some (set_uris (statefulSet_status "db" (mkReplicas 1 1 1 1 1 1)) [])).
Proof.
  assert (is_ok (LeaseStatus kx_deployed kx_cfg "lease" kx_lid) = true) as Hok by (vm_compute; reflexivity).
  destruct (LeaseStatus kx_deployed kx_cfg "lease" kx_lid) as [m|] eqn:E; [|discriminate]. exists m. split; [reflexivity|].
  exact (proj1 (lease_status_exact kx_deployed kx_cfg "lease" kx_lid m kx_hosts "db" E eq_refl)).
Defined.

Lemma service_status_foreign_hosts_witness :
  exists s, ServiceStatus_of kx_deployed "lease" kx_lid "web" = Ok s /\ "api.example.com"%string ∈ ss_uris s.
Proof.
  assert (match ServiceStatus_of kx_deployed "lease" kx_lid "web", LeaseStatus kx_deployed kx_cfg "lease" kx_lid,
            k_Get kx_deployed KdManifest "lease" (LidNS kx_lid) with
          | Ok _, Ok m, Ok (OManifest km, _) =>
              match m !! "web"%string, hostnames_check "web" (Crd.Services (Crd.SGroup (km_manifest km))) with
              | Some _, Ok true => true | _, _ => false
              end
          | _, _, _ => false
          end = true) as H by (vm_compute; reflexivity).
  revert H. generalize kx_deployed. intros w H.
  destruct (ServiceStatus_of w "lease" kx_lid "web") as [s|] eqn:Es; [|discriminate].
  destruct (LeaseStatus w kx_cfg "lease" kx_lid) as [m|] eqn:El; [|discriminate].
  destruct (k_Get w KdManifest "lease" (LidNS kx_lid)) as [[[] v]|] eqn:Eg; try discriminate.
  destruct (m !! "web"%string) as [s'|] eqn:Em; [|discriminate].
  destruct (hostnames_check "web" _) as [[]|] eqn:Ec; try discriminate. exists s. split; [reflexivity|].
  refine (proj1 (service_status_foreign_hosts w kx_cfg "lease" kx_lid "web" s s' o v m kx_hosts
    (mkProviderHost "api.example.com" ∅ ∅ (mkHostSpec "akash1owner" "akash1prov" "api.example.com" 7 1 1 "api" 80), tt)
    Es El Em Eg Ec eq_refl _ _)); [|discriminate].
  apply list_elem_of_further, list_elem_of_here.
Defined.

(** ** Calls that fail *)

Definition holds_kind (kd : kind) (w : server) : bool := existsb (fun e => bool_decide (object_kind e.2.1 = kd)) (sv_list w).

(** The creation of the network policies is refused, and the deploy succeeds without them. *)
Example deploy_without_policies :
  let r := kx_deploy (mkServer [] [false; false; true]) kx_group in
  r.2 = Ok tt /\ holds_kind KdNetPol r.1 = false /\ holds_kind KdStatefulSet r.1 = true.
Proof. vm_compute. repeat split. Qed.

Definition kx_image (w : server) : option string :=
  match sv_get w (KdDeployment, LidNS kx_lid, "web"%string) with
  | Some (ODeployment o, _) => c_image <$> head (pt_containers (kd_template o))
  | _ => None
  end.

Definition kx_web2 : Mani.Service :=
  Mani.mkService "web" "nginx:2" [] [] ["A=1"] (kx_resources 1 "false") 2 (Mani.Exposes kx_web) (Mani.Params kx_web) None "".

(** The update of a deployment is refused, the deploy succeeds, and the old image runs on. *)
Example failed_update_hidden :
  let fails := [false; false; false; false; false; false; false; true] in
  let r := kx_deploy (mkServer (sv_list kx_deployed) fails) (Mani.mkGroup "g" [kx_web2; kx_db]) in
  r.2 = Ok tt /\ kx_image r.1 = Some "nginx"%string /\
  kx_image (kx_deploy kx_deployed (Mani.mkGroup "g" [kx_web2; kx_db])).1 = Some "nginx:2"%string.
Proof. vm_compute. repeat split. Qed.

(** A first deploy that fails leaves its manifest, so that a corrected one with other services
    is refused. *)
Example failed_deploy_keeps_manifest :
  let r := kx_deploy (mkServer [] [false; true]) kx_group in
  is_ok r.2 = false /\ holds_kind KdManifest r.1 = true /\
  (kx_deploy r.1 (Mani.mkGroup "g" [kx_web])).2 = Err ErrManifestRenameNotAllowed.
Proof. vm_compute. repeat split. Qed.

End KubeExamples.
