(* ===== verification/InvConfig.v ===== *)
(** * The inventory operator's configuration and probes

    Model of [operator/inventory/config.go] (the document, its checks, the
    exclusion rules and the storage classes left for a node), of the slice
    helper of [util.go], of [infiniband.go] (the host's interconnect adapters)
    and of the resource patterns of [node-discovery.go].

    The rules are edited in place while they are being ranged over, so slices
    are modelled with their backing array: [slice]. YAML decoding, semantic
    versions and regular expressions are parameters ([ConfigAPI]). *)

From stdpp Require Import base gmap list strings sorting tactics.
From Stdlib Require Import ZArith Lia Ascii.
From S2P Require Import Prelude Builder.
Local Open Scope go_scope.

(** ** Slices

    A slice that starts at its array's first element: the array and the
    slice's length. The array outlives a shorter slice made from it. *)

Record slice (A : Type) := mkSlice { back : list A; len : nat }.
Arguments mkSlice {A}.
Arguments back {A}.
Arguments len {A}.

Definition elems {A} (s : slice A) : list A := take (len s) (back s).

(** A fresh slice, as [make] followed by [copy] leaves it. *)
Definition fresh {A} (l : list A) : slice A := mkSlice l (List.length l).

(** [append(slice[:s], slice[s+1:]...)]: the tail moves down by one in the same
    array, and the slice is one shorter. [slice[s+1:]] panics past the length. *)
Definition remove {A} (s : slice A) (i : nat) : option (slice A) :=
  if (S i <=? len s)%nat
  then Some (mkSlice (take i (back s) ++ take (len s - S i) (drop (S i) (back s))
                        ++ drop (len s - 1) (back s)) (len s - 1))
  else None.

(** [sort.Strings]. *)
Definition sort_strings (l : list string) : list string := merge_sort String.le l.

(** ** The document *)

Class ConfigAPI := {
  (** [regexp.Compile] and [MatchString]. *)
  regexp : Type;
  Compile : string -> option regexp;
  MatchString : regexp -> string -> bool;
  (** [semver.Version] and [semver.ParseTolerant]. *)
  version : Type;
  version_zero : version;
  ParseTolerant : string -> option version;
  (** [yaml.Node]: the keys and values of [Content], [Value], and what
      [Decode] hands to the program's own [UnmarshalYAML] methods. *)
  yaml_node : Type;
  yaml_content : yaml_node -> list (string * yaml_node);
  yaml_value : yaml_node -> string;
  decode_strings : yaml_node -> option (list string);
  decode_exclude : yaml_node -> option (option yaml_node * list yaml_node);
  decode_rule : yaml_node -> option (string * list string);
  decode_interconnect : yaml_node -> option (list string)
}.

Section Config.
Context `{ConfigAPI}.

Record ExcludeNodeStorage := mkExcludeStorage { NodeFilter : regexp; Classes : list string }.
Record Exclude := mkExclude { Nodes : list regexp; NodeStorage : list ExcludeNodeStorage }.

Record Config := mkConfig {
  Version : version;
  ClusterStorage : list string;
  Excludes : Exclude;
  ResourcePatterns : list string;
  dirty : bool
}.

Inductive config_error :=
| errConfigInvalidVersion
| errUnexpectedField (field : string)
| errDecode
| errEmptyFilter
| errInvalidFilter (filter : string)
| errUnknownClass (class : string).

Definition zero_config : Config := mkConfig version_zero [] (mkExclude [] []) [] false.

(** [ExcludeRules.UnmarshalYAML]. *)
Fixpoint compile_rules (excludes : list string) : result config_error (list regexp) :=
  match excludes with
  | [] => Ok []
  | ex :: rest =>
      if String.eqb ex "" then Err errEmptyFilter
      else match Compile ex with
           | None => Err (errInvalidFilter ex)
           | Some r => let? rs := compile_rules rest in Ok (r :: rs)
           end
  end.

Definition ExcludeRules_UnmarshalYAML (node : yaml_node) : result config_error (list regexp) :=
  match decode_strings node with
  | None => Err errDecode
  | Some excludes => compile_rules excludes
  end.

(** [ExcludeNodeStorage.UnmarshalYAML]. *)
Definition ExcludeNodeStorage_UnmarshalYAML (node : yaml_node) : result config_error ExcludeNodeStorage :=
  match decode_rule node with
  | None => Err errDecode
  | Some (filter, classes) =>
      if String.eqb filter "" then Err errEmptyFilter
      else match Compile filter with
           | None => Err (errInvalidFilter filter)
           | Some r => Ok (mkExcludeStorage r classes)
           end
  end.

Fixpoint decode_rules (nodes : list yaml_node) : result config_error (list ExcludeNodeStorage) :=
  match nodes with
  | [] => Ok []
  | node :: rest =>
      let? rule := ExcludeNodeStorage_UnmarshalYAML node in
      let? rules := decode_rules rest in Ok (rule :: rules)
  end.

Definition Exclude_decode (node : yaml_node) : result config_error Exclude :=
  match decode_exclude node with
  | None => Err errDecode
  | Some (nodes, storage) =>
      let? rules := match nodes with
                    | None => Ok []
                    | Some n => ExcludeRules_UnmarshalYAML n
                    end in
      let? rs := decode_rules storage in Ok (mkExclude rules rs)
  end.

(** One field of the document; a later occurrence replaces an earlier one. *)
Definition decode_field (res : Config) (key : string) (val : yaml_node) : result config_error Config :=
  if String.eqb key "version" then
    match ParseTolerant (yaml_value val) with
    | None => Err errConfigInvalidVersion
    | Some v => Ok (mkConfig v (ClusterStorage res) (Excludes res) (ResourcePatterns res) (dirty res))
    end
  else if String.eqb key "cluster_storage" then
    match decode_strings val with
    | None => Err errDecode
    | Some l => Ok (mkConfig (Version res) l (Excludes res) (ResourcePatterns res) (dirty res))
    end
  else if String.eqb key "exclude" then
    let? e := Exclude_decode val in
    Ok (mkConfig (Version res) (ClusterStorage res) e (ResourcePatterns res) (dirty res))
  else if String.eqb key "interconnect" then
    match decode_interconnect val with
    | None => Err errDecode
    | Some l => Ok (mkConfig (Version res) (ClusterStorage res) (Excludes res) l (dirty res))
    end
  else Err (errUnexpectedField key).

Fixpoint decode_fields (res : Config) (content : list (string * yaml_node)) : result config_error Config :=
  match content with
  | [] => Ok res
  | (key, val) :: rest => let? res := decode_field res key val in decode_fields res rest
  end.

(** The rules may only name classes of [cluster_storage]; their classes are
    sorted in place. *)
Fixpoint check_rules (avail : list string) (rules : list ExcludeNodeStorage) :
    result config_error (list ExcludeNodeStorage) :=
  match rules with
  | [] => Ok []
  | exl :: rest =>
      match List.find (fun sc => negb (bool_decide (sc ∈ avail))) (Classes exl) with
      | Some sc => Err (errUnknownClass sc)
      | None => let? rs := check_rules avail rest in
                Ok (mkExcludeStorage (NodeFilter exl) (sort_strings (Classes exl)) :: rs)
      end
  end.

(** [Config.UnmarshalYAML]. *)
Definition Config_UnmarshalYAML (node : yaml_node) : result config_error Config :=
  let? res := decode_fields zero_config (yaml_content node) in
  let? rules := check_rules (ClusterStorage res) (NodeStorage (Excludes res)) in
  Ok (mkConfig (Version res) (sort_strings (ClusterStorage res))
        (mkExclude (Nodes (Excludes res)) rules) (ResourcePatterns res) (dirty res)).

(** ** Exclusions *)

(** [Config.Copy]: the version is not carried over. *)
Definition Copy (cfg : Config) : Config :=
  mkConfig version_zero (ClusterStorage cfg) (Excludes cfg) (ResourcePatterns cfg) false.

Definition IsNodeExcluded (e : Exclude) (name : string) : bool :=
  existsb (fun r => MatchString r name) (Nodes e).

Definition IsStorageNodeExcluded (e : Exclude) (name class : string) : bool :=
  existsb (fun r => existsb (fun c => String.eqb c class && MatchString (NodeFilter r) name) (Classes r))
    (NodeStorage e).

Definition HasStorageClass (cfg : Config) (name : string) : bool :=
  existsb (fun class => String.eqb class name) (ClusterStorage cfg).

(** The inner loop of [FilterOutStorageClasses]: the range is over the slice as
    it was, so it visits [n] positions of the array whatever is removed. *)
Fixpoint drop_missing (requested : list string) (n j : nat) (s : slice string) : option (slice string) :=
  match n with
  | O => Some s
  | S n' =>
      match back s !! j with
      | None => None
      | Some class =>
          if bool_decide (class ∈ requested) then drop_missing requested n' (S j) s
          else match remove s j with
               | None => None
               | Some s' => drop_missing requested n' (S j) s'
               end
      end
  end.

Fixpoint filter_rules (requested : list string) (rules : list ExcludeNodeStorage) :
    option (list ExcludeNodeStorage) :=
  match rules with
  | [] => Some []
  | rule :: rest =>
      match drop_missing requested (List.length (Classes rule)) 0 (fresh (Classes rule)) with
      | None => None
      | Some s => cons (mkExcludeStorage (NodeFilter rule) (elems s)) <$> filter_rules requested rest
      end
  end.

(** [requestedSc] after the classes that are not present are deleted from it. *)
Definition requested_classes `{GoRange} (cfg : Config) (available : list string) : list string :=
  range_set (list_to_set (List.filter (fun sc => bool_decide (sc ∈ available)) (ClusterStorage cfg))).

(** [Config.FilterOutStorageClasses]; [None] is a panic. *)
Definition FilterOutStorageClasses `{GoRange} (cfg : Config) (available : list string) : option Config :=
  if bool_decide (ClusterStorage cfg = available) then Some cfg
  else
    let requested := requested_classes cfg available in
    (fun rules => mkConfig (Version cfg) (sort_strings requested)
                    (mkExclude (Nodes (Excludes cfg)) rules) (ResourcePatterns cfg) true)
      <$> filter_rules requested (NodeStorage (Excludes cfg)).

(** The innermost loop of [StorageClassesForNode], again over the slice as it was. *)
Fixpoint drop_class (eClass : string) (n i : nat) (sc : slice string) : option (slice string) :=
  match n with
  | O => Some sc
  | S n' =>
      match back sc !! i with
      | None => None
      | Some class =>
          if String.eqb eClass class
          then match remove sc i with
               | None => None
               | Some sc' => drop_class eClass n' (S i) sc'
               end
          else drop_class eClass n' (S i) sc
      end
  end.

Fixpoint drop_classes (eClasses : list string) (sc : slice string) : option (slice string) :=
  match eClasses with
  | [] => Some sc
  | eClass :: rest =>
      match drop_class eClass (len sc) 0 sc with
      | None => None
      | Some sc' => drop_classes rest sc'
      end
  end.

Fixpoint apply_rules (name : string) (rules : list ExcludeNodeStorage) (sc : slice string) :
    option (slice string) :=
  match rules with
  | [] => Some sc
  | rule :: rest =>
      if MatchString (NodeFilter rule) name
      then match drop_classes (Classes rule) sc with
           | None => None
           | Some sc' => apply_rules name rest sc'
           end
      else apply_rules name rest sc
  end.

(** [Config.StorageClassesForNode]. *)
Definition StorageClassesForNode (cfg : Config) (name : string) : option (list string) :=
  elems <$> apply_rules name (NodeStorage (Excludes cfg)) (fresh (ClusterStorage cfg)).

(** What a node may offer: the configured classes that exist, less those an
    exclusion rule keeps from it. *)
Definition offers (cfg : Config) (available : list string) (name class : string) : Prop :=
  class ∈ ClusterStorage cfg /\ class ∈ available /\ IsStorageNodeExcluded (Excludes cfg) name class = false.

(** ** Loading *)

(** [defaultConfig] and [loadConfig]: [parse] is [yaml.Unmarshal] with
    [Config_UnmarshalYAML] on the document it finds, [ReadFile] reads the
    configured file. *)
Definition defaultConfig : string :=
"---
version: v1
cluster_storage: []
exclude:
  nodes: []
  node_storage: []
interconnect:
  resource_patterns: []
"%string.

Inductive load_error := errRead | errConfig (e : config_error).

Definition loadConfig (parse : string -> result config_error Config) (ReadFile : option string)
    (cfg : string) (defaultOnErr : bool) : Config * option load_error :=
  let fallback :=
    if defaultOnErr then match parse defaultConfig with Ok c => c | Err _ => zero_config end else zero_config in
  let decode (data : string) :=
    match parse data with Ok c => (c, None) | Err e => (fallback, Some (errConfig e)) end in
  if String.eqb cfg "" then decode defaultConfig
  else if has_suffix cfg "yaml"
       then match ReadFile with None => (fallback, Some errRead) | Some data => decode data end
       else decode cfg.

End Config.

(** ** Slices that share an array *)

Definition slice_ok {A} (s : slice A) : Prop := (len s <= List.length (back s))%nat.

Lemma fresh_ok {A} (l : list A) : slice_ok (fresh l).
Proof. by unfold slice_ok, fresh. Qed.

Lemma elems_fresh {A} (l : list A) : elems (fresh l) = l.
Proof. by apply take_ge. Qed.

Lemma length_elems {A} (s : slice A) : slice_ok s -> List.length (elems s) = len s.
Proof. intros Hs. unfold elems. rewrite length_take. unfold slice_ok in Hs. lia. Qed.

Lemma elems_lookup {A} (s : slice A) i : (i < len s)%nat -> elems s !! i = back s !! i.
Proof. intros Hi. by apply lookup_take_lt. Qed.

(** What [remove] leaves in the array. *)
Lemma remove_spec {A} (s s' : slice A) i :
  slice_ok s -> remove s i = Some s' ->
  (i < len s)%nat /\ len s' = (len s - 1)%nat /\ List.length (back s') = List.length (back s) /\
  slice_ok s' /\
  (forall k, (k < i)%nat -> back s' !! k = back s !! k) /\
  (forall k, (i <= k < len s - 1)%nat -> back s' !! k = back s !! S k) /\
  (forall k, (len s - 1 <= k)%nat -> back s' !! k = back s !! k).
Proof.
  unfold slice_ok, remove. intros Hok. destruct (Nat.leb_spec (S i) (len s)) as [Hi|]; [|done].
  intros [= <-]. simpl.
  assert (Hlen : List.length (take i (back s) ++ take (len s - S i) (drop (S i) (back s))
                    ++ drop (len s - 1) (back s)) = List.length (back s)).
  { rewrite !length_app, !length_take, !length_drop. lia. }
  repeat split; try done; try lia; intros k Hk.
  - rewrite lookup_app_l by (rewrite length_take; lia). by rewrite lookup_take_lt by lia.
  - rewrite lookup_app_r by (rewrite length_take; lia). rewrite length_take.
    rewrite lookup_app_l by (rewrite length_take, length_drop; lia).
    rewrite lookup_take_lt, lookup_drop by lia. f_equal. lia.
  - rewrite lookup_app_r by (rewrite length_take; lia). rewrite length_take.
    rewrite lookup_app_r by (rewrite length_take, length_drop; lia).
    rewrite length_take, length_drop, lookup_drop. f_equal. lia.
Qed.

Lemma elems_remove {A} (s s' : slice A) i :
  slice_ok s -> remove s i = Some s' -> elems s' = remove_at i (elems s).
Proof.
  intros Hok Hr. destruct (remove_spec s s' i Hok Hr) as (Hi & Hl & Hb & Hok' & Hlo & Hmid & _).
  apply list_eq. intros k. unfold remove_at. destruct (decide (k < len s')%nat) as [Hk|Hk].
  - rewrite elems_lookup by done. destruct (decide (k < i)%nat).
    + rewrite Hlo by lia. rewrite lookup_app_l by (rewrite length_take, length_elems by done; lia).
      by rewrite lookup_take_lt, elems_lookup by lia.
    + rewrite Hmid by lia. rewrite lookup_app_r by (rewrite length_take, length_elems by done; lia).
      rewrite length_take, length_elems, lookup_drop, elems_lookup by (done || lia). f_equal. lia.
  - rewrite !lookup_ge_None_2; [done| |].
    + rewrite length_app, length_take, length_drop, length_elems by done. lia.
    + rewrite length_elems by done. lia.
Qed.

Lemma remove_total {A} (s : slice A) i : (i < len s)%nat -> exists s', remove s i = Some s'.
Proof. intros Hi. unfold remove. destruct (Nat.leb_spec (S i) (len s)); [eauto|lia]. Qed.

Lemma remove_past_end {A} (s : slice A) i : (len s <= i)%nat -> remove s i = None.
Proof. intros Hi. unfold remove. destruct (Nat.leb_spec (S i) (len s)); [lia|done]. Qed.

Lemma elem_of_slice_remove {A} (l : list A) i x y :
  l !! i = Some y -> x ∈ l -> x <> y -> x ∈ remove_at i l.
Proof.
  intros Hi Hx Hne. rewrite <- (take_drop_middle l i y Hi) in Hx. unfold remove_at.
  apply elem_of_app in Hx as [Hx|Hx]; [apply elem_of_app; by left|].
  apply elem_of_cons in Hx as [->|Hx]; [done|]. apply elem_of_app. by right.
Qed.

Lemma remove_at_elem_of {A} (l : list A) i x : x ∈ remove_at i l -> x ∈ l.
Proof.
  unfold remove_at. intros [Hx|Hx]%elem_of_app.
  - rewrite <- (take_drop i l). apply elem_of_app. by left.
  - rewrite <- (take_drop (S i) l). apply elem_of_app. by right.
Qed.

(** ** The rules that stay *)

Section ConfigProofs.
Context `{ConfigAPI}.

Section DropMissing.
Variable requested : list string.

(** Only classes that are not requested are taken out of a rule. *)
Lemma drop_missing_content n j s s' :
  slice_ok s -> drop_missing requested n j s = Some s' ->
  slice_ok s' /\ (forall x, x ∈ elems s' -> x ∈ elems s) /\
  (forall x, x ∈ requested -> x ∈ elems s -> x ∈ elems s').
Proof.
  revert j s. induction n as [|n IH]; intros j s Hok E; simpl in E.
  - injection E as <-. done.
  - destruct (back s !! j) as [class|] eqn:Hj; [|done]. case_bool_decide as Hreq; [by apply (IH (S j))|].
    destruct (remove s j) as [s1|] eqn:Hr; [|done].
    destruct (remove_spec s s1 j Hok Hr) as (Hlt & _ & _ & Hok1 & _).
    destruct (IH (S j) s1 Hok1 E) as (Hok' & Hsub & Hkeep). split; [done|].
    rewrite (elems_remove s s1 j Hok Hr) in Hsub, Hkeep.
    split; intros x.
    + intros Hx. by eapply remove_at_elem_of, Hsub.
    + intros Hx Hin. apply Hkeep; [done|]. eapply elem_of_slice_remove; [by rewrite elems_lookup|done|congruence].
Qed.

(** From the slice's last element on, the array holds the rule's last class. *)
Definition tail_is (last : string) (s : slice string) : Prop :=
  slice_ok s /\ (0 < len s)%nat /\
  forall k, (len s - 1 <= k < List.length (back s))%nat -> back s !! k = Some last.

Lemma tail_remove last s s' j :
  tail_is last s -> (j < len s - 1)%nat -> remove s j = Some s' ->
  tail_is last s' /\ len s' = (len s - 1)%nat /\ List.length (back s') = List.length (back s).
Proof.
  intros (Hok & Hpos & Htail) Hj Hr.
  destruct (remove_spec s s' j Hok Hr) as (_ & Hl & Hb & Hok' & _ & Hmid & Hhi).
  repeat split; [done|lia| |done|done].
  unfold slice_ok in Hok. intros k Hk. rewrite Hl, Hb in Hk. destruct (decide (k < len s - 1)%nat).
  - rewrite Hmid by lia. apply Htail. lia.
  - rewrite Hhi by lia. apply Htail. lia.
Qed.

(** A requested last class: nothing is ever removed past the slice. *)
Lemma drop_missing_safe last n j s :
  tail_is last s -> last ∈ requested -> (j + n = List.length (back s))%nat ->
  exists s', drop_missing requested n j s = Some s'.
Proof.
  revert j s. induction n as [|n IH]; intros j s Ht Hlast Hn; simpl; [eauto|].
  destruct (lookup_lt_is_Some_2 (back s) j) as [class Hj]; [lia|]. rewrite Hj.
  case_bool_decide as Hreq; [apply IH; [done|done|lia]|].
  assert (Hlt : (j < len s - 1)%nat).
  { destruct (decide (j < len s - 1)%nat) as [|Hge]; [done|]. destruct Ht as (_ & _ & Ht).
    rewrite Ht in Hj by lia. congruence. }
  destruct (remove_total s j) as [s1 Hr]; [lia|]. rewrite Hr.
  destruct (tail_remove last s s1 j Ht Hlt Hr) as (Ht1 & _ & Hb). apply IH; [done|done|lia].
Qed.

(** A last class that is not requested, after a removal: the loop comes to a
    position past the slice that holds it. *)
Lemma drop_missing_panics last n j s :
  tail_is last s -> last ∉ requested -> (j + n = List.length (back s))%nat ->
  (len s < List.length (back s))%nat -> (0 < n)%nat -> drop_missing requested n j s = None.
Proof.
  revert j s. induction n as [|n IH]; intros j s Ht Hlast Hn Hshort Hpos; [lia|]. simpl.
  destruct (lookup_lt_is_Some_2 (back s) j) as [class Hj]; [lia|]. rewrite Hj.
  pose proof Ht as (Hok & Hlen & Htail).
  case_bool_decide as Hreq.
  - apply IH; [done|done|lia|done|]. destruct n; [|lia].
    rewrite Htail in Hj by lia. congruence.
  - destruct (decide (len s <= j)%nat) as [Hge|Hlt]; [by rewrite remove_past_end|].
    destruct (remove_total s j) as [s1 Hr]; [lia|]. rewrite Hr.
    destruct (decide (j < len s - 1)%nat) as [Hin|Hat].
    + destruct (tail_remove last s s1 j Ht Hin Hr) as (Ht1 & Hl & Hb). apply IH; [done|done|lia|lia|lia].
    + destruct (remove_spec s s1 j Hok Hr) as (_ & Hl & Hb & _ & _ & _ & Hhi).
      destruct n as [|n]; [lia|]. simpl. rewrite Hhi, Htail by lia.
      rewrite bool_decide_eq_false_2 by done. by rewrite remove_past_end by lia.
Qed.

(** Before any removal the loop panics exactly when the last class and one of
    those still ahead of it are not requested. *)
Lemma drop_missing_untouched last pre n j :
  (j + n = S (List.length pre))%nat ->
  drop_missing requested n j (fresh (pre ++ [last])) = None <->
  (last ∉ requested) /\ exists x, x ∈ drop j pre /\ x ∉ requested.
Proof.
  assert (Hl : List.length (pre ++ [last]) = S (List.length pre)) by (rewrite length_app; simpl; lia).
  assert (Ht : tail_is last (fresh (pre ++ [last]))).
  { split; [apply fresh_ok|]. simpl. split; [lia|]. intros k Hk.
    replace k with (List.length pre) by lia. rewrite lookup_app_r by lia. by rewrite Nat.sub_diag. }
  revert j. induction n as [|n IH]; intros j Hn.
  - split; [done|]. intros (_ & x & Hx & _). rewrite drop_ge in Hx by lia. by apply not_elem_of_nil in Hx.
  - cbn [drop_missing fresh back]. destruct (decide (j < List.length pre)%nat) as [Hj|Hj].
    + destruct (lookup_lt_is_Some_2 pre j Hj) as [class Hc]. rewrite lookup_app_l, Hc by done.
      case_bool_decide as Hreq.
      * rewrite (IH (S j)) by lia. rewrite (drop_S pre class j Hc). split; intros (Hlast & x & Hx & Hn');
          (split; [done|]); exists x; (split; [|done]).
        -- by right.
        -- apply elem_of_cons in Hx as [->|Hx]; done.
      * destruct (remove_total (fresh (pre ++ [last])) j) as [s1 Hr]; [simpl; lia|].
        change (mkSlice (pre ++ [last]) (List.length (pre ++ [last]))) with (fresh (pre ++ [last])). rewrite Hr.
        destruct (tail_remove last _ s1 j Ht) as (Ht1 & Hl1 & Hb1); [simpl; lia|done|]. simpl in Hl1, Hb1.
        destruct (decide (last ∈ requested)) as [Hlast|Hlast].
        -- destruct (drop_missing_safe last n (S j) s1 Ht1 Hlast) as [s2 ->]; [lia|]. split; [done|].
           by intros [? _].
        -- rewrite (drop_missing_panics last n (S j) s1 Ht1 Hlast) by lia.
           split; [|done]. intros _. split; [done|]. exists class. split; [|done].
           rewrite (drop_S pre class j Hc). left.
    + assert (j = List.length pre) as -> by lia. rewrite lookup_app_r, Nat.sub_diag by lia. simpl.
      assert (n = 0)%nat as -> by lia. rewrite drop_all. split; [|intros (_ & x & Hx & _); by apply not_elem_of_nil in Hx].
      case_bool_decide; [done|].
      change (mkSlice (pre ++ [last]) (List.length (pre ++ [last]))) with (fresh (pre ++ [last])).
      destruct (remove_total (fresh (pre ++ [last])) (List.length pre)) as [s1 ->]; [simpl; lia|done].
Qed.

Lemma drop_missing_panic_iff classes :
  drop_missing requested (List.length classes) 0 (fresh classes) = None <->
  exists pre last x, classes = pre ++ [last] /\ (last ∉ requested) /\ x ∈ pre /\ x ∉ requested.
Proof.
  destruct classes as [|last pre _] using rev_ind.
  - simpl. split; [done|]. intros (pre & last & x & E & _). by destruct pre.
  - rewrite length_app. simpl. rewrite drop_missing_untouched by lia. rewrite drop_0. split.
    + intros (Hl & x & Hx & Hn). by exists pre, last, x.
    + intros (pre' & last' & x & E & Hl & Hx & Hn). apply app_inj_tail in E as [-> ->]. eauto.
Qed.

Lemma filter_rules_panic_iff rules :
  filter_rules requested rules = None <->
  exists rule, rule ∈ rules /\
    drop_missing requested (List.length (Classes rule)) 0 (fresh (Classes rule)) = None.
Proof.
  induction rules as [|rule rest IH]; simpl.
  - split; [done|]. intros (r & Hr & _). by apply not_elem_of_nil in Hr.
  - destruct (drop_missing _ _ _ _) as [s|] eqn:E.
    + destruct (filter_rules requested rest) as [rs|] eqn:Ef; simpl.
      * split; [done|]. intros (r & [->|Hr]%elem_of_cons & Hn); [congruence|].
        assert (Some rs = None) as [=]. apply IH. eauto.
      * split; [|done]. intros _. destruct (proj1 IH eq_refl) as (r & Hr & Hn). exists r. split; [by right|done].
    + split; [|done]. intros _. exists rule. split; [left|done].
Qed.

(** For a requested class the rules that stay exclude what the rules did. *)
Lemma filter_rules_exclude rules rules' name class nodes :
  filter_rules requested rules = Some rules' -> class ∈ requested ->
  IsStorageNodeExcluded (mkExclude nodes rules') name class = IsStorageNodeExcluded (mkExclude nodes rules) name class.
Proof.
  intros E Hreq. unfold IsStorageNodeExcluded. simpl. revert rules' E.
  induction rules as [|rule rest IH]; intros rules' E; simpl in E; [by injection E as <-|].
  destruct (drop_missing _ _ _ _) as [s|] eqn:Ed; [|done].
  destruct (filter_rules requested rest) as [rs|]; [|done]. injection E as <-. simpl.
  rewrite (IH rs eq_refl). f_equal.
  destruct (drop_missing_content _ _ _ s (fresh_ok _) Ed) as (_ & Hsub & Hkeep). rewrite elems_fresh in Hsub, Hkeep.
  apply eq_bool_prop_intro. rewrite !Is_true_true, !existsb_exists.
  split; intros (c & Hc & Hm); exists c; (split; [|done]);
    apply andb_true_iff in Hm as [->%String.eqb_eq _]; apply list_elem_of_In in Hc; apply list_elem_of_In;
    [by apply Hsub|by apply Hkeep].
Qed.

End DropMissing.

(** ** The classes left for a node *)

Lemma drop_class_absent e n i sc :
  (forall k, (i <= k < i + n)%nat -> exists c, back sc !! k = Some c /\ c <> e) ->
  drop_class e n i sc = Some sc.
Proof.
  revert i. induction n as [|n IH]; intros i Hk; [done|]. simpl.
  destruct (Hk i) as (c & -> & Hne); [lia|]. rewrite (proj2 (String.eqb_neq _ _)) by congruence.
  apply IH. intros k Hr. apply Hk. lia.
Qed.

Lemma remove_at_filter (l : list string) i e :
  NoDup l -> l !! i = Some e -> remove_at i l = filter (fun c => c <> e) l.
Proof.
  intros Hnd Hi. unfold remove_at. rewrite <- (take_drop_middle l i e Hi) in Hnd |- * at 3.
  apply list.NoDup_app in Hnd as (_ & Hpre & Hpost). apply list.NoDup_cons in Hpost as [Hpost _].
  rewrite list.filter_app, filter_cons_False by naive_solver. f_equal; symmetry; apply list_filter_all.
  - intros x Hx ->. apply (Hpre e Hx). left.
  - intros x Hx ->. done.
Qed.

(** With distinct classes one pass takes out exactly the class it looks for. *)
Lemma drop_class_spec e n i sc :
  slice_ok sc -> NoDup (elems sc) -> (i + n = len sc)%nat -> (forall k, (k < i)%nat -> elems sc !! k <> Some e) ->
  exists sc', drop_class e n i sc = Some sc' /\ slice_ok sc' /\ elems sc' = filter (fun c => c <> e) (elems sc).
Proof.
  revert i. induction n as [|n IH]; intros i Hok Hnd Hn Hbefore.
  - exists sc. split; [done|]. split; [done|]. symmetry. apply list_filter_all.
    intros x Hx ->. apply list_elem_of_lookup in Hx as [k Hk]. apply (Hbefore k); [|done].
    apply lookup_lt_Some in Hk. rewrite length_elems in Hk by done. lia.
  - simpl. destruct (lookup_lt_is_Some_2 (back sc) i) as [class Hi]; [unfold slice_ok in Hok; lia|]. rewrite Hi.
    destruct (String.eqb_spec e class) as [<-|Hne].
    + destruct (remove_total sc i) as [s1 Hr]; [lia|]. rewrite Hr.
      destruct (remove_spec sc s1 i Hok Hr) as (_ & Hl & Hb & Hok1 & _ & Hmid & Hhi).
      assert (Hat : elems sc !! i = Some e) by (rewrite elems_lookup by lia; done).
      exists s1. split; [|split; [done|]].
      * apply drop_class_absent. intros k Hk.
        destruct (lookup_lt_is_Some_2 (back s1) k) as [c Hc]; [unfold slice_ok in Hok; lia|].
        exists c. split; [done|]. intros ->.
        destruct (decide (k < len sc - 1)%nat) as [Hlt|Hge]; [rewrite Hmid in Hc by lia|rewrite Hhi in Hc by lia].
        -- rewrite <- elems_lookup in Hc by lia. pose proof (NoDup_lookup _ _ _ _ Hnd Hc Hat). lia.
        -- rewrite <- elems_lookup in Hc by lia. pose proof (NoDup_lookup _ _ _ _ Hnd Hc Hat). lia.
      * rewrite (elems_remove sc s1 i Hok Hr). by apply remove_at_filter.
    + apply IH; [done|done|lia|]. intros k Hk. destruct (decide (k = i)) as [->|]; [|apply Hbefore; lia].
      rewrite elems_lookup by lia. congruence.
Qed.

Lemma drop_classes_spec es sc :
  slice_ok sc -> NoDup (elems sc) ->
  exists sc', drop_classes es sc = Some sc' /\ slice_ok sc' /\ elems sc' = filter (fun c => c ∉ es) (elems sc).
Proof.
  revert sc. induction es as [|e es IH]; intros sc Hok Hnd; simpl.
  - exists sc. split; [done|]. split; [done|]. symmetry. apply list_filter_all.
    intros x _. apply not_elem_of_nil.
  - destruct (drop_class_spec e (len sc) 0 sc Hok Hnd) as (s1 & -> & Hok1 & E1); [done|lia|].
    destruct (IH s1 Hok1) as (s2 & -> & Hok2 & E2); [rewrite E1; by apply list.NoDup_filter|].
    exists s2. split; [done|]. split; [done|]. rewrite E2, E1, list_filter_filter.
    apply list_filter_iff. intros x. rewrite elem_of_cons. tauto.
Qed.

(** A class some matching rule names. *)
Lemma excluded_spec e name class :
  IsStorageNodeExcluded e name class = true <->
  exists r, r ∈ NodeStorage e /\ MatchString (NodeFilter r) name = true /\ class ∈ Classes r.
Proof.
  unfold IsStorageNodeExcluded. rewrite existsb_exists. split.
  - intros (r & Hr%list_elem_of_In & Hc). apply existsb_exists in Hc as (c & Hc%list_elem_of_In & Hm).
    apply andb_true_iff in Hm as [->%String.eqb_eq Hm]. eauto.
  - intros (r & Hr & Hm & Hc). exists r. split; [by apply list_elem_of_In|]. apply existsb_exists.
    exists class. split; [by apply list_elem_of_In|]. by rewrite String.eqb_refl, Hm.
Qed.

Lemma apply_rules_spec name rules sc :
  slice_ok sc -> NoDup (elems sc) ->
  exists sc', apply_rules name rules sc = Some sc' /\ slice_ok sc' /\ NoDup (elems sc') /\
    forall c, c ∈ elems sc' <->
      c ∈ elems sc /\ ~ exists r, r ∈ rules /\ MatchString (NodeFilter r) name = true /\ c ∈ Classes r.
Proof.
  revert sc. induction rules as [|rule rules IH]; intros sc Hok Hnd; simpl.
  - exists sc. do 3 (split; [done|]). intros c. split; [|by intros [? _]]. intros Hc. split; [done|].
    intros (r & Hr & _). by apply not_elem_of_nil in Hr.
  - destruct (MatchString (NodeFilter rule) name) eqn:Hm.
    + destruct (drop_classes_spec (Classes rule) sc Hok Hnd) as (s1 & -> & Hok1 & E1).
      destruct (IH s1 Hok1) as (s2 & -> & Hok2 & Hnd2 & Hin); [rewrite E1; by apply list.NoDup_filter|].
      exists s2. do 3 (split; [done|]). intros c. rewrite Hin, E1, list_elem_of_filter. split.
      * intros [[Hn Hc] Hr]. split; [done|]. intros (r & [->|Hrr]%elem_of_cons & Hmr & Hcr); [done|]. eauto.
      * intros [Hc Hr]. split; [split; [|done]|]; [intros Hcr; apply Hr; exists rule; by repeat (left || split)|].
        intros (r & Hrr & Hmr & Hcr). apply Hr. exists r. split; [by right|done].
    + destruct (IH sc Hok Hnd) as (s2 & -> & Hok2 & Hnd2 & Hin). exists s2. do 3 (split; [done|]).
      intros c. rewrite Hin. split; intros [Hc Hr]; (split; [done|]); intros (r & Hrr & Hmr & Hcr); apply Hr.
      * apply elem_of_cons in Hrr as [->|Hrr]; [congruence|]. eauto.
      * exists r. split; [by right|done].
Qed.

Lemma elem_of_requested `{GoRange} cfg available class :
  class ∈ requested_classes cfg available <-> class ∈ ClusterStorage cfg /\ class ∈ available.
Proof.
  unfold requested_classes. rewrite elem_of_range_set, elem_of_list_to_set, list_elem_of_In, filter_In.
  rewrite <- list_elem_of_In, bool_decide_eq_true. done.
Qed.

Lemma sort_strings_perm l : sort_strings l ≡ₚ l.
Proof. apply merge_sort_Permutation. Qed.

Lemma sort_strings_sorted l : Sorted String.le (sort_strings l).
Proof. apply Sorted_merge_sort, _. Qed.

Lemma requested_nodup `{GoRange} cfg available : NoDup (requested_classes cfg available).
Proof. unfold requested_classes. rewrite range_set_perm. apply NoDup_elements. Qed.

(** C30: once the configuration has been cut down to the storage classes that
    exist, the classes a node is given are exactly the configured ones that exist
    and that no exclusion rule keeps from the node, each once; editing the rules
    and the list in place while ranging over them loses none and keeps none. *)
Theorem storage_classes_exact `{GoRange} cfg cfg' available name :
  NoDup available -> FilterOutStorageClasses (Copy cfg) available = Some cfg' ->
  exists classes, StorageClassesForNode cfg' name = Some classes /\ NoDup classes /\
    forall class, class ∈ classes <-> offers cfg available name class.
Proof.
  intros Hnd E. unfold FilterOutStorageClasses in E.
  assert (Hcfg : NoDup (ClusterStorage cfg') /\ (forall c, c ∈ ClusterStorage cfg' <->
            c ∈ ClusterStorage cfg /\ c ∈ available) /\
          forall c, c ∈ ClusterStorage cfg' ->
            IsStorageNodeExcluded (Excludes cfg') name c = IsStorageNodeExcluded (Excludes cfg) name c).
  { case_bool_decide as Heq; simpl in *.
    - injection E as <-. simpl. rewrite Heq. split; [done|]. split; [tauto|done].
    - destruct (filter_rules _ _) as [rules|] eqn:Ef; [|done]. injection E as <-. simpl.
      split; [rewrite sort_strings_perm; apply requested_nodup|].
      split; [intros c; rewrite sort_strings_perm; by apply (elem_of_requested (Copy cfg))|].
      intros c. rewrite sort_strings_perm. intros Hc. destruct cfg as [v cs [nodes rs] rp d]. simpl in *.
      by apply (filter_rules_exclude _ _ _ _ _ _ Ef). }
  destruct Hcfg as (Hnd' & Hin & Hex). unfold StorageClassesForNode.
  destruct (apply_rules_spec name (NodeStorage (Excludes cfg')) (fresh (ClusterStorage cfg'))) as
    (s & -> & _ & Hs & Hc); [apply fresh_ok|by rewrite elems_fresh|].
  exists (elems s). split; [done|]. split; [done|]. intros class. rewrite Hc, elems_fresh, <- excluded_spec.
  unfold offers. rewrite Hin. split.
  - intros [[Hcs Hav] Hno]. split; [done|]. split; [done|]. rewrite <- Hex by (by apply Hin).
    by apply not_true_is_false.
  - intros (Hcs & Hav & Hno). split; [done|]. rewrite Hex, Hno by (by apply Hin). done.
Qed.

(** Cutting the configuration down to the classes that exist panics exactly
    when some exclusion rule names, besides a last class that is not both
    configured and present, another such class before it: the loop goes on to
    positions the shortened list no longer has. *)
Theorem filter_panics_iff `{GoRange} cfg available :
  FilterOutStorageClasses cfg available = None <->
  ClusterStorage cfg <> available /\
  exists rule pre last x, rule ∈ NodeStorage (Excludes cfg) /\ Classes rule = pre ++ [last] /\ x ∈ pre /\
    ~ (x ∈ ClusterStorage cfg /\ x ∈ available) /\ ~ (last ∈ ClusterStorage cfg /\ last ∈ available).
Proof.
  unfold FilterOutStorageClasses. case_bool_decide as Heq; [split; [done|by intros [? _]]|].
  rewrite fmap_None, filter_rules_panic_iff. setoid_rewrite drop_missing_panic_iff.
  setoid_rewrite elem_of_requested. split.
  - intros (rule & Hr & pre & last & x & E & Hl & Hx & Hn). split; [done|]. by exists rule, pre, last, x.
  - intros (_ & rule & pre & last & x & Hr & E & Hx & Hn & Hl). exists rule. split; [done|]. by exists pre, last, x.
Qed.

(** ** What a loaded document satisfies *)

Lemma check_rules_spec avail rules rules' :
  check_rules avail rules = Ok rules' ->
  forall r c, r ∈ rules' -> c ∈ Classes r -> c ∈ avail.
Proof.
  revert rules'. induction rules as [|exl rest IH]; intros rules' E r c Hr Hc; simpl in E.
  - injection E as <-. by apply not_elem_of_nil in Hr.
  - destruct (List.find _ _) eqn:Ef; [done|]. destruct (check_rules avail rest) as [rs|]; [|done].
    injection E as <-. apply elem_of_cons in Hr as [->|Hr]; [|by apply (IH rs eq_refl r)].
    simpl in Hc. rewrite sort_strings_perm in Hc.
    pose proof (List.find_none _ _ Ef c (proj1 (list_elem_of_In _ _) Hc)) as Hn.
    apply negb_false_iff, bool_decide_eq_true in Hn. done.
Qed.

Lemma unmarshal_spec node cfg :
  Config_UnmarshalYAML node = Ok cfg ->
  Sorted String.le (ClusterStorage cfg) /\
  forall r c, r ∈ NodeStorage (Excludes cfg) -> c ∈ Classes r -> c ∈ ClusterStorage cfg.
Proof.
  unfold Config_UnmarshalYAML. intros E. apply bind_result_Ok in E as (res & _ & E).
  apply bind_result_Ok in E as (rules & Ec & [= <-]). simpl. split; [apply sort_strings_sorted|].
  intros r c Hr Hc. rewrite sort_strings_perm. by apply (check_rules_spec _ _ _ Ec r).
Qed.

(** A document that loads and has an exclusion rule with two storage classes
    makes the operator panic as soon as labels are generated while no storage
    class has been seen yet, which is the first thing the storage class watcher
    publishes. *)
Theorem loaded_config_panics_before_classes `{GoRange} node cfg rule a b rest :
  Config_UnmarshalYAML node = Ok cfg -> rule ∈ NodeStorage (Excludes cfg) -> Classes rule = a :: b :: rest ->
  FilterOutStorageClasses (Copy cfg) [] = None.
Proof.
  intros E Hr Hc. apply filter_panics_iff. simpl.
  destruct (unmarshal_spec node cfg E) as [_ Hsub].
  assert (Ha : a ∈ ClusterStorage cfg) by (apply (Hsub rule); [done|rewrite Hc; left]).
  split; [intros Hnil; rewrite Hnil in Ha; by apply not_elem_of_nil in Ha|].
  destruct (exists_last (l := b :: rest)) as (pre & last & Hl); [done|].
  exists rule, (a :: pre), last, a. split; [done|]. split; [rewrite Hc, Hl; done|]. split; [left|].
  split; intros [_ Hn]; by apply not_elem_of_nil in Hn.
Qed.

End ConfigProofs.

(** ** Interconnect adapters

    [infiniband.go]: the directory's entries and the files below it are
    arguments. *)

Record IBDiscovery := mkIB { NCCLIBHCAPrefixes : list string; Fabric : string }.

Definition no_ib : IBDiscovery := mkIB [] "".

Definition is_digit (c : ascii) : bool :=
  let n := nat_of_ascii c in (48 <=? n)%nat && (n <=? 57)%nat.

(** The string up to its trailing run of digits. *)
Fixpoint trim_digits (s : string) : string :=
  match s with
  | EmptyString => EmptyString
  | String c s' =>
      match trim_digits s' with
      | EmptyString => if is_digit c then EmptyString else String c EmptyString
      | t => String c t
      end
  end.

(** The string without a final underscore. *)
Fixpoint trim_underscore (s : string) : string :=
  match s with
  | EmptyString => EmptyString
  | String c EmptyString => if Ascii.eqb c "_" then EmptyString else s
  | String c s' => String c (trim_underscore s')
  end.

Definition familyPrefix (s : string) : string :=
  let t := trim_digits s in
  if String.eqb t s then s else trim_underscore t.

Fixpoint prefixes_loop (names seen : list string) : list string :=
  match names with
  | [] => []
  | n :: rest =>
      let p := familyPrefix n in
      if String.eqb p "" then prefixes_loop rest seen
      else if bool_decide (p ∈ seen) then prefixes_loop rest seen
      else p :: prefixes_loop rest (p :: seen)
  end.

Definition nccLHCAPrefixesOf (names : list string) : list string := prefixes_loop names [].

Definition fabricInfiniband : string := "infiniband".
Definition fabricRoCE : string := "roce".

(** [link_layer] of a device's first port. *)
Definition fabricOfFirstHCA (link_layer : string -> option string) (names : list string) : string :=
  match names with
  | [] => ""
  | first :: _ =>
      match link_layer first with
      | None => ""
      | Some raw =>
          let layer := trim_space (to_lower raw) in
          if String.eqb layer fabricInfiniband then fabricInfiniband
          else if String.eqb layer "ethernet" then fabricRoCE else ""
      end
  end.

Definition discoverInfinibandAt (entries : option (list string)) (link_layer : string -> option string) : IBDiscovery :=
  match entries with
  | None | Some [] => no_ib
  | Some names => mkIB (nccLHCAPrefixesOf names) (fabricOfFirstHCA link_layer names)
  end.

(** ** Resource patterns *)

(** [filepath.Match] on ASCII names: the pattern's terms, and a matcher in which
    a star and a question mark stop at a slash. *)
Inductive glob_term :=
| GStar
| GAny
| GLit (c : ascii)
| GClass (negated : bool) (ranges : list (ascii * ascii)).

(** [getEsc]: one character of a class, which may not be its end. *)
Definition class_char (s : string) : option (ascii * string) :=
  match s with
  | EmptyString => None
  | String c rest =>
      if Ascii.eqb c "-" || Ascii.eqb c "]" then None
      else
        let r := if Ascii.eqb c "\"
                 then match rest with EmptyString => None | String d rest' => Some (d, rest') end
                 else Some (c, rest) in
        match r with
        | Some (_, EmptyString) | None => None
        | Some p => Some p
        end
  end.

Fixpoint class_ranges (fuel : nat) (some : bool) (s : string) : option (list (ascii * ascii) * string) :=
  match fuel with
  | O => None
  | S fuel' =>
      match s with
      | String "]" rest => if some then Some ([], rest) else None
      | _ =>
          match class_char s with
          | None => None
          | Some (lo, String "-" rest) =>
              match class_char rest with
              | None => None
              | Some (hi, rest') => prod_map (cons (lo, hi)) id <$> class_ranges fuel' true rest'
              end
          | Some (lo, rest) => prod_map (cons (lo, lo)) id <$> class_ranges fuel' true rest
          end
      end
  end.

(** The terms of a pattern; [None] is [ErrBadPattern]. Every term consumes at
    least one character, so the pattern's length is enough fuel. *)
Fixpoint glob_terms (fuel : nat) (s : string) : option (list glob_term) :=
  match fuel with
  | O => match s with EmptyString => Some [] | _ => None end
  | S fuel' =>
      match s with
      | EmptyString => Some []
      | String "*" rest => cons GStar <$> glob_terms fuel' rest
      | String "?" rest => cons GAny <$> glob_terms fuel' rest
      | String "\" EmptyString => None
      | String "\" (String c rest) => cons (GLit c) <$> glob_terms fuel' rest
      | String "[" rest =>
          let '(negated, rest) := match rest with String "^" r => (true, r) | _ => (false, rest) end in
          match class_ranges (String.length rest) false rest with
          | None => None
          | Some (ranges, rest') => cons (GClass negated ranges) <$> glob_terms fuel' rest'
          end
      | String c rest => cons (GLit c) <$> glob_terms fuel' rest
      end
  end.

Definition in_range (c : ascii) (r : ascii * ascii) : bool :=
  (nat_of_ascii r.1 <=? nat_of_ascii c)%nat && (nat_of_ascii c <=? nat_of_ascii r.2)%nat.

Fixpoint glob_match (terms : list glob_term) : string -> bool :=
  match terms with
  | [] => fun s => String.eqb s ""
  | GStar :: rest =>
      fix star (s : string) : bool :=
        glob_match rest s ||
        match s with
        | EmptyString => false
        | String c s' => negb (Ascii.eqb c "/") && star s'
        end
  | GAny :: rest => fun s =>
      match s with
      | EmptyString => false
      | String c s' => negb (Ascii.eqb c "/") && glob_match rest s'
      end
  | GLit d :: rest => fun s =>
      match s with
      | EmptyString => false
      | String c s' => Ascii.eqb c d && glob_match rest s'
      end
  | GClass negated ranges :: rest => fun s =>
      match s with
      | EmptyString => false
      | String c s' => xorb negated (existsb (in_range c) ranges) && glob_match rest s'
      end
  end.

Definition DefaultInterconnectResourcePattern : string := "rdma/rdma_shared_device_*".

(** A malformed pattern matches nothing; one without a metacharacter is a prefix. *)
Definition resourcePatternMatches (pattern name : string) : bool :=
  if contains_char "*" pattern || contains_char "?" pattern || contains_char "[" pattern
  then match glob_terms (String.length pattern) pattern with
       | None => false
       | Some terms => glob_match terms name
       end
  else has_prefix name pattern.

(** The lexically smallest of the names that match one pattern. *)
Definition best_match (pattern : string) (names : list string) : string :=
  foldl (fun best name =>
           if resourcePatternMatches pattern name && (String.eqb best "" || String.ltb name best)
           then name else best) ""%string names.

Fixpoint first_match (patterns names : list string) : string :=
  match patterns with
  | [] => ""
  | p :: rest => let best := best_match p names in
                 if String.eqb best "" then first_match rest names else best
  end.

Definition effective_patterns (patterns : list string) : list string :=
  match patterns with [] => [DefaultInterconnectResourcePattern] | _ => patterns end.

Definition matchInterconnectResourceName `{GoRange} {A} (quantities : gmap string A) (patterns : list string) : string :=
  first_match (effective_patterns patterns) (range_map quantities).*1.

Example pattern_ib : resourcePatternMatches DefaultInterconnectResourcePattern "rdma/rdma_shared_device_ib" = true.
Proof. reflexivity. Qed.
Example pattern_slash : resourcePatternMatches "rdma/*" "rdma/a/b" = false.
Proof. reflexivity. Qed.
Example pattern_prefix : resourcePatternMatches "broadcom.com/rdma" "broadcom.com/rdma_1" = true.
Proof. reflexivity. Qed.
Example pattern_class : resourcePatternMatches "intel.com/[a-i]?arp" "intel.com/iwarp" = true.
Proof. reflexivity. Qed.
Example pattern_malformed : resourcePatternMatches "rdma/[" "rdma/[" = false.
Proof. reflexivity. Qed.
Example family_dot : familyPrefix "mlx5.0" = "mlx5."%string.
Proof. reflexivity. Qed.

Lemma str_ltb_le a b : if String.ltb a b then String.le a b else String.le b a.
Proof.
  unfold String.le, String.ltb, String.leb. rewrite (String.compare_antisym b a).
  by destruct (String.compare a b).
Qed.

Lemma best_match_spec pattern names :
  "" ∉ names ->
  (best_match pattern names = ""%string /\ forall n, n ∈ names -> resourcePatternMatches pattern n = false) \/
  (best_match pattern names ∈ names /\ resourcePatternMatches pattern (best_match pattern names) = true /\
   forall n, n ∈ names -> resourcePatternMatches pattern n = true -> String.le (best_match pattern names) n).
Proof.
  unfold best_match. induction names as [|x names IH] using rev_ind; intros Hne.
  - left. split; [done|]. intros n Hn. by apply not_elem_of_nil in Hn.
  - rewrite foldl_app. cbn [foldl]. apply not_elem_of_app in Hne as [Hne Hx].
    rewrite list_elem_of_singleton in Hx. set (b := foldl _ _ names) in *.
    destruct (resourcePatternMatches pattern x) eqn:Hm; cbn [andb].
    + destruct (IH Hne) as [[-> Hno]|(Hin & Hb & Hmin)]; cbn [String.eqb orb].
      * right. split; [apply elem_of_app; right; by apply list_elem_of_singleton|]. split; [done|].
        intros n [Hn| ->%list_elem_of_singleton]%elem_of_app Hmn; [by rewrite Hno in Hmn|reflexivity].
      * assert (Hbne : String.eqb b "" = false) by (apply String.eqb_neq; intros ->; by destruct Hne).
        rewrite Hbne. cbn [orb]. pose proof (str_ltb_le x b) as Hlt. destruct (String.ltb x b); right.
        -- split; [apply elem_of_app; right; by apply list_elem_of_singleton|]. split; [done|].
           intros n [Hn| ->%list_elem_of_singleton]%elem_of_app Hmn; [|reflexivity].
           etrans; [exact Hlt|]. by apply Hmin.
        -- split; [apply elem_of_app; by left|]. split; [done|].
           intros n [Hn| ->%list_elem_of_singleton]%elem_of_app Hmn; [by apply Hmin|done].
    + destruct (IH Hne) as [[Hb Hno]|(Hin & Hb & Hmin)]; [left|right].
      * split; [done|]. intros n [Hn| ->%list_elem_of_singleton]%elem_of_app; [by apply Hno|done].
      * split; [apply elem_of_app; by left|]. split; [done|].
        intros n [Hn| ->%list_elem_of_singleton]%elem_of_app Hmn; [by apply Hmin|congruence].
Qed.

Lemma best_match_perm pattern names names' :
  "" ∉ names -> names ≡ₚ names' -> best_match pattern names = best_match pattern names'.
Proof.
  intros Hne Hp. assert (Hne' : "" ∉ names') by (by rewrite <- Hp).
  destruct (best_match_spec pattern names Hne) as [[-> Hno]|(Hin & Hm & Hmin)];
    destruct (best_match_spec pattern names' Hne') as [[-> Hno']|(Hin' & Hm' & Hmin')].
  - done.
  - rewrite Hno in Hm'; [done|by rewrite Hp].
  - rewrite Hno' in Hm; [done|by rewrite <- Hp].
  - apply (anti_symm String.le); [apply Hmin; [by rewrite Hp|done]|apply Hmin'; [by rewrite <- Hp|done]].
Qed.

Lemma first_match_perm patterns names names' :
  "" ∉ names -> names ≡ₚ names' -> first_match patterns names = first_match patterns names'.
Proof.
  intros Hne Hp. induction patterns as [|p rest IH]; [done|]. cbn [first_match].
  by rewrite (best_match_perm p _ _ Hne Hp), IH.
Qed.

Lemma range_keys_nonempty `{GoRange} {A} (m : gmap string A) : m !! ""%string = None -> "" ∉ (range_map m).*1.
Proof. intros Hm [[k x] [Hk Hx]]%list_elem_of_fmap. apply elem_of_range_map in Hx. simpl in *. congruence. Qed.

(** The interconnect resource of a node is resolved to the same name whatever
    order the map of its resources is visited in. *)
Theorem interconnect_name_stable (R1 R2 : GoRange) {A} (quantities : gmap string A) patterns :
  quantities !! ""%string = None ->
  @matchInterconnectResourceName R1 A quantities patterns = @matchInterconnectResourceName R2 A quantities patterns.
Proof.
  intros Hne. apply first_match_perm; [by apply range_keys_nonempty|].
  by rewrite (@range_map_perm R1), (@range_map_perm R2).
Qed.

(** A resolved name is one the node advertises, the smallest that the first
    pattern with a match matches. *)
Lemma matched_name_spec `{GoRange} {A} (quantities : gmap string A) patterns n :
  quantities !! ""%string = None -> matchInterconnectResourceName quantities patterns = n -> n <> ""%string ->
  is_Some (quantities !! n) /\
  exists pre p post, effective_patterns patterns = pre ++ p :: post /\ resourcePatternMatches p n = true /\
    (forall m, is_Some (quantities !! m) -> resourcePatternMatches p m = true -> String.le n m) /\
    (forall q m, q ∈ pre -> is_Some (quantities !! m) -> resourcePatternMatches q m = false).
Proof.
  intros Hne Hn Hnn. unfold matchInterconnectResourceName in Hn.
  pose proof (range_keys_nonempty quantities Hne) as Hkeys.
  assert (Hdom : forall m, m ∈ (range_map quantities).*1 <-> is_Some (quantities !! m)).
  { intros m. rewrite list_elem_of_fmap. split.
    - intros ([k x] & -> & Hx%elem_of_range_map). by exists x.
    - intros [x Hx]. exists (m, x). split; [done|]. by apply elem_of_range_map. }
  revert Hn. induction (effective_patterns patterns) as [|p rest IH]; cbn [first_match]; [by intros <-|].
  destruct (best_match_spec p _ Hkeys) as [[-> Hno]|(Hin & Hm & Hmin)]; intros Hn.
  - destruct (IH Hn) as (Hd & pre & q & post & -> & Hq & Hsm & Hpre). split; [done|].
    exists (p :: pre), q, post. do 3 (split; [done|]). intros q' m [->|Hq']%elem_of_cons Hdm; [|by apply Hpre].
    apply Hno. by apply Hdom.
  - rewrite (proj2 (String.eqb_neq _ _)) in Hn by (intros E; rewrite E in Hin; done). subst n.
    split; [by apply Hdom|]. exists [], p, rest. do 2 (split; [done|]). split.
    + intros m Hdm. apply Hmin. by apply Hdom.
    + intros q m Hq. by apply not_elem_of_nil in Hq.
Qed.

(** ** Adapter families *)

Fixpoint all_digits (s : string) : bool :=
  match s with EmptyString => true | String c s' => is_digit c && all_digits s' end.

Lemma trim_digits_all d : all_digits d = true -> trim_digits d = ""%string.
Proof.
  induction d as [|c d IH]; [done|]. simpl. intros [Hc Hd]%andb_true_iff. by rewrite IH, Hc.
Qed.

Lemma trim_digits_app s d : all_digits d = true -> trim_digits (s +:+ d) = trim_digits s.
Proof.
  intros Hd. induction s as [|c s IH]; [by apply trim_digits_all|].
  change (trim_digits (String c (s +:+ d)) = trim_digits (String c s)). simpl. by rewrite IH.
Qed.

Lemma trim_digits_underscore f : trim_digits (f +:+ "_") = (f +:+ "_")%string.
Proof.
  induction f as [|c f IH]; [done|].
  change (trim_digits (String c (f +:+ "_")) = String c (f +:+ "_")). simpl. rewrite IH. by destruct f.
Qed.

Lemma trim_underscore_snoc f : trim_underscore (f +:+ "_") = f.
Proof.
  induction f as [|c f IH]; [done|]. change (trim_underscore (String c (f +:+ "_")) = String c f).
  rewrite <- IH at 2. by destruct f.
Qed.

Lemma str_app_assoc (a b c : string) : ((a +:+ b) +:+ c = a +:+ (b +:+ c))%string.
Proof. induction a as [|x a IH]; [done|]. change (String x ((a +:+ b) +:+ c) = String x (a +:+ (b +:+ c))). by rewrite IH. Qed.

Lemma str_app_inj_l (a b : string) : (a +:+ b)%string = a -> b = ""%string.
Proof. induction a as [|x a IH]; [done|]. intros E. change (String x (a +:+ b) = String x a) in E. apply IH. congruence. Qed.

Lemma str_app_cancel (a b c : string) : (a +:+ b = a +:+ c)%string -> b = c.
Proof. induction a as [|x a IH]; [done|]. intros E. change (String x (a +:+ b) = String x (a +:+ c)) in E. apply IH. congruence. Qed.

(** An instance number behind an underscore is stripped, whatever the family's
    name ends in. *)
Lemma family_of_instance f d :
  all_digits d = true -> d <> ""%string -> familyPrefix (f +:+ "_" +:+ d) = f.
Proof.
  intros Hd Hne. unfold familyPrefix.
  assert (E : trim_digits (f +:+ "_" +:+ d) = (f +:+ "_")%string).
  { by rewrite <- str_app_assoc, trim_digits_app, trim_digits_underscore. }
  rewrite E, (proj2 (String.eqb_neq _ _)); [apply trim_underscore_snoc|].
  rewrite <- str_app_assoc. intros Heq. symmetry in Heq. by apply str_app_inj_l in Heq.
Qed.

Lemma trim_digits_prefix s : exists t, s = (trim_digits s +:+ t)%string.
Proof.
  induction s as [|c s [t IH]]; [by exists ""%string|]. cbn [trim_digits]. destruct (trim_digits s) as [|x u] eqn:E.
  - destruct (is_digit c); [by exists (String c s)|]. by exists s.
  - exists t. change (String c s = String c (String x u +:+ t)). by rewrite IH at 1.
Qed.

Lemma trim_underscore_prefix s : exists t, s = (trim_underscore s +:+ t)%string.
Proof.
  induction s as [|c s [t IH]]; [by exists ""%string|]. cbn [trim_underscore]. destruct s as [|x u].
  - destruct (Ascii.eqb c "_"); [by exists (String c "")|]. by exists ""%string.
  - exists t. change (String c (String x u) = String c (trim_underscore (String x u) +:+ t)). by rewrite IH at 1.
Qed.

Lemma prefix_app a b : has_prefix (a +:+ b) a = true.
Proof.
  unfold has_prefix. induction a as [|c a IH]; [by destruct b|].
  change (String.prefix (String c a) (String c (a +:+ b)) = true). cbn [String.prefix].
  by destruct (ascii_dec c c).
Qed.

Lemma family_prefixes_device s : has_prefix s (familyPrefix s) = true.
Proof.
  unfold familyPrefix. destruct (String.eqb_spec (trim_digits s) s) as [_|_].
  - rewrite <- (string_app_nil_r s) at 1. apply prefix_app.
  - destruct (trim_digits_prefix s) as [t Ht]. destruct (trim_underscore_prefix (trim_digits s)) as [u Hu].
    rewrite Ht at 1. rewrite Hu at 1. rewrite str_app_assoc. apply prefix_app.
Qed.

Lemma prefixes_loop_spec names seen :
  NoDup (prefixes_loop names seen) /\
  forall p, p ∈ prefixes_loop names seen <-> p <> ""%string /\ (p ∉ seen) /\ exists n, n ∈ names /\ familyPrefix n = p.
Proof.
  revert seen. induction names as [|n rest IH]; intros seen; cbn [prefixes_loop].
  - split; [constructor|]. intros p. split; [intros Hp; by apply not_elem_of_nil in Hp|].
    intros (_ & _ & m & Hm & _). by apply not_elem_of_nil in Hm.
  - destruct (String.eqb_spec (familyPrefix n) "") as [He|He]; [|case_bool_decide as Hs].
    + destruct (IH seen) as [Hnd Hin]. split; [done|]. intros p. rewrite Hin. setoid_rewrite elem_of_cons.
      split; intros (Hp & Hps & m & Hm & Hf); (do 2 (split; [done|])); exists m; (split; [|done]); [by right|].
      destruct Hm as [->|]; [congruence|done].
    + destruct (IH seen) as [Hnd Hin]. split; [done|]. intros p. rewrite Hin. setoid_rewrite elem_of_cons.
      split; intros (Hp & Hps & m & Hm & Hf); (do 2 (split; [done|])); exists m; (split; [|done]); [by right|].
      destruct Hm as [->|]; [congruence|done].
    + destruct (IH (familyPrefix n :: seen)) as [Hnd Hin]. split.
      * apply list.NoDup_cons. split; [|done]. rewrite Hin. intros (_ & Hn & _). apply Hn. left.
      * intros p. rewrite elem_of_cons, Hin. setoid_rewrite elem_of_cons. split.
        -- intros [->|(Hp & Hps & m & Hm & Hf)]; [split; [done|]; split; [done|]; exists n; by split; [left|]|].
           split; [done|]. split; [tauto|]. exists m. split; [by right|done].
        -- intros (Hp & Hps & m & Hm & Hf). destruct (decide (p = familyPrefix n)) as [->|Hne]; [by left|].
           right. split; [done|]. split; [tauto|]. exists m. split; [|done]. destruct Hm as [->|]; [congruence|done].
Qed.

(** The prefixes published for the interconnect adapters are distinct, each is
    the family of some adapter, and every adapter with a family name starts with
    one of them, so none is out of reach of the workloads. *)
Theorem adapters_covered names :
  NoDup (nccLHCAPrefixesOf names) /\
  (forall p, p ∈ nccLHCAPrefixesOf names -> exists n, n ∈ names /\ familyPrefix n = p) /\
  (forall n, n ∈ names -> familyPrefix n <> ""%string ->
     exists p, p ∈ nccLHCAPrefixesOf names /\ has_prefix n p = true).
Proof.
  destruct (prefixes_loop_spec names []) as [Hnd Hin]. split; [done|]. split.
  - intros p Hp. apply Hin in Hp as (_ & _ & Hp). done.
  - intros n Hn Hne. exists (familyPrefix n). split; [|apply family_prefixes_device].
    apply Hin. split; [done|]. split; [apply not_elem_of_nil|]. eauto.
Qed.

(** ** Examples *)

Module InvConfigExamples.

(** Documents as trees, regular expressions as literal prefixes. *)
#[warnings="-register-all"]
Inductive tree := Leaf (s : string) | Seq (l : list tree) | Map (l : list (string * tree)).

Definition leaf (t : tree) : option string := match t with Leaf s => Some s | _ => None end.
Definition leaves (t : tree) : option (list string) := match t with Seq l => mapM leaf l | _ => None end.
Definition field (t : tree) (key : string) : option tree :=
  match t with Map l => snd <$> List.find (fun p => String.eqb p.1 key) l | _ => None end.

#[local] Instance tree_api : ConfigAPI := {|
  regexp := string; Compile s := Some s; MatchString r s := has_prefix s r;
  version := unit; version_zero := tt; ParseTolerant _ := Some tt;
  yaml_node := tree;
  yaml_content t := match t with Map l => l | _ => [] end;
  yaml_value t := default ""%string (leaf t);
  decode_strings := leaves;
  decode_exclude t := Some (field t "nodes", match field t "node_storage" with Some (Seq l) => l | _ => [] end);
  decode_rule t := match field t "node_filter" ≫= leaf, field t "classes" ≫= leaves with
                   | Some f, Some c => Some (f, c) | _, _ => None end;
  decode_interconnect t := field t "resource_patterns" ≫= leaves
|}.

#[local] Instance cfg_range : GoRange := sorted_range.

Definition doc : tree := Map [
  ("version", Leaf "v1");
  ("cluster_storage", Seq [Leaf "beta3"; Leaf "beta1"; Leaf "beta2"]);
  ("exclude", Map [("nodes", Seq [Leaf "cp-"]);
     ("node_storage", Seq [Map [("node_filter", Leaf "gpu-"); ("classes", Seq [Leaf "beta2"; Leaf "beta1"])]])])
]%string.

Definition cfg : Config :=
  Eval vm_compute in match Config_UnmarshalYAML doc with Ok c => c | Err _ => zero_config end.

Example doc_loads : Config_UnmarshalYAML doc = Ok cfg.
Proof. reflexivity. Qed.

Example doc_unknown_class :
  Config_UnmarshalYAML (Map [("exclude", Map [("node_storage",
     Seq [Map [("node_filter", Leaf "n"); ("classes", Seq [Leaf "beta9"])]])])])%string = Err (errUnknownClass "beta9").
Proof. reflexivity. Qed.

Definition cut : Config :=
  Eval vm_compute in default zero_config (FilterOutStorageClasses (Copy cfg) ["beta1"; "beta3"]%string).

Lemma storage_classes_exact_witness :
  exists classes, StorageClassesForNode cut "gpu-1" = Some classes /\ NoDup classes /\
    forall class, class ∈ classes <-> offers cfg ["beta1"; "beta3"]%string "gpu-1" class.
Proof.
  apply (storage_classes_exact cfg cut ["beta1"; "beta3"]%string "gpu-1").
  - apply (bool_decide_unpack _). vm_compute. exact I.
  - vm_compute. reflexivity.
Defined.

Example gpu_node_classes : StorageClassesForNode cut "gpu-1" = Some ["beta3"%string].
Proof. reflexivity. Qed.

Lemma loaded_config_panics_before_classes_witness : FilterOutStorageClasses (Copy cfg) [] = None.
Proof.
  apply (@loaded_config_panics_before_classes tree_api cfg_range doc cfg (@mkExcludeStorage tree_api "gpu-"%string ["beta1"; "beta2"]%string)
           "beta1" "beta2" []).
  - reflexivity.
  - vm_compute. left.
  - reflexivity.
Defined.

Lemma interconnect_name_stable_witness :
  @matchInterconnectResourceName sorted_range _
    (<["rdma/rdma_shared_device_ib":=1%Z]> (<["rdma/rdma_shared_device_eth":=2%Z]> (∅ : gmap string Z))) [] =
  @matchInterconnectResourceName sorted_range _
    (<["rdma/rdma_shared_device_ib":=1%Z]> (<["rdma/rdma_shared_device_eth":=2%Z]> (∅ : gmap string Z))) [].
Proof. apply interconnect_name_stable. vm_compute. reflexivity. Defined.

Example interconnect_smallest :
  matchInterconnectResourceName
    (<["rdma/rdma_shared_device_ib":=1%Z]> (<["rdma/rdma_shared_device_eth":=2%Z]> (∅ : gmap string Z))) [] =
  "rdma/rdma_shared_device_eth"%string.
Proof. vm_compute. reflexivity. Qed.

Example adapters_mixed : nccLHCAPrefixesOf ["mlx5_0"; "bnxt_re0"; "mlx5_1"; "ib0"]%string = ["mlx5"; "bnxt_re"; "ib"]%string.
Proof. reflexivity. Qed.

End InvConfigExamples.
