(* ===== verification/NodeDiscovery.v ===== *)
(** * What the inventory operator knows of a node

    Model of the functions of [operator/inventory/node-discovery.go] below the
    monitor's loop: the quantities read from the kubelet's report
    ([updateNodeInfo]), the accounting of the pods on the node
    ([addPodAllocatedResources], [subPodAllocatedResources]), the hardware found
    by the probes ([parseCPUInfo], [parseGPUInfo]) and the labels that advertise
    the node to the scheduler ([generateLabels]); with the device registry of
    [registry.go].

    [resource.Quantity] is not part of the repository: what is used of it beyond
    [InventoryAPI] is [QuantityAPI], and [QuantityLaws] states that it adds and
    subtracts exactly. *)

From stdpp Require Import base gmap list strings sorting tactics.
From Stdlib Require Import ZArith Lia Ascii.
From S2P Require Import Prelude Types Names Builder InvConfig Concrete.
Local Open Scope go_scope.

Class QuantityAPI (api : InventoryAPI) := {
  q_add : Quantity -> Quantity -> Quantity;
  q_sub : Quantity -> Quantity -> Quantity;
  q_set_milli : Quantity -> Z -> Quantity;
  q_new_milli : Z -> Quantity
}.

(** The exact amount a quantity stands for, in the smallest unit there is. *)
Class QuantityLaws (api : InventoryAPI) `{!QuantityAPI api} := {
  amount_of : Quantity -> Z;
  amount_add : forall a b, amount_of (q_add a b) = (amount_of a + amount_of b)%Z;
  amount_sub : forall a b, amount_of (q_sub a b) = (amount_of a - amount_of b)%Z;
  amount_zero : amount_of (q_new 0) = 0%Z;
  amount_zero_milli : amount_of (q_new_milli 0) = 0%Z;
  amount_negative : forall q, q_negative q = (amount_of q <? 0)%Z
}.

(** ** Kubernetes objects *)

Definition ResourceCPU : string := "cpu".
Definition ResourceMemory : string := "memory".
Definition ResourceEphemeralStorage : string := "ephemeral-storage".
Definition ResourceGPUNvidia : string := "nvidia.com/gpu".
Definition ResourceGPUNvidiaPGPU : string := "nvidia.com/pgpu".
Definition ResourceGPUAMD : string := "amd.com/gpu".

Inductive TaintEffect := NoSchedule | PreferNoSchedule | NoExecute.

Section Objects.
Context {api : InventoryAPI}.

Record KNode := mkKNode {
  no_name : string;
  no_labels : labels_t;
  no_arch : string;
  no_allocatable : gmap string Quantity;
  no_capacity : gmap string Quantity;
  no_taints : list TaintEffect;
  no_conditions : list (string * string);
  no_unschedulable : bool
}.

Record EmptyDir := mkEmptyDir { ed_medium : string; ed_size_limit : option Quantity }.

(** A pod: its key, its status conditions, its containers' requests and, per
    volume, its [EmptyDir] source if it has one. *)
Record KPod := mkKPod {
  po_namespace : string;
  po_name : string;
  po_conditions : list (string * string);
  po_requests : list (gmap string Quantity);
  po_volumes : list (option EmptyDir)
}.

Definition podKey (pod : KPod) : string := po_namespace pod +:+ "/" +:+ po_name pod.

(** The first condition of a type decides. *)
Definition condition_true (type : string) (conditions : list (string * string)) : bool :=
  match List.find (fun c => String.eqb c.1 type) conditions with
  | Some c => String.eqb c.2 "True"
  | None => false
  end.

Definition isPodAllocated (pod : KPod) : bool := condition_true "PodScheduled" (po_conditions pod).

Definition isNodeReady (node : KNode) : bool :=
  if existsb (fun t => match t with NoSchedule | NoExecute => true | PreferNoSchedule => false end) (no_taints node)
  then false else condition_true "Ready" (no_conditions node).

(** [nodeAllocatableChanged]: the values are compared as integers. *)
Definition nodeAllocatableChanged `{GoRange} (prev curr : KNode) : bool :=
  negb (Nat.eqb (size (no_allocatable prev)) (size (no_allocatable curr))) ||
  existsb (fun p => match no_allocatable curr !! p.1 with
                    | None => true
                    | Some cval => negb (Z.eqb (q_value p.2) (q_value cval))
                    end) (range_map (no_allocatable prev)).

Definition normalizeArch (arch : string) : string :=
  if String.eqb arch "x86_64" then "amd64"
  else if String.eqb arch "aarch64" then "arm64" else arch.

End Objects.

Arguments KNode api : clear implicits.
Arguments KPod api : clear implicits.

(** ** The switch on resource names

    [updateNodeInfo], [addPodAllocatedResources] and [subPodAllocatedResources]
    share it: [ic] is the node's interconnect resource, possibly empty. *)

Inductive res_kind := RCPU | RMemory | REphemeral | RGPU | RInterconnect.

#[export] Instance res_kind_eq_dec : EqDecision res_kind.
Proof. solve_decision. Defined.

Definition classify (ic name : string) : option res_kind :=
  if String.eqb name ResourceCPU then Some RCPU
  else if String.eqb name ResourceMemory then Some RMemory
  else if String.eqb name ResourceEphemeralStorage then Some REphemeral
  else if String.eqb name ResourceGPUNvidia || String.eqb name ResourceGPUNvidiaPGPU || String.eqb name ResourceGPUAMD
       then Some RGPU
  else if negb (String.eqb ic "") && String.eqb name ic then Some RInterconnect
  else None.

Section Node.
Context {api : InventoryAPI}.

Definition res_pair (k : res_kind) (n : Node api) : ResourcePair api :=
  let r := nd_resources n in
  match k with
  | RCPU => n_cpu r
  | RMemory => n_memory r
  | REphemeral => n_ephemeral r
  | RGPU => n_gpu r
  | RInterconnect => n_interconnect r
  end.

Definition set_pair (k : res_kind) (p : ResourcePair api) (n : Node api) : Node api :=
  let r := nd_resources n in
  let pick (k' : res_kind) := if decide (k = k') then p else res_pair k' n in
  mkNode (nd_name n)
    (mkNodeResources (pick RCPU) (n_cpu_info r) (pick RMemory) (pick RGPU) (n_gpu_info r) (pick REphemeral)
       (n_volumes_attached r) (n_volumes_mounted r) (pick RInterconnect)) (nd_caps n).

Definition set_caps (c : NodeCapabilities) (n : Node api) : Node api := mkNode (nd_name n) (nd_resources n) c.

Definition set_gpu_info (infos : list GPUInfo) (n : Node api) : Node api :=
  let r := nd_resources n in
  mkNode (nd_name n)
    (mkNodeResources (n_cpu r) (n_cpu_info r) (n_memory r) (n_gpu r) infos (n_ephemeral r)
       (n_volumes_attached r) (n_volumes_mounted r) (n_interconnect r)) (nd_caps n).

Definition interconnect_name (n : Node api) : string := nc_interconnect_resource_name (nd_caps n).

Definition set_interconnect_name (name : string) (n : Node api) : Node api :=
  let c := nd_caps n in
  set_caps (mkNodeCapabilities (nc_storage_classes c) name (nc_interconnect_fabric c) (nc_nccl_hca_prefixes c)) n.

Definition set_storage_classes (classes : list string) (n : Node api) : Node api :=
  let c := nd_caps n in
  set_caps (mkNodeCapabilities classes (nc_interconnect_resource_name c) (nc_interconnect_fabric c)
              (nc_nccl_hca_prefixes c)) n.

Definition set_ib (ib : IBDiscovery) (n : Node api) : Node api :=
  let c := nd_caps n in
  set_caps (mkNodeCapabilities (nc_storage_classes c) (nc_interconnect_resource_name c) (Fabric ib)
              (NCCLIBHCAPrefixes ib)) n.

Definition set_allocatable (f : Quantity -> Quantity) (p : ResourcePair api) : ResourcePair api :=
  mkResourcePair (rp_capacity p) (f <$> rp_allocatable p) (rp_allocated p).
Definition set_capacity (f : Quantity -> Quantity) (p : ResourcePair api) : ResourcePair api :=
  mkResourcePair (f <$> rp_capacity p) (rp_allocatable p) (rp_allocated p).
Definition set_allocated (f : Quantity -> Quantity) (p : ResourcePair api) : ResourcePair api :=
  mkResourcePair (rp_capacity p) (rp_allocatable p) (f <$> rp_allocated p).

Definition on_pair (k : res_kind) (f : ResourcePair api -> ResourcePair api) (n : Node api) : Node api :=
  set_pair k (f (res_pair k n)) n.

Lemma res_pair_set k k' p n : res_pair k' (set_pair k p n) = if decide (k = k') then p else res_pair k' n.
Proof. by destruct k, k'. Qed.

Lemma interconnect_name_set k p n : interconnect_name (set_pair k p n) = interconnect_name n.
Proof. done. Qed.

(** ** Capacity *)

Context `{!QuantityAPI api}.

(** [Quantity.SetMilli(r.MilliValue())] for the processors, [Set(r.Value())]
    for the rest. *)
Definition reading (k : res_kind) (r q : Quantity) : Quantity :=
  match k with RCPU => q_set_milli q (q_milli r) | _ => q_set q (q_value r) end.

Definition read_resources (ic : string)
    (field : (Quantity -> Quantity) -> ResourcePair api -> ResourcePair api)
    (entries : list (string * Quantity)) (n : Node api) : Node api :=
  foldl (fun n e => match classify ic e.1 with
                    | Some k => on_pair k (field (reading k e.2)) n
                    | None => n
                    end) n entries.

Definition updateNodeInfo `{GoRange} (knode : KNode api) (node : Node api) (patterns : list string) : Node api :=
  let node := set_interconnect_name "" node in
  let node := on_pair RInterconnect (set_capacity (fun q => q_set q 0)) node in
  let node := on_pair RInterconnect (set_allocatable (fun q => q_set q 0)) node in
  let ic := matchInterconnectResourceName (no_allocatable knode) patterns in
  let ic := if String.eqb ic "" then matchInterconnectResourceName (no_capacity knode) patterns else ic in
  let node := if String.eqb ic "" then node else set_interconnect_name ic node in
  let node := read_resources ic set_allocatable (range_map (no_allocatable knode)) node in
  read_resources ic set_capacity (range_map (no_capacity knode)) node.

(** ** Allocation *)

Definition zero_allocated (k : res_kind) : Quantity := match k with RCPU => q_new_milli 0 | _ => q_new 0 end.

Definition reset_pair (q : Quantity) (p : ResourcePair api) : ResourcePair api :=
  mkResourcePair (rp_capacity p) (rp_allocatable p) (Some q).

Definition nodeResetAllocated (n : Node api) : Node api :=
  let r := nd_resources n in
  mkNode (nd_name n)
    (mkNodeResources (reset_pair (q_new_milli 0) (n_cpu r)) (n_cpu_info r) (reset_pair (q_new 0) (n_memory r))
       (reset_pair (q_new 0) (n_gpu r)) (n_gpu_info r) (reset_pair (q_new 0) (n_ephemeral r))
       (reset_pair (q_new 0) (n_volumes_attached r)) (reset_pair (q_new 0) (n_volumes_mounted r))
       (reset_pair (q_new 0) (n_interconnect r))) (nd_caps n).

(** The size limit of a volume kept in memory. *)
Definition memory_volume (v : option EmptyDir) : option Quantity :=
  match v with
  | Some e => if String.eqb (ed_medium e) "Memory" then ed_size_limit e else None
  | None => None
  end.

(** What a pod charges, in the order the loops charge it: the requests of each
    container, and after each container the pod's volumes kept in memory. *)
Definition container_charges `{GoRange} (ic : string) (requests : gmap string Quantity) : list (res_kind * Quantity) :=
  omap (fun e => (fun k => (k, e.2)) <$> classify ic e.1) (range_map requests).

Definition volume_charges (pod : KPod api) : list (res_kind * Quantity) :=
  pair RMemory <$> omap memory_volume (po_volumes pod).

Definition pod_charges `{GoRange} (ic : string) (pod : KPod api) : list (res_kind * Quantity) :=
  po_requests pod ≫= fun requests => container_charges ic requests ++ volume_charges pod.

Definition charge (n : Node api) (c : res_kind * Quantity) : Node api :=
  on_pair c.1 (set_allocated (fun a => q_add a c.2)) n.

Definition addPodAllocatedResources `{GoRange} (node : Node api) (pod : KPod api) : Node api :=
  foldl charge node (pod_charges (interconnect_name node) pod).

(** [subAllocatedResource]: the new amount is stored even when it is negative;
    the error is logged. The log is the second component. *)
Definition subAllocatedResource (acc : Node api * list res_kind) (c : res_kind * Quantity) : Node api * list res_kind :=
  let after := (fun a => q_sub a c.2) <$> rp_allocated (res_pair c.1 acc.1) in
  (on_pair c.1 (set_allocated (fun a => q_sub a c.2)) acc.1,
   if from_option q_negative false after then acc.2 ++ [c.1] else acc.2).

Definition subPodAllocatedResources `{GoRange} (node : Node api) (pod : KPod api) : Node api * list res_kind :=
  foldl subAllocatedResource (node, []) (pod_charges (interconnect_name node) pod).

End Node.

(** ** Hardware *)

Record Processor := mkProcessor { pr_id : Z; pr_vendor : string; pr_model : string; pr_threads : Z }.

Definition cpuQueryMaxAttempts : nat := 5.

(** The answers of the probe, attempt by attempt; the first that is no error counts. *)
Fixpoint cpu_attempts (n : nat) (answers : list (option (list Processor))) : option (list Processor) :=
  match n, answers with
  | S n', answer :: rest => match answer with Some cpus => Some cpus | None => cpu_attempts n' rest end
  | _, _ => None
  end.

(** [strconv.Itoa]. *)
Definition Itoa (z : Z) : string := if (z <? 0)%Z then "-" +:+ FormatUint (- z) else FormatUint z.

Definition parseCPUInfo (answers : list (option (list Processor))) (arch : string) : list CPUInfo :=
  match cpu_attempts cpuQueryMaxAttempts answers with
  | None => []
  | Some cpus => (fun c => mkCPUInfo (Itoa (pr_id c)) (pr_vendor c) (pr_model c) (pr_threads c) arch) <$> cpus
  end.

Record RegistryGPUDevice := mkDevice { dv_name : string; dv_interface : string; dv_memory_size : string }.
Record RegistryGPUVendor := mkVendor { vn_name : string; vn_devices : gmap string RegistryGPUDevice }.
Abbreviation RegistryGPUVendors := (gmap string RegistryGPUVendor).

(** A device on a bus: its PCI address and the ids of its vendor and product,
    absent when the probe could not tell. [display] says that its class starts
    with "03". *)
Record BusDevice := mkBusDevice {
  bd_address : string; bd_vendor : option string; bd_product : option string; bd_class : option string
}.

(** A graphics card has an address of its own and may have no device behind it. *)
Record GraphicsCard := mkCard { gc_address : string; gc_device : option (option string * option string) }.

Definition registry_entry (info : RegistryGPUVendors) (vendor_id product_id : string) : option GPUInfo :=
  match info !! vendor_id with
  | None => None
  | Some vendor =>
      match vn_devices vendor !! product_id with
      | None => None
      | Some model =>
          Some (mkGPUInfo (vn_name vendor) vendor_id (dv_name model) product_id (dv_memory_size model) (dv_interface model))
      end
  end.

Definition card_info (info : RegistryGPUVendors) (c : GraphicsCard) : option GPUInfo :=
  match gc_device c with
  | Some (Some vendor_id, Some product_id) => registry_entry info vendor_id product_id
  | _ => None
  end.

(** The cards of the first phase with the addresses they are known by. *)
Definition drm_phase (info : RegistryGPUVendors) (cards : list GraphicsCard) : list (string * GPUInfo) :=
  omap (fun c => pair (gc_address c) <$> card_info info c) cards.

Definition is_display (d : BusDevice) : bool :=
  match bd_class d with Some id => has_prefix id "03" | None => false end.

Definition pci_info (info : RegistryGPUVendors) (known : gset string) (d : BusDevice) : option GPUInfo :=
  if is_display d then
    if bool_decide (bd_address d ∈ known) then None
    else match bd_vendor d, bd_product d with
         | Some vendor_id, Some product_id => registry_entry info vendor_id product_id
         | _, _ => None
         end
  else None.

Definition pci_phase (info : RegistryGPUVendors) (known : gset string) (devices : list BusDevice) :
    list (string * GPUInfo) :=
  omap (fun d => pair (bd_address d) <$> pci_info info known d) devices.

(** What both phases found, with addresses; a failed query counts as no devices. *)
Definition gpus_found (info : RegistryGPUVendors) (cards : option (list GraphicsCard))
    (devices : option (list BusDevice)) : list (string * GPUInfo) :=
  let drm := drm_phase info (default [] cards) in
  drm ++ pci_phase info (list_to_set drm.*1) (default [] devices).

(** [sort.Sort] with the library's order on [GPUInfoS]. *)
Class GPUOrder := {
  sort_gpus : list GPUInfo -> list GPUInfo;
  sort_gpus_perm : forall l, sort_gpus l ≡ₚ l
}.

Definition parseGPUInfo `{GPUOrder} (info : RegistryGPUVendors) (cards : option (list GraphicsCard))
    (devices : option (list BusDevice)) : list GPUInfo :=
  sort_gpus (gpus_found info cards devices).*2.

(** ** Labels *)

Definition labelNvidiaComGPUPresent : string := ResourceGPUNvidia +:+ ".present".

Definition isLabelManaged (key : string) : bool :=
  has_prefix key AkashManagedLabelName || String.eqb key labelNvidiaComGPUPresent.

Definition copyManagedLabels (labels : labels_t) : labels_t :=
  filter (fun kv => isLabelManaged kv.1 = true) labels.

Definition removeManagedLabels (labels : labels_t) : labels_t :=
  filter (fun kv => isLabelManaged kv.1 = false) labels.

(** A counter kept as a decimal label. [ParseUint] of 32 bits saturates, and the
    64 bit sum is written back. *)
Definition bump (labels : labels_t) (key : string) : labels_t :=
  match labels !! key with
  | Some val => <[key := FormatUint (wrap64 ((ParseUint_value 32 val).1 + 1))]> labels
  | None => <[key := "1"%string]> labels
  end.

Definition gpu_label (vendor name : string) : string :=
  AkashServiceCapabilityGPU +:+ ".vendor." +:+ vendor +:+ ".model." +:+ name.

(** The counters one GPU increments. *)
Definition gpu_keys (info : GPUInfo) : list string :=
  let key := gpu_label (gi_vendor info) (gi_name info) in
  key ::
  (if String.eqb (gi_memory_size info) "" then [] else [key +:+ ".ram." +:+ gi_memory_size info]) ++
  (if String.eqb (gi_interface info) "" then []
   else [key +:+ ".interface." +:+ FilterGPUInterface (gi_interface info)]).

Definition label_gpu (labels : labels_t) (info : GPUInfo) : labels_t :=
  let labels :=
    if String.eqb (gi_vendor info) "nvidia" && negb (bool_decide (labels !! labelNvidiaComGPUPresent = Some "true"%string))
    then <[labelNvidiaComGPUPresent := "true"%string]> labels else labels in
  foldl bump labels (gpu_keys info).

Definition class_label (class : string) : string := AkashServiceCapabilityStorage +:+ ".class." +:+ class.

Definition label_class (labels : labels_t) (class : string) : labels_t := <[class_label class := "1"%string]> labels.

Section Labels.
Context {api : InventoryAPI} `{!ConfigAPI} `{!GoRange}.

(** [generateLabels]; [None] is a panic of the configuration's filters. *)
Definition generateLabels (cfg : Config) (knode : KNode api) (node : Node api) (sc : gset string) :
    option (labels_t * Node api) :=
  let presentSc := sort_strings (range_set sc) in
  match FilterOutStorageClasses (Copy cfg) presentSc with
  | None => None
  | Some adjConfig =>
      if negb (isNodeReady knode) || no_unschedulable knode || IsNodeExcluded (Excludes adjConfig) (no_name knode)
      then Some (∅, set_storage_classes [] node)
      else
        match StorageClassesForNode adjConfig (no_name knode) with
        | None => None
        | Some allowedSc =>
            let res := <[AkashManagedLabelName := ValTrue]> (∅ : labels_t) in
            let res := foldl label_class res allowedSc in
            let node := set_storage_classes allowedSc node in
            Some (foldl label_gpu res (n_gpu_info (nd_resources node)), node)
        end
  end.

(** The labels of the patch: what was generated, and the labels of the node that
    are not the operator's. *)
Definition patch_labels (generated : labels_t) (knode : KNode api) : labels_t :=
  removeManagedLabels (no_labels knode) ∪ generated.

End Labels.

(** ** Accounting *)

Section Accounting.
Context {api : InventoryAPI} `{!QuantityAPI api} `{!QuantityLaws api} `{!GoRange}.

(** What is allocated of a kind; every quantity a monitored node has is set. *)
Definition allocated (k : res_kind) (n : Node api) : Z := from_option amount_of 0%Z (rp_allocated (res_pair k n)).
Definition allocated_set (n : Node api) : Prop := forall k, is_Some (rp_allocated (res_pair k n)).

Definition charged (k : res_kind) (cs : list (res_kind * Quantity)) : Z :=
  sumZ (fun c => if decide (c.1 = k) then amount_of c.2 else 0%Z) cs.

(** What a pod takes of a kind, under a name of the interconnect resource. *)
Definition pod_amount (ic : string) (k : res_kind) (pod : KPod api) : Z := charged k (pod_charges ic pod).

(** Every quantity of the pod is at least zero. *)
Definition pod_nonneg (pod : KPod api) : Prop :=
  (forall requests name q, requests ∈ po_requests pod -> requests !! name = Some q -> (0 <= amount_of q)%Z) /\
  (forall v q, v ∈ po_volumes pod -> memory_volume v = Some q -> (0 <= amount_of q)%Z).

Lemma charged_cons k c cs : charged k (c :: cs) = ((if decide (c.1 = k) then amount_of c.2 else 0) + charged k cs)%Z.
Proof. done. Qed.

Lemma charged_nonneg k cs : Forall (fun c => (0 <= amount_of c.2)%Z) cs -> (0 <= charged k cs)%Z.
Proof.
  induction 1 as [|c cs Hc _ IH]; [done|]. rewrite charged_cons. case_decide; lia.
Qed.

Lemma pod_charges_nonneg ic pod : pod_nonneg pod -> Forall (fun c => (0 <= amount_of c.2)%Z) (pod_charges ic pod).
Proof.
  intros [Hreq Hvol]. apply list.Forall_forall. intros [k q] Hc. simpl.
  unfold pod_charges in Hc. apply list_elem_of_bind in Hc as (requests & Hc & Hin).
  apply elem_of_app in Hc as [Hc|Hc].
  - apply list_elem_of_omap in Hc as ([name r] & He & Hk). simpl in Hk.
    destruct (classify ic name); [|done]. injection Hk as <- <-.
    apply (Hreq requests name); [done|]. by apply elem_of_range_map.
  - apply list_elem_of_fmap in Hc as (v & [= -> ->] & Hv). apply list_elem_of_omap in Hv as (x & Hx & Hm).
    by apply (Hvol x).
Qed.

Lemma allocated_on k k' f n :
  allocated_set n ->
  allocated k' (on_pair k (set_allocated f) n) =
  if decide (k = k') then from_option (fun q => amount_of (f q)) 0%Z (rp_allocated (res_pair k n)) else allocated k' n.
Proof.
  intros Hset. unfold allocated, on_pair. rewrite res_pair_set. case_decide as E; [|done]. subst k'. simpl.
  by destruct (rp_allocated (res_pair k n)).
Qed.

Lemma allocated_set_on k f n : allocated_set n -> allocated_set (on_pair k (set_allocated f) n).
Proof.
  intros Hset k'. unfold on_pair. rewrite res_pair_set. case_decide; [|apply Hset]. simpl.
  destruct (Hset k) as [q ->]. by exists (f q).
Qed.

Lemma charge_spec n c :
  allocated_set n ->
  allocated_set (charge n c) /\ interconnect_name (charge n c) = interconnect_name n /\
  forall k, allocated k (charge n c) = (allocated k n + (if decide (c.1 = k) then amount_of c.2 else 0))%Z.
Proof.
  intros Hset. split; [by apply allocated_set_on|]. split; [done|]. intros k. unfold charge.
  rewrite allocated_on by done. case_decide as E; [|lia]. subst k. unfold allocated.
  destruct (Hset c.1) as [q ->]. simpl. by rewrite amount_add.
Qed.

Lemma charges_spec cs n :
  allocated_set n ->
  allocated_set (foldl charge n cs) /\ interconnect_name (foldl charge n cs) = interconnect_name n /\
  forall k, allocated k (foldl charge n cs) = (allocated k n + charged k cs)%Z.
Proof.
  revert n. induction cs as [|c cs IH]; intros n Hset; cbn [foldl].
  - do 2 (split; [done|]). intros k. unfold charged. simpl. lia.
  - destruct (charge_spec n c Hset) as (Hs & Hi & Ha). destruct (IH _ Hs) as (Hs' & Hi' & Ha').
    split; [done|]. split; [congruence|]. intros k. rewrite Ha', Ha, charged_cons. lia.
Qed.

Lemma add_pod_spec n pod :
  allocated_set n ->
  allocated_set (addPodAllocatedResources n pod) /\
  interconnect_name (addPodAllocatedResources n pod) = interconnect_name n /\
  forall k, allocated k (addPodAllocatedResources n pod) = (allocated k n + pod_amount (interconnect_name n) k pod)%Z.
Proof. apply charges_spec. Qed.

(** Taking charges off never reports a negative amount while what is allocated
    covers what is still to come off. *)
Lemma uncharges_spec cs n log :
  allocated_set n ->
  let r := foldl subAllocatedResource (n, log) cs in
  allocated_set r.1 /\ interconnect_name r.1 = interconnect_name n /\
  (forall k, allocated k r.1 = (allocated k n - charged k cs)%Z) /\
  (Forall (fun c => (0 <= amount_of c.2)%Z) cs -> (forall k, (charged k cs <= allocated k n)%Z) -> r.2 = log).
Proof.
  cbv zeta. revert n log. induction cs as [|c cs IH]; intros n log Hset; cbn [foldl].
  - do 2 (split; [done|]). split; [|done]. intros k. unfold charged. simpl. lia.
  - set (n1 := on_pair c.1 (set_allocated (fun a => q_sub a c.2)) n).
    assert (Hs : allocated_set n1) by by apply allocated_set_on.
    assert (Ha : forall k, allocated k n1 = (allocated k n - (if decide (c.1 = k) then amount_of c.2 else 0))%Z).
    { intros k. unfold n1. rewrite allocated_on by done. case_decide as E; [|lia]. subst k. unfold allocated.
      destruct (Hset c.1) as [q ->]. simpl. by rewrite amount_sub. }
    set (log1 := if from_option q_negative false ((fun a => q_sub a c.2) <$> rp_allocated (res_pair c.1 n))
                 then log ++ [c.1] else log).
    change (subAllocatedResource (n, log) c) with (n1, log1).
    destruct (IH n1 log1 Hs) as (Hs' & Hi' & Ha' & Hlog).
    split; [done|]. split; [by rewrite Hi'|]. split; [intros k; rewrite Ha', Ha, charged_cons; lia|].
    intros Hnn Hcov. apply list.Forall_cons in Hnn as [Hc Hnn].
    assert (Hneg : from_option q_negative false ((fun a => q_sub a c.2) <$> rp_allocated (res_pair c.1 n)) = false).
    { pose proof (Hcov c.1) as Hcov1. pose proof (charged_nonneg c.1 cs Hnn).
      rewrite charged_cons, decide_True in Hcov1 by done. unfold allocated in Hcov1.
      destruct (Hset c.1) as [q Hq]. rewrite Hq in Hcov1 |- *. simpl in *.
      rewrite amount_negative, amount_sub. apply Z.ltb_ge. lia. }
    unfold log1 in Hlog |- *. rewrite Hneg in Hlog |- *. apply Hlog; [done|]. intros k. specialize (Hcov k). rewrite charged_cons in Hcov.
    rewrite Ha. lia.
Qed.

Lemma sub_pod_spec n pod :
  allocated_set n ->
  allocated_set (subPodAllocatedResources n pod).1 /\
  interconnect_name (subPodAllocatedResources n pod).1 = interconnect_name n /\
  (forall k, allocated k (subPodAllocatedResources n pod).1 = (allocated k n - pod_amount (interconnect_name n) k pod)%Z) /\
  (pod_nonneg pod -> (forall k, (pod_amount (interconnect_name n) k pod <= allocated k n)%Z) ->
   (subPodAllocatedResources n pod).2 = []).
Proof.
  intros Hset. destruct (uncharges_spec (pod_charges (interconnect_name n) pod) n [] Hset) as (Hs & Hi & Ha & Hl).
  split; [done|]. split; [done|]. split; [done|]. intros Hnn. apply Hl. by apply pod_charges_nonneg.
Qed.

Lemma reset_spec n :
  allocated_set (nodeResetAllocated n) /\ interconnect_name (nodeResetAllocated n) = interconnect_name n /\
  forall k, allocated k (nodeResetAllocated n) = 0%Z.
Proof.
  split; [intros []; eexists; done|]. split; [done|].
  intros []; unfold allocated; simpl; (apply amount_zero || apply amount_zero_milli).
Qed.

(** *** What a pod asks for *)

(** The names of the resources of a kind; the interconnect resource is none of the others'. *)
Definition resource_names (ic : string) (k : res_kind) : list string :=
  match k with
  | RCPU => ["cpu"]
  | RMemory => ["memory"]
  | REphemeral => ["ephemeral-storage"]
  | RGPU => ["nvidia.com/gpu"; "nvidia.com/pgpu"; "amd.com/gpu"]
  | RInterconnect =>
      if decide (ic ∈ [""; "cpu"; "memory"; "ephemeral-storage"; "nvidia.com/gpu"; "nvidia.com/pgpu"; "amd.com/gpu"])
      then [] else [ic]
  end%string.

Definition requested_of (requests : gmap string Quantity) (name : string) : Z := from_option amount_of 0%Z (requests !! name).

Definition container_requested (ic : string) (k : res_kind) (requests : gmap string Quantity) : Z :=
  sumZ (requested_of requests) (resource_names ic k).

(** The size limit of a volume, when it is kept in memory. *)
Definition in_memory (v : option EmptyDir) : Z :=
  match v with
  | Some e => if decide (ed_medium e = "Memory"%string) then from_option amount_of 0%Z (ed_size_limit e) else 0%Z
  | None => 0%Z
  end.

(** What a pod asks for of a kind, with its volumes in memory once for every container. *)
Definition pod_requested (ic : string) (k : res_kind) (pod : KPod api) : Z :=
  (sumZ (container_requested ic k) (po_requests pod) +
   if decide (k = RMemory) then Z.of_nat (List.length (po_requests pod)) * sumZ in_memory (po_volumes pod) else 0)%Z.

Lemma classify_names ic name k : classify ic name = Some k <-> name ∈ resource_names ic k.
Proof.
  unfold classify. cbv [ResourceCPU ResourceMemory ResourceEphemeralStorage ResourceGPUNvidia ResourceGPUNvidiaPGPU ResourceGPUAMD].
  repeat match goal with |- context [String.eqb name ?s] => first [is_var s; fail 1|destruct (String.eqb_spec name s)] end;
    cbn [orb]; try (subst name; destruct k; cbn [resource_names]; try (case_decide; [set_solver|]); set_solver).
  destruct (String.eqb_spec ic ""), (String.eqb_spec name ic); cbn [negb andb];
    destruct k; cbn [resource_names]; try case_decide; set_solver.
Qed.

Lemma resource_names_NoDup ic k : NoDup (resource_names ic k).
Proof. destruct k; cbn [resource_names]; try case_decide; apply (bool_decide_unpack _); exact I. Qed.

Lemma sumZ_requested_insert names requests n q :
  NoDup names -> requests !! n = None ->
  sumZ (requested_of (<[n := q]> requests)) names =
  ((if decide (n ∈ names) then amount_of q else 0) + sumZ (requested_of requests) names)%Z.
Proof.
  intros Hnd Hn. induction Hnd as [|x names Hx Hnd IH]; [by rewrite decide_False by apply not_elem_of_nil|].
  cbn [sumZ foldr]. fold (sumZ (requested_of (<[n := q]> requests)) names) (sumZ (requested_of requests) names). rewrite IH.
  unfold requested_of at 1 3. destruct (decide (x = n)) as [->|Hne].
  - rewrite lookup_insert_eq, Hn, decide_False, decide_True by (done || left). simpl. lia.
  - rewrite lookup_insert_ne by done. destruct (decide (n ∈ names)).
    + rewrite decide_True by (by right). lia.
    + rewrite decide_False by (by rewrite not_elem_of_cons). lia.
Qed.

Lemma charged_app k a b : charged k (a ++ b) = (charged k a + charged k b)%Z.
Proof. apply sumZ_app. Qed.

Lemma container_charged ic k requests : charged k (container_charges ic requests) = container_requested ic k requests.
Proof.
  unfold container_charges. set (f := fun e : string * Quantity => (fun k0 => (k0, e.2)) <$> classify ic e.1).
  assert (charged k (omap f (range_map requests)) = charged k (omap f (map_to_list requests))) as ->.
  { apply sumZ_perm. by rewrite range_map_perm. }
  induction requests as [|n q m Hn IH] using map_ind.
  { rewrite map_to_list_empty. unfold container_requested. induction (resource_names ic k) as [|x l IHl]; [done|].
    simpl. by rewrite <- IHl. }
  assert (charged k (omap f (map_to_list (<[n := q]> m))) = charged k (omap f ((n, q) :: map_to_list m))) as ->.
  { apply sumZ_perm. by rewrite map_to_list_insert. }
  unfold container_requested. rewrite sumZ_requested_insert by (done || apply resource_names_NoDup).
  fold (container_requested ic k m). rewrite <- IH. cbn [omap list_omap]. unfold f at 1. cbn [fst snd].
  pose proof (classify_names ic n k) as Hc. destruct (classify ic n) as [k1|]; cbn [fmap option_fmap option_map].
  - rewrite charged_cons. cbn [fst snd]. destruct (decide (k1 = k)) as [->|Hne].
    + by rewrite decide_True by (by apply Hc).
    + rewrite decide_False; [done|]. intros Hin. apply Hc in Hin. congruence.
  - rewrite decide_False; [done|]. intros Hin. by apply Hc in Hin.
Qed.

Lemma volumes_charged k pod :
  charged k (volume_charges pod) = if decide (k = RMemory) then sumZ in_memory (po_volumes pod) else 0%Z.
Proof.
  unfold volume_charges. induction (po_volumes pod) as [|v vs IH]; [by case_decide|].
  cbn [omap list_omap]. unfold sumZ in *. cbn [foldr].
  assert (forall e, charged k ((fun q => (RMemory, q)) <$> e) = if decide (k = RMemory) then sumZ amount_of e else 0%Z) as Hgen.
  { intros e. induction e as [|q e IHe]; [by case_decide|]. cbn [fmap list_fmap]. rewrite charged_cons, IHe. cbn [fst snd sumZ foldr].
    repeat case_decide; try congruence; done || lia. }
  unfold memory_volume at 1, in_memory at 1. destruct v as [e|]; [|by rewrite IH; case_decide].
  destruct (String.eqb_spec (ed_medium e) "Memory"); [rewrite (decide_True (P := ed_medium e = _)) by done
    |rewrite (decide_False (P := ed_medium e = _)) by done; by rewrite IH; case_decide].
  destruct (ed_size_limit e); [|by rewrite IH; case_decide]. cbn [fmap list_fmap]. rewrite charged_cons. cbn [fst snd from_option].
  fold (fmap (M := list) (pair (A := res_kind) (B := Quantity) RMemory)). rewrite IH. repeat case_decide; try congruence; lia.
Qed.

(** What a pod is charged is what it asks for. *)
Lemma pod_amount_requested ic k pod : pod_amount ic k pod = pod_requested ic k pod.
Proof.
  unfold pod_amount, pod_charges, pod_requested. induction (po_requests pod) as [|r rest IH]; [simpl; case_decide; lia|].
  rewrite bind_cons, !charged_app, IH, container_charged, volumes_charged.
  cbn [sumZ foldr List.length]. fold (sumZ (container_requested ic k) rest). rewrite Nat2Z.inj_succ. case_decide; lia.
Qed.

End Accounting.

(** ** What the kubelet's report changes *)

Section Capacity.
Context {api : InventoryAPI} `{!QuantityAPI api} `{!GoRange}.

Definition keeps_allocated (field : (Quantity -> Quantity) -> ResourcePair api -> ResourcePair api) : Prop :=
  forall f p, rp_allocated (field f p) = rp_allocated p.

Lemma on_pair_allocated field k f n k' :
  keeps_allocated field -> rp_allocated (res_pair k' (on_pair k (field f) n)) = rp_allocated (res_pair k' n).
Proof. intros Hf. unfold on_pair. rewrite res_pair_set. case_decide; [|done]. subst. apply Hf. Qed.

Lemma read_resources_allocated ic field entries n k :
  keeps_allocated field ->
  rp_allocated (res_pair k (read_resources ic field entries n)) = rp_allocated (res_pair k n).
Proof.
  intros Hf. unfold read_resources. revert n. induction entries as [|e entries IH]; intros n; cbn [foldl]; [done|].
  rewrite IH. destruct (classify ic e.1); [|done]. by apply on_pair_allocated.
Qed.

Lemma read_resources_name ic field entries n :
  interconnect_name (read_resources ic field entries n) = interconnect_name n.
Proof.
  unfold read_resources. revert n. induction entries as [|e entries IH]; intros n; cbn [foldl]; [done|].
  rewrite IH. by destruct (classify ic e.1).
Qed.

(** The report is about capacity: what is allocated stays as it was. *)
Lemma update_keeps_allocated knode n patterns k :
  rp_allocated (res_pair k (updateNodeInfo knode n patterns)) = rp_allocated (res_pair k n).
Proof.
  unfold updateNodeInfo. rewrite !read_resources_allocated by done. case_match; by destruct k.
Qed.

(** The name the node's interconnect resource resolves to. *)
Definition resolved_name (knode : KNode api) (patterns : list string) : string :=
  let ic := matchInterconnectResourceName (no_allocatable knode) patterns in
  if String.eqb ic "" then matchInterconnectResourceName (no_capacity knode) patterns else ic.

Lemma update_name knode n patterns :
  interconnect_name (updateNodeInfo knode n patterns) = resolved_name knode patterns.
Proof.
  unfold updateNodeInfo. rewrite !read_resources_name. fold (resolved_name knode patterns).
  destruct (String.eqb_spec (resolved_name knode patterns) "") as [->|]; done.
Qed.

(** A kind of which the report says nothing keeps its reading. *)
Lemma read_resources_untouched ic field entries n k :
  (forall e, e ∈ entries -> classify ic e.1 <> Some k) ->
  res_pair k (read_resources ic field entries n) = res_pair k n.
Proof.
  unfold read_resources. revert n. induction entries as [|e entries IH]; intros n Hk; cbn [foldl]; [done|].
  rewrite IH by (intros e' He'; apply Hk; by right).
  specialize (Hk e (list_elem_of_here _ _)). destruct (classify ic e.1) as [k'|]; [|done].
  unfold on_pair. rewrite res_pair_set, decide_False by congruence. done.
Qed.

(** When the kubelet stops reporting any GPU resource the node keeps the GPU
    capacity it last had: unlike the interconnect, it is not cleared first. *)
Theorem gpu_capacity_outlives_report knode n patterns :
  (forall name, name ∈ [ResourceGPUNvidia; ResourceGPUNvidiaPGPU; ResourceGPUAMD] ->
     no_allocatable knode !! name = None /\ no_capacity knode !! name = None) ->
  res_pair RGPU (updateNodeInfo knode n patterns) = res_pair RGPU n.
Proof.
  intros Hno.
  assert (Hcl : forall ic (m : gmap string Quantity),
            (forall name, name ∈ [ResourceGPUNvidia; ResourceGPUNvidiaPGPU; ResourceGPUAMD] -> m !! name = None) ->
            forall e, e ∈ range_map m -> classify ic e.1 <> Some RGPU).
  { intros ic m Hm [name q] He%elem_of_range_map. simpl. unfold classify.
    assert (Hne : forall g, g ∈ [ResourceGPUNvidia; ResourceGPUNvidiaPGPU; ResourceGPUAMD] -> String.eqb name g = false).
    { intros g Hg. apply String.eqb_neq. intros ->. rewrite (Hm g Hg) in He. done. }
    rewrite (Hne ResourceGPUNvidia), (Hne ResourceGPUNvidiaPGPU), (Hne ResourceGPUAMD)
      by (apply list_elem_of_In; simpl; tauto).
    repeat (case_match; try done). }
  unfold updateNodeInfo. rewrite !read_resources_untouched; [by case_match| |];
    apply Hcl; intros name Hname; by apply Hno.
Qed.

End Capacity.

(** ** Devices *)

Lemma NoDup_omap_fst {A B} (f : A -> option B) (addr : A -> string) (l : list A) :
  NoDup (addr <$> l) -> NoDup (omap (fun x => pair (addr x) <$> f x) l).*1.
Proof.
  induction l as [|x l IH]; [constructor|]. cbn [fmap list_fmap]. intros [Hx Hl]%list.NoDup_cons.
  cbn [omap list_omap]. destruct (f x) as [b|]; cbn [fmap option_fmap option_map]; [|by apply IH].
  cbn [fmap list_fmap]. apply list.NoDup_cons. split; [|by apply IH].
  intros ([a' b'] & Ha & Hin)%list_elem_of_fmap. simpl in Ha. subst a'.
  apply list_elem_of_omap in Hin as (y & Hy & Hf). destruct (f y); [|done]. injection Hf as Hay _.
  apply Hx. rewrite <- Hay. apply list_elem_of_fmap. eauto.
Qed.

(** A GPU is counted once however many of the two probes report it, and a
    display device on the PCI bus that the registry knows is never missed. *)
Theorem gpus_counted_once `{GPUOrder} info cards devices :
  NoDup (gc_address <$> cards) -> NoDup (bd_address <$> devices) ->
  NoDup (gpus_found info (Some cards) (Some devices)).*1 /\
  parseGPUInfo info (Some cards) (Some devices) ≡ₚ (gpus_found info (Some cards) (Some devices)).*2 /\
  (forall d v p, d ∈ devices -> is_display d = true -> bd_vendor d = Some v -> bd_product d = Some p ->
     is_Some (registry_entry info v p) -> bd_address d ∈ (gpus_found info (Some cards) (Some devices)).*1).
Proof.
  intros Hc Hd. unfold parseGPUInfo, gpus_found. simpl. set (known := list_to_set _ : gset string).
  assert (Hpci : forall a, a ∈ (pci_phase info known devices).*1 -> a ∉ known).
  { intros a ([a' g] & -> & Hin)%list_elem_of_fmap. simpl. unfold pci_phase in Hin.
    apply list_elem_of_omap in Hin as (d & _ & Hf).
    apply fmap_Some in Hf as (x & Hx & [= -> _]). unfold pci_info in Hx. destruct (is_display d); [|done].
    by case_bool_decide. }
  split; [|split; [apply sort_gpus_perm|]].
  - rewrite fmap_app. apply list.NoDup_app. split; [by apply NoDup_omap_fst|]. split; [|by apply NoDup_omap_fst].
    intros a Ha Hp. apply (Hpci a Hp). unfold known. by apply elem_of_list_to_set.
  - intros d v p Hin Hdis Hv Hp [g Hg]. rewrite fmap_app. apply elem_of_app.
    destruct (decide (bd_address d ∈ known)) as [Hk|Hk]; [left; by apply elem_of_list_to_set in Hk|right].
    apply list_elem_of_fmap. exists (bd_address d, g). split; [done|]. apply list_elem_of_omap. exists d.
    split; [done|]. unfold pci_info. rewrite Hdis, bool_decide_eq_false_2 by done. by rewrite Hv, Hp, Hg.
Qed.

(** ** Labels and the selectors of the workloads *)

(** A required node selector term, as the Kubernetes scheduler evaluates it:
    [In] wants the label among the values, [Gt] wants both to be integers. *)
Definition selector_holds (s : NodeSelector) (labels : labels_t) : bool :=
  match labels !! ns_key s with
  | None => false
  | Some v =>
      match ns_op s with
      | OpIn => existsb (String.eqb v) (ns_values s)
      | OpGt => match ns_values s with
                | [x] => match ParseUint 63 v, ParseUint 63 x with
                         | Some a, Some b => (b <? a)%Z
                         | _, _ => false
                         end
                | _ => false
                end
      end
  end.

Definition counter (c : Z) : option string := if (c =? 0)%Z then None else Some (FormatUint c).

Definition occurrences (key : string) (keys : list string) : Z := Z.of_nat (countb (String.eqb key) keys).

Lemma occurrences_cons key k keys :
  occurrences key (k :: keys) = ((if String.eqb key k then 1 else 0) + occurrences key keys)%Z.
Proof. unfold occurrences, countb. cbn [List.filter]. destruct (String.eqb key k); cbn [List.length]; lia. Qed.

Lemma occurrences_app key a b : occurrences key (a ++ b) = (occurrences key a + occurrences key b)%Z.
Proof. induction a as [|k a IH]; [done|]. cbn [app]. rewrite !occurrences_cons, IH. lia. Qed.

Lemma occurrences_pos key keys : (0 < occurrences key keys)%Z <-> key ∈ keys.
Proof.
  induction keys as [|k keys IH]; [split; [done|no_elem]|]. rewrite occurrences_cons, elem_of_cons, <- IH.
  assert (0 <= occurrences key keys)%Z by (unfold occurrences; lia).
  destruct (String.eqb_spec key k) as [->|Hne]; [split; [by left|lia]|]. split; [intros; right; lia|]. intros [|]; [done|lia].
Qed.

Lemma occurrences_le key keys : (occurrences key keys <= Z.of_nat (List.length keys))%Z.
Proof.
  induction keys as [|k keys IH]; [done|]. rewrite occurrences_cons. cbn [List.length]. destruct (String.eqb key k); lia.
Qed.

Lemma bump_counter labels key c :
  (0 <= c < 2 ^ 32 - 1)%Z -> labels !! key = counter c -> bump labels key !! key = counter (c + 1).
Proof.
  intros Hc Hl. unfold bump. rewrite Hl. unfold counter at 1. destruct (Z.eqb_spec c 0) as [->|Hne].
  - by rewrite lookup_insert_eq.
  - rewrite lookup_insert_eq, ParseUint_value_FormatUint by (unfold is_uint; lia). cbn [fst].
    unfold counter. rewrite (proj2 (Z.eqb_neq (c + 1) 0)) by lia.
    unfold wrap64, wrap. rewrite Z.mod_small by lia. done.
Qed.

Lemma bump_other labels key k : key <> k -> bump labels k !! key = labels !! key.
Proof. intros Hne. unfold bump. destruct (labels !! k); by rewrite lookup_insert_ne by congruence. Qed.

Lemma bumps_counter keys labels key c :
  (0 <= c)%Z -> (c + occurrences key keys < 2 ^ 32)%Z -> labels !! key = counter c ->
  foldl bump labels keys !! key = counter (c + occurrences key keys).
Proof.
  revert labels c. induction keys as [|k keys IH]; intros labels c Hc Hlt Hl; cbn [foldl].
  - by rewrite Z.add_0_r.
  - rewrite occurrences_cons in Hlt |- *. assert (0 <= occurrences key keys)%Z by (unfold occurrences; lia).
    destruct (String.eqb_spec key k) as [<-|Hne].
    + rewrite (IH _ (c + 1)%Z); [f_equal; lia|lia|lia|]. apply bump_counter; [lia|done].
    + rewrite (IH _ c); [f_equal; lia|lia|lia|]. by rewrite bump_other.
Qed.

Lemma label_gpus_counter infos labels key c :
  key <> labelNvidiaComGPUPresent -> (0 <= c)%Z -> (c + occurrences key (infos ≫= gpu_keys) < 2 ^ 32)%Z ->
  labels !! key = counter c ->
  foldl label_gpu labels infos !! key = counter (c + occurrences key (infos ≫= gpu_keys)).
Proof.
  intros Hp. revert labels c. induction infos as [|info infos IH]; intros labels c Hc Hlt Hl; cbn [foldl].
  - by rewrite Z.add_0_r.
  - cbn [mbind list_bind] in Hlt |- *. rewrite occurrences_app in Hlt |- *.
    assert (0 <= occurrences key (infos ≫= gpu_keys))%Z by (unfold occurrences; lia).
    assert (0 <= occurrences key (gpu_keys info))%Z by (unfold occurrences; lia).
    rewrite (IH _ (c + occurrences key (gpu_keys info))%Z); [f_equal; unfold mbind in *; lia|lia|unfold mbind in *; lia|].
    unfold label_gpu. apply bumps_counter; [done|lia|]. case_match; [|done]. by rewrite lookup_insert_ne.
Qed.

(** Keys of different origin differ. *)
Lemma gpu_key_shape info key : key ∈ gpu_keys info -> has_prefix key AkashServiceCapabilityGPU = true.
Proof.
  intros Hk.
  assert (exists t, key = (AkashServiceCapabilityGPU +:+ t)%string) as [t ->]; [|apply prefix_app].
  unfold gpu_keys, gpu_label in Hk. rewrite elem_of_cons, elem_of_app in Hk.
  destruct Hk as [->|[Hk|Hk]]; [eauto| |]; (case_match; [by apply not_elem_of_nil in Hk|]);
    apply list_elem_of_singleton in Hk as ->; rewrite str_app_assoc; eauto.
Qed.

Lemma class_key_no_gpu class key :
  has_prefix key AkashServiceCapabilityGPU = true ->
  key <> class_label class /\ key <> AkashManagedLabelName /\ key <> labelNvidiaComGPUPresent.
Proof. intros Hk. split_and!; intros ->; discriminate Hk. Qed.

Lemma class_labels_lookup allowed labels key :
  foldl label_class labels allowed !! key =
  if decide (key ∈ class_label <$> allowed) then Some "1"%string else labels !! key.
Proof.
  revert labels. induction allowed as [|c allowed IH]; intros labels; cbn [foldl]; [done|].
  rewrite IH. unfold label_class. cbn [fmap list_fmap]. destruct (decide (key = class_label c)) as [->|Hne].
  - rewrite lookup_insert_eq. rewrite (decide_True _ _ (list_elem_of_here _ _)). by case_decide.
  - rewrite lookup_insert_ne by congruence. destruct (decide (key ∈ class_label <$> allowed)) as [Hin|Hni].
    + rewrite decide_True; [done|by right].
    + rewrite decide_False; [done|]. rewrite elem_of_cons. tauto.
Qed.

Section LabelProofs.
Context {api : InventoryAPI} `{!ConfigAPI} `{!GoRange}.

(** A node workloads may be put on. *)
Definition schedulable (cfg : Config) (knode : KNode api) : bool :=
  isNodeReady knode && negb (no_unschedulable knode) && negb (IsNodeExcluded (Excludes cfg) (no_name knode)).

Lemma filter_keeps_nodes cfg available cfg' :
  FilterOutStorageClasses cfg available = Some cfg' -> Nodes (Excludes cfg') = Nodes (Excludes cfg).
Proof.
  unfold FilterOutStorageClasses. case_bool_decide; [by intros [= <-]|].
  destruct (filter_rules _ _); [|done]. by intros [= <-].
Qed.

Definition base_labels_of (allowed : list string) : labels_t :=
  foldl label_class (<[AkashManagedLabelName := ValTrue]> ∅) allowed.

Lemma generate_spec cfg (knode : KNode api) node sc labels node' :
  generateLabels cfg knode node sc = Some (labels, node') ->
  (schedulable cfg knode = false /\ labels = ∅ /\ node' = set_storage_classes [] node) \/
  (schedulable cfg knode = true /\ exists allowed, node' = set_storage_classes allowed node /\
     labels = foldl label_gpu (base_labels_of allowed) (n_gpu_info (nd_resources node))).
Proof.
  unfold generateLabels, schedulable. destruct (FilterOutStorageClasses _ _) as [adj|] eqn:Ef; [|done].
  unfold IsNodeExcluded. rewrite (filter_keeps_nodes _ _ _ Ef). simpl.
  destruct (isNodeReady knode), (no_unschedulable knode), (existsb _ _); simpl; try (intros [= <- <-]; by left).
  destruct (StorageClassesForNode _ _) as [allowed|]; [|done]. intros [= <- <-]. right. eauto.
Qed.

Lemma generate_labels_lookup allowed infos key :
  has_prefix key AkashServiceCapabilityGPU = true -> (occurrences key (infos ≫= gpu_keys) < 2 ^ 32)%Z ->
  foldl label_gpu (base_labels_of allowed) infos !! key = counter (occurrences key (infos ≫= gpu_keys)).
Proof.
  intros Hk Hlt. destruct (class_key_no_gpu "" key Hk) as (_ & Hm & Hp).
  rewrite (label_gpus_counter infos _ key 0); [done|done|done|lia|]. unfold base_labels_of.
  rewrite class_labels_lookup, decide_False.
  - rewrite lookup_insert_ne by congruence. by rewrite lookup_empty.
  - intros (class & -> & _)%list_elem_of_fmap. by destruct (class_key_no_gpu class _ Hk).
Qed.

Lemma positive_counter key labels c :
  (0 <= c < 2 ^ 32)%Z -> labels !! key = counter c -> selector_holds (positive_selector key) labels = true <-> (0 < c)%Z.
Proof.
  intros Hc Hl. unfold selector_holds. cbn [positive_selector ns_key ns_op ns_values]. rewrite Hl. unfold counter.
  destruct (Z.eqb_spec c 0) as [->|Hne]; [done|].
  rewrite ParseUint_FormatUint by (unfold is_uint; lia).
  change (ParseUint 63 "0") with (Some 0%Z). rewrite Z.ltb_lt. done.
Qed.

(** Labels that are not a counter of GPUs are left alone by the GPUs. *)
Lemma label_gpus_other infos labels key :
  has_prefix key AkashServiceCapabilityGPU = false -> key <> labelNvidiaComGPUPresent ->
  foldl label_gpu labels infos !! key = labels !! key.
Proof.
  intros Hk Hp. revert labels. induction infos as [|info infos IH]; intros labels; cbn [foldl]; [done|].
  rewrite IH. unfold label_gpu.
  assert (Hb : forall keys l, (forall k, k ∈ keys -> has_prefix k AkashServiceCapabilityGPU = true) ->
                 foldl bump l keys !! key = l !! key).
  { induction keys as [|k keys IHk]; intros l Hkeys; cbn [foldl]; [done|].
    rewrite IHk by (intros k' Hk'; apply Hkeys; by right). apply bump_other. intros ->.
    rewrite (Hkeys k (list_elem_of_here _ _)) in Hk. done. }
  rewrite Hb by apply gpu_key_shape. case_match; [|done]. by rewrite lookup_insert_ne.
Qed.

Lemma class_label_inj a b : class_label a = class_label b -> a = b.
Proof. intros E. do 2 apply str_app_cancel in E. done. Qed.

(** On a node that takes workloads the generated labels are exactly what the
    workloads' selectors ask about: the node is marked as managed, a storage class
    is advertised when the node may offer it, and each counter of GPUs is the
    number of GPUs of that description; any other node gets no label and offers
    no storage class. *)
Theorem labels_advertise_node cfg (knode : KNode api) node sc labels node' :
  generateLabels cfg knode node sc = Some (labels, node') ->
  (forall key, (occurrences key (n_gpu_info (nd_resources node) ≫= gpu_keys) < 2 ^ 32)%Z) ->
  if schedulable cfg knode then
    selector_holds (true_selector AkashManagedLabelName) labels = true /\
    (forall class, selector_holds (positive_selector (class_label class)) labels = true <->
                   class ∈ nc_storage_classes (nd_caps node')) /\
    (forall key, has_prefix key AkashServiceCapabilityGPU = true ->
       labels !! key = counter (occurrences key (n_gpu_info (nd_resources node) ≫= gpu_keys)))
  else labels = ∅ /\ nc_storage_classes (nd_caps node') = [].
Proof.
  intros E Hlt. destruct (generate_spec _ _ _ _ _ _ E) as [(-> & -> & ->)|(-> & allowed & -> & ->)]; [done|].
  split_and!.
  - unfold selector_holds. cbn [true_selector ns_key ns_op ns_values]. rewrite label_gpus_other by done.
    unfold base_labels_of. rewrite class_labels_lookup, decide_False.
    + by rewrite lookup_insert_eq.
    + intros (class & Hc & _)%list_elem_of_fmap. discriminate Hc.
  - intros class. rewrite (positive_counter _ _ (if decide (class ∈ allowed) then 1 else 0)%Z).
    + case_decide; [by split|]. split; [done|]. intros Hin. done.
    + case_decide; lia.
    + rewrite label_gpus_other by done. unfold base_labels_of. rewrite class_labels_lookup.
      destruct (decide (class ∈ allowed)) as [Hin|Hni].
      * rewrite decide_True; [done|]. apply list_elem_of_fmap. eauto.
      * rewrite decide_False; [done|]. intros (c & Hc%class_label_inj & Hin)%list_elem_of_fmap. congruence.
  - intros key Hk. by apply generate_labels_lookup.
Qed.

(** C29: a workload placed for a GPU the node has is admitted there: the node's labels
    satisfy every selector the workload builder writes for that vendor, model, memory and
    interface. Stated for a node that can be scheduled on and has fewer than [2 ^ 32] GPUs of a kind. *)
Theorem gpu_workload_admitted cfg (knode : KNode api) node sc labels node' info g ic :
  generateLabels cfg knode node sc = Some (labels, node') -> schedulable cfg knode = true ->
  (forall key, (occurrences key (n_gpu_info (nd_resources node) ≫= gpu_keys) < 2 ^ 32)%Z) ->
  info ∈ n_gpu_info (nd_resources node) ->
  sg_vendor g = gi_vendor info -> sg_model g = gi_name info ->
  (sg_memory_size g = ""%string \/ sg_memory_size g = gi_memory_size info) ->
  (sg_interface g = ""%string \/ (gi_interface info <> ""%string /\ sg_interface g = FilterGPUInterface (gi_interface info))) ->
  Forall (fun s => selector_holds s labels = true) (nodeSelectorsFromResources (mkSchedResources (Some g) ic)).
Proof.
  intros E Hs Hlt Hin Hv Hm Hr Hi.
  destruct (generate_spec _ _ _ _ _ _ E) as [(? & _)|(_ & allowed & -> & ->)]; [congruence|].
  assert (Hkey : forall key, key ∈ gpu_keys info ->
            selector_holds (positive_selector key) (foldl label_gpu (base_labels_of allowed) (n_gpu_info (nd_resources node))) = true).
  { intros key Hk. rewrite (positive_counter _ _ (occurrences key (n_gpu_info (nd_resources node) ≫= gpu_keys))).
    - apply occurrences_pos, list_elem_of_bind. eauto.
    - split; [unfold occurrences; lia|apply Hlt].
    - apply generate_labels_lookup; [by eapply gpu_key_shape|apply Hlt]. }
  unfold nodeSelectorsFromResources. cbn [sr_gpu]. rewrite Hv, Hm.
  change (AkashServiceCapabilityGPU +:+ ".vendor." +:+ gi_vendor info +:+ ".model." +:+ gi_name info)
    with (gpu_label (gi_vendor info) (gi_name info)).
  apply list.Forall_cons. split; [apply Hkey; left|]. apply Forall_app. split.
  - destruct (String.eqb_spec (sg_memory_size g) "") as [|Hne]; [constructor|].
    destruct Hr as [?|Hr]; [done|]. apply list.Forall_singleton, Hkey. unfold gpu_keys. rewrite Hr in Hne |- *.
    rewrite (proj2 (String.eqb_neq _ _) Hne). right. apply elem_of_app. left. by apply list_elem_of_singleton.
  - destruct (String.eqb_spec (sg_interface g) "") as [|Hne]; [constructor|].
    destruct Hi as [?|[Hgi Hi]]; [done|]. apply list.Forall_singleton, Hkey. unfold gpu_keys. rewrite Hi.
    rewrite (proj2 (String.eqb_neq _ _) Hgi). right. apply elem_of_app. right. by apply list_elem_of_singleton.
Qed.

(** Every generated label is one the operator manages. *)
Lemma generated_managed cfg (knode : KNode api) node sc labels node' key :
  generateLabels cfg knode node sc = Some (labels, node') -> is_Some (labels !! key) -> isLabelManaged key = true.
Proof.
  intros E Hk. destruct (generate_spec _ _ _ _ _ _ E) as [(_ & -> & _)|(_ & allowed & _ & ->)].
  - rewrite lookup_empty in Hk. by destruct Hk.
  - unfold isLabelManaged. destruct (String.eqb_spec key labelNvidiaComGPUPresent) as [->|Hp]; [apply orb_true_r|].
    rewrite orb_false_r. destruct (has_prefix key AkashServiceCapabilityGPU) eqn:Hg.
    + unfold has_prefix in *. clear -Hg. unfold AkashServiceCapabilityGPU, AkashManagedLabelName in *.
      do 13 (destruct key as [|? key]; [done|]; cbn [String.prefix] in Hg |- *; case_match; [|done]). by destruct key.
    + rewrite label_gpus_other in Hk by done. unfold base_labels_of in Hk. rewrite class_labels_lookup in Hk.
      case_decide as Hc; [apply list_elem_of_fmap in Hc as (class & -> & _); by destruct class|].
      destruct (decide (key = AkashManagedLabelName)) as [->|Hne]; [done|].
      rewrite lookup_insert_ne, lookup_empty in Hk by congruence. by destruct Hk.
Qed.

(** The patch of a node's labels gives every managed label its generated value
    or removes it, and leaves every other label of the node as it was. *)
Theorem patch_keeps_foreign_labels cfg (knode : KNode api) node sc labels node' key :
  generateLabels cfg knode node sc = Some (labels, node') ->
  patch_labels labels knode !! key = if isLabelManaged key then labels !! key else no_labels knode !! key.
Proof.
  intros E. unfold patch_labels, removeManagedLabels. destruct (isLabelManaged key) eqn:Hm.
  - rewrite lookup_union_r; [done|]. apply map_lookup_filter_None_2. right. intros v _. simpl. congruence.
  - destruct (no_labels knode !! key) as [v|] eqn:Hv.
    + apply lookup_union_Some_l, map_lookup_filter_Some. done.
    + apply lookup_union_None. split; [apply map_lookup_filter_None_2; by left|].
      destruct (labels !! key) eqn:Hl; [|done].
      assert (isLabelManaged key = true) by (apply (generated_managed _ _ _ _ _ _ _ E); by rewrite Hl). congruence.
Qed.

End LabelProofs.
