(* ===== verification/NodeMonitor.v ===== *)
(** * The monitor of a node

    Model of [nodeDiscovery.monitor] and [initNodeInfo] of
    [operator/inventory/node-discovery.go]: one loop per node that keeps the
    node's inventory from the events it subscribes to, keeps its labels current
    and publishes its state.

    The state is [monitor]; [handle] is one turn of the loop, with what the
    probes and the Kubernetes API answered carried by the event. The two signal
    channels have room for one token and are booleans. *)

From stdpp Require Import base gmap list strings sorting tactics.
From Stdlib Require Import ZArith Lia Ascii.
From S2P Require Import Prelude Types Names Builder InvConfig Concrete NodeDiscovery.

Inductive WatchType := Added | Modified | Deleted.

Inductive nodeStateEnum := nodeStateRemoved | nodeStateUpdated.

#[export] Instance nodeStateEnum_eq_dec : EqDecision nodeStateEnum.
Proof. solve_decision. Defined.

Section Monitor.
Context {api : InventoryAPI} `{!QuantityAPI api} `{!ConfigAPI} `{!GoRange} `{!GPUOrder}.

(** What is published on the inventory topic. *)
Inductive nodeState :=
| NodeRemoved (name : string)
| NodeUpdated (name : string) (node : Node api).

(** [dp.name]. *)
Variable name : string.

Record monitor := mkMonitor {
  mo_cfg : Config;
  mo_sc : gset string;
  mo_ids : RegistryGPUVendors;
  mo_knode : KNode api;
  mo_node : Node api;
  (** [StorageClasses] is still nil, which differs from every slice. *)
  mo_classes_nil : bool;
  mo_pods : gmap string (KPod api);
  mo_labels : labels_t;
  mo_last : nodeStateEnum;
  mo_statech : bool;
  mo_labelch : bool
}.

Inductive event :=
| EvConfig (cfg : Config)
| EvStorageClasses (sc : gset string)
| EvGPUIDs (ids : RegistryGPUVendors) (cards : option (list GraphicsCard)) (devices : option (list BusDevice))
| EvNode (type : WatchType) (obj : KNode api) (ib : IBDiscovery) (listing : option (list (KPod api)))
| EvPod (type : WatchType) (pod : KPod api)
| EvPodError                                              (* an event whose object is no pod *)
| EvPodsClosed (listing : option (list (KPod api)))       (* the watch ended *)
| EvState
| EvLabels
| EvDone.

Inductive output :=
| OutPub (s : nodeState)
| OutPatch (labels : labels_t)
| OutNegative (k : res_kind).

Inductive outcome :=
| Continue (m : monitor) (outs : list output)
| Exit (outs : list output)
| Panic.

(** ** The parts of a turn *)

Definition with_node (node : Node api) (m : monitor) : monitor :=
  mkMonitor (mo_cfg m) (mo_sc m) (mo_ids m) (mo_knode m) node (mo_classes_nil m) (mo_pods m) (mo_labels m)
    (mo_last m) (mo_statech m) (mo_labelch m).

Definition with_knode (knode : KNode api) (m : monitor) : monitor :=
  mkMonitor (mo_cfg m) (mo_sc m) (mo_ids m) knode (mo_node m) (mo_classes_nil m) (mo_pods m) (mo_labels m)
    (mo_last m) (mo_statech m) (mo_labelch m).

Definition with_cfg (cfg : Config) (m : monitor) : monitor :=
  mkMonitor cfg (mo_sc m) (mo_ids m) (mo_knode m) (mo_node m) (mo_classes_nil m) (mo_pods m) (mo_labels m)
    (mo_last m) (mo_statech m) (mo_labelch m).

Definition with_pods (node : Node api) (pods : gmap string (KPod api)) (m : monitor) : monitor :=
  mkMonitor (mo_cfg m) (mo_sc m) (mo_ids m) (mo_knode m) node (mo_classes_nil m) pods (mo_labels m)
    (mo_last m) (mo_statech m) (mo_labelch m).

Definition signalState (m : monitor) : monitor :=
  mkMonitor (mo_cfg m) (mo_sc m) (mo_ids m) (mo_knode m) (mo_node m) (mo_classes_nil m) (mo_pods m) (mo_labels m)
    (mo_last m) true (mo_labelch m).

Definition signalLabels (m : monitor) : monitor :=
  mkMonitor (mo_cfg m) (mo_sc m) (mo_ids m) (mo_knode m) (mo_node m) (mo_classes_nil m) (mo_pods m) (mo_labels m)
    (mo_last m) (mo_statech m) true.

(** The loop of [restartPodsWatcher] over the listed pods. *)
Definition count_pod (acc : Node api * gmap string (KPod api)) (pod : KPod api) :
    Node api * gmap string (KPod api) :=
  if isPodAllocated pod then (addPodAllocatedResources acc.1 pod, <[podKey pod := pod]> acc.2) else acc.

(** [restartPodsWatcher]: [None] is a listing that failed. *)
Definition restartPodsWatcher (listing : option (list (KPod api))) (m : monitor) : option monitor :=
  match listing with
  | None => None
  | Some pods => let acc := foldl count_pod (nodeResetAllocated (mo_node m), ∅) pods in
                 Some (with_pods acc.1 acc.2 m)
  end.

(** What the deferred function publishes when the monitor ends. *)
Definition retract (m : monitor) : list output :=
  if decide (mo_last m = nodeStateRemoved) then [] else [OutPub (NodeRemoved name)].

Definition handle_config (m : monitor) (newCfg : Config) : monitor :=
  let patternsChanged := negb (bool_decide (ResourcePatterns newCfg = ResourcePatterns (mo_cfg m))) in
  let m := with_cfg newCfg m in
  let m := if patternsChanged
           then signalState (with_node (updateNodeInfo (mo_knode m) (mo_node m) (ResourcePatterns newCfg)) m)
           else m in
  signalLabels m.

Definition handle_node (m : monitor) (type : WatchType) (obj : KNode api) (ib : IBDiscovery)
    (listing : option (list (KPod api))) : outcome :=
  if String.eqb (no_name obj) name then
    match type with
    | Modified =>
        if nodeAllocatableChanged (mo_knode m) obj then
          let node := updateNodeInfo obj (set_ib ib (mo_node m)) (ResourcePatterns (mo_cfg m)) in
          match restartPodsWatcher listing (with_node node m) with
          | None => Exit (retract m)
          | Some m' => Continue (with_knode obj (signalLabels m')) []
          end
        else Continue (with_knode obj (signalLabels m)) []
    | _ => Continue (with_knode obj m) []
    end
  else Continue m [].

Definition handle_pod (m : monitor) (type : WatchType) (pod : KPod api) : monitor * list output :=
  let key := podKey pod in
  match type with
  | Added | Modified =>
      match mo_pods m !! key with
      | None => if isPodAllocated pod
                then (signalState (with_pods (addPodAllocatedResources (mo_node m) pod) (<[key := pod]> (mo_pods m)) m), [])
                else (signalState m, [])
      | Some _ => (signalState m, [])
      end
  | Deleted =>
      match mo_pods m !! key with
      | None => (signalState m, [])
      | Some tracked => let r := subPodAllocatedResources (mo_node m) tracked in
                        (signalState (with_pods r.1 (delete key (mo_pods m)) m), OutNegative <$> r.2)
      end
  end.

Definition handle_state (m : monitor) : monitor * list output :=
  let m' (last : nodeStateEnum) :=
    mkMonitor (mo_cfg m) (mo_sc m) (mo_ids m) (mo_knode m) (mo_node m) (mo_classes_nil m) (mo_pods m) (mo_labels m)
      last false (mo_labelch m) in
  if negb (bool_decide (mo_labels m = ∅)) then (m' nodeStateUpdated, [OutPub (NodeUpdated name (mo_node m))])
  else if decide (mo_last m = nodeStateRemoved) then (m' (mo_last m), [])
  else (m' nodeStateRemoved, [OutPub (NodeRemoved name)]).

Definition handle_labels (m : monitor) : outcome :=
  match generateLabels (mo_cfg m) (mo_knode m) (mo_node m) (mo_sc m) with
  | None => Panic
  | Some (labels, nNode) =>
      let differs := mo_classes_nil m ||
        negb (bool_decide (nc_storage_classes (nd_caps nNode) = nc_storage_classes (nd_caps (mo_node m)))) in
      let relabelled := negb (bool_decide (labels = mo_labels m)) in
      let m' := mkMonitor (mo_cfg m) (mo_sc m) (mo_ids m) (mo_knode m) (if differs then nNode else mo_node m) false
                  (mo_pods m) (if relabelled then copyManagedLabels labels else mo_labels m) (mo_last m)
                  (mo_statech m || differs || relabelled) false in
      Continue m' (if relabelled then [OutPatch (patch_labels labels (mo_knode m))] else [])
  end.

(** ** A turn of the loop *)

Definition handle (m : monitor) (e : event) : outcome :=
  match e with
  | EvConfig cfg => Continue (handle_config m cfg) []
  | EvStorageClasses sc =>
      Continue (signalLabels (mkMonitor (mo_cfg m) sc (mo_ids m) (mo_knode m) (mo_node m) (mo_classes_nil m) (mo_pods m)
                  (mo_labels m) (mo_last m) (mo_statech m) (mo_labelch m))) []
  | EvGPUIDs ids cards devices =>
      Continue (signalLabels (mkMonitor (mo_cfg m) (mo_sc m) ids (mo_knode m)
                  (set_gpu_info (parseGPUInfo ids cards devices) (mo_node m)) (mo_classes_nil m) (mo_pods m)
                  (mo_labels m) (mo_last m) (mo_statech m) (mo_labelch m))) []
  | EvNode type obj ib listing => handle_node m type obj ib listing
  | EvPod type pod => let r := handle_pod m type pod in Continue r.1 r.2
  | EvPodError => Panic
  | EvPodsClosed listing =>
      match restartPodsWatcher listing m with
      | None => Exit (retract m)
      | Some m' => Continue m' []
      end
  | EvState => let r := handle_state m in Continue r.1 r.2
  | EvLabels => handle_labels m
  | EvDone => Exit (retract m)
  end.

(** A signal can only be received when it was sent. *)
Definition enabled (m : monitor) (e : event) : Prop :=
  match e with
  | EvState => mo_statech m = true
  | EvLabels => mo_labelch m = true
  | _ => True
  end.

(** The turns of a loop that goes on, with all it sent out. *)
Inductive run : monitor -> list event -> monitor -> list output -> Prop :=
| run_nil m : run m [] m []
| run_cons m e m1 out1 es m2 out2 :
    enabled m e -> handle m e = Continue m1 out1 -> run m1 es m2 out2 -> run m (e :: es) m2 (out1 ++ out2).

(** ** The start *)

Definition initNodeInfo (cpu_answers : list (option (list Processor))) (cards : option (list GraphicsCard))
    (devices : option (list BusDevice)) (ib : IBDiscovery) (ids : RegistryGPUVendors) (knode : KNode api)
    (patterns : list string) : Node api :=
  let zero := mkResourcePair (Some (q_new 0)) (Some (q_new 0)) (Some (q_new 0)) in
  let zero_milli := mkResourcePair (Some (q_new_milli 0)) (Some (q_new_milli 0)) (Some (q_new_milli 0)) in
  updateNodeInfo knode
    (mkNode (no_name knode)
       (mkNodeResources zero_milli (parseCPUInfo cpu_answers (normalizeArch (no_arch knode))) zero zero
          (parseGPUInfo ids cards devices) zero zero zero zero)
       (mkNodeCapabilities [] "" (Fabric ib) (NCCLIBHCAPrefixes ib))) patterns.

(** The node object of a failed request. *)
Definition empty_knode : KNode api := mkKNode "" ∅ "" ∅ ∅ [] [] false.

(** From the retained configuration, storage classes and, if any came, registry
    to the loop; [None] when the first listing fails. *)
Definition start (cfg : Config) (sc : gset string) (ids : RegistryGPUVendors) (get : option (KNode api))
    (cpu_answers : list (option (list Processor))) (cards : option (list GraphicsCard))
    (devices : option (list BusDevice)) (ib : IBDiscovery) (listing : option (list (KPod api))) : option monitor :=
  let knode := default empty_knode get in
  let labels := match get with Some k => copyManagedLabels (no_labels k) | None => ∅ end in
  let node := initNodeInfo cpu_answers cards devices ib ids knode (ResourcePatterns cfg) in
  restartPodsWatcher listing
    (mkMonitor cfg sc ids knode node true ∅ labels nodeStateRemoved false false).

End Monitor.

(** ** Sums over the tracked pods *)

Definition total {A} (f : A -> Z) (m : gmap string A) : Z := sumZ (fun p => f p.2) (map_to_list m).

Lemma total_insert {A} (f : A -> Z) m k x : m !! k = None -> total f (<[k := x]> m) = (f x + total f m)%Z.
Proof. intros Hk. unfold total. by rewrite (sumZ_perm _ _ _ (map_to_list_insert m k x Hk)). Qed.

Lemma total_delete {A} (f : A -> Z) m k x : m !! k = Some x -> total f m = (f x + total f (delete k m))%Z.
Proof. intros Hk. rewrite <- (total_insert f (delete k m) k x) by apply lookup_delete_eq. by rewrite insert_delete_id. Qed.

Lemma total_empty {A} (f : A -> Z) : total f ∅ = 0%Z.
Proof. unfold total. by rewrite map_to_list_empty. Qed.

Lemma total_ext {A} (f g : A -> Z) m : (forall x, f x = g x) -> total f m = total g m.
Proof. intros E. unfold total. induction (map_to_list m) as [|p l IH]; simpl; [done|]. by rewrite E, IH. Qed.

Lemma total_covers {A} (f : A -> Z) m k x :
  (forall k' y, m !! k' = Some y -> (0 <= f y)%Z) -> m !! k = Some x -> (f x <= total f m)%Z.
Proof.
  intros Hf Hk. rewrite (total_delete f m k x Hk). unfold total at 1.
  enough (0 <= sumZ (fun p => f p.2) (map_to_list (delete k m)))%Z by lia.
  apply sumZ_nonneg. intros [k' y] Hin%elem_of_map_to_list. apply lookup_delete_Some in Hin as [_ Hin]. by eapply Hf.
Qed.

Section MonitorProofs.
Context {api : InventoryAPI} `{!QuantityAPI api} `{!QuantityLaws api} `{!ConfigAPI} `{!GoRange} `{!GPUOrder}.
Variable name : string.
#[local] Abbreviation monitor := (@monitor api _).
#[local] Abbreviation handle := (handle name).
#[local] Abbreviation run := (run name).

(** The name of the interconnect resource only matters to the interconnect. *)
Lemma classify_other ic ic' k n : k <> RInterconnect -> classify ic n = Some k <-> classify ic' n = Some k.
Proof.
  intros Hk. unfold classify. repeat (case_match; [done|]).
  by split; repeat (case_match; try done); intros [= <-].
Qed.

Lemma pod_amount_other ic ic' k (pod : KPod api) :
  k <> RInterconnect -> pod_amount ic k pod = pod_amount ic' k pod.
Proof.
  intros Hk. unfold pod_amount, pod_charges.
  assert (Hc : forall cs, charged k (container_charges ic cs) = charged k (container_charges ic' cs)).
  { intros cs. unfold container_charges. induction (range_map cs) as [|[n q] l IH]; [done|].
    assert (Hs : forall ic0, charged k (omap (fun e : string * Quantity => (fun k0 => (k0, e.2)) <$> classify ic0 e.1) ((n, q) :: l)) =
              ((if decide (classify ic0 n = Some k) then amount_of q else 0) +
               charged k (omap (fun e : string * Quantity => (fun k0 => (k0, e.2)) <$> classify ic0 e.1) l))%Z).
    { intros ic0. cbn [omap list_omap fst snd]. destruct (classify ic0 n) as [k1|]; cbn [fmap option_fmap option_map].
      - rewrite charged_cons. simpl. repeat case_decide; try congruence; lia.
      - by rewrite decide_False. }
    rewrite !Hs, IH. pose proof (classify_other ic ic' k n Hk). repeat case_decide; tauto || lia. }
  assert (Happ : forall a b, charged k (a ++ b) = (charged k a + charged k b)%Z).
  { intros a b. induction a as [|c a IH]; [done|]. cbn [app]. rewrite !charged_cons, IH. lia. }
  induction (po_requests pod) as [|r rest IH]; [done|]. cbn [mbind list_bind]. rewrite !Happ, Hc.
  f_equal. exact IH.
Qed.

(** What is allocated of a kind is what the tracked pods take of it. *)
Definition accounts (k : res_kind) (m : monitor) : Prop :=
  allocated k (mo_node m) = total (pod_amount (interconnect_name (mo_node m)) k) (mo_pods m).

Lemma accounts_requested k (m : monitor) :
  accounts k m -> allocated k (mo_node m) = total (pod_requested (interconnect_name (mo_node m)) k) (mo_pods m).
Proof. unfold accounts. intros ->. apply total_ext. intros pod. apply pod_amount_requested. Qed.

(** The invariant: the quantities are there and every kind but possibly the
    interconnect is accounted for; tracked pods are stored under their key. *)
Record monitor_inv (m : monitor) : Prop := {
  inv_set : allocated_set (mo_node m);
  inv_accounts : forall k, k <> RInterconnect -> accounts k m;
  inv_nonneg : forall key pod, mo_pods m !! key = Some pod -> pod_nonneg pod
}.

(** The API lists pods with distinct keys, and requests are not negative. *)
Definition listing_ok (listing : option (list (KPod api))) : Prop :=
  match listing with
  | Some pods => NoDup (podKey <$> pods) /\ forall pod, pod ∈ pods -> pod_nonneg pod
  | None => True
  end.

Definition event_ok (e : event) : Prop :=
  match e with
  | EvNode _ _ _ listing | EvPodsClosed listing => listing_ok listing
  | EvPod _ pod => pod_nonneg pod
  | _ => True
  end.

(** A new configuration keeps the resource patterns. *)
Definition keeps_patterns (patterns : list string) (e : event) : Prop :=
  match e with EvConfig cfg => ResourcePatterns cfg = patterns | _ => True end.

Lemma count_pods_spec pods node tracked ic :
  NoDup (podKey <$> pods) -> (forall pod, pod ∈ pods -> tracked !! podKey pod = None) ->
  allocated_set node -> interconnect_name node = ic ->
  let acc := foldl count_pod (node, tracked) pods in
  allocated_set acc.1 /\ interconnect_name acc.1 = ic /\
  (forall k, (allocated k acc.1 - allocated k node = total (pod_amount ic k) acc.2 - total (pod_amount ic k) tracked)%Z) /\
  (forall key pod, acc.2 !! key = Some pod -> tracked !! key = Some pod \/ pod ∈ pods).
Proof.
  cbv zeta. revert node tracked. induction pods as [|pod pods IH]; intros node tracked Hnd Hnew Hset Hic; cbn [foldl].
  - do 2 (split; [done|]). split; [intros k; cbn [fst snd]; lia|]. auto.
  - cbn [fmap list_fmap] in Hnd. apply list.NoDup_cons in Hnd as [Hp Hnd]. 
    assert (Ec : count_pod (node, tracked) pod = if isPodAllocated pod
              then (addPodAllocatedResources node pod, <[podKey pod := pod]> tracked) else (node, tracked)) by done.
    rewrite Ec. clear Ec. destruct (isPodAllocated pod).
    + destruct (add_pod_spec node pod Hset) as (Hs & Hi & Ha).
      destruct (IH (addPodAllocatedResources node pod) (<[podKey pod := pod]> tracked)) as (Hs' & Hi' & Ha' & Hin);
        [done| |done|congruence|].
      { intros pod' Hin. rewrite lookup_insert_ne; [apply Hnew; by right|]. intros E. apply Hp. rewrite E.
        apply list_elem_of_fmap. eauto. }
      split; [done|]. split; [done|]. split.
      * intros k. specialize (Ha' k). rewrite total_insert in Ha' by (apply Hnew; left). rewrite Ha, Hic in Ha'. lia.
      * intros key p Hk. destruct (Hin key p Hk) as [Ht|Ht]; [|right; by right].
        apply lookup_insert_Some in Ht as [[_ <-]|[_ Ht]]; [right; left|by left].
    + destruct (IH node tracked) as (Hs' & Hi' & Ha' & Hin); [done| |done|done|].
      { intros pod' Hin. apply Hnew. by right. }
      split; [done|]. split; [done|]. split; [done|].
      intros key p Hk. destruct (Hin key p Hk); [by left|right; by right].
Qed.

(** After a recount everything is accounted for, the interconnect too. *)
Lemma restart_spec listing m m' :
  listing_ok listing -> restartPodsWatcher listing m = Some m' ->
  monitor_inv m' /\ accounts RInterconnect m' /\
  interconnect_name (mo_node m') = interconnect_name (mo_node m).
Proof.
  destruct listing as [pods|]; [|done]. intros [Hnd Hnn] [= <-].
  destruct (reset_spec (mo_node m)) as (Hs & Hi & Hz).
  destruct (count_pods_spec pods (nodeResetAllocated (mo_node m)) ∅ (interconnect_name (mo_node m)))
    as (Hs' & Hi' & Ha & Hin); [done|intros; apply lookup_empty|done|done|].
  assert (Hacc : forall k, accounts k (with_pods (foldl count_pod (nodeResetAllocated (mo_node m), ∅) pods).1
                                        (foldl count_pod (nodeResetAllocated (mo_node m), ∅) pods).2 m)).
  { intros k. unfold accounts. cbn [with_pods mo_node mo_pods]. rewrite Hi'. specialize (Ha k).
    rewrite Hz, total_empty in Ha. lia. }
  split; [|by split]. split; [done|by intros|]. intros key pod Hk. cbn [with_pods mo_pods] in Hk.
  destruct (Hin key pod Hk) as [Ht|Ht]; [by rewrite lookup_empty in Ht|by apply Hnn].
Qed.

(** A turn that only touches other parts of the node. *)
Lemma inv_same (m m' : monitor) :
  (forall k, rp_allocated (res_pair k (mo_node m')) = rp_allocated (res_pair k (mo_node m))) ->
  mo_pods m' = mo_pods m -> monitor_inv m ->
  monitor_inv m' /\
  (interconnect_name (mo_node m') = interconnect_name (mo_node m) -> accounts RInterconnect m -> accounts RInterconnect m').
Proof.
  intros Ha Hp [Hset Hacc Hnn]. unfold accounts, allocated in *. split.
  - split.
    + intros k. rewrite Ha. apply Hset.
    + intros k Hk. unfold accounts, allocated. rewrite Ha, Hp, Hacc by done. apply total_ext.
      intros pod. by apply pod_amount_other.
    + rewrite Hp. apply Hnn.
  - intros Hi Hic. by rewrite Ha, Hp, Hi.
Qed.

Ltac same_node := let k := fresh in intros k; simpl; by destruct k.

Lemma handle_pod_inv m type pod m' outs :
  monitor_inv m -> pod_nonneg pod -> handle_pod m type pod = (m', outs) ->
  monitor_inv m' /\ (accounts RInterconnect m -> accounts RInterconnect m' /\ outs = []) /\
  interconnect_name (mo_node m') = interconnect_name (mo_node m).
Proof.
  intros Hinv Hnn E. pose proof Hinv as [Hset Hacc Hpods].
  assert (Hsame : monitor_inv (signalState m) /\ (accounts RInterconnect m -> accounts RInterconnect (signalState m) /\ [] = @nil (@output api)) /\
            interconnect_name (mo_node (signalState m)) = interconnect_name (mo_node m)).
  { destruct (inv_same m (signalState m)) as [Hi Hic]; [done|done|done|]. split; [done|]. split; [|done]. auto. }
  assert (Hadd : forall n, mo_pods m !! podKey pod = None -> n = addPodAllocatedResources (mo_node m) pod ->
            let m1 := signalState (with_pods n (<[podKey pod := pod]> (mo_pods m)) m) in
            monitor_inv m1 /\ (accounts RInterconnect m -> accounts RInterconnect m1 /\ [] = @nil (@output api)) /\
            interconnect_name (mo_node m1) = interconnect_name (mo_node m)).
  { intros n Hk ->. destruct (add_pod_spec (mo_node m) pod Hset) as (Hs & Hi & Ha). cbv zeta.
    assert (Hk1 : forall k, accounts k m -> accounts k (signalState (with_pods (addPodAllocatedResources (mo_node m) pod)
                    (<[podKey pod := pod]> (mo_pods m)) m))).
    { intros k Hka. unfold accounts in *. cbn [signalState with_pods mo_node mo_pods].
      rewrite Hi, Ha, total_insert by done. lia. }
    split; [split; [done|auto|]|split; [auto|done]].
    intros key p Hp. cbn [signalState with_pods mo_pods] in Hp. apply lookup_insert_Some in Hp as [[_ <-]|[_ Hp]]; eauto. }
  unfold handle_pod in E. destruct type.
  1, 2: destruct (mo_pods m !! podKey pod) eqn:Hk; [by injection E as <- <-|];
    destruct (isPodAllocated pod); injection E as <- <-; [by apply Hadd|done].
  destruct (mo_pods m !! podKey pod) as [tracked|] eqn:Hk; [|by injection E as <- <-]. injection E as <- <-.
  destruct (sub_pod_spec (mo_node m) tracked Hset) as (Hs & Hi & Ha & Hlog).
  assert (Hk1 : forall k, accounts k m -> accounts k (signalState (with_pods (subPodAllocatedResources (mo_node m) tracked).1
                  (delete (podKey pod) (mo_pods m)) m))).
  { intros k Hka. unfold accounts in *. cbn [signalState with_pods mo_node mo_pods].
    rewrite Hi, Ha, Hka, (total_delete _ _ _ _ Hk). lia. }
  split; [split; [done|auto|]|split; [|done]].
  - intros key p Hp. cbn [signalState with_pods mo_pods] in Hp. apply lookup_delete_Some in Hp as [_ Hp]. eauto.
  - intros Hic. split; [auto|]. rewrite Hlog; [done|by eapply Hpods|]. intros k.
    assert (Hka : accounts k m) by (destruct (decide (k = RInterconnect)) as [->|]; auto). rewrite Hka.
    apply (total_covers (pod_amount _ k) (mo_pods m) (podKey pod)); [|done]. intros key p Hp.
    apply charged_nonneg, pod_charges_nonneg. by eapply Hpods.
Qed.

Lemma handle_state_spec m m' outs :
  handle_state name m = (m', outs) ->
  mo_cfg m' = mo_cfg m /\ mo_node m' = mo_node m /\ mo_pods m' = mo_pods m /\ forall k, OutNegative k ∉ outs.
Proof.
  unfold handle_state. intros E. destruct (negb _); [|destruct (decide _)]; injection E as <- <-;
    (do 3 (split; [done|])); intros k; rewrite ?list_elem_of_singleton; first [done|apply not_elem_of_nil].
Qed.

Lemma handle_inv m e m' outs :
  monitor_inv m -> event_ok e -> handle m e = Continue m' outs ->
  monitor_inv m' /\
  (keeps_patterns (ResourcePatterns (mo_cfg m)) e ->
     ResourcePatterns (mo_cfg m') = ResourcePatterns (mo_cfg m) /\
     (accounts RInterconnect m -> accounts RInterconnect m' /\ forall k, OutNegative k ∉ outs)).
Proof.
  intros Hinv Hev E.
  assert (Hno : forall k, OutNegative k ∉ @nil (@output api)) by (intros k; apply not_elem_of_nil).
  destruct e as [cfg|sc|ids cards devices|type obj ib listing|type pod| |listing| | |]; cbn [NodeMonitor.handle] in E.
  - injection E as <- <-. unfold handle_config. case_bool_decide as Hp; cbn [negb].
    + destruct (inv_same m (signalLabels (with_cfg cfg m))) as [Hi Hic]; [done|done|done|].
      split; [done|]. intros Hkeep. split; [done|]. auto.
    + destruct (inv_same m (signalLabels (signalState (with_node (updateNodeInfo (mo_knode m) (mo_node m) (ResourcePatterns cfg))
                 (with_cfg cfg m))))) as [Hi Hic]; [intros k; apply update_keeps_allocated|done|done|].
      split; [done|]. intros Hkeep. done.
  - injection E as <- <-. match goal with |- monitor_inv ?m1 /\ _ => destruct (inv_same m m1) as [Hi Hic]; [done|done|done|] end.
    split; [done|]. intros _. split; [done|]. auto.
  - injection E as <- <-. match goal with |- monitor_inv ?m1 /\ _ => destruct (inv_same m m1) as [Hi Hic]; [same_node|done|done|] end.
    split; [done|]. intros _. split; [done|]. auto.
  - unfold handle_node in E. destruct (String.eqb (no_name obj) name); [|injection E as <- <-; auto].
    destruct type.
    1, 3: injection E as <- <-; destruct (inv_same m (with_knode obj m)) as [Hi Hic]; [done..|]; auto 6.
    destruct (nodeAllocatableChanged (mo_knode m) obj).
    + destruct (restartPodsWatcher _ _) as [m1|] eqn:Hr; [|done]. injection E as <- <-.
      destruct (restart_spec _ _ _ Hev Hr) as (Hi & Hic & Hn).
      destruct (inv_same m1 (with_knode obj (signalLabels m1))) as [Hi1 Hic1]; [done..|].
      split; [done|]. intros _. split; [|auto]. destruct listing; [|done]. by injection Hr as <-.
    + injection E as <- <-. destruct (inv_same m (with_knode obj (signalLabels m))) as [Hi Hic]; [done..|]. auto 6.
  - destruct (handle_pod m type pod) as [m1 outs1] eqn:Ep. injection E as <- <-.
    destruct (handle_pod_inv m type pod m1 outs1 Hinv Hev Ep) as (Hi & Hic & Hn). split; [done|]. intros _. split.
    + unfold handle_pod in Ep. destruct type; repeat (case_match; simplify_eq/=; try done).
    + intros Ha. destruct (Hic Ha) as [Ha' ->]. auto.
  - done.
  - destruct (restartPodsWatcher listing m) as [m1|] eqn:Hr; [|done]. injection E as <- <-.
    destruct (restart_spec _ _ _ Hev Hr) as (Hi & Hic & Hn). split; [done|]. intros _. split; [|auto].
    destruct listing; [|done]. by injection Hr as <-.
  - destruct (handle_state name m) as [m1 outs1] eqn:Es. injection E as <- <-.
    destruct (handle_state_spec m m1 outs1 Es) as (Hc & Hn & Hp & Hout).
    destruct (inv_same m m1) as [Hi Hic]; [by rewrite Hn|done|done|]. split; [done|]. intros _. split; [by rewrite Hc|].
    intros Ha. split; [|done]. apply Hic; [by rewrite Hn|done].
  - unfold handle_labels in E. destruct (generateLabels _ _ _ _) as [[labels nNode]|] eqn:Eg; [|done]. injection E as <- <-.
    assert (Hn : forall k, rp_allocated (res_pair k nNode) = rp_allocated (res_pair k (mo_node m)) /\
                 interconnect_name nNode = interconnect_name (mo_node m)).
    { destruct (generate_spec _ _ _ _ _ _ Eg) as [(_ & _ & ->)|(_ & allowed & -> & _)]; by intros []. }
    match goal with |- monitor_inv ?m1 /\ _ => destruct (inv_same m m1) as [Hi Hic]; [|done|done|] end.
    { intros k. cbn [mo_node]. case_match; [apply Hn|done]. }
    split; [done|]. intros _. split; [done|]. intros Ha. split.
    + apply Hic; [|done]. cbn [mo_node]. case_match; [apply (Hn RCPU)|done].
    + intros k. destruct (negb (bool_decide (labels = mo_labels m))); [|apply not_elem_of_nil].
      by intros [=]%list_elem_of_singleton.
  - done.
Qed.

Lemma run_inv m es m' outs :
  run m es m' outs -> monitor_inv m -> Forall event_ok es ->
  monitor_inv m' /\
  (Forall (keeps_patterns (ResourcePatterns (mo_cfg m))) es -> accounts RInterconnect m ->
     accounts RInterconnect m' /\ forall k, OutNegative k ∉ outs).
Proof.
  induction 1 as [m|m e m1 out1 es m2 out2 _ Hh _ IH]; intros Hinv Hok.
  - split; [done|]. intros _ Ha. split; [done|]. intros k. apply not_elem_of_nil.
  - apply list.Forall_cons in Hok as [He Hok]. destruct (handle_inv m e m1 out1 Hinv He Hh) as [Hi Hic].
    destruct (IH Hi Hok) as [Hi2 Hic2]. split; [done|]. intros Hkeep Ha.
    apply list.Forall_cons in Hkeep as [Hk Hkeep]. destruct (Hic Hk) as [Hp Hic1]. destruct (Hic1 Ha) as [Ha1 Ho1].
    rewrite Hp in Hic2. destruct (Hic2 Hkeep Ha1) as [Ha2 Ho2]. split; [done|]. intros k. apply not_elem_of_app. auto.
Qed.

Lemma start_inv cfg sc ids get cpus cards devices ib listing m :
  listing_ok listing -> start cfg sc ids get cpus cards devices ib listing = Some m ->
  monitor_inv m /\ accounts RInterconnect m /\ mo_cfg m = cfg /\ mo_last m = nodeStateRemoved /\
  mo_classes_nil m = true.
Proof.
  intros Hok E. unfold start in E. destruct (restart_spec _ _ _ Hok E) as (Hi & Hic & _). split; [done|]. split; [done|].
  destruct listing; [|done]. by injection E as <-.
Qed.

Lemma start_no_pods cfg sc ids get cpus cards devices ib m :
  start cfg sc ids get cpus cards devices ib (Some []) = Some m -> mo_pods m = ∅.
Proof. by intros [= <-]. Qed.

(** C16: whatever events a node's monitor receives, what it reports as allocated is exactly what
    the scheduled pods it tracks ask for: of processors, memory and ephemeral storage the
    sum of the requests of their containers under that name, of GPUs the sum under the names
    of the three GPU resources, and of memory, besides, the size limits of the pods' volumes
    kept in memory, each counted once for every container of its pod. So a pod of several
    containers with such a volume is accounted more memory than it asks for; every other
    amount is what is asked for. The same holds of the interconnect, under the name the
    node's resource resolves to, as long as the resource patterns are not reconfigured, and
    then no deletion ever takes an amount below zero. Stated for listings and events in which
    no quantity is negative. *)
Theorem accounting_exact cfg sc ids get cpus cards devices ib listing m0 es m outs :
  start cfg sc ids get cpus cards devices ib listing = Some m0 -> listing_ok listing ->
  run m0 es m outs -> Forall event_ok es ->
  let requested k := total (pod_requested (interconnect_name (mo_node m)) k) (mo_pods m) in
  (forall k, k <> RInterconnect -> allocated k (mo_node m) = requested k) /\
  (Forall (keeps_patterns (ResourcePatterns cfg)) es ->
     allocated RInterconnect (mo_node m) = requested RInterconnect /\ forall k, OutNegative k ∉ outs).
Proof.
  intros Es Hl Hr Hok requested. destruct (start_inv _ _ _ _ _ _ _ _ _ _ Hl Es) as (Hi & Hic & Hc & _).
  destruct (run_inv _ _ _ _ Hr Hi Hok) as [Hi' Hic']. split.
  - intros k Hk. by apply accounts_requested, inv_accounts.
  - intros Hk. destruct Hic' as [Ha Hn]; [by rewrite Hc|done|]. split; [by apply accounts_requested|done].
Qed.

(** Reconfiguring the resource patterns while a pod holds interconnect devices
    strands them: the pod's deletion does not give them back, and the node reports
    them as allocated with no pod left. *)
Theorem renamed_interconnect_stranded m cfg pod :
  monitor_inv m -> accounts RInterconnect m -> mo_pods m = {[podKey pod := pod]} ->
  ResourcePatterns cfg <> ResourcePatterns (mo_cfg m) ->
  pod_amount (resolved_name (mo_knode m) (ResourcePatterns cfg)) RInterconnect pod = 0%Z ->
  exists m' outs, run m [EvConfig cfg; EvPod Deleted pod] m' outs /\ mo_pods m' = ∅ /\
    allocated RInterconnect (mo_node m') = pod_amount (interconnect_name (mo_node m)) RInterconnect pod.
Proof.
  intros [Hset _ _] Hic Hpods Hp Hz. set (m1 := handle_config m cfg). set (m2 := handle_pod m1 Deleted pod).
  assert (Hm1 : mo_node m1 = updateNodeInfo (mo_knode m) (mo_node m) (ResourcePatterns cfg) /\ mo_pods m1 = mo_pods m).
  { unfold m1, handle_config. by rewrite bool_decide_eq_false_2. }
  destruct Hm1 as [Hn1 Hp1]. exists m2.1, ([] ++ (m2.2 ++ [])). split; [|split].
  - apply run_cons with m1; [done|done|]. by apply run_cons with m2.1; [done|done|constructor].
  - unfold m2, handle_pod. rewrite Hp1, Hpods, lookup_singleton_eq. cbn [fst signalState with_pods mo_pods].
    apply delete_singleton_eq.
  - unfold m2, handle_pod. rewrite Hp1, Hpods, lookup_singleton_eq. cbn [fst signalState with_pods mo_node].
    assert (Hset1 : allocated_set (mo_node m1)) by (intros k; rewrite Hn1, update_keeps_allocated; apply Hset).
    destruct (sub_pod_spec (mo_node m1) pod Hset1) as (_ & _ & Ha & _).
    rewrite Ha, Hn1, update_name, Hz, Z.sub_0_r. unfold allocated. rewrite update_keeps_allocated.
    unfold accounts, allocated in Hic. rewrite Hic, Hpods. unfold total. rewrite map_to_list_singleton. simpl. lia.
Qed.

(** ** Publication *)

Definition publications (outs : list (@output api)) : list (@nodeState api) :=
  omap (fun o => match o with OutPub s => Some s | _ => None end) outs.

(** The monitor remembers what it published last. *)
Definition remembers (m : monitor) (pubs : list (@nodeState api)) : Prop :=
  match list.last pubs with
  | Some (NodeUpdated n _) => n = name /\ mo_last m = nodeStateUpdated
  | Some (NodeRemoved n) => n = name /\ mo_last m = nodeStateRemoved
  | None => mo_last m = nodeStateRemoved
  end.

(** A published node that lost its labels has a signal on its way. *)
Definition withdrawal_pending (m : monitor) : Prop :=
  mo_last m = nodeStateUpdated -> mo_labels m = ∅ -> mo_statech m = true.

Lemma handle_quiet m e m' outs :
  handle m e = Continue m' outs -> e <> EvState -> e <> EvLabels ->
  publications outs = [] /\ mo_last m' = mo_last m /\ mo_labels m' = mo_labels m /\
  (mo_statech m = true -> mo_statech m' = true).
Proof.
  intros E Hs Hl. destruct e as [cfg|sc|ids cards devices|type obj ib listing|type pod| |listing| | |]; try done;
    cbn [NodeMonitor.handle] in E.
  - injection E as <- <-. unfold handle_config. by destruct (negb _).
  - by injection E as <- <-.
  - by injection E as <- <-.
  - unfold handle_node in E. destruct (String.eqb (no_name obj) name); [|by injection E as <- <-].
    destruct type; [by injection E as <- <-| |by injection E as <- <-].
    destruct (nodeAllocatableChanged (mo_knode m) obj); [|by injection E as <- <-].
    destruct listing; [|done]. by injection E as <- <-.
  - injection E as <- <-. unfold handle_pod. destruct type.
    1, 2: destruct (mo_pods m !! podKey pod); [done|]; by destruct (isPodAllocated pod).
    destruct (mo_pods m !! podKey pod) as [tracked|]; [|done]. split; [|done]. cbn [snd].
    unfold publications. by induction (subPodAllocatedResources (mo_node m) tracked).2.
  - destruct listing; [|done]. by injection E as <- <-.
Qed.

Lemma remembers_app m pubs new m' :
  remembers m pubs -> (new = [] -> mo_last m' = mo_last m) -> (new <> [] -> remembers m' new) ->
  remembers m' (pubs ++ new).
Proof.
  intros Hm He Hn. unfold remembers in *. destruct new as [|x new] using rev_ind.
  - by rewrite app_nil_r, He.
  - rewrite app_assoc, last_snoc. rewrite last_snoc in Hn. apply Hn. by destruct new.
Qed.

Lemma handle_remembers m pubs e m' outs :
  remembers m pubs -> withdrawal_pending m -> handle m e = Continue m' outs ->
  remembers m' (pubs ++ publications outs) /\ withdrawal_pending m'.
Proof.
  intros Hm Hw E. assert (Hcases : e = EvState \/ e = EvLabels \/ (e <> EvState /\ e <> EvLabels)).
  { destruct e; auto; right; right; done. }
  destruct Hcases as [->|[->|[Hs Hl]]].
  - cbn [NodeMonitor.handle] in E. injection E as <- <-. unfold handle_state. case_bool_decide as He; cbn [negb].
    + case_decide as Hlast; cbn [fst snd].
      * split; [|intros Hu; cbn [mo_last] in Hu; congruence]. apply remembers_app with m; [done|done|done].
      * split; [|by intros ?]. apply remembers_app with m; [done|done|done].
    + cbn [fst snd]. split; [|intros _ ?; done]. apply remembers_app with m; [done|done|done].
  - cbn [NodeMonitor.handle] in E. unfold handle_labels in E.
    destruct (generateLabels _ _ _ _) as [[labels nNode]|] eqn:Eg; [|done]. injection E as <- <-.
    assert (Hp : publications (if negb (bool_decide (labels = mo_labels m))
                               then [OutPatch (patch_labels labels (mo_knode m))] else []) = []) by by destruct (negb _).
    rewrite Hp, app_nil_r. split; [done|]. unfold withdrawal_pending. cbn [mo_last mo_labels mo_statech].
    intros Hlast. case_bool_decide; cbn [negb]; [|intros _; by rewrite orb_true_r]. intros Hlab.
    rewrite orb_false_r. by rewrite (Hw Hlast Hlab).
  - destruct (handle_quiet m e m' outs E Hs Hl) as (Hp & Hlast & Hlab & Hst). rewrite Hp, app_nil_r. split.
    + unfold remembers. by rewrite Hlast.
    + intros Hu He. apply Hst, Hw; congruence.
Qed.

Lemma run_remembers m pubs es m' outs :
  run m es m' outs -> remembers m pubs -> withdrawal_pending m ->
  remembers m' (pubs ++ publications outs) /\ withdrawal_pending m'.
Proof.
  intros Hr. revert pubs. induction Hr as [m|m e m1 out1 es m2 out2 _ Hh _ IH]; intros pubs Hm Hw.
  - by rewrite app_nil_r.
  - destruct (handle_remembers m pubs e m1 out1 Hm Hw Hh) as [Hm1 Hw1]. unfold publications. rewrite omap_app, app_assoc.
    by apply IH.
Qed.

Lemma retracts_spec cfg sc ids get cpus cards devices ib listing m0 es m outs e final :
  start cfg sc ids get cpus cards devices ib listing = Some m0 ->
  run m0 es m outs -> handle m e = Exit final ->
  list.last (publications (outs ++ final)) = None \/ list.last (publications (outs ++ final)) = Some (NodeRemoved name).
Proof.
  intros Es Hr Hx.
  assert (Hm0 : remembers m0 [] /\ withdrawal_pending m0).
  { unfold start in Es. destruct listing; [|done]. by injection Es as <-. }
  destruct (run_remembers m0 [] es m outs Hr) as [Hm _]; [apply Hm0..|].
  assert (final = retract name m) as ->.
  { destruct e as [| | |type obj ? lst| | |lst| | |]; cbn [NodeMonitor.handle] in Hx; try done.
    - unfold handle_node in Hx. repeat (case_match; simplify_eq/=; try done).
    - repeat (case_match; simplify_eq/=; try done).
    - unfold handle_labels in Hx. repeat (case_match; simplify_eq/=; try done).
    - by injection Hx as <-. }
  assert (Happ : publications (outs ++ retract name m) = publications outs ++ publications (retract name m))
    by apply omap_app.
  rewrite Happ. cbn [app] in Hm. unfold remembers in Hm. unfold retract. case_decide as Hlast.
  - rewrite app_nil_r. destruct (list.last (publications outs)) as [[n|n nd]|]; [|destruct Hm; congruence|by left].
    right. by destruct Hm as [-> _].
  - right. cbn. by rewrite last_snoc.
Qed.

(** A monitor that ends, because it was stopped or because the pods could not be
    listed, leaves nothing behind: if it ever published its node, the last thing it
    publishes is the node's removal. *)
Theorem monitor_retracts cfg sc ids get cpus cards devices ib listing m0 es m outs e final :
  start cfg sc ids get cpus cards devices ib listing = Some m0 ->
  run m0 es m outs -> handle m e = Exit final ->
  list.last (publications (outs ++ final)) = None \/ list.last (publications (outs ++ final)) = Some (NodeRemoved name).
Proof. apply retracts_spec. Qed.

Lemma generated_not_empty cfg (knode : KNode api) node sc labels node' :
  generateLabels cfg knode node sc = Some (labels, node') -> schedulable cfg knode = true ->
  labels <> ∅ /\ copyManagedLabels labels = labels.
Proof.
  intros E Hs. split.
  - intros ->. destruct (generate_spec _ _ _ _ _ _ E) as [(? & _)|(_ & allowed & _ & Hl)]; [congruence|].
    assert (Hk : (∅ : labels_t) !! AkashManagedLabelName = Some ValTrue); [|done].
    rewrite Hl, label_gpus_other by done. unfold base_labels_of. rewrite class_labels_lookup, decide_False.
    + by rewrite lookup_insert_eq.
    + intros (class & Hc & _)%list_elem_of_fmap. discriminate Hc.
  - apply map_filter_id. intros key v Hv. simpl. by apply (generated_managed _ _ _ _ _ _ _ E).
Qed.

(** The first time a monitor works out the labels of a node that takes
    workloads, it goes on to publish the node, even when the labels are those the
    node already had. *)
Theorem ready_node_published m :
  mo_classes_nil m = true -> mo_labelch m = true -> schedulable (mo_cfg m) (mo_knode m) = true ->
  is_Some (generateLabels (mo_cfg m) (mo_knode m) (mo_node m) (mo_sc m)) ->
  exists m' outs node, run m [EvLabels; EvState] m' (outs ++ [OutPub (NodeUpdated name node)]) /\
    mo_last m' = nodeStateUpdated /\ mo_labels m' <> ∅.
Proof.
  intros Hnil Hch Hs [[labels nNode] Eg]. destruct (generated_not_empty _ _ _ _ _ _ Eg Hs) as [Hne Hcopy].
  destruct (handle_labels m) as [m1 o1| |] eqn:Eh; unfold handle_labels in Eh; rewrite Eg in Eh; try done.
  assert (Hm1 : mo_labels m1 <> ∅ /\ mo_statech m1 = true).
  { injection Eh as <- _. cbn [mo_labels mo_statech]. rewrite Hnil. rewrite orb_true_r. split; [|done].
    case_bool_decide as Hl; cbn [negb]; [by rewrite <- Hl|by rewrite Hcopy]. }
  destruct Hm1 as [Hl1 Hs1]. destruct (handle_state name m1) as [m2 o2] eqn:Est.
  assert (Hm2 : o2 = [OutPub (NodeUpdated name (mo_node m1))] /\ mo_last m2 = nodeStateUpdated /\ mo_labels m2 = mo_labels m1).
  { unfold handle_state in Est. rewrite bool_decide_eq_false_2 in Est by done. by injection Est as <- <-. }
  destruct Hm2 as (-> & Hlast & Hlab). exists m2, o1, (mo_node m1). split; [|split; [done|congruence]].
  rewrite <- (app_nil_r [OutPub _]). apply run_cons with m1; [done| |].
  - cbn [NodeMonitor.handle]. unfold handle_labels. by rewrite Eg.
  - apply run_cons with m2; [done| |constructor]. cbn [NodeMonitor.handle]. by rewrite Est.
Qed.

(** A node that may no longer take workloads is withdrawn: once its labels have
    been worked out again, either nothing of it was published, or the next state
    signal, which is on its way, publishes its removal. *)
Theorem unschedulable_node_withdrawn cfg sc ids get cpus cards devices ib listing m0 es m outs :
  start cfg sc ids get cpus cards devices ib listing = Some m0 -> run m0 es m outs ->
  schedulable (mo_cfg m) (mo_knode m) = false ->
  is_Some (generateLabels (mo_cfg m) (mo_knode m) (mo_node m) (mo_sc m)) ->
  exists m1 o1, handle m EvLabels = Continue m1 o1 /\ mo_labels m1 = ∅ /\
    (mo_last m1 = nodeStateRemoved \/
     (enabled m1 EvState /\ exists m2, handle m1 EvState = Continue m2 [OutPub (NodeRemoved name)])).
Proof.
  intros Es Hr Hs [[labels nNode] Eg].
  destruct (generate_spec _ _ _ _ _ _ Eg) as [(_ & -> & _)|(? & _)]; [|congruence].
  assert (Hw : withdrawal_pending m).
  { destruct (run_remembers m0 [] es m outs Hr) as [_ Hw]; [| |done]; unfold start in Es; destruct listing;
      try done; by injection Es as <-. }
  assert (Hlab : (if negb (bool_decide (∅ = mo_labels m)) then copyManagedLabels ∅ else mo_labels m) = ∅).
  { case_bool_decide; cbn [negb]; [done|by apply map_filter_empty]. }
  cbn [NodeMonitor.handle]. unfold handle_labels. rewrite Eg. eexists _, _. split; [done|].
  cbn [mo_labels mo_last]. split; [done|].
  destruct (mo_last m) eqn:Hlast; [by left|right]. split.
  - cbn [enabled mo_statech]. destruct (decide (mo_labels m = ∅)) as [He|He]; [by rewrite (Hw Hlast He)|].
    rewrite (bool_decide_eq_false_2 (∅ = mo_labels m)) by congruence. apply orb_true_r.
  - eexists. unfold handle_state. cbn [mo_labels mo_last]. by rewrite Hlab, bool_decide_eq_true_2.
Qed.

(** ** The name of a node *)

Lemma read_resources_nd_name ic field entries (n : Node api) : nd_name (read_resources ic field entries n) = nd_name n.
Proof.
  unfold read_resources. revert n. induction entries as [|e entries IH]; intros n; cbn [foldl]; [done|].
  rewrite IH. by destruct (classify ic e.1).
Qed.

Lemma update_nd_name knode (n : Node api) patterns : nd_name (updateNodeInfo knode n patterns) = nd_name n.
Proof. unfold updateNodeInfo. rewrite !read_resources_nd_name. by destruct (String.eqb _ _). Qed.

Lemma add_nd_name (n : Node api) pod : nd_name (addPodAllocatedResources n pod) = nd_name n.
Proof.
  unfold addPodAllocatedResources. generalize (pod_charges (interconnect_name n) pod). intros cs.
  revert n. induction cs as [|c cs IH]; intros n; cbn [foldl]; [done|]. by rewrite IH.
Qed.

Lemma sub_nd_name (n : Node api) pod : nd_name (subPodAllocatedResources n pod).1 = nd_name n.
Proof.
  unfold subPodAllocatedResources. generalize (pod_charges (interconnect_name n) pod). intros cs.
  assert (H2 : forall acc, nd_name (foldl subAllocatedResource acc cs).1 = nd_name acc.1); [|apply H2].
  induction cs as [|c cs IH]; intros acc; cbn [foldl]; [done|]. by rewrite IH.
Qed.

Lemma restart_nd_name listing m m' :
  restartPodsWatcher listing m = Some m' -> nd_name (mo_node m') = nd_name (mo_node m).
Proof.
  destruct listing as [pods|]; [|done]. intros [= <-]. cbn [with_pods mo_node].
  assert (H2 : forall acc, nd_name (foldl count_pod acc pods).1 = nd_name acc.1); [|apply H2].
  induction pods as [|pod pods IH]; intros acc; cbn [foldl]; [done|]. rewrite IH. unfold count_pod.
  destruct (isPodAllocated pod); [apply add_nd_name|done].
Qed.

Definition named (x : string) (o : @output api) : Prop :=
  match o with OutPub (NodeUpdated _ node) => nd_name node = x | _ => True end.

Lemma handle_nd_name m e m' outs x :
  handle m e = Continue m' outs -> nd_name (mo_node m) = x ->
  nd_name (mo_node m') = x /\ Forall (named x) outs.
Proof.
  intros E Hx. destruct e as [cfg|sc|ids cards devices|type obj ib listing|type pod| |listing| | |];
    cbn [NodeMonitor.handle] in E.
  - injection E as <- <-. unfold handle_config. destruct (negb _); [|done]. cbn. by rewrite update_nd_name.
  - by injection E as <- <-.
  - by injection E as <- <-.
  - unfold handle_node in E. destruct (String.eqb (no_name obj) name); [|by injection E as <- <-].
    destruct type; [by injection E as <- <-| |by injection E as <- <-].
    destruct (nodeAllocatableChanged (mo_knode m) obj); [|by injection E as <- <-].
    destruct (restartPodsWatcher _ _) as [m1|] eqn:Hr; [|done]. injection E as <- <-.
    apply restart_nd_name in Hr. cbn in Hr |- *. by rewrite Hr, update_nd_name.
  - injection E as <- <-. unfold handle_pod. destruct type.
    1, 2: destruct (mo_pods m !! podKey pod); [done|]; destruct (isPodAllocated pod); [|done];
      cbn; by rewrite add_nd_name.
    destruct (mo_pods m !! podKey pod) as [tracked|]; [|done]. cbn [fst snd signalState with_pods mo_node].
    rewrite sub_nd_name. split; [done|]. apply list.Forall_forall. intros o (k & -> & _)%list_elem_of_fmap. done.
  - done.
  - destruct (restartPodsWatcher listing m) as [m1|] eqn:Hr; [|done]. injection E as <- <-.
    apply restart_nd_name in Hr. split; [congruence|done].
  - injection E as <- <-. unfold handle_state. destruct (negb _); [|destruct (decide _)]; cbn [fst snd mo_node];
      (split; [done|]); repeat constructor. done.
  - unfold handle_labels in E. destruct (generateLabels _ _ _ _) as [[labels nNode]|] eqn:Eg; [|done].
    injection E as <- <-. cbn [mo_node]. split; [|destruct (negb _); repeat constructor].
    destruct (mo_classes_nil m || _); [|done].
    destruct (generate_spec _ _ _ _ _ _ Eg) as [(_ & _ & ->)|(_ & allowed & -> & _)]; done.
  - done.
Qed.

(** A monitor whose first request for its node failed never learns the node's
    name: whatever it hears of the node later, everything it publishes about it
    carries the empty name. *)
Theorem failed_get_leaves_node_nameless cfg sc ids cpus cards devices ib listing m0 es m outs :
  start cfg sc ids None cpus cards devices ib listing = Some m0 -> run m0 es m outs ->
  forall n node, OutPub (NodeUpdated n node) ∈ outs -> n = name /\ nd_name node = ""%string.
Proof.
  intros Es Hr.
  assert (Hn0 : nd_name (mo_node m0) = ""%string).
  { unfold start in Es. apply restart_nd_name in Es. rewrite Es. cbn [mo_node]. unfold initNodeInfo.
    by rewrite update_nd_name. }
  clear Es. induction Hr as [m|m e m1 out1 es m2 out2 _ Hh _ IH]; intros n node Hin; [by apply not_elem_of_nil in Hin|].
  destruct (handle_nd_name m e m1 out1 _ Hh Hn0) as [Hn1 Hout]. apply elem_of_app in Hin as [Hin|Hin]; [|by eapply IH].
  split; [|by apply (proj1 (list.Forall_forall _ _) Hout _ Hin)].
  assert (Hst : e = EvState \/ publications out1 = []).
  { destruct e; try (right; by eapply handle_quiet); [by left|]. right. cbn [NodeMonitor.handle] in Hh. unfold handle_labels in Hh.
    destruct (generateLabels _ _ _ _) as [[? ?]|]; [|done]. injection Hh as _ <-. by destruct (negb _). }
  destruct Hst as [->|Hp].
  - cbn [NodeMonitor.handle] in Hh. injection Hh as _ <-. unfold handle_state in Hin.
    destruct (negb _); [|destruct (decide _)]; cbn [snd] in Hin; try (by apply not_elem_of_nil in Hin);
      apply list_elem_of_singleton in Hin; congruence.
  - assert (Hx : NodeUpdated n node ∈ publications out1).
    { apply list_elem_of_omap. by exists (OutPub (NodeUpdated n node)). }
    rewrite Hp in Hx. by apply not_elem_of_nil in Hx.
Qed.

End MonitorProofs.

(** ** Examples *)

Module MonitorExamples.

#[local] Existing Instance InvConfigExamples.tree_api.
#[local] Existing Instance InvConfigExamples.cfg_range.

#[local] Instance milli_quantity : QuantityAPI milli_api := {|
  q_add := Z.add; q_sub := Z.sub; q_set_milli _ z := z; q_new_milli z := z
|}.

#[local] Instance milli_quantity_laws : QuantityLaws milli_api := {|
  amount_of (q : @Quantity milli_api) := (q : Z);
  amount_add _ _ := eq_refl; amount_sub _ _ := eq_refl; amount_zero := eq_refl; amount_zero_milli := eq_refl;
  amount_negative _ := eq_refl
|}.

#[local] Instance unsorted : GPUOrder := {| sort_gpus l := l; sort_gpus_perm l := reflexivity l |}.

Definition registry : RegistryGPUVendors :=
  {["10de"%string := mkVendor "nvidia" {["20b2"%string := mkDevice "a100" "SXM4" "80Gi"]}]}.

Definition cards : list GraphicsCard :=
  [mkCard "0000:01:00.0" (Some (Some "10de", Some "20b2")); mkCard "0000:09:00.0" None]%string.

Definition devices : list BusDevice :=
  [mkBusDevice "0000:01:00.0" (Some "10de") (Some "20b2") (Some "03");
   mkBusDevice "0000:02:00.0" (Some "10de") (Some "20b2") (Some "0302");
   mkBusDevice "0000:03:00.0" (Some "8086") (Some "1572") (Some "02")]%string.

Example two_gpus : List.length (parseGPUInfo registry (Some cards) (Some devices)) = 2%nat.
Proof. reflexivity. Qed.

Lemma gpus_counted_once_witness :
  NoDup (gpus_found registry (Some cards) (Some devices)).*1 /\
  "0000:02:00.0"%string ∈ (gpus_found registry (Some cards) (Some devices)).*1.
Proof.
  destruct (gpus_counted_once registry cards devices) as (Hnd & _ & Hall).
  - apply (bool_decide_unpack _). vm_compute. exact I.
  - apply (bool_decide_unpack _). vm_compute. exact I.
  - split; [exact Hnd|].
    apply (Hall (mkBusDevice "0000:02:00.0" (Some "10de") (Some "20b2") (Some "0302")) "10de" "20b2")%string;
      [right; left|reflexivity|reflexivity|reflexivity|].
    vm_compute. eexists. reflexivity.
Defined.

Definition ib_name : string := "rdma/rdma_shared_device_ib".
Definition quantity (z : Z) : @Quantity milli_api := (1000 * z)%Z.

Definition knode : KNode milli_api :=
  mkKNode "gpu-1" {["kubernetes.io/hostname"%string := "gpu-1"%string]} "x86_64"
    (<["cpu" := quantity 16]> (<["memory" := quantity 1000]> (<["nvidia.com/gpu" := quantity 2]> {[ib_name := quantity 2]})))%string
    (<["cpu" := quantity 16]> {["memory" := quantity 1024]})%string [] [("Ready", "True")]%string false.

Definition pod : KPod milli_api :=
  mkKPod "lease" "web-0" [("PodScheduled", "True")]%string
    [<["cpu" := 1500%Z]> (<["nvidia.com/gpu" := quantity 1]> {[ib_name := quantity 1]});
     {["memory" := quantity 64]}]%string
    [Some (mkEmptyDir "Memory" (Some (quantity 8))); None].

Lemma pod_ok : pod_nonneg pod.
Proof.
  split.
  - intros requests x q Hr Hq.
    assert (Hall : Forall (map_Forall (fun (_ : string) (q : Z) => (0 <= q)%Z)) (po_requests pod)).
    { apply (bool_decide_unpack _). vm_compute. exact I. }
    exact (proj1 (list.Forall_forall _ _) Hall requests Hr x q Hq).
  - intros v q Hv Hq. apply elem_of_cons in Hv as [->|Hv].
    + injection Hq as <-. vm_compute. discriminate.
    + apply list_elem_of_singleton in Hv as ->. discriminate Hq.
Defined.

Definition cfg0 : Config := InvConfigExamples.cfg.

Definition classes0 : gset string := {["beta1"; "beta3"]}%string.

Definition boot : option monitor :=
  start cfg0 classes0 registry (Some knode) [Some [mkProcessor 0 "amd" "epyc" 16]] (Some cards) (Some devices)
    (mkIB ["mlx5"]%string "infiniband") (Some []).

Definition idle : monitor := mkMonitor cfg0 ∅ ∅ empty_knode (node_of "" 0 0 [] 0 0 no_caps) true ∅ ∅ nodeStateRemoved false false.

Definition booted : monitor := default idle boot.

Lemma boot_ok : boot = Some booted.
Proof.
  assert (Hb : (match boot with Some _ => true | None => false end) = true) by (vm_compute; reflexivity).
  unfold booted. revert Hb. generalize boot. by intros [m|].
Qed.

Definition with_pod : monitor := (handle_pod booted Added pod).1.

Lemma pod_run : run "gpu-1" booted [EvPod Added pod] with_pod ((handle_pod booted Added pod).2 ++ []).
Proof. apply run_cons with with_pod; [exact I|reflexivity|constructor]. Qed.

(** The pod is charged; its volume in memory once per container. *)
Lemma accounting_exact_witness :
  let requested k := total (pod_requested (interconnect_name (mo_node with_pod)) k) (mo_pods with_pod) in
  allocated RGPU (mo_node with_pod) = requested RGPU /\ requested RGPU = 1000%Z /\
  allocated RMemory (mo_node with_pod) = requested RMemory /\ requested RMemory = 80000%Z /\
  allocated RInterconnect (mo_node with_pod) = requested RInterconnect /\ requested RInterconnect = 1000%Z.
Proof.
  destruct (accounting_exact "gpu-1" cfg0 classes0 registry (Some knode) [Some [mkProcessor 0 "amd" "epyc" 16]]
              (Some cards) (Some devices) (mkIB ["mlx5"]%string "infiniband") (Some []) booted [EvPod Added pod]
              with_pod ((handle_pod booted Added pod).2 ++ []) boot_ok) as [Hall Hic].
  - split; [constructor|]. intros p Hp. by apply not_elem_of_nil in Hp.
  - exact pod_run.
  - apply list.Forall_singleton. exact pod_ok.
  - cbv zeta. split; [by apply Hall|]. split; [vm_compute; reflexivity|]. split; [by apply Hall|].
    split; [vm_compute; reflexivity|]. split; [apply Hic; by apply list.Forall_singleton|vm_compute; reflexivity].
Defined.

Definition renamed : Config :=
  mkConfig (Version cfg0) (ClusterStorage cfg0) (Excludes cfg0) ["broadcom.com/rdma"]%string false.

Lemma with_pod_inv : monitor_inv with_pod /\ accounts RInterconnect with_pod.
Proof.
  destruct (start_inv cfg0 classes0 registry (Some knode) [Some [mkProcessor 0 "amd" "epyc" 16]]
              (Some cards) (Some devices) (mkIB ["mlx5"]%string "infiniband") (Some []) booted) as (Hi & Hic & _);
    [split; [constructor|intros p Hp; by apply not_elem_of_nil in Hp]|exact boot_ok|].
  destruct (handle_pod_inv booted Added pod with_pod (handle_pod booted Added pod).2 Hi pod_ok) as (Hi' & Hic' & _);
    [unfold with_pod; by destruct (handle_pod booted Added pod)|]. split; [done|]. by apply Hic'.
Qed.

Lemma with_pod_tracks : mo_pods with_pod = {[podKey pod := pod]}.
Proof.
  assert (Hp : mo_pods booted = ∅) by exact (start_no_pods _ _ _ _ _ _ _ _ _ boot_ok).
  unfold with_pod, handle_pod. by rewrite Hp, lookup_empty.
Qed.

Lemma renamed_interconnect_stranded_witness :
  exists m' outs, run "gpu-1" with_pod [EvConfig renamed; EvPod Deleted pod] m' outs /\ mo_pods m' = ∅ /\
    allocated RInterconnect (mo_node m') = 1000%Z.
Proof.
  destruct (renamed_interconnect_stranded "gpu-1" with_pod renamed pod) as (m' & outs & Hr & Hp & Ha).
  - apply with_pod_inv.
  - apply with_pod_inv.
  - exact with_pod_tracks.
  - vm_compute. discriminate.
  - vm_compute. reflexivity.
  - exists m', outs. split; [exact Hr|]. split; [exact Hp|]. rewrite Ha. vm_compute. reflexivity.
Defined.

Lemma monitor_retracts_witness :
  list.last (publications (api := milli_api) ([] ++ retract "gpu-1" booted)) = None \/
  list.last (publications (api := milli_api) ([] ++ retract "gpu-1" booted)) = Some (NodeRemoved "gpu-1").
Proof.
  apply (monitor_retracts "gpu-1" cfg0 classes0 registry (Some knode) [Some [mkProcessor 0 "amd" "epyc" 16]]
           (Some cards) (Some devices) (mkIB ["mlx5"]%string "infiniband") (Some []) booted [] booted [] EvDone).
  - exact boot_ok.
  - constructor.
  - reflexivity.
Defined.

Lemma ready_node_published_witness :
  exists m' outs node, run "gpu-1" (signalLabels booted) [EvLabels; EvState] m' (outs ++ [OutPub (NodeUpdated "gpu-1" node)]) /\
    mo_last m' = nodeStateUpdated /\ mo_labels m' <> ∅.
Proof.
  apply (ready_node_published "gpu-1" (signalLabels booted)).
  - vm_compute. reflexivity.
  - reflexivity.
  - vm_compute. reflexivity.
  - apply (bool_decide_unpack _). vm_compute. exact I.
Defined.

Definition tainted : KNode milli_api :=
  mkKNode "gpu-1" ∅ "x86_64" (no_allocatable knode) (no_capacity knode) [NoSchedule] [("Ready", "True")]%string false.

Lemma unschedulable_node_withdrawn_witness :
  exists m1 o1, handle "gpu-1" (with_knode tainted (signalLabels booted)) EvLabels = Continue m1 o1 /\ mo_labels m1 = ∅ /\
    (mo_last m1 = nodeStateRemoved \/
     (enabled m1 EvState /\ exists m2, handle "gpu-1" m1 EvState = Continue m2 [OutPub (NodeRemoved "gpu-1")])).
Proof.
  apply (unschedulable_node_withdrawn "gpu-1" cfg0 classes0 registry (Some knode) [Some [mkProcessor 0 "amd" "epyc" 16]]
           (Some cards) (Some devices) (mkIB ["mlx5"]%string "infiniband") (Some []) booted
           [EvNode Modified tainted no_ib None] _ ([] ++ [])).
  - exact boot_ok.
  - apply run_cons with (with_knode tainted (signalLabels booted)); [exact I| |constructor].
    assert (Hc : nodeAllocatableChanged (mo_knode booted) tainted = false) by (vm_compute; reflexivity).
    cbn [handle]. unfold handle_node. by rewrite Hc.
  - vm_compute. reflexivity.
  - apply (bool_decide_unpack _). vm_compute. exact I.
Defined.

Definition generated : option (labels_t * Node milli_api) := generateLabels cfg0 knode (mo_node booted) classes0.
Definition gen_labels : labels_t := default ∅ (fst <$> generated).
Definition gen_node : Node milli_api := default (mo_node booted) (snd <$> generated).

Lemma generated_ok : generateLabels cfg0 knode (mo_node booted) classes0 = Some (gen_labels, gen_node).
Proof.
  assert (Hg : (match generated with Some _ => true | None => false end) = true) by (vm_compute; reflexivity).
  change (generateLabels cfg0 knode (mo_node booted) classes0) with generated.
  unfold gen_labels, gen_node. revert Hg. generalize generated. by intros [[l n]|].
Qed.

Lemma few_gpus key : (occurrences key (n_gpu_info (nd_resources (mo_node booted)) ≫= gpu_keys) < 2 ^ 32)%Z.
Proof.
  eapply Z.le_lt_trans; [apply occurrences_le|]. vm_compute. reflexivity.
Qed.

Lemma labels_advertise_node_witness :
  selector_holds (true_selector AkashManagedLabelName) gen_labels = true /\
  (selector_holds (positive_selector (class_label "beta3")) gen_labels = true <->
   "beta3"%string ∈ nc_storage_classes (nd_caps gen_node)).
Proof.
  pose proof (labels_advertise_node cfg0 knode (mo_node booted) classes0 gen_labels gen_node generated_ok few_gpus) as Hl.
  assert (Hs : schedulable cfg0 knode = true) by (vm_compute; reflexivity). rewrite Hs in Hl.
  destruct Hl as (Hm & Hc & _). split; [exact Hm|apply Hc].
Defined.

Definition a100_info : GPUInfo := mkGPUInfo "nvidia" "10de" "a100" "20b2" "80Gi" "SXM4".

Lemma gpu_workload_admitted_witness :
  Forall (fun s => selector_holds s gen_labels = true)
    (nodeSelectorsFromResources (mkSchedResources (Some (mkSchedGPU "nvidia" "a100" "80Gi" "sxm")) None)).
Proof.
  apply (gpu_workload_admitted cfg0 knode (mo_node booted) classes0 gen_labels gen_node a100_info).
  - exact generated_ok.
  - vm_compute. reflexivity.
  - exact few_gpus.
  - apply list_elem_of_In. vm_compute. by left.
  - reflexivity.
  - reflexivity.
  - right. reflexivity.
  - right. split; [discriminate|reflexivity].
Defined.

Lemma patch_keeps_foreign_labels_witness :
  patch_labels gen_labels knode !! "kubernetes.io/hostname"%string = Some "gpu-1"%string.
Proof.
  rewrite (patch_keeps_foreign_labels cfg0 knode (mo_node booted) classes0 gen_labels gen_node _ generated_ok).
  vm_compute. reflexivity.
Defined.

Lemma gpu_capacity_outlives_report_witness :
  res_pair RGPU (updateNodeInfo (mkKNode "gpu-1" ∅ "x86_64" {["cpu"%string := quantity 16]} ∅ [] [] false) (mo_node booted) []) =
  res_pair RGPU (mo_node booted).
Proof.
  apply gpu_capacity_outlives_report. intros x Hx. apply list_elem_of_In in Hx.
  by repeat (destruct Hx as [<-|Hx]; [done|]).
Defined.

(** Two GPU resources on one node: the last one visited is the capacity. *)
Definition two_resources : list (string * @Quantity milli_api) :=
  [("nvidia.com/gpu", quantity 0); ("nvidia.com/pgpu", quantity 8)]%string.

Example gpu_capacity_depends_on_order :
  rp_allocatable (res_pair RGPU (read_resources "" set_allocatable two_resources (mo_node idle))) = Some (quantity 8) /\
  rp_allocatable (res_pair RGPU (read_resources "" set_allocatable (rev two_resources) (mo_node idle))) = Some (quantity 0).
Proof. split; reflexivity. Qed.

End MonitorExamples.
