(* ===== verification/InvCluster.v ===== *)
(** * The inventory operator's cluster

    Model of [operator/inventory/nodes.go] (the table of published nodes and the
    connector that keeps one discovery per node), of [state.go] (the cluster the
    provider is told about) and of the watchers of [cmd.go] that feed them: the
    storage classes, the configuration file and the GPU registry.

    The table is a fold over what the monitors publish ([NodeMonitor]). The
    connector is a transition system with its discoveries: a discovery that ends
    sends its node's name on a channel with room for one. *)

From stdpp Require Import base gmap list strings sorting tactics relations.
From Stdlib Require Import ZArith Lia Ascii.
From S2P Require Import Prelude Types Names InvConfig Concrete NodeDiscovery NodeMonitor.

(** ** The table of nodes *)

Section Table.
Context {api : InventoryAPI} `{!GoRange}.

(** [sort.Sort] with the library's order on [inventory.Nodes]. *)
Class NodesOrder := {
  sort_nodes : list (Node api) -> list (Node api);
  sort_nodes_perm : forall l, sort_nodes l ≡ₚ l
}.

Definition state_name (s : @nodeState api) : string :=
  match s with NodeRemoved n => n | NodeUpdated n _ => n end.

Definition record_state (nodes : gmap string (Node api)) (s : @nodeState api) : gmap string (Node api) :=
  match s with
  | NodeUpdated n node => <[n := node]> nodes
  | NodeRemoved n => delete n nodes
  end.

Definition snapshot `{!NodesOrder} (nodes : gmap string (Node api)) : list (Node api) :=
  sort_nodes (range_map nodes).*2.

(** What the table holds of a node is the last thing said about it, however the
    monitors' messages are interleaved. *)
Lemma table_last states nodes n :
  foldl record_state nodes states !! n =
  match list.last (filter (fun s => state_name s = n) states) with
  | Some (NodeUpdated _ node) => Some node
  | Some (NodeRemoved _) => None
  | None => nodes !! n
  end.
Proof.
  induction states as [|s states IH] using rev_ind; [done|].
  rewrite foldl_app, list.filter_app. cbn [foldl]. rewrite filter_cons. destruct (decide (state_name s = n)) as [E|E].
  - change (filter (fun s0 => state_name s0 = n) []) with (@nil (@nodeState api)). rewrite last_snoc.
    destruct s; simpl in *; subst; [by rewrite lookup_delete_eq|by rewrite lookup_insert_eq].
  - change (filter (fun s0 => state_name s0 = n) []) with (@nil (@nodeState api)). rewrite app_nil_r, <- IH.
    destruct s; simpl in *; [by rewrite lookup_delete_ne|by rewrite lookup_insert_ne].
Qed.

End Table.

Arguments NodesOrder api : clear implicits.

(** ** The cluster's state *)

Section State.
Context {api : InventoryAPI} `{!ConfigAPI} `{!GoRange}.

(** A class's name is [Info.Class]. *)
Record storageSignal := mkStorageSignal { ss_driver : string; ss_storage : list (Types.ClusterStorage api) }.

Inductive state_data :=
| DataConfig (cfg : Config)
| DataNodes (nodes : list (Node api))
| DataStorage (s : storageSignal).

Record cluster_state := mkClusterState {
  cl_cfg : Config;
  cl_storage : gmap string (list (Types.ClusterStorage api));
  cl_cluster : Cluster api;
  cl_signal : bool
}.

Definition cluster_init : cluster_state := mkClusterState zero_config ∅ (mkCluster [] []) false.

Definition configured_storage (cfg : Config) (storage : gmap string (list (Types.ClusterStorage api))) :
    list (Types.ClusterStorage api) :=
  List.filter (fun class => HasStorageClass cfg (cs_class class)) ((range_map storage).*2 ≫= id).

Definition state_receive (s : cluster_state) (d : state_data) : cluster_state :=
  match d with
  | DataConfig cfg => mkClusterState cfg (cl_storage s) (cl_cluster s) (cl_signal s)
  | DataNodes nodes =>
      mkClusterState (cl_cfg s) (cl_storage s) (mkCluster nodes (c_storage (cl_cluster s))) true
  | DataStorage sig =>
      let storage := <[ss_driver sig := ss_storage sig]> (cl_storage s) in
      mkClusterState (cl_cfg s) storage
        (mkCluster (c_nodes (cl_cluster s)) (configured_storage (cl_cfg s) storage)) true
  end.

(** A query answers with the state; the signal publishes it. *)
Definition state_query (s : cluster_state) : Cluster api := cl_cluster s.
Definition state_publish (s : cluster_state) : cluster_state * Cluster api :=
  (mkClusterState (cl_cfg s) (cl_storage s) (cl_cluster s) false, cl_cluster s).

(** The storage is that of the last configuration a storage signal met. *)
Lemma state_storage_spec s sig x :
  x ∈ c_storage (state_query (state_receive s (DataStorage sig))) <->
  HasStorageClass (cl_cfg s) (cs_class x) = true /\
  exists driver classes, x ∈ classes /\
    (<[ss_driver sig := ss_storage sig]> (cl_storage s)) !! driver = Some classes.
Proof.
  unfold state_query. cbn [state_receive cl_cluster c_storage]. unfold configured_storage.
  rewrite list_elem_of_In, filter_In, <- list_elem_of_In, list_elem_of_bind. split.
  - intros [(classes & Hx & Hc) Hh]. split; [done|].
    apply list_elem_of_fmap in Hc as ([driver c] & -> & Hin%elem_of_range_map). eauto.
  - intros [Hh (driver & classes & Hx & Hd)]. split; [|done]. exists classes. split; [done|].
    apply list_elem_of_fmap. exists (driver, classes). split; [done|]. by apply elem_of_range_map.
Qed.

(** A configuration that takes a storage class away does not withdraw it: until a
    driver reports again, a query still lists the class. *)
Theorem config_change_keeps_storage s cfg :
  c_storage (state_query (state_receive s (DataConfig cfg))) = c_storage (state_query s).
Proof. done. Qed.

End State.

(** ** Storage classes *)

(** [scWatcher]: only additions and deletions change the set; it is published
    after every event. *)
Definition sc_event (sc : gset string) (type : WatchType) (class : string) : gset string :=
  match type with
  | Added => {[class]} ∪ sc
  | Deleted => sc ∖ {[class]}
  | Modified => sc
  end.

(** Everything the watcher publishes, the empty set first. *)
Definition sc_publications (events : list (WatchType * string)) : list (gset string) :=
  (fix go (sc : gset string) (events : list (WatchType * string)) : list (gset string) :=
     sc :: match events with
           | [] => []
           | (type, class) :: rest => go (sc_event sc type class) rest
           end) ∅ events.

(** ** The configuration file *)

Inductive file_op := FileCreate | FileWrite | FileRemove | FileOther.

(** [configWatcher]: the configuration after an event; it is published each time. *)
Definition config_event `{ConfigAPI} (parse : string -> result config_error Config) (ReadFile : option string)
    (config : Config) (op : file_op) (file : string) : Config :=
  match op with
  | FileCreate | FileWrite => (loadConfig parse ReadFile file true).1
  | FileRemove => (loadConfig parse ReadFile "" true).1
  | FileOther => config
  end.

(** ** The GPU registry *)

Section Registry.

(** [sha256] of the body and [json.Unmarshal] into the map there is, which keeps
    the entries the document does not mention. *)
Variable body digest : Type.
Context `{!EqDecision digest}.
Variable sha256 : body -> digest.
Variable unmarshal_into : body -> RegistryGPUVendors -> RegistryGPUVendors.

(** The answer to a request: an error, or a status and a body that may not be readable. *)
Inductive http_answer := HttpError | HttpAnswer (status : Z) (data : option body).

Record registry := mkRegistry {
  rg_ids : RegistryGPUVendors;
  rg_gpu_hash : option digest;
  rg_pci_hash : option digest;
  (** When the timers fire next; none once fired and not reset. *)
  rg_gpu_timer : option Z;
  rg_pci_timer : option Z
}.

Definition http_body (a : http_answer) : option body :=
  match a with
  | HttpAnswer status (Some data) => if (status =? 200)%Z then Some data else None
  | _ => None
  end.

Definition queryGPUs (r : registry) (a : http_answer) : registry * bool :=
  match http_body a with
  | None => (r, false)
  | Some gpus =>
      let newHash := sha256 gpus in
      if bool_decide (rg_gpu_hash r = Some newHash) then (r, false)
      else (mkRegistry (unmarshal_into gpus (rg_ids r)) (Some newHash) (rg_pci_hash r) (rg_gpu_timer r) (rg_pci_timer r), true)
  end.

Definition queryPCIDB (r : registry) (a : http_answer) : registry * bool :=
  match http_body a with
  | None => (r, false)
  | Some pcie =>
      let newHash := sha256 pcie in
      if bool_decide (rg_pci_hash r = Some newHash) then (r, false)
      else (mkRegistry (rg_ids r) (rg_gpu_hash r) (Some newHash) (rg_gpu_timer r) (rg_pci_timer r), true)
  end.

Definition day : Z := 24 * 3600.

Definition set_timers (gpu pci : option Z) (r : registry) : registry :=
  mkRegistry (rg_ids r) (rg_gpu_hash r) (rg_pci_hash r) gpu pci.

(** The start at time [now], polling every [period]: the registry read and what is published. *)
Definition registry_start (now period : Z) (a : http_answer) : registry * RegistryGPUVendors :=
  let r := (queryGPUs (mkRegistry ∅ None None None None) a).1 in
  (set_timers (Some (now + period)%Z) (Some (now + day)%Z) r, rg_ids r).

(** The GPU timer fires: what is published, if anything. *)
Definition gpu_tick (now period : Z) (a : http_answer) (r : registry) : registry * option RegistryGPUVendors :=
  let q := queryGPUs r a in
  (set_timers (Some (now + period)%Z) (rg_pci_timer q.1) q.1, if q.2 then Some (rg_ids q.1) else None).

(** The PCI timer fires; the GPU timer is the one that is reset. *)
Definition pci_tick (now : Z) (a : http_answer) (r : registry) : registry :=
  set_timers (Some (now + day)%Z) None (queryPCIDB r a).1.

(** [ctx.Done]: each timer is stopped; one that has fired and was received from
    makes the loop wait for it to fire again. *)
Definition registry_stops (r : registry) : bool :=
  match rg_gpu_timer r, rg_pci_timer r with Some _, Some _ => true | _, _ => false end.

Inductive registry_step (period : Z) : registry -> registry -> Prop :=
| step_gpu r now a : rg_gpu_timer r = Some now -> registry_step period r (gpu_tick now period a r).1
| step_pci r now a : rg_pci_timer r = Some now -> registry_step period r (pci_tick now a r).

(** The daily refresh of the PCI database happens once: it puts the GPU registry off
    for a day instead of re-arming itself, the database is never queried again, and
    from then on the loop does not end when it is told to. *)
Theorem pci_refresh_happens_once period now a r r' :
  rtc (registry_step period) (pci_tick now a r) r' ->
  rg_gpu_timer (pci_tick now a r) = Some (now + day)%Z /\ rg_pci_timer r' = None /\ registry_stops r' = false.
Proof.
  intros Hr. split; [done|]. assert (Hp : rg_pci_timer r' = None).
  { refine (rtc_preserves (registry_step period) (fun r => rg_pci_timer r = None) _ (pci_tick now a r) r' _ Hr); [|done].
    intros s s' Hs Hst. inversion Hst as [s0 t b Ht|s0 t b Ht]; subst; [|congruence]. unfold gpu_tick, queryGPUs. cbn [fst set_timers rg_pci_timer].
    destruct (http_body b); [|done]. by case_bool_decide. }
  split; [done|]. unfold registry_stops. rewrite Hp. by destruct (rg_gpu_timer r').
Qed.

End Registry.

(** ** The connector

    A discovery runs until its context is cancelled or it fails; it then sends its
    node's name on [signaldone] and is finished. The connector serves one event
    at a time, and [shutdown] waits for the discovery to finish. *)

Inductive phase := Running | Cancelled | Sending | Finished.

#[export] Instance phase_eq_dec : EqDecision phase.
Proof. solve_decision. Defined.

(** What the connector does once a discovery it shuts down has finished. *)
Inductive after_wait := ThenRestart (name : string) | ThenForget (name : string).

Record connector := mkConnector {
  (** [nodes]: the discovery of each node, by number. *)
  co_nodes : gmap string nat;
  (** Every discovery ever started: its node and how far it is. *)
  co_discoveries : gmap nat (string * phase);
  co_next : nat;
  (** [signaldone], with room for one name. *)
  co_done : option string;
  (** The discovery being waited for. *)
  co_waiting : option (nat * after_wait)
}.

Definition connector_init : connector := mkConnector ∅ ∅ 0 None None.

(** [newNodeDiscovery] stored under the node's name. *)
Definition start_discovery (name : string) (c : connector) : connector :=
  mkConnector (<[name := co_next c]> (co_nodes c)) (<[co_next c := (name, Running)]> (co_discoveries c))
    (S (co_next c)) (co_done c) (co_waiting c).

Definition set_phase (i : nat) (p : phase) (c : connector) : connector :=
  mkConnector (co_nodes c) (alter (fun d => (d.1, p)) i (co_discoveries c)) (co_next c) (co_done c) (co_waiting c).

Definition forget (name : string) (c : connector) : connector :=
  mkConnector (delete name (co_nodes c)) (co_discoveries c) (co_next c) (co_done c) (co_waiting c).

Definition set_done (o : option string) (c : connector) : connector :=
  mkConnector (co_nodes c) (co_discoveries c) (co_next c) o (co_waiting c).

Definition set_waiting (o : option (nat * after_wait)) (c : connector) : connector :=
  mkConnector (co_nodes c) (co_discoveries c) (co_next c) (co_done c) o.

(** [shutdown] of discovery [i]: cancel it if it still runs, and wait. *)
Definition shutdown (i : nat) (k : after_wait) (c : connector) : connector :=
  let c := match co_discoveries c !! i with Some (_, Running) => set_phase i Cancelled c | _ => c end in
  set_waiting (Some (i, k)) c.

Inductive connector_step : connector -> connector -> Prop :=
(* a node appears *)
| node_added c name :
    co_waiting c = None -> connector_step c (start_discovery name c)
(* a node disappears *)
| node_deleted c name i :
    co_waiting c = None -> co_nodes c !! name = Some i ->
    connector_step c (shutdown i (ThenForget name) c)
| node_deleted_unknown c name :
    co_waiting c = None -> co_nodes c !! name = None -> connector_step c c
(* a discovery has ended: one of the connector's own, which is taken out first, or not *)
| done_known c name i :
    co_waiting c = None -> co_done c = Some name -> co_nodes c !! name = Some i ->
    connector_step c (shutdown i (ThenRestart name) (forget name (set_done None c)))
| done_unknown c name :
    co_waiting c = None -> co_done c = Some name -> co_nodes c !! name = None ->
    connector_step c (start_discovery name (set_done None c))
(* the discovery waited for has finished *)
| wait_restart c i name d :
    co_waiting c = Some (i, ThenRestart name) -> co_discoveries c !! i = Some (d, Finished) ->
    connector_step c (start_discovery name (set_waiting None c))
| wait_forget c i name d :
    co_waiting c = Some (i, ThenForget name) -> co_discoveries c !! i = Some (d, Finished) ->
    connector_step c (forget name (set_waiting None c))
(* a discovery fails by itself, or notices that it was cancelled *)
| discovery_ends c i d p :
    co_discoveries c !! i = Some (d, p) -> p = Running \/ p = Cancelled -> connector_step c (set_phase i Sending c)
(* it hands its name over when there is room *)
| discovery_signals c i d :
    co_discoveries c !! i = Some (d, Sending) -> co_done c = None ->
    connector_step c (set_done (Some d) (set_phase i Finished c)).

(** The connector waits for a discovery that cannot hand its name over. *)
Definition stuck (c : connector) : Prop :=
  exists i k d other, co_waiting c = Some (i, k) /\ co_discoveries c !! i = Some (d, Sending) /\ co_done c = Some other.

Lemma stuck_forever c c' : stuck c -> connector_step c c' -> stuck c'.
Proof.
  intros (i & k & d & other & Hw & Hd & Ho) Hs. inversion Hs as
    [c0 name Hn|c0 name j Hn _|c0 name Hn _|c0 name j Hn|c0 name Hn|c0 j name d' Hn Hf|c0 j name d' Hn Hf|c0 j d' p Hj Hp|c0 j d' Hj Hdone];
    subst; try congruence.
  exists i, k, d, other. split; [done|]. split; [|done]. cbn [set_phase co_discoveries].
  destruct (decide (j = i)) as [->|Hne]; [by rewrite lookup_alter_eq, Hd|by rewrite lookup_alter_ne].
Qed.

Ltac connector_simpl :=
  cbn [start_discovery shutdown set_phase set_waiting set_done forget co_nodes co_discoveries co_next co_done co_waiting].

(** The connector can stop for good. When one node's discovery ends by itself
    and, before that is noticed, another node is deleted, the connector waits for the
    deleted node's discovery, which waits for room to report; no event is served
    any more. *)
Theorem connector_deadlocks a b i j c :
  co_waiting c = None -> co_done c = None -> a <> b -> i <> j ->
  co_nodes c !! b = Some j ->
  co_discoveries c !! i = Some (a, Running) -> co_discoveries c !! j = Some (b, Running) ->
  exists c', rtc connector_step c c' /\ stuck c' /\
    forall c'', rtc connector_step c' c'' -> co_waiting c'' <> None.
Proof.
  intros Hw Hd Hab Hij Hb Hi Hj.
  set (c1 := set_phase i Sending c). set (c2 := set_done (Some a) (set_phase i Finished c1)).
  set (c3 := shutdown j (ThenForget b) c2). set (c4 := set_phase j Sending c3).
  assert (H1 : co_discoveries c1 !! i = Some (a, Sending)) by (unfold c1; connector_simpl; by rewrite lookup_alter_eq, Hi).
  assert (Hj2 : co_discoveries c2 !! j = Some (b, Running)).
  { unfold c2, c1. connector_simpl. by rewrite !lookup_alter_ne. }
  assert (Hj3 : co_discoveries c3 !! j = Some (b, Cancelled)).
  { unfold c3, shutdown. rewrite Hj2. connector_simpl. by rewrite lookup_alter_eq, Hj2. }
  assert (Hw3 : co_waiting c3 = Some (j, ThenForget b)) by done.
  assert (Hd3 : co_done c3 = Some a). { unfold c3, shutdown. by rewrite Hj2. }
  assert (Hst : stuck c4).
  { exists j, (ThenForget b), b, a. unfold c4. connector_simpl. by rewrite lookup_alter_eq, Hj3. }
  exists c4. split; [|split; [done|]].
  - apply rtc_l with c1; [by eapply discovery_ends; [exact Hi|left]|].
    apply rtc_l with c2; [by eapply discovery_signals; [exact H1|exact Hd]|].
    apply rtc_l with c3; [by eapply node_deleted; [exact Hw|exact Hb]|].
    apply rtc_once. by eapply discovery_ends; [exact Hj3|right].
  - intros c'' Hr. assert (stuck c'') as (? & ? & ? & ? & -> & _); [|done].
    refine (rtc_preserves connector_step stuck _ c4 c'' Hst Hr). apply stuck_forever.
Qed.

(** A node that is deleted comes back: shutting its discovery down makes the
    discovery report its end, and the report, which finds the node unknown, starts a
    new discovery for the node that is gone. *)
Theorem deleted_node_rediscovered c name i :
  co_waiting c = None -> co_done c = None -> co_nodes c !! name = Some i ->
  co_discoveries c !! i = Some (name, Running) ->
  exists deleted restarted,
    rtc connector_step c deleted /\ co_nodes deleted !! name = None /\ co_waiting deleted = None /\
    co_done deleted = Some name /\
    connector_step deleted restarted /\ co_nodes restarted !! name = Some (co_next c) /\
    (forall next, connector_step deleted next -> co_nodes next !! name = None ->
       co_done next = Some name).
Proof.
  intros Hw Hd Hn Hi.
  set (c1 := shutdown i (ThenForget name) c). set (c2 := set_phase i Sending c1).
  set (c3 := set_done (Some name) (set_phase i Finished c2)). set (c4 := forget name (set_waiting None c3)).
  assert (E1 : c1 = set_waiting (Some (i, ThenForget name)) (set_phase i Cancelled c)) by (unfold c1, shutdown; by rewrite Hi).
  assert (H1 : co_discoveries c1 !! i = Some (name, Cancelled)) by (rewrite E1; connector_simpl; by rewrite lookup_alter_eq, Hi).
  assert (H2 : co_discoveries c2 !! i = Some (name, Sending)) by (unfold c2; connector_simpl; by rewrite lookup_alter_eq, H1).
  assert (H3 : co_discoveries c3 !! i = Some (name, Finished)) by (unfold c3; connector_simpl; by rewrite lookup_alter_eq, H2).
  assert (Hw3 : co_waiting c3 = Some (i, ThenForget name)) by (unfold c3, c2; rewrite E1; done).
  assert (Hd2 : co_done c2 = None) by (unfold c2; rewrite E1; done).
  exists c4, (start_discovery name (set_done None c4)). split_and!.
  - apply rtc_l with c1; [by eapply node_deleted|].
    apply rtc_l with c2; [by eapply discovery_ends; [exact H1|right]|].
    apply rtc_l with c3; [by eapply discovery_signals|]. apply rtc_once. by eapply wait_forget.
  - unfold c4. connector_simpl. by rewrite lookup_delete_eq.
  - done.
  - done.
  - apply done_unknown; [done|done|]. unfold c4. connector_simpl. by rewrite lookup_delete_eq.
  - cbn [start_discovery co_nodes]. rewrite lookup_insert_eq. by change (Some (co_next c1) = Some (co_next c)); rewrite E1.
  - intros next Hs Hno. assert (H4 : co_waiting c4 = None /\ co_done c4 = Some name) by done. destruct H4 as [Hw4 Hd4].
    assert (Hn4 : co_nodes c4 !! name = None) by (unfold c4; connector_simpl; by rewrite lookup_delete_eq).
    clearbody c4. inversion Hs as
      [c0 x Hx|c0 x j Hx Hj|c0 x Hx|c0 x j Hx Hj Hk|c0 x Hx Hj Hk|c0 j x d' Hx Hf|c0 j x d' Hx Hf|c0 j d' p Hj Hp|c0 j d' Hj Hdone];
      subst; try congruence; connector_simpl; try done.
    + unfold shutdown. by repeat case_match.
    + assert (name = x) as -> by congruence. cbn [start_discovery co_nodes] in Hno. by rewrite lookup_insert_eq in Hno.
Qed.

(** ** From the monitors to the table *)

(** C31: when a node's monitor has ended, the cluster's table of nodes has no entry for
    it, however its messages were interleaved with those of other nodes. *)
Theorem ended_monitor_leaves_no_node {api : InventoryAPI} `{!QuantityAPI api} `{!QuantityLaws api} `{!ConfigAPI}
    `{!GoRange} `{!GPUOrder} name cfg sc ids get cpus cards devices ib listing
    (m0 : @monitor api _) es m outs e final states :
  start cfg sc ids get cpus cards devices ib listing = Some m0 ->
  run name m0 es m outs -> handle name m e = Exit final ->
  filter (fun s => state_name s = name) states = publications (outs ++ final) ->
  foldl record_state ∅ states !! name = None.
Proof.
  intros Hs Hr Hx Hf. rewrite table_last, Hf.
  by destruct (retracts_spec _ _ _ _ _ _ _ _ _ _ _ _ _ _ _ _ Hs Hr Hx) as [-> | ->].
Qed.

(** ** Examples *)

Module InvClusterExamples.

Import MonitorExamples.
#[local] Existing Instance InvConfigExamples.tree_api.
#[local] Existing Instance InvConfigExamples.cfg_range.
#[local] Existing Instance milli_quantity.
#[local] Existing Instance milli_quantity_laws.
#[local] Existing Instance unsorted.

Definition two_nodes : connector := start_discovery "b" (start_discovery "a" connector_init).

Example two_nodes_reachable : rtc connector_step connector_init two_nodes.
Proof. apply rtc_l with (start_discovery "a" connector_init); [by constructor|]. apply rtc_once. by constructor. Qed.

Lemma connector_deadlocks_witness :
  exists c', rtc connector_step two_nodes c' /\ stuck c' /\
    forall c'', rtc connector_step c' c'' -> co_waiting c'' <> None.
Proof. by apply (connector_deadlocks "a" "b" 0 1 two_nodes). Defined.

Lemma deleted_node_rediscovered_witness :
  exists deleted restarted,
    rtc connector_step two_nodes deleted /\ co_nodes deleted !! "a"%string = None /\
    connector_step deleted restarted /\ co_nodes restarted !! "a"%string = Some 2%nat.
Proof.
  destruct (deleted_node_rediscovered two_nodes "a" 0) as (d & r & Hd & Hn & _ & _ & Hs & Hr & _); [done..|].
  by exists d, r.
Defined.

Definition after_boot : InvCluster.registry nat := (registry_start nat nat id (fun _ ids => ids) 0 300 (HttpError nat)).1.
Definition after_day : InvCluster.registry nat := pci_tick nat nat id 86400 (HttpError nat) after_boot.

Lemma pci_refresh_happens_once_witness : registry_stops nat after_day = false.
Proof.
  by destruct (pci_refresh_happens_once nat nat id (fun _ ids => ids) 300 86400 (HttpError nat) after_boot after_day
                 (rtc_refl _ _)) as (_ & _ & H).
Defined.

(** The monitor publishes its node, and its end withdraws it. *)
Definition continued (m : monitor) (e : event) : monitor * list output :=
  match handle "gpu-1" m e with Continue m' out => (m', out) | _ => (m, []) end.
Definition configured : monitor * list output := continued booted (EvConfig cfg0).
Definition labelled : monitor * list output := continued configured.1 EvLabels.
Definition published : monitor * list output := continued labelled.1 EvState.

Lemma continued_ok m e :
  (match handle "gpu-1" m e with Continue _ _ => true | _ => false end) = true ->
  handle "gpu-1" m e = Continue (continued m e).1 (continued m e).2.
Proof. unfold continued. by destruct (handle "gpu-1" m e). Qed.

Lemma published_run : run "gpu-1" booted [EvConfig cfg0; EvLabels; EvState] published.1 (configured.2 ++ labelled.2 ++ published.2 ++ []).
Proof.
  eapply run_cons; [exact I|apply continued_ok; vm_compute; reflexivity|].
  eapply run_cons; [vm_compute; reflexivity|apply continued_ok; vm_compute; reflexivity|].
  eapply run_cons; [vm_compute; reflexivity|apply continued_ok; vm_compute; reflexivity|]. constructor.
Qed.

Lemma ended_monitor_leaves_no_node_witness :
  let states := publications (api := milli_api) ((configured.2 ++ labelled.2 ++ published.2 ++ []) ++ retract "gpu-1" published.1) in
  is_Some (foldl record_state ∅ (take 1 states) !! "gpu-1"%string) /\ foldl record_state ∅ states !! "gpu-1"%string = None.
Proof.
  split; [vm_compute; by eexists|].
  apply (ended_monitor_leaves_no_node "gpu-1" cfg0 classes0 registry (Some knode) [Some [mkProcessor 0 "amd" "epyc" 16]]
           (Some cards) (Some devices) (mkIB ["mlx5"]%string "infiniband") (Some []) booted [EvConfig cfg0; EvLabels; EvState] published.1
           (configured.2 ++ labelled.2 ++ published.2 ++ []) EvDone (retract "gpu-1" published.1)).
  - exact boot_ok.
  - exact published_run.
  - reflexivity.
  - vm_compute. reflexivity.
Defined.

End InvClusterExamples.
