(* ===== verification/InvStorage.v ===== *)
(** * The inventory operator's storage drivers

    Model of [operator/inventory/ceph.go] and [rancher.go]: what each driver keeps
    of the storage classes and persistent volumes, what it publishes, and the
    exchange with the scraper that reads the capacity of the ceph pools; and of
    the report of negative quantities in [diagnostics.go].

    Both drivers account for volumes in the same way over their own records of a
    class: [Ledger]. *)

From stdpp Require Import base gmap list strings sorting tactics.
From Stdlib Require Import ZArith Lia Ascii.
From S2P Require Import Prelude Types Names InvConfig Concrete NodeDiscovery NodeMonitor InvCluster.

(** ** Objects *)

Record StorageClassObj := mkStorageClass {
  so_name : string; so_labels : labels_t; so_provisioner : string; so_parameters : gmap string string
}.

(** The object of a failed request. *)
Definition no_storage_class : StorageClassObj := mkStorageClass "" ∅ "" ∅.

(** [strconv.ParseBool]; its error is ignored. *)
Definition ParseBool (s : string) : bool :=
  existsb (String.eqb s) ["1"; "t"; "T"; "TRUE"; "true"; "True"]%string.

Definition falseVal : string := "false".

(** [isAkashManaged] from the label. *)
Definition akash_managed (o : StorageClassObj) : bool :=
  let lblVal := default ""%string (so_labels o !! AkashManagedLabelName) in
  ParseBool (if String.eqb lblVal "" then falseVal else lblVal).

Definition ResourceStorage : string := "storage".

(** ** Volumes *)

Section Volumes.
Context {api : InventoryAPI} `{!QuantityAPI api}.

(** A persistent volume: its storage capacity may be missing. *)
Record PersistentVolume := mkPV { pv_name : string; pv_class : string; pv_capacity : option Quantity }.

(** What a driver keeps of a class has an allocated quantity. *)
Class Ledger (C : Type) := {
  class_allocated : C -> Quantity;
  set_class_allocated : Quantity -> C -> C;
  class_allocated_set : forall q c, class_allocated (set_class_allocated q c) = q
}.

Section WithLedger.
Context {C : Type} `{!Ledger C}.

Abbreviation class_map := (gmap string C).
Abbreviation volume_map := (gmap string PersistentVolume).

Definition credit (q : Quantity) (c : C) : C := set_class_allocated (q_add (class_allocated c) q) c.

(** [subStorageAllocatedResource]: the difference is stored even when negative. *)
Definition subStorageAllocatedResource (q : Quantity) (c : C) : C :=
  set_class_allocated (q_sub (class_allocated c) q) c.

(** A volume appears or changes. A class that is not known is fetched first and
    stored under the given key. *)
Definition volume_seen (key : string) (fetched : C) (pv : PersistentVolume) (st : class_map * volume_map) : class_map * volume_map :=
  match pv_capacity pv with
  | None => st
  | Some capacity =>
      let '(scs, at_key) := match st.1 !! pv_class pv with
                            | Some _ => (st.1, pv_class pv)
                            | None => (<[key := fetched]> st.1, key)
                            end in
      match st.2 !! pv_name pv with
      | Some _ => (scs, st.2)
      | None => (alter (credit capacity) at_key scs, <[pv_name pv := pv]> st.2)
      end
  end.

(** A volume is deleted: the capacity taken off is that of the event. *)
Definition volume_gone (pv : PersistentVolume) (st : class_map * volume_map) : class_map * volume_map :=
  match pv_capacity pv with
  | None => st
  | Some capacity => (alter (subStorageAllocatedResource capacity) (pv_class pv) st.1, delete (pv_name pv) st.2)
  end.

End WithLedger.
End Volumes.

Arguments PersistentVolume api : clear implicits.
Arguments Ledger api C : clear implicits.

(** ** Ceph *)

Section Ceph.
Context {api : InventoryAPI} `{!QuantityAPI api} `{!GoRange}.

Record cephStorageClass := mkCephClass {
  cc_isCeph : bool; cc_isAkashManaged : bool; cc_pool : string; cc_clusterID : string; cc_allocated : Quantity
}.

#[global] Instance ceph_ledger : Ledger api cephStorageClass := {|
  class_allocated := cc_allocated;
  set_class_allocated q c := mkCephClass (cc_isCeph c) (cc_isAkashManaged c) (cc_pool c) (cc_clusterID c) q;
  class_allocated_set _ _ := eq_refl
|}.

Definition ceph_class (o : StorageClassObj) (allocated : Quantity) : cephStorageClass :=
  mkCephClass (has_suffix (so_provisioner o) ".csi.ceph.com") (akash_managed o)
    (default ""%string (so_parameters o !! "pool"%string)) (default ""%string (so_parameters o !! "clusterID"%string)) allocated.

(** The scraper's side of the loop: whether a request may be sent ([scrapech] is
    not nil), whether one is on its way or being served, and how many signals
    came in between. *)
Record scrape := mkScrape { sp_open : bool; sp_busy : bool; sp_count : nat }.

Record ceph := mkCeph {
  ce_clusters : gmap string string;
  ce_scs : gmap string cephStorageClass;
  ce_pvs : gmap string (PersistentVolume api);
  ce_scrape : scrape
}.

Definition ceph_init : ceph := mkCeph ∅ ∅ ∅ (mkScrape true false 0).

Definition signalScrape (s : scrape) : scrape :=
  if sp_open s && negb (sp_busy s) then mkScrape false true 0
  else mkScrape (sp_open s) (sp_busy s) (S (sp_count s)).

Definition ceph_signal (c : ceph) : ceph :=
  mkCeph (ce_clusters c) (ce_scs c) (ce_pvs c) (signalScrape (ce_scrape c)).

Definition with_ledger (st : gmap string cephStorageClass * gmap string (PersistentVolume api)) (c : ceph) : ceph :=
  mkCeph (ce_clusters c) st.1 st.2 (ce_scrape c).

Definition ceph_class_event (type : WatchType) (o : StorageClassObj) (c : ceph) : ceph :=
  let scs := match type with
             | Added | Modified =>
                 <[so_name o := ceph_class o (from_option cc_allocated (q_new 0) (ce_scs c !! so_name o))]> (ce_scs c)
             | Deleted => delete (so_name o) (ce_scs c)
             end in
  ceph_signal (with_ledger (scs, ce_pvs c) c).

(** Only a cluster whose state is [Created] is added. *)
Definition ceph_cluster_event (type : WatchType) (name namespace : string) (created : bool) (c : ceph) : ceph :=
  let clusters := match type with
                  | Added | Modified => if created then <[name := namespace]> (ce_clusters c) else ce_clusters c
                  | Deleted => delete name (ce_clusters c)
                  end in
  ceph_signal (mkCeph clusters (ce_scs c) (ce_pvs c) (ce_scrape c)).

(** [fetched] is what the API says of the volume's class when the driver has to ask. *)
Definition ceph_volume_event (type : WatchType) (pv : PersistentVolume api) (fetched : StorageClassObj) (c : ceph) : ceph :=
  let st := (ce_scs c, ce_pvs c) in
  let st := match type with
            | Added | Modified => volume_seen (so_name fetched) (ceph_class fetched (q_new 0)) pv st
            | Deleted => volume_gone pv st
            end in
  ceph_signal (with_ledger st c).

(** A pool of [ceph df]. *)
Record poolStats := mkPool { po_pool : string; po_max_avail : Z }.

(** What is published of one class. *)
Definition ceph_storage (clusters : gmap string (list poolStats)) (class : string) (params : cephStorageClass) :
    option (Types.ClusterStorage api) :=
  if cc_isCeph params then
    match clusters !! cc_clusterID params with
    | Some pools =>
        if cc_isAkashManaged params then
          match List.find (fun p => String.eqb (po_pool p) (cc_pool params)) pools with
          | Some pool => let avail := q_new (to_int64 (po_max_avail pool)) in
                         Some (mkClusterStorage class (mkResourcePair (Some avail) (Some avail) (Some (cc_allocated params))))
          | None => None
          end
        else None
    | None => None
    end
  else None.

(** The scraper's answer: the driver publishes what it found, if anything, and
    asks again when something happened meanwhile. *)
Definition ceph_scraped (clusters : gmap string (list poolStats)) (c : ceph) : ceph * option (@storageSignal api) :=
  let result := omap (fun e => ceph_storage clusters e.1 e.2) (range_map (ce_scs c)) in
  let published := if bool_decide (clusters = ∅) then None
                   else match result with [] => None | _ => Some (mkStorageSignal "ceph" result) end in
  let s := mkScrape true false (sp_count (ce_scrape c)) in
  (mkCeph (ce_clusters c) (ce_scs c) (ce_pvs c) (if (0 <? sp_count s)%nat then signalScrape s else s), published).

(** [scraper]: the answer for a request; [df] runs the command in the namespace of
    a cluster's tools and decodes its output, a failure gives no pools. *)
Definition scraper (df : string -> list poolStats) (clusters : gmap string string) : gmap string (list poolStats) :=
  df <$> clusters.

End Ceph.

Arguments cephStorageClass api : clear implicits.
Arguments ceph api : clear implicits.

(** ** Rancher *)

Section Rancher.
Context {api : InventoryAPI} `{!QuantityAPI api} `{!GoRange}.

Record rancherStorage := mkRancherClass { rc_isRancher : bool; rc_isAkashManaged : bool; rc_allocated : Quantity }.

#[global] Instance rancher_ledger : Ledger api rancherStorage := {|
  class_allocated := rc_allocated;
  set_class_allocated q c := mkRancherClass (rc_isRancher c) (rc_isAkashManaged c) q;
  class_allocated_set _ _ := eq_refl
|}.

Definition rancher_class (o : StorageClassObj) (allocated : Quantity) : rancherStorage :=
  mkRancherClass (String.eqb (so_provisioner o) "rancher.io/local-path") (akash_managed o) allocated.

Record rancher := mkRancher {
  ra_scs : gmap string rancherStorage;
  ra_pvs : gmap string (PersistentVolume api);
  ra_allocatable : Z;
  ra_watching : bool;
  ra_scrape : bool
}.

Definition rancher_init : rancher := mkRancher ∅ ∅ (2 ^ 63 - 1) false false.

Definition tryScrape (r : rancher) : rancher :=
  mkRancher (ra_scs r) (ra_pvs r) (ra_allocatable r) (ra_watching r) true.

Definition rancher_ledger_state (r : rancher) : gmap string rancherStorage * gmap string (PersistentVolume api) :=
  (ra_scs r, ra_pvs r).

Definition with_rancher_ledger (st : gmap string rancherStorage * gmap string (PersistentVolume api)) (r : rancher) : rancher :=
  mkRancher st.1 st.2 (ra_allocatable r) (ra_watching r) (ra_scrape r).

Definition rancher_volume_event (type : WatchType) (pv : PersistentVolume api) (fetched : StorageClassObj) (r : rancher) : rancher :=
  let st := match type with
            | Added | Modified =>
                volume_seen (pv_class pv) (rancher_class fetched (q_new 0)) pv (rancher_ledger_state r)
            | Deleted => volume_gone pv (rancher_ledger_state r)
            end in
  tryScrape (with_rancher_ledger st r).

(** The last node heard of decides what is allocatable. *)
Definition rancher_node_event (node : KNode api) (r : rancher) : rancher :=
  tryScrape (match no_allocatable node !! ResourceEphemeralStorage with
             | Some val => mkRancher (ra_scs r) (ra_pvs r) (q_value val) (ra_watching r) (ra_scrape r)
             | None => r
             end).

(** The first listing of the volumes: one without a known class is skipped. *)
Definition list_volume (st : gmap string rancherStorage * gmap string (PersistentVolume api)) (pv : PersistentVolume api) :
    gmap string rancherStorage * gmap string (PersistentVolume api) :=
  match pv_capacity pv, st.1 !! pv_class pv with
  | Some capacity, Some _ => (alter (credit capacity) (pv_class pv) st.1, <[pv_name pv := pv]> st.2)
  | _, _ => st
  end.

(** [classes_listed] is how many classes the API lists; the volumes are watched and
    listed the first time that is as many as the driver knows. A watch that cannot
    be started ([None]) is used nevertheless, which panics. *)
Definition rancher_class_event (type : WatchType) (o : StorageClassObj) (classes_listed : nat)
    (watched : option (list (PersistentVolume api))) (r : rancher) : option rancher :=
  match type with
  | Deleted => Some (tryScrape r)
  | Added | Modified =>
      let scs := <[so_name o := rancher_class o (from_option rc_allocated (q_new 0) (ra_scs r !! so_name o))]> (ra_scs r) in
      let r := with_rancher_ledger (scs, ra_pvs r) r in
      if Nat.eqb classes_listed (size scs) && negb (ra_watching r)
      then (fun volumes_listed =>
              let st := foldl list_volume (rancher_ledger_state r) volumes_listed in
              tryScrape (mkRancher st.1 st.2 (ra_allocatable r) true (ra_scrape r))) <$> watched
      else Some (tryScrape r)
  end.

Definition rancher_storage (allocatable : Z) (class : string) (params : rancherStorage) : option (Types.ClusterStorage api) :=
  if rc_isRancher params && rc_isAkashManaged params
  then Some (mkClusterStorage class (mkResourcePair (Some (q_new allocatable)) (Some (q_new allocatable))
                                       (Some (q_new (q_value (rc_allocated params))))))
  else None.

Definition rancher_scrape (r : rancher) : rancher * option (@storageSignal api) :=
  let result := omap (fun e => rancher_storage (ra_allocatable r) e.1 e.2) (range_map (ra_scs r)) in
  (mkRancher (ra_scs r) (ra_pvs r) (ra_allocatable r) (ra_watching r) false,
   match result with [] => None | _ => Some (mkStorageSignal "rancher" result) end).

End Rancher.

Arguments rancherStorage api : clear implicits.
Arguments rancher api : clear implicits.

(** ** Negative quantities *)

Section Diagnostics.
Context {api : InventoryAPI}.

Record negativeInventoryResource := mkNegative {
  ng_scope : string; ng_node : string; ng_class : string; ng_resource : string; ng_field : string
}.

Definition appendNegativeQuantity (result : list negativeInventoryResource) (scope node class name field : string)
    (quantity : option Quantity) : list negativeInventoryResource :=
  match quantity with
  | Some q => if q_negative q then result ++ [mkNegative scope node class name field] else result
  | None => result
  end.

Definition appendNegativeResourcePair (result : list negativeInventoryResource) (scope node class name : string)
    (pair : ResourcePair api) : list negativeInventoryResource :=
  let result := appendNegativeQuantity result scope node class name "capacity" (rp_capacity pair) in
  let result := appendNegativeQuantity result scope node class name "allocatable" (rp_allocatable pair) in
  appendNegativeQuantity result scope node class name "allocated" (rp_allocated pair).

Definition node_negatives (result : list negativeInventoryResource) (n : Node api) : list negativeInventoryResource :=
  let r := nd_resources n in
  let result := appendNegativeResourcePair result "node" (nd_name n) "" "cpu" (n_cpu r) in
  let result := appendNegativeResourcePair result "node" (nd_name n) "" "memory" (n_memory r) in
  let result := appendNegativeResourcePair result "node" (nd_name n) "" "gpu" (n_gpu r) in
  let result := appendNegativeResourcePair result "node" (nd_name n) "" "ephemeral_storage" (n_ephemeral r) in
  let result := appendNegativeResourcePair result "node" (nd_name n) "" "volumes_attached" (n_volumes_attached r) in
  appendNegativeResourcePair result "node" (nd_name n) "" "volumes_mounted" (n_volumes_mounted r).

Definition negativeInventoryResources (cluster : Cluster api) : list negativeInventoryResource :=
  let result := foldl node_negatives [] (c_nodes cluster) in
  foldl (fun result s => appendNegativeResourcePair result "storage" "" (cs_class s) "storage" (cs_quantity s))
    result (c_storage cluster).

End Diagnostics.

(** ** Accounting for volumes *)

Section LedgerProofs.
Context {api : InventoryAPI} `{!QuantityAPI api} `{!QuantityLaws api} {C : Type} `{!Ledger api C}.

Definition volume_amount (class : string) (pv : PersistentVolume api) : Z :=
  if decide (pv_class pv = class) then from_option amount_of 0%Z (pv_capacity pv) else 0%Z.

(** Every class has allocated what the tracked volumes of it have, and every tracked
    volume has a capacity and a known class. *)
Record ledger_ok (scs : gmap string C) (pvs : gmap string (PersistentVolume api)) : Prop := {
  lo_sum : forall class c, scs !! class = Some c -> amount_of (class_allocated c) = total (volume_amount class) pvs;
  lo_known : forall name pv, pvs !! name = Some pv -> is_Some (pv_capacity pv) /\ is_Some (scs !! pv_class pv)
}.

Lemma ledger_empty : ledger_ok ∅ ∅.
Proof. split; intros x y Hx; by rewrite lookup_empty in Hx. Qed.

Lemma no_volumes class scs pvs : ledger_ok scs pvs -> scs !! class = None -> total (volume_amount class) pvs = 0%Z.
Proof.
  intros [_ Hk] Hn. unfold total.
  assert (Hz : forall p, p ∈ map_to_list pvs -> volume_amount class p.2 = 0%Z).
  { intros [n pv] Hp%elem_of_map_to_list. simpl. unfold volume_amount. rewrite decide_False; [done|].
    intros <-. destruct (Hk n pv Hp) as [_ [x Hx]]. congruence. }
  induction (map_to_list pvs) as [|p l IH]; [done|]. simpl. rewrite Hz by left. rewrite IH; [done|].
  intros q Hq. apply Hz. by right.
Qed.

(** A class may be added, or its description replaced, with what it had allocated. *)
Lemma ledger_class scs pvs class c :
  ledger_ok scs pvs ->
  amount_of (class_allocated c) = from_option (fun c0 => amount_of (class_allocated c0)) 0%Z (scs !! class) ->
  ledger_ok (<[class := c]> scs) pvs.
Proof.
  intros Hok Hc. pose proof Hok as [Hsum Hk]. split.
  - intros class' c' Hl. apply lookup_insert_Some in Hl as [[<- <-]|[_ Hl]]; [|by apply Hsum].
    rewrite Hc. destruct (scs !! class) as [c0|] eqn:E; simpl; [by apply Hsum|]. symmetry. by eapply no_volumes.
  - intros n pv Hn. destruct (Hk n pv Hn) as [Hcap [x Hx]]. split; [done|].
    destruct (decide (class = pv_class pv)) as [->|Hne]; [rewrite lookup_insert_eq; eauto|].
    rewrite lookup_insert_ne by done. eauto.
Qed.

(** A new volume is charged to its class. *)
Lemma ledger_credit scs pvs pv capacity :
  ledger_ok scs pvs -> pv_capacity pv = Some capacity -> is_Some (scs !! pv_class pv) -> pvs !! pv_name pv = None ->
  ledger_ok (alter (credit capacity) (pv_class pv) scs) (<[pv_name pv := pv]> pvs).
Proof.
  intros [Hsum Hk] Hcap Hsc Hnew. split.
  - intros class c Hl. rewrite total_insert by done. unfold volume_amount at 1. rewrite Hcap. simpl.
    destruct (decide (pv_class pv = class)) as [<-|Hne].
    + rewrite lookup_alter_eq in Hl. destruct Hsc as [c0 Hc0]. rewrite Hc0 in Hl. injection Hl as <-.
      unfold credit. rewrite class_allocated_set, amount_add, (Hsum _ _ Hc0). lia.
    + rewrite lookup_alter_ne in Hl by done. rewrite (Hsum _ _ Hl). lia.
  - intros n v Hn. assert (Hin : forall cl, is_Some (scs !! cl) -> is_Some (alter (credit capacity) (pv_class pv) scs !! cl)).
    { intros cl Hcl. by rewrite lookup_alter_is_Some. }
    apply lookup_insert_Some in Hn as [[_ <-]|[_ Hn]]; [rewrite Hcap; eauto|].
    destruct (Hk n v Hn). eauto.
Qed.

(** Seeing a volume, for the first time or again, keeps every class's allocation
    equal to what its tracked volumes have, whatever changed in the volume. *)
Lemma ledger_seen scs pvs key fetched pv :
  ledger_ok scs pvs -> (scs !! pv_class pv = None -> key = pv_class pv) -> amount_of (class_allocated fetched) = 0%Z ->
  ledger_ok (volume_seen key fetched pv (scs, pvs)).1 (volume_seen key fetched pv (scs, pvs)).2.
Proof.
  intros Hok Hkey Hz. unfold volume_seen. destruct (pv_capacity pv) as [capacity|] eqn:Hcap; [|done]. cbn [fst snd].
  destruct (scs !! pv_class pv) as [c|] eqn:Hc.
  - destruct (pvs !! pv_name pv) eqn:Hp; [done|]. apply ledger_credit; [done|done|by rewrite Hc|done].
  - rewrite (Hkey eq_refl). assert (Hok' : ledger_ok (<[pv_class pv := fetched]> scs) pvs).
    { apply ledger_class; [done|]. by rewrite Hc. }
    destruct (pvs !! pv_name pv) eqn:Hp; [done|].
    apply ledger_credit; [done|done|rewrite lookup_insert_eq; eauto|done].
Qed.

(** A volume that is deleted as it was when it was first seen gives back what it took. *)
Lemma ledger_gone scs pvs pv tracked :
  ledger_ok scs pvs -> pvs !! pv_name pv = Some tracked ->
  pv_class tracked = pv_class pv -> pv_capacity tracked = pv_capacity pv ->
  ledger_ok (volume_gone pv (scs, pvs)).1 (volume_gone pv (scs, pvs)).2.
Proof.
  intros [Hsum Hk] Ht Hcl Hcap. destruct (Hk _ _ Ht) as [[capacity Hc] Hsc]. rewrite Hcap in Hc.
  unfold volume_gone. rewrite Hc. cbn [fst snd]. split.
  - intros class c Hl. pose proof (total_delete (volume_amount class) pvs _ _ Ht) as Htot.
    unfold volume_amount in Htot at 2. rewrite Hcl, Hcap, Hc in Htot. simpl in Htot.
    destruct (decide (pv_class pv = class)) as [<-|Hne].
    + rewrite lookup_alter_eq in Hl. destruct (scs !! pv_class pv) as [c0|] eqn:E; [|done]. injection Hl as <-.
      unfold subStorageAllocatedResource. rewrite class_allocated_set, amount_sub, (Hsum _ _ E). lia.
    + rewrite lookup_alter_ne in Hl by done. rewrite (Hsum _ _ Hl). lia.
  - intros n v Hn. apply lookup_delete_Some in Hn as [_ Hn]. destruct (Hk n v Hn) as [? ?]. split; [done|].
    by rewrite lookup_alter_is_Some.
Qed.

(** A volume that was resized after it was first seen takes off its new size. *)
Lemma resized_gone scs pvs pv tracked capacity capacity' c :
  ledger_ok scs pvs -> pvs !! pv_name pv = Some tracked -> pv_class tracked = pv_class pv ->
  pv_capacity tracked = Some capacity -> pv_capacity pv = Some capacity' ->
  (volume_gone pv (scs, pvs)).1 !! pv_class pv = Some c ->
  amount_of (class_allocated c) =
    (total (volume_amount (pv_class pv)) (delete (pv_name pv) pvs) + amount_of capacity - amount_of capacity')%Z.
Proof.
  intros [Hsum _] Ht Hcl Hcap Hcap'. unfold volume_gone. rewrite Hcap'. cbn [fst]. rewrite lookup_alter_eq.
  destruct (scs !! pv_class pv) as [c0|] eqn:E; [|done]. intros [= <-].
  unfold subStorageAllocatedResource. rewrite class_allocated_set, amount_sub, (Hsum _ _ E).
  rewrite (total_delete (volume_amount (pv_class pv)) pvs _ _ Ht). unfold volume_amount at 1.
  rewrite Hcl, decide_True by done. rewrite Hcap. simpl. lia.
Qed.

End LedgerProofs.

(** ** The ceph driver's runs *)

Section CephProofs.
Context {api : InventoryAPI} `{!QuantityAPI api} `{!QuantityLaws api} `{!GoRange}.

Inductive ceph_event :=
| CephClass (type : WatchType) (o : StorageClassObj)
| CephCluster (type : WatchType) (name namespace : string) (created : bool)
| CephVolume (type : WatchType) (pv : PersistentVolume api) (fetched : StorageClassObj)
| CephScraped (clusters : gmap string (list poolStats)).

Definition ceph_handle (c : ceph api) (e : ceph_event) : ceph api * option (@storageSignal api) :=
  match e with
  | CephClass type o => (ceph_class_event type o c, None)
  | CephCluster type name namespace created => (ceph_cluster_event type name namespace created c, None)
  | CephVolume type pv fetched => (ceph_volume_event type pv fetched c, None)
  | CephScraped clusters => ceph_scraped clusters c
  end.

(** What the accounting relies on: a class is not deleted while it has volumes, a
    fetched class is the one asked for, and a volume is deleted with the class and
    the capacity it was first seen with. *)
Definition ceph_fits (c : ceph api) (e : ceph_event) : Prop :=
  match e with
  | CephClass Deleted o => forall n pv, ce_pvs c !! n = Some pv -> pv_class pv <> so_name o
  | CephVolume Deleted pv _ =>
      exists tracked, ce_pvs c !! pv_name pv = Some tracked /\ pv_class tracked = pv_class pv /\
        pv_capacity tracked = pv_capacity pv
  | CephVolume _ pv fetched => ce_scs c !! pv_class pv = None -> so_name fetched = pv_class pv
  | _ => True
  end.

Inductive ceph_run : ceph api -> Prop :=
| ceph_start : ceph_run ceph_init
| ceph_turn c e : ceph_run c -> ceph_fits c e -> ceph_run (ceph_handle c e).1.

Lemma ceph_run_ok c : ceph_run c -> ledger_ok (ce_scs c) (ce_pvs c).
Proof.
  induction 1 as [|c e _ IH Hfit]; [apply ledger_empty|].
  destruct e as [type o|type name namespace created|type pv fetched|clusters]; cbn [ceph_handle fst].
  - assert (Hup : ledger_ok (<[so_name o := ceph_class o (from_option cc_allocated (q_new 0) (ce_scs c !! so_name o))]> (ce_scs c)) (ce_pvs c)).
    { apply ledger_class; [done|]. simpl. destruct (ce_scs c !! so_name o); simpl; [done|apply amount_zero]. }
    destruct type; [done|done|]. destruct IH as [Hsum Hk]. split.
    + intros class x Hx. cbn in Hx. apply lookup_delete_Some in Hx as [_ Hx]. by apply Hsum.
    + intros n pv Hn. destruct (Hk n pv Hn) as [Hc Hs]. split; [done|]. cbn.
      rewrite lookup_delete_ne; [done|]. intros E. by apply (Hfit n pv Hn).
  - done.
  - destruct type.
    1, 2: by apply ledger_seen; [done|done|apply amount_zero].
    destruct Hfit as (tracked & Ht & Hcl & Hcap). by apply ledger_gone with tracked.
  - done.
Qed.

(** Whenever the driver publishes a ceph class, what it reports as allocated is the
    sum of the volumes of that class it has seen and that have not been deleted. *)
Theorem ceph_allocations_exact c clusters sig x :
  ceph_run c -> (ceph_handle c (CephScraped clusters)).2 = Some sig -> x ∈ ss_storage sig ->
  exists q, rp_allocated (cs_quantity x) = Some q /\ amount_of q = total (volume_amount (cs_class x)) (ce_pvs c).
Proof.
  intros Hr Hs Hx. destruct (ceph_run_ok c Hr) as [Hsum _]. cbn [ceph_handle] in Hs. unfold ceph_scraped in Hs.
  cbn [snd] in Hs. case_bool_decide; [done|].
  assert (Hin : x ∈ omap (fun e => ceph_storage clusters e.1 e.2) (range_map (ce_scs c))).
  { destruct (omap _ _) as [|y l]; [done|]. by injection Hs as <-. }
  apply list_elem_of_omap in Hin as ([class params] & Hp%elem_of_range_map & Hst). simpl in Hst.
  unfold ceph_storage in Hst. repeat (case_match; [|done]). injection Hst as <-. simpl.
  exists (cc_allocated params). split; [done|]. by apply (Hsum class params).
Qed.

(** A ceph class that is deleted and created again while a volume of it exists has
    forgotten the volume; deleting the volume then makes its allocation negative. *)
Theorem recreated_class_goes_negative c o pv capacity fetched :
  ceph_run c -> ce_pvs c !! pv_name pv = Some pv -> pv_class pv = so_name o -> pv_capacity pv = Some capacity ->
  let c1 := (ceph_handle c (CephClass Deleted o)).1 in
  let c2 := (ceph_handle c1 (CephClass Added o)).1 in
  let c3 := (ceph_handle c2 (CephVolume Deleted pv fetched)).1 in
  exists params, ce_scs c3 !! so_name o = Some params /\ amount_of (cc_allocated params) = (- amount_of capacity)%Z.
Proof.
  intros _ _ Hcl Hcap. cbv zeta. cbn [ceph_handle fst]. unfold ceph_volume_event, volume_gone. rewrite Hcap, Hcl.
  cbn [ceph_class_event ceph_signal with_ledger ce_scs fst]. rewrite lookup_delete_eq, lookup_alter_eq, lookup_insert_eq.
  eexists. split; [done|]. simpl. rewrite amount_sub, amount_zero. lia.
Qed.

(** A volume that is enlarged between its creation and its deletion leaves its class
    short by the difference: the change is not counted when it happens, but it is
    taken off at the end. *)
Theorem resized_volume_undercounts c pv pv' capacity capacity' fetched fetched' params :
  ceph_run c -> ce_pvs c !! pv_name pv = Some pv -> pv_capacity pv = Some capacity ->
  pv_name pv' = pv_name pv -> pv_class pv' = pv_class pv -> pv_capacity pv' = Some capacity' ->
  let c1 := (ceph_handle c (CephVolume Modified pv' fetched)).1 in
  let c2 := (ceph_handle c1 (CephVolume Deleted pv' fetched')).1 in
  ce_scs c2 !! pv_class pv = Some params ->
  amount_of (cc_allocated params) =
    (total (volume_amount (pv_class pv)) (ce_pvs c2) + amount_of capacity - amount_of capacity')%Z.
Proof.
  intros Hr Hp Hcap Hn Hcl Hcap'. cbv zeta. cbn [ceph_handle fst].
  assert (Hsee : volume_seen (so_name fetched) (ceph_class fetched (q_new 0)) pv' (ce_scs c, ce_pvs c) = (ce_scs c, ce_pvs c)).
  { unfold volume_seen. rewrite Hcap', Hcl, Hn. cbn [fst snd].
    destruct (lo_known _ _ (ceph_run_ok c Hr) _ _ Hp) as [_ [x ->]]. by rewrite Hp. }
  unfold ceph_volume_event. rewrite Hsee. cbn [ceph_signal with_ledger ce_scs ce_pvs fst snd]. intros Hl.
  rewrite <- Hcl in Hl |- *.
  transitivity (total (volume_amount (pv_class pv')) (delete (pv_name pv') (ce_pvs c)) + amount_of capacity - amount_of capacity')%Z.
  - apply (resized_gone (ce_scs c) (ce_pvs c) pv' pv capacity capacity' params (ceph_run_ok c Hr)); try done. by rewrite Hn.
  - unfold volume_gone. by rewrite Hcap'.
Qed.

(** A request may be sent exactly when none is on its way, and then nothing is owed. *)
Definition scrape_ok (s : scrape) : Prop :=
  sp_open s = negb (sp_busy s) /\ (sp_open s = true -> sp_count s = 0%nat).

Lemma signal_ok s : scrape_ok s -> scrape_ok (signalScrape s) /\ sp_busy (signalScrape s) = true.
Proof.
  intros [Ho Hc]. unfold signalScrape, scrape_ok. destruct (sp_open s) eqn:E; destruct (sp_busy s) eqn:Eb; simpl in *;
    done.
Qed.

Lemma ceph_scrape_ok c : ceph_run c -> scrape_ok (ce_scrape c).
Proof.
  induction 1 as [|c e _ IH _]; [done|].
  destruct e as [type o|type name namespace created|type pv fetched|clusters]; cbn [ceph_handle fst].
  1, 2, 3: by apply signal_ok.
  unfold ceph_scraped. cbn [fst ce_scrape sp_count]. case_match eqn:E.
  - by unfold signalScrape, scrape_ok.
  - unfold scrape_ok. simpl. split; [done|]. intros _. apply Nat.ltb_ge in E. lia.
Qed.

(** No change goes unscraped: after every event of the ceph driver a request for the
    pools' capacity is on its way, and when an answer arrives after further events
    another request follows it. *)
Theorem scrape_follows_every_event c e :
  ceph_run c ->
  match e with
  | CephScraped clusters =>
      (0 < sp_count (ce_scrape c))%nat -> sp_busy (ce_scrape (ceph_handle c e).1) = true
  | _ => sp_busy (ce_scrape (ceph_handle c e).1) = true /\
         (sp_busy (ce_scrape c) = true -> (0 < sp_count (ce_scrape (ceph_handle c e).1))%nat)
  end.
Proof.
  intros Hr. pose proof (ceph_scrape_ok c Hr) as Hok. pose proof (signal_ok _ Hok) as [_ Hb].
  assert (Hcnt : sp_busy (ce_scrape c) = true -> (0 < sp_count (signalScrape (ce_scrape c)))%nat).
  { intros Hbusy. unfold signalScrape. rewrite Hbusy, andb_false_r. simpl. lia. }
  destruct e as [type o|type name namespace created|type pv fetched|clusters]; cbn [ceph_handle fst]; [done|done|done|].
  intros Hpos. unfold ceph_scraped. cbn [fst ce_scrape sp_count]. apply Nat.ltb_lt in Hpos. by rewrite Hpos.
Qed.

End CephProofs.

(** ** The rancher driver's runs *)

Section RancherProofs.
Context {api : InventoryAPI} `{!QuantityAPI api} `{!QuantityLaws api} `{!GoRange}.

Inductive rancher_event :=
| RancherClass (type : WatchType) (o : StorageClassObj) (classes_listed : nat) (watched : option (list (PersistentVolume api)))
| RancherNode (node : KNode api)
| RancherVolume (type : WatchType) (pv : PersistentVolume api) (fetched : StorageClassObj).

Definition rancher_handle (r : rancher api) (e : rancher_event) : option (rancher api) :=
  match e with
  | RancherClass type o n watched => rancher_class_event type o n watched r
  | RancherNode node => Some (rancher_node_event node r)
  | RancherVolume type pv fetched => Some (rancher_volume_event type pv fetched r)
  end.

(** Volumes are heard of once they are watched; the listing has distinct names. *)
Definition rancher_fits (r : rancher api) (e : rancher_event) : Prop :=
  match e with
  | RancherClass _ _ _ (Some pvs) => NoDup (pv_name <$> pvs)
  | RancherVolume Deleted pv _ =>
      ra_watching r = true /\
      exists tracked, ra_pvs r !! pv_name pv = Some tracked /\ pv_class tracked = pv_class pv /\
        pv_capacity tracked = pv_capacity pv
  | RancherVolume _ _ _ => ra_watching r = true
  | _ => True
  end.

Inductive rancher_run : rancher api -> Prop :=
| rancher_start : rancher_run rancher_init
| rancher_turn r e r' : rancher_run r -> rancher_fits r e -> rancher_handle r e = Some r' -> rancher_run r'.

Lemma list_volumes_ok pvs scs tracked :
  ledger_ok scs tracked -> NoDup (pv_name <$> pvs) -> (forall pv, pv ∈ pvs -> tracked !! pv_name pv = None) ->
  ledger_ok (foldl list_volume (scs, tracked) pvs).1 (foldl list_volume (scs, tracked) pvs).2.
Proof.
  revert scs tracked. induction pvs as [|pv pvs IH]; intros scs tracked Hok Hnd Hnew; cbn [foldl]; [done|].
  cbn [fmap list_fmap] in Hnd. apply list.NoDup_cons in Hnd as [Hn Hnd].
  unfold list_volume at 2 4. cbn [fst snd].
  assert (Hskip : ledger_ok (foldl list_volume (scs, tracked) pvs).1 (foldl list_volume (scs, tracked) pvs).2).
  { apply IH; [done|done|]. intros v Hv. apply Hnew. by right. }
  destruct (pv_capacity pv) as [capacity|] eqn:Hc; [|done]. destruct (scs !! pv_class pv) eqn:Hs; [|done].
  apply IH; [|done|].
  - apply ledger_credit; [done|done|by rewrite Hs|apply Hnew; left].
  - intros v Hv. rewrite lookup_insert_ne; [apply Hnew; by right|]. intros E. apply Hn. rewrite E.
    apply list_elem_of_fmap. eauto.
Qed.

Lemma rancher_run_ok r :
  rancher_run r -> ledger_ok (ra_scs r) (ra_pvs r) /\ (ra_watching r = false -> ra_pvs r = ∅).
Proof.
  induction 1 as [|r e r' _ [Hok Hw] Hfit E]; [split; [apply ledger_empty|done]|].
  destruct e as [type o n watched|node|type pv fetched]; cbn [rancher_handle] in E.
  - unfold rancher_class_event in E.
    assert (Hup : ledger_ok (<[so_name o := rancher_class o (from_option rc_allocated (q_new 0) (ra_scs r !! so_name o))]> (ra_scs r)) (ra_pvs r)).
    { apply ledger_class; [done|]. simpl. destruct (ra_scs r !! so_name o); simpl; [done|apply amount_zero]. }
    destruct type; [| |by injection E as <-].
    all: cbn [with_rancher_ledger ra_watching] in E; destruct (Nat.eqb _ _ && negb (ra_watching r)) eqn:Eb;
      [|by injection E as <-].
    all: destruct watched as [pvs|]; [|done]; injection E as <-; apply andb_true_iff in Eb as [_ Eb%negb_true_iff];
      split; [|done]; apply list_volumes_ok; [done|done|]; intros pv _; cbn; by rewrite (Hw Eb), lookup_empty.
  - injection E as <-. unfold rancher_node_event. by destruct (no_allocatable node !! _).
  - injection E as <-. unfold rancher_volume_event. destruct type; cbn [rancher_fits] in Hfit.
    1, 2: split; [by apply ledger_seen; [done|done|apply amount_zero]|cbn; congruence].
    destruct Hfit as (Hwa & tracked & Ht & Hcl & Hcap). split; [by apply ledger_gone with tracked|cbn; congruence].
Qed.

(** What the rancher driver keeps as allocated for a class is the sum of the volumes
    of that class it has listed or seen and that have not been deleted, and that is
    what it publishes, rounded up. *)
Theorem rancher_allocations_exact r sig x :
  rancher_run r -> (rancher_scrape r).2 = Some sig -> x ∈ ss_storage sig ->
  exists q, rp_allocated (cs_quantity x) = Some (q_new (q_value q)) /\
    amount_of q = total (volume_amount (cs_class x)) (ra_pvs r).
Proof.
  intros Hr Hs Hx. destruct (rancher_run_ok r Hr) as [[Hsum _] _]. unfold rancher_scrape in Hs. cbn [snd] in Hs.
  assert (Hin : x ∈ omap (fun e => rancher_storage (ra_allocatable r) e.1 e.2) (range_map (ra_scs r))).
  { destruct (omap _ _) as [|y l]; [done|]. by injection Hs as <-. }
  apply list_elem_of_omap in Hin as ([class params] & Hp%elem_of_range_map & Hst). simpl in Hst.
  unfold rancher_storage in Hst. case_match; [|done]. injection Hst as <-. simpl.
  exists (rc_allocated params). split; [done|]. by apply (Hsum class params).
Qed.

End RancherProofs.

(** ** The report of negative quantities *)

Section DiagnosticsProofs.
Context {api : InventoryAPI}.

(** A negative amount of interconnect devices is never reported: the report does not
    look at them. *)
Theorem negative_interconnect_unreported (before after : list (Node api)) (n : Node api) p storage :
  negativeInventoryResources (mkCluster (before ++ set_pair RInterconnect p n :: after) storage) =
  negativeInventoryResources (mkCluster (before ++ n :: after) storage).
Proof.
  unfold negativeInventoryResources. cbn [c_nodes c_storage]. f_equal. rewrite !foldl_app. done.
Qed.

End DiagnosticsProofs.

(** ** Examples *)

Module InvStorageExamples.

#[local] Existing Instance InvConfigExamples.cfg_range.
#[local] Existing Instance MonitorExamples.milli_quantity.
#[local] Existing Instance MonitorExamples.milli_quantity_laws.

Definition beta : StorageClassObj :=
  mkStorageClass "beta3" {[AkashManagedLabelName := "true"%string]} "rook-ceph.rbd.csi.ceph.com"
    (<["pool" := "akash"]> {["clusterID" := "rook"]})%string.

Definition volume (capacity : Z) : PersistentVolume milli_api := mkPV "pv-1" "beta3" (Some (capacity : @Quantity milli_api)).

Definition ceph1 : ceph milli_api := (ceph_handle ceph_init (CephClass Added beta)).1.
Definition ceph2 : ceph milli_api := (ceph_handle ceph1 (CephVolume Added (volume 10) no_storage_class)).1.

Lemma ceph2_run : ceph_run ceph2.
Proof. apply ceph_turn; [apply ceph_turn; [constructor|exact I]|]. intros Hn. discriminate Hn. Qed.

Definition pools : gmap string (list poolStats) := {["rook"%string := [mkPool "akash" 500]]}.

Definition offered : list (Types.ClusterStorage milli_api) :=
  from_option ss_storage [] (ceph_handle ceph2 (CephScraped pools)).2.

Lemma offered_ok : (ceph_handle ceph2 (CephScraped pools)).2 = Some (mkStorageSignal "ceph" offered).
Proof.
  assert (Hs : match (ceph_handle ceph2 (CephScraped pools)).2 with
               | Some s => String.eqb (ss_driver s) "ceph" | None => false end = true) by (vm_compute; reflexivity).
  unfold offered. revert Hs. generalize (ceph_handle ceph2 (CephScraped pools)).2.
  intros [[d l]|]; [|done]. cbn. intros ->%String.eqb_eq. done.
Qed.

Lemma ceph_allocations_exact_witness :
  List.length offered = 1%nat /\
  forall x, x ∈ offered ->
    exists q, rp_allocated (cs_quantity x) = Some q /\ amount_of q = total (volume_amount (cs_class x)) (ce_pvs ceph2).
Proof.
  split; [vm_compute; reflexivity|]. intros x Hx.
  apply (ceph_allocations_exact ceph2 pools (mkStorageSignal "ceph" offered) x ceph2_run offered_ok Hx).
Defined.

Lemma ceph2_tracks : ce_pvs ceph2 !! "pv-1"%string = Some (volume 10).
Proof. vm_compute. reflexivity. Qed.

Lemma recreated_class_goes_negative_witness :
  exists params, ce_scs (ceph_handle (ceph_handle (ceph_handle ceph2 (CephClass Deleted beta)).1 (CephClass Added beta)).1
                           (CephVolume Deleted (volume 10) no_storage_class)).1 !! "beta3"%string = Some params /\
    amount_of (cc_allocated params) = (-10)%Z.
Proof.
  destruct (recreated_class_goes_negative ceph2 beta (volume 10) (10%Z : @Quantity milli_api) no_storage_class ceph2_run
              ceph2_tracks eq_refl eq_refl) as (params & Hp & Ha).
  exists params. split; [exact Hp|exact Ha].
Defined.

Lemma resized_volume_undercounts_witness :
  forall params, ce_scs (ceph_handle (ceph_handle ceph2 (CephVolume Modified (volume 30) no_storage_class)).1
                           (CephVolume Deleted (volume 30) no_storage_class)).1 !! "beta3"%string = Some params ->
    amount_of (cc_allocated params) = (-20)%Z.
Proof.
  intros params Hp.
  rewrite (resized_volume_undercounts ceph2 (volume 10) (volume 30) (10%Z : @Quantity milli_api) (30%Z : @Quantity milli_api)
             no_storage_class no_storage_class params ceph2_run ceph2_tracks eq_refl eq_refl eq_refl eq_refl Hp).
  vm_compute. reflexivity.
Defined.

Lemma scrape_follows_every_event_witness :
  sp_busy (ce_scrape (ceph_handle ceph2 (CephScraped pools)).1) = true.
Proof.
  apply (scrape_follows_every_event ceph2 (CephScraped pools) ceph2_run). vm_compute. lia.
Defined.

Definition local_path : StorageClassObj :=
  mkStorageClass "beta1" {[AkashManagedLabelName := "true"%string]} "rancher.io/local-path" ∅.

Definition local_volume (capacity : Z) : PersistentVolume milli_api := mkPV "pv-2" "beta1" (Some (capacity : @Quantity milli_api)).

Definition rancher1 : option (rancher milli_api) :=
  rancher_handle rancher_init (RancherClass Added local_path 1 (Some [local_volume 7])).

Definition rancher1' : rancher milli_api := default rancher_init rancher1.

Lemma rancher1_run : rancher_run rancher1'.
Proof.
  assert (E : rancher1 = Some rancher1').
  { assert (Hb : match rancher1 with Some _ => true | None => false end = true) by (vm_compute; reflexivity).
    unfold rancher1'. revert Hb. generalize rancher1. by intros [r|]. }
  refine (rancher_turn _ _ _ rancher_start _ E). cbn. apply (bool_decide_unpack _). vm_compute. exact I.
Qed.

Definition rancher_offered : list (Types.ClusterStorage milli_api) :=
  from_option ss_storage [] (rancher_scrape rancher1').2.

Lemma rancher_offered_ok : (rancher_scrape rancher1').2 = Some (mkStorageSignal "rancher" rancher_offered).
Proof.
  assert (Hs : match (rancher_scrape rancher1').2 with
               | Some s => String.eqb (ss_driver s) "rancher" | None => false end = true) by (vm_compute; reflexivity).
  unfold rancher_offered. revert Hs. generalize (rancher_scrape rancher1').2.
  intros [[d l]|]; [|done]. cbn. intros ->%String.eqb_eq. done.
Qed.

Lemma rancher_allocations_exact_witness :
  List.length rancher_offered = 1%nat /\
  forall x, x ∈ rancher_offered ->
    exists q, rp_allocated (cs_quantity x) = Some (q_new (q_value q)) /\
      amount_of q = total (volume_amount (cs_class x)) (ra_pvs rancher1').
Proof.
  split; [vm_compute; reflexivity|]. intros x Hx.
  apply (rancher_allocations_exact rancher1' (mkStorageSignal "rancher" rancher_offered) x rancher1_run rancher_offered_ok Hx).
Defined.

End InvStorageExamples.
