(* ===== verification/ClusterService.v ===== *)
(** * The cluster service

    Model of [cluster/service.go]: the loop that keeps one deployment manager per
    lease, and the reconciliation, at startup, of the leases found in the cluster
    with those the chain knows. *)

From stdpp Require Import base gmap list strings tactics.
From Stdlib Require Import ZArith Lia.
From S2P Require Import Prelude Types.

(** ** The loop *)

(** The managers of the service, by lease; a deployment is known by a number. The
    signal to publish the status is a channel with room for one. *)
Record service := mkService {
  managers : gmap LeaseID Z;
  signal : bool
}.

Record checkDeploymentExistsRequest := mkExistsRequest {
  req_owner : string; req_dseq : Z; req_gseq : Z
}.

(** [SvManifest] carries the deployment made of the manifest group, [None] when
    there is no such group or no reservation for it. *)
Inductive sv_event :=
| SvManifest (lid : LeaseID) (deployment : option Z)
| SvLeaseClosed (lid : LeaseID)
| SvReclaimStarted (lid : LeaseID) (deadline : Z)
| SvStatus
| SvSignal (inventory : bool)
| SvInventory
| SvManagerDone (lid : LeaseID)
| SvCheckExists (req : checkDeploymentExistsRequest).

Inductive sv_effect :=
| SvAddFunds (lid : LeaseID) (isNew : bool)
| SvStartManager (lid : LeaseID) (deployment : Z)
| SvUpdate (lid : LeaseID) (deployment : Z)
| SvTeardown (lid : LeaseID)
| SvReclaim (lid : LeaseID) (deadline : Z)
| SvRemoveFunds (lid : LeaseID)
| SvUnreserve (o : OrderID)
| SvReport (leases : Z)
| SvExists (r : option LeaseID).

Definition trySignal (s : service) : service := mkService (managers s) true.

(** [newDeploymentManager] publishes the lease's funds monitor first. *)
Definition newDeploymentManager (lid : LeaseID) (d : Z) (isNew : bool) : list sv_effect :=
  [SvAddFunds lid isNew; SvStartManager lid d].

Definition teardownLease (owner : string) (lid : LeaseID) (s : service) : list sv_effect :=
  match managers s !! lid with
  | Some _ => [SvTeardown lid]
  | None => if String.eqb (l_provider lid) owner then [SvUnreserve (lease_order lid)] else []
  end.

Definition lease_count (s : service) : Z := wrap32 (Z.of_nat (size (managers s))).

Section Service.
Context {gr : GoRange} (owner : string).

Definition exists_match (req : checkDeploymentExistsRequest) (lid : LeaseID) : bool :=
  (l_gseq lid =? req_gseq req)%Z && (l_dseq lid =? req_dseq req)%Z &&
  String.eqb (l_owner lid) (req_owner req).

(** The first matching lease of the managers, in whatever order. *)
Definition doCheckDeploymentExists (req : checkDeploymentExistsRequest) (s : service)
    : option LeaseID :=
  (fun '(_, kv) => kv.1) <$> find_index (fun kv => exists_match req kv.1) (range_map (managers s)).

Definition sv_step (s : service) (ev : sv_event) : option (service * list sv_effect) :=
  match ev with
  | SvManifest lid None => Some (s, [])
  | SvManifest lid (Some d) =>
      match managers s !! lid with
      | Some _ => Some (s, [SvUpdate lid d])
      | None => Some (trySignal (mkService (<[lid := d]> (managers s)) (signal s)),
                      newDeploymentManager lid d true)
      end
  | SvLeaseClosed lid => Some (s, SvRemoveFunds lid :: teardownLease owner lid s)
  | SvReclaimStarted lid deadline =>
      match managers s !! lid with
      | Some _ => Some (s, [SvReclaim lid deadline])
      | None => Some (s, [])
      end
  | SvStatus => Some (s, [SvReport (lease_count s)])
  | SvSignal inventory =>
      if signal s
      then Some (mkService (managers s) false, if inventory then [SvReport (lease_count s)] else [])
      else None
  | SvInventory => Some (s, [SvReport (lease_count s)])
  | SvManagerDone lid =>
      match managers s !! lid with
      | None => None
      | Some _ => Some (trySignal (mkService (delete lid (managers s)) (signal s)),
                        [SvUnreserve (lease_order lid)])
      end
  | SvCheckExists req => Some (s, [SvExists (doCheckDeploymentExists req s)])
  end.

(** [startDeploymentManagers] resumes the deployments found in the cluster. *)
Definition startDeploymentManagers (deployments : list (LeaseID * Z)) : service * list sv_effect :=
  foldl (fun '(s, e) '(lid, d) =>
           (mkService (<[lid := d]> (managers s)) (signal s), e ++ newDeploymentManager lid d false))
    (mkService ∅ false, []) deployments.

Definition sv_init (deployments : list (LeaseID * Z)) : service * list sv_effect :=
  let '(s, e) := startDeploymentManagers deployments in (trySignal s, e).

Inductive sv_loop (deployments : list (LeaseID * Z))
    : list sv_event -> service -> list sv_effect -> Prop :=
| sv_start : sv_loop deployments [] (sv_init deployments).1 (sv_init deployments).2
| sv_more evs s effs ev s' e :
    sv_loop deployments evs s effs -> sv_step s ev = Some (s', e) ->
    sv_loop deployments (evs ++ [ev]) s' (effs ++ e).

End Service.

(** ** Reconciliation *)

(** One page of active leases and the key of the next, empty for the last. *)
Abbreviation page := (list LeaseID * string)%type.

Inductive ReconcileErr := RLeaseIDs | RQuery | RStalled | RDifferentID | RPublish | RRemove.

(** [activeLeases]: [query] answers for a page key, [None] for an error. [None]
    when the fuel, which stands for the timeout of the pass, runs out. *)
Fixpoint activeLeases (query : string -> option page) (fuel : nat) (key : string)
    (active : gset LeaseID) : option (result ReconcileErr (gset LeaseID)) :=
  match fuel with
  | O => None
  | S fuel' =>
      match query key with
      | None => Some (Err RQuery)
      | Some (ls, next) =>
          let active := foldl (fun a lid => {[ lid ]} ∪ a) active ls in
          if String.eqb next "" then Some (Ok active)
          else if String.eqb next key then Some (Err RStalled)
          else activeLeases query fuel' next active
      end
  end.

Inductive lease_answer :=
| LNotFound
| LFailed
| LFound (id : LeaseID) (closed : bool).

(** [closedLease]: whether the chain confirms the lease closed. *)
Definition closedLease (answer : lease_answer) (lid : LeaseID) : result ReconcileErr bool :=
  match answer with
  | LNotFound => Ok false
  | LFailed => Err RQuery
  | LFound id closed => if bool_decide (id = lid) then Ok closed else Err RDifferentID
  end.

Inductive rc_effect :=
| RcPublishClosed (lid : LeaseID)
| RcPurgeHostnames (lid : LeaseID)
| RcPurgeIPs (lid : LeaseID)
| RcReleaseHostnames (lid : LeaseID)
| RcTeardown (lid : LeaseID).

(** How the chain, the bus, the cluster and the hostname service answer. *)
Record rc_answers := mkRcAnswers {
  ra_lease : LeaseID -> lease_answer;
  ra_publish : LeaseID -> bool;
  ra_purge_hostnames : LeaseID -> bool;
  ra_purge_ips : LeaseID -> bool;
  ra_release : LeaseID -> bool;
  ra_teardown : LeaseID -> bool
}.

Definition removeUnmanagedLease (an : rc_answers) (lid : LeaseID) (lastOfGroup : bool)
    : list rc_effect * bool :=
  let purges := [RcPurgeHostnames lid; RcPurgeIPs lid] in
  if ra_purge_hostnames an lid && ra_purge_ips an lid then
    (purges ++ (if lastOfGroup then [RcReleaseHostnames lid] else []) ++ [RcTeardown lid],
     (negb lastOfGroup || ra_release an lid) && ra_teardown an lid)
  else (purges, false).

Definition group_id (lid : LeaseID) : string * Z * Z := (l_owner lid, l_dseq lid, l_gseq lid).

(** How many leases of the group are in the cluster or active on the chain. *)
Definition groupLeases (active : gset LeaseID) (own : list LeaseID) (g : string * Z * Z) : nat :=
  length (filter (fun lid => group_id lid = g) (elements active)) +
  length (filter (fun lid => group_id lid = g /\ lid ∉ active) own).

(** One lease of the cluster; [count] is the map of [groupLeases]. *)
Definition reconcile_lease (an : rc_answers) (managed : gset LeaseID) (active : gset LeaseID)
    (count : string * Z * Z -> nat) (lid : LeaseID) : list rc_effect * bool :=
  if decide (lid ∈ active) then ([], true)
  else match closedLease (ra_lease an lid) lid with
  | Err _ => ([], false)
  | Ok false => ([], true)
  | Ok true =>
      if decide (lid ∈ managed) then ([RcPublishClosed lid], ra_publish an lid)
      else removeUnmanagedLease an lid (Nat.eqb (count (group_id lid)) 1)
  end.

Definition reconcile_own (an : rc_answers) (managed active : gset LeaseID)
    (count : string * Z * Z -> nat) (own : list LeaseID) : list rc_effect * bool :=
  foldl (fun '(e, ok) lid =>
           let '(e', ok') := reconcile_lease an managed active count lid in (e ++ e', ok && ok'))
    ([], true) own.

(** [reconcileLeasesOnce]: what it does and whether the pass completes; [lids] are
    the leases in the cluster, [None] for an error. *)
Definition reconcileLeasesOnce (owner : string) (query : string -> option page) (fuel : nat)
    (an : rc_answers) (managed : gset LeaseID) (lids : option (list LeaseID))
    : option (list rc_effect * bool) :=
  match lids with
  | None => Some ([], false)
  | Some lids =>
      let own := filter (fun lid => String.eqb (l_provider lid) owner = true) lids in
      match own with
      | [] => Some ([], true)
      | _ =>
          match activeLeases query fuel "" ∅ with
          | None => None
          | Some (Err _) => Some ([], false)
          | Some (Ok active) =>
              Some (reconcile_own an managed active (groupLeases active own) own)
          end
      end
  end.

(** ** Facts about the loop *)

Definition starts (lid : LeaseID) : list sv_effect -> nat :=
  countb (fun e => match e with SvStartManager l _ => bool_decide (l = lid) | _ => false end).

Definition dones (lid : LeaseID) : list sv_event -> nat :=
  countb (fun ev => match ev with SvManagerDone l => bool_decide (l = lid) | _ => false end).

Definition alive (lid : LeaseID) (s : service) : nat :=
  match managers s !! lid with Some _ => 1 | None => 0 end.

Lemma alive_insert lid l d b (m : gmap LeaseID Z) :
  alive lid (mkService (<[l := d]> m) b) = if decide (l = lid) then 1%nat else alive lid (mkService m b).
Proof. unfold alive. simpl. case_decide; [subst; by rewrite lookup_insert_eq|by rewrite lookup_insert_ne]. Qed.

Lemma starts_new lid l d b :
  starts lid (newDeploymentManager l d b) = if decide (l = lid) then 1%nat else 0%nat.
Proof.
  unfold starts, newDeploymentManager, countb. simpl.
  case_bool_decide; [by rewrite decide_True|by rewrite decide_False].
Qed.

Lemma init_starts (deployments : list (LeaseID * Z)) lid :
  NoDup deployments.*1 ->
  starts lid (sv_init deployments).2 = alive lid (sv_init deployments).1 /\
  (is_Some (managers (sv_init deployments).1 !! lid) <-> lid ∈ deployments.*1).
Proof.
  intros Hn. assert (starts lid (startDeploymentManagers deployments).2 =
      alive lid (startDeploymentManagers deployments).1 /\
    (is_Some (managers (startDeploymentManagers deployments).1 !! lid) <-> lid ∈ deployments.*1)) as H;
    [|unfold sv_init; by destruct (startDeploymentManagers deployments)].
  induction deployments as [|[l d] rest IH] using rev_ind.
  { split; [done|]. simpl. rewrite lookup_empty, is_Some_alt. set_solver. }
  rewrite fmap_app, list.NoDup_app in Hn. destruct Hn as (Hn & Hd & _).
  specialize (IH Hn) as [IH1 IH2]. unfold startDeploymentManagers in *. rewrite foldl_app.
  set (se := foldl _ _ rest) in *. destruct se as [s e]. simpl in *. split.
  - unfold starts in *. rewrite countb_app, IH1. fold (starts lid (newDeploymentManager l d false)).
    rewrite starts_new, alive_insert. destruct (decide (l = lid)) as [->|]; [|by rewrite Nat.add_0_r].
    unfold alive. destruct (managers s !! lid) eqn:E; [|done]. exfalso.
    apply (Hd lid); [apply IH2; eauto|left].
  - rewrite lookup_insert_is_Some, fmap_app, elem_of_app, IH2. simpl. rewrite list_elem_of_singleton.
    destruct (decide (l = lid)); naive_solver.
Qed.

Lemma step_starts `{GoRange} owner s ev s' e lid :
  sv_step owner s ev = Some (s', e) ->
  (starts lid e + alive lid s = dones lid [ev] + alive lid s')%nat.
Proof.
  destruct ev as [l [d|]|l|l dl| |inv| |l|req]; simpl; try (by intros [= <- <-]).
  - destruct (managers s !! l) eqn:E; intros [= <- <-]; [done|].
    unfold trySignal. simpl. rewrite starts_new, alive_insert.
    case_decide as Hl; [subst|done]. unfold alive. by rewrite E.
  - intros [= <- <-]. unfold teardownLease. destruct (managers s !! l); [done|].
    by destruct (String.eqb _ _).
  - destruct (managers s !! l); by intros [= <- <-].
  - destruct (signal s); [|done]. intros [= <- <-]. by destruct inv.
  - destruct (managers s !! l) eqn:E; intros [= <- <-]. unfold dones, countb, alive. simpl.
    case_bool_decide as Hl; simpl; [subst; by rewrite lookup_delete_eq, E|by rewrite lookup_delete_ne].
Qed.

(** ** Facts about the reconciliation *)

Lemma reconcile_own_spec an managed active count own :
  (forall x, x ∈ (reconcile_own an managed active count own).1 <->
     exists lid, lid ∈ own /\ x ∈ (reconcile_lease an managed active count lid).1) /\
  ((reconcile_own an managed active count own).2 = true <->
     forall lid, lid ∈ own -> (reconcile_lease an managed active count lid).2 = true).
Proof.
  unfold reconcile_own. induction own as [|lid own [IH1 IH2]] using rev_ind.
  { simpl. split.
    - intros x. split; [no_elem|].
      intros (l & Hl & _). by apply not_elem_of_nil in Hl.
    - split; [|done]. no_elem. }
  rewrite foldl_app. simpl. set (acc := foldl _ _ own) in *. destruct acc as [e ok]. simpl in *.
  destruct (reconcile_lease an managed active count lid) as [e' ok'] eqn:Hr. simpl. split.
  - intros x. rewrite elem_of_app, IH1. setoid_rewrite elem_of_app. setoid_rewrite list_elem_of_singleton.
    split; [intros [(l & ? & ?)|?]; [eauto|exists lid; rewrite Hr; auto]|].
    intros (l & [?| ->] & ?); [left; eauto|right]. by rewrite Hr in *.
  - rewrite andb_true_iff, IH2. setoid_rewrite elem_of_app. setoid_rewrite list_elem_of_singleton.
    split; [intros [Ha Hb] l [?| ->]; [auto|by rewrite Hr]|].
    intros Ha. split; [auto|]. specialize (Ha lid (or_intror eq_refl)). by rewrite Hr in Ha.
Qed.

Definition rc_lease (x : rc_effect) : LeaseID :=
  match x with
  | RcPublishClosed l | RcPurgeHostnames l | RcPurgeIPs l | RcReleaseHostnames l | RcTeardown l => l
  end.

(** What is done for one lease, and when. *)
Lemma reconcile_lease_effect an managed active count lid x :
  x ∈ (reconcile_lease an managed active count lid).1 ->
  rc_lease x = lid /\ (lid ∉ active) /\ ra_lease an lid = LFound lid true /\
  (x = RcPublishClosed lid \/ (lid ∉ managed)) /\
  (x = RcReleaseHostnames lid -> count (group_id lid) = 1%nat).
Proof.
  unfold reconcile_lease. destruct (decide (lid ∈ active)) as [Ha|Ha];
    [no_elem|].
  unfold closedLease. destruct (ra_lease an lid) as [| |id closed] eqn:Hl;
    [no_elem..|].
  case_bool_decide as Hid; [|no_elem]. subst id.
  destruct closed; [|no_elem].
  destruct (decide (lid ∈ managed)) as [Hm|Hm]; simpl.
  { intros ->%list_elem_of_singleton. naive_solver. }
  unfold removeUnmanagedLease. intros Hx.
  assert (x = RcPurgeHostnames lid \/ x = RcPurgeIPs lid \/ x = RcTeardown lid \/
    (x = RcReleaseHostnames lid /\ count (group_id lid) = 1%nat)) as Hcase.
  { destruct (Nat.eqb_spec (count (group_id lid)) 1); destruct (_ && _); simpl in Hx;
      repeat (apply elem_of_cons in Hx as [?|Hx]; [by eauto 6|]); by apply not_elem_of_nil in Hx. }
  destruct Hcase as [->|[->|[->|[-> ?]]]]; naive_solver.
Qed.

Lemma reconcile_lease_done an managed active count lid :
  (reconcile_lease an managed active count lid).2 = true ->
  lid ∉ active -> ra_lease an lid = LFound lid true ->
  if decide (lid ∈ managed) then RcPublishClosed lid ∈ (reconcile_lease an managed active count lid).1
  else [RcPurgeHostnames lid; RcPurgeIPs lid] `prefix_of` (reconcile_lease an managed active count lid).1 /\
       list.last (reconcile_lease an managed active count lid).1 = Some (RcTeardown lid).
Proof.
  intros Hok Ha Hl. unfold reconcile_lease in *. rewrite (decide_False _ _ Ha) in *.
  rewrite Hl in *. simpl in *. rewrite bool_decide_true in * by done.
  destruct (decide (lid ∈ managed)); [left|]. unfold removeUnmanagedLease in *.
  destruct (_ && _); [|done]. simpl in *. split; [eexists; reflexivity|].
  by destruct (Nat.eqb _ 1).
Qed.

(** A lease is counted with every other lease of its group. *)
Lemma groupLeases_last active own lid l :
  lid ∈ own -> lid ∉ active -> groupLeases active own (group_id lid) = 1%nat ->
  group_id l = group_id lid -> l ∈ own \/ l ∈ active -> l = lid.
Proof.
  unfold groupLeases. intros Hin Ha Hc Hg Hl.
  set (A := filter _ (elements active)) in Hc. set (B := filter _ own) in Hc.
  assert (lid ∈ B) as HB by (by apply list_elem_of_filter).
  destruct B as [|b [|]] eqn:EB; [by apply not_elem_of_nil in HB| |simpl in Hc; lia].
  apply list_elem_of_singleton in HB as <-. destruct A as [|a A'] eqn:EA; [|simpl in Hc; lia].
  destruct (decide (l ∈ active)) as [Hla|Hla].
  - assert (l ∈ A) as HA by (apply list_elem_of_filter; split; [done|by apply elem_of_elements]).
    rewrite EA in HA. by apply not_elem_of_nil in HA.
  - assert (l ∈ B) as HB by (apply list_elem_of_filter; destruct Hl; by auto).
    rewrite EB in HB. by apply list_elem_of_singleton in HB.
Qed.

(** The chain serves these pages from this key on. *)
Fixpoint serves (query : string -> option page) (key : string) (pages : list (list LeaseID)) : Prop :=
  match pages with
  | [] => False
  | [p] => query key = Some (p, "")
  | p :: rest => exists next, query key = Some (p, next) /\ next <> "" /\ next <> key /\
                   serves query next rest
  end.

Lemma add_all_leases ls (a : gset LeaseID) :
  foldl (fun a lid => {[ lid ]} ∪ a) a ls = a ∪ list_to_set ls.
Proof.
  revert a. induction ls as [|l ls IH]; intros a; simpl; [set_solver|]. rewrite IH. set_solver.
Qed.

Lemma activeLeases_serves query pages key fuel acc :
  serves query key pages -> (length pages <= fuel)%nat ->
  activeLeases query fuel key acc = Some (Ok (acc ∪ list_to_set (concat pages))).
Proof.
  revert key fuel acc. induction pages as [|p rest IH]; intros key fuel acc Hs Hf; [done|].
  destruct fuel as [|fuel]; [simpl in Hf; lia|]. destruct rest as [|p2 rest].
  - simpl in Hs |- *. rewrite Hs. simpl. by rewrite add_all_leases, app_nil_r.
  - destruct Hs as (next & Hq & Hne & Hnk & Hs). cbn [activeLeases]. rewrite Hq.
    rewrite (proj2 (String.eqb_neq _ _) Hne), (proj2 (String.eqb_neq _ _) Hnk).
    rewrite (IH next fuel _ Hs) by (simpl in *; lia). rewrite add_all_leases.
    do 2 f_equal. change (concat (p :: p2 :: rest)) with (p ++ concat (p2 :: rest)).
    rewrite list_to_set_app_L. set_solver.
Qed.

Lemma reconcile_ok owner query fuel an managed lids r :
  reconcileLeasesOnce owner query fuel an managed (Some lids) = Some r -> r.2 = true \/ r.1 <> [] ->
  (forall lid, lid ∈ lids -> l_provider lid <> owner) /\ r = ([], true) \/
  exists active, activeLeases query fuel "" ∅ = Some (Ok active) /\
    let own := filter (fun lid => String.eqb (l_provider lid) owner = true) lids in
    r = reconcile_own an managed active (groupLeases active own) own.
Proof.
  unfold reconcileLeasesOnce. set (own := filter _ lids). cbn zeta. destruct own as [|l own'] eqn:E.
  - intros [= <-] _. left. split; [|done]. intros lid Hin Hp.
    assert (lid ∈ own) as Ho by (apply list_elem_of_filter; by rewrite String.eqb_eq).
    rewrite E in Ho. by apply not_elem_of_nil in Ho.
  - destruct (activeLeases query fuel "" ∅) as [[active|]|]; [|intros [= <-] [?|?]; done|done].
    intros [= <-] _. right. by exists active.
Qed.

(** ** Properties *)

(** The service keeps one deployment manager per lease: over any run, the
    managers started for a lease are those that have finished plus the one it
    has, if any; so one is started only for a lease that has none, and the number
    of leases reported is the number of managers. *)
Theorem one_manager_per_lease `{GoRange} (owner : string) (deployments : list (LeaseID * Z))
    (evs : list sv_event) (s : service) (effs : list sv_effect) (lid : LeaseID) :
  NoDup deployments.*1 -> sv_loop owner deployments evs s effs ->
  starts lid effs = (dones lid evs + alive lid s)%nat /\
  (forall ev s' e, sv_step owner s ev = Some (s', e) ->
     (starts lid e = 1%nat -> managers s !! lid = None) /\ (starts lid e <= 1)%nat /\
     (forall n, SvReport n ∈ e -> n = wrap32 (Z.of_nat (size (managers s))))).
Proof.
  intros Hn Hl. split.
  - induction Hl as [|evs s effs ev s' e Hl IH Hs].
    + destruct (init_starts deployments lid Hn) as [H1 _]. rewrite H1. done.
    + pose proof (step_starts owner s ev s' e lid Hs) as Hst. unfold starts, dones in *.
      rewrite !countb_app. lia.
  - intros ev s' e Hs. pose proof (step_starts owner s ev s' e lid Hs) as Hst.
    assert (dones lid [ev] <= 1)%nat by (unfold dones, countb; simpl; by case_match; simpl; lia).
    destruct ev as [l [d|]|l|l dl| |inv| |l|req]; simpl in Hs.
    all: unfold teardownLease, alive in *; go_cases.
    all: unfold starts, countb in *; simpl in *; split_and!; try done; try lia.
    all: intros n Hin; repeat (apply elem_of_cons in Hin as [[=]|Hin]); subst; try done;
      by apply not_elem_of_nil in Hin.
Qed.

(** The resources of an order are released only when its lease has no manager
    left: when the lease's manager is done, or when a lease of this provider that
    has none is closed. *)
Theorem unreserve_without_manager `{GoRange} (owner : string) (s s' : service) (ev : sv_event)
    (e : list sv_effect) (o : OrderID) :
  sv_step owner s ev = Some (s', e) -> SvUnreserve o ∈ e ->
  exists lid, lease_order lid = o /\ managers s' !! lid = None /\
    (ev = SvManagerDone lid \/ (ev = SvLeaseClosed lid /\ l_provider lid = owner)).
Proof.
  destruct ev as [l [d|]|l|l dl| |inv| |l|req]; simpl; intros Hs Hin; unfold teardownLease in *; go_cases; simplify_eq/=.
  all: repeat (apply elem_of_cons in Hin as [[=]|Hin]); subst; try (by apply not_elem_of_nil in Hin).
  - exists l. split_and!; [done|done|right]. split; [done|]. by apply String.eqb_eq.
  - exists l. simpl. rewrite lookup_delete_eq. auto.
Qed.

(** The query for a lease of a deployment group answers with a lease that has a
    manager and belongs to the group, and with none only when there is no such
    lease. *)
Theorem check_exists_sound `{GoRange} (req : checkDeploymentExistsRequest) (s : service) :
  match doCheckDeploymentExists req s with
  | Some lid => is_Some (managers s !! lid) /\ exists_match req lid = true
  | None => forall lid, is_Some (managers s !! lid) -> exists_match req lid = false
  end.
Proof.
  unfold doCheckDeploymentExists.
  destruct (find_index _ (range_map (managers s))) as [[i [lid d]]|] eqn:Hf; simpl.
  - apply find_index_Some in Hf as (Hi & Hm & _). split; [|done].
    apply list_elem_of_lookup_2, elem_of_range_map in Hi. eauto.
  - intros lid [d Hd]. rewrite find_index_None in Hf. apply (Hf (lid, d)). by apply elem_of_range_map.
Qed.

(** A pass of the reconciliation touches only leases of this provider that are
    in the cluster, that the chain did not list as active and that it confirmed
    closed one by one; a lease with a manager is only reported closed, and the
    hostnames of a group are released only with the last lease of the group in
    the cluster or active on the chain. *)
Theorem reconcile_spares_live (owner : string) (query : string -> option page) (fuel : nat)
    (an : rc_answers) (managed : gset LeaseID) (lids : list LeaseID) (effs : list rc_effect) (ok : bool)
    (x : rc_effect) :
  reconcileLeasesOnce owner query fuel an managed (Some lids) = Some (effs, ok) -> x ∈ effs ->
  let lid := rc_lease x in
  lid ∈ lids /\ l_provider lid = owner /\ ra_lease an lid = LFound lid true /\
  (x = RcPublishClosed lid \/ (lid ∉ managed)) /\
  exists active, activeLeases query fuel "" ∅ = Some (Ok active) /\ (lid ∉ active) /\
    (x = RcReleaseHostnames lid -> forall l, group_id l = group_id lid ->
       (l ∈ lids /\ l_provider l = owner) \/ l ∈ active -> l = lid).
Proof.
  intros Hr Hx. cbn zeta.
  assert (effs <> []) as Hne by (intros ->; by apply not_elem_of_nil in Hx).
  destruct (reconcile_ok _ _ _ _ _ _ _ Hr (or_intror Hne)) as [[_ Heq]|(active & Hact & Heq)];
    [by injection Heq as -> _|].
  cbn zeta in Heq. set (own := filter _ lids) in *.
  pose proof (reconcile_own_spec an managed active (groupLeases active own) own) as [Hspec _].
  rewrite <- Heq in Hspec. simpl in Hspec. apply Hspec in Hx as (lid & Hin & Hx).
  apply reconcile_lease_effect in Hx as (<- & Ha & Hl & Hm & Hc).
  assert (forall l, l ∈ own <-> l ∈ lids /\ l_provider l = owner) as Hown.
  { intros l. subst own. rewrite list_elem_of_filter, String.eqb_eq. naive_solver. }
  pose proof (proj1 (Hown _) Hin) as [? ?]. split_and!; try done. exists active. split_and!; try done.
  intros Hrel l Hg Hl'. eapply (groupLeases_last active own); eauto. by rewrite Hown.
Qed.

(** A pass that reports no error has dealt with every lease of this provider
    in the cluster that is closed: its manager was told, or its hostnames and IPs
    were purged and its namespace, last, torn down. *)
Theorem reconcile_complete (owner : string) (query : string -> option page) (fuel : nat)
    (an : rc_answers) (managed : gset LeaseID) (lids : list LeaseID) (effs : list rc_effect)
    (lid : LeaseID) :
  reconcileLeasesOnce owner query fuel an managed (Some lids) = Some (effs, true) ->
  lid ∈ lids -> l_provider lid = owner -> ra_lease an lid = LFound lid true ->
  exists active, activeLeases query fuel "" ∅ = Some (Ok active) /\
    (lid ∉ active ->
     if decide (lid ∈ managed) then RcPublishClosed lid ∈ effs
     else RcPurgeHostnames lid ∈ effs /\ RcPurgeIPs lid ∈ effs /\ RcTeardown lid ∈ effs).
Proof.
  intros Hr Hin Hp Hl.
  destruct (reconcile_ok _ _ _ _ _ _ _ Hr) as [[Hno _]|(active & Hact & Heq)]; [by left| |].
  { by destruct (Hno lid Hin). }
  exists active. split; [done|]. intros Ha. cbn zeta in Heq. set (own := filter _ lids) in *.
  pose proof (reconcile_own_spec an managed active (groupLeases active own) own) as [He Hok].
  rewrite <- Heq in He, Hok. simpl in *. assert (lid ∈ own) as Ho.
  { subst own. apply list_elem_of_filter. by rewrite String.eqb_eq. }
  pose proof (reconcile_lease_done an managed active (groupLeases active own) lid
    (proj1 Hok eq_refl lid Ho) Ha Hl) as Hd.
  destruct (decide (lid ∈ managed)); [apply He; eauto|].
  destruct Hd as [[rest Hpre] Hlast]. split_and!; apply He; exists lid; (split; [done|]).
  - rewrite Hpre. left.
  - rewrite Hpre. right. left.
  - by apply last_Some_elem_of.
Qed.

(** The active leases of the chain are read to the last page: a chain that
    serves them over any number of pages, with keys that move on, gives the pass
    all of them, and the reading ends as soon as the pages do. *)
Theorem active_leases_all_pages (query : string -> option page) (pages : list (list LeaseID))
    (fuel : nat) (lid : LeaseID) :
  serves query "" pages -> (length pages <= fuel)%nat ->
  exists active, activeLeases query fuel "" ∅ = Some (Ok active) /\
    (lid ∈ active <-> exists p, p ∈ pages /\ lid ∈ p).
Proof.
  intros Hs Hf. eexists. split; [by apply activeLeases_serves|].
  rewrite union_empty_l_L, elem_of_list_to_set, list_elem_of_In, in_concat.
  setoid_rewrite <- list_elem_of_In. done.
Qed.

(** ** Examples *)

Module ClusterExamples.

#[global] Instance ex_range : GoRange := sorted_range.
Definition ex_lease (n : Z) : LeaseID := mkLeaseID "akash1" n 1 1 "prov".

(** One lease resumed, another that comes and goes. *)
Definition ex_deployments : list (LeaseID * Z) := [(ex_lease 1, 10%Z)].
Definition ex_events : list sv_event :=
  [SvManifest (ex_lease 2) (Some 20%Z); SvLeaseClosed (ex_lease 2); SvManagerDone (ex_lease 2)].
Definition ex_state : service := mkService {[ ex_lease 1 := 10%Z ]} true.
Definition ex_effects : list sv_effect :=
  newDeploymentManager (ex_lease 1) 10 false ++ newDeploymentManager (ex_lease 2) 20 true ++
  [SvRemoveFunds (ex_lease 2); SvTeardown (ex_lease 2); SvUnreserve (lease_order (ex_lease 2))].

Lemma sv_ex_loop : sv_loop "prov" ex_deployments ex_events ex_state ex_effects.
Proof.
  pose proof (sv_start "prov" ex_deployments) as H.
  apply (sv_more _ _ _ _ _ (SvManifest (ex_lease 2) (Some 20%Z))) with (2 := eq_refl) in H.
  apply (sv_more _ _ _ _ _ (SvLeaseClosed (ex_lease 2))) with (2 := eq_refl) in H.
  apply (sv_more _ _ _ _ _ (SvManagerDone (ex_lease 2))) with (2 := eq_refl) in H.
  exact H.
Defined.

Lemma one_manager_per_lease_witness :
  starts (ex_lease 2) ex_effects = 1%nat /\ dones (ex_lease 2) ex_events = 1%nat /\
  managers ex_state !! ex_lease 2 = None.
Proof.
  destruct (one_manager_per_lease "prov" ex_deployments ex_events ex_state ex_effects (ex_lease 2)
    ltac:(apply NoDup_singleton) sv_ex_loop) as [H _].
  split_and!; [rewrite H; reflexivity|reflexivity|reflexivity].
Defined.

Lemma unreserve_without_manager_witness :
  exists lid, lease_order lid = lease_order (ex_lease 3) /\ managers ex_state !! lid = None.
Proof.
  destruct (unreserve_without_manager "prov" ex_state ex_state (SvLeaseClosed (ex_lease 3))
    [SvRemoveFunds (ex_lease 3); SvUnreserve (lease_order (ex_lease 3))] (lease_order (ex_lease 3))
    eq_refl ltac:(right; left)) as (lid & Ho & Hn & _). eauto.
Defined.

(** Two closed leases and an active one are left in the cluster; the active one is
    on the second page of the chain's answer and of the same group as the first. *)
Definition ex_same : LeaseID := mkLeaseID "akash1" 1 1 2 "prov".
Definition ex_query (key : string) : option page :=
  if String.eqb key "" then Some ([ex_lease 9], "k") else Some ([ex_same], "").
Definition ex_answers : rc_answers :=
  mkRcAnswers (fun l => LFound l true) (fun _ => true) (fun _ => true) (fun _ => true)
    (fun _ => true) (fun _ => true).
Definition ex_lids : list LeaseID := [ex_lease 1; ex_same; ex_lease 2].
Definition ex_pass : list rc_effect :=
  [RcPurgeHostnames (ex_lease 1); RcPurgeIPs (ex_lease 1); RcTeardown (ex_lease 1);
   RcPurgeHostnames (ex_lease 2); RcPurgeIPs (ex_lease 2); RcReleaseHostnames (ex_lease 2);
   RcTeardown (ex_lease 2)].

Lemma ex_reconcile :
  reconcileLeasesOnce "prov" ex_query 2 ex_answers ∅ (Some ex_lids) = Some (ex_pass, true).
Proof. vm_compute. reflexivity. Defined.

Lemma reconcile_spares_live_witness :
  ra_lease ex_answers (ex_lease 2) = LFound (ex_lease 2) true /\
  forall l, group_id l = group_id (ex_lease 2) -> l ∈ ex_lids /\ l_provider l = "prov" -> l = ex_lease 2.
Proof.
  destruct (reconcile_spares_live "prov" ex_query 2 ex_answers ∅ ex_lids ex_pass true
    (RcReleaseHostnames (ex_lease 2)) ex_reconcile) as (_ & _ & Hl & _ & active & _ & _ & H).
  - do 5 right. left.
  - split; [exact Hl|]. intros l Hg Hin. apply H; auto.
Defined.

Lemma reconcile_complete_witness :
  exists active, activeLeases ex_query 2 "" ∅ = Some (Ok active) /\
    (ex_lease 1 ∉ active -> RcTeardown (ex_lease 1) ∈ ex_pass).
Proof.
  destruct (reconcile_complete "prov" ex_query 2 ex_answers ∅ ex_lids ex_pass (ex_lease 1) ex_reconcile)
    as (active & Ha & H); [left|reflexivity|reflexivity|].
  exists active. split; [exact Ha|]. intros Hn. by apply H in Hn as (_ & _ & ?).
Defined.

Lemma active_leases_all_pages_witness :
  exists active, activeLeases ex_query 2 "" ∅ = Some (Ok active) /\ ex_same ∈ active.
Proof.
  destruct (active_leases_all_pages ex_query [[ex_lease 9]; [ex_same]] 2 ex_same) as (active & Ha & H).
  - exists "k". by split_and!.
  - simpl. lia.
  - exists active. split; [exact Ha|]. apply H. exists [ex_same]. split; [right; left|left].
Defined.

(** A node whose keys alternate is not noticed: the reading goes on until the
    timeout of the pass. *)
Definition ex_cycle (key : string) : option page :=
  Some ([], if String.eqb key "a" then "b" else "a").

Lemma ex_cycle_key fuel acc : activeLeases ex_cycle fuel "a" acc = None /\ activeLeases ex_cycle fuel "b" acc = None.
Proof. revert acc. induction fuel as [|n IH]; intros acc; [done|]. split; simpl; apply IH. Qed.

Example alternating_pages_never_end fuel : activeLeases ex_cycle fuel "" ∅ = None.
Proof. destruct fuel as [|n]; [done|]. simpl. apply ex_cycle_key. Qed.

End ClusterExamples.
