(* ===== verification/PConfig.v ===== *)
(** * The provider's own storage

    Model of [tools/pconfig]: the accounts the provider has seen with their public keys
    and certificates, and the page at which the bid engine resumes its catch-up. The
    package has two implementations of one interface, [memory/memory.go] and
    [bbolt/bbolt.go]. The second is a client of the bbolt database, which is a parameter
    here ([Buckets]) with the laws its documentation states ([BucketLaws]). The two are
    shown to give the same answers to every sequence of requests outside of the cases in
    which they are shown to differ. The bytes of a key the database gives are read after its
    transaction ([after_tx]); that they are still the same is a class of its own
    ([SlicesKept]), as bbolt does not promise it. *)

From Stdlib Require Import ZArith Lia Ascii.
From stdpp Require Import base gmap list strings pretty tactics.
From S2P Require Import Prelude.

(** ** Data *)

Inductive bucket_error :=
| ErrBucketExists | ErrBucketNotFound | ErrBucketNameRequired | ErrKeyRequired | ErrTooLarge | ErrIncompatibleValue
| ErrDatabaseNotOpen | ErrCommit.

(** The errors of [pconfig.go] and of [bbolt.go]; those of the libraries are passed on. *)
Inductive storage_error :=
| ErrInvalidArgs | ErrAccountNotExists | ErrAccountExists | ErrCertificateNotExists | ErrCertificateExists
| ErrUninitialized | ErrDBClosed | ErrCertificateNotFoundInPEM | ErrInvalidPubKeyType
| EBucket (e : bucket_error) | EParse.

(** [errors.Is(err, ErrNotExists)] and [errors.Is(err, ErrExists)]. *)
Definition is_not_exists (e : storage_error) : bool :=
  match e with ErrAccountNotExists | ErrCertificateNotExists => true | _ => false end.
Definition is_exists (e : storage_error) : bool :=
  match e with ErrAccountExists | ErrCertificateExists => true | _ => false end.

(** Keys, certificates and their encodings. [addr_string] is the text of an address,
    whose bytes are the argument; [secp256k1] makes a key of its bytes. *)
Class Crypto := {
  PubKey : Type; pk_bytes : PubKey -> string; secp256k1 : string -> PubKey;
  Certificate : Type; c_serial : Certificate -> Z; c_raw : Certificate -> string;
  ParseCertificate : string -> option Certificate;
  CertKey : Type; MarshalPKIX : CertKey -> option string; ParsePKIX : string -> option CertKey; is_ecdsa : CertKey -> bool;
  pem_encode : string -> string -> string; pem_decode : string -> option (string * string);
  addr_string : string -> string
}.

Class CryptoLaws `{Crypto} := {
  pem_round b : pem_decode (pem_encode "CERTIFICATE" b) = Some ("CERTIFICATE"%string, b);
  cert_round c : ParseCertificate (c_raw c) = Some c;
  pkix_round k b : MarshalPKIX k = Some b -> ParsePKIX b = Some k;
  addr_string_inj : Inj eq eq addr_string
}.

(** [Bytes] of a [big.Int]: the absolute value in base 256, most significant byte first. *)
Fixpoint be_bytes (fuel : nat) (n : N) (acc : string) : string :=
  match fuel with
  | O => acc
  | S fuel' => if decide (n = 0%N) then acc
               else be_bytes fuel' (n / 256) (String (ascii_of_N (n mod 256)) acc)
  end.

Definition big_Bytes (z : Z) : string :=
  let n := Z.to_N (Z.abs z) in be_bytes (N.to_nat (N.size n)) n "".

(** [String] of a [big.Int]. *)
Definition big_String (z : Z) : string := pretty z.

(** The interface [pconfig.Storage]; a nil argument is [None]. *)
Class Storage (S : Type) `{Crypto} := {
  st_AddAccount : S -> string -> option PubKey -> S * result storage_error unit;
  st_DelAccount : S -> string -> S * result storage_error unit;
  st_GetAccountPublicKey : S -> string -> result storage_error PubKey;
  st_AddAccountCertificate : S -> string -> option Certificate -> option CertKey -> S * result storage_error unit;
  st_DelAccountCertificate : S -> string -> option Z -> S * result storage_error unit;
  st_GetAccountCertificate : S -> string -> option Z -> result storage_error (Certificate * CertKey);
  st_GetAllCertificates : S -> result storage_error (list Certificate);
  st_SetOrdersNextKey : S -> string -> S * result storage_error unit;
  st_GetOrdersNextKey : S -> result storage_error string;
  st_Close : S -> S * result storage_error unit
}.

(** ** The storage in memory *)

Module Mem.
Section Mem.
Context `{Crypto} `{GoRange}.

Record account := mkAccount { a_pubkey : PubKey; a_certs : gmap string (Certificate * CertKey) }.
Record impl := mkImpl { closed : bool; accounts : gmap string account; nextkey : string }.

Definition with_accounts (i : impl) (m : gmap string account) : impl := mkImpl (closed i) m (nextkey i).

Definition NewMemory : impl := mkImpl false ∅ "".

Definition AddAccount (i : impl) (address : string) (pubkey : option PubKey) : impl * result storage_error unit :=
  match pubkey with
  | None => (i, Err ErrInvalidArgs)
  | Some pk =>
      if String.eqb address "" then (i, Err ErrInvalidArgs)
      else match accounts i !! addr_string address with
           | Some _ => (i, Err ErrAccountExists)
           | None => (with_accounts i (<[addr_string address := mkAccount pk ∅]> (accounts i)), Ok tt)
           end
  end.

Definition DelAccount (i : impl) (address : string) : impl * result storage_error unit :=
  if String.eqb address "" then (i, Err ErrInvalidArgs)
  else match accounts i !! addr_string address with
       | None => (i, Err ErrAccountNotExists)
       | Some _ => (with_accounts i (delete (addr_string address) (accounts i)), Ok tt)
       end.

Definition GetAllCertificates (i : impl) : result storage_error (list Certificate) :=
  Ok (kv ← range_map (accounts i); kc ← range_map (a_certs kv.2); [kc.2.1]).

Definition GetAccountPublicKey (i : impl) (address : string) : result storage_error PubKey :=
  if String.eqb address "" then Err ErrInvalidArgs
  else match accounts i !! addr_string address with
       | None => Err ErrAccountNotExists
       | Some acc => Ok (a_pubkey acc)
       end.

Definition GetAccountCertificate (i : impl) (address : string) (serial : option Z)
  : result storage_error (Certificate * CertKey) :=
  match serial with
  | None => Err ErrInvalidArgs
  | Some serial =>
      if String.eqb address "" then Err ErrInvalidArgs
      else match accounts i !! addr_string address with
           | None => Err ErrAccountNotExists
           | Some acc => match a_certs acc !! big_String serial with
                         | None => Err ErrCertificateNotExists
                         | Some ck => Ok ck
                         end
           end
  end.

Definition AddAccountCertificate (i : impl) (address : string) (cert : option Certificate) (pubkey : option CertKey)
  : impl * result storage_error unit :=
  match cert, pubkey with
  | Some c, Some k =>
      if String.eqb address "" then (i, Err ErrInvalidArgs)
      else match accounts i !! addr_string address with
           | None => (i, Err ErrAccountNotExists)
           | Some acc =>
               match a_certs acc !! big_String (c_serial c) with
               | Some _ => (i, Err ErrCertificateExists)
               | None =>
                   let acc' := mkAccount (a_pubkey acc) (<[big_String (c_serial c) := (c, k)]> (a_certs acc)) in
                   (with_accounts i (<[addr_string address := acc']> (accounts i)), Ok tt)
               end
           end
  | _, _ => (i, Err ErrInvalidArgs)
  end.

(** Deleting a certificate that is not there is no error. *)
Definition DelAccountCertificate (i : impl) (address : string) (serial : option Z) : impl * result storage_error unit :=
  match serial with
  | None => (i, Err ErrInvalidArgs)
  | Some serial =>
      if String.eqb address "" then (i, Err ErrInvalidArgs)
      else match accounts i !! addr_string address with
           | None => (i, Err ErrAccountNotExists)
           | Some acc =>
               let acc' := mkAccount (a_pubkey acc) (delete (big_String serial) (a_certs acc)) in
               (with_accounts i (<[addr_string address := acc']> (accounts i)), Ok tt)
           end
  end.

Definition Close (i : impl) : impl * result storage_error unit := (mkImpl true (accounts i) (nextkey i), Ok tt).

Definition SetOrdersNextKey (i : impl) (k : string) : impl * result storage_error unit :=
  (mkImpl (closed i) (accounts i) k, Ok tt).

Definition GetOrdersNextKey (i : impl) : result storage_error string := Ok (nextkey i).

#[global] Instance memory_Storage : Storage impl :=
  {| st_AddAccount := AddAccount; st_DelAccount := DelAccount; st_GetAccountPublicKey := GetAccountPublicKey;
     st_AddAccountCertificate := AddAccountCertificate; st_DelAccountCertificate := DelAccountCertificate;
     st_GetAccountCertificate := GetAccountCertificate; st_GetAllCertificates := GetAllCertificates;
     st_SetOrdersNextKey := SetOrdersNextKey; st_GetOrdersNextKey := GetOrdersNextKey; st_Close := Close |}.

End Mem.
Arguments impl {_}.
Arguments account {_}.
Arguments NewMemory {_}.
End Mem.

(** ** The storage in a bbolt database *)

(** A bbolt database is a tree of buckets; a bucket is named by its path from the root
    and holds keys and further buckets. *)
Class Buckets := {
  DB : Type;
  db_empty : DB;
  has_bucket : DB -> list string -> bool;
  create_bucket : DB -> list string -> string -> result bucket_error DB;
  delete_bucket : DB -> list string -> string -> result bucket_error DB;
  get_key : DB -> list string -> string -> option string;
  put_key : DB -> list string -> string -> string -> result bucket_error DB;
  sub_buckets : DB -> list string -> list string;
  (** What a slice of the file holds that is read once the transaction it was got in has ended. *)
  after_tx : DB -> string -> string
}.

(** Keys and names are not empty and at most [MaxKeySize] long, values at most [MaxValueSize]. *)
Definition name_ok (n : string) : Prop := n <> ""%string /\ (Z.of_nat (String.length n) <= 32768)%Z.
Definition value_ok (v : string) : Prop := (Z.of_nat (String.length v) <= 2 ^ 31 - 2)%Z.

Class BucketLaws `{Buckets} := {
  bl_empty p : has_bucket db_empty p = bool_decide (p = []);
  bl_empty_keys k : get_key db_empty [] k = None;
  bl_get_missing db p k : has_bucket db p = false -> get_key db p k = None;
  bl_create_exists db p n : has_bucket db (p ++ [n]) = true -> create_bucket db p n = Err ErrBucketExists;
  bl_create_exists_inv db p n : create_bucket db p n = Err ErrBucketExists -> has_bucket db (p ++ [n]) = true;
  bl_create_done db p n db' :
    has_bucket db p = true -> create_bucket db p n = Ok db' ->
    (forall q, has_bucket db' q = has_bucket db q || bool_decide (q = p ++ [n])) /\
    (forall q k, get_key db' q k = get_key db q k);
  bl_create_ok db p n :
    has_bucket db p = true -> has_bucket db (p ++ [n]) = false -> get_key db p n = None -> name_ok n ->
    exists db', create_bucket db p n = Ok db' /\
      (forall q, has_bucket db' q = has_bucket db q || bool_decide (q = p ++ [n])) /\
      (forall q k, get_key db' q k = get_key db q k);
  bl_create_unnamed db p : has_bucket db (p ++ [""%string]) = false -> create_bucket db p "" = Err ErrBucketNameRequired;
  bl_delete_ok db p n :
    has_bucket db (p ++ [n]) = true ->
    exists db', delete_bucket db p n = Ok db' /\
      (forall q, has_bucket db' q = has_bucket db q && negb (bool_decide (p ++ [n] `prefix_of` q))) /\
      (forall q k, get_key db' q k = if bool_decide (p ++ [n] `prefix_of` q) then None else get_key db q k);
  bl_delete_missing db p n :
    has_bucket db (p ++ [n]) = false -> get_key db p n = None -> delete_bucket db p n = Err ErrBucketNotFound;
  bl_put_ok db p k v :
    has_bucket db p = true -> has_bucket db (p ++ [k]) = false -> name_ok k -> value_ok v ->
    exists db', put_key db p k v = Ok db' /\
      (forall q, has_bucket db' q = has_bucket db q) /\
      (forall q j, get_key db' q j = if bool_decide (q = p /\ j = k) then Some v else get_key db q j);
  bl_put_done db p k v db' :
    has_bucket db p = true -> put_key db p k v = Ok db' ->
    (forall q, has_bucket db' q = has_bucket db q) /\
    (forall q j, get_key db' q j = if bool_decide (q = p /\ j = k) then Some v else get_key db q j);
  bl_sub db p n : has_bucket db p = true -> n ∈ sub_buckets db p <-> has_bucket db (p ++ [n]) = true;
  bl_sub_once db p : NoDup (sub_buckets db p)
}.

(** The memory of the file is the same after a transaction. bbolt promises it for the life of the
    transaction only: afterwards the page may be reused or unmapped. *)
Class SlicesKept `{Buckets} := slices_kept db v : after_tx db v = v.

Module Bolt.
Section Bolt.
Context `{Crypto} `{Buckets}.

Definition bucketAccounts : string := "accounts".
Definition bucketBidEngine : string := "bidengine".
Definition keyPubKey : string := "pubkey".
Definition bucketCertificates : string := "certificates".
Definition keyCertificate : string := "certificate".
Definition keyNextKey : string := "nextkey".
Definition PemBlkTypeCertificate : string := "CERTIFICATE".

Definition p_accounts : list string := [bucketAccounts].
Definition p_account (a : string) : list string := [bucketAccounts; a].
Definition p_certs (a : string) : list string := [bucketAccounts; a; bucketCertificates].
Definition p_cert (a s : string) : list string := [bucketAccounts; a; bucketCertificates; s].

(** [commits] are the outcomes of the commits to come, [true] once it is empty. *)
Record impl := mkImpl { db : DB; closed : bool; commits : list bool }.

(** [DB.Update]: what the function did is committed when it returns no error, and undone when
    it does. *)
Definition Update (b : impl) (f : DB -> result storage_error DB) : impl * result storage_error unit :=
  if closed b then (b, Err (EBucket ErrDatabaseNotOpen))
  else match f (db b) with
       | Err e => (b, Err e)
       | Ok d => match commits b with
                 | false :: io => (mkImpl (db b) (closed b) io, Err (EBucket ErrCommit))
                 | true :: io => (mkImpl d (closed b) io, Ok tt)
                 | [] => (mkImpl d (closed b) [], Ok tt)
                 end
       end.

Definition View {A} (b : impl) (f : DB -> result storage_error A) : result storage_error A :=
  if closed b then Err (EBucket ErrDatabaseNotOpen) else f (db b).

Definition lift {A} (r : result bucket_error A) : result storage_error A :=
  match r with Ok a => Ok a | Err e => Err (EBucket e) end.

Definition CreateBucketIfNotExists (d : DB) (p : list string) (n : string) : result bucket_error DB :=
  if has_bucket d (p ++ [n]) then Ok d else create_bucket d p n.

Local Open Scope go_scope.

Definition NewBBolt (file : DB) (io : list bool) : option impl :=
  let '(b, r) := Update (mkImpl file false io) (fun tx =>
    let? tx := lift (CreateBucketIfNotExists tx [] bucketAccounts) in
    lift (CreateBucketIfNotExists tx [] bucketBidEngine)) in
  match r with Ok _ => Some b | Err _ => None end.

Definition Close (b : impl) : impl * result storage_error unit :=
  if closed b then (b, Ok tt) else (mkImpl (db b) true (commits b), Ok tt).

(** [tx.Bucket(bucketAccounts)], which every operation on accounts starts with. *)
Definition with_bucket {A} (d : DB) (p : list string) (missing : storage_error) (k : result storage_error A)
  : result storage_error A := if has_bucket d p then k else Err missing.

Definition AddAccount (b : impl) (acc : string) (pubkey : option PubKey) : impl * result storage_error unit :=
  if closed b then (b, Err ErrDBClosed)
  else match pubkey with
  | None => (b, Err ErrInvalidArgs)
  | Some pk =>
      if String.eqb acc "" then (b, Err ErrInvalidArgs)
      else Update b (fun tx =>
        with_bucket tx p_accounts ErrUninitialized
          match create_bucket tx p_accounts acc with
          | Err ErrBucketExists => Err ErrAccountExists
          | Err e => Err (EBucket e)
          | Ok tx => lift (put_key tx (p_account acc) keyPubKey (pk_bytes pk))
          end)
  end.

(** The error looked for is that of creating a bucket, not that of deleting one. *)
Definition DelAccount (b : impl) (acc : string) : impl * result storage_error unit :=
  if String.eqb acc "" then (b, Err ErrInvalidArgs)
  else Update b (fun tx =>
    with_bucket tx p_accounts ErrUninitialized
      match delete_bucket tx p_accounts acc with
      | Err ErrBucketExists => Err ErrAccountNotExists
      | Err e => Err (EBucket e)
      | Ok tx => Ok tx
      end).

(** The bytes of a key that is missing are those of the nil slice. *)
Definition bytes_of (v : option string) : string := default ""%string v.

(** The key that is returned is made of the slice itself, so it is read after the transaction. *)
Definition GetAccountPublicKey (b : impl) (acc : string) : result storage_error PubKey :=
  if String.eqb acc "" then Err ErrInvalidArgs
  else View b (fun tx =>
    with_bucket tx p_accounts ErrUninitialized
      (with_bucket tx (p_account acc) ErrAccountNotExists
        (Ok (secp256k1 (bytes_of (after_tx tx <$> get_key tx (p_account acc) keyPubKey)))))).

Definition AddAccountCertificate (b : impl) (acc : string) (cert : option Certificate) (pubkey : option CertKey)
  : impl * result storage_error unit :=
  match cert, pubkey with
  | Some c, Some k =>
      if String.eqb acc "" then (b, Err ErrInvalidArgs)
      else Update b (fun tx =>
        with_bucket tx p_accounts ErrUninitialized
          (with_bucket tx (p_account acc) ErrAccountNotExists
            (let? tx := lift (CreateBucketIfNotExists tx (p_account acc) bucketCertificates) in
             match create_bucket tx (p_certs acc) (big_Bytes (c_serial c)) with
             | Err ErrBucketExists => Err ErrCertificateExists
             | Err e => Err (EBucket e)
             | Ok tx =>
                 let certBucket := p_cert acc (big_Bytes (c_serial c)) in
                 let certData := pem_encode PemBlkTypeCertificate (c_raw c) in
                 let? tx := lift (put_key tx certBucket keyCertificate certData) in
                 match MarshalPKIX k with
                 | None => Err EParse
                 | Some pk => lift (put_key tx certBucket keyPubKey pk)
                 end
             end)))
  | _, _ => (b, Err ErrInvalidArgs)
  end.

Definition DelAccountCertificate (b : impl) (acc : string) (serial : option Z) : impl * result storage_error unit :=
  match serial with
  | None => (b, Err ErrInvalidArgs)
  | Some serial =>
      if String.eqb acc "" then (b, Err ErrInvalidArgs)
      else Update b (fun tx =>
        with_bucket tx p_accounts ErrUninitialized
          (with_bucket tx (p_account acc) ErrAccountNotExists
            (with_bucket tx (p_certs acc) ErrCertificateNotExists
              match delete_bucket tx (p_certs acc) (big_Bytes serial) with
              | Err ErrBucketNotFound => Err ErrCertificateNotExists
              | Err e => Err (EBucket e)
              | Ok tx => Ok tx
              end)))
  end.

(** The certificate a bucket holds. *)
Definition read_certificate (tx : DB) (p : list string) : result storage_error Certificate :=
  match pem_decode (bytes_of (get_key tx p keyCertificate)) with
  | None => Err ErrCertificateNotFoundInPEM
  | Some (_, bytes) => match ParseCertificate bytes with None => Err EParse | Some c => Ok c end
  end.

Definition GetAccountCertificate (b : impl) (acc : string) (serial : option Z)
  : result storage_error (Certificate * CertKey) :=
  match serial with
  | None => Err ErrInvalidArgs
  | Some serial =>
      if String.eqb acc "" then Err ErrInvalidArgs
      else View b (fun tx =>
        with_bucket tx p_accounts ErrUninitialized
          (with_bucket tx (p_account acc) ErrAccountNotExists
            (with_bucket tx (p_certs acc) ErrCertificateNotExists
              (let certBucket := p_cert acc (big_Bytes serial) in
               with_bucket tx certBucket ErrCertificateNotExists
                 (let? cert := read_certificate tx certBucket in
                  match ParsePKIX (bytes_of (get_key tx certBucket keyPubKey)) with
                  | None => Err EParse
                  | Some pk => if is_ecdsa pk then Ok (cert, pk) else Err ErrInvalidPubKeyType
                  end)))))
  end.

(** [ForEachBucket] with its early return. *)
Fixpoint for_each {A} (f : A -> result storage_error (list Certificate)) (l : list A)
  : result storage_error (list Certificate) :=
  match l with
  | [] => Ok []
  | x :: l' => let? r := f x in let? rs := for_each f l' in Ok (r ++ rs)
  end.

Definition GetAllCertificates (b : impl) : result storage_error (list Certificate) :=
  View b (fun tx =>
    with_bucket tx p_accounts ErrUninitialized
      (for_each (fun a =>
         if has_bucket tx (p_certs a)
         then for_each (fun s => let? c := read_certificate tx (p_cert a s) in Ok [c]) (sub_buckets tx (p_certs a))
         else Ok []) (sub_buckets tx p_accounts))).

Definition SetOrdersNextKey (b : impl) (k : string) : impl * result storage_error unit :=
  if closed b then (b, Err ErrDBClosed)
  else Update b (fun tx =>
    with_bucket tx [bucketBidEngine] ErrUninitialized (lift (put_key tx [bucketBidEngine] keyNextKey k))).

Definition GetOrdersNextKey (b : impl) : result storage_error string :=
  View b (fun tx =>
    with_bucket tx [bucketBidEngine] ErrUninitialized (Ok (bytes_of (get_key tx [bucketBidEngine] keyNextKey)))).

#[global] Instance bbolt_Storage : Storage impl :=
  {| st_AddAccount := AddAccount; st_DelAccount := DelAccount; st_GetAccountPublicKey := GetAccountPublicKey;
     st_AddAccountCertificate := AddAccountCertificate; st_DelAccountCertificate := DelAccountCertificate;
     st_GetAccountCertificate := GetAccountCertificate; st_GetAllCertificates := GetAllCertificates;
     st_SetOrdersNextKey := SetOrdersNextKey; st_GetOrdersNextKey := GetOrdersNextKey; st_Close := Close |}.

End Bolt.
Arguments impl {_}.
End Bolt.

(** ** Requests and answers *)

Section Requests.
Context `{HC : Crypto}.

Inductive request :=
| RqAddAccount (a : string) (pk : option PubKey)
| RqDelAccount (a : string)
| RqGetAccountPublicKey (a : string)
| RqAddAccountCertificate (a : string) (c : option Certificate) (k : option CertKey)
| RqDelAccountCertificate (a : string) (serial : option Z)
| RqGetAccountCertificate (a : string) (serial : option Z)
| RqGetAllCertificates
| RqSetOrdersNextKey (k : string)
| RqGetOrdersNextKey.

Inductive answer :=
| AnsDone (r : result storage_error unit)
| AnsKey (r : result storage_error PubKey)
| AnsCert (r : result storage_error (Certificate * CertKey))
| AnsCerts (r : result storage_error (list Certificate))
| AnsBytes (r : result storage_error string).

Definition serve {S} `{!Storage S} (s : S) (rq : request) : S * answer :=
  match rq with
  | RqAddAccount a pk => let '(s, r) := st_AddAccount s a pk in (s, AnsDone r)
  | RqDelAccount a => let '(s, r) := st_DelAccount s a in (s, AnsDone r)
  | RqGetAccountPublicKey a => (s, AnsKey (st_GetAccountPublicKey s a))
  | RqAddAccountCertificate a c k => let '(s, r) := st_AddAccountCertificate s a c k in (s, AnsDone r)
  | RqDelAccountCertificate a n => let '(s, r) := st_DelAccountCertificate s a n in (s, AnsDone r)
  | RqGetAccountCertificate a n => (s, AnsCert (st_GetAccountCertificate s a n))
  | RqGetAllCertificates => (s, AnsCerts (st_GetAllCertificates s))
  | RqSetOrdersNextKey k => let '(s, r) := st_SetOrdersNextKey s k in (s, AnsDone r)
  | RqGetOrdersNextKey => (s, AnsBytes (st_GetOrdersNextKey s))
  end.


(** The certificates are the same, each as often, and come in any order; all other answers are the
    same. *)
Definition same_answer (x y : answer) : Prop :=
  match x, y with
  | AnsCerts (Ok l), AnsCerts (Ok k) => l ≡ₚ k
  | _, _ => x = y
  end.

(** What a request must be for the two storages to agree: keys of the kinds the database
    can give back, positive serial numbers, sizes the database accepts, and no deletion of
    what is not there. *)
Definition admissible (m : Mem.impl) (rq : request) : Prop :=
  match rq with
  | RqAddAccount a (Some pk) =>
      (a = ""%string \/ name_ok a) /\ secp256k1 (pk_bytes pk) = pk /\ value_ok (pk_bytes pk)
  | RqDelAccount a => a = ""%string \/ is_Some (Mem.accounts m !! addr_string a)
  | RqAddAccountCertificate a (Some c) (Some k) =>
      (0 < c_serial c)%Z /\ name_ok (big_Bytes (c_serial c)) /\
      value_ok (pem_encode Bolt.PemBlkTypeCertificate (c_raw c)) /\
      is_ecdsa k = true /\ exists b, MarshalPKIX k = Some b /\ value_ok b
  | RqDelAccountCertificate a (Some s) =>
      (0 < s)%Z /\ forall acc, Mem.accounts m !! addr_string a = Some acc -> is_Some (Mem.a_certs acc !! big_String s)
  | RqGetAccountCertificate a (Some s) => (0 < s)%Z
  | RqSetOrdersNextKey k => value_ok k
  | _ => True
  end.


End Requests.

(** ** Numbers in bytes *)

Fixpoint of_bytes (acc : N) (s : string) : N :=
  match s with
  | EmptyString => acc
  | String c s' => of_bytes (256 * acc + N_of_ascii c) s'
  end.

Lemma of_be_bytes f n acc : (n < 2 ^ N.of_nat f)%N -> of_bytes 0 (be_bytes f n acc) = of_bytes n acc.
Proof.
  revert n acc. induction f as [|f IH]; intros n acc Hn; cbn [be_bytes].
  - simpl in Hn. by replace n with 0%N by lia.
  - case_decide as Hz; [by subst n|]. rewrite IH.
    + cbn [of_bytes]. rewrite N_ascii_embedding by (apply N.mod_lt; lia). f_equal. symmetry. apply N.div_mod. lia.
    + apply N.Div0.div_lt_upper_bound. rewrite Nat2N.inj_succ, N.pow_succ_r' in Hn. lia.
Qed.

Lemma of_big_Bytes z : of_bytes 0 (big_Bytes z) = Z.to_N (Z.abs z).
Proof. unfold big_Bytes. rewrite of_be_bytes; [done|]. rewrite N2Nat.id. apply N.size_gt. Qed.

Lemma big_Bytes_inj x y : (0 < x)%Z -> (0 < y)%Z -> big_Bytes x = big_Bytes y -> x = y.
Proof. intros Hx Hy E. apply (f_equal (of_bytes 0)) in E. rewrite !of_big_Bytes in E. lia. Qed.

(** ** The two storages agree *)

Section Agreement.
Context `{HC : Crypto} `{HCL : !CryptoLaws} `{HB : Buckets} `{HBL : !BucketLaws} `{HK : !SlicesKept} `{HG : GoRange}.
Import Bolt.

Definition cert_rel (d : DB) (a : string) (s : Z) (o : option (Certificate * CertKey)) : Prop :=
  let p := p_cert a (big_Bytes s) in
  match o with
  | None => has_bucket d p = false
  | Some (c, k) =>
      has_bucket d p = true /\ get_key d p keyCertificate = Some (pem_encode PemBlkTypeCertificate (c_raw c)) /\
      is_ecdsa k = true /\ exists b, MarshalPKIX k = Some b /\ get_key d p keyPubKey = Some b
  end.

Definition account_rel (d : DB) (a : string) (o : option Mem.account) : Prop :=
  match o with
  | None => forall q, has_bucket d (p_account a ++ q) = false
  | Some acc =>
      (has_bucket d (p_account a) = true /\
       get_key d (p_account a) keyPubKey = Some (pk_bytes (Mem.a_pubkey acc)) /\
       secp256k1 (pk_bytes (Mem.a_pubkey acc)) = Mem.a_pubkey acc) /\
      (has_bucket d (p_certs a) = false -> forall n, has_bucket d (p_cert a n) = false) /\
      (forall s, (0 < s)%Z -> cert_rel d a s (Mem.a_certs acc !! big_String s)) /\
      (forall k ck, Mem.a_certs acc !! k = Some ck -> exists s, (0 < s)%Z /\ k = big_String s) /\
      (forall n, has_bucket d (p_cert a n) = true -> exists s, (0 < s)%Z /\ n = big_Bytes s)
  end.

(** Keys are only where keys are put, buckets only where buckets are made. *)
Record shape (d : DB) : Prop := {
  sh_accounts : has_bucket d p_accounts = true;
  sh_bidengine : has_bucket d [bucketBidEngine] = true;
  sh_keys0 n : get_key d p_accounts n = None;
  sh_keys1 a : get_key d (p_account a) bucketCertificates = None;
  sh_keys2 a n : get_key d (p_certs a) n = None;
  sh_sub1 a : has_bucket d (p_account a ++ [keyPubKey]) = false;
  sh_sub2 a n k : has_bucket d (p_cert a n ++ [k]) = false;
  sh_sub3 k : has_bucket d [bucketBidEngine; k] = false;
  sh_named : has_bucket d (p_account "") = false
}.

Definition agree (m : Mem.impl) (b : impl) : Prop :=
  (closed b = false /\ commits b = []) /\ shape (db b) /\
  (forall a, a <> ""%string -> account_rel (db b) a (Mem.accounts m !! addr_string a)) /\
  (forall k acc, Mem.accounts m !! k = Some acc -> exists a, a <> ""%string /\ k = addr_string a) /\
  bytes_of (get_key (db b) [bucketBidEngine] keyNextKey) = Mem.nextkey m.

Lemma account_rel_frame d d' a o :
  (forall q, has_bucket d' (p_account a ++ q) = has_bucket d (p_account a ++ q)) ->
  (forall q k, get_key d' (p_account a ++ q) k = get_key d (p_account a ++ q) k) ->
  account_rel d a o -> account_rel d' a o.
Proof.
  intros Hh Hg. pose proof (Hh []) as H0. pose proof (Hh [bucketCertificates]) as H1.
  pose proof (fun n => Hh [bucketCertificates; n]) as H2. pose proof (Hg [] keyPubKey) as G0.
  pose proof (fun n => Hg [bucketCertificates; n]) as G2. simpl in *.
  unfold account_rel, cert_rel, p_certs, p_cert, p_account in *. simpl in *.
  destruct o as [acc|]; [|by intros Hn q; rewrite (Hh q); apply Hn].
  rewrite H0, H1, G0. intros (? & Hc & Hs & Hk & Hn). split; [done|]. split_and!.
  - intros Hf n. rewrite H2. by apply Hc.
  - intros s Hlt. specialize (Hs s Hlt). destruct (Mem.a_certs acc !! _) as [[c k]|]; rewrite H2, ?G2; done.
  - done.
  - intros n. rewrite H2. apply Hn.
Qed.

Lemma Update_ok (b : impl) f d :
  closed b = false -> commits b = [] -> f (db b) = Ok d -> Update b f = (mkImpl d false [], Ok tt).
Proof. intros Hc Hi Hf. unfold Update. by rewrite Hc, Hf, Hi. Qed.

Lemma Update_err (b : impl) f e : closed b = false -> f (db b) = Err e -> Update b f = (b, Err e).
Proof. intros Hc Hf. unfold Update. by rewrite Hc, Hf. Qed.

Lemma View_open {A} (b : impl) (f : DB -> result storage_error A) : closed b = false -> View b f = f (db b).
Proof. intros Hc. unfold View. by rewrite Hc. Qed.

Ltac paths := unfold p_accounts, p_account, p_certs, p_cert in *; simpl in *.

(** Rewrites with the description of a changed database where the change is elsewhere. *)
Ltac elsewhere Hh Hg :=
  paths; intros; rewrite ?Hh, ?Hg;
  repeat (rewrite bool_decide_eq_false_2 by (intros ?; destruct_and?; simplify_eq/=));
  rewrite ?orb_false_r; simpl; eauto.

Lemma agree_add_account m b a pk d' :
  agree m b -> a <> ""%string -> Mem.accounts m !! addr_string a = None -> secp256k1 (pk_bytes pk) = pk ->
  (forall q, has_bucket d' q = has_bucket (db b) q || bool_decide (q = p_account a)) ->
  (forall q j, get_key d' q j = if bool_decide (q = p_account a /\ j = keyPubKey) then Some (pk_bytes pk)
                                else get_key (db b) q j) ->
  agree (Mem.with_accounts m (<[addr_string a := Mem.mkAccount pk ∅]> (Mem.accounts m))) (mkImpl d' false []).
Proof.
  intros (_ & Hs & Hr & Hk & Hn) Ha Hnone Hpk Hh Hg. pose proof (Hr a Ha) as Ho. rewrite Hnone in Ho. simpl in Ho.
  destruct Hs. split; [done|]. split; [|split; [|split]]; simpl.
  - constructor; elsewhere Hh Hg.
  - intros a' Ha'. destruct (decide (a' = a)) as [->|Hne].
    + rewrite lookup_insert_eq. simpl. split; [split_and!|split_and!]; simpl; try done.
      * rewrite Hh. by rewrite bool_decide_eq_true_2, orb_true_r.
      * rewrite Hg. by rewrite bool_decide_eq_true_2.
      * intros _ n. specialize (Ho [bucketCertificates; n]). elsewhere Hh Hg.
      * intros s Hlt. specialize (Ho [bucketCertificates; big_Bytes s]). unfold cert_rel. elsewhere Hh Hg.
      * intros n Hn'. specialize (Ho [bucketCertificates; n]).
        rewrite Hh, bool_decide_eq_false_2, orb_false_r in Hn' by (paths; congruence). paths. congruence.
    + rewrite lookup_insert_ne by (intros E; by apply addr_string_inj in E).
      eapply account_rel_frame, Hr, Ha'; elsewhere Hh Hg.
  - intros k acc. rewrite lookup_insert_Some. intros [[<- _]|[_ H']]; [by exists a|by eapply Hk].
  - rewrite <- Hn. f_equal. elsewhere Hh Hg.
Qed.

Lemma prefix_account a q : p_accounts ++ [a] `prefix_of` q <-> exists q', q = p_account a ++ q'.
Proof. done. Qed.

Lemma not_prefix (p q : list string) : (forall r, q <> p ++ r) -> bool_decide (p `prefix_of` q) = false.
Proof. intros Hn. apply bool_decide_eq_false_2. intros [r Hr]. by apply (Hn r). Qed.

Lemma agree_del_account m b a d' :
  agree m b -> a <> ""%string ->
  (forall q, has_bucket d' q = has_bucket (db b) q && negb (bool_decide (p_account a `prefix_of` q))) ->
  (forall q k, get_key d' q k = if bool_decide (p_account a `prefix_of` q) then None else get_key (db b) q k) ->
  agree (Mem.with_accounts m (delete (addr_string a) (Mem.accounts m))) (mkImpl d' false []).
Proof.
  intros (_ & Hs & Hr & Hk & Hn) Ha Hh Hg. destruct Hs.
  assert (forall q, (forall r, q <> p_account a ++ r) ->
            has_bucket d' q = has_bucket (db b) q /\ forall k, get_key d' q k = get_key (db b) q k) as Hout.
  { intros q Hq. rewrite Hh. setoid_rewrite Hg. rewrite not_prefix by done. by rewrite andb_true_r. }
  split; [done|]. split; [|split; [|split]]; simpl.
  - assert (forall q, has_bucket (db b) q = false -> has_bucket d' q = false) as Hf by (intros q E; by rewrite Hh, E).
    assert (forall q k, get_key (db b) q k = None -> get_key d' q k = None) as Hf2
      by (intros q k E; rewrite Hg, E; by case_match).
    constructor; intros; eauto; paths; (etrans; [apply Hout; intros r ?; discriminate|done]).
  - intros a' Ha'. destruct (decide (a' = a)) as [->|Hne].
    + rewrite lookup_delete_eq. simpl. intros q. rewrite Hh, bool_decide_eq_true_2 by (by exists q).
      by rewrite andb_false_r.
    + rewrite lookup_delete_ne by (intros E; by apply addr_string_inj in E).
      eapply account_rel_frame, Hr, Ha'; intros; apply Hout; paths; intros r [= ? ?]; congruence.
  - intros k acc. rewrite lookup_delete_Some. intros [_ H']. by eapply Hk.
  - rewrite <- Hn. f_equal. paths. apply Hout. intros r ?; discriminate.
Qed.

Lemma big_String_inj x y : big_String x = big_String y -> x = y.
Proof. unfold big_String. intros E. by apply pretty_Z_inj in E. Qed.

Lemma agree_add_cert m b a acc c k pk d' :
  agree m b -> a <> ""%string -> Mem.accounts m !! addr_string a = Some acc ->
  (0 < c_serial c)%Z -> is_ecdsa k = true -> MarshalPKIX k = Some pk ->
  let n := big_Bytes (c_serial c) in
  (forall q, has_bucket d' q = has_bucket (db b) q || bool_decide (q = p_certs a) || bool_decide (q = p_cert a n)) ->
  (forall q j, get_key d' q j =
     if bool_decide (q = p_cert a n /\ j = keyPubKey) then Some pk
     else if bool_decide (q = p_cert a n /\ j = keyCertificate) then Some (pem_encode PemBlkTypeCertificate (c_raw c))
     else get_key (db b) q j) ->
  agree (Mem.with_accounts m (<[addr_string a :=
           Mem.mkAccount (Mem.a_pubkey acc) (<[big_String (c_serial c) := (c, k)]> (Mem.a_certs acc))]> (Mem.accounts m)))
        (mkImpl d' false []).
Proof.
  intros (_ & Hs & Hr & Hk & Hn) Ha Hacc Hpos Hec Hpk n Hh Hg. pose proof (Hr a Ha) as Ho. rewrite Hacc in Ho.
  destruct Ho as (Hacct & Hcn & Hcr & Hks & Hns). destruct Hs.
  split; [done|]. split; [|split; [|split]]; simpl.
  - constructor; elsewhere Hh Hg.
  - intros a' Ha'. destruct (decide (a' = a)) as [->|Hne].
    2:{ rewrite lookup_insert_ne by (intros E; by apply addr_string_inj in E).
        eapply account_rel_frame, Hr, Ha'; elsewhere Hh Hg. }
    rewrite lookup_insert_eq. simpl. split; [|split_and!].
    + destruct Hacct as (H1 & H2 & H3). split_and!; [elsewhere Hh Hg..|done].
    + intros Hf n'. rewrite Hh in Hf. rewrite (bool_decide_eq_true_2 (p_certs a = p_certs a)) in Hf by done.
      by destruct (has_bucket (db b) (p_certs a)).
    + intros s Hlt. destruct (decide (s = c_serial c)) as [->|Hd].
      * rewrite lookup_insert_eq. unfold cert_rel. fold n. rewrite Hh, !Hg.
        rewrite (bool_decide_eq_true_2 (p_cert a n = p_cert a n)) by done.
        rewrite (bool_decide_eq_false_2 (p_cert a n = p_cert a n /\ keyCertificate = keyPubKey)) by (intros [_ [=]]).
        rewrite (bool_decide_eq_true_2 (_ /\ keyPubKey = _)), (bool_decide_eq_true_2 (_ /\ keyCertificate = keyCertificate))
          by done.
        rewrite orb_true_r. split_and!; eauto.
      * rewrite lookup_insert_ne by (intros E; by apply big_String_inj in E). specialize (Hcr s Hlt).
        assert (big_Bytes s <> n) as Hb by (intros E; apply Hd; by apply big_Bytes_inj).
        unfold cert_rel in *. destruct (Mem.a_certs acc !! big_String s) as [[c' k']|];
          rewrite Hh, ?Hg; rewrite !bool_decide_eq_false_2 by (paths; intros ?; destruct_and?; simplify_eq);
          by rewrite !orb_false_r.
    + intros k' ck. rewrite lookup_insert_Some. intros [[<- _]|[_ H']]; eauto.
    + intros n'. rewrite Hh. rewrite (bool_decide_eq_false_2 (p_cert a n' = p_certs a)) by (paths; congruence).
      rewrite orb_false_r. intros [H'|H']%orb_true_iff; [eauto|].
      apply bool_decide_eq_true_1 in H'. paths. simplify_eq. eauto.
  - intros k' acc'. rewrite lookup_insert_Some. intros [[<- _]|[_ H']]; [by exists a|by eapply Hk].
  - rewrite <- Hn. f_equal. elsewhere Hh Hg.
Qed.

Lemma agree_del_cert m b a acc s d' :
  agree m b -> a <> ""%string -> Mem.accounts m !! addr_string a = Some acc -> (0 < s)%Z ->
  let n := big_Bytes s in
  (forall q, has_bucket d' q = has_bucket (db b) q && negb (bool_decide (p_cert a n `prefix_of` q))) ->
  (forall q k, get_key d' q k = if bool_decide (p_cert a n `prefix_of` q) then None else get_key (db b) q k) ->
  agree (Mem.with_accounts m (<[addr_string a :=
           Mem.mkAccount (Mem.a_pubkey acc) (delete (big_String s) (Mem.a_certs acc))]> (Mem.accounts m)))
        (mkImpl d' false []).
Proof.
  intros (_ & Hs & Hr & Hk & Hn) Ha Hacc Hpos n Hh Hg. pose proof (Hr a Ha) as Ho. rewrite Hacc in Ho.
  destruct Ho as (Hacct & Hcn & Hcr & Hks & Hns). destruct Hs.
  assert (forall q, (forall r, q <> p_cert a n ++ r) ->
            has_bucket d' q = has_bucket (db b) q /\ forall k, get_key d' q k = get_key (db b) q k) as Hout.
  { intros q Hq. rewrite Hh. setoid_rewrite Hg. rewrite not_prefix by done. by rewrite andb_true_r. }
  assert (forall q, has_bucket (db b) q = false -> has_bucket d' q = false) as Hf by (intros q E; by rewrite Hh, E).
  assert (forall q k, get_key (db b) q k = None -> get_key d' q k = None) as Hf2
    by (intros q k E; rewrite Hg, E; by case_match).
  split; [done|]. split; [|split; [|split]]; simpl.
  - constructor; intros; eauto; paths; (etrans; [apply Hout; intros r ?; discriminate|done]).
  - intros a' Ha'. destruct (decide (a' = a)) as [->|Hne].
    2:{ rewrite lookup_insert_ne by (intros E; by apply addr_string_inj in E).
        eapply account_rel_frame, Hr, Ha'; intros; apply Hout; paths; intros r [= ? ?]; congruence. }
    rewrite lookup_insert_eq. simpl. destruct Hacct as (H1 & H2 & H3). split; [|split_and!].
    + destruct (Hout (p_account a)) as [E1 E2]; [intros r ?; discriminate|]. by rewrite E1, E2.
    + intros Hfc n'. destruct (Hout (p_certs a)) as [E1 _]; [intros r ?; discriminate|].
      apply Hf. apply Hcn. by rewrite <- E1.
    + intros s' Hlt. destruct (decide (s' = s)) as [->|Hd].
      * rewrite lookup_delete_eq. unfold cert_rel. fold n. rewrite Hh, bool_decide_eq_true_2 by done.
        by rewrite andb_false_r.
      * rewrite lookup_delete_ne by (intros E; by apply big_String_inj in E). specialize (Hcr s' Hlt).
        assert (big_Bytes s' <> n) as Hb by (intros E; apply Hd; by apply big_Bytes_inj).
        destruct (Hout (p_cert a (big_Bytes s'))) as [E1 E2]; [paths; intros r ?; simplify_eq|].
        unfold cert_rel in *. destruct (Mem.a_certs acc !! big_String s') as [[c' k']|]; rewrite E1, ?E2; done.
    + intros k' ck. rewrite lookup_delete_Some. intros [_ H']; eauto.
    + intros n' H'. apply Hns. rewrite Hh in H'. by apply andb_prop in H' as [? _].
  - intros k' acc'. rewrite lookup_insert_Some. intros [[<- _]|[_ H']]; [by exists a|by eapply Hk].
  - rewrite <- Hn. f_equal. paths. apply Hout. intros r ?; discriminate.
Qed.

Lemma keyPubKey_ok : name_ok keyPubKey. Proof. done. Qed.
Lemma keyCertificate_ok : name_ok keyCertificate. Proof. done. Qed.
Lemma keyNextKey_ok : name_ok keyNextKey. Proof. done. Qed.
Lemma bucketCertificates_ok : name_ok bucketCertificates. Proof. done. Qed.

(** What both storages do with one request, from states that agree. *)
Definition agree_on (m : Mem.impl) (b : impl) (rq : request) : Prop :=
  agree (serve m rq).1 (serve b rq).1 /\ same_answer (serve m rq).2 (serve b rq).2.

Lemma agree_on_AddAccount m b a pk : agree m b -> admissible m (RqAddAccount a pk) -> agree_on m b (RqAddAccount a pk).
Proof.
  intros Hag Had. pose proof Hag as ([Hc Hi] & Hs & Hr & _). unfold agree_on. simpl.
  unfold Mem.AddAccount, AddAccount. rewrite Hc. destruct pk as [pk|]; [|done]. destruct Had as (Hn & Hk & Hv).
  destruct (String.eqb_spec a "") as [->|Ha]; [done|]. destruct Hn as [?|Hn]; [done|].
  specialize (Hr a Ha). destruct (Mem.accounts m !! addr_string a) as [acc|] eqn:Hacc.
  - destruct Hr as ((H1 & _) & _). erewrite Update_err; [done|done|]. unfold with_bucket.
    by rewrite (sh_accounts _ Hs), bl_create_exists.
  - pose proof (Hr []) as H0. rewrite app_nil_r in H0.
    destruct (bl_create_ok (db b) p_accounts a (sh_accounts _ Hs) H0 (sh_keys0 _ Hs a) Hn) as (d1 & E1 & Hh1 & Hg1).
    destruct (bl_put_ok d1 (p_account a) keyPubKey (pk_bytes pk)) as (d2 & E2 & Hh2 & Hg2);
      [by rewrite Hh1, (bool_decide_eq_true_2 (p_account a = _)), orb_true_r| |done|done|].
    { rewrite Hh1, (sh_sub1 _ Hs). by apply bool_decide_eq_false_2. }
    erewrite Update_ok; [|done|done|unfold with_bucket; by rewrite (sh_accounts _ Hs), E1, E2].
    split; [|done]. simpl. eapply agree_add_account; [done|done|done|done|..].
    + intros q. by rewrite Hh2, Hh1.
    + intros q j. by rewrite Hg2, Hg1.
Qed.

Lemma agree_on_DelAccount m b a : agree m b -> admissible m (RqDelAccount a) -> agree_on m b (RqDelAccount a).
Proof.
  intros Hag Had. pose proof Hag as ([Hc Hi] & Hs & Hr & _). unfold agree_on. simpl.
  unfold Mem.DelAccount, DelAccount. destruct (String.eqb_spec a "") as [->|Ha]; [done|].
  destruct Had as [?|[acc Hacc]]; [done|]. specialize (Hr a Ha). rewrite Hacc in *. destruct Hr as ((H1 & _) & _).
  destruct (bl_delete_ok (db b) p_accounts a H1) as (d & E & Hh & Hg).
  erewrite Update_ok; [|done|done|unfold with_bucket; by rewrite (sh_accounts _ Hs), E].
  split; [|done]. by apply agree_del_account with (b := b).
Qed.

Lemma agree_on_GetAccountPublicKey m b a : agree m b -> agree_on m b (RqGetAccountPublicKey a).
Proof.
  intros Hag. pose proof Hag as ([Hc Hi] & Hs & Hr & _). split; [done|]. simpl.
  unfold Mem.GetAccountPublicKey, GetAccountPublicKey. destruct (String.eqb_spec a "") as [->|Ha]; [done|].
  rewrite View_open by done. unfold with_bucket. rewrite (sh_accounts _ Hs).
  specialize (Hr a Ha). destruct (Mem.accounts m !! addr_string a) as [acc|].
  - destruct Hr as ((H1 & H2 & H3) & _). rewrite H1, H2. simpl. by rewrite slices_kept, H3.
  - specialize (Hr []). rewrite app_nil_r in Hr. by rewrite Hr.
Qed.

Lemma create_certs (d : DB) a :
  shape d -> has_bucket d (p_account a) = true ->
  exists d1, CreateBucketIfNotExists d (p_account a) bucketCertificates = Ok d1 /\
    (forall q, has_bucket d1 q = has_bucket d q || bool_decide (q = p_certs a)) /\
    (forall q j, get_key d1 q j = get_key d q j).
Proof.
  intros Hs Ha. unfold CreateBucketIfNotExists. destruct (has_bucket d (p_account a ++ [bucketCertificates])) eqn:E.
  - exists d. split_and!; [done| |done]. intros q. case_bool_decide as Hq; [|by rewrite orb_false_r].
    subst q. by rewrite orb_true_r.
  - destruct (bl_create_ok d (p_account a) bucketCertificates Ha E (sh_keys1 _ Hs a) bucketCertificates_ok)
      as (d1 & E1 & Hh & Hg). eauto.
Qed.

Lemma put_certificate (d : DB) a n c pk :
  get_key d (p_certs a) n = None -> (forall k, has_bucket d (p_cert a n ++ [k]) = false) ->
  has_bucket d (p_certs a) = true -> has_bucket d (p_cert a n) = false -> name_ok n ->
  value_ok (pem_encode PemBlkTypeCertificate (c_raw c)) -> value_ok pk ->
  exists d1 d2 d3, create_bucket d (p_certs a) n = Ok d1 /\
    put_key d1 (p_cert a n) keyCertificate (pem_encode PemBlkTypeCertificate (c_raw c)) = Ok d2 /\
    put_key d2 (p_cert a n) keyPubKey pk = Ok d3 /\
    (forall q, has_bucket d3 q = has_bucket d q || bool_decide (q = p_cert a n)) /\
    (forall q j, get_key d3 q j =
       if bool_decide (q = p_cert a n /\ j = keyPubKey) then Some pk
       else if bool_decide (q = p_cert a n /\ j = keyCertificate) then Some (pem_encode PemBlkTypeCertificate (c_raw c))
       else get_key d q j).
Proof.
  intros Hkey Hsub Hc Hn Hok Hv Hv'.
  destruct (bl_create_ok d (p_certs a) n Hc Hn Hkey Hok) as (d1 & E1 & Hh1 & Hg1).
  assert (forall k, has_bucket d1 (p_cert a n ++ [k]) = false) as Hno.
  { intros k. rewrite Hh1, Hsub. by apply bool_decide_eq_false_2. }
  assert (has_bucket d1 (p_cert a n) = true) as Hy by by rewrite Hh1, (bool_decide_eq_true_2 (p_cert a n = _)), orb_true_r.
  destruct (bl_put_ok d1 (p_cert a n) keyCertificate _ Hy (Hno _) keyCertificate_ok Hv) as (d2 & E2 & Hh2 & Hg2).
  destruct (bl_put_ok d2 (p_cert a n) keyPubKey pk) as (d3 & E3 & Hh3 & Hg3); [by rewrite Hh2..|done|done|].
  exists d1, d2, d3. split_and!; [done..| |].
  - intros q. by rewrite Hh3, Hh2, Hh1.
  - intros q j. by rewrite Hg3, Hg2, Hg1.
Qed.

Lemma agree_on_AddAccountCertificate m b a c k :
  agree m b -> admissible m (RqAddAccountCertificate a c k) -> agree_on m b (RqAddAccountCertificate a c k).
Proof.
  intros Hag Had. pose proof Hag as ([Hc Hi] & Hs & Hr & _). unfold agree_on. simpl.
  unfold Mem.AddAccountCertificate, AddAccountCertificate. destruct c as [c|], k as [k|]; try done.
  destruct Had as (Hpos & Hn & Hv & Hec & pk & Hpk & Hv').
  destruct (String.eqb_spec a "") as [->|Ha]; [done|]. pose proof (Hr a Ha) as Hra.
  destruct (Mem.accounts m !! addr_string a) as [acc|] eqn:Hacc.
  2:{ specialize (Hra []). rewrite app_nil_r in Hra. erewrite Update_err; [done|done|].
      unfold with_bucket. by rewrite (sh_accounts _ Hs), Hra. }
  destruct Hra as ((H1 & _) & _ & Hcr & _). specialize (Hcr _ Hpos).
  destruct (create_certs (db b) a Hs H1) as (d1 & E1 & Hh1 & Hg1).
  destruct (Mem.a_certs acc !! big_String (c_serial c)) as [[c' k']|].
  - destruct Hcr as [Hy _]. erewrite Update_err; [done|done|]. unfold with_bucket.
    rewrite (sh_accounts _ Hs), H1, E1. simpl. rewrite bl_create_exists; [done|].
    rewrite Hh1. apply orb_true_iff. by left.
  - destruct (put_certificate d1 a (big_Bytes (c_serial c)) c pk) as (d2 & d3 & d4 & E2 & E3 & E4 & Hh & Hg); try done.
    + rewrite Hg1. apply Hs.
    + intros j. rewrite Hh1, (sh_sub2 _ Hs). by apply bool_decide_eq_false_2.
    + by rewrite Hh1, (bool_decide_eq_true_2 (p_certs a = _)), orb_true_r.
    + rewrite Hh1, Hcr. by apply bool_decide_eq_false_2.
    + erewrite Update_ok; [|done|done|].
      2:{ unfold with_bucket. rewrite (sh_accounts _ Hs), H1, E1. simpl. rewrite E2, E3. simpl. by rewrite Hpk, E4. }
      split; [|done]. simpl. eapply agree_add_cert; [done|done|done|done|done|done|..].
      * intros q. by rewrite Hh, Hh1.
      * intros q j. by rewrite Hg, Hg1.
Qed.

Lemma agree_on_DelAccountCertificate m b a s :
  agree m b -> admissible m (RqDelAccountCertificate a s) -> agree_on m b (RqDelAccountCertificate a s).
Proof.
  intros Hag Had. pose proof Hag as ([Hc Hi] & Hs & Hr & _). unfold agree_on. simpl.
  unfold Mem.DelAccountCertificate, DelAccountCertificate. destruct s as [s|]; [|done]. destruct Had as [Hpos Hex].
  destruct (String.eqb_spec a "") as [->|Ha]; [done|]. pose proof (Hr a Ha) as Hra.
  destruct (Mem.accounts m !! addr_string a) as [acc|] eqn:Hacc.
  2:{ specialize (Hra []). rewrite app_nil_r in Hra. erewrite Update_err; [done|done|].
      unfold with_bucket. by rewrite (sh_accounts _ Hs), Hra. }
  destruct Hra as ((H1 & _) & Hcn & Hcr & _). specialize (Hcr _ Hpos).
  destruct (Hex acc eq_refl) as [[c k] Hck]. rewrite Hck in Hcr. destruct Hcr as [Hy _].
  assert (has_bucket (db b) (p_certs a) = true) as Hcs.
  { destruct (has_bucket (db b) (p_certs a)) eqn:E; [done|]. by rewrite Hcn in Hy. }
  destruct (bl_delete_ok (db b) (p_certs a) (big_Bytes s) Hy) as (d & E & Hh & Hg).
  erewrite Update_ok; [|done|done|unfold with_bucket; by rewrite (sh_accounts _ Hs), H1, Hcs, E].
  split; [|done]. by apply agree_del_cert with (b := b).
Qed.

Lemma read_certificate_stored d a s c k :
  cert_rel d a s (Some (c, k)) -> read_certificate d (p_cert a (big_Bytes s)) = Ok c.
Proof. intros (_ & Hg & _). unfold read_certificate. rewrite Hg. simpl.
  unfold PemBlkTypeCertificate. by rewrite pem_round, cert_round. Qed.

Lemma agree_on_GetAccountCertificate m b a s :
  agree m b -> admissible m (RqGetAccountCertificate a s) -> agree_on m b (RqGetAccountCertificate a s).
Proof.
  intros Hag Hpos. pose proof Hag as ([Hc Hi] & Hs & Hr & _). split; [done|]. simpl.
  unfold Mem.GetAccountCertificate, GetAccountCertificate. destruct s as [s|]; [|done]. simpl in Hpos.
  destruct (String.eqb_spec a "") as [->|Ha]; [done|]. rewrite View_open by done. unfold with_bucket.
  rewrite (sh_accounts _ Hs). specialize (Hr a Ha). destruct (Mem.accounts m !! addr_string a) as [acc|].
  2:{ specialize (Hr []). rewrite app_nil_r in Hr. by rewrite Hr. }
  destruct Hr as ((H1 & _) & Hcn & Hcr & _). specialize (Hcr _ Hpos). rewrite H1.
  destruct (Mem.a_certs acc !! big_String s) as [[c k]|].
  - rewrite (read_certificate_stored _ _ _ _ _ Hcr). destruct Hcr as (Hy & _ & Hec & pk & Hpk & Hg).
    destruct (has_bucket (db b) (p_certs a)) eqn:E; [|by rewrite Hcn in Hy].
    rewrite Hy, Hg. simpl. by rewrite (pkix_round _ _ Hpk), Hec.
  - simpl in Hcr. rewrite Hcr. by destruct (has_bucket (db b) (p_certs a)).
Qed.

Lemma for_each_Ok {A} (f : A -> result storage_error (list Certificate)) l (g : A -> list Certificate) :
  (forall x, x ∈ l -> f x = Ok (g x)) -> for_each f l = Ok (l ≫= g).
Proof.
  induction l as [|x l IH]; intros Hf; cbn [for_each]; [done|].
  rewrite Hf by apply list_elem_of_here. simpl. rewrite IH; [done|]. intros y Hy. by apply Hf, list_elem_of_further.
Qed.

(** The certificates in the buckets of one account. *)
Definition stored_certs (d : DB) (a : string) : list Certificate :=
  if has_bucket d (p_certs a)
  then sub_buckets d (p_certs a) ≫= fun n => match read_certificate d (p_cert a n) with Ok c => [c] | Err _ => [] end
  else [].

Lemma stored_readable d a acc n :
  account_rel d a (Some acc) -> has_bucket d (p_cert a n) = true ->
  exists s c k, (0 < s)%Z /\ n = big_Bytes s /\ Mem.a_certs acc !! big_String s = Some (c, k) /\
    read_certificate d (p_cert a n) = Ok c.
Proof.
  intros (_ & _ & Hcr & _ & Hns) Hn. destruct (Hns n Hn) as (s & Hpos & ->). specialize (Hcr s Hpos).
  destruct (Mem.a_certs acc !! big_String s) as [[c' k']|] eqn:E; [|simpl in Hcr; congruence].
  exists s, c', k'. split_and!; [done..|]. by eapply read_certificate_stored.
Qed.

(** A loop over the entries of a map, and one over other names of them. *)
Lemma bind_renamed `{Countable K} {A B I} (m : gmap K A) (idx : list I) (key : I -> K) (f : I -> list B) (g : A -> list B) :
  NoDup idx -> (forall i j, i ∈ idx -> j ∈ idx -> key i = key j -> i = j) ->
  (forall i, i ∈ idx -> exists a, m !! key i = Some a /\ f i ≡ₚ g a) ->
  (forall k a, m !! k = Some a -> exists i, i ∈ idx /\ key i = k) ->
  (range_map m ≫= fun kv => g kv.2) ≡ₚ idx ≫= f.
Proof.
  intros Hnd Hinj Hf Hall. rewrite range_map_perm. revert m Hinj Hf Hall.
  induction Hnd as [|i idx Hi Hnd IH]; intros m Hinj Hf Hall.
  - assert (m = ∅) as -> by (apply map_empty; intros k; destruct (m !! k) as [a|] eqn:E; [|done];
      destruct (Hall _ _ E) as (i & Hin & _); by apply elem_of_nil in Hin). by rewrite map_to_list_empty.
  - destruct (Hf i) as (a & Ha & Hfa); [left|].
    rewrite <- (insert_delete_id m (key i) a Ha), map_to_list_insert by apply lookup_delete_eq.
    rewrite !bind_cons. apply Permutation_app; [done|]. apply IH.
    + intros x y Hx Hy. apply Hinj; by right.
    + intros x Hx. rewrite lookup_delete_ne; [apply Hf; by right|]. intros E. apply Hi.
      rewrite (Hinj i x); [done|left|by right|done].
    + intros k b Hk. apply lookup_delete_Some in Hk as [Hne Hk]. destruct (Hall k b Hk) as (x & Hx & Hxk).
      apply elem_of_cons in Hx as [->|Hx]; [congruence|]. by exists x.
Qed.

(** The serial number a bucket is named by. *)
Definition serial_key (n : string) : string := big_String (Z.of_N (of_bytes 0 n)).

Lemma serial_key_bytes s : (0 < s)%Z -> serial_key (big_Bytes s) = big_String s.
Proof. intros Hs. unfold serial_key. rewrite of_big_Bytes. f_equal. lia. Qed.

Lemma stored_certs_perm d a acc :
  account_rel d a (Some acc) -> (kc ← range_map (Mem.a_certs acc); [kc.2.1]) ≡ₚ stored_certs d a.
Proof.
  intros Hrel. pose proof Hrel as (_ & Hcn & Hcr & Hks & Hns). unfold stored_certs.
  destruct (has_bucket d (p_certs a)) eqn:Hc.
  2:{ assert (Mem.a_certs acc = ∅) as ->.
      { apply map_empty. intros k. destruct (Mem.a_certs acc !! k) as [[c' k']|] eqn:E; [|done].
        destruct (Hks _ _ E) as (s & Hpos & ->). specialize (Hcr s Hpos). rewrite E in Hcr. destruct Hcr as [Hy _].
        by rewrite Hcn in Hy. }
      by rewrite range_map_perm, map_to_list_empty. }
  apply (bind_renamed (Mem.a_certs acc) (sub_buckets d (p_certs a)) serial_key _ (fun ck => [ck.1])).
  - apply bl_sub_once.
  - intros i j Hi%bl_sub Hj%bl_sub E; [|done..]. destruct (Hns _ Hi) as (s & Hs & ->), (Hns _ Hj) as (s' & Hs' & ->).
    rewrite !serial_key_bytes in E by done. by apply big_String_inj in E as ->.
  - intros n Hn%bl_sub; [|done]. destruct (stored_readable _ _ _ _ Hrel Hn) as (s & c & k & Hpos & -> & E & Er).
    rewrite serial_key_bytes by done. exists (c, k). by rewrite Er.
  - intros k [c' k'] E. destruct (Hks _ _ E) as (s & Hpos & ->). specialize (Hcr s Hpos). rewrite E in Hcr.
    exists (big_Bytes s). split; [|by apply serial_key_bytes]. apply bl_sub; [done|]. by destruct Hcr.
Qed.

Lemma agree_on_GetAllCertificates m b : agree m b -> agree_on m b RqGetAllCertificates.
Proof.
  intros Hag. pose proof Hag as ([Hc Hi] & Hs & Hr & Hk & _). split; [done|].
  cbn -[Mem.GetAllCertificates GetAllCertificates]. unfold Mem.GetAllCertificates, GetAllCertificates.
  rewrite View_open by done. unfold with_bucket. rewrite (sh_accounts _ Hs).
  assert (forall a, a ∈ sub_buckets (db b) p_accounts <->
            a <> ""%string /\ is_Some (Mem.accounts m !! addr_string a)) as Hsub.
  { intros a. rewrite bl_sub by apply Hs. split.
    - intros Ha. assert (a <> ""%string) as Hne by (intros ->; pose proof (sh_named _ Hs) as E; paths; congruence).
      split; [done|]. specialize (Hr a Hne). destruct (Mem.accounts m !! addr_string a); [done|].
      specialize (Hr []). paths. congruence.
    - intros [Ha [acc E]]. specialize (Hr a Ha). rewrite E in Hr. apply Hr. }
  rewrite for_each_Ok with (g := stored_certs (db b)).
  - simpl. apply (bind_renamed (Mem.accounts m) _ addr_string (stored_certs (db b))
      (fun acc => kc ← range_map (Mem.a_certs acc); [kc.2.1])).
    + apply bl_sub_once.
    + intros x y _ _. apply addr_string_inj.
    + intros a [Ha [acc Hacc]]%Hsub. exists acc. split; [done|]. specialize (Hr a Ha). rewrite Hacc in Hr.
      symmetry. by apply stored_certs_perm.
    + intros k acc Hacc. destruct (Hk _ _ Hacc) as (a & Ha & ->). exists a. split; [|done]. apply Hsub. by eauto.
  - intros a [Ha [acc Hacc]]%Hsub. specialize (Hr a Ha). rewrite Hacc in Hr. unfold stored_certs.
    destruct (has_bucket (db b) (p_certs a)) eqn:Hcs; [|done]. apply for_each_Ok. intros n Hn%bl_sub; [|done].
    by destruct (stored_readable _ _ _ _ Hr Hn) as (_ & c & _ & _ & _ & _ & ->).
Qed.

Lemma agree_on_SetOrdersNextKey m b k :
  agree m b -> admissible m (RqSetOrdersNextKey k) -> agree_on m b (RqSetOrdersNextKey k).
Proof.
  intros Hag Hv. pose proof Hag as ([Hc Hi] & Hs & Hr & Hk & Hn). unfold agree_on. simpl. unfold SetOrdersNextKey.
  rewrite Hc. destruct (bl_put_ok (db b) [bucketBidEngine] keyNextKey k) as (d & E & Hh & Hg);
    [apply Hs|apply (sh_sub3 _ Hs)|done|done|].
  erewrite Update_ok; [|done|done|unfold with_bucket; by rewrite (sh_bidengine _ Hs), E].
  split; [|done]. destruct Hs. split; [done|]. split; [|split; [|split]]; simpl.
  - constructor; elsewhere Hh Hg.
  - intros a Ha. eapply account_rel_frame, Hr, Ha; elsewhere Hh Hg.
  - done.
  - rewrite Hg. by rewrite bool_decide_eq_true_2.
Qed.

Lemma serve_agree m b rq : agree m b -> admissible m rq -> agree_on m b rq.
Proof.
  intros Hag Had. destruct rq;
    eauto using agree_on_AddAccount, agree_on_DelAccount, agree_on_GetAccountPublicKey, agree_on_AddAccountCertificate,
      agree_on_DelAccountCertificate, agree_on_GetAccountCertificate, agree_on_GetAllCertificates,
      agree_on_SetOrdersNextKey.
  destruct Hag as ([Hc ?] & Hs & Hr & Hk & Hn). split; [done|]. simpl. unfold Mem.GetOrdersNextKey, GetOrdersNextKey.
  rewrite View_open by done. unfold with_bucket. by rewrite (sh_bidengine _ Hs), Hn.
Qed.


(** A new database is an empty storage. *)
Lemma NewBBolt_new :
  exists b, NewBBolt db_empty [] = Some b /\ agree Mem.NewMemory b.
Proof.
  unfold NewBBolt, CreateBucketIfNotExists.
  assert (forall p, p <> [] -> has_bucket db_empty p = false) as Hno.
  { intros p Hp. rewrite bl_empty. by apply bool_decide_eq_false_2. }
  assert (forall p k, get_key db_empty p k = None) as Hnone.
  { intros [|x p] k; [apply bl_empty_keys|]. by apply bl_get_missing, Hno. }
  destruct (bl_create_ok db_empty [] bucketAccounts) as (d1 & E1 & Hh1 & Hg1); try done; [by rewrite bl_empty|by apply Hno|].
  destruct (bl_create_ok d1 [] bucketBidEngine) as (d2 & E2 & Hh2 & Hg2); try done.
  { by rewrite Hh1, bl_empty. }
  { rewrite Hh1, Hno by done. by apply bool_decide_eq_false_2. }
  { by rewrite Hg1. }
  assert (forall q, has_bucket d2 q = bool_decide (q = []) || bool_decide (q = [bucketAccounts]) || bool_decide (q = [bucketBidEngine]))
    as Hh by (intros q; by rewrite Hh2, Hh1, bl_empty).
  assert (forall q k, get_key d2 q k = None) as Hg by (intros q k; by rewrite Hg2, Hg1).
  unfold Update. simpl. rewrite (Hno [bucketAccounts]), E1 by done. simpl. rewrite Hh1, (Hno [bucketBidEngine]) by done. simpl.
  rewrite E2. eexists. split; [done|]. split; [done|]. split; [|split; [|split]]; simpl.
  - constructor; intros; rewrite ?Hh, ?Hg; paths; try done;
      repeat (rewrite bool_decide_eq_false_2 by (intros ?; discriminate)); done.
  - intros a _. rewrite lookup_empty. intros q. rewrite Hh. paths.
    repeat (rewrite bool_decide_eq_false_2 by (intros ?; discriminate)). done.
  - intros k acc. by rewrite lookup_empty.
  - by rewrite Hg.
Qed.


(** The public key the database gives is made of the slice of the file, not of a copy: what it
    is depends on what the memory of the file holds when it is read. *)
Lemma escaped_key (b : impl) a v :
  closed b = false -> a <> ""%string -> has_bucket (db b) p_accounts = true -> has_bucket (db b) (p_account a) = true ->
  get_key (db b) (p_account a) keyPubKey = Some v ->
  GetAccountPublicKey b a = Ok (secp256k1 (after_tx (db b) v)).
Proof.
  intros Hc Ha H1 H2 Hg. unfold GetAccountPublicKey. destruct (String.eqb_spec a ""); [done|].
  rewrite View_open by done. unfold with_bucket. by rewrite H1, H2, Hg.
Qed.

(** The storages differ on the account that is not there: deleting it is
    [ErrAccountNotExists] in memory and the database's own error with bbolt, which no
    caller takes for [ErrNotExists]. *)
Theorem delete_unknown_account_differs m b a :
  agree m b -> a <> ""%string -> Mem.accounts m !! addr_string a = None ->
  (Mem.DelAccount m a).2 = Err ErrAccountNotExists /\
  exists e, (DelAccount b a).2 = Err e /\ is_not_exists e = false.
Proof.
  intros ([Hc Hi] & Hs & Hr & _) Ha Hno. unfold Mem.DelAccount, DelAccount.
  destruct (String.eqb_spec a ""); [done|]. rewrite Hno. split; [done|].
  specialize (Hr a Ha). rewrite Hno in Hr. specialize (Hr []). simpl in Hr.
  exists (EBucket ErrBucketNotFound). split; [|done]. erewrite Update_err; [done|done|]. unfold with_bucket.
  rewrite (sh_accounts _ Hs), bl_delete_missing; [done|done|apply Hs].
Qed.

(** The storages differ on the certificate that is not there: deleting it
    succeeds in memory and is [ErrCertificateNotExists] with bbolt. *)
Theorem delete_unknown_certificate_differs m b a acc s :
  agree m b -> a <> ""%string -> Mem.accounts m !! addr_string a = Some acc -> (0 < s)%Z ->
  Mem.a_certs acc !! big_String s = None ->
  (Mem.DelAccountCertificate m a (Some s)).2 = Ok tt /\
  (DelAccountCertificate b a (Some s)).2 = Err ErrCertificateNotExists.
Proof.
  intros ([Hc Hi] & Hs & Hr & _) Ha Hacc Hpos Hno. unfold Mem.DelAccountCertificate, DelAccountCertificate.
  destruct (String.eqb_spec a ""); [done|]. rewrite Hacc. split; [done|].
  specialize (Hr a Ha). rewrite Hacc in Hr. destruct Hr as ((H1 & _) & _ & Hcr & _). specialize (Hcr s Hpos).
  rewrite Hno in Hcr. erewrite Update_err; [done|done|]. unfold with_bucket. rewrite (sh_accounts _ Hs), H1.
  destruct (has_bucket (db b) (p_certs a)); [|done]. rewrite bl_delete_missing; [done|done|apply Hs].
Qed.

(** The database keys a certificate by the absolute value of its serial number:
    those of [s] and [-s] are one entry there and two in memory. *)
Theorem serial_sign_lost (s : Z) :
  big_Bytes (- s) = big_Bytes s /\ ((s <> 0)%Z -> big_String (- s) <> big_String s).
Proof.
  split; [unfold big_Bytes; by rewrite Z.abs_opp|]. intros Hs E. apply big_String_inj in E. lia.
Qed.

End Agreement.

(** ** A database and keys of its kind *)

Module PConfigExamples.

Record tree := mkTree { t_buckets : gset (list string); t_keys : gmap (list string * string) string }.

Definition t_has (d : tree) (p : list string) : bool := bool_decide (p = []) || bool_decide (p ∈ t_buckets d).
Definition t_get (d : tree) (p : list string) (k : string) : option string :=
  if t_has d p then t_keys d !! (p, k) else None.

Definition t_create (d : tree) (p : list string) (n : string) : result bucket_error tree :=
  if t_has d (p ++ [n]) then Err ErrBucketExists
  else if String.eqb n "" then Err ErrBucketNameRequired
  else if bool_decide (is_Some (t_get d p n)) then Err ErrIncompatibleValue
  else Ok (mkTree ({[p ++ [n]]} ∪ t_buckets d) (filter (fun kv => kv.1.1 <> p ++ [n]) (t_keys d))).

Definition t_delete (d : tree) (p : list string) (n : string) : result bucket_error tree :=
  if t_has d (p ++ [n])
  then Ok (mkTree (filter (fun q => ~ p ++ [n] `prefix_of` q) (t_buckets d))
                  (filter (fun kv => ~ p ++ [n] `prefix_of` kv.1.1) (t_keys d)))
  else Err ErrBucketNotFound.

Definition t_put (d : tree) (p : list string) (k v : string) : result bucket_error tree :=
  Ok (mkTree (t_buckets d) (<[(p, k) := v]> (t_keys d))).

Definition t_sub (d : tree) (p : list string) : list string :=
  omap (fun q => match reverse q with
                 | n :: r => if decide (reverse r = p) then Some n else None
                 | [] => None
                 end) (elements (t_buckets d)).

#[global] Instance tree_Buckets : Buckets :=
  {| DB := tree; db_empty := mkTree ∅ ∅; has_bucket := t_has; create_bucket := t_create; delete_bucket := t_delete;
     get_key := t_get; put_key := t_put; sub_buckets := t_sub; after_tx _ v := v |}.

#[global] Instance tree_kept : SlicesKept.
Proof. by intros db v. Qed.

Lemma t_has_snoc d p n : t_has d (p ++ [n]) = bool_decide (p ++ [n] ∈ t_buckets d).
Proof. unfold t_has. rewrite bool_decide_eq_false_2; [done|]. by destruct p. Qed.

Lemma t_create_done d p n d' :
  t_create d p n = Ok d' ->
    (forall q, t_has d' q = t_has d q || bool_decide (q = p ++ [n])) /\
    (forall q k, t_get d' q k = t_get d q k).
Proof.
  unfold t_create. destruct (t_has d (p ++ [n])) eqn:Hn; [done|]. destruct (String.eqb n ""); [done|].
  case_bool_decide; [done|]. intros [= <-].
  assert (forall q, t_has (mkTree ({[p ++ [n]]} ∪ t_buckets d) (filter (fun kv => kv.1.1 <> p ++ [n]) (t_keys d))) q =
                    t_has d q || bool_decide (q = p ++ [n])) as Hh.
  { intros q. unfold t_has. simpl. rewrite <- orb_assoc. f_equal. rewrite <- bool_decide_or.
    apply bool_decide_ext. set_solver. }
  split; [done|]. intros q k. unfold t_get. rewrite Hh. simpl.
  case_bool_decide as Hq.
  - subst q. rewrite Hn. simpl. apply map_lookup_filter_None_2. right. intros x _. simpl. by intros Hq.
  - rewrite orb_false_r. destruct (t_has d q); [|done].
    destruct (t_keys d !! (q, k)) as [v|] eqn:E;
      [by apply map_lookup_filter_Some_2|by apply map_lookup_filter_None_2; left].
Qed.

Lemma t_create_ok d p n :
  t_has d p = true -> t_has d (p ++ [n]) = false -> t_get d p n = None -> name_ok n ->
  exists d', t_create d p n = Ok d' /\
    (forall q, t_has d' q = t_has d q || bool_decide (q = p ++ [n])) /\
    (forall q k, t_get d' q k = t_get d q k).
Proof.
  intros Hp Hn Hg [Hne _]. assert (exists d', t_create d p n = Ok d') as [d' E].
  { unfold t_create. rewrite Hn, Hg. destruct (String.eqb_spec n ""); [done|].
    rewrite bool_decide_eq_false_2 by (by intros [? [=]]). by eexists. }
  exists d'. split; [done|]. by apply t_create_done.
Qed.

Lemma t_delete_ok d p n :
  t_has d (p ++ [n]) = true ->
  exists d', t_delete d p n = Ok d' /\
    (forall q, t_has d' q = t_has d q && negb (bool_decide (p ++ [n] `prefix_of` q))) /\
    (forall q k, t_get d' q k = if bool_decide (p ++ [n] `prefix_of` q) then None else t_get d q k).
Proof.
  intros Hn. unfold t_delete. rewrite Hn. eexists. split; [done|].
  match goal with |- (forall q, t_has ?d' q = _) /\ _ =>
    assert (forall q, t_has d' q = t_has d q && negb (bool_decide (p ++ [n] `prefix_of` q))) as Hh end.
  { intros q. unfold t_has. simpl. destruct (decide (q = [])) as [->|Hq].
    - rewrite !(bool_decide_eq_true_2 ([] = [])) by done. simpl. rewrite bool_decide_eq_false_2; [done|].
      intros Hpre%prefix_nil_inv. by destruct p.
    - rewrite !(bool_decide_eq_false_2 (q = [])) by done. simpl. rewrite <- bool_decide_not, <- bool_decide_and.
      apply bool_decide_ext. rewrite elem_of_filter. tauto. }
  split; [done|]. intros q k. unfold t_get. rewrite Hh. simpl. case_bool_decide as Hq; [by rewrite andb_false_r|].
  rewrite andb_true_r. destruct (t_has d q); [|done].
  destruct (t_keys d !! (q, k)) as [v|] eqn:E;
    [by apply map_lookup_filter_Some_2|by apply map_lookup_filter_None_2; left].
Qed.

Lemma t_put_ok d p k v :
  t_has d p = true ->
  exists d', t_put d p k v = Ok d' /\ (forall q, t_has d' q = t_has d q) /\
    (forall q j, t_get d' q j = if bool_decide (q = p /\ j = k) then Some v else t_get d q j).
Proof.
  intros Hp. eexists. split; [done|]. split; [done|]. intros q j. unfold t_get, t_has at 1. simpl. fold (t_has d q).
  case_bool_decide as Hq.
  - destruct Hq as [-> ->]. rewrite Hp. by rewrite lookup_insert_eq.
  - rewrite lookup_insert_ne; [done|]. intros [=]. by apply Hq.
Qed.

Lemma t_sub_spec d p n : n ∈ t_sub d p <-> t_has d (p ++ [n]) = true.
Proof.
  rewrite t_has_snoc, bool_decide_eq_true. unfold t_sub. rewrite list_elem_of_omap. split.
  - intros (q & Hq & Hm). apply elem_of_elements in Hq. destruct (reverse q) as [|x r] eqn:E; [done|].
    case_decide as Hr; [|done]. simplify_eq. apply (f_equal reverse) in E. rewrite reverse_involutive, reverse_cons in E.
    by subst q.
  - intros Hin. exists (p ++ [n]). split; [by apply elem_of_elements|].
    rewrite reverse_snoc. by rewrite reverse_involutive, decide_True.
Qed.

Lemma NoDup_omap_inj {A B} (f : A -> option B) l :
  NoDup l -> (forall x y z, f x = Some z -> f y = Some z -> x = y) -> NoDup (omap f l).
Proof.
  intros Hnd Hf. induction Hnd as [|x l Hx Hnd IH]; [constructor|]. cbn [omap list_omap]. destruct (f x) as [z|] eqn:E; [|done].
  constructor; [|done]. intros (y & Hy & Ey)%list_elem_of_omap. by rewrite (Hf x y z E Ey) in Hx.
Qed.

Lemma t_sub_once d p : NoDup (t_sub d p).
Proof.
  apply NoDup_omap_inj; [apply NoDup_elements|]. intros x y z Hx Hy.
  destruct (reverse x) as [|n r] eqn:Ex, (reverse y) as [|n' r'] eqn:Ey; simplify_eq.
  repeat case_decide; simplify_eq. apply (inj reverse). rewrite Ex, Ey. congruence.
Qed.

#[global] Instance tree_laws : BucketLaws.
Proof.
  split; simpl; intros.
  - unfold t_has. simpl. by rewrite orb_false_r.
  - unfold t_get. simpl. by rewrite lookup_empty.
  - unfold t_get. by rewrite H.
  - unfold t_create. by rewrite H.
  - unfold t_create in *. repeat case_match; done.
  - by apply t_create_done.
  - by apply t_create_ok.
  - unfold t_create. by rewrite H.
  - by apply t_delete_ok.
  - unfold t_delete. by rewrite H.
  - by apply t_put_ok.
  - destruct (t_put_ok db p k v H) as (d & E & Hd). assert (d = db') as <- by congruence. done.
  - apply t_sub_spec.
  - apply t_sub_once.
Qed.

#[global] Instance text_Crypto : Crypto :=
  {| PubKey := string; pk_bytes := id; secp256k1 := id;
     Certificate := string; c_serial c := Z.of_nat (String.length c); c_raw := id; ParseCertificate := Some;
     CertKey := string; MarshalPKIX := Some; ParsePKIX := Some; is_ecdsa _ := true;
     pem_encode _ b := b; pem_decode s := Some ("CERTIFICATE"%string, s); addr_string := id |}.

#[global] Instance text_laws : CryptoLaws.
Proof. split; simpl; [done|done|by intros ?? [= ->]|by intros ??]. Qed.

#[global] Existing Instance sorted_range.




(** A database whose pages are cleared once a transaction has ended gives back no key it was given. *)
Definition cleared_Buckets : Buckets :=
  {| DB := tree; db_empty := mkTree ∅ ∅; has_bucket := t_has; create_bucket := t_create; delete_bucket := t_delete;
     get_key := t_get; put_key := t_put; sub_buckets := t_sub; after_tx _ _ := ""%string |}.

Example escaped_key_lost :
  (fun b => Bolt.GetAccountPublicKey (H0 := cleared_Buckets) (Bolt.AddAccount (H0 := cleared_Buckets) b "alice" (Some "key"%string)).1 "alice")
    <$> Bolt.NewBBolt (H0 := cleared_Buckets) (mkTree ∅ ∅) [] = Some (Ok ""%string).
Proof. vm_compute. reflexivity. Qed.

Lemma delete_unknown_account_differs_witness :
  exists b, agree Mem.NewMemory b /\
    (Mem.DelAccount Mem.NewMemory "alice").2 = Err ErrAccountNotExists /\
    exists e, (Bolt.DelAccount b "alice").2 = Err e /\ is_not_exists e = false.
Proof.
  destruct NewBBolt_new as (b & _ & Hag). exists b. split; [exact Hag|].
  by apply (delete_unknown_account_differs Mem.NewMemory b "alice").
Defined.

Definition ex_add : request := RqAddAccount "alice" (Some "key"%string).
Definition ex_mem : Mem.impl := (serve Mem.NewMemory ex_add).1.

Lemma delete_unknown_certificate_differs_witness :
  exists b, agree ex_mem b /\
    (Mem.DelAccountCertificate ex_mem "alice" (Some 7%Z)).2 = Ok tt /\
    (Bolt.DelAccountCertificate b "alice" (Some 7%Z)).2 = Err ErrCertificateNotExists.
Proof.
  destruct NewBBolt_new as (b & _ & Hag).
  destruct (serve_agree _ b ex_add Hag) as [Hag' _]; [split; [by right|done]|].
  eexists. split; [exact Hag'|].
  by apply (delete_unknown_certificate_differs _ _ "alice" (Mem.mkAccount (H := text_Crypto) "key"%string ∅) 7 Hag').
Defined.

End PConfigExamples.
