(* ===== verification/AccountQuerier.v ===== *)
(** * Accounts and certificates the gateway asks for

    Model of [cmd/provider-services/cmd/certs.go]: the account querier. It answers the
    gateway's questions about public keys and certificates from the provider's storage
    ([PConfig], through its interface [Storage]) and asks the chain for what the storage
    does not have; it also serves the certificates of the provider itself.

    The goroutine [accountQuerier] is a transition system together with its clients: the
    channels are the queues they are, a response channel holds one answer, and a send on
    a full channel blocks. [certsQuerier], [run] and [leasesQuerier] are functions of
    the event they handle. *)

From Stdlib Require Import ZArith Lia.
From stdpp Require Import base gmap list strings relations tactics.
From S2P Require Import Prelude PConfig.

(** ** What the querier relies on of a storage *)

(** [gives] are the keys the storage gives back as they were. *)
Class StorageLaws (S : Type) `{HC : Crypto} `{HS : !Storage S} (gives : PubKey -> Prop) : Prop := {
  sl_add_ok (s s' : S) a k :
    gives k -> st_AddAccount s a (Some k) = (s', Ok tt) -> st_GetAccountPublicKey s' a = Ok k;
  sl_add_other (s : S) a b k : a <> b -> st_GetAccountPublicKey (st_AddAccount s a k).1 b = st_GetAccountPublicKey s b;
  sl_add_err (s s' : S) a k e b :
    st_AddAccount s a k = (s', Err e) -> st_GetAccountPublicKey s' b = st_GetAccountPublicKey s b;
  sl_add_exists (s s' : S) a k e :
    st_AddAccount s a k = (s', Err e) -> is_exists e = true -> exists k', st_GetAccountPublicKey s a = Ok k';
  sl_add_nil (s s' : S) a : st_AddAccount s a None = (s', Ok tt) -> False;
  sl_cert_key (s : S) a c k b :
    st_GetAccountPublicKey (st_AddAccountCertificate s a c k).1 b = st_GetAccountPublicKey s b;
  sl_cert_add (s : S) a k b n ck :
    st_GetAccountCertificate s b n = Ok ck -> st_GetAccountCertificate (st_AddAccount s a k).1 b n = Ok ck;
  sl_cert_cert (s : S) a c k b n ck :
    st_GetAccountCertificate s b n = Ok ck -> st_GetAccountCertificate (st_AddAccountCertificate s a c k).1 b n = Ok ck
}.

(** The storage in memory keeps to it, and gives back every key. *)
#[global] Instance memory_laws `{HC : Crypto} `{HL : !CryptoLaws} `{GoRange} : StorageLaws Mem.impl (fun _ => True).
Proof.
  assert (forall a b, addr_string a = addr_string b -> a = b) as Hinj by (intros a b; apply addr_string_inj).
  split; simpl.
  - intros s s' a k _. unfold Mem.AddAccount, Mem.GetAccountPublicKey. destruct (String.eqb_spec a ""); [done|].
    case_match; [done|]. intros [= <-]. simpl. by rewrite lookup_insert_eq.
  - intros s a b k Hne. unfold Mem.AddAccount. repeat case_match; simpl; try done.
    unfold Mem.GetAccountPublicKey. simpl. by rewrite lookup_insert_ne by (intros E; by apply Hinj in E).
  - intros s s' a k e b. unfold Mem.AddAccount. repeat case_match; by intros [= <- _].
  - intros s s' a k e. unfold Mem.AddAccount, Mem.GetAccountPublicKey. repeat case_match; intros [= _ <-]; try done.
    intros _. eauto.
  - by intros s s' a [= _].
  - intros s a c k b. unfold Mem.AddAccountCertificate. destruct c, k; try done.
    destruct (String.eqb_spec a ""); [done|]. destruct (Mem.accounts s !! addr_string a) eqn:E1; [|done].
    case_match; [done|]. unfold Mem.GetAccountPublicKey. simpl.
    destruct (decide (addr_string a = addr_string b)) as [E|E]; [|by rewrite lookup_insert_ne].
    by rewrite <- E, lookup_insert_eq, E1.
  - intros s a k b n ck. unfold Mem.AddAccount. destruct k; [|done].
    destruct (String.eqb_spec a ""); [done|]. destruct (Mem.accounts s !! addr_string a) eqn:E1; [done|].
    unfold Mem.GetAccountCertificate. simpl. destruct n; [|done]. destruct (String.eqb b ""); [done|].
    destruct (decide (addr_string a = addr_string b)) as [E|E]; [by rewrite <- E, E1|by rewrite lookup_insert_ne].
  - intros s a c k b n ck. unfold Mem.AddAccountCertificate. destruct c as [c|], k; try done.
    destruct (String.eqb_spec a ""); [done|]. destruct (Mem.accounts s !! addr_string a) as [acc|] eqn:E1; [|done].
    destruct (Mem.a_certs acc !! big_String (c_serial c)) eqn:E2; [done|].
    unfold Mem.GetAccountCertificate. simpl. destruct n as [n|]; [|done]. destruct (String.eqb b ""); [done|].
    destruct (decide (addr_string a = addr_string b)) as [E|E]; [|by rewrite lookup_insert_ne].
    rewrite <- E, lookup_insert_eq, E1. simpl. destruct (decide (big_String n = big_String (c_serial c))) as [E'|E'].
    + by rewrite E', E2.
    + by rewrite lookup_insert_ne.
Qed.

(** *** The storage in a database *)

Section BoltLaws.
Context `{HC : Crypto} `{HB : Buckets} `{HBL : !BucketLaws} `{HK : !SlicesKept}.
Import Bolt.

(** An update either leaves the database or makes it what the function says. *)
Lemma Update_cases (b : Bolt.impl) f :
  closed (Update b f).1 = closed b /\
  (db (Update b f).1 = db b \/ closed b = false /\ exists d, f (db b) = Ok d /\ db (Update b f).1 = d) /\
  ((Update b f).2 = Ok tt -> closed b = false /\ f (db b) = Ok (db (Update b f).1)) /\
  (is_ok (Update b f).2 = false -> db (Update b f).1 = db b).
Proof.
  unfold Update. destruct (closed b) eqn:Hc; [by split_and!; [|left|..]|]. destruct (f (db b)) as [d|e].
  - destruct (commits b) as [|[] io]; simpl; (split; [done|]);
      [|..|by split; [left|]]; (split; [right; split; [done|]; by eexists|by split]).
  - simpl. by split_and!; [|left|..].
Qed.

(** What adding an account leaves as it was. *)
Definition unlike_account (a : string) (d d' : DB) : Prop :=
  (forall q, q <> p_account a -> has_bucket d' q = has_bucket d q /\ forall k, get_key d' q k = get_key d q k).

Lemma AddAccount_db (b : Bolt.impl) a pk :
  closed (AddAccount b a pk).1 = closed b /\ unlike_account a (db b) (db (AddAccount b a pk).1) /\
  (is_ok (AddAccount b a pk).2 = false -> db (AddAccount b a pk).1 = db b) /\
  (forall k, pk = Some k -> (AddAccount b a pk).2 = Ok tt -> closed b = false /\ a <> ""%string /\
     has_bucket (db (AddAccount b a pk).1) p_accounts = true /\ has_bucket (db (AddAccount b a pk).1) (p_account a) = true /\
     get_key (db (AddAccount b a pk).1) (p_account a) keyPubKey = Some (pk_bytes k)).
Proof.
  unfold AddAccount. destruct (closed b) eqn:Hc; [by split_and!|]. destruct pk as [k|]; [|by split_and!].
  destruct (String.eqb_spec a ""); [by split_and!|].
  set (f := fun tx => with_bucket tx p_accounts ErrUninitialized _).
  destruct (Update_cases b f) as (H1 & H2 & H3 & H4).
  assert (forall d, f (db b) = Ok d -> unlike_account a (db b) d /\ has_bucket d p_accounts = true /\
    has_bucket d (p_account a) = true /\ get_key d (p_account a) keyPubKey = Some (pk_bytes k)) as Hf.
  { intros d. unfold f, with_bucket. destruct (has_bucket (db b) p_accounts) eqn:Ha; [|done].
    destruct (create_bucket (db b) p_accounts a) as [d1|e] eqn:E1; [|by destruct e].
    destruct (bl_create_done _ _ _ _ Ha E1) as [Hh1 Hg1]. change (p_accounts ++ [a]) with (p_account a) in *.
    destruct (put_key d1 (p_account a) keyPubKey (pk_bytes k)) as [d2|e] eqn:E2; simpl; [|done]. intros [= <-].
    assert (has_bucket d1 (p_account a) = true) as Hp by (by rewrite Hh1, bool_decide_eq_true_2, orb_true_r).
    destruct (bl_put_done _ _ _ _ _ Hp E2) as [Hh2 Hg2]. split_and!.
    - intros q Hq. rewrite Hh2, Hh1, bool_decide_eq_false_2, orb_false_r by done. split; [done|]. intros j.
      rewrite Hg2, bool_decide_eq_false_2, Hg1 by (by intros [? _]). done.
    - by rewrite Hh2, Hh1, Ha.
    - by rewrite Hh2.
    - by rewrite Hg2, bool_decide_eq_true_2. }
  split_and!; [congruence| |done|].
  - destruct H2 as [->|(_ & d & E & ->)]; [by intros q _|by apply Hf].
  - intros k' [= <-] E. destruct (H3 E) as [_ Hd]. by destruct (Hf _ Hd) as (_ & ? & ? & ?).
Qed.

(** What adding a certificate leaves as it was. *)
Definition unlike_cert (a n : string) (d d' : DB) : Prop :=
  (forall q, q <> p_certs a -> q <> p_cert a n -> has_bucket d' q = has_bucket d q /\ forall k, get_key d' q k = get_key d q k) /\
  (has_bucket d (p_certs a) = true -> has_bucket d' (p_certs a) = true) /\
  (has_bucket d (p_certs a) = true -> has_bucket d (p_cert a n) = true -> d' = d).

Lemma AddAccountCertificate_db (b : Bolt.impl) a c k :
  closed (AddAccountCertificate b a c k).1 = closed b /\
  forall c', c = Some c' -> unlike_cert a (big_Bytes (c_serial c')) (db b) (db (AddAccountCertificate b a c k).1).
Proof.
  assert (forall n d, unlike_cert a n d d) as Hrefl by done.
  unfold AddAccountCertificate. destruct c as [c|]; [|done]. destruct k as [k|]; [|by split; [|intros c' [= <-]]].
  destruct (String.eqb a ""); [by split; [|intros c' [= <-]]|].
  set (f := fun tx => with_bucket tx p_accounts ErrUninitialized _).
  destruct (Update_cases b f) as (H1 & H2 & _ & _). split; [done|]. intros c' [= <-].
  destruct H2 as [->|(_ & d & E & ->)]; [done|]. revert E. unfold f, with_bucket.
  destruct (has_bucket (db b) p_accounts); [|done]. destruct (has_bucket (db b) (p_account a)) eqn:Ha; [|done].
  assert (forall d1, CreateBucketIfNotExists (db b) (p_account a) bucketCertificates = Ok d1 ->
    has_bucket d1 (p_certs a) = true /\ (has_bucket (db b) (p_certs a) = true -> d1 = db b) /\
    (forall q, q <> p_certs a -> has_bucket d1 q = has_bucket (db b) q) /\ (forall q j, get_key d1 q j = get_key (db b) q j)) as Hcreate.
  { intros d1. unfold CreateBucketIfNotExists. change (p_account a ++ [bucketCertificates]) with (p_certs a).
    destruct (has_bucket (db b) (p_certs a)) eqn:Hcs; [by intros [= <-]|]. intros E1.
    destruct (bl_create_done _ _ _ _ Ha E1) as [Hh1 Hg1]. change (p_account a ++ [bucketCertificates]) with (p_certs a) in *.
    split_and!; [by rewrite Hh1, bool_decide_eq_true_2, orb_true_r|done| |done].
    intros q Hq. by rewrite Hh1, bool_decide_eq_false_2, orb_false_r. }
  destruct (CreateBucketIfNotExists (db b) (p_account a) bucketCertificates) as [d1|] eqn:E1; simpl; [|done].
  destruct (Hcreate d1 eq_refl) as (Hcs & Hsame & Hh1 & Hg1). set (n := big_Bytes (c_serial c)) in *.
  destruct (create_bucket d1 (p_certs a) n) as [d2|e] eqn:E2; [|by destruct e].
  destruct (bl_create_done _ _ _ _ Hcs E2) as [Hh2 Hg2]. change (p_certs a ++ [n]) with (p_cert a n) in *.
  assert (has_bucket d2 (p_cert a n) = true) as Hp2 by (by rewrite Hh2, bool_decide_eq_true_2, orb_true_r).
  destruct (put_key d2 (p_cert a n) keyCertificate _) as [d3|] eqn:E3; simpl; [|done].
  destruct (bl_put_done _ _ _ _ _ Hp2 E3) as [Hh3 Hg3]. destruct (MarshalPKIX k) as [pk|]; [|done].
  destruct (put_key d3 (p_cert a n) keyPubKey pk) as [d4|] eqn:E4; simpl; [|done]. intros [= <-].
  destruct (bl_put_done _ _ _ _ _ (eq_trans (Hh3 _) Hp2) E4) as [Hh4 Hg4]. split_and!.
  - intros q H1' H2'. rewrite Hh4, Hh3, Hh2, bool_decide_eq_false_2, orb_false_r, Hh1 by done. split; [done|].
    intros j. rewrite Hg4, bool_decide_eq_false_2, Hg3, bool_decide_eq_false_2 by (by intros [? _]). by rewrite Hg2, Hg1.
  - intros _. by rewrite Hh4, Hh3, Hh2, Hcs.
  - intros Hc' Hy. rewrite (Hsame Hc') in E2. rewrite bl_create_exists in E2; done.
Qed.

Lemma GetAccountPublicKey_ext (b b' : Bolt.impl) a :
  closed b' = closed b ->
  (a <> ""%string -> has_bucket (db b') p_accounts = has_bucket (db b) p_accounts /\
     has_bucket (db b') (p_account a) = has_bucket (db b) (p_account a) /\
     get_key (db b') (p_account a) keyPubKey = get_key (db b) (p_account a) keyPubKey) ->
  Bolt.GetAccountPublicKey b' a = Bolt.GetAccountPublicKey b a.
Proof.
  intros Hc H. unfold Bolt.GetAccountPublicKey, View, with_bucket. destruct (String.eqb_spec a ""); [done|].
  destruct (H n) as (H1 & H2 & H3). rewrite Hc, H1, H2, H3. destruct (get_key (db b) (p_account a) keyPubKey); [|done].
  simpl. by rewrite !slices_kept.
Qed.

Lemma GetAccountCertificate_ext (b b' : Bolt.impl) a s ck :
  closed b' = closed b ->
  (has_bucket (db b) (p_certs a) = true ->
     forall q, q = p_accounts \/ q = p_account a \/ q = p_certs a \/ (exists n, q = p_cert a n) ->
       has_bucket (db b) q = true -> has_bucket (db b') q = true) ->
  (forall n k, has_bucket (db b) (p_certs a) = true -> has_bucket (db b) (p_cert a n) = true ->
     get_key (db b') (p_cert a n) k = get_key (db b) (p_cert a n) k) ->
  Bolt.GetAccountCertificate b a s = Ok ck -> Bolt.GetAccountCertificate b' a s = Ok ck.
Proof.
  intros Hc Hh Hg. unfold Bolt.GetAccountCertificate, View, with_bucket, read_certificate. rewrite Hc.
  destruct s as [s|]; [|done]. destruct (String.eqb a ""); [done|]. destruct (closed b); [done|].
  destruct (has_bucket (db b) p_accounts) eqn:E1; [|done]. destruct (has_bucket (db b) (p_account a)) eqn:E2; [|done].
  destruct (has_bucket (db b) (p_certs a)) eqn:E3; [|done]. destruct (has_bucket (db b) (p_cert a (big_Bytes s))) eqn:E4; [|done].
  rewrite (Hh eq_refl p_accounts ltac:(by left) E1), (Hh eq_refl (p_account a) ltac:(by right; left) E2),
    (Hh eq_refl (p_certs a) ltac:(by right; right; left) E3),
    (Hh eq_refl (p_cert a (big_Bytes s)) ltac:(right; right; right; by eexists) E4), !Hg by done. done.
Qed.

(** The storage in a database keeps to it as long as the bytes of its keys are there when they
    are read, and gives back the keys of one kind. *)
#[global] Instance bbolt_laws : StorageLaws Bolt.impl (fun k => secp256k1 (pk_bytes k) = k).
Proof.
  split; simpl.
  - intros s s' a k Hk E. destruct (AddAccount_db s a (Some k)) as (Hc & _ & _ & Hok). rewrite E in *. simpl in *.
    destruct (Hok k eq_refl eq_refl) as (Hcl & Ha & H1 & H2 & H3). rewrite (escaped_key s' a _ ltac:(congruence) Ha H1 H2 H3).
    by rewrite slices_kept, Hk.
  - intros s a b k Hne. destruct (AddAccount_db s a k) as (Hc & Hu & _).
    apply GetAccountPublicKey_ext; [done|]. intros _.
    destruct (Hu p_accounts ltac:(discriminate)) as [H1 _].
    destruct (Hu (p_account b) ltac:(intros [= E]; by apply Hne)) as [H2 H3]. split_and!; done.
  - intros s s' a k e b E. destruct (AddAccount_db s a k) as (Hc & _ & He & _). rewrite E in *. simpl in *.
    apply GetAccountPublicKey_ext; [done|]. by rewrite (He eq_refl).
  - intros s s' a k e E Hex. unfold AddAccount in E. destruct (closed s) eqn:Hc; [by simplify_eq|].
    destruct k as [k|]; [|by simplify_eq]. destruct (String.eqb_spec a ""); [by simplify_eq|]. unfold Update in E. rewrite Hc in E.
    unfold with_bucket in E. destruct (has_bucket (db s) p_accounts) eqn:H1; [|by simplify_eq].
    destruct (create_bucket (db s) p_accounts a) as [d|e1] eqn:E1.
    + destruct (lift _) as [d'|e'] eqn:E2; [by repeat case_match; simplify_eq|]. unfold lift in E2.
      destruct (put_key _ _ _ _); simplify_eq/=.
    + assert (e1 = ErrBucketExists) as -> by (destruct e1; by simplify_eq).
      apply bl_create_exists_inv in E1. change (p_accounts ++ [a]) with (p_account a) in E1.
      unfold Bolt.GetAccountPublicKey, View, with_bucket. destruct (String.eqb_spec a ""); [done|].
      rewrite Hc, H1, E1. by eexists.
  - intros s s' a. unfold AddAccount. destruct (closed s); done.
  - intros s a c k b. destruct (AddAccountCertificate_db s a c k) as [Hc Hu].
    apply GetAccountPublicKey_ext; [done|]. intros _. destruct c as [c|]; [|done].
    destruct (Hu c eq_refl) as [Hq _]. destruct (Hq p_accounts) as [H1 _]; [discriminate..|].
    destruct (Hq (p_account b)) as [H2 H3]; [discriminate..|]. split_and!; done.
  - intros s a k b n ck. destruct (AddAccount_db s a k) as (Hc & Hu & _ & _).
    destruct (AddAccount s a k) as [s' r] eqn:E. simpl in *. apply GetAccountCertificate_ext; [done| |].
    + intros _ q _ Hy. destruct (decide (q = p_account a)) as [->|Hne]; [|destruct (Hu q Hne) as [H1 _]; by rewrite H1].
      pose proof (bl_create_exists (db s) p_accounts a Hy) as Hex.
      revert E. unfold AddAccount. destruct (closed s) eqn:Hcl; [by intros [= <- _]|]. destruct k; [|by intros [= <- _]].
      destruct (String.eqb a ""); [by intros [= <- _]|]. unfold Update. rewrite Hcl. unfold with_bucket.
      destruct (has_bucket (db s) p_accounts); [|by intros [= <- _]]. rewrite Hex. by intros [= <- _].
    + intros m j _ _. destruct (Hu (p_cert b m) ltac:(discriminate)) as [_ H]. apply H.
  - intros s a c k b n ck. destruct (AddAccountCertificate_db s a c k) as [Hc Hu].
    destruct c as [c|]; [|done]. destruct (Hu c eq_refl) as (Hq & Hcs & Hsame).
    apply GetAccountCertificate_ext; [done| |].
    + intros Hcb q Hin Hy. destruct (decide (q = p_certs a)) as [->|H1]; [by apply Hcs|].
      destruct (decide (q = p_cert a (big_Bytes (c_serial c)))) as [->|H2].
      * destruct Hin as [[=]|[[=]|[[=]|[m Hm]]]]. injection Hm as <- _. by rewrite Hsame.
      * destruct (Hq q H1 H2) as [E _]. by rewrite E.
    + intros m j Hcb Hy. destruct (decide (p_cert b m = p_cert a (big_Bytes (c_serial c)))) as [E|E].
      * injection E as -> ->. by rewrite Hsame.
      * destruct (Hq (p_cert b m) ltac:(discriminate) E) as [_ H]. apply H.
Qed.

End BoltLaws.

Inductive aq_error := AqStorage (e : storage_error) | AqQuery | AqUnpack.

Section Accounts.
Context {S : Type} `{HC : Crypto} `{HS : !Storage S}.

(** ** The goroutine that looks accounts up *)

(** [ar_resp] is the channel to answer on; background requests have none. *)
Record accReq := mkAccReq { ar_acc : string; ar_resp : option nat }.
Record accResp := mkAccResp { pr_pubkey : option PubKey; pr_err : option aq_error }.

(** The goroutine waits for an event, or to send an answer; indexing an empty queue would
    be a panic. *)
Inductive phase := Idle | Sending (ch : nat) (r : accResp) | Panicked | Stopped.

Record loop := mkLoop {
  prioRequests : list accReq;
  requests : list accReq;
  signalch : bool;
  ph : phase
}.

Definition trySignal (l : loop) : loop :=
  match prioRequests l, requests l with
  | [], [] => l
  | p, q => mkLoop p q true (ph l)
  end.

Definition on_accCh (l : loop) (r : accReq) : loop :=
  trySignal (mkLoop (prioRequests l ++ [r]) (requests l) (signalch l) (ph l)).
Definition on_leaseCh (l : loop) (r : accReq) : loop :=
  trySignal (mkLoop (prioRequests l) (requests l ++ [r]) (signalch l) (ph l)).

(** What the chain says of an account. *)
Inductive account_answer := AccQueryErr | AccUnpackErr | AccFound (addr : string) (pk : option PubKey).

(** The storage is asked first, the request may be a duplicate. The result is the new
    storage, the answer, and whether the request is put back. *)
Definition resolve (s : S) (acc : string) (ans : account_answer) : S * accResp * bool :=
  match st_GetAccountPublicKey s acc with
  | Ok pk => (s, mkAccResp (Some pk) None, false)
  | Err _ =>
      match ans with
      | AccQueryErr => (s, mkAccResp None (Some AqQuery), true)
      | AccUnpackErr => (s, mkAccResp None (Some AqUnpack), true)
      | AccFound addr pk =>
          let '(s', r) := st_AddAccount s addr pk in
          match r with
          | Ok _ => (s', mkAccResp pk None, false)
          | Err e => if is_exists e then (s', mkAccResp pk (Some (AqStorage e)), true)
                     else (s', mkAccResp pk None, false)
          end
      end
  end.

(** The case of the signal: one request is resolved, put back at the end of its queue on an
    error, and answered if it has a channel. *)
Definition on_signal (s : S) (l : loop) (ans : account_answer) : S * loop :=
  let served (priority : bool) (req : accReq) (p q : list accReq) :=
    let '(s', resp, again) := resolve s (ar_acc req) ans in
    let p := if again && priority then p ++ [req] else p in
    let q := if again && negb priority then q ++ [req] else q in
    (s', match ar_resp req with
         | Some ch => mkLoop p q false (Sending ch resp)
         | None => trySignal (mkLoop p q false Idle)
         end) in
  match prioRequests l, requests l with
  | req :: p, q => served true req p q
  | [], req :: q => served false req [] q
  | [], [] => (s, mkLoop [] [] false Panicked)
  end.

(** ** The goroutine among its clients *)

(** [bufs] are the response channels, [readers] the clients that still wait on theirs,
    [asked] what each client asked for. *)
Record aq := mkAq {
  storage : S;
  accCh : list accReq;
  leaseCh : list accReq;
  lp : loop;
  bufs : gmap nat (list accResp);
  readers : gset nat;
  asked : gmap nat string;
  fresh_ch : nat
}.

Definition chan_cap : nat := 64.

Definition init (s : S) : aq := mkAq s [] [] (mkLoop [] [] false Idle) ∅ ∅ ∅ 0.

(** What one client does first: the storage, and a request if the storage has no such
    account; any other error is the answer. *)
Inductive lookup_start := FoundKey (pk : PubKey) | FailedKey (e : storage_error) | AskQuerier.

Definition GetAccountPublicKey_start (s : S) (acc : string) : lookup_start :=
  match st_GetAccountPublicKey s acc with
  | Ok pk => FoundKey pk
  | Err e => if is_not_exists e then AskQuerier else FailedKey e
  end.

Definition set_lp (st : aq) (s : S) (l : loop) : aq :=
  mkAq s (accCh st) (leaseCh st) l (bufs st) (readers st) (asked st) (fresh_ch st).
Definition push_acc (st : aq) (r : accReq) : aq :=
  mkAq (storage st) (accCh st ++ [r]) (leaseCh st) (lp st) (bufs st) (readers st) (asked st) (fresh_ch st).

(** [honest] says which answers the chain may give. *)
Inductive step (honest : string -> account_answer -> Prop) : aq -> aq -> Prop :=
| step_accCh st r ch :
    ph (lp st) = Idle -> accCh st = r :: ch ->
    step honest st (mkAq (storage st) ch (leaseCh st) (on_accCh (lp st) r) (bufs st) (readers st) (asked st) (fresh_ch st))
| step_leaseCh st r ch :
    ph (lp st) = Idle -> leaseCh st = r :: ch ->
    step honest st (mkAq (storage st) (accCh st) ch (on_leaseCh (lp st) r) (bufs st) (readers st) (asked st) (fresh_ch st))
| step_signal st ans :
    ph (lp st) = Idle -> signalch (lp st) = true ->
    (forall req, head (prioRequests (lp st) ++ requests (lp st)) = Some req -> honest (ar_acc req) ans) ->
    step honest st (set_lp st (on_signal (storage st) (lp st) ans).1 (on_signal (storage st) (lp st) ans).2)
| step_done st :
    ph (lp st) = Idle ->
    step honest st (set_lp st (storage st) (mkLoop (prioRequests (lp st)) (requests (lp st)) (signalch (lp st)) Stopped))
| step_send st ch r :
    ph (lp st) = Sending ch r -> bufs st !! ch = Some [] ->
    step honest st (mkAq (storage st) (accCh st) (leaseCh st)
      (trySignal (mkLoop (prioRequests (lp st)) (requests (lp st)) (signalch (lp st)) Idle))
      (<[ch := [r]]> (bufs st)) (readers st) (asked st) (fresh_ch st))
| step_client_asks st n a :
    GetAccountPublicKey_start (storage st) a = AskQuerier -> (List.length (accCh st) < chan_cap)%nat ->
    n = fresh_ch st ->
    step honest st (mkAq (storage st) (accCh st ++ [mkAccReq a (Some n)]) (leaseCh st) (lp st)
      (<[n := []]> (bufs st)) ({[n]} ∪ readers st) (<[n := a]> (asked st)) (1 + n)%nat)
| step_client_reads st n r :
    n ∈ readers st -> bufs st !! n = Some [r] ->
    step honest st (mkAq (storage st) (accCh st) (leaseCh st) (lp st)
      (<[n := []]> (bufs st)) (readers st ∖ {[n]}) (asked st) (fresh_ch st))
| step_client_leaves st n :
    n ∈ readers st ->
    step honest st (mkAq (storage st) (accCh st) (leaseCh st) (lp st)
      (bufs st) (readers st ∖ {[n]}) (asked st) (fresh_ch st))
| step_background st owner :
    (List.length (accCh st) < chan_cap)%nat -> step honest st (push_acc st (mkAccReq owner None))
| step_certificate st a c k :
    step honest st (set_lp st (st_AddAccountCertificate (storage st) a (Some c) (Some k)).1 (lp st)).

(** ** The signal *)

Definition queued (l : loop) : Prop := prioRequests l ++ requests l <> [].

(** The signal is set when, and only when, something is queued. *)
Definition signal_inv (st : aq) : Prop :=
  match ph (lp st) with
  | Idle => signalch (lp st) = true <-> queued (lp st)
  | Sending _ _ => signalch (lp st) = false
  | Panicked => False
  | Stopped => True
  end.

Lemma trySignal_spec l :
  signalch l = false -> (signalch (trySignal l) = true <-> queued (trySignal l)) /\ ph (trySignal l) = ph l.
Proof.
  intros Hs. unfold trySignal, queued. destruct (prioRequests l) as [|r p] eqn:Ep, (requests l) as [|r' q] eqn:Eq; simpl.
  - rewrite Hs, Ep, Eq. split; [|done]. split; [done|by intros []].
  - by split.
  - by split.
  - by split.
Qed.

Lemma trySignal_queued l : queued l -> signalch (trySignal l) = true /\ queued (trySignal l) /\ ph (trySignal l) = ph l.
Proof. unfold trySignal, queued. by destruct (prioRequests l), (requests l). Qed.

Lemma on_signal_inv s l ans : queued l -> ph l = Idle ->
  let l' := (on_signal s l ans).2 in
  match ph l' with
  | Idle => signalch l' = true <-> queued l'
  | Sending _ _ => signalch l' = false
  | _ => False
  end.
Proof.
  intros Hq Hi. unfold on_signal. destruct (prioRequests l) as [|r p] eqn:Ep.
  - destruct (requests l) as [|r q] eqn:Eq; [by destruct Hq; rewrite Ep, Eq|].
    destruct (resolve s (ar_acc r) ans) as [[s' resp] again]. simpl. destruct (ar_resp r); simpl; [done|].
    by destruct (trySignal_spec (mkLoop (if again && false then [r] else []) (if again && true then q ++ [r] else q) false Idle))
      as [? ->].
  - destruct (resolve s (ar_acc r) ans) as [[s' resp] again]. simpl. destruct (ar_resp r); simpl; [done|].
    match goal with |- context [trySignal ?l] => by destruct (trySignal_spec l) as [? ->] end.
Qed.

Lemma signal_inv_step honest st st' : signal_inv st -> step honest st st' -> signal_inv st'.
Proof.
  intros Hi Hst. unfold signal_inv in *. inversion Hst; subst; simpl in *.
  - rewrite H in Hi. unfold on_accCh.
    match goal with |- context [trySignal ?l] => destruct (trySignal_queued l) as (Hs & Hq & Hp) end;
      [unfold queued; simpl; by destruct (prioRequests (lp st))|]. set (l1 := trySignal _) in *.
    rewrite Hp. simpl. rewrite H. tauto.
  - rewrite H in Hi. unfold on_leaseCh.
    match goal with |- context [trySignal ?l] => destruct (trySignal_queued l) as (Hs & Hq & Hp) end;
      [unfold queued; simpl; by destruct (prioRequests (lp st)), (requests (lp st))|]. set (l1 := trySignal _) in *.
    rewrite Hp. simpl. rewrite H. tauto.
  - rewrite H in Hi. pose proof (on_signal_inv (storage st) (lp st) ans (proj1 Hi H0) H) as Ho. simpl in Ho.
    by destruct (ph (on_signal (storage st) (lp st) ans).2).
  - done.
  - rewrite H in Hi. match goal with |- context [trySignal ?l] => by destruct (trySignal_spec l) as [? ->] end.
  - done.
  - done.
  - done.
  - done.
  - done.
Qed.

Lemma init_signal_inv s : signal_inv (init s).
Proof. split; [done|by intros []]. Qed.

(** The goroutine never takes a request from empty queues: its signal is set
    exactly when something is queued, whatever its clients, the chain and the background
    do. *)
Theorem querier_never_panics honest (s : S) (st : aq) :
  rtc (step honest) (init s) st -> ph (lp st) <> Panicked.
Proof.
  intros Hr E. assert (signal_inv st) as Hi by
    (eapply (rtc_preserves (step honest) signal_inv); [apply signal_inv_step|apply init_signal_inv|exact Hr]).
  unfold signal_inv in Hi. by rewrite E in Hi.
Qed.

(** The queue of background requests is never used: leases won and leases found
    at the start are asked for with the priority of the users' own requests. *)
Theorem background_queue_unused honest (s : S) (st : aq) :
  rtc (step honest) (init s) st -> leaseCh st = [] /\ requests (lp st) = [].
Proof.
  apply (rtc_preserves (step honest) (fun st => leaseCh st = [] /\ requests (lp st) = [])); [|done].
  assert (forall l, requests (trySignal l) = requests l) as Ht
    by (intros l; unfold trySignal; destruct (prioRequests l), (requests l) eqn:E; done).
  intros x y [Hl Hq] Hst. inversion Hst; subst; simpl in *; try done.
  - split; [done|]. unfold on_accCh. by rewrite Ht.
  - congruence.
  - split; [done|]. unfold on_signal. rewrite Hq. destruct (prioRequests (lp x)) as [|r p]; [done|].
    destruct (resolve (storage x) (ar_acc r) ans) as [[s' resp] again]. simpl. rewrite andb_false_r.
    destruct (ar_resp r); [done|]. by rewrite Ht.
  - split; [done|]. by rewrite Ht.
Qed.

(** ** The account nobody can answer for *)

(** The goroutine waits to send on a channel that is full and that nobody reads any more. *)
Definition wedged (ch : nat) (st : aq) : Prop :=
  (exists r x, ph (lp st) = Sending ch r /\ bufs st !! ch = Some [x]) /\ (ch ∉ readers st) /\ (ch < fresh_ch st)%nat.

(** The clients that came after [n] have no answer. *)
Definition unanswered (n : nat) (st : aq) : Prop :=
  (n <= fresh_ch st)%nat /\ forall m, (n <= m)%nat -> bufs st !! m = None \/ bufs st !! m = Some [].

Lemma wedged_step honest ch n st st' :
  (ch < n)%nat -> wedged ch st /\ unanswered n st -> step honest st st' -> wedged ch st' /\ unanswered n st'.
Proof.
  intros Hn [((r & x & Hp & Hb) & Hr & Hf) [Hle Hu]] Hst.
  inversion Hst; subst; simpl in *; try congruence; unfold wedged, unanswered; simpl.
  - split; [|split; [lia|]].
    + split_and!; [exists r, x; rewrite lookup_insert_ne by lia; done|set_solver by lia|lia].
    + intros m Hm. rewrite lookup_insert. case_decide; [by right|by apply Hu].
  - assert (n0 <> ch) by set_solver. split; [|split; [done|]].
    + split_and!; [exists r, x; rewrite lookup_insert_ne by done; done|set_solver|lia].
    + intros m Hm. rewrite lookup_insert. case_decide; [by right|by apply Hu].
  - split; [|done]. split_and!; [by exists r, x|set_solver|lia].
  - split; [|done]. split_and!; [by exists r, x|done|lia].
  - split; [|done]. split_and!; [by exists r, x|done|lia].
Qed.

(** One failed lookup of the only request, which has a channel. *)
Lemma on_signal_failed (s : S) (a : string) (ch : nat) e (l : loop) :
  st_GetAccountPublicKey s a = Err e -> prioRequests l = [mkAccReq a (Some ch)] -> requests l = [] ->
  on_signal s l AccQueryErr =
    (s, mkLoop [mkAccReq a (Some ch)] [] false (Sending ch (mkAccResp None (Some AqQuery)))).
Proof. intros He Hp Hq. unfold on_signal. rewrite Hp, Hq. simpl. unfold resolve. by rewrite He. Qed.

Definition failed : accResp := mkAccResp None (Some AqQuery).
Definition retrying (a : string) : list accReq := [mkAccReq a (Some 0%nat)].

(** A failed lookup is answered and put back. *)
Lemma retry honest (s : S) (a : string) e rd :
  st_GetAccountPublicKey s a = Err e -> honest a AccQueryErr ->
  step honest (mkAq s [] [] (mkLoop (retrying a) [] true Idle) {[0%nat := []]} rd {[0%nat := a]} 1)
              (mkAq s [] [] (mkLoop (retrying a) [] false (Sending 0 failed)) {[0%nat := []]} rd {[0%nat := a]} 1) /\
  step honest (mkAq s [] [] (mkLoop (retrying a) [] false (Sending 0 failed)) {[0%nat := []]} rd {[0%nat := a]} 1)
              (mkAq s [] [] (mkLoop (retrying a) [] true Idle) {[0%nat := [failed]]} rd {[0%nat := a]} 1) /\
  step honest (mkAq s [] [] (mkLoop (retrying a) [] true Idle) {[0%nat := [failed]]} rd {[0%nat := a]} 1)
              (mkAq s [] [] (mkLoop (retrying a) [] false (Sending 0 failed)) {[0%nat := [failed]]} rd {[0%nat := a]} 1).
Proof.
  intros He Hh. split_and!.
  - pose proof (step_signal honest (mkAq s [] [] (mkLoop (retrying a) [] true Idle) {[0%nat := []]} rd {[0%nat := a]} 1)
      AccQueryErr eq_refl eq_refl) as Hs. simpl in Hs. erewrite on_signal_failed in Hs by done.
    apply Hs. by intros req [= <-].
  - pose proof (step_send honest (mkAq s [] [] (mkLoop (retrying a) [] false (Sending 0 failed)) {[0%nat := []]} rd {[0%nat := a]} 1)
      0 failed eq_refl) as Hs. simpl in Hs. rewrite insert_singleton_eq in Hs. apply Hs. by rewrite lookup_singleton_eq.
  - pose proof (step_signal honest (mkAq s [] [] (mkLoop (retrying a) [] true Idle) {[0%nat := [failed]]} rd {[0%nat := a]} 1)
      AccQueryErr eq_refl eq_refl) as Hs. simpl in Hs. erewrite on_signal_failed in Hs by done.
    apply Hs. by intros req [= <-].
Qed.

Lemma reach_wedge honest (s : S) (a : string) e :
  st_GetAccountPublicKey s a = Err e -> is_not_exists e = true -> honest a AccQueryErr ->
  exists st, rtc (step honest) (init s) st /\ wedged 0 st /\ unanswered 1 st.
Proof.
  intros He Hne Hh.
  exists (mkAq s [] [] (mkLoop (retrying a) [] false (Sending 0 failed)) {[0%nat := [failed]]} ∅ {[0%nat := a]} 1).
  destruct (retry honest s a e {[0%nat]} He Hh) as (R1 & R2 & _).
  destruct (retry honest s a e ∅ He Hh) as (Q1 & Q2 & Q3).
  split.
  - eapply rtc_l; [apply (step_client_asks honest (init s) 0 a); [|unfold chan_cap; simpl; lia|done]|].
    { unfold GetAccountPublicKey_start. simpl. by rewrite He, Hne. }
    eapply rtc_l; [by eapply step_accCh|]. simpl. rewrite insert_empty, union_empty_r_L, insert_empty.
    eapply rtc_l; [exact R1|]. eapply rtc_l; [exact R2|].
    eapply rtc_l; [eapply (step_client_reads honest _ 0 failed); simpl; [set_solver|by rewrite lookup_singleton_eq]|].
    simpl. rewrite insert_singleton_eq, difference_diag_L.
    eapply rtc_l; [exact Q1|]. eapply rtc_l; [exact Q2|]. eapply rtc_l; [exact Q3|]. apply rtc_refl.
  - split; [split_and!|split]; simpl.
    + exists failed, failed. by rewrite lookup_singleton_eq.
    + set_solver.
    + lia.
    + lia.
    + intros m Hm. rewrite lookup_singleton_ne by lia. by left.
Qed.

(** C37: a lookup of an account the chain does not answer for is answered with the
    error and also put back, so that its next answers go to a channel nobody reads: the
    third send blocks the goroutine for good. Whatever happens then, it serves no other
    request, no later client gets an answer, and it does not stop when its context ends,
    so that [Close] waits for ever. One request of a client with an unknown account is
    enough. *)
Theorem unknown_account_wedges_querier honest (s : S) (a : string) (e : storage_error) :
  st_GetAccountPublicKey s a = Err e -> is_not_exists e = true -> honest a AccQueryErr ->
  exists st, rtc (step honest) (init s) st /\
    forall st', rtc (step honest) st st' ->
      (exists r, ph (lp st') = Sending 0 r) /\
      forall n, (1 <= n)%nat -> n ∈ readers st' -> bufs st' !! n <> None -> bufs st' !! n = Some [].
Proof.
  intros He Hne Hh. destruct (reach_wedge honest s a e He Hne Hh) as (st & Hr & Hw).
  exists st. split; [done|]. intros st' Hr'.
  destruct (rtc_preserves (step honest) (fun st => wedged 0 st /\ unanswered 1 st)) with (s := st) (s' := st')
    as [((r & x & Hp & _) & _) [_ Hu]]; [|done|done|].
  - intros x y. apply wedged_step. lia.
  - split; [by exists r|]. intros n Hn _ Hb. by destruct (Hu n Hn).
Qed.

(** ** Answers *)

Section Honest.
Context {gives : PubKey -> Prop} `{HSL : !StorageLaws S gives}.
Variable chain_key : string -> option PubKey.

(** Every key the chain has is one the storage gives back as it was. *)
Hypothesis chain_gives : forall a k, chain_key a = Some k -> gives k.

(** The chain answers for the account that was asked, with its key. *)
Definition chain_honest (acc : string) (ans : account_answer) : Prop :=
  match ans with AccFound addr pk => addr = acc /\ pk = chain_key acc | _ => True end.

Definition answers_ok (acc : string) (r : accResp) : Prop := pr_err r = None -> pr_pubkey r = chain_key acc.

Definition req_ok (st : aq) (r : accReq) : Prop :=
  match ar_resp r with Some n => asked st !! n = Some (ar_acc r) | None => True end.

Definition stored_ok (s : S) : Prop := forall a k, st_GetAccountPublicKey s a = Ok k -> chain_key a = Some k.

Definition answers_inv (st : aq) : Prop :=
  stored_ok (storage st) /\
  (forall r, r ∈ accCh st ++ leaseCh st ++ prioRequests (lp st) ++ requests (lp st) -> req_ok st r) /\
  (forall n r, (exists l, bufs st !! n = Some l /\ r ∈ l) \/ ph (lp st) = Sending n r ->
     exists a, asked st !! n = Some a /\ answers_ok a r) /\
  (forall n, is_Some (asked st !! n) -> (n < fresh_ch st)%nat).

Lemma stored_ok_add s acc pk : stored_ok s -> pk = chain_key acc -> stored_ok (st_AddAccount s acc pk).1.
Proof.
  intros Hs -> a k. destruct (decide (acc = a)) as [<-|Hne]; [|rewrite sl_add_other by done; apply Hs].
  destruct (st_AddAccount s acc (chain_key acc)) as [s' [[]|e]] eqn:E; simpl.
  - destruct (chain_key acc) as [k'|] eqn:Ek; [|by apply sl_add_nil in E].
    rewrite (sl_add_ok _ _ _ _ (chain_gives _ _ Ek) E). congruence.
  - rewrite (sl_add_err _ _ _ _ _ acc E). apply Hs.
Qed.

Lemma resolve_ok s acc ans :
  stored_ok s -> chain_honest acc ans ->
  stored_ok (resolve s acc ans).1.1 /\ answers_ok acc (resolve s acc ans).1.2.
Proof.
  intros Hs Ha. unfold resolve. destruct (st_GetAccountPublicKey s acc) as [k|e] eqn:E.
  { split; [done|]. intros _. by rewrite (Hs _ _ E). }
  destruct ans as [| |addr pk]; [done..|]. destruct Ha as [-> Hpk].
  pose proof (stored_ok_add s acc pk Hs Hpk) as Hs'. destruct (st_AddAccount s acc pk) as [s' [[]|e']]; simpl in *.
  - split; [done|by intros _].
  - destruct (is_exists e'); (split; [done|by intros _]).
Qed.

Lemma elem_trySignal l r :
  r ∈ prioRequests (trySignal l) ++ requests (trySignal l) <-> r ∈ prioRequests l ++ requests l.
Proof. unfold trySignal. by destruct (prioRequests l) eqn:E1, (requests l) eqn:E2; simpl; rewrite ?E1, ?E2. Qed.

Lemma ph_trySignal l : ph (trySignal l) = ph l.
Proof. unfold trySignal. by destruct (prioRequests l), (requests l). Qed.

Lemma req_ok_asked st st' r : (forall n a, asked st !! n = Some a -> asked st' !! n = Some a) -> req_ok st r -> req_ok st' r.
Proof. intros Ha. unfold req_ok. destruct (ar_resp r); eauto. Qed.

(** What serving the head of the queues does to the loop. *)
Lemma on_signal_served s l ans :
  queued l ->
  exists (req : accReq) (rest : list accReq), head (prioRequests l ++ requests l) = Some req /\
    (on_signal s l ans).1 = (resolve s (ar_acc req) ans).1.1 /\
    (forall r, r ∈ prioRequests (on_signal s l ans).2 ++ requests (on_signal s l ans).2 -> r = req \/ r ∈ rest) /\
    (forall r, r ∈ rest -> r ∈ prioRequests l ++ requests l) /\
    (forall n r, ph (on_signal s l ans).2 = Sending n r -> ar_resp req = Some n /\ r = (resolve s (ar_acc req) ans).1.2).
Proof.
  unfold queued, on_signal. intros Hq. destruct (prioRequests l) as [|req p] eqn:Ep.
  - destruct (requests l) as [|req q] eqn:Eq; [done|]. exists req, q.
    destruct (resolve s (ar_acc req) ans) as [[s' resp] again]. simpl. rewrite andb_false_r. split_and!; [done|done| | |].
    + destruct (ar_resp req); [|intros r; rewrite elem_trySignal]; simpl; try intros r; destruct again; simpl;
        rewrite ?elem_of_app, ?list_elem_of_singleton; tauto.
    + intros r. rewrite elem_of_cons. tauto.
    + destruct (ar_resp req); simpl; [by intros n' r [= -> ->]|]. intros n' r. by rewrite ph_trySignal.
  - exists req, (p ++ requests l). destruct (resolve s (ar_acc req) ans) as [[s' resp] again]. simpl.
    rewrite andb_false_r. split_and!; [done|done| | |].
    + destruct (ar_resp req); [|intros r; rewrite elem_trySignal]; simpl; try intros r; destruct again; simpl;
        rewrite ?elem_of_app, ?list_elem_of_singleton; tauto.
    + intros r. rewrite elem_of_cons. tauto.
    + destruct (ar_resp req); simpl; [by intros n' r [= -> ->]|]. intros n' r. by rewrite ph_trySignal.
Qed.

Lemma answers_inv_init s : stored_ok s -> answers_inv (init s).
Proof.
  intros Hs. split_and!; simpl; [done|no_elem| |].
  - intros n r [(l & E & _)|[=]]. by rewrite lookup_empty in E.
  - intros n [a E]. by rewrite lookup_empty in E.
Qed.

(** A step that keeps the clients and takes the loop to [l']. *)
Lemma answers_inv_loop st s' ch ch' l' :
  answers_inv st -> stored_ok s' ->
  (forall r, r ∈ ch ++ ch' ++ prioRequests l' ++ requests l' -> req_ok st r) ->
  (forall n r, ph l' = Sending n r -> exists a, asked st !! n = Some a /\ answers_ok a r) ->
  answers_inv (mkAq s' ch ch' l' (bufs st) (readers st) (asked st) (fresh_ch st)).
Proof.
  intros (_ & _ & Hb & Hf) Hs Hr Hp. split_and!; simpl; [done|exact Hr| |done].
  intros n r [Hl|Hl]; [by apply Hb; left|by apply Hp].
Qed.

Lemma answers_inv_step st st' :
  signal_inv st /\ answers_inv st -> step chain_honest st st' -> signal_inv st' /\ answers_inv st'.
Proof.
  intros [Hsig Hinv] Hst. split; [by eapply signal_inv_step|].
  pose proof Hinv as (Hs & Hr & Hb & Hf). inversion Hst; subst; simpl in *.
  - apply answers_inv_loop; [done|done| |].
    + intros r'. unfold on_accCh. rewrite !elem_of_app, <- elem_of_app, elem_trySignal. simpl.
      rewrite !elem_of_app, list_elem_of_singleton. intros Hin. apply Hr. rewrite H0.
      rewrite !elem_of_app, elem_of_cons. tauto.
    + intros n r'. unfold on_accCh. rewrite ph_trySignal. simpl. by rewrite H.
  - apply answers_inv_loop; [done|done| |].
    + intros r'. unfold on_leaseCh. rewrite !elem_of_app, <- elem_of_app, elem_trySignal. simpl.
      rewrite !elem_of_app, list_elem_of_singleton. intros Hin. apply Hr. rewrite H0.
      rewrite !elem_of_app, elem_of_cons. tauto.
    + intros n r'. unfold on_leaseCh. rewrite ph_trySignal. simpl. by rewrite H.
  - assert (queued (lp st)) as Hq by (unfold signal_inv in Hsig; rewrite H in Hsig; by apply Hsig).
    destruct (on_signal_served (storage st) (lp st) ans Hq) as (req & rest & Hh & Es & Hin & Hrest & Hsend).
    specialize (H1 req Hh).
    assert (req_ok st req) as Hreq.
    { apply Hr. apply head_Some_elem_of in Hh. rewrite !elem_of_app in *. tauto. }
    destruct (resolve_ok (storage st) (ar_acc req) ans Hs H1) as [Hs' Hans].
    apply answers_inv_loop; [done|by rewrite Es| |].
    + intros r. rewrite (assoc_L (++)), elem_of_app. intros [Hc|Hc].
      * apply Hr. rewrite (assoc_L (++)), elem_of_app. by left.
      * destruct (Hin r Hc) as [->|Hc']; [done|]. apply Hr. rewrite (assoc_L (++)), elem_of_app. right. by apply Hrest.
    + intros n r Hp. destruct (Hsend n r Hp) as [En ->]. unfold req_ok in Hreq. rewrite En in Hreq. eauto.
  - apply answers_inv_loop; [done|done|done|done].
  - split_and!; simpl; [done| | |done].
    + intros r'. rewrite (assoc_L (++)), elem_of_app, elem_trySignal. simpl. intros Hin. apply Hr.
      by rewrite (assoc_L (++)), elem_of_app.
    + intros n r' [(l & El & Hl)|Hl]; [|by rewrite ph_trySignal in Hl].
      rewrite lookup_insert in El. case_decide as Hd; [|apply Hb; left; eauto].
      simplify_eq. apply list_elem_of_singleton in Hl as ->. apply Hb. by right.
  - assert (forall m a', asked st !! m = Some a' -> <[fresh_ch st := a]> (asked st) !! m = Some a') as Hask.
    { intros m a' E. rewrite lookup_insert_ne; [done|]. intros <-.
      specialize (Hf (fresh_ch st) (mk_is_Some _ _ E)). lia. }
    split_and!; simpl; [done| | |].
    + intros r. rewrite !elem_of_app, list_elem_of_singleton. intros Hin.
      assert (r = mkAccReq a (Some (fresh_ch st)) \/ r ∈ accCh st ++ leaseCh st ++ prioRequests (lp st) ++ requests (lp st))
        as [->|Hin'] by (rewrite !elem_of_app; tauto).
      * unfold req_ok. simpl. by rewrite lookup_insert_eq.
      * eapply req_ok_asked, Hr, Hin'. exact Hask.
    + intros n r [(l & El & Hl)|Hl].
      * rewrite lookup_insert in El. case_decide; [simplify_eq; by apply not_elem_of_nil in Hl|].
        destruct (Hb n r) as (a' & Ea & ?); [left; eauto|]. eauto.
      * destruct (Hb n r) as (a' & Ea & ?); [by right|]. eauto.
    + intros n [a' E]. rewrite lookup_insert in E. case_decide; [lia|]. specialize (Hf n (mk_is_Some _ _ E)). lia.
  - split_and!; simpl; [done|done| |done]. intros m r' [(l & El & Hl)|Hl]; [|apply Hb; by right].
    rewrite lookup_insert in El. case_decide; [simplify_eq; by apply not_elem_of_nil in Hl|]. apply Hb. left. eauto.
  - done.
  - apply answers_inv_loop; [done|done| |intros n r Hp; apply Hb; by right].
    intros r. rewrite !elem_of_app, list_elem_of_singleton. intros Hin.
    assert (r = mkAccReq owner None \/ r ∈ accCh st ++ leaseCh st ++ prioRequests (lp st) ++ requests (lp st))
      as [->|Hin'] by (rewrite !elem_of_app; tauto); [done|by apply Hr].
  - apply answers_inv_loop; [done| |done|intros n r Hp; apply Hb; by right].
    intros b k'. rewrite sl_cert_key. apply Hs.
Qed.

(** C25: when the chain answers for the account it is asked about, the key a client
    reads without an error is the chain's key of the account that client asked for,
    however the requests of the others, their answers and the background are interleaved
    with its own. Stated for a storage that at the start holds, for each account it has, the
    chain's key of it (a new one holds none), and for keys of the kind the storage gives back:
    any key with the storage in memory, a secp256k1 key with the one in a database, as the
    database makes a secp256k1 key of whatever it stored, and as long as the bytes of its
    keys are still there when they are read after the transaction. *)
Theorem public_key_answers_right (s : S) (st : aq) (n : nat) (r : accResp) :
  stored_ok s -> rtc (step chain_honest) (init s) st ->
  bufs st !! n = Some [r] -> pr_err r = None ->
  exists a, asked st !! n = Some a /\ pr_pubkey r = chain_key a.
Proof.
  intros Hs Hr Hb He.
  destruct (rtc_preserves (step chain_honest) (fun st => signal_inv st /\ answers_inv st) answers_inv_step (init s) st)
    as [_ (_ & _ & Hbuf & _)]; [split; [apply init_signal_inv|by apply answers_inv_init]|done|].
  destruct (Hbuf n r) as (a & Ha & Hok); [left; exists [r]; split; [done|apply list_elem_of_here]|].
  exists a. split; [done|by apply Hok].
Qed.
End Honest.

(** ** The goroutine that looks certificates up *)

Section Certs.
(** What is left of a PEM text after its first block, and the type of a block that holds a
    public key. *)
Variable pem_rest : string -> string.
Variable PemBlkTypeECPublicKey : string.

Inductive cq_error := CqStorage (e : storage_error) | CqQuery | CqInvalidCertificateValue | CqInvalidPubkeyValue | CqParse.

Record peerCertResp := mkPeerCertResp { pc_cert : option Certificate; pc_pubkey : option CertKey; pc_err : option cq_error }.

(** The certificates the chain has as valid for an owner and a serial number: the texts
    of each and of its public key. *)
Inductive certs_answer := CertsErr | CertsFound (l : list (string * string)).

(** The one block of a text, of the type that is expected. *)
Definition pem_block (ty : string) (invalid : cq_error) (text : string) : result cq_error string :=
  match pem_decode text with
  | None => Err invalid
  | Some (t, bytes) =>
      if negb (String.eqb (pem_rest text) "") then Err invalid
      else if String.eqb t ty then Ok bytes else Err invalid
  end.

Definition certsQuerier (s : S) (acc : string) (ans : certs_answer) : S * peerCertResp :=
  match ans with
  | CertsErr => (s, mkPeerCertResp None None (Some CqQuery))
  | CertsFound [] => (s, mkPeerCertResp None None None)
  | CertsFound ((cert, pubkey) :: _) =>
      match pem_block Bolt.PemBlkTypeCertificate CqInvalidCertificateValue cert with
      | Err e => (s, mkPeerCertResp None None (Some e))
      | Ok bytes =>
          match ParseCertificate bytes with
          | None => (s, mkPeerCertResp None None (Some CqParse))
          | Some c =>
              match pem_block PemBlkTypeECPublicKey CqInvalidPubkeyValue pubkey with
              | Err e => (s, mkPeerCertResp (Some c) None (Some e))
              | Ok bytes =>
                  match ParsePKIX bytes with
                  | None => (s, mkPeerCertResp (Some c) None (Some CqParse))
                  | Some k => ((st_AddAccountCertificate s acc (Some c) (Some k)).1, mkPeerCertResp (Some c) (Some k) None)
                  end
              end
          end
      end
  end.

(** The method: the storage first, then the goroutine above. *)
Definition GetAccountCertificate (s : S) (acc : string) (serial : Z) (ans : certs_answer) : S * peerCertResp :=
  match st_GetAccountCertificate s acc (Some serial) with
  | Ok (c, k) => (s, mkPeerCertResp (Some c) (Some k) None)
  | Err e => if is_not_exists e then certsQuerier s acc ans else (s, mkPeerCertResp None None (Some (CqStorage e)))
  end.

(** A certificate that neither the storage nor the chain has is answered with no
    certificate and no error. *)
Theorem absent_certificate_no_error (s : S) acc serial e :
  st_GetAccountCertificate s acc (Some serial) = Err e -> is_not_exists e = true ->
  GetAccountCertificate s acc serial (CertsFound []) = (s, mkPeerCertResp None None None).
Proof. intros He Hn. unfold GetAccountCertificate. by rewrite He, Hn. Qed.

Lemma step_keeps_certificate {gives : PubKey -> Prop} `{!StorageLaws S gives} honest st st' acc serial ck :
  st_GetAccountCertificate (storage st) acc serial = Ok ck -> step honest st st' ->
  st_GetAccountCertificate (storage st') acc serial = Ok ck.
Proof.
  intros Hg Hst. inversion Hst; subst; simpl in *; try done; [|by apply sl_cert_cert].
  assert (forall a an, st_GetAccountCertificate (resolve (storage st) a an).1.1 acc serial = Ok ck) as Hr.
  { intros a an. unfold resolve. destruct (st_GetAccountPublicKey (storage st) a); [done|]. destruct an; [done..|].
    pose proof (sl_cert_add (storage st) addr pk acc serial ck Hg) as Hc.
    destruct (st_AddAccount (storage st) addr pk) as [s' [[]|e']]; [done|]. by destruct (is_exists e'). }
  unfold on_signal. destruct (prioRequests (lp st)) as [|r p]; [destruct (requests (lp st)) as [|r q]; [done|]|];
    specialize (Hr (ar_acc r) ans); by destruct (resolve (storage st) (ar_acc r) ans) as [[s' resp] again].
Qed.

(** A certificate in the storage is answered from there for ever: nothing the
    querier does removes it and the chain is not asked again, so it is accepted after the
    chain has revoked it. *)
Theorem cached_certificate_never_revoked {gives : PubKey -> Prop} `{!StorageLaws S gives} honest st st' acc serial c k :
  st_GetAccountCertificate (storage st) acc (Some serial) = Ok (c, k) -> rtc (step honest) st st' ->
  forall ans, GetAccountCertificate (storage st') acc serial ans = (storage st', mkPeerCertResp (Some c) (Some k) None).
Proof.
  intros Hg Hr ans. unfold GetAccountCertificate.
  assert (st_GetAccountCertificate (storage st') acc (Some serial) = Ok (c, k)) as ->; [|done].
  revert Hg Hr. apply (rtc_preserves (step honest) (fun st => st_GetAccountCertificate (storage st) acc (Some serial) = Ok (c, k))).
  intros x y. apply step_keeps_certificate.
Qed.

(** ** The certificates of the provider *)

Section Run.
Context {TlsCert : Type}.
Variable Dir : string -> string.

Record accountQuerierOptions := mkOptions { tlsDomain : string; tlsCertFile : string; tlsKeyFile : string; mtlsPemFile : string }.

(** [pending] is the certificate whose lookup [mtlsRespCh] waits for. *)
Record rstate := mkRstate {
  mtlsCerts : list TlsCert; caCerts : list TlsCert; cOpts : accountQuerierOptions; watched : list string;
  pending : option (list TlsCert)
}.

(** [newAccountQuerier] from the options and what is on disk: [None] when it fails. [stat] says
    whether the certificate's file is there, [load] what its pair is, [mtls] the provider's own. *)
Definition newAccountQuerier (o : accountQuerierOptions) (stat : bool) (load mtls : option TlsCert) (add : bool)
  : option rstate :=
  match
    (if String.eqb (tlsCertFile o) "" then Some ([], [])
     else match (if stat then load ≫= fun c => Some [c] else Some []) with
          | None => None
          | Some ca => if add then Some (ca, [Dir (tlsCertFile o)]) else None
          end)
  with
  | None => None
  | Some (ca, w) => match mtls with None => None | Some m => Some (mkRstate [m] ca o w None) end
  end.

(** Events of [run] with what the file system says when they are handled. *)
Inductive revent :=
| RDomainCert (files : option (string * string)) (stat : bool) (load : option TlsCert) (add : bool)
| RLeaseWon (owner : option string)
| RGetMTLS
| RGetCACerts
| RMtlsResp (err : option cq_error)
| RFile (name : string) (created renamed removed : bool) (key : option (Z * TlsCert)) (load : option TlsCert).

Inductive reffect := RAnswer (certs : list TlsCert) | RAskAccount (owner : string) | RAskCertificate (serial : Z).

Definition set_ca (r : rstate) (ca : list TlsCert) : rstate := mkRstate (mtlsCerts r) ca (cOpts r) (watched r) (pending r).

(** The topic of the domain's certificate is subscribed to only when no file was given at the
    start: [subscribed]. *)
Definition certs_run_step (subscribed : bool) (r : rstate) (ev : revent) : option (rstate * list reffect) :=
  match ev with
  | RDomainCert files stat load add =>
      if negb subscribed then None
      else match files with
      | None => Some (r, [])
      | Some (cf, kf) =>
          let o := mkOptions (tlsDomain (cOpts r)) cf kf (mtlsPemFile (cOpts r)) in
          let r := mkRstate (mtlsCerts r) (caCerts r) o (watched r) (pending r) in
          match (if stat then load ≫= fun c => Some [c] else Some (caCerts r)) with
          | None => Some (r, [])
          | Some ca =>
              let w := if decide (Dir cf ∈ watched r) then watched r
                       else if add then watched r ++ [Dir cf] else watched r in
              Some (mkRstate (mtlsCerts r) ca o w (pending r), [])
          end
      end
  | RLeaseWon None => Some (r, [])
  | RLeaseWon (Some owner) => Some (r, [RAskAccount owner])
  | RGetMTLS => Some (r, [RAnswer (mtlsCerts r)])
  | RGetCACerts => Some (r, [RAnswer (caCerts r)])
  | RMtlsResp err =>
      match pending r with
      | None => None
      | Some certs =>
          Some (mkRstate (if err is None then certs else mtlsCerts r) (caCerts r) (cOpts r) (watched r) None, [])
      end
  | RFile name created renamed removed key load =>
      if negb (String.eqb (mtlsPemFile (cOpts r)) "") && String.eqb name (mtlsPemFile (cOpts r)) then
        if created || renamed then
          match key with
          | None => Some (r, [])
          | Some (serial, cert) =>
              Some (mkRstate (mtlsCerts r) (caCerts r) (cOpts r) (watched r) (Some [cert]), [RAskCertificate serial])
          end
        else if removed then Some (mkRstate [] (caCerts r) (cOpts r) (watched r) (pending r), [])
        else Some (r, [])
      else if negb (String.eqb (tlsCertFile (cOpts r)) "") && String.eqb name (tlsCertFile (cOpts r)) then
        match load with None => Some (r, []) | Some c => Some (set_ca r [c], []) end
      else Some (r, [])
  end.

Fixpoint certs_run_steps (subscribed : bool) (r : rstate) (evs : list revent) : option (rstate * list reffect) :=
  match evs with
  | [] => Some (r, [])
  | ev :: evs' =>
      match certs_run_step subscribed r ev with
      | None => None
      | Some (r', es) => match certs_run_steps subscribed r' evs' with None => None | Some (r'', es') => Some (r'', es ++ es') end
      end
  end.

(** A new certificate of the provider is to be served once the chain has it. The
    lookup of one the chain does not have has no error, so it is served as well: whatever
    certificate appears in the file replaces the registered one. *)
Theorem unregistered_certificate_served (s : S) (subscribed : bool) (r : rstate) provider serial cert :
  mtlsPemFile (cOpts r) <> ""%string ->
  exists r', certs_run_steps subscribed r
      [RFile (mtlsPemFile (cOpts r)) true false false (Some (serial, cert)) None;
       RMtlsResp (pc_err (certsQuerier s provider (CertsFound [])).2); RGetMTLS] =
    Some (r', [RAskCertificate serial; RAnswer [cert]]).
Proof.
  intros Hf. simpl. destruct (String.eqb_spec (mtlsPemFile (cOpts r)) ""); [done|].
  rewrite String.eqb_refl. simpl. eauto.
Qed.

(** Only directories of the certificate for the domain are watched, never that of
    the provider's own: its file is seen to change only if it is in one of them. *)
Theorem only_domain_directories_watched o stat load mtls add r subscribed evs r' es :
  newAccountQuerier o stat load mtls add = Some r -> certs_run_steps subscribed r evs = Some (r', es) ->
  forall d, d ∈ watched r' ->
    (tlsCertFile o <> ""%string /\ d = Dir (tlsCertFile o)) \/
    exists cf kf st ld ad, RDomainCert (Some (cf, kf)) st ld ad ∈ evs /\ d = Dir cf.
Proof.
  intros Hnew. assert (forall d, d ∈ watched r -> tlsCertFile o <> ""%string /\ d = Dir (tlsCertFile o)) as H0.
  { unfold newAccountQuerier in Hnew. destruct (String.eqb_spec (tlsCertFile o) "").
    - destruct mtls; simplify_eq/=. no_elem.
    - destruct (if stat then _ else _); [|done]. destruct add; [|done]. destruct mtls; simplify_eq/=.
      intros d ->%list_elem_of_singleton. done. }
  clear Hnew. intros Hrun.
  assert (forall d, d ∈ watched r' -> d ∈ watched r \/
            exists cf kf st ld ad, RDomainCert (Some (cf, kf)) st ld ad ∈ evs /\ d = Dir cf) as Hw.
  { clear H0. revert r es Hrun. induction evs as [|ev evs IH]; intros r es; simpl; [intros [= <- <-]; by left|].
    destruct (certs_run_step subscribed r ev) as [[r1 e1]|] eqn:E1; [|done].
    destruct (certs_run_steps subscribed r1 evs) as [[r2 e2]|] eqn:E2; [|done]. intros [= <- _] d Hd.
    destruct (IH _ _ E2 d Hd) as [Hin|(cf & kf & st & ld & ad & Hin & ->)].
    - assert (d ∈ watched r \/ exists cf kf st ld ad, ev = RDomainCert (Some (cf, kf)) st ld ad /\ d = Dir cf)
        as [?|(cf & kf & st & ld & ad & -> & ->)]; [|by left|right; eexists _, _, _, _, _; by split; [apply list_elem_of_here|]].
      clear E2 Hd IH. destruct ev as [files st ld ad| | | | |]; simpl in E1; repeat (case_match; simplify_eq/=; try by left).
      all: rewrite ?elem_of_app, ?list_elem_of_singleton in Hin; destruct_or?; simplify_eq; eauto 10.
    - right. eexists _, _, _, _, _. split; [by apply list_elem_of_further|done]. }
  intros d Hd. destruct (Hw d Hd); [left; by apply H0|by right].
Qed.

End Run.
End Certs.

(** ** The owners of the leases there are *)

Inductive leases_answer := LeasesErr (canceled : bool) | LeasesPage (owners : list (option string)) (nextKey : option string).

(** [leasesQuerier] on the answers it gets: the owners it asks for, and whether it is done. An
    error other than a cancellation is retried; an owner whose address is invalid is skipped. *)
Fixpoint leasesQuerier (nextKey : string) (answers : list leases_answer) : list string * bool :=
  match answers with
  | [] => ([], false)
  | LeasesErr true :: _ => ([], true)
  | LeasesErr false :: rest => leasesQuerier nextKey rest
  | LeasesPage owners pagination :: rest =>
      let nextKey := default nextKey pagination in
      let asked := omap id owners in
      if String.eqb nextKey "" then (asked, true)
      else let '(more, fin) := leasesQuerier nextKey rest in (asked ++ more, fin)
  end.

Definition page_owners (a : leases_answer) : list string :=
  match a with LeasesErr _ => [] | LeasesPage owners _ => omap id owners end.

Definition page_more (a : leases_answer) : Prop :=
  match a with LeasesErr c => c = false | LeasesPage _ k => exists n, k = Some n /\ n <> ""%string end.

(** The querier goes through every page of the provider's active leases, however
    many queries fail on the way, and asks for the account of every owner it can read. *)
Theorem every_lease_owner_asked (pages : list leases_answer) (last : list (option string)) (key : string) :
  Forall page_more pages ->
  leasesQuerier key (pages ++ [LeasesPage last (Some ""%string)]) = (concat (map page_owners pages) ++ omap id last, true).
Proof.
  intros Hm. revert key. induction Hm as [|p ps Hp Hps IH]; intros key; [done|].
  destruct p as [c|owners k]; simpl in *; [subst c; apply IH|]. destruct Hp as (n & -> & Hn). simpl.
  destruct (String.eqb_spec n ""); [done|]. rewrite IH. by rewrite (assoc_L (++)).
Qed.

End Accounts.

(** ** Examples *)

Module AccountExamples.
Import PConfigExamples.

Definition store0 : Mem.impl := Mem.NewMemory.
Definition key0 : PubKey := "key"%string.
Definition cert0 : Certificate := "cert1"%string.
Definition certkey0 : CertKey := "pk"%string.

Lemma unknown_account_wedges_querier_witness :
  exists st, rtc (step (fun _ _ => True)) (init store0) st /\
    forall st', rtc (step (fun _ _ => True)) st st' ->
      (exists r, ph (lp st') = Sending 0 r) /\
      forall n, (1 <= n)%nat -> n ∈ readers st' -> bufs st' !! n <> None -> bufs st' !! n = Some [].
Proof. by apply (unknown_account_wedges_querier (fun _ _ => True) store0 "alice" ErrAccountNotExists). Defined.

Lemma querier_never_panics_witness :
  exists st, rtc (step (fun _ _ => True)) (init store0) st /\ ph (lp st) <> Panicked.
Proof.
  destruct (reach_wedge (fun _ _ => True) store0 "alice" ErrAccountNotExists) as (st & Hr & _); [done..|].
  exists st. split; [done|]. by apply (querier_never_panics (fun _ _ => True) store0).
Defined.

Lemma background_queue_unused_witness :
  exists st, rtc (step (fun _ _ => True)) (init store0) st /\ leaseCh st = [] /\ requests (lp st) = [].
Proof.
  destruct (reach_wedge (fun _ _ => True) store0 "alice" ErrAccountNotExists) as (st & Hr & _); [done..|].
  exists st. split; [done|]. by apply (background_queue_unused (fun _ _ => True) store0).
Defined.

Definition keys (a : string) : option PubKey := if String.eqb a "alice" then Some key0 else None.

Definition answered {S} (s : S) : aq :=
  mkAq s [] [] (mkLoop [] [] false Idle) {[0%nat := [mkAccResp (Some key0) None]]} {[0%nat]} {[0%nat := "alice"%string]} 1.

(** Any storage that is asked for a key it does not have and takes it gets there. *)
Lemma reach_answered {S} `{!Storage S} (s : S) e :
  st_GetAccountPublicKey s "alice" = Err e -> is_not_exists e = true ->
  (st_AddAccount s "alice" (Some key0)).2 = Ok tt ->
  rtc (step (chain_honest keys)) (init s) (answered (st_AddAccount s "alice" (Some key0)).1).
Proof.
  intros Hg He Ha.
  assert (resolve s "alice" (AccFound "alice" (Some key0)) =
    ((st_AddAccount s "alice" (Some key0)).1, mkAccResp (Some key0) None, false)) as Hres.
  { unfold resolve. rewrite Hg. revert Ha. destruct (st_AddAccount s "alice" (Some key0)) as [s' r]. cbn [fst snd]. by intros ->. }
  eapply rtc_l; [apply (step_client_asks _ (init s) 0 "alice");
    [unfold GetAccountPublicKey_start; simpl; by rewrite Hg, He|unfold chan_cap; simpl; lia|done]|].
  eapply rtc_l; [by eapply step_accCh|]. simpl. rewrite insert_empty, union_empty_r_L, insert_empty.
  eapply rtc_l; [eapply (step_signal _ _ (AccFound "alice" (Some key0))); [done|done|by intros req [= <-]]|].
  cbn [storage lp on_accCh trySignal prioRequests requests app]. unfold on_signal. cbn [prioRequests requests ar_acc]. rewrite Hres.
  unfold set_lp. cbn [fst snd accCh leaseCh bufs readers asked fresh_ch andb ar_resp]. eapply rtc_l; [by eapply (step_send _ _ 0)|]. simpl. rewrite insert_singleton_eq. apply rtc_refl.
Qed.

(** A new database. *)
Definition bolt0 : Bolt.impl := default (Bolt.mkImpl (mkTree ∅ ∅) false []) (Bolt.NewBBolt (mkTree ∅ ∅) []).

Lemma store0_empty a k : st_GetAccountPublicKey store0 a = Ok k -> keys a = Some k.
Proof.
  unfold store0, Mem.NewMemory. simpl. unfold Mem.GetAccountPublicKey. destruct (String.eqb a ""); [done|].
  simpl. by rewrite lookup_empty.
Qed.

Lemma bolt0_empty a k : st_GetAccountPublicKey bolt0 a = Ok k -> keys a = Some k.
Proof.
  assert (agree Mem.NewMemory bolt0) as Hag.
  { destruct NewBBolt_new as (b & E & Hag). unfold bolt0. change (mkTree ∅ ∅) with (db_empty (Buckets := tree_Buckets)).
    by rewrite E. }
  destruct (agree_on_GetAccountPublicKey Mem.NewMemory bolt0 a Hag) as [_ Hans]. cbn [serve snd] in Hans. unfold same_answer in Hans.
  injection Hans as Heq. intros Hk. apply store0_empty. etransitivity; [exact Heq|exact Hk].
Qed.

Lemma public_key_answers_right_witness :
  (let s := (st_AddAccount store0 "alice" (Some key0)).1 in
   rtc (step (chain_honest keys)) (init store0) (answered s) /\
   exists a, asked (answered s) !! 0%nat = Some a /\ Some key0 = keys a) /\
  (let s := (st_AddAccount bolt0 "alice" (Some key0)).1 in
   rtc (step (chain_honest keys)) (init bolt0) (answered s) /\
   exists a, asked (answered s) !! 0%nat = Some a /\ Some key0 = keys a).
Proof.
  assert (rtc (step (chain_honest keys)) (init store0) (answered (st_AddAccount store0 "alice" (Some key0)).1)) as H1
    by (apply (reach_answered store0 ErrAccountNotExists); vm_compute; reflexivity).
  assert (rtc (step (chain_honest keys)) (init bolt0) (answered (st_AddAccount bolt0 "alice" (Some key0)).1)) as H2
    by (apply (reach_answered bolt0 ErrAccountNotExists); vm_compute; reflexivity).
  split; (split; [assumption|]).
  - apply (public_key_answers_right keys (fun _ _ _ => I) store0 _ 0 (mkAccResp (Some key0) None) store0_empty H1); reflexivity.
  - apply (public_key_answers_right keys (fun _ _ _ => eq_refl) bolt0 _ 0 (mkAccResp (Some key0) None) bolt0_empty H2); reflexivity.
Defined.

Lemma absent_certificate_no_error_witness :
  GetAccountCertificate id "EC PUBLIC KEY" store0 "alice" 7 (CertsFound []) = (store0, mkPeerCertResp None None None).
Proof. by apply (absent_certificate_no_error id "EC PUBLIC KEY" store0 "alice" 7 ErrAccountNotExists). Defined.

Definition store1 : Mem.impl :=
  (Mem.AddAccountCertificate (Mem.AddAccount store0 "alice" (Some key0)).1 "alice" (Some cert0)
     (Some certkey0)).1.

Lemma cached_certificate_never_revoked_witness :
  exists st', rtc (step (fun _ _ => True)) (init store1) st' /\
    GetAccountCertificate id "EC PUBLIC KEY" (storage st') "alice" 5 (CertsFound []) =
      (storage st', mkPeerCertResp (Some cert0) (Some certkey0) None).
Proof.
  destruct (reach_wedge (fun _ _ => True) store1 "bob" ErrAccountNotExists) as (st & Hr & _); [done..|].
  exists st. split; [done|].
  by apply (cached_certificate_never_revoked id "EC PUBLIC KEY" (fun _ _ => True) (init store1) st "alice" 5).
Defined.

Definition ex_options : accountQuerierOptions := mkOptions "" "/etc/tls/cert.pem" "/etc/tls/key.pem" "/home/p.pem".
Definition ex_rstate : @rstate nat := mkRstate [1]%nat [2]%nat ex_options ["/etc/tls"%string] None.

Lemma unregistered_certificate_served_witness :
  exists r', certs_run_steps id true ex_rstate
      [RFile "/home/p.pem" true false false (Some (7%Z, 3%nat)) None;
       RMtlsResp (pc_err (certsQuerier id "EC PUBLIC KEY" store0 "provider" (CertsFound [])).2); RGetMTLS] =
    Some (r', [RAskCertificate 7; RAnswer [3]%nat]).
Proof. by apply (unregistered_certificate_served id "EC PUBLIC KEY" id store0 true ex_rstate "provider" 7 3%nat). Defined.

Lemma every_lease_owner_asked_witness :
  leasesQuerier "" [LeasesErr false; LeasesPage [Some "alice"%string; None] (Some "k"%string);
                    LeasesPage [Some "bob"%string] (Some ""%string)] = (["alice"; "bob"]%string, true).
Proof.
  apply (every_lease_owner_asked [LeasesErr false; LeasesPage [Some "alice"%string; None] (Some "k"%string)]
    [Some "bob"%string] "").
  repeat constructor. by eexists.
Defined.

Lemma only_domain_directories_watched_witness :
  exists r r' es, newAccountQuerier id ex_options true (Some 2%nat) (Some 1%nat) true = Some r /\
    certs_run_steps id false r [RGetMTLS] = Some (r', es) /\
    ("/home"%string ∈ watched r' -> False).
Proof.
  eexists _, _, _. split; [reflexivity|]. split; [reflexivity|]. intros Hin.
  destruct (only_domain_directories_watched id ex_options true (Some 2%nat) (Some 1%nat) true _ false [RGetMTLS] _ _
    eq_refl eq_refl _ Hin) as [[_ [=]]|(cf & kf & st & ld & ad & He & _)].
  by apply list_elem_of_singleton in He.
Defined.

End AccountExamples.
