(* ===== verification/HttpErrors.v ===== *)
(** * Errors and the status codes they become

    Model of [utils/httperror/httperror.go], [cluster/kube/errors/errors.go],
    [gateway/rest/cluster_errors.go], [manifest/gateway.go] and of the parts of
    [gateway/rest/auth.go], [gateway/rest/router.go] and [gateway/utils/utils.go] that turn an
    error into an answer. A Go error is a tree: an error may wrap another, or several;
    [errors.Is] and [errors.As] search it in pre-order. *)

From Stdlib Require Import ZArith Lia Ascii.
From stdpp Require Import base gmap list strings tactics.
From S2P Require Import Prelude Builder.

(** ** Errors *)

(** The errors the code compares with. *)
Inductive sentinel :=
| STokenInvalidClaims | STokenExpired | STokenNotValidYet | STokenUsedBeforeIssued
| SOsNotExist | SConnRefused | SConnReset
| SNoDeploymentForLease | SLeaseNotFound | SNoManifestForLease | SNoServiceForLease
| SExec | SHostnameNotAllowed
| SManifestVersion | SInvalidManifest | SManifestCrossValidation | SManifestRejected | SNoLeaseForDeployment.

#[global] Instance sentinel_eq_dec : EqDecision sentinel.
Proof. solve_decision. Defined.

(** Every error carries its text, but for [HttpError], which has that of the error in it.
    [EStatus] is an error of the Kubernetes API. *)
Inductive go_error :=
| ENew (msg : string)
| ESentinel (s : sentinel) (msg : string)
| EWrap (msg : string) (e : go_error)
| EJoin (msg : string) (es : list go_error)
| EHttp (code : Z) (e : go_error)
| EOp (msg : string) (e : go_error)
| EStatus (notFound : bool) (code : Z) (msg : string).

Fixpoint Error (e : go_error) : string :=
  match e with
  | ENew m | ESentinel _ m | EWrap m _ | EJoin m _ | EOp m _ | EStatus _ _ m => m
  | EHttp _ e => Error e
  end.

(** [errors.Is]. *)
Fixpoint errors_Is (e : go_error) (s : sentinel) : bool :=
  match e with
  | ENew _ | EStatus _ _ _ => false
  | ESentinel s' _ => bool_decide (s' = s)
  | EWrap _ e | EHttp _ e | EOp _ e => errors_Is e s
  | EJoin _ es => (fix any (l : list go_error) : bool :=
                     match l with [] => false | x :: l' => errors_Is x s || any l' end) es
  end.

(** [errors.As]: the first error of the tree that [pick] takes. *)
Fixpoint errors_As {A} (pick : go_error -> option A) (e : go_error) : option A :=
  match pick e with
  | Some a => Some a
  | None =>
      match e with
      | ENew _ | ESentinel _ _ | EStatus _ _ _ => None
      | EWrap _ e | EHttp _ e | EOp _ e => errors_As pick e
      | EJoin _ es => (fix any (l : list go_error) : option A :=
                         match l with
                         | [] => None
                         | x :: l' => match errors_As pick x with Some a => Some a | None => any l' end
                         end) es
      end
  end.

Definition pick_http (e : go_error) : option (Z * go_error) := match e with EHttp c e => Some (c, e) | _ => None end.
Definition pick_op (e : go_error) : option go_error := match e with EOp _ e => Some e | _ => None end.
Definition pick_status (e : go_error) : option (bool * Z) := match e with EStatus nf c _ => Some (nf, c) | _ => None end.

(** ** [httperror] *)

Definition StatusOK : Z := 200.
Definition StatusBadRequest : Z := 400.
Definition StatusUnauthorized : Z := 401.
Definition StatusNotFound : Z := 404.
Definition StatusUnprocessableEntity : Z := 422.
Definition StatusInternalServerError : Z := 500.
Definition StatusBadGateway : Z := 502.
Definition StatusServiceUnavailable : Z := 503.

Definition NewHttpError (statusCode : Z) (err : go_error) : go_error := EHttp statusCode err.

Definition ErrInvalidAuthHeader : go_error := NewHttpError StatusBadRequest (ENew "invalid authorization header").
Definition ErrJWTInvalidClaims : go_error := NewHttpError StatusBadRequest (ENew "JWT has invalid claims").
Definition ErrAuthAmbiguous : go_error :=
  NewHttpError StatusBadRequest (ENew "auth: ambiguous authentication. may not use mTLS and JWT at the same time").
Definition ErrUnauthorized : go_error := NewHttpError StatusUnauthorized (ENew "unauthorized access").
Definition ErrJWTInvalid : go_error := NewHttpError StatusUnauthorized (ENew "JWT is invalid").
Definition ErrJWTExpired : go_error := NewHttpError StatusUnauthorized (ENew "JWT is expired").

Definition StatusCodeFrom (err : option go_error) : Z :=
  match err with
  | None => StatusOK
  | Some e => match errors_As pick_http e with Some (c, _) => c | None => StatusInternalServerError end
  end.

(** ** Errors of the cluster *)

(** [strings.Contains]. *)
Fixpoint contains (s sub : string) : bool :=
  String.prefix sub s || match s with EmptyString => false | String _ s' => contains s' sub end.

Definition IsKubeAPIUnreachable (err : option go_error) : bool :=
  match err with
  | None => false
  | Some e =>
      match errors_As pick_op e with
      | Some op => errors_Is op SConnRefused || errors_Is op SConnReset
      | None => false
      end
      || (contains (Error e) "apiserver not ready" || String.eqb (trim_space (Error e)) "starting"
          || contains (Error e) "connection refused" || contains (Error e) "connection reset")
  end.

(** [IsNotFound] of the API's errors. *)
Definition IsNotFound (e : go_error) : bool :=
  match errors_As pick_status e with Some (nf, _) => nf | None => false end.

Definition clusterErrorToHTTP (err : option go_error) : option go_error :=
  match err with
  | None => None
  | Some e =>
      Some (if IsKubeAPIUnreachable (Some e) then NewHttpError StatusServiceUnavailable e
            else if errors_Is e SNoDeploymentForLease || errors_Is e SLeaseNotFound || errors_Is e SNoManifestForLease
                    || errors_Is e SNoServiceForLease || IsNotFound e
            then NewHttpError StatusNotFound e
            else NewHttpError StatusInternalServerError e)
  end.

Definition websocketInternalServerErrorCode : Z := 4000.
Definition websocketLeaseNotFound : Z := 4001.
Definition websocketServiceUnavailable : Z := 4002.

Definition websocketCloseCodeFrom (err : option go_error) : Z :=
  let code := StatusCodeFrom (clusterErrorToHTTP err) in
  if (code =? StatusNotFound)%Z then websocketLeaseNotFound
  else if (code =? StatusServiceUnavailable)%Z then websocketServiceUnavailable
  else websocketInternalServerErrorCode.

Definition ErrorIsOkToSendToClient (err : go_error) : bool := errors_Is err SExec.

(** ** Errors of a submitted manifest *)

Definition ManifestSubmitErrorToHTTP (err : option go_error) : option go_error :=
  match err with
  | None => None
  | Some e =>
      Some (if errors_Is e SManifestVersion || errors_Is e SInvalidManifest || errors_Is e SManifestCrossValidation
               || errors_Is e SManifestRejected
            then NewHttpError StatusUnprocessableEntity e
            else if errors_Is e SNoLeaseForDeployment then NewHttpError StatusNotFound e
            else e)
  end.

(** ** Errors of a token *)

(** [valid] is the token's flag, [None] for a nil token. *)
Definition jwtErrorToHTTP (valid : option bool) (err : option go_error) : go_error :=
  match err with
  | None => ErrJWTInvalid
  | Some e =>
      if errors_Is e STokenInvalidClaims then ErrJWTInvalidClaims
      else if errors_Is e STokenExpired then ErrJWTExpired
      else if errors_Is e STokenNotValidYet || errors_Is e STokenUsedBeforeIssued then ErrJWTInvalid
      else ErrJWTInvalid
  end.

(** The error as an answer; what is no [HttpError] is logged and hidden. *)
Definition authErrorResponse (err : go_error) : Z * go_error :=
  match errors_As pick_http err with
  | Some he => he
  | None => (StatusInternalServerError, ENew "unknown error while processing JWT")
  end.

(** ** Codes of gRPC *)

Inductive grpc_code := CodeNotFound | CodeUnavailable | CodeInvalidArgument | CodeInternal | CodePermissionDenied.

Definition HTTPToGRPCCode (httpStatus : Z) : grpc_code :=
  if (httpStatus =? 404)%Z then CodeNotFound
  else if (httpStatus =? 502)%Z then CodeUnavailable
  else if ((400 <=? httpStatus) && (httpStatus <? 500))%Z then CodeInvalidArgument
  else CodeInternal.

(** ** Properties *)

Lemma StatusCodeFrom_http c e : StatusCodeFrom (Some (EHttp c e)) = c.
Proof. done. Qed.

Ltac pick_elem := repeat first [apply list_elem_of_here | apply list_elem_of_further].

(** An error of the cluster is answered with 404 only when something that was
    asked for is missing, with 503 exactly when the API of the cluster cannot be reached,
    and with 500 otherwise; a websocket is closed with the code of the same case. *)
Theorem cluster_error_codes (e : go_error) :
  let code := StatusCodeFrom (clusterErrorToHTTP (Some e)) in
  let missing := errors_Is e SNoDeploymentForLease || errors_Is e SLeaseNotFound || errors_Is e SNoManifestForLease
                 || errors_Is e SNoServiceForLease || IsNotFound e in
  (code = StatusServiceUnavailable <-> IsKubeAPIUnreachable (Some e) = true) /\
  (code = StatusNotFound <-> IsKubeAPIUnreachable (Some e) = false /\ missing = true) /\
  (code = StatusInternalServerError <-> IsKubeAPIUnreachable (Some e) = false /\ missing = false) /\
  (websocketCloseCodeFrom (Some e), code) ∈
    [(websocketLeaseNotFound, StatusNotFound); (websocketServiceUnavailable, StatusServiceUnavailable);
     (websocketInternalServerErrorCode, StatusInternalServerError)].
Proof.
  cbv zeta. unfold websocketCloseCodeFrom, clusterErrorToHTTP, StatusServiceUnavailable, StatusNotFound, StatusInternalServerError.
  destruct (IsKubeAPIUnreachable (Some e)) eqn:E1; simpl.
  - repeat split; try done; try (by intros [? ?]); pick_elem.
  - destruct (errors_Is e SNoDeploymentForLease || _ || _ || _ || IsNotFound e) eqn:E2; simpl;
      repeat split; try done; try (by intros [? ?]); pick_elem.
Qed.

(** What the gateway answers to a submitted manifest that was rejected says so: 422
    for a manifest that is wrong, 404 for one of a deployment with no lease. An error that
    already has a status keeps it. *)
Theorem manifest_error_codes (e : go_error) :
  let code := StatusCodeFrom (ManifestSubmitErrorToHTTP (Some e)) in
  let wrong := errors_Is e SManifestVersion || errors_Is e SInvalidManifest || errors_Is e SManifestCrossValidation
               || errors_Is e SManifestRejected in
  (wrong = true -> code = StatusUnprocessableEntity) /\
  (wrong = false -> errors_Is e SNoLeaseForDeployment = true -> code = StatusNotFound) /\
  (wrong = false -> errors_Is e SNoLeaseForDeployment = false -> code = StatusCodeFrom (Some e)).
Proof.
  cbv zeta. unfold ManifestSubmitErrorToHTTP.
  destruct (errors_Is e SManifestVersion || _ || _ || _) eqn:E1; [by repeat split|].
  destruct (errors_Is e SNoLeaseForDeployment) eqn:E2; by repeat split.
Qed.

(** The claims of a token that has expired are invalid, and the library says both:
    the case for invalid claims comes first, so no such token is answered with
    [ErrJWTExpired], and the client is told 400 instead of 401. *)
Theorem expired_token_told_invalid_claims (valid : option bool) (e : go_error) :
  errors_Is e STokenInvalidClaims = true -> errors_Is e STokenExpired = true ->
  jwtErrorToHTTP valid (Some e) = ErrJWTInvalidClaims /\
  StatusCodeFrom (Some (jwtErrorToHTTP valid (Some e))) = StatusBadRequest.
Proof. intros H1 H2. unfold jwtErrorToHTTP. by rewrite H1. Qed.

(** Whatever goes wrong with a request's credentials, the text of an error that is not
    meant for clients is not sent to them. *)
Theorem auth_errors_hidden (e : go_error) :
  let '(code, shown) := authErrorResponse e in
  (exists inner, errors_As pick_http e = Some (code, inner) /\ shown = inner) \/
  (code = StatusInternalServerError /\ Error shown = "unknown error while processing JWT"%string).
Proof. unfold authErrorResponse. destruct (errors_As pick_http e) as [[c i]|]; [left; eauto|by right]. Qed.

Module HttpErrorExamples.

(** What [jwt.ParseWithClaims] returns for a token that has expired. *)
Definition expired : go_error :=
  EJoin "token has invalid claims: token is expired"
    [ESentinel STokenInvalidClaims "token has invalid claims"; ESentinel STokenExpired "token is expired"].

Lemma expired_token_told_invalid_claims_witness :
  jwtErrorToHTTP (Some false) (Some expired) = ErrJWTInvalidClaims /\
  StatusCodeFrom (Some (jwtErrorToHTTP (Some false) (Some expired))) = StatusBadRequest.
Proof. by apply (expired_token_told_invalid_claims (Some false) expired). Defined.

End HttpErrorExamples.
