(* ===== verification/GatewayAuth.v ===== *)
(** * Who a request is from and what it may do

    Model of [gateway/utils/utils.go], [gateway/rest/auth.go], [gateway/rest/middleware.go]
    and of [authInterceptor] of [gateway/grpc/server.go]: the TLS configuration of the
    gateways, the claims a request proves with a certificate or a token, and the
    middlewares that check them against the lease or deployment that is asked for.

    Tokens and the permissions in them belong to other modules: [JWT] has the operations
    the gateway calls, [JWTLaws] what their documentation says of them. *)

From Stdlib Require Import ZArith Lia Ascii.
From stdpp Require Import base gmap list strings tactics.
From S2P Require Import Prelude Types Names Builder HttpErrors.

(** ** Claims *)

Inductive AccessType := AccessTypeNone | AccessTypeFull | AccessTypeOther (s : string).

Inductive PermissionScope :=
| PermissionScopeSendManifest | PermissionScopeGetManifest | PermissionScopeStatus | PermissionScopeEvents
| PermissionScopeLogs | PermissionScopeShell | PermissionScopeAttestation.

(** [cl_perms] is the rest of the token: what it grants. *)
Record ClaimsOf (P : Type) := mkClaims {
  cl_Issuer : string; cl_Version : string; cl_IssuedAt : option Z; cl_NotBefore : option Z; cl_ExpiresAt : option Z;
  cl_Access : AccessType; cl_perms : P
}.
Arguments mkClaims {P}. Arguments cl_Issuer {P}. Arguments cl_Version {P}. Arguments cl_IssuedAt {P}.
Arguments cl_NotBefore {P}. Arguments cl_ExpiresAt {P}. Arguments cl_Access {P}. Arguments cl_perms {P}.

Class JWT := {
  Perms : Type; no_perms : Perms;
  AccountKey : Type;
  Claims := ClaimsOf Perms;
  Validate : Claims -> option go_error;
  (** The address of the issuer, the empty string when there is none. *)
  IssuerAddress : Claims -> string;
  AuthorizeForProvider : Claims -> string -> bool;
  AuthorizeForDeploymentID : Claims -> DeploymentID -> string -> bool;
  AuthorizeForLeaseID : Claims -> LeaseID -> bool;
  AuthorizeDeploymentIDForPermissionScope : Claims -> DeploymentID -> string -> PermissionScope -> bool;
  AuthorizeLeaseIDForPermissionScope : Claims -> LeaseID -> PermissionScope -> bool;
  (** The error, the token's flag and the claims read from it. The function finds the key
      for the claims; the list names the accepted algorithms. *)
  ParseWithClaims : string -> (Claims -> result go_error (AccountKey * string)) -> list string ->
    option go_error * option bool * Claims;
  (** The token's signature verifies under the key of the account. *)
  signed_by : string -> AccountKey -> string -> bool
}.

(** A token that parses was signed by the key that was found for its claims. *)
Class JWTLaws `{JWT} := {
  parse_signed tok kf ms c :
    ParseWithClaims tok kf ms = (None, Some true, c) ->
    exists pk iss, kf c = Ok (pk, iss) /\ signed_by tok pk iss = true;
  (** Without an issuer there is no address, and the address is that of the issuer. *)
  issuer_address c : cl_Issuer c = ""%string -> IssuerAddress c = ""%string
}.

Section Auth.
Context `{HJ : JWT} `{HB : Bech32}.

(** ** Authentication *)

(** The function [GetAccountPublicKey] of the account querier found in the context, if there
    is one. *)
Definition account_querier := option (string -> result go_error AccountKey).

Definition find_key (q : account_querier) (c : Claims) : result go_error (AccountKey * string) :=
  match bech32_canonical (cl_Issuer c) with
  | None => Err (ENew "invalid issuer address")
  | Some iss =>
      match q with
      | None => Err (ENew "account querier is not set")
      | Some get =>
          match get iss with
          | Ok pk => Ok (pk, iss)
          | Err e => if errors_Is e SOsNotExist then Err ErrJWTInvalid else Err e
          end
      end
  end.

Definition no_claims : Claims := mkClaims "" "" None None None AccessTypeNone no_perms.

(** The claims of the owner of a certificate, at the time [now] in seconds. *)
Definition mtls_claims (owner : string) (now : Z) : Claims :=
  mkClaims owner "v1" (Some now) (Some now) (Some (now + 900)%Z) AccessTypeFull no_perms.

Definition valid_methods : list string := ["ES256K"; "ES256KADR36"]%string.

Definition token_claims (q : account_querier) (token : string) : result go_error Claims :=
  match ParseWithClaims token (find_key q) valid_methods with
  | (None, Some true, c) => Ok c
  | (err, valid, _) => Err (jwtErrorToHTTP valid err)
  end.

(** [peerCerts] are the common names of the certificates the peer sent. *)
Definition AuthProcess (q : account_querier) (now : Z) (peerCerts : list string) (token : string)
  : result go_error Claims :=
  let claims : result go_error Claims :=
    match peerCerts with
    | [cn] =>
        match bech32_canonical cn with
        | None => Err (ENew "invalid address")
        | Some owner =>
            let claims := mtls_claims owner now in
            match Validate claims with Some e => Err e | None => Ok claims end
        end
    | _ => Ok no_claims
    end in
  match claims with
  | Err e => Err e
  | Ok claims =>
      match cl_Access claims with
      | AccessTypeNone =>
          if String.eqb token "" then Ok claims
          else token_claims q token
      | _ => if String.eqb token "" then Ok claims else Err ErrAuthAmbiguous
      end
  end.

(** ** Tokens in headers *)

(** [strings.Fields], on ASCII text. *)
Fixpoint fields_aux (s cur : string) : list string :=
  match s with
  | EmptyString => if String.eqb cur "" then [] else [cur]
  | String c s' =>
      if is_space c then (if String.eqb cur "" then [] else [cur]) ++ fields_aux s' ""
      else fields_aux s' (cur +:+ String c "")
  end.
Definition Fields (s : string) : list string := fields_aux s "".

(** REST: no header is no token, and a header that is no bearer token is an error. *)
Definition AuthHeaderTokenExtractor (header : string) : result go_error string :=
  if String.eqb header "" then Ok ""%string
  else match Fields header with
       | [scheme; tok] => if String.eqb (to_lower scheme) "bearer" then Ok tok else Err ErrInvalidAuthHeader
       | _ => Err ErrInvalidAuthHeader
       end.

(** gRPC: the first value, without the scheme if it has one. *)
Definition grpc_token (values : list string) : string :=
  match values with
  | [] => ""
  | tok :: _ => match Fields tok with
                | [scheme; t] => if String.eqb (to_lower scheme) "bearer" then t else tok
                | _ => tok
                end
  end.

Definition authInterceptor (q : account_querier) (now : Z) (peerCerts : list string) (authorization : list string)
  : result go_error Claims := AuthProcess q now peerCerts (grpc_token authorization).

(** ** TLS *)

Record tls_config (C : Type) := mkTlsConfig { tc_certs : list C; tc_client_auth : bool }.
Arguments mkTlsConfig {C}. Arguments tc_certs {C}. Arguments tc_client_auth {C}.

(** [GetConfigForClient]: the certificate for the domain when the client asks for the
    domain and there is one, else the provider's own, with the client's certificate asked
    for. *)
Definition GetConfigForClient {C} (sni serverName : string) (ca mtls : result go_error (list C))
  : result go_error (tls_config C) :=
  let own := match mtls with Err e => Err e | Ok certs => Ok (mkTlsConfig certs true) end in
  if String.eqb serverName sni then
    match ca with
    | Ok (c :: cs) => Ok (mkTlsConfig (c :: cs) false)
    | _ => own
    end
  else own.

(** [VerifyPeerCertificate] of a configuration that asks for certificates: all must parse, and
    the chain must be one the querier knows. *)
Fixpoint parse_all {A B} (parse : A -> option B) (l : list A) : option (list B) :=
  match l with
  | [] => Some []
  | x :: l' => y ← parse x; ys ← parse_all parse l'; Some (y :: ys)
  end.

Definition VerifyPeerCertificate {X} (parse : string -> option X) (validate : list X -> option go_error)
    (certificates : list string) : option go_error :=
  match certificates with
  | [] => None
  | _ => match parse_all parse certificates with
         | None => Some (ENew "parse certificate")
         | Some certs => validate certs
         end
  end.

(** ** The context of a request *)

Record Request := mkRequest {
  r_auth : string;                 (* the Authorization header *)
  r_peers : list string;           (* the common names of the peer's certificates *)
  r_vars : gmap string string;     (* the variables of the path *)
  r_query : gmap string string     (* the first value of each parameter *)
}.

Definition query_get (r : Request) (k : string) : string := default ""%string (r_query r !! k).
Definition var_get (r : Request) (k : string) : string := default ""%string (r_vars r !! k).

(** The values the middlewares leave for the handlers. *)
Record rctx := mkCtx {
  x_provider : option string; x_claims : option Claims; x_owner : option string; x_lease : option LeaseID;
  x_deployment : option DeploymentID; x_service : option string; x_follow : option bool; x_tail : option (option Z);
  x_services : option string
}.

Definition no_ctx : rctx := mkCtx None None None None None None None None None.

Definition set_provider (x : rctx) v := mkCtx (Some v) (x_claims x) (x_owner x) (x_lease x) (x_deployment x) (x_service x) (x_follow x) (x_tail x) (x_services x).
Definition set_claims (x : rctx) v := mkCtx (x_provider x) (Some v) (x_owner x) (x_lease x) (x_deployment x) (x_service x) (x_follow x) (x_tail x) (x_services x).
Definition set_owner (x : rctx) v := mkCtx (x_provider x) (x_claims x) (Some v) (x_lease x) (x_deployment x) (x_service x) (x_follow x) (x_tail x) (x_services x).
Definition set_lease (x : rctx) v := mkCtx (x_provider x) (x_claims x) (x_owner x) (Some v) (x_deployment x) (x_service x) (x_follow x) (x_tail x) (x_services x).
Definition set_deployment (x : rctx) v := mkCtx (x_provider x) (x_claims x) (x_owner x) (x_lease x) (Some v) (x_service x) (x_follow x) (x_tail x) (x_services x).
Definition set_service (x : rctx) v := mkCtx (x_provider x) (x_claims x) (x_owner x) (x_lease x) (x_deployment x) (Some v) (x_follow x) (x_tail x) (x_services x).
Definition set_stream (x : rctx) f t s := mkCtx (x_provider x) (x_claims x) (x_owner x) (x_lease x) (x_deployment x) (x_service x) (Some f) (Some t) (Some s).

(** An answer: its status and its text, or the value it is made of. *)
Record response := mkResponse { rs_status : Z; rs_text : string }.

(** A step of the chain answers, goes on, or panics on a value that was not set. *)
Inductive verdict := Respond (r : response) | Next (x : rctx) | Panic.

Definition with_value {A B} (o : option A) (panic : B) (k : A -> B) : B := match o with Some a => k a | None => panic end.

Definition writeAuthError (e : go_error) : verdict :=
  let '(code, shown) := authErrorResponse e in Respond (mkResponse code (Error shown)).

(** ** Middlewares *)

Inductive middleware :=
| MProvider | MAuth | MAuthorizeProvider | MRequireOwner | MRequireDeploymentID | MRequireLeaseID
| MScopeDeployment (s : PermissionScope) | MScopeLease (s : PermissionScope) | MRequireService | MStreamParams.

(** [dtypes.ParseDeploymentPath] and [mquery.ParseLeasePath]. *)
Class Paths := {
  ParseDeploymentPath : list string -> option DeploymentID;
  ParseLeasePath : list string -> option LeaseID
}.

Context `{HPa : Paths} (addr : string) (q : account_querier) (now : Z).

Definition parseDeploymentID (x : rctx) (r : Request) : option (option DeploymentID) :=
  owner ← x_owner x; Some (ParseDeploymentPath [owner; var_get r "dseq"]).

Definition parseLeaseID (x : rctx) (r : Request) : option (option LeaseID) :=
  owner ← x_owner x; provider ← x_provider x;
  Some (ParseLeasePath [owner; var_get r "dseq"; var_get r "gseq"; var_get r "oseq"; provider]).

(** [strconv.ParseBool]. *)
Definition ParseBool (s : string) : option bool :=
  if existsb (String.eqb s) ["1"; "t"; "T"; "TRUE"; "true"; "True"]%string then Some true
  else if existsb (String.eqb s) ["0"; "f"; "F"; "FALSE"; "false"; "False"]%string then Some false
  else None.

(** [strconv.ParseInt(s, 10, 32)]. *)
Definition ParseInt32 (s : string) : option Z :=
  let '(neg, body) := match s with
                      | String c rest => if Ascii.eqb c "-" then (true, rest)
                                         else if Ascii.eqb c "+" then (false, rest) else (false, s)
                      | EmptyString => (false, s)
                      end in
  n ← ParseUint 64 body;
  let z := if neg then (- n)%Z else n in
  if ((- 2 ^ 31 <=? z) && (z <? 2 ^ 31))%Z then Some z else None.

Definition bad_request (msg : string) : verdict := Respond (mkResponse StatusBadRequest msg).

Definition quoted (s : string) : string := String "034" (s +:+ String "034" "").

Definition requestStreamParams (x : rctx) (r : Request) : verdict :=
  let services := query_get r "service" in
  if has_suffix services "," then bad_request ("parameter " +:+ quoted "service" +:+ " must not contain trailing comma")
  else
    let follow := query_get r "follow" in
    match (if String.eqb follow "" then Some false else ParseBool follow) with
    | None => bad_request "follow"
    | Some follow =>
        let tail := query_get r "tail" in
        match (if String.eqb tail "" then Some (-1)%Z else ParseInt32 tail) with
        | None => bad_request "tail"
        | Some vl =>
            if (vl <? -1)%Z then bad_request ("parameter " +:+ quoted "tail" +:+ " contains invalid value")
            else Next (set_stream x follow (if (-1 <? vl)%Z then Some vl else None) services)
        end
    end.

Definition prepareAuthMiddleware (x : rctx) (r : Request) : verdict :=
  match AuthHeaderTokenExtractor (r_auth r) with
  | Err e => writeAuthError e
  | Ok tok => match AuthProcess q now (r_peers r) tok with
              | Err e => writeAuthError e
              | Ok claims => Next (set_claims x claims)
              end
  end.

Definition authorizeProviderMiddleware (x : rctx) (r : Request) : verdict :=
  with_value (x_provider x) Panic (fun provider =>
  with_value (x_claims x) Panic (fun claims =>
    if AuthorizeForProvider claims provider then Next x else writeAuthError ErrUnauthorized)).

Definition requireOwner (x : rctx) (r : Request) : verdict :=
  with_value (x_claims x) Panic (fun claims =>
    if String.eqb (IssuerAddress claims) "" then writeAuthError ErrUnauthorized
    else Next (set_owner x (IssuerAddress claims))).

Definition requireDeploymentID (x : rctx) (r : Request) : verdict :=
  with_value (parseDeploymentID x r) Panic (fun did =>
    match did with
    | None => bad_request "deployment"
    | Some id =>
        with_value (x_claims x) Panic (fun claims =>
        with_value (x_provider x) Panic (fun provider =>
          if AuthorizeForDeploymentID claims id provider then Next (set_deployment x id)
          else writeAuthError ErrUnauthorized))
    end).

Definition requireLeaseID (x : rctx) (r : Request) : verdict :=
  with_value (parseLeaseID x r) Panic (fun lid =>
    match lid with
    | None => bad_request "lease"
    | Some id =>
        with_value (x_claims x) Panic (fun claims =>
          if AuthorizeForLeaseID claims id then Next (set_lease x id) else writeAuthError ErrUnauthorized)
    end).

Definition requireEndpointScopeForDeploymentID (s : PermissionScope) (x : rctx) (r : Request) : verdict :=
  with_value (x_claims x) Panic (fun claims =>
  with_value (x_deployment x) Panic (fun did =>
  with_value (x_provider x) Panic (fun provider =>
    if AuthorizeDeploymentIDForPermissionScope claims did provider s then Next x
    else writeAuthError ErrUnauthorized))).

Definition requireEndpointScopeForLeaseID (s : PermissionScope) (x : rctx) (r : Request) : verdict :=
  with_value (x_claims x) Panic (fun claims =>
  with_value (x_lease x) Panic (fun lid =>
    if AuthorizeLeaseIDForPermissionScope claims lid s then Next x else writeAuthError ErrUnauthorized)).

Definition requireService (x : rctx) (r : Request) : verdict :=
  let svc := var_get r "serviceName" in
  if String.eqb svc "" then bad_request "empty service name" else Next (set_service x svc).

Definition run_middleware (m : middleware) (x : rctx) (r : Request) : verdict :=
  match m with
  | MProvider => Next (set_provider x addr)
  | MAuth => prepareAuthMiddleware x r
  | MAuthorizeProvider => authorizeProviderMiddleware x r
  | MRequireOwner => requireOwner x r
  | MRequireDeploymentID => requireDeploymentID x r
  | MRequireLeaseID => requireLeaseID x r
  | MScopeDeployment s => requireEndpointScopeForDeploymentID s x r
  | MScopeLease s => requireEndpointScopeForLeaseID s x r
  | MRequireService => requireService x r
  | MStreamParams => requestStreamParams x r
  end.

Fixpoint run_middlewares (ms : list middleware) (x : rctx) (r : Request) : verdict :=
  match ms with
  | [] => Next x
  | m :: ms' => match run_middleware m x r with Next x' => run_middlewares ms' x' r | v => v end
  end.

(** ** Properties *)

(** How claims were proved. *)
Inductive proved (peerCerts : list string) (token : string) : Claims -> Prop :=
| proved_nothing : token = ""%string -> (forall cn, peerCerts <> [cn]) -> proved peerCerts token no_claims
| proved_mtls cn owner :
    token = ""%string -> peerCerts = [cn] -> bech32_canonical cn = Some owner -> Validate (mtls_claims owner now) = None ->
    proved peerCerts token (mtls_claims owner now)
| proved_token c pk iss get :
    token <> ""%string -> (forall cn, peerCerts <> [cn]) ->
    bech32_canonical (cl_Issuer c) = Some iss -> q = Some get -> get iss = Ok pk -> signed_by token pk iss = true ->
    proved peerCerts token c.

(** Claims are proved, by exactly one of three means: by nothing, and then they are
    empty; by the one certificate of the peer, and then they are its owner's; or by a
    token that the key the account querier has for its issuer has signed. *)
Theorem claims_are_proved `{!JWTLaws} (peerCerts : list string) (token : string) (c : Claims) :
  AuthProcess q now peerCerts token = Ok c -> proved peerCerts token c.
Proof.
  unfold AuthProcess.
  assert ((forall cn, peerCerts <> [cn]) -> (if String.eqb token "" then Ok no_claims else token_claims q token) = Ok c ->
          proved peerCerts token c) as Htok.
  { intros Hp. destruct (String.eqb_spec token "") as [->|Hne]; [intros [= <-]; by constructor|]. unfold token_claims.
    destruct (ParseWithClaims token (find_key q) valid_methods) as [[err valid] c'] eqn:E.
    destruct err; [done|]. destruct valid as [[]|]; [|done..]. intros [= ->].
    destruct (parse_signed _ _ _ _ E) as (pk & iss & Hk & Hs). unfold find_key in Hk.
    destruct (bech32_canonical (cl_Issuer c)) as [iss'|] eqn:Eb; [|done]. destruct q as [get|] eqn:Eq; [|done].
    destruct (get iss') as [pk'|] eqn:Eg; [|by destruct (errors_Is _ _)]. simplify_eq. by eapply proved_token. }
  destruct peerCerts as [|cn [|cn' l]]; [by apply Htok| |by apply Htok].
  destruct (bech32_canonical cn) as [owner|] eqn:Eb; [|done]. destruct (Validate (mtls_claims owner now)) eqn:Ev; [done|].
  simpl. destruct (String.eqb_spec token ""); [|done]. intros [= <-]. by eapply proved_mtls.
Qed.

(** A peer that sends a chain of several certificates passes the handshake and is
    nobody: its certificate is not looked at, and without a token it has no claims. *)
Theorem certificate_chain_is_anonymous (c1 c2 : string) (more : list string) :
  AuthProcess q now (c1 :: c2 :: more) "" = Ok no_claims.
Proof. done. Qed.

Lemma fields_aux_word s cur :
  (forall n c, String.get n s = Some c -> is_space c = false) ->
  fields_aux s cur = if String.eqb (cur +:+ s) "" then [] else [cur +:+ s].
Proof.
  revert cur. induction s as [|c s IH]; intros cur Hs; simpl; [by rewrite string_app_nil_r|].
  rewrite (Hs 0%nat c eq_refl). rewrite IH by (intros n; apply (Hs (S n))).
  by rewrite string_app_snoc.
Qed.

(** A bearer token in the header is the token, in whatever case the scheme is
    written; the two gateways read it alike. *)
Theorem bearer_token_read (scheme token : string) :
  scheme ∈ ["Bearer"; "bearer"; "BEARER"]%string -> token <> ""%string ->
  (forall n c, String.get n token = Some c -> is_space c = false) ->
  AuthHeaderTokenExtractor (scheme +:+ " " +:+ token) = Ok token /\
  grpc_token [scheme +:+ " " +:+ token] = token.
Proof.
  intros Hin Hne Hs. assert (Fields (scheme +:+ " " +:+ token) = [scheme; token]) as Hf.
  { unfold Fields. rewrite !elem_of_cons in Hin. destruct Hin as [->|[->|[->|Hin]]]; [| | |by apply not_elem_of_nil in Hin];
      simpl; rewrite fields_aux_word by done; change ("" +:+ "" +:+ token)%string with token; by destruct (String.eqb_spec token ""). }
  unfold AuthHeaderTokenExtractor, grpc_token. rewrite Hf.
  rewrite !elem_of_cons in Hin. by destruct Hin as [->|[->|[->|Hin]]]; [| | |by apply not_elem_of_nil in Hin].
Qed.

(** A client that is asked for a certificate and sends some is served only if they
    all parse and the chain is one the querier has; one that asks for the domain is served
    the domain's certificate when there is one, and is not asked. *)
Theorem peer_certificates_verified {X C} (parse : string -> option X) validate certificates (sni name : string)
    (ca mtls : result go_error (list C)) cfg :
  GetConfigForClient sni name ca mtls = Ok cfg ->
  (tc_client_auth cfg = false <-> name = sni /\ exists c cs, ca = Ok (c :: cs)) /\
  (VerifyPeerCertificate parse validate certificates = None -> certificates <> [] ->
     exists xs, parse_all parse certificates = Some xs /\ validate xs = None).
Proof.
  intros Hc. split.
  - unfold GetConfigForClient in Hc. destruct (String.eqb_spec name sni) as [->|Hne].
    + destruct ca as [[|c cs]|e]; [..|].
      * destruct mtls; simplify_eq/=. split; [done|by intros (_ & ? & ? & [=])].
      * simplify_eq/=. split; eauto.
      * destruct mtls; simplify_eq/=. split; [done|by intros (_ & ? & ? & [=])].
    + destruct mtls; simplify_eq/=. split; [done|by intros [? _]].
  - unfold VerifyPeerCertificate. destruct certificates as [|c cs]; [done|]. intros Hv _.
    destruct (parse_all parse (c :: cs)) as [xs|]; [by exists xs|done].
Qed.

Lemma run_middlewares_app ms ms' x r :
  run_middlewares (ms ++ ms') x r = match run_middlewares ms x r with Next x' => run_middlewares ms' x' r | v => v end.
Proof.
  revert x. induction ms as [|m ms IH]; intros x; simpl; [done|]. by destruct (run_middleware m x r).
Qed.

(** The number of lines asked for of a stream is absent, or a 32-bit natural number;
    a stream without parameters has neither a tail nor a follow. *)
Theorem stream_params_bounded (x x' : rctx) (r : Request) :
  requestStreamParams x r = Next x' ->
  match x_tail x' with
  | Some (Some n) => (0 <= n < 2 ^ 31)%Z
  | Some None => True
  | None => False
  end /\ has_suffix (query_get r "service") "," = false /\
  (query_get r "tail" = ""%string -> x_tail x' = Some None) /\
  (query_get r "follow" = ""%string -> x_follow x' = Some false).
Proof.
  unfold requestStreamParams. destruct (has_suffix (query_get r "service") ","); [done|].
  destruct (if String.eqb (query_get r "follow") "" then _ else _) as [f|] eqn:Ef; [|done].
  destruct (if String.eqb (query_get r "tail") "" then _ else _) as [v|] eqn:Et; [|done].
  destruct (Z.ltb_spec v (-1)); [done|]. intros [= <-]. simpl. split_and!; [|done| |].
  - destruct (Z.ltb_spec (-1) v); [|done]. destruct (String.eqb (query_get r "tail") ""); [simplify_eq; lia|].
    unfold ParseInt32 in Et. destruct (match query_get r "tail" with EmptyString => _ | _ => _ end) as [neg body].
    destruct (ParseUint 64 body) as [n|]; [|done]. simpl in Et.
    destruct (_ && _) eqn:Eb; [|done]. apply andb_prop in Eb as [? ?]. simplify_eq. lia.
  - intros Ht. rewrite Ht in Et. by simplify_eq/=.
  - intros Hf. rewrite Hf in Ef. by simplify_eq/=.
Qed.

End Auth.
