(* ===== verification/Gateway.v ===== *)
(** * The REST gateway

    Model of [gateway/rest/router.go], [router_migrate.go], [router_migrate_endpoint.go] and
    [attestation.go], and of [gateway/grpc/lease_server.go]: the endpoints with the
    middlewares each goes through, and what their handlers ask of the rest of the
    provider. Which endpoint a path belongs to and the variables of the path are given by
    the router of another module. A handler is a computation that makes calls and may
    answer early; the answers of the cluster, the manifest service and the hostname service
    are those of a [Backend]. *)

From Stdlib Require Import ZArith Lia Ascii.
From stdpp Require Import base gmap list strings pretty tactics.
From S2P Require Import Prelude Types Names CRD Deploy Builder ClusterService HttpErrors GatewayAuth.

(** ** Handlers *)

Record LeaseIPStatus := mkLeaseIPStatus {
  ips_port : Z; ips_external : Z; ips_service : string; ips_ip : string; ips_protocol : string
}.

Record LeasedIPStatus := mkLeasedIPStatus { lip_port : Z; lip_external : Z; lip_protocol : string; lip_ip : string }.

Definition crd_group := Crd.Group SchedulerParams.

(** What the handlers use: the answers of the cluster, of its service, of the manifest and
    hostname services. [V] is a value that is only passed on. *)
Record Backend (V : Type) := mkBackend {
  b_KubeVersion : result go_error V;
  b_Status : result go_error V;
  (** The pair of leased IPs, if the status has one. *)
  b_StatusV1 : result go_error (option V);
  b_GetManifestGroup : LeaseID -> result go_error (option crd_group);
  b_FromCRD : crd_group -> result go_error V;
  b_GetIPAddressStatus : option (OrderID -> result go_error (list LeaseIPStatus));
  b_ForwardedPortStatus : LeaseID -> result go_error V;
  b_LeaseStatus : LeaseID -> result go_error V;
  b_ServiceStatus : LeaseID -> string -> result go_error V;
  b_AttestationQuote : LeaseID -> string -> Z -> string -> result (go_error * Z) (string * Z);
  b_Submit : DeploymentID -> V -> option go_error;
  b_FindActiveLease : string -> Z -> Z -> result go_error (option (LeaseID * crd_group));
  b_PrepareHostnamesForTransfer : list string -> LeaseID -> option go_error;
  b_TransferHostname : LeaseID -> string -> string -> Z -> option go_error;
  b_DeclareIP : LeaseID -> string -> Z -> Z -> string -> string -> option go_error
}.

Inductive gcall {V : Type} :=
| CKubeVersion | CStatus | CStatusV1
| CGetManifestGroup (lid : LeaseID) | CGetIPAddressStatus (oid : OrderID) | CForwardedPortStatus (lid : LeaseID)
| CLeaseStatus (lid : LeaseID) | CServiceStatus (lid : LeaseID) (service : string)
| CAttestationQuote (lid : LeaseID) (service : string) (podIndex : Z) (body : string)
| CSubmit (did : DeploymentID) (mani : V)
| CFindActiveLease (owner : string) (dseq gseq : Z)
| CPrepareHostnames (hostnames : list string) (lid : LeaseID)
| CTransferHostname (lid : LeaseID) (hostname service : string) (externalPort : Z)
| CDeclareIP (lid : LeaseID) (service : string) (port externalPort : Z) (proto sharingKey : string).
#[global] Arguments gcall : clear implicits.

(** Values a handler answers with. *)
Inductive value {V : Type} :=
| VAny (v : V)
| VAddress (a : string)
| VStatus (status : V) (address : string) (leasedIP : option V)
| VLeaseStatus (ips : option (gmap string (list LeasedIPStatus))) (ports : option V) (services : V)
| VTransferred (names : list string)
| VRaw (body : string).
#[global] Arguments value : clear implicits.

(** A websocket that was opened, with what is to be streamed on it. *)
Inductive upgrade :=
| UEvents (lid : LeaseID) (follow : bool) (services : string)
| ULogs (lid : LeaseID) (services : string) (follow : bool) (tailLines : option Z)
| UShell (lid : LeaseID) (service : string) (podIndex : Z) (cmd : list string) (tty stdin : bool).

Inductive reply {V : Type} := RText (r : response) | RJson (status : Z) (v : value V) | RUpgrade (u : upgrade).
#[global] Arguments reply : clear implicits.

(** A handler makes calls and answers; an error answers early. *)
Definition handler (V A : Type) := (list (gcall V) * result (reply V) A)%type.

Definition hret {V A} (a : A) : handler V A := ([], Ok a).
Definition hanswer {V A} (r : reply V) : handler V A := ([], Err r).
Definition hcall {V A} (c : gcall V) (a : A) : handler V A := ([c], Ok a).
Definition hbind {V A B} (m : handler V A) (k : A -> handler V B) : handler V B :=
  match m with
  | (cs, Ok a) => let '(cs', r) := k a in (cs ++ cs', r)
  | (cs, Err e) => (cs, Err e)
  end.
Notation "'let!' x ':=' m 'in' k" := (hbind m (fun x => k)) (at level 10, x pattern, m at level 100, k at level 200) : go_scope.

Definition hexpect {V A} (r : result go_error A) (f : go_error -> reply V) : handler V A :=
  match r with Ok a => hret a | Err e => hanswer (f e) end.

#[global] Arguments hbind : simpl never.
#[global] Arguments hcall : simpl never.

Lemma hbind_ret {V A B} (a : A) (k : A -> handler V B) : hbind (hret a) k = k a.
Proof. unfold hbind, hret. by destruct (k a). Qed.

Lemma hbind_call {V A B} c (a : A) (k : A -> handler V B) : hbind (hcall c a) k = (c :: (k a).1, (k a).2).
Proof. unfold hbind, hcall. by destruct (k a). Qed.

Lemma hbind_answer {V A B} r (k : A -> handler V B) : hbind (hanswer r) k = hanswer r.
Proof. done. Qed.

Section Handlers.
Context {V : Type} `{HD : DeployAPI} `{HJ : JWT} (be : Backend V) (provider : string).
Local Open Scope go_scope.

Definition http_Error (msg : string) (code : Z) : reply V := RText (mkResponse code msg).
Definition WriteHeader (code : Z) : reply V := RText (mkResponse code "").

Definition writeClusterError (e : go_error) : reply V :=
  http_Error (Error e) (StatusCodeFrom (clusterErrorToHTTP (Some e))).

Definition error_reply (e : go_error) : reply V := http_Error (Error e) (StatusCodeFrom (Some e)).

(** What the body of a request decodes to. *)
Record migrateRequestBody := mkMigrate { mb_names : list string; mb_dseq : Z; mb_gseq : Z }.
Inductive body := BodyNone | BodyManifest (m : result go_error V) | BodyMigrate (b : option migrateRequestBody) | BodyRaw (b : option string).

Definition createVersionHandler : handler V (reply V) :=
  let! kube := hcall CKubeVersion (b_KubeVersion _ be) in
  let! v := hexpect kube writeClusterError in hret (RJson StatusOK (VAny v)).

Definition createAddressHandler : handler V (reply V) := hret (RJson StatusOK (VAddress provider)).

(** The failure of the second status is logged only. *)
Definition createStatusHandler : handler V (reply V) :=
  let! status := hcall CStatus (b_Status _ be) in
  let! v := hexpect status error_reply in
  let! v1 := hcall CStatusV1 (b_StatusV1 _ be) in
  hret (RJson StatusOK (VStatus v provider (match v1 with Ok ip => ip | Err _ => None end))).

Definition createManifestHandler (did : DeploymentID) (b : body) : handler V (reply V) :=
  match b with
  | BodyManifest (Ok mani) =>
      let! err := hcall (CSubmit did mani) (b_Submit _ be did mani) in
      match err with Some e => hret (error_reply e) | None => hret (WriteHeader StatusOK) end
  | BodyManifest (Err e) => hret (http_Error (Error e) StatusUnprocessableEntity)
  | _ => hret (WriteHeader StatusUnprocessableEntity)
  end.

Definition getManifestHandler (lid : LeaseID) : handler V (reply V) :=
  let! res := hcall (CGetManifestGroup lid) (b_GetManifestGroup _ be lid) in
  let! found := hexpect res writeClusterError in
  match found with
  | None => hret (http_Error "lease not found" StatusNotFound)
  | Some grp => let! mgrp := hexpect (b_FromCRD _ be grp) error_reply in hret (RJson StatusOK (VAny mgrp))
  end.

(** ** The status of a lease *)

Definition group_exposes (g : crd_group) : list (Crd.Service SchedulerParams * Crd.ServiceExpose) :=
  s ← Crd.Services g; e ← Crd.Exposes s; [(s, e)].

Definition hasLeasedIPs (g : crd_group) : bool :=
  existsb (fun s => existsb (fun e => negb (String.eqb (Crd.IP e) "")) (Crd.Exposes s)) (Crd.Services g).

Definition hasForwardedPorts (g : crd_group) : bool :=
  existsb (fun s => existsb (fun e => Crd.Global e && negb (Crd.ExternalPort e =? 80)%Z) (Crd.Exposes s)) (Crd.Services g).

Definition group_ips (l : list LeaseIPStatus) : gmap string (list LeasedIPStatus) :=
  foldl (fun m ip =>
    <[ips_service ip := default [] (m !! ips_service ip) ++
        [mkLeasedIPStatus (ips_port ip) (ips_external ip) (ips_protocol ip) (ips_ip ip)]]> m) ∅ l.

Definition leaseStatusHandler (lid : LeaseID) : handler V (reply V) :=
  let! res := hcall (CGetManifestGroup lid) (b_GetManifestGroup _ be lid) in
  let! found := hexpect res writeClusterError in
  match found with
  | None => hret (WriteHeader StatusNotFound)
  | Some grp =>
      let! ips :=
        match b_GetIPAddressStatus _ be with
        | Some get =>
            if hasLeasedIPs grp then
              let! res := hcall (CGetIPAddressStatus (lease_order lid)) (get (lease_order lid)) in
              let! l := hexpect res writeClusterError in hret (Some (group_ips l))
            else hret None
        | None => hret None
        end in
      let! ports :=
        if hasForwardedPorts grp then
          let! res := hcall (CForwardedPortStatus lid) (b_ForwardedPortStatus _ be lid) in
          let! p := hexpect res writeClusterError in hret (Some p)
        else hret None in
      let! res := hcall (CLeaseStatus lid) (b_LeaseStatus _ be lid) in
      let! services := hexpect res writeClusterError in
      hret (RJson StatusOK (VLeaseStatus ips ports services))
  end.

Definition leaseServiceStatusHandler (lid : LeaseID) (service : string) : handler V (reply V) :=
  let! res := hcall (CServiceStatus lid service) (b_ServiceStatus _ be lid service) in
  let! v := hexpect res writeClusterError in hret (RJson StatusOK (VAny v)).

(** ** Attestation *)

Definition createAttestationQuoteHandler (lid : LeaseID) (r : Request) (b : body) : handler V (reply V) :=
  let service := query_get r "service" in
  let pidx := query_get r "podIndex" in
  let! podIndex :=
    if String.eqb pidx "" then hret 0%Z
    else if String.eqb service "" then hanswer (http_Error "podIndex requires service parameter" StatusBadRequest)
    else match ParseUint 31 pidx with
         | None => hanswer (http_Error "invalid podIndex parameter" StatusBadRequest)
         | Some idx => hret idx
         end in
  match b with
  | BodyRaw (Some bytes) =>
      let bytes := String.substring 0 4096 bytes in
      let! res := hcall (CAttestationQuote lid service podIndex bytes) (b_AttestationQuote _ be lid service podIndex bytes) in
      match res with
      | Err (e, code) => hret (http_Error ("attestation quote failed: " +:+ Error e) code)
      | Ok (resp, code) => hret (RJson code (VRaw resp))
      end
  | _ => hret (http_Error "failed to read request body" StatusBadRequest)
  end.

(** The call of gRPC: the lease is in the request, and only the scope is checked. [sidecarReq] is
    the encoded nonce. *)
Definition grpc_AttestationQuote (claims : Claims) (lid : LeaseID) (sidecarReq : string)
  : list (gcall V) * result grpc_code string :=
  if AuthorizeLeaseIDForPermissionScope claims lid PermissionScopeAttestation then
    ([CAttestationQuote lid "" 0 sidecarReq],
     match b_AttestationQuote _ be lid "" 0 sidecarReq with
     | Err (_, code) => Err (HTTPToGRPCCode code)
     | Ok (resp, _) => Ok resp
     end)
  else ([], Err CodePermissionDenied).

(** ** Migration of hostnames *)

(** The service and the port of each hostname of the group; of a hostname exposed twice, the
    last. *)
Definition host_entries (g : crd_group) : list (string * (string * Z)) :=
  se ← group_exposes g; h ← Crd.Hosts se.2;
  [(h, (Crd.Name se.1, if (Crd.ExternalPort se.2 =? 0)%Z then Crd.Port se.2 else Crd.ExternalPort se.2))].

Definition hostnameTo (g : crd_group) : gmap string (string * Z) :=
  foldl (fun m kv => <[kv.1 := kv.2]> m) ∅ (host_entries g).

Fixpoint transfer_all (lid : LeaseID) (m : gmap string (string * Z)) (hostnames : list string) : handler V unit :=
  match hostnames with
  | [] => hret tt
  | h :: hs =>
      let '(svc, port) := default (""%string, 0%Z) (m !! h) in
      let! err := hcall (CTransferHostname lid h svc port) (b_TransferHostname _ be lid h svc port) in
      match err with
      | Some e => hanswer (http_Error ("failed transferring " +:+ quoted h +:+ ": " +:+ Error e) StatusInternalServerError)
      | None => transfer_all lid m hs
      end
  end.

(** The lease of the destination, which must exist. *)
Definition find_destination (owner : string) (b : migrateRequestBody) : handler V (LeaseID * crd_group) :=
  let! res := hcall (CFindActiveLease owner (mb_dseq b) (mb_gseq b)) (b_FindActiveLease _ be owner (mb_dseq b) (mb_gseq b)) in
  let! found := hexpect res (fun _ => WriteHeader StatusInternalServerError) in
  match found with
  | None => hanswer (http_Error "destination deployment does not exist" StatusBadRequest)
  | Some lg => hret lg
  end.

(** What is done once the destination is found. *)
Definition migrate_to (names : list string) (lid : LeaseID) (g : crd_group) : handler V (reply V) :=
  let m := hostnameTo g in
  match List.find (fun h => match m !! h with None => true | Some _ => false end) names with
  | Some h => hret (http_Error ("the hostname " +:+ quoted h +:+ " is not used by this deployment") StatusBadRequest)
  | None =>
      let! err := hcall (CPrepareHostnames names lid) (b_PrepareHostnamesForTransfer _ be names lid) in
      match err with
      | Some e => if errors_Is e SHostnameNotAllowed then hret (http_Error (Error e) StatusBadRequest)
                  else hret (WriteHeader StatusInternalServerError)
      | None => let! _ := transfer_all lid m names in hret (RJson StatusOK (VTransferred names))
      end
  end.

Definition migrateHandler (owner : string) (b : body) : handler V (reply V) :=
  match b with
  | BodyMigrate (Some mb) =>
      match mb_names mb with
      | [] => hret (WriteHeader StatusBadRequest)
      | _ => let! (lid, g) := find_destination owner mb in migrate_to (mb_names mb) lid g
      end
  | _ => hret (WriteHeader StatusUnprocessableEntity)
  end.

(** ** Migration of endpoints *)

(** [serviceExposeWithName]. *)
Record migration := mkMigration { mg_expose : Crd.ServiceExpose; mg_service : string; mg_proto : string }.

(** The loop over what the group exposes: the IPs found, and what is to be migrated. The check
    of whether an IP was requested looks it up among those found, to which it was just
    added. *)
Fixpoint collect_ips (found : gset string) (l : list (Crd.Service SchedulerParams * Crd.ServiceExpose))
  : result unit (gset string * list migration) :=
  match l with
  | [] => Ok (found, [])
  | (s, e) :: l' =>
      if negb (Crd.Global e) || String.eqb (Crd.IP e) "" then collect_ips found l'
      else
        let found := {[Crd.IP e]} ∪ found in
        if negb (bool_decide (Crd.IP e ∈ found)) then collect_ips found l'
        else match Deploy.ParseServiceProtocol (Crd.Proto e) with
             | None => Err tt
             | Some proto =>
                 let? (found, more) := collect_ips found l' in
                 Ok (found, mkMigration e (Crd.Name s) proto :: more)
             end
  end.

Fixpoint declare_all (lid : LeaseID) (l : list migration) : handler V unit :=
  match l with
  | [] => hret tt
  | m :: l' =>
      let port := wrap32 (Crd.Port (mg_expose m)) in
      let external := wrap32 (DetermineExposedExternalPort (mg_expose m)) in
      let key := MakeIPSharingKey lid (Crd.IP (mg_expose m)) in
      let! err := hcall (CDeclareIP lid (mg_service m) port external (mg_proto m) key)
                        (b_DeclareIP _ be lid (mg_service m) port external (mg_proto m) key) in
      match err with Some e => hanswer (writeClusterError e) | None => declare_all lid l' end
  end.

Definition migrate_endpoints_to (names : list string) (lid : LeaseID) (g : crd_group) : handler V (reply V) :=
  match collect_ips ∅ (group_exposes g) with
  | Err _ => hret (WriteHeader StatusInternalServerError)
  | Ok (found, l) =>
      match List.find (fun n => negb (bool_decide (n ∈ found))) names with
      | Some n => hret (http_Error ("the endpoint " +:+ quoted n +:+ " does not exist in the destination deployment")
                          StatusBadRequest)
      | None => let! _ := declare_all lid l in hret (RJson StatusOK (VTransferred names))
      end
  end.

Definition migrateEndpointHandler (owner : string) (b : body) : handler V (reply V) :=
  match b with
  | BodyMigrate (Some mb) =>
      match mb_names mb with
      | [] => hret (WriteHeader StatusBadRequest)
      | _ => let! (lid, g) := find_destination owner mb in migrate_endpoints_to (mb_names mb) lid g
      end
  | _ => hret (WriteHeader StatusUnprocessableEntity)
  end.

(** ** The shell *)

(** The parameters [cmd0], [cmd1], ... up to the first that is missing or empty. *)
Fixpoint shell_cmd (fuel : nat) (r : Request) (i : N) : list string :=
  match fuel with
  | O => []
  | S fuel' => let v := query_get r ("cmd" +:+ pretty i) in
               if String.eqb v "" then [] else v :: shell_cmd fuel' r (i + 1)
  end.

Definition lower_byte (c : ascii) : nat := nat_of_ascii (lower_ascii c).

Definition digit_value (c : ascii) : option Z :=
  let n := lower_byte c in
  if (48 <=? n)%nat && (n <=? 57)%nat then Some (Z.of_nat (n - 48))
  else if (97 <=? n)%nat && (n <=? 122)%nat then Some (Z.of_nat (n - 87))
  else None.

(** The digits of [strconv.ParseUint] in a base, underscores skipped. *)
Fixpoint parse_base (base max acc : Z) (s : string) : option Z :=
  match s with
  | EmptyString => Some acc
  | String c s' =>
      if Ascii.eqb c "_" then parse_base base max acc s'
      else match digit_value c with
           | None => None
           | Some d => if (base <=? d)%Z then None
                       else if (max <? base * acc + d)%Z then None
                       else parse_base base max (base * acc + d) s'
           end
  end.

(** [strconv.underscoreOK]: an underscore is between digits, the prefix of the base counting as
    one. [last] is the kind of the previous byte. *)
Inductive last_byte := LStart | LDigit | LUnder | LOther.

Fixpoint underscores (hex : bool) (last : last_byte) (s : string) : bool :=
  match s with
  | EmptyString => match last with LUnder => false | _ => true end
  | String c s' =>
      let n := lower_byte c in
      if ((48 <=? n)%nat && (n <=? 57)%nat) || (hex && (97 <=? n)%nat && (n <=? 102)%nat) then underscores hex LDigit s'
      else if Ascii.eqb c "_" then match last with LDigit => underscores hex LUnder s' | _ => false end
      else match last with LUnder => false | _ => underscores hex LOther s' end
  end.

Definition underscoreOK (s : string) : bool :=
  match s with
  | String "0" (String x s') =>
      let x := lower_ascii x in
      if Ascii.eqb x "b" || Ascii.eqb x "o" then underscores false LDigit s'
      else if Ascii.eqb x "x" then underscores true LDigit s'
      else underscores false LStart s
  | _ => underscores false LStart s
  end.

(** [strconv.ParseUint(s, 0, bits)]: the base is that of the prefix. *)
Definition ParseUint0 (bits : Z) (s : string) : option Z :=
  if String.eqb s "" then None
  else
    let '(base, digits) :=
      match s with
      | String "0" (String x (String c s')) =>
          let x := lower_ascii x in
          if Ascii.eqb x "b" then (2%Z, String c s')
          else if Ascii.eqb x "o" then (8%Z, String c s')
          else if Ascii.eqb x "x" then (16%Z, String c s')
          else (8%Z, String.substring 1 (String.length s - 1) s)
      | String "0" s' => (8%Z, s')
      | _ => (10%Z, s)
      end in
    n ← parse_base base (2 ^ bits - 1) 0 digits;
    if contains_char "_" s && negb (underscoreOK s) then None else Some n.

Definition leaseShellHandler (lid : LeaseID) (r : Request) : handler V (reply V) :=
  let bad := hret (WriteHeader StatusBadRequest) in
  let cmd := shell_cmd (S (size (r_query r))) r 0 in
  let tty := query_get r "tty" in
  let service := query_get r "service" in
  let stdin := query_get r "stdin" in
  let podIndex := query_get r "podIndex" in
  match cmd with
  | [] => bad
  | _ =>
      if String.eqb tty "" then bad
      else if String.eqb service "" then bad
      else if String.eqb stdin "" then bad
      else if String.eqb podIndex "" then bad
      else match ParseUint0 31 podIndex with
           | None => bad
           | Some idx => hret (RUpgrade (UShell lid service idx cmd (String.eqb tty "1") (String.eqb stdin "1")))
           end
  end.

End Handlers.

(** ** Endpoints *)

Inductive endpoint :=
| EVersion | EAddress | EStatus | EHostnameMigrate | EEndpointMigrate | EPutManifest | EAttestation | EGetManifest
| ELeaseStatus | EKubeEvents | ELogs | EServiceStatus | EShell.

(** The middlewares in the order the routers nest. *)
Definition root_middlewares : list middleware := [MProvider; MAuth].
Definition authed_middlewares : list middleware := root_middlewares ++ [MAuthorizeProvider; MRequireOwner].
Definition lease_middlewares : list middleware := authed_middlewares ++ [MRequireLeaseID].

Definition route_middlewares (e : endpoint) : list middleware :=
  match e with
  | EVersion | EAddress | EStatus => root_middlewares
  | EHostnameMigrate | EEndpointMigrate => authed_middlewares
  | EPutManifest => authed_middlewares ++ [MRequireDeploymentID; MScopeDeployment PermissionScopeSendManifest]
  | EAttestation => lease_middlewares ++ [MScopeLease PermissionScopeAttestation]
  | EGetManifest => lease_middlewares ++ [MScopeLease PermissionScopeGetManifest]
  | ELeaseStatus => lease_middlewares ++ [MScopeLease PermissionScopeStatus]
  | EKubeEvents => lease_middlewares ++ [MStreamParams; MScopeLease PermissionScopeEvents]
  | ELogs => lease_middlewares ++ [MStreamParams; MScopeLease PermissionScopeLogs]
  | EServiceStatus => lease_middlewares ++ [MRequireService]
  | EShell => lease_middlewares ++ [MScopeLease PermissionScopeShell]
  end.

(** Unfolds the middlewares but for those that read the parameters of a stream. *)
Ltac unfold_middlewares :=
  unfold prepareAuthMiddleware, authorizeProviderMiddleware, requireOwner, requireDeploymentID, requireLeaseID,
    requireEndpointScopeForDeploymentID, requireEndpointScopeForLeaseID, requireService in *.

Section Router.
Context {V : Type} `{HD : DeployAPI} `{HJ : JWT} `{HBe : Bech32} `{HPa : Paths}.
Context (be : Backend V) (addr : string) (q : account_querier) (now : Z).

(** The call as the server of gRPC answers it: the interceptor proves the claims, or its error is
    the answer and the handler is not reached. *)
Definition grpc_serve_attestation (peerCerts authorization : list string)
    (lid : LeaseID) (sidecarReq : string) : list (gcall V) * result (go_error + grpc_code) string :=
  match authInterceptor q now peerCerts authorization with
  | Err e => ([], Err (inl e))
  | Ok claims =>
      let '(calls, res) := grpc_AttestationQuote be claims lid sidecarReq in
      (calls, match res with Err code => Err (inr code) | Ok resp => Ok resp end)
  end.

(** The handler of an endpoint on the values the middlewares left; a value that is missing is a
    panic. *)
Definition handle (e : endpoint) (x : rctx) (r : Request) (b : body) : option (handler V (reply V)) :=
  match e with
  | EVersion => Some (createVersionHandler be)
  | EAddress => Some (createAddressHandler addr)
  | EStatus => Some (createStatusHandler be addr)
  | EHostnameMigrate => owner ← x_owner x; Some (migrateHandler be owner b)
  | EEndpointMigrate => owner ← x_owner x; Some (migrateEndpointHandler be owner b)
  | EPutManifest => did ← x_deployment x; Some (createManifestHandler be did b)
  | EAttestation => lid ← x_lease x; Some (createAttestationQuoteHandler be lid r b)
  | EGetManifest => lid ← x_lease x; Some (getManifestHandler be lid)
  | ELeaseStatus => lid ← x_lease x; Some (leaseStatusHandler be lid)
  | EKubeEvents => lid ← x_lease x; follow ← x_follow x; services ← x_services x;
                   Some (hret (RUpgrade (UEvents lid follow services)))
  | ELogs => lid ← x_lease x; services ← x_services x; follow ← x_follow x; tail ← x_tail x;
             Some (hret (RUpgrade (ULogs lid services follow tail)))
  | EServiceStatus => lid ← x_lease x; svc ← x_service x; Some (leaseServiceStatusHandler be lid svc)
  | EShell => lid ← x_lease x; Some (leaseShellHandler lid r)
  end.

Inductive outcome := Answered (calls : list (gcall V)) (r : reply V) | Crashed.

Definition run_handler (h : handler V (reply V)) : outcome :=
  match h with (cs, Ok r) => Answered cs r | (cs, Err r) => Answered cs r end.

Definition finish (e : endpoint) (v : verdict) (r : Request) (b : body) : outcome :=
  match v with
  | Respond resp => Answered [] (RText resp)
  | Panic => Crashed
  | Next x => match handle e x r b with Some h => run_handler h | None => Crashed end
  end.

Definition serve_request (e : endpoint) (r : Request) (b : body) : outcome :=
  finish e (run_middlewares addr q now (route_middlewares e) no_ctx r) r b.

(** ** The claims of a request *)

#[local] Arguments AuthHeaderTokenExtractor : simpl never.
#[local] Arguments AuthProcess : simpl never.
#[local] Arguments writeAuthError : simpl never.
#[local] Arguments requestStreamParams : simpl never.

Definition request_claims (r : Request) : result go_error Claims :=
  match AuthHeaderTokenExtractor (r_auth r) with
  | Err e => Err e
  | Ok tok => AuthProcess q now (r_peers r) tok
  end.

(** The context once the owner is known. *)
Definition owner_ctx (c : Claims) : rctx :=
  mkCtx (Some addr) (Some c) (Some (IssuerAddress c)) None None None None None None.

Lemma writeAuthError_responds e : exists resp, writeAuthError e = Respond resp.
Proof. unfold writeAuthError. destruct (authErrorResponse e). eauto. Qed.

Lemma writeAuthError_not_next e x : writeAuthError e <> Next x.
Proof. by destruct (writeAuthError_responds e) as [? ->]. Qed.

Lemma unauthorized_401 : writeAuthError ErrUnauthorized = Respond (mkResponse StatusUnauthorized "unauthorized access").
Proof. done. Qed.

Lemma root_chain r :
  run_middlewares addr q now root_middlewares no_ctx r =
    match request_claims r with
    | Ok c => Next (set_claims (set_provider no_ctx addr) c)
    | Err e => writeAuthError e
    end.
Proof.
  unfold request_claims, root_middlewares. simpl. unfold_middlewares. destruct (AuthHeaderTokenExtractor (r_auth r)) as [tok|e].
  - destruct (AuthProcess q now (r_peers r) tok) as [c|e]; [done|]. by destruct (writeAuthError_responds e) as [? ->].
  - by destruct (writeAuthError_responds e) as [? ->].
Qed.

Lemma authed_chain r x :
  run_middlewares addr q now authed_middlewares no_ctx r = Next x <->
  exists c, request_claims r = Ok c /\ AuthorizeForProvider c addr = true /\ IssuerAddress c <> ""%string /\ x = owner_ctx c.
Proof.
  unfold authed_middlewares. rewrite run_middlewares_app, root_chain.
  destruct (request_claims r) as [c|e].
  2:{ destruct (writeAuthError_responds e) as [? ->]. split; [done|]. by intros (? & [=] & _). }
  simpl. unfold_middlewares. simpl. destruct (AuthorizeForProvider c addr) eqn:Ea; simpl.
  - destruct (String.eqb_spec (IssuerAddress c) "") as [E|E].
    + rewrite ?unauthorized_401. split; [done|]. intros (c' & [= <-] & _ & ? & _). done.
    + split; [intros [= <-]; by exists c|]. by intros (c' & [= <-] & _ & _ & ->).
  - rewrite ?unauthorized_401. split; [done|]. intros (c' & [= <-] & ? & _). congruence.
Qed.

Lemma lease_chain r x :
  run_middlewares addr q now lease_middlewares no_ctx r = Next x <->
  exists c lid, request_claims r = Ok c /\ AuthorizeForProvider c addr = true /\ IssuerAddress c <> ""%string /\
    ParseLeasePath [IssuerAddress c; var_get r "dseq"; var_get r "gseq"; var_get r "oseq"; addr] = Some lid /\
    AuthorizeForLeaseID c lid = true /\ x = set_lease (owner_ctx c) lid.
Proof.
  unfold lease_middlewares. rewrite run_middlewares_app.
  destruct (run_middlewares addr q now authed_middlewares no_ctx r) as [resp|x'|] eqn:Ea.
  - split; [done|]. intros (c & lid & H1 & H2 & H3 & _). exfalso.
    assert (run_middlewares addr q now authed_middlewares no_ctx r = Next (owner_ctx c)) by (apply authed_chain; eauto).
    congruence.
  - apply authed_chain in Ea as (c & Hc & Hp & Hne & ->). simpl. unfold_middlewares. simpl.
    destruct (ParseLeasePath _) as [lid|] eqn:El.
    + simpl. destruct (AuthorizeForLeaseID c lid) eqn:Hl.
      * split; [intros [= <-]; eauto 10|]. intros (c' & lid' & E & _ & _ & E' & _ & ->). congruence.
      * rewrite ?unauthorized_401. split; [done|]. intros (c' & lid' & E & _ & _ & E' & E'' & _). congruence.
    + split; [done|]. intros (c' & lid' & E & _ & _ & E' & _). congruence.
  - split; [done|]. intros (c & lid & H1 & H2 & H3 & _). exfalso.
    assert (run_middlewares addr q now authed_middlewares no_ctx r = Next (owner_ctx c)) by (apply authed_chain; eauto).
    congruence.
Qed.

Lemma authed_no_panic r : run_middlewares addr q now authed_middlewares no_ctx r <> Panic.
Proof.
  unfold authed_middlewares. rewrite run_middlewares_app, root_chain.
  destruct (request_claims r) as [c|e]; [|by destruct (writeAuthError_responds e) as [? ->]].
  simpl. unfold_middlewares. simpl. destruct (AuthorizeForProvider c addr); simpl; [|done]. by destruct (String.eqb (IssuerAddress c) "").
Qed.

Lemma lease_no_panic r : run_middlewares addr q now lease_middlewares no_ctx r <> Panic.
Proof.
  unfold lease_middlewares. rewrite run_middlewares_app.
  pose proof (authed_no_panic r) as Hp.
  destruct (run_middlewares addr q now authed_middlewares no_ctx r) as [resp|x'|] eqn:Ea; [done| |done].
  apply authed_chain in Ea as (c & Hc & _ & _ & ->). simpl. unfold_middlewares. simpl.
  destruct (ParseLeasePath _) as [lid|]; simpl; [|done]. by destruct (AuthorizeForLeaseID c lid).
Qed.

Lemma stream_next x r : requestStreamParams x r <> Panic /\
  forall x', requestStreamParams x r = Next x' -> exists f t s, x' = set_stream x f t s.
Proof.
  unfold requestStreamParams. destruct (has_suffix _ _); [done|].
  destruct (if String.eqb (query_get r "follow") "" then _ else _); [|done].
  destruct (if String.eqb (query_get r "tail") "" then _ else _) as [v|]; [|done].
  destruct (v <? -1)%Z; [done|]. split; [done|]. intros x' [= <-]. eauto.
Qed.

(** The verdict is an answer, or leaves the handler what it needs. *)
Definition good (e : endpoint) (r : Request) (b : body) (v : verdict) : Prop :=
  match v with Respond _ => True | Panic => False | Next x => handle e x r b <> None end.

Lemma good_finish e r b v : good e r b v -> finish e v r b <> Crashed.
Proof. destruct v as [|x|]; simpl; [done| |done]. destruct (handle e x r b) as [[cs []]|]; done. Qed.

Lemma good_owner e r b ms :
  (forall c, good e r b (run_middlewares addr q now ms (owner_ctx c) r)) ->
  good e r b (run_middlewares addr q now (authed_middlewares ++ ms) no_ctx r).
Proof.
  intros Hms. rewrite run_middlewares_app. pose proof (authed_no_panic r) as Hp.
  destruct (run_middlewares addr q now authed_middlewares no_ctx r) as [resp|x|] eqn:El; [done| |done].
  apply authed_chain in El as (c & _ & _ & _ & ->). apply Hms.
Qed.

Lemma good_lease e r b ms :
  (forall c lid, good e r b (run_middlewares addr q now ms (set_lease (owner_ctx c) lid) r)) ->
  good e r b (run_middlewares addr q now (lease_middlewares ++ ms) no_ctx r).
Proof.
  intros Hms. rewrite run_middlewares_app. pose proof (lease_no_panic r) as Hp.
  destruct (run_middlewares addr q now lease_middlewares no_ctx r) as [resp|x|] eqn:El; [done| |done].
  apply lease_chain in El as (c & lid & _ & _ & _ & _ & _ & ->). apply Hms.
Qed.

Lemma good_scope e r b s x :
  x_claims x <> None -> x_lease x <> None -> handle e x r b <> None ->
  good e r b (run_middlewares addr q now [MScopeLease s] x r).
Proof.
  intros Hc Hl Hx. simpl. unfold_middlewares. destruct (x_claims x) as [c|]; [|done]. destruct (x_lease x) as [lid|]; [|done]. simpl.
  by destruct (AuthorizeLeaseIDForPermissionScope c lid s).
Qed.

Lemma good_stream e r b s x :
  x_claims x <> None -> x_lease x <> None -> (forall f t v, handle e (set_stream x f t v) r b <> None) ->
  good e r b (run_middlewares addr q now [MStreamParams; MScopeLease s] x r).
Proof.
  intros Hc Hl Hx. change [MStreamParams; MScopeLease s] with ([MStreamParams] ++ [MScopeLease s]).
  rewrite run_middlewares_app. cbn -[requestStreamParams run_middlewares good]. destruct (stream_next x r) as [Hn Hs].
  cbn [run_middlewares run_middleware]. destruct (requestStreamParams x r) as [resp|x'|]; [done| |done].
  destruct (Hs x' eq_refl) as (f & t & v & ->). by apply good_scope.
Qed.

(** C34: every value a handler takes from its request was put there by the middlewares of its
    endpoint: no request, whatever its path, parameters and credentials, crashes the
    gateway. *)
Theorem gateway_never_crashes (e : endpoint) (r : Request) (b : body) : serve_request e r b <> Crashed.
Proof.
  apply good_finish. destruct e; unfold route_middlewares.
  1-3: rewrite root_chain; destruct (request_claims r) as [c|err]; [done|by destruct (writeAuthError_responds err) as [? ->]].
  1-2: rewrite <- (app_nil_r authed_middlewares); by apply good_owner.
  - apply good_owner. intros c. simpl. unfold_middlewares. simpl. destruct (ParseDeploymentPath _) as [did|]; simpl; [|done].
    destruct (AuthorizeForDeploymentID c did addr); simpl; [|done].
    by destruct (AuthorizeDeploymentIDForPermissionScope c did addr PermissionScopeSendManifest).
  - apply good_lease. intros c lid. by apply good_scope.
  - apply good_lease. intros c lid. by apply good_scope.
  - apply good_lease. intros c lid. by apply good_scope.
  - apply good_lease. intros c lid. by apply good_stream.
  - apply good_lease. intros c lid. by apply good_stream.
  - apply good_lease. intros c lid. simpl. unfold_middlewares. by destruct (String.eqb (var_get r "serviceName") "").
  - apply good_lease. intros c lid. by apply good_scope.
Qed.

(** ** Whose leases a request reaches *)

Definition call_owner (c : gcall V) : option string :=
  match c with
  | CKubeVersion | CStatus | CStatusV1 => None
  | CGetManifestGroup lid | CForwardedPortStatus lid | CLeaseStatus lid | CServiceStatus lid _
  | CAttestationQuote lid _ _ _ | CPrepareHostnames _ lid | CTransferHostname lid _ _ _ | CDeclareIP lid _ _ _ _ _ =>
      Some (l_owner lid)
  | CGetIPAddressStatus oid => Some (o_owner oid)
  | CSubmit did _ => Some (dp_owner did)
  | CFindActiveLease owner _ _ => Some owner
  end.

Definition upgrade_lease (u : upgrade) : LeaseID :=
  match u with UEvents lid _ _ | ULogs lid _ _ _ | UShell lid _ _ _ _ _ => lid end.

Definition reply_owner (r : reply V) : option string :=
  match r with RUpgrade u => Some (l_owner (upgrade_lease u)) | _ => None end.

(** The calls of a computation are about [owner], its early answers open no stream, and its
    result has the property [post]. *)
Definition about {A} (post : A -> Prop) (owner : string) (h : handler V A) : Prop :=
  Forall (fun c => call_owner c = Some owner) h.1 /\
  match h.2 with Err rep => reply_owner rep = None | Ok a => post a end.

Definition anything {A} (_ : A) : Prop := True.

(** An answer that opens no stream, or one for a lease of [owner]. *)
Definition reply_of (owner : string) (r : reply V) : Prop := reply_owner r = None \/ reply_owner r = Some owner.

Lemma about_ret {A} post owner (a : A) : post a -> about post owner (hret a).
Proof. by split; [constructor|]. Qed.

Lemma about_answer {A} post owner (r : reply V) : reply_owner r = None -> about post owner (@hanswer V A r).
Proof. intros Hr. by split; [constructor|]. Qed.

Lemma about_call {A} owner c (a : A) : call_owner c = Some owner -> about anything owner (hcall c a).
Proof. intros Hc. by split; [by constructor|]. Qed.

Lemma about_bind {A B} (pre : A -> Prop) (post : B -> Prop) owner (m : handler V A) (k : A -> handler V B) :
  about pre owner m -> (forall a, pre a -> about post owner (k a)) -> about post owner (hbind m k).
Proof.
  unfold hbind. destruct m as [cs [a|e]]; simpl; intros [Hc Hr] Hk; [|by split].
  specialize (Hk a Hr). destruct (k a) as [cs' r]. destruct Hk as [Hc' Hr']. split; [|done]. simpl. by apply Forall_app.
Qed.

Lemma about_expect {A} owner (r : result go_error A) f :
  (forall e, reply_owner (f e) = None) -> about anything owner (hexpect r f).
Proof. intros Hf. destruct r; [by apply about_ret|by apply about_answer]. Qed.

(** Goes through the steps of a computation. *)
Ltac about := repeat first
  [ apply about_ret; by (done || left) | apply about_answer; done | apply about_call; done | apply about_expect; done
  | eapply (about_bind anything); [|intros ? _] | case_match; simplify_eq ].

Lemma transfer_all_about lid m hs : about anything (l_owner lid) (transfer_all be lid m hs).
Proof.
  induction hs as [|h hs IH]; simpl; [by apply about_ret|]. destruct (default _ _) as [svc port].
  eapply about_bind; [by apply about_call|]. intros [e|] _; [by apply about_answer|exact IH].
Qed.

Lemma declare_all_about lid l : about anything (l_owner lid) (declare_all be lid l).
Proof.
  induction l as [|m l IH]; simpl; [by apply about_ret|].
  eapply about_bind; [by apply about_call|]. intros [e|] _; [by apply about_answer|exact IH].
Qed.

(** The cluster service finds leases of the owner it is asked about. *)
Definition finds_own : Prop :=
  forall owner d g lid grp, b_FindActiveLease _ be owner d g = Ok (Some (lid, grp)) -> l_owner lid = owner.

Lemma find_destination_about owner mb :
  finds_own -> about (fun lg => l_owner lg.1 = owner) owner (find_destination be owner mb).
Proof.
  intros Hf. unfold find_destination. eapply (about_bind (fun r => r = b_FindActiveLease _ be owner (mb_dseq mb) (mb_gseq mb))).
  { split; [by constructor|done]. }
  intros res ->. destruct (b_FindActiveLease V be owner (mb_dseq mb) (mb_gseq mb)) as [[[lid g]|]|] eqn:E.
  - apply about_ret. by eapply Hf.
  - by apply about_answer.
  - by apply about_answer.
Qed.

Lemma migrate_about owner b : finds_own -> about (reply_of owner) owner (migrateHandler be owner b).
Proof.
  intros Hf. destruct b as [| |[mb|]|]; try (by apply about_ret; left). unfold migrateHandler.
  destruct (mb_names mb) as [|n ns]; [by apply about_ret; left|].
  eapply about_bind; [by apply find_destination_about|]. intros [lid g] Ho. simpl in Ho. rewrite <- Ho. unfold migrate_to.
  case_match; [by apply about_ret; left|]. eapply about_bind; [by apply about_call|]. intros [e|] _; [about|].
  eapply about_bind; [apply transfer_all_about|]. intros. by apply about_ret; left.
Qed.

Lemma migrate_endpoint_about owner b : finds_own -> about (reply_of owner) owner (migrateEndpointHandler be owner b).
Proof.
  intros Hf. destruct b as [| |[mb|]|]; try (by apply about_ret; left). unfold migrateEndpointHandler.
  destruct (mb_names mb) as [|n ns]; [by apply about_ret; left|].
  eapply about_bind; [by apply find_destination_about|]. intros [lid g] Ho. simpl in Ho. rewrite <- Ho. unfold migrate_endpoints_to.
  case_match; [|by apply about_ret; left]. case_match. case_match; [by apply about_ret; left|].
  eapply about_bind; [apply declare_all_about|]. intros. by apply about_ret; left.
Qed.

Lemma lease_handlers_about lid r b svc :
  about (reply_of (l_owner lid)) (l_owner lid) (leaseStatusHandler be lid) /\
  about (reply_of (l_owner lid)) (l_owner lid) (createAttestationQuoteHandler be lid r b) /\
  about (reply_of (l_owner lid)) (l_owner lid) (getManifestHandler be lid) /\
  about (reply_of (l_owner lid)) (l_owner lid) (leaseServiceStatusHandler be lid svc).
Proof.
  split_and!; [unfold leaseStatusHandler|unfold createAttestationQuoteHandler|unfold getManifestHandler|
    unfold leaseServiceStatusHandler]; about.
Qed.

Lemma shell_about lid r : about (reply_of (l_owner lid)) (l_owner lid) (leaseShellHandler lid r).
Proof. unfold leaseShellHandler. repeat case_match; apply about_ret; (by left) || (by right). Qed.

Lemma put_manifest_about did b : about (reply_of (dp_owner did)) (dp_owner did) (createManifestHandler be did b).
Proof. unfold createManifestHandler. about. Qed.

(** The context belongs to [owner]. *)
Definition ctx_of (owner : string) (x : rctx) : Prop :=
  (forall o, x_owner x = Some o -> o = owner) /\ (forall lid, x_lease x = Some lid -> l_owner lid = owner) /\
  (forall did, x_deployment x = Some did -> dp_owner did = owner).

Definition public (e : endpoint) : bool := match e with EVersion | EAddress | EStatus => true | _ => false end.

Lemma handler_about e x r b h owner :
  finds_own -> ctx_of owner x -> public e = false -> handle e x r b = Some h -> about (reply_of owner) owner h.
Proof.
  intros Hf (Ho & Hl & Hd) He Hh. destruct e; simpl in Hh; try done;
    repeat match type of Hh with (?o ≫= _) = Some _ => destruct o eqn:?; simpl in Hh; [|done] end;
    injection Hh as <-;
    try (pose proof (Ho _ eq_refl) as ->); try (pose proof (Hl _ eq_refl) as <-); try (pose proof (Hd _ eq_refl) as <-).
  - by apply migrate_about.
  - by apply migrate_endpoint_about.
  - apply put_manifest_about.
  - by apply lease_handlers_about.
  - by apply (lease_handlers_about _ r b "").
  - by apply (lease_handlers_about _ r b "").
  - apply about_ret. by right.
  - apply about_ret. by right.
  - by apply lease_handlers_about.
  - apply shell_about.
Qed.

(** ** Paths *)

(** The parsed identifiers are of the owner and the provider in the path. *)
Class PathLaws := {
  lease_path o d g s p lid : ParseLeasePath [o; d; g; s; p] = Some lid -> l_owner lid = o /\ l_provider lid = p;
  deployment_path o d did : ParseDeploymentPath [o; d] = Some did -> dp_owner did = o
}.

Section Paths.
Context `{HPL : !PathLaws}.

(** The context of a request whose claims are [c], once the owner is known. *)
Definition owned (c : Claims) (x : rctx) : Prop :=
  x_provider x = Some addr /\ x_claims x = Some c /\ x_owner x = Some (IssuerAddress c) /\ ctx_of (IssuerAddress c) x.

Lemma middleware_owned c m x x' r :
  m <> MProvider -> m <> MAuth -> owned c x -> run_middleware addr q now m x r = Next x' -> owned c x'.
Proof.
  intros Hm1 Hm2 (Hp & Hc & Ho & Hx1 & Hx2 & Hx3) Hr. destruct m as [| | | | | |s|s| |]; try done;
    unfold run_middleware in Hr; unfold_middlewares; unfold parseDeploymentID, parseLeaseID in Hr; rewrite ?Hp, ?Hc, ?Ho in Hr; simpl in Hr.
  - destruct (AuthorizeForProvider c addr); [|by apply writeAuthError_not_next in Hr]. by simplify_eq.
  - destruct (String.eqb (IssuerAddress c) ""); [by apply writeAuthError_not_next in Hr|]. injection Hr as <-.
    split_and!; simpl; try done. split_and!; simpl; [by intros o [= <-]|done|done].
  - destruct (ParseDeploymentPath _) as [did|] eqn:E; [|done]. apply deployment_path in E.
    destruct (AuthorizeForDeploymentID c did addr); [|by apply writeAuthError_not_next in Hr]. injection Hr as <-.
    split_and!; simpl; try done. split_and!; simpl; [done|done|by intros ? [= <-]].
  - destruct (ParseLeasePath _) as [lid|] eqn:E; [|done]. apply lease_path in E as [E _].
    destruct (AuthorizeForLeaseID c lid); [|by apply writeAuthError_not_next in Hr]. injection Hr as <-.
    split_and!; simpl; try done. split_and!; simpl; [done|by intros ? [= <-]|done].
  - destruct (x_deployment x) as [did|] eqn:E; [|done]. simpl in Hr.
    destruct (AuthorizeDeploymentIDForPermissionScope c did addr s); [|by apply writeAuthError_not_next in Hr].
    injection Hr as <-. split_and!; try done. split_and!; try done. by rewrite E.
  - destruct (x_lease x) as [lid|] eqn:E; [|done]. simpl in Hr.
    destruct (AuthorizeLeaseIDForPermissionScope c lid s); [|by apply writeAuthError_not_next in Hr].
    injection Hr as <-. split_and!; try done. split_and!; try done. by rewrite E.
  - destruct (String.eqb (var_get r "serviceName") ""); [done|]. injection Hr as <-. by split_and!.
  - apply stream_next in Hr as (f & t & v & ->). by split_and!.
Qed.

Lemma middlewares_owned c ms x x' r :
  Forall (fun m => m <> MProvider /\ m <> MAuth) ms -> owned c x -> run_middlewares addr q now ms x r = Next x' -> owned c x'.
Proof.
  intros Hms. revert x. induction Hms as [|m ms [H1 H2] Hms IH]; intros x Hx Hr; simpl in Hr; [by simplify_eq|].
  destruct (run_middleware addr q now m x r) as [|y|] eqn:E; [done| |done]. eapply IH, Hr. by eapply middleware_owned.
Qed.

Lemma route_authed e : public e = false -> exists ms, route_middlewares e = authed_middlewares ++ ms /\
  Forall (fun m => m <> MProvider /\ m <> MAuth) ms.
Proof.
  destruct e; try done; intros _; unfold route_middlewares, lease_middlewares;
    first [eexists; split; [reflexivity|] | exists []; split; [by rewrite app_nil_r|]
          | eexists; split; [rewrite <- (assoc_L (++)); reflexivity|]]; by repeat constructor.
Qed.

(** Behind every endpoint but the public ones stand credentials for this provider, and all that is left
    for the handler is of the owner they prove. *)
Lemma chain_owned e r x :
  public e = false -> run_middlewares addr q now (route_middlewares e) no_ctx r = Next x ->
  exists c, request_claims r = Ok c /\ AuthorizeForProvider c addr = true /\ IssuerAddress c <> ""%string /\ owned c x.
Proof.
  intros He. destruct (route_authed e He) as (ms & -> & Hms). rewrite run_middlewares_app.
  destruct (run_middlewares addr q now authed_middlewares no_ctx r) as [|x'|] eqn:Ea; [done| |done].
  apply authed_chain in Ea as (c & H1 & H2 & H3 & ->). intros Hr. exists c. split_and!; [done..|].
  eapply middlewares_owned; [done| |done]. split_and!; try done. split_and!; simpl; [by intros ? [= <-]|done|done].
Qed.

(** C5: what a request to the REST gateway makes it do concerns the owner its credentials
    prove and nobody else: every call to the cluster, to the manifest service and to the
    hostname service, and every stream that is opened, is about a lease or deployment of
    that address. Only the public endpoints of REST, which read the version and the status
    of the provider, do anything without it. It is stated for a lookup of active leases
    that returns leases of the owner it is asked about, as [FindActiveLease] of the cluster
    service does. The one call of gRPC about a lease, the attestation quote, takes the lease
    from the request instead; what is checked there is stated with the scopes. *)
Theorem tenant_confined (e : endpoint) (r : Request) (b : body) (calls : list (gcall V)) (rep : reply V) :
  finds_own -> serve_request e r b = Answered calls rep ->
  (forall cl, cl ∈ calls -> call_owner cl <> None \/ public e = true) /\
  forall owner, (exists cl, cl ∈ calls /\ call_owner cl = Some owner) \/ reply_owner rep = Some owner ->
    exists c, request_claims r = Ok c /\ AuthorizeForProvider c addr = true /\ owner <> ""%string /\ owner = IssuerAddress c.
Proof.
  intros Hf Hs. unfold serve_request in Hs. destruct (public e) eqn:He.
  - assert (Forall (fun cl => call_owner cl = None) calls /\ reply_owner rep = None) as [Hn Hr].
    { destruct e; try done; unfold route_middlewares in Hs; rewrite root_chain in Hs;
        (destruct (request_claims r) as [c|err]; [|destruct (writeAuthError_responds err) as [? E]; rewrite E in Hs; by simplify_eq/=]);
        simpl in Hs; unfold createVersionHandler, createAddressHandler, createStatusHandler in Hs.
      - destruct (b_KubeVersion V be); simplify_eq/=; by repeat constructor.
      - simplify_eq/=. by repeat constructor.
      - destruct (b_Status V be); simplify_eq/=; by repeat constructor. }
    split; [by right|]. intros owner [(cl & Hcl & E)|E]; [|congruence].
    rewrite list.Forall_forall in Hn. rewrite (Hn _ Hcl) in E. done.
  - destruct (run_middlewares addr q now (route_middlewares e) no_ctx r) as [resp|x|] eqn:Er; simpl in Hs; [|..|done].
    { simplify_eq. split; [no_elem|]. intros owner [(cl & Hcl & _)|E]; [by apply not_elem_of_nil in Hcl|done]. }
    apply chain_owned in Er as (c & H1 & H2 & H3 & _ & _ & _ & Hx); [|done].
    destruct (handle e x r b) as [h|] eqn:Hh; [|done].
    destruct (handler_about e x r b h (IssuerAddress c) Hf Hx He Hh) as [Hc Hr]. rewrite list.Forall_forall in Hc.
    destruct h as [cs [a|a]]; simplify_eq/=; (split; [intros cl Hcl; left; by rewrite (Hc _ Hcl)|]);
      intros owner [(cl & Hcl & E)|E]; try (rewrite (Hc _ Hcl) in E); exists c; split_and!; try done; try congruence;
      destruct Hr; congruence.
Qed.

End Paths.

(** ** Credentials and scopes *)

(** A request without credentials, or with a chain of certificates and no token, gets
    401 from every endpoint but the three that are public, and nothing is called. *)
Theorem anonymous_rejected `{!JWTLaws} (e : endpoint) (r : Request) (b : body) :
  public e = false -> r_auth r = ""%string -> (forall cn, r_peers r <> [cn]) ->
  serve_request e r b = Answered [] (RText (mkResponse StatusUnauthorized "unauthorized access")).
Proof.
  intros He Ha Hp. unfold serve_request. destruct (route_authed e He) as (ms & -> & _).
  assert (request_claims r = Ok no_claims) as Hc.
  { unfold request_claims. rewrite Ha. unfold AuthHeaderTokenExtractor. simpl. unfold AuthProcess.
    destruct (r_peers r) as [|cn [|cn' l]]; [done| |done]. by destruct (Hp cn). }
  unfold authed_middlewares. rewrite !run_middlewares_app, root_chain, Hc. simpl. unfold_middlewares. simpl.
  destruct (AuthorizeForProvider no_claims addr); simpl; [|done]. by rewrite issuer_address.
Qed.

Definition endpoint_scope (e : endpoint) : option PermissionScope :=
  match e with
  | EAttestation => Some PermissionScopeAttestation | EGetManifest => Some PermissionScopeGetManifest
  | ELeaseStatus => Some PermissionScopeStatus | EKubeEvents => Some PermissionScopeEvents
  | ELogs => Some PermissionScopeLogs | EShell => Some PermissionScopeShell
  | _ => None
  end.

Lemma scope_last s x x' r :
  run_middlewares addr q now [MScopeLease s] x r = Next x' ->
  x' = x /\ exists c lid, x_claims x = Some c /\ x_lease x = Some lid /\ AuthorizeLeaseIDForPermissionScope c lid s = true.
Proof.
  simpl. unfold_middlewares. destruct (x_claims x) as [c|]; [|done]. destruct (x_lease x) as [lid|]; [|done]. simpl.
  destruct (AuthorizeLeaseIDForPermissionScope c lid s) eqn:E; [|by rewrite ?unauthorized_401]. intros [= <-]. eauto 10.
Qed.

Lemma grpc_attestation_scope peers authz lid body :
  (grpc_serve_attestation peers authz lid body).1 = [] \/
  (grpc_serve_attestation peers authz lid body).1 = [CAttestationQuote lid "" 0 body] /\
  exists c, authInterceptor q now peers authz = Ok c /\
    AuthorizeLeaseIDForPermissionScope c lid PermissionScopeAttestation = true.
Proof.
  unfold grpc_serve_attestation, grpc_AttestationQuote. destruct (authInterceptor q now peers authz) as [c|e]; [|by left].
  destruct (AuthorizeLeaseIDForPermissionScope c lid PermissionScopeAttestation) eqn:E; [right|by left].
  split; [done|by exists c].
Qed.

(** C24: through REST, the manifest, the status, the events, the logs, the shell and the
    attestation of a lease are reached only with claims for this provider that allow the
    lease and grant the scope of the endpoint on it. Through gRPC, where the request names
    the lease, the one thing that may be called is the attestation quote of that very lease,
    and only when the credentials of the call prove claims that grant the attestation scope
    on it; that the claims also allow the lease is not checked there, so what ties the lease
    to the issuer is the scope check of the JWT library alone. *)
Theorem scope_enforced :
  (forall (e : endpoint) (s : PermissionScope) (r : Request) (x : rctx),
    endpoint_scope e = Some s -> run_middlewares addr q now (route_middlewares e) no_ctx r = Next x ->
    exists c lid, request_claims r = Ok c /\ x_lease x = Some lid /\ AuthorizeForProvider c addr = true /\
      AuthorizeForLeaseID c lid = true /\ AuthorizeLeaseIDForPermissionScope c lid s = true) /\
  (forall (peerCerts authorization : list string) (lid : LeaseID) (body : string),
    let calls := (grpc_serve_attestation peerCerts authorization lid body).1 in
    calls = [] \/
    calls = [CAttestationQuote lid "" 0 body] /\
    exists c, authInterceptor q now peerCerts authorization = Ok c /\
      AuthorizeLeaseIDForPermissionScope c lid PermissionScopeAttestation = true).
Proof.
  split; [intros e s r x He Hr|intros peers authz lid body; apply grpc_attestation_scope].
  assert (exists ms, route_middlewares e = lease_middlewares ++ ms ++ [MScopeLease s] /\ (ms = [] \/ ms = [MStreamParams]))
    as (ms & Er & Hms) by (destruct e; simplify_eq/=; first [by exists []; eauto|by exists [MStreamParams]; eauto]).
  rewrite Er, run_middlewares_app in Hr.
  destruct (run_middlewares addr q now lease_middlewares no_ctx r) as [|y|] eqn:El; [done| |done].
  apply lease_chain in El as (c & lid & Hc & Hp & _ & _ & Hl & ->). rewrite run_middlewares_app in Hr.
  destruct (run_middlewares addr q now ms (set_lease (owner_ctx c) lid) r) as [|z|] eqn:Ez; [done| |done].
  apply scope_last in Hr as [-> (c' & lid' & Hc' & Hl' & Hs)].
  assert (x_claims z = Some c /\ x_lease z = Some lid) as [E1 E2].
  { destruct Hms as [->| ->]; [by simplify_eq/=|]. cbn [run_middlewares run_middleware] in Ez.
    destruct (requestStreamParams (set_lease (owner_ctx c) lid) r) as [|w|] eqn:Ew; [done| |done].
    apply stream_next in Ew as (f & t & v & ->). by simplify_eq/=. }
  rewrite E1 in Hc'. rewrite E2 in Hl'. simplify_eq. exists c', lid'. by rewrite E2.
Qed.

(** The status of one service is not under the scope the status of the lease is under:
    claims for the lease that do not grant it are refused the one and given the other. *)
Theorem service_status_needs_no_scope (r : Request) (b : body) (c : Claims) (lid : LeaseID) :
  request_claims r = Ok c -> AuthorizeForProvider c addr = true -> IssuerAddress c <> ""%string ->
  ParseLeasePath [IssuerAddress c; var_get r "dseq"; var_get r "gseq"; var_get r "oseq"; addr] = Some lid ->
  AuthorizeForLeaseID c lid = true -> AuthorizeLeaseIDForPermissionScope c lid PermissionScopeStatus = false ->
  var_get r "serviceName" <> ""%string ->
  serve_request ELeaseStatus r b = Answered [] (RText (mkResponse StatusUnauthorized "unauthorized access")) /\
  exists rep, serve_request EServiceStatus r b = Answered [CServiceStatus lid (var_get r "serviceName")] rep.
Proof.
  intros Hc Hp Hi Hl Ha Hs Hv.
  assert (run_middlewares addr q now lease_middlewares no_ctx r = Next (set_lease (owner_ctx c) lid)) as Hchain
    by (apply lease_chain; eauto 10).
  unfold serve_request, route_middlewares. rewrite !run_middlewares_app, Hchain. simpl. unfold_middlewares. simpl. rewrite Hs. split; [done|].
  destruct (String.eqb_spec (var_get r "serviceName") ""); [done|]. simpl.
  unfold leaseServiceStatusHandler. destruct (b_ServiceStatus V be lid (var_get r "serviceName")); simpl; eauto.
Qed.

End Router.

(** ** Migrations *)

Section Migrations.
Context {V : Type} `{HD : DeployAPI} (be : Backend V).

Lemma foldl_insert_elem {A} (l : list (string * A)) (m : gmap string A) k v :
  foldl (fun m kv => <[kv.1 := kv.2]> m) m l !! k = Some v -> m !! k = Some v \/ (k, v) ∈ l.
Proof.
  revert m. induction l as [|[k' v'] l IH]; intros m; simpl; [by left|]. intros [Hm|Hl]%IH.
  - apply lookup_insert_Some in Hm as [[<- <-]|[_ Hm]]; [right; apply list_elem_of_here|by left].
  - right. by apply list_elem_of_further.
Qed.

Lemma transfer_all_calls lid m hs cs r :
  transfer_all be lid m hs = (cs, r) ->
  (forall h, h ∈ hs -> is_Some (m !! h)) ->
  (forall c, c ∈ cs -> exists h svc port, c = CTransferHostname lid h svc port /\ h ∈ hs /\ m !! h = Some (svc, port)) /\
  (r = Ok tt -> cs = map (fun h => let '(svc, port) := default (""%string, 0%Z) (m !! h) in CTransferHostname lid h svc port) hs).
Proof.
  revert cs r. induction hs as [|h hs IH]; intros cs r Ht Hm; simpl in Ht.
  { injection Ht as <- <-. split; [no_elem|done]. }
  destruct (Hm h) as [[svc port] Eh]; [apply list_elem_of_here|]. rewrite Eh in Ht. simpl in Ht.
  rewrite hbind_call in Ht. injection Ht as <- <-.
  assert (exists h' svc' port', CTransferHostname lid h svc port = CTransferHostname (V := V) lid h' svc' port' /\
            h' ∈ h :: hs /\ m !! h' = Some (svc', port')) as Hh
    by (eexists _, _, _; split_and!; [done|apply list_elem_of_here|done]).
  destruct (b_TransferHostname V be lid h svc port) as [e|].
  - split; [|done]. intros c ->%list_elem_of_singleton. done.
  - destruct (transfer_all be lid m hs) as [c2 r2] eqn:Et.
    destruct (IH _ _ eq_refl) as [IH1 IH2]; [intros h' Hh'; by apply Hm, list_elem_of_further|]. simpl. split.
    + intros c [->|Hc]%elem_of_cons; [done|]. destruct (IH1 c Hc) as (h' & s' & p' & -> & Hin & E).
      eexists _, _, _. split; [done|]. split; [by apply list_elem_of_further|done].
    + intros Hr. rewrite Eh. simpl. by rewrite IH2.
Qed.

Lemma find_none {A} (p : A -> bool) l : List.find p l = None -> forall x, x ∈ l -> p x = false.
Proof. intros Hf x Hx. apply list_elem_of_In in Hx. by apply (List.find_none p l Hf). Qed.

(** What a handler that needs a destination does. *)
Lemma destination_cases (owner : string) mb (k : LeaseID -> crd_group -> handler V (reply V)) cs r :
  hbind (find_destination be owner mb) (fun '(lid, g) => k lid g) = (cs, r) ->
  let first := CFindActiveLease owner (mb_dseq mb) (mb_gseq mb) in
  (exists lid g c2, b_FindActiveLease _ be owner (mb_dseq mb) (mb_gseq mb) = Ok (Some (lid, g)) /\
     k lid g = (c2, r) /\ cs = first :: c2) \/
  (cs = [first] /\ exists e, r = Err e).
Proof.
  unfold find_destination, hbind, hcall, hexpect.
  destruct (b_FindActiveLease V be owner (mb_dseq mb) (mb_gseq mb)) as [[[lid g]|]|e]; simpl.
  - destruct (k lid g) as [c2 r2] eqn:E. intros [= <- <-]. left. eauto 10.
  - intros [= <- <-]. eauto.
  - intros [= <- <-]. eauto.
Qed.

Lemma migrate_to_spec names lid g c2 r :
  migrate_to be names lid g = (c2, r) ->
  (forall lid' h svc port, CTransferHostname lid' h svc port ∈ c2 ->
     lid' = lid /\ h ∈ names /\ b_PrepareHostnamesForTransfer _ be names lid = None /\ (h, (svc, port)) ∈ host_entries g) /\
  (r = Ok (RJson StatusOK (VTransferred names)) ->
     forall h, h ∈ names -> exists svc port, CTransferHostname lid h svc port ∈ c2).
Proof.
  unfold migrate_to. destruct (List.find _ names) as [h|] eqn:Ef.
  { intros [= <- <-]. split; [intros; no_elem|done]. }
  assert (forall h, h ∈ names -> is_Some (hostnameTo g !! h)) as Hm.
  { intros h Hh. pose proof (find_none _ _ Ef h Hh) as E. simpl in E. by destruct (hostnameTo g !! h). }
  rewrite hbind_call. destruct (b_PrepareHostnamesForTransfer V be names lid) as [e|] eqn:Ep.
  { destruct (errors_Is e SHostnameNotAllowed); intros [= <- <-]; (split; [intros ???? ?%list_elem_of_singleton; done|done]). }
  destruct (transfer_all be lid (hostnameTo g) names) as [c3 r3] eqn:Et.
  destruct (transfer_all_calls _ _ _ _ _ Et Hm) as [Hc Hr].
  intros Heq. assert (c2 = CPrepareHostnames names lid :: c3 /\
      (r = Ok (RJson StatusOK (VTransferred names)) -> r3 = Ok tt)) as [-> Hr3].
  { unfold hbind in Heq. destruct r3 as [[]|e3]; simpl in Heq; injection Heq as <- <-; [by rewrite app_nil_r|done]. }
  split.
  - intros lid' h svc port [?|(h' & s' & p' & [= -> -> -> ->] & Hin & E)%Hc]%elem_of_cons; [done|].
    split_and!; [done..|]. apply foldl_insert_elem in E as [E|E]; [by rewrite lookup_empty in E|done].
  - intros HR h Hh. rewrite (Hr (Hr3 HR)). destruct (Hm h Hh) as [[svc port] E]. exists svc, port.
    apply list_elem_of_further, list_elem_of_fmap. exists h. by rewrite E.
Qed.

(** Hostnames are moved only to the lease that was found for the owner and the
    destination, only those that were named and that the manifest of that lease declares,
    each to a service and port that declare it, and only once the hostname service has
    agreed to all of them; an answer of success means that all were moved. *)
Theorem hostnames_migrated (owner : string) (mb : migrateRequestBody) (cs : list (gcall V)) (r : result (reply V) (reply V)) :
  migrateHandler be owner (BodyMigrate (Some mb)) = (cs, r) ->
  (forall lid h svc port, CTransferHostname lid h svc port ∈ cs ->
     h ∈ mb_names mb /\ b_PrepareHostnamesForTransfer _ be (mb_names mb) lid = None /\
     exists g, b_FindActiveLease _ be owner (mb_dseq mb) (mb_gseq mb) = Ok (Some (lid, g)) /\ (h, (svc, port)) ∈ host_entries g) /\
  (r = Ok (RJson StatusOK (VTransferred (mb_names mb))) ->
     forall h, h ∈ mb_names mb -> exists lid svc port, CTransferHostname lid h svc port ∈ cs).
Proof.
  unfold migrateHandler. destruct (mb_names mb) as [|n ns] eqn:En.
  { intros [= <- <-]. split; [intros; no_elem|done]. }
  rewrite <- En. intros Hm. apply destination_cases in Hm as [(lid & g & c2 & Ef & Hk & ->)|(-> & e & ->)].
  - destruct (migrate_to_spec _ _ _ _ _ Hk) as [Hc Hr]. split.
    + intros lid' h svc port [?|(-> & H1 & H2 & H3)%Hc]%elem_of_cons; [done|]. eauto 10.
    + intros HR h Hh. destruct (Hr HR h Hh) as (svc & port & Hin). exists lid, svc, port. by apply list_elem_of_further.
  - split; [|done]. by intros ???? ?%list_elem_of_singleton.
Qed.

(** An expose with a leased IP. *)
Definition leases_ip (e : Crd.ServiceExpose) : Prop := Crd.Global e = true /\ Crd.IP e <> ""%string.

Lemma collect_ips_all found l found' ms :
  collect_ips found l = Ok (found', ms) ->
  forall s e, (s, e) ∈ l -> leases_ip e ->
    exists proto, Deploy.ParseServiceProtocol (Crd.Proto e) = Some proto /\ mkMigration e (Crd.Name s) proto ∈ ms.
Proof.
  revert found found' ms. induction l as [|[s' e'] l IH]; intros found found' ms; [intros; no_elem|].
  cbn [collect_ips]. intros Hc s e Hin [Hg Hi].
  destruct (negb (Crd.Global e') || String.eqb (Crd.IP e') "") eqn:Ew.
  - apply elem_of_cons in Hin as [[= -> ->]|Hin]; [|by eapply IH].
    rewrite Hg in Ew. by destruct (String.eqb_spec (Crd.IP e') "").
  - rewrite bool_decide_eq_true_2 in Hc by set_solver. simpl in Hc.
    destruct (Deploy.ParseServiceProtocol (Crd.Proto e')) as [proto|] eqn:Ep; [|done].
    apply bind_result_Ok in Hc as ([f ms'] & Hc & [= <- <-]).
    apply elem_of_cons in Hin as [[= -> ->]|Hin]; [exists proto; split; [done|apply list_elem_of_here]|].
    destruct (IH _ _ _ Hc s e Hin) as (proto' & ? & ?); [done|]. exists proto'. split; [done|by apply list_elem_of_further].
Qed.

Lemma declare_all_calls lid l cs :
  declare_all be lid l = (cs, Ok tt) ->
  forall m, m ∈ l -> CDeclareIP lid (mg_service m) (wrap32 (Crd.Port (mg_expose m)))
    (wrap32 (DetermineExposedExternalPort (mg_expose m))) (mg_proto m) (MakeIPSharingKey lid (Crd.IP (mg_expose m))) ∈ cs.
Proof.
  revert cs. induction l as [|m' l IH]; intros cs Hd m Hin; [by apply not_elem_of_nil in Hin|]. cbn [declare_all] in Hd.
  rewrite hbind_call in Hd. case_match; [done|]. destruct (declare_all be lid l) as [c2 r2]. simplify_eq/=.
  apply elem_of_cons in Hin as [->|Hin]; [apply list_elem_of_here|]. by apply list_elem_of_further, IH.
Qed.

(** A migration of endpoints that succeeds declares every leased IP of the destination
    anew, taking each over from the lease that has it, and not only those that were asked
    for: the check of what was requested looks at the wrong set. *)
Theorem endpoint_migration_moves_all (owner : string) (mb : migrateRequestBody) (cs : list (gcall V)) lid g :
  migrateEndpointHandler be owner (BodyMigrate (Some mb)) = (cs, Ok (RJson StatusOK (VTransferred (mb_names mb)))) ->
  b_FindActiveLease _ be owner (mb_dseq mb) (mb_gseq mb) = Ok (Some (lid, g)) ->
  forall s e, (s, e) ∈ group_exposes g -> leases_ip e ->
    exists proto, CDeclareIP lid (Crd.Name s) (wrap32 (Crd.Port e)) (wrap32 (DetermineExposedExternalPort e)) proto
      (MakeIPSharingKey lid (Crd.IP e)) ∈ cs.
Proof.
  unfold migrateEndpointHandler. destruct (mb_names mb) as [|n ns] eqn:En; [done|]. rewrite <- En.
  intros Hm Hf s e Hin Hip. apply destination_cases in Hm as [(lid' & g' & c2 & Ef & Hk & ->)|(_ & ? & [=])].
  rewrite Hf in Ef. injection Ef as <- <-. unfold migrate_endpoints_to in Hk.
  destruct (collect_ips ∅ (group_exposes g)) as [[found l]|[]] eqn:Ec; [|done]. case_match; [done|].
  destruct (collect_ips_all _ _ _ _ Ec s e Hin Hip) as (proto & _ & Hl). exists proto. apply list_elem_of_further.
  unfold hbind in Hk. destruct (declare_all be lid l) as [c3 [[]|]] eqn:Ed; simplify_eq/=. rewrite app_nil_r.
  apply (declare_all_calls _ _ _ Ed _ Hl).
Qed.

End Migrations.

(** ** The command of a shell *)

Section Shell.
Variable r : Request.

Definition cmd_key (i : N) : string := "cmd" +:+ pretty i.

Lemma cmd_key_inj i j : cmd_key i = cmd_key j -> i = j.
Proof. unfold cmd_key. intros [=]. by apply (inj pretty). Qed.

Lemma shell_cmd_spec fuel i :
  let l := shell_cmd fuel r i in
  (forall k v, l !! k = Some v -> query_get r (cmd_key (i + N.of_nat k)) = v /\ v <> ""%string) /\
  (List.length l = fuel \/ query_get r (cmd_key (i + N.of_nat (List.length l))) = ""%string).
Proof.
  revert i. induction fuel as [|fuel IH]; intros i; cbn [shell_cmd]; [split; [by intros ? ?|by left]|].
  fold (cmd_key i). destruct (String.eqb_spec (query_get r (cmd_key i)) "") as [E|E].
  - split; [by intros ? ?|]. right. simpl. by rewrite N.add_0_r.
  - destruct (IH (i + 1)%N) as [IH1 IH2]. split.
    + intros [|k] v; simpl; [intros [= <-]; by rewrite N.add_0_r|]. intros Hk.
      destruct (IH1 k v Hk) as [H1 H2]. split; [|done]. rewrite <- H1. f_equal. f_equal. lia.
    + simpl. destruct IH2 as [->|H2]; [by left|]. right. rewrite <- H2. f_equal. f_equal. lia.
Qed.

(** The command is complete: it has the parameters [cmd0], [cmd1], ... up to the
    first that is missing or empty, and that one exists; the loop ends because there are
    only so many parameters. *)
Theorem shell_command_complete :
  let cmd := shell_cmd (S (size (r_query r))) r 0 in
  (forall k v, cmd !! k = Some v -> query_get r (cmd_key (N.of_nat k)) = v /\ v <> ""%string) /\
  query_get r (cmd_key (N.of_nat (List.length cmd))) = ""%string.
Proof.
  cbv zeta. destruct (shell_cmd_spec (S (size (r_query r))) 0) as [H1 H2]. cbv zeta in H1, H2.
  set (cmd := shell_cmd (S (size (r_query r))) r 0) in *. split; [exact H1|].
  destruct H2 as [H2|H2]; [|exact H2]. exfalso.
  set (ks := map (fun k => cmd_key (N.of_nat k)) (seq 0 (List.length cmd))).
  assert (list_to_set ks ⊆ dom (r_query r)) as Hsub.
  { intros k. rewrite elem_of_list_to_set. unfold ks. rewrite list_elem_of_fmap. intros (n & -> & Hn).
    apply elem_of_seq in Hn. destruct (lookup_lt_is_Some_2 cmd n) as [v Hv]; [lia|].
    destruct (H1 n v Hv) as [Hq Hne]. apply elem_of_dom. unfold query_get in Hq.
    change (0 + N.of_nat n)%N with (N.of_nat n) in Hq. destruct (r_query r !! cmd_key (N.of_nat n)); [done|by subst v]. }
  apply subseteq_size in Hsub. rewrite size_list_to_set, size_dom in Hsub.
  - unfold ks in Hsub. rewrite length_map, length_seq in Hsub. lia.
  - unfold ks. apply NoDup_fmap_2, NoDup_seq. intros a b E. apply cmd_key_inj in E. lia.
Qed.

End Shell.

(** ** The lease of a destination *)

(** [FindActiveLease] of the cluster service: the query of its loop, then the manifest. *)
Definition FindActiveLease `{GoRange} (s : ClusterService.service) (get : LeaseID -> result go_error (option crd_group))
    (owner : string) (dseq gseq : Z) : result go_error (option (LeaseID * crd_group)) :=
  match ClusterService.doCheckDeploymentExists (ClusterService.mkExistsRequest owner dseq gseq) s with
  | None => Ok None
  | Some lid =>
      match get lid with
      | Err e => Err e
      | Ok None => Err (ENew "no manifest group could be found")
      | Ok (Some g) => Ok (Some (lid, g))
      end
  end.

(** The cluster service keeps to what the gateway needs of it. *)
Lemma FindActiveLease_own `{GoRange} {V} (be : Backend V) s get :
  b_FindActiveLease _ be = FindActiveLease s get -> finds_own be.
Proof.
  intros E owner d g lid grp. rewrite E. unfold FindActiveLease.
  pose proof (ClusterService.check_exists_sound (ClusterService.mkExistsRequest owner d g) s) as Hs.
  destruct (ClusterService.doCheckDeploymentExists _ s) as [lid'|]; [|done].
  destruct (get lid') as [[g'|]|]; [|done..]. intros [= -> ->]. destruct Hs as [_ Hm].
  unfold ClusterService.exists_match in Hm. apply andb_prop in Hm as [_ Hm]. by apply String.eqb_eq in Hm.
Qed.

(** ** Examples *)

Module GatewayExamples.

#[local] Instance ex_bech32 : Bech32 := {| bech32_canonical s := if String.eqb s "" then None else Some s |}.

(** A token is the name of its issuer and, after a dot, a letter for each scope. *)
#[local] Instance ex_jwt : JWT :=
  {| Perms := list PermissionScope; no_perms := []; AccountKey := string; Validate _ := None;
     IssuerAddress c := cl_Issuer c; AuthorizeForProvider _ _ := true;
     AuthorizeForDeploymentID c did _ := String.eqb (dp_owner did) (cl_Issuer c);
     AuthorizeForLeaseID c lid := String.eqb (l_owner lid) (cl_Issuer c);
     AuthorizeDeploymentIDForPermissionScope _ _ _ _ := true;
     AuthorizeLeaseIDForPermissionScope c lid s :=
       match cl_Access c with AccessTypeFull => true | _ => match s with PermissionScopeLogs => true | _ => false end end;
     ParseWithClaims tok kf _ :=
       let c := mkClaims tok "v1" None None None (AccessTypeOther "scoped") [PermissionScopeLogs] in
       match kf c with Ok _ => (None, Some true, c) | Err e => (Some e, Some false, c) end;
     signed_by _ _ _ := true |}.

#[local] Instance ex_jwt_laws : JWTLaws.
Proof.
  split; [|done]. intros tok kf ms c. simpl. destruct (kf _) as [[pk iss]|e] eqn:E; [|done]. intros [= <-]. eauto.
Qed.

#[local] Instance ex_paths : Paths :=
  {| ParseDeploymentPath l := match l with [o; d] => n ← ParseUint 64 d; Some (mkDeploymentID o n) | _ => None end;
     ParseLeasePath l :=
       match l with
       | [o; d; g; s; p] => d ← ParseUint 64 d; g ← ParseUint 32 g; s ← ParseUint 32 s; Some (mkLeaseID o d g s p)
       | _ => None
       end |}.

#[local] Instance ex_path_laws : PathLaws.
Proof.
  split; simpl; intros.
  - destruct (ParseUint 64 d); [|done]. destruct (ParseUint 32 g); [|done]. destruct (ParseUint 32 s); by simplify_eq/=.
  - destruct (ParseUint 64 d); by simplify_eq/=.
Qed.

#[local] Instance ex_deploy : DeployAPI :=
  {| uuid_sha1 _ := []; lease_string l := l_owner l; sha256 _ := []; Deploy.ParseServiceProtocol := Some |}.

Definition ex_lid : LeaseID := mkLeaseID "alice" 7 1 1 "provider".

Definition ex_http : Crd.HTTPOptions := Crd.mkHTTP 0 0 0 0 0 [] false 0 0 0 0 0.
Definition ex_expose (host ip : string) : Crd.ServiceExpose := Crd.mkExpose 80 0 "TCP" "" true [host] ex_http ip 0.
Definition ex_res : Crd.CResources :=
  Crd.mkResources 1 (Crd.mkUnits 100 []) (Crd.mkUnits 0 []) (Crd.mkMemory "1" []) [].
Definition ex_service : Crd.Service SchedulerParams :=
  Crd.mkService "web" "nginx" [] [] [] ex_res 1 [ex_expose "a.org" "ip1"; ex_expose "b.org" "ip2"] None None None "".
Definition ex_group : crd_group := Crd.mkGroup "g" [ex_service].

Definition ex_cluster : ClusterService.service := ClusterService.mkService {[ex_lid := 1%Z]} false.

#[local] Instance ex_range : GoRange := sorted_range.

Definition ex_backend : Backend string :=
  mkBackend string (Ok "v1") (Ok "ok") (Ok None) (fun _ => Ok (Some ex_group)) (fun _ => Ok "manifest")
    None (fun _ => Ok "ports") (fun _ => Ok "status") (fun _ _ => Ok "service") (fun _ _ _ _ => Ok ("quote", 200%Z))
    (fun _ _ => None) (FindActiveLease ex_cluster (fun _ => Ok (Some ex_group))) (fun _ _ => None) (fun _ _ _ _ => None)
    (fun _ _ _ _ _ _ => None).

Definition ex_vars : gmap string string :=
  {["dseq" := "7"; "gseq" := "1"; "oseq" := "1"; "serviceName" := "web"]}.
Definition ex_query : gmap string string := {["cmd0" := "ls"; "cmd1" := "-l"; "tail" := "10"]}.

Definition ex_request (auth : string) (peers : list string) : Request := mkRequest auth peers ex_vars ex_query.
Definition ex_querier : account_querier := Some (fun _ => Ok "key"%string).

Definition ex_serve := serve_request ex_backend "provider" ex_querier 0.

Lemma ex_finds_own : finds_own ex_backend.
Proof. by eapply FindActiveLease_own. Qed.

Lemma tenant_confined_witness :
  exists calls rep, ex_serve ELeaseStatus (ex_request "" ["alice"%string]) BodyNone = Answered calls rep /\
    exists c, request_claims ex_querier 0 (ex_request "" ["alice"%string]) = Ok c /\
      AuthorizeForProvider c "provider" = true /\ "alice"%string <> ""%string /\ "alice"%string = IssuerAddress c.
Proof.
  eexists _, _. split; [vm_compute; reflexivity|].
  eapply (tenant_confined ex_backend "provider" ex_querier 0 ELeaseStatus (ex_request "" ["alice"%string]) BodyNone);
    [apply ex_finds_own|vm_compute; reflexivity|].
  left. exists (CLeaseStatus ex_lid). split; [|done]. HttpErrors.pick_elem.
Defined.

Lemma anonymous_rejected_witness :
  ex_serve EShell (ex_request "" ["alice"; "ca"]%string) BodyNone =
    Answered [] (RText (mkResponse StatusUnauthorized "unauthorized access")).
Proof. by apply (anonymous_rejected ex_backend "provider" ex_querier 0 EShell (ex_request "" ["alice"; "ca"]%string)). Defined.

Lemma scope_enforced_witness :
  (exists x, run_middlewares "provider" ex_querier 0 (route_middlewares ELogs) no_ctx (ex_request "Bearer alice" []) = Next x /\
    exists c lid, request_claims ex_querier 0 (ex_request "Bearer alice" []) = Ok c /\ x_lease x = Some lid /\
      AuthorizeForProvider c "provider" = true /\ AuthorizeForLeaseID c lid = true /\
      AuthorizeLeaseIDForPermissionScope c lid PermissionScopeLogs = true) /\
  (exists c, authInterceptor ex_querier 0 ["alice"%string] [] = Ok c /\
     AuthorizeLeaseIDForPermissionScope c ex_lid PermissionScopeAttestation = true).
Proof.
  destruct (scope_enforced ex_backend "provider" ex_querier 0) as [Hrest Hgrpc]. split.
  - eexists. split; [vm_compute; reflexivity|].
    eapply (Hrest ELogs PermissionScopeLogs (ex_request "Bearer alice" [])); [done|vm_compute; reflexivity].
  - destruct (Hgrpc ["alice"%string] [] ex_lid "{}"%string) as [H|[_ H]]; [exfalso; vm_compute in H; discriminate|exact H].
Defined.

Definition ex_claims : Claims := mkClaims "alice" "v1" None None None (AccessTypeOther "scoped") [PermissionScopeLogs].

Lemma service_status_needs_no_scope_witness :
  ex_serve ELeaseStatus (ex_request "Bearer alice" []) BodyNone =
    Answered [] (RText (mkResponse StatusUnauthorized "unauthorized access")) /\
  exists rep, ex_serve EServiceStatus (ex_request "Bearer alice" []) BodyNone = Answered [CServiceStatus ex_lid "web"] rep.
Proof.
  by apply (service_status_needs_no_scope ex_backend "provider" ex_querier 0 (ex_request "Bearer alice" []) BodyNone ex_claims ex_lid).
Defined.

Definition ex_migrate (names : list string) : migrateRequestBody := mkMigrate names 7 1.

Lemma hostnames_migrated_witness :
  exists cs r, migrateHandler ex_backend "alice" (BodyMigrate (Some (ex_migrate ["a.org"%string]))) = (cs, r) /\
    forall h, h ∈ ["a.org"%string] -> exists lid svc port, CTransferHostname lid h svc port ∈ cs.
Proof.
  eexists _, _. split; [vm_compute; reflexivity|].
  eapply (hostnames_migrated ex_backend "alice" (ex_migrate ["a.org"%string])); vm_compute; reflexivity.
Defined.

Lemma endpoint_migration_moves_all_witness :
  exists cs, migrateEndpointHandler ex_backend "alice" (BodyMigrate (Some (ex_migrate ["ip1"%string]))) =
      (cs, Ok (RJson StatusOK (VTransferred ["ip1"%string]))) /\
    exists proto, CDeclareIP ex_lid "web" 80 80 proto (MakeIPSharingKey ex_lid "ip2") ∈ cs.
Proof.
  eexists. split; [vm_compute; reflexivity|].
  eapply (endpoint_migration_moves_all ex_backend "alice" (ex_migrate ["ip1"%string]) _ ex_lid ex_group) with
    (s := ex_service) (e := ex_expose "b.org" "ip2"); [vm_compute; reflexivity|vm_compute; reflexivity| |done].
  vm_compute. HttpErrors.pick_elem.
Defined.

End GatewayExamples.
