(* ===== verification/GatewayStreams.v ===== *)
(** * Streams of the REST gateway

    Model of the websockets of [gateway/rest/router.go] and [router_shell.go]: the logs of a
    lease ([wsLogWriter]), its events ([wsEventWriter]) and a shell in one of its services
    ([leaseShellHandler] once the connection is upgraded, [leaseShellWebsocketHandler]). The
    writer of logs and the shell are several goroutines: they are transition systems, in
    which a send on a channel nobody receives from waits. *)

From Stdlib Require Import ZArith Lia Ascii.
From stdpp Require Import base gmap list strings relations tactics.
From S2P Require Import Prelude HttpErrors.

(** ** Logs *)

(** [scan.Text]: a line without the carriage return at its end. *)
Definition dropCR (l : string) : string :=
  if decide (String.get (String.length l - 1) l = Some "013"%char) then String.substring 0 (String.length l - 1) l else l.

(** [bufio.MaxScanTokenSize]: a line and the end of it must fit in the buffer of the scanner. *)
Definition MaxScanTokenSize : Z := 64 * 1024.
Definition line_fits (l : string) : bool := (Z.of_nat (String.length l) <? MaxScanTokenSize)%Z.

(** [scan.Err]. *)
Inductive scan_error := ErrTooLong | ErrRead.

(** One goroutine per log: it waits for a line, waits to hand one over, or is done. *)
Inductive scan_state := Scanning | Handing (line : string) | ScanDone.

(** [sc_left]: the lines of the log still to be read, as they are between the newlines. *)
Record scanner := mkScanner { sc_name : string; sc_state : scan_state; sc_left : list string; sc_err : option scan_error }.

(** The loop runs, or has ended; then what is still handed over is thrown away. *)
Record logs := mkLogs {
  lg_running : bool;
  lg_ctx : bool;                          (* the request's context is alive *)
  lg_scanners : list scanner;
  lg_sent : list (string * string)        (* the messages written, name and line *)
}.

Definition with_scanner (s : logs) (i : nat) (sc : scanner) : logs :=
  mkLogs (lg_running s) (lg_ctx s) (<[i := sc]> (lg_scanners s)) (lg_sent s).

Definition all_done (s : logs) : Prop := Forall (fun sc => sc_state sc = ScanDone) (lg_scanners s).

(** A scan ends with its stream, with the request, with a line that is too long, with a read
    that fails, and, once the loop has ended and the streams are closed, at any time. What was
    read of a line when a read fails is handed over as a line. *)
Inductive log_step : logs -> logs -> Prop :=
| ls_line s i n l ls :
    lg_scanners s !! i = Some (mkScanner n Scanning (l :: ls) None) -> line_fits l = true -> lg_ctx s = true ->
    log_step s (with_scanner s i (mkScanner n (Handing (dropCR l)) ls None))
| ls_long s i n l ls :
    lg_scanners s !! i = Some (mkScanner n Scanning (l :: ls) None) -> line_fits l = false ->
    log_step s (with_scanner s i (mkScanner n ScanDone (l :: ls) (Some ErrTooLong)))
| ls_read_fails s i n ls :
    lg_scanners s !! i = Some (mkScanner n Scanning ls None) ->
    log_step s (with_scanner s i (mkScanner n ScanDone ls (Some ErrRead)))
| ls_read_part s i n p q ls :
    lg_scanners s !! i = Some (mkScanner n Scanning ((p +:+ q)%string :: ls) None) -> p <> ""%string -> line_fits p = true ->
    lg_ctx s = true ->
    log_step s (with_scanner s i (mkScanner n (Handing (dropCR p)) ls (Some ErrRead)))
| ls_end s i n ls err :
    lg_scanners s !! i = Some (mkScanner n Scanning ls err) -> ls = [] \/ err <> None \/ lg_ctx s = false ->
    log_step s (with_scanner s i (mkScanner n ScanDone ls err))
| ls_closed s i n ls err :
    lg_running s = false -> lg_scanners s !! i = Some (mkScanner n Scanning ls err) ->
    log_step s (with_scanner s i (mkScanner n ScanDone ls (Some ErrRead)))
| ls_write s i n l ls err :
    lg_running s = true -> lg_scanners s !! i = Some (mkScanner n (Handing l) ls err) ->
    log_step s (mkLogs true (lg_ctx s) (<[i := mkScanner n Scanning ls err]> (lg_scanners s)) (lg_sent s ++ [(n, l)]))
| ls_write_fails s i n l ls err :
    lg_running s = true -> lg_scanners s !! i = Some (mkScanner n (Handing l) ls err) ->
    log_step s (mkLogs false (lg_ctx s) (<[i := mkScanner n Scanning ls err]> (lg_scanners s)) (lg_sent s))
| ls_ping_fails s : lg_running s = true -> log_step s (mkLogs false (lg_ctx s) (lg_scanners s) (lg_sent s))
| ls_done s : lg_running s = true -> all_done s -> log_step s (mkLogs false (lg_ctx s) (lg_scanners s) (lg_sent s))
| ls_drain s i n l ls err :
    lg_running s = false -> lg_scanners s !! i = Some (mkScanner n (Handing l) ls err) ->
    log_step s (with_scanner s i (mkScanner n Scanning ls err))
| ls_cancel s : lg_ctx s = true -> log_step s (mkLogs (lg_running s) false (lg_scanners s) (lg_sent s)).

Definition log_start (streams : list (string * list string)) : logs :=
  mkLogs true true (map (fun '(n, ls) => mkScanner n Scanning ls None) streams) [].

(** What [wsLogWriter] does before its loop: the code and the text the websocket is closed with, or the loop. *)
Definition wsLogWriter (answer : result go_error (list (string * list string))) : (Z * string) + logs :=
  match answer with
  | Err e => inl (websocketCloseCodeFrom (Some e), ""%string)
  | Ok [] => inl (websocketInternalServerErrorCode, "no running pods"%string)
  | Ok streams => inr (log_start streams)
  end.

(** The line a goroutine waits to hand over. *)
Definition handed (sc : scanner) : list string := match sc_state sc with Handing l => [l] | _ => [] end.

(** The lines of a name among the messages. *)
Definition lines_of (n : string) (sent : list (string * string)) : list string :=
  omap (fun m => if decide (m.1 = n) then Some m.2 else None) sent.

(** What [got] is of a log [ls] of which [left] is not read: without an error, what precedes
    [left]; with a line that is too long, what precedes that line; with a read that failed, the
    lines up to some point, and perhaps the beginning of the next. *)
Definition read_of (ls left : list string) (err : option scan_error) (got : list string) : Prop :=
  exists whole, Forall (fun l => line_fits l = true) whole /\
    match err with
    | None => ls = whole ++ left /\ got = map dropCR whole
    | Some ErrTooLong => exists l rest, ls = whole ++ l :: rest /\ line_fits l = false /\ got = map dropCR whole
    | Some ErrRead => exists rest part, ls = whole ++ rest /\ got = map dropCR whole ++ part /\
        (part = [] \/ exists p q rest', rest = (p +:+ q)%string :: rest' /\ part = [dropCR p])
    end.

Section Logs.
Variable streams : list (string * list string).
Hypothesis names_differ : NoDup (map fst streams).

(** As long as nobody cancels and no write fails, what was written of a log, with the line that
    is handed over, is what was read of it. *)
Definition log_inv (s : logs) : Prop :=
  List.length (lg_scanners s) = List.length streams /\
  forall i n ls, streams !! i = Some (n, ls) -> exists sc, lg_scanners s !! i = Some sc /\ sc_name sc = n /\
    (lg_running s = true -> lg_ctx s = true ->
       read_of ls (sc_left sc) (sc_err sc) (lines_of n (lg_sent s) ++ handed sc) /\
       (sc_state sc = ScanDone -> sc_err sc = None -> sc_left sc = [])).

Lemma names_inj i j n ls ls' : streams !! i = Some (n, ls) -> streams !! j = Some (n, ls') -> i = j.
Proof.
  intros Hi Hj. eapply (NoDup_lookup (map fst streams) i j n); [done|..].
  - by rewrite list_lookup_fmap, Hi.
  - by rewrite list_lookup_fmap, Hj.
Qed.

(** A step of one scanner that writes nothing. *)
Lemma log_inv_update s i sc sc' run ctx :
  log_inv s -> lg_scanners s !! i = Some sc -> sc_name sc' = sc_name sc ->
  (run = true -> lg_running s = true) -> (ctx = true -> lg_ctx s = true) ->
  (run = true -> ctx = true -> forall ls sent,
     read_of ls (sc_left sc) (sc_err sc) (sent ++ handed sc) -> read_of ls (sc_left sc') (sc_err sc') (sent ++ handed sc')) ->
  (run = true -> ctx = true -> sc_state sc' = ScanDone -> sc_err sc' = None -> sc_left sc' = []) ->
  log_inv (mkLogs run ctx (<[i := sc']> (lg_scanners s)) (lg_sent s)).
Proof.
  intros [Hlen Hinv] Hi Hn Hr Hc Hh Hd. split; simpl; [by rewrite length_insert|]. intros j n ls Hj.
  destruct (Hinv j n ls Hj) as (sc0 & Hsc0 & Hn0 & H0). destruct (decide (i = j)) as [<-|Hne].
  - rewrite Hi in Hsc0. injection Hsc0 as <-. exists sc'. rewrite list_lookup_insert_eq by (by eapply lookup_lt_Some).
    split_and!; [done|congruence|]. intros Hrun Hctx. destruct (H0 (Hr Hrun) (Hc Hctx)) as [E _].
    split; [by apply Hh|by apply Hd].
  - exists sc0. rewrite list_lookup_insert_ne by done. split_and!; [done|done|]. intros Hrun Hctx.
    by apply H0; [apply Hr|apply Hc].
Qed.

(** A line that is read. *)
Lemma read_line ls l left got : line_fits l = true ->
  read_of ls (l :: left) None got -> read_of ls left None (got ++ [dropCR l]).
Proof.
  intros Hf (whole & Hw & -> & ->). exists (whole ++ [l]). split; [by apply Forall_app; split; [|constructor]|].
  rewrite map_app, <- (assoc_L (++)). done.
Qed.

(** A line that is too long. *)
Lemma read_long ls l left left' got : line_fits l = false ->
  read_of ls (l :: left) None got -> read_of ls left' (Some ErrTooLong) got.
Proof. intros Hf (whole & Hw & -> & ->). exists whole. split; [done|]. by exists l, left. Qed.

(** A read that fails, between lines and in one. *)
Lemma read_failed ls left left' got : read_of ls left None got -> read_of ls left' (Some ErrRead) got.
Proof.
  intros (whole & Hw & -> & ->). exists whole. split; [done|]. exists left, []. rewrite app_nil_r. split_and!; [done..|by left].
Qed.

Lemma read_part ls p q left left' got :
  read_of ls ((p +:+ q)%string :: left) None got -> read_of ls left' (Some ErrRead) (got ++ [dropCR p]).
Proof.
  intros (whole & Hw & -> & ->). exists whole. split; [done|]. eexists _, [dropCR p]. split_and!; [done..|].
  right. by exists p, q, left.
Qed.

Lemma lines_of_snoc n m l sent :
  lines_of n (sent ++ [(m, l)]) = lines_of n sent ++ (if decide (m = n) then [l] else []).
Proof. unfold lines_of. rewrite omap_app. simpl. by destruct (decide (m = n)). Qed.

Lemma log_inv_write s i n l ls err :
  log_inv s -> lg_scanners s !! i = Some (mkScanner n (Handing l) ls err) ->
  log_inv (mkLogs (lg_running s) (lg_ctx s) (<[i := mkScanner n Scanning ls err]> (lg_scanners s)) (lg_sent s ++ [(n, l)])).
Proof.
  intros [Hlen Hinv] Hi. split; simpl; [by rewrite length_insert|]. intros j n' ls' Hj.
  destruct (Hinv j n' ls' Hj) as (sc0 & Hsc0 & Hn0 & H0). destruct (decide (i = j)) as [<-|Hne].
  - rewrite Hi in Hsc0. injection Hsc0 as <-. simpl in Hn0. subst n'. eexists. rewrite list_lookup_insert_eq
      by (by eapply lookup_lt_Some). split_and!; [done..|]. intros Hr Hc. destruct (H0 Hr Hc) as [E _]. split; [|done].
    rewrite lines_of_snoc, decide_True by done. cbn [handed sc_state]. rewrite app_nil_r. exact E.
  - exists sc0. rewrite list_lookup_insert_ne by done. split_and!; [done|done|]. intros Hr Hc. rewrite lines_of_snoc.
    rewrite decide_False; [rewrite app_nil_r; by apply H0|]. intros ->.
    assert (is_Some (streams !! i)) as [[n2 ls2] H2].
    { apply lookup_lt_is_Some. rewrite <- Hlen. by eapply lookup_lt_Some. }
    destruct (Hinv i n2 ls2 H2) as (sc2 & Hsc2 & Hn2 & _). rewrite Hi in Hsc2. injection Hsc2 as <-. simpl in Hn2. subst n2.
    apply Hne. by eapply names_inj.
Qed.

(** The end of the loop, and the end of the request. *)
Lemma log_inv_ended s run ctx :
  log_inv s -> run = false \/ ctx = false -> log_inv (mkLogs run ctx (lg_scanners s) (lg_sent s)).
Proof.
  intros [Hlen Hinv] Hend. split; [done|]. intros i n ls Hi. destruct (Hinv i n ls Hi) as (sc & ? & ? & _).
  exists sc. split_and!; [done..|]. simpl. intros -> ->. by destruct Hend.
Qed.

Lemma log_inv_step s s' : log_inv s -> log_step s s' -> log_inv s'.
Proof.
  intros Hinv Hst. destruct Hst as
    [s i n l ls Hi Hf Hc|s i n l ls Hi Hf|s i n ls Hi|s i n p q ls Hi Hp Hf Hc|s i n ls err Hi Hend|s i n ls err Hr Hi
    |s i n l ls err Hr Hi|s i n l ls err Hr Hi|s Hr|s Hr Hd|s i n l ls err Hr Hi|s Hc]; unfold with_scanner.
  - eapply log_inv_update; [done..| |done]. intros _ _ ls0 sent. cbn. rewrite app_nil_r. by apply read_line.
  - eapply log_inv_update; [done..| |done]. intros _ _ ls0 sent. cbn. rewrite app_nil_r. by eapply read_long.
  - eapply log_inv_update; [done..| |done]. intros _ _ ls0 sent. cbn. by apply read_failed.
  - eapply log_inv_update; [done..| |done]. intros _ _ ls0 sent. cbn. rewrite app_nil_r. by eapply read_part.
  - eapply log_inv_update; [done..| |]; [done|]. cbn. intros _ Hctx _ ->. destruct Hend as [?|[?|?]]; congruence.
  - eapply log_inv_update; [done..| |]; congruence.
  - rewrite <- Hr. by apply log_inv_write.
  - eapply log_inv_update; done.
  - apply log_inv_ended; [done|by left].
  - apply log_inv_ended; [done|by left].
  - eapply log_inv_update; [done..| |]; congruence.
  - apply log_inv_ended; [done|by right].
Qed.

Lemma log_inv_start : log_inv (log_start streams).
Proof.
  split; simpl; [by rewrite length_map|]. intros i n ls Hi. exists (mkScanner n Scanning ls None).
  rewrite list_lookup_fmap, Hi. split_and!; [done..|]. intros _ _. split; [|done]. exists []. by split; [constructor|].
Qed.

(** When the loop comes to the end of all the logs, the messages of each are what its scanner
    read of it. *)
Lemma logs_read (s : logs) :
  rtc log_step (log_start streams) s -> lg_running s = true -> lg_ctx s = true -> all_done s ->
  forall i n ls, streams !! i = Some (n, ls) -> exists sc, lg_scanners s !! i = Some sc /\ sc_name sc = n /\
    read_of ls [] (sc_err sc) (lines_of n (lg_sent s)).
Proof.
  intros Hr Hrun Hctx Hd i n ls Hi.
  destruct (rtc_preserves log_step log_inv log_inv_step (log_start streams) s) as [_ Hinv]; [apply log_inv_start|done|].
  destruct (Hinv i n ls Hi) as (sc & Hsc & Hn & H0). destruct (H0 Hrun Hctx) as [E Hl].
  unfold all_done in Hd. rewrite list.Forall_forall in Hd.
  assert (sc_state sc = ScanDone) as Hs by (apply Hd; by eapply list_elem_of_lookup_2).
  exists sc. split_and!; [done..|]. unfold handed in E. rewrite Hs, app_nil_r in E.
  destruct (sc_err sc) as [[]|] eqn:He; [exact E|exact E|]. rewrite (Hl Hs eq_refl) in E. exact E.
Qed.

(** C35: when the loop of a log stream comes to the end of all the logs, with the request's
    context alive and no write or ping failed, then of every log, its lines have been written
    to the client in its order, without their newlines: all of them, if its scanner met
    no error; those before the first line of 64 KiB or more and nothing after, if that ended
    the scan; and if a read failed, those before the failure with at most the beginning of the line
    it was in. The client is not told which of these it was. Stated for logs with distinct
    names, as the lines of two logs of one name cannot be told apart. *)
Theorem log_lines_delivered (s : logs) :
  rtc log_step (log_start streams) s -> lg_running s = true -> lg_ctx s = true -> all_done s ->
  forall n ls, (n, ls) ∈ streams -> exists sc, sc ∈ lg_scanners s /\ sc_name sc = n /\
    read_of ls [] (sc_err sc) (lines_of n (lg_sent s)).
Proof.
  intros Hr Hrun Hctx Hd n ls [i Hi]%list_elem_of_lookup.
  destruct (logs_read s Hr Hrun Hctx Hd i n ls Hi) as (sc & Hsc & Hn & Hread). exists sc.
  split_and!; [by eapply list_elem_of_lookup_2|done..].
Qed.

(** A line of 64 KiB or more and what follows it are never written, and the stream ends as
    if the log had ended. *)
Theorem long_line_cuts_log (s : logs) (n : string) (before after : list string) (l : string) :
  rtc log_step (log_start streams) s -> lg_running s = true -> lg_ctx s = true -> all_done s ->
  (n, before ++ l :: after) ∈ streams -> line_fits l = false ->
  (List.length (lines_of n (lg_sent s)) <= S (List.length before))%nat.
Proof.
  intros Hr Hrun Hctx Hd [i Hi]%list_elem_of_lookup Hl.
  destruct (logs_read s Hr Hrun Hctx Hd i _ _ Hi) as (sc & _ & _ & whole & Hw & Hread).
  assert (forall rest, before ++ l :: after = whole ++ rest -> (List.length whole <= List.length before)%nat) as Hb.
  { intros rest E. destruct (Nat.le_gt_cases (List.length whole) (List.length before)) as [|Hlt]; [done|].
    assert (whole !! List.length before = Some l) as Hlk.
    { rewrite <- (lookup_app_l whole rest) by done. rewrite <- E. by apply list_lookup_middle. }
    apply (list.Forall_lookup_1 _ _ _ _ Hw) in Hlk. congruence. }
  destruct (sc_err sc) as [[]|].
  - destruct Hread as (l' & rest & E & _ & ->). rewrite length_map. apply Hb in E. lia.
  - destruct Hread as (rest & part & E & -> & Hp). rewrite length_app, length_map. apply Hb in E.
    destruct Hp as [->|(p & q & rest' & _ & ->)]; simpl; lia.
  - destruct Hread as [E ->]. rewrite length_map. apply Hb in E. lia.
Qed.
End Logs.

(** ** Nothing is left behind *)

Definition scan_measure (sc : scanner) : nat :=
  match sc_state sc with
  | Scanning => 1 + 2 * List.length (sc_left sc)
  | Handing _ => 2 + 2 * List.length (sc_left sc)
  | ScanDone => 0
  end.

Definition log_measure (s : logs) : nat :=
  (if lg_ctx s then 1 else 0) + foldr (fun sc n => scan_measure sc + n)%nat 0%nat (lg_scanners s).

Lemma measure_update l i sc sc' :
  l !! i = Some sc -> (scan_measure sc' < scan_measure sc)%nat ->
  (foldr (fun sc n => scan_measure sc + n)%nat 0%nat (<[i := sc']> l) < foldr (fun sc n => scan_measure sc + n)%nat 0%nat l)%nat.
Proof. revert i. induction l as [|x l IH]; intros [|i] Hi Hm; simplify_eq/=; [lia|]. specialize (IH _ Hi Hm). lia. Qed.

(** Once the loop of a log stream has ended, for whatever reason, the goroutines that
    read the logs end too: they take only finitely many steps more, and as long as one of
    them is not done there is a step, since what they hand over is drained. *)
Theorem log_readers_end (s : logs) :
  lg_running s = false ->
  (forall s', log_step s s' -> lg_running s' = false /\ (log_measure s' < log_measure s)%nat) /\
  (~ all_done s -> exists s', log_step s s').
Proof.
  intros Hr. split.
  - intros s' Hst. inversion Hst; subst; simpl in *; try congruence; unfold log_measure; simpl; (split; [done|]);
      try (apply Nat.add_lt_mono_l; eapply measure_update; [done|]; unfold scan_measure; simpl; lia).
    rewrite H. lia.
  - intros Hn. unfold all_done in Hn. apply not_Forall_Exists in Hn; [|intros sc; destruct (sc_state sc); by (left + right)].
    apply list.Exists_exists in Hn as ([n st ls] & Hin & Hst). apply list_elem_of_lookup in Hin as [i Hi]. simpl in Hst.
    destruct st as [|l|]; [| |done].
    + eexists. by eapply ls_closed.
    + eexists. by eapply ls_drain.
Qed.

(** ** Events *)

Record lease_event := mkLeaseEvent {
  le_type : string; le_controller : string; le_instance : string; le_reason : string; le_note : string;
  le_kind : string; le_namespace : string; le_name : string
}.

Definition CloseNormalClosure : Z := 1000.

(** What is written to the websocket. *)
Inductive ws_write := WClose (code : Z) | WEvent (e : lease_event) | WPing.

(** What the loop of [wsEventWriter] waits for, with the outcome of the write. *)
Inductive ev_input := InCtxDone | InEvtsDone | InEvent (e : option lease_event) (ok : bool) | InPing (ok deadline : bool).

Fixpoint event_loop (ins : list ev_input) : list ws_write * bool :=
  match ins with
  | [] => ([], false)
  | InCtxDone :: _ | InEvtsDone :: _ | InEvent None _ :: _ => ([WClose CloseNormalClosure], true)
  | InEvent (Some e) ok :: rest =>
      if ok then let '(ws, fin) := event_loop rest in (WEvent e :: ws, fin) else ([WEvent e], true)
  | InPing ok deadline :: rest =>
      if ok && deadline then let '(ws, fin) := event_loop rest in (WPing :: ws, fin) else ([WPing], true)
  end.

(** [None] is a watcher the cluster did not return. *)
Definition wsEventWriter (answer : result go_error (option (list ev_input))) : list ws_write * bool :=
  match answer with
  | Err e => ([WClose (websocketCloseCodeFrom (Some e))], true)
  | Ok None => ([WClose websocketLeaseNotFound], true)
  | Ok (Some ins) => event_loop ins
  end.

Definition events_in (ins : list ev_input) : list lease_event :=
  omap (fun i => match i with InEvent (Some e) _ => Some e | _ => None end) ins.
Definition events_out (ws : list ws_write) : list lease_event :=
  omap (fun w => match w with WEvent e => Some e | _ => None end) ws.

(** The events are written in the order they come, a prefix of them, all of them while
    the connection works; the websocket is closed by the provider only as the last
    thing. *)
Theorem events_in_order (ins : list ev_input) ws fin :
  event_loop ins = (ws, fin) ->
  events_out ws `prefix_of` events_in ins /\
  (fin = false -> events_out ws = events_in ins) /\
  (forall ws1 c ws2, ws = ws1 ++ WClose c :: ws2 -> ws2 = [] /\ c = CloseNormalClosure).
Proof.
  revert ws fin. induction ins as [|i ins IH]; intros ws fin; cbn [event_loop].
  { intros [= <- <-]. split_and!; [done|done|]. intros [|? ws1] c ws2; discriminate. }
  assert (forall w ws fin, (event_loop ins = (ws, fin)) -> (forall c, w <> WClose c) ->
            forall ws1 c ws2, w :: ws = ws1 ++ WClose c :: ws2 -> ws2 = [] /\ c = CloseNormalClosure) as Hclose.
  { intros w ws' fin' E Hw [|w1 ws1] c ws2 Heq; simpl in Heq; injection Heq as -> Heq; [by destruct (Hw c)|].
    by apply (IH _ _ E) in Heq. }
  assert (forall w, (forall c, w = WClose c -> c = CloseNormalClosure) ->
            forall ws1 c ws2, [w] = ws1 ++ WClose c :: ws2 -> ws2 = [] /\ c = CloseNormalClosure) as Hone.
  { intros w Hw [|w1 [|? ?]] c ws2 Heq; simpl in Heq; injection Heq as ? ?; [subst; eauto|done..]. }
  destruct i as [| |[e|] ok|ok dl]; simpl.
  - intros [= <- <-]. split_and!; [apply prefix_nil|done|]. apply Hone. by intros c [= <-].
  - intros [= <- <-]. split_and!; [apply prefix_nil|done|]. apply Hone. by intros c [= <-].
  - destruct ok.
    + destruct (event_loop ins) as [ws' fin'] eqn:E. intros [= <- <-]. destruct (IH _ _ eq_refl) as (H1 & H2 & _).
      split_and!; [by apply prefix_cons|intros Hf; simpl; by rewrite H2|by eapply Hclose].
    + intros [= <- <-]. split_and!; [by apply prefix_cons, prefix_nil|done|]. by apply Hone.
  - intros [= <- <-]. split_and!; [apply prefix_nil|done|]. apply Hone. by intros c [= <-].
  - destruct (ok && dl).
    + destruct (event_loop ins) as [ws' fin'] eqn:E. intros [= <- <-]. destruct (IH _ _ eq_refl) as (H1 & H2 & _).
      split_and!; [done|intros Hf; simpl; by rewrite H2|by eapply Hclose].
    + intros [= <- <-]. split_and!; [apply prefix_nil|done|]. by apply Hone.
Qed.

(** ** The shell *)

Definition LeaseShellCodeResult : Z := 102.
Definition LeaseShellCodeFailure : Z := 103.
Definition LeaseShellCodeStdin : Z := 104.
Definition LeaseShellCodeTerminalResize : Z := 105.

(** A message of the client: whether it is binary, and its bytes. *)
Record ws_message := mkMessage { ms_binary : bool; ms_data : list Z }.

(** Two numbers of two bytes, big endian; what follows is ignored. *)
Definition terminal_size (msg : list Z) : option (Z * Z) :=
  match msg with
  | w1 :: w0 :: h1 :: h0 :: _ => Some (256 * w1 + w0, 256 * h1 + h0)%Z
  | _ => None
  end.

Inductive client_message := MIgnored | MStdin (data : list Z) | MResize (size : Z * Z) | MInvalid.

Definition read_message (m : ws_message) : client_message :=
  if negb (ms_binary m) then MIgnored
  else match ms_data m with
       | [] => MIgnored
       | id :: msg =>
           if (id =? LeaseShellCodeStdin)%Z then MStdin msg
           else if (id =? LeaseShellCodeTerminalResize)%Z then
             match terminal_size msg with Some s => MResize s | None => MInvalid end
           else MInvalid
       end.

(** What the handler answers with: the exit code and a message, or the sign of a failure. *)
Inductive shell_result := SResult (exitCode : Z) (message : string) | SFailure.

(** The result from the status of the service and, when it was executed, that of the command. *)
Definition shell_result_of (status : result go_error Z) (exec : result go_error Z) : bool * shell_result :=
  match status with
  | Err e =>
      (false, if ErrorIsOkToSendToClient e || errors_Is e SNoServiceForLease then SResult 0 (Error e) else SFailure)
  | Ok ready =>
      if (ready =? 0)%Z then (false, SResult 0 "no active replicase for service")
      else (true, match exec with
                  | Ok code => SResult code ""
                  | Err e => if ErrorIsOkToSendToClient e then SResult 0 (Error e) else SFailure
                  end)
  end.

(** The text of an error reaches the client of a shell only if it is one of those made
    for clients; the command is executed only when the service has a replica that is
    ready. *)
Theorem shell_errors_hidden (status exec : result go_error Z) (ran : bool) (code : Z) (msg : string) :
  shell_result_of status exec = (ran, SResult code msg) ->
  (ran = true -> exists ready, status = Ok ready /\ ready <> 0%Z) /\
  (msg <> ""%string -> msg = "no active replicase for service"%string \/
     exists e, Error e = msg /\ (status = Err e \/ exec = Err e) /\
       (ErrorIsOkToSendToClient e = true \/ errors_Is e SNoServiceForLease = true)).
Proof.
  unfold shell_result_of. destruct status as [ready|e].
  - destruct (Z.eqb_spec ready 0).
    + intros [= <- <- <-]. split; [done|by left].
    + destruct exec as [c|e]; [intros [= <- <- <-]; split; [by exists ready|done]|].
      destruct (ErrorIsOkToSendToClient e) eqn:E; [|done]. intros [= <- <- <-]. split; [by exists ready|].
      intros _. right. exists e. eauto.
  - destruct (ErrorIsOkToSendToClient e || errors_Is e SNoServiceForLease) eqn:E; [|done].
    intros [= <- <- <-]. split; [done|]. intros _. right. exists e. apply orb_true_iff in E. eauto.
Qed.

(** *** The goroutines of a shell *)

(** The handler: asks for the status, executes, and after the result is sent and the websocket
    closed waits for the others. *)
Inductive shell_phase := ShStatus | ShExec | ShWaiting | ShReturned.

(** The reader of the websocket: waits for a message, for somebody to read from the pipe, for
    room for a terminal size, or is done. *)
Inductive reader_phase := RdReading | RdStdin (data : list Z) | RdResize (size : Z * Z) | RdDone.

(** [executed] says whether the command was ever started: then something reads the pipe and
    the sizes, if only for some time. *)
Record shell := mkShell {
  sh_phase : shell_phase; sh_reader : reader_phase; sh_open : bool; sh_executed : bool; sh_tty : bool;
  sh_sizes : list (Z * Z)
}.

Definition set_reader (s : shell) (r : reader_phase) : shell :=
  mkShell (sh_phase s) r (sh_open s) (sh_executed s) (sh_tty s) (sh_sizes s).

(** The reader's phase on a message; without a terminal its size is dropped. *)
Definition on_message (tty : bool) (m : ws_message) : reader_phase :=
  match read_message m with
  | MIgnored => RdReading
  | MStdin d => RdStdin d
  | MResize size => if tty then RdResize size else RdReading
  | MInvalid => RdDone
  end.

Inductive shell_step : shell -> shell -> Prop :=
| ss_message s m :
    sh_reader s = RdReading -> sh_open s = true -> shell_step s (set_reader s (on_message (sh_tty s) m))
| ss_read_fails s : sh_reader s = RdReading -> shell_step s (set_reader s RdDone)
| ss_pipe_read s d : sh_reader s = RdStdin d -> sh_executed s = true -> shell_step s (set_reader s RdReading)
| ss_size_queued s size :
    sh_reader s = RdResize size -> sh_sizes s = [] ->
    shell_step s (mkShell (sh_phase s) RdReading (sh_open s) (sh_executed s) (sh_tty s) [size])
| ss_size_taken s size :
    sh_sizes s = [size] -> sh_executed s = true ->
    shell_step s (mkShell (sh_phase s) (sh_reader s) (sh_open s) (sh_executed s) (sh_tty s) [])
| ss_no_exec s :
    sh_phase s = ShStatus ->
    shell_step s (mkShell ShWaiting (sh_reader s) false (sh_executed s) (sh_tty s) (sh_sizes s))
| ss_exec s :
    sh_phase s = ShStatus -> shell_step s (mkShell ShExec (sh_reader s) (sh_open s) true (sh_tty s) (sh_sizes s))
| ss_exec_ends s :
    sh_phase s = ShExec -> shell_step s (mkShell ShWaiting (sh_reader s) false (sh_executed s) (sh_tty s) (sh_sizes s))
| ss_return s :
    sh_phase s = ShWaiting -> sh_reader s = RdDone ->
    shell_step s (mkShell ShReturned (sh_reader s) (sh_open s) (sh_executed s) (sh_tty s) (sh_sizes s)).

(** The reader runs only when the client connects its input. *)
Definition shell_start (tty stdin : bool) : shell :=
  mkShell ShStatus (if stdin then RdReading else RdDone) true false tty [].

(** The handler waits for a reader that waits for somebody to read its input. *)
Definition hung (s : shell) : Prop :=
  sh_phase s = ShWaiting /\ sh_executed s = false /\
  ((exists d, sh_reader s = RdStdin d) \/ (exists size x, sh_reader s = RdResize size /\ sh_sizes s = [x])).

Lemma hung_step s s' : hung s -> shell_step s s' -> hung s'.
Proof.
  intros (Hp & He & Hr) Hst. inversion Hst; subst; simpl in *; destruct Hr as [[d' Hr]|(sz & x' & Hr & Hs)]; congruence.
Qed.

(** A client that sends input to a service with no replica that is ready, before the
    handler has found that out, makes the handler wait for ever: nothing reads the pipe
    the reader writes to, and the pipe is closed only after the reader is done. *)
Theorem shell_hangs_on_early_input (tty : bool) (m : ws_message) (d : list Z) :
  read_message m = MStdin d ->
  exists s, rtc shell_step (shell_start tty true) s /\
    forall s', rtc shell_step s s' -> sh_phase s' <> ShReturned /\ sh_reader s' <> RdDone.
Proof.
  intros Hm. exists (mkShell ShWaiting (RdStdin d) false false tty []). split.
  - eapply rtc_l; [by eapply (ss_message (shell_start tty true) m)|]. unfold set_reader, on_message. simpl. rewrite Hm.
    eapply rtc_l; [by eapply ss_no_exec|]. apply rtc_refl.
  - intros s' Hr. assert (hung s') as (Hp & _ & Hrd).
    { eapply (rtc_preserves shell_step hung); [apply hung_step| |done]. split_and!; [done|done|left; by exists d]. }
    rewrite Hp. split; [done|]. destruct Hrd as [[? ->]|(? & ? & -> & _)]; done.
Qed.

(** Without the client's input connected, and whenever the reader is not holding any of
    it, a handler that waits returns. *)
Theorem shell_returns (s : shell) :
  sh_phase s = ShWaiting -> sh_reader s = RdReading \/ sh_reader s = RdDone ->
  exists s', rtc shell_step s s' /\ sh_phase s' = ShReturned.
Proof.
  intros Hp Hr. destruct s as [ph rd op ex tty sz]. simpl in *. subst ph.
  destruct Hr as [-> | ->]; eexists; (split; [|shelve]).
  - eapply rtc_l; [by eapply ss_read_fails|]. eapply rtc_l; [by eapply ss_return|]. apply rtc_refl.
  - eapply rtc_l; [by eapply ss_return|]. apply rtc_refl.
  Unshelve. all: done.
Qed.

Module StreamExamples.

(** A log that is read to its end, and one with a line that is too long. *)
Definition long_line : string := Nat.iter (Z.to_nat MaxScanTokenSize) (String "x"%char) EmptyString.

Lemma long_line_long : line_fits long_line = false.
Proof. vm_compute. reflexivity. Qed.

Definition crlf (l : string) : string := (l +:+ String "013"%char EmptyString)%string.

Definition two_logs : list (string * list string) := [("web", ["a"; crlf "b"]); ("db", ["c"; long_line; "d"])]%string.

Definition delivered : logs :=
  mkLogs true true [mkScanner "web" ScanDone [] None; mkScanner "db" ScanDone [long_line; "d"%string] (Some ErrTooLong)]
    [("web", "a"); ("db", "c"); ("web", "b")]%string.

Lemma reach_delivered : rtc log_step (log_start two_logs) delivered.
Proof.
  eapply rtc_l; [by eapply (ls_line _ 0)|]. eapply rtc_l; [by eapply (ls_line _ 1)|].
  eapply rtc_l; [by eapply (ls_write _ 0)|]. eapply rtc_l; [by eapply (ls_write _ 1)|].
  eapply rtc_l; [by eapply (ls_line _ 0)|]. eapply rtc_l; [eapply (ls_long _ 1); [reflexivity|exact long_line_long]|].
  eapply rtc_l; [by eapply (ls_write _ 0)|]. eapply rtc_l; [eapply (ls_end _ 0); [done|by left]|]. apply rtc_refl.
Qed.

Lemma log_lines_delivered_witness :
  (exists sc, sc ∈ lg_scanners delivered /\ sc_name sc = "web"%string /\
     read_of ["a"; crlf "b"]%string [] (sc_err sc) (lines_of "web" (lg_sent delivered))) /\
  lines_of "web" (lg_sent delivered) = ["a"; "b"]%string /\ lines_of "db" (lg_sent delivered) = ["c"]%string.
Proof.
  split; [|split; reflexivity].
  apply (log_lines_delivered two_logs); [|exact reach_delivered|reflexivity|reflexivity| |apply list_elem_of_here].
  - repeat constructor; set_solver.
  - by repeat constructor.
Defined.

Lemma log_readers_end_witness :
  exists s', log_step (mkLogs false true [mkScanner "web" (Handing "a") [] None] []) s'.
Proof.
  apply (log_readers_end (mkLogs false true [mkScanner "web" (Handing "a") [] None] [])); [done|].
  intros Hd. by apply list.Forall_cons in Hd as [? _].
Defined.

Lemma shell_hangs_on_early_input_witness :
  exists s, rtc shell_step (shell_start false true) s /\
    forall s', rtc shell_step s s' -> sh_phase s' <> ShReturned /\ sh_reader s' <> RdDone.
Proof. by apply (shell_hangs_on_early_input false (mkMessage true [104; 13]%Z) [13%Z]). Defined.

End StreamExamples.
