(* ===== verification/KubeExec.v ===== *)
(** * Commands and quotes inside the pods of a lease

    Model of [cluster/kube/client_exec.go], which runs a command in a pod of a lease, and of
    [cluster/kube/client_attestation.go], which forwards a request for a quote to the
    attestation sidecar of one. The API server, the pods it lists, the connection to a pod
    and the answer of the sidecar are in [PodServer]. *)

From Stdlib Require Import ZArith Lia Ascii.
From stdpp Require Import base gmap list strings sorting tactics.
From S2P Require Import Prelude Types Names CRD HttpErrors GatewayStreams.

(** ** Pods *)

Record Pod := mkPod {
  pd_name : string; pd_labels : labels_t; pd_phase : string; pd_conditions : list (string * string);
  pd_containers : list string
}.

(** What is executed where, and which streams are connected. *)
Record exec_request := mkExecRequest {
  ex_namespace : string; ex_pod : string; ex_container : string; ex_command : list string;
  ex_stdin : bool; ex_stdout : bool; ex_stderr : bool; ex_tty : bool
}.

(** How the execution ends: without an error, with an exit code other than zero, or not at
    all. *)
Inductive stream_end := StreamOk | StreamExit (code : Z) | StreamErr (e : go_error).

Class PodServer := {
  manifest_services : string -> result go_error (list string);
  list_pods : string -> string * string -> result go_error (list Pod);
  rest_client : option go_error;
  spdy_executor : exec_request -> option go_error;
  stream : exec_request -> stream_end;
  lease_exists : LeaseID -> option go_error;
  proxy_quote : string -> string -> string -> result go_error string;
  list_nodes : option (list labels_t)
}.

Definition pod_le (a b : Pod) : Prop := String.le (pd_name a) (pd_name b).

#[export] Instance pod_le_dec : RelDecision pod_le.
Proof. unfold pod_le, RelDecision. intros a b. apply _. Defined.

#[export] Instance pod_le_total : Total pod_le.
Proof. intros a b. apply (total String.le). Qed.

#[export] Instance pod_le_trans : Transitive pod_le.
Proof. intros a b c. unfold pod_le. apply transitivity. Qed.

Definition sort_pods (pods : list Pod) : list Pod := merge_sort pod_le pods.

(** ** Executing a command *)

Definition ErrExec : go_error := ESentinel SExec "remote command execute error".
Definition exec_err (what : string) : go_error := EWrap ("remote command execute error: " +:+ what) ErrExec.

Definition ErrExecNoServiceWithName : go_error := exec_err "no such service exists with that name".
Definition ErrExecServiceNotRunning : go_error := exec_err "service with that name is not running".
Definition ErrExecCommandExecutionFailed : go_error := exec_err "command execution failed".
Definition ErrExecCommandDoesNotExist : go_error := exec_err "command could not be executed because it does not exist".
Definition ErrExecPodIndexOutOfRange : go_error := exec_err "pod index out of range".

(** [fmt.Errorf] with the error first, and with the error last. *)
Definition with_detail (e : go_error) (detail : string) : go_error := EWrap (Error e +:+ ": " +:+ detail) e.

(** [%q] on printable characters. *)
Fixpoint escape (s : string) : string :=
  match s with
  | EmptyString => EmptyString
  | String c s' =>
      if bool_decide (c = "034"%char \/ c = "092"%char) then String "092"%char (String c (escape s'))
      else String c (escape s')
  end.

Definition quoted (s : string) : string := String "034"%char (escape s +:+ String "034"%char EmptyString).

Section Exec.
Context `{HH : LeaseHash} `{HS : PodServer}.

(** The loop gives the error at the last service; there is none in an empty list. *)
Definition has_service (services : list string) (serviceName : string) : bool :=
  match services with [] => true | _ => existsb (String.eqb serviceName) services end.

(** The last condition of the type counts. *)
Definition pod_ready (p : Pod) : bool :=
  foldl (fun r c => if String.eqb c.1 "Ready" then String.eqb c.2 "True" else r) false (pd_conditions p).

Definition check_pod (p : Pod) : option go_error :=
  if String.eqb (pd_phase p) "Succeeded" then Some (with_detail ErrExecServiceNotRunning "the service has completed")
  else if String.eqb (pd_phase p) "Failed" then Some (with_detail ErrExecServiceNotRunning "the service has failed")
  else if pod_ready p then None else Some (with_detail ErrExecServiceNotRunning "the service is not ready").

Definition select_pod (pods : list Pod) (podIndex : Z) : result go_error Pod :=
  match pods with
  | [] => Err ErrExecServiceNotRunning
  | _ =>
      if (Z.of_nat (List.length pods) <=? podIndex)%Z then
        Err (with_detail ErrExecPodIndexOutOfRange
               ("valid range is [0, " +:+ FormatUint (Z.of_nat (List.length pods) - 1) +:+ "]"))
      else match sort_pods pods !! Z.to_nat podIndex with
           | Some p => match check_pod p with Some e => Err e | None => Ok p end
           | None => Err ErrExecServiceNotRunning
           end
  end.

Definition exec_error_of (e : go_error) : go_error :=
  if contains (Error e) "error executing command in container" then
    if contains (Error e) "no such file or directory" || contains (Error e) "executable file not found in $PATH"
    then ErrExecCommandDoesNotExist else ErrExecCommandExecutionFailed
  else e.

(** The request that was streamed, if one was, and the exit code or an error. [stdin],
    [stdout] and [stderr] say whether the caller gives the stream. *)
Definition Exec (lid : LeaseID) (serviceName : string) (podIndex : Z) (cmd : list string)
    (stdin stdout stderr tty : bool) : option exec_request * result go_error Z :=
  let namespace := LidNS lid in
  match manifest_services namespace with
  | Err e => (None, Err (with_detail e "failed getting manifest"))
  | Ok services =>
      if negb (has_service services serviceName) then (None, Err ErrExecNoServiceWithName)
      else match list_pods namespace (AkashManifestServiceLabelName, serviceName) with
      | Err e => (None, Err (with_detail e ("failed getting pods in namespace " +:+ quoted namespace)))
      | Ok pods =>
          match select_pod pods podIndex with
          | Err e => (None, Err e)
          | Ok selectedPod =>
              match rest_client with
              | Some e => (None, Err (with_detail e "failed getting REST client"))
              | None =>
                  let req := mkExecRequest namespace (pd_name selectedPod) serviceName cmd
                               stdin stdout (stderr && negb tty) tty in
                  match spdy_executor req with
                  | Some e => (None, Err (with_detail e "execution via SPDY failed"))
                  | None => (Some req, match stream req with
                                       | StreamOk => Ok 0%Z
                                       | StreamExit code => Ok code
                                       | StreamErr e => Err (exec_error_of e)
                                       end)
                  end
              end
          end
      end
  end.

(** ** Attestation quotes *)

Definition attestationSidecarContainerName : string := "akash-attestation-sidecar".

Definition attests (p : Pod) : bool :=
  String.eqb (pd_phase p) "Running" && existsb (String.eqb attestationSidecarContainerName) (pd_containers p).

Definition quote_selector (service : string) : string * string :=
  if String.eqb service "" then (AkashManagedLabelName, "true"%string) else (AkashManifestServiceLabelName, service).

Definition findAttestationSidecarPod (namespace service : string) (podIndex : Z) : result go_error string :=
  match list_pods namespace (quote_selector service) with
  | Err e => Err (EWrap ("list pods in " +:+ namespace +:+ ": " +:+ Error e) e)
  | Ok pods =>
      match filter (fun p => attests p = true) pods with
      | [] => Err (ENew ("no running pod with attestation sidecar" +:+
                           (if String.eqb service "" then "" else " for service " +:+ quoted service) +:+
                           " in namespace " +:+ namespace))
      | first :: rest =>
          if String.eqb service "" then Ok (pd_name first)
          else if (Z.of_nat (List.length (first :: rest)) <=? podIndex)%Z then
            Err (ENew ("podIndex " +:+ FormatUint podIndex +:+ " out of range: service " +:+ quoted service +:+ " has " +:+
                       FormatUint (Z.of_nat (List.length (first :: rest))) +:+ " attestation-capable pod(s)"))
          else match sort_pods (first :: rest) !! Z.to_nat podIndex with
               | Some p => Ok (pd_name p)
               | None => Err (ENew "")
               end
      end
  end.

(** The pod the request went to, if it was sent, with the body and the status, or an error
    and the status. *)
Definition AttestationQuote (lid : LeaseID) (service : string) (podIndex : Z) (body : string)
    : option (string * string) * result (go_error * Z) (string * Z) :=
  let namespace := LidNS lid in
  match lease_exists lid with
  | Some e => (None, Err (e, StatusNotFound))
  | None =>
      match findAttestationSidecarPod namespace service podIndex with
      | Err e => (None, Err (e, StatusNotFound))
      | Ok podName =>
          (Some (namespace, podName),
           match proxy_quote namespace podName body with
           | Ok answer => Ok (answer, StatusOK)
           | Err e =>
               let code := match errors_As pick_status e with Some (_, code) => code | None => StatusBadGateway end in
               Err (EWrap ("proxy to attestation sidecar: " +:+ Error e) e, code)
           end)
      end
  end.

Fixpoint detect (nodes : list labels_t) : TEEPlatform :=
  match nodes with
  | [] => TEEPlatformNone
  | labels :: rest =>
      if bool_decide (labels !! "intel.feature.node.kubernetes.io/tdx"%string = Some "true"%string) then TEEPlatformTDX
      else if bool_decide (labels !! "amd.feature.node.kubernetes.io/snp"%string = Some "true"%string) then TEEPlatformSNP
      else detect rest
  end.

Definition DetectTEEPlatform : TEEPlatform :=
  match list_nodes with None => TEEPlatformNone | Some nodes => detect nodes end.

(** ** Theorems *)

Lemma sort_pods_perm (pods : list Pod) : sort_pods pods ≡ₚ pods.
Proof. apply merge_sort_Permutation. Qed.

Lemma sort_pods_length (pods : list Pod) : List.length (sort_pods pods) = List.length pods.
Proof. apply Permutation_length, sort_pods_perm. Qed.

(** Of pods with different names, two with the same name are one. *)
Lemma pod_by_name (pods : list Pod) (x y : Pod) :
  NoDup (pd_name <$> pods) -> x ∈ pods -> y ∈ pods -> pd_name x = pd_name y -> x = y.
Proof.
  intros Hnd [i Hi]%list_elem_of_lookup [j Hj]%list_elem_of_lookup Heq.
  assert (i = j) as <-; [|congruence].
  eapply (NoDup_lookup _ i j (pd_name x) Hnd); rewrite list_lookup_fmap; [rewrite Hi|rewrite Hj]; simpl; congruence.
Qed.

(** Pods of different names are sorted in one way only. *)
Lemma sort_pods_unique (pods pods' : list Pod) :
  NoDup (pd_name <$> pods) -> pods ≡ₚ pods' -> sort_pods pods = sort_pods pods'.
Proof.
  intros Hnd Hp.
  apply (StronglySorted_unique_strong pod_le).
  - intros x y Hx Hy Hle Hge. rewrite !sort_pods_perm in *. rewrite <- Hp in Hy.
    apply (pod_by_name pods); auto. apply (anti_symm String.le); assumption.
  - apply (StronglySorted_merge_sort pod_le); apply _.
  - apply (StronglySorted_merge_sort pod_le); apply _.
  - rewrite !sort_pods_perm. exact Hp.
Qed.

(** What the checks on the selected pod let through. *)
Lemma select_pod_spec (pods : list Pod) (podIndex : Z) (p : Pod) :
  select_pod pods podIndex = Ok p <->
  (podIndex < Z.of_nat (List.length pods))%Z /\ sort_pods pods !! Z.to_nat podIndex = Some p /\
  pd_phase p <> "Succeeded"%string /\ pd_phase p <> "Failed"%string /\ pod_ready p = true.
Proof.
  unfold select_pod, check_pod. destruct pods as [|q pods']; [split; [discriminate|intros (_ & H & _); discriminate]|].
  remember (q :: pods') as pods.
  destruct (Z.leb_spec (Z.of_nat (List.length pods)) podIndex); [split; [discriminate|lia]|].
  destruct (sort_pods pods !! Z.to_nat podIndex) as [p'|]; [|split; [discriminate|intros (_ & H' & _); discriminate]].
  destruct (String.eqb_spec (pd_phase p') "Succeeded"); [split; [discriminate|intros (_ & [= ->] & ? & _); contradiction]|].
  destruct (String.eqb_spec (pd_phase p') "Failed"); [split; [discriminate|intros (_ & [= ->] & _ & ? & _); contradiction]|].
  destruct (pod_ready p') eqn:Hr; [|split; [discriminate|intros (_ & [= ->] & _ & _ & ?); congruence]].
  split; [intros [= ->]; auto|intros (_ & [= ->] & _); reflexivity].
Qed.

(** Selecting does not depend on the order the API server lists the pods in. *)
Lemma select_pod_perm (pods pods' : list Pod) (podIndex : Z) :
  NoDup (pd_name <$> pods) -> pods ≡ₚ pods' -> select_pod pods podIndex = select_pod pods' podIndex.
Proof.
  intros Hnd Hp. unfold select_pod.
  rewrite (sort_pods_unique pods pods' Hnd Hp), (Permutation_length Hp).
  destruct pods, pods'; try reflexivity; exfalso; apply Permutation_length in Hp; discriminate.
Qed.

(** C21: a command runs only in the namespace of the lease, in the container named after the
    service, of the pod with the given index in the order of names among the pods the API
    server lists for the service; that pod is ready, and neither completed nor failed. With a
    terminal, standard error is not connected. *)
Theorem exec_targets_lease (lid : LeaseID) (serviceName : string) (podIndex : Z) (cmd : list string)
    (stdin stdout stderr tty : bool) (req : exec_request) :
  (Exec lid serviceName podIndex cmd stdin stdout stderr tty).1 = Some req ->
  exists services pods p,
    manifest_services (LidNS lid) = Ok services /\ (services = [] \/ serviceName ∈ services) /\
    list_pods (LidNS lid) (AkashManifestServiceLabelName, serviceName) = Ok pods /\
    sort_pods pods !! Z.to_nat podIndex = Some p /\ (podIndex < Z.of_nat (List.length pods))%Z /\
    pd_phase p <> "Succeeded"%string /\ pd_phase p <> "Failed"%string /\ pod_ready p = true /\
    req = mkExecRequest (LidNS lid) (pd_name p) serviceName cmd stdin stdout (stderr && negb tty) tty.
Proof.
  unfold Exec. intros H.
  destruct (manifest_services (LidNS lid)) as [services|e] eqn:Hm; [|discriminate].
  destruct (has_service services serviceName) eqn:Hs; [|discriminate].
  destruct (list_pods _ _) as [pods|e] eqn:Hl; [|discriminate]. cbn [negb] in H.
  destruct (select_pod pods podIndex) as [p|e] eqn:Hp; [|discriminate].
  apply select_pod_spec in Hp as (? & ? & ? & ? & ?).
  destruct rest_client; [discriminate|]. destruct (spdy_executor _); [discriminate|]. injection H as <-.
  exists services, pods, p. repeat (split; [first [assumption|reflexivity]|]). split; [|split; [reflexivity|]; repeat (split; [assumption|]); reflexivity].
  destruct services as [|s l]; [left; reflexivity|right].
  apply existsb_exists in Hs as (x & Hx%list_elem_of_In & ->%String.eqb_eq). exact Hx.
Qed.

(** Once the command has run, its exit code is the result, whatever it is; an error of the
    container runtime is replaced by one of two that carry nothing of its text. *)
Theorem exec_results (lid : LeaseID) (serviceName : string) (podIndex : Z) (cmd : list string)
    (stdin stdout stderr tty : bool) (req : exec_request) (res : result go_error Z) :
  Exec lid serviceName podIndex cmd stdin stdout stderr tty = (Some req, res) ->
  match stream req with
  | StreamOk => res = Ok 0%Z
  | StreamExit code => res = Ok code
  | StreamErr e =>
      if contains (Error e) "error executing command in container"
      then res = Err ErrExecCommandDoesNotExist \/ res = Err ErrExecCommandExecutionFailed
      else res = Err e
  end.
Proof.
  unfold Exec. intros H.
  destruct (manifest_services (LidNS lid)); [|discriminate].
  destruct (negb _); [discriminate|]. destruct (list_pods _ _); [|discriminate].
  destruct (select_pod _ _); [|discriminate]. destruct rest_client; [discriminate|].
  destruct (spdy_executor _); [discriminate|]. injection H as <- <-.
  destruct (stream _) as [|code|e]; try reflexivity. unfold exec_error_of.
  destruct (contains (Error e) "error executing command in container"); [|reflexivity].
  destruct (_ || _); auto.
Qed.

(** A quote is asked for only in the namespace of an existing lease, of a running pod that the
    API server lists there for the service and that has the sidecar. *)
Theorem quote_from_lease (lid : LeaseID) (service : string) (podIndex : Z) (body ns podName : string) :
  (AttestationQuote lid service podIndex body).1 = Some (ns, podName) ->
  ns = LidNS lid /\ lease_exists lid = None /\
  exists pods p, list_pods (LidNS lid) (quote_selector service) = Ok pods /\ p ∈ pods /\
    pd_name p = podName /\ pd_phase p = "Running"%string /\ attestationSidecarContainerName ∈ pd_containers p.
Proof.
  unfold AttestationQuote, findAttestationSidecarPod. intros H.
  destruct (lease_exists lid); [discriminate|].
  destruct (list_pods _ _) as [pods|e] eqn:Hl; [|discriminate].
  destruct (filter (fun p => attests p = true) pods) as [|q rest] eqn:Hf; [discriminate|].
  assert (Hin : exists p, p ∈ q :: rest /\ pd_name p = podName /\ ns = LidNS lid).
  { destruct (String.eqb service ""); [injection H as <- <-; exists q; split; [left|auto]|].
    destruct (_ <=? podIndex)%Z; [discriminate|].
    destruct (sort_pods (q :: rest) !! Z.to_nat podIndex) as [p|] eqn:Hi; [|discriminate]. injection H as <- <-.
    exists p. apply list_elem_of_lookup_2 in Hi. rewrite sort_pods_perm in Hi. auto. }
  destruct Hin as (p & Hp & Hname & ->). split; [reflexivity|]. split; [reflexivity|].
  rewrite <- Hf in Hp. apply list_elem_of_filter in Hp as [Ha Hp].
  apply andb_true_iff in Ha as [Hr%String.eqb_eq (x & Hx%list_elem_of_In & ->%String.eqb_eq)%existsb_exists].
  exists pods, p. auto 10.
Qed.

(** The provider takes the platform of the first node that has one; a node with both labels
    counts as TDX. *)
Lemma detect_spec (nodes : list labels_t) :
  match detect nodes with
  | TEEPlatformNone => Forall (fun l => l !! "intel.feature.node.kubernetes.io/tdx"%string <> Some "true"%string /\
                                        l !! "amd.feature.node.kubernetes.io/snp"%string <> Some "true"%string) nodes
  | TEEPlatformTDX => Exists (fun l => l !! "intel.feature.node.kubernetes.io/tdx"%string = Some "true"%string) nodes
  | TEEPlatformSNP => Exists (fun l => l !! "amd.feature.node.kubernetes.io/snp"%string = Some "true"%string) nodes
  end.
Proof.
  induction nodes as [|l nodes IH]; simpl; [constructor|].
  case_bool_decide as H1; [left; exact H1|]. case_bool_decide as H2; [left; exact H2|].
  destruct (detect nodes); [constructor; auto|right; exact IH|right; exact IH].
Qed.

End Exec.

(** The API server with its pods listed in another order. *)
Definition relisted (HS : PodServer) (list' : string -> string * string -> result go_error (list Pod)) : PodServer :=
  {| manifest_services := @manifest_services HS; list_pods := list'; rest_client := @rest_client HS;
     spdy_executor := @spdy_executor HS; stream := @stream HS; lease_exists := @lease_exists HS;
     proxy_quote := @proxy_quote HS; list_nodes := @list_nodes HS |}.

(** Two listings with the same pods, of different names, in any order. *)
Definition same_pods (l l' : result go_error (list Pod)) : Prop :=
  match l, l' with
  | Ok pods, Ok pods' => NoDup (pd_name <$> pods) /\ pods ≡ₚ pods'
  | Err e, Err e' => e = e'
  | _, _ => False
  end.

(** [Exec] does not depend on the order the API server lists the pods in: an index names the
    same replica at every call. *)
Theorem exec_order_irrelevant `{HH : LeaseHash} (HS : PodServer) list' (lid : LeaseID) (serviceName : string)
    (podIndex : Z) (cmd : list string) (stdin stdout stderr tty : bool) :
  (forall ns sel, same_pods (list_pods ns sel) (list' ns sel)) ->
  @Exec HH (relisted HS list') lid serviceName podIndex cmd stdin stdout stderr tty =
  @Exec HH HS lid serviceName podIndex cmd stdin stdout stderr tty.
Proof.
  intros Hl. unfold Exec. simpl. destruct (manifest_services (LidNS lid)); [|reflexivity].
  destruct (negb _); [reflexivity|].
  specialize (Hl (LidNS lid) (AkashManifestServiceLabelName, serviceName)). unfold same_pods in Hl.
  destruct (list_pods _ _) as [pods|e], (list' _ _) as [pods'|e']; try contradiction; [|subst; reflexivity].
  destruct Hl as [Hnd Hp]. rewrite (select_pod_perm pods pods' podIndex Hnd Hp). reflexivity.
Qed.

Module ExecExamples.

#[local] Existing Instance seq_hash.

Definition ex_lid : LeaseID := mkLeaseID "own" 7 1 1 "prov".
Definition ready (n : string) : Pod := mkPod n ∅ "Running" [("Ready", "True")]%string ["web"; "akash-attestation-sidecar"]%string.

Definition ex_pods : list Pod := [ready "web-1"; mkPod "web-0" ∅ "Succeeded" [] ["web"%string]].

Definition ex_server (pods : list Pod) : PodServer :=
  {| manifest_services := fun _ => Ok ["db"; "web"]%string; list_pods := fun _ _ => Ok pods; rest_client := None;
     spdy_executor := fun _ => None; stream := fun _ => StreamExit 3; lease_exists := fun _ => None;
     proxy_quote := fun _ _ body => Ok body; list_nodes := None |}.

Definition ex_req : exec_request := mkExecRequest (LidNS ex_lid) "web-1" "web" ["ls"%string] true true false true.

Lemma ex_exec : @Exec seq_hash (ex_server ex_pods) ex_lid "web" 1 ["ls"%string] true true true true = (Some ex_req, Ok 3%Z).
Proof. vm_compute. reflexivity. Qed.

(** Without services in the manifest every name passes. *)
Lemma ex_no_services : has_service [] "anything" = true.
Proof. reflexivity. Qed.

Lemma exec_targets_lease_witness :
  exists pods p, @list_pods (ex_server ex_pods) (LidNS ex_lid) (AkashManifestServiceLabelName, "web"%string) = Ok pods /\ ex_pod ex_req = pd_name p /\
    sort_pods pods !! 1%nat = Some p.
Proof.
  destruct (@exec_targets_lease seq_hash (ex_server ex_pods) ex_lid "web" 1 ["ls"%string] true true true true ex_req)
    as (_ & pods & p & _ & _ & Hl & Hi & _ & _ & _ & _ & Hreq); [vm_compute; reflexivity|].
  exists pods, p. split; [exact Hl|]. split; [rewrite Hreq; reflexivity|exact Hi].
Defined.

Lemma exec_results_witness : Ok 3%Z = Ok (E := go_error) 3%Z.
Proof. exact (@exec_results seq_hash (ex_server ex_pods) ex_lid "web" 1 ["ls"%string] true true true true ex_req (Ok 3%Z) ltac:(vm_compute; reflexivity)). Defined.

Lemma exec_order_irrelevant_witness :
  (@Exec seq_hash (relisted (ex_server ex_pods) (fun _ _ => Ok (rev ex_pods))) ex_lid "web" 1 ["ls"%string] true true true true).1
  = Some ex_req.
Proof.
  rewrite (exec_order_irrelevant (ex_server ex_pods) (fun _ _ => Ok (rev ex_pods))); [vm_compute; reflexivity|].
  intros ns sel. split; [apply (bool_decide_unpack _); vm_compute; exact I|]. apply Permutation_rev.
Defined.

Lemma quote_from_lease_witness :
  exists p, p ∈ ex_pods /\ pd_name p = "web-1"%string.
Proof.
  destruct (@quote_from_lease seq_hash (ex_server ex_pods) ex_lid "web" 0 "nonce" (LidNS ex_lid) "web-1")
    as (_ & _ & pods & p & Hl & Hp & Hn & _); [vm_compute; reflexivity|].
  change (Ok (E := go_error) ex_pods = Ok pods) in Hl. assert (pods = ex_pods) as -> by congruence. exists p. auto.
Defined.

End ExecExamples.
