(* ===== verification/Webhook.v ===== *)
(** * The attestation sidecar and its admission webhook

    Model of [cluster/kube/webhook/sidecar.go], [webhook.go] and [registration.go]. The API
    server asks the provider before it creates a pod of a lease; the provider answers with a
    patch that adds the attestation sidecar to the pods that run confidentially. [Builder]
    makes the templates of those pods and takes the sidecar's resources off the tenant's
    container. Decoding and encoding the messages is in [AdmissionCodec], the collection of
    webhook configurations in [KubeCollection]. *)

From Stdlib Require Import ZArith Lia Ascii.
From stdpp Require Import base gmap list strings tactics.
From S2P Require Import Prelude Types Names CRD Kube Builder HttpErrors KubeExamples.

(** ** Pods *)

Definition sidecarContainerName : string := "akash-attestation-sidecar".
Definition sidecarPort : Z := 8790.
Definition tsmVolumeName : string := "tsm-reports".
Definition sevGuestVolumeName : string := "sev-guest".

(** The container the webhook adds. *)
Record SidecarSpec := mkSidecar {
  sc_image : string; sc_pull_policy : string; sc_command : list string; sc_port : string * Z * string;
  sc_privileged : bool; sc_run_as_user : Z; sc_requests : gmap string Z; sc_limits : gmap string Z;
  sc_env : list EnvVar; sc_mounts : list (string * string)
}.

(** A container of a tenant, as [Builder] makes it, or the sidecar; a volume of a tenant or an
    empty directory. *)
Inductive PodContainer := Tenant (c : Container) | Sidecar (name : string) (sc : SidecarSpec).
Inductive PodVolume := TenantVolume (v : Volume) | EmptyDir (name : string).

Definition pc_name (c : PodContainer) : string := match c with Tenant c => c_name c | Sidecar n _ => n end.
Definition pc_limits (c : PodContainer) : gmap string Z := match c with Tenant c => c_limits c | Sidecar _ sc => sc_limits sc end.
Definition pc_requests (c : PodContainer) : gmap string Z :=
  match c with Tenant c => c_requests c | Sidecar _ sc => sc_requests sc end.

Record Pod := mkPod {
  po_labels : labels_t; po_annotations : labels_t; po_runtime_class : option string;
  po_containers : list PodContainer; po_volumes : list PodVolume
}.

Definition ShouldInject (pod : Pod) : bool :=
  if negb (bool_decide (po_labels pod !! AkashManagedLabelName = Some ValTrue)) then false
  else match po_runtime_class pod with
  | None => false
  | Some rc =>
      if negb (RuntimeClass_Is rc [WithCC]) then false
      else if bool_decide (po_annotations pod !! AkashAttestationDisabledAnnotation = Some "true"%string) then false
      else negb (existsb (fun c => String.eqb (pc_name c) sidecarContainerName) (po_containers pod))
  end.

(** ** The sidecar *)

Definition isMockMode (extraEnv : list EnvVar) : bool :=
  existsb (fun env => String.eqb (ev_name env) "ATTESTATION_MOCK" && String.eqb (ev_value env) "true") extraEnv.

(** Requests and limits. *)
Definition sidecarResources (isGPU : bool) : gmap string Z * gmap string Z :=
  let memRequest := if isGPU then SidecarGPUMemoryRequestBytes else SidecarMemoryRequestBytes in
  let memLimit := if isGPU then SidecarGPUMemoryLimitBytes else SidecarMemoryLimitBytes in
  (<["memory"%string := memRequest]> {["cpu"%string := SidecarCPURequestMillicores]},
   <["memory"%string := memLimit]> {["cpu"%string := SidecarCPULimitMillicores]}).

Definition buildSidecarContainer (image : string) (isGPU : bool) (extraEnv : list EnvVar) : PodContainer :=
  let res := sidecarResources isGPU in
  Sidecar sidecarContainerName
    (mkSidecar image "IfNotPresent" ["/attestation-sidecar"%string] ("attestation"%string, sidecarPort, "TCP"%string)
       true 0 res.1 res.2
       (mkEnv "ATTESTATION_LISTEN_ADDR" (":" +:+ FormatUint sidecarPort) :: extraEnv ++
        (if isGPU then [mkEnv "NVIDIA_VISIBLE_DEVICES" "all"; mkEnv "NVIDIA_DRIVER_CAPABILITIES" "utility"] else []))
       (if isMockMode extraEnv
        then (tsmVolumeName, "/var/run/mock-tee/tsm-report"%string) ::
             (if isGPU then [] else [(sevGuestVolumeName, "/var/run/mock-tee/sev-guest"%string)])
        else [])).

Definition buildSidecarVolumes (isGPU mockMode : bool) : list PodVolume :=
  if mockMode then EmptyDir tsmVolumeName :: (if isGPU then [] else [EmptyDir sevGuestVolumeName]) else [].

(** ** JSON patches *)

Inductive patch_value := VContainer (c : PodContainer) | VContainers (cs : list PodContainer)
| VVolume (v : PodVolume) | VVolumes (vs : list PodVolume).

Record jsonPatch := mkPatch { jp_op : string; jp_path : string; jp_value : patch_value }.

Definition container_patch (pod : Pod) (container : PodContainer) : list jsonPatch :=
  match po_containers pod with
  | [] => [mkPatch "add" "/spec/containers" (VContainers [container])]
  | _ => [mkPatch "add" "/spec/containers/-" (VContainer container)]
  end.

Definition volume_patches (pod : Pod) (volumes : list PodVolume) : list jsonPatch :=
  match volumes with
  | [] => []
  | _ => match po_volumes pod with
         | [] => [mkPatch "add" "/spec/volumes" (VVolumes volumes)]
         | _ => map (fun vol => mkPatch "add" "/spec/volumes/-" (VVolume vol)) volumes
         end
  end.

Definition BuildSidecarPatch (pod : Pod) (sidecarImage : string) (extraEnv : list EnvVar)
    : result string (list jsonPatch) :=
  if String.eqb sidecarImage "" then Err "attestation sidecar image not configured"%string
  else
    let runtimeClass := default ""%string (po_runtime_class pod) in
    let isGPU := RuntimeClass_Is runtimeClass [WithGPU] in
    Ok (container_patch pod (buildSidecarContainer sidecarImage isGPU extraEnv) ++
        volume_patches pod (buildSidecarVolumes isGPU (isMockMode extraEnv))).

(** What a patch does to the pod, by RFC 6902: [add] at a member of an object sets it, at the
    end of an array appends to it, and fails where there is no array. A pod without containers
    or volumes has no array. *)
Definition apply_patch (pod : Pod) (p : jsonPatch) : option Pod :=
  let containers cs := mkPod (po_labels pod) (po_annotations pod) (po_runtime_class pod) cs (po_volumes pod) in
  let volumes vs := mkPod (po_labels pod) (po_annotations pod) (po_runtime_class pod) (po_containers pod) vs in
  if negb (String.eqb (jp_op p) "add") then None
  else if String.eqb (jp_path p) "/spec/containers" then
    match jp_value p with VContainers cs => Some (containers cs) | _ => None end
  else if String.eqb (jp_path p) "/spec/containers/-" then
    match jp_value p, po_containers pod with VContainer c, _ :: _ => Some (containers (po_containers pod ++ [c])) | _, _ => None end
  else if String.eqb (jp_path p) "/spec/volumes" then
    match jp_value p with VVolumes vs => Some (volumes vs) | _ => None end
  else if String.eqb (jp_path p) "/spec/volumes/-" then
    match jp_value p, po_volumes pod with VVolume v, _ :: _ => Some (volumes (po_volumes pod ++ [v])) | _, _ => None end
  else None.

Fixpoint apply_patches (pod : Pod) (ps : list jsonPatch) : option Pod :=
  match ps with [] => Some pod | p :: rest => pod' ← apply_patch pod p; apply_patches pod' rest end.

(** ** The webhook *)

Record Config := mkConfig { cf_image : string; cf_env : list EnvVar }.

Record AdmissionRequest := mkAdmission { ar_uid : string; ar_object : string }.

Record AdmissionResponse := mkResponse {
  re_allowed : bool; re_message : option string; re_patch : option (list jsonPatch)
}.

(** Messages: a review has a request or not. *)
Class AdmissionCodec := {
  decode_review : string -> result string (option AdmissionRequest);
  unmarshal_pod : string -> result string Pod;
  marshal_review : AdmissionRequest -> AdmissionResponse -> result string string
}.

Section Webhook.
Context `{HA : AdmissionCodec}.

Definition mutate (cfg : Config) (req : option AdmissionRequest) : AdmissionResponse :=
  match req with
  | None => mkResponse true None None
  | Some req =>
      match unmarshal_pod (ar_object req) with
      | Err e => mkResponse false (Some ("failed to unmarshal pod: " +:+ e)) None
      | Ok pod =>
          if negb (ShouldInject pod) then mkResponse true None None
          else match BuildSidecarPatch pod (cf_image cfg) (cf_env cfg) with
               | Err e => mkResponse false (Some ("failed to build attestation sidecar patch: " +:+ e)) None
               | Ok patch => mkResponse true None (Some patch)
               end
      end
  end.

(** The answer: an error with its status, or the review with its response. *)
Definition handleMutate (cfg : Config) (body : option string) : Z * string :=
  match body with
  | None => (StatusBadRequest, "failed to read body"%string)
  | Some body =>
      if String.eqb body "" then (StatusBadRequest, "empty body"%string)
      else match decode_review body with
           | Err e => (StatusBadRequest, "decode error: " +:+ e)
           | Ok None => (StatusBadRequest, "missing request in admission review"%string)
           | Ok (Some req) =>
               match marshal_review req (mutate cfg (Some req)) with
               | Err e => (StatusInternalServerError, "marshal error: " +:+ e)
               | Ok resp => (StatusOK, resp)
               end
           end
  end.

(** What the API server makes of a pod and the response to it: the pod that is created, if one
    is. *)
Definition admitted (pod : Pod) (resp : AdmissionResponse) : option Pod :=
  if re_allowed resp then match re_patch resp with None => Some pod | Some ps => apply_patches pod ps end
  else None.

End Webhook.

(** ** Registration *)

Definition webhookName : string := "attestation-sidecar-injector.akash.network".
Definition webhookConfigName : string := "akash-attestation-sidecar-injector".

(** [WebhookClientConfig] is an address, or a service of the cluster. *)
Inductive client_config :=
| WebhookURL (url : string) (caBundle : string)
| WebhookService (name namespace path : string) (port : Z) (caBundle : string).

Inductive failure_policy := PolicyFail | PolicyIgnore.

Record WebhookConfiguration := mkWebhookConfig {
  wc_name : string; wc_labels : labels_t; wc_webhook : string; wc_versions : list string; wc_failure : failure_policy;
  wc_side_effects : string; wc_match_policy : string; wc_timeout : Z; wc_client : client_config;
  wc_match_labels : labels_t; wc_match_exists : list string;
  wc_operations : list string; wc_groups : list string; wc_api_versions : list string; wc_resources : list string
}.

#[export] Instance WebhookConfiguration_object : KubeObject WebhookConfiguration :=
  {| obj_name := wc_name; obj_labels := wc_labels |}.

Definition webhook_configuration (serviceName serviceNamespace caBundle : string) (webhookPort : Z) (webhookURL : string)
    : WebhookConfiguration :=
  mkWebhookConfig webhookConfigName
    (list_to_map [("app.kubernetes.io/name", "attestation-webhook"); ("app.kubernetes.io/part-of", "provider");
                  ("app.kubernetes.io/component", "admission-webhook")]%string)
    webhookName ["v1"%string] PolicyFail "None" "Equivalent" 5
    (if String.eqb webhookURL "" then WebhookService serviceName serviceNamespace "/mutate" webhookPort caBundle
     else WebhookURL (webhookURL +:+ "/mutate") caBundle)
    {[ AkashManagedLabelName := ValTrue ]} ["akash.network/namespace"%string]
    ["CREATE"%string] [""%string] ["v1"%string] ["pods"%string].

Inductive register_error := CreateFailed (e : kube_error) | GetFailed (e : kube_error) | UpdateFailed (e : kube_error).

Section Registration.
Context {W St : Type} `{HK : !KubeCollection W WebhookConfiguration St}.

Definition failed_with {A} (f : kube_error -> A) (r : W * option kube_error) : W * option A := (r.1, f <$> r.2).

(** The configurations belong to the cluster: they have no namespace. *)
Definition RegisterWebhookConfiguration (w : W) (serviceName serviceNamespace caBundle : string) (webhookPort : Z)
    (webhookURL : string) : W * option register_error :=
  let cfg := webhook_configuration serviceName serviceNamespace caBundle webhookPort webhookURL in
  match kube_Get w "" webhookConfigName with
  | Err e => if Kube.IsNotFound e then failed_with CreateFailed (kube_Create w "" cfg) else (w, Some (GetFailed e))
  | Ok (_, existing) => failed_with UpdateFailed (kube_Update w "" cfg existing)
  end.

Definition DeregisterWebhookConfiguration (w : W) : W := (kube_Delete w "" webhookConfigName).1.

End Registration.

(** ** The patch *)

(** A pod as its template describes it. *)
Definition pod_of (t : PodTemplate) : Pod :=
  mkPod (pt_labels t) (pt_annotations t) (pt_runtime_class t) (map Tenant (pt_containers t))
    (map TenantVolume (pt_volumes t)).

Definition pod_isGPU (pod : Pod) : bool := RuntimeClass_Is (default ""%string (po_runtime_class pod)) [WithGPU].

(** The pod with the sidecar and its volumes after its own. *)
Definition with_sidecar (cfg : Config) (pod : Pod) : Pod :=
  mkPod (po_labels pod) (po_annotations pod) (po_runtime_class pod)
    (po_containers pod ++ [buildSidecarContainer (cf_image cfg) (pod_isGPU pod) (cf_env cfg)])
    (po_volumes pod ++ buildSidecarVolumes (pod_isGPU pod) (isMockMode (cf_env cfg))).

Lemma apply_patches_app pod ps qs :
  apply_patches pod (ps ++ qs) = (pod' ← apply_patches pod ps; apply_patches pod' qs).
Proof.
  revert pod. induction ps as [|p ps IH]; intros pod; simpl; [reflexivity|].
  destruct (apply_patch pod p) as [pod'|]; simpl; [apply IH|reflexivity].
Qed.

Lemma container_patch_applies pod c :
  apply_patches pod (container_patch pod c) =
  Some (mkPod (po_labels pod) (po_annotations pod) (po_runtime_class pod) (po_containers pod ++ [c]) (po_volumes pod)).
Proof. destruct pod as [l a r [|c0 cs] vs]; reflexivity. Qed.

Lemma append_volumes_applies pod vs :
  po_volumes pod <> [] ->
  apply_patches pod (map (fun vol => mkPatch "add" "/spec/volumes/-" (VVolume vol)) vs) =
  Some (mkPod (po_labels pod) (po_annotations pod) (po_runtime_class pod) (po_containers pod) (po_volumes pod ++ vs)).
Proof.
  revert pod. induction vs as [|v vs IH]; intros [l a r cs [|v0 us]] Hne; simpl in *; try contradiction.
  - rewrite app_nil_r. reflexivity.
  - unfold apply_patch. simpl. rewrite IH by discriminate. simpl. rewrite <- app_assoc. reflexivity.
Qed.

Lemma volume_patches_apply pod vs :
  apply_patches pod (volume_patches pod vs) =
  Some (mkPod (po_labels pod) (po_annotations pod) (po_runtime_class pod) (po_containers pod) (po_volumes pod ++ vs)).
Proof.
  unfold volume_patches. destruct vs as [|v vs]; [destruct pod; simpl; rewrite app_nil_r; reflexivity|].
  destruct (po_volumes pod) as [|v0 us] eqn:E; [reflexivity|].
  rewrite append_volumes_applies by (rewrite E; discriminate). rewrite E. reflexivity.
Qed.

(** The patch always applies, and adds the sidecar at the end. *)
Lemma patch_applies cfg pod ps :
  BuildSidecarPatch pod (cf_image cfg) (cf_env cfg) = Ok ps -> apply_patches pod ps = Some (with_sidecar cfg pod).
Proof.
  unfold BuildSidecarPatch. destruct (String.eqb _ ""); [discriminate|]. intros [= <-].
  rewrite apply_patches_app, container_patch_applies. cbn [mbind option_bind].
  set (pod1 := mkPod _ _ _ _ _).
  change (volume_patches pod) with (volume_patches pod1). rewrite volume_patches_apply. reflexivity.
Qed.

(** What the webhook adds, the webhook recognises: asked again, it leaves the pod alone. *)
Lemma with_sidecar_done cfg pod : ShouldInject (with_sidecar cfg pod) = false.
Proof.
  unfold ShouldInject, with_sidecar. cbn [po_labels po_annotations po_runtime_class po_containers].
  rewrite existsb_app. simpl. rewrite orb_true_r. simpl.
  repeat (case_match; [reflexivity|]). destruct (po_runtime_class pod); [|reflexivity].
  repeat (case_match; try reflexivity).
Qed.

Section Mutation.
Context `{HA : AdmissionCodec}.

(** What is created of a pod the webhook could read. *)
Lemma webhook_answer (cfg : Config) (req : AdmissionRequest) (pod : Pod) :
  unmarshal_pod (ar_object req) = Ok pod ->
  admitted pod (mutate cfg (Some req)) =
    if ShouldInject pod then if String.eqb (cf_image cfg) "" then None else Some (with_sidecar cfg pod)
    else Some pod.
Proof.
  unfold mutate. intros ->. destruct (ShouldInject pod); [|reflexivity]. cbn [negb].
  destruct (BuildSidecarPatch pod (cf_image cfg) (cf_env cfg)) as [ps|e] eqn:E.
  - unfold admitted. cbn [re_allowed re_patch]. rewrite (patch_applies _ _ _ E).
    unfold BuildSidecarPatch in E. destruct (String.eqb _ ""); [discriminate|reflexivity].
  - unfold BuildSidecarPatch in E. destruct (String.eqb _ ""); [reflexivity|discriminate].
Qed.

(** The webhook never lets a pod through that it should give the sidecar and does not: the
    request is refused, or the pod that is created is one the webhook would leave alone. *)
Theorem webhook_fails_closed (cfg : Config) (req : AdmissionRequest) (pod pod' : Pod) :
  unmarshal_pod (ar_object req) = Ok pod -> admitted pod (mutate cfg (Some req)) = Some pod' ->
  ShouldInject pod' = false /\ po_labels pod' = po_labels pod /\ po_annotations pod' = po_annotations pod /\
  po_runtime_class pod' = po_runtime_class pod /\
  take (List.length (po_containers pod)) (po_containers pod') = po_containers pod /\
  take (List.length (po_volumes pod)) (po_volumes pod') = po_volumes pod.
Proof.
  intros Hu. rewrite (webhook_answer cfg req pod Hu). destruct (ShouldInject pod) eqn:Hi.
  - destruct (String.eqb _ ""); [discriminate|]. intros [= <-]. rewrite with_sidecar_done. simpl.
    rewrite !take_app_length. auto 10.
  - intros [= <-]. rewrite !firstn_all. auto 10.
Qed.

End Mutation.

(** ** The pods the provider builds *)

Section Pods.
Context `{HP : ServiceProtocolAPI} `{HS : !SDK} `{HH : LeaseHash}.

Lemma podLabels_managed (b : Workload) (current : labels_t) :
  podLabels b current !! AkashManagedLabelName = Some ValTrue.
Proof.
  assert (wl_labels b !! AkashManagedLabelName = Some ValTrue) as H.
  { unfold wl_labels. destruct (String.eqb _ ""); rewrite !lookup_insert_ne by done;
      unfold base_labels, base_selectorLabels; rewrite !lookup_insert_ne by done; apply lookup_singleton_eq. }
  unfold podLabels. destruct (current !! _); [rewrite lookup_insert_ne by done|]; rewrite lookup_delete_ne by done; exact H.
Qed.

Lemma podAnnotations_disabled (b : Workload) :
  podAnnotations b !! AkashAttestationDisabledAnnotation =
  match wl_params b with Some p => if sp_attestation_disabled p then Some ValTrue else None | None => None end.
Proof.
  unfold podAnnotations. destruct (interconnect_enabled b) as [ic|]; [destruct (_ && _); [rewrite lookup_insert_ne by done|]|];
    (destruct (wl_params b) as [p|]; [destruct (sp_attestation_disabled p)|]); rewrite ?lookup_singleton_eq; done.
Qed.

(** A runtime class the webhook acts on is one the builder sets. *)
Lemma runtimeClass_cc (b : Workload) (p : SchedulerParams) :
  wl_params b = Some p -> RuntimeClass_Is (sp_runtime_class p) [WithCC] = true ->
  runtimeClass b = Some (sp_runtime_class p).
Proof.
  unfold runtimeClass. intros -> Hcc.
  destruct (String.eqb_spec (sp_runtime_class p) ""); [rewrite e in Hcc; discriminate|].
  destruct (String.eqb_spec (sp_runtime_class p) runtimeClassNoneValue); [rewrite e in Hcc; discriminate|]. reflexivity.
Qed.

(** A workload is one the webhook attests: the builder set the resources of the sidecar apart,
    and the tenant's service does not have the name of the sidecar. *)
Definition attested (b : Workload) : bool :=
  sidecarEnabled b && negb (String.eqb (Mani.Name (wl_service b)) sidecarContainerName).

(** The pods of a workload get the sidecar exactly when the builder set its resources apart,
    unless the tenant's service has the name of the sidecar. *)
Lemma inject_attested (b : Workload) (current : labels_t) (t : PodTemplate) :
  pod_template b current = Some t -> ShouldInject (pod_of t) = attested b.
Proof.
  unfold pod_template, attested. intros Ht. destruct (container b) as [c|] eqn:Hc; [|discriminate]. injection Ht as <-.
  assert (Hcn : c_name c = Mani.Name (wl_service b)).
  { unfold container in Hc. destruct (container_resources b); [|discriminate]. by injection Hc as <-. }
  unfold ShouldInject, pod_of. cbn [po_labels po_annotations po_runtime_class po_containers pt_labels pt_annotations
    pt_runtime_class pt_containers map existsb pc_name].
  rewrite podLabels_managed, bool_decide_true by done. cbn [negb].
  rewrite podAnnotations_disabled, Hcn, orb_false_r.
  unfold sidecarEnabled. destruct (wl_params b) as [p|] eqn:Hp; [|unfold runtimeClass; rewrite Hp; reflexivity].
  destruct (RuntimeClass_Is (sp_runtime_class p) [WithCC]) eqn:Hcc.
  - rewrite (runtimeClass_cc b p Hp Hcc), Hcc. destruct (sp_attestation_disabled p); reflexivity.
  - unfold runtimeClass. rewrite Hp. destruct (_ || _); [reflexivity|]. rewrite Hcc. reflexivity.
Qed.

End Pods.

(** ** Admission in the namespaces of leases *)

(** Whether the API server asks the webhook about an operation in a namespace. *)
Definition intercepted (c : WebhookConfiguration) (nsLabels : labels_t) (operation resource : string) : bool :=
  forallb (fun kv => bool_decide (nsLabels !! kv.1 = Some kv.2)) (map_to_list (wc_match_labels c)) &&
  forallb (fun k => bool_decide (is_Some (nsLabels !! k))) (wc_match_exists c) &&
  existsb (String.eqb operation) (wc_operations c) && existsb (String.eqb resource) (wc_resources c).

(** The pod that is created, if one is, where the webhook answers or not. *)
Definition created (c : WebhookConfiguration) (nsLabels : labels_t) (pod : Pod) (answer : option AdmissionResponse)
    : option Pod :=
  if intercepted c nsLabels "CREATE" "pods" then
    match answer with
    | Some resp => admitted pod resp
    | None => match wc_failure c with PolicyFail => None | PolicyIgnore => Some pod end
    end
  else Some pod.

Section Admission.
Context `{HP : ServiceProtocolAPI} `{HS : !SDK} `{HH : LeaseHash} `{HA : AdmissionCodec}.

Lemma lease_intercepted (name ns ca url : string) (port : Z) (d : cdeployment) :
  intercepted (webhook_configuration name ns ca port url) (kn_labels (ns_Create d)) "CREATE" "pods" = true.
Proof.
  unfold intercepted, webhook_configuration. cbn [wc_match_labels wc_match_exists wc_operations wc_resources].
  rewrite map_to_list_singleton. cbn [forallb existsb fst snd ns_Create kn_labels].
  assert (H1 : ns_labels d !! AkashManagedLabelName = Some ValTrue).
  { unfold ns_labels. rewrite AppendLeaseLabels_other by set_solver. unfold base_labels, base_selectorLabels.
    rewrite !lookup_insert_ne by done. apply lookup_singleton_eq. }
  assert (H2 : ns_labels d !! akashNetworkNamespace = Some (LidNS (cd_lid d))).
  { unfold ns_labels. rewrite AppendLeaseLabels_other by set_solver. unfold base_labels, base_selectorLabels.
    rewrite lookup_insert_ne by done. apply lookup_insert_eq. }
  change (ns_labels d !! "akash.network/namespace"%string = Some (LidNS (cd_lid d))) in H2.
  rewrite H1, H2, !bool_decide_true by eauto. reflexivity.
Qed.

(** C7: once the webhook is registered, the pods of a workload that is confidential, whose
    attestation is not disabled, and whose service does not have the name of the sidecar
    itself are never created in the namespace of their lease without the sidecar, whether
    the webhook answers or not; with an image for the sidecar, those the webhook answers for
    are created with it. The other pods, among them those of a service that is named like
    the sidecar, are created as they are when the webhook answers. No pod at all is created
    there while it does not answer. *)
Theorem confidential_pods_attested (name ns ca url : string) (port : Z) (cfg : Config) (b : Workload)
    (current : labels_t) (t : PodTemplate) (req : AdmissionRequest) (answer : option AdmissionResponse) :
  pod_template b current = Some t -> unmarshal_pod (ar_object req) = Ok (pod_of t) ->
  answer = None \/ answer = Some (mutate cfg (Some req)) ->
  created (webhook_configuration name ns ca port url) (kn_labels (ns_Create (wl_deployment b))) (pod_of t) answer =
    if bool_decide (answer = None) then None
    else if sidecarEnabled b && negb (String.eqb (Mani.Name (wl_service b)) sidecarContainerName) then
      if String.eqb (cf_image cfg) "" then None else Some (with_sidecar cfg (pod_of t))
    else Some (pod_of t).
Proof.
  intros Ht Hu Ha. unfold created. rewrite lease_intercepted.
  pose proof (inject_attested b current t Ht) as Hi. unfold attested in Hi.
  destruct Ha as [-> | ->]; [reflexivity|]. rewrite bool_decide_false by discriminate.
  rewrite (webhook_answer cfg req (pod_of t) Hu), Hi. reflexivity.
Qed.

End Admission.

(** ** What a confidential pod takes *)

Definition limit_of (name : string) (c : PodContainer) : Z := default 0%Z (pc_limits c !! name).
Definition request_of (name : string) (c : PodContainer) : Z := default 0%Z (pc_requests c !! name).

Section Budget.
Context `{HP : ServiceProtocolAPI} `{HS : !SDK} `{HL : !SDKLaws} `{HH : LeaseHash}.

(** C28: the tenant's container and the sidecar together have the limits of the lease, whatever the
    runtime class, provided these are enough for the sidecar and the least a container runs
    with; below that the pod is given this least, which is more than the lease has. *)
Theorem pod_within_lease (cfg : Config) (b : Workload) (current : labels_t) (t : PodTemplate) (cpu : Units) (mem : Memory) :
  pod_template b current = Some t -> sidecarEnabled b = true ->
  r_cpu (Mani.Res (wl_service b)) = Some cpu -> r_memory (Mani.Res (wl_service b)) = Some mem ->
  (0 <= units cpu < 2 ^ 63)%Z -> (0 <= m_quantity mem)%Z -> (0 <= ram_total b)%Z ->
  (m_quantity mem + ram_total b < 2 ^ 63)%Z ->
  (forall ic, interconnect_enabled b = Some ic -> si_resource_name ic <> "cpu"%string) ->
  sumZ (limit_of "cpu") (po_containers (with_sidecar cfg (pod_of t))) =
    Z.max (units cpu) (SidecarCPULimitMillicores + MinPrimaryCPUMillicores) /\
  sumZ (limit_of "memory") (po_containers (with_sidecar cfg (pod_of t))) =
    Z.max (m_quantity mem + ram_total b) (sidecar_memory b + MinPrimaryMemoryBytes).
Proof.
  unfold pod_template. intros Ht Hs Hcpu Hmem Hu Hq Hram Hfit Hic.
  destruct (container b) as [c|] eqn:Hc; [|discriminate]. injection Ht as <-.
  destruct (container_shares b c cpu mem Hc Hcpu Hmem Hu Hq Hram Hfit Hic) as (_ & _ & H1 & H2 & _).
  unfold sidecarEnabled in Hs. destruct (wl_params b) as [p|] eqn:Hp; [|discriminate].
  apply andb_true_iff in Hs as [Hcc Hdis].
  assert (Hgpu : pod_isGPU (pod_of (mkPodTemplate (podLabels b current) (podAnnotations b) (affinity b) (runtimeClass b)
    (hasPermissions b) (serviceAccountName b) [c] (imagePullSecrets b) (volumes b))) =
    RuntimeClass_Is (sp_runtime_class p) [WithGPU]).
  { unfold pod_isGPU, pod_of. cbn [po_runtime_class pt_runtime_class]. by rewrite (runtimeClass_cc b p Hp Hcc). }
  unfold with_sidecar. rewrite Hgpu. unfold pod_of. cbn [po_containers pt_containers map app].
  unfold share, sidecarEnabled, sidecar_memory in *. rewrite Hp, Hcc, Hdis in *. cbn [andb] in *.
  unfold sumZ. cbn [foldr limit_of pc_limits buildSidecarContainer sc_limits sidecarResources snd].
  unfold limit_of. cbn [pc_limits buildSidecarContainer sc_limits sidecarResources snd]. rewrite H1, H2. cbn [default].
  rewrite lookup_insert_ne, lookup_singleton_eq, lookup_insert_eq by done. cbn [default from_option]. unfold id.
  destruct (RuntimeClass_Is (sp_runtime_class p) [WithGPU]); split; lia.
Qed.

End Budget.

(** ** Registration *)

Section RegistrationTheorems.
Context {W St : Type} `{HK : !KubeCollection W WebhookConfiguration St} `{HL : !KubeLaws W WebhookConfiguration St}.

(** Registering without an error leaves the configuration just built in the cluster, whether
    there was one before or not, and no other configuration changes, error or not. *)
Theorem webhook_registered (w w' : W) (name ns ca url : string) (port : Z) (err : option register_error) :
  RegisterWebhookConfiguration w name ns ca port url = (w', err) ->
  (err = None -> stored w' !! (""%string, webhookConfigName) = Some (webhook_configuration name ns ca port url)) /\
  (forall k, k <> (""%string, webhookConfigName) -> stored w' !! k = stored w !! k).
Proof.
  unfold RegisterWebhookConfiguration. set (cfg := webhook_configuration name ns ca port url).
  assert (Hw : forall f (r : W * option kube_error), took_effect stored w (<[(""%string, webhookConfigName) := cfg]> (stored w)) r ->
    failed_with (A := register_error) f r = (w', err) ->
    (err = None -> stored w' !! (""%string, webhookConfigName) = Some cfg) /\
    (forall k, k <> (""%string, webhookConfigName) -> stored w' !! k = stored w !! k)).
  { intros f [w1 e] Ht [= <- <-]. split.
    - intros He. apply fmap_None in He. simpl in He. unfold took_effect in Ht. simpl in Ht. rewrite He in Ht. rewrite Ht.
      apply lookup_insert_eq.
    - intros k Hk. apply (took_effect_frame _ _ _ (w1, e) k Ht). by apply lookup_insert_ne. }
  destruct (kube_Get w "" webhookConfigName) as [[old st]|e].
  - apply Hw. exact (kube_Update_effect w "" cfg st).
  - destruct (Kube.IsNotFound e); [apply Hw; exact (kube_Create_effect w "" cfg)|].
    intros [= <- <-]. split; [discriminate|reflexivity].
Qed.

End RegistrationTheorems.

Module WebhookExamples.
Import KubeExamples.

#[local] Existing Instance named_protocols.
#[local] Existing Instance seq_hash.
#[local] Existing Instance kx_sdk.
#[local] Existing Instance kx_sdk_laws.

Definition wx_params (disabled : bool) : SchedulerParams := mkSchedulerParams RuntimeClassKataQemuSNP None disabled "cpu".

(** A confidential workload. *)
Definition wx_wl : Workload := mkWorkload kx_settings (kx_cd kx_lid "v2") kx_web (Some (wx_params false)) kx_web.

Definition wx_template : PodTemplate :=
  default (mkPodTemplate ∅ ∅ (mkAffinity [] None) None false "" [] [] []) (pod_template wx_wl ∅).

#[local] Instance wx_codec : AdmissionCodec :=
  {| decode_review _ := Ok (Some (mkAdmission "uid" "pod")); unmarshal_pod _ := Ok (pod_of wx_template);
     marshal_review _ _ := Ok "review"%string |}.

Definition wx_cfg : Config := mkConfig "sidecar:1" [mkEnv "ATTESTATION_MOCK" "true"].
Definition wx_req : AdmissionRequest := mkAdmission "uid" "pod".

Lemma wx_has_template : pod_template wx_wl ∅ = Some wx_template.
Proof. vm_compute. reflexivity. Qed.

Lemma webhook_fails_closed_witness :
  exists pod', admitted (pod_of wx_template) (mutate wx_cfg (Some wx_req)) = Some pod' /\
    ShouldInject (pod_of wx_template) = true /\ ShouldInject pod' = false.
Proof.
  exists (with_sidecar wx_cfg (pod_of wx_template)).
  assert (H : admitted (pod_of wx_template) (mutate wx_cfg (Some wx_req)) = Some (with_sidecar wx_cfg (pod_of wx_template)))
    by (vm_compute; reflexivity).
  split; [exact H|]. split; [vm_compute; reflexivity|].
  exact (proj1 (webhook_fails_closed wx_cfg wx_req (pod_of wx_template) _ eq_refl H)).
Defined.

Lemma confidential_pods_attested_witness :
  created (webhook_configuration "provider" "akash-services" "ca" 9443 "") (kn_labels (ns_Create (kx_cd kx_lid "v2")))
    (pod_of wx_template) (Some (mutate wx_cfg (Some wx_req))) = Some (with_sidecar wx_cfg (pod_of wx_template)) /\
  created (webhook_configuration "provider" "akash-services" "ca" 9443 "") (kn_labels (ns_Create (kx_cd kx_lid "v2")))
    (pod_of wx_template) None = None.
Proof.
  split.
  - exact (confidential_pods_attested (HA := wx_codec) "provider" "akash-services" "ca" "" 9443 wx_cfg wx_wl ∅ wx_template wx_req
      (Some (mutate wx_cfg (Some wx_req))) wx_has_template eq_refl (or_intror eq_refl)).
  - exact (confidential_pods_attested (HA := wx_codec) "provider" "akash-services" "ca" "" 9443 wx_cfg wx_wl ∅ wx_template wx_req
      None wx_has_template eq_refl (or_introl eq_refl)).
Defined.

Lemma pod_within_lease_witness :
  sumZ (limit_of "cpu") (po_containers (with_sidecar wx_cfg (pod_of wx_template))) = 500%Z.
Proof.
  refine (proj1 (pod_within_lease wx_cfg wx_wl ∅ wx_template (mkUnits 500 []) (mkMemory 268435456 [])
    wx_has_template eq_refl eq_refl eq_refl _ _ _ _ _)); simpl; [lia|lia|vm_compute; discriminate|vm_compute; reflexivity|discriminate].
Defined.

#[local] Existing Instance store_api.
#[local] Existing Instance store_laws.

Lemma webhook_registered_witness :
  exists w', RegisterWebhookConfiguration (mkStore ∅ []) "provider" "akash-services" "ca" 9443 "" = (w', None) /\
    st_objects w' !! (""%string, webhookConfigName) =
      Some (webhook_configuration "provider" "akash-services" "ca" 9443 "").
Proof.
  eexists. split; [reflexivity|].
  exact (proj1 (webhook_registered (mkStore ∅ []) _ "provider" "akash-services" "ca" "" 9443 None eq_refl) eq_refl).
Defined.

(** A service with the name of the sidecar runs without one, though its container is charged
    for it. *)
Definition wx_named : Mani.Service :=
  Mani.mkService sidecarContainerName "nginx" [] [] [] (kx_resources 1 "false") 1 [] None None "".

Lemma named_like_sidecar :
  let b := mkWorkload kx_settings (kx_cd kx_lid "v2") wx_named (Some (wx_params false)) wx_named in
  sidecarEnabled b = true /\ ShouldInject (pod_of (default wx_template (pod_template b ∅))) = false.
Proof. vm_compute. auto. Qed.

End WebhookExamples.
