(* ===== verification/ServiceDiscovery.v ===== *)
(** * Finding the IP operator and asking it

    Model of [cluster/util/service_discovery_agent.go] with its static sibling, the agent that
    finds the address of a service once it is asked for, and of
    [cluster/kube/operators/clients/ip/client.go], the client of the IP operator built on it,
    with the errors of [operator/ip/types/error_response.go]. The other end of the client is in
    [IPOp]. Timers are those of Go 1.23 and later: [Stop] answers whether the timer was running,
    and afterwards nothing can be received from it. The channel of a discovery carries its one
    result. *)

From Stdlib Require Import ZArith Lia Ascii.
From stdpp Require Import base gmap list strings tactics.
From S2P Require Import Prelude Types Names Kube Ingress MetalLB InventoryService HttpErrors IPOp KubeExec.

(** ** The agent *)

Section Agent.
Context {F : Type}.

(** The discovery: not started, under way, or its result has been read. *)
Inductive discovery_state := NotStarted | UnderWay | Delivered.

(** Requests are numbered; [sd_answers] are the answers sent. *)
Record agent := mkAgent {
  sd_discover : bool; sd_discovery : discovery_state; sd_timer : bool; sd_discoverch : bool;
  sd_result : option F; sd_pending : list nat; sd_answers : list (nat * result string F)
}.

Definition agent_init : agent := mkAgent true NotStarted false false None [] [].

Definition agent_handleRequest (req : nat) (a : agent) : agent :=
  match sd_result a with
  | Some f => mkAgent (sd_discover a) (sd_discovery a) (sd_timer a) (sd_discoverch a) (sd_result a) (sd_pending a)
                (sd_answers a ++ [(req, Ok f)])
  | None => mkAgent (sd_discover a) (sd_discovery a) (sd_timer a) (sd_discoverch a) (sd_result a)
              (sd_pending a ++ [req]) (sd_answers a)
  end.

Definition setResult (r : result string F) (a : agent) : agent :=
  mkAgent (sd_discover a) (sd_discovery a) (sd_timer a) (sd_discoverch a)
    (match r with Ok f => Some f | Err _ => None end) []
    (sd_answers a ++ map (fun req => (req, r)) (sd_pending a)).

(** [DiscoverNow] of a client, the loop taking it, the timer, the result of a discovery, a
    request. *)
Inductive agent_event := DiscoverNow | TakeDiscover | RetryTimer | Result (r : result string F) | Request (req : nat).

Inductive agent_outcome := AgentNext (a : agent) | AgentHung.

Definition set_discover (a : agent) (discover : bool) (timer : bool) (ch : bool) : agent :=
  mkAgent discover (sd_discovery a) timer ch (sd_result a) (sd_pending a) (sd_answers a).

(** What follows the [select]: the channel of the discovery is never set to nil again. *)
Definition maybe_discover (a : agent) : agent :=
  match sd_discovery a with
  | NotStarted => if sd_discover a
                  then mkAgent (sd_discover a) UnderWay (sd_timer a) (sd_discoverch a) (sd_result a) (sd_pending a) (sd_answers a)
                  else a
  | _ => a
  end.

(** One turn of [run]; [None] where the event cannot happen. *)
Definition agent_run (a : agent) (ev : agent_event) : option agent_outcome :=
  match ev with
  | DiscoverNow => Some (AgentNext (set_discover a (sd_discover a) (sd_timer a) true))
  | TakeDiscover =>
      if sd_discoverch a then Some (AgentNext (maybe_discover (set_discover a true (sd_timer a) false))) else None
  | RetryTimer => if sd_timer a then Some (AgentNext (maybe_discover (set_discover a true false (sd_discoverch a)))) else None
  | Result r =>
      match sd_discovery a with
      | UnderWay =>
          let a' := setResult r (mkAgent (sd_discover a) Delivered (sd_timer a) (sd_discoverch a) (sd_result a)
                                   (sd_pending a) (sd_answers a)) in
          match r with
          | Ok _ => Some (AgentNext (maybe_discover a'))
          | Err _ => if sd_timer a then Some (AgentNext (maybe_discover (set_discover a' (sd_discover a') true (sd_discoverch a'))))
                     else Some AgentHung
          end
      | _ => None
      end
  | Request req => Some (AgentNext (maybe_discover (agent_handleRequest req a)))
  end.

Inductive agent_ran : list agent_event -> agent -> Prop :=
| agent_ran_init : agent_ran [] agent_init
| agent_ran_step evs a ev a' : agent_ran evs a -> agent_run a ev = Some (AgentNext a') -> agent_ran (evs ++ [ev]) a'.

(** The requests of a history. *)
Definition requested (evs : list agent_event) : list nat := omap (fun ev => match ev with Request n => Some n | _ => None end) evs.

(** The timer never runs, and what was asked is answered or pending, the latter only before
    the result of the one discovery. *)
Record agent_ok (evs : list agent_event) (a : agent) : Prop := {
  ao_timer : sd_timer a = false;
  ao_settled : sd_discovery a = Delivered -> exists f, sd_result a = Some f /\ sd_pending a = [] /\
    forall n, n ∈ requested evs -> (n, Ok f) ∈ sd_answers a;
  ao_waiting : sd_discovery a <> Delivered -> sd_result a = None /\ sd_answers a = [] /\ sd_pending a = requested evs;
  ao_started : requested evs <> [] -> sd_discovery a <> NotStarted;
  ao_discover : sd_discover a = true
}.

Lemma requested_app evs evs' : requested (evs ++ evs') = requested evs ++ requested evs'.
Proof. unfold requested. apply omap_app. Qed.

Lemma agent_step_ok evs a ev a' : agent_ok evs a -> agent_run a ev = Some (AgentNext a') -> agent_ok (evs ++ [ev]) a'.
Proof.
  intros [Ht Hs Hw Hst Hd] H. destruct ev as [| | |r|req]; simpl in H.
  - injection H as <-. split; simpl; rewrite ?requested_app, ?app_nil_r; auto.
  - destruct (sd_discoverch a); [|done]. injection H as <-. unfold maybe_discover. simpl.
    destruct (sd_discovery a) eqn:E; split; simpl; rewrite ?E, ?requested_app, ?app_nil_r; auto; try done.
  - by rewrite Ht in H.
  - destruct (sd_discovery a) eqn:E; try done. destruct (Hw ltac:(done)) as (Hr & Ha & Hp).
    destruct r as [f|e]; [|by rewrite Ht in H]. injection H as <-. unfold maybe_discover. simpl.
    split; simpl; rewrite ?requested_app, ?app_nil_r; try done. intros _. exists f. split; [done|]. split; [done|].
    intros n Hn. apply elem_of_app. right. apply list_elem_of_fmap. exists n. by rewrite Hp.
  - injection H as <-. assert (Hreq : requested (evs ++ [Request req]) = requested evs ++ [req]) by (by rewrite requested_app).
    unfold agent_handleRequest. destruct (sd_discovery a) eqn:E.
    + destruct (Hw ltac:(done)) as (Hr & Ha & Hp). rewrite Hr. unfold maybe_discover. simpl. rewrite Hd.
      split; simpl; try done. intros _. by rewrite Hreq, Hp.
    + destruct (Hw ltac:(done)) as (Hr & Ha & Hp). rewrite Hr. unfold maybe_discover. simpl.
      split; simpl; try done. intros _. by rewrite Hreq, Hp.
    + destruct (Hs eq_refl) as (f & Hr & Hp & Hall). rewrite Hr. unfold maybe_discover. simpl.
      split; simpl; try done. intros _. exists f. split; [done|]. split; [done|].
      intros n. rewrite Hreq, !elem_of_app. intros [Hn|Hn]; [left; by apply Hall|].
      right. apply list_elem_of_singleton in Hn as ->. by left.
Qed.

Lemma agent_reachable_ok evs a : agent_ran evs a -> agent_ok evs a.
Proof.
  induction 1 as [|evs a ev a' H IH Hst]; [|by eapply agent_step_ok]. split; done.
Qed.

(** The first discovery that succeeds answers every request, before and after it, with what it
    found; before that no request is answered, and each one has started the discovery. *)
Theorem agent_answers (evs : list agent_event) (a : agent) (n : nat) :
  agent_ran evs a -> n ∈ requested evs ->
  match sd_discovery a with
  | NotStarted => False
  | UnderWay => n ∈ sd_pending a
  | Delivered => exists f, sd_result a = Some f /\ (n, Ok f) ∈ sd_answers a
  end.
Proof.
  intros H Hn. destruct (agent_reachable_ok evs a H) as [_ Hs Hw Hst _]. destruct (sd_discovery a) eqn:E.
  - apply Hst; [|done]. intros Hnil. rewrite Hnil in Hn. by apply not_elem_of_nil in Hn.
  - destruct (Hw ltac:(done)) as (_ & _ & Hp). by rewrite Hp.
  - destruct (Hs eq_refl) as (f & Hr & _ & Hall). eauto.
Qed.

(** A discovery that fails is the end of the agent: it waits for ever for the retry timer it
    has just stopped, so that it neither tries again nor takes another request. *)
Theorem failed_discovery_hangs (evs : list agent_event) (a : agent) (e : string) (o : agent_outcome) :
  agent_ran evs a -> agent_run a (Result (Err e)) = Some o -> o = AgentHung.
Proof.
  intros H Ho. destruct (agent_reachable_ok evs a H) as [Ht _ _ _ _]. simpl in Ho.
  destruct (sd_discovery a); try done. rewrite Ht in Ho. by injection Ho.
Qed.

(** What was found is never looked up again, whoever asks for it. *)
Theorem discovered_once (evs : list agent_event) (a a' : agent) (ev : agent_event) :
  agent_ran evs a -> sd_discovery a = Delivered -> agent_run a ev = Some (AgentNext a') ->
  sd_discovery a' = Delivered /\ sd_result a' = sd_result a.
Proof.
  intros H Hd Hst. destruct (agent_reachable_ok evs a H) as [Ht Hs _ _ _]. destruct (Hs Hd) as (f & Hr & _).
  destruct ev as [| | |r|req]; simpl in Hst; rewrite ?Hd, ?Ht in Hst; try done.
  - by injection Hst as <-.
  - destruct (sd_discoverch a); [|done]. injection Hst as <-. unfold maybe_discover. simpl. by rewrite Hd.
  - injection Hst as <-. unfold agent_handleRequest. rewrite Hr. unfold maybe_discover. simpl. by rewrite Hd.
Qed.

End Agent.

Arguments agent_event F : clear implicits.
Arguments agent F : clear implicits.

(** ** Addresses *)

(** A client: where its requests go, and whether it dials only TLS or only without. *)
Record service_client := mkServiceClient { cl_url : string; cl_tls : option bool }.

(** The URL, which is taken to parse. *)
Definition CreateRequest (c : service_client) (path : string) : string := cl_url c +:+ "/" +:+ path.

Definition scheme (isHTTPS : bool) : string := if isHTTPS then "https" else "http".

(** [cl_tls]: dialling only without TLS, or only with it, verified or not. *)
Definition newHTTPWrapperServiceClient (isHTTPS secure : bool) (baseURL : string) : service_client :=
  mkServiceClient baseURL (if isHTTPS then Some secure else None).

Record SRV := mkSRV { srv_target : string; srv_port : Z }.

Definition static_GetClient (srv : SRV) (isHTTPS secure : bool) : service_client :=
  newHTTPWrapperServiceClient isHTTPS secure
    (scheme isHTTPS +:+ "://" +:+ srv_target srv +:+ ":" +:+ FormatUint (srv_port srv)).

(** [choice] is the number drawn; drawing among none panics. *)
Definition discoverDNS (lookup : result string (list SRV)) (choice : nat) : option (result string (bool -> bool -> service_client)) :=
  match lookup with
  | Err e => Some (Err e)
  | Ok addrs => srv ← addrs !! choice; Some (Ok (static_GetClient srv))
  end.

Record KubeService := mkKubeService { kv_name : string; kv_namespace : string; kv_ports : list (string * string) }.

(** The ports are names and protocols; [transport] may fail. *)
Definition discoverKube (serviceName portName kubeHost : string) (get : result string KubeService) (transport : option string)
    : result string (bool -> bool -> service_client) :=
  match get with
  | Err e => Err e
  | Ok service =>
      match list_find (fun p => p.1 = portName /\ p.2 = "TCP"%string) (kv_ports service) with
      | None => Err ("service discovery failure: service " +:+ quoted serviceName +:+ " exists but has no port " +:+
                       quoted portName +:+ " (TCP)")
      | Some (_, port) =>
          match transport with
          | Some e => Err e
          | None => Ok (fun isHTTPS _ =>
              mkServiceClient (kubeHost +:+ "/api/v1/namespaces/" +:+ kv_namespace service +:+ "/services/" +:+
                (if isHTTPS : bool then "https:" else "") +:+ kv_name service +:+ ":" +:+ port.1 +:+ "/proxy") (Some true))
          end
      end
  end.

(** ** Errors of the operator *)

Definition ErrIPOperator : string := "ip operator error".

Record ipOperatorError := mkIPError { ie_message : string; ie_code : Z }.

Definition ErrNoSuchReservation : ipOperatorError := mkIPError "no such reservation with that lease ID" 1000.
Definition ErrReservationQuantityCannotBeZero : ipOperatorError :=
  mkIPError "reservation request cannot have a quantity of zero" 1001.

Definition ipOperatorError_Error (e : ipOperatorError) : string := ErrIPOperator +:+ ": " +:+ ie_message e.

(** The registry is nil until [Init]; registering a code twice panics. *)
Definition registerError (r : gmap Z ipOperatorError) (e : ipOperatorError) : option (gmap Z ipOperatorError) :=
  match r !! ie_code e with Some _ => None | None => Some (<[ie_code e := e]> r) end.

Definition Init : option (gmap Z ipOperatorError) :=
  r ← registerError ∅ ErrNoSuchReservation; registerError r ErrReservationQuantityCannotBeZero.

Definition LookupError (registry : gmap Z ipOperatorError) (code : Z) : string :=
  match registry !! code with
  | Some e => ipOperatorError_Error e
  | None => "no registered error: code " +:+ (if (code <? 0)%Z then "-" +:+ FormatUint (- code) else FormatUint code)
  end.

(** ** The client of the IP operator *)

Record response := mkHttpResponse { rs_code : Z; rs_content_type : list string; rs_body : string }.

(** The JSON of the answers. *)
Class IPCodec := {
  decode_statuses : string -> result string (list LeaseIPStatus);
  decode_usage : string -> result string AddressUsage;
  decode_ip_error : string -> result string (string * Z)
}.

Section IPClient.
Context `{IPCodec} (registry : gmap Z ipOperatorError).

Definition extractRemoteError (r : response) : string :=
  let status := "ip operator remote error: http status " +:+ FormatUint (rs_code r) in
  match rs_content_type r with
  | t :: _ =>
      if contains t "json" then
        match decode_ip_error (rs_body r) with
        | Err e => e
        | Ok (text, code) =>
            if String.eqb text "" then "EOF"
            else if (0 <? code)%Z then LookupError registry code else status +:+ " - " +:+ text
        end
      else status +:+ " - unspecified error"
  | [] => status +:+ " - unspecified error"
  end.

(** The client keeps the first client it was given by the agent. *)
Definition newRequest (cached : option service_client) (get : result string service_client) (path : string)
    : option service_client * result string string :=
  match cached with
  | Some c => (Some c, Ok (CreateRequest c path))
  | None => match get with
            | Err e => (None, Err e)
            | Ok c => (Some c, Ok (CreateRequest c path))
            end
  end.

Definition lease_status_path (oid : OrderID) : string :=
  "ip-lease-status/" +:+ o_owner oid +:+ "/" +:+ FormatUint (o_dseq oid) +:+ "/" +:+ FormatUint (o_gseq oid) +:+ "/" +:+
  FormatUint (o_oseq oid).

(** What is made of the answer to the request. *)
Definition read_ip_status (answer : result string response) : result string (list LeaseIPStatus) :=
  match answer with
  | Err e => Err e
  | Ok r =>
      if (rs_code r =? 204)%Z then Ok []
      else if negb (rs_code r =? 200)%Z then Err (extractRemoteError r)
      else decode_statuses (rs_body r)
  end.

Definition GetIPAddressStatus (cached : option service_client) (get : result string service_client) (oid : OrderID)
    (do : string -> result string response) : option service_client * result string (list LeaseIPStatus) :=
  match newRequest cached get (lease_status_path oid) with
  | (c, Err e) => (c, Err e)
  | (c, Ok req) => (c, read_ip_status (do req))
  end.

Definition client_GetIPAddressUsage (cached : option service_client) (get : result string service_client)
    (do : string -> result string response) : option service_client * result string AddressUsage :=
  match newRequest cached get "usage" with
  | (c, Err e) => (c, Err e)
  | (c, Ok req) => (c, match do req with
                       | Err e => Err e
                       | Ok r => if negb (rs_code r =? 200)%Z then Err (extractRemoteError r) else decode_usage (rs_body r)
                       end)
  end.

Definition ip_Check (cached : option service_client) (get : result string service_client)
    (do : string -> result string response) : option service_client * option string :=
  match newRequest cached get "health" with
  | (c, Err e) => (c, Some e)
  | (c, Ok req) => (c, match do req with
                       | Err e => Some e
                       | Ok r => if (rs_code r =? 200)%Z then None else Some "ip operator is not yet alive"%string
                       end)
  end.

End IPClient.

(** ** The client and the operator *)

(** The variables of a path in the operator's route. *)
Definition route_vars (path : string) : option (string * string * string * string) :=
  match split "/"%char path with
  | [root; owner; dseq; gseq; oseq] => if String.eqb root "ip-lease-status" then Some (owner, dseq, gseq, oseq) else None
  | _ => None
  end.

Section RoundTrip.
Context `{ServiceProtocolAPI} `{Bech32} `{IPCodec} {W : Type} (pt_status : W -> LeaseID -> result metallb_error (list ipLeaseState)).
Context (encode_statuses : list LeaseIPStatus -> string).

(** The operator's answer as the client sees it: an error's body is sent without a type of
    content of its own. *)
Definition operator_response (w : W) (provider : string) (path : string) : response :=
  match route_vars path with
  | None => mkHttpResponse 404 ["text/plain; charset=utf-8"%string] "404 page not found"
  | Some (owner, dseq, gseq, oseq) =>
      match handleIPLeaseStatusGet pt_status provider w owner dseq gseq oseq with
      | IPOp.StatusNotFound => mkHttpResponse 404 [] ""
      | IPOp.StatusInternalServerError => mkHttpResponse 500 ["text/plain; charset=utf-8"%string] "error"
      | StatusNoContent => mkHttpResponse 204 [] ""
      | IPOp.StatusOK body => mkHttpResponse 200 ["application/json"%string] (encode_statuses body)
      end
  end.

Lemma lease_path_vars (oid : OrderID) :
  contains_char "/"%char (o_owner oid) = false -> (0 <= o_dseq oid)%Z -> (0 <= o_gseq oid)%Z -> (0 <= o_oseq oid)%Z ->
  route_vars (lease_status_path oid) = Some (o_owner oid, FormatUint (o_dseq oid), FormatUint (o_gseq oid), FormatUint (o_oseq oid)).
Proof.
  intros Ho Hd Hg Hs. unfold route_vars, lease_status_path.
  change (split "/"%char _) with (split "/"%char ("ip-lease-status" +:+ String "/"%char (o_owner oid +:+ String "/"%char
    (FormatUint (o_dseq oid) +:+ String "/"%char (FormatUint (o_gseq oid) +:+ String "/"%char (FormatUint (o_oseq oid))))))).
  rewrite !split_cons, split_last by first [done|apply FormatUint_no_char; done]. reflexivity.
Qed.

(** The order of a lease. *)
Definition order_of (lid : LeaseID) : OrderID := mkOrderID (l_owner lid) (l_dseq lid) (l_gseq lid) (l_oseq lid).

Definition ip_status_of (s : ipLeaseState) : LeaseIPStatus :=
  mkIPStatus (s_port s) (s_externalPort s) (s_serviceName s) (s_ip s) (proto_ToString (s_protocol s)).

(** Asking the IP operator for the addresses of a lease gives those of that lease, as the
    operator found them, none included; when the operator cannot find them out, an error. *)
Theorem ip_status_roundtrip (registry : gmap Z ipOperatorError) (w : W) (lid : LeaseID) :
  lease_ok lid -> bech32_canonical (l_owner lid) = Some (l_owner lid) -> contains_char "/"%char (l_owner lid) = false ->
  (forall ss, pt_status w lid = Ok ss -> decode_statuses (encode_statuses (map ip_status_of ss)) = Ok (map ip_status_of ss)) ->
  read_ip_status registry (Ok (operator_response w (l_provider lid) (lease_status_path (order_of lid)))) =
  match pt_status w lid with
  | Err _ => Err "ip operator remote error: http status 500 - unspecified error"%string
  | Ok ss => Ok (map ip_status_of ss)
  end.
Proof.
  intros Hok Hb Hslash Hcodec. pose proof Hok as ([? _] & [? _] & [? _]). unfold operator_response.
  rewrite (lease_path_vars (order_of lid)) by done. simpl.
  rewrite (status_of_lease pt_status w lid Hok Hb). destruct (pt_status w lid) as [[|s ss]|e]; [reflexivity| |reflexivity].
  unfold read_ip_status. cbn [rs_code rs_body Z.eqb negb]. exact (Hcodec (s :: ss) eq_refl).
Qed.

End RoundTrip.

(** Without [Init], which nothing calls, every code of the operator is unknown to the client. *)
Lemma codes_unknown (code : Z) :
  LookupError ∅ code = "no registered error: code " +:+ (if (code <? 0)%Z then "-" +:+ FormatUint (- code) else FormatUint code).
Proof. reflexivity. Qed.

Module DiscoveryExamples.

Definition ex_found : bool -> bool -> service_client := static_GetClient (mkSRV "10.0.0.1" 8085).

Definition ex_agent : agent (bool -> bool -> service_client) :=
  mkAgent true Delivered false false (Some ex_found) [] [(0%nat, Ok ex_found); (1%nat, Ok ex_found)].

Definition ex_history : list (agent_event (bool -> bool -> service_client)) := [Request 0; Result (Ok ex_found); Request 1].

Lemma ex_agent_ran : agent_ran ex_history ex_agent.
Proof.
  apply (agent_ran_step [Request 0; Result (Ok ex_found)] (mkAgent true Delivered false false (Some ex_found) [] [(0%nat, Ok ex_found)]));
    [|reflexivity].
  apply (agent_ran_step [Request 0] (mkAgent true UnderWay false false None [0%nat] [])); [|reflexivity].
  apply (agent_ran_step [] agent_init); [constructor|reflexivity].
Qed.

Lemma agent_answers_witness : exists f, sd_result ex_agent = Some f /\ (1%nat, Ok f) ∈ sd_answers ex_agent.
Proof. refine (agent_answers ex_history ex_agent 1 ex_agent_ran _). vm_compute. right. left. Defined.

Lemma discovered_once_witness : sd_discovery (agent_handleRequest 2 ex_agent) = Delivered.
Proof. exact (proj1 (discovered_once ex_history ex_agent _ (Request 2) ex_agent_ran eq_refl eq_refl)). Defined.

(** The first request, and the discovery it starts fails. *)
Lemma failed_discovery_hangs_witness :
  agent_run (F := bool -> bool -> service_client) (mkAgent true UnderWay false false None [0%nat] []) (Result (Err "no such host"%string))
  = Some AgentHung.
Proof.
  destruct (agent_run (F := bool -> bool -> service_client) (mkAgent true UnderWay false false None [0%nat] [])
    (Result (Err "no such host"%string))) as [o|] eqn:E; [|discriminate].
  rewrite (failed_discovery_hangs [Request 0] _ _ o (agent_ran_step [] agent_init (Request 0) _ agent_ran_init eq_refl) E). reflexivity.
Defined.

#[local] Existing Instance named_protocols.
#[local] Existing Instance any_bech32.

Definition ex_lid : LeaseID := mkLeaseID "akash1own" 7 1 1 "akash1prov".
Definition ex_state : ipLeaseState := mkLeaseState ex_lid "203.0.113.7" "web" 80 8080 "key" TCP.
Definition one_ip : unit -> LeaseID -> result metallb_error (list ipLeaseState) := fun _ _ => Ok [ex_state].

#[local] Instance ex_codec : IPCodec :=
  {| decode_statuses _ := Ok [ip_status_of ex_state]; decode_usage _ := Ok (mkAddressUsage 1 0); decode_ip_error _ := Ok (""%string, (-1)%Z) |}.

Lemma ip_status_roundtrip_witness :
  read_ip_status ∅ (Ok (operator_response one_ip (fun _ => "statuses"%string) tt "akash1prov" (lease_status_path (order_of ex_lid)))) =
  Ok [ip_status_of ex_state].
Proof.
  refine (ip_status_roundtrip one_ip (fun _ => "statuses"%string) ∅ tt ex_lid _ eq_refl eq_refl _).
  - repeat split; simpl; lia.
  - intros ss [= <-]. reflexivity.
Defined.

End DiscoveryExamples.
