(* ===== verification/Sidecar.v ===== *)
(** * The attestation sidecar

    Model of [sidecar/attestation/]: the server that turns a tenant's nonce into attestation
    evidence ([server.go], [tlsbinding.go]), the providers it takes the evidence from and how
    one is chosen ([tee/tee.go], [configfs.go], [sevguest.go], [tdx.go], [composite.go],
    [mock.go]), and the GPUs' reports as the helper writes them
    ([nvml-helper/nvml_attestation.c]) and the sidecar reads them ([nvidia_gpu.go]). Bytes are
    integers below 256. The devices, NVML, SHA-2, base64 and JSON are parameters. *)

From Stdlib Require Import ZArith Lia Ascii String.
From stdpp Require Import base gmap list strings tactics.
From S2P Require Import Prelude Names HttpErrors Builder.

Abbreviation bytes := (list Z).

(** ** Numbers in little-endian order *)

Definition PutUint32 (n : Z) : bytes :=
  [(n mod 256)%Z; ((n / 2 ^ 8) mod 256)%Z; ((n / 2 ^ 16) mod 256)%Z; ((n / 2 ^ 24) mod 256)%Z].

Definition Uint32 (b : bytes) : Z :=
  match b with b0 :: b1 :: b2 :: b3 :: _ => (b0 + b1 * 2 ^ 8 + b2 * 2 ^ 16 + b3 * 2 ^ 24)%Z | _ => 0%Z end.

Lemma Uint32_PutUint32 n rest : is_uint 32 n -> Uint32 (PutUint32 n ++ rest) = n.
Proof. unfold is_uint. intros Hn. cbn [PutUint32 Uint32 app]. Z.div_mod_to_equations. lia. Qed.

(** ** Reports of the GPUs *)

Record GPUDeviceReport := mkGPUReport { gr_index : Z; gr_report : bytes }.

(** Four bytes off what is left. *)
Definition take_uint32 (rest : bytes) : option (Z * bytes) :=
  if (length rest <? 4)%nat then None else Some (Uint32 (take 4 rest), drop 4 rest).

(** As many bytes as announced. *)
Definition take_bytes (n : Z) (rest : bytes) : option (bytes * bytes) :=
  if (Z.of_nat (length rest) <? n)%Z then None else Some (take (Z.to_nat n) rest, drop (Z.to_nat n) rest).

(** The chain of certificates: it may be missing, and one that is cut off is left out. *)
Definition take_certs (rest : bytes) : bytes * bytes :=
  match take_uint32 rest with
  | None => ([], rest)
  | Some (certSize, rest') =>
      if (0 <? certSize)%Z
      then match take_bytes certSize rest' with Some (c, rest'') => (c, rest'') | None => ([], rest') end
      else ([], rest')
  end.

(** The body of the loop: one device off what is left. *)
Definition parse_device (rest : bytes) : result string (GPUDeviceReport * bytes) :=
  match take_uint32 rest with
  | None => Err "index"%string
  | Some (devIdx, rest) =>
  match take_uint32 rest with
  | None => Err "report size"%string
  | Some (reportSize, rest) =>
  match take_bytes reportSize rest with
  | None => Err "report data"%string
  | Some (report, rest) =>
  match take_uint32 rest with
  | None => Err "CEC size"%string
  | Some (cecSize, rest) =>
  match (if (0 <? cecSize)%Z then take_bytes cecSize rest else Some ([], rest)) with
  | None => Err "CEC data"%string
  | Some (cec, rest) =>
      let '(certs, rest) := take_certs rest in
      Ok (mkGPUReport devIdx (report ++ cec ++ certs), rest)
  end end end end end.

Fixpoint parse_devices (count : nat) (rest : bytes) : result string (list GPUDeviceReport) :=
  match count with
  | O => Ok []
  | S count' =>
      match parse_device rest with
      | Err e => Err e
      | Ok (d, rest) => match parse_devices count' rest with Err e => Err e | Ok ds => Ok (d :: ds) end
      end
  end.

Definition parseMultiGPUOutput (data : bytes) : result string (list GPUDeviceReport) :=
  match take_uint32 data with
  | None => Err "output too short for device count header"%string
  | Some (deviceCount, rest) =>
      match parse_devices (Z.to_nat deviceCount) rest with
      | Err e => Err e
      | Ok [] => Err "attest-all returned 0 device reports"%string
      | Ok ds => Ok ds
      end
  end.

Lemma parse_nonempty data : parseMultiGPUOutput data <> Ok [].
Proof.
  unfold parseMultiGPUOutput. destruct (take_uint32 data) as [[n rest]|]; [|done].
  by destruct (parse_devices _ rest) as [[|d ds]|].
Qed.

(** ** Quotes *)

Record QuoteResult := mkQuote { qr_report : bytes; qr_cert_chain : bytes; qr_aux : bytes; qr_gpus : list GPUDeviceReport }.

(** [tee.Provider]; a quote is [None] where the provider panics. *)
Record Provider := mkProvider {
  pv_name : string; pv_available : bool; pv_quote : bytes -> option (result string QuoteResult)
}.

Definition NameSNP : string := "snp".
Definition NameTDX : string := "tdx".
Definition NameSNPGPU : string := "snp-gpu".
Definition NameTDXGPU : string := "tdx-gpu".

(** The answer of a device: its bytes, an error, or a slice out of bounds. *)
Inductive device_result := DReport (b : bytes) | DErr (e : string) | DPanic.

Definition snpReportRespSize : Z := 4096 + 32.

(** What is made of the buffer the firmware has filled; the sum is one of 32 bits. *)
Definition snp_report (resp : bytes) : device_result :=
  let status := Uint32 (take 4 resp) in
  if negb (status =? 0)%Z then DErr "SNP_GET_REPORT firmware error"
  else
    let reportSize := Uint32 (take 4 (drop 4 resp)) in
    if (reportSize =? 0)%Z then DErr "SNP_GET_REPORT returned empty report (size=0)"
    else if (Z.of_nat (length resp) <? wrap32 (32 + reportSize))%Z then DErr "SNP_GET_REPORT report size exceeds response buffer"
    else if (wrap32 (32 + reportSize) <? 32)%Z then DPanic
    else DReport (take (Z.to_nat (wrap32 (32 + reportSize) - 32)) (drop 32 resp)).

Definition tdxReportSize : nat := 1024.

(** What is made of the structure the kernel has filled. *)
Definition tdx_report (tdreport : bytes) : device_result :=
  if forallb (fun b => (b =? 0)%Z) (take 64 tdreport) then DErr "TDX report appears empty (all zeros in first 64 bytes)"
  else DReport tdreport.

Section Sidecar.
(** The device files and their [ioctl]s: an error, or what they leave in the buffer. *)
Context (ioctl : string -> bytes -> result string bytes).

Definition device_quote (parse : bytes -> device_result) (path : string) (reportData : bytes) : option (result string QuoteResult) :=
  match ioctl path reportData with
  | Err e => Some (Err e)
  | Ok resp => match parse resp with
               | DReport r => Some (Ok (mkQuote r [] [] []))
               | DErr e => Some (Err e)
               | DPanic => None
               end
  end.

(** The directory of [configfs]: the report for some input, with the auxiliary blob. *)
Context (configfs : bytes -> result string (bytes * option bytes)).

Definition configfs_GetQuote (reportData : bytes) : option (result string QuoteResult) :=
  Some match configfs reportData with
       | Err e => Err e
       | Ok (report, aux) => Ok (mkQuote report [] (default [] aux) [])
       end.

(** [provider] is what the probe read, if it could. *)
Definition configfs_Name (provider : option string) : string :=
  match provider with Some p => if String.eqb p "tdx_guest" then NameTDX else NameSNP | None => NameSNP end.

(** [ensureMount], done once: whether the driver is there before and after the set-up, and the
    set-up's error. *)
Definition ensureMount (present : bool) (setup : option string) (present' : bool) : option string :=
  if present then None
  else match setup with
       | Some e => Some e
       | None => if present' then None else Some "nvidia-smi not found in guest rootfs at /mnt/guest/bin/nvidia-smi"%string
       end.

(** [smi] and [helper] are the outputs of [nvidia-smi] and of the helper, if it is there. *)
Definition probe (mounted : option string) (smi : result string string) (helper : option (result string string))
    : result string string :=
  match mounted with
  | Some e => Err ("guest rootfs: " +:+ e)
  | None =>
      match smi with
      | Err e => Err ("nvidia-smi conf-compute -f failed: " +:+ e)
      | Ok stdout =>
          if negb (contains stdout "ON") then Err ("GPU CC mode not enabled (output: " +:+ trim_space stdout +:+ ")")
          else match helper with
               | Some (Err e) => Err ("nvml_attestation probe failed: " +:+ e)
               | Some (Ok stdout2) => Ok ("GPU CC enabled: " +:+ trim_space stdout2)
               | None => Ok ("GPU CC enabled: " +:+ trim_space stdout)
               end
      end
  end.

(** The output of the helper for a nonce of 32 bytes. *)
Context (attest_all : bytes -> result string bytes).

Definition GetAllGPUAttestations (mounted : option string) (nonce : bytes) : result string (list GPUDeviceReport) :=
  match mounted with
  | Some e => Err e
  | None =>
      match attest_all (take 32 nonce) with
      | Err e => Err e
      | Ok data => if (length data <? 4)%nat then Err "attest-all output too short"%string else parseMultiGPUOutput data
      end
  end.

(** [GPUCompositeProvider]. *)
Definition composite (mounted : option string) (gpuAvailable : bool) (cpu : Provider) : Provider :=
  mkProvider (if String.eqb (pv_name cpu) NameTDX then NameTDXGPU else NameSNPGPU) (pv_available cpu && gpuAvailable)
    (fun reportData =>
       match pv_quote cpu reportData with
       | None => None
       | Some (Err e) => Some (Err ("cpu attestation: " +:+ e))
       | Some (Ok result) =>
           match GetAllGPUAttestations mounted reportData with
           | Err e => Some (Err ("gpu attestation: " +:+ e))
           | Ok gpus => Some (Ok (mkQuote (qr_report result) (qr_cert_chain result) (qr_aux result) gpus))
           end
       end).

(** ** Reports without a device *)

Context (sha256 : bytes -> bytes) (now : Z).

(** [copy(report[at:], src)]. *)
Definition put (at_ : nat) (src : bytes) (report : bytes) : bytes :=
  take at_ report ++ src ++ drop (at_ + length src) report.

Definition ascii_bytes (s : string) : bytes := map (fun c => Z.of_nat (nat_of_ascii c)) (list_ascii_of_string s).

Definition is_tdx (teeType : string) : bool := String.eqb teeType NameTDX || String.eqb teeType NameTDXGPU.

Definition buildMockReport (reportData : bytes) (teeType : string) : bytes :=
  let size := if is_tdx teeType then 1024%nat else 1184%nat in
  put 144 (take 32 (sha256 reportData)) (put 80 reportData (put 12 (PutUint32 (wrap32 now))
    (put 8 (ascii_bytes (if is_tdx teeType then "TDX" else "SNP") ++ [0%Z])
      (put 4 (PutUint32 (Z.of_nat size)) (put 0 (ascii_bytes "MOCK") (replicate size 0%Z)))))).

Definition buildMockGPUReport (nonce : bytes) (deviceIndex : Z) : bytes :=
  put 76 (take 32 (sha256 nonce)) (put 12 nonce (put 8 (PutUint32 (wrap32 deviceIndex))
    (put 4 (PutUint32 512) (put 0 (ascii_bytes "MGPU") (replicate 512 0%Z))))).

Definition mock_name (tee : string) (withGPU : bool) : string :=
  let base := if String.eqb tee "" then NameSNP else tee in
  if withGPU then (if String.eqb base NameTDX then NameTDXGPU else NameSNPGPU) else base.

Definition MockProvider (tee : string) (withGPU : bool) (gpuCount : Z) : Provider :=
  mkProvider (mock_name tee withGPU) true (fun reportData =>
    Some (Ok (mkQuote (buildMockReport reportData (mock_name tee withGPU)) [] []
      (if withGPU
       then map (fun i => mkGPUReport (wrap32 (Z.of_nat i)) (buildMockGPUReport reportData (Z.of_nat i)))
              (seq 0 (Z.to_nat (if (gpuCount <=? 0)%Z then 1 else gpuCount)))
       else [])))).

Definition IsMockReport (report : bytes) : bool :=
  (4 <=? length report)%nat && bool_decide (take 4 report = ascii_bytes "MOCK").

Definition ExtractMockReportData (report : bytes) : result string bytes :=
  if (length report <? 144)%nat then Err "report too short"%string else Ok (take 64 (drop 80 report)).

(** ** Choosing a provider *)

(** What is there: the directory, the devices, the GPUs. *)
Record surfaces := mkSurfaces {
  sf_configfs : option (option string); sf_sev : bool; sf_tdx : bool; sf_tdx_legacy : bool;
  sf_mounted : option string; sf_smi : result string string; sf_helper : option (result string string)
}.

Definition gpu_probe (sf : surfaces) : result string string := probe (sf_mounted sf) (sf_smi sf) (sf_helper sf).

Definition maybeWrapWithGPU (sf : surfaces) (cpu : Provider) : Provider :=
  match gpu_probe sf with Err _ => cpu | Ok _ => composite (sf_mounted sf) true cpu end.

(** The first surface of the CPU that is there. *)
Definition cpu_surface (sf : surfaces) : result string Provider :=
  match sf_configfs sf with
  | Some provider => Ok (mkProvider (configfs_Name provider) true configfs_GetQuote)
  | None =>
      if sf_sev sf then Ok (mkProvider NameSNP true (device_quote snp_report "/dev/sev-guest"))
      else if sf_tdx sf then Ok (mkProvider NameTDX true (device_quote tdx_report "/dev/tdx_guest"))
      else if sf_tdx_legacy sf then Ok (mkProvider NameTDX true (device_quote tdx_report "/dev/tdx-attest"))
      else Err "no TEE attestation surface found"%string
  end.

(** [mock]: the provider asked for by the environment. *)
Definition Detect (mock : option (string * bool * Z)) (sf : surfaces) : result string Provider :=
  match mock with
  | Some (tee, withGPU, gpuCount) => Ok (MockProvider tee withGPU gpuCount)
  | None => match cpu_surface sf with Err e => Err e | Ok cpu => Ok (maybeWrapWithGPU sf cpu) end
  end.

(** ** The server *)

Context (sha512 : bytes -> bytes) (base64 : string -> option bytes) (base64_encode : bytes -> string).

Definition ComputeBoundReportData (pubKeyDER nonce : bytes) : bytes := take 64 (sha512 (pubKeyDER ++ nonce)).

Record QuoteRequest := mkQuoteRequest { rq_nonce : string; rq_bind_tls : bool }.

Record QuoteResponse := mkQuoteResponse {
  rp_report : string; rp_cert_chain : string; rp_platform : string; rp_aux : string;
  rp_gpus : list (Z * string); rp_tls_bound : bool
}.

Definition StatusServiceUnavailable : Z := 503.

(** [req] is the decoded request, or the error of decoding it; no answer when the provider
    panics. *)
Definition quoteHandler (provider : Provider) (pubKeyDER : bytes) (req : result string QuoteRequest)
    : option (result (Z * string) QuoteResponse) :=
  match req with
  | Err e => Some (Err (StatusBadRequest, "invalid request: " +:+ e))
  | Ok req =>
      match base64 (rq_nonce req) with
      | None => Some (Err (StatusBadRequest, "nonce must be valid base64"%string))
      | Some nonce =>
          if negb (length nonce =? 64)%nat 
          then Some (Err (StatusBadRequest, "nonce must be exactly 64 bytes, got " +:+ FormatUint (Z.of_nat (length nonce))))
          else
            let reportData := if rq_bind_tls req then ComputeBoundReportData pubKeyDER nonce else nonce in
            match pv_quote provider reportData with
            | None => None
            | Some (Err e) => Some (Err (StatusServiceUnavailable, "failed to get attestation quote: " +:+ e))
            | Some (Ok report) =>
                Some (Ok (mkQuoteResponse (base64_encode (qr_report report)) (base64_encode (qr_cert_chain report)) (pv_name provider)
                      (base64_encode (qr_aux report)) (map (fun g => (gr_index g, base64_encode (gr_report g))) (qr_gpus report))
                      (rq_bind_tls req)))
            end
      end
  end.

(** The platform, whether there are GPUs, and the public key. *)
Definition infoHandler (provider : Provider) (pubKeyDER : bytes) : string * bool * string :=
  (pv_name provider, String.eqb (pv_name provider) NameSNPGPU || String.eqb (pv_name provider) NameTDXGPU,
   base64_encode pubKeyDER).

(** ** What a quote holds *)

Lemma surface_no_gpus sf cpu rd q : cpu_surface sf = Ok cpu -> pv_quote cpu rd = Some (Ok q) -> qr_gpus q = [].
Proof.
  assert (Hd : forall parse path, device_quote parse path rd = Some (Ok q) -> qr_gpus q = []).
  { intros parse path. unfold device_quote. destruct (ioctl path rd) as [resp|]; [|done].
    destruct (parse resp); [intros [= <-]|..]; done. }
  unfold cpu_surface. intros H Hq. destruct (sf_configfs sf) as [provider|].
  { injection H as <-. cbn [pv_quote] in Hq. unfold configfs_GetQuote in Hq.
    destruct (configfs rd) as [[report aux]|]; [by injection Hq as <-|done]. }
  destruct (sf_sev sf); [injection H as <-; eauto|]. destruct (sf_tdx sf); [injection H as <-; eauto|].
  destruct (sf_tdx_legacy sf); [injection H as <-; eauto|done].
Qed.

(** The report data of a request. *)
Definition report_data (pubKeyDER nonce : bytes) (bind : bool) : bytes :=
  if bind then ComputeBoundReportData pubKeyDER nonce else nonce.

Lemma quoteHandler_ok p pubKeyDER req resp : quoteHandler p pubKeyDER (Ok req) = Some (Ok resp) ->
  exists nonce q, base64 (rq_nonce req) = Some nonce /\ length nonce = 64%nat /\
    pv_quote p (report_data pubKeyDER nonce (rq_bind_tls req)) = Some (Ok q) /\
    rp_report resp = base64_encode (qr_report q) /\ rp_platform resp = pv_name p /\
    rp_gpus resp = map (fun g => (gr_index g, base64_encode (gr_report g))) (qr_gpus q) /\
    rp_tls_bound resp = rq_bind_tls req.
Proof.
  unfold quoteHandler, report_data. destruct (base64 (rq_nonce req)) as [nonce|]; [|done].
  destruct (Nat.eqb_spec (length nonce) 64); [|done]. cbn [negb].
  destruct (pv_quote p _) as [[q|]|] eqn:E; [|done|done]. intros [= <-]. exists nonce, q. done.
Qed.

(** C33: a quote served on real hardware is evidence for the tenant's 64 bytes, or for their hash with
    the key of the channel when the tenant asked for it: the CPU's report is the one its surface
    gives for them. When the probe of the GPUs at the start succeeded, there are reports of the
    GPUs for the first 32 of these bytes and the platform says so, or there is no quote. When
    the probe failed, which it also does with GPUs in confidential mode if the guest's file
    system or the helper fails it, the quote has no reports of GPUs and its platform is that of
    the CPU alone. *)
Theorem quote_evidence (sf : surfaces) (p : Provider) (pubKeyDER : bytes) (req : QuoteRequest) (resp : QuoteResponse) :
  Detect None sf = Ok p -> quoteHandler p pubKeyDER (Ok req) = Some (Ok resp) ->
  exists nonce cpu q, base64 (rq_nonce req) = Some nonce /\ length nonce = 64%nat /\ cpu_surface sf = Ok cpu /\
    let rd := report_data pubKeyDER nonce (rq_bind_tls req) in
    pv_quote cpu rd = Some (Ok q) /\ rp_report resp = base64_encode (qr_report q) /\ rp_tls_bound resp = rq_bind_tls req /\
    match gpu_probe sf with
    | Err _ => rp_gpus resp = [] /\ rp_platform resp = pv_name cpu
    | Ok _ => exists data gpus, attest_all (take 32 rd) = Ok data /\ parseMultiGPUOutput data = Ok gpus /\
                rp_gpus resp = map (fun g => (gr_index g, base64_encode (gr_report g))) gpus /\ rp_gpus resp <> [] /\
                rp_platform resp ∈ [NameSNPGPU; NameTDXGPU]
    end.
Proof.
  simpl. intros Hdet Hq. destruct (cpu_surface sf) as [cpu|] eqn:Hcpu; [|done]. injection Hdet as <-.
  apply quoteHandler_ok in Hq as (nonce & q & Hb & Hl & Hq & Hr & Hp & Hg & Ht). exists nonce, cpu.
  unfold maybeWrapWithGPU in Hq, Hp. destruct (gpu_probe sf) as [info|e].
  - cbn [composite pv_quote] in Hq. destruct (pv_quote cpu _) as [[q'|]|] eqn:Eq; [|done|done].
    unfold GetAllGPUAttestations in Hq. destruct (sf_mounted sf); [done|].
    destruct (attest_all _) as [data|] eqn:Ed; [|done]. destruct (length data <? 4)%nat; [done|].
    destruct (parseMultiGPUOutput data) as [gpus|] eqn:Eg; [|done]. injection Hq as <-.
    exists q'. repeat split; try done. exists data, gpus. repeat split; try done.
    + rewrite Hg. simpl. intros Hnil. apply map_eq_nil in Hnil as ->. by apply parse_nonempty in Eg.
    + rewrite Hp. simpl. destruct (String.eqb _ _); set_solver.
  - exists q. repeat split; try done. by rewrite Hg, (surface_no_gpus sf cpu _ q Hcpu Hq).
Qed.

(** GPUs in confidential mode whose helper fails the probe are left out for good: quotes are
    served without their reports. *)
Theorem failed_probe_hides_gpus (sf : surfaces) (p : Provider) (e stdout : string) (pubKeyDER : bytes)
    (req : QuoteRequest) (resp : QuoteResponse) :
  sf_smi sf = Ok stdout -> contains stdout "ON" = true -> sf_mounted sf <> None \/ sf_helper sf = Some (Err e) ->
  Detect None sf = Ok p -> quoteHandler p pubKeyDER (Ok req) = Some (Ok resp) -> rp_gpus resp = [].
Proof.
  intros Hsmi Hon Hfail Hdet Hq. simpl in Hdet. destruct (cpu_surface sf) as [cpu|] eqn:Hcpu; [|done].
  injection Hdet as <-. apply quoteHandler_ok in Hq as (nonce & q & _ & _ & Hq & _ & _ & Hg & _).
  unfold maybeWrapWithGPU in Hq. assert (exists err, gpu_probe sf = Err err) as [err E].
  { unfold gpu_probe, probe. destruct (sf_mounted sf); [by eexists|]. destruct Hfail as [?|Hh]; [done|].
    rewrite Hsmi, Hon, Hh. by eexists. }
  rewrite E in Hq. by rewrite Hg, (surface_no_gpus sf cpu _ q Hcpu Hq).
Qed.

End Sidecar.

(** ** The helper that collects the reports *)

(** What NVML answers for a report: whether there is a CEC report, the sizes it gives, and the
    buffers it filled. *)
Record nvml_report := mkNvmlReport {
  nr_cec_present : Z; nr_size : Z; nr_cec_size : Z; nr_buffer : bytes; nr_cec_buffer : bytes
}.

(** What NVML answers for a GPU: its handle, its chain of certificates with its size when the
    GPUs are listed and again when it is attested, and its report for a nonce. *)
Record gpu := mkGPU {
  gp_handle : bool; gp_listed : option (Z * bytes); gp_report : bytes -> option nvml_report; gp_cert : option (Z * bytes)
}.

(** [attest_device]: the bytes it writes, none when there is no report. [certs]: the library has
    the function for certificates. *)
Definition attest_device (certs : bool) (nonce : bytes) (dev : Z * gpu) : option bytes :=
  match gp_report dev.2 nonce with
  | None => None
  | Some r =>
      let reportSize := Z.min (nr_size r) 8192 in
      let cecSize := Z.min (nr_cec_size r) 4096 in
      Some (PutUint32 dev.1 ++ PutUint32 reportSize ++ take (Z.to_nat reportSize) (nr_buffer r) ++
        (if negb (nr_cec_present r =? 0)%Z && (0 <? cecSize)%Z
         then PutUint32 cecSize ++ take (Z.to_nat cecSize) (nr_cec_buffer r) else PutUint32 0) ++
        (if certs then
           match gp_cert dev.2 with
           | Some (size, chain) =>
               if (0 <? size)%Z then PutUint32 (Z.min size 5120) ++ take (Z.to_nat (Z.min size 5120)) chain else PutUint32 0
           | None => PutUint32 0
           end
         else PutUint32 0))
  end.

(** The GPUs with a handle and a chain of certificates, 64 at most, with their index. *)
Definition cc_capable (certs : bool) (g : gpu) : bool :=
  gp_handle g && certs && match gp_listed g with Some (size, _) => (0 <? size)%Z | None => false end.

Definition cc_devices (certs : bool) (gpus : list gpu) : list (Z * gpu) :=
  take 64 (filter (fun dev => cc_capable certs dev.2 = true) (imap (fun i g => (Z.of_nat i, g)) gpus)).

(** The command [attest-all] with a valid nonce: the exit code and what is on the standard
    output. [reports]: the library has the function for reports. A GPU that cannot be attested
    writes nothing, and the exit code tells. *)
Definition helper_attest_all (reports certs : bool) (gpus : list gpu) (nonce : bytes) : Z * bytes :=
  match gpus with
  | [] => (3%Z, [])
  | _ =>
      if negb reports then (4%Z, [])
      else match cc_devices certs gpus with
           | [] => (3%Z, [])
           | devs =>
               let outs := map (attest_device certs nonce) devs in
               (if forallb (fun o => bool_decide (is_Some o)) outs then 0%Z else 4%Z,
                PutUint32 (Z.of_nat (length devs)) ++ concat (omap id outs))
           end
  end.

(** ** Reports of the GPUs: what is written and what is read *)

(** The evidence of a device. *)
Record device := mkDevice { dv_index : Z; dv_report : bytes; dv_cec : bytes; dv_certs : bytes }.

Definition device_ok (d : device) : Prop :=
  is_uint 32 (dv_index d) /\ is_uint 32 (Z.of_nat (length (dv_report d))) /\
  is_uint 32 (Z.of_nat (length (dv_cec d))) /\ is_uint 32 (Z.of_nat (length (dv_certs d))).

(** A block of bytes preceded by its size. *)
Definition print_block (b : bytes) : bytes := PutUint32 (Z.of_nat (length b)) ++ b.

(** The output for some devices. *)
Definition print_device (d : device) : bytes :=
  PutUint32 (dv_index d) ++ print_block (dv_report d) ++ print_block (dv_cec d) ++ print_block (dv_certs d).

Definition attest_all_output (ds : list device) : bytes :=
  PutUint32 (Z.of_nat (length ds)) ++ concat (map print_device ds).

Definition device_report (d : device) : GPUDeviceReport :=
  mkGPUReport (dv_index d) (dv_report d ++ dv_cec d ++ dv_certs d).

Lemma take_uint32_print n rest : is_uint 32 n -> take_uint32 (PutUint32 n ++ rest) = Some (n, rest).
Proof.
  intros Hn. change (take_uint32 (PutUint32 n ++ rest)) with (Some (Uint32 (PutUint32 n ++ []), rest)).
  by rewrite Uint32_PutUint32.
Qed.

Lemma take_bytes_app (b rest : bytes) : take_bytes (Z.of_nat (length b)) (b ++ rest) = Some (b, rest).
Proof.
  unfold take_bytes. rewrite (proj2 (Z.ltb_ge _ _)) by (rewrite length_app; lia).
  by rewrite Nat2Z.id, take_app_length, drop_app_length.
Qed.

Lemma take_optional_app (b rest : bytes) :
  (if (0 <? Z.of_nat (length b))%Z then take_bytes (Z.of_nat (length b)) (b ++ rest) else Some ([], b ++ rest)) = Some (b, rest).
Proof. destruct b as [|x b]; [reflexivity|]. rewrite (proj2 (Z.ltb_lt _ _)) by (simpl; lia). apply take_bytes_app. Qed.

Lemma take_certs_print (b rest : bytes) :
  is_uint 32 (Z.of_nat (length b)) -> take_certs (print_block b ++ rest) = (b, rest).
Proof.
  intros Hb. unfold take_certs, print_block. rewrite <- app_assoc, take_uint32_print by done.
  pose proof (take_optional_app b rest) as E. destruct (0 <? _)%Z; [by rewrite E|by injection E as <- ->].
Qed.

(** What precedes the chain of certificates. *)
Definition print_evidence (d : device) : bytes := PutUint32 (dv_index d) ++ print_block (dv_report d) ++ print_block (dv_cec d).

Lemma parse_device_evidence d rest : device_ok d ->
  parse_device (print_evidence d ++ rest) =
  let '(certs, rest) := take_certs rest in Ok (mkGPUReport (dv_index d) (dv_report d ++ dv_cec d ++ certs), rest).
Proof.
  intros (Hi & Hr & Hc & _). unfold print_evidence, print_block, parse_device. rewrite <- !app_assoc.
  rewrite !take_uint32_print by done.
  rewrite take_bytes_app, take_uint32_print by done. by rewrite take_optional_app.
Qed.

Lemma parse_device_print d rest : device_ok d -> parse_device (print_device d ++ rest) = Ok (device_report d, rest).
Proof.
  intros Hd. replace (print_device d ++ rest) with (print_evidence d ++ print_block (dv_certs d) ++ rest)
    by (unfold print_device, print_evidence; by rewrite <- !app_assoc).
  rewrite parse_device_evidence, take_certs_print by apply Hd. reflexivity.
Qed.

Lemma parse_devices_print ds rest : Forall device_ok ds ->
  parse_devices (length ds) (concat (map print_device ds) ++ rest) = Ok (map device_report ds).
Proof.
  induction 1 as [|d ds Hd Hds IH]; [reflexivity|]. cbn [length map concat parse_devices].
  rewrite <- app_assoc, parse_device_print by done. by rewrite IH.
Qed.

Lemma parse_output (ds : list device) :
  ds <> [] -> is_uint 32 (Z.of_nat (length ds)) -> Forall device_ok ds ->
  parseMultiGPUOutput (attest_all_output ds) = Ok (map device_report ds).
Proof.
  intros Hne Hn Hds. unfold parseMultiGPUOutput, attest_all_output. rewrite take_uint32_print by done.
  rewrite Nat2Z.id, <- (app_nil_r (concat _)), parse_devices_print by done. by destruct ds.
Qed.

(** What NVML gives of a device that is attested: its report and, if present, its CEC report and
    its chain of certificates, each cut to the buffer it is in. *)
Definition nvml_evidence (certs : bool) (nonce : bytes) (dev : Z * gpu) : option device :=
  (fun r => mkDevice dev.1 (take (Z.to_nat (nr_size r)) (nr_buffer r))
     (if decide (nr_cec_present r = 0%Z) then [] else take (Z.to_nat (nr_cec_size r)) (nr_cec_buffer r))
     (if certs then from_option (fun c => take (Z.to_nat c.1) c.2) [] (gp_cert dev.2) else []))
  <$> gp_report dev.2 nonce.

(** The buffers have the sizes the structures of NVML give them, and sizes are unsigned. *)
Definition gpu_wf (g : gpu) : Prop :=
  (forall nonce r, gp_report g nonce = Some r -> (0 <= nr_size r)%Z /\ (0 <= nr_cec_size r)%Z /\
     length (nr_buffer r) = Z.to_nat 8192 /\ length (nr_cec_buffer r) = Z.to_nat 4096) /\
  (forall size chain, gp_cert g = Some (size, chain) -> (0 <= size)%Z /\ length chain = Z.to_nat 5120).

(** A block that is cut to its buffer. *)
Lemma clamped_block (size max : Z) (buf : bytes) :
  (0 <= size)%Z -> (0 <= max)%Z -> length buf = Z.to_nat max ->
  PutUint32 (Z.min size max) ++ take (Z.to_nat (Z.min size max)) buf = print_block (take (Z.to_nat size) buf) /\
  (Z.of_nat (length (take (Z.to_nat size) buf)) <= max)%Z.
Proof.
  intros Hs Hm Hb. assert (take (Z.to_nat (Z.min size max)) buf = take (Z.to_nat size) buf) as Ht.
  { destruct (Z.leb_spec size max); [by rewrite Z.min_l|].
    rewrite Z.min_r by lia. rewrite (take_ge buf (Z.to_nat max)), take_ge by (rewrite Hb; lia). done. }
  unfold print_block. rewrite Ht, length_take, Hb.
  assert (Z.of_nat (Z.to_nat size `min` Z.to_nat max)%nat = Z.min size max) as -> by lia. split; [done|lia].
Qed.

(** A block of no bytes. *)
Lemma empty_block (size : Z) (buf : bytes) :
  (size <= 0)%Z -> PutUint32 0 = print_block (take (Z.to_nat size) buf) /\ length (take (Z.to_nat size) buf) = 0%nat.
Proof. intros Hs. by replace (Z.to_nat size) with 0%nat by lia. Qed.

Lemma attest_device_prints certs nonce (dev : Z * gpu) :
  gpu_wf dev.2 -> is_uint 32 dev.1 ->
  attest_device certs nonce dev = print_device <$> nvml_evidence certs nonce dev /\
  (forall d, nvml_evidence certs nonce dev = Some d -> device_ok d).
Proof.
  intros [Hr Hc] Hi. unfold attest_device, nvml_evidence. destruct (gp_report dev.2 nonce) as [r|] eqn:E; [|done].
  destruct (Hr nonce r E) as (H1 & H2 & H3 & H4). clear Hr.
  cbn [fmap option_fmap option_map].
  destruct (clamped_block (nr_size r) 8192 (nr_buffer r) H1 ltac:(lia) H3) as [B1 L1].
  assert ((if negb (nr_cec_present r =? 0)%Z && (0 <? Z.min (nr_cec_size r) 4096)%Z
           then PutUint32 (Z.min (nr_cec_size r) 4096) ++ take (Z.to_nat (Z.min (nr_cec_size r) 4096)) (nr_cec_buffer r)
           else PutUint32 0) =
          print_block (if decide (nr_cec_present r = 0%Z) then [] else take (Z.to_nat (nr_cec_size r)) (nr_cec_buffer r)) /\
          (Z.of_nat (length (if decide (nr_cec_present r = 0%Z) then [] else take (Z.to_nat (nr_cec_size r)) (nr_cec_buffer r))) <= 4096)%Z)
    as [B2 L2].
  { destruct (decide (nr_cec_present r = 0%Z)) as [E0|E0]; [rewrite E0; split; [done|simpl; lia]|].
    rewrite (proj2 (Z.eqb_neq _ _) E0). cbn [negb andb]. destruct (Z.ltb_spec 0 (Z.min (nr_cec_size r) 4096)).
    - by apply clamped_block.
    - destruct (empty_block (nr_cec_size r) (nr_cec_buffer r)) as [-> ->]; [lia|]. split; [done|lia]. }
  set (chain := if certs then from_option (fun c : Z * bytes => take (Z.to_nat c.1) c.2) [] (gp_cert dev.2) else []).
  assert ((if certs then match gp_cert dev.2 with
             | Some (size, chain) =>
                 if (0 <? size)%Z then PutUint32 (Z.min size 5120) ++ take (Z.to_nat (Z.min size 5120)) chain else PutUint32 0
             | None => PutUint32 0 end else PutUint32 0) = print_block chain /\ (Z.of_nat (length chain) <= 5120)%Z) as [B3 L3].
  { unfold chain. destruct certs; [|split; [done|simpl; lia]]. destruct (gp_cert dev.2) as [[size c]|] eqn:Ec; [|split; [done|simpl; lia]].
    destruct (Hc size c eq_refl) as [Hs Hl]. simpl. destruct (Z.ltb_spec 0 size); [by apply clamped_block|].
    destruct (empty_block size c) as [-> ->]; [lia|]. split; [done|lia]. }
  split.
  - rewrite B2, B3. f_equal. unfold print_device. cbn [dv_index dv_report dv_cec dv_certs]. rewrite <- B1, <- (assoc_L (++)). done.
  - intros d [= <-]. unfold device_ok, is_uint in *. cbn [dv_index dv_report dv_cec dv_certs]. repeat split; try lia; try apply Hi.
Qed.

Lemma cc_devices_wf certs gpus :
  Forall gpu_wf gpus -> (Z.of_nat (length gpus) < 2 ^ 32)%Z ->
  Forall (fun dev => gpu_wf dev.2 /\ is_uint 32 dev.1) (cc_devices certs gpus) /\
  (length (cc_devices certs gpus) <= 64)%nat.
Proof.
  intros Hg Hn. unfold cc_devices. split; [|rewrite length_take; lia].
  apply list.Forall_take, list.Forall_forall. intros dev [_ Hin]%list_elem_of_filter.
  apply elem_of_lookup_imap in Hin as (i & g & -> & Hi). simpl. split; [by eapply list.Forall_lookup_1|].
  apply lookup_lt_Some in Hi. unfold is_uint. lia.
Qed.

(** C40: when the helper's [attest-all] succeeds, what the sidecar reads from its output are the
    reports of the GPUs in confidential mode the helper found, in its order and under their
    index: of each its attestation report with its CEC report, if it has one, and its chain
    of certificates, if it has one, as NVML gave them, cut to the buffers of NVML's structures.
    This is the output of the helper of this repository, which writes the size of the chain
    even when there is none; of an output without that field, as older helpers write it, the
    reports do not come out right. Stated for fewer than [2 ^ 32] GPUs. *)
Theorem gpu_reports_roundtrip (reports certs : bool) (gpus : list gpu) (nonce out : bytes) :
  Forall gpu_wf gpus -> (Z.of_nat (length gpus) < 2 ^ 32)%Z ->
  helper_attest_all reports certs gpus nonce = (0%Z, out) ->
  exists ds, ds <> [] /\
    Forall2 (fun dev d => nvml_evidence certs nonce dev = Some d) (cc_devices certs gpus) ds /\
    parseMultiGPUOutput out = Ok (map device_report ds).
Proof.
  intros Hg Hn. destruct (cc_devices_wf certs gpus Hg Hn) as [Hwf Hlen]. unfold helper_attest_all.
  destruct gpus as [|g gpus]; [done|]. destruct (negb reports); [done|].
  set (devs := cc_devices certs (g :: gpus)) in *. destruct devs as [|dv devs'] eqn:Ed; [done|]. rewrite <- Ed in *.
  destruct (forallb _ _) eqn:Hall; [|done]. intros [= <-].
  assert (exists ds, Forall2 (fun dev d => nvml_evidence certs nonce dev = Some d) devs ds /\ Forall device_ok ds /\
    concat (omap id (map (attest_device certs nonce) devs)) = concat (map print_device ds)) as (ds & H2 & Hok & Hc).
  { clear Ed Hlen. revert Hwf Hall. generalize devs. intros l. induction l as [|dev l IH]; intros Hwf Hall; [by exists []|].
    apply list.Forall_cons in Hwf as [[Hw Hi] Hwf]. cbn [map forallb] in Hall. apply andb_true_iff in Hall as [H1 Hall].
    apply bool_decide_eq_true in H1 as [b Hb]. destruct (attest_device_prints certs nonce dev Hw Hi) as [Hp Ho].
    destruct (IH Hwf Hall) as (ds & F & O & C). rewrite Hb in Hp. symmetry in Hp. apply fmap_Some in Hp as (d & Hd & ->).
    exists (d :: ds). split; [by constructor|]. split; [constructor; [by apply Ho|done]|].
    cbn [map]. rewrite Hb. cbn [omap list_omap id concat map]. by rewrite <- C. }
  pose proof (Forall2_length H2) as Hl. exists ds. split; [|split; [done|]].
  - intros ->. rewrite Ed in H2. by inversion H2.
  - rewrite Hc, Hl. apply parse_output; [intros ->; rewrite Ed in H2; by inversion H2| |done].
    unfold is_uint. lia.
Qed.

(** The output of a helper that sends no chain of certificates is read wrongly when another
    device follows: the index of that device is taken for a size, and as many bytes of it go to
    the first device. *)
Theorem missing_certs_misread (d : device) (i : Z) (rest : bytes) :
  device_ok d -> is_uint 32 i -> (0 < i <= Z.of_nat (length rest))%Z ->
  parse_device (print_evidence d ++ PutUint32 i ++ rest) =
  Ok (mkGPUReport (dv_index d) (dv_report d ++ dv_cec d ++ take (Z.to_nat i) rest), drop (Z.to_nat i) rest).
Proof.
  intros Hd Hi Hlen. rewrite parse_device_evidence by done. unfold take_certs. rewrite take_uint32_print by done.
  rewrite (proj2 (Z.ltb_lt 0 i)) by lia. unfold take_bytes. by rewrite (proj2 (Z.ltb_ge _ _)) by lia.
Qed.

Lemma take_uint32_length rest n rest' : take_uint32 rest = Some (n, rest') -> length rest = (4 + length rest')%nat.
Proof.
  unfold take_uint32. destruct (Nat.ltb_spec (length rest) 4); [done|]. intros [= _ <-]. rewrite length_drop. lia.
Qed.

Lemma take_bytes_length n rest b rest' :
  take_bytes n rest = Some (b, rest') -> length rest = (length b + length rest')%nat.
Proof.
  unfold take_bytes. destruct (_ <? _)%Z; [done|]. intros [= <- <-]. rewrite <- length_app. by rewrite take_drop.
Qed.

Lemma take_certs_length rest b rest' : take_certs rest = (b, rest') -> (length b + length rest' <= length rest)%nat.
Proof.
  unfold take_certs. destruct (take_uint32 rest) as [[n r]|] eqn:E; [|intros [= <- <-]; simpl; lia].
  apply take_uint32_length in E. destruct (0 <? n)%Z; [|intros [= <- <-]; simpl; lia].
  destruct (take_bytes n r) as [[c r']|] eqn:E'; intros [= <- <-]; [|simpl; lia]. apply take_bytes_length in E'. lia.
Qed.

Lemma parse_device_length rest d rest' :
  parse_device rest = Ok (d, rest') -> (12 + length (gr_report d) + length rest' <= length rest)%nat.
Proof.
  unfold parse_device. intros H.
  destruct (take_uint32 rest) as [[i r1]|] eqn:E1; [|done]. apply take_uint32_length in E1.
  destruct (take_uint32 r1) as [[n r2]|] eqn:E2; [|done]. apply take_uint32_length in E2.
  destruct (take_bytes n r2) as [[b r3]|] eqn:E3; [|done]. apply take_bytes_length in E3.
  destruct (take_uint32 r3) as [[m r4]|] eqn:E4; [|done]. apply take_uint32_length in E4.
  destruct (if (0 <? m)%Z then _ else _) as [[cec r5]|] eqn:E5; [|done].
  assert (length r4 = (length cec + length r5)%nat).
  { destruct (0 <? m)%Z; [by apply take_bytes_length in E5|by injection E5 as <- <-]. }
  destruct (take_certs r5) as [certs r6] eqn:E6. apply take_certs_length in E6. injection H as <- <-.
  simpl. rewrite !length_app. lia.
Qed.

(** The bytes of the output the reports come from: their headers and what they hold. *)
Definition read_bytes (ds : list GPUDeviceReport) : nat := foldr (fun d n => 12 + length (gr_report d) + n)%nat 0%nat ds.

(** However the helper's output is laid out, the reports read from it are no longer than it:
    the headers of each device and its report fit in it. *)
Theorem reports_within_output (data : bytes) (ds : list GPUDeviceReport) :
  parseMultiGPUOutput data = Ok ds ->
  (4 + read_bytes ds <= length data)%nat /\ ds <> [].
Proof.
  unfold parseMultiGPUOutput. intros H. destruct (take_uint32 data) as [[n rest]|] eqn:E; [|done].
  apply take_uint32_length in E. destruct (parse_devices (Z.to_nat n) rest) as [ds'|] eqn:Ep; [|done].
  assert (Hsum : forall k r l, parse_devices k r = Ok l -> (read_bytes l <= length r)%nat).
  { induction k as [|k IH]; intros r l Hl; cbn [parse_devices] in Hl; [injection Hl as <-; simpl; lia|].
    destruct (parse_device r) as [[d r']|] eqn:Ed; [|done]. apply parse_device_length in Ed.
    destruct (parse_devices k r') as [l'|] eqn:El; [|done]. injection Hl as <-. specialize (IH _ _ El). change (12 + length (gr_report d) + read_bytes l' <= length r)%nat. lia. }
  specialize (Hsum _ _ _ Ep). destruct ds' as [|d ds']; [done|]. injection H as <-. split; [lia|done].
Qed.

(** ** Reports of the devices *)

Lemma Uint32_range b : Forall (is_uint 8) b -> is_uint 32 (Uint32 b).
Proof.
  unfold is_uint. intros Hb. destruct b as [|b0 [|b1 [|b2 [|b3 b]]]]; simpl; try lia.
  repeat (apply list.Forall_cons_1 in Hb as [? Hb]). lia.
Qed.

(** The report of the firmware is given as it is when it fits in the buffer, and refused when
    it does not; but a size that overflows the check of 32 bits makes the server panic. *)
Theorem snp_report_exact (resp : bytes) :
  Z.of_nat (length resp) = snpReportRespSize -> Forall (is_uint 8) resp ->
  Uint32 (take 4 resp) = 0%Z -> Uint32 (take 4 (drop 4 resp)) <> 0%Z ->
  let size := Uint32 (take 4 (drop 4 resp)) in
  snp_report resp =
  if (size <=? 4096)%Z then DReport (take (Z.to_nat size) (drop 32 resp))
  else if (size <? 2 ^ 32 - 32)%Z then DErr "SNP_GET_REPORT report size exceeds response buffer"
  else DPanic.
Proof.
  intros Hlen Hb Hst Hne size. assert (Hs : is_uint 32 size) by (apply Uint32_range; by apply list.Forall_take, list.Forall_drop).
  unfold is_uint in Hs. unfold snp_report. fold size. rewrite Hst, Hlen. cbn [Z.eqb negb]. rewrite (proj2 (Z.eqb_neq size 0) Hne).
  unfold snpReportRespSize, wrap32, wrap in *.
  destruct (Z.ltb_spec size (2 ^ 32 - 32)).
  - rewrite Z.mod_small by lia. destruct (Z.leb_spec size 4096).
    + rewrite (proj2 (Z.ltb_ge _ _)), (proj2 (Z.ltb_ge (32 + size) 32)) by lia. by replace (32 + size - 32)%Z with size by lia.
    + by rewrite (proj2 (Z.ltb_lt _ _)) by lia.
  - replace ((32 + size) mod 2 ^ 32)%Z with (32 + size - 2 ^ 32)%Z by (rewrite <- (Z.mod_unique _ (2 ^ 32) 1 (32 + size - 2 ^ 32)); lia).
    rewrite (proj2 (Z.ltb_ge _ _)), (proj2 (Z.ltb_lt _ 32)), (proj2 (Z.leb_gt _ _)) by lia. reflexivity.
Qed.

(** ** Reports without a device *)

Lemma length_put at_ src r : (at_ + length src <= length r)%nat -> length (put at_ src r) = length r.
Proof. intros H. unfold put. rewrite !length_app, length_take, length_drop. lia. Qed.

Lemma put_read at_ src r : (at_ + length src <= length r)%nat -> take (length src) (drop at_ (put at_ src r)) = src.
Proof.
  intros H. unfold put. rewrite drop_app_le by (rewrite length_take; lia). rewrite drop_ge by (rewrite length_take; lia).
  cbn [app]. apply take_app_length.
Qed.

Lemma put_before at_ src r a k : (a + k <= at_)%nat -> (at_ <= length r)%nat ->
  take k (drop a (put at_ src r)) = take k (drop a r).
Proof.
  intros Hk Hr. unfold put. rewrite drop_app_le by (rewrite length_take; lia).
  rewrite take_app_le by (rewrite length_drop, length_take; lia). rewrite skipn_firstn_comm, firstn_firstn. f_equal. lia.
Qed.

(** The reports made up without hardware can be told from real ones, and give back the report
    data they were asked for, whatever the platform and the time. *)
Theorem mock_report_roundtrip (sha256 : bytes -> bytes) (now : Z) (reportData : bytes) (teeType : string) :
  (forall b, length (sha256 b) = 32%nat) -> length reportData = 64%nat ->
  let report := buildMockReport sha256 now reportData teeType in
  ExtractMockReportData report = Ok reportData /\ IsMockReport report = true /\
  length report = if is_tdx teeType then 1024%nat else 1184%nat.
Proof.
  intros Hsha Hrd report. subst report. unfold buildMockReport. set (size := if is_tdx teeType then 1024%nat else 1184%nat).
  assert (Hsize : (1024 <= size)%nat) by (unfold size; destruct (is_tdx teeType); lia). clearbody size.
  assert (Htag : length (ascii_bytes (if is_tdx teeType then "TDX" else "SNP") ++ [0%Z]) = 4%nat) by (by destruct (is_tdx teeType)).
  assert (Hh : length (take 32 (sha256 reportData)) = 32%nat) by (by rewrite length_take, Hsha).
  set (r0 := put 0 _ _). assert (L0 : length r0 = size) by (unfold r0; rewrite length_put; rewrite length_replicate; simpl; lia).
  set (r1 := put 4 _ r0). assert (L1 : length r1 = size) by (unfold r1; rewrite length_put; rewrite L0; simpl; lia).
  set (r2 := put 8 _ r1). assert (L2 : length r2 = size) by (unfold r2; rewrite length_put, L1; rewrite ?Htag, ?L1; lia).
  set (r3 := put 12 _ r2). assert (L3 : length r3 = size) by (unfold r3; rewrite length_put; rewrite L2; simpl; lia).
  set (r4 := put 80 _ r3). assert (L4 : length r4 = size) by (unfold r4; rewrite length_put; rewrite ?L3, ?Hrd; lia).
  assert (R4 : take 64 (drop 80 r4) = reportData) by (pose proof (put_read 80 reportData r3) as P; rewrite Hrd in P; apply P; lia).
  assert (L5 : length (put 144 (take 32 (sha256 reportData)) r4) = size) by (rewrite length_put; rewrite ?L4, ?Hh; lia).
  unfold ExtractMockReportData, IsMockReport. rewrite L5, put_before by lia. rewrite R4.
  rewrite (proj2 (Nat.ltb_ge _ _)), (proj2 (Nat.leb_le 4 size)) by lia. repeat split.
Qed.

Module SidecarExamples.

Definition ex_devices : list device := [mkDevice 0 [1; 2; 3]%Z [] [65]%Z; mkDevice 1 [4; 5]%Z [6]%Z []].

Lemma ex_devices_ok : Forall device_ok ex_devices.
Proof. repeat constructor; vm_compute; congruence. Qed.

(** Two GPUs in confidential mode and one that is not between them; the second has a CEC report
    and, the second time, no certificates. *)
Definition ex_buffer (n : Z) (b : bytes) : bytes := b ++ replicate (Z.to_nat n - length b) 0%Z.
Definition ex_gpu (report cec chain : bytes) (present : Z) (cert : option (Z * bytes)) : gpu :=
  mkGPU true (Some (5%Z, chain))
    (fun _ => Some (mkNvmlReport present (Z.of_nat (length report)) (Z.of_nat (length cec)) (ex_buffer 8192 report) (ex_buffer 4096 cec)))
    cert.
Definition ex_gpus : list gpu :=
  [ex_gpu [1; 2; 3]%Z [] [] 0 (Some (1%Z, ex_buffer 5120 [65]%Z));
   mkGPU true None (fun _ => None) None;
   ex_gpu [4; 5]%Z [6]%Z [] 1 None].

Lemma length_ex_buffer n b : (Z.of_nat (length b) <= n)%Z -> length (ex_buffer n b) = Z.to_nat n.
Proof. intros H. unfold ex_buffer. rewrite length_app, length_replicate. lia. Qed.

Lemma ex_gpu_wf report cec chain present cert :
  (Z.of_nat (length report) <= 8192)%Z -> (Z.of_nat (length cec) <= 4096)%Z ->
  (forall size c, cert = Some (size, c) -> (0 <= size)%Z /\ length c = Z.to_nat 5120) ->
  gpu_wf (ex_gpu report cec chain present cert).
Proof.
  intros Hr Hc Hcert. split; [|exact Hcert]. intros nonce r E. injection E as <-.
  cbn [nr_size nr_cec_size nr_buffer nr_cec_buffer]. rewrite !length_ex_buffer by done. split_and!; [lia..|done|done].
Qed.

Lemma ex_gpus_wf : Forall gpu_wf ex_gpus.
Proof.
  constructor; [|constructor; [|constructor; [|constructor]]].
  - apply ex_gpu_wf; [done..|]. intros size c E. injection E as <- <-. split; [lia|by apply length_ex_buffer].
  - by split.
  - by apply ex_gpu_wf.
Qed.

Lemma gpu_reports_roundtrip_witness :
  exists out, helper_attest_all true true ex_gpus [] = (0%Z, out) /\
    parseMultiGPUOutput out = Ok [mkGPUReport 0 [1; 2; 3; 65]%Z; mkGPUReport 2 [4; 5; 6]%Z].
Proof.
  eexists. split; [vm_compute; reflexivity|].
  destruct (gpu_reports_roundtrip true true ex_gpus [] _ ex_gpus_wf ltac:(vm_compute; reflexivity) ltac:(vm_compute; reflexivity))
    as (ds & _ & H2 & Hp).
  etransitivity; [exact Hp|]. change (cc_devices true ex_gpus) with [(0%Z, default (mkGPU false None (fun _ => None) None) (ex_gpus !! 0%nat));
    (2%Z, default (mkGPU false None (fun _ => None) None) (ex_gpus !! 2%nat))] in H2.
  inversion H2 as [|x d l ds' E1 F1]; subst. inversion F1 as [|x' d' l' ds'' E2 F2]; subst. inversion F2; subst.
  vm_compute in E1, E2. injection E1 as <-. injection E2 as <-. reflexivity.
Defined.

Lemma reports_within_output_witness :
  (4 + read_bytes [mkGPUReport 0 [1; 2; 3; 65]%Z; mkGPUReport 1 [4; 5; 6]%Z] <= length (attest_all_output ex_devices))%nat.
Proof. exact (proj1 (reports_within_output (attest_all_output ex_devices) _ eq_refl)). Defined.

(** Without certificates, the second device's index takes the first byte of its report's size. *)
Lemma missing_certs_misread_witness :
  parse_device (print_evidence (mkDevice 0 [1; 2; 3]%Z [] []) ++ PutUint32 1 ++ [2; 0; 0; 0; 4; 5]%Z) =
  Ok (mkGPUReport 0 [1; 2; 3; 2]%Z, [0; 0; 0; 4; 5]%Z).
Proof.
  refine (missing_certs_misread (mkDevice 0 [1; 2; 3]%Z [] []) 1 [2; 0; 0; 0; 4; 5]%Z _ _ _);
    vm_compute; repeat split; congruence.
Defined.

(** A report of one byte, and a size that overflows. *)
Definition ex_resp (size : Z) : bytes := PutUint32 0 ++ PutUint32 size ++ replicate 24 0%Z ++ [7]%Z ++ replicate 4095 0%Z.

Lemma ex_resp_bytes size : Forall (is_uint 8) (ex_resp size).
Proof.
  assert (Hp : forall n, Forall (is_uint 8) (PutUint32 n)) by (intros n; repeat constructor; apply Z.mod_pos_bound; lia).
  unfold ex_resp. rewrite !list.Forall_app, !list.Forall_cons. unfold is_uint at 3 4 5.
  repeat split; auto; try lia; try apply list.Forall_replicate; unfold is_uint; lia || constructor.
Qed.

Lemma snp_report_exact_witness : snp_report (ex_resp 1) = DReport [7]%Z /\ snp_report (ex_resp (2 ^ 32 - 32)) = DPanic.
Proof.
  split.
  - exact (snp_report_exact (ex_resp 1) eq_refl (ex_resp_bytes 1) eq_refl ltac:(done)).
  - exact (snp_report_exact (ex_resp (2 ^ 32 - 32)) eq_refl (ex_resp_bytes _) eq_refl ltac:(done)).
Defined.

Definition zero_hash : bytes -> bytes := fun _ => replicate 32 0%Z.

Lemma mock_report_roundtrip_witness :
  ExtractMockReportData (buildMockReport zero_hash 1700000000 (replicate 64 9%Z) NameTDX) = Ok (replicate 64 9%Z).
Proof. exact (proj1 (mock_report_roundtrip zero_hash 1700000000 (replicate 64 9%Z) NameTDX (fun _ => eq_refl) eq_refl)). Defined.

(** An SNP guest with a GPU: the firmware gives a report of one byte, the helper one device. *)
Definition ex_surfaces : surfaces := mkSurfaces None true false false None (Ok "CC status: ON"%string) None.
Definition ex_ioctl (_ : string) (_ : bytes) : result string bytes := Ok (ex_resp 1).
Definition ex_configfs (_ : bytes) : result string (bytes * option bytes) := Err "no configfs"%string.
Definition ex_attest_all (_ : bytes) : result string bytes := Ok (attest_all_output [mkDevice 0 [1]%Z [] []]).
Definition ex_decode (_ : string) : option bytes := Some (replicate 64 9%Z).
Definition ex_encode (b : bytes) : string := FormatUint (foldr Z.add 0%Z b).
Definition ex_provider : Provider :=
  composite ex_attest_all None true (mkProvider NameSNP true (device_quote ex_ioctl snp_report "/dev/sev-guest")).
Definition ex_request : QuoteRequest := mkQuoteRequest "nonce" false.
Definition ex_answer : QuoteResponse := mkQuoteResponse "7" "0" "snp-gpu" "0" [(0%Z, "1"%string)] false.

Lemma quote_evidence_witness : rp_gpus ex_answer <> [].
Proof.
  destruct (quote_evidence ex_ioctl ex_configfs ex_attest_all zero_hash 0 zero_hash ex_decode ex_encode
    ex_surfaces ex_provider [] ex_request ex_answer eq_refl eq_refl) as (nonce & cpu & q & _ & _ & _ & _ & _ & _ & H).
  destruct H as (data & gpus & _ & _ & _ & H & _). exact H.
Defined.

(** The same guest, with a helper that fails: its quotes have no report of the GPU. *)
Definition ex_failing : surfaces :=
  mkSurfaces None true false false None (Ok "CC status: ON"%string) (Some (Err "exit status 2"%string)).

Lemma failed_probe_hides_gpus_witness :
  exists p resp, Detect ex_ioctl ex_configfs ex_attest_all zero_hash 0 None ex_failing = Ok p /\
    quoteHandler zero_hash ex_decode ex_encode p [] (Ok ex_request) = Some (Ok resp) /\ rp_gpus resp = [].
Proof.
  eexists _, _. split; [reflexivity|]. split; [vm_compute; reflexivity|].
  exact (failed_probe_hides_gpus ex_ioctl ex_configfs ex_attest_all zero_hash 0 zero_hash ex_decode ex_encode
    ex_failing _ "exit status 2" "CC status: ON" [] ex_request _ eq_refl eq_refl (or_intror eq_refl) eq_refl
    ltac:(vm_compute; reflexivity)).
Defined.

End SidecarExamples.
