(* ===== verification/CertIssuer.v ===== *)
(** * The issuer of the provider's certificates

    Model of [tools/certissuer/]: the storage of the ACME account and of the certificates
    ([storage.go]), the configuration ([config.go]) and the service that obtains the
    certificates of the provider's domains and renews them ([lego.go]). The ACME client, PEM,
    X.509, JSON and IDNA are parameters; so are the outcomes of the file system's calls, a file
    that is opened for writing and not written included. [ArchiveDomain], which nothing calls,
    is left out. Times are in seconds. *)

From Stdlib Require Import ZArith Lia Ascii String Sorting.
From stdpp Require Import base gmap list strings pretty sorting tactics.
From S2P Require Import Prelude Names.

(** ** Files *)

(** Errors of the file system: the file does not exist, or another error. *)
Inductive file_error := NotExist | FileError (e : string).

Definition file_error_text (e : file_error) : string :=
  match e with NotExist => "file does not exist" | FileError e => e end.

(** The outcome of [os.WriteFile]: written, failed before the file was opened, or failed with
    part of it written. *)
Inductive write_outcome := Written | NotOpened (e : string) | PartlyWritten (part : string) (e : string).

(** The directory of certificates by the names of the files in it, the account's file and the
    file of its key. *)
Record cert_disk := mkDisk { dk_certs : gmap string string; dk_account : option string; dk_key : option string }.

Definition set_certs (d : cert_disk) (m : gmap string string) : cert_disk := mkDisk m (dk_account d) (dk_key d).

Definition extIssuer : string := ".issuer.crt".
Definition extCert : string := ".crt".
Definition extKey : string := ".key".
Definition extPem : string := ".pem".
Definition extPfx : string := ".pfx".
Definition extResource : string := ".json".

(** [certificate.Resource]: what goes into the JSON file, and the rest. *)
Record ResourceMeta := mkMeta { rm_domain : string; rm_url : string; rm_stable_url : string }.
Record Resource := mkResource {
  re_meta : ResourceMeta; re_key : option string; re_cert : string; re_issuer : option string
}.

Record ResourcesInfo := mkInfo {
  ri_domain : string; ri_cert : string; ri_issuer : string; ri_key : string; ri_pem : string; ri_pfx : string
}.

Record StorageConfig := mkStorageConfig { sc_filename : string; sc_pem : bool; sc_pfx : bool }.

(** IDNA, the JSON of a resource and the encoding to PFX. *)
Class CertCodec := {
  idna_ToASCII : string -> result string string;
  marshal_resource : ResourceMeta -> string;
  unmarshal_resource : string -> result string ResourceMeta;
  pfx_bytes : Resource -> result string string
}.

Section Storage.
Context `{CertCodec}.

Definition replace_char (c : ascii) : ascii :=
  if Ascii.eqb c ":" then "-"%char else if Ascii.eqb c "*" then "_"%char else c.

Fixpoint map_string (f : ascii -> ascii) (s : string) : string :=
  match s with EmptyString => EmptyString | String c s => String (f c) (map_string f s) end.

Definition sanitizedDomain (domain : string) : result string string := idna_ToASCII (map_string replace_char domain).

Definition getFileName (domain ext : string) : result string string :=
  match sanitizedDomain domain with Err e => Err e | Ok name => Ok (name +:+ ext) end.

(** [unreadable] is the error of reading a file that is there. *)
Definition readFile (unreadable : string -> option string) (d : cert_disk) (domain ext : string)
    : result file_error (string * string) :=
  match getFileName domain ext with
  | Err e => Err (FileError e)
  | Ok name => match dk_certs d !! name with
               | None => Err NotExist
               | Some data => match unreadable name with Some e => Err (FileError e) | None => Ok (data, name) end
               end
  end.

(** A file that was written is remembered in [rollback]. *)
Definition writeFile (cfg : StorageConfig) (io : string -> write_outcome) (domain ext data : string)
    (st : cert_disk * list string) : (cert_disk * list string) * result string string :=
  let '(d, rollback) := st in
  match (if String.eqb (sc_filename cfg) "" then sanitizedDomain domain else Ok (sc_filename cfg)) with
  | Err e => ((d, rollback), Err e)
  | Ok base =>
      let name := base +:+ ext in
      match io name with
      | NotOpened e => ((d, rollback), Err e)
      | PartlyWritten part e => ((set_certs d (<[name := part]> (dk_certs d)), rollback), Err e)
      | Written => ((set_certs d (<[name := data]> (dk_certs d)), rollback ++ [ext]), Ok name)
      end
  end.

Definition rollback_cleanup (domain : string) (exts : list string) (d : cert_disk) : cert_disk :=
  foldl (fun d ext => match getFileName domain ext with
                      | Err _ => d
                      | Ok name => set_certs d (delete name (dk_certs d))
                      end) d exts.

(** A file that is written only when there is something to write. *)
Definition write_optional (cfg : StorageConfig) (io : string -> write_outcome) (domain ext : string) (data : option string)
    (st : cert_disk * list string) : (cert_disk * list string) * result string string :=
  match data with None => (st, Ok ""%string) | Some data => writeFile cfg io domain ext data st end.

(** The files of the private key; without one no combined file can be written. *)
Definition save_key (cfg : StorageConfig) (io : string -> write_outcome) (r : Resource) (st : cert_disk * list string)
    : (cert_disk * list string) * result string (string * string * string) :=
  let domain := rm_domain (re_meta r) in
  match re_key r with
  | None => (st, if sc_pem cfg || sc_pfx cfg then Err ("cert storage: missing private key for domain " +:+ domain)
                 else Ok (""%string, ""%string, ""%string))
  | Some key =>
      match writeFile cfg io domain extKey key st with
      | (st, Err e) => (st, Err ("unable to save key file: " +:+ e))
      | (st, Ok keyFile) =>
          match write_optional cfg io domain extPem (if sc_pem cfg then Some (re_cert r +:+ key) else None) st with
          | (st, Err e) => (st, Err ("unable to save PEM file: " +:+ e))
          | (st, Ok pemFile) =>
              if sc_pfx cfg then
                match pfx_bytes r with
                | Err e => (st, Err ("unable to save PFX file: " +:+ e))
                | Ok pfx => match writeFile cfg io domain extPfx pfx st with
                            | (st, Err e) => (st, Err ("unable to save PFX file: " +:+ e))
                            | (st, Ok pfxFile) => (st, Ok (keyFile, pemFile, pfxFile))
                            end
                end
              else (st, Ok (keyFile, pemFile, ""%string))
          end
      end
  end.

(** The files, without the clean-up. *)
Definition save_files (cfg : StorageConfig) (io : string -> write_outcome) (r : Resource) (st : cert_disk * list string)
    : (cert_disk * list string) * result string ResourcesInfo :=
  let domain := rm_domain (re_meta r) in
  match save_key cfg io r st with
  | (st, Err e) => (st, Err e)
  | (st, Ok (keyFile, pemFile, pfxFile)) =>
      match writeFile cfg io domain extCert (re_cert r) st with
      | (st, Err e) => (st, Err e)
      | (st, Ok certFile) =>
          match write_optional cfg io domain extIssuer (re_issuer r) st with
          | (st, Err e) => (st, Err e)
          | (st, Ok issuerFile) =>
              match writeFile cfg io domain extResource (marshal_resource (re_meta r)) st with
              | (st, Err e) => (st, Err e)
              | (st, Ok _) => (st, Ok (mkInfo domain certFile issuerFile keyFile pemFile pfxFile))
              end
          end
      end
  end.

Definition SaveResource (cfg : StorageConfig) (io : string -> write_outcome) (r : Resource) (d : cert_disk)
    : cert_disk * result string ResourcesInfo :=
  match save_files cfg io r (d, []) with
  | ((d, _), Ok info) => (d, Ok info)
  | ((d, rollback), Err e) => (rollback_cleanup (rm_domain (re_meta r)) rollback d, Err e)
  end.

(** A file that may be missing; [None] for another error. *)
Definition read_optional (unreadable : string -> option string) (d : cert_disk) (domain ext : string)
    : option (option string * string) :=
  match readFile unreadable d domain ext with
  | Ok (data, name) => Some (Some data, name)
  | Err NotExist => Some (None, ""%string)
  | Err (FileError _) => None
  end.

(** [Ok None]: no resource and no error. *)
Definition ReadResource (unreadable : string -> option string) (d : cert_disk) (domain : string)
    : result file_error (option (Resource * ResourcesInfo)) :=
  match readFile unreadable d domain extResource with
  | Err e => Err e
  | Ok (raw, _) =>
  match unmarshal_resource raw with
  | Err e => Err (FileError e)
  | Ok meta =>
  match readFile unreadable d domain extCert with
  | Err e => Err e
  | Ok (cert, certFile) =>
  match read_optional unreadable d domain extKey with
  | None => Ok None
  | Some (key, keyFile) =>
  match read_optional unreadable d domain extIssuer with
  | None => Ok None
  | Some (issuer, issuerFile) =>
      Ok (Some (mkResource meta key cert issuer, mkInfo domain certFile issuerFile keyFile "" ""))
  end end end end end.

End Storage.

(** ** The account *)

(** The registration of an account: its status. A key by its type and bytes. *)
Record Account (K : Type) := mkAccount { ac_email : string; ac_registration : option string; ac_key : K }.
Arguments mkAccount {K}.
Arguments ac_email {K}.
Arguments ac_registration {K}.
Arguments ac_key {K}.

(** PEM, keys, the JSON of an account; [pem_Decode] gives the block, if there is one, and what
    follows. *)
Class AccountCodec (K : Type) := {
  pem_Decode : string -> option (string * string) * string;
  pem_Encode : K -> string;
  parse_key : string -> string -> result string K;
  marshal_account : string -> option string -> string;
  unmarshal_account : string -> result string (string * option string)
}.

Class AccountLaws {K} `{AccountCodec K} := {
  key_pem : forall k, exists bytes, pem_Decode (pem_Encode k) = (Some ("EC PRIVATE KEY"%string, bytes), ""%string) /\
                      parse_key "EC PRIVATE KEY" bytes = Ok k;
  account_json : forall e r, unmarshal_account (marshal_account e r) = Ok (e, r)
}.

Section Accounts.
Context {K : Type} `{AccountCodec K}.

(** [None]: a key file without a block and without anything else makes it panic. *)
Definition loadPrivateKey (data : string) : option (result string K) :=
  match pem_Decode data with
  | (block, rest) =>
      if negb (String.eqb rest "") then Some (Err "cert storage: parse: pem file contains remaining data"%string)
      else match block with
           | None => None
           | Some (ty, bytes) =>
               if String.eqb ty "RSA PRIVATE KEY" || String.eqb ty "EC PRIVATE KEY" then Some (parse_key ty bytes)
               else Some (Err ("cert storage: invalid private key type: " +:+ ty))
           end
  end.

(** [generated]: the new key; [io]: the outcome of writing it, in the file that was created. *)
Definition GetPrivateKey (generated : result string K) (io : write_outcome) (d : cert_disk) : cert_disk * option (result string K) :=
  match dk_key d with
  | Some data => (d, loadPrivateKey data)
  | None =>
      match generated with
      | Err e => (d, Some (Err e))
      | Ok k => match io with
                | NotOpened e => (d, Some (Err e))
                | PartlyWritten part e => (mkDisk (dk_certs d) (dk_account d) (Some part), Some (Err e))
                | Written => (mkDisk (dk_certs d) (dk_account d) (Some (pem_Encode k)), Some (Ok k))
                end
      end
  end.

Definition AccountSave (io : write_outcome) (a : Account K) (d : cert_disk) : cert_disk * option string :=
  match io with
  | NotOpened e => (d, Some e)
  | PartlyWritten part e => (mkDisk (dk_certs d) (Some part) (dk_key d), Some e)
  | Written => (mkDisk (dk_certs d) (Some (marshal_account (ac_email a) (ac_registration a))) (dk_key d), None)
  end.

(** [recovered]: the registration looked up by the key. *)
Definition AccountLoad (recovered : result string string) (io : write_outcome) (data : string) (k : K) (d : cert_disk)
    : cert_disk * result string (Account K) :=
  match unmarshal_account data with
  | Err e => (d, Err e)
  | Ok (email, registration) =>
      if match registration with None => true | Some status => String.eqb status "" end then
        match recovered with
        | Err e => (d, Err e)
        | Ok reg =>
            let a := mkAccount email (Some reg) k in
            match AccountSave io a d with (d, Some e) => (d, Err e) | (d, None) => (d, Ok a) end
        end
      else (d, Ok (mkAccount email registration k))
  end.

(** What the outside gives: a new key, the account of a key, a registration. *)
Record acme := mkAcme {
  am_generated : result string K; am_recovered : result string string;
  am_eab_required : bool; am_register : result string string;
  am_key_io : write_outcome; am_load_io : write_outcome; am_save_io : write_outcome
}.

Definition AccountSetup (userID : string) (w : acme) (d : cert_disk) : cert_disk * option (result string (Account K)) :=
  match GetPrivateKey (am_generated w) (am_key_io w) d with
  | (d, None) => (d, None)
  | (d, Some (Err e)) => (d, Some (Err e))
  | (d, Some (Ok k)) =>
      match dk_account d with
      | Some data => let '(d, r) := AccountLoad (am_recovered w) (am_load_io w) data k d in (d, Some r)
      | None => (d, Some (Ok (mkAccount userID None k)))
      end
  end.

(** The account part of [NewLego]: an account without a registration is registered and saved.
    The boolean says whether it was. *)
Definition register_account (kid hmac : string) (w : acme) (a : Account K) (d : cert_disk) : cert_disk * result string (Account K * bool) :=
  match ac_registration a with
  | Some _ => (d, Ok (a, false))
  | None =>
      if am_eab_required w && (String.eqb kid "" || String.eqb hmac "")
      then (d, Err "server requires External Account Binding: KID and HMAC must be set"%string)
      else match am_register w with
           | Err e => (d, Err e)
           | Ok reg =>
               let a := mkAccount (ac_email a) (Some reg) (ac_key a) in
               match AccountSave (am_save_io w) a d with (d, Some e) => (d, Err e) | (d, None) => (d, Ok (a, true)) end
           end
  end.

Definition lego_account (userID kid hmac : string) (w : acme) (d : cert_disk) : cert_disk * option (result string (Account K * bool)) :=
  match AccountSetup userID w d with
  | (d, None) => (d, None)
  | (d, Some (Err e)) => (d, Some (Err e))
  | (d, Some (Ok a)) => let '(d, r) := register_account kid hmac w a d in (d, Some r)
  end.

End Accounts.

(** ** The configuration *)

Record Config := mkConfig {
  cf_email : string; cf_owner_empty : bool; cf_dns_providers : list string; cf_storage_dir : string; cf_ca_dir_url : string;
  cf_http_port : Z; cf_tls_port : Z
}.

Definition dns_provider (p : string) : bool := String.eqb p "gcloud" || String.eqb p "cf".

Definition bad_port (p : Z) : bool := negb (p =? 0)%Z && ((p <? 1)%Z || (65535 <? p)%Z).

Definition port_error (p : Z) (challenge : string) : string :=
  "cert issuer: invalid config: invalid port value " +:+ String "034"%char (pretty p +:+ String "034"%char "") +:+
  " for " +:+ challenge +:+ " challenge. allowed range 1..65535".

(** The message about the second port names the first. *)
Definition Validate (c : Config) : option string :=
  if String.eqb (cf_email c) "" then Some "cert issuer: invalid config: invalid email"%string
  else if cf_owner_empty c then Some "cert issuer: invalid config: invalid owner address"%string
  else match List.find (fun p => negb (dns_provider p)) (cf_dns_providers c) with
  | Some p => Some ("cert issuer: invalid config: invalid dns provider " +:+ p)
  | None =>
      if String.eqb (cf_storage_dir c) "" then Some "cert issuer: invalid config: invalid path to storage dir"%string
      else if String.eqb (cf_ca_dir_url c) "" then Some "cert issuer: invalid config: invalid ca dir url"%string
      else if bad_port (cf_http_port c)
      then Some (port_error (cf_http_port c) "http-01")
      else if bad_port (cf_tls_port c)
      then Some (port_error (cf_http_port c) "tls-alpn-01")
      else None
  end.

(** [opened]: the error of opening a DNS provider. *)
Fixpoint initDNSProviders (opened : string -> option string) (providers : list string) : result string (list string) :=
  match providers with
  | [] => Ok []
  | p :: ps =>
      if negb (dns_provider p) then Err ("unsupported DNS provider: " +:+ p)
      else match opened p with
           | Some e => Err e
           | None => match initDNSProviders opened ps with Err e => Err e | Ok res => Ok (p :: res) end
           end
  end.

(** ** Obtaining and renewing *)

Definition hour : Z := 3600.
Definition day : Z := 24 * hour.

(** A certificate that is looked after: its resource and the expiry that is kept for it. *)
Record resourceInfo := mkTracked { tr_res : Resource; tr_expiry : Z }.

(** The disk, the certificates, and what was published. *)
Record issuer := mkIssuer { is_disk : cert_disk; is_resources : list resourceInfo; is_published : list ResourcesInfo }.

Section Issuer.
Context `{CertCodec} (cfg : StorageConfig).

(** [parse_cert] is the expiry of the first certificate in some PEM text. *)
Context (parse_cert : string -> option Z).

(** What one attempt gets: the answer of the ACME server and the outcomes of writing it. *)
Record attempt := mkAttempt { at_obtain : result string Resource; at_io : string -> write_outcome }.

Definition obtainCert (domain : string) (a : attempt) (d : cert_disk) : cert_disk * result string (Resource * ResourcesInfo) :=
  match at_obtain a with
  | Err e => (d, Err e)
  | Ok res =>
      match SaveResource cfg (at_io a) res d with
      | (d, Err e) => (d, Err ("failed to save resource for " +:+ domain +:+ ": " +:+ e))
      | (d, Ok info) => (d, Ok (res, info))
      end
  end.

(** At most five attempts. *)
Fixpoint obtain_retry (domain : string) (attempts : list attempt) (n : nat) (d : cert_disk) (last : result string (Resource * ResourcesInfo))
    : cert_disk * result string (Resource * ResourcesInfo) :=
  match n, attempts with
  | S n, a :: attempts =>
      match obtainCert domain a d with
      | (d, Ok r) => (d, Ok r)
      | (d, Err e) => obtain_retry domain attempts n d (Err e)
      end
  | _, _ => (d, last)
  end.

(** The first part of [run] for one domain; [None] when it panics. *)
Definition start_domain (unreadable : string -> option string) (attempts : list attempt) (domain : string) (s : issuer)
    : option issuer :=
  let keep d r :=
    match r with
    | Ok (res, info) =>
        match parse_cert (re_cert res) with
        | None => mkIssuer d (is_resources s) (is_published s)
        | Some expiry => mkIssuer d (is_resources s ++ [mkTracked res expiry]) (is_published s ++ [info])
        end
    | Err _ => mkIssuer d (is_resources s) (is_published s)
    end in
  match ReadResource unreadable (is_disk s) domain with
  | Err (FileError _) => Some s
  | Err NotExist => let '(d, r) := obtain_retry domain attempts 5 (is_disk s) (Err "no attempt"%string) in Some (keep d r)
  | Ok (Some r) => Some (keep (is_disk s) (Ok r))
  | Ok None => None
  end.

Definition latest_first (a b : resourceInfo) : Prop := (tr_expiry b <= tr_expiry a)%Z.

#[global] Instance latest_first_dec a b : Decision (latest_first a b).
Proof. unfold latest_first. apply _. Defined.

#[global] Instance latest_first_total : Total latest_first.
Proof. intros a b. unfold latest_first. lia. Qed.

#[global] Instance latest_first_trans : Transitive latest_first.
Proof. intros a b c. unfold latest_first. lia. Qed.

(** All domains, each with its attempts, and the sorting. *)
Fixpoint start_domains (unreadable : string -> option string) (domains : list (string * list attempt)) (s : issuer) : option issuer :=
  match domains with
  | [] => Some (mkIssuer (is_disk s) (merge_sort latest_first (is_resources s)) (is_published s))
  | (domain, attempts) :: domains => s ← start_domain unreadable attempts domain s; start_domains unreadable domains s
  end.

(** One turn of the loop over the certificates: what is kept of the certificate, what is
    published, and the earliest expiry. The expiry is read from the certificate that is
    replaced. *)
Definition renew_one (now : Z) (a : attempt) (r : resourceInfo) (d : cert_disk) (earliest : Z)
    : cert_disk * resourceInfo * list ResourcesInfo * Z :=
  let soonest e := if (e <? earliest)%Z then e else earliest in
  if (tr_expiry r <? now + day)%Z then
    match obtainCert (rm_domain (re_meta (tr_res r))) a d with
    | (d, Err _) => (d, r, [], earliest)
    | (d, Ok (resp, info)) =>
        match parse_cert (re_cert (tr_res r)) with
        | None => (d, r, [], earliest)
        | Some expiry => (d, mkTracked resp expiry, [info], soonest expiry)
        end
    end
  else (d, r, [], soonest (tr_expiry r)).

Fixpoint renew_all (now : Z) (rs : list (resourceInfo * attempt)) (d : cert_disk) (earliest : Z)
    : cert_disk * list resourceInfo * list ResourcesInfo * Z :=
  match rs with
  | [] => (d, [], [], earliest)
  | (r, a) :: rs =>
      let '(d, r, pub, earliest) := renew_one now a r d earliest in
      let '(d, rs, pubs, earliest) := renew_all now rs d earliest in
      (d, r :: rs, pub ++ pubs, earliest)
  end.

(** When the timer is set to, at the time [now'] after the pass. *)
Definition renew_check_in (now' earliest : Z) : Z :=
  let wait := (earliest - now')%Z in
  if (day <=? wait)%Z then (wait - day)%Z else if (wait <=? 0)%Z then hour else wait.

(** The renewal pass at [now], with an attempt for every certificate. *)
Definition renew (now now' : Z) (attempts : list attempt) (s : issuer) : issuer * Z :=
  let '(d, rs, pubs, earliest) := renew_all now (zip (is_resources s) attempts) (is_disk s) (now + 365 * day) in
  (mkIssuer d rs (is_published s ++ pubs), renew_check_in now' earliest).

End Issuer.

(** ** What is stored *)

Section StorageProofs.
Context `{HC : CertCodec} (cfg : StorageConfig) (Hname : sc_filename cfg = ""%string).
Context (io : string -> write_outcome) (r : Resource) (n : string) (Hn : sanitizedDomain (rm_domain (re_meta r)) = Ok n).

Abbreviation domain := (rm_domain (re_meta r)).

Lemma writeFile_cases ext data d rb st' res : writeFile cfg io domain ext data (d, rb) = (st', res) ->
  match io (n +:+ ext) with
  | Written => st' = (set_certs d (<[n +:+ ext := data]> (dk_certs d)), rb ++ [ext]) /\ res = Ok (n +:+ ext)
  | NotOpened e => st' = (d, rb) /\ res = Err e
  | PartlyWritten part e => st' = (set_certs d (<[n +:+ ext := part]> (dk_certs d)), rb) /\ res = Err e
  end.
Proof. unfold writeFile. rewrite Hname, Hn. cbn [String.eqb]. by destruct (io (n +:+ ext)); intros [= <- <-]. Qed.

Lemma name_inj (a b : string) : n +:+ a = n +:+ b -> a = b.
Proof. apply (inj (String.append n)). Qed.

(** What the save has done so far: a file that will not be cleaned up is as it was, or it is
    partly written. *)
Definition touched (d0 : cert_disk) (st : cert_disk * list string) : Prop :=
  forall ext, ext ∉ st.2 -> dk_certs st.1 !! (n +:+ ext) = dk_certs d0 !! (n +:+ ext) \/
    exists part e, io (n +:+ ext) = PartlyWritten part e /\ dk_certs st.1 !! (n +:+ ext) = Some part.

Lemma touched_write ext data d0 st st' res :
  touched d0 st -> writeFile cfg io domain ext data st = (st', res) -> touched d0 st'.
Proof.
  intros Ht Hw. destruct st as [d rb]. apply writeFile_cases in Hw. intros ext' Hin.
  destruct (io (n +:+ ext)) as [|e|part e] eqn:Eio; destruct Hw as [-> ->]; cbn [fst snd] in *; [|by apply Ht|].
  - apply not_elem_of_app in Hin as [Hin Hne]. rewrite list_elem_of_singleton in Hne.
    simpl. rewrite lookup_insert_ne by (intros E; by apply name_inj in E). by apply Ht.
  - simpl. destruct (decide (ext = ext')) as [->|Hne].
    + right. exists part, e. by rewrite lookup_insert_eq.
    + rewrite lookup_insert_ne by (intros E; by apply name_inj in E). by apply Ht.
Qed.

Lemma touched_optional ext data d0 st st' res :
  touched d0 st -> write_optional cfg io domain ext data st = (st', res) -> touched d0 st'.
Proof. intros Ht. destruct data; [by apply touched_write|by intros [= <- <-]]. Qed.

Lemma touched_key d0 st st' res : touched d0 st -> save_key cfg io r st = (st', res) -> touched d0 st'.
Proof.
  unfold save_key. intros Ht. destruct (re_key r) as [key|]; [|by intros [= <- _]].
  destruct (writeFile _ _ _ extKey _ st) as [st1 [f|e]] eqn:E1; eapply touched_write in E1; eauto; [|by intros [= <- _]].
  destruct (write_optional _ _ _ _ _ st1) as [st2 [f2|e]] eqn:E2; eapply touched_optional in E2; eauto; [|by intros [= <- _]].
  destruct (sc_pfx cfg); [|by intros [= <- _]]. destruct (pfx_bytes r) as [pfx|]; [|by intros [= <- _]].
  destruct (writeFile _ _ _ extPfx _ st2) as [st3 [f3|e]] eqn:E3; eapply touched_write in E3; eauto; by intros [= <- _].
Qed.

Lemma touched_files d st' res : save_files cfg io r (d, []) = (st', res) -> touched d st'.
Proof.
  assert (Ht : touched d (d, [])) by (intros ext _; by left). unfold save_files.
  destruct (save_key _ _ _ _) as [st1 [[[kf pf] xf]|e]] eqn:E1; eapply touched_key in E1; eauto; [|by intros [= <- _]].
  destruct (writeFile _ _ _ extCert _ st1) as [st2 [f2|e]] eqn:E2; eapply touched_write in E2; eauto; [|by intros [= <- _]].
  destruct (write_optional _ _ _ _ _ st2) as [st3 [f3|e]] eqn:E3; eapply touched_optional in E3; eauto; [|by intros [= <- _]].
  destruct (writeFile _ _ _ extResource _ st3) as [st4 [f4|e]] eqn:E4; eapply touched_write in E4; eauto; by intros [= <- _].
Qed.

Lemma cleanup_lookup exts d ext :
  dk_certs (rollback_cleanup domain exts d) !! (n +:+ ext) = if decide (ext ∈ exts) then None else dk_certs d !! (n +:+ ext).
Proof.
  unfold rollback_cleanup. revert d. induction exts as [|x exts IH]; intros d; [done|]. cbn [foldl]. rewrite IH.
  unfold getFileName. rewrite Hn. destruct (decide (ext ∈ exts)) as [Hin|Hin].
  - by rewrite decide_True by (by right).
  - simpl. destruct (decide (x = ext)) as [->|Hne].
    + by rewrite lookup_delete_eq, decide_True by left.
    + rewrite lookup_delete_ne by (intros E; by apply name_inj in E).
      by rewrite decide_False by (intros [?|?]%elem_of_cons; congruence).
Qed.

(** A save that fails leaves no file of the new certificate whole: each is as it was, or gone,
    or the part that was written when writing it failed. *)
Theorem failed_save_leaves_no_file (d d' : cert_disk) (e ext : string) :
  SaveResource cfg io r d = (d', Err e) ->
  dk_certs d' !! (n +:+ ext) = dk_certs d !! (n +:+ ext) \/ dk_certs d' !! (n +:+ ext) = None \/
  exists part e', io (n +:+ ext) = PartlyWritten part e' /\ dk_certs d' !! (n +:+ ext) = Some part.
Proof.
  unfold SaveResource. destruct (save_files cfg io r (d, [])) as [[d1 rb] [info|e1]] eqn:E; [done|]. intros [= <- <-].
  apply touched_files in E. rewrite cleanup_lookup. destruct (decide (ext ∈ rb)) as [Hin|Hin]; [by right; left|].
  destruct (E ext Hin) as [?|?]; auto.
Qed.

(** But it takes the key of the certificate that was there: when the new key is written and the
    new certificate is not, the old certificate is kept without a key. *)
Theorem failed_save_loses_key (d : cert_disk) (key e : string) :
  re_key r = Some key -> sc_pem cfg = false -> sc_pfx cfg = false ->
  io (n +:+ extKey) = Written -> io (n +:+ extCert) = NotOpened e ->
  exists d', SaveResource cfg io r d = (d', Err e) /\ dk_certs d' !! (n +:+ extKey) = None /\
    dk_certs d' !! (n +:+ extCert) = dk_certs d !! (n +:+ extCert).
Proof.
  intros Hk Hpem Hpfx Hwk Hwc. unfold SaveResource, save_files, save_key. rewrite Hk, Hpem, Hpfx. unfold writeFile. rewrite Hname, Hn.
  cbn [String.eqb]. rewrite Hwk. cbn [write_optional]. rewrite Hwc. eexists. split; [reflexivity|].
  rewrite !cleanup_lookup. split; [done|]. rewrite decide_False by (intros [?|[]%elem_of_nil]%elem_of_cons; discriminate).
  simpl. by rewrite lookup_insert_ne by (intros E; apply name_inj in E; discriminate).
Qed.

Lemma writeFile_ok ext data st st' f : writeFile cfg io domain ext data st = (st', Ok f) ->
  f = n +:+ ext /\ dk_certs st'.1 = <[n +:+ ext := data]> (dk_certs st.1).
Proof.
  destruct st as [d rb]. intros Hw. apply writeFile_cases in Hw. by destruct (io (n +:+ ext)); destruct Hw as [-> [= ->]].
Qed.

(** A file's content after a write of another extension. *)
Lemma write_other ext ext' data st st' f : writeFile cfg io domain ext data st = (st', Ok f) -> ext <> ext' ->
  dk_certs st'.1 !! (n +:+ ext') = dk_certs st.1 !! (n +:+ ext').
Proof.
  intros Hw Hne. apply writeFile_ok in Hw as [_ ->]. apply lookup_insert_ne. intros E. by apply name_inj in E.
Qed.

Lemma optional_ok ext data st st' f : write_optional cfg io domain ext data st = (st', Ok f) ->
  (forall ext', ext <> ext' -> dk_certs st'.1 !! (n +:+ ext') = dk_certs st.1 !! (n +:+ ext')) /\
  match data with
  | Some x => f = n +:+ ext /\ dk_certs st'.1 !! (n +:+ ext) = Some x
  | None => f = ""%string /\ dk_certs st'.1 !! (n +:+ ext) = dk_certs st.1 !! (n +:+ ext)
  end.
Proof.
  destruct data as [x|]; [|by intros [= <- <-]]. intros Hw. split; [intros ext'; by apply (write_other _ _ _ _ _ _ Hw)|].
  apply writeFile_ok in Hw as [-> ->]. split; [done|apply lookup_insert_eq].
Qed.

Lemma save_key_ok st st' kf pf xf : save_key cfg io r st = (st', Ok (kf, pf, xf)) ->
  (forall ext, ext ∉ [extKey; extPem; extPfx] -> dk_certs st'.1 !! (n +:+ ext) = dk_certs st.1 !! (n +:+ ext)) /\
  match re_key r with
  | Some k => kf = n +:+ extKey /\ dk_certs st'.1 !! (n +:+ extKey) = Some k
  | None => kf = ""%string /\ dk_certs st'.1 !! (n +:+ extKey) = dk_certs st.1 !! (n +:+ extKey)
  end.
Proof.
  unfold save_key. destruct (re_key r) as [key|]; [|by destruct (_ || _); [|intros [= <- <- _ _]]].
  destruct (writeFile _ _ _ extKey _ st) as [st1 [f|e]] eqn:E1; [|done].
  destruct (write_optional _ _ _ _ _ st1) as [st2 [f2|e]] eqn:E2; [|done]. apply optional_ok in E2 as [O2 _].
  assert (Hk : kf = f -> (forall ext, ext <> extPfx -> dk_certs st'.1 !! (n +:+ ext) = dk_certs st2.1 !! (n +:+ ext)) ->
    (forall ext, ext ∉ [extKey; extPem; extPfx] -> dk_certs st'.1 !! (n +:+ ext) = dk_certs st.1 !! (n +:+ ext)) /\
    kf = n +:+ extKey /\ dk_certs st'.1 !! (n +:+ extKey) = Some key).
  { intros -> Hst. split.
    - intros ext Hin. rewrite !not_elem_of_cons in Hin. destruct Hin as (? & ? & ? & _).
      rewrite Hst, O2 by done. eapply write_other; eauto.
    - apply writeFile_ok in E1 as [-> E1]. split; [done|]. rewrite Hst, O2, E1 by done. apply lookup_insert_eq. }
  destruct (sc_pfx cfg); [|intros [= <- <- _ _]; by apply Hk].
  destruct (pfx_bytes r) as [pfx|]; [|done].
  destruct (writeFile _ _ _ extPfx _ st2) as [st3 [f3|e]] eqn:E3; [|done]. intros [= <- <- _ _]. apply Hk; [done|].
  intros ext Hne. eapply write_other; eauto.
Qed.

(** What was saved is read back: the certificate, its data and, where the new resource has
    none, the key and the issuer's certificate that were there before; the JSON of the resource
    is read as it was written. *)
Theorem saved_resource_read (d d' : cert_disk) (info : ResourcesInfo) :
  unmarshal_resource (marshal_resource (re_meta r)) = Ok (re_meta r) -> SaveResource cfg io r d = (d', Ok info) ->
  let old ext (new : option string) := match new with Some x => Some x | None => dk_certs d !! (n +:+ ext) end in
  exists info', ReadResource (fun _ => None) d' domain =
    Ok (Some (mkResource (re_meta r) (old extKey (re_key r)) (re_cert r) (old extIssuer (re_issuer r)), info')) /\
    ri_cert info' = ri_cert info /\ (re_key r <> None -> ri_key info' = ri_key info) /\
    (re_issuer r <> None -> ri_issuer info' = ri_issuer info).
Proof.
  intros Hjson. unfold SaveResource. destruct (save_files cfg io r (d, [])) as [[d1 rb] [i|e1]] eqn:E; [|done]. intros [= <- <-].
  unfold save_files in E. destruct (save_key _ _ _ _) as [st1 [[[kf pf] xf]|e]] eqn:E1; [|done].
  destruct (writeFile _ _ _ extCert _ st1) as [st2 [f2|e]] eqn:E2; [|done].
  destruct (write_optional _ _ _ _ _ st2) as [st3 [f3|e]] eqn:E3; [|done].
  destruct (writeFile _ _ _ extResource _ st3) as [st4 [f4|e]] eqn:E4; [|done]. injection E as -> <-.
  apply save_key_ok in E1 as [O1 K1]. apply optional_ok in E3 as [O3 I3]. simpl.
  assert (Lr : dk_certs d1 !! (n +:+ extResource) = Some (marshal_resource (re_meta r)))
    by (apply writeFile_ok in E4 as [_ E4]; simpl in E4; rewrite E4; apply lookup_insert_eq).
  assert (O4 : forall ext, extResource <> ext -> dk_certs d1 !! (n +:+ ext) = dk_certs st3.1 !! (n +:+ ext))
    by (intros ext; apply (write_other _ _ _ _ _ _ E4)).
  pose proof (fun ext => write_other _ ext _ _ _ _ E2) as O2. apply writeFile_ok in E2 as [-> E2].
  assert (Lc : dk_certs d1 !! (n +:+ extCert) = Some (re_cert r)) by (rewrite O4, O3, E2 by done; apply lookup_insert_eq).
  assert (Lk : dk_certs d1 !! (n +:+ extKey) = match re_key r with Some x => Some x | None => dk_certs d !! (n +:+ extKey) end)
    by (rewrite O4, O3, O2 by done; by destruct (re_key r); destruct K1).
  assert (Li : dk_certs d1 !! (n +:+ extIssuer) = match re_issuer r with Some x => Some x | None => dk_certs d !! (n +:+ extIssuer) end).
  { rewrite O4 by done. destruct (re_issuer r); destruct I3 as [_ I3]; [done|]. rewrite I3, O2, O1 by first [done|set_solver]. done. }
  unfold ReadResource, read_optional, readFile, getFileName. rewrite Hn, Lr, Hjson, Lc, Lk, Li.
  destruct (match re_key r with Some _ => _ | None => _ end) as [k|] eqn:Ek;
    destruct (match re_issuer r with Some _ => _ | None => _ end) as [i|] eqn:Ei;
    eexists; (split; [reflexivity|]); cbn [ri_cert ri_key ri_issuer]; (split; [done|]);
    destruct (re_key r), (re_issuer r); destruct K1 as [-> _], I3 as [-> _]; simplify_eq; done.
Qed.

End StorageProofs.

(** ** Renewal *)

Section RenewalProofs.
Context `{HC : CertCodec} (cfg : StorageConfig) (parse_cert : string -> option Z).

Abbreviation renew_one := (renew_one cfg parse_cert).
Abbreviation renew_all := (renew_all cfg parse_cert).
Abbreviation renew := (renew cfg parse_cert).

(** The expiry that is kept is that of the certificate. *)
Definition tracked_right (r : resourceInfo) : Prop := parse_cert (re_cert (tr_res r)) = Some (tr_expiry r).

(** What a pass makes of one certificate: nothing, or a new resource under the expiry of the
    certificate it replaces. *)
Inductive renewed (now : Z) (a : attempt) (r : resourceInfo) : resourceInfo -> Prop :=
| renewed_kept : renewed now a r r
| renewed_new resp expiry : (tr_expiry r < now + day)%Z -> at_obtain a = Ok resp -> parse_cert (re_cert (tr_res r)) = Some expiry ->
    renewed now a r (mkTracked resp expiry).

Lemma renew_one_renewed now a r d earliest d' r' pub earliest' :
  renew_one now a r d earliest = (d', r', pub, earliest') ->
  renewed now a r r' /\ (earliest' <= earliest)%Z /\
  (((tr_expiry r < now + day)%Z -> exists x, (obtainCert cfg (rm_domain (re_meta (tr_res r))) a d).2 = Ok x) ->
   tracked_right r -> (earliest' <= tr_expiry r)%Z).
Proof.
  unfold CertIssuer.renew_one. destruct (Z.ltb_spec (tr_expiry r) (now + day)) as [Hdue|Hdue].
  - destruct (obtainCert cfg (rm_domain (re_meta (tr_res r))) a d) as [d1 [[resp info]|e]] eqn:E; cbn [fst snd].
    + assert (Ho : at_obtain a = Ok resp).
      { unfold obtainCert in E. destruct (at_obtain a) as [res|]; [|done]. by destruct (SaveResource _ _ _ _) as [? [?|?]]; simplify_eq. }
      destruct (parse_cert (re_cert (tr_res r))) as [x|] eqn:Ep; intros [= <- <- <- <-].
      * split; [by apply renewed_new|]. split; [destruct (Z.ltb_spec x earliest); lia|].
        intros _ Hr. unfold tracked_right in Hr. rewrite Ep in Hr. injection Hr as ->. destruct (Z.ltb_spec (tr_expiry r) earliest); lia.
      * split; [constructor|]. split; [lia|]. intros _ Hr. unfold tracked_right in Hr. congruence.
    + intros [= <- <- <- <-]. split; [constructor|]. split; [lia|]. intros Hok. destruct (Hok Hdue) as [? ?]. done.
  - intros [= <- <- <- <-]. split; [constructor|].
    split; [destruct (Z.ltb_spec (tr_expiry r) earliest); lia|].
    intros _ _. destruct (Z.ltb_spec (tr_expiry r) earliest); lia.
Qed.

Lemma renew_all_renewed now rs d earliest d' rs' pubs earliest' :
  renew_all now rs d earliest = (d', rs', pubs, earliest') ->
  Forall2 (fun ra r' => renewed now ra.2 ra.1 r') rs rs' /\ (earliest' <= earliest)%Z.
Proof.
  revert d earliest d' rs' pubs earliest'. induction rs as [|[r a] rs IH]; intros d earliest d' rs' pubs earliest'; simpl.
  - intros [= <- <- <- <-]. split; [constructor|lia].
  - destruct (renew_one now a r d earliest) as [[[d1 r1] pub] e1] eqn:E1. apply renew_one_renewed in E1 as (Hr & He & _).
    destruct (renew_all now rs d1 e1) as [[[d2 rs2] pubs2] e2] eqn:E2. apply IH in E2 as [Hrs He2].
    intros [= <- <- <- <-]. split; [by constructor|lia].
Qed.

(** A certificate that is renewed is renewed once more at the next check, whatever the expiry
    of the new one: the pass keeps the expiry of the certificate it replaced. After the second
    renewal it keeps the expiry of the certificate the first one obtained. *)
Theorem renewed_twice (now1 now1' now2 now2' : Z) (as1 as2 : list attempt) (s s1 s2 : issuer) (t1 t2 : Z) (i : nat)
    (r r1 r2 : resourceInfo) (a1 : attempt) (resp1 : Resource) :
  Forall tracked_right (is_resources s) ->
  renew now1 now1' as1 s = (s1, t1) -> (now1 <= now2)%Z -> renew now2 now2' as2 s1 = (s2, t2) ->
  is_resources s !! i = Some r -> as1 !! i = Some a1 -> is_resources s1 !! i = Some r1 -> is_resources s2 !! i = Some r2 ->
  (tr_expiry r < now1 + day)%Z -> at_obtain a1 = Ok resp1 -> tr_res r1 = resp1 ->
  tr_expiry r1 = tr_expiry r /\ (tr_expiry r1 < now2 + day)%Z /\
  (r2 = r1 \/ parse_cert (re_cert resp1) = Some (tr_expiry r2)).
Proof.
  intros Hs H1 Hle H2 Hi Ha Hi1 Hi2 Hdue Ho Hr1. unfold CertIssuer.renew in H1, H2.
  destruct (renew_all now1 _ _ _) as [[[d1 rs1] p1] e1] eqn:E1. injection H1 as <- _. apply renew_all_renewed in E1 as [F1 _].
  destruct (renew_all now2 _ _ _) as [[[d2 rs2] p2] e2] eqn:E2. injection H2 as <- _. apply renew_all_renewed in E2 as [F2 _].
  simpl in *. destruct (Forall2_lookup_r _ _ _ _ _ F1 Hi1) as ([r' a'] & Hz & R1).
  apply lookup_zip_with_Some in Hz as (x & y & [= -> ->] & Hx & Hy). simplify_eq.
  destruct (Forall2_lookup_r _ _ _ _ _ F2 Hi2) as ([r'' a''] & Hz & R2).
  apply lookup_zip_with_Some in Hz as (x' & y' & [= -> ->] & Hx' & Hy'). simplify_eq. simpl in *.
  assert (Hr : tracked_right r) by (by eapply list.Forall_lookup_1).
  assert (He : tr_expiry r1 = tr_expiry r) by (inversion R1 as [|resp x Hd Hob Hp]; [done|]; unfold tracked_right in Hr; simpl; congruence).
  split; [done|]. split; [lia|]. inversion R2 as [|resp x Hd Hob Hp]; [by left|]. by right.
Qed.

(** The attempts never fail, whatever is on the disk. *)
Definition attempts_succeed (as_ : list attempt) : Prop := Forall (fun a => forall domain d, exists x, (obtainCert cfg domain a d).2 = Ok x) as_.

(** When no renewal fails, the next check comes before any of the certificates whose expiry is
    kept expires, or within the hour. *)
Theorem checked_before_expiry (now now' : Z) (attempts : list attempt) (s s' : issuer) (t : Z) (r : resourceInfo) :
  (now <= now')%Z -> length attempts = length (is_resources s) -> attempts_succeed attempts ->
  Forall tracked_right (is_resources s) -> renew now now' attempts s = (s', t) -> r ∈ is_resources s ->
  (0 <= t)%Z /\ (t <= Z.max hour (tr_expiry r - now'))%Z.
Proof.
  intros Hnow Hlen Hok Hs Hren Hr. unfold CertIssuer.renew in Hren.
  destruct (renew_all now _ _ _) as [[[d1 rs1] p1] e1] eqn:E1. injection Hren as _ <-.
  assert (He : (e1 <= tr_expiry r)%Z).
  { unfold attempts_succeed in Hok. revert E1. generalize (is_disk s), (now + 365 * day)%Z. revert attempts Hlen Hok d1 rs1 p1 e1.
    induction (is_resources s) as [|r0 rs IH]; intros [|a as_] Hlen Hok d1 rs1 p1 e1 d0 e0 E1; try done; [set_solver|].
    apply list.Forall_cons_1 in Hok as [Ha Hok]. apply list.Forall_cons_1 in Hs as [Hr0 Hs]. simpl in E1.
    destruct (renew_one now a r0 d0 e0) as [[[d2 r2] pub] e2] eqn:E2. apply renew_one_renewed in E2 as (_ & _ & Hle).
    destruct (renew_all now (zip rs as_) d2 e2) as [[[d3 rs3] pubs] e3] eqn:E3. injection E1 as <- <- <- <-.
    apply elem_of_cons in Hr as [->|Hr].
    - apply renew_all_renewed in E3 as [_ E3]. specialize (Hle (fun _ => Ha _ d0) Hr0). lia.
    - eapply IH; eauto. }
  unfold renew_check_in, day, hour in *. destruct (Z.leb_spec (24 * 3600) (e1 - now')); [lia|].
  destruct (Z.leb_spec (e1 - now') 0); lia.
Qed.

(** When every certificate is due and no renewal succeeds, nothing is done about it for almost
    a year: the certificates that failed do not count for the next check. *)
Theorem failed_renewals_forgotten (now : Z) (attempts : list attempt) (s : issuer) :
  length attempts = length (is_resources s) ->
  Forall (fun r => (tr_expiry r < now + day)%Z) (is_resources s) -> Forall (fun a => exists e, at_obtain a = Err e) attempts ->
  renew now now attempts s = (s, (364 * day)%Z).
Proof.
  intros Hlen Hdue Hfail. unfold CertIssuer.renew.
  assert (E : renew_all now (zip (is_resources s) attempts) (is_disk s) (now + 365 * day) = (is_disk s, is_resources s, [], (now + 365 * day)%Z)).
  { revert attempts Hlen Hfail. induction Hdue as [|r rs Hr Hrs IH]; intros [|a as_] Hlen Hfail; try done.
    apply list.Forall_cons_1 in Hfail as [[e Ha] Hfail]. simpl in Hlen. simpl. unfold CertIssuer.renew_one at 1.
    rewrite (proj2 (Z.ltb_lt _ _)) by done. unfold obtainCert at 1. rewrite Ha. by rewrite IH by (lia || done). }
  rewrite E, app_nil_r. destruct s as [d rs pub]. simpl. f_equal. unfold renew_check_in, day, hour.
  rewrite (proj2 (Z.leb_le _ _)) by lia. lia.
Qed.

(** A key that is there and cannot be read stops the provider at its start. *)
Theorem unreadable_key_panics (unreadable : string -> option string) (attempts : list attempt) (domain n raw cert key e : string)
    (meta : ResourceMeta) (s : issuer) :
  sanitizedDomain domain = Ok n ->
  dk_certs (is_disk s) !! (n +:+ extResource) = Some raw -> unreadable (n +:+ extResource) = None -> unmarshal_resource raw = Ok meta ->
  dk_certs (is_disk s) !! (n +:+ extCert) = Some cert -> unreadable (n +:+ extCert) = None ->
  dk_certs (is_disk s) !! (n +:+ extKey) = Some key -> unreadable (n +:+ extKey) = Some e ->
  start_domain cfg parse_cert unreadable attempts domain s = None.
Proof.
  intros Hn Hr Hr' Hm Hc Hc' Hk Hk'. unfold start_domain, ReadResource, read_optional, readFile, getFileName.
  by rewrite Hn, Hr, Hr', Hm, Hc, Hc', Hk, Hk'.
Qed.

(** The certificates looked after at the start are those that were published, and the expiry
    that is kept is theirs. *)
Theorem started_certificates (unreadable : string -> option string) (domains : list (string * list attempt)) (d : cert_disk) (s : issuer) :
  start_domains cfg parse_cert unreadable domains (mkIssuer d [] []) = Some s ->
  Forall tracked_right (is_resources s) /\ length (is_resources s) = length (is_published s) /\
  StronglySorted latest_first (is_resources s).
Proof.
  assert (Hgen : forall ds s0 s1, Forall tracked_right (is_resources s0) -> length (is_resources s0) = length (is_published s0) ->
    start_domains cfg parse_cert unreadable ds s0 = Some s1 ->
    Forall tracked_right (is_resources s1) /\ length (is_resources s1) = length (is_published s1) /\
    StronglySorted latest_first (is_resources s1)).
  { induction ds as [|[domain attempts] ds IH]; intros s0 s1 Hf Hl; simpl.
    - intros [= <-]. simpl. pose proof (merge_sort_Permutation latest_first (is_resources s0)) as P.
      split; [by rewrite P|]. split; [by rewrite (Permutation_length P)|]. apply (StronglySorted_merge_sort latest_first).
    - destruct (start_domain _ _ _ _ _ _) as [s2|] eqn:E; [|done]. simpl. apply IH; clear IH.
      + unfold start_domain in E. repeat (case_match; simplify_eq/=); try done; apply list.Forall_app; split; try done; by constructor.
      + unfold start_domain in E. repeat (case_match; simplify_eq/=); try done; rewrite !length_app; simpl; lia. }
  intros Hst. apply (Hgen domains (mkIssuer d [] [])); [constructor|done|done].
Qed.

End RenewalProofs.

(** ** The account is kept *)

Section AccountProofs.
Context {K : Type} `{AccountLaws K}.

(** The key on the disk. *)
Definition has_key (d : cert_disk) (k : K) : Prop := exists data, dk_key d = Some data /\ loadPrivateKey data = Some (Ok k).

Lemma load_generated (k : K) : loadPrivateKey (pem_Encode k) = Some (Ok k).
Proof. unfold loadPrivateKey. destruct (key_pem k) as (bytes & -> & Hp). simpl. by rewrite Hp. Qed.

Lemma GetPrivateKey_stored g io (d d' : cert_disk) (k : K) : GetPrivateKey g io d = (d', Some (Ok k)) -> has_key d' k.
Proof.
  unfold GetPrivateKey, has_key. destruct (dk_key d) as [data|] eqn:Ek; [intros [= <- Hl]; eauto|].
  destruct g as [k'|]; [|done]. destruct io; [|done|done]. intros [= <- ->]. eauto using load_generated.
Qed.

(** A start that finds the key and a registered account. *)
Lemma lego_again userID kid hmac (w : acme (K := K)) d k data email status :
  has_key d k -> dk_account d = Some data -> unmarshal_account data = Ok (email, Some status) -> status <> ""%string ->
  lego_account userID kid hmac w d = (d, Some (Ok (mkAccount email (Some status) k, false))).
Proof.
  intros (kd & Hk & Hl) Hd Hu Hs. unfold lego_account, AccountSetup, GetPrivateKey. rewrite Hk, Hl, Hd.
  unfold AccountLoad. rewrite Hu. by rewrite (proj2 (String.eqb_neq status "") Hs).
Qed.

Lemma AccountSave_ok io (a : Account K) d d' k : AccountSave io a d = (d', None) -> has_key d k ->
  has_key d' k /\ dk_account d' = Some (marshal_account (ac_email a) (ac_registration a)).
Proof. unfold AccountSave. destruct io; [|done|done]. by intros [= <-]. Qed.

(** The account that a start ends with is the one the next start begins with, with the same
    key: once it has a registration with a status it is neither registered nor looked up again. *)
Theorem account_kept (userID kid hmac status : string) (w w' : acme) (d d' : cert_disk) (a : Account K) (new : bool) :
  lego_account userID kid hmac w d = (d', Some (Ok (a, new))) -> ac_registration a = Some status -> status <> ""%string ->
  lego_account userID kid hmac w' d' = (d', Some (Ok (a, false))).
Proof.
  intros Hl Hreg Hst. unfold lego_account at 1, AccountSetup in Hl.
  destruct (GetPrivateKey (am_generated w) (am_key_io w) d) as [d1 [[k|]|]] eqn:Ek; [|done|done].
  apply GetPrivateKey_stored in Ek. destruct (dk_account d1) as [data|] eqn:Ea.
  - unfold AccountLoad in Hl. destruct (unmarshal_account data) as [[email reg]|] eqn:Eu; [|done].
    destruct (match reg with None => true | Some _ => _ end) eqn:Er.
    + destruct (am_recovered w) as [rec|]; [|done].
      destruct (AccountSave _ _ d1) as [d2 [e|]] eqn:Es; [done|]. simpl in Hl. injection Hl as <- <- _.
      apply (AccountSave_ok _ _ _ _ k) in Es as [Hk Hd2]; [|done]. simpl in Hreg, Hd2. injection Hreg as ->.
      eapply lego_again; eauto using account_json.
    + destruct reg as [st|]; [|done]. simpl in Hl. injection Hl as <- <- _. simpl in Hreg. injection Hreg as ->. eapply lego_again; eauto.
  - unfold register_account in Hl. simpl in Hl. destruct (_ && _); [done|]. destruct (am_register w) as [reg|]; [|done].
    destruct (AccountSave _ _ d1) as [d2 [e|]] eqn:Es; [done|]. injection Hl as <- <- _.
    apply (AccountSave_ok _ _ _ _ k) in Es as [Hk Hd2]; [|done]. simpl in Hreg, Hd2. injection Hreg as ->.
    eapply lego_again; eauto using account_json.
Qed.

(** A key file that was created and not written stops every later start. *)
Theorem interrupted_key_panics (userID kid hmac e : string) (w w' : acme) (d : cert_disk) (k : K) :
  dk_key d = None -> am_generated w = Ok k -> am_key_io w = PartlyWritten "" e -> pem_Decode ""%string = (None, ""%string) ->
  exists d', lego_account userID kid hmac w d = (d', Some (Err e)) /\ lego_account userID kid hmac w' d' = (d', None).
Proof.
  intros Hk Hg Hio Hp. unfold lego_account, AccountSetup, GetPrivateKey. rewrite Hk, Hg, Hio. eexists. split; [reflexivity|].
  simpl. unfold loadPrivateKey. by rewrite Hp.
Qed.

End AccountProofs.

Module IssuerExamples.

#[local] Instance ex_codec : CertCodec :=
  {| idna_ToASCII s := Ok s; marshal_resource m := rm_domain m;
     unmarshal_resource s := Ok (mkMeta s "" ""); pfx_bytes _ := Err "no pfx"%string |}.

Definition ex_cfg : StorageConfig := mkStorageConfig "" false false.
Definition ex_meta : ResourceMeta := mkMeta "p.example.com" "" "".
Definition ex_res (cert : string) : Resource := mkResource ex_meta (Some "key"%string) cert (Some "issuer"%string).
Definition empty_disk : cert_disk := mkDisk ∅ None None.
Definition all_written : string -> write_outcome := fun _ => Written.
Definition no_cert : string -> write_outcome := fun f => if String.eqb f "p.example.com.crt" then NotOpened "disk full" else Written.

Definition ex_saved : cert_disk := (SaveResource ex_cfg all_written (ex_res "old") empty_disk).1.

Lemma saved_resource_read_witness :
  exists info', ReadResource (fun _ => None) ex_saved "p.example.com" = Ok (Some (ex_res "old", info')).
Proof.
  destruct (saved_resource_read (HC := ex_codec) ex_cfg eq_refl all_written (ex_res "old") "p.example.com" eq_refl empty_disk ex_saved
    (mkInfo "p.example.com" "p.example.com.crt" "p.example.com.issuer.crt" "p.example.com.key" "" "") eq_refl eq_refl) as (info' & E & _).
  exists info'. exact E.
Defined.

Lemma failed_save_leaves_no_file_witness :
  let d' := (SaveResource ex_cfg no_cert (ex_res "new") ex_saved).1 in
  dk_certs d' !! "p.example.com.crt"%string = Some "old"%string.
Proof.
  intros d'. destruct (failed_save_leaves_no_file (HC := ex_codec) ex_cfg eq_refl no_cert (ex_res "new") "p.example.com" eq_refl ex_saved d'
    "disk full" ".crt" eq_refl) as [E|[E|(part & e & E & _)]]; [|discriminate E|discriminate E].
  refine (eq_trans E _). reflexivity.
Defined.

Lemma failed_save_loses_key_witness :
  dk_certs (SaveResource ex_cfg no_cert (ex_res "new") ex_saved).1 !! "p.example.com.key"%string = None.
Proof.
  destruct (failed_save_loses_key (HC := ex_codec) ex_cfg eq_refl no_cert (ex_res "new") "p.example.com" eq_refl ex_saved "key" "disk full"
    eq_refl eq_refl eq_refl eq_refl eq_refl) as (d' & E & H & _).
  rewrite E. exact H.
Defined.

(** Certificates by their expiry. *)
Definition ex_parse (s : string) : option Z := if String.eqb s "old" then Some 1000%Z else Some 7777000%Z.
Definition ex_issuer : issuer := mkIssuer ex_saved [mkTracked (ex_res "old") 1000] [].
Definition ex_attempt : attempt := mkAttempt (Ok (ex_res "new")) all_written.
Definition ex_first : issuer * Z := renew ex_cfg ex_parse 0 0 [ex_attempt] ex_issuer.
Definition ex_second : issuer * Z := renew ex_cfg ex_parse 1000 1000 [ex_attempt] ex_first.1.

Lemma renewed_twice_witness :
  let r2 := mkTracked (ex_res "new") 7777000 in
  is_resources ex_second.1 !! 0%nat = Some r2 /\
  (r2 = mkTracked (ex_res "new") 1000 \/ ex_parse "new" = Some (tr_expiry r2)).
Proof.
  intros r2. split; [reflexivity|].
  exact (proj2 (proj2 (renewed_twice (HC := ex_codec) ex_cfg ex_parse 0 0 1000 1000 [ex_attempt] [ex_attempt] ex_issuer ex_first.1 ex_second.1
    ex_first.2 ex_second.2 0 (mkTracked (ex_res "old") 1000) (mkTracked (ex_res "new") 1000) r2 ex_attempt (ex_res "new")
    ltac:(repeat constructor) eq_refl ltac:(lia) eq_refl eq_refl eq_refl eq_refl eq_refl eq_refl eq_refl eq_refl))).
Defined.

Lemma ex_attempt_succeeds : attempts_succeed (HC := ex_codec) ex_cfg [ex_attempt].
Proof. constructor; [|constructor]. intros domain d. eexists. reflexivity. Qed.

Lemma checked_before_expiry_witness : (ex_first.2 <= 3600)%Z.
Proof.
  exact (proj2 (checked_before_expiry (HC := ex_codec) ex_cfg ex_parse 0 0 [ex_attempt] ex_issuer ex_first.1 ex_first.2
    (mkTracked (ex_res "old") 1000) ltac:(lia) eq_refl ex_attempt_succeeds ltac:(repeat constructor) eq_refl ltac:(left))).
Defined.

Lemma failed_renewals_forgotten_witness :
  renew ex_cfg ex_parse 0 0 [mkAttempt (Err "rate limited"%string) all_written] ex_issuer = (ex_issuer, (364 * 24 * 3600)%Z).
Proof.
  apply (failed_renewals_forgotten (HC := ex_codec) ex_cfg ex_parse 0 [mkAttempt (Err "rate limited"%string) all_written] ex_issuer);
    [reflexivity|repeat constructor|]. constructor; [|constructor]. eexists. reflexivity.
Defined.

Lemma unreadable_key_panics_witness :
  start_domain ex_cfg ex_parse (fun f => if String.eqb f "p.example.com.key" then Some "permission denied"%string else None) []
    "p.example.com" ex_issuer = None.
Proof.
  exact (unreadable_key_panics (HC := ex_codec) ex_cfg ex_parse _ [] "p.example.com" "p.example.com" "p.example.com" "old" "key"
    "permission denied" ex_meta ex_issuer eq_refl eq_refl eq_refl eq_refl eq_refl eq_refl eq_refl eq_refl).
Defined.

Lemma started_certificates_witness :
  let s := mkIssuer ex_saved [mkTracked (ex_res "old") 1000]
             [mkInfo "p.example.com" "p.example.com.crt" "p.example.com.issuer.crt" "p.example.com.key" "" ""] in
  Forall (tracked_right ex_parse) (is_resources s).
Proof.
  intros s. exact (proj1 (started_certificates (HC := ex_codec) ex_cfg ex_parse (fun _ => None) [("p.example.com"%string, [])] ex_saved s eq_refl)).
Defined.

(** Accounts in the clear: each character of the address is announced, so that its end is
    known. *)
Fixpoint frame (s rest : string) : string :=
  match s with EmptyString => String "0" rest | String c s => String "1" (String c (frame s rest)) end.

Fixpoint unframe (s : string) : string * string :=
  match s with
  | String "1" (String c s) => let '(e, rest) := unframe s in (String c e, rest)
  | String _ rest => (""%string, rest)
  | EmptyString => (""%string, ""%string)
  end.

Lemma unframe_frame s rest : unframe (frame s rest) = (s, rest).
Proof. induction s as [|c s IH]; simpl; [done|]. by rewrite IH. Qed.

#[local] Instance ex_accounts : AccountCodec unit :=
  {| pem_Decode s := if String.eqb s "" then (None, ""%string) else (Some ("EC PRIVATE KEY"%string, s), ""%string);
     pem_Encode _ := "key"%string; parse_key _ _ := Ok tt;
     marshal_account e r := frame e (match r with None => ""%string | Some r => String "r" r end);
     unmarshal_account s := let '(e, r) := unframe s in Ok (e, match r with String _ r => Some r | EmptyString => None end) |}.

#[local] Instance ex_account_laws : AccountLaws (K := unit).
Proof.
  split; [intros []; exists "key"%string; done|]. intros e r. simpl. rewrite unframe_frame. by destruct r.
Qed.

Definition ex_acme (io : write_outcome) : acme (K := unit) :=
  mkAcme (Ok tt) (Err "no account"%string) false (Ok "valid"%string) io Written Written.

Lemma account_kept_witness :
  let d' := (lego_account "me" "" "" (ex_acme Written) empty_disk).1 in
  lego_account "me" "" "" (ex_acme Written) d' = (d', Some (Ok (mkAccount "me" (Some "valid"%string) tt, false))).
Proof.
  intros d'. exact (account_kept (K := unit) "me" "" "" "valid" (ex_acme Written) (ex_acme Written) empty_disk d'
    (mkAccount "me" (Some "valid"%string) tt) true eq_refl eq_refl ltac:(done)).
Defined.

Lemma interrupted_key_panics_witness :
  exists d', lego_account "me" "" "" (ex_acme (PartlyWritten "" "disk full")) empty_disk = (d', Some (Err "disk full"%string)) /\
    lego_account "me" "" "" (ex_acme Written) d' = (d', None).
Proof.
  exact (interrupted_key_panics (K := unit) "me" "" "" "disk full" (ex_acme (PartlyWritten "" "disk full")) (ex_acme Written)
    empty_disk tt eq_refl eq_refl eq_refl eq_refl).
Defined.

End IssuerExamples.
