(* ===== verification/Logging.v ===== *)
(** * Logging

    Model of [tools/logging/config.go] and [logger.go] and of the copy the attestation sidecar
    keeps in [sidecar/attestation/internal/logging/]: what the options mean, how they are handed
    to other processes, and which entries are written under which module. The copies differ in
    the names of the options in their messages and in where the options come from. What is done
    with an entry is zap's. Text is in ASCII. *)

From Stdlib Require Import ZArith Lia Ascii String.
From stdpp Require Import base gmap list strings tactics.
From S2P Require Import Prelude Names Manifest Builder GatewayAuth KubeExec.

(** ** Levels *)

(** The levels of [zapcore]; [levelDisabled] is above all of them. *)
Definition DebugLevel : Z := -1.
Definition InfoLevel : Z := 0.
Definition WarnLevel : Z := 1.
Definition ErrorLevel : Z := 2.
Definition PanicLevel : Z := 4.
Definition FatalLevel : Z := 5.
Definition levelDisabled : Z := 6.

Definition FormatPlain : string := "plain".
Definition FormatJSON : string := "json".
Definition TimestampOff : string := "off".
Definition TimestampRFC3339 : string := "rfc3339".
Definition TimestampRFC3339Nano : string := "rfc3339nano".
Definition TimestampKitchen : string := "kitchen".
Definition DefaultLevel : string := "info".
Definition defaultModuleKey : string := "*".

(** The names of the options in messages. *)
Record option_names := mkNames { on_level : string; on_format : string; on_timestamp : string; on_color : string; on_trace : string }.

Definition env_names : option_names :=
  mkNames "ATTESTATION_LOG_LEVEL" "ATTESTATION_LOG_FORMAT" "ATTESTATION_LOG_TIMESTAMP" "ATTESTATION_LOG_COLOR" "ATTESTATION_TRACE".

Record Config := mkConfig {
  LevelSpec : string; Level : Z; Modules : gmap string Z; Format : string; Color : bool; Timestamp : string; Trace : bool
}.

Section Parse.
Context (names : option_names).

Definition named_level (val : string) : option Z :=
  if existsb (String.eqb val) ["trace"; "debug"]%string then Some DebugLevel
  else if String.eqb val "info" then Some InfoLevel
  else if String.eqb val "warn" then Some WarnLevel
  else if String.eqb val "error" then Some ErrorLevel
  else if String.eqb val "fatal" then Some FatalLevel
  else if String.eqb val "panic" then Some PanicLevel
  else if String.eqb val "disabled" then Some levelDisabled
  else None.

Definition zerologLevels : list string := ["trace"; "debug"; "info"; "warn"; "error"; "fatal"; "panic"]%string.

Definition level_error (val : string) : string :=
  "invalid " +:+ on_level names +:+ " " +:+ quoted val +:+ ": allowed values trace|debug|info|warn|error|fatal|panic|disabled or module filter "
  +:+ quoted "module:level,...,*:level".

Definition parseLevel (val : string) : result string Z :=
  match named_level val with
  | Some lvl => Ok lvl
  | None =>
      match ParseInt64 val with
      | Some n =>
          if ((-128 <=? n) && (n <=? 127))%Z then
            if (n <? -1)%Z then Ok DebugLevel
            else if (5 <? n)%Z then Ok levelDisabled
            else match zerologLevels !! Z.to_nat (n + 1) ≫= named_level with
                 | Some lvl => Ok lvl
                 | None => Err (level_error val)
                 end
          else Err (level_error val)
      | None => Err (level_error val)
      end
  end.

(** One item of a filter list; the default and the modules so far. *)
Definition parse_item (spec item : string) (acc : Z * gmap string Z * gset string) : result string (Z * gmap string Z * gset string) :=
  let '(def, modules, seen) := acc in
  match split ":"%char item with
  | [m; l] =>
      let module := trim_space m in
      if String.eqb module "" then
        Err ("invalid " +:+ on_level names +:+ " " +:+ quoted spec +:+ ": expected " +:+ quoted "module:level" +:+ " pairs, got " +:+ quoted item)
      else if decide (module ∈ seen) then
        Err ("invalid " +:+ on_level names +:+ " " +:+ quoted spec +:+ ": duplicate module " +:+ quoted module)
      else match parseLevel (trim_space l) with
           | Err e => Err e
           | Ok lvl =>
               if String.eqb module defaultModuleKey then Ok (lvl, modules, {[module]} ∪ seen)
               else Ok (def, <[module := lvl]> modules, {[module]} ∪ seen)
           end
  | _ => Err ("invalid " +:+ on_level names +:+ " " +:+ quoted spec +:+ ": expected " +:+ quoted "module:level" +:+ " pairs, got " +:+ quoted item)
  end.

Fixpoint parse_items (spec : string) (items : list string) (acc : Z * gmap string Z * gset string)
    : result string (Z * gmap string Z * gset string) :=
  match items with
  | [] => Ok acc
  | item :: items => match parse_item spec item acc with Err e => Err e | Ok acc => parse_items spec items acc end
  end.

Definition parseLevelSpec (spec : string) : result string (Z * gmap string Z) :=
  if negb (contains_char ":"%char spec) then
    match parseLevel spec with Err e => Err e | Ok lvl => Ok (lvl, ∅) end
  else match parse_items spec (split ","%char spec) (DebugLevel, ∅, ∅) with
       | Err e => Err e
       | Ok (def, modules, _) => Ok (def, modules)
       end.

Definition parse_format (format : string) : result string string :=
  let f := to_lower (trim_space format) in
  if String.eqb f FormatPlain || String.eqb f "" then Ok FormatPlain
  else if String.eqb f FormatJSON then Ok FormatJSON
  else Err ("invalid " +:+ on_format names +:+ " " +:+ quoted format +:+ ": allowed values plain|json").

Definition parse_timestamp (timestamp : string) : result string string :=
  let ts := to_lower (trim_space timestamp) in
  if String.eqb ts TimestampOff || String.eqb ts "" then Ok TimestampOff
  else if existsb (String.eqb ts) [TimestampRFC3339; TimestampRFC3339Nano; TimestampKitchen] then Ok ts
  else Err ("invalid " +:+ on_timestamp names +:+ " " +:+ quoted timestamp +:+ ": allowed values off|rfc3339|rfc3339nano|kitchen").

Definition normal_spec (level : string) : string :=
  let spec := to_lower (trim_space level) in if String.eqb spec "" then DefaultLevel else spec.

Definition ParseConfig (level format : string) (color : bool) (timestamp : string) (trace : bool) : result string Config :=
  match parse_format format with
  | Err e => Err e
  | Ok f =>
  match parse_timestamp timestamp with
  | Err e => Err e
  | Ok ts =>
  match parseLevelSpec (normal_spec level) with
  | Err e => Err e
  | Ok (lvl, modules) =>
      Ok (mkConfig (normal_spec level) lvl modules f (color && negb (String.eqb f FormatJSON)) ts trace)
  end end end.

(** An option that is not set takes its default. *)
Definition ConfigFromViper (level format : option string) (color : option bool) (timestamp : option string) (trace : option bool)
    : result string Config :=
  ParseConfig (default DefaultLevel level) (default FormatPlain format) (default true color)
    (default TimestampRFC3339Nano timestamp) (default false trace).

End Parse.

Definition FormatBool (b : bool) : string := if b then "true" else "false".

Definition Env (prefix : string) (c : Config) : list (string * string) :=
  [(prefix +:+ "LOG_LEVEL", LevelSpec c); (prefix +:+ "LOG_FORMAT", Format c); (prefix +:+ "LOG_COLOR", FormatBool (Color c));
   (prefix +:+ "LOG_TIMESTAMP", Timestamp c); (prefix +:+ "TRACE", FormatBool (Trace c))].

(** The environment of a process: the first value of a name, the empty text if there is none. *)
Fixpoint Getenv (env : list (string * string)) (name : string) : string :=
  match env with [] => ""%string | (n, v) :: env => if String.eqb n name then v else Getenv env name end.

Definition or_default (val dflt : string) : string := if String.eqb val "" then dflt else val.

Definition bool_option (name val : string) (dflt : bool) : result string bool :=
  if String.eqb val "" then Ok dflt
  else match ParseBool val with
       | Some b => Ok b
       | None => Err ("invalid " +:+ name +:+ " " +:+ quoted val +:+ ": allowed values true|false")
       end.

(** The sidecar's. *)
Definition ConfigFromEnv (getenv : string -> string) : result string Config :=
  let n := env_names in
  match bool_option (on_color n) (getenv (on_color n)) true with
  | Err e => Err e
  | Ok color =>
      match bool_option (on_trace n) (getenv (on_trace n)) false with
      | Err e => Err e
      | Ok trace =>
          ParseConfig n (or_default (getenv (on_level n)) DefaultLevel) (or_default (getenv (on_format n)) FormatPlain) color
            (or_default (getenv (on_timestamp n)) TimestampRFC3339Nano) trace
      end
  end.

Definition moduleLevel (c : Config) (module : string) : Z :=
  if String.eqb module "" then Level c else default (Level c) (Modules c !! module).

(** The least level; the order in which the modules are looked at does not matter. *)
Definition minLevel (c : Config) : Z := map_fold (fun _ l lvl => Z.min l lvl) (Level c) (Modules c).

(** ** The logger *)

Definition KeyModule : string := "module".
Definition keyBad : string := "!BADKEY".

Section Logger.
(** Values of any type, and their text. *)
Context {V : Type} (text : V -> string).

(** The last pair whose key is the module's, and what is left. *)
Fixpoint splitModule (kvs : list V) : option V * list V :=
  match kvs with
  | k :: v :: kvs =>
      let '(m, rest) := splitModule kvs in
      if String.eqb (text k) KeyModule then (Some (default v m), rest) else (m, k :: v :: rest)
  | _ => (None, kvs)
  end.

Fixpoint fields (kvs : list V) : list (string * V) :=
  match kvs with
  | k :: v :: kvs => (text k, v) :: fields kvs
  | [k] => [(keyBad, k)]
  | [] => []
  end.

(** [lg_base]: the fields of the context. *)
Record logger := mkLogger { lg_cfg : Config; lg_base : list (string * V); lg_module : string; lg_min : Z; lg_floor : Z }.

Definition New (c : Config) : logger := mkLogger c [] "" (Level c) (minLevel c).

Definition With (l : logger) (kvs : list V) : logger :=
  let '(m, rest) := splitModule kvs in
  mkLogger (lg_cfg l) (lg_base l ++ fields rest)
    (match m with Some v => text v | None => lg_module l end)
    (match m with Some v => moduleLevel (lg_cfg l) (text v) | None => lg_min l end) (lg_floor l).

Record entry := mkEntry { en_level : Z; en_module : string; en_fields : list (string * V) }.

(** What is written, if anything: the core under the logger takes levels from the floor on. *)
Definition log (l : logger) (lvl : Z) (kvs : list V) : option entry :=
  if (lvl <? lg_floor l)%Z then None
  else
    let '(module, min, kvs) :=
      match splitModule kvs with
      | (Some v, rest) => (text v, moduleLevel (lg_cfg l) (text v), rest)
      | (None, _) => (lg_module l, lg_min l, kvs)
      end in
    if (lvl <? min)%Z then None
    else if (lvl <? minLevel (lg_cfg l))%Z then None
    else Some (mkEntry lvl module (lg_base l ++ fields kvs)).

End Logger.

(** ** The two copies *)

(** The same value, or an error each. *)
Definition agree {A} (r1 r2 : result string A) : Prop :=
  match r1, r2 with Ok a, Ok b => a = b | Err _, Err _ => True | _, _ => False end.

Lemma parseLevel_agree n1 n2 val : agree (parseLevel n1 val) (parseLevel n2 val).
Proof.
  unfold parseLevel. destruct (named_level val); [done|]. destruct (ParseInt64 val) as [z|]; [|done].
  destruct (_ && _); [|done]. destruct (_ <? _)%Z; [done|]. destruct (_ <? _)%Z; [done|]. by destruct (_ ≫= _).
Qed.

Lemma parse_item_agree n1 n2 spec item acc : agree (parse_item n1 spec item acc) (parse_item n2 spec item acc).
Proof.
  unfold parse_item. destruct acc as [[def modules] seen]. destruct (split ":"%char item) as [|m [|l [|? ?]]]; try done.
  destruct (String.eqb (trim_space m) ""); [done|]. destruct (decide _); [done|].
  pose proof (parseLevel_agree n1 n2 (trim_space l)) as Ha.
  destruct (parseLevel n1 _) as [a|], (parseLevel n2 _) as [b|]; try done. simpl in Ha. subst b. by destruct (String.eqb _ _).
Qed.

Lemma parse_items_agree n1 n2 spec items acc : agree (parse_items n1 spec items acc) (parse_items n2 spec items acc).
Proof.
  revert acc. induction items as [|item items IH]; intros acc; [done|]. simpl. pose proof (parse_item_agree n1 n2 spec item acc) as Ha.
  destruct (parse_item n1 _ _ _) as [a|], (parse_item n2 _ _ _) as [b|]; try done. simpl in Ha. subst b. apply IH.
Qed.

Lemma parseLevelSpec_agree n1 n2 spec : agree (parseLevelSpec n1 spec) (parseLevelSpec n2 spec).
Proof.
  unfold parseLevelSpec. destruct (negb _).
  - pose proof (parseLevel_agree n1 n2 spec) as Ha. destruct (parseLevel n1 _), (parseLevel n2 _); simpl in *; by subst.
  - pose proof (parse_items_agree n1 n2 spec (split ","%char spec) (DebugLevel, ∅, ∅)) as Ha.
    destruct (parse_items n1 _ _ _) as [[[? ?] ?]|], (parse_items n2 _ _ _) as [[[? ?] ?]|]; try done. simpl in *. by simplify_eq.
Qed.

(** The provider and the sidecar accept the same options and make the same configuration of
    them. *)
Theorem copies_agree (n1 n2 : option_names) (level format timestamp : string) (color trace : bool) :
  agree (ParseConfig n1 level format color timestamp trace) (ParseConfig n2 level format color timestamp trace).
Proof.
  unfold ParseConfig.
  assert (Hf : agree (parse_format n1 format) (parse_format n2 format))
    by (unfold parse_format; destruct (_ || _); [done|]; by destruct (String.eqb _ _)).
  destruct (parse_format n1 format) as [f|], (parse_format n2 format) as [f2|]; try done. simpl in Hf. subst f2.
  assert (Ht : agree (parse_timestamp n1 timestamp) (parse_timestamp n2 timestamp))
    by (unfold parse_timestamp; destruct (_ || _); [done|]; by destruct (existsb _ _)).
  destruct (parse_timestamp n1 timestamp) as [ts|], (parse_timestamp n2 timestamp) as [ts2|]; try done. simpl in Ht. subst ts2.
  pose proof (parseLevelSpec_agree n1 n2 (normal_spec level)) as Hl.
  destruct (parseLevelSpec n1 _) as [[lvl ms]|], (parseLevelSpec n2 _) as [[lvl2 ms2]|]; try done. simpl in *. by simplify_eq.
Qed.

(** ** Handing the options on *)

Lemma lower_space c : is_space (lower_ascii c) = is_space c.
Proof. destruct c as [[] [] [] [] [] [] [] []]; reflexivity. Qed.

Lemma trim_left_lower s : trim_left (to_lower s) = to_lower (trim_left s).
Proof. induction s as [|c s IH]; [done|]. cbn [to_lower trim_left]. rewrite lower_space. by destruct (is_space c). Qed.

Lemma trim_right_lower s : trim_right (to_lower s) = to_lower (trim_right s).
Proof.
  induction s as [|c s IH]; [done|]. cbn [to_lower trim_right]. rewrite IH, lower_space.
  destruct (trim_right s); [by destruct (is_space c)|done].
Qed.

Lemma trim_right_idem s : trim_right (trim_right s) = trim_right s.
Proof.
  induction s as [|c s IH]; [done|]. cbn [trim_right]. destruct (trim_right s) as [|d t] eqn:E.
  - destruct (is_space c) eqn:Ec; [done|]. cbn. by rewrite Ec.
  - cbn [trim_right] in *. by rewrite IH.
Qed.

Lemma trim_left_right s : trim_left (trim_right (trim_left s)) = trim_right (trim_left s).
Proof.
  induction s as [|c s IH]; [done|]. cbn [trim_left]. destruct (is_space c) eqn:Ec; [done|].
  cbn [trim_right]. destruct (trim_right s); [by rewrite Ec; cbn; rewrite Ec|]. cbn [trim_left]. by rewrite Ec.
Qed.

Lemma trim_space_idem s : trim_space (trim_space s) = trim_space s.
Proof. unfold trim_space. by rewrite trim_left_right, trim_right_idem. Qed.

Lemma trim_space_lower s : trim_space (to_lower s) = to_lower (trim_space s).
Proof. unfold trim_space. by rewrite trim_left_lower, trim_right_lower. Qed.

Lemma normal_spec_idem level : normal_spec (normal_spec level) = normal_spec level /\ normal_spec level <> ""%string.
Proof.
  assert (E : normal_spec (to_lower (trim_space level)) = normal_spec level)
    by (unfold normal_spec; by rewrite trim_space_lower, trim_space_idem, to_lower_idem).
  destruct (String.eqb_spec (to_lower (trim_space level)) "") as [Hs|Hs].
  - unfold normal_spec. rewrite Hs. by split.
  - assert (Hn : normal_spec level = to_lower (trim_space level)) by (unfold normal_spec; by rewrite (proj2 (String.eqb_neq _ _))).
    split; [by rewrite Hn at 1|by rewrite Hn].
Qed.

Lemma parse_format_normal n1 n2 format f : parse_format n1 format = Ok f -> parse_format n2 f = Ok f /\ f <> ""%string.
Proof. unfold parse_format. destruct (_ || _); [by intros [= <-]|]. destruct (String.eqb _ FormatJSON); [by intros [= <-]|done]. Qed.

Lemma parse_timestamp_normal n1 n2 timestamp ts :
  parse_timestamp n1 timestamp = Ok ts -> parse_timestamp n2 ts = Ok ts /\ ts <> ""%string.
Proof.
  unfold parse_timestamp at 1. destruct (_ || _); [by intros [= <-]|]. destruct (existsb _ _) eqn:E; [|done]. intros [= <-].
  apply existsb_exists in E as (x & Hx & <-%String.eqb_eq%eq_sym).
  destruct Hx as [Hx|[Hx|[Hx|[]]]]; rewrite <- Hx; done.
Qed.

Section Handed.
Context (c : Config).
Lemma getenv_level : Getenv (Env "ATTESTATION_" c) (on_level env_names) = LevelSpec c.
Proof. reflexivity. Qed.
Lemma getenv_format : Getenv (Env "ATTESTATION_" c) (on_format env_names) = Format c.
Proof. reflexivity. Qed.
Lemma getenv_color : Getenv (Env "ATTESTATION_" c) (on_color env_names) = FormatBool (Color c).
Proof. reflexivity. Qed.
Lemma getenv_timestamp : Getenv (Env "ATTESTATION_" c) (on_timestamp env_names) = Timestamp c.
Proof. reflexivity. Qed.
Lemma getenv_trace : Getenv (Env "ATTESTATION_" c) (on_trace env_names) = FormatBool (Trace c).
Proof. reflexivity. Qed.
End Handed.

(** A process that is handed a configuration in its environment has that configuration. *)
Theorem env_roundtrip (names : option_names) (level format timestamp : string) (color trace : bool) (c : Config) :
  ParseConfig names level format color timestamp trace = Ok c -> ConfigFromEnv (Getenv (Env "ATTESTATION_" c)) = Ok c.
Proof.
  unfold ParseConfig. intros H. destruct (parse_format names format) as [f|] eqn:Ef; [|done].
  destruct (parse_timestamp names timestamp) as [ts|] eqn:Et; [|done].
  destruct (parseLevelSpec names (normal_spec level)) as [[lvl ms]|] eqn:El; [|done]. injection H as <-.
  destruct (parse_format_normal _ env_names _ _ Ef) as [Ef' Hf]. destruct (parse_timestamp_normal _ env_names _ _ Et) as [Et' Ht].
  destruct (normal_spec_idem level) as [Hs Hne].
  assert (Hb : forall name b d, bool_option name (FormatBool b) d = Ok b) by (by intros ? [] ?).
  assert (Hd : forall x y, x <> ""%string -> or_default x y = x) by (intros x y Hx; unfold or_default; by rewrite (proj2 (String.eqb_neq _ _))).
  unfold ConfigFromEnv. rewrite getenv_color, getenv_trace, getenv_level, getenv_format, getenv_timestamp.
  cbn [LevelSpec Format Color Timestamp Trace]. rewrite !Hb, !Hd by done.
  unfold ParseConfig. rewrite Ef', Et', Hs. pose proof (parseLevelSpec_agree names env_names (normal_spec level)) as Ha. rewrite El in Ha.
  destruct (parseLevelSpec env_names (normal_spec level)) as [[l2 m2]|]; [|done]. simpl in Ha. injection Ha as <- <-.
  by destruct color, (String.eqb f FormatJSON).
Qed.

(** ** What is written *)

Section LoggerProofs.
Context {V : Type} (text : V -> string).

Abbreviation splitModule := (splitModule text).
Abbreviation fields := (fields text).

Lemma minLevel_le c m : (minLevel c <= moduleLevel c m)%Z.
Proof.
  assert (Hle : (minLevel c <= Level c)%Z /\ forall k l, Modules c !! k = Some l -> (minLevel c <= l)%Z).
  { unfold minLevel. apply (map_fold_weak_ind (fun r m => (r <= Level c)%Z /\ forall k l, m !! k = Some l -> (r <= l)%Z)).
    - split; [lia|]. intros k l. by rewrite lookup_empty.
    - intros k l mm r Hk [IH1 IH2]. split; [lia|]. intros k' l'. rewrite lookup_insert_Some.
      intros [[<- <-]|[_ Hl]]; [lia|]. specialize (IH2 _ _ Hl). lia. }
  destruct Hle as [H1 H2]. unfold moduleLevel. destruct (String.eqb m ""); [done|].
  destruct (Modules c !! m) as [l|] eqn:E; [by eapply H2|done].
Qed.

(** The induction over key-value lists: none, one left over, a pair and the rest. *)
Lemma kvs_ind (P : list V -> Prop) : P [] -> (forall k, P [k]) -> (forall k v kvs, P kvs -> P (k :: v :: kvs)) -> forall kvs, P kvs.
Proof.
  intros H0 H1 H2 kvs. enough (P kvs /\ forall k, P (k :: kvs)) by tauto.
  induction kvs as [|v kvs [IH1 IH2]]; split; auto.
Qed.

Lemma split_none kvs rest : splitModule kvs = (None, rest) -> rest = kvs.
Proof.
  revert rest. induction kvs as [|k|k v kvs IH] using kvs_ind; intros rest; [by intros [= <-]|by intros [= <-]|].
  cbn [Logging.splitModule]. destruct (splitModule kvs) as [m r]. destruct (String.eqb (text k) KeyModule); [done|].
  intros [= -> <-]. by rewrite (IH r eq_refl).
Qed.

(** No field is named after the module. *)
Lemma fields_no_module kvs : Forall (fun f => f.1 <> KeyModule) (fields (splitModule kvs).2).
Proof.
  induction kvs as [|k|k v kvs IH] using kvs_ind; [constructor|by constructor|]. cbn [Logging.splitModule].
  destruct (splitModule kvs) as [m r]. destruct (String.eqb_spec (text k) KeyModule); [done|]. by constructor.
Qed.

(** The module an entry is written under: the last one that was named, in the contexts of the
    logger and in the call; the fields: all others, in order. *)
Definition module_of (m : string) (kvs : list V) : string := match (splitModule kvs).1 with Some v => text v | None => m end.
Definition all_fields (kvss : list (list V)) : list (string * V) := concat (map (fun kvs => fields (splitModule kvs).2) kvss).

Lemma With_spec c ctx :
  let l := foldl (With text) (New c) ctx in
  lg_cfg l = c /\ lg_module l = foldl module_of "" ctx /\ lg_min l = moduleLevel c (foldl module_of "" ctx) /\
  lg_floor l = minLevel c /\ lg_base l = all_fields ctx.
Proof.
  induction ctx as [|kvs ctx IH] using rev_ind; [done|]. cbv zeta in *. rewrite !foldl_app. cbn [foldl].
  set (l := foldl (With text) (New c) ctx) in *. set (m := foldl module_of "" ctx) in *. destruct IH as (Hc & Hm & Hmin & Hf & Hb).
  clearbody l m. unfold With, all_fields in *. unfold module_of. rewrite map_app, concat_app. cbn [map concat]. rewrite app_nil_r.
  destruct (splitModule kvs) as [[v|] rest] eqn:E; cbn [lg_cfg lg_module lg_min lg_floor lg_base fst snd]; rewrite Hc, Hb, ?Hm, ?Hmin; done.
Qed.

Lemma log_spec c ctx lvl kvs :
  let m := foldl module_of "" (ctx ++ [kvs]) in
  log text (foldl (With text) (New c) ctx) lvl kvs =
  if (lvl <? moduleLevel c m)%Z then None else Some (mkEntry lvl m (all_fields (ctx ++ [kvs]))).
Proof.
  intros m. destruct (With_spec c ctx) as (Hc & Hm & Hmin & Hf & Hb). set (l := foldl (With text) (New c) ctx) in *.
  clearbody l. unfold log. rewrite Hf, Hc, Hm, Hmin, Hb.
  assert (Hle : (minLevel c <= moduleLevel c m)%Z) by apply minLevel_le.
  assert (Ef : all_fields (ctx ++ [kvs]) = all_fields ctx ++ fields (splitModule kvs).2)
    by (unfold all_fields; rewrite map_app, concat_app; simpl; by rewrite app_nil_r).
  rewrite Ef. subst m. rewrite foldl_app in *. cbn [foldl] in *.
  set (m0 := foldl module_of "" ctx) in *. clearbody m0. unfold module_of in *.
  destruct (splitModule kvs) as [[v|] rest] eqn:E; cbn [fst snd] in *.
  - destruct (Z.ltb_spec lvl (minLevel c)); [by rewrite (proj2 (Z.ltb_lt _ _)) by lia|]. by destruct (_ <? _)%Z.
  - apply split_none in E as ->. destruct (Z.ltb_spec lvl (minLevel c)); [by rewrite (proj2 (Z.ltb_lt _ _)) by lia|]. by destruct (_ <? _)%Z.
Qed.

(** An entry is written exactly when its level reaches that of the module it is under, however
    the logger was derived, with every field but the modules: the shortcut at the lowest level
    of all drops nothing else. *)
Theorem entries_filtered (c : Config) (ctx : list (list V)) (lvl : Z) (kvs : list V) :
  let m := foldl module_of "" (ctx ++ [kvs]) in
  log text (foldl (With text) (New c) ctx) lvl kvs =
  if (lvl <? moduleLevel c m)%Z then None else Some (mkEntry lvl m (all_fields (ctx ++ [kvs]))).
Proof. apply log_spec. Qed.

(** An entry has one module: none of its fields is named like it. *)
Theorem one_module (c : Config) (ctx : list (list V)) (lvl : Z) (kvs : list V) (e : entry) :
  log text (foldl (With text) (New c) ctx) lvl kvs = Some e -> Forall (fun f => f.1 <> KeyModule) (en_fields e).
Proof.
  rewrite log_spec. destruct (_ <? _)%Z; [done|]. intros [= <-]. cbn [en_fields]. unfold all_fields.
  apply List.Forall_concat, List.Forall_map, list.Forall_true. intros x. apply fields_no_module.
Qed.

End LoggerProofs.

Module LoggingExamples.

Definition ex_spec : string := " Manifest:DEBUG,*:warn ".
Definition ex_config : Config :=
  mkConfig "manifest:debug,*:warn" WarnLevel {["manifest"%string := DebugLevel]} FormatJSON false TimestampOff false.

Lemma env_roundtrip_witness : ConfigFromEnv (Getenv (Env "ATTESTATION_" ex_config)) = Ok ex_config.
Proof. exact (env_roundtrip env_names ex_spec "JSON" "" true false ex_config eq_refl). Defined.

(** The module of the call is the one that counts, and is not a field. *)
Definition ex_entry : entry := mkEntry DebugLevel "manifest" [("lid"%string, "7"%string); ("err"%string, "x"%string)].

Lemma one_module_witness : Forall (fun f => f.1 <> KeyModule) (en_fields ex_entry).
Proof.
  exact (one_module (fun s => s) ex_config [["module"%string; "cluster"%string; "lid"%string; "7"%string]] DebugLevel
    ["err"%string; "x"%string; "module"%string; "manifest"%string] ex_entry eq_refl).
Defined.

End LoggingExamples.
